(* ===== verification/_CoqProject ===== *)
-Q . S2P
Prelude.v
MemblockDefs.v
MemblockTheory.v
MemblockProps.v
MemblockFind.v
MemblockExamples.v
BuddyDefs.v
BuddyTheory.v
BuddyFree.v
BuddyAlloc.v
PcpDefs.v
PcpTheory.v
PcpAlloc.v
Watermark.v
BuddyExamples.v
KfifoDefs.v
Kfifo.v
KfifoRec.v
KfifoConc.v
KfifoExamples.v
Semaphore.v
RwsemDefs.v
Rwsem.v
CpudlDefs.v
CpudlTheory.v
Cpudl.v
DeadlineDefs.v
Deadline.v
FindBitDefs.v
FindBit.v
BitmapDefs.v
Bitmap.v
BitmapWeight.v
BitmapProps.v
BitmapMapDefs.v
BitmapRegion.v
BitmapMap.v
TimerDefs.v
TimerWheel.v
TimerInv.v
TimerOps.v
TimerRun.v
TimerProps.v
TimerCpuDefs.v
TimerReach.v
TimerNext.v
TimerMigrate.v
TimerExamples.v
NumDefs.v
NumParse.v
NumPrint.v
Number.v
FormatDefs.v
FormatDecode.v
Format.v
State.v
RbDefs.v
RbTree.v
RbInsert.v
RbErase.v
RbWalk.v
RbElv.v
RbDeadline.v
RbExamples.v
Sorting.v
ListSortDefs.v
ListSort.v
SortDefs.v
SortTheory.v
Sort.v
ResourceDefs.v
ResourceTree.v
ResourceRequest.v
ResourceAlloc.v
ResourceInsert.v
ResourceWalk.v
ResourceRegion.v
ResourceExamples.v
Glob.v
Kmp.v
