(* ===== verification/Prelude.v ===== *)
(** * Verification of kernel core components

    The repository is a Linux 3.18 kernel for MediaTek devices with notes by
    its author.  This library models components of its core as executable
    functions and proves them correct: physical memory allocators, kernel
    data structures, sleeping locks, timers, the deadline schedulers of cpus
    and of block devices, and the conversion between numbers and text.

    ** The parts and how they interact

    At boot [mm/memblock.c] records which physical memory exists and which is
    reserved, and serves the first allocations.  It then hands its free ranges
    to the buddy allocator of [mm/page_alloc.c], which keeps the free blocks of
    a zone by order and migrate type; per-cpu lists in front of it serve single
    pages.  [kernel/resource.c] keeps the tree of address ranges that devices
    claim.  [lib/kfifo.c] is the ring buffer drivers use between an interrupt
    handler and a reader.  [kernel/locking/semaphore.c] and
    [kernel/locking/rwsem-spinlock.c] are the locks a task can sleep on.
    [kernel/time/timer.c] runs functions when their time has come; it uses the
    comparison of times of [include/linux/jiffies.h] and the bit search of
    [lib/find_next_bit.c].  [lib/bitmap.c] builds sets on words of bits.
    [kernel/sched/cpudeadline.c] tells the deadline scheduler which cpu runs
    the task with the latest deadline.  [block/deadline-iosched.c] orders the
    requests of a block device between arrival and dispatch; its sorted trees
    are red-black trees of [lib/rbtree.c], which [block/elevator.c] handles.
    [lib/kstrtox.c] and [lib/vsprintf.c] read and print numbers and format
    messages.  [lib/list_sort.c], [lib/sort.c] and [lib/bsearch.c] sort and
    search for all of them.  [lib/glob.c] matches shell patterns, and
    [lib/ts_kmp.c] finds a pattern in a text that comes in pieces.

    ** Files

    - [Prelude] (this file): outcomes of C code, loops with fuel, arrays,
      machine integers, times, the shared lemmas, tactics and hints.
      [State]: actions on a state with faults, and what they establish ([wp]).
    - [MemblockDefs]: [mm/memblock.c], function by function, over a [memblock]
      with its two region arrays.  [MemblockTheory], [MemblockProps]: the array
      invariant and the operations as functions on the set of covered
      addresses.  [MemblockFind]: the free-area iterators, the search and the
      allocation.  [MemblockExamples]: concrete memory maps.
    - [BuddyDefs]: the buddy part of [mm/page_alloc.c] over a [zone].
      [BuddyTheory]: the zone invariant and buddy arithmetic.  [BuddyFree],
      [BuddyAlloc]: freeing and allocating.  [PcpDefs], [PcpTheory],
      [PcpAlloc]: page checks, per-cpu lists, [buffered_rmqueue].
      [Watermark]: the watermark test.  [BuddyExamples]: a concrete zone.
    - [KfifoDefs]: [lib/kfifo.c] over [struct __kfifo].  [Kfifo]: the byte
      queue it implements, user copies, set-up.  [KfifoRec]: record fifos.
      [KfifoConc]: one reader and one writer without a lock.
      [KfifoExamples].
    - [Semaphore]: [kernel/locking/semaphore.c].  [RwsemDefs], [Rwsem]:
      [kernel/locking/rwsem-spinlock.c].  Both as step relations over the
      threads, with a concrete run at the end.
    - [CpudlDefs], [CpudlTheory], [Cpudl]: [kernel/sched/cpudeadline.c].
    - [DeadlineDefs], [Deadline]: [block/deadline-iosched.c]; a sorted tree is
      the list of its requests in order.
    - [FindBitDefs], [FindBit]: [lib/find_next_bit.c], [lib/find_last_bit.c] and
      the bit operations of [include/asm-generic/bitops].  [BitmapDefs],
      [Bitmap], [BitmapWeight], [BitmapProps]: the word-parallel operations of
      [lib/bitmap.c] and its ranges.  [BitmapMapDefs], [BitmapRegion],
      [BitmapMap]: regions and the mapping of bits.
    - [TimerDefs], [TimerCpuDefs]: [kernel/time/timer.c] over the vectors of a
      base.  [TimerWheel], [TimerInv], [TimerOps]: the invariant of the wheel
      and the operations.  [TimerRun], [TimerProps]: the timer interrupt.
      [TimerReach], [TimerNext], [TimerMigrate]: reachable states, the next
      event, cpu hotplug.  [TimerExamples].
    - [NumDefs], [NumParse], [NumPrint], [Number]:
      [lib/kstrtox.c] and the conversion of numbers in [lib/vsprintf.c].
      [FormatDefs], [FormatDecode], [Format]: [vsnprintf].
    - [RbDefs], [RbTree], [RbInsert], [RbErase], [RbWalk]: [lib/rbtree.c] on a
      heap of nodes.  [RbElv]: the trees of requests of [block/elevator.c].
      [RbDeadline]: they implement the lists of [DeadlineDefs].  [RbExamples].
    - [Sorting], [ListSortDefs], [ListSort]: [lib/list_sort.c] on a heap of list
      heads.  [SortDefs], [SortTheory], [Sort]: [lib/sort.c] and
      [lib/bsearch.c] on bytes.
    - [ResourceDefs]: [kernel/resource.c] and [include/linux/ioport.h] on a heap
      of resources.  [ResourceTree]: well-formed forests.  [ResourceRequest],
      [ResourceAlloc], [ResourceInsert]: requesting, releasing, adjusting,
      allocating, moving and inserting.  [ResourceWalk]: the order in which
      [next_resource] visits the tree, the searches and the questions built on
      it.  [ResourceRegion]: regions and the entries they are made of.
      [ResourceExamples]: a test for well-formed forests, a memory map.
    - [Glob]: [lib/glob.c] and the meaning of patterns.  [Kmp]: [lib/ts_kmp.c]
      and the search in linear data of [lib/textsearch.c].

    Definitions carry the names of the C functions they translate.  A loop of
    a function is a definition of its own ([..._step], [..._loop] or
    [..._from]); its comment quotes the loop.

    ** How C is modelled

    A function that can hit [BUG_ON], leave an array, follow a dead pointer or
    loop returns [res]: a value, [Fault] or [NoFuel].  The theorems establish a
    value, so they rule out both.  Integers are [Z]; where C arithmetic can
    wrap, the wrap is written out ([u64], [u32], [s64], [s32] and the operators
    [⊕ ⊖ ⊞ ⊟]).  [unsigned long] and [phys_addr_t] have 64 bits, memory is
    little-endian.  Objects linked by pointers are entries of a map from
    addresses where the links are the subject (red-black trees, [list_sort],
    resources); elsewhere a list linked through [struct list_head] is the list
    of its objects.  Sections that run under a spinlock are single steps; tasks
    interleave between them.  Callbacks (comparison functions, timer functions,
    user copies, page tests) are arguments, with what the code relies on as
    hypotheses or classes.

    ** What the theorems show

    - Memblock: while the array has room, adding, removing and isolating a range
      changes the covered addresses by exactly that range and keeps the regions
      sorted, disjoint and merged; without room, before arrays may be resized,
      the result is [-ENOMEM] and nothing changes.  The search returns an
      aligned free range inside the limits or 0 when there is none; allocation
      reserves it.  What a doubled array holds is not stated.
    - Buddy: a zone invariant (free blocks aligned, disjoint, counted, and
      fully coalesced) is kept by freeing and allocating; freeing adds exactly
      the pages of the block; allocation returns a block that was free and
      fails only when no suitable block exists; the per-cpu layer, with pages in
      any state on its lists, hands out blocks all of whose pages passed the
      checks, drops only blocks with a page that did not, and duplicates none;
      the watermark test implies that the allocation succeeds, if the free-page
      statistic is not above the number of free pages.
    - Kfifo: every operation is an operation of a byte queue, or of a queue of
      records, also when the 32-bit indices wrap and when a user copy fails
      part way; an unlocked reader and writer that interleave at every byte
      keep the stream intact.
    - Semaphores: tokens are conserved, a release hands the token to the first
      waiter, [down] cannot fail; the read-write semaphore excludes writers
      from everyone else and never leaves a free semaphore with only sleeping
      waiters.
    - Deadline heap: [cpudl_set] updates a map from cpus to deadlines and keeps
      heap order, positions and the mask of free cpus; [cpudl_find] returns a
      free cpu or the cpu with the latest deadline.
    - Deadline I/O scheduler: tree and fifo hold the same requests, a dispatch
      moves exactly one queued request chosen by batch, expiry and sector, and
      while a write waits a bounded number of batches and of reads is dispatched.
    - Bits: the word-wise searches find the bit a search bit by bit finds; the
      bitmap operations are the set operations on bits; a free region or
      zero area that is found is free, aligned and the first one.
    - Timers: every reachable base is well formed and a softirq does not crash,
      whatever the timer functions do within the contracts of the interface; if
      they arm timers for a later jiffy only and time stands still, a softirq
      ends and runs the due timers, each once, and no other; the next event is
      that of the earliest timer, as long as none was armed beyond the wheel;
      hotplug moves all timers.
    - Numbers and text: the parsers accept exactly the numbers in range and
      report the others, and a minus sign with zero; printing and parsing are
      inverse; [vsnprintf] ends and stays in its buffer for every format, if
      the extensions of [%p] that it uses do; for formats in the documented
      syntax, given as a list of directives, it prints the text they stand for
      and returns its whole length.
    - Red-black trees: insertion and removal keep the red-black properties and
      the order of the nodes, and touch nothing else; the walks follow the
      order; the trees of the elevator refine the sorted lists of the deadline
      scheduler.
    - Sorting: [list_sort] and [sort] leave the same elements in order,
      [list_sort] is stable; [bsearch] in a sorted array finds an element if
      there is one.
    - Resources: every operation keeps a forest of nested, ordered ranges.  A
      request is granted exactly if nothing overlaps, and a release undoes it;
      an allocation takes the lowest place that fits, or what its callback
      chooses in the first free range where that fits, moving an allocated
      resource included; insertion finds the innermost parent and adopts what
      it covers; adjusting respects parent, siblings and children.  The walks
      visit the matching resources in ascending order, each once, unless range
      and resource both end at the last address.
      A region is granted below the innermost resource that is not busy and
      released again; a reservation with splits fills all gaps of its range.
      [region_is_ram] is shown to never find RAM.
    - Text: [glob_match] agrees with the meaning of the pattern, given by
      recursion over its tokens, although it goes back to the last star only;
      it can read behind the string for an inverted class, and only then.  The
      Knuth-Morris-Pratt search returns the first match behind the offset, or
      that there is none, however the text is cut into pieces.

    ** Fuel and bounds

    Loops are run by [loop] below with fuel computed from the data: the number
    of regions for memblock (twice, plus constants, for the iterators, whose
    position advances in one of two arrays on every round), [MAX_ORDER] for
    merging, the number of pages for draining and for rejecting bad pages, the
    heap size plus two for the deadline heap, the number of words or bits for
    bitmaps, the length of a text for its parsers, the number of objects in
    memory for linked structures.  Each is shown to suffice with [loop_total]
    or [st_loop_ok], an invariant and a measure, so the theorems state that the
    code returns.  Recursion over lists and orders is structural.  Deadlines
    are assumed below [2 ^ 63] ns; an example shows what happens above.  The
    count of [semaphore_tokens] assumes fewer than [2 ^ 32] tokens in all.  The
    count of a read-write semaphore is a number without bounds, since fewer
    than [2 ^ 31] tasks can hold it; the free-page statistic of a zone has no
    per-cpu differences.  Widths in formats are below [2 ^ 15] and precisions at
    most 32760; examples show what larger ones do.
    Arrays for [sort] have fewer than [2 ^ 31] bytes, since it counts in [int].
    Patterns and texts of a search are so short that their sizes fit an
    [unsigned int]; [glob_match] needs as many rounds as the product of the
    lengths of its arguments.

    ** What is not modelled

    Memory barriers and weak memory: steps are sequentially consistent.
    Debugging code that the sources configure out (guard pages, lockdep, page
    poisoning).  In memblock the wrappers that return virtual addresses and
    the debug files; in the page allocator the zonelist walk, reclaim,
    compaction and the sizing of zones; in kfifo the scatter-gather set-up for
    DMA; in the bitmaps the text formats; in [vsnprintf] the extensions of [%p]
    that print kernel objects, in whose place there is a parameter; in the
    red-black trees the generated callbacks of augmented trees; in the timer
    code the system calls and sleeping wrappers.
    In the resource tree the device-managed wrappers, the [/proc] files and the
    boot options; a request for a muxed region that has to
    wait is a result that says where it goes on.  In the text search the list of
    registered algorithms.
    Everything else in the tree (drivers, file systems, networking, architecture
    code, security modules, the user-space sources) is outside this core; it
    talks to hardware or depends on subsystems not modelled. *)

From stdpp Require Export prelude list.
From Stdlib Require Export ZArith Lia.

#[global] Open Scope Z_scope.

(** ** Outcomes of C code

    A C function that can hit a [BUG_ON], read or write outside an array, or
    loop is a function into [res].  [Fault] stands for a failed [BUG_ON] or an
    out-of-bounds access, [NoFuel] for a loop that was not given enough
    iterations; theorems establish [Ok], so they rule both out. *)
Inductive res (A : Type) : Type :=
| Ok (a : A)
| Fault
| NoFuel.
Arguments Ok {A} a.
Arguments Fault {A}.
Arguments NoFuel {A}.

#[global] Instance res_ret : MRet res := fun A => @Ok A.
#[global] Instance res_bind : MBind res := fun A B f m =>
  match m with Ok a => f a | Fault => Fault | NoFuel => NoFuel end.
#[global] Instance res_map : FMap res := fun A B f m =>
  match m with Ok a => Ok (f a) | Fault => Fault | NoFuel => NoFuel end.

(** [BUG_ON(b)] followed by the rest of the function. *)
Definition bug_on {A} (b : bool) (k : res A) : res A := if b then Fault else k.

(** [for (;;) { body }]: the body either goes round again with a new local
    state ([inl]) or leaves the loop with a value ([inr]). *)
Fixpoint loop {S R : Type} (fuel : nat) (body : S -> res (S + R)) (s : S) : res R :=
  match fuel with
  | O => NoFuel
  | Datatypes.S fuel' =>
      match body s with
      | Ok (inl s') => loop fuel' body s'
      | Ok (inr r) => Ok r
      | Fault => Fault
      | NoFuel => NoFuel
      end
  end.

(** ** Arrays *)
Definition aget {A} (l : list A) (i : nat) : res A :=
  match l !! i with Some x => Ok x | None => Fault end.

Definition aset {A} (l : list A) (i : nat) (x : A) : res (list A) :=
  if decide (i < length l)%nat then Ok (<[i:=x]> l) else Fault.

(** [memmove(&l[dst], &l[src], n * sizeof *l)]: [n] entries starting at [src]
    are copied to [dst]; both ranges must lie inside the array. *)
Definition amove {A} (l : list A) (dst src n : nat) : res (list A) :=
  if decide (dst + n <= length l /\ src + n <= length l)%nat
  then Ok (take dst l ++ take n (drop src l) ++ drop (dst + n) l)
  else Fault.

(** ** Machine integers *)
Definition u64 (x : Z) : Z := x mod 2 ^ 64.
Definition u32 (x : Z) : Z := x mod 2 ^ 32.
Definition s64 (x : Z) : Z := (x + 2 ^ 63) mod 2 ^ 64 - 2 ^ 63.
Definition s32 (x : Z) : Z := (x + 2 ^ 31) mod 2 ^ 32 - 2 ^ 31.
Definition ULLONG_MAX : Z := 2 ^ 64 - 1.

(** Wrap-around arithmetic of [u64]/[phys_addr_t] ([⊕], [⊖]) and of
    [unsigned int] ([⊞], [⊟]). *)
Definition add64 (a b : Z) : Z := u64 (a + b).
Definition sub64 (a b : Z) : Z := u64 (a - b).
Definition add32 (a b : Z) : Z := u32 (a + b).
Definition sub32 (a b : Z) : Z := u32 (a - b).
Declare Scope cint_scope.
Delimit Scope cint_scope with cint.
Infix "⊕" := add64 (at level 50, left associativity) : cint_scope.
Infix "⊖" := sub64 (at level 50, left associativity) : cint_scope.
Infix "⊞" := add32 (at level 50, left associativity) : cint_scope.
Infix "⊟" := sub32 (at level 50, left associativity) : cint_scope.
#[global] Open Scope cint_scope.

(** The macros of [include/linux/kernel.h] on a 64-bit type. *)
Definition clamp (val lo hi : Z) : Z := Z.min (Z.max val lo) hi.
Definition round_up (x y : Z) : Z := u64 (Z.lor (x ⊖ 1) (y ⊖ 1) + 1).
Definition round_down (x y : Z) : Z := Z.land x (ULLONG_MAX - (y ⊖ 1)).

(** Comparison of times that wrap around: [include/linux/jiffies.h]. *)
Definition time_after (a b : Z) : bool := s64 (b ⊖ a) <? 0.
Definition time_before (a b : Z) : bool := time_after b a.
Definition time_after_eq (a b : Z) : bool := s64 (a ⊖ b) >=? 0.
Definition time_before_eq (a b : Z) : bool := time_after_eq b a.

(** ** Lemmas on outcomes and loops *)

Lemma res_bind_ok {A B} (f : A -> res B) a : (Ok a ≫= f) = f a.
Proof. reflexivity. Qed.

Lemma res_bind_inv {A B} (f : A -> res B) (m : res A) b :
  (m ≫= f) = Ok b -> exists a, m = Ok a /\ f a = Ok b.
Proof. destruct m; cbn; intros; try discriminate. eauto. Qed.

(** Total correctness of a loop: an invariant, a measure that decreases on
    every iteration that goes round again, and a postcondition established by
    every iteration that leaves. *)
Lemma loop_total {S R} (body : S -> res (S + R)) (I : S -> Prop) (Q : R -> Prop)
    (m : S -> nat) :
  (forall s, I s ->
     (exists s', body s = Ok (inl s') /\ I s' /\ (m s' < m s)%nat) \/
     (exists r, body s = Ok (inr r) /\ Q r)) ->
  forall fuel s, I s -> (m s < fuel)%nat ->
  exists r, loop fuel body s = Ok r /\ Q r.
Proof.
  intros Hb. induction fuel as [|fuel IH]; intros s Hs Hm; [lia|]. cbn.
  destruct (Hb s Hs) as [(s' & -> & Hs' & Hlt) | (r & -> & Hr)]; [|eauto].
  apply IH; [done|lia].
Qed.

(** What an invariant says about a result that was returned. *)
Lemma loop_partial {S R} (body : S -> res (S + R)) (I : S -> Prop) (Q : R -> Prop) :
  (forall s s', I s -> body s = Ok (inl s') -> I s') ->
  (forall s r, I s -> body s = Ok (inr r) -> Q r) ->
  forall fuel s r, loop fuel body s = Ok r -> I s -> Q r.
Proof.
  intros Hl Hr. induction fuel as [|fuel IH]; intros s r; [done|]. cbn.
  destruct (body s) as [[s'|r']| |] eqn:E; intros Heq Hs; try done; [eauto|].
  injection Heq as <-. eauto.
Qed.

(** ** Lemmas on arrays *)

Lemma aget_ok {A} (l : list A) i x : l !! i = Some x -> aget l i = Ok x.
Proof. unfold aget. by intros ->. Qed.

Lemma aget_Some {A} (l : list A) i x : aget l i = Ok x -> l !! i = Some x.
Proof. unfold aget. destruct (l !! i); naive_solver. Qed.

Lemma aget_middle {A} (l1 l2 : list A) x : aget (l1 ++ x :: l2) (length l1) = Ok x.
Proof. apply aget_ok. by apply list_lookup_middle. Qed.

Lemma aset_ok {A} (l : list A) i x :
  (i < length l)%nat -> aset l i x = Ok (<[i:=x]> l).
Proof. intros. unfold aset. by case_decide. Qed.

Lemma aset_middle {A} (l1 l2 : list A) x y :
  aset (l1 ++ x :: l2) (length l1) y = Ok (l1 ++ y :: l2).
Proof.
  rewrite aset_ok by (rewrite length_app; cbn; lia).
  f_equal. rewrite <- (Nat.add_0_r (length l1)) at 1. by rewrite insert_app_r.
Qed.

Lemma take_app_snoc {A} (l1 l2 : list A) x :
  take (S (length l1)) (l1 ++ x :: l2) = l1 ++ [x].
Proof. induction l1; cbn; [done|]. f_equal. done. Qed.

(** Opening a gap of one entry at [length l1]: the last spare entry is lost. *)
Lemma amove_open {A} (l1 l2 : list A) x spare :
  exists y, amove (l1 ++ l2 ++ x :: spare) (S (length l1)) (length l1) (length l2)
            = Ok (l1 ++ y :: l2 ++ spare).
Proof.
  unfold amove. rewrite decide_True by (rewrite !length_app; cbn; lia).
  rewrite drop_app_length, take_app_length.
  assert (Hd : drop (S (length l1) + length l2) (l1 ++ l2 ++ x :: spare) = spare).
  { rewrite drop_app_ge, drop_app_ge by lia.
    by replace (S (length l1) + length l2 - length l1 - length l2)%nat with 1%nat by lia. }
  rewrite Hd. destruct l2 as [|z l2]; cbn [app]; rewrite take_app_snoc, <- app_assoc; eauto.
Qed.

(** Closing the gap left by the entry at [length l1]. *)
Lemma amove_close {A} (l1 l2 : list A) x spare :
  exists y, amove (l1 ++ x :: l2 ++ spare) (length l1) (S (length l1)) (length l2)
            = Ok (l1 ++ l2 ++ y :: spare).
Proof.
  unfold amove. rewrite decide_True by (rewrite !length_app; cbn; rewrite length_app; lia).
  rewrite take_app_length.
  assert (Hs : drop (S (length l1)) (l1 ++ x :: l2 ++ spare) = l2 ++ spare).
  { rewrite drop_app_ge by lia. by replace (S (length l1) - length l1)%nat with 1%nat by lia. }
  rewrite Hs, take_app_length.
  rewrite drop_app_ge by lia.
  replace (length l1 + length l2 - length l1)%nat with (length l2) by lia.
  rewrite app_comm_cons, drop_app_le by (cbn; lia).
  destruct l2 as [|z l2] using rev_ind.
  - exists x. done.
  - exists z. rewrite app_comm_cons, length_app, Nat.add_1_r.
    replace (S (length l2)) with (length (x :: l2)) by done.
    by rewrite drop_app_length, <- !app_assoc.
Qed.

(** ** Lemmas on machine integers *)

Lemma u64_small x : 0 <= x < 2 ^ 64 -> u64 x = x.
Proof. apply Z.mod_small. Qed.
Lemma u32_small x : 0 <= x < 2 ^ 32 -> u32 x = x.
Proof. apply Z.mod_small. Qed.
Lemma s64_small x : - 2 ^ 63 <= x < 2 ^ 63 -> s64 x = x.
Proof. intros. unfold s64. rewrite Z.mod_small by lia. lia. Qed.

Lemma s32_small x : - 2 ^ 31 <= x < 2 ^ 31 -> s32 x = x.
Proof. intros Hx. unfold s32. rewrite Z.mod_small by lia. lia. Qed.
Lemma u64_range x : 0 <= u64 x < 2 ^ 64.
Proof. apply Z.mod_pos_bound. lia. Qed.
Lemma u32_range x : 0 <= u32 x < 2 ^ 32.
Proof. apply Z.mod_pos_bound. lia. Qed.
Lemma add64_small a b : 0 <= a + b < 2 ^ 64 -> a ⊕ b = a + b.
Proof. apply u64_small. Qed.
Lemma sub64_small a b : 0 <= a - b < 2 ^ 64 -> a ⊖ b = a - b.
Proof. apply u64_small. Qed.
Lemma add32_small a b : 0 <= a + b < 2 ^ 32 -> a ⊞ b = a + b.
Proof. apply u32_small. Qed.
Lemma sub32_small a b : 0 <= a - b < 2 ^ 32 -> a ⊟ b = a - b.
Proof. apply u32_small. Qed.

Create HintDb cint.
#[export] Hint Resolve u64_range u32_range aget_ok aget_Some aset_ok : cint.

(** Rounding to a power of two. *)
Lemma round_down_pow2 x k :
  0 <= x < 2 ^ 64 -> 0 <= k < 64 -> round_down x (2 ^ k) = x - x mod 2 ^ k.
Proof.
  intros Hx Hk. unfold round_down, ULLONG_MAX.
  assert (Hp : 0 < 2 ^ k < 2 ^ 64) by (split; [lia|apply Z.pow_lt_mono_r; lia]).
  rewrite sub64_small by lia. replace (2 ^ k - 1) with (Z.ones k) by (rewrite Z.ones_equiv; lia).
  replace (2 ^ 64 - 1) with (Z.ones 64) by done.
  assert (Hld : Z.ldiff (Z.ones k) (Z.ones 64) = 0).
  { apply Z.bits_inj'. intros n Hn. rewrite Z.ldiff_spec, !Z.testbit_ones_nonneg, Z.bits_0 by lia. lia. }
  rewrite Z.sub_nocarry_ldiff by done.
  transitivity (Z.ldiff x (Z.ones k)).
  - apply Z.bits_inj'. intros n Hn. rewrite Z.land_spec, !Z.ldiff_spec.
    destruct (Z.testbit x n) eqn:E; [|done]. destruct (Z.ltb_spec n 64).
    + rewrite (Z.testbit_ones_nonneg 64) by lia. by rewrite (proj2 (Z.ltb_lt _ _)) by lia.
    + rewrite (Z.bits_above_log2 x n) in E; [done|lia|].
      destruct (decide (x = 0)) as [->|]; [cbn; lia|]. apply Z.log2_lt_pow2; [lia|].
      assert (2 ^ 64 <= 2 ^ n) by (apply Z.pow_le_mono_r; lia). lia.
  - rewrite Z.ldiff_ones_r, Z.shiftl_mul_pow2, Z.shiftr_div_pow2 by lia.
    pose proof (Z.div_mod x (2 ^ k)). lia.
Qed.

Lemma lor_ones x k : 0 <= k -> Z.lor x (Z.ones k) = x - x mod 2 ^ k + 2 ^ k - 1.
Proof.
  intros Hk. rewrite <- (Z.lor_ldiff_and x (Z.ones k)) at 1.
  rewrite Z.land_ones, Z.ldiff_ones_r, Z.shiftl_mul_pow2, Z.shiftr_div_pow2 by lia.
  assert (Hp : 0 < 2 ^ k) by lia. pose proof (Z.div_mod x (2 ^ k)).
  transitivity (Z.lor (x / 2 ^ k * 2 ^ k) (Z.ones k)).
  - apply Z.bits_inj'. intros n Hn. rewrite !Z.lor_spec.
    destruct (Z.testbit (Z.ones k) n) eqn:E; [by rewrite !orb_true_r|].
    rewrite !orb_false_r. rewrite Z.testbit_ones in E by lia.
    rewrite Z.mod_pow2_bits_high by lia. by rewrite orb_false_r.
  - rewrite <- Z.add_nocarry_lor.
    + rewrite Z.ones_equiv. lia.
    + rewrite Z.land_ones, Z.mod_mul by lia. done.
Qed.

(** Rewrites wrap-around operations away where [lia] shows nothing wraps. *)
Ltac nowrap :=
  repeat match goal with
  | |- context [?a ⊕ ?b] => rewrite (add64_small a b) by lia
  | |- context [?a ⊖ ?b] => rewrite (sub64_small a b) by lia
  | |- context [?a ⊞ ?b] => rewrite (add32_small a b) by lia
  | |- context [?a ⊟ ?b] => rewrite (sub32_small a b) by lia
  | |- context [u64 ?a] => rewrite (u64_small a) by lia
  | |- context [u32 ?a] => rewrite (u32_small a) by lia
  end.
Tactic Notation "nowrap" "in" hyp(H) :=
  repeat match type of H with
  | context [?a ⊕ ?b] => rewrite (add64_small a b) in H by lia
  | context [?a ⊖ ?b] => rewrite (sub64_small a b) in H by lia
  | context [?a ⊞ ?b] => rewrite (add32_small a b) in H by lia
  | context [?a ⊟ ?b] => rewrite (sub32_small a b) in H by lia
  | context [u64 ?a] => rewrite (u64_small a) in H by lia
  | context [u32 ?a] => rewrite (u32_small a) in H by lia
  end.
