(* ===== verification/MemblockDefs.v ===== *)
(** * mm/memblock.c: the boot-time memory map

    [struct memblock] holds two sorted arrays of physical ranges, [memory] and
    [reserved].  Arrays are lists of exactly [max] entries of which the first
    [cnt] are live; [memmove] leaves stale entries behind as it does in C.
    [phys_addr_t] is 64 bits wide and its arithmetic wraps.  The build modelled
    is the one the sources select: no node map (the node id of a region is
    always 0), no [physmem] array.  This file holds the data and the
    operations; [MemblockTheory.v] holds their theory. *)

From S2P Require Import Prelude.

(** ** Data *)

Record memblock_region := mkRegion {
  rg_base : Z;
  rg_size : Z;
  rg_flags : Z }.

Definition zero_region : memblock_region := mkRegion 0 0 0.

(** Where a [regions] array lives: the static [memblock_*_init_regions] or an
    array allocated at a physical address by [memblock_double_array]. *)
Inductive array_loc := InitRegions | At (pa : Z).

Record memblock_type := mkType {
  mt_cnt : nat;
  mt_max : nat;
  mt_total_size : Z;
  mt_regions : list memblock_region;
  mt_loc : array_loc }.

(** The two values a [struct memblock_type *] takes. *)
Inductive mtype := Memory | Reserved.

(** One entry of the vendor's [memblock_record] log. *)
Record memblock_rec := mkRec {
  mr_base : Z; mr_end : Z; mr_size : Z; mr_flags : Z; mr_ip : Z }.

(** [struct memblock] together with the file's static variables. *)
Record memblock := mkMemblock {
  mb_bottom_up : bool;
  mb_current_limit : Z;
  mb_memory : memblock_type;
  mb_reserved : memblock_type;
  mb_can_resize : bool;
  mb_memory_in_slab : bool;
  mb_reserved_in_slab : bool;
  mb_record : list memblock_rec;
  mb_not_record : nat }.

Definition INIT_MEMBLOCK_REGIONS : nat := 128.
Definition MEMBLOCK_HOTPLUG : Z := 1.
Definition MEMBLOCK_ALLOC_ANYWHERE : Z := ULLONG_MAX.
Definition MEMBLOCK_ALLOC_ACCESSIBLE : Z := 0.
Definition MAX_MEMBLOCK_RECORD : nat := 100.
Definition MAX_NUMNODES : Z := 1.
Definition NUMA_NO_NODE : Z := -1.
Definition PAGE_SHIFT : Z := 12.
Definition PAGE_SIZE : Z := 4096.
Definition SMP_CACHE_BYTES : Z := 64.
Definition ENOMEM : Z := 12.
Definition sizeof_region : Z := 24.
Definition PAGE_ALIGN (x : Z) : Z := Z.land (x ⊕ (PAGE_SIZE - 1)) (ULLONG_MAX - (PAGE_SIZE - 1)).
Definition PFN_UP (x : Z) : Z := Z.shiftr (x ⊕ (PAGE_SIZE - 1)) PAGE_SHIFT.
Definition PFN_DOWN (x : Z) : Z := Z.shiftr x PAGE_SHIFT.
Definition PFN_PHYS (x : Z) : Z := u64 (Z.shiftl x PAGE_SHIFT).

Definition memblock_init_type : memblock_type :=
  mkType 1 INIT_MEMBLOCK_REGIONS 0 (replicate INIT_MEMBLOCK_REGIONS zero_region) InitRegions.

Definition memblock_init : memblock :=
  mkMemblock false MEMBLOCK_ALLOC_ANYWHERE memblock_init_type memblock_init_type
    false false false [] 0.

(** What the file takes from the rest of the kernel: the build and boot
    options, the end of the kernel image, and the slab allocator
    ([slab_is_available], and [kmalloc] as the physical address it returns,
    0 for NULL). *)
Class MBEnv := {
  CONFIG_MOVABLE_NODE : bool;
  movable_node_enabled : bool;
  pa_symbol_end : Z;
  slab_is_available : bool;
  kmalloc_pa : Z -> Z;
  RET_IP : Z }.

(** ** Field updates *)

Definition with_regions (t : memblock_type) (rs : list memblock_region) : memblock_type :=
  mkType (mt_cnt t) (mt_max t) (mt_total_size t) rs (mt_loc t).
Definition with_cnt (t : memblock_type) (c : nat) : memblock_type :=
  mkType c (mt_max t) (mt_total_size t) (mt_regions t) (mt_loc t).
Definition with_total (t : memblock_type) (s : Z) : memblock_type :=
  mkType (mt_cnt t) (mt_max t) s (mt_regions t) (mt_loc t).

Definition get_type (ty : mtype) (mb : memblock) : memblock_type :=
  match ty with Memory => mb_memory mb | Reserved => mb_reserved mb end.

Definition set_type (ty : mtype) (t : memblock_type) (mb : memblock) : memblock :=
  match ty with
  | Memory =>
      mkMemblock (mb_bottom_up mb) (mb_current_limit mb) t (mb_reserved mb) (mb_can_resize mb)
        (mb_memory_in_slab mb) (mb_reserved_in_slab mb) (mb_record mb) (mb_not_record mb)
  | Reserved =>
      mkMemblock (mb_bottom_up mb) (mb_current_limit mb) (mb_memory mb) t (mb_can_resize mb)
        (mb_memory_in_slab mb) (mb_reserved_in_slab mb) (mb_record mb) (mb_not_record mb)
  end.

Definition get_in_slab (ty : mtype) (mb : memblock) : bool :=
  match ty with Memory => mb_memory_in_slab mb | Reserved => mb_reserved_in_slab mb end.

Definition set_in_slab (ty : mtype) (b : bool) (mb : memblock) : memblock :=
  match ty with
  | Memory =>
      mkMemblock (mb_bottom_up mb) (mb_current_limit mb) (mb_memory mb) (mb_reserved mb)
        (mb_can_resize mb) b (mb_reserved_in_slab mb) (mb_record mb) (mb_not_record mb)
  | Reserved =>
      mkMemblock (mb_bottom_up mb) (mb_current_limit mb) (mb_memory mb) (mb_reserved mb)
        (mb_can_resize mb) (mb_memory_in_slab mb) b (mb_record mb) (mb_not_record mb)
  end.

(** ** Operations on one region array *)

(** The capped size; the C function also stores it through its argument. *)
Definition memblock_cap_size (base size : Z) : Z := Z.min size (ULLONG_MAX ⊖ base).

Definition memblock_addrs_overlap (base1 size1 base2 size2 : Z) : bool :=
  (base1 <? base2 ⊕ size2) && (base2 <? base1 ⊕ size1).

Definition overlaps_step (t : memblock_type) (base size : Z) (i : nat) : res (nat + Z) :=
  if (i <? mt_cnt t)%nat then
    r ← aget (mt_regions t) i;
    if memblock_addrs_overlap base size (rg_base r) (rg_size r)
    then Ok (inr (Z.of_nat i))
    else Ok (inl (S i))
  else Ok (inr (-1)).

Definition memblock_overlaps_region (t : memblock_type) (base size : Z) : res Z :=
  loop (S (mt_cnt t)) (overlaps_step t base size) 0%nat.

(** [memblock_set_region_node] is empty in this build. *)
Definition memblock_remove_region (t : memblock_type) (r : nat) : res memblock_type :=
  rgn ← aget (mt_regions t) r;
  let total := mt_total_size t ⊖ rg_size rgn in
  rs ← amove (mt_regions t) r (r + 1) (mt_cnt t - (r + 1));
  let c := (mt_cnt t - 1)%nat in
  if decide (c = 0%nat) then
    rs ← aset rs 0 zero_region;
    Ok (mkType 1 (mt_max t) total rs (mt_loc t))
  else Ok (mkType c (mt_max t) total rs (mt_loc t)).

Definition memblock_insert_region (t : memblock_type) (idx : nat) (base size flags : Z)
    : res memblock_type :=
  bug_on (mt_max t <=? mt_cnt t)%nat (
    rs ← amove (mt_regions t) (idx + 1) idx (mt_cnt t - idx);
    rs ← aset rs idx (mkRegion base size flags);
    Ok (mkType (mt_cnt t + 1) (mt_max t) (mt_total_size t ⊕ size) rs (mt_loc t))).

(** [memblock_get_region_node] is constantly 0 in this build, so that the
    comparison of node ids never separates two regions. *)
Definition merge_step : nat * memblock_type -> res (nat * memblock_type + memblock_type) :=
  fun '(i, t) =>
  if (i <? mt_cnt t - 1)%nat then
    this ← aget (mt_regions t) i;
    next ← aget (mt_regions t) (i + 1);
    if negb (rg_base this ⊕ rg_size this =? rg_base next)
       || negb (rg_flags this =? rg_flags next) then
      bug_on (rg_base next <? rg_base this ⊕ rg_size this)
        (Ok (inl (S i, t)))
    else
      rs ← aset (mt_regions t) i
             (mkRegion (rg_base this) (rg_size this ⊕ rg_size next) (rg_flags this));
      rs ← amove rs (i + 1) (i + 2) (mt_cnt t - (i + 2));
      Ok (inl (i, with_cnt (with_regions t rs) (mt_cnt t - 1)))
  else Ok (inr t).

Definition memblock_merge_regions (t : memblock_type) : res memblock_type :=
  loop (S (mt_cnt t)) merge_step (0%nat, t).

(** Binary search for the region that contains [addr]; -1 when there is none. *)
Definition search_step (t : memblock_type) (addr : Z) : nat * nat -> res (nat * nat + Z) :=
  fun '(lo, hi) =>
  let mid := ((hi + lo) / 2)%nat in
  r ← aget (mt_regions t) mid;
  if addr <? rg_base r then
    if (lo <? mid)%nat then Ok (inl (lo, mid)) else Ok (inr (-1))
  else if rg_base r ⊕ rg_size r <=? addr then
    if (S mid <? hi)%nat then Ok (inl (S mid, hi)) else Ok (inr (-1))
  else Ok (inr (Z.of_nat mid)).

Definition memblock_search (t : memblock_type) (addr : Z) : res Z :=
  loop (S (mt_cnt t)) (search_step t addr) (0%nat, mt_cnt t).

(** ** Iterating over the areas of one array outside another *)

Section Env.
Context `{MBEnv}.

Definition movable_node_is_enabled : bool := CONFIG_MOVABLE_NODE && movable_node_enabled.
Definition memblock_is_hotpluggable (m : memblock_region) : bool :=
  CONFIG_MOVABLE_NODE && negb (Z.land (rg_flags m) MEMBLOCK_HOTPLUG =? 0).
Definition memblock_bottom_up (mb : memblock) : bool := CONFIG_MOVABLE_NODE && mb_bottom_up mb.

(** [*idx = (u32)idx_a | (u64)idx_b << 32] and its inverse. *)
Definition pack_idx (idx_a idx_b : Z) : Z := Z.lor (u32 idx_a) (u64 (Z.shiftl (u64 idx_b) 32)).
Definition idx_a_of (idx : Z) : Z := s32 (Z.land idx 0xffffffff).
Definition idx_b_of (idx : Z) : Z := s32 (Z.shiftr idx 32).

(** The area before reservation [idx_b]: it starts where reservation
    [idx_b - 1] ends and stops where reservation [idx_b] starts. *)
Definition gap_of (tb : memblock_type) (idx_b : Z) : res (Z * Z) :=
  r_start ← (if idx_b =? 0 then Ok 0 else
               r ← aget (mt_regions tb) (Z.to_nat (idx_b - 1)); Ok (rg_base r ⊕ rg_size r));
  r_end ← (if idx_b <? Z.of_nat (mt_cnt tb) then
             r ← aget (mt_regions tb) (Z.to_nat idx_b); Ok (rg_base r)
           else Ok ULLONG_MAX);
  Ok (r_start, r_end).

(** The checks that make the iterators skip a region. *)
Definition skip_region (nid : Z) (m : memblock_region) : bool :=
  (negb (nid =? NUMA_NO_NODE) && negb (nid =? 0))
  || (movable_node_is_enabled && memblock_is_hotpluggable m).

(** What one call of an iterator stores: the new [*idx], and the range written
    through the out parameters, [None] when they are left alone. *)
Definition iter_out : Type := Z * option (Z * Z).

(** The inner loop of [__next_mem_range] for the region [[m_start, m_end)]:
    [inl] when the areas at or after [idx_b] lie above it, so that [idx_a]
    advances. *)
Definition next_gap_step (tb : memblock_type) (idx_a m_start m_end idx_b : Z)
    : res (Z + (Z + iter_out)) :=
  if u64 idx_b <? Z.of_nat (mt_cnt tb) + 1 then
    '(r_start, r_end) ← gap_of tb idx_b;
    if m_end <=? r_start then Ok (inr (inl idx_b))
    else if m_start <? r_end then
      Ok (inr (inr
        (if m_end <=? r_end then pack_idx (idx_a + 1) idx_b else pack_idx idx_a (idx_b + 1),
         Some (Z.max m_start r_start, Z.min m_end r_end))))
    else Ok (inl (idx_b + 1))
  else Ok (inr (inl idx_b)).

Definition next_step (nid : Z) (ta : memblock_type) (tb : option memblock_type)
    : Z * Z -> res (Z * Z + iter_out) :=
  fun '(idx_a, idx_b) =>
  if u64 idx_a <? Z.of_nat (mt_cnt ta) then
    m ← aget (mt_regions ta) (Z.to_nat idx_a);
    let m_start := rg_base m in
    let m_end := rg_base m ⊕ rg_size m in
    if skip_region nid m then Ok (inl (idx_a + 1, idx_b))
    else match tb with
    | None => Ok (inr (pack_idx (idx_a + 1) idx_b, Some (m_start, m_end)))
    | Some tb =>
        out ← loop (mt_cnt tb + 3) (next_gap_step tb idx_a m_start m_end) idx_b;
        match out with
        | inl idx_b => Ok (inl (idx_a + 1, idx_b))
        | inr o => Ok (inr o)
        end
    end
  else Ok (inr (ULLONG_MAX, None)).

Definition __next_mem_range (idx nid : Z) (ta : memblock_type) (tb : option memblock_type)
    : res iter_out :=
  let nid := if nid =? MAX_NUMNODES then NUMA_NO_NODE else nid in
  loop (mt_cnt ta + 2) (next_step nid ta tb) (idx_a_of idx, idx_b_of idx).

Definition next_gap_step_rev (tb : memblock_type) (idx_a m_start m_end idx_b : Z)
    : res (Z + (Z + iter_out)) :=
  if 0 <=? idx_b then
    '(r_start, r_end) ← gap_of tb idx_b;
    if r_end <=? m_start then Ok (inr (inl idx_b))
    else if r_start <? m_end then
      Ok (inr (inr
        (if r_start <=? m_start then pack_idx (idx_a - 1) idx_b else pack_idx idx_a (idx_b - 1),
         Some (Z.max m_start r_start, Z.min m_end r_end))))
    else Ok (inl (idx_b - 1))
  else Ok (inr (inl idx_b)).

Definition next_step_rev (nid : Z) (ta : memblock_type) (tb : option memblock_type)
    : Z * Z -> res (Z * Z + iter_out) :=
  fun '(idx_a, idx_b) =>
  if 0 <=? idx_a then
    m ← aget (mt_regions ta) (Z.to_nat idx_a);
    let m_start := rg_base m in
    let m_end := rg_base m ⊕ rg_size m in
    if skip_region nid m then Ok (inl (idx_a - 1, idx_b))
    else match tb with
    | None => Ok (inr (pack_idx (idx_a + 1) idx_b, Some (m_start, m_end)))
    | Some tb =>
        out ← loop (mt_cnt tb + 3) (next_gap_step_rev tb idx_a m_start m_end) idx_b;
        match out with
        | inl idx_b => Ok (inl (idx_a - 1, idx_b))
        | inr o => Ok (inr o)
        end
    end
  else Ok (inr (ULLONG_MAX, None)).

(** The starting indices are read through [type_b], which must not be NULL. *)
Definition __next_mem_range_rev (idx nid : Z) (ta : memblock_type) (tb : option memblock_type)
    : res iter_out :=
  let nid := if nid =? MAX_NUMNODES then NUMA_NO_NODE else nid in
  s ←
    (if idx =? ULLONG_MAX then
       match tb with
       | None => Fault
       | Some tb => Ok (Z.of_nat (mt_cnt ta) - 1, Z.of_nat (mt_cnt tb))
       end
     else Ok (idx_a_of idx, idx_b_of idx));
  loop (mt_cnt ta + 2) (next_step_rev nid ta tb) s.

(** ** Finding free space *)

(** [for_each_free_mem_range] and its reverse: [body] is run on every free
    range until it returns a value; [next] is the iterator. *)
Definition for_each_range {R} (next : Z -> res (Z * option (Z * Z))) (first : Z) (fuel : nat)
    (body : Z -> Z -> option R) (dflt : R) : res R :=
  s ← next first;
  loop fuel (fun '(i, out) =>
    if i =? ULLONG_MAX then Ok (inr dflt)
    else match out with
         | None => Fault
         | Some (this_start, this_end) =>
             match body this_start this_end with
             | Some r => Ok (inr r)
             | None => s ← next i; Ok (inl s)
             end
         end) s.

Definition free_fuel (mb : memblock) : nat :=
  (mt_cnt (mb_memory mb) + mt_cnt (mb_reserved mb) + 3)%nat.

Definition __memblock_find_range_bottom_up (mb : memblock) (start end_ size align nid : Z)
    : res Z :=
  for_each_range (fun i => __next_mem_range i nid (mb_memory mb) (Some (mb_reserved mb)))
    0 (free_fuel mb)
    (fun this_start this_end =>
       let this_start := clamp this_start start end_ in
       let this_end := clamp this_end start end_ in
       let cand := round_up this_start align in
       if (cand <? this_end) && (size <=? this_end ⊖ cand) then Some cand else None)
    0.

Definition __memblock_find_range_top_down (mb : memblock) (start end_ size align nid : Z)
    : res Z :=
  for_each_range (fun i => __next_mem_range_rev i nid (mb_memory mb) (Some (mb_reserved mb)))
    ULLONG_MAX (free_fuel mb)
    (fun this_start this_end =>
       let this_start := clamp this_start start end_ in
       let this_end := clamp this_end start end_ in
       if this_end <? size then None
       else
         let cand := round_down (this_end ⊖ size) align in
         if this_start <=? cand then Some cand else None)
    0.

Definition memblock_find_in_range_node (mb : memblock) (size align start end_ nid : Z)
    : res Z :=
  let end_ := if end_ =? MEMBLOCK_ALLOC_ACCESSIBLE then mb_current_limit mb else end_ in
  let start := Z.max start PAGE_SIZE in
  let end_ := Z.max start end_ in
  let kernel_end := pa_symbol_end in
  if memblock_bottom_up mb && (kernel_end <? end_) then
    let bottom_up_start := Z.max start kernel_end in
    ret ← __memblock_find_range_bottom_up mb bottom_up_start end_ size align nid;
    if negb (ret =? 0) then Ok ret
    else __memblock_find_range_top_down mb start end_ size align nid
  else __memblock_find_range_top_down mb start end_ size align nid.

Definition memblock_find_in_range (mb : memblock) (start end_ size align : Z) : res Z :=
  memblock_find_in_range_node mb size align start end_ NUMA_NO_NODE.

(** ** Adding, isolating and removing ranges

    [memblock_add_range] and [memblock_isolate_range] may call
    [memblock_double_array], which frees and reserves memory through the same
    two functions.  The definitions below take the doubling function as an
    argument; [memblock_double_array] ties the knot with fuel. *)

Definition doubler := mtype -> Z -> Z -> memblock -> res (Z * memblock).

(** [while (cnt + extra > max) if (memblock_double_array(...) < 0) return -ENOMEM;]
    The boolean is [false] when the function returned [-ENOMEM]. *)
Definition make_room (dbl : doubler) (fuel : nat) (ty : mtype) (extra : nat) (base size : Z)
    (mb : memblock) : res (bool * memblock) :=
  loop fuel (fun mb =>
    let t := get_type ty mb in
    if (mt_max t <? mt_cnt t + extra)%nat then
      '(ret, mb) ← dbl ty base size mb;
      if ret <? 0 then Ok (inr (false, mb)) else Ok (inl mb)
    else Ok (inr (true, mb))) mb.

(** The number of doublings one call can need. *)
Definition ROOM_FUEL : nat := 4.

(** The body of the [for] loop of [memblock_add_range]; the state is
    [(i, base, nr_new, type)]. *)
Definition add_state : Type := nat * Z * nat * memblock_type.

Definition add_range_step (insert : bool) (end_ flags : Z) : add_state -> res (add_state + add_state) :=
  fun '(i, base, nr_new, t) =>
  if (i <? mt_cnt t)%nat then
    rgn ← aget (mt_regions t) i;
    let rbase := rg_base rgn in
    let rend := rbase ⊕ rg_size rgn in
    if end_ <=? rbase then Ok (inr (i, base, nr_new, t))
    else if rend <=? base then Ok (inl (S i, base, nr_new, t))
    else if base <? rbase then
      if insert then
        t ← memblock_insert_region t i base (rbase ⊖ base) flags;
        Ok (inl (S (S i), Z.min rend end_, S nr_new, t))
      else Ok (inl (S i, Z.min rend end_, S nr_new, t))
    else Ok (inl (S i, Z.min rend end_, nr_new, t))
  else Ok (inr (i, base, nr_new, t)).

(** "insert the remaining portion" *)
Definition add_range_rest (insert : bool) (end_ flags : Z) : add_state -> res (memblock_type * nat) :=
  fun '(i, base, nr_new, t) =>
  if base <? end_ then
    if insert then
      t ← memblock_insert_region t i base (end_ ⊖ base) flags;
      Ok (t, S nr_new)
    else Ok (t, S nr_new)
  else Ok (t, nr_new).

(** One round of the [repeat:] loop: counts the regions needed and, when
    [insert] is set, inserts them. *)
Definition add_range_pass (insert : bool) (obase end_ flags : Z) (t : memblock_type)
    : res (memblock_type * nat) :=
  loop (S (mt_cnt t)) (add_range_step insert end_ flags) (0%nat, obase, 0%nat, t)
    ≫= add_range_rest insert end_ flags.

Definition add_range_with (dbl : doubler) (ty : mtype) (base size nid flags : Z) (mb : memblock)
    : res (Z * memblock) :=
  let obase := base in
  let size := memblock_cap_size base size in
  let end_ := base ⊕ size in
  if size =? 0 then Ok (0, mb) else
  let t := get_type ty mb in
  r0 ← aget (mt_regions t) 0;
  if rg_size r0 =? 0 then
    rs ← aset (mt_regions t) 0 (mkRegion base size flags);
    Ok (0, set_type ty (with_total (with_regions t rs) size) mb)
  else
    '(_, nr_new) ← add_range_pass false obase end_ flags t;
    '(ok, mb) ← make_room dbl ROOM_FUEL ty nr_new obase size mb;
    if negb ok then Ok (- ENOMEM, mb) else
    '(t, _) ← add_range_pass true obase end_ flags (get_type ty mb);
    t ← memblock_merge_regions t;
    Ok (0, set_type ty t mb).

(** The splitting loop of [memblock_isolate_range]; the state is
    [(i, *start_rgn, *end_rgn, type)]. *)
Definition isolate_state : Type := nat * nat * nat * memblock_type.

Definition isolate_step (base end_ : Z)
    : isolate_state -> res (isolate_state + nat * nat * memblock_type) :=
  fun '(i, start_rgn, end_rgn, t) =>
  if (i <? mt_cnt t)%nat then
    rgn ← aget (mt_regions t) i;
    let rbase := rg_base rgn in
    let rend := rbase ⊕ rg_size rgn in
    if end_ <=? rbase then Ok (inr (start_rgn, end_rgn, t))
    else if rend <=? base then Ok (inl (S i, start_rgn, end_rgn, t))
    else if rbase <? base then
      rs ← aset (mt_regions t) i
             (mkRegion base (rg_size rgn ⊖ (base ⊖ rbase)) (rg_flags rgn));
      let t := with_total (with_regions t rs) (mt_total_size t ⊖ (base ⊖ rbase)) in
      t ← memblock_insert_region t i rbase (base ⊖ rbase) (rg_flags rgn);
      Ok (inl (S i, start_rgn, end_rgn, t))
    else if end_ <? rend then
      rs ← aset (mt_regions t) i
             (mkRegion end_ (rg_size rgn ⊖ (end_ ⊖ rbase)) (rg_flags rgn));
      let t := with_total (with_regions t rs) (mt_total_size t ⊖ (end_ ⊖ rbase)) in
      t ← memblock_insert_region t i rbase (end_ ⊖ rbase) (rg_flags rgn);
      Ok (inl (i, start_rgn, end_rgn, t))
    else
      Ok (inl (S i, if (end_rgn =? 0)%nat then i else start_rgn, S i, t))
  else Ok (inr (start_rgn, end_rgn, t)).

Definition isolate_loop (base end_ : Z) (t : memblock_type)
    : res (nat * nat * memblock_type) :=
  loop (mt_cnt t + 3) (isolate_step base end_) (0%nat, 0%nat, 0%nat, t).

Definition isolate_range_with (dbl : doubler) (ty : mtype) (base size : Z) (mb : memblock)
    : res (Z * nat * nat * memblock) :=
  let size := memblock_cap_size base size in
  let end_ := base ⊕ size in
  if size =? 0 then Ok (0, 0%nat, 0%nat, mb) else
  '(ok, mb) ← make_room dbl ROOM_FUEL ty 2 base size mb;
  if negb ok then Ok (- ENOMEM, 0%nat, 0%nat, mb) else
  '(start_rgn, end_rgn, t) ← isolate_loop base end_ (get_type ty mb);
  Ok (0, start_rgn, end_rgn, set_type ty t mb).

(** [for (i = end_rgn - 1; i >= start_rgn; i--) memblock_remove_region(type, i)] *)
Fixpoint remove_down (t : memblock_type) (start_rgn n : nat) : res memblock_type :=
  match n with
  | O => Ok t
  | S n' => t ← memblock_remove_region t (start_rgn + n'); remove_down t start_rgn n'
  end.

Definition remove_range_with (dbl : doubler) (ty : mtype) (base size : Z) (mb : memblock)
    : res (Z * memblock) :=
  '(ret, start_rgn, end_rgn, mb) ← isolate_range_with dbl ty base size mb;
  if negb (ret =? 0) then Ok (ret, mb) else
  t ← remove_down (get_type ty mb) start_rgn (end_rgn - start_rgn);
  Ok (0, set_type ty t mb).

(** The log entry [memblock_reserve_region] appends while there is room; the
    stack trace stored beside it is not modelled. *)
Definition record_reserve (base size flags : Z) (mb : memblock) : memblock :=
  if (length (mb_record mb) <? MAX_MEMBLOCK_RECORD)%nat then
    mkMemblock (mb_bottom_up mb) (mb_current_limit mb) (mb_memory mb) (mb_reserved mb)
      (mb_can_resize mb) (mb_memory_in_slab mb) (mb_reserved_in_slab mb)
      (mb_record mb ++ [mkRec base (base ⊕ size ⊖ 1) size flags RET_IP]) (mb_not_record mb)
  else
    mkMemblock (mb_bottom_up mb) (mb_current_limit mb) (mb_memory mb) (mb_reserved mb)
      (mb_can_resize mb) (mb_memory_in_slab mb) (mb_reserved_in_slab mb)
      (mb_record mb) (S (mb_not_record mb)).

Definition reserve_region_with (dbl : doubler) (base size nid flags : Z) (mb : memblock)
    : res (Z * memblock) :=
  add_range_with dbl Reserved base size nid flags (record_reserve base size flags mb).

(** [memblock_double_array]: 0 on success, -1 on failure.  The fuel bounds the
    recursion through [memblock_free] and [memblock_reserve]. *)
Fixpoint memblock_double_array (fuel : nat) (ty : mtype) (new_area_start new_area_size : Z)
    (mb : memblock) : res (Z * memblock) :=
  match fuel with
  | O => NoFuel
  | S fuel' =>
    let t := get_type ty mb in
    let use_slab := slab_is_available in
    if negb (mb_can_resize mb) then Ok (-1, mb) else
    let old_size := u64 (Z.of_nat (mt_max t) * sizeof_region) in
    let new_size := u64 (Z.shiftl old_size 1) in
    let old_alloc_size := PAGE_ALIGN old_size in
    let new_alloc_size := PAGE_ALIGN new_size in
    addr ←
      (if use_slab then Ok (kmalloc_pa new_size)
       else
         let '(nas, nasz) :=
           match ty with Reserved => (new_area_start, new_area_size) | Memory => (0, 0) end in
         addr ← memblock_find_in_range mb (nas ⊕ nasz) (mb_current_limit mb)
                  new_alloc_size PAGE_SIZE;
         if (addr =? 0) && negb (nasz =? 0) then
           memblock_find_in_range mb 0 (Z.min nas (mb_current_limit mb))
             new_alloc_size PAGE_SIZE
         else Ok addr);
    if addr =? 0 then Ok (-1, mb) else
    let old_array := mt_loc t in
    let mb := set_type ty
      (mkType (mt_cnt t) (2 * mt_max t) (mt_total_size t)
         (mt_regions t ++ replicate (mt_max t) zero_region) (At addr)) mb in
    mb ←
      (if get_in_slab ty mb then Ok mb
       else match old_array with
            | InitRegions => Ok mb
            | At pa =>
                '(_, mb) ← remove_range_with (memblock_double_array fuel') Reserved
                             pa old_alloc_size mb;
                Ok mb
            end);
    mb ←
      (if use_slab then Ok mb
       else
         '(ret, mb) ← reserve_region_with (memblock_double_array fuel') addr new_alloc_size
                        MAX_NUMNODES 0 mb;
         bug_on (negb (ret =? 0)) (Ok mb));
    Ok (0, set_in_slab ty use_slab mb)
  end.

(** Doubling [memory] may double [reserved] once; doubling [reserved] leaves
    room for the bookkeeping of its own array. *)
Definition DOUBLE_FUEL : nat := 4.

Definition memblock_add_range : mtype -> Z -> Z -> Z -> Z -> memblock -> res (Z * memblock) :=
  add_range_with (memblock_double_array DOUBLE_FUEL).
Definition memblock_isolate_range
    : mtype -> Z -> Z -> memblock -> res (Z * nat * nat * memblock) :=
  isolate_range_with (memblock_double_array DOUBLE_FUEL).
Definition memblock_remove_range : mtype -> Z -> Z -> memblock -> res (Z * memblock) :=
  remove_range_with (memblock_double_array DOUBLE_FUEL).
Definition memblock_reserve_region : Z -> Z -> Z -> Z -> memblock -> res (Z * memblock) :=
  reserve_region_with (memblock_double_array DOUBLE_FUEL).

(** ** The interface *)

Definition memblock_add_node (base size nid : Z) (mb : memblock) : res (Z * memblock) :=
  memblock_add_range Memory base size nid 0 mb.

Definition memblock_add (base size : Z) (mb : memblock) : res (Z * memblock) :=
  memblock_add_range Memory base size MAX_NUMNODES 0 mb.

Definition memblock_remove (base size : Z) (mb : memblock) : res (Z * memblock) :=
  memblock_remove_range Memory base size mb.

Definition memblock_free (base size : Z) (mb : memblock) : res (Z * memblock) :=
  memblock_remove_range Reserved base size mb.

Definition memblock_reserve (base size : Z) (mb : memblock) : res (Z * memblock) :=
  memblock_reserve_region base size MAX_NUMNODES 0 mb.

(** [for (i = start_rgn; i < end_rgn; i++) f(&type->regions[i])] *)
Fixpoint update_flags (f : Z -> Z) (rs : list memblock_region) (i n : nat)
    : res (list memblock_region) :=
  match n with
  | O => Ok rs
  | S n' =>
      r ← aget rs i;
      rs ← aset rs i (mkRegion (rg_base r) (rg_size r) (f (rg_flags r)));
      update_flags f rs (S i) n'
  end.

(** The common body of [memblock_mark_hotplug] and [memblock_clear_hotplug]. *)
Definition hotplug_with (f : Z -> Z) (base size : Z) (mb : memblock) : res (Z * memblock) :=
  '(ret, start_rgn, end_rgn, mb) ← memblock_isolate_range Memory base size mb;
  if negb (ret =? 0) then Ok (ret, mb) else
  let t := mb_memory mb in
  rs ← update_flags f (mt_regions t) start_rgn (end_rgn - start_rgn);
  t ← memblock_merge_regions (with_regions t rs);
  Ok (0, set_type Memory t mb).

Definition memblock_mark_hotplug (base size : Z) (mb : memblock) : res (Z * memblock) :=
  hotplug_with (fun fl => Z.lor fl MEMBLOCK_HOTPLUG) base size mb.

Definition memblock_clear_hotplug (base size : Z) (mb : memblock) : res (Z * memblock) :=
  hotplug_with (fun fl => Z.land fl (ULLONG_MAX - MEMBLOCK_HOTPLUG)) base size mb.

(** The allocated physical address, 0 on failure. *)
Definition memblock_alloc_range_nid (size align start end_ nid : Z) (mb : memblock)
    : res (Z * memblock) :=
  let align := if align =? 0 then SMP_CACHE_BYTES else align in
  found ← memblock_find_in_range_node mb size align start end_ nid;
  if found =? 0 then Ok (0, mb) else
  '(ret, mb) ← memblock_reserve found size mb;
  Ok (if ret =? 0 then found else 0, mb).

Definition memblock_alloc_range (size align start end_ : Z) (mb : memblock)
    : res (Z * memblock) :=
  memblock_alloc_range_nid size align start end_ NUMA_NO_NODE mb.

Definition memblock_alloc_base_nid (size align max_addr nid : Z) (mb : memblock)
    : res (Z * memblock) :=
  memblock_alloc_range_nid size align 0 max_addr nid mb.

Definition memblock_alloc_nid (size align nid : Z) (mb : memblock) : res (Z * memblock) :=
  memblock_alloc_base_nid size align MEMBLOCK_ALLOC_ACCESSIBLE nid mb.

Definition __memblock_alloc_base (size align max_addr : Z) (mb : memblock)
    : res (Z * memblock) :=
  memblock_alloc_base_nid size align max_addr NUMA_NO_NODE mb.

(** [panic()] is a [Fault]. *)
Definition memblock_alloc_base (size align max_addr : Z) (mb : memblock) : res (Z * memblock) :=
  '(alloc, mb) ← __memblock_alloc_base size align max_addr mb;
  bug_on (alloc =? 0) (Ok (alloc, mb)).

Definition memblock_alloc (size align : Z) (mb : memblock) : res (Z * memblock) :=
  memblock_alloc_base size align MEMBLOCK_ALLOC_ACCESSIBLE mb.

Definition memblock_alloc_try_nid (size align nid : Z) (mb : memblock) : res (Z * memblock) :=
  '(res_, mb) ← memblock_alloc_nid size align nid mb;
  if negb (res_ =? 0) then Ok (res_, mb)
  else memblock_alloc_base size align MEMBLOCK_ALLOC_ACCESSIBLE mb.

Definition memblock_phys_mem_size (mb : memblock) : Z := mt_total_size (mb_memory mb).

(** [for_each_memblock(memory, r)] over the live regions. *)
Definition memblock_mem_size (limit_pfn : Z) (mb : memblock) : Z :=
  let pages := foldl (fun pages r =>
    let start_pfn := Z.min (PFN_UP (rg_base r)) limit_pfn in
    let end_pfn := Z.min (PFN_DOWN (rg_base r ⊕ rg_size r)) limit_pfn in
    pages ⊕ (end_pfn ⊖ start_pfn)) 0 (take (mt_cnt (mb_memory mb)) (mt_regions (mb_memory mb))) in
  PFN_PHYS pages.

Definition memblock_start_of_DRAM (mb : memblock) : res Z :=
  r ← aget (mt_regions (mb_memory mb)) 0; Ok (rg_base r).

Definition memblock_end_of_DRAM (mb : memblock) : res Z :=
  r ← aget (mt_regions (mb_memory mb)) (mt_cnt (mb_memory mb) - 1);
  Ok (rg_base r ⊕ rg_size r).

(** The address at which [limit] bytes of memory have been seen. *)
Fixpoint limit_addr (rs : list memblock_region) (limit : Z) : Z :=
  match rs with
  | [] => ULLONG_MAX
  | r :: rs => if limit <=? rg_size r then rg_base r ⊕ limit else limit_addr rs (limit ⊖ rg_size r)
  end.

Definition memblock_enforce_memory_limit (limit : Z) (mb : memblock) : res memblock :=
  if limit =? 0 then Ok mb else
  let max_addr := limit_addr (take (mt_cnt (mb_memory mb)) (mt_regions (mb_memory mb))) limit in
  '(_, mb) ← memblock_remove_range Memory max_addr ULLONG_MAX mb;
  '(_, mb) ← memblock_remove_range Reserved max_addr ULLONG_MAX mb;
  Ok mb.

Definition memblock_is_reserved (addr : Z) (mb : memblock) : res bool :=
  i ← memblock_search (mb_reserved mb) addr; Ok (negb (i =? -1)).

Definition memblock_is_memory (addr : Z) (mb : memblock) : res bool :=
  i ← memblock_search (mb_memory mb) addr; Ok (negb (i =? -1)).

Definition memblock_is_region_memory (base size : Z) (mb : memblock) : res bool :=
  idx ← memblock_search (mb_memory mb) base;
  let size := memblock_cap_size base size in
  let end_ := base ⊕ size in
  if idx =? -1 then Ok false else
  r ← aget (mt_regions (mb_memory mb)) (Z.to_nat idx);
  Ok ((rg_base r <=? base) && (end_ <=? rg_base r ⊕ rg_size r)).

Definition memblock_is_region_reserved (base size : Z) (mb : memblock) : res bool :=
  let size := memblock_cap_size base size in
  i ← memblock_overlaps_region (mb_reserved mb) base size;
  Ok (0 <=? i).

(** The body of [memblock_trim_memory]'s loop over [r]; removing a region
    steps [r] back, so that the loop sees the same index again. *)
Definition trim_step (align : Z) : nat * memblock_type -> res (nat * memblock_type + memblock_type) :=
  fun '(i, t) =>
  if (i <? mt_cnt t)%nat then
    r ← aget (mt_regions t) i;
    let orig_start := rg_base r in
    let orig_end := rg_base r ⊕ rg_size r in
    let start := round_up orig_start align in
    let end_ := round_down orig_end align in
    if (start =? orig_start) && (end_ =? orig_end) then Ok (inl (S i, t))
    else if start <? end_ then
      rs ← aset (mt_regions t) i (mkRegion start (end_ ⊖ start) (rg_flags r));
      Ok (inl (S i, with_regions t rs))
    else
      t ← memblock_remove_region t i;
      Ok (inl (i, t))
  else Ok (inr t).

Definition memblock_trim_memory (align : Z) (mb : memblock) : res memblock :=
  t ← loop (mt_cnt (mb_memory mb) + 2) (trim_step align) (0%nat, mb_memory mb);
  Ok (set_type Memory t mb).

Definition memblock_set_current_limit (limit : Z) (mb : memblock) : memblock :=
  mkMemblock (mb_bottom_up mb) limit (mb_memory mb) (mb_reserved mb) (mb_can_resize mb)
    (mb_memory_in_slab mb) (mb_reserved_in_slab mb) (mb_record mb) (mb_not_record mb).

Definition memblock_get_current_limit (mb : memblock) : Z := mb_current_limit mb.

Definition memblock_allow_resize (mb : memblock) : memblock :=
  mkMemblock (mb_bottom_up mb) (mb_current_limit mb) (mb_memory mb) (mb_reserved mb) true
    (mb_memory_in_slab mb) (mb_reserved_in_slab mb) (mb_record mb) (mb_not_record mb).

End Env.
