(* ===== verification/MemblockTheory.v ===== *)
(** * Theory of mm/memblock.c

    The abstract meaning of a region array is the partial map [flag_at] from
    physical addresses to region flags.  Every operation of [MemblockDefs.v] is
    shown to return [Ok] (no [BUG_ON], no access outside the array, no missing
    fuel), to keep the array sorted, disjoint and within bounds, and to act on
    [flag_at] as the interface promises. *)

From S2P Require Import Prelude MemblockDefs.

(** ** Abstraction of a region array *)

Definition rg_end (r : memblock_region) : Z := rg_base r + rg_size r.

Lemma rg_end_mk b s f : rg_end (mkRegion b s f) = b + s.
Proof. done. Qed.

Definition in_region (r : memblock_region) (a : Z) : bool :=
  (rg_base r <=? a) && (a <? rg_end r).

(** The flags of the region that contains address [a]. *)
Fixpoint flag_at (rs : list memblock_region) (a : Z) : option Z :=
  match rs with
  | [] => None
  | r :: rs => if in_region r a then Some (rg_flags r) else flag_at rs a
  end.

Definition covered (rs : list memblock_region) (a : Z) : Prop := is_Some (flag_at rs a).

Fixpoint sum_sizes (rs : list memblock_region) : Z :=
  match rs with [] => 0 | r :: rs => rg_size r + sum_sizes rs end.

(** Non-empty regions in increasing order, disjoint, all at or above [lo], none
    reaching past [ULLONG_MAX]. *)
Fixpoint rsorted (lo : Z) (rs : list memblock_region) : Prop :=
  match rs with
  | [] => True
  | r :: rs => lo <= rg_base r /\ 0 < rg_size r /\ rg_end r <= ULLONG_MAX /\ rsorted (rg_end r) rs
  end.

(** No two neighbours could be merged. *)
Fixpoint minimal (rs : list memblock_region) : Prop :=
  match rs with
  | r :: ((n :: _) as rs') => (rg_end r <> rg_base n \/ rg_flags r <> rg_flags n) /\ minimal rs'
  | _ => True
  end.

(** [t] holds the regions [rs], followed by spare entries. *)
Record repr (t : memblock_type) (rs : list memblock_region) : Prop := {
  repr_regions : exists spare, mt_regions t = rs ++ spare;
  repr_cnt : mt_cnt t = length rs;
  repr_max : length (mt_regions t) = mt_max t;
  repr_total : mt_total_size t = u64 (sum_sizes rs) }.

(** [m] returns an array of the same size and place holding [rs']. *)
Definition yields (m : res memblock_type) (t : memblock_type) (rs' : list memblock_region) : Prop :=
  exists t', m = Ok t' /\ repr t' rs' /\ mt_max t' = mt_max t /\ mt_loc t' = mt_loc t.

(** ** Sums and lookups over lists of regions *)

Lemma sum_sizes_app rs1 rs2 : sum_sizes (rs1 ++ rs2) = sum_sizes rs1 + sum_sizes rs2.
Proof. induction rs1; cbn; lia. Qed.

Lemma flag_at_app rs1 rs2 a :
  flag_at (rs1 ++ rs2) a = match flag_at rs1 a with Some f => Some f | None => flag_at rs2 a end.
Proof. induction rs1 as [|r rs1 IH]; cbn; [done|]. by destruct (in_region r a). Qed.

Lemma in_region_spec r a : in_region r a = true <-> rg_base r <= a < rg_end r.
Proof. unfold in_region. lia. Qed.

Lemma in_region_false r a : in_region r a = false <-> ~ (rg_base r <= a < rg_end r).
Proof. rewrite <- in_region_spec. by destruct (in_region r a). Qed.

(** Case analysis on every [in_region] test of the goal. *)
Ltac in_region_cases :=
  repeat match goal with
  | |- context [in_region ?r ?a] =>
      let E := fresh "Hin" in
      destruct (in_region r a) eqn:E;
      [apply in_region_spec in E | apply in_region_false in E]
  end.

Lemma rsorted_weaken lo lo' rs : lo' <= lo -> rsorted lo rs -> rsorted lo' rs.
Proof. destruct rs; cbn; [done|]. intuition lia. Qed.

Lemma flag_at_below lo rs a : rsorted lo rs -> a < lo -> flag_at rs a = None.
Proof.
  revert lo. induction rs as [|r rs IH]; cbn; [done|]. intros lo (? & ? & ? & Hs) Ha.
  in_region_cases; [lia|]. eapply IH; [exact Hs|]. unfold rg_end in *. lia.
Qed.

Lemma rsorted_in lo rs r :
  rsorted lo rs -> r ∈ rs -> lo <= rg_base r /\ 0 < rg_size r /\ rg_end r <= ULLONG_MAX.
Proof.
  revert lo. induction rs as [|x rs IH]; intros lo; cbn; [by intros _ ?%not_elem_of_nil|].
  intros (? & ? & ? & Hs) [->|Hr]%elem_of_cons; [done|].
  destruct (IH _ Hs Hr) as (? & ? & ?). unfold rg_end in *. repeat split; lia.
Qed.

Lemma rsorted_app lo rs1 rs2 :
  rsorted lo (rs1 ++ rs2) <->
  rsorted lo rs1 /\ rsorted (default lo (rg_end <$> last rs1)) rs2.
Proof.
  revert lo. induction rs1 as [|r rs1 IH]; intros lo; [cbn; tauto|].
  destruct rs1 as [|r' rs1]; [cbn; tauto|].
  assert (is_Some (last (r' :: rs1))) as [z Hz] by (by apply last_is_Some).
  rewrite last_cons_cons, Hz. specialize (IH (rg_end r)). rewrite Hz in IH.
  cbn in *. tauto.
Qed.

(** Disjoint non-empty regions fit in the address space. *)
Lemma sum_sizes_bound lo rs :
  rsorted lo rs -> 0 <= lo -> 0 <= sum_sizes rs /\ (rs <> [] -> lo + sum_sizes rs <= ULLONG_MAX).
Proof.
  revert lo. induction rs as [|r rs IH]; cbn; [done|]. intros lo (? & ? & ? & Hs) ?.
  destruct (IH _ Hs) as [Hp Hb]; [unfold rg_end in *; lia|]. split; [lia|]. intros _.
  destruct rs; cbn in *; unfold rg_end in *; [lia|]. specialize (Hb ltac:(done)). lia.
Qed.

(** ** [repr] *)

Lemma repr_live t rs : repr t rs -> take (mt_cnt t) (mt_regions t) = rs.
Proof. intros [[spare ->] -> _ _]. by rewrite take_app_length. Qed.

Lemma repr_aget t rs i r : repr t rs -> rs !! i = Some r -> aget (mt_regions t) i = Ok r.
Proof. intros [[spare ->] _ _ _] Hi. apply aget_ok. by apply lookup_app_l_Some. Qed.

Lemma repr_aget_mid t rs1 r rs2 :
  repr t (rs1 ++ r :: rs2) -> aget (mt_regions t) (length rs1) = Ok r.
Proof. intros H. eapply repr_aget; [exact H|]. by apply list_lookup_middle. Qed.

Lemma repr_cnt_max t rs : repr t rs -> (length rs <= mt_max t)%nat.
Proof. intros [[spare Hs] _ <- _]. rewrite Hs, length_app. lia. Qed.

Lemma u64_add_idemp x y : u64 (u64 x + y) = u64 (x + y).
Proof. unfold u64. by rewrite Zplus_mod_idemp_l. Qed.
Lemma u64_sub_idemp x y : u64 (u64 x - y) = u64 (x - y).
Proof. unfold u64. by rewrite Zminus_mod_idemp_l. Qed.

(** ** Inserting and removing one region *)

Lemma insert_region_yields t rs1 rs2 b s f :
  repr t (rs1 ++ rs2) -> (length (rs1 ++ rs2) < mt_max t)%nat ->
  yields (memblock_insert_region t (length rs1) b s f) t (rs1 ++ mkRegion b s f :: rs2).
Proof.
  intros [[spare Hr] Hc Hm Ht] Hroom. unfold memblock_insert_region, bug_on.
  rewrite (proj2 (Nat.leb_gt _ _)) by lia.
  destruct spare as [|x spare].
  { rewrite app_nil_r in Hr. rewrite Hr in Hm. lia. }
  rewrite Hr, Hc, !Nat.add_1_r, <- app_assoc.
  replace (length (rs1 ++ rs2) - length rs1)%nat with (length rs2) by (rewrite length_app; lia).
  destruct (amove_open rs1 rs2 x spare) as [y ->]. rewrite res_bind_ok, aset_middle, res_bind_ok.
  eexists. split; [done|]. split; [|done]. split; cbn.
  - exists spare. by rewrite <- app_assoc.
  - rewrite !length_app. cbn. lia.
  - rewrite <- Hm, Hr, !length_app. cbn. rewrite !length_app. cbn. lia.
  - rewrite Ht. unfold add64. rewrite u64_add_idemp. f_equal.
    rewrite !sum_sizes_app. cbn. lia.
Qed.

Lemma remove_region_yields t rs1 r rs2 :
  repr t (rs1 ++ r :: rs2) ->
  yields (memblock_remove_region t (length rs1)) t
    (match rs1 ++ rs2 with [] => [zero_region] | rs => rs end).
Proof.
  intros Hrep. pose proof (repr_aget_mid _ _ _ _ Hrep) as Hget.
  destruct Hrep as [[spare Hr] Hc Hm Ht]. unfold memblock_remove_region.
  rewrite Hget, res_bind_ok, Hc, Hr, Nat.add_1_r, <- app_assoc. cbn [app].
  replace (length (rs1 ++ r :: rs2) - S (length rs1))%nat with (length rs2)
    by (rewrite length_app; cbn; lia).
  destruct (amove_close rs1 rs2 r spare) as [y ->]. rewrite res_bind_ok.
  assert (Htot : mt_total_size t ⊖ rg_size r = u64 (sum_sizes (rs1 ++ rs2))).
  { rewrite Ht. unfold sub64. rewrite u64_sub_idemp. f_equal. rewrite !sum_sizes_app. cbn. lia. }
  rewrite Hr in Hm. rewrite !length_app in Hm. cbn in Hm. case_decide as Hz.
  - rewrite length_app in Hz. cbn in Hz. destruct rs1; [|cbn in Hz; lia].
    destruct rs2; [|cbn in Hz; lia]. cbn. eexists. split; [done|].
    split; [|done]. split; cbn; eauto.
  - destruct (rs1 ++ rs2) as [|z rs] eqn:E.
    + apply app_eq_nil in E as [-> ->]. cbn in Hz. lia.
    + rewrite <- E in *. eexists. split; [done|]. split; [|done]. split; cbn.
      * exists (y :: spare). by rewrite <- app_assoc.
      * rewrite !length_app. cbn. lia.
      * rewrite !length_app. cbn. rewrite length_app in *. lia.
      * done.
Qed.

(** ** Adding a range *)

(** The part of the new range that is left once everything below [base] is
    dealt with. *)
Definition rest_list (base end_ flags : Z) : list memblock_region :=
  if base <? end_ then [mkRegion base (end_ - base) flags] else [].

(** What a round of [memblock_add_range] with [insert] set makes of the array. *)
Fixpoint add_list (base end_ flags : Z) (rs : list memblock_region) : list memblock_region :=
  match rs with
  | [] => rest_list base end_ flags
  | r :: rs' =>
      if end_ <=? rg_base r then rest_list base end_ flags ++ rs
      else if rg_end r <=? base then r :: add_list base end_ flags rs'
      else (if base <? rg_base r then [mkRegion base (rg_base r - base) flags] else [])
             ++ r :: add_list (Z.min (rg_end r) end_) end_ flags rs'
  end.

Lemma add_list_length base end_ flags rs :
  (length rs <= length (add_list base end_ flags rs) <= 2 * length rs + 1)%nat.
Proof.
  revert base. induction rs as [|r rs IH]; intros base; cbn.
  - unfold rest_list. case_match; cbn; lia.
  - case_match; [|case_match].
    + unfold rest_list. case_match; cbn; lia.
    + cbn. specialize (IH base). lia.
    + specialize (IH (Z.min (rg_end r) end_)). case_match; cbn; lia.
Qed.

Definition regions_ok (rs : list memblock_region) : Prop :=
  Forall (fun r => 0 <= rg_base r /\ 0 <= rg_size r /\ rg_end r <= ULLONG_MAX) rs.

Lemma rsorted_ok lo rs : 0 <= lo -> rsorted lo rs -> regions_ok rs.
Proof.
  revert lo. induction rs as [|r rs IH]; intros lo Hlo; [constructor|]. cbn.
  intros (? & ? & ? & Hs). unfold rg_end in *.
  constructor; [unfold rg_end; lia|]. eapply IH; [|exact Hs]. lia.
Qed.

(** The end of a live region computed in C does not wrap. *)
Lemma rg_end_nowrap r :
  0 <= rg_base r -> 0 <= rg_size r -> rg_end r <= ULLONG_MAX ->
  rg_base r ⊕ rg_size r = rg_end r.
Proof. unfold rg_end, ULLONG_MAX. intros. nowrap. done. Qed.

Section add_pass.
Context (end_ flags : Z) (Hend : 0 <= end_ <= ULLONG_MAX).

Lemma add_rest_insert t pre rs base nr :
  repr t (pre ++ rs) -> 0 <= base ->
  (length pre + length (rest_list base end_ flags ++ rs) <= mt_max t)%nat ->
  exists t', add_range_rest true end_ flags (length pre, base, nr, t)
               = Ok (t', (nr + length (rest_list base end_ flags))%nat) /\
    repr t' (pre ++ rest_list base end_ flags ++ rs) /\
    mt_max t' = mt_max t /\ mt_loc t' = mt_loc t.
Proof.
  intros Hrep Hb Hroom. unfold add_range_rest, rest_list in *.
  destruct (base <? end_) eqn:E; [|exists t; rewrite Nat.add_0_r; done].
  unfold ULLONG_MAX in *. nowrap.
  destruct (insert_region_yields t pre rs base (end_ - base) flags Hrep) as (t' & -> & Hr & Hm & Hl).
  { rewrite length_app. cbn in Hroom. lia. }
  exists t'. rewrite Nat.add_1_r. done.
Qed.

(** The inserting round turns [rs] into [add_list] and counts what it inserted. *)
Lemma add_loop_insert rs : forall pre base nr t fuel,
  repr t (pre ++ rs) -> regions_ok rs -> 0 <= base ->
  (length pre + length (add_list base end_ flags rs) <= mt_max t)%nat ->
  (length rs < fuel)%nat ->
  exists t', (loop fuel (add_range_step true end_ flags) (length pre, base, nr, t)
                ≫= add_range_rest true end_ flags)
               = Ok (t', (nr + (length (add_list base end_ flags rs) - length rs))%nat) /\
    repr t' (pre ++ add_list base end_ flags rs) /\
    mt_max t' = mt_max t /\ mt_loc t' = mt_loc t.
Proof.
  induction rs as [|r rs IH]; intros pre base nr t fuel Hrep Hok Hb Hroom Hf;
    (destruct fuel as [|fuel]; [cbn in Hf; lia|]); cbn [loop]; unfold add_range_step at 1;
    rewrite (repr_cnt _ _ Hrep), length_app; cbn [length].
  - rewrite (proj2 (Nat.ltb_ge _ _)) by lia. rewrite res_bind_ok.
    destruct (add_rest_insert t pre [] base nr Hrep Hb) as (t' & -> & Hr' & Hm & Hl).
    { rewrite app_nil_r. done. }
    rewrite app_nil_r in Hr'. exists t'. cbn [add_list length]. rewrite Nat.sub_0_r. done.
  - rewrite (proj2 (Nat.ltb_lt _ _)) by lia.
    apply Forall_cons in Hok as [(Hb0 & Hs0 & He0) Hok].
    rewrite (repr_aget_mid _ _ _ _ Hrep), res_bind_ok, rg_end_nowrap by done.
    cbn [add_list] in *. destruct (end_ <=? rg_base r) eqn:E1.
    { rewrite res_bind_ok.
      destruct (add_rest_insert t pre (r :: rs) base nr Hrep Hb) as (t' & -> & Hr' & Hm & Hl); [done|].
      exists t'. rewrite length_app. cbn [length].
      replace (length (rest_list base end_ flags) + S (length rs) - S (length rs))%nat
        with (length (rest_list base end_ flags)) by lia. done. }
    assert (Hrep' : repr t ((pre ++ [r]) ++ rs)) by (by rewrite <- app_assoc).
    destruct (rg_end r <=? base) eqn:E2.
    { cbn [length] in Hroom.
      destruct (IH (pre ++ [r]) base nr t fuel Hrep' Hok Hb) as (t' & Heq & Hr' & Hm & Hl).
      { rewrite length_app. cbn. lia. } { cbn in Hf. lia. }
      rewrite length_app, Nat.add_1_r in Heq. rewrite Heq. exists t'.
      rewrite <- app_assoc in Hr'. cbn [length]. done. }
    assert (Hmin : 0 <= Z.min (rg_end r) end_) by (unfold rg_end in *; lia).
    destruct (base <? rg_base r) eqn:E3.
    + unfold ULLONG_MAX, rg_end in *. nowrap. fold (rg_end r) in *.
      cbn [app length] in Hroom.
      pose proof (add_list_length (Z.min (rg_end r) end_) end_ flags rs) as Hlen.
      destruct (insert_region_yields t pre (r :: rs) base (rg_base r - base) flags Hrep)
        as (t1 & -> & Hr1 & Hm1 & Hl1). { rewrite length_app. cbn. lia. }
      rewrite res_bind_ok.
      destruct (IH (pre ++ [mkRegion base (rg_base r - base) flags; r])
                   (Z.min (rg_end r) end_) (S nr) t1 fuel) as (t' & Heq & Hr' & Hm & Hl).
      { by rewrite <- app_assoc. } { done. } { done. }
      { rewrite length_app, Hm1. cbn. lia. } { cbn in Hf. lia. }
      rewrite length_app, Nat.add_comm in Heq. cbn [length Nat.add] in Heq. rewrite Heq. exists t'.
      rewrite <- app_assoc in Hr'. cbn [app length]. split; [do 2 f_equal; lia|].
      split; [done|]. split; congruence.
    + cbn [app length] in Hroom.
      destruct (IH (pre ++ [r]) (Z.min (rg_end r) end_) nr t fuel Hrep' Hok Hmin)
        as (t' & Heq & Hr' & Hm & Hl).
      { rewrite length_app. cbn. lia. } { cbn in Hf. lia. }
      rewrite length_app, Nat.add_1_r in Heq. rewrite Heq. exists t'.
      rewrite <- app_assoc in Hr'. cbn [app length]. done.
Qed.

(** The counting round leaves the array alone and returns the number of
    regions the inserting round will add. *)
Lemma add_loop_count rs : forall pre base nr t fuel,
  repr t (pre ++ rs) -> regions_ok rs -> (length rs < fuel)%nat ->
  (loop fuel (add_range_step false end_ flags) (length pre, base, nr, t)
     ≫= add_range_rest false end_ flags)
    = Ok (t, (nr + (length (add_list base end_ flags rs) - length rs))%nat).
Proof.
  assert (Hrest : forall i base nr t, add_range_rest false end_ flags (i, base, nr, t)
            = Ok (t, (nr + length (rest_list base end_ flags))%nat)).
  { intros. unfold add_range_rest, rest_list. case_match; cbn; do 2 f_equal; lia. }
  induction rs as [|r rs IH]; intros pre base nr t fuel Hrep Hok Hf;
    (destruct fuel as [|fuel]; [cbn in Hf; lia|]); cbn [loop]; unfold add_range_step at 1;
    rewrite (repr_cnt _ _ Hrep), length_app; cbn [length].
  - rewrite (proj2 (Nat.ltb_ge _ _)) by lia. rewrite res_bind_ok, Hrest.
    cbn. do 2 f_equal. lia.
  - rewrite (proj2 (Nat.ltb_lt _ _)) by lia.
    apply Forall_cons in Hok as [(Hb0 & Hs0 & He0) Hok].
    rewrite (repr_aget_mid _ _ _ _ Hrep), res_bind_ok, rg_end_nowrap by done.
    assert (Hrep' : repr t ((pre ++ [r]) ++ rs)) by (by rewrite <- app_assoc).
    assert (Hi : S (length pre) = length (pre ++ [r])) by (rewrite length_app; cbn; lia).
    cbn [add_list]. pose proof (add_list_length (Z.min (rg_end r) end_) end_ flags rs).
    destruct (end_ <=? rg_base r); [|destruct (rg_end r <=? base); [|destruct (base <? rg_base r)]].
    + rewrite res_bind_ok, Hrest, length_app. cbn. do 2 f_equal. lia.
    + rewrite Hi, IH by (done || cbn in Hf; lia). done.
    + rewrite Hi, IH by (done || cbn in Hf; lia). cbn. do 2 f_equal. lia.
    + rewrite Hi, IH by (done || cbn in Hf; lia). done.
Qed.
End add_pass.

(** Nothing is left to add above [end_]. *)
Lemma add_list_done base end_ flags lo rs :
  end_ <= base -> end_ <= lo -> rsorted lo rs -> add_list base end_ flags rs = rs.
Proof.
  intros Hb Hlo. destruct rs as [|r rs]; cbn; intros Hs.
  - unfold rest_list. by rewrite (proj2 (Z.ltb_ge _ _)) by lia.
  - rewrite (proj2 (Z.leb_le _ _)) by lia. unfold rest_list.
    by rewrite (proj2 (Z.ltb_ge _ _)) by lia.
Qed.

Lemma add_list_sorted end_ flags rs : end_ <= ULLONG_MAX -> forall lo base,
  lo <= base <= end_ -> rsorted lo rs -> rsorted lo (add_list base end_ flags rs).
Proof.
  intros Hend. induction rs as [|r rs IH]; intros lo base Hb; cbn.
  - intros _. unfold rest_list. case_match; cbn; [|done]. unfold rg_end; cbn. lia.
  - intros (? & ? & ? & Hs). destruct (end_ <=? rg_base r) eqn:E1.
    { unfold rest_list, rg_end in *. case_match; cbn; unfold rg_end; cbn; intuition lia. }
    destruct (rg_end r <=? base) eqn:E2.
    { cbn. repeat split; try done. apply IH; [lia|done]. }
    assert (Htl : rsorted (rg_end r) (add_list (Z.min (rg_end r) end_) end_ flags rs)).
    { destruct (Z.le_gt_cases (rg_end r) end_).
      - apply IH; [lia|done].
      - by rewrite (add_list_done _ _ _ (rg_end r)) by (done || lia). }
    unfold rg_end in *. case_match; cbn; unfold rg_end; cbn; repeat split; try done; lia.
Qed.

(** Addresses keep their flags; new addresses of the range get [flags]. *)
Lemma add_list_flag_at end_ flags rs a : forall lo base,
  base <= end_ -> rsorted lo rs ->
  flag_at (add_list base end_ flags rs) a =
  match flag_at rs a with
  | Some f => Some f
  | None => if (base <=? a) && (a <? end_) then Some flags else None
  end.
Proof.
  assert (Hrest : forall base, flag_at (rest_list base end_ flags) a =
            if (base <=? a) && (a <? end_) then Some flags else None).
  { intros base. unfold rest_list. case_match; cbn; unfold in_region, rg_end; cbn.
    - replace (base + (end_ - base)) with end_ by lia. by case_match.
    - by destruct ((base <=? a) && (a <? end_)) eqn:?; [lia|]. }
  induction rs as [|r rs IH]; intros lo base Hb; cbn; [done|].
  intros (? & ? & ? & Hs). destruct (end_ <=? rg_base r) eqn:E1.
  { rewrite flag_at_app, Hrest. cbn.
    destruct ((base <=? a) && (a <? end_)) eqn:E; [|by repeat case_match].
    in_region_cases; [lia|]. by rewrite (flag_at_below (rg_end r) rs a) by (done || unfold rg_end in *; lia). }
  destruct (rg_end r <=? base) eqn:E2.
  { cbn. rewrite (IH (rg_end r)) by done. by destruct (in_region r a). }
  rewrite flag_at_app. cbn. rewrite (IH (rg_end r)) by (done || lia).
  unfold rg_end in *. in_region_cases; unfold rg_end in *.
  - destruct (base <? rg_base r); cbn; in_region_cases; unfold rg_end in *; cbn in *; done || lia.
  - assert (Hlow : a < rg_base r -> flag_at rs a = None)
      by (intros; eapply flag_at_below; [exact Hs|]; unfold rg_end; lia).
    destruct (base <? rg_base r) eqn:E3; cbn; in_region_cases; unfold rg_end in *; cbn in *;
      try (rewrite Hlow by lia);
      repeat (case_match; try done; try lia).
Qed.

(** ** Merging neighbours *)

Definition mergeable (r n : memblock_region) : bool :=
  (rg_end r =? rg_base n) && (rg_flags r =? rg_flags n).

Definition joined (r n : memblock_region) : memblock_region :=
  mkRegion (rg_base r) (rg_size r + rg_size n) (rg_flags r).

Lemma joined_end r n : mergeable r n = true -> rg_end (joined r n) = rg_end n.
Proof. unfold mergeable, rg_end. cbn. lia. Qed.

Lemma joined_sorted lo r n rs :
  mergeable r n = true -> rsorted lo (r :: n :: rs) -> rsorted lo (joined r n :: rs).
Proof.
  intros Hm (? & ? & ? & ? & ? & ? & Hs). cbn [rsorted]. rewrite joined_end by done.
  cbn. repeat split; done || lia.
Qed.

Fixpoint merge_from (r : memblock_region) (rs : list memblock_region) : list memblock_region :=
  match rs with
  | [] => [r]
  | n :: rs =>
      if mergeable r n
      then merge_from (joined r n) rs
      else r :: merge_from n rs
  end.

Definition merge_list (rs : list memblock_region) : list memblock_region :=
  match rs with [] => [] | r :: rs => merge_from r rs end.

Lemma merge_from_head r rs : exists s rs', merge_from r rs = mkRegion (rg_base r) s (rg_flags r) :: rs'.
Proof.
  revert r. induction rs as [|n rs IH]; intros r; cbn; [destruct r; eauto|].
  case_match; [|destruct r; eauto].
  destruct (IH (joined r n)) as (? & ? & ->). eauto.
Qed.

Lemma merge_from_minimal r rs : minimal (merge_from r rs).
Proof.
  revert r. induction rs as [|n rs IH]; intros r; cbn; [done|].
  destruct (mergeable r n) eqn:E; [apply IH|].
  specialize (IH n). destruct (merge_from_head n rs) as (s & rs' & Heq). rewrite Heq in *.
  split; [|done]. cbn. unfold mergeable in E. lia.
Qed.

Lemma merge_from_sorted lo r rs : rsorted lo (r :: rs) -> rsorted lo (merge_from r rs).
Proof.
  revert lo r. induction rs as [|n rs IH]; intros lo r; [done|].
  intros Hs. cbn [merge_from]. destruct (mergeable r n) eqn:E.
  - apply IH. by apply joined_sorted.
  - destruct Hs as (? & ? & ? & Hs). cbn. repeat split; try done. by apply IH.
Qed.

Lemma merge_from_flag_at lo r rs a :
  rsorted lo (r :: rs) -> flag_at (merge_from r rs) a = flag_at (r :: rs) a.
Proof.
  revert lo r. induction rs as [|n rs IH]; intros lo r; [done|].
  intros Hs. cbn [merge_from]. destruct (mergeable r n) eqn:E.
  - rewrite (IH lo) by (by apply joined_sorted). destruct Hs as (? & ? & ? & ? & ? & ? & Hs).
    cbn [flag_at]. pose proof (joined_end r n E) as Hj. unfold mergeable in E.
    in_region_cases; rewrite ?Hj in *; unfold rg_end in *; cbn in *; try done; try lia. f_equal. lia.
  - destruct Hs as (? & ? & ? & Hs). cbn [flag_at]. rewrite (IH (rg_end r)) by done. done.
Qed.

Lemma merge_from_sum r rs : sum_sizes (merge_from r rs) = rg_size r + sum_sizes rs.
Proof.
  revert r. induction rs as [|n rs IH]; intros r; cbn; [done|].
  case_match; [rewrite IH; cbn; lia|]. cbn. rewrite IH. lia.
Qed.

(** One merge at position [length pre]. *)
Lemma merge_step_join t pre r n rs :
  repr t (pre ++ r :: n :: rs) -> mergeable r n = true ->
  0 <= rg_base r -> 0 < rg_size r -> 0 < rg_size n -> rg_end n <= ULLONG_MAX ->
  exists t', merge_step (length pre, t) = Ok (inl (length pre, t')) /\
    repr t' (pre ++ joined r n :: rs) /\
    mt_max t' = mt_max t /\ mt_loc t' = mt_loc t.
Proof.
  intros Hrep Hm Hb Hs Hs' He. pose proof Hrep as [[spare Hr] Hc Hmax Ht].
  unfold mergeable, rg_end, ULLONG_MAX in *.
  unfold merge_step. rewrite Hc, length_app. cbn [length].
  rewrite (proj2 (Nat.ltb_lt _ _)) by lia.
  rewrite (repr_aget_mid _ _ _ _ Hrep), res_bind_ok.
  assert (Hrep2 : repr t ((pre ++ [r]) ++ n :: rs)) by (by rewrite <- app_assoc).
  replace (length pre + 1)%nat with (length (pre ++ [r])) by (rewrite length_app; done).
  rewrite (repr_aget_mid _ _ _ _ Hrep2), res_bind_ok. nowrap.
  rewrite (proj2 (Z.eqb_eq _ _)) by lia. rewrite (proj2 (Z.eqb_eq (rg_flags r) _)) by lia. cbn [negb orb].
  rewrite Hr, <- app_assoc. cbn [app]. rewrite aset_middle, res_bind_ok.
  fold (joined r n). destruct (amove_close (pre ++ [joined r n]) rs n spare) as [y Hmv].
  rewrite <- !app_assoc, !length_app in Hmv. cbn [app length] in Hmv.
  rewrite length_app. cbn [length].
  replace (length pre + 2)%nat with (S (length pre + 1)) by lia.
  replace (length pre + S (S (length rs)) - S (length pre + 1))%nat with (length rs) by lia.
  rewrite Hmv, res_bind_ok. eexists. split; [done|]. split; [|done]. split; cbn.
  - exists (y :: spare). by rewrite <- app_assoc.
  - rewrite !length_app. cbn. lia.
  - rewrite <- Hmax, Hr, !length_app. cbn. rewrite !length_app. cbn. lia.
  - rewrite Ht. f_equal. rewrite !sum_sizes_app. cbn. lia.
Qed.

Lemma merge_loop rs : forall pre r t lo fuel,
  repr t (pre ++ r :: rs) -> 0 <= lo -> rsorted lo (r :: rs) -> (length rs < fuel)%nat ->
  yields (loop fuel merge_step (length pre, t)) t (pre ++ merge_from r rs).
Proof.
  induction rs as [|n rs IH]; intros pre r t lo fuel Hrep Hlo Hs Hf;
    (destruct fuel as [|fuel]; [cbn in Hf; lia|]); cbn [loop merge_from].
  - unfold merge_step at 1. rewrite (repr_cnt _ _ Hrep), length_app. cbn [length].
    rewrite (proj2 (Nat.ltb_ge _ _)) by lia. by exists t.
  - pose proof Hs as (? & ? & ? & Hb & ? & ? & Hs'). destruct (mergeable r n) eqn:E.
    + destruct (merge_step_join t pre r n rs) as (t1 & -> & Hr1 & Hm1 & Hl1); try done; [lia|].
      destruct (IH pre _ t1 lo fuel Hr1 Hlo) as (t' & Heq & Hr' & Hm & Hl).
      { by apply joined_sorted. } { cbn in Hf. lia. }
      exists t'. split; [done|]. split; [done|]. split; congruence.
    + assert (Hrep2 : repr t ((pre ++ [r]) ++ n :: rs)) by (by rewrite <- app_assoc).
      unfold merge_step at 1. rewrite (repr_cnt _ _ Hrep), length_app. cbn [length].
      rewrite (proj2 (Nat.ltb_lt _ _)) by lia.
      rewrite (repr_aget_mid _ _ _ _ Hrep), res_bind_ok.
      replace (length pre + 1)%nat with (length (pre ++ [r])) by (rewrite length_app; done).
      rewrite (repr_aget_mid _ _ _ _ Hrep2), res_bind_ok, rg_end_nowrap by (lia || done).
      unfold mergeable in E. unfold bug_on. rewrite (proj2 (Z.ltb_ge _ _)) by lia.
      replace (negb (rg_end r =? rg_base n) || negb (rg_flags r =? rg_flags n)) with true by lia.
      replace (S (length pre)) with (length (pre ++ [r])) by (rewrite length_app; cbn; lia).
      destruct (IH (pre ++ [r]) n t (rg_end r) fuel Hrep2) as (t' & Heq & Hr' & Hm & Hl).
      { unfold rg_end in *. lia. } { done. } { cbn in Hf. lia. }
      exists t'. rewrite <- app_assoc in Hr'. done.
Qed.

(** [memblock_merge_regions] keeps the meaning of the array and leaves no
    mergeable neighbours; its [BUG_ON] does not fire on a sorted array. *)
Lemma merge_regions_yields t rs :
  repr t rs -> rs <> [] -> rsorted 0 rs ->
  yields (memblock_merge_regions t) t (merge_list rs).
Proof.
  intros Hrep Hne Hs. destruct rs as [|r rs]; [done|]. unfold memblock_merge_regions.
  rewrite (repr_cnt _ _ Hrep). apply (merge_loop rs [] r t 0); cbn; try done. cbn. lia.
Qed.

(** ** Isolating a range *)

Definition cut (lo hi : Z) (r : memblock_region) : list memblock_region :=
  let b := Z.max lo (rg_base r) in
  let e := Z.min hi (rg_end r) in
  if b <? e then [mkRegion b (e - b) (rg_flags r)] else [].

(** The parts of the regions [rs] that lie in [[lo, hi)]. *)
Definition clip (lo hi : Z) (rs : list memblock_region) : list memblock_region :=
  concat (cut lo hi <$> rs).

Lemma clip_cons lo hi r rs : clip lo hi (r :: rs) = cut lo hi r ++ clip lo hi rs.
Proof. done. Qed.

Lemma clip_flag_at lo hi rs a :
  flag_at (clip lo hi rs) a = if (lo <=? a) && (a <? hi) then flag_at rs a else None.
Proof.
  induction rs as [|r rs IH]; [by case_match|].
  rewrite clip_cons, flag_at_app, IH. cbn. unfold cut.
  destruct (Z.max lo _ <? _) eqn:E; cbn; in_region_cases; unfold rg_end in *; cbn in *;
    destruct ((lo <=? a) && (a <? hi)) eqn:E'; done || lia.
Qed.

Lemma cut_id lo hi r :
  lo <= rg_base r -> rg_end r <= hi -> 0 < rg_size r -> cut lo hi r = [r].
Proof.
  intros. unfold cut, rg_end in *. rewrite Z.max_r, Z.min_r by lia.
  rewrite (proj2 (Z.ltb_lt _ _)) by lia. destruct r; cbn. do 2 f_equal. lia.
Qed.

Lemma cut_out lo hi r : hi <= rg_base r \/ rg_end r <= lo \/ hi <= lo -> cut lo hi r = [].
Proof. intros. unfold cut. by rewrite (proj2 (Z.ltb_ge _ _)) by lia. Qed.

Lemma clip_above lo hi lo' rs : rsorted lo' rs -> hi <= lo' -> clip lo hi rs = [].
Proof.
  revert lo'. induction rs as [|r rs IH]; intros lo'; [done|]. intros (? & ? & ? & Hs) ?.
  rewrite clip_cons, cut_out by (left; lia).
  eapply IH; [exact Hs|]. unfold rg_end in *. lia.
Qed.

Lemma clip_id lo lo' rs : rsorted lo' rs -> lo <= lo' -> clip lo ULLONG_MAX rs = rs.
Proof.
  revert lo'. induction rs as [|r rs IH]; intros lo'; [done|]. intros (? & ? & ? & Hs) ?.
  rewrite clip_cons, cut_id by lia. cbn. f_equal. eapply IH; [exact Hs|]. unfold rg_end in *. lia.
Qed.

Lemma clip_sorted lo hi lo' rs :
  rsorted lo' rs -> hi <= ULLONG_MAX -> rsorted (Z.max lo lo') (clip lo hi rs).
Proof.
  intros Hs Hhi. revert lo' Hs. induction rs as [|r rs IH]; intros lo'; [done|].
  intros (? & ? & ? & Hs). rewrite clip_cons. specialize (IH _ Hs).
  unfold cut, rg_end in *. destruct (_ <? _) eqn:E; cbn [app].
  - cbn. unfold rg_end; cbn. repeat split; try lia. eapply rsorted_weaken; [|exact IH]. lia.
  - eapply rsorted_weaken; [|exact IH]. lia.
Qed.

Lemma clip_bounds lo hi rs :
  Forall (fun z => lo <= rg_base z /\ 0 < rg_size z /\ rg_end z <= hi) (clip lo hi rs).
Proof.
  induction rs as [|r rs IH]; [constructor|]. rewrite clip_cons. apply Forall_app. split; [|done].
  unfold cut, rg_end. destruct (_ <? _) eqn:E; constructor; [cbn; lia|constructor].
Qed.

Lemma clip_last_le lo hi rs z : last (clip lo hi rs) = Some z -> rg_end z <= hi.
Proof.
  intros Hl. pose proof (clip_bounds lo hi rs) as HF. rewrite Forall_forall in HF.
  apply HF. apply last_Some in Hl as [l' ->]. apply elem_of_app. right. by left.
Qed.

Lemma clips_sorted lo hi lo' rs :
  rsorted lo' rs -> 0 <= lo' -> lo <= hi <= ULLONG_MAX ->
  rsorted 0 (clip 0 lo rs ++ clip hi ULLONG_MAX rs).
Proof.
  intros Hs ? ?. rewrite rsorted_app. split.
  - eapply rsorted_weaken; [|eapply (clip_sorted 0 lo)]; [|exact Hs|]; lia.
  - destruct (last _) as [z|] eqn:E; cbn.
    + apply clip_last_le in E. eapply rsorted_weaken; [|eapply clip_sorted; [exact Hs|lia]]. lia.
    + eapply rsorted_weaken; [|eapply clip_sorted; [exact Hs|lia]]. lia.
Qed.

Section isolate.
Context (base end_ : Z) (Hbase : 0 <= base) (Hbe : base < end_) (Hend : end_ <= ULLONG_MAX).

(** The values of [*start_rgn] and [*end_rgn] once the [n] regions after
    position [i] have been recorded. *)
Definition mark (i s e n : nat) : nat * nat :=
  if (n =? 0)%nat then (s, e) else (if (e =? 0)%nat then i else s, i + n)%nat.

(** Splitting the region at position [length pre] in two. *)
Lemma isolate_split t pre r rs b :
  repr t (pre ++ r :: rs) -> (length (pre ++ r :: rs) < mt_max t)%nat ->
  0 <= rg_base r -> rg_end r <= ULLONG_MAX -> rg_base r < b < rg_end r ->
  exists t', (rs0 ← aset (mt_regions t) (length pre)
                      (mkRegion b (rg_size r ⊖ (b ⊖ rg_base r)) (rg_flags r));
              memblock_insert_region
                (with_total (with_regions t rs0) (mt_total_size t ⊖ (b ⊖ rg_base r)))
                (length pre) (rg_base r) (b ⊖ rg_base r) (rg_flags r)) = Ok t' /\
    repr t' (pre ++ mkRegion (rg_base r) (b - rg_base r) (rg_flags r)
                 :: mkRegion b (rg_end r - b) (rg_flags r) :: rs) /\
    mt_max t' = mt_max t /\ mt_loc t' = mt_loc t.
Proof.
  intros [[spare Hr] Hc Hm Ht] Hroom Hb He Hin. unfold rg_end, ULLONG_MAX in *. nowrap.
  rewrite Hr, <- app_assoc. cbn [app]. rewrite aset_middle, res_bind_ok.
  replace (rg_size r - (b - rg_base r)) with (rg_base r + rg_size r - b) by lia.
  set (r2 := mkRegion b (rg_base r + rg_size r - b) (rg_flags r)).
  set (t1 := with_total _ _).
  assert (Hrep1 : repr t1 (pre ++ r2 :: rs)).
  { split; cbn.
    - exists spare. by rewrite <- app_assoc.
    - rewrite Hc, !length_app. done.
    - rewrite <- Hm, Hr, !length_app. cbn. rewrite !length_app. cbn. lia.
    - rewrite Ht. unfold sub64. rewrite u64_sub_idemp. f_equal. rewrite !sum_sizes_app. cbn. lia. }
  destruct (insert_region_yields t1 pre (r2 :: rs) (rg_base r) (b - rg_base r) (rg_flags r) Hrep1)
    as (t' & -> & Hr' & Hm' & Hl').
  { rewrite length_app in Hroom |- *. cbn in *. lia. }
  exists t'. done.
Qed.

(** The step at a live region [r], with the region's end written without wrap. *)
Lemma isolate_step_at t pre r rs s e :
  repr t (pre ++ r :: rs) -> 0 <= rg_base r -> 0 <= rg_size r -> rg_end r <= ULLONG_MAX ->
  isolate_step base end_ (length pre, s, e, t) =
  (if end_ <=? rg_base r then Ok (inr (s, e, t))
   else if rg_end r <=? base then Ok (inl (length (pre ++ [r]), s, e, t))
   else if rg_base r <? base then
     t' ← (rs0 ← aset (mt_regions t) (length pre)
                   (mkRegion base (rg_size r ⊖ (base ⊖ rg_base r)) (rg_flags r));
           memblock_insert_region
             (with_total (with_regions t rs0) (mt_total_size t ⊖ (base ⊖ rg_base r)))
             (length pre) (rg_base r) (base ⊖ rg_base r) (rg_flags r));
     Ok (inl (S (length pre), s, e, t'))
   else if end_ <? rg_end r then
     t' ← (rs0 ← aset (mt_regions t) (length pre)
                   (mkRegion end_ (rg_size r ⊖ (end_ ⊖ rg_base r)) (rg_flags r));
           memblock_insert_region
             (with_total (with_regions t rs0) (mt_total_size t ⊖ (end_ ⊖ rg_base r)))
             (length pre) (rg_base r) (end_ ⊖ rg_base r) (rg_flags r));
     Ok (inl (length pre, s, e, t'))
   else Ok (inl (length (pre ++ [r]), if (e =? 0)%nat then length pre else s, S (length pre), t))).
Proof.
  intros Hrep Hb Hs He. unfold isolate_step.
  rewrite (repr_cnt _ _ Hrep), !length_app. cbn [length].
  rewrite (proj2 (Nat.ltb_lt _ _)) by lia.
  rewrite (repr_aget_mid _ _ _ _ Hrep), res_bind_ok, rg_end_nowrap, Nat.add_1_r by done.
  repeat case_match; try done; by destruct (aset _ _ _); cbn.
Qed.

Lemma isolate_stop t pre rs s e fuel :
  repr t (pre ++ rs) -> rsorted end_ rs -> (0 < fuel)%nat ->
  loop fuel (isolate_step base end_) (length pre, s, e, t) = Ok (s, e, t).
Proof.
  intros Hrep Hs Hf. destruct fuel as [|fuel]; [lia|]. cbn [loop]. destruct rs as [|r rs].
  - unfold isolate_step. rewrite (repr_cnt _ _ Hrep), app_nil_r.
    by rewrite (proj2 (Nat.ltb_ge _ _)) by lia.
  - destruct Hs as (? & ? & ? & ?). rewrite (isolate_step_at t pre r rs) by (done || lia).
    by rewrite (proj2 (Z.leb_le _ _)) by lia.
Qed.

(** A region inside the range is recorded. *)
Lemma isolate_record t pre r rs s e :
  repr t (pre ++ r :: rs) -> base <= rg_base r -> 0 < rg_size r -> rg_end r <= end_ ->
  isolate_step base end_ (length pre, s, e, t) =
  Ok (inl (length (pre ++ [r]), if (e =? 0)%nat then length pre else s, S (length pre), t)).
Proof.
  intros Hrep Hb Hs He. rewrite (isolate_step_at t pre r rs) by (done || lia).
  unfold rg_end in *. by rewrite (proj2 (Z.leb_gt _ _)), (proj2 (Z.leb_gt _ _)), (proj2 (Z.ltb_ge _ _)),
    (proj2 (Z.ltb_ge _ _)) by lia.
Qed.

(** Regions at or above [base]: the ones below [end_] are recorded, one that
    crosses [end_] is split. *)
Lemma isolate_inside rs : forall pre s e t fuel,
  repr t (pre ++ rs) -> rsorted base rs ->
  (length pre + length rs < mt_max t)%nat -> (e = 0%nat \/ e = length pre) ->
  (length rs + 1 < fuel)%nat ->
  exists t', loop fuel (isolate_step base end_) (length pre, s, e, t) =
      Ok (mark (length pre) s e (length (clip base end_ rs)), t') /\
    repr t' (pre ++ clip base end_ rs ++ clip end_ ULLONG_MAX rs) /\
    mt_max t' = mt_max t /\ mt_loc t' = mt_loc t.
Proof.
  induction rs as [|r rs IH]; intros pre s e t fuel Hrep Hs Hroom He Hf.
  { exists t. rewrite (isolate_stop t pre []) by (done || lia). done. }
  destruct (Z.le_gt_cases end_ (rg_base r)) as [Hout|Hin].
  { assert (Hs' : rsorted end_ (r :: rs)) by (cbn in *; intuition lia).
    exists t. rewrite (isolate_stop t pre (r :: rs)) by (done || lia).
    rewrite (clip_above base end_ end_), (clip_id end_ end_) by (done || lia). done. }
  pose proof Hs as (Hb & Hpos & Hmax & Hs'). rewrite !clip_cons.
  destruct (Z.le_gt_cases (rg_end r) end_) as [Hle|Hgt].
  - rewrite cut_id, (cut_out end_) by (lia || unfold rg_end in *; lia). cbn [app length].
    destruct fuel as [|fuel]; [lia|]. cbn [loop]. rewrite (isolate_record t pre r rs) by (done || lia).
    cbn [length] in *.
    destruct (IH (pre ++ [r]) (if (e =? 0)%nat then length pre else s) (S (length pre)) t fuel)
      as (t' & -> & Hr' & Hm & Hl).
    { by rewrite <- app_assoc. } { eapply rsorted_weaken; [|exact Hs']. unfold rg_end in *; lia. }
    { rewrite length_app. cbn. lia. } { right. rewrite length_app. cbn. lia. } { lia. }
    exists t'. rewrite <- app_assoc in Hr'. split; [|done]. f_equal. f_equal.
    unfold mark. rewrite length_app. cbn. case_match eqn:E; [|f_equal; lia].
    apply Nat.eqb_eq in E. rewrite E. f_equal. lia.
  - destruct fuel as [|[|fuel]]; [lia|cbn in Hf; lia|]. cbn [loop].
    rewrite (isolate_step_at t pre r rs) by (done || unfold rg_end in *; lia).
    rewrite (proj2 (Z.leb_gt _ _)), (proj2 (Z.leb_gt _ _)), (proj2 (Z.ltb_ge _ _)),
      (proj2 (Z.ltb_lt _ _)) by (unfold rg_end in *; lia).
    destruct (isolate_split t pre r rs end_) as (t1 & -> & Hr1 & Hm1 & Hl1); try done; try lia.
    { rewrite length_app. done. }
    rewrite res_bind_ok.
    rewrite (isolate_record t1 pre _ _ s e Hr1) by (unfold rg_end; cbn; lia).
    exists t1. rewrite (isolate_stop t1 _ (mkRegion end_ (rg_end r - end_) (rg_flags r) :: rs)).
    + rewrite (clip_above base end_ (rg_end r)), (clip_id end_ (rg_end r)) by (done || lia).
      unfold cut. rewrite Z.max_r, Z.min_l, (proj2 (Z.ltb_lt _ _)) by lia.
      rewrite Z.max_l, Z.min_r, (proj2 (Z.ltb_lt _ _)) by lia. cbn. unfold mark. cbn.
      rewrite Nat.add_1_r. done.
    + by rewrite <- app_assoc.
    + cbn [rsorted]. rewrite rg_end_mk. cbn. replace (end_ + (rg_end r - end_)) with (rg_end r) by lia.
      repeat split; done || lia.
    + cbn in Hf. lia.
Qed.

(** Regions below [base] are passed over, one that crosses [base] is split. *)
Lemma isolate_below rs : forall pre lo t fuel,
  repr t (pre ++ rs) -> 0 <= lo -> rsorted lo rs ->
  (length pre + length rs + 1 < mt_max t)%nat -> (length rs + 2 < fuel)%nat ->
  exists t', loop fuel (isolate_step base end_) (length pre, 0%nat, 0%nat, t) =
      Ok (mark (length pre + length (clip 0 base rs)) 0 0 (length (clip base end_ rs)), t') /\
    repr t' (pre ++ clip 0 base rs ++ clip base end_ rs ++ clip end_ ULLONG_MAX rs) /\
    mt_max t' = mt_max t /\ mt_loc t' = mt_loc t.
Proof.
  induction rs as [|r rs IH]; intros pre lo t fuel Hrep Hlo Hs Hroom Hf.
  { exists t. rewrite (isolate_stop t pre []) by (done || lia). done. }
  destruct (Z.le_gt_cases base (rg_base r)) as [Hge|Hlt].
  { assert (Hs' : rsorted base (r :: rs)) by (cbn in *; intuition lia).
    rewrite (clip_above 0 base base) by (done || lia). cbn [app length] in *. rewrite Nat.add_0_r.
    apply isolate_inside; cbn [length]; try done; try lia; auto. }
  pose proof Hs as (Hb & Hpos & Hmax & Hs'). rewrite !clip_cons. destruct fuel as [|fuel]; [lia|].
  cbn [loop]. rewrite (isolate_step_at t pre r rs) by (done || unfold rg_end in *; lia).
  rewrite (proj2 (Z.leb_gt _ _)) by lia. cbn [length] in *.
  destruct (Z.le_gt_cases (rg_end r) base) as [Hle|Hgt].
  - rewrite (proj2 (Z.leb_le _ _)) by lia.
    rewrite (cut_id 0), (cut_out base), (cut_out end_) by lia. cbn [app length].
    destruct (IH (pre ++ [r]) (rg_end r) t fuel) as (t' & -> & Hr' & Hm & Hl); try done;
      try (rewrite length_app; cbn; lia); try lia.
    { by rewrite <- app_assoc. } { unfold rg_end in *; lia. }
    exists t'. rewrite <- app_assoc in Hr'. split; [|done]. do 3 f_equal. rewrite length_app. cbn. lia.
  - rewrite (proj2 (Z.leb_gt _ _)), (proj2 (Z.ltb_lt _ _)) by lia.
    destruct (isolate_split t pre r rs base) as (t1 & -> & Hr1 & Hm1 & Hl1); try done; try lia.
    { rewrite length_app. cbn. lia. }
    rewrite res_bind_ok. set (r1 := mkRegion (rg_base r) _ _) in *.
    set (r2 := mkRegion base (rg_end r - base) (rg_flags r)) in *.
    assert (Hi : S (length pre) = length (pre ++ [r1])) by (rewrite length_app; cbn; lia).
    rewrite Hi.
    assert (H2 : rg_end r2 = rg_end r) by (unfold r2; rewrite rg_end_mk; lia).
    destruct (isolate_inside (r2 :: rs) (pre ++ [r1]) 0 0 t1 fuel) as (t' & -> & Hr' & Hm & Hl).
    { by rewrite <- app_assoc. }
    { cbn [rsorted]. rewrite H2. cbn. repeat split; done || lia. }
    { rewrite length_app. cbn. lia. } { by left. } { cbn. lia. }
    exists t'. rewrite <- app_assoc, !clip_cons in Hr'.
    assert (Hc1 : cut 0 base r = [r1]).
    { unfold cut. rewrite Z.max_r, Z.min_l, (proj2 (Z.ltb_lt _ _)) by lia. done. }
    assert (Hc2 : forall lo' hi, base <= lo' -> cut lo' hi r2 = cut lo' hi r).
    { intros. unfold cut. rewrite H2. cbn. by rewrite !Z.max_l by lia. }
    rewrite !Hc2 in Hr' by lia. rewrite Hc1. rewrite (clip_above 0 base (rg_end r)) by (done || lia).
    cbn [app length] in *. split; [|split; [done|split; congruence]].
    rewrite clip_cons, Hc2, length_app by lia. done.
Qed.
End isolate.

(** [memblock_isolate_range]'s loop: the array becomes the parts below, inside
    and above the range, and the recorded indices delimit the inside part. *)
Lemma isolate_loop_spec base end_ t rs :
  0 <= base -> base < end_ -> end_ <= ULLONG_MAX ->
  repr t rs -> rsorted 0 rs -> (length rs + 2 <= mt_max t)%nat ->
  exists t', isolate_loop base end_ t =
      Ok (mark (length (clip 0 base rs)) 0 0 (length (clip base end_ rs)), t') /\
    repr t' (clip 0 base rs ++ clip base end_ rs ++ clip end_ ULLONG_MAX rs) /\
    mt_max t' = mt_max t /\ mt_loc t' = mt_loc t.
Proof.
  intros Hb Hbe He Hrep Hs Hroom. unfold isolate_loop. rewrite (repr_cnt _ _ Hrep).
  apply (isolate_below base end_ Hb Hbe He rs [] 0); cbn; done || lia.
Qed.
