(* ===== verification/MemblockProps.v ===== *)
(** * What mm/memblock.c promises about one region array

    The correctness theorems of [memblock_add_range], [memblock_isolate_range],
    [memblock_remove_range], [memblock_search] and [memblock_overlaps_region],
    against the abstract map [flag_at] from addresses to flags. *)

From S2P Require Import Prelude MemblockDefs MemblockTheory.

(** The invariant of a region array: it holds [rs], which is either the dummy
    entry of an empty array or a sorted list of disjoint regions. *)
Definition type_inv (t : memblock_type) (rs : list memblock_region) : Prop :=
  repr t rs /\ (rs = [zero_region] \/ (rs <> [] /\ rsorted 0 rs)).

(** The length [memblock_cap_size] leaves of a range. *)
Definition capped (base size : Z) : Z := Z.min size (ULLONG_MAX - base).

Definition phys (a : Z) : Prop := 0 <= a <= ULLONG_MAX.

Lemma cap_size_eq base size : phys base -> memblock_cap_size base size = capped base size.
Proof. intros [? ?]. unfold memblock_cap_size, capped, ULLONG_MAX in *. nowrap. done. Qed.

Lemma capped_end base size :
  phys base -> phys size -> base <= base + capped base size <= ULLONG_MAX.
Proof. unfold phys, capped. lia. Qed.

Lemma cap_end_eq base size :
  phys base -> phys size -> base ⊕ capped base size = base + capped base size.
Proof. unfold phys, capped, ULLONG_MAX. intros. nowrap. done. Qed.

Lemma make_room_ok dbl ty extra base size mb :
  (mt_cnt (get_type ty mb) + extra <= mt_max (get_type ty mb))%nat ->
  make_room dbl ROOM_FUEL ty extra base size mb = Ok (true, mb).
Proof. intros. unfold make_room, ROOM_FUEL. cbn [loop]. by rewrite (proj2 (Nat.ltb_ge _ _)) by lia. Qed.

Lemma get_set_type ty t mb : get_type ty (set_type ty t mb) = t.
Proof. by destruct ty. Qed.

Lemma set_get_type ty mb : set_type ty (get_type ty mb) mb = mb.
Proof. by destruct ty, mb. Qed.

(** An array whose first entry has size 0 is the empty one. *)
Lemma type_inv_first t rs :
  type_inv t rs -> exists r0, aget (mt_regions t) 0 = Ok r0 /\
    (rg_size r0 = 0 <-> rs = [zero_region]) /\ 0 <= rg_size r0.
Proof.
  intros [Hrep [-> | [Hne Hs]]].
  - exists zero_region. split; [by apply (repr_aget _ _ _ _ Hrep)|]. done.
  - destruct rs as [|r rs]; [done|]. exists r. split; [by apply (repr_aget _ _ _ _ Hrep)|].
    destruct Hs as (? & ? & _). split; [|lia]. split; [lia|]. intros [= -> ->]. done.
Qed.

Lemma flag_at_above rs lo a : rsorted lo rs -> ULLONG_MAX <= a -> flag_at rs a = None.
Proof.
  revert lo. induction rs as [|r rs IH]; intros lo; cbn; [done|]. intros (? & ? & ? & Hs) ?.
  in_region_cases; [lia|]. by eapply IH.
Qed.

Lemma flag_at_zero a : flag_at [zero_region] a = None.
Proof. cbn. in_region_cases; [|done]. unfold rg_end in *. cbn in *. lia. Qed.

Lemma merge_list_ne rs : rs <> [] -> merge_list rs <> [].
Proof. destruct rs as [|r rs]; [done|]. intros _. cbn. by destruct (merge_from_head r rs) as (? & ? & ->). Qed.

Section env.
Context `{MBEnv}.

(** ** Adding *)

(** The abstract effect of adding [[base, end_)] with [flags]. *)
Definition flag_add (base end_ flags : Z) (f : Z -> option Z) (a : Z) : option Z :=
  match f a with
  | Some fl => Some fl
  | None => if (base <=? a) && (a <? end_) then Some flags else None
  end.

Lemma add_range_first dbl ty base size nid flags mb :
  type_inv (get_type ty mb) [zero_region] -> phys base -> 0 < capped base size -> size <= ULLONG_MAX ->
  exists t', add_range_with dbl ty base size nid flags mb = Ok (0, set_type ty t' mb) /\
    type_inv t' [mkRegion base (capped base size) flags] /\ mt_max t' = mt_max (get_type ty mb).
Proof.
  intros Hinv Hb Hc Hs. pose proof Hinv as [[[spare Hr] Hcnt Hmax Ht] _].
  destruct (type_inv_first _ _ Hinv) as (r0 & Hget & Hz & _). unfold add_range_with.
  rewrite cap_size_eq, cap_end_eq by (done || unfold phys, capped in *; lia).
  rewrite (proj2 (Z.eqb_neq _ _)) by lia. rewrite Hget, res_bind_ok, (proj2 Hz) by done.
  cbn [Z.eqb]. rewrite Hr, aset_ok, res_bind_ok by (cbn; lia).
  eexists. split; [done|]. split; [|done]. unfold phys, capped, ULLONG_MAX in *. split.
  - split; cbn; [by exists spare|done| |].
    + rewrite <- Hmax, Hr. done.
    + rewrite Z.add_0_r, u64_small by lia. done.
  - right. split; [done|]. cbn. unfold rg_end, ULLONG_MAX. cbn. lia.
Qed.

Lemma add_range_more dbl ty base size nid flags mb rs :
  repr (get_type ty mb) rs -> rs <> [] -> rsorted 0 rs ->
  phys base -> size <= ULLONG_MAX -> 0 < capped base size ->
  (length (add_list base (base + capped base size) flags rs) <= mt_max (get_type ty mb))%nat ->
  exists t', add_range_with dbl ty base size nid flags mb = Ok (0, set_type ty t' mb) /\
    repr t' (merge_list (add_list base (base + capped base size) flags rs)) /\
    mt_max t' = mt_max (get_type ty mb).
Proof.
  intros Hrep Hne Hs Hb Hsz Hc Hroom.
  assert (Hend : 0 <= base + capped base size <= ULLONG_MAX) by (unfold phys, capped in *; lia).
  assert (Hok : regions_ok rs) by (by eapply rsorted_ok).
  destruct (type_inv_first (get_type ty mb) rs) as (r0 & Hget & Hz & Hz0); [split; eauto|].
  unfold add_range_with.
  rewrite cap_size_eq, cap_end_eq by (done || unfold phys, capped in *; lia).
  rewrite (proj2 (Z.eqb_neq _ _)) by lia. rewrite Hget, res_bind_ok.
  rewrite (proj2 (Z.eqb_neq (rg_size r0) 0)) by (rewrite Hz; intros ->; destruct Hs as (_ & Hs & _); cbn in Hs; lia).
  set (end_ := base + capped base size) in *. unfold add_range_pass.
  pose proof (add_list_length base end_ flags rs) as Hal. rewrite (repr_cnt _ _ Hrep).
  rewrite (add_loop_count end_ flags rs [] base 0 (get_type ty mb) _ Hrep Hok) by lia.
  rewrite res_bind_ok, make_room_ok by (rewrite (repr_cnt _ _ Hrep); lia).
  rewrite res_bind_ok. cbn [negb].
  destruct (add_loop_insert end_ flags Hend rs [] base 0 (get_type ty mb) (S (length rs)) Hrep Hok)
    as (t1 & Heq & Hr1 & Hm1 & Hl1); [unfold phys in *; lia|done|lia|].
  cbn [length app] in Heq, Hr1. rewrite (repr_cnt _ _ Hrep), Heq, res_bind_ok.
  assert (Hs1 : rsorted 0 (add_list base end_ flags rs))
    by (apply add_list_sorted; unfold phys in *; done || lia).
  destruct (merge_regions_yields t1 _ Hr1) as (t2 & -> & Hr2 & Hm2 & Hl2).
  { intros E. rewrite E in Hal. destruct rs; [done|]. cbn in Hal. lia. }
  { done. }
  exists t2. split; [done|]. split; [done|]. congruence.
Qed.

(** The array [t] has room for what adding a range makes of its regions [rs].
    Adding nothing, or to the empty array, takes no room. *)
Definition has_room (t : memblock_type) (rs : list memblock_region) (base size flags : Z) : Prop :=
  capped base size = 0 \/ rs = [zero_region] \/
  (length (add_list base (base + capped base size) flags rs) <= mt_max t)%nat.

Lemma add_range_yields dbl ty base size nid flags mb rs :
  type_inv (get_type ty mb) rs -> phys base -> phys size -> has_room (get_type ty mb) rs base size flags ->
  exists t' rs',
    add_range_with dbl ty base size nid flags mb = Ok (0, set_type ty t' mb) /\
    type_inv t' rs' /\ mt_max t' = mt_max (get_type ty mb) /\
    (0 < capped base size -> minimal rs') /\
    forall a, flag_at rs' a = flag_add base (base + capped base size) flags (flag_at rs) a.
Proof.
  intros Hinv Hb Hs Hroom. destruct (Z.eq_dec (capped base size) 0) as [Hz|Hnz].
  { exists (get_type ty mb), rs. unfold add_range_with.
    rewrite cap_size_eq, Hz, set_get_type by done. repeat split; try apply Hinv; try lia.
    intros a. unfold flag_add. rewrite Z.add_0_r.
    destruct (flag_at rs a); [done|]. by destruct (_ && _) eqn:?; [lia|]. }
  assert (Hc : 0 < capped base size) by (unfold phys, capped in *; lia).
  destruct Hinv as [Hrep [-> | [Hne Hso]]].
  - destruct (add_range_first dbl ty base size nid flags mb)
      as (t' & Heq & Hinv' & Hm); try done; [by split; eauto|apply Hs|].
    exists t', [mkRegion base (capped base size) flags]. split; [done|]. split; [done|].
    split; [done|]. split; [done|]. intros a. unfold flag_add. rewrite flag_at_zero.
    cbn. unfold in_region, rg_end. cbn. done.
  - destruct Hroom as [?|[->|Hroom]]; [done|cbn in Hso; lia|].
    destruct (add_range_more dbl ty base size nid flags mb rs)
      as (t' & Heq & Hr' & Hm); try done; [apply Hs|].
    pose proof (capped_end base size Hb Hs) as Hce. set (end_ := base + capped base size) in *.
    assert (Hso' : rsorted 0 (add_list base end_ flags rs))
      by (apply add_list_sorted; unfold phys in *; done || lia).
    pose proof (add_list_length base end_ flags rs) as Hl.
    destruct (add_list base end_ flags rs) as [|r l] eqn:E; [destruct rs; cbn in Hl; [done|lia]|].
    exists t', (merge_list (r :: l)). split; [done|]. split.
    { split; [done|]. right. split; [by apply merge_list_ne|by apply merge_from_sorted]. }
    split; [done|]. split; [intros _; apply merge_from_minimal|].
    intros a. cbn. rewrite (merge_from_flag_at 0) by done. rewrite <- E.
    eapply add_list_flag_at; [unfold end_; lia|exact Hso].
Qed.

(** Without room, and when resizing is not allowed yet, nothing is added. *)
Lemma add_range_full ty base size nid flags mb rs :
  type_inv (get_type ty mb) rs -> phys base -> phys size -> ~ has_room (get_type ty mb) rs base size flags ->
  mb_can_resize mb = false -> memblock_add_range ty base size nid flags mb = Ok (- ENOMEM, mb).
Proof.
  intros Hinv Hb Hsz Hfull Hres. pose proof Hinv as [Hrep Hcase]. unfold has_room in Hfull.
  destruct Hcase as [->|[Hne Hs]]; [tauto|]. assert (Hc : 0 < capped base size) by (unfold phys, capped in *; lia).
  assert (Hok : regions_ok rs) by (by eapply rsorted_ok).
  destruct (type_inv_first (get_type ty mb) rs Hinv) as (r0 & Hget & Hz & Hz0).
  unfold memblock_add_range, add_range_with.
  rewrite cap_size_eq, cap_end_eq, (proj2 (Z.eqb_neq _ _)) by (done || lia).
  rewrite Hget, res_bind_ok, (proj2 (Z.eqb_neq (rg_size r0) 0)) by (rewrite Hz; tauto).
  unfold add_range_pass. rewrite (repr_cnt _ _ Hrep).
  rewrite (add_loop_count _ flags rs [] base 0 (get_type ty mb) _ Hrep Hok) by lia.
  rewrite res_bind_ok. unfold make_room, ROOM_FUEL. cbn [loop].
  pose proof (repr_cnt_max _ _ Hrep). rewrite (repr_cnt _ _ Hrep), (proj2 (Nat.ltb_lt _ _)) by lia.
  unfold memblock_double_array, DOUBLE_FUEL. rewrite Hres. done.
Qed.

(** C1.  [memblock_add_range], when the array has room for the result, returns
    0 without hitting a [BUG_ON] or leaving the array, changes only the array
    it was given, keeps it sorted, disjoint and minimal, and its effect on the
    address map is [flag_add]: addresses that were covered keep their flags,
    the other addresses of the capped range get [flags], nothing else changes.
    Without room, while arrays may not be resized, it returns [-ENOMEM] and
    changes nothing. *)
Theorem memblock_add_range_correct ty base size nid flags mb rs :
  type_inv (get_type ty mb) rs -> phys base -> phys size ->
  (has_room (get_type ty mb) rs base size flags ->
   exists t' rs',
    memblock_add_range ty base size nid flags mb = Ok (0, set_type ty t' mb) /\
    type_inv t' rs' /\ mt_max t' = mt_max (get_type ty mb) /\
    (0 < capped base size -> minimal rs') /\
    forall a, flag_at rs' a = flag_add base (base + capped base size) flags (flag_at rs) a) /\
  (~ has_room (get_type ty mb) rs base size flags -> mb_can_resize mb = false ->
   memblock_add_range ty base size nid flags mb = Ok (- ENOMEM, mb)).
Proof. intros. split; [by apply add_range_yields|by apply add_range_full]. Qed.

(** ** Isolating and removing *)

Lemma isolate_loop_zero base end_ t :
  0 <= base -> base < end_ -> repr t [zero_region] ->
  isolate_loop base end_ t = Ok (0%nat, 0%nat, t).
Proof.
  intros Hb Hbe Hrep. unfold isolate_loop. rewrite (repr_cnt _ _ Hrep). cbn [length Nat.add loop].
  rewrite (isolate_step_at base end_ t [] zero_region []) by (done || cbn; unfold ULLONG_MAX; lia).
  unfold rg_end. cbn -[Z.leb]. rewrite (proj2 (Z.leb_gt _ _)), (proj2 (Z.leb_le _ _)) by lia.
  unfold isolate_step. rewrite (repr_cnt _ _ Hrep). done.
Qed.

Lemma remove_down_yields ins : forall t lows highs,
  repr t (lows ++ ins ++ highs) -> lows ++ ins ++ highs <> [] ->
  yields (remove_down t (length lows) (length ins)) t
    (match lows ++ highs with [] => [zero_region] | rs => rs end).
Proof.
  induction ins as [|r ins IH] using rev_ind; intros t lows highs Hrep Hne; cbn [length remove_down].
  - cbn in *. destruct (lows ++ highs) eqn:E; [done|]. exists t. done.
  - rewrite length_app, Nat.add_1_r. cbn [remove_down]. rewrite <- length_app.
    rewrite <- app_assoc in Hrep. cbn [app] in Hrep. rewrite app_assoc in Hrep.
    destruct (remove_region_yields t (lows ++ ins) r highs Hrep) as (t1 & -> & Hr1 & Hm1 & Hl1).
    rewrite res_bind_ok. rewrite <- app_assoc in Hr1. destruct (lows ++ ins ++ highs) eqn:E.
    + apply app_eq_nil in E as [-> [-> ->]%app_eq_nil]. cbn. exists t1. done.
    + rewrite <- E in *. destruct (IH t1 lows highs Hr1) as (t2 & Heq & Hr2 & Hm2 & Hl2).
      { by rewrite E. }
      exists t2. split; [done|]. split; [done|]. split; congruence.
Qed.

Lemma clips_flag_at base end_ rs a :
  rsorted 0 rs -> base <= end_ ->
  flag_at (clip 0 base rs ++ clip end_ ULLONG_MAX rs) a =
  if (base <=? a) && (a <? end_) then None else flag_at rs a.
Proof.
  intros Hs Hbe. rewrite flag_at_app, !clip_flag_at.
  destruct (flag_at rs a) as [f|] eqn:E; [|by repeat case_match].
  assert (0 <= a) by (apply Z.nlt_ge; intros ?; by rewrite (flag_at_below 0 rs a) in E).
  assert (a < ULLONG_MAX) by (apply Z.nle_gt; intros ?; by rewrite (flag_at_above rs 0 a) in E).
  destruct ((0 <=? a) && (a <? base)) eqn:E1, ((end_ <=? a) && (a <? ULLONG_MAX)) eqn:E2,
    ((base <=? a) && (a <? end_)) eqn:E3; try done; lia.
Qed.

Lemma mark_minus i n : forall s e, mark i 0 0 n = (s, e) -> (e - s = n)%nat /\ (n <> 0%nat -> s = i).
Proof. unfold mark. intros s e. destruct n; cbn; intros [= <- <-]; split; lia. Qed.

Lemma clips3_flag_at base end_ rs a :
  rsorted 0 rs -> base <= end_ ->
  flag_at (clip 0 base rs ++ clip base end_ rs ++ clip end_ ULLONG_MAX rs) a = flag_at rs a.
Proof.
  intros Hs Hbe. pose proof (clips_flag_at base end_ rs a Hs Hbe) as H2.
  rewrite !flag_at_app in *. rewrite (clip_flag_at base) in *.
  destruct ((base <=? a) && (a <? end_)) eqn:E; [|done].
  rewrite !clip_flag_at in *. by repeat case_match.
Qed.

(** The array splits into the parts below, inside and above a range. *)
Record isolated (base end_ : Z) (rs lows ins highs : list memblock_region) : Prop := {
  iso_flag : forall a, flag_at (lows ++ ins ++ highs) a = flag_at rs a;
  iso_flag_out : forall a, flag_at (lows ++ highs) a =
    if (base <=? a) && (a <? end_) then None else flag_at rs a;
  iso_ne : lows ++ ins ++ highs <> [];
  iso_in : Forall (fun r => base <= rg_base r /\ 0 < rg_size r /\ rg_end r <= end_) ins;
  iso_out : Forall (fun r => rg_end r <= base \/ end_ <= rg_base r) (lows ++ highs);
  iso_sorted : lows ++ highs = [zero_region] \/ rsorted 0 (lows ++ highs) }.

Lemma isolated_zero base end_ :
  0 <= base -> base <= end_ -> isolated base end_ [zero_region] [zero_region] [] [].
Proof.
  intros. split; cbn [app]; try done; try (by left).
  - intros a. rewrite flag_at_zero. by case_match.
  - constructor; [left; unfold rg_end; cbn; lia|constructor].
Qed.

Lemma isolated_clip base end_ rs :
  0 <= base -> base <= end_ -> end_ <= ULLONG_MAX -> rs <> [] -> rsorted 0 rs ->
  isolated base end_ rs (clip 0 base rs) (clip base end_ rs) (clip end_ ULLONG_MAX rs).
Proof.
  intros Hb Hbe He Hne Hs. split.
  - intros. by apply clips3_flag_at.
  - intros. by apply clips_flag_at.
  - destruct rs as [|r rs]; [done|]. intros E.
    pose proof (clips3_flag_at base end_ (r :: rs) (rg_base r) Hs Hbe) as Hf. rewrite E in Hf.
    destruct Hs as (? & ? & _). cbn in Hf. unfold in_region, rg_end in Hf.
    by rewrite (proj2 (Z.leb_le _ _)), (proj2 (Z.ltb_lt _ _)) in Hf by lia.
  - apply clip_bounds.
  - apply Forall_app. split; (eapply Forall_impl; [apply clip_bounds|]); cbn; intros; lia.
  - right. by eapply clips_sorted.
Qed.

Lemma isolate_range_yields dbl ty base size mb rs :
  type_inv (get_type ty mb) rs -> phys base -> phys size -> 0 < capped base size ->
  (length rs + 2 <= mt_max (get_type ty mb))%nat ->
  exists t' s e lows ins highs,
    isolate_range_with dbl ty base size mb = Ok (0, s, e, set_type ty t' mb) /\
    repr t' (lows ++ ins ++ highs) /\ mt_max t' = mt_max (get_type ty mb) /\
    (e - s = length ins)%nat /\ (ins <> [] -> s = length lows) /\
    isolated base (base + capped base size) rs lows ins highs.
Proof.
  intros [Hrep Hrs] Hb Hs Hc Hroom. unfold isolate_range_with.
  rewrite cap_size_eq, cap_end_eq, (proj2 (Z.eqb_neq _ _)) by (done || lia).
  rewrite make_room_ok, res_bind_ok by (rewrite (repr_cnt _ _ Hrep); lia). cbn [negb].
  pose proof (capped_end base size Hb Hs) as Hce.
  assert (He : base < base + capped base size <= ULLONG_MAX) by lia.
  set (end_ := base + capped base size) in *. destruct Hb as [Hb _].
  destruct Hrs as [-> | [Hne Hso]].
  - rewrite isolate_loop_zero by (done || lia). rewrite res_bind_ok, set_get_type.
    exists (get_type ty mb), 0%nat, 0%nat, [zero_region], [], []. rewrite set_get_type.
    repeat (split; [done|]). apply isolated_zero; lia.
  - destruct (isolate_loop_spec base end_ (get_type ty mb) rs) as (t1 & -> & Hr1 & Hm1 & _); try done;
      try lia.
    destruct (mark _ 0 0 _) as [s e] eqn:Emark. apply mark_minus in Emark as [Hse Hs0].
    rewrite res_bind_ok. exists t1, s, e, (clip 0 base rs), (clip base end_ rs), (clip end_ ULLONG_MAX rs).
    split; [done|]. split; [done|]. split; [done|]. split; [done|]. split.
    + intros Hi. apply Hs0. by intros ?%nil_length_inv.
    + apply isolated_clip; done || lia.
Qed.

(** [memblock_isolate_range], when the array has two spare entries,
    returns 0 without a fault, leaves the address map as it was, and records
    in [*start_rgn, *end_rgn) exactly the regions inside the range: the regions
    at those indices lie within it and every other region lies outside. *)
Theorem memblock_isolate_range_correct ty base size mb rs :
  type_inv (get_type ty mb) rs -> phys base -> phys size -> 0 < capped base size ->
  (length rs + 2 <= mt_max (get_type ty mb))%nat ->
  exists t' rs' s e,
    memblock_isolate_range ty base size mb = Ok (0, s, e, set_type ty t' mb) /\
    repr t' rs' /\ (forall a, flag_at rs' a = flag_at rs a) /\
    forall i r, rs' !! i = Some r ->
      if decide (s <= i < e)%nat
      then base <= rg_base r /\ rg_end r <= base + capped base size
      else rg_end r <= base \/ base + capped base size <= rg_base r.
Proof.
  intros Hinv Hb Hs Hc Hroom.
  destruct (isolate_range_yields (memblock_double_array DOUBLE_FUEL) ty base size mb rs)
    as (t' & s & e & lows & ins & highs & Heq & Hr & _ & Hse & Hs0 & [Hf _ _ Hin Hout _]); try done.
  exists t', (lows ++ ins ++ highs), s, e. split; [done|]. split; [done|]. split; [done|].
  intros i r Hi. apply Forall_app in Hout as [Hlo Hhi]. rewrite Forall_lookup in *.
  apply lookup_app_Some in Hi as [Hi|[Hge [Hi|[Hge' Hi]]%lookup_app_Some]].
  - rewrite decide_False; [by eapply Hlo|]. apply lookup_lt_Some in Hi.
    destruct ins; cbn in *; [lia|]. rewrite Hs0 by done. lia.
  - pose proof (lookup_lt_Some _ _ _ Hi). rewrite decide_True.
    + destruct (Hin _ _ Hi). lia.
    + rewrite Hs0 in * by (by intros ->). lia.
  - rewrite decide_False; [by eapply Hhi|]. destruct ins; cbn in *; [lia|].
    rewrite Hs0 in * by done. lia.
Qed.

Lemma remove_range_yields dbl ty base size mb rs :
  type_inv (get_type ty mb) rs -> phys base -> phys size ->
  capped base size = 0 \/ (length rs + 2 <= mt_max (get_type ty mb))%nat ->
  exists t' rs',
    remove_range_with dbl ty base size mb = Ok (0, set_type ty t' mb) /\
    type_inv t' rs' /\ mt_max t' = mt_max (get_type ty mb) /\
    forall a, flag_at rs' a =
      if (base <=? a) && (a <? base + capped base size) then None else flag_at rs a.
Proof.
  intros Hinv Hb Hs Hroom. unfold remove_range_with.
  destruct (Z.eq_dec (capped base size) 0) as [Hz|Hnz].
  { exists (get_type ty mb), rs. unfold isolate_range_with.
    rewrite cap_size_eq, Hz, set_get_type by done. cbn. rewrite set_get_type.
    split; [done|]. split; [done|]. split; [done|]. intros a. by destruct (_ && _) eqn:?; [lia|]. }
  destruct (isolate_range_yields dbl ty base size mb rs)
    as (t1 & s & e & lows & ins & highs & -> & Hr & Hm & Hse & Hs0 & [_ Hout Hne _ _ Hso]); try done.
  { unfold phys, capped in *. lia. }
  { by destruct Hroom. }
  rewrite res_bind_ok. cbn [Z.eqb negb]. rewrite get_set_type, Hse.
  assert (Hdown : yields (remove_down t1 s (length ins)) t1
            (match lows ++ highs with [] => [zero_region] | rs => rs end)).
  { destruct ins as [|r ins]; [|rewrite Hs0 by done; by apply remove_down_yields].
    cbn in *. destruct (lows ++ highs) eqn:E; [done|]. by exists t1. }
  destruct Hdown as (t2 & -> & Hr2 & Hm2 & _). rewrite res_bind_ok.
  exists t2, (match lows ++ highs with [] => [zero_region] | rs => rs end).
  split; [by destruct ty, mb|]. split; [|split; [congruence|]].
  - split; [done|]. destruct (lows ++ highs) eqn:E; [by left|].
    destruct Hso as [->|Hso]; [by left|right; done].
  - intros a. rewrite <- Hout. destruct (lows ++ highs) eqn:E; [|done]. apply flag_at_zero.
Qed.

Lemma remove_range_full ty base size mb rs :
  type_inv (get_type ty mb) rs -> phys base -> 0 < capped base size ->
  (mt_max (get_type ty mb) < length rs + 2)%nat -> mb_can_resize mb = false ->
  memblock_remove_range ty base size mb = Ok (- ENOMEM, mb).
Proof.
  intros [Hrep _] Hb Hc Hfull Hres. unfold memblock_remove_range, remove_range_with, isolate_range_with.
  rewrite cap_size_eq, (proj2 (Z.eqb_neq _ _)) by (done || lia). unfold make_room, ROOM_FUEL. cbn [loop].
  rewrite (repr_cnt _ _ Hrep), (proj2 (Nat.ltb_lt _ _)) by lia.
  unfold memblock_double_array, DOUBLE_FUEL. rewrite Hres. done.
Qed.

(** C23.  [memblock_remove_range], when the array has two spare entries or the
    range is empty, returns 0 without a fault and removes exactly the addresses
    of the capped range: every other address keeps its flags.  Only the array it
    was given changes, and the array invariant is kept, also when the last
    region goes.  Without two spare entries, needed or not, and while arrays may
    not be resized, it returns [-ENOMEM] and changes nothing. *)
Theorem memblock_remove_range_correct ty base size mb rs :
  type_inv (get_type ty mb) rs -> phys base -> phys size ->
  (capped base size = 0 \/ (length rs + 2 <= mt_max (get_type ty mb))%nat ->
   exists t' rs',
    memblock_remove_range ty base size mb = Ok (0, set_type ty t' mb) /\
    type_inv t' rs' /\ mt_max t' = mt_max (get_type ty mb) /\
    forall a, flag_at rs' a =
      if (base <=? a) && (a <? base + capped base size) then None else flag_at rs a) /\
  (0 < capped base size -> (mt_max (get_type ty mb) < length rs + 2)%nat -> mb_can_resize mb = false ->
   memblock_remove_range ty base size mb = Ok (- ENOMEM, mb)).
Proof. intros. split; [by apply remove_range_yields|by apply remove_range_full]. Qed.

(** ** Searching *)

Lemma rsorted_lookup lo rs i j ri rj :
  rsorted lo rs -> rs !! i = Some ri -> rs !! j = Some rj -> (i < j)%nat -> rg_end ri <= rg_base rj.
Proof.
  revert lo i j. induction rs as [|r rs IH]; intros lo i j; [done|]. cbn [rsorted].
  intros (? & ? & ? & Hs) Hi Hj Hij. destruct j as [|j]; [lia|]. cbn in Hj.
  destruct i as [|i]; cbn in Hi.
  - injection Hi as <-. apply list_elem_of_lookup_2 in Hj.
    by apply (rsorted_in _ _ _ Hs) in Hj as [? _].
  - eapply IH; [exact Hs|done|done|lia].
Qed.

Lemma flag_at_lookup rs a f :
  flag_at rs a = Some f -> exists i r, rs !! i = Some r /\ in_region r a = true /\ rg_flags r = f.
Proof.
  induction rs as [|r rs IH]; cbn; [done|]. destruct (in_region r a) eqn:E.
  - intros [= <-]. by exists 0%nat, r.
  - intros (i & r' & ? & ? & ?)%IH. by exists (S i), r'.
Qed.

Lemma flag_at_in rs i r a : forall lo,
  rsorted lo rs -> rs !! i = Some r -> in_region r a = true -> flag_at rs a = Some (rg_flags r).
Proof.
  revert i. induction rs as [|x rs IH]; intros i lo; [done|]. intros Hs Hi Hin.
  destruct i as [|i]; cbn in *; [injection Hi as ->; by rewrite Hin|].
  destruct Hs as (? & ? & ? & Hs). rewrite (IH i (rg_end x)) by done.
  apply list_elem_of_lookup_2, (rsorted_in _ _ _ Hs) in Hi as (? & ? & ?).
  apply in_region_spec in Hin. in_region_cases; [lia|done].
Qed.

(** Every region lies below or above [addr] around position [m]. *)
Lemma flag_at_split rs m addr :
  (forall i r, rs !! i = Some r -> (i < m)%nat -> rg_end r <= addr) ->
  (forall i r, rs !! i = Some r -> (m <= i)%nat -> addr < rg_base r) ->
  flag_at rs addr = None.
Proof.
  intros Hlo Hhi. destruct (flag_at rs addr) eqn:E; [|done].
  apply flag_at_lookup in E as (i & r & Hi & Hin & _). apply in_region_spec in Hin.
  destruct (Nat.lt_ge_cases i m); [specialize (Hlo i r Hi)|specialize (Hhi i r Hi)]; lia.
Qed.

Lemma memblock_search_zero t addr :
  repr t [zero_region] -> 0 <= addr -> memblock_search t addr = Ok (-1).
Proof.
  intros Hrep Ha. unfold memblock_search. rewrite (repr_cnt _ _ Hrep). cbn [length loop].
  unfold search_step. change ((1 + 0) / 2)%nat with 0%nat.
  rewrite (repr_aget t [zero_region] 0 zero_region Hrep) by done. rewrite res_bind_ok.
  cbn [rg_base rg_size zero_region]. change (0 ⊕ 0) with 0.
  by rewrite (proj2 (Z.ltb_ge _ _)), (proj2 (Z.leb_le _ _)) by lia.
Qed.

(** The answer of a search over the sorted regions [rs]. *)
Definition search_result (rs : list memblock_region) (addr i : Z) : Prop :=
  match flag_at rs addr with
  | None => i = -1
  | Some f => exists r, 0 <= i /\ rs !! Z.to_nat i = Some r /\ in_region r addr = true /\ rg_flags r = f
  end.

(** The invariant of the binary search: regions before [lo] end at or below
    [addr], regions from [hi] on start above it. *)
Definition search_inv (rs : list memblock_region) (addr : Z) : nat * nat -> Prop := fun '(lo, hi) =>
  (lo < hi <= length rs)%nat /\
  (forall i r, rs !! i = Some r -> (i < lo)%nat -> rg_end r <= addr) /\
  (forall i r, rs !! i = Some r -> (hi <= i)%nat -> addr < rg_base r).

Lemma search_step_inv t rs addr s :
  repr t rs -> rsorted 0 rs -> search_inv rs addr s ->
  (exists s', search_step t addr s = Ok (inl s') /\ search_inv rs addr s' /\
     (snd s' - fst s' < snd s - fst s)%nat) \/
  (exists i, search_step t addr s = Ok (inr i) /\ search_result rs addr i).
Proof.
  intros Hrep Hs. destruct s as [lo hi]. intros (Hlh & Hlo & Hhi). unfold search_step, search_result.
  pose proof (Nat.div_mod_eq (hi + lo) 2) as Hd. pose proof (Nat.mod_upper_bound (hi + lo) 2 ltac:(done)).
  set (mid := ((hi + lo) / 2)%nat) in *. clearbody mid.
  destruct (lookup_lt_is_Some_2 rs mid) as [r Hr]; [lia|].
  rewrite (repr_aget _ _ _ _ Hrep Hr), res_bind_ok.
  pose proof (list_elem_of_lookup_2 _ _ _ Hr) as (? & ? & ?)%(rsorted_in _ _ _ Hs).
  rewrite rg_end_nowrap by lia.
  destruct (addr <? rg_base r) eqn:E1; [|destruct (rg_end r <=? addr) eqn:E2].
  - assert (Hhi' : forall i r', rs !! i = Some r' -> (mid <= i)%nat -> addr < rg_base r').
    { intros i r' Hi Hmi. destruct (decide (i = mid)) as [->|]; [simplify_eq; lia|].
      pose proof (rsorted_lookup _ _ _ _ _ _ Hs Hr Hi ltac:(lia)). unfold rg_end in *. lia. }
    destruct (Nat.ltb_spec lo mid); [left|right]; eexists; (split; [done|]).
    + split; [|cbn [fst snd]; lia]. split; [lia|done].
    + rewrite (flag_at_split rs lo); [done|done|]. intros i r' Hi ?. apply (Hhi' i); [done|]. lia.
  - assert (Hlo' : forall i r', rs !! i = Some r' -> (i < S mid)%nat -> rg_end r' <= addr).
    { intros i r' Hi Hmi. destruct (decide (i = mid)) as [->|]; [simplify_eq; lia|].
      pose proof (rsorted_lookup _ _ _ _ _ _ Hs Hi Hr ltac:(lia)). unfold rg_end in *. lia. }
    destruct (Nat.ltb_spec (S mid) hi); [left|right]; eexists; (split; [done|]).
    + split; [|cbn [fst snd]; lia]. split; [lia|done].
    + rewrite (flag_at_split rs hi); [done| |done]. intros i r' Hi ?. apply (Hlo' i); [done|]. lia.
  - right. eexists. split; [done|].
    assert (Hin : in_region r addr = true) by (apply in_region_spec; lia).
    rewrite (flag_at_in rs mid r addr 0) by done. exists r. rewrite Nat2Z.id. repeat split; done || lia.
Qed.

(** [memblock_search] is a correct and terminating binary search: it returns
    the index of the region that contains [addr] when some region does, and -1
    exactly when no region does. *)
Theorem memblock_search_correct t rs addr :
  type_inv t rs -> phys addr ->
  exists i, memblock_search t addr = Ok i /\
    match flag_at rs addr with
    | None => i = -1
    | Some f => exists r, 0 <= i /\ rs !! Z.to_nat i = Some r /\ in_region r addr = true /\ rg_flags r = f
    end.
Proof.
  intros [Hrep [-> | [Hne Hs]]] [Ha _].
  { exists (-1). rewrite flag_at_zero. split; [|done]. by apply memblock_search_zero. }
  unfold memblock_search. rewrite (repr_cnt _ _ Hrep).
  apply (loop_total _ (search_inv rs addr) (search_result rs addr) (fun s => (snd s - fst s)%nat)).
  - intros s. by apply search_step_inv.
  - split; [destruct rs; [done|cbn; lia]|]. split; [lia|].
    intros i r Hi. apply lookup_lt_Some in Hi. lia.
  - cbn. lia.
Qed.

(** ** Overlap tests *)

Lemma addrs_overlap_spec base size r :
  phys base -> 0 <= size -> base + size <= ULLONG_MAX ->
  0 <= rg_base r -> 0 <= rg_size r -> rg_end r <= ULLONG_MAX ->
  memblock_addrs_overlap base size (rg_base r) (rg_size r)
    = (base <? rg_end r) && (rg_base r <? base + size).
Proof.
  unfold phys, rg_end, ULLONG_MAX. intros. unfold memblock_addrs_overlap. by nowrap.
Qed.

Lemma overlaps_loop t rs base size : forall rs2 rs1 fuel,
  repr t rs -> rs = rs1 ++ rs2 -> regions_ok rs ->
  phys base -> 0 <= size -> base + size <= ULLONG_MAX -> (length rs2 < fuel)%nat ->
  exists i, loop fuel (overlaps_step t base size) (length rs1) = Ok i /\
    (0 <= i <-> exists r, r ∈ rs2 /\ base < rg_end r /\ rg_base r < base + size).
Proof.
  induction rs2 as [|r rs2 IH]; intros rs1 fuel Hrep -> Hok Hb Hs He Hf;
    (destruct fuel as [|fuel]; [cbn in Hf; lia|]); cbn [loop]; unfold overlaps_step at 1;
    rewrite (repr_cnt _ _ Hrep), length_app; cbn [length].
  - rewrite (proj2 (Nat.ltb_ge _ _)) by lia. exists (-1). split; [done|].
    split; [lia|]. intros (r & Hr & _). by apply not_elem_of_nil in Hr.
  - rewrite (proj2 (Nat.ltb_lt _ _)) by lia. rewrite (repr_aget_mid _ _ _ _ Hrep), res_bind_ok.
    pose proof Hok as [_ [(? & ? & ?) _]%Forall_cons]%Forall_app.
    rewrite addrs_overlap_spec by done. destruct (_ && _) eqn:E.
    + exists (Z.of_nat (length rs1)). split; [done|]. split; [|lia]. intros _.
      exists r. split; [by left|]. lia.
    + destruct (IH (rs1 ++ [r]) fuel) as (i & Heq & Hi); try done;
        rewrite <- ?app_assoc; try done; [cbn in Hf; lia|].
      rewrite length_app, Nat.add_1_r in Heq. exists i. split; [done|]. rewrite Hi.
      split; intros (r' & Hr' & ?); exists r'; (split; [|done]).
      * by right.
      * apply elem_of_cons in Hr' as [->|?]; [lia|done].
Qed.

(** [memblock_is_region_reserved] answers, for a non-empty range, whether
    some address of the (capped) range is reserved. *)
Theorem memblock_is_region_reserved_correct base size mb rs :
  type_inv (mb_reserved mb) rs -> phys base -> phys size -> 0 < capped base size ->
  exists b, memblock_is_region_reserved base size mb = Ok b /\
    (b = true <-> exists a, base <= a < base + capped base size /\ is_Some (flag_at rs a)).
Proof.
  intros [Hrep Hrs] Hb Hs Hc. unfold memblock_is_region_reserved.
  rewrite cap_size_eq by done. pose proof (capped_end base size Hb Hs) as Hce.
  assert (Hok : regions_ok rs).
  { destruct Hrs as [->|[_ Hso]]; [|by eapply rsorted_ok].
    constructor; [unfold rg_end, ULLONG_MAX; cbn; lia|constructor]. }
  destruct (overlaps_loop (mb_reserved mb) rs base (capped base size) rs [] (S (mt_cnt (mb_reserved mb))))
    as (i & Heq & Hi); try done; try lia.
  { rewrite (repr_cnt _ _ Hrep). lia. }
  unfold memblock_overlaps_region. cbn [length] in Heq. rewrite Heq, res_bind_ok.
  eexists. split; [done|]. rewrite Z.leb_le, Hi. destruct Hrs as [->|[_ Hso]].
  - split; intros (x & Hx & Hx').
    + apply list_elem_of_singleton in Hx as ->. unfold rg_end in Hx'. cbn in *. unfold phys in *. lia.
    + rewrite flag_at_zero in Hx'. by destruct Hx'.
  - split; intros (x & Hx & Hx').
    + exists (Z.max base (rg_base x)). apply list_elem_of_lookup in Hx as [j Hj].
      pose proof (list_elem_of_lookup_2 _ _ _ Hj) as (? & ? & ?)%(rsorted_in _ _ _ Hso).
      split; [lia|]. rewrite (flag_at_in rs j x _ 0); [done|done|done|].
      apply in_region_spec. unfold rg_end in *. lia.
    + destruct Hx' as [f Hf]. apply flag_at_lookup in Hf as (j & r & Hj & Hin & _).
      apply in_region_spec in Hin. exists r. split; [by eapply list_elem_of_lookup_2|]. lia.
Qed.
End env.
