(* ===== verification/MemblockFind.v ===== *)
(** * Free areas and allocation in mm/memblock.c

    The iterators [__next_mem_range] and [__next_mem_range_rev] visit exactly
    the non-empty intersections of a memory region with a gap between
    reservations.  From this follow soundness and completeness of
    [memblock_find_in_range_node] and the correctness of
    [memblock_alloc_range_nid]. *)

From S2P Require Import Prelude MemblockDefs MemblockTheory MemblockProps.

(** ** Gaps between reservations *)

(** Regions in order, not overlapping; the dummy entry of an empty array
    qualifies. *)
Definition ordered (rs : list memblock_region) : Prop :=
  regions_ok rs /\
  forall i j ri rj, rs !! i = Some ri -> rs !! j = Some rj -> (i < j)%nat -> rg_end ri <= rg_base rj.

Lemma type_inv_ordered t rs : type_inv t rs -> ordered rs.
Proof.
  intros [_ [->|[_ Hs]]].
  - split; [constructor; [unfold rg_end, ULLONG_MAX; cbn; lia|constructor]|].
    intros [|i] [|j]; cbn; try lia; done.
  - split; [by eapply rsorted_ok|]. intros. by eapply rsorted_lookup.
Qed.

Lemma ordered_ok rs i r :
  ordered rs -> rs !! i = Some r -> 0 <= rg_base r /\ 0 <= rg_size r /\ rg_end r <= ULLONG_MAX.
Proof. intros [Hok _] Hi. by apply (Forall_lookup_1 _ _ _ _ Hok Hi). Qed.

(** The area before reservation [j] (and the one after the last). *)
Definition gap_start (rs : list memblock_region) (j : nat) : Z :=
  match j with
  | O => 0
  | S j => match rs !! j with Some r => rg_end r | None => 0 end
  end.
Definition gap_end (rs : list memblock_region) (j : nat) : Z :=
  match rs !! j with Some r => rg_base r | None => ULLONG_MAX end.

Lemma gap_of_eq t rs j :
  repr t rs -> ordered rs -> (j <= length rs)%nat ->
  gap_of t (Z.of_nat j) = Ok (gap_start rs j, gap_end rs j).
Proof.
  intros Hrep Ho Hj. unfold gap_of, gap_start, gap_end. rewrite (repr_cnt _ _ Hrep).
  assert (H1 : (if Z.of_nat j =? 0 then Ok 0 else
            r ← aget (mt_regions t) (Z.to_nat (Z.of_nat j - 1)); Ok (rg_base r ⊕ rg_size r)) =
          Ok (match j with O => 0 | S j => match rs !! j with Some r => rg_end r | None => 0 end end)).
  { destruct j as [|j]; [done|]. rewrite (proj2 (Z.eqb_neq _ _)) by lia.
    replace (Z.to_nat (Z.of_nat (S j) - 1)) with j by lia.
    destruct (lookup_lt_is_Some_2 rs j) as [r Hr]; [lia|].
    rewrite Hr, (repr_aget _ _ _ _ Hrep Hr), res_bind_ok.
    destruct (ordered_ok _ _ _ Ho Hr) as (? & ? & ?). by rewrite rg_end_nowrap. }
  rewrite H1, res_bind_ok. destruct (rs !! j) as [r|] eqn:Hr.
  - rewrite (proj2 (Z.ltb_lt _ _)) by (apply lookup_lt_Some in Hr; lia).
    by rewrite Nat2Z.id, (repr_aget _ _ _ _ Hrep Hr).
  - by rewrite (proj2 (Z.ltb_ge _ _)) by (apply lookup_ge_None in Hr; lia).
Qed.

Lemma gap_order rs j j' :
  ordered rs -> (j < j')%nat -> (j' <= length rs)%nat -> gap_end rs j <= gap_start rs j'.
Proof.
  intros Ho Hlt Hle. unfold gap_end, gap_start. destruct j' as [|j']; [lia|].
  destruct (lookup_lt_is_Some_2 rs j') as [r' Hr']; [lia|].
  destruct (lookup_lt_is_Some_2 rs j) as [r Hr]; [lia|]. rewrite Hr, Hr'.
  destruct (ordered_ok _ _ _ Ho Hr') as (? & ? & ?). destruct (decide (j = j')) as [->|].
  - simplify_eq. unfold rg_end. lia.
  - assert (rg_end r <= rg_base r') by (eapply Ho; [exact Hr|exact Hr'|lia]).
    destruct (ordered_ok _ _ _ Ho Hr) as (? & ? & ?). unfold rg_end in *. lia.
Qed.

Lemma gap_le rs j : ordered rs -> (j <= length rs)%nat -> gap_start rs j <= gap_end rs j.
Proof.
  intros Ho Hl. unfold gap_start, gap_end. destruct j as [|j].
  - destruct (rs !! 0%nat) eqn:E; [|unfold ULLONG_MAX; lia]. by destruct (ordered_ok _ _ _ Ho E).
  - destruct (lookup_lt_is_Some_2 rs j) as [r Hr]; [lia|]. rewrite Hr.
    destruct (rs !! S j) as [r'|] eqn:E; [eapply Ho; [exact Hr|exact E|lia]|].
    by destruct (ordered_ok _ _ _ Ho Hr) as (_ & _ & ?).
Qed.

Lemma gap_start_mono rs j j' :
  ordered rs -> (j <= j')%nat -> (j' <= length rs)%nat -> gap_start rs j <= gap_start rs j'.
Proof.
  intros Ho Hle Hl. destruct (decide (j = j')) as [->|]; [done|].
  pose proof (gap_le rs j Ho). pose proof (gap_order rs j j' Ho ltac:(lia) Hl). lia.
Qed.

(** ** The loop variable of the iterators *)

Lemma pack_unpack a b :
  -1 <= a < 2 ^ 31 -> -1 <= b < 2 ^ 31 -> idx_a_of (pack_idx a b) = a /\ idx_b_of (pack_idx a b) = b.
Proof.
  intros Ha Hb. unfold idx_a_of, idx_b_of, pack_idx.
  assert (Hhi : u64 (Z.shiftl (u64 b) 32) = Z.shiftl (u32 b) 32).
  { unfold u64, u32. rewrite !Z.shiftl_mul_pow2 by lia.
    change (2 ^ 64) with (2 ^ 32 * 2 ^ 32). rewrite Z.mul_mod_distr_r by lia. f_equal.
    rewrite Z.rem_mul_r by lia. rewrite Z.mul_comm, Z_mod_plus_full. by rewrite Z.mod_mod by lia. }
  rewrite Hhi. pose proof (u32_range a) as Hra. pose proof (u32_range b) as Hrb.
  change 0xffffffff with (Z.ones 32). split.
  - rewrite Z.land_ones by lia. rewrite <- (Z.land_ones (Z.lor _ _) 32) by lia.
    rewrite Z.land_lor_distr_l, !Z.land_ones by lia. rewrite Z.shiftl_mul_pow2, Z.mod_mul by lia.
    rewrite Z.lor_0_r, Z.mod_small by lia. unfold s32, u32.
    rewrite Zplus_mod_idemp_l, Z.mod_small by lia. lia.
  - rewrite Z.shiftr_lor, Z.shiftr_shiftl_l, Z.sub_diag, Z.shiftl_0_r by lia.
    rewrite (Z.shiftr_div_pow2 (u32 a)), Z.div_small, Z.lor_0_l by lia. unfold s32, u32.
    rewrite Zplus_mod_idemp_l, Z.mod_small by lia. lia.
Qed.

Lemma pack_not_end a b :
  -1 <= a < 2 ^ 31 -> -1 <= b < 2 ^ 31 -> ~ (a = -1 /\ b = -1) -> (pack_idx a b =? ULLONG_MAX) = false.
Proof.
  intros Ha Hb Hne. apply Z.eqb_neq. intros E. destruct (pack_unpack a b Ha Hb) as [H1 H2].
  rewrite E in H1, H2. vm_compute in H1, H2. auto.
Qed.

(** ** What the iterators visit *)

Section iterate.
Context `{MBEnv} (nid : Z).

(** Memory region [i] meets the area before reservation [j] in [[s, e)]. *)
Definition meets (rsA rsB : list memblock_region) (i j : nat) (s e : Z) : Prop :=
  exists m, rsA !! i = Some m /\ skip_region nid m = false /\ (j <= length rsB)%nat /\
    gap_start rsB j < rg_end m /\ rg_base m < gap_end rsB j /\
    s = Z.max (rg_base m) (gap_start rsB j) /\ e = Z.min (rg_end m) (gap_end rsB j).

Context (ta tb : memblock_type) (rsA rsB : list memblock_region).
Context (HrepA : repr ta rsA) (HrepB : repr tb rsB) (HoA : ordered rsA) (HoB : ordered rsB).
Context (HlenA : Z.of_nat (length rsA) < 2 ^ 31 - 1) (HlenB : Z.of_nat (length rsB) < 2 ^ 31 - 1).

(** *** Upwards *)

(** Where the inner loop leaves: areas skipped on the way end below the
    region; it stops above the region or at an intersection. *)
Definition inner_out (a b : nat) (m : memblock_region) (out : Z + iter_out) : Prop :=
  exists b', (b <= b' <= S (length rsB))%nat /\
    (forall j, (b <= j < b')%nat -> gap_end rsB j <= rg_base m) /\
    ((out = inl (Z.of_nat b') /\
      forall j, (b' <= j <= length rsB)%nat -> rg_end m <= gap_start rsB j) \/
     ((b' <= length rsB)%nat /\ gap_start rsB b' < rg_end m /\ rg_base m < gap_end rsB b' /\
      out = inr (if rg_end m <=? gap_end rsB b' then pack_idx (Z.of_nat (S a)) (Z.of_nat b')
                 else pack_idx (Z.of_nat a) (Z.of_nat (S b')),
                 Some (Z.max (rg_base m) (gap_start rsB b'), Z.min (rg_end m) (gap_end rsB b'))))).

Lemma next_inner a b m fuel :
  rsA !! a = Some m -> (b <= S (length rsB))%nat -> (S (length rsB) - b < fuel)%nat ->
  exists out,
    loop fuel (next_gap_step tb (Z.of_nat a) (rg_base m) (rg_end m)) (Z.of_nat b) = Ok out /\
    inner_out a b m out.
Proof.
  intros Hm. revert b. induction fuel as [|fuel IH]; intros b Hb Hf; [lia|].
  cbn [loop]. unfold next_gap_step at 1. rewrite (repr_cnt _ _ HrepB), u64_small by lia.
  destruct (decide (b = S (length rsB))) as [->|Hne].
  { rewrite (proj2 (Z.ltb_ge _ _)) by lia. eexists. split; [done|].
    exists (S (length rsB)). split_and!; try lia. left. split; [done|]. lia. }
  rewrite (proj2 (Z.ltb_lt _ _)), (gap_of_eq _ rsB) by (done || lia). rewrite res_bind_ok.
  destruct (Z.leb_spec (rg_end m) (gap_start rsB b)) as [Hl|Hl].
  { eexists. split; [done|]. exists b. split_and!; try lia. left. split; [done|].
    intros j Hj. pose proof (gap_start_mono rsB b j HoB). lia. }
  destruct (Z.ltb_spec (rg_base m) (gap_end rsB b)) as [Hr|Hr].
  { eexists. split; [done|]. exists b. split_and!; try lia. right. split_and!; try done; try lia.
    by replace (Z.of_nat a + 1) with (Z.of_nat (S a)) by lia;
      replace (Z.of_nat b + 1) with (Z.of_nat (S b)) by lia. }
  replace (Z.of_nat b + 1) with (Z.of_nat (S b)) by lia.
  destruct (IH (S b)) as (out & -> & b' & Hb' & Hbelow & Hout); [lia..|].
  eexists. split; [done|]. exists b'. split_and!; try lia; [|done].
  intros j Hj. destruct (decide (j = b)) as [->|]; [done|]. apply Hbelow. lia.
Qed.

(** The result of one call from position [(a, b)]: the end, or the next
    intersection together with a position that still has all the others
    [ahead]. *)
Definition visit (ahead : Z -> Z -> nat -> nat -> Prop) (next : Z -> Z -> Prop) (a b : Z)
    (out : iter_out) : Prop :=
  (out = (ULLONG_MAX, None) /\ forall i j s e, ahead a b i j -> ~ meets rsA rsB i j s e) \/
  exists a' b' i j s e, out = (pack_idx a' b', Some (s, e)) /\ meets rsA rsB i j s e /\ next a' b' /\
    forall i' j' s' e', ahead a b i' j' -> meets rsA rsB i' j' s' e' ->
      (s' = s /\ e' = e) \/ ahead a' b' i' j'.

Definition ahead_up (a b : Z) (i j : nat) : Prop := a <= Z.of_nat i /\ b <= Z.of_nat j.
Definition next_up (a b a' b' : Z) : Prop :=
  a <= a' <= Z.of_nat (length rsA) /\ b <= b' <= Z.of_nat (S (length rsB)) /\ a + b < a' + b'.

Lemma meets_same_region i j s e m :
  rsA !! i = Some m -> meets rsA rsB i j s e ->
  skip_region nid m = false /\ (j <= length rsB)%nat /\
    gap_start rsB j < rg_end m /\ rg_base m < gap_end rsB j /\
    s = Z.max (rg_base m) (gap_start rsB j) /\ e = Z.min (rg_end m) (gap_end rsB j).
Proof. intros Hm (m' & Hm' & ?). by simplify_eq. Qed.

Lemma visit_weaken_up a b a0 b0 out :
  a0 <= a -> b0 <= b ->
  (forall i j s e, ahead_up a0 b0 i j -> meets rsA rsB i j s e -> ahead_up a b i j) ->
  visit ahead_up (next_up a b) a b out -> visit ahead_up (next_up a0 b0) a0 b0 out.
Proof.
  intros Ha Hb Hsub [[-> Hno]|(a' & b' & i & j & s & e & -> & Hm & Hnext & Hrest)].
  - left. split; [done|]. intros i j s e Hah Hme. by eapply Hno; [eapply Hsub|].
  - right. exists a', b', i, j, s, e. split_and!; try done.
    + unfold next_up in *. lia.
    + intros. eapply Hrest; [by eapply Hsub|done].
Qed.

(** An area that ends below a region meets none of the regions above it, and
    an area that starts above a region meets none of those below. *)
Lemma not_meets_above a i j s e m :
  rsA !! a = Some m -> (a <= i)%nat -> gap_end rsB j <= rg_base m -> ~ meets rsA rsB i j s e.
Proof.
  intros Hm Hi Hg (m' & Hm' & _ & _ & _ & Hlt & _). destruct (decide (i = a)) as [->|].
  - simplify_eq. lia.
  - assert (rg_end m <= rg_base m') by (eapply HoA; [exact Hm|exact Hm'|lia]).
    destruct (ordered_ok _ _ _ HoA Hm) as (? & ? & ?). unfold rg_end in *. lia.
Qed.

Lemma not_meets_below a i j s e m :
  rsA !! a = Some m -> (i <= a)%nat -> rg_end m <= gap_start rsB j -> ~ meets rsA rsB i j s e.
Proof.
  intros Hm Hi Hg (m' & Hm' & _ & _ & Hlt & _). destruct (decide (i = a)) as [->|].
  - simplify_eq. lia.
  - assert (rg_end m' <= rg_base m) by (eapply HoA; [exact Hm'|exact Hm|lia]).
    destruct (ordered_ok _ _ _ HoA Hm) as (? & ? & ?). unfold rg_end in *. lia.
Qed.

(** At an intersection the iterator moves past the region or past the area,
    whichever ends first. *)
Lemma emit_up (a b b' : nat) m :
  rsA !! a = Some m -> skip_region nid m = false -> (b <= b' <= length rsB)%nat ->
  (forall j, (b <= j < b')%nat -> gap_end rsB j <= rg_base m) ->
  gap_start rsB b' < rg_end m -> rg_base m < gap_end rsB b' ->
  visit ahead_up (next_up (Z.of_nat a) (Z.of_nat b)) (Z.of_nat a) (Z.of_nat b)
    (if rg_end m <=? gap_end rsB b' then pack_idx (Z.of_nat (S a)) (Z.of_nat b')
     else pack_idx (Z.of_nat a) (Z.of_nat (S b')),
     Some (Z.max (rg_base m) (gap_start rsB b'), Z.min (rg_end m) (gap_end rsB b'))).
Proof.
  intros Hm Hsk Hb Hbelow Hlo Hhi. pose proof (lookup_lt_Some _ _ _ Hm). right.
  assert (Hsel : forall i j s e, ahead_up (Z.of_nat a) (Z.of_nat b) i j -> meets rsA rsB i j s e ->
                   (a <= i)%nat /\ (b' <= j <= length rsB)%nat).
  { intros i j s e [Hi Hj] Hme. assert (j <= length rsB)%nat by (by destruct Hme as (? & ? & ? & ? & _)).
    split; [lia|]. destruct (decide (j < b')%nat); [|lia]. exfalso.
    eapply not_meets_above; [exact Hm| |apply Hbelow|exact Hme]; lia. }
  exists (if rg_end m <=? gap_end rsB b' then Z.of_nat (S a) else Z.of_nat a).
  exists (if rg_end m <=? gap_end rsB b' then Z.of_nat b' else Z.of_nat (S b')).
  exists a, b'. do 2 eexists. split_and!; [by destruct (_ <=? _)|by exists m; split_and!; try done; lia| |].
  - unfold next_up. destruct (_ <=? _); lia.
  - intros i j s e Hah Hme. destruct (Hsel _ _ _ _ Hah Hme) as [Hi Hj].
    destruct (decide (i = a /\ j = b')) as [[-> ->]|Hne].
    { left. destruct (meets_same_region _ _ _ _ _ Hm Hme) as (_ & _ & _ & _ & ? & ?). done. }
    right. unfold ahead_up. destruct (Z.leb_spec (rg_end m) (gap_end rsB b')).
    + split; [|lia]. destruct (decide (i = a)) as [->|]; [|lia]. exfalso.
      eapply not_meets_below; [exact Hm|reflexivity| |exact Hme].
      pose proof (gap_order rsB b' j HoB). lia.
    + split; [lia|]. destruct (decide (j = b')) as [->|]; [|lia]. exfalso.
      destruct Hme as (m' & Hm' & _ & _ & _ & ? & _).
      assert (rg_end m <= rg_base m') by (eapply HoA; [exact Hm|exact Hm'|lia]). lia.
Qed.

Lemma next_outer fuel (a b : nat) :
  (a <= length rsA)%nat -> (b <= S (length rsB))%nat -> (length rsA - a < fuel)%nat ->
  exists out, loop fuel (next_step nid ta (Some tb)) (Z.of_nat a, Z.of_nat b) = Ok out /\
    visit ahead_up (next_up (Z.of_nat a) (Z.of_nat b)) (Z.of_nat a) (Z.of_nat b) out.
Proof.
  revert a b. induction fuel as [|fuel IH]; intros a b Ha Hb Hf; [lia|].
  cbn [loop]. unfold next_step at 1. rewrite (repr_cnt _ _ HrepA), u64_small by lia.
  destruct (rsA !! a) as [m|] eqn:Hm.
  2:{ apply lookup_ge_None in Hm. rewrite (proj2 (Z.ltb_ge _ _)) by lia. eexists. split; [done|].
      left. split; [done|]. intros i j s e [? ?] (m & Hi & _). apply lookup_lt_Some in Hi. lia. }
  rewrite (proj2 (Z.ltb_lt _ _)), Nat2Z.id, (repr_aget _ _ _ _ HrepA Hm), res_bind_ok
    by (apply lookup_lt_Some in Hm; lia).
  destruct (ordered_ok _ _ _ HoA Hm) as (Hm1 & Hm2 & Hm3). rewrite rg_end_nowrap by done.
  pose proof (lookup_lt_Some _ _ _ Hm).
  replace (Z.of_nat a + 1) with (Z.of_nat (S a)) by lia. destruct (skip_region nid m) eqn:Hsk.
  { destruct (IH (S a) b) as (out & -> & Hv); [lia..|]. eexists. split; [done|].
    eapply visit_weaken_up; [| | |exact Hv]; [lia..|].
    intros i j s e [Hi Hj] Hme. split; [|done]. destruct (decide (i = a)) as [->|]; [|lia].
    destruct (meets_same_region _ _ _ _ _ Hm Hme). congruence. }
  rewrite (repr_cnt _ _ HrepB).
  destruct (next_inner a b m (length rsB + 3)) as (out & -> & b' & Hb' & Hbelow & Hout); [done|lia..|].
  rewrite res_bind_ok. destruct Hout as [[-> Habove]|(Hbl & Hlo & Hhi & ->)].
  - destruct (IH (S a) b') as (out & -> & Hv); [lia..|]. eexists. split; [done|].
    eapply visit_weaken_up; [| | |exact Hv]; [lia..|].
    intros i j s e [Hi Hj] Hme. assert (j <= length rsB)%nat by (by destruct Hme as (? & ? & ? & ? & _)).
    destruct (decide (j < b')%nat).
    + exfalso. eapply not_meets_above; [exact Hm| |apply Hbelow|exact Hme]; lia.
    + destruct (decide (i = a)) as [->|]; [|unfold ahead_up; lia]. exfalso.
      eapply not_meets_below; [exact Hm|reflexivity|apply Habove|exact Hme]. lia.
  - eexists. split; [done|]. apply emit_up; done || lia.
Qed.

(** *** Downwards *)

Definition ahead_down (a b : Z) (i j : nat) : Prop := Z.of_nat i <= a /\ Z.of_nat j <= b.
Definition next_down (a b a' b' : Z) : Prop :=
  -1 <= a' <= a /\ -1 <= b' <= b /\ a' + b' < a + b /\ ~ (a' = -1 /\ b' = -1).

Definition inner_out_rev (a : nat) (b : Z) (m : memblock_region) (out : Z + iter_out) : Prop :=
  exists b', -1 <= b' <= b /\
    (forall j, b' < Z.of_nat j <= b -> rg_end m <= gap_start rsB j) /\
    ((out = inl b' /\ forall j, Z.of_nat j <= b' -> gap_end rsB j <= rg_base m) \/
     exists c, b' = Z.of_nat c /\ gap_start rsB c < rg_end m /\ rg_base m < gap_end rsB c /\
      out = inr (if gap_start rsB c <=? rg_base m then pack_idx (Z.of_nat a - 1) (Z.of_nat c)
                 else pack_idx (Z.of_nat a) (Z.of_nat c - 1),
                 Some (Z.max (rg_base m) (gap_start rsB c), Z.min (rg_end m) (gap_end rsB c)))).

Lemma next_inner_rev a b m fuel :
  rsA !! a = Some m -> -1 <= b <= Z.of_nat (length rsB) -> b + 1 < Z.of_nat fuel ->
  exists out,
    loop fuel (next_gap_step_rev tb (Z.of_nat a) (rg_base m) (rg_end m)) b = Ok out /\
    inner_out_rev a b m out.
Proof.
  intros Hm. revert b. induction fuel as [|fuel IH]; intros b Hb Hf; [lia|].
  cbn [loop]. unfold next_gap_step_rev at 1. destruct (Z.leb_spec 0 b) as [H0|H0].
  2:{ eexists. split; [done|]. exists b. split_and!; try lia. left. split; [done|]. lia. }
  destruct (Z_of_nat_complete b H0) as [c ->].
  rewrite (gap_of_eq _ rsB) by (done || lia). rewrite res_bind_ok.
  destruct (ordered_ok _ _ _ HoA Hm) as (? & ? & ?).
  destruct (Z.leb_spec (gap_end rsB c) (rg_base m)) as [Hl|Hl].
  { eexists. split; [done|]. exists (Z.of_nat c). split_and!; try lia. left. split; [done|].
    intros j Hj. destruct (decide (j = c)) as [->|]; [done|].
    pose proof (gap_order rsB j c HoB). pose proof (gap_le rsB c HoB). lia. }
  destruct (Z.ltb_spec (gap_start rsB c) (rg_end m)) as [Hr|Hr].
  { eexists. split; [done|]. exists (Z.of_nat c). split_and!; try lia. right. by exists c. }
  destruct (IH (Z.of_nat c - 1)) as (out & -> & b' & Hb' & Habove & Hout); [lia..|].
  eexists. split; [done|]. exists b'. split_and!; try lia; [|done].
  intros j Hj. destruct (decide (j = c)) as [->|]; [done|]. apply Habove. lia.
Qed.

Lemma visit_weaken_down a b a0 b0 out :
  a <= a0 -> b <= b0 ->
  (forall i j s e, ahead_down a0 b0 i j -> meets rsA rsB i j s e -> ahead_down a b i j) ->
  visit ahead_down (next_down a b) a b out -> visit ahead_down (next_down a0 b0) a0 b0 out.
Proof.
  intros Ha Hb Hsub [[-> Hno]|(a' & b' & i & j & s & e & -> & Hm & Hnext & Hrest)].
  - left. split; [done|]. intros i j s e Hah Hme. by eapply Hno; [eapply Hsub|].
  - right. exists a', b', i, j, s, e. split_and!; try done.
    + unfold next_down in *. lia.
    + intros. eapply Hrest; [by eapply Hsub|done].
Qed.

Lemma emit_down (a c : nat) b m :
  rsA !! a = Some m -> skip_region nid m = false -> Z.of_nat c <= b <= Z.of_nat (length rsB) ->
  (forall j, Z.of_nat c < Z.of_nat j <= b -> rg_end m <= gap_start rsB j) ->
  gap_start rsB c < rg_end m -> rg_base m < gap_end rsB c ->
  visit ahead_down (next_down (Z.of_nat a) b) (Z.of_nat a) b
    (if gap_start rsB c <=? rg_base m then pack_idx (Z.of_nat a - 1) (Z.of_nat c)
     else pack_idx (Z.of_nat a) (Z.of_nat c - 1),
     Some (Z.max (rg_base m) (gap_start rsB c), Z.min (rg_end m) (gap_end rsB c))).
Proof.
  intros Hm Hsk Hb Habove Hlo Hhi. pose proof (lookup_lt_Some _ _ _ Hm). right.
  assert (Hsel : forall i j s e, ahead_down (Z.of_nat a) b i j -> meets rsA rsB i j s e ->
                   (i <= a)%nat /\ (j <= c)%nat).
  { intros i j s e [Hi Hj] Hme. split; [lia|]. destruct (decide (c < j)%nat); [|lia]. exfalso.
    eapply not_meets_below; [exact Hm| |apply Habove|exact Hme]; lia. }
  exists (if gap_start rsB c <=? rg_base m then Z.of_nat a - 1 else Z.of_nat a).
  exists (if gap_start rsB c <=? rg_base m then Z.of_nat c else Z.of_nat c - 1).
  exists a, c. do 2 eexists. split_and!; [by destruct (_ <=? _)|by exists m; split_and!; try done; lia| |].
  - unfold next_down. destruct (_ <=? _); lia.
  - intros i j s e Hah Hme. destruct (Hsel _ _ _ _ Hah Hme) as [Hi Hj].
    destruct (decide (i = a /\ j = c)) as [[-> ->]|Hne].
    { left. destruct (meets_same_region _ _ _ _ _ Hm Hme) as (_ & _ & _ & _ & ? & ?). done. }
    right. unfold ahead_down. destruct (Z.leb_spec (gap_start rsB c) (rg_base m)).
    + split; [|lia]. destruct (decide (i = a)) as [->|]; [|lia]. exfalso.
      eapply not_meets_above; [exact Hm|reflexivity| |exact Hme].
      pose proof (gap_order rsB j c HoB). lia.
    + split; [lia|]. destruct (decide (j = c)) as [->|]; [|lia]. exfalso.
      destruct Hme as (m' & Hm' & _ & _ & ? & _).
      assert (rg_end m' <= rg_base m) by (eapply HoA; [exact Hm'|exact Hm|lia]). lia.
Qed.

Lemma next_outer_rev fuel (a b : Z) :
  -1 <= a < Z.of_nat (length rsA) -> -1 <= b <= Z.of_nat (length rsB) -> a + 1 < Z.of_nat fuel ->
  exists out, loop fuel (next_step_rev nid ta (Some tb)) (a, b) = Ok out /\
    visit ahead_down (next_down a b) a b out.
Proof.
  revert a b. induction fuel as [|fuel IH]; intros a b Ha Hb Hf; [lia|].
  cbn [loop]. unfold next_step_rev at 1. destruct (Z.leb_spec 0 a) as [H0|H0].
  2:{ eexists. split; [done|]. left. split; [done|]. intros i j s e [? ?]. lia. }
  destruct (Z_of_nat_complete a H0) as [a' ->]. destruct (lookup_lt_is_Some_2 rsA a') as [m Hm]; [lia|].
  rewrite Nat2Z.id, (repr_aget _ _ _ _ HrepA Hm), res_bind_ok.
  destruct (ordered_ok _ _ _ HoA Hm) as (Hm1 & Hm2 & Hm3). rewrite rg_end_nowrap by done.
  destruct (skip_region nid m) eqn:Hsk.
  { destruct (IH (Z.of_nat a' - 1) b) as (out & -> & Hv); [lia..|]. eexists. split; [done|].
    eapply visit_weaken_down; [| | |exact Hv]; [lia..|].
    intros i j s e [Hi Hj] Hme. split; [|done]. destruct (decide (i = a')) as [->|]; [|lia].
    destruct (meets_same_region _ _ _ _ _ Hm Hme). congruence. }
  rewrite (repr_cnt _ _ HrepB).
  destruct (next_inner_rev a' b m (length rsB + 3)) as (out & -> & b' & Hb' & Habove & Hout); [done|lia..|].
  rewrite res_bind_ok. destruct Hout as [[-> Hbelow]|(c & -> & Hlo & Hhi & ->)].
  - destruct (IH (Z.of_nat a' - 1) b') as (out & -> & Hv); [lia..|]. eexists. split; [done|].
    eapply visit_weaken_down; [| | |exact Hv]; [lia..|].
    intros i j s e [Hi Hj] Hme. destruct (decide (b' < Z.of_nat j)).
    + exfalso. eapply not_meets_below; [exact Hm| |apply Habove|exact Hme]; lia.
    + destruct (decide (i = a')) as [->|]; [|unfold ahead_down; lia]. exfalso.
      eapply not_meets_above; [exact Hm|reflexivity|apply Hbelow|exact Hme]. lia.
  - eexists. split; [done|]. apply emit_down; done || lia.
Qed.

(** *** The whole iteration *)

Lemma for_each_visit {R} (next : Z -> res iter_out) (ahead : Z -> Z -> nat -> nat -> Prop)
    (valid : Z -> Z -> Prop) (mu : Z -> Z -> nat) (body : Z -> Z -> option R) (dflt : R) :
  (forall a b, valid a b -> (pack_idx a b =? ULLONG_MAX) = false /\
     exists out, next (pack_idx a b) = Ok out /\
       visit ahead (fun a' b' => valid a' b' /\ (mu a' b' < mu a b)%nat) a b out) ->
  forall fuel first a b out, next first = Ok out ->
    visit ahead (fun a' b' => valid a' b' /\ (mu a' b' < mu a b)%nat) a b out -> (mu a b < fuel)%nat ->
  exists r, for_each_range next first fuel body dflt = Ok r /\
    ((exists i j s e, meets rsA rsB i j s e /\ body s e = Some r) \/
     (r = dflt /\ forall i j s e, ahead a b i j -> meets rsA rsB i j s e -> body s e = None)).
Proof.
  intros Hnext fuel first a b out Hfirst. unfold for_each_range. rewrite Hfirst, res_bind_ok. clear Hfirst.
  revert a b out. induction fuel as [|fuel IH]; intros a b out Hv Hf; [lia|]. cbn [loop].
  destruct Hv as [[-> Hno]|(a' & b' & i & j & s & e & -> & Hm & [Hval Hmu] & Hrest)].
  { eexists. split; [done|]. right. split; [done|]. intros i j s e Hah Hme. by destruct (Hno i j s e). }
  destruct (Hnext a' b' Hval) as (-> & out' & Hout & Hv').
  destruct (body s e) eqn:Hbody; [eexists; split; [done|]; left; eauto 10|].
  rewrite Hout, res_bind_ok. destruct (IH a' b' out' Hv') as (r & -> & Hr); [lia|].
  eexists. split; [done|]. destruct Hr as [Hr|[-> Hr]]; [by left|]. right. split; [done|].
  intros i' j' s' e' Hah Hme. destruct (Hrest _ _ _ _ Hah Hme) as [[-> ->]|]; eauto.
Qed.

(** A body run over the free ranges returns what it returns on one of them, or
    the default when it declines them all. *)
Definition scans {R} (body : Z -> Z -> option R) (dflt : R) (m : res R) : Prop :=
  exists r, m = Ok r /\
    ((exists i j s e, meets rsA rsB i j s e /\ body s e = Some r) \/
     (r = dflt /\ forall i j s e, meets rsA rsB i j s e -> body s e = None)).

Lemma for_each_up {R} nid0 (body : Z -> Z -> option R) dflt fuel :
  nid = (if nid0 =? MAX_NUMNODES then NUMA_NO_NODE else nid0) ->
  (length rsA + length rsB + 1 < fuel)%nat ->
  scans body dflt (for_each_range (fun i => __next_mem_range i nid0 ta (Some tb)) 0 fuel body dflt).
Proof.
  intros Hnid Hf.
  set (valid := fun a b : Z => 0 <= a <= Z.of_nat (length rsA) /\ 0 <= b <= Z.of_nat (S (length rsB))).
  set (mu := fun a b : Z => Z.to_nat (Z.of_nat (length rsA + S (length rsB)) - a - b)).
  assert (Hstep : forall a b, valid a b -> exists out,
            __next_mem_range (pack_idx a b) nid0 ta (Some tb) = Ok out /\
            visit ahead_up (fun a' b' => valid a' b' /\ (mu a' b' < mu a b)%nat) a b out).
  { intros a b [Ha Hb]. unfold __next_mem_range. rewrite <- Hnid.
    destruct (pack_unpack a b) as [-> ->]; [lia..|]. rewrite (repr_cnt _ _ HrepA).
    destruct (Z_of_nat_complete a) as [a' ->]; [lia|]. destruct (Z_of_nat_complete b) as [b' ->]; [lia|].
    destruct (next_outer (length rsA + 2) a' b') as (out & -> & Hv); [lia..|].
    exists out. split; [done|]. destruct Hv as [Hv|(x & y & i & j & s & e & ? & ? & Hn & ?)]; [by left|].
    right. exists x, y, i, j, s, e. split_and!; try done; unfold next_up, valid, mu in *; lia. }
  destruct (Hstep 0 0) as (out & Hout & Hv); [unfold valid; lia|].
  change (pack_idx 0 0) with 0 in Hout.
  destruct (for_each_visit (fun i => __next_mem_range i nid0 ta (Some tb)) ahead_up valid mu body dflt)
    with (fuel := fuel) (first := 0) (a := 0) (b := 0) (out := out) as (r & -> & Hr); try done.
  - intros a b Hab. split; [|by apply Hstep]. unfold valid in Hab. apply pack_not_end; lia.
  - unfold mu. lia.
  - exists r. split; [done|]. destruct Hr as [Hr|[-> Hr]]; [by left|right; split; [done|]].
    intros i j s e. apply Hr. unfold ahead_up. lia.
Qed.

Lemma for_each_down {R} nid0 (body : Z -> Z -> option R) dflt fuel :
  nid = (if nid0 =? MAX_NUMNODES then NUMA_NO_NODE else nid0) ->
  (length rsA + length rsB + 1 < fuel)%nat ->
  scans body dflt
    (for_each_range (fun i => __next_mem_range_rev i nid0 ta (Some tb)) ULLONG_MAX fuel body dflt).
Proof.
  intros Hnid Hf.
  set (valid := fun a b : Z => -1 <= a < Z.of_nat (length rsA) /\ -1 <= b <= Z.of_nat (length rsB) /\
                  ~ (a = -1 /\ b = -1)).
  set (mu := fun a b : Z => Z.to_nat (a + b + 2)).
  assert (Hstep : forall a b, valid a b -> exists out,
            loop (mt_cnt ta + 2) (next_step_rev nid ta (Some tb)) (a, b) = Ok out /\
            visit ahead_down (fun a' b' => valid a' b' /\ (mu a' b' < mu a b)%nat) a b out).
  { intros a b (Ha & Hb & Hab). rewrite (repr_cnt _ _ HrepA).
    destruct (next_outer_rev (length rsA + 2) a b) as (out & -> & Hv); [lia..|].
    exists out. split; [done|]. destruct Hv as [Hv|(x & y & i & j & s & e & ? & ? & Hn & ?)]; [by left|].
    right. exists x, y, i, j, s, e. split_and!; try done; unfold next_down, valid, mu in *; lia. }
  set (a0 := Z.of_nat (length rsA) - 1). set (b0 := Z.of_nat (length rsB)).
  destruct (Hstep a0 b0) as (out & Hout & Hv); [unfold valid; lia|].
  destruct (for_each_visit (fun i => __next_mem_range_rev i nid0 ta (Some tb)) ahead_down valid mu body dflt)
    with (fuel := fuel) (first := ULLONG_MAX) (a := a0) (b := b0) (out := out) as (r & -> & Hr); try done.
  - intros a b Hab. assert (Hp : (pack_idx a b =? ULLONG_MAX) = false)
      by (unfold valid in Hab; apply pack_not_end; lia).
    split; [done|]. destruct (Hstep a b Hab) as (out' & Ho & Hv'). exists out'. split; [|done].
    unfold __next_mem_range_rev. rewrite <- Hnid, Hp, res_bind_ok. unfold valid in Hab.
    destruct (pack_unpack a b) as [-> ->]; [lia..|]. done.
  - unfold __next_mem_range_rev. rewrite <- Hnid, (repr_cnt _ _ HrepB).
    rewrite (repr_cnt _ _ HrepA) in *. done.
  - unfold mu. lia.
  - exists r. split; [done|]. destruct Hr as [Hr|[-> Hr]]; [by left|right; split; [done|]].
    intros i j s e (m & Hi & ? & Hj & ?). apply (Hr i j s e).
    + apply lookup_lt_Some in Hi. unfold ahead_down. lia.
    + exists m. done.
Qed.
End iterate.

(** ** From intersections to addresses *)

(** [[c, d)] lies inside one memory region the iterators do not skip, and no
    address of it is reserved. *)
Definition free_window `{MBEnv} (nid : Z) (rsA rsB : list memblock_region) (c d : Z) : Prop :=
  (exists m, m ∈ rsA /\ skip_region nid m = false /\ rg_base m <= c /\ d <= rg_end m) /\
  forall x, c <= x < d -> flag_at rsB x = None.

Lemma gap_unreserved rs j x :
  ordered rs -> (j <= length rs)%nat -> gap_start rs j <= x < gap_end rs j -> flag_at rs x = None.
Proof.
  intros Ho Hj Hx. apply (flag_at_split _ j).
  - intros i r Hi Hij. destruct j as [|j]; [lia|].
    assert (Hs : gap_start rs (S i) = rg_end r) by (cbn; by rewrite Hi).
    pose proof (gap_start_mono rs (S i) (S j) Ho). lia.
  - intros i r Hi Hij. assert (He : gap_end rs i = rg_base r) by (unfold gap_end; by rewrite Hi).
    pose proof (lookup_lt_Some _ _ _ Hi).
    destruct (decide (i = j)) as [->|]; [lia|].
    pose proof (gap_order rs j i Ho). pose proof (gap_le rs i Ho). lia.
Qed.

Lemma unreserved_gap rs c d :
  rsorted 0 rs \/ rs = [zero_region] -> 0 <= c < d -> d <= ULLONG_MAX ->
  (forall x, c <= x < d -> flag_at rs x = None) ->
  exists j, (j <= length rs)%nat /\ gap_start rs j <= c /\ d <= gap_end rs j.
Proof.
  intros Hrs Hcd Hd Hfree.
  assert (Hn : forall n, (n <= length rs)%nat ->
            (exists j, (j <= n)%nat /\ gap_start rs j <= c /\ d <= gap_end rs j) \/ gap_start rs n <= c).
  { induction n as [|n IH]; intros Hl; [right; cbn; lia|].
    destruct (IH ltac:(lia)) as [(j & ? & ?)|Hs]; [left; exists j; split; [lia|done]|].
    destruct (lookup_lt_is_Some_2 rs n) as [r Hr]; [lia|].
    destruct (Z.le_gt_cases (rg_end r) c) as [Hle|Hgt]; [right; cbn; by rewrite Hr|].
    left. exists n. split; [lia|]. split; [done|]. unfold gap_end. rewrite Hr.
    destruct Hrs as [Hrs| ->].
    - pose proof (rsorted_in _ _ _ Hrs (list_elem_of_lookup_2 _ _ _ Hr)) as (? & ? & ?).
      destruct (Z.le_gt_cases d (rg_base r)) as [|Hov]; [done|].
      assert (Hin : in_region r (Z.max c (rg_base r)) = true)
        by (apply in_region_spec; unfold rg_end in *; lia).
      pose proof (flag_at_in _ _ _ _ 0 Hrs Hr Hin) as Hf. rewrite Hfree in Hf; [done|lia].
    - destruct n; [|cbn in Hl; lia]. injection Hr as <-. unfold rg_end in Hgt. cbn in Hgt. lia. }
  destruct (Hn (length rs) ltac:(lia)) as [(j & ? & ?)|Hs]; [by exists j|].
  exists (length rs). split; [done|]. split; [done|]. unfold gap_end. by rewrite lookup_ge_None_2.
Qed.

Section windows.
Context `{MBEnv} (nid : Z) (ta tb : memblock_type) (rsA rsB : list memblock_region).
Context (HinvA : type_inv ta rsA) (HinvB : type_inv tb rsB).

Lemma meets_window i j s e c d :
  meets nid rsA rsB i j s e -> s <= c -> d <= e -> free_window nid rsA rsB c d.
Proof.
  intros (m & Hm & Hsk & Hj & ? & ? & -> & ->) Hc Hd. split.
  - exists m. split; [by eapply list_elem_of_lookup_2|]. split; [done|]. lia.
  - intros x Hx. apply (gap_unreserved _ j); [by eapply type_inv_ordered|done|lia].
Qed.

Lemma window_meets c d :
  free_window nid rsA rsB c d -> c < d -> exists i j s e, meets nid rsA rsB i j s e /\ s <= c /\ d <= e.
Proof.
  intros [(m & Hm & Hsk & Hc & Hd) Hfree] Hcd. apply list_elem_of_lookup_1 in Hm as [i Hi].
  destruct (ordered_ok _ _ _ (type_inv_ordered _ _ HinvA) Hi) as (? & ? & ?).
  destruct (unreserved_gap rsB c d) as (j & Hj & Hlo & Hhi); try done; try lia.
  { destruct HinvB as [_ [->|[_ ?]]]; auto. }
  exists i, j. do 2 eexists. split; [exists m; split_and!; done || lia|lia].
Qed.

Lemma meets_bounds i j s e : meets nid rsA rsB i j s e -> 0 <= s /\ e <= ULLONG_MAX.
Proof.
  intros (m & Hm & _ & _ & _ & _ & -> & ->).
  destruct (ordered_ok _ _ _ (type_inv_ordered _ _ HinvA) Hm) as (? & ? & ?). lia.
Qed.
End windows.

(** ** The two search bodies *)

(** [r] is an aligned block of [size] bytes in [[start, end_)] inside [[s, e)]. *)
Definition fits (start end_ size align s e r : Z) : Prop :=
  Z.max s start <= r /\ r + size <= Z.min e end_ /\ r mod align = 0.

Section bodies.
Context (start end_ size k : Z) (Hsize : 0 < size <= ULLONG_MAX) (Hk : 0 <= k < 64).
Context (Hstart : PAGE_SIZE <= start <= end_) (Hend : end_ <= ULLONG_MAX).

Definition top_down_body (this_start this_end : Z) : option Z :=
  let this_start := clamp this_start start end_ in
  let this_end := clamp this_end start end_ in
  if this_end <? size then None
  else
    let cand := round_down (this_end ⊖ size) (2 ^ k) in
    if this_start <=? cand then Some cand else None.

Definition bottom_up_body (this_start this_end : Z) : option Z :=
  let this_start := clamp this_start start end_ in
  let this_end := clamp this_end start end_ in
  let cand := round_up this_start (2 ^ k) in
  if (cand <? this_end) && (size <=? this_end ⊖ cand) then Some cand else None.

Lemma pow_pos : 0 < 2 ^ k < 2 ^ 64.
Proof using Hk. split; [lia|]. apply Z.pow_lt_mono_r; lia. Qed.

Lemma sub_mod_aligned x : (x - x mod 2 ^ k) mod 2 ^ k = 0.
Proof using Hk.
  pose proof pow_pos. pose proof (Z.div_mod x (2 ^ k)).
  replace (x - x mod 2 ^ k) with (x / 2 ^ k * 2 ^ k) by lia. apply Z.mod_mul. lia.
Qed.

Lemma top_down_sound s e r :
  0 <= s -> e <= ULLONG_MAX -> top_down_body s e = Some r -> fits start end_ size (2 ^ k) s e r.
Proof using Hsize Hk Hstart Hend.
  intros Hs He. unfold top_down_body, clamp, PAGE_SIZE, ULLONG_MAX in *.
  destruct (Z.ltb_spec (Z.min (Z.max e start) end_) size); [done|].
  rewrite sub64_small by lia. rewrite round_down_pow2 by lia.
  set (x := Z.min (Z.max e start) end_ - size) in *.
  pose proof (sub_mod_aligned x). pose proof pow_pos. pose proof (Z.mod_pos_bound x (2 ^ k)).
  destruct (Z.leb_spec (Z.min (Z.max s start) end_) (x - x mod 2 ^ k)); [|done].
  intros [= <-]. unfold fits. split_and!; [lia..|done].
Qed.

Lemma top_down_complete s e r :
  0 <= s -> e <= ULLONG_MAX -> fits start end_ size (2 ^ k) s e r -> top_down_body s e <> None.
Proof using Hsize Hk Hstart Hend.
  intros Hs He (H1 & H2 & H3). unfold top_down_body, clamp, PAGE_SIZE, ULLONG_MAX in *.
  rewrite (proj2 (Z.ltb_ge _ _)) by lia. rewrite sub64_small by lia. rewrite round_down_pow2 by lia.
  set (x := Z.min (Z.max e start) end_ - size) in *.
  pose proof pow_pos. pose proof (Z.div_mod x (2 ^ k)). pose proof (Z.div_mod r (2 ^ k)).
  assert (r / 2 ^ k <= x / 2 ^ k) by (apply Z.div_le_mono; lia).
  rewrite (proj2 (Z.leb_le _ _)); [done|nia].
Qed.

Lemma bottom_up_sound s e r :
  0 <= s -> e <= ULLONG_MAX -> bottom_up_body s e = Some r -> r <> 0 ->
  fits start end_ size (2 ^ k) s e r.
Proof using Hsize Hk Hstart Hend.
  intros Hs He. unfold bottom_up_body, clamp, round_up, PAGE_SIZE, ULLONG_MAX in *.
  pose proof pow_pos. rewrite !sub64_small with (b := 1) by lia.
  replace (2 ^ k - 1) with (Z.ones k) by (rewrite Z.ones_equiv; lia). rewrite lor_ones by lia.
  set (x := Z.min (Z.max s start) end_ - 1) in *. pose proof (sub_mod_aligned x).
  pose proof (Z.mod_pos_bound x (2 ^ k)).
  replace (x - x mod 2 ^ k + 2 ^ k - 1 + 1) with (x - x mod 2 ^ k + 2 ^ k) by lia.
  assert (Hle : x - x mod 2 ^ k + 2 ^ k <= 2 ^ 64).
  { replace (2 ^ 64) with (2 ^ (64 - k) * 2 ^ k) by (rewrite <- Z.pow_add_r by lia; f_equal; lia).
    pose proof (Z.div_mod x (2 ^ k)). assert (x / 2 ^ k < 2 ^ (64 - k)); [|nia].
    apply Z.div_lt_upper_bound; [lia|]. rewrite <- Z.pow_add_r by lia.
    replace (k + (64 - k)) with 64 by lia. lia. }
  destruct (Z.eq_dec (x - x mod 2 ^ k + 2 ^ k) (2 ^ 64)) as [->|Hne].
  { change (u64 (2 ^ 64)) with 0. destruct (_ && _); [|done]. by intros [= <-]. }
  rewrite u64_small by lia.
  destruct ((_ <? _) && _) eqn:E; [|done]. apply andb_true_iff in E as [E1%Z.ltb_lt E2].
  rewrite sub64_small in E2 by lia. apply Z.leb_le in E2. intros [= <-] _.
  unfold fits. split_and!; [lia..|]. rewrite <- (Z.mul_1_l (2 ^ k)) at 2. by rewrite Z_mod_plus_full.
Qed.
End bodies.

(** ** Finding and allocating *)

Section find.
Context `{MBEnv} (mb : memblock) (rsA rsB : list memblock_region).
Context (HinvA : type_inv (mb_memory mb) rsA) (HinvB : type_inv (mb_reserved mb) rsB).
Context (HlenA : Z.of_nat (length rsA) < 2 ^ 31 - 1) (HlenB : Z.of_nat (length rsB) < 2 ^ 31 - 1).

(** The node the iterators use, and the limits [memblock_find_in_range_node]
    derives from its arguments. *)
Definition node_of (nid : Z) : Z := if nid =? MAX_NUMNODES then NUMA_NO_NODE else nid.
Definition start_of (start : Z) : Z := Z.max start PAGE_SIZE.
Definition end_of (start end_ : Z) : Z :=
  Z.max (start_of start)
    (if end_ =? MEMBLOCK_ALLOC_ACCESSIBLE then mb_current_limit mb else end_).

(** [r] is an aligned block of free memory within the limits. *)
Definition suitable (size align start end_ nid r : Z) : Prop :=
  start <= r /\ r + size <= end_ /\ r mod align = 0 /\
  free_window (node_of nid) rsA rsB r (r + size).

Lemma fits_suitable size align start end_ nid i j s e r :
  meets (node_of nid) rsA rsB i j s e -> fits start end_ size align s e r ->
  suitable size align start end_ nid r.
Proof using HinvA HinvB.
  intros Hm (? & ? & ?). unfold suitable. split_and!; [lia..|done|].
  eapply meets_window; [exact HinvB|exact Hm|lia..].
Qed.

Lemma suitable_fits size align start end_ nid r :
  0 < size -> suitable size align start end_ nid r ->
  exists i j s e, meets (node_of nid) rsA rsB i j s e /\ fits start end_ size align s e r.
Proof using HinvA HinvB.
  intros Hsz (? & ? & ? & Hw).
  destruct (window_meets _ _ _ _ _ HinvA HinvB _ _ Hw) as (i & j & s & e & Hm & ? & ?); [lia|].
  exists i, j, s, e. split; [done|]. unfold fits. split_and!; lia || done.
Qed.

Lemma top_down_correct size k start end_ nid :
  0 < size <= ULLONG_MAX -> 0 <= k < 64 -> PAGE_SIZE <= start <= end_ -> end_ <= ULLONG_MAX ->
  exists r, __memblock_find_range_top_down mb start end_ size (2 ^ k) nid = Ok r /\
    ((r <> 0 /\ suitable size (2 ^ k) start end_ nid r) \/
     (r = 0 /\ forall c, ~ suitable size (2 ^ k) start end_ nid c)).
Proof using HinvA HinvB HlenA HlenB.
  intros Hsz Hk Hst Hen.
  destruct (for_each_down (node_of nid) (mb_memory mb) (mb_reserved mb) rsA rsB (proj1 HinvA) (proj1 HinvB)
    (type_inv_ordered _ _ HinvA) (type_inv_ordered _ _ HinvB) HlenA HlenB nid
    (top_down_body start end_ size k) 0 (free_fuel mb)) as (r & Heq & Hr); [done| |].
  { unfold free_fuel. rewrite (repr_cnt _ _ (proj1 HinvA)), (repr_cnt _ _ (proj1 HinvB)). lia. }
  exists r. split; [exact Heq|]. destruct Hr as [(i & j & s & e & Hm & Hb)|[-> Hno]].
  - left. destruct (meets_bounds _ _ _ _ HinvA _ _ _ _ Hm).
    apply top_down_sound in Hb; try done. split.
    + destruct Hb as (? & _). unfold PAGE_SIZE in *. lia.
    + by eapply fits_suitable.
  - right. split; [done|]. intros c Hc. apply suitable_fits in Hc as (i & j & s & e & Hm & Hf); [|lia].
    destruct (meets_bounds _ _ _ _ HinvA _ _ _ _ Hm).
    by eapply top_down_complete in Hf; [apply Hf; eapply Hno; exact Hm|..].
Qed.

Lemma bottom_up_correct size k start end_ nid :
  0 < size <= ULLONG_MAX -> 0 <= k < 64 -> PAGE_SIZE <= start <= end_ -> end_ <= ULLONG_MAX ->
  exists r, __memblock_find_range_bottom_up mb start end_ size (2 ^ k) nid = Ok r /\
    (r <> 0 -> suitable size (2 ^ k) start end_ nid r).
Proof using HinvA HinvB HlenA HlenB.
  intros Hsz Hk Hst Hen.
  destruct (for_each_up (node_of nid) (mb_memory mb) (mb_reserved mb) rsA rsB (proj1 HinvA) (proj1 HinvB)
    (type_inv_ordered _ _ HinvA) (type_inv_ordered _ _ HinvB) HlenA HlenB nid
    (bottom_up_body start end_ size k) 0 (free_fuel mb)) as (r & Heq & Hr); [done| |].
  { unfold free_fuel. rewrite (repr_cnt _ _ (proj1 HinvA)), (repr_cnt _ _ (proj1 HinvB)). lia. }
  exists r. split; [exact Heq|]. intros Hne. destruct Hr as [(i & j & s & e & Hm & Hb)|[-> _]]; [|done].
  destruct (meets_bounds _ _ _ _ HinvA _ _ _ _ Hm).
  apply bottom_up_sound in Hb; try done. by eapply fits_suitable.
Qed.

Lemma find_correct size k start end_ nid :
  0 < size <= ULLONG_MAX -> 0 <= k < 64 -> phys start -> phys end_ -> phys (mb_current_limit mb) ->
  exists r, memblock_find_in_range_node mb size (2 ^ k) start end_ nid = Ok r /\
    ((r <> 0 /\ suitable size (2 ^ k) (start_of start) (end_of start end_) nid r) \/
     (r = 0 /\ forall c, ~ suitable size (2 ^ k) (start_of start) (end_of start end_) nid c)).
Proof using HinvA HinvB HlenA HlenB.
  intros Hsz Hk Hs He Hl. unfold memblock_find_in_range_node.
  fold (start_of start). fold (end_of start end_).
  assert (Hbnd : PAGE_SIZE <= start_of start <= end_of start end_ /\ end_of start end_ <= ULLONG_MAX).
  { unfold end_of, start_of, phys, PAGE_SIZE, ULLONG_MAX in *. destruct (_ =? _); lia. }
  destruct (memblock_bottom_up mb && (pa_symbol_end <? end_of start end_)) eqn:E;
    [|apply top_down_correct; done || apply Hbnd].
  apply andb_true_iff in E as [_ E%Z.ltb_lt].
  destruct (bottom_up_correct size k (Z.max (start_of start) pa_symbol_end) (end_of start end_) nid)
    as (r & -> & Hr); [done|done|lia|lia|].
  rewrite res_bind_ok. destruct (Z.eqb_spec r 0) as [->|Hne]; cbn [negb].
  - apply top_down_correct; done || apply Hbnd.
  - exists r. split; [done|]. left. split; [done|]. destruct (Hr Hne) as (? & ? & ? & ?).
    unfold suitable. split_and!; [lia..|done|done].
Qed.
End find.

(** Reserving a range none of which is reserved needs one entry. *)
Lemma add_list_fresh base end_ flags rs : forall lo,
  rsorted lo rs -> base < end_ -> (forall x, base <= x < end_ -> flag_at rs x = None) ->
  length (add_list base end_ flags rs) = S (length rs).
Proof.
  unfold add_list, rest_list. induction rs as [|r rs IH]; intros lo Hs Hbe Hfree.
  - by rewrite (proj2 (Z.ltb_lt _ _)) by lia.
  - destruct Hs as (? & ? & ? & Hs). destruct (Z.leb_spec end_ (rg_base r)).
    { by rewrite (proj2 (Z.ltb_lt _ _)) by lia. }
    destruct (Z.leb_spec (rg_end r) base).
    + cbn. f_equal. eapply IH; [done|done|]. intros x Hx. specialize (Hfree x Hx). cbn in Hfree.
      by destruct (in_region r x).
    + exfalso. specialize (Hfree (Z.max base (rg_base r)) ltac:(lia)). cbn in Hfree.
      destruct (in_region r _) eqn:E; [done|]. apply in_region_false in E. unfold rg_end in *. lia.
Qed.

Section alloc.
Context `{MBEnv}.

(** C6.  [memblock_find_in_range_node] returns an aligned block of [size]
    bytes of memory that is not reserved, inside the limits (arguments,
    [PAGE_SIZE], [current_limit]); it returns 0 only if no such block exists.
    The iteration over free areas underneath, in either direction, terminates
    and stays inside both arrays. *)
Theorem memblock_find_in_range_node_correct mb rsA rsB size k start end_ nid :
  type_inv (mb_memory mb) rsA -> type_inv (mb_reserved mb) rsB ->
  Z.of_nat (length rsA) < 2 ^ 31 - 1 -> Z.of_nat (length rsB) < 2 ^ 31 - 1 ->
  0 < size <= ULLONG_MAX -> 0 <= k < 64 -> phys start -> phys end_ -> phys (mb_current_limit mb) ->
  exists r, memblock_find_in_range_node mb size (2 ^ k) start end_ nid = Ok r /\
    ((r <> 0 /\ suitable rsA rsB size (2 ^ k) (start_of start) (end_of mb start end_) nid r) \/
     (r = 0 /\ forall c, ~ suitable rsA rsB size (2 ^ k) (start_of start) (end_of mb start end_) nid c)).
Proof. intros HA HB lA lB. by apply find_correct. Qed.

Lemma record_reserve_types base size flags mb :
  mb_memory (record_reserve base size flags mb) = mb_memory mb /\ mb_reserved (record_reserve base size flags mb) = mb_reserved mb /\
  mb_can_resize (record_reserve base size flags mb) = mb_can_resize mb.
Proof. unfold record_reserve. by destruct (_ <? _)%nat. Qed.

(** A free block takes one entry of the reserved array, the first excepted. *)
Lemma reserve_room mb rsB r size :
  type_inv (mb_reserved mb) rsB -> phys r -> 0 < size -> r + size <= ULLONG_MAX -> (forall a, r <= a < r + size -> flag_at rsB a = None) ->
  has_room (mb_reserved mb) rsB r size 0 <-> rsB = [zero_region] \/ (length rsB < mt_max (mb_reserved mb))%nat.
Proof.
  intros [_ HB] Hr Hsz Hend Hfree. unfold has_room. assert (Hcap : capped r size = size) by (unfold capped; lia). rewrite Hcap.
  destruct HB as [->|[_ Hso]]; [tauto|]. unfold phys in Hr. erewrite add_list_fresh; [|exact Hso|lia|done].
  split; intros Hf; [destruct Hf as [?|[?|?]]|destruct Hf as [?|?]]; try tauto; try lia; right; right; lia.
Qed.

(** C4.  [memblock_alloc_range_nid].  When no suitable block exists it returns 0
    and changes nothing.  When there is one and the reserved array has a spare
    entry (or is empty), it returns a block that was free memory and adds exactly
    that block to the reserved map, leaving the memory array alone.  When there
    is one, the reserved array is full and arrays may not be resized, it returns
    0 and leaves both arrays as they were. *)
Theorem memblock_alloc_range_nid_correct mb rsA rsB size align k start end_ nid :
  type_inv (mb_memory mb) rsA -> type_inv (mb_reserved mb) rsB ->
  Z.of_nat (length rsA) < 2 ^ 31 - 1 -> Z.of_nat (length rsB) < 2 ^ 31 - 1 ->
  0 < size <= ULLONG_MAX -> 0 <= k < 64 -> (if align =? 0 then SMP_CACHE_BYTES else align) = 2 ^ k ->
  phys start -> phys end_ -> phys (mb_current_limit mb) ->
  let fit c := suitable rsA rsB size (2 ^ k) (start_of start) (end_of mb start end_) nid c in
  let room := rsB = [zero_region] \/ (length rsB < mt_max (mb_reserved mb))%nat in
  ((forall c, ~ fit c) -> memblock_alloc_range_nid size align start end_ nid mb = Ok (0, mb)) /\
  ((exists c, fit c) -> room ->
   exists r mb' rsB', memblock_alloc_range_nid size align start end_ nid mb = Ok (r, mb') /\ r <> 0 /\ fit r /\
     mb_memory mb' = mb_memory mb /\ type_inv (mb_reserved mb') rsB' /\
     forall a, flag_at rsB' a = if (r <=? a) && (a <? r + size) then Some 0 else flag_at rsB a) /\
  ((exists c, fit c) -> ~ room -> mb_can_resize mb = false ->
   exists mb', memblock_alloc_range_nid size align start end_ nid mb = Ok (0, mb') /\
     mb_memory mb' = mb_memory mb /\ mb_reserved mb' = mb_reserved mb).
Proof.
  intros HA HB lA lB Hsz Hk Hal Hs He Hl fit room. unfold memblock_alloc_range_nid. rewrite Hal.
  destruct (find_correct mb rsA rsB HA HB lA lB size k start end_ nid) as (r & -> & Hr); try done.
  rewrite res_bind_ok. destruct Hr as [[Hne Hsu]|[-> Hno]].
  2:{ split_and!; [done|intros [c Hc]; by destruct (Hno c)..]. }
  split; [intros Hno; by destruct (Hno r)|]. rewrite (proj2 (Z.eqb_neq _ _)) by done.
  pose proof Hsu as (Hlo & Hhi & _ & [(m & Hm & _ & Hm1 & Hm2) Hfree]).
  destruct (proj1 (list_elem_of_lookup _ _) Hm) as [i Hi].
  destruct (ordered_ok _ _ _ (type_inv_ordered _ _ HA) Hi) as (? & ? & ?).
  assert (Hpr : phys r /\ phys size) by (unfold phys; lia). destruct Hpr as [Hpr Hps].
  assert (Hcap : capped r size = size) by (unfold capped; lia).
  pose proof (reserve_room mb rsB r size HB Hpr ltac:(lia) ltac:(lia) Hfree) as Hfit. fold room in Hfit.
  unfold memblock_reserve, memblock_reserve_region, reserve_region_with. set (mb1 := record_reserve r size 0 mb).
  destruct (record_reserve_types r size 0 mb) as (Hmem & Hres & Hrsz). fold mb1 in Hmem, Hres, Hrsz.
  assert (HB1 : type_inv (get_type Reserved mb1) rsB) by (cbn; by rewrite Hres). split; intros _ Hroom.
  - apply Hfit in Hroom. destruct (add_range_yields (memblock_double_array DOUBLE_FUEL) Reserved r size MAX_NUMNODES 0 mb1 rsB)
      as (t' & rsB' & -> & Hinv' & _ & _ & Hflag); try done; [cbn; by rewrite Hres|].
    rewrite res_bind_ok. exists r, (set_type Reserved t' mb1), rsB'.
    split_and!; try done. intros a. rewrite Hflag, Hcap. unfold flag_add.
    destruct ((r <=? a) && (a <? r + size)) eqn:E; [|by destruct (flag_at rsB a)].
    by rewrite Hfree by lia.
  - intros Hnr. pose proof (add_range_full Reserved r size MAX_NUMNODES 0 mb1 rsB HB1 Hpr Hps) as Hfull. unfold memblock_add_range in Hfull.
    rewrite Hfull; [|cbn; by rewrite Hres, Hfit|congruence]. rewrite res_bind_ok. by exists mb1.
Qed.
End alloc.
