(* ===== verification/MemblockExamples.v ===== *)
(** * Concrete instances of the memblock theorems

    Each theorem of [MemblockProps.v] and [MemblockFind.v] applied to a small
    configuration: RAM at [[0x1000, 0x9000)], one reserved page at [0x3000]. *)

From S2P Require Import Prelude MemblockDefs MemblockTheory MemblockProps MemblockFind.

#[local] Instance ex_env : MBEnv := {|
  CONFIG_MOVABLE_NODE := false;
  movable_node_enabled := false;
  pa_symbol_end := 0x2000;
  slab_is_available := false;
  kmalloc_pa := fun _ => 0;
  RET_IP := 0 |}.

Definition ex_region (base size : Z) : memblock_type :=
  mkType 1 4 size [mkRegion base size 0; zero_region; zero_region; zero_region] InitRegions.

Definition ex_mb : memblock :=
  mkMemblock false MEMBLOCK_ALLOC_ANYWHERE (ex_region 0x1000 0x8000) (ex_region 0x3000 0x1000)
    false false false [] 0.

(** The same with arrays that are full. *)
Definition ex_full : memblock :=
  set_type Memory (mkType 1 1 0x8000 [mkRegion 0x1000 0x8000 0] InitRegions) ex_mb.

Lemma ex_region_inv base size :
  0 <= base -> 0 < size -> base + size <= ULLONG_MAX ->
  type_inv (ex_region base size) [mkRegion base size 0].
Proof.
  unfold ULLONG_MAX. intros. split.
  - split; [by exists [zero_region; zero_region; zero_region]|done|done|].
    cbn. rewrite Z.add_0_r, u64_small by lia. done.
  - right. split; [done|]. cbn. unfold rg_end, ULLONG_MAX. cbn. lia.
Qed.

Lemma ex_full_inv : type_inv (get_type Memory ex_full) [mkRegion 0x1000 0x8000 0].
Proof.
  split; [split; [by exists []|done|done|done]|]. right. split; [done|]. cbn. unfold rg_end, ULLONG_MAX. cbn. lia.
Qed.

Definition ex_reserved_full : memblock :=
  set_type Reserved (mkType 1 1 0x1000 [mkRegion 0x3000 0x1000 0] InitRegions) ex_mb.

Lemma ex_reserved_full_inv : type_inv (mb_reserved ex_reserved_full) [mkRegion 0x3000 0x1000 0].
Proof.
  split; [split; [by exists []|done|done|done]|]. right. split; [done|]. cbn. unfold rg_end, ULLONG_MAX. cbn. lia.
Qed.

Ltac ex := first
  [ solve [apply ex_region_inv; unfold ULLONG_MAX; lia]
  | solve [unfold phys, capped, ULLONG_MAX; cbn; lia]
  | solve [unfold phys, ULLONG_MAX; lia]
  | solve [split; [lia|by vm_compute]]
  | solve [vm_compute; repeat constructor]
  | done ].

Lemma memblock_add_range_witness :
  (exists t' rs',
    memblock_add_range Memory 0xa000 0x1000 0 1 ex_mb = Ok (0, set_type Memory t' ex_mb) /\
    type_inv t' rs' /\ mt_max t' = 4%nat /\ (0 < capped 0xa000 0x1000 -> minimal rs') /\
    forall a, flag_at rs' a = flag_add 0xa000 (0xa000 + capped 0xa000 0x1000) 1
      (flag_at [mkRegion 0x1000 0x8000 0]) a) /\
  memblock_add_range Memory 0xa000 0x1000 0 1 ex_full = Ok (- ENOMEM, ex_full).
Proof.
  split.
  - apply (memblock_add_range_correct Memory 0xa000 0x1000 0 1 ex_mb [mkRegion 0x1000 0x8000 0]); [ex..|].
    right; right; ex.
  - apply (memblock_add_range_correct Memory 0xa000 0x1000 0 1 ex_full [mkRegion 0x1000 0x8000 0]);
      [apply ex_full_inv|ex|ex| |done].
    intros [Hc|[Hz|Hr]]; [by vm_compute in Hc|done|]. vm_compute in Hr. lia.
Defined.

Lemma memblock_isolate_range_witness : exists t' rs' s e,
  memblock_isolate_range Memory 0x2000 0x1000 ex_mb = Ok (0, s, e, set_type Memory t' ex_mb) /\
  repr t' rs' /\ (forall a, flag_at rs' a = flag_at [mkRegion 0x1000 0x8000 0] a) /\
  forall i r, rs' !! i = Some r ->
    if decide (s <= i < e)%nat
    then 0x2000 <= rg_base r /\ rg_end r <= 0x2000 + capped 0x2000 0x1000
    else rg_end r <= 0x2000 \/ 0x2000 + capped 0x2000 0x1000 <= rg_base r.
Proof. apply memblock_isolate_range_correct; ex. Defined.

Lemma memblock_remove_range_witness :
  (exists t' rs',
    memblock_remove_range Memory 0x2000 0x1000 ex_mb = Ok (0, set_type Memory t' ex_mb) /\
    type_inv t' rs' /\ mt_max t' = 4%nat /\
    forall a, flag_at rs' a =
      if (0x2000 <=? a) && (a <? 0x2000 + capped 0x2000 0x1000) then None
      else flag_at [mkRegion 0x1000 0x8000 0] a) /\
  memblock_remove_range Memory 0x2000 0x1000 ex_full = Ok (- ENOMEM, ex_full).
Proof.
  split.
  - apply (memblock_remove_range_correct Memory 0x2000 0x1000 ex_mb [mkRegion 0x1000 0x8000 0]); [ex..|]. right; ex.
  - apply (memblock_remove_range_correct Memory 0x2000 0x1000 ex_full [mkRegion 0x1000 0x8000 0]);
      [apply ex_full_inv|ex|ex|ex|ex|done].
Defined.

Lemma memblock_search_witness : exists i, memblock_search (mb_memory ex_mb) 0x2345 = Ok i /\
  match flag_at [mkRegion 0x1000 0x8000 0] 0x2345 with
  | None => i = -1
  | Some f => exists r, 0 <= i /\ [mkRegion 0x1000 0x8000 0] !! Z.to_nat i = Some r /\
                in_region r 0x2345 = true /\ rg_flags r = f
  end.
Proof. apply memblock_search_correct; ex. Defined.

Lemma memblock_is_region_reserved_witness : exists b,
  memblock_is_region_reserved 0x2800 0x1000 ex_mb = Ok b /\
  (b = true <-> exists a, 0x2800 <= a < 0x2800 + capped 0x2800 0x1000 /\
                  is_Some (flag_at [mkRegion 0x3000 0x1000 0] a)).
Proof. apply memblock_is_region_reserved_correct; ex. Defined.

Lemma memblock_find_in_range_node_witness : exists r,
  memblock_find_in_range_node ex_mb 0x1000 (2 ^ 12) 0 0 NUMA_NO_NODE = Ok r /\
  ((r <> 0 /\ suitable [mkRegion 0x1000 0x8000 0] [mkRegion 0x3000 0x1000 0] 0x1000 (2 ^ 12)
                (start_of 0) (end_of ex_mb 0 0) NUMA_NO_NODE r) \/
   (r = 0 /\ forall c, ~ suitable [mkRegion 0x1000 0x8000 0] [mkRegion 0x3000 0x1000 0] 0x1000 (2 ^ 12)
                (start_of 0) (end_of ex_mb 0 0) NUMA_NO_NODE c)).
Proof. apply memblock_find_in_range_node_correct; ex. Defined.

(** With room a block is returned; with the reserved array full, none. *)
Lemma memblock_alloc_range_nid_witness :
  (exists r mb' rsB', memblock_alloc_range_nid 0x1000 0 0 0 NUMA_NO_NODE ex_mb = Ok (r, mb') /\ r <> 0 /\
     suitable [mkRegion 0x1000 0x8000 0] [mkRegion 0x3000 0x1000 0] 0x1000 (2 ^ 6)
       (start_of 0) (end_of ex_mb 0 0) NUMA_NO_NODE r /\
     mb_memory mb' = mb_memory ex_mb /\ type_inv (mb_reserved mb') rsB' /\
     forall a, flag_at rsB' a =
       if (r <=? a) && (a <? r + 0x1000) then Some 0 else flag_at [mkRegion 0x3000 0x1000 0] a) /\
  (exists mb', memblock_alloc_range_nid 0x1000 0 0 0 NUMA_NO_NODE ex_reserved_full = Ok (0, mb') /\
     mb_memory mb' = mb_memory ex_reserved_full /\ mb_reserved mb' = mb_reserved ex_reserved_full).
Proof.
  assert (Hs : forall mb, mb_current_limit mb = mb_current_limit ex_mb -> suitable [mkRegion 0x1000 0x8000 0] [mkRegion 0x3000 0x1000 0] 0x1000 (2 ^ 6)
    (start_of 0) (end_of mb 0 0) NUMA_NO_NODE 0x8000).
  { intros mb Hl. unfold suitable, end_of, start_of. rewrite Hl. split_and!; [done|done|done|]. split.
    - exists (mkRegion 0x1000 0x8000 0). split_and!; [by left|done|cbn; lia|unfold rg_end; cbn; lia].
    - intros a Ha. cbn. in_region_cases; [unfold rg_end in *; cbn in *; lia|done]. }
  split.
  - destruct (memblock_alloc_range_nid_correct ex_mb [mkRegion 0x1000 0x8000 0] [mkRegion 0x3000 0x1000 0] 0x1000 0 6 0 0 NUMA_NO_NODE)
      as (_ & Hr & _); [ex..|]. apply Hr; [exists 0x8000; by apply Hs|]. right. ex.
  - destruct (memblock_alloc_range_nid_correct ex_reserved_full [mkRegion 0x1000 0x8000 0] [mkRegion 0x3000 0x1000 0] 0x1000 0 6 0 0 NUMA_NO_NODE)
      as (_ & _ & Hr); [ex|apply ex_reserved_full_inv|ex..|]. apply Hr; [exists 0x8000; by apply Hs| |done].
    intros [Hz|Hm]; [done|]. vm_compute in Hm. lia.
Defined.
