(* ===== verification/BuddyDefs.v ===== *)
(** * The zoned buddy allocator: operations of mm/page_alloc.c

    A [struct page *] is its page frame number (the mem_map is contiguous
    within blocks of [MAX_ORDER], as mm/internal.h requires), so pointer
    arithmetic on pages is arithmetic on [Z].  One zone is the state; the
    mem_map is part of it and also holds pages of other zones.  The zone lock
    is held by every function here.  CONFIG_CMA, CONFIG_MEMORY_ISOLATION,
    CONFIG_DEBUG_VM, CONFIG_DEBUG_PAGEALLOC and CONFIG_HOLES_IN_ZONE are off,
    as in the sources ([VM_BUG_ON] is then empty and [pfn_valid_within] is 1);
    statistics other than NR_FREE_PAGES, tracing and the page-owner and
    shadow hooks are left out. *)

From S2P Require Import Prelude.

(** ** Data *)

Inductive migratetype :=
| MIGRATE_UNMOVABLE
| MIGRATE_RECLAIMABLE
| MIGRATE_MOVABLE
| MIGRATE_RESERVE.

#[global] Instance migratetype_eq_dec : EqDecision migratetype.
Proof. solve_decision. Defined.

(** [migratetype < MIGRATE_PCPTYPES]. *)
Definition is_pcptype (mt : migratetype) : bool :=
  match mt with MIGRATE_RESERVE => false | _ => true end.

Definition MAX_ORDER : nat := 11.

Record page := mkPage {
  pg_mapcount : Z;           (** [_mapcount] *)
  pg_private : Z;            (** [private]; the order of a free block *)
  pg_index : migratetype;    (** [index], as the freepage migratetype *)
  pg_zone_id : Z;            (** the zone field of [flags] *)
  pg_count : Z;              (** [_count] *)
  pg_mapping : Z;            (** [mapping], 0 for NULL *)
  pg_flags : Z;              (** the flag bits of [flags] *)
  pg_first : Z;              (** [first_page] of a tail page *)
  pg_lru_prev : Z }.         (** [lru.prev] of the first tail page: the compound order *)

Record zone := mkZone {
  z_id : Z;
  zone_start_pfn : Z;
  spanned_pages : Z;
  free_list : nat -> migratetype -> list Z;  (** [free_area[o].free_list[mt]] *)
  nr_free : nat -> Z;                        (** [free_area[o].nr_free] *)
  nr_free_pages : Z;                         (** [vm_stat[NR_FREE_PAGES]], updated at
                                                 once: no per-cpu differences *)
  block_type : Z -> migratetype;             (** the pageblock bitmap *)
  mem_map : Z -> page }.

(** Build-time and boot-time configuration. *)
Class PAEnv := {
  pageblock_order : nat;
  page_group_by_mobility_disabled : bool }.

(** ** Field updates *)

Definition upd {A} (f : Z -> A) (k : Z) (v : A) : Z -> A := fun x => if x =? k then v else f x.

Definition with_mapcount (p : page) (c : Z) : page :=
  mkPage c (pg_private p) (pg_index p) (pg_zone_id p) (pg_count p) (pg_mapping p) (pg_flags p)
    (pg_first p) (pg_lru_prev p).
Definition with_private (p : page) (v : Z) : page :=
  mkPage (pg_mapcount p) v (pg_index p) (pg_zone_id p) (pg_count p) (pg_mapping p) (pg_flags p)
    (pg_first p) (pg_lru_prev p).
Definition with_index (p : page) (mt : migratetype) : page :=
  mkPage (pg_mapcount p) (pg_private p) mt (pg_zone_id p) (pg_count p) (pg_mapping p) (pg_flags p)
    (pg_first p) (pg_lru_prev p).
Definition with_count (p : page) (c : Z) : page :=
  mkPage (pg_mapcount p) (pg_private p) (pg_index p) (pg_zone_id p) c (pg_mapping p) (pg_flags p)
    (pg_first p) (pg_lru_prev p).
Definition with_flags (p : page) (fl : Z) : page :=
  mkPage (pg_mapcount p) (pg_private p) (pg_index p) (pg_zone_id p) (pg_count p) (pg_mapping p) fl
    (pg_first p) (pg_lru_prev p).
Definition with_first (p : page) (h : Z) : page :=
  mkPage (pg_mapcount p) (pg_private p) (pg_index p) (pg_zone_id p) (pg_count p) (pg_mapping p)
    (pg_flags p) h (pg_lru_prev p).
Definition with_lru_prev (p : page) (o : Z) : page :=
  mkPage (pg_mapcount p) (pg_private p) (pg_index p) (pg_zone_id p) (pg_count p) (pg_mapping p)
    (pg_flags p) (pg_first p) o.

Definition with_lists (z : zone) (l : nat -> migratetype -> list Z) : zone :=
  mkZone (z_id z) (zone_start_pfn z) (spanned_pages z) l (nr_free z) (nr_free_pages z)
    (block_type z) (mem_map z).
Definition with_nr_free (z : zone) (n : nat -> Z) : zone :=
  mkZone (z_id z) (zone_start_pfn z) (spanned_pages z) (free_list z) n (nr_free_pages z)
    (block_type z) (mem_map z).
Definition with_nr_free_pages (z : zone) (n : Z) : zone :=
  mkZone (z_id z) (zone_start_pfn z) (spanned_pages z) (free_list z) (nr_free z) n
    (block_type z) (mem_map z).
Definition with_block_type (z : zone) (b : Z -> migratetype) : zone :=
  mkZone (z_id z) (zone_start_pfn z) (spanned_pages z) (free_list z) (nr_free z) (nr_free_pages z)
    b (mem_map z).
Definition with_mem_map (z : zone) (m : Z -> page) : zone :=
  mkZone (z_id z) (zone_start_pfn z) (spanned_pages z) (free_list z) (nr_free z) (nr_free_pages z)
    (block_type z) m.

(** [f] applied to the [struct page] at [p]. *)
Definition on_page (z : zone) (p : Z) (f : page -> page) : zone :=
  with_mem_map z (upd (mem_map z) p (f (mem_map z p))).

(** ** List primitives on the zone's free lists *)

Definition set_list (z : zone) (o : nat) (mt : migratetype) (l : list Z) : zone :=
  with_lists z (fun o' mt' => if decide (o' = o /\ mt' = mt) then l else free_list z o' mt').

Definition list_add (z : zone) (p : Z) (o : nat) (mt : migratetype) : zone :=
  set_list z o mt (p :: free_list z o mt).

Definition list_add_tail (z : zone) (p : Z) (o : nat) (mt : migratetype) : zone :=
  set_list z o mt (free_list z o mt ++ [p]).

(** [list_del(&page->lru)] unlinks the page from whichever list it is on. *)
Definition list_del (z : zone) (p : Z) : zone :=
  with_lists z (fun o mt => filter (fun q => q <> p) (free_list z o mt)).

Definition list_move (z : zone) (p : Z) (o : nat) (mt : migratetype) : zone :=
  list_add (list_del z p) p o mt.

(** [area->nr_free += d]; the field is an [unsigned long]. *)
Definition add_nr_free (z : zone) (o : nat) (d : Z) : zone :=
  with_nr_free z (fun o' => if decide (o' = o) then u64 (nr_free z o + d) else nr_free z o').

Definition __mod_zone_freepage_state (z : zone) (nr_pages : Z) : zone :=
  with_nr_free_pages z (nr_free_pages z + nr_pages).

(** ** Page state *)

Definition PAGE_BUDDY_MAPCOUNT_VALUE : Z := -128.
Definition PageBuddy (z : zone) (p : Z) : bool :=
  pg_mapcount (mem_map z p) =? PAGE_BUDDY_MAPCOUNT_VALUE.
Definition __SetPageBuddy (z : zone) (p : Z) : zone :=
  on_page z p (fun pg => with_mapcount pg PAGE_BUDDY_MAPCOUNT_VALUE).
Definition __ClearPageBuddy (z : zone) (p : Z) : zone :=
  on_page z p (fun pg => with_mapcount pg (-1)).
Definition set_page_private (z : zone) (p v : Z) : zone := on_page z p (fun pg => with_private pg v).
Definition page_order (z : zone) (p : Z) : nat := Z.to_nat (pg_private (mem_map z p)).
Definition page_zone_id (z : zone) (p : Z) : Z := pg_zone_id (mem_map z p).
Definition set_freepage_migratetype (z : zone) (p : Z) (mt : migratetype) : zone :=
  on_page z p (fun pg => with_index pg mt).
Definition get_freepage_migratetype (z : zone) (p : Z) : migratetype := pg_index (mem_map z p).

Definition set_page_order (z : zone) (p : Z) (order : nat) : zone :=
  __SetPageBuddy (set_page_private z p (Z.of_nat order)) p.
Definition rmv_page_order (z : zone) (p : Z) : zone :=
  set_page_private (__ClearPageBuddy z p) p 0.

Definition page_is_buddy (z : zone) (p buddy : Z) (order : nat) : bool :=
  PageBuddy z buddy && (pg_private (mem_map z buddy) =? Z.of_nat order)
  && (page_zone_id z p =? page_zone_id z buddy).

Definition __find_buddy_index (page_idx : Z) (order : nat) : Z :=
  Z.lxor page_idx (2 ^ Z.of_nat order).

Definition zone_end_pfn (z : zone) : Z := zone_start_pfn z + spanned_pages z.
Definition zone_spans_pfn (z : zone) (pfn : Z) : bool :=
  (zone_start_pfn z <=? pfn) && (pfn <? zone_end_pfn z).

(** ** Compound pages *)

Definition PG_head : Z := 14.
Definition PG_tail : Z := 15.
Definition set_flag (b : Z) (pg : page) : page := with_flags pg (Z.setbit (pg_flags pg) b).
Definition clear_flag (b : Z) (pg : page) : page := with_flags pg (Z.clearbit (pg_flags pg) b).
Definition PageHead (z : zone) (p : Z) : bool := Z.testbit (pg_flags (mem_map z p)) PG_head.
Definition PageTail (z : zone) (p : Z) : bool := Z.testbit (pg_flags (mem_map z p)) PG_tail.
Definition PageCompound (z : zone) (p : Z) : bool := PageHead z p || PageTail z p.

Definition compound_order (z : zone) (p : Z) : Z :=
  if PageHead z p then pg_lru_prev (mem_map z (p + 1)) else 0.
Definition set_compound_order (z : zone) (p : Z) (order : Z) : zone :=
  on_page z (p + 1) (fun pg => with_lru_prev pg order).

(** [bad_page]: apart from the report, [page_mapcount_reset]. *)
Definition bad_page (z : zone) (p : Z) : zone := on_page z p (fun pg => with_mapcount pg (-1)).

(** The loops over the tail pages [page + i], [n] of them left. *)
Fixpoint prep_tails (n : nat) (i p : Z) (z : zone) : zone :=
  match n with
  | O => z
  | S n =>
      let z := on_page z (p + i) (fun pg => with_count pg 0) in
      let z := on_page z (p + i) (fun pg => with_first pg p) in
      let z := on_page z (p + i) (set_flag PG_tail) in
      prep_tails n (i + 1) p z
  end.

Definition prep_compound_page (z : zone) (p : Z) (order : nat) : zone :=
  let z := set_compound_order z p (Z.of_nat order) in
  let z := on_page z p (set_flag PG_head) in
  prep_tails (2 ^ order - 1) 1 p z.

Fixpoint destroy_tails (n : nat) (i p : Z) (bad : Z) (z : zone) : Z * zone :=
  match n with
  | O => (bad, z)
  | S n =>
      let '(bad, z) :=
        if negb (PageTail z (p + i)) then (bad + 1, bad_page z p)
        else if negb (pg_first (mem_map z (p + i)) =? p) then (bad + 1, bad_page z p)
        else (bad, z) in
      destroy_tails n (i + 1) p bad (on_page z (p + i) (clear_flag PG_tail))
  end.

(** Returns the number of inconsistencies found. *)
Definition destroy_compound_page (z : zone) (p : Z) (order : nat) : Z * zone :=
  let '(bad, z) :=
    if negb (compound_order z p =? Z.of_nat order) then (1, bad_page z p) else (0, z) in
  destroy_tails (2 ^ order - 1) 1 p bad (on_page z p (clear_flag PG_head)).

(** ** Freeing *)

Section Env.
Context `{PAEnv}.

(** The locals of [__free_one_page] in its merging loops; [buddy_idx] is
    uninitialised until the first iteration. *)
Record merge_state := mkMerge {
  m_zone : zone; m_page : Z; m_page_idx : Z; m_order : nat; m_max_order : nat;
  m_buddy_idx : option Z }.

(** One iteration of [while (order < max_order - 1)], or, when its condition
    fails, of the [goto continue_merging] below it. *)
Definition merge_step (s : merge_state) : res (merge_state + merge_state) :=
  let '(mkMerge z page page_idx order max_order _) := s in
  if (order <? max_order - 1)%nat then
    let buddy_idx := __find_buddy_index page_idx order in
    let buddy := page + (buddy_idx - page_idx) in
    if negb (page_is_buddy z page buddy order)
    then Ok (inr (mkMerge z page page_idx order max_order (Some buddy_idx)))
    else
      let z := list_del z buddy in
      let z := add_nr_free z order (-1) in
      let z := rmv_page_order z buddy in
      let combined_idx := Z.land buddy_idx page_idx in
      Ok (inl (mkMerge z (page + (combined_idx - page_idx)) combined_idx (S order) max_order
                 (Some buddy_idx)))
  else if (max_order <? MAX_ORDER)%nat then
    Ok (inl (mkMerge z page page_idx order (S max_order) (m_buddy_idx s)))
  else Ok (inr s).

(** [done_merging:] *)
Definition merge_done (migratetype : migratetype) (s : merge_state) : res zone :=
  let '(mkMerge z page page_idx order _ buddy_idx) := s in
  let z := set_page_order z page order in
  if (order <? MAX_ORDER - 2)%nat then
    match buddy_idx with
    | None => Fault
    | Some buddy_idx =>
        let combined_idx := Z.land buddy_idx page_idx in
        let higher_page := page + (combined_idx - page_idx) in
        let buddy_idx := __find_buddy_index combined_idx (order + 1) in
        let higher_buddy := higher_page + (buddy_idx - combined_idx) in
        if page_is_buddy z higher_page higher_buddy (order + 1)
        then Ok (add_nr_free (list_add_tail z page order migratetype) order 1)
        else Ok (add_nr_free (list_add z page order migratetype) order 1)
    end
  else Ok (add_nr_free (list_add z page order migratetype) order 1).

Definition MERGE_FUEL : nat := 3 * MAX_ORDER.

Definition __free_one_page (z : zone) (page : Z) (order : nat) (mt : migratetype) : res zone :=
  let max_order := Nat.min MAX_ORDER (pageblock_order + 1) in
  let '(bad, z) := if PageCompound z page then destroy_compound_page z page order else (0, z) in
  if negb (bad =? 0) then Ok z else
  let z := __mod_zone_freepage_state z (2 ^ Z.of_nat order) in
  let page_idx := Z.land page (2 ^ Z.of_nat MAX_ORDER - 1) in
  loop MERGE_FUEL merge_step (mkMerge z page page_idx order max_order None) ≫= merge_done mt.

(** ** Allocating *)

(** [while (high > low)]; [n] is [high - low]. *)
Fixpoint expand (n : nat) (z : zone) (page : Z) (low : nat) (mt : migratetype) : zone :=
  match n with
  | O => z
  | S n =>
      let high := (low + n)%nat in
      let size := 2 ^ Z.of_nat high in
      let z := list_add z (page + size) high mt in
      let z := add_nr_free z high 1 in
      let z := set_page_order z (page + size) high in
      expand n z page low mt
  end.

(** [for (current_order = order; current_order < MAX_ORDER; ++current_order)];
    [n] orders are left. *)
Fixpoint smallest_from (n : nat) (current_order : nat) (z : zone) (order : nat) (mt : migratetype)
    : option Z * zone :=
  match n with
  | O => (None, z)
  | S n =>
      match free_list z current_order mt with
      | [] => smallest_from n (S current_order) z order mt
      | page :: _ =>
          let z := list_del z page in
          let z := rmv_page_order z page in
          let z := add_nr_free z current_order (-1) in
          let z := expand (current_order - order) z page order mt in
          (Some page, set_freepage_migratetype z page mt)
      end
  end.

Definition __rmqueue_smallest (z : zone) (order : nat) (mt : migratetype) : option Z * zone :=
  smallest_from (MAX_ORDER - order) order z order mt.

(** [fallbacks[mt]] up to the first MIGRATE_RESERVE, where the loop stops. *)
Definition fallbacks (mt : migratetype) : list migratetype :=
  match mt with
  | MIGRATE_UNMOVABLE => [MIGRATE_RECLAIMABLE; MIGRATE_MOVABLE]
  | MIGRATE_RECLAIMABLE => [MIGRATE_UNMOVABLE; MIGRATE_MOVABLE]
  | MIGRATE_MOVABLE => [MIGRATE_RECLAIMABLE; MIGRATE_UNMOVABLE]
  | MIGRATE_RESERVE => []
  end.

Definition pageblock_nr_pages : Z := 2 ^ Z.of_nat pageblock_order.

(** The pageblock bitmap: one entry per block of [pageblock_nr_pages]. *)
Definition get_pageblock_migratetype (z : zone) (p : Z) : migratetype :=
  block_type z (Z.shiftr p (Z.of_nat pageblock_order)).
Definition set_pageblock_migratetype (z : zone) (p : Z) (mt : migratetype) : zone :=
  let mt := if page_group_by_mobility_disabled && is_pcptype mt then MIGRATE_UNMOVABLE else mt in
  with_block_type z (upd (block_type z) (Z.shiftr p (Z.of_nat pageblock_order)) mt).

(** One iteration of the loop of [move_freepages]; the state is
    [(page, pages_moved, zone)]. *)
Definition move_step (end_page : Z) (mt : migratetype)
    : Z * Z * zone -> res (Z * Z * zone + Z * zone) :=
  fun '(page, pages_moved, z) =>
  if page <=? end_page then
    if negb (PageBuddy z page) then Ok (inl (page + 1, pages_moved, z))
    else
      let order := page_order z page in
      let z := list_move z page order mt in
      let z := set_freepage_migratetype z page mt in
      Ok (inl (page + 2 ^ Z.of_nat order, pages_moved + 2 ^ Z.of_nat order, z))
  else Ok (inr (pages_moved, z)).

Definition move_freepages (z : zone) (start_page end_page : Z) (mt : migratetype)
    : res (Z * zone) :=
  loop (Z.to_nat (end_page - start_page + 1) + 1) (move_step end_page mt) (start_page, 0, z).

Definition move_freepages_block (z : zone) (page : Z) (mt : migratetype) : res (Z * zone) :=
  let start_pfn := Z.land page (ULLONG_MAX - (pageblock_nr_pages - 1)) in
  let end_pfn := start_pfn + pageblock_nr_pages - 1 in
  let start_page := if negb (zone_spans_pfn z start_pfn) then page else start_pfn in
  if negb (zone_spans_pfn z end_pfn) then Ok (0, z)
  else move_freepages z start_page end_pfn mt.

Fixpoint change_pageblock_range (nr_pageblocks : nat) (z : zone) (p : Z) (mt : migratetype) : zone :=
  match nr_pageblocks with
  | O => z
  | S n => change_pageblock_range n (set_pageblock_migratetype z p mt) (p + pageblock_nr_pages) mt
  end.

Definition try_to_steal_freepages (z : zone) (page : Z) (start_type : migratetype) : res zone :=
  let current_order := page_order z page in
  if (pageblock_order <=? current_order)%nat then
    Ok (change_pageblock_range (2 ^ (current_order - pageblock_order)) z page start_type)
  else if (pageblock_order / 2 <=? current_order)%nat
          || bool_decide (start_type = MIGRATE_RECLAIMABLE)
          || bool_decide (start_type = MIGRATE_UNMOVABLE)
          || page_group_by_mobility_disabled then
    '(pages, z) ← move_freepages_block z page start_type;
    if (2 ^ Z.of_nat (pageblock_order - 1) <=? pages) || page_group_by_mobility_disabled
    then Ok (set_pageblock_migratetype z page start_type)
    else Ok z
  else Ok z.

(** The first non-empty list among [fallbacks] at one order. *)
Fixpoint fallback_list (z : zone) (current_order : nat) (mts : list migratetype) : option Z :=
  match mts with
  | [] => None
  | mt :: mts =>
      match free_list z current_order mt with
      | [] => fallback_list z current_order mts
      | page :: _ => Some page
      end
  end.

Definition fallback_take (z : zone) (page : Z) (order current_order : nat)
    (start_migratetype : migratetype) : res (option Z * zone) :=
  let z := add_nr_free z current_order (-1) in
  z ← try_to_steal_freepages z page start_migratetype;
  let z := list_del z page in
  let z := rmv_page_order z page in
  let z := expand (current_order - order) z page order start_migratetype in
  Ok (Some page, set_freepage_migratetype z page start_migratetype).

(** [for (current_order = MAX_ORDER-1; current_order >= order; --current_order)];
    [n] orders are left. *)
Fixpoint fallback_from (n : nat) (z : zone) (order : nat) (start_migratetype : migratetype)
    : res (option Z * zone) :=
  match n with
  | O => Ok (None, z)
  | S n =>
      let current_order := (order + n)%nat in
      match fallback_list z current_order (fallbacks start_migratetype) with
      | None => fallback_from n z order start_migratetype
      | Some page => fallback_take z page order current_order start_migratetype
      end
  end.

Definition __rmqueue_fallback (z : zone) (order : nat) (start_migratetype : migratetype)
    : res (option Z * zone) :=
  fallback_from (MAX_ORDER - order) z order start_migratetype.

Definition __rmqueue (z : zone) (order : nat) (mt : migratetype) : res (option Z * zone) :=
  match __rmqueue_smallest z order mt with
  | (Some page, z) => Ok (Some page, z)
  | (None, z) =>
      if bool_decide (mt = MIGRATE_RESERVE) then Ok (None, z)
      else
        '(page, z) ← __rmqueue_fallback z order mt;
        match page with
        | Some page => Ok (Some page, z)
        | None => Ok (__rmqueue_smallest z order MIGRATE_RESERVE)
        end
  end.
End Env.
