(* ===== verification/BuddyTheory.v ===== *)
(** * Theory of the buddy allocator

    A free block is a pair of a page frame number and an order found on some
    free list; [free_at] is the set of free page frames.  [wf] is the
    invariant of a zone, [hole] describes a block that its holder may free.
    Every list manipulation of [BuddyDefs.v] is an instance of one of three
    relations: a block is added, removed, or moved between lists. *)

From S2P Require Import Prelude BuddyDefs.

Create HintDb buddy.

(** ** Blocks *)

Definition sz (o : nat) : Z := 2 ^ Z.of_nat o.
Definition in_block (p : Z) (o : nat) (x : Z) : Prop := p <= x < p + sz o.

Definition blk (z : zone) (p : Z) (o : nat) : Prop := exists mt, p ∈ free_list z o mt.
Definition free_at (z : zone) (x : Z) : Prop := exists p o, blk z p o /\ in_block p o x.

(** The other half of the block of order [S o] that contains [p]. *)
Definition buddy_of (p : Z) (o : nat) : Z := if Z.testbit p (Z.of_nat o) then p - sz o else p + sz o.

Definition all_types : list migratetype :=
  [MIGRATE_UNMOVABLE; MIGRATE_RECLAIMABLE; MIGRATE_MOVABLE; MIGRATE_RESERVE].

Definition sumZ {A} (f : A -> Z) (l : list A) : Z := foldr (fun x s => f x + s) 0 l.

Lemma sumZ_ext {A} (f g : A -> Z) l : (forall x, x ∈ l -> f x = g x) -> sumZ f l = sumZ g l.
Proof.
  intros Hfg. induction l as [|x l IH]; [done|]. unfold sumZ in *. cbn. rewrite Hfg by left.
  f_equal. apply IH. intros y Hy. apply Hfg. by right.
Qed.

(** Changing one summand of a list without duplicates. *)
Lemma sumZ_nonneg {A} (f : A -> Z) l : (forall x, x ∈ l -> 0 <= f x) -> 0 <= sumZ f l.
Proof.
  induction l as [|x l IH]; intros Hf; [done|]. unfold sumZ in *. cbn.
  pose proof (Hf x ltac:(left)). specialize (IH ltac:(intros; apply Hf; by right)). lia.
Qed.

Lemma sumZ_update {A} `{EqDecision A} (f g : A -> Z) l x d :
  NoDup l -> x ∈ l -> g x = f x + d -> (forall y, y <> x -> g y = f y) -> sumZ g l = sumZ f l + d.
Proof.
  intros Hnd Hx Hgx Hgy. induction Hnd as [|y l Hy Hnd IH]; [by apply not_elem_of_nil in Hx|].
  unfold sumZ in *. cbn. destruct (decide (y = x)) as [->|Hne].
  - rewrite Hgx. assert (He : sumZ g l = sumZ f l).
    { apply sumZ_ext. intros w Hw. apply Hgy. by intros ->. }
    unfold sumZ in He. rewrite He. lia.
  - rewrite (Hgy y) by done. rewrite IH; [lia|]. apply elem_of_cons in Hx as [->|]; done.
Qed.

(** Blocks of one order, and pages on all lists. *)
Definition count (z : zone) (o : nat) : Z :=
  sumZ (fun mt => Z.of_nat (length (free_list z o mt))) all_types.
Definition total (z : zone) : Z := sumZ (fun o => count z o * sz o) (seq 0 MAX_ORDER).

Lemma count_nonneg z o : 0 <= count z o.
Proof. apply sumZ_nonneg. intros. lia. Qed.

Lemma total_nonneg z : 0 <= total z.
Proof.
  apply sumZ_nonneg. intros o _. pose proof (count_nonneg z o). assert (0 < sz o) by (unfold sz; lia). nia.
Qed.

Record wf (z : zone) : Prop := {
  wf_order : forall p o, blk z p o -> (o < MAX_ORDER)%nat;
  wf_buddy : forall p o, blk z p o -> PageBuddy z p = true /\ pg_private (mem_map z p) = Z.of_nat o;
  wf_listed : forall p, PageBuddy z p = true -> page_zone_id z p = z_id z -> exists o, blk z p o;
  wf_nodup : forall o mt, NoDup (free_list z o mt);
  wf_one : forall p o mt mt', p ∈ free_list z o mt -> p ∈ free_list z o mt' -> mt = mt';
  wf_aligned : forall p o, blk z p o -> 0 <= p /\ (sz o | p);
  wf_span : forall p o x, blk z p o -> in_block p o x -> zone_spans_pfn z x = true;
  wf_zone : forall x, zone_spans_pfn z x = true -> page_zone_id z x = z_id z;
  wf_disj : forall p o q o' x, blk z p o -> blk z q o' -> in_block p o x -> in_block q o' x -> p = q;
  wf_count : forall o, nr_free z o = u64 (count z o);
  wf_coalesced : forall p o, blk z p o -> (o < MAX_ORDER - 1)%nat -> ~ blk z (buddy_of p o) o }.

(** A block of the zone none of whose pages is free. *)
Record hole (z : zone) (p : Z) (o : nat) : Prop := {
  hole_nonneg : 0 <= p;
  hole_aligned : (sz o | p);
  hole_span : forall x, in_block p o x -> zone_spans_pfn z x = true;
  hole_free : forall x, in_block p o x -> ~ free_at z x }.

Lemma sz_pos o : 0 < sz o.
Proof. unfold sz. lia. Qed.

Lemma sz_S o : sz (S o) = 2 * sz o.
Proof. unfold sz. rewrite Nat2Z.inj_succ, Z.pow_succ_r; lia. Qed.

Lemma block_head p o : in_block p o p.
Proof. unfold in_block. pose proof (sz_pos o). lia. Qed.

#[export] Hint Resolve sz_pos block_head : buddy.

Lemma hole_not_blk z p o o' : hole z p o -> ~ blk z p o'.
Proof. intros Hh Hb. apply (hole_free _ _ _ Hh p); [auto with buddy|]. exists p, o'. auto with buddy. Qed.

Lemma hole_not_buddy z p o : wf z -> hole z p o -> PageBuddy z p = false.
Proof.
  intros Hwf Hh. destruct (PageBuddy z p) eqn:E; [|done]. exfalso.
  destruct (wf_listed _ Hwf p E) as [o' Hb].
  - apply (wf_zone _ Hwf), (hole_span _ _ _ Hh). auto with buddy.
  - by eapply hole_not_blk.
Qed.

(** [page_is_buddy] recognises the free blocks of the order. *)
Lemma page_is_buddy_spec z p q o :
  wf z -> page_zone_id z p = z_id z -> page_is_buddy z p q o = true <-> blk z q o.
Proof.
  intros Hwf Hz. unfold page_is_buddy. rewrite !andb_true_iff, !Z.eqb_eq, Hz. split.
  - intros [[Hb Hp] Hzq]. destruct (wf_listed _ Hwf q) as [o' Hq]; [done|by rewrite Hzq|].
    destruct (wf_buddy _ Hwf _ _ Hq) as [_ Ho]. by replace o with o' by lia.
  - intros Hq. destruct (wf_buddy _ Hwf _ _ Hq). split_and!; try done.
    symmetry. apply (wf_zone _ Hwf), (wf_span _ Hwf q o); auto with buddy.
Qed.

(** ** Same zone, same block structure *)

Record same_map (z z' : zone) (p : Z) : Prop := {
  sm_mapcount : forall x, x <> p -> pg_mapcount (mem_map z' x) = pg_mapcount (mem_map z x);
  sm_private : forall x, x <> p -> pg_private (mem_map z' x) = pg_private (mem_map z x);
  sm_zone_id : forall x, page_zone_id z' x = page_zone_id z x;
  sm_id : z_id z' = z_id z;
  sm_start : zone_start_pfn z' = zone_start_pfn z;
  sm_spanned : spanned_pages z' = spanned_pages z }.

Lemma same_map_refl z p : same_map z z p.
Proof. done. Qed.

Lemma same_map_span z z' p x : same_map z z' p -> zone_spans_pfn z' x = zone_spans_pfn z x.
Proof. intros Hs. unfold zone_spans_pfn, zone_end_pfn. by rewrite (sm_start _ _ _ Hs), (sm_spanned _ _ _ Hs). Qed.

Lemma same_map_buddy z z' p x : same_map z z' p -> x <> p -> PageBuddy z' x = PageBuddy z x.
Proof. intros Hs Hx. unfold PageBuddy. by rewrite (sm_mapcount _ _ _ Hs). Qed.

(** Two zones with the same lists and the same page state. *)
Record same (z z' : zone) : Prop := {
  same_lists : forall o mt, free_list z' o mt = free_list z o mt;
  same_nr : forall o, nr_free z' o = nr_free z o;
  same_mapcount : forall x, pg_mapcount (mem_map z' x) = pg_mapcount (mem_map z x);
  same_private : forall x, pg_private (mem_map z' x) = pg_private (mem_map z x);
  same_zone_id : forall x, page_zone_id z' x = page_zone_id z x;
  same_id : z_id z' = z_id z;
  same_start : zone_start_pfn z' = zone_start_pfn z;
  same_spanned : spanned_pages z' = spanned_pages z }.

#[export] Instance same_refl : Reflexive same.
Proof. intros z. by split. Qed.
#[export] Instance same_trans : Transitive same.
Proof.
  intros z1 z2 z3 H1 H2. split; intros;
    first [ rewrite (same_lists _ _ H2); apply H1 | rewrite (same_nr _ _ H2); apply H1
          | rewrite (same_mapcount _ _ H2); apply H1 | rewrite (same_private _ _ H2); apply H1
          | rewrite (same_zone_id _ _ H2); apply H1 | rewrite (same_id _ _ H2); apply H1
          | rewrite (same_start _ _ H2); apply H1 | rewrite (same_spanned _ _ H2); apply H1 ].
Qed.

Lemma same_blk z z' p o : same z z' -> blk z' p o <-> blk z p o.
Proof. intros Hs. unfold blk. by setoid_rewrite (same_lists _ _ Hs). Qed.

Lemma same_free z z' x : same z z' -> free_at z' x <-> free_at z x.
Proof. intros Hs. unfold free_at. by setoid_rewrite (same_blk _ _ _ _ Hs). Qed.

Lemma same_count z z' o : same z z' -> count z' o = count z o.
Proof. intros Hs. unfold count. cbn. by rewrite !(same_lists _ _ Hs). Qed.

Lemma same_total z z' : same z z' -> total z' = total z.
Proof. intros Hs. apply sumZ_ext. intros o _. by rewrite (same_count _ _ _ Hs). Qed.

Lemma same_spans z z' x : same z z' -> zone_spans_pfn z' x = zone_spans_pfn z x.
Proof. intros Hs. unfold zone_spans_pfn, zone_end_pfn. by rewrite (same_start _ _ Hs), (same_spanned _ _ Hs). Qed.

Lemma wf_same z z' : same z z' -> wf z -> wf z'.
Proof.
  intros Hs Hwf. split; intros *; unfold PageBuddy;
    rewrite ?(same_blk _ _ _ _ Hs), ?(same_mapcount _ _ Hs), ?(same_private _ _ Hs), ?(same_lists _ _ Hs),
      ?(same_zone_id _ _ Hs), ?(same_id _ _ Hs), ?(same_spans _ _ _ Hs), ?(same_count _ _ _ Hs),
      ?(same_nr _ _ Hs); try apply Hwf.
  setoid_rewrite (same_blk _ _ _ _ Hs). apply Hwf.
Qed.

Lemma hole_same z z' p o : same z z' -> hole z p o -> hole z' p o.
Proof.
  intros Hs Hh. split; try apply Hh; intros x; rewrite ?(same_spans _ _ _ Hs), ?(same_free _ _ _ Hs); apply Hh.
Qed.

(** ** Buddies *)

(** The block of order [S o] that contains the block [(p, o)]. *)
Definition parent_of (p : Z) (o : nat) : Z := if Z.testbit p (Z.of_nat o) then p - sz o else p.

Lemma testbit_sz o i : Z.testbit (sz o) i = (i =? Z.of_nat o).
Proof.
  unfold sz. rewrite Z.pow2_bits_eqb by lia. destruct (Z.eqb_spec i (Z.of_nat o)); lia.
Qed.

Lemma buddy_lxor p o : buddy_of p o = Z.lxor p (sz o).
Proof.
  assert (Hadd : forall q, Z.testbit q (Z.of_nat o) = false -> q + sz o = Z.lxor q (sz o)).
  { intros q Hq. apply Z.add_nocarry_lxor. apply Z.bits_inj'. intros i Hi.
    rewrite Z.land_spec, testbit_sz, Z.bits_0. destruct (Z.eqb_spec i (Z.of_nat o)) as [->|].
    - by rewrite Hq.
    - by rewrite andb_false_r. }
  unfold buddy_of. destruct (Z.testbit p (Z.of_nat o)) eqn:E; [|by apply Hadd].
  specialize (Hadd (Z.lxor p (sz o))). rewrite Z.lxor_assoc, Z.lxor_nilpotent, Z.lxor_0_r in Hadd.
  enough (Z.lxor p (sz o) + sz o = p) by lia. apply Hadd.
  by rewrite Z.lxor_spec, E, testbit_sz, Z.eqb_refl.
Qed.

Lemma buddy_invol p o : buddy_of (buddy_of p o) o = p.
Proof. by rewrite !buddy_lxor, Z.lxor_assoc, Z.lxor_nilpotent, Z.lxor_0_r. Qed.

Lemma parent_land p o : Z.land (Z.lxor p (sz o)) p = parent_of p o.
Proof.
  assert (H : Z.land (Z.lxor p (sz o)) p = Z.ldiff p (sz o)).
  { apply Z.bits_inj'. intros i Hi. rewrite Z.land_spec, Z.lxor_spec, Z.ldiff_spec.
    by destruct (Z.testbit p i), (Z.testbit (sz o) i). }
  rewrite H. unfold parent_of. destruct (Z.testbit p (Z.of_nat o)) eqn:E.
  - symmetry. apply Z.sub_nocarry_ldiff. apply Z.bits_inj'. intros i Hi.
    rewrite Z.ldiff_spec, testbit_sz, Z.bits_0. destruct (Z.eqb_spec i (Z.of_nat o)) as [->|]; [|done].
    by rewrite E.
  - apply Z.bits_inj'. intros i Hi. rewrite Z.ldiff_spec, testbit_sz.
    destruct (Z.eqb_spec i (Z.of_nat o)) as [->|]; [by rewrite E|]. by rewrite andb_true_r.
Qed.

(** Page indices are page frame numbers modulo [2 ^ MAX_ORDER]. *)
Definition idx_of (p : Z) : Z := Z.land p (2 ^ Z.of_nat MAX_ORDER - 1).

Lemma idx_bit p o : (o < MAX_ORDER)%nat -> Z.testbit (idx_of p) (Z.of_nat o) = Z.testbit p (Z.of_nat o).
Proof.
  intros Ho. unfold idx_of. replace (2 ^ Z.of_nat MAX_ORDER - 1) with (Z.ones 11) by done.
  rewrite Z.land_spec, Z.testbit_ones_nonneg by lia.
  rewrite (proj2 (Z.ltb_lt _ _)) by (unfold MAX_ORDER in Ho; lia). by rewrite andb_true_r.
Qed.

Lemma find_buddy p o :
  (o < MAX_ORDER)%nat -> p + (__find_buddy_index (idx_of p) o - idx_of p) = buddy_of p o.
Proof.
  intros Ho. unfold __find_buddy_index. fold (sz o). rewrite <- buddy_lxor. unfold buddy_of.
  rewrite idx_bit by done. destruct (Z.testbit p (Z.of_nat o)); lia.
Qed.

Lemma combined_parent p o :
  (o < MAX_ORDER)%nat ->
  p + (Z.land (__find_buddy_index (idx_of p) o) (idx_of p) - idx_of p) = parent_of p o.
Proof.
  intros Ho. unfold __find_buddy_index. fold (sz o). rewrite parent_land. unfold parent_of.
  rewrite idx_bit by done. destruct (Z.testbit p (Z.of_nat o)); lia.
Qed.

Lemma idx_parent p o :
  (o < MAX_ORDER)%nat -> Z.land (__find_buddy_index (idx_of p) o) (idx_of p) = idx_of (parent_of p o).
Proof.
  intros Ho. unfold __find_buddy_index. fold (sz o). rewrite <- (parent_land p o). unfold idx_of.
  replace (2 ^ Z.of_nat MAX_ORDER - 1) with (Z.ones 11) by done.
  apply Z.bits_inj'. intros i Hi. rewrite !Z.land_spec, !Z.lxor_spec, !Z.land_spec.
  rewrite testbit_sz, Z.testbit_ones_nonneg by lia. unfold MAX_ORDER in Ho.
  destruct (Z.eqb_spec i (Z.of_nat o)), (Z.ltb_spec i 11), (Z.testbit p i); cbn; done || lia.
Qed.

(** A block and its buddy tile the parent block. *)
Lemma aligned_bit p o : (sz o | p) -> Z.testbit p (Z.of_nat o) = Z.odd (p / sz o).
Proof.
  intros [k ->]. unfold sz. rewrite Z.div_mul by lia. rewrite Z.mul_pow2_bits by lia.
  by rewrite Z.sub_diag, Z.bit0_odd.
Qed.

Lemma parent_aligned p o : (sz o | p) -> (sz (S o) | parent_of p o).
Proof.
  intros Hp. pose proof (sz_pos o). unfold parent_of. rewrite aligned_bit by done. destruct Hp as [k ->].
  rewrite Z.div_mul by lia. rewrite sz_S. destruct (Z.odd k) eqn:E.
  - apply Z.odd_spec in E as [m ->]. exists m. lia.
  - assert (Z.even k = true) as [m ->]%Z.even_spec by (by rewrite <- Z.negb_odd, E). exists m. lia.
Qed.

Lemma buddy_aligned p o : (sz o | p) -> (sz o | buddy_of p o).
Proof.
  intros [k ->]. unfold buddy_of. destruct (Z.testbit _ _); [exists (k - 1)|exists (k + 1)]; lia.
Qed.

Lemma parent_split p o x :
  in_block (parent_of p o) (S o) x <-> in_block p o x \/ in_block (buddy_of p o) o x.
Proof.
  unfold in_block, parent_of, buddy_of. rewrite sz_S. pose proof (sz_pos o).
  destruct (Z.testbit p (Z.of_nat o)); lia.
Qed.

Lemma parent_nonneg p o : 0 <= p -> (sz o | p) -> 0 <= parent_of p o.
Proof.
  intros Hp [k ->]. pose proof (sz_pos o). unfold parent_of.
  destruct (Z.testbit _ _) eqn:E; [|done]. destruct (decide (k = 0)) as [->|]; [|nia].
  by rewrite Z.mul_0_l, Z.bits_0 in E.
Qed.

Lemma buddy_disjoint p o x : in_block p o x -> ~ in_block (buddy_of p o) o x.
Proof. unfold in_block, buddy_of. pose proof (sz_pos o). destruct (Z.testbit _ _); lia. Qed.

(** The upper half of an aligned block is the buddy of the lower half. *)
Lemma buddy_upper p o : (sz (S o) | p) -> buddy_of (p + sz o) o = p.
Proof.
  intros [k ->]. pose proof (sz_pos o). unfold buddy_of. rewrite aligned_bit.
  - rewrite sz_S. replace ((k * (2 * sz o) + sz o) / sz o) with (2 * k + 1).
    + rewrite Z.odd_add, Z.odd_mul. cbn. lia.
    + replace (k * (2 * sz o) + sz o) with ((2 * k + 1) * sz o) by lia. by rewrite Z.div_mul by lia.
  - exists (2 * k + 1). rewrite sz_S. lia.
Qed.

(** ** Adding a block *)

Record added (z z' : zone) (p : Z) (o : nat) (mt : migratetype) : Prop := {
  ad_map : same_map z z' p;
  ad_buddy : PageBuddy z' p = true;
  ad_private : pg_private (mem_map z' p) = Z.of_nat o;
  ad_list : free_list z' o mt ≡ₚ p :: free_list z o mt;
  ad_other : forall o' mt', ~ (o' = o /\ mt' = mt) -> free_list z' o' mt' = free_list z o' mt';
  ad_nr : forall o', nr_free z' o' = if decide (o' = o) then u64 (nr_free z o + 1) else nr_free z o' }.

Lemma all_types_nodup : NoDup all_types.
Proof. unfold all_types. repeat constructor; rewrite ?elem_of_cons, ?elem_of_nil; naive_solver. Qed.
Lemma all_types_in mt : mt ∈ all_types.
Proof. unfold all_types. rewrite !elem_of_cons. destruct mt; tauto. Qed.

Lemma added_elem z z' p o mt q o' mt' :
  added z z' p o mt ->
  q ∈ free_list z' o' mt' <-> q ∈ free_list z o' mt' \/ (q = p /\ o' = o /\ mt' = mt).
Proof.
  intros Ha. destruct (decide (o' = o /\ mt' = mt)) as [[-> ->]|Hne].
  - rewrite (ad_list _ _ _ _ _ Ha), elem_of_cons. naive_solver.
  - rewrite (ad_other _ _ _ _ _ Ha) by done. naive_solver.
Qed.

Lemma added_blk z z' p o mt q o' :
  added z z' p o mt -> blk z' q o' <-> blk z q o' \/ (q = p /\ o' = o).
Proof.
  intros Ha. unfold blk. setoid_rewrite (added_elem _ _ _ _ _ _ _ _ Ha). naive_solver.
Qed.

Lemma added_free z z' p o mt x :
  added z z' p o mt -> free_at z' x <-> free_at z x \/ in_block p o x.
Proof.
  intros Ha. unfold free_at. setoid_rewrite (added_blk _ _ _ _ _ _ _ Ha). naive_solver.
Qed.

Lemma added_count z z' p o mt o' :
  added z z' p o mt -> count z' o' = count z o' + (if decide (o' = o) then 1 else 0).
Proof.
  intros Ha. unfold count. eapply (sumZ_update _ _ _ mt).
  - apply all_types_nodup.
  - apply all_types_in.
  - case_decide as Ho.
    + subst o'. rewrite (ad_list _ _ _ _ _ Ha). cbn. lia.
    + rewrite (ad_other _ _ _ _ _ Ha) by naive_solver. lia.
  - intros mt' Hmt. by rewrite (ad_other _ _ _ _ _ Ha) by naive_solver.
Qed.

Lemma total_change z z' o d :
  (o < MAX_ORDER)%nat -> (forall o', count z' o' = count z o' + (if decide (o' = o) then d else 0)) ->
  total z' = total z + d * sz o.
Proof.
  intros Ho Hc. unfold total. apply (sumZ_update _ _ _ o).
  - apply NoDup_seq.
  - apply elem_of_seq. lia.
  - rewrite Hc, decide_True by done. lia.
  - intros o' Hne. rewrite Hc, decide_False by done. lia.
Qed.

Lemma added_wf z z' p o mt :
  added z z' p o mt -> wf z -> hole z p o -> (o < MAX_ORDER)%nat ->
  ((o < MAX_ORDER - 1)%nat -> ~ blk z (buddy_of p o) o) -> wf z'.
Proof.
  intros Ha Hwf Hh Ho Hbud. pose proof (ad_map _ _ _ _ _ Ha) as Hm.
  assert (Hnp : forall q o', blk z q o' -> q <> p) by (intros q o' Hq ->; by eapply hole_not_blk).
  assert (Hdis : forall q o' x, blk z q o' -> in_block q o' x -> in_block p o x -> False).
  { intros q o' x Hq Hx Hp. eapply (hole_free _ _ _ Hh x Hp). by exists q, o'. }
  split.
  - intros q o'. rewrite (added_blk _ _ _ _ _ _ _ Ha). intros [?%(wf_order _ Hwf)|[-> ->]]; done.
  - intros q o'. rewrite (added_blk _ _ _ _ _ _ _ Ha). intros [Hq|[-> ->]].
    + rewrite (same_map_buddy _ _ _ _ Hm), (sm_private _ _ _ Hm) by eauto. by apply (wf_buddy _ Hwf).
    + split; [apply Ha|apply Ha].
  - intros q. rewrite (sm_zone_id _ _ _ Hm), (sm_id _ _ _ Hm). setoid_rewrite (added_blk _ _ _ _ _ _ _ Ha).
    destruct (decide (q = p)) as [->|Hne]; [intros _ _; exists o; by right|].
    rewrite (same_map_buddy _ _ _ _ Hm) by done. intros Hb Hz.
    destruct (wf_listed _ Hwf q Hb Hz) as [o' ?]. exists o'. by left.
  - intros o' mt'. destruct (decide (o' = o /\ mt' = mt)) as [[-> ->]|Hne].
    + rewrite (ad_list _ _ _ _ _ Ha). constructor; [|apply Hwf]. intros Hp.
      eapply (hole_not_blk z p o o Hh). by exists mt.
    + rewrite (ad_other _ _ _ _ _ Ha) by done. apply Hwf.
  - intros q o' mt1 mt2. rewrite !(added_elem _ _ _ _ _ _ _ _ Ha).
    intros [H1|(-> & -> & ->)] [H2|(? & ? & ->)]; try done.
    + by eapply (wf_one _ Hwf).
    + subst. exfalso. eapply (hole_not_blk z p o o Hh). by exists mt1.
    + exfalso. eapply (hole_not_blk z p o o Hh). by exists mt2.
  - intros q o'. rewrite (added_blk _ _ _ _ _ _ _ Ha). intros [Hq|[-> ->]]; [by apply (wf_aligned _ Hwf)|].
    split; [apply Hh|apply Hh].
  - intros q o' x. rewrite (added_blk _ _ _ _ _ _ _ Ha), (same_map_span _ _ _ _ Hm).
    intros [Hq|[-> ->]] Hx; [by apply (wf_span _ Hwf q o')|]. by apply Hh.
  - intros x. rewrite (same_map_span _ _ _ _ Hm), (sm_zone_id _ _ _ Hm), (sm_id _ _ _ Hm). apply Hwf.
  - intros q1 o1 q2 o2 x. rewrite !(added_blk _ _ _ _ _ _ _ Ha).
    intros [H1|[-> ->]] [H2|[-> ->]] Hx1 Hx2; try done.
    + by eapply (wf_disj _ Hwf).
    + exfalso. eauto.
    + exfalso. eauto.
  - intros o'. rewrite (ad_nr _ _ _ _ _ Ha), (added_count _ _ _ _ _ _ Ha). case_decide as Ho'.
    + subst. rewrite (wf_count _ Hwf). unfold u64. by rewrite Zplus_mod_idemp_l.
    + rewrite Z.add_0_r. apply Hwf.
  - intros q o'. rewrite !(added_blk _ _ _ _ _ _ _ Ha).
    intros [Hq|[-> ->]] Hlt [Hq'|[Heq Heq']].
    + exact (wf_coalesced _ Hwf _ _ Hq Hlt Hq').
    + subst o'. apply (Hbud Hlt). by rewrite <- Heq, buddy_invol.
    + by apply Hbud.
    + apply (buddy_disjoint p o p); [auto with buddy|]. rewrite Heq. auto with buddy.
Qed.

(** ** Removing a block *)

Lemma filter_notin (l : list Z) p : p ∉ l -> filter (fun q => q <> p) l = l.
Proof.
  induction l as [|x l IH]; [done|]. rewrite not_elem_of_cons. intros [Hx Hl].
  rewrite filter_cons_True by congruence. by rewrite IH.
Qed.

Lemma filter_remove (l : list Z) p :
  NoDup l -> p ∈ l -> l ≡ₚ p :: filter (fun q => q <> p) l.
Proof.
  induction 1 as [|x l Hx Hnd IH]; [by intros ?%not_elem_of_nil|].
  rewrite elem_of_cons. intros [<-|Hp].
  - rewrite filter_cons_False by naive_solver. by rewrite filter_notin.
  - rewrite filter_cons_True by (by intros ->). rewrite IH at 1 by done. apply perm_swap.
Qed.

Record removed (z z' : zone) (p : Z) (o : nat) : Prop := {
  rm_map : same_map z z' p;
  rm_buddy : PageBuddy z' p = false;
  rm_list : forall o' mt', free_list z' o' mt' = filter (fun q => q <> p) (free_list z o' mt');
  rm_nr : forall o', nr_free z' o' = if decide (o' = o) then u64 (nr_free z o + -1) else nr_free z o' }.

Lemma removed_elem z z' p o q o' mt' :
  removed z z' p o -> q ∈ free_list z' o' mt' <-> q <> p /\ q ∈ free_list z o' mt'.
Proof. intros Hr. by rewrite (rm_list _ _ _ _ Hr), list_elem_of_filter. Qed.

Lemma removed_blk z z' p o q o' : removed z z' p o -> blk z' q o' <-> q <> p /\ blk z q o'.
Proof. intros Hr. unfold blk. setoid_rewrite (removed_elem _ _ _ _ _ _ _ Hr). naive_solver. Qed.

(** The order of a free block is determined by its first page. *)
Lemma blk_order z p o o' : wf z -> blk z p o -> blk z p o' -> o = o'.
Proof.
  intros Hwf [_ H1]%(wf_buddy _ Hwf) [_ H2]%(wf_buddy _ Hwf). lia.
Qed.

Lemma del_count z z' p o :
  wf z -> blk z p o ->
  (forall o' mt', free_list z' o' mt' = filter (fun q => q <> p) (free_list z o' mt')) ->
  forall o', count z' o' = count z o' + (if decide (o' = o) then -1 else 0).
Proof.
  intros Hwf Hp Hl o'. pose proof Hp as [mt Hmt]. unfold count. eapply (sumZ_update _ _ _ mt).
  - apply all_types_nodup.
  - apply all_types_in.
  - rewrite Hl. case_decide as Ho; [subst o'|].
    + rewrite (filter_remove (free_list z o mt) p) at 2 by (done || apply Hwf). cbn. lia.
    + rewrite filter_notin; [lia|]. intros Hp'. apply Ho. symmetry.
      eapply (blk_order z p); [done|done|]. by exists mt.
  - intros mt' Hne. rewrite Hl, filter_notin; [done|]. intros Hp'. apply Hne.
    assert (o = o') as <- by (eapply (blk_order z p); [done|done|by exists mt']).
    by eapply (wf_one _ Hwf).
Qed.

Lemma removed_wf z z' p o : removed z z' p o -> wf z -> blk z p o -> wf z'.
Proof.
  intros Hr Hwf Hp. pose proof (rm_map _ _ _ _ Hr) as Hm. split.
  - intros q o'. rewrite (removed_blk _ _ _ _ _ _ Hr). intros [_ ?]. by eapply (wf_order _ Hwf).
  - intros q o'. rewrite (removed_blk _ _ _ _ _ _ Hr). intros [Hne ?].
    rewrite (same_map_buddy _ _ _ _ Hm), (sm_private _ _ _ Hm) by done. by apply (wf_buddy _ Hwf).
  - intros q. rewrite (sm_zone_id _ _ _ Hm), (sm_id _ _ _ Hm). setoid_rewrite (removed_blk _ _ _ _ _ _ Hr).
    destruct (decide (q = p)) as [->|Hne]; [by rewrite (rm_buddy _ _ _ _ Hr)|].
    rewrite (same_map_buddy _ _ _ _ Hm) by done. intros Hb Hz.
    destruct (wf_listed _ Hwf q Hb Hz) as [o' ?]. by exists o'.
  - intros o' mt'. rewrite (rm_list _ _ _ _ Hr). apply NoDup_filter, Hwf.
  - intros q o' mt1 mt2. rewrite !(removed_elem _ _ _ _ _ _ _ Hr). intros [_ ?] [_ ?].
    by eapply (wf_one _ Hwf).
  - intros q o'. rewrite (removed_blk _ _ _ _ _ _ Hr). intros [_ ?]. by apply (wf_aligned _ Hwf).
  - intros q o' x. rewrite (removed_blk _ _ _ _ _ _ Hr), (same_map_span _ _ _ _ Hm). intros [_ ?].
    by apply (wf_span _ Hwf).
  - intros x. rewrite (same_map_span _ _ _ _ Hm), (sm_zone_id _ _ _ Hm), (sm_id _ _ _ Hm). apply Hwf.
  - intros q1 o1 q2 o2 x. rewrite !(removed_blk _ _ _ _ _ _ Hr). intros [_ ?] [_ ?].
    by apply (wf_disj _ Hwf).
  - intros o'. rewrite (rm_nr _ _ _ _ Hr), (del_count z z' p o Hwf Hp (rm_list _ _ _ _ Hr)).
    case_decide as Ho'.
    + subst. rewrite (wf_count _ Hwf). unfold u64. by rewrite Zplus_mod_idemp_l.
    + rewrite Z.add_0_r. apply Hwf.
  - intros q o'. rewrite !(removed_blk _ _ _ _ _ _ Hr). intros [_ Hq] Hlt [_ Hq'].
    exact (wf_coalesced _ Hwf _ _ Hq Hlt Hq').
Qed.

Lemma removed_free z z' p o x :
  removed z z' p o -> wf z -> blk z p o -> free_at z' x <-> free_at z x /\ ~ in_block p o x.
Proof.
  intros Hr Hwf Hp. unfold free_at. setoid_rewrite (removed_blk _ _ _ _ _ _ Hr). split.
  - intros (q & o' & [Hne Hq] & Hx). split; [by exists q, o'|]. intros Hxp. apply Hne.
    by eapply (wf_disj _ Hwf).
  - intros [(q & o' & Hq & Hx) Hnx]. exists q, o'. split; [|done]. split; [|done]. intros ->.
    assert (o' = o) as -> by (by eapply blk_order). done.
Qed.

Lemma removed_hole z z' p o : removed z z' p o -> wf z -> blk z p o -> hole z' p o.
Proof.
  intros Hr Hwf Hp. split.
  - by eapply (wf_aligned _ Hwf).
  - by eapply (wf_aligned _ Hwf).
  - intros x Hx. rewrite (same_map_span _ _ _ _ (rm_map _ _ _ _ Hr)). by apply (wf_span _ Hwf p o).
  - intros x Hx. rewrite (removed_free _ _ _ _ _ Hr Hwf Hp). tauto.
Qed.

(** ** Moving a block to another list *)

Lemma moved_wf z z' p o mt :
  wf z -> blk z p o -> same_map z z' p -> PageBuddy z' p = PageBuddy z p ->
  pg_private (mem_map z' p) = pg_private (mem_map z p) -> (forall o', nr_free z' o' = nr_free z o') ->
  (forall o' mt', free_list z' o' mt' =
     if decide (o' = o /\ mt' = mt) then p :: filter (fun q => q <> p) (free_list z o mt)
     else filter (fun q => q <> p) (free_list z o' mt')) ->
  wf z' /\ (forall q o', blk z' q o' <-> blk z q o') /\ (forall o', count z' o' = count z o').
Proof.
  intros Hwf Hp Hm Hpb Hpp Hnr Hl.
  assert (Hel : forall q o' mt', q ∈ free_list z' o' mt' <->
            (q <> p /\ q ∈ free_list z o' mt') \/ (q = p /\ o' = o /\ mt' = mt)).
  { intros q o' mt'. rewrite Hl. case_decide as Hd; [destruct Hd as [-> ->]|];
      rewrite ?elem_of_cons, list_elem_of_filter; [|naive_solver].
    destruct (decide (q = p)); naive_solver. }
  assert (Hb : forall q o', blk z' q o' <-> blk z q o').
  { intros q o'. unfold blk. setoid_rewrite Hel. split.
    - intros [mt' [[_ ?]|(-> & -> & ->)]]; [by exists mt'|done].
    - intros [mt' Hq]. destruct (decide (q = p)) as [->|]; [|exists mt'; naive_solver].
      assert (o = o') as <- by (eapply (blk_order z p); [done|done|by exists mt']). exists mt. by right. }
  assert (Hc : forall o', count z' o' = count z o').
  { intros o'. set (z1 := list_del z p).
    assert (H1 : forall o', count z1 o' = count z o' + (if decide (o' = o) then -1 else 0))
      by (by apply (del_count z z1 p o)).
    assert (H2 : count z' o' = count z1 o' + (if decide (o' = o) then 1 else 0)).
    { unfold count. eapply (sumZ_update _ _ _ mt); [apply all_types_nodup|apply all_types_in|..].
      - rewrite Hl. cbn. repeat case_decide; naive_solver lia.
      - intros mt' Hne. rewrite Hl, decide_False by naive_solver. done. }
    rewrite H2, H1. case_decide; lia. }
  split; [|done].
  assert (Hbud : forall q, PageBuddy z' q = PageBuddy z q).
  { intros q. destruct (decide (q = p)) as [->|]; [done|]. by apply (same_map_buddy _ _ _ _ Hm). }
  assert (Hpr : forall q, pg_private (mem_map z' q) = pg_private (mem_map z q)).
  { intros q. destruct (decide (q = p)) as [->|]; [done|]. by apply (sm_private _ _ _ Hm). }
  split; intros *; rewrite ?Hb, ?Hbud, ?Hpr, ?Hc, ?Hnr, ?(sm_zone_id _ _ _ Hm), ?(sm_id _ _ _ Hm),
    ?(same_map_span _ _ _ _ Hm); try apply Hwf.
  - setoid_rewrite Hb. apply Hwf.
  - rewrite Hl. case_decide as Hd; [|apply NoDup_filter, Hwf]. constructor; [|apply NoDup_filter, Hwf].
    rewrite list_elem_of_filter. naive_solver.
  - rewrite !Hel. intros [[? H1]|(-> & -> & ->)] [[? H2]|(? & ? & ->)]; try done. by eapply (wf_one _ Hwf).
Qed.
