(* ===== verification/BuddyFree.v ===== *)
(** * Freeing pages: __free_one_page keeps the zone invariant

    The merging loop of [__free_one_page] is verified against [BuddyTheory.v]:
    the free set grows by exactly the freed block, the zone stays fully
    coalesced, and the accounting follows. *)

From S2P Require Import Prelude BuddyDefs BuddyTheory.

(** ** The list manipulations as block operations *)

Lemma on_page_eq z p f x :
  mem_map (on_page z p f) x = if x =? p then f (mem_map z p) else mem_map z x.
Proof. done. Qed.

Ltac same_map_tac :=
  split; intros; cbn; unfold page_zone_id, upd; cbn; unfold upd;
  repeat match goal with |- context [?a =? ?b] => destruct (Z.eqb_spec a b); subst; cbn end; done.

Lemma set_page_order_map z p o : same_map z (set_page_order z p o) p.
Proof. same_map_tac. Qed.

Lemma rmv_page_order_map z p : same_map z (rmv_page_order z p) p.
Proof. same_map_tac. Qed.

Lemma removed_block z p o :
  removed z (rmv_page_order (add_nr_free (list_del z p) o (-1)) p) p o.
Proof.
  split.
  - same_map_tac.
  - unfold PageBuddy. cbn. unfold upd. by rewrite !Z.eqb_refl.
  - done.
  - intros o'. cbn. by case_decide.
Qed.

Lemma added_block_with z p o mt l :
  l ≡ₚ p :: free_list z o mt ->
  added z (add_nr_free (set_list (set_page_order z p o) o mt l) o 1) p o mt.
Proof.
  intros Hl. split.
  - same_map_tac.
  - unfold PageBuddy. cbn. unfold upd. by rewrite !Z.eqb_refl.
  - cbn. unfold upd. by rewrite !Z.eqb_refl.
  - cbn. by rewrite decide_True.
  - intros o' mt' Hne. cbn. by rewrite decide_False.
  - intros o'. cbn. by case_decide.
Qed.

Lemma added_head z p o mt : added z (add_nr_free (list_add (set_page_order z p o) p o mt) o 1) p o mt.
Proof. by apply added_block_with. Qed.

Lemma added_tail z p o mt :
  added z (add_nr_free (list_add_tail (set_page_order z p o) p o mt) o 1) p o mt.
Proof. apply added_block_with. cbn. symmetry. apply Permutation_cons_append. Qed.

(** ** Compound pages *)

Lemma same_on_page z p f :
  (forall pg, pg_mapcount (f pg) = pg_mapcount pg /\ pg_private (f pg) = pg_private pg /\
              pg_zone_id (f pg) = pg_zone_id pg) ->
  same z (on_page z p f).
Proof.
  intros Hf. split; intros; try done; unfold page_zone_id; rewrite on_page_eq;
    destruct (Z.eqb_spec x p) as [->|]; try done; apply Hf.
Qed.

(** No inconsistency was counted, so nothing but flag bits changed. *)
Lemma destroy_tails_same p n : forall i bad z bad' z',
  destroy_tails n i p bad z = (bad', z') -> bad <= bad' /\ (bad' = bad -> same z z').
Proof.
  induction n as [|n IH]; intros i bad z bad' z'; cbn [destroy_tails]; [by intros [= -> ->]|].
  destruct (negb (PageTail z (p + i))) eqn:E1.
  { intros Heq. apply IH in Heq as [? _]. split; lia. }
  destruct (negb (pg_first (mem_map z (p + i)) =? p)) eqn:E2.
  { intros Heq. apply IH in Heq as [? _]. split; lia. }
  intros Heq. apply IH in Heq as [? Hs]. split; [done|]. intros He.
  etransitivity; [|by apply Hs]. by apply same_on_page.
Qed.

Lemma destroy_same z p o z' : destroy_compound_page z p o = (0, z') -> same z z'.
Proof.
  unfold destroy_compound_page. destruct (negb _).
  - intros Heq. apply destroy_tails_same in Heq as [? _]. lia.
  - intros Heq. apply destroy_tails_same in Heq as [_ Hs]. etransitivity; [|by apply Hs].
    by apply same_on_page.
Qed.

Lemma destroy_nr_free_pages_tails p n : forall i bad z,
  nr_free_pages (snd (destroy_tails n i p bad z)) = nr_free_pages z.
Proof.
  induction n as [|n IH]; intros i bad z; cbn [destroy_tails]; [done|].
  destruct (negb (PageTail z (p + i))); [by rewrite IH|].
  destruct (negb (pg_first (mem_map z (p + i)) =? p)); by rewrite IH.
Qed.

Lemma destroy_nr_free_pages z p o : nr_free_pages (snd (destroy_compound_page z p o)) = nr_free_pages z.
Proof. unfold destroy_compound_page. destruct (negb _); by rewrite destroy_nr_free_pages_tails. Qed.

(** ** The merging loop *)

Section merge.
Context (z0 : zone) (p0 : Z) (o0 : nat).

(** The block being freed is a hole of the current zone; together with the
    free blocks it makes up what is to become free. *)
Record merge_inv (s : merge_state) : Prop := {
  mi_wf : wf (m_zone s);
  mi_hole : hole (m_zone s) (m_page s) (m_order s);
  mi_idx : m_page_idx s = idx_of (m_page s);
  mi_order : (m_order s < MAX_ORDER)%nat;
  mi_max : (m_max_order s <= MAX_ORDER)%nat;
  mi_free : forall x, free_at (m_zone s) x \/ in_block (m_page s) (m_order s) x <->
                      free_at z0 x \/ in_block p0 o0 x;
  mi_total : total (m_zone s) + sz (m_order s) = total z0 + sz o0;
  mi_stat : nr_free_pages (m_zone s) = nr_free_pages z0 }.

Definition merge_post (s : merge_state) : Prop :=
  merge_inv s /\
  ((m_order s < MAX_ORDER - 1)%nat ->
     is_Some (m_buddy_idx s) /\ ~ blk (m_zone s) (buddy_of (m_page s) (m_order s)) (m_order s)).

Definition merge_measure (s : merge_state) : nat :=
  (MAX_ORDER - m_order s) + (MAX_ORDER - m_max_order s).

Lemma hole_zone_id z p o : wf z -> hole z p o -> page_zone_id z p = z_id z.
Proof. intros Hwf Hh. apply (wf_zone _ Hwf), (hole_span _ _ _ Hh). auto with buddy. Qed.

(** Absorbing the free buddy. *)
Lemma merge_hole z z' p o :
  removed z z' (buddy_of p o) o -> wf z -> blk z (buddy_of p o) o -> hole z p o ->
  hole z' (parent_of p o) (S o).
Proof.
  intros Hr Hwf Hb Hh. pose proof (removed_hole _ _ _ _ Hr Hwf Hb) as Hh'. split.
  - apply parent_nonneg; apply Hh.
  - apply parent_aligned, Hh.
  - intros x [Hx|Hx]%parent_split; [|by apply Hh'].
    rewrite (same_map_span _ _ _ _ (rm_map _ _ _ _ Hr)). by apply Hh.
  - intros x [Hx|Hx]%parent_split; [|by apply Hh'].
    rewrite (removed_free _ _ _ _ _ Hr Hwf Hb). intros [Hf _]. by apply (hole_free _ _ _ Hh x).
Qed.

Lemma merge_step_inv s :
  merge_inv s ->
  (exists s', merge_step s = Ok (inl s') /\ merge_inv s' /\ (merge_measure s' < merge_measure s)%nat) \/
  (exists s', merge_step s = Ok (inr s') /\ merge_post s').
Proof.
  intros [Hwf Hh Hidx Ho Hmax Hfree Htot Hst]. destruct s as [z p idx o mo bi]. cbn [m_zone m_page m_page_idx m_order m_max_order m_buddy_idx] in *. subst idx.
  unfold merge_step. destruct (Nat.ltb_spec o (mo - 1)) as [Hlt|Hge].
  - rewrite find_buddy, combined_parent, idx_parent by done.
    pose proof (page_is_buddy_spec z p (buddy_of p o) o Hwf (hole_zone_id _ _ _ Hwf Hh)) as Hpb.
    destruct (page_is_buddy z p (buddy_of p o) o); cbn [negb].
    + assert (Hb : blk z (buddy_of p o) o) by (by apply Hpb). left. eexists. split; [done|].
      pose proof (removed_block z (buddy_of p o) o) as Hr.
      split; [split; cbn [m_zone m_page m_page_idx m_order m_max_order]|].
      * by eapply removed_wf.
      * by eapply merge_hole.
      * done.
      * lia.
      * done.
      * intros x. rewrite (removed_free _ _ _ _ _ Hr Hwf Hb), parent_split, <- Hfree.
        pose proof (buddy_disjoint p o x).
        assert (in_block (buddy_of p o) o x -> free_at z x) by (intros; by exists (buddy_of p o), o).
        destruct (decide (buddy_of p o <= x < buddy_of p o + sz o)); unfold in_block in *; tauto.
      * rewrite (total_change z _ o (-1)); [rewrite sz_S; lia|done|].
        by apply (del_count z _ (buddy_of p o) o).
      * done.
      * unfold merge_measure. cbn [m_order m_max_order]. lia.
    + right. eexists. split; [done|]. split; [by split|]. cbn. intros _.
      split; [done|]. intros Hb. apply Hpb in Hb. done.
  - destruct (Nat.ltb_spec mo MAX_ORDER).
    + left. eexists. split; [done|]. split; [by split; cbn [m_zone m_page m_page_idx m_order m_max_order]; try lia|]. unfold merge_measure. cbn [m_order m_max_order]. lia.
    + right. eexists. split; [done|]. split; [by split|]. cbn [m_order]. lia.
Qed.

(** [done_merging:] puts the block on a list. *)
Lemma merge_done_spec s mt :
  merge_post s -> exists z', merge_done mt s = Ok z' /\ wf z' /\
    (forall x, free_at z' x <-> free_at z0 x \/ in_block p0 o0 x) /\
    total z' = total z0 + sz o0 /\ nr_free_pages z' = nr_free_pages z0.
Proof.
  intros [[Hwf Hh Hidx Ho Hmax Hfree Htot Hst] Hbud]. destruct s as [z p idx o mo bi]. cbn [m_zone m_page m_page_idx m_order m_max_order m_buddy_idx] in *.
  assert (Hadd : forall z', added z z' p o mt -> nr_free_pages z' = nr_free_pages z0 ->
    wf z' /\ (forall x, free_at z' x <-> free_at z0 x \/ in_block p0 o0 x) /\
    total z' = total z0 + sz o0 /\ nr_free_pages z' = nr_free_pages z0).
  { intros z' Ha Hn. split; [|split; [|split; [|done]]].
    - eapply added_wf; [done|done|done|done|]. intros Hlt. by apply Hbud.
    - intros x. by rewrite (added_free _ _ _ _ _ _ Ha).
    - rewrite (total_change z _ o 1); [lia|done|]. intros o'. by apply (added_count z z' p o mt). }
  unfold merge_done. destruct (Nat.ltb_spec o (MAX_ORDER - 2)).
  - destruct Hbud as [[b ->] _]; [lia|]. destruct (page_is_buddy _ _ _ _).
    + eexists. split; [done|]. apply Hadd; [apply added_tail|done].
    + eexists. split; [done|]. apply Hadd; [apply added_head|done].
  - eexists. split; [done|]. apply Hadd; [apply added_head|done].
Qed.
End merge.

Section free.
Context `{PAEnv}.

Lemma free_block_spec z page order mt :
  wf z -> hole z page order -> (order < MAX_ORDER)%nat ->
  (PageCompound z page = true -> fst (destroy_compound_page z page order) = 0) ->
  exists z', __free_one_page z page order mt = Ok z' /\ wf z' /\
    (forall x, free_at z' x <-> free_at z x \/ in_block page order x) /\
    total z' = total z + sz order /\
    nr_free_pages z' = nr_free_pages z + sz order.
Proof.
  intros Hwf Hh Ho Hcomp. unfold __free_one_page.
  set (d := if PageCompound z page then destroy_compound_page z page order else (0, z)).
  assert (Hd : fst d = 0 /\ same z (snd d) /\ nr_free_pages (snd d) = nr_free_pages z).
  { subst d. destruct (PageCompound z page); [|done]. specialize (Hcomp eq_refl).
    split; [done|]. split; [|apply destroy_nr_free_pages].
    apply (destroy_same z page order). rewrite <- Hcomp. by destruct (destroy_compound_page z page order). }
  destruct d as [bad z1]. cbn in Hd. destruct Hd as (-> & Hs & Hn). cbn [Z.eqb negb].
  set (z2 := __mod_zone_freepage_state z1 (2 ^ Z.of_nat order)).
  assert (Hs2 : same z z2) by (etransitivity; [exact Hs|by split]).
  destruct (loop_total merge_step (merge_inv z2 page order) (merge_post z2 page order) merge_measure)
    with (fuel := MERGE_FUEL) (s := mkMerge z2 page (idx_of page) order (Nat.min MAX_ORDER (pageblock_order + 1)) None)
    as (s & Hloop & Hpost).
  - apply merge_step_inv.
  - split; cbn [m_zone m_page m_page_idx m_order m_max_order]; try done.
    + by eapply wf_same.
    + by eapply hole_same.
    + lia.
  - unfold merge_measure, MERGE_FUEL, MAX_ORDER. cbn [m_order m_max_order]. lia.
  - change (Z.land page (2 ^ Z.of_nat MAX_ORDER - 1)) with (idx_of page). rewrite Hloop, res_bind_ok.
    destruct (merge_done_spec z2 page order s mt Hpost) as (z' & Heq & Hwf' & Hfree & Htot & Hst).
    exists z'. split; [done|]. split; [done|]. split.
    + intros x. by rewrite Hfree, (same_free _ _ _ Hs2).
    + rewrite Htot, (same_total _ _ Hs2), Hst. split; [done|]. unfold z2. cbn. by rewrite Hn.
Qed.

(** C2.  [__free_one_page] on a block of the zone none of whose pages is free
    terminates without using its uninitialised [buddy_idx], keeps the zone
    invariant (lists, page flags, alignment, disjointness, counters, full
    coalescing), makes exactly the pages of the block free, and both the
    free-page statistic and the pages on the lists grow by the block size. *)
Theorem __free_one_page_correct z page order mt :
  wf z -> hole z page order -> (order < MAX_ORDER)%nat ->
  (PageCompound z page = true -> fst (destroy_compound_page z page order) = 0) ->
  exists z', __free_one_page z page order mt = Ok z' /\ wf z' /\
    (forall x, free_at z' x <-> free_at z x \/ in_block page order x) /\
    total z' = total z + sz order /\
    nr_free_pages z' = nr_free_pages z + sz order.
Proof. apply free_block_spec. Qed.
End free.
