(* ===== verification/BuddyAlloc.v ===== *)
(** * Allocating pages: __rmqueue and the functions below it

    Splitting a block ([expand]), best fit within a migrate type
    ([__rmqueue_smallest]), stealing from other types ([__rmqueue_fallback])
    and the combination [__rmqueue]: what is returned was free, is aligned, is
    removed from the free set exactly, and failure means that nothing suitable
    is free. *)

From S2P Require Import Prelude BuddyDefs BuddyTheory BuddyFree.

(** [z'] is [z] with the block [(p, o)] taken out of its free set. *)
Record taken (z z' : zone) (p : Z) (o : nat) : Prop := {
  tk_wf : wf z';
  tk_hole : hole z' p o;
  tk_was_free : forall x, in_block p o x -> free_at z x;
  tk_free : forall x, free_at z' x <-> free_at z x /\ ~ in_block p o x;
  tk_total : total z' = total z - sz o;
  tk_stat : nr_free_pages z' = nr_free_pages z }.

Lemma hole_sub z p o q o' :
  hole z p o -> 0 <= q -> (sz o' | q) -> (forall x, in_block q o' x -> in_block p o x) -> hole z q o'.
Proof. intros Hh Hq Ha Hsub. split; try done; intros x Hx; apply Hh; auto. Qed.

(** ** Splitting *)

Lemma expand_spec page low mt : forall n z,
  wf z -> hole z page (low + n) -> (low + n < MAX_ORDER)%nat ->
  let z' := expand n z page low mt in
  wf z' /\ hole z' page low /\
  (forall x, free_at z' x <-> free_at z x \/ (in_block page (low + n) x /\ ~ in_block page low x)) /\
  total z' = total z + sz (low + n) - sz low /\ nr_free_pages z' = nr_free_pages z.
Proof.
  induction n as [|n IH]; intros z Hwf Hh Ho; cbn zeta.
  { rewrite Nat.add_0_r in *. cbn. split_and!; try done; [|lia]. intros x. tauto. }
  rewrite Nat.add_succ_r in *. set (h := (low + n)%nat) in *. cbn [expand]. fold h. fold (sz h).
  pose proof (sz_pos h). pose proof (sz_S h) as HS. pose proof (hole_nonneg _ _ _ Hh).
  set (z1 := set_page_order _ _ _).
  assert (Ha : added z z1 (page + sz h) h mt) by apply added_head.
  assert (Hup : forall x, in_block page (S h) x <-> in_block page h x \/ in_block (page + sz h) h x)
    by (intros x; unfold in_block; lia).
  assert (Hh1 : hole z (page + sz h) h).
  { eapply hole_sub; [exact Hh|lia| |intros; apply Hup; by right].
    destruct (hole_aligned _ _ _ Hh) as [k ->]. exists (2 * k + 1). lia. }
  assert (Hwf1 : wf z1).
  { eapply added_wf; [exact Ha|done|done|lia|]. intros _. rewrite buddy_upper by apply Hh.
    by eapply hole_not_blk. }
  assert (Hh2 : hole z1 page h).
  { split.
    - done.
    - destruct (hole_aligned _ _ _ Hh) as [k ->]. exists (2 * k). lia.
    - intros x Hx. rewrite (same_map_span _ _ _ _ (ad_map _ _ _ _ _ Ha)). apply Hh, Hup. by left.
    - intros x Hx. rewrite (added_free _ _ _ _ _ _ Ha). intros [Hf|Hf].
      + apply (hole_free _ _ _ Hh x); [apply Hup; by left|done].
      + unfold in_block in *. lia. }
  destruct (IH z1 Hwf1 Hh2) as (Hwf' & Hh' & Hf & Ht & Hn); [lia|]. split_and!; try done.
  - intros x. rewrite Hf, (added_free _ _ _ _ _ _ Ha), Hup.
    assert (in_block (page + sz h) h x -> ~ in_block page low x).
    { unfold in_block. assert (sz low <= sz h); [|lia]. apply Z.pow_le_mono_r; lia. }
    tauto.
  - rewrite Ht, (total_change z z1 h 1); [lia|lia|]. intros o'. by apply (added_count z z1 (page + sz h) h mt).
Qed.

Lemma same_set_index z p mt : same z (set_freepage_migratetype z p mt).
Proof. by apply same_on_page. Qed.

(** Removing a block of order [cur] and splitting it down to [order]. *)
Lemma take_spec z z1 p order cur mt :
  removed z z1 p cur -> nr_free_pages z1 = nr_free_pages z ->
  wf z -> blk z p cur -> (order <= cur)%nat ->
  taken z (set_freepage_migratetype (expand (cur - order) z1 p order mt) p mt) p order.
Proof.
  intros Hr Hn Hwf Hb Hle. pose proof (wf_order _ Hwf _ _ Hb) as Hlt.
  destruct (expand_spec p order mt (cur - order) z1) as (Hwf' & Hh' & Hf' & Ht' & Hn').
  { by eapply removed_wf. }
  { replace (order + (cur - order))%nat with cur by lia. by eapply removed_hole. }
  { lia. }
  replace (order + (cur - order))%nat with cur in * by lia.
  pose proof (same_set_index (expand (cur - order) z1 p order mt) p mt) as Hs.
  assert (Hsub : forall x, in_block p order x -> in_block p cur x).
  { unfold in_block. assert (sz order <= sz cur); [|lia]. apply Z.pow_le_mono_r; lia. }
  split.
  - by eapply wf_same.
  - by eapply hole_same.
  - intros x Hx. exists p, cur. auto.
  - intros x. rewrite (same_free _ _ _ Hs), Hf', (removed_free _ _ _ _ _ Hr Hwf Hb).
    assert (in_block p cur x -> free_at z x) by (intros; by exists p, cur).
    specialize (Hsub x). destruct (decide (p <= x < p + sz cur)); unfold in_block in *; tauto.
  - rewrite (same_total _ _ Hs), Ht', (total_change z z1 cur (-1)); [lia|done|].
    by apply (del_count z z1 p cur Hwf Hb (rm_list _ _ _ _ Hr)).
  - change (nr_free_pages (expand (cur - order) z1 p order mt) = nr_free_pages z). congruence.
Qed.

(** ** Best fit *)

(** The outcome of [__rmqueue_smallest]: the head of the first non-empty list
    of the type at or above the order, or nothing when all are empty. *)
Definition smallest_out (z : zone) (order : nat) (mt : migratetype) (out : option Z * zone) : Prop :=
  match out with
  | (Some p, z') => taken z z' p order /\
      exists cur, (order <= cur < MAX_ORDER)%nat /\ head (free_list z cur mt) = Some p /\
        forall o, (order <= o < cur)%nat -> free_list z o mt = []
  | (None, z') => z' = z /\ forall o, (order <= o < MAX_ORDER)%nat -> free_list z o mt = []
  end.

Lemma smallest_from_spec order mt z : wf z -> forall n cur,
  (order <= cur)%nat -> (cur + n = MAX_ORDER)%nat ->
  (forall o, (order <= o < cur)%nat -> free_list z o mt = []) ->
  smallest_out z order mt (smallest_from n cur z order mt).
Proof.
  intros Hwf. induction n as [|n IH]; intros cur Hle Hn Hlow; cbn [smallest_from].
  { split; [done|]. intros o Ho. apply Hlow. lia. }
  destruct (free_list z cur mt) as [|p l] eqn:E.
  - apply IH; [lia|lia|]. intros o Ho. destruct (decide (o = cur)) as [->|]; [done|]. apply Hlow. lia.
  - split; [|exists cur; rewrite E; split_and!; [lia..|done|done]].
    apply take_spec; [apply removed_block|done|done| |done]. exists mt. rewrite E. by left.
Qed.

Lemma smallest_spec z order mt :
  wf z -> (order < MAX_ORDER)%nat -> smallest_out z order mt (__rmqueue_smallest z order mt).
Proof. intros Hwf Ho. apply smallest_from_spec; [done|done|lia|lia]. Qed.

(** ** Moving blocks between migrate types *)

(** Same blocks, possibly on other lists. *)
Record rearranged (z z' : zone) : Prop := {
  ra_wf : wf z';
  ra_blk : forall p o, blk z' p o <-> blk z p o;
  ra_count : forall o, count z' o = count z o;
  ra_spans : forall x, zone_spans_pfn z' x = zone_spans_pfn z x;
  ra_stat : nr_free_pages z' = nr_free_pages z }.

Lemma rearranged_refl z : wf z -> rearranged z z.
Proof. done. Qed.

Lemma rearranged_trans z1 z2 z3 : rearranged z1 z2 -> rearranged z2 z3 -> rearranged z1 z3.
Proof.
  intros H1 H2. split.
  - apply H2.
  - intros p o. rewrite (ra_blk _ _ H2). apply H1.
  - intros o. rewrite (ra_count _ _ H2). apply H1.
  - intros x. rewrite (ra_spans _ _ H2). apply H1.
  - rewrite (ra_stat _ _ H2). apply H1.
Qed.

Lemma rearranged_same z z' :
  wf z -> same z z' -> nr_free_pages z' = nr_free_pages z -> rearranged z z'.
Proof.
  intros Hwf Hs Hn. split; [by eapply wf_same| | | |done].
  - intros. by apply same_blk.
  - intros. by apply same_count.
  - intros. by apply same_spans.
Qed.

Lemma rearranged_move z p o mt :
  wf z -> blk z p o -> rearranged z (set_freepage_migratetype (list_move z p o mt) p mt).
Proof.
  intros Hwf Hb. destruct (moved_wf z (list_move z p o mt) p o mt) as (Hwf' & Hb' & Hc'); try done.
  eapply rearranged_trans; [|apply rearranged_same; [done|apply same_set_index|done]]. by split.
Qed.

Lemma move_freepages_spec z s e mt :
  wf z -> (forall x, s <= x <= e -> zone_spans_pfn z x = true) ->
  exists n z', move_freepages z s e mt = Ok (n, z') /\ rearranged z z'.
Proof.
  intros Hwf Hspan. unfold move_freepages.
  destruct (loop_total (move_step e mt)
    (fun '(page, _, zc) => s <= page /\ rearranged z zc) (fun '(_, z') => rearranged z z')
    (fun '(page, _, _) => Z.to_nat (e + 1 - page)))
    with (fuel := (Z.to_nat (e - s + 1) + 1)%nat) (s := (s, 0, z)) as ([n z'] & -> & Hr).
  - intros [[page moved] zc] [Hs Hr]. unfold move_step. destruct (Z.leb_spec page e); [|right; eauto].
    left. destruct (PageBuddy zc page) eqn:Eb; cbn [negb].
    + destruct (wf_listed _ (ra_wf _ _ Hr) page Eb) as [o Hb].
      { apply (wf_zone _ (ra_wf _ _ Hr)). rewrite (ra_spans _ _ Hr). apply Hspan. lia. }
      assert (Ho : page_order zc page = o)
        by (unfold page_order; destruct (wf_buddy _ (ra_wf _ _ Hr) _ _ Hb) as [_ ->]; lia).
      rewrite Ho. pose proof (sz_pos o). fold (sz o). eexists. split; [done|]. split; [split; [lia|]|lia].
      eapply rearranged_trans; [exact Hr|]. apply rearranged_move; [apply Hr|done].
    + eexists. split; [done|]. split; [split; [lia|done]|lia].
  - split; [lia|by apply rearranged_refl].
  - lia.
  - eauto.
Qed.

Section alloc.
Context `{PAEnv}.

Lemma same_block_type z p mt : same z (set_pageblock_migratetype z p mt).
Proof. done. Qed.

Lemma change_range_same n mt : forall z p,
  same z (change_pageblock_range n z p mt) /\
  nr_free_pages (change_pageblock_range n z p mt) = nr_free_pages z.
Proof.
  induction n as [|n IH]; intros z p; cbn [change_pageblock_range]; [done|].
  destruct (IH (set_pageblock_migratetype z p mt) (p + pageblock_nr_pages)) as [Hs Hn].
  split; [|by rewrite Hn]. etransitivity; [apply same_block_type|exact Hs].
Qed.

Lemma spans_between z a b x :
  zone_spans_pfn z a = true -> zone_spans_pfn z b = true -> a <= x <= b -> zone_spans_pfn z x = true.
Proof. unfold zone_spans_pfn. lia. Qed.

Lemma steal_spec z p o mt :
  wf z -> blk z p o -> exists z', try_to_steal_freepages z p mt = Ok z' /\ rearranged z z'.
Proof.
  intros Hwf Hb. unfold try_to_steal_freepages.
  destruct (pageblock_order <=? page_order z p)%nat.
  { eexists. split; [done|]. destruct (change_range_same (2 ^ (page_order z p - pageblock_order)) mt z p).
    by apply rearranged_same. }
  destruct (_ || _); [|eexists; split; [done|by apply rearranged_refl]].
  assert (Hmb : exists n z1, move_freepages_block z p mt = Ok (n, z1) /\ rearranged z z1).
  { unfold move_freepages_block. set (s := Z.land p _).
    destruct (zone_spans_pfn z (s + pageblock_nr_pages - 1)) eqn:Ee; cbn [negb].
    2:{ eexists _, _. split; [done|by apply rearranged_refl]. }
    apply move_freepages_spec; [done|]. intros x Hx.
    destruct (zone_spans_pfn z s) eqn:Es; cbn [negb] in Hx.
    - eapply (spans_between z s); [exact Es|exact Ee|exact Hx].
    - eapply (spans_between z p); [|exact Ee|exact Hx]. apply (wf_span _ Hwf p o); auto with buddy. }
  destruct Hmb as (n & z1 & -> & Hr). rewrite res_bind_ok. destruct (_ || _).
  - eexists. split; [done|]. eapply rearranged_trans; [exact Hr|].
    apply rearranged_same; [apply Hr|apply same_block_type|done].
  - eexists. split; [done|done].
Qed.

(** The decrement of [nr_free] before stealing commutes with stealing. *)
Lemma move_freepages_nr z s e mt c d :
  move_freepages (add_nr_free z c d) s e mt =
  ('(n, z') ← move_freepages z s e mt; Ok (n, add_nr_free z' c d)).
Proof.
  unfold move_freepages. generalize (Z.to_nat (e - s + 1) + 1)%nat. intros fuel.
  generalize 0. revert z s. induction fuel as [|fuel IH]; intros z s m; [done|]. cbn [loop].
  unfold move_step at 1 3. destruct (s <=? e); [|done].
  change (PageBuddy (add_nr_free z c d) s) with (PageBuddy z s).
  destruct (negb (PageBuddy z s)); [apply IH|].
  change (page_order (add_nr_free z c d) s) with (page_order z s).
  apply (IH (set_freepage_migratetype (list_move z s (page_order z s) mt) s mt)).
Qed.

Lemma change_range_nr n mt c d : forall z p,
  change_pageblock_range n (add_nr_free z c d) p mt = add_nr_free (change_pageblock_range n z p mt) c d.
Proof. induction n as [|n IH]; intros z p; cbn [change_pageblock_range]; [done|]. by rewrite <- IH. Qed.

Lemma steal_nr z p mt c d :
  try_to_steal_freepages (add_nr_free z c d) p mt =
  (z' ← try_to_steal_freepages z p mt; Ok (add_nr_free z' c d)).
Proof.
  unfold try_to_steal_freepages. change (page_order (add_nr_free z c d) p) with (page_order z p).
  destruct (pageblock_order <=? page_order z p)%nat; [by rewrite change_range_nr, res_bind_ok|].
  destruct (_ || _); [|done].
  assert (Hmb : move_freepages_block (add_nr_free z c d) p mt =
            ('(n, z') ← move_freepages_block z p mt; Ok (n, add_nr_free z' c d))).
  { unfold move_freepages_block.
    change (zone_spans_pfn (add_nr_free z c d)) with (zone_spans_pfn z).
    destruct (negb (zone_spans_pfn z (_ + _ - 1))); [done|]. apply move_freepages_nr. }
  rewrite Hmb. destruct (move_freepages_block z p mt) as [[n z']| |]; [|done|done].
  rewrite !res_bind_ok. by destruct (_ || _).
Qed.

(** ** Fallback *)

Lemma fallback_list_spec z o mts :
  match fallback_list z o mts with
  | Some p => blk z p o
  | None => forall mt, mt ∈ mts -> free_list z o mt = []
  end.
Proof.
  induction mts as [|mt mts IH]; cbn; [by intros mt ?%not_elem_of_nil|].
  destruct (free_list z o mt) as [|p l] eqn:E.
  - destruct (fallback_list z o mts); [done|]. intros mt' [->|?]%elem_of_cons; auto.
  - exists mt. rewrite E. by left.
Qed.

Lemma rearranged_free z z' x : rearranged z z' -> free_at z' x <-> free_at z x.
Proof. intros Hr. unfold free_at. by setoid_rewrite (ra_blk _ _ Hr). Qed.

Lemma rearranged_total z z' : rearranged z z' -> total z' = total z.
Proof. intros Hr. apply sumZ_ext. intros o _. by rewrite (ra_count _ _ Hr). Qed.

Lemma fallback_take_spec z p order cur mt :
  wf z -> blk z p cur -> (order <= cur)%nat ->
  exists z', fallback_take z p order cur mt = Ok (Some p, z') /\ taken z z' p order.
Proof.
  intros Hwf Hb Hle. unfold fallback_take. rewrite steal_nr.
  destruct (steal_spec z p cur mt Hwf Hb) as (z2 & -> & Hr). rewrite !res_bind_ok.
  eexists. split; [done|].
  destruct (take_spec z2 (rmv_page_order (add_nr_free (list_del z2 p) cur (-1)) p) p order cur mt)
    as [? ? Hwas Hfree Htot Hst]; [apply removed_block|done|apply Hr|by apply Hr|done|].
  split; try done.
  - intros x Hx. rewrite <- (rearranged_free _ _ _ Hr). auto.
  - intros x. by rewrite <- (rearranged_free _ _ _ Hr).
  - by rewrite <- (rearranged_total _ _ Hr).
  - etransitivity; [exact Hst|apply Hr].
Qed.

Lemma fallback_from_spec z order mt : wf z -> forall n, (order + n <= MAX_ORDER)%nat ->
  exists r z', fallback_from n z order mt = Ok (r, z') /\
    match r with
    | Some p => taken z z' p order
    | None => z' = z /\ forall o mt', (order <= o < order + n)%nat -> mt' ∈ fallbacks mt -> free_list z o mt' = []
    end.
Proof.
  intros Hwf. induction n as [|n IH]; intros Hn; cbn [fallback_from].
  { eexists _, _. split; [done|]. split; [done|]. lia. }
  pose proof (fallback_list_spec z (order + n) (fallbacks mt)) as Hl.
  destruct (fallback_list z (order + n) (fallbacks mt)) as [p|].
  - destruct (fallback_take_spec z p order (order + n) mt Hwf Hl) as (z' & -> & Ht); [lia|].
    by exists (Some p), z'.
  - destruct IH as (r & z' & -> & Hr); [lia|]. exists r, z'. split; [done|]. destruct r; [done|].
    destruct Hr as [-> Hr]. split; [done|]. intros o mt' Ho Hmt.
    destruct (decide (o = order + n)%nat) as [->|]; [by apply Hl|]. apply Hr; [lia|done].
Qed.

Lemma fallbacks_all mt mt' :
  mt <> MIGRATE_RESERVE -> mt' = mt \/ mt' ∈ fallbacks mt \/ mt' = MIGRATE_RESERVE.
Proof. destruct mt, mt'; intros; try done; cbn; rewrite ?elem_of_cons; tauto. Qed.

(** ** __rmqueue *)

Lemma rmqueue_spec z order mt :
  wf z -> (order < MAX_ORDER)%nat ->
  exists r z', __rmqueue z order mt = Ok (r, z') /\
    match r with
    | Some p => taken z z' p order
    | None => z' = z /\
        if decide (mt = MIGRATE_RESERVE)
        then forall o, (order <= o)%nat -> free_list z o MIGRATE_RESERVE = []
        else forall p o, (order <= o)%nat -> ~ blk z p o
    end.
Proof.
  intros Hwf Ho. unfold __rmqueue. pose proof (smallest_spec z order mt Hwf Ho) as H1.
  assert (Hhigh : forall o mt', (MAX_ORDER <= o)%nat -> free_list z o mt' = []).
  { intros o mt' Hge. destruct (free_list z o mt') as [|p l] eqn:E; [done|].
    assert (Hb : blk z p o) by (exists mt'; rewrite E; by left). apply (wf_order _ Hwf) in Hb. lia. }
  destruct (__rmqueue_smallest z order mt) as [[p|] z1]; [destruct H1 as [H1 _]; by exists (Some p), z1|].
  destruct H1 as [-> H1]. destruct (bool_decide_reflect (mt = MIGRATE_RESERVE)) as [->|Hne].
  { exists None, z. split; [done|]. split; [done|]. rewrite decide_True by done. intros o Hle.
    destruct (decide (o < MAX_ORDER)%nat); [apply H1; lia|apply Hhigh; lia]. }
  destruct (fallback_from_spec z order mt Hwf (MAX_ORDER - order)) as (r & z2 & Heq & Hr); [lia|].
  unfold __rmqueue_fallback. rewrite Heq, res_bind_ok. destruct r as [p|]; [by exists (Some p), z2|].
  destruct Hr as [-> Hr]. pose proof (smallest_spec z order MIGRATE_RESERVE Hwf Ho) as H3.
  destruct (__rmqueue_smallest z order MIGRATE_RESERVE) as [[p|] z3];
    [destruct H3 as [H3 _]; by exists (Some p), z3|].
  destruct H3 as [-> H3]. exists None, z. split; [done|]. split; [done|]. rewrite decide_False by done.
  intros p o Hle [mt' Hp]. destruct (decide (o < MAX_ORDER)%nat).
  - assert (E : free_list z o mt' = []); [|by rewrite E in Hp; apply not_elem_of_nil in Hp].
    destruct (fallbacks_all mt mt' Hne) as [->|[Hf| ->]]; [apply H1|apply Hr|apply H3]; done || lia.
  - rewrite Hhigh in Hp by lia. by apply not_elem_of_nil in Hp.
Qed.

(** C7.  [__rmqueue] keeps the zone invariant.  When it returns a page, the
    block of the requested order at that page is aligned and lies in the zone,
    all of it was free, and exactly it leaves the free set.  When it returns
    NULL the zone is unchanged and, unless the MIGRATE_RESERVE lists were asked
    for directly, no free block of that order or above exists. *)
Theorem __rmqueue_correct z order mt :
  wf z -> (order < MAX_ORDER)%nat ->
  exists r z', __rmqueue z order mt = Ok (r, z') /\
    match r with
    | Some p => taken z z' p order
    | None => z' = z /\
        if decide (mt = MIGRATE_RESERVE)
        then forall o, (order <= o)%nat -> free_list z o MIGRATE_RESERVE = []
        else forall p o, (order <= o)%nat -> ~ blk z p o
    end.
Proof. apply rmqueue_spec. Qed.

(** [__rmqueue_smallest] is a best fit within the migrate type: it takes
    the head of the list of the smallest sufficient order that is not empty,
    and fails, changing nothing, only if all those lists are empty. *)
Theorem __rmqueue_smallest_best_fit z order mt :
  wf z -> (order < MAX_ORDER)%nat ->
  match __rmqueue_smallest z order mt with
  | (Some p, z') => taken z z' p order /\
      exists cur, (order <= cur < MAX_ORDER)%nat /\ head (free_list z cur mt) = Some p /\
        forall o, (order <= o < cur)%nat -> free_list z o mt = []
  | (None, z') => z' = z /\ forall o, (order <= o < MAX_ORDER)%nat -> free_list z o mt = []
  end.
Proof. apply smallest_spec. Qed.

(** C37.  Allocating a block and freeing it again restores the free set, the
    page count and the invariant. *)
Theorem rmqueue_free_roundtrip z z1 order mt mt' p :
  wf z -> (order < MAX_ORDER)%nat -> __rmqueue z order mt = Ok (Some p, z1) ->
  PageCompound z1 p = false ->
  exists z2, __free_one_page z1 p order mt' = Ok z2 /\ wf z2 /\
    (forall x, free_at z2 x <-> free_at z x) /\ total z2 = total z.
Proof.
  intros Hwf Ho Heq Hc. destruct (rmqueue_spec z order mt Hwf Ho) as (r & z' & Heq' & Hr).
  rewrite Heq in Heq'. injection Heq' as <- <-. destruct Hr as [Hwf1 Hh Hwas Hfree Htot Hst].
  destruct (free_block_spec z1 p order mt' Hwf1 Hh Ho) as (z2 & -> & Hwf2 & Hf2 & Ht2 & _);
    [by rewrite Hc|].
  exists z2. split_and!; try done; [|lia]. intros x. rewrite Hf2, Hfree. specialize (Hwas x).
  destruct (decide (p <= x < p + sz order)); unfold in_block in *; tauto.
Qed.
End alloc.
