(* ===== verification/PcpDefs.v ===== *)
(** * Page allocator front end: per-cpu lists, checks, watermarks

    The functions of mm/page_alloc.c between the buddy lists and the callers
    of the allocator, on one cpu with interrupts off: checking and preparing
    pages, the per-cpu page lists of a zone, bulk transfer between them and
    the buddy lists, splitting, isolation and the watermark test. *)

From S2P Require Import Prelude BuddyDefs.

(** ** Page checks *)

(** What depends on the build: the number of page flags and the mask bits of
    PG_hwpoison and PG_compound_lock; the memory controller's page check. *)
Class PageEnv := {
  NR_PAGEFLAGS : Z;
  __PG_HWPOISON : Z;
  __PG_COMPOUND_LOCK : Z;
  mem_cgroup_bad_page_check : Z -> bool }.

(** PG_lru, PG_locked, PG_private, PG_private_2, PG_writeback, PG_reserved,
    PG_slab, PG_swapcache, PG_active, PG_unevictable, PG_mlocked. *)
Definition CHECK_AT_FREE_BITS : list Z := [5; 0; 11; 12; 13; 10; 7; 16; 6; 20; 21].

Definition bits_mask (bs : list Z) : Z := foldr (fun b m => Z.lor (Z.shiftl 1 b) m) 0 bs.

Definition page_mapcount (pg : page) : Z := pg_mapcount pg + 1.
Definition PAGE_MAPPING_ANON : Z := 1.
Definition PageAnon (pg : page) : bool := negb (Z.land (pg_mapping pg) PAGE_MAPPING_ANON =? 0).

Section Checks.
Context `{PageEnv}.

Definition PAGE_FLAGS_CHECK_AT_FREE : Z :=
  Z.lor (bits_mask CHECK_AT_FREE_BITS) (Z.lor __PG_HWPOISON __PG_COMPOUND_LOCK).
Definition PAGE_FLAGS_CHECK_AT_PREP : Z := Z.shiftl 1 NR_PAGEFLAGS - 1.

Definition bad_at_free (z : zone) (p : Z) : bool :=
  let pg := mem_map z p in
  negb (page_mapcount pg =? 0) || negb (pg_mapping pg =? 0) || negb (pg_count pg =? 0)
  || negb (Z.land (pg_flags pg) PAGE_FLAGS_CHECK_AT_FREE =? 0) || mem_cgroup_bad_page_check p.

(** [free_pages_check]: 1 for a bad page. *)
Definition free_pages_check (z : zone) (p : Z) : Z * zone :=
  let pg := mem_map z p in
  if bad_at_free z p then (1, bad_page z p)
  else if negb (Z.land (pg_flags pg) PAGE_FLAGS_CHECK_AT_PREP =? 0)
  then (0, on_page z p (fun pg => with_flags pg (Z.ldiff (pg_flags pg) PAGE_FLAGS_CHECK_AT_PREP)))
  else (0, z).

Definition bad_at_prep (z : zone) (p : Z) : bool :=
  let pg := mem_map z p in
  negb (page_mapcount pg =? 0) || negb (pg_mapping pg =? 0) || negb (pg_count pg =? 0)
  || negb (Z.land (pg_flags pg) PAGE_FLAGS_CHECK_AT_PREP =? 0) || mem_cgroup_bad_page_check p.

Definition check_new_page (z : zone) (p : Z) : Z * zone :=
  if bad_at_prep z p then (1, bad_page z p) else (0, z).

(** [for (i = 0; i < (1 << order); i++) bad += free_pages_check(page + i);] *)
Fixpoint check_free_range (n : nat) (p : Z) (bad : Z) (z : zone) : Z * zone :=
  match n with
  | O => (bad, z)
  | S n => let '(b, z) := free_pages_check z p in check_free_range n (p + 1) (bad + b) z
  end.

Definition free_pages_prepare (z : zone) (p : Z) (order : nat) : bool * zone :=
  let z := if PageAnon (mem_map z p)
           then on_page z p (fun pg => mkPage (pg_mapcount pg) (pg_private pg) (pg_index pg)
                  (pg_zone_id pg) (pg_count pg) 0 (pg_flags pg) (pg_first pg) (pg_lru_prev pg))
           else z in
  let '(bad, z) := check_free_range (2 ^ order) p 0 z in
  (bad =? 0, z).

(** The loop over the new pages stops at the first bad one. *)
Fixpoint check_new_range (n : nat) (p : Z) (z : zone) : Z * zone :=
  match n with
  | O => (0, z)
  | S n =>
      let '(b, z) := check_new_page z p in
      if negb (b =? 0) then (1, z) else check_new_range n (p + 1) z
  end.

(** [gfp_comp] is [gfp_flags & __GFP_COMP]; zeroing the contents is not
    modelled. *)
Definition prep_new_page (z : zone) (p : Z) (order : nat) (gfp_comp : bool) : Z * zone :=
  let '(b, z) := check_new_range (2 ^ order) p z in
  if negb (b =? 0) then (1, z)
  else
    let z := set_page_private z p 0 in
    let z := on_page z p (fun pg => with_count pg 1) in
    let z := if negb (order =? 0)%nat && gfp_comp then prep_compound_page z p order else z in
    (0, z).

(** ** Per-cpu lists *)

Record per_cpu_pages := mkPcp {
  pc_count : Z;
  pc_high : Z;
  pc_batch : Z;
  pc_lists : migratetype -> list Z }.

Definition with_pcp_count (pc : per_cpu_pages) (c : Z) : per_cpu_pages :=
  mkPcp c (pc_high pc) (pc_batch pc) (pc_lists pc).
Definition with_pcp_list (pc : per_cpu_pages) (mt : migratetype) (l : list Z) : per_cpu_pages :=
  mkPcp (pc_count pc) (pc_high pc) (pc_batch pc)
    (fun mt' => if decide (mt' = mt) then l else pc_lists pc mt').

(** [if (++migratetype == MIGRATE_PCPTYPES) migratetype = 0;] *)
Definition next_pcptype (mt : migratetype) : migratetype :=
  match mt with
  | MIGRATE_UNMOVABLE => MIGRATE_RECLAIMABLE
  | MIGRATE_RECLAIMABLE => MIGRATE_MOVABLE
  | _ => MIGRATE_UNMOVABLE
  end.

(** The search for a non-empty list; the state is [(batch_free, migratetype)]. *)
Definition scan_step (pc : per_cpu_pages) : Z * migratetype -> res (Z * migratetype + Z * migratetype) :=
  fun '(batch_free, mt) =>
  let batch_free := batch_free + 1 in
  let mt := next_pcptype mt in
  match pc_lists pc mt with
  | [] => Ok (inl (batch_free, mt))
  | _ => Ok (inr (batch_free, mt))
  end.

Section Env.
Context `{PAEnv}.

(** The locals of [free_pcppages_bulk]. *)
Record bulk_state := mkBulk {
  b_zone : zone; b_pcp : per_cpu_pages; b_mt : migratetype; b_batch : Z; b_to_free : Z }.

(** The inner [do]: frees the last page of the list. *)
Definition bulk_free_step (s : bulk_state) : res (bulk_state + bulk_state) :=
  let '(mkBulk z pc mt batch_free to_free) := s in
  match last (pc_lists pc mt) with
  | None => Fault
  | Some page =>
      let pc := with_pcp_list pc mt (removelast (pc_lists pc mt)) in
      z ← __free_one_page z page 0 (get_freepage_migratetype z page);
      let to_free := to_free - 1 in
      if to_free =? 0 then Ok (inr (mkBulk z pc mt batch_free to_free)) else
      let batch_free := batch_free - 1 in
      let s := mkBulk z pc mt batch_free to_free in
      if batch_free =? 0 then Ok (inr s) else
      match pc_lists pc mt with
      | [] => Ok (inr s)
      | _ => Ok (inl s)
      end
  end.

(** The outer [while (to_free)]. *)
Definition bulk_step (s : bulk_state) : res (bulk_state + bulk_state) :=
  let '(mkBulk z pc mt batch_free to_free) := s in
  if to_free =? 0 then Ok (inr s)
  else
    '(batch_free, mt) ← loop 4 (scan_step pc) (batch_free, mt);
    let batch_free := if batch_free =? 3 then to_free else batch_free in
    s ← loop (S (Z.to_nat to_free)) bulk_free_step (mkBulk z pc mt batch_free to_free);
    Ok (inl s).

Definition free_pcppages_bulk (z : zone) (count : Z) (pc : per_cpu_pages)
    : res (zone * per_cpu_pages) :=
  s ← loop (S (Z.to_nat count)) bulk_step (mkBulk z pc MIGRATE_UNMOVABLE 0 count);
  Ok (b_zone s, b_pcp s).

Definition free_one_page (z : zone) (p : Z) (order : nat) (mt : migratetype) : res zone :=
  __free_one_page z p order mt.

Definition __free_pages_ok (z : zone) (p : Z) (order : nat) : res zone :=
  let '(ok, z) := free_pages_prepare z p order in
  if negb ok then Ok z
  else
    let mt := get_pageblock_migratetype z p in
    free_one_page (set_freepage_migratetype z p mt) p order mt.

Definition drain_pages (z : zone) (pc : per_cpu_pages) : res (zone * per_cpu_pages) :=
  if negb (pc_count pc =? 0) then
    '(z, pc) ← free_pcppages_bulk z (pc_count pc) pc;
    Ok (z, with_pcp_count pc 0)
  else Ok (z, pc).

Definition free_hot_cold_page (z : zone) (pc : per_cpu_pages) (p : Z) (cold : bool)
    : res (zone * per_cpu_pages) :=
  let '(ok, z) := free_pages_prepare z p 0 in
  if negb ok then Ok (z, pc)
  else
    let mt := get_pageblock_migratetype z p in
    let z := set_freepage_migratetype z p mt in
    let mt := if negb (is_pcptype mt) then MIGRATE_MOVABLE else mt in
    let l := pc_lists pc mt in
    let pc := with_pcp_list pc mt (if negb cold then p :: l else l ++ [p]) in
    let pc := with_pcp_count pc (pc_count pc + 1) in
    if pc_high pc <=? pc_count pc then
      '(z, pc) ← free_pcppages_bulk z (pc_batch pc) pc;
      Ok (z, with_pcp_count pc (pc_count pc - pc_batch pc))
    else Ok (z, pc).

(** [rmqueue_bulk]: [acc] holds the pages taken so far in list order; the list
    head moves along, so that each page goes after ([cold]: before, in the
    circular list) the previous one. *)
Fixpoint rmqueue_bulk_from (n : nat) (z : zone) (order : nat) (mt : migratetype) (acc : list Z)
    : res (list Z * zone) :=
  match n with
  | O => Ok (acc, z)
  | S n =>
      '(page, z) ← __rmqueue z order mt;
      match page with
      | None => Ok (acc, z)
      | Some page => rmqueue_bulk_from n z order mt (acc ++ [page])
      end
  end.

(** Returns the number of blocks, the list and the zone. *)
Definition rmqueue_bulk (z : zone) (order : nat) (count : Z) (l : list Z) (mt : migratetype) (cold : bool)
    : res (Z * list Z * zone) :=
  '(acc, z) ← rmqueue_bulk_from (Z.to_nat count) z order mt [];
  let i := Z.of_nat (length acc) in
  Ok (i, if negb cold then acc ++ l else l ++ rev acc,
      with_nr_free_pages z (nr_free_pages z - i * 2 ^ Z.of_nat order)).

(** One round of [buffered_rmqueue]: [inl] is [goto again] with the page lost,
    [inr] the page or NULL. *)
Definition buffered_step (order : nat) (mt : migratetype) (cold gfp_comp : bool)
    : zone * per_cpu_pages -> res (zone * per_cpu_pages + option Z * zone * per_cpu_pages) :=
  fun '(z, pc) =>
  let finish z pc page :=
    let '(b, z) := prep_new_page z page order gfp_comp in
    if negb (b =? 0) then Ok (inl (z, pc)) else Ok (inr (Some page, z, pc)) in
  if (order =? 0)%nat then
    '(z, pc) ←
      match pc_lists pc mt with
      | [] =>
          '(i, l, z) ← rmqueue_bulk z 0 (pc_batch pc) [] mt cold;
          Ok (z, with_pcp_count (with_pcp_list pc mt l) (pc_count pc + i))
      | _ => Ok (z, pc)
      end;
    match (if cold then last (pc_lists pc mt) else head (pc_lists pc mt)) with
    | None => Ok (inr (None, z, pc))
    | Some page =>
        let l := if cold then removelast (pc_lists pc mt) else tail (pc_lists pc mt) in
        finish z (with_pcp_count (with_pcp_list pc mt l) (pc_count pc - 1)) page
    end
  else
    '(page, z) ← __rmqueue z order mt;
    match page with
    | None => Ok (inr (None, z, pc))
    | Some page => finish (__mod_zone_freepage_state z (- 2 ^ Z.of_nat order)) pc page
    end.

(** [fuel] bounds the number of bad pages met. *)
Definition buffered_rmqueue (fuel : nat) (z : zone) (pc : per_cpu_pages) (order : nat)
    (mt : migratetype) (cold gfp_comp : bool) : res (option Z * zone * per_cpu_pages) :=
  loop fuel (buffered_step order mt cold gfp_comp) (z, pc).

(** ** Splitting, watermarks and isolation *)

Fixpoint split_tails (n : nat) (p : Z) (z : zone) : zone :=
  match n with
  | O => z
  | S n => split_tails n (p + 1) (on_page z p (fun pg => with_count pg 1))
  end.

Definition split_page (z : zone) (p : Z) (order : nat) : zone := split_tails (2 ^ order - 1) (p + 1) z.

Definition ALLOC_HARDER : Z := 0x10.
Definition ALLOC_HIGH : Z := 0x20.

(** [for (o = 0; o < order; o++)]; [n] orders are left.  [free_pages] and [min]
    are [long]. *)
Fixpoint watermark_loop (n : nat) (o : nat) (z : zone) (min_free_order_shift free_pages min : Z) : bool :=
  match n with
  | O => true
  | S n =>
      let free_pages := s64 (free_pages - u64 (Z.shiftl (nr_free z o) (Z.of_nat o))) in
      let min := Z.shiftr min min_free_order_shift in
      if free_pages <=? min then false
      else watermark_loop n (S o) z min_free_order_shift free_pages min
  end.

(** [mark] is an [unsigned long], [min] a [long]. *)
Definition __zone_watermark_ok (min_free_order_shift lowmem_reserve : Z) (z : zone) (order : nat)
    (mark alloc_flags free_pages : Z) : bool :=
  let min := s64 mark in
  let free_pages := s64 (free_pages - (2 ^ Z.of_nat order - 1)) in
  let min := if negb (Z.land alloc_flags ALLOC_HIGH =? 0) then s64 (min - Z.quot min 2) else min in
  let min := if negb (Z.land alloc_flags ALLOC_HARDER =? 0) then s64 (min - Z.quot min 4) else min in
  if free_pages <=? s64 (min + lowmem_reserve) then false
  else watermark_loop order 0 z min_free_order_shift free_pages min.

(** [zone_page_state(z, NR_FREE_PAGES)], as [unsigned long]: a negative count
    reads as 0. *)
Definition zone_page_state (z : zone) : Z := let x := s64 (nr_free_pages z) in if x <? 0 then 0 else x.

Definition zone_watermark_ok (min_free_order_shift lowmem_reserve : Z) (z : zone) (order : nat)
    (mark alloc_flags : Z) : bool :=
  __zone_watermark_ok min_free_order_shift lowmem_reserve z order mark alloc_flags (s64 (zone_page_state z)).

(** [for (; page < endpage; page += pageblock_nr_pages)]; [n] bounds the number
    of pageblocks. *)
Fixpoint isolate_blocks (n : nat) (z : zone) (p endpage : Z) : zone :=
  match n with
  | O => z
  | S n =>
      if p <? endpage
      then isolate_blocks n (set_pageblock_migratetype z p MIGRATE_MOVABLE) (p + pageblock_nr_pages) endpage
      else z
  end.

(** The number of pages isolated, 0 when the watermark forbids it. *)
Definition __isolate_free_page (min_free_order_shift lowmem_reserve low_wmark : Z) (z : zone) (p : Z)
    (order : nat) : res (Z * zone) :=
  bug_on (negb (PageBuddy z p))
    (let watermark := low_wmark ⊕ 2 ^ Z.of_nat order in
     if negb (zone_watermark_ok min_free_order_shift lowmem_reserve z 0 watermark 0) then Ok (0, z)
     else
       let z := __mod_zone_freepage_state z (- 2 ^ Z.of_nat order) in
       let z := list_del z p in
       let z := add_nr_free z order (-1) in
       let z := rmv_page_order z p in
       let z := if (pageblock_order - 1 <=? order)%nat
                then isolate_blocks (2 ^ order) z p (p + 2 ^ Z.of_nat order - 1) else z in
       Ok (2 ^ Z.of_nat order, z)).

Definition split_free_page (min_free_order_shift lowmem_reserve low_wmark : Z) (z : zone) (p : Z)
    : res (Z * zone) :=
  let order := page_order z p in
  '(nr_pages, z) ← __isolate_free_page min_free_order_shift lowmem_reserve low_wmark z p order;
  if nr_pages =? 0 then Ok (0, z)
  else
    let z := on_page z p (fun pg => with_count pg 1) in
    Ok (nr_pages, split_page z p order).
End Env.
End Checks.
