(* ===== verification/PcpTheory.v ===== *)
(** * Per-cpu lists, page checks and watermarks: correctness

    Pages on the free lists and on the per-cpu lists are clean (no users, no
    mapping, no flags), every page of the zone is at most once on any list, and
    the allocator front end moves pages between the caller, the per-cpu lists
    and the buddy lists without losing or duplicating any. *)

From S2P Require Import Prelude BuddyDefs BuddyTheory BuddyFree BuddyAlloc PcpDefs.

(** ** What list operations leave alone *)

(** [_mapcount] of a page without mappings, free or not. *)
Definition mc_ok (pg : page) : Prop := pg_mapcount pg = -1 \/ pg_mapcount pg = PAGE_BUDDY_MAPCOUNT_VALUE.

Record frame (z z' : zone) : Prop := {
  fr_spans : forall x, zone_spans_pfn z' x = zone_spans_pfn z x;
  fr_flags : forall x, pg_flags (mem_map z' x) = pg_flags (mem_map z x);
  fr_count : forall x, pg_count (mem_map z' x) = pg_count (mem_map z x);
  fr_mapping : forall x, pg_mapping (mem_map z' x) = pg_mapping (mem_map z x);
  fr_mc : forall x, mc_ok (mem_map z x) -> mc_ok (mem_map z' x) }.

#[export] Instance frame_refl : Reflexive frame.
Proof. by intros z. Qed.
#[export] Instance frame_trans : Transitive frame.
Proof.
  intros z1 z2 z3 H1 H2. split; intros x.
  - rewrite (fr_spans _ _ H2). apply H1.
  - rewrite (fr_flags _ _ H2). apply H1.
  - rewrite (fr_count _ _ H2). apply H1.
  - rewrite (fr_mapping _ _ H2). apply H1.
  - intros ?. by apply H2, H1.
Qed.

Lemma frame_on_page z p f :
  (forall pg, pg_flags (f pg) = pg_flags pg /\ pg_count (f pg) = pg_count pg /\
              pg_mapping (f pg) = pg_mapping pg /\ (mc_ok pg -> mc_ok (f pg))) ->
  frame z (on_page z p f).
Proof.
  intros Hf. split; intros x; try done; rewrite on_page_eq; destruct (Z.eqb_spec x p) as [->|]; try done;
    apply Hf.
Qed.

Lemma frame_map z z' :
  mem_map z' = mem_map z -> zone_start_pfn z' = zone_start_pfn z -> spanned_pages z' = spanned_pages z ->
  frame z z'.
Proof.
  intros Hm Hs Hp. split; intros x; rewrite ?Hm; try done.
  unfold zone_spans_pfn, zone_end_pfn. by rewrite Hs, Hp.
Qed.

Lemma frame_set_page_order z p o : frame z (set_page_order z p o).
Proof.
  unfold set_page_order. etransitivity; apply frame_on_page; intros pg; [done|].
  split_and!; try done. intros _. by right.
Qed.

Lemma frame_rmv_page_order z p : frame z (rmv_page_order z p).
Proof.
  unfold rmv_page_order. etransitivity; apply frame_on_page; intros pg; [|done].
  split_and!; try done. intros _. by left.
Qed.

Lemma frame_index z p mt : frame z (set_freepage_migratetype z p mt).
Proof. by apply frame_on_page. Qed.

#[export] Hint Resolve frame_set_page_order frame_rmv_page_order frame_index : buddy.

Section frames.
Context `{PAEnv}.

Lemma merge_step_frame s s' : merge_step s = Ok (inl s') -> frame (m_zone s) (m_zone s').
Proof.
  destruct s as [z p i o mo b]. unfold merge_step. destruct (_ <? _)%nat.
  - destruct (negb _); [done|]. intros [= <-]. cbn [m_zone].
    etransitivity; [|apply frame_rmv_page_order]. by apply frame_map.
  - destruct (_ <? _)%nat; [|done]. intros [= <-]. by apply frame_map.
Qed.

Lemma merge_step_frame_out s s' : merge_step s = Ok (inr s') -> m_zone s' = m_zone s.
Proof.
  destruct s as [z p i o mo b]. unfold merge_step. destruct (_ <? _)%nat.
  - destruct (negb _); [|done]. by intros [= <-].
  - destruct (_ <? _)%nat; [done|]. by intros [= <-].
Qed.

Lemma merge_done_frame mt s z' : merge_done mt s = Ok z' -> frame (m_zone s) z'.
Proof.
  destruct s as [z p i o mo b]. unfold merge_done. cbn [m_zone].
  destruct (_ <? _)%nat; [destruct b; [|done]; destruct (page_is_buddy _ _ _ _)|];
    intros [= <-]; (etransitivity; [apply frame_set_page_order|by apply frame_map]).
Qed.

Lemma free_frame z p o mt z' :
  PageCompound z p = false -> __free_one_page z p o mt = Ok z' -> frame z z'.
Proof.
  unfold __free_one_page. intros ->. cbn [Z.eqb negb]. intros (s & Hl & Hd)%res_bind_inv.
  apply merge_done_frame in Hd. etransitivity; [|exact Hd].
  apply (loop_partial merge_step (fun s => frame z (m_zone s)) (fun s => frame z (m_zone s))) in Hl; try done.
  - intros s1 s2 H1 H2%merge_step_frame. by etransitivity.
  - intros s1 s2 H1 H2%merge_step_frame_out. by rewrite H2.
Qed.

Lemma expand_frame p low mt n : forall z, frame z (expand n z p low mt).
Proof.
  induction n as [|n IH]; intros z; cbn [expand]; [done|]. etransitivity; [|apply IH].
  etransitivity; [|apply frame_set_page_order]. by apply frame_map.
Qed.

Lemma take_frame z p order cur mt :
  frame z (set_freepage_migratetype (expand (cur - order)
    (rmv_page_order (add_nr_free (list_del z p) cur (-1)) p) p order mt) p mt).
Proof.
  etransitivity; [|apply frame_index]. etransitivity; [|apply expand_frame].
  etransitivity; [|apply frame_rmv_page_order]. by apply frame_map.
Qed.

Lemma smallest_frame z order mt r z' : __rmqueue_smallest z order mt = (r, z') -> frame z z'.
Proof.
  unfold __rmqueue_smallest. generalize order at 2. generalize (MAX_ORDER - order)%nat.
  intros n. induction n as [|n IH]; intros cur; cbn [smallest_from]; [by intros [= <- <-]|].
  destruct (free_list z cur mt) as [|p l]; [apply IH|]. intros [= <- <-]. apply take_frame.
Qed.

Lemma move_frame z s e mt n z' : move_freepages z s e mt = Ok (n, z') -> frame z z'.
Proof.
  unfold move_freepages. intros Hl.
  apply (loop_partial (move_step e mt) (fun '(_, _, zc) => frame z zc) (fun '(_, zc) => frame z zc)) in Hl;
    try done.
  - intros [[p m] zc] s'. unfold move_step. destruct (p <=? e); [|done]. intros Hf.
    destruct (negb _); intros [= <-]; [done|]. etransitivity; [exact Hf|].
    etransitivity; [|apply frame_index]. by apply frame_map.
  - intros [[p m] zc] [n' zr]. unfold move_step. destruct (p <=? e); [by destruct (negb _)|].
    by intros Hf [= <- <-].
Qed.

Lemma steal_frame z p mt z' : try_to_steal_freepages z p mt = Ok z' -> frame z z'.
Proof.
  unfold try_to_steal_freepages. destruct (_ <=? _)%nat.
  { intros [= <-]. generalize (2 ^ (page_order z p - pageblock_order))%nat. intros n.
    revert z p. induction n as [|n IH]; intros z p; cbn [change_pageblock_range]; [done|].
    etransitivity; [|apply IH]. by apply frame_map. }
  destruct (_ || _); [|by intros [= <-]]. intros ([n z1] & Hm & Hz)%res_bind_inv.
  assert (Hf : frame z z1).
  { unfold move_freepages_block in Hm. destruct (negb (zone_spans_pfn z (_ + _ - 1))).
    - by injection Hm as <- <-.
    - by eapply move_frame. }
  destruct (_ || _); injection Hz as <-; [|done]. etransitivity; [exact Hf|by apply frame_map].
Qed.

Lemma rmqueue_frame z order mt r z' : __rmqueue z order mt = Ok (r, z') -> frame z z'.
Proof.
  unfold __rmqueue. destruct (__rmqueue_smallest z order mt) as [[p|] z1] eqn:E1;
    apply smallest_frame in E1; [by intros [= <- <-]|].
  destruct (bool_decide _); [by intros [= <- <-]|].
  intros ([r2 z2] & Hf & Hz)%res_bind_inv. assert (H2 : frame z1 z2).
  { unfold __rmqueue_fallback in Hf. revert Hf. generalize (MAX_ORDER - order)%nat. intros n.
    induction n as [|n IH]; cbn [fallback_from]; [by intros [= <- <-]|].
    destruct (fallback_list _ _ _) as [p|]; [|apply IH]. unfold fallback_take.
    intros (z3 & Hs & Hz3)%res_bind_inv. apply steal_frame in Hs. injection Hz3 as <- <-.
    etransitivity; [|etransitivity; [exact Hs|]]; [by apply frame_map|]. etransitivity; [|apply frame_index].
    etransitivity; [|apply expand_frame]. etransitivity; [|apply frame_rmv_page_order].
    by apply frame_map. }
  etransitivity; [exact E1|]. etransitivity; [exact H2|]. destruct r2.
  - by injection Hz as <- <-.
  - injection Hz as Hz. by eapply smallest_frame.
Qed.
End frames.

(** ** Clean pages and the per-cpu invariant *)

Section pcp.
Context `{PageEnv} `{PAEnv} (Hnf : 22 <= NR_PAGEFLAGS).

Definition page_clean (pg : page) : Prop :=
  pg_count pg = 0 /\ pg_mapping pg = 0 /\ Z.land (pg_flags pg) PAGE_FLAGS_CHECK_AT_PREP = 0 /\ mc_ok pg.

Lemma clean_frame z z' x : frame z z' -> page_clean (mem_map z x) -> page_clean (mem_map z' x).
Proof using.
  intros Hf. unfold page_clean. rewrite (fr_count _ _ Hf), (fr_mapping _ _ Hf), (fr_flags _ _ Hf).
  pose proof (fr_mc _ _ Hf x). tauto.
Qed.

Lemma clean_bit pg i :
  page_clean pg -> 0 <= i < NR_PAGEFLAGS -> Z.testbit (pg_flags pg) i = false.
Proof using Hnf.
  intros (_ & _ & Hf & _) Hi. assert (Hb : Z.testbit (Z.land (pg_flags pg) PAGE_FLAGS_CHECK_AT_PREP) i = false)
    by (by rewrite Hf, Z.bits_0).
  rewrite Z.land_spec in Hb. unfold PAGE_FLAGS_CHECK_AT_PREP in Hb.
  rewrite Z.shiftl_1_l in Hb. replace (2 ^ NR_PAGEFLAGS - 1) with (Z.ones NR_PAGEFLAGS) in Hb
    by (rewrite Z.ones_equiv; lia).
  rewrite Z.testbit_ones_nonneg, (proj2 (Z.ltb_lt _ _)), andb_true_r in Hb by lia. done.
Qed.

Lemma clean_not_compound z p : page_clean (mem_map z p) -> PageCompound z p = false.
Proof using Hnf.
  intros Hc. unfold PageCompound, PageHead, PageTail, PG_head, PG_tail. by rewrite !clean_bit by (done || lia).
Qed.

Definition pcp_pages (pc : per_cpu_pages) : list Z :=
  pc_lists pc MIGRATE_UNMOVABLE ++ pc_lists pc MIGRATE_RECLAIMABLE ++ pc_lists pc MIGRATE_MOVABLE.

Record pcp_ok (z : zone) (pc : per_cpu_pages) : Prop := {
  po_wf : wf z;
  po_clean : forall x, free_at z x -> page_clean (mem_map z x);
  po_nodup : NoDup (pcp_pages pc);
  po_pages : forall p, p ∈ pcp_pages pc -> hole z p 0 /\ page_clean (mem_map z p);
  po_stat : nr_free_pages z = total z }.

(** The pages the allocator holds: on the buddy lists or on the cpu's lists. *)
Definition owned (z : zone) (pc : per_cpu_pages) (x : Z) : Prop := free_at z x \/ x ∈ pcp_pages pc.

Lemma block0 p x : in_block p 0 x <-> x = p.
Proof using. unfold in_block, sz. cbn. lia. Qed.

Lemma hole_kept z z' q o :
  hole z q o -> (forall x, zone_spans_pfn z' x = zone_spans_pfn z x) ->
  (forall x, in_block q o x -> ~ free_at z' x) -> hole z' q o.
Proof using. intros Hh Hs Hf. split; try apply Hh; [|done]. intros x Hx. rewrite Hs. by apply Hh. Qed.

(** Giving one page of the per-cpu lists back to the buddy lists. *)
Lemma pcp_free_page z pc pc' p mt :
  pcp_ok z pc -> pcp_pages pc ≡ₚ p :: pcp_pages pc' ->
  exists z', __free_one_page z p 0 mt = Ok z' /\ pcp_ok z' pc' /\ forall x, owned z' pc' x <-> owned z pc x.
Proof using Hnf.
  intros [Hwf Hcl Hnd Hpg Hst] Hp. destruct (Hpg p) as [Hh Hpc]; [rewrite Hp; by left|].
  pose proof (clean_not_compound _ _ Hpc) as Hcomp.
  destruct (free_block_spec z p 0 mt Hwf Hh) as (z' & Heq & Hwf' & Hfree & Htot & Hn);
    [unfold MAX_ORDER; lia|by rewrite Hcomp|].
  pose proof (free_frame _ _ _ _ _ Hcomp Heq) as Hfr. setoid_rewrite block0 in Hfree.
  rewrite Hp in Hnd. apply NoDup_cons in Hnd as [Hnp Hnd].
  exists z'. split; [done|]. split; [split; try done|].
  - intros x. rewrite Hfree. intros [Hx| ->]; apply (clean_frame z); auto.
  - intros q Hq. assert (Hq' : q ∈ pcp_pages pc) by (rewrite Hp; by right).
    destruct (Hpg q Hq') as [Hhq Hcq]. split; [|by apply (clean_frame z)].
    eapply hole_kept; [exact Hhq|apply Hfr|]. intros x ->%block0. rewrite Hfree. intros [Hx| ->]; [|done].
    eapply (hole_free _ _ _ Hhq q); [by apply block0|done].
  - lia.
  - intros x. unfold owned. rewrite Hfree, Hp, elem_of_cons. tauto.
Qed.

(** ** Freeing in bulk *)

Definition is_pcp (mt : migratetype) : Prop := is_pcptype mt = true.

Lemma removelast_last (l : list Z) x : last l = Some x -> l = removelast l ++ [x].
Proof using.
  intros Hl. destruct l as [|y l] using rev_ind; [done|]. rewrite last_snoc in Hl.
  injection Hl as ->. by rewrite removelast_last.
Qed.

Lemma pcp_pages_update pc mt l :
  is_pcp mt -> pcp_pages pc ++ l ≡ₚ pcp_pages (with_pcp_list pc mt l) ++ pc_lists pc mt.
Proof using.
  unfold is_pcp, pcp_pages, with_pcp_list. cbn [pc_lists].
  destruct mt; intros Hmt; try done; cbn; rewrite ?decide_True, ?decide_False by done; solve_Permutation.
Qed.

Lemma pcp_pages_pop pc mt l p :
  is_pcp mt -> pc_lists pc mt ≡ₚ p :: l -> pcp_pages pc ≡ₚ p :: pcp_pages (with_pcp_list pc mt l).
Proof using.
  intros Hmt Hl. apply (Permutation_app_inv_r l). rewrite pcp_pages_update by done. rewrite Hl. solve_Permutation.
Qed.

Definition bulk_inv (z0 : zone) (pc0 : per_cpu_pages) (n : Z) (s : bulk_state) : Prop :=
  pcp_ok (b_zone s) (b_pcp s) /\
  (forall x, owned (b_zone s) (b_pcp s) x <-> owned z0 pc0 x) /\
  0 <= b_to_free s <= Z.of_nat (length (pcp_pages (b_pcp s))) /\
  Z.of_nat (length (pcp_pages (b_pcp s))) - b_to_free s = Z.of_nat (length (pcp_pages pc0)) - n /\
  pc_count (b_pcp s) = pc_count pc0 /\ pc_high (b_pcp s) = pc_high pc0 /\ pc_batch (b_pcp s) = pc_batch pc0.

Lemma bulk_free_step_inv z0 pc0 n s :
  bulk_inv z0 pc0 n s -> is_pcp (b_mt s) -> pc_lists (b_pcp s) (b_mt s) <> [] -> 0 < b_to_free s ->
  exists s', bulk_inv z0 pc0 n s' /\ b_to_free s' = b_to_free s - 1 /\
    (bulk_free_step s = Ok (inr s') \/
     (bulk_free_step s = Ok (inl s') /\ b_mt s' = b_mt s /\ pc_lists (b_pcp s') (b_mt s') <> [] /\
      0 < b_to_free s')).
Proof using Hnf.
  destruct s as [z pc mt bf tf]. unfold bulk_inv. cbn [b_zone b_pcp b_to_free b_mt].
  intros (Hok & Hown & Htf & Hlen & Hrest) Hmt Hne Hpos. unfold bulk_free_step.
  destruct (last (pc_lists pc mt)) as [p|] eqn:El; [|by apply last_None in El].
  pose proof (removelast_last _ _ El) as Hl.
  set (pc' := with_pcp_list pc mt (removelast (pc_lists pc mt))).
  assert (Hp : pcp_pages pc ≡ₚ p :: pcp_pages pc').
  { apply pcp_pages_pop; [done|]. rewrite Hl at 1. symmetry. apply Permutation_cons_append. }
  assert (Hlen' : Z.of_nat (length (pcp_pages pc)) = Z.of_nat (length (pcp_pages pc')) + 1)
    by (rewrite Hp; cbn; lia).
  destruct (pcp_free_page z pc pc' p (get_freepage_migratetype z p) Hok Hp) as (z' & -> & Hok' & Hown').
  rewrite res_bind_ok.
  assert (Hinv : forall b, bulk_inv z0 pc0 n (mkBulk z' pc' mt b (tf - 1))).
  { intros b. unfold bulk_inv. cbn [b_zone b_pcp b_to_free]. split_and!; try apply Hrest; try done; try lia.
    intros x. by rewrite Hown'. }
  destruct (Z.eqb_spec (tf - 1) 0); [eexists; split; [apply Hinv|]; eauto|].
  destruct (bf - 1 =? 0); [eexists; split; [apply Hinv|]; eauto|].
  destruct (pc_lists pc' mt) eqn:E; [eexists; split; [apply Hinv|]; eauto|].
  eexists. split; [apply Hinv|]. split; [done|]. right. cbn [b_pcp b_mt b_to_free]. rewrite E. split_and!; try done. lia.
Qed.

Lemma scan_spec pc bf mt :
  pcp_pages pc <> [] ->
  exists b mt', loop 4 (scan_step pc) (bf, mt) = Ok (b, mt') /\ is_pcp mt' /\ pc_lists pc mt' <> [].
Proof using.
  intros Hne. unfold pcp_pages in Hne. unfold is_pcp.
  destruct (pc_lists pc MIGRATE_UNMOVABLE) eqn:E1, (pc_lists pc MIGRATE_RECLAIMABLE) eqn:E2,
    (pc_lists pc MIGRATE_MOVABLE) eqn:E3; cbn in Hne; try done;
    destruct mt; unfold loop, scan_step; cbn [next_pcptype]; repeat (rewrite ?E1, ?E2, ?E3; cbn [next_pcptype]);
    eexists _, _; (split; [reflexivity|]); rewrite ?E1, ?E2, ?E3; done.
Qed.

Lemma bulk_step_inv z0 pc0 n s :
  bulk_inv z0 pc0 n s ->
  (exists s', bulk_step s = Ok (inl s') /\ bulk_inv z0 pc0 n s' /\
     (Z.to_nat (b_to_free s') < Z.to_nat (b_to_free s))%nat) \/
  (exists s', bulk_step s = Ok (inr s') /\ bulk_inv z0 pc0 n s' /\ b_to_free s' = 0).
Proof using Hnf.
  intros Hinv. destruct s as [z pc mt bf tf]. unfold bulk_step.
  destruct (Z.eqb_spec tf 0) as [->|Hne]; [right; eauto|]. left.
  pose proof Hinv as (_ & _ & Htf & _). cbn in Htf.
  destruct (scan_spec pc bf mt) as (b & mt' & -> & Hmt' & Hl).
  { intros E. rewrite E in Htf. cbn in Htf. lia. }
  rewrite res_bind_ok.
  destruct (loop_total bulk_free_step
    (fun s => bulk_inv z0 pc0 n s /\ is_pcp (b_mt s) /\ pc_lists (b_pcp s) (b_mt s) <> [] /\
              0 < b_to_free s <= tf)
    (fun s => bulk_inv z0 pc0 n s /\ b_to_free s < tf) (fun s => Z.to_nat (b_to_free s)))
    with (fuel := S (Z.to_nat tf)) (s := mkBulk z pc mt' (if b =? 3 then tf else b) tf)
    as (s' & -> & Hinv' & Hlt).
  - intros s (Hi & Hm & Hl' & Hp). destruct (bulk_free_step_inv z0 pc0 n s) as (s' & Hi' & Ht' & Hr); try done; [lia|].
    destruct Hr as [->|(-> & Hm' & Hl'' & Hp')].
    + right. eexists. split; [done|]. split; [done|lia].
    + left. eexists. split; [done|]. rewrite Hm' in *. split_and!; done || lia.
  - split_and!; cbn [b_mt b_pcp b_to_free]; done || lia.
  - cbn. lia.
  - rewrite res_bind_ok. eexists. split; [done|]. split; [done|]. cbn [b_to_free].
    destruct Hinv' as (_ & _ & ? & _). lia.
Qed.

Lemma free_bulk_spec z pc n :
  pcp_ok z pc -> 0 <= n <= Z.of_nat (length (pcp_pages pc)) ->
  exists z' pc', free_pcppages_bulk z n pc = Ok (z', pc') /\ pcp_ok z' pc' /\
    (forall x, owned z' pc' x <-> owned z pc x) /\
    Z.of_nat (length (pcp_pages pc')) = Z.of_nat (length (pcp_pages pc)) - n /\
    pc_count pc' = pc_count pc /\ pc_high pc' = pc_high pc /\ pc_batch pc' = pc_batch pc.
Proof using Hnf.
  intros Hok Hn. unfold free_pcppages_bulk.
  destruct (loop_total bulk_step (bulk_inv z pc n) (fun s => bulk_inv z pc n s /\ b_to_free s = 0)
    (fun s => Z.to_nat (b_to_free s)))
    with (fuel := S (Z.to_nat n)) (s := mkBulk z pc MIGRATE_UNMOVABLE 0 n) as (s & -> & Hi & Hz).
  - apply bulk_step_inv.
  - unfold bulk_inv. cbn [b_zone b_pcp b_to_free]. split_and!; done || lia.
  - cbn. lia.
  - rewrite res_bind_ok. destruct Hi as (? & ? & ? & ? & ? & ? & ?). exists (b_zone s), (b_pcp s).
    split_and!; try done. lia.
Qed.

(** [free_pcppages_bulk] asked for no more pages than the cpu's lists hold
    terminates, returns exactly [n] of them to the buddy lists, keeps the
    invariant, and neither loses nor duplicates a page. *)
Theorem free_pcppages_bulk_correct z pc n :
  pcp_ok z pc -> 0 <= n <= Z.of_nat (length (pcp_pages pc)) ->
  exists z' pc', free_pcppages_bulk z n pc = Ok (z', pc') /\ pcp_ok z' pc' /\
    (forall x, owned z' pc' x <-> owned z pc x) /\
    Z.of_nat (length (pcp_pages pc')) = Z.of_nat (length (pcp_pages pc)) - n /\
    pc_count pc' = pc_count pc /\ pc_high pc' = pc_high pc /\ pc_batch pc' = pc_batch pc.
Proof using Hnf. apply free_bulk_spec. Qed.

(** ** Changes to pages that are not free *)

(** [z'] differs from [z] only in the state of pages in [[a, b)], and marks
    none of them as free. *)
Record touched (z z' : zone) (a b : Z) : Prop := {
  to_lists : free_list z' = free_list z;
  to_nr : nr_free z' = nr_free z;
  to_stat : nr_free_pages z' = nr_free_pages z;
  to_id : z_id z' = z_id z;
  to_start : zone_start_pfn z' = zone_start_pfn z;
  to_spanned : spanned_pages z' = spanned_pages z;
  to_out : forall x, ~ (a <= x < b) -> mem_map z' x = mem_map z x;
  to_zone : forall x, page_zone_id z' x = page_zone_id z x;
  to_buddy : forall x, PageBuddy z' x = true -> PageBuddy z x = true }.

Lemma touched_refl z a b : touched z z a b.
Proof using. done. Qed.

Lemma touched_trans z1 z2 z3 a b : touched z1 z2 a b -> touched z2 z3 a b -> touched z1 z3 a b.
Proof using.
  intros [] []. split; intros; try congruence.
  - rewrite to_out1, to_out0; done.
  - auto.
Qed.

Lemma touched_mono z z' a b a' b' : touched z z' a b -> a' <= a -> b <= b' -> touched z z' a' b'.
Proof using. intros [] ? ?. split; try done. intros x Hx. apply to_out0. lia. Qed.

Lemma touched_on_page z p f :
  (forall pg, pg_zone_id (f pg) = pg_zone_id pg /\
     (pg_mapcount (f pg) = pg_mapcount pg \/ pg_mapcount (f pg) = -1)) ->
  touched z (on_page z p f) p (p + 1).
Proof using.
  intros Hf. split; try done; intros x; unfold page_zone_id, PageBuddy; rewrite on_page_eq;
    destruct (Z.eqb_spec x p) as [->|]; try done; try (intros; lia).
  - apply Hf.
  - destruct (Hf (mem_map z p)) as [_ [-> | ->]]; done.
Qed.

Lemma touched_free z z' a b x : touched z z' a b -> free_at z' x <-> free_at z x.
Proof using. intros Ht. unfold free_at, blk. by rewrite (to_lists _ _ _ _ Ht). Qed.

Lemma touched_spans z z' a b x : touched z z' a b -> zone_spans_pfn z' x = zone_spans_pfn z x.
Proof using.
  intros Ht. unfold zone_spans_pfn, zone_end_pfn. by rewrite (to_start _ _ _ _ Ht), (to_spanned _ _ _ _ Ht).
Qed.

Lemma touched_total z z' a b : touched z z' a b -> total z' = total z.
Proof using. intros Ht. unfold total, count. by rewrite (to_lists _ _ _ _ Ht). Qed.

Lemma touched_wf z z' p o : touched z z' p (p + sz o) -> wf z -> hole z p o -> wf z' /\ hole z' p o.
Proof using.
  intros Ht Hwf Hh.
  assert (Hb : forall q o', blk z' q o' <-> blk z q o') by (intros; unfold blk; by rewrite (to_lists _ _ _ _ Ht)).
  assert (Hout : forall q o', blk z q o' -> mem_map z' q = mem_map z q).
  { intros q o' Hq. apply (to_out _ _ _ _ Ht). intros Hx. apply (hole_free _ _ _ Hh q Hx).
    exists q, o'. auto with buddy. }
  split.
  - split; intros *; rewrite ?Hb, ?(touched_spans _ _ _ _ _ Ht), ?(to_zone _ _ _ _ Ht), ?(to_id _ _ _ _ Ht),
      ?(to_lists _ _ _ _ Ht); try apply Hwf.
    + intros Hq. unfold PageBuddy. rewrite (Hout _ _ Hq). by apply (wf_buddy _ Hwf).
    + setoid_rewrite Hb. intros Hq%(to_buddy _ _ _ _ Ht) Hz. by apply (wf_listed _ Hwf).
    + unfold count. rewrite (to_nr _ _ _ _ Ht), (to_lists _ _ _ _ Ht). apply Hwf.
  - eapply hole_kept; [exact Hh|intros; by eapply touched_spans|]. intros x Hx.
    rewrite (touched_free _ _ _ _ _ Ht). by apply Hh.
Qed.

(** The allocator's own pages are not affected. *)
Lemma touched_pcp z z' pc p o :
  touched z z' p (p + sz o) -> pcp_ok z pc -> hole z p o -> (forall x, in_block p o x -> x ∉ pcp_pages pc) ->
  pcp_ok z' pc /\ hole z' p o /\ forall x, owned z' pc x <-> owned z pc x.
Proof using.
  intros Ht [Hwf Hcl Hnd Hpg Hst] Hh Hdis. destruct (touched_wf z z' p o Ht Hwf Hh) as [Hwf' Hh'].
  split; [|split; [done|]].
  - split; try done.
    + intros x. rewrite (touched_free _ _ _ _ _ Ht). intros Hx.
      rewrite (to_out _ _ _ _ Ht); [by apply Hcl|]. intros Hb. by apply (hole_free _ _ _ Hh x).
    + intros q Hq. destruct (Hpg q Hq) as [Hhq Hcq]. split.
      * eapply hole_kept; [exact Hhq|intros; by eapply touched_spans|]. intros x Hx.
        rewrite (touched_free _ _ _ _ _ Ht). by apply Hhq.
      * rewrite (to_out _ _ _ _ Ht); [done|]. intros Hb. by apply (Hdis q).
    + rewrite (to_stat _ _ _ _ Ht), (touched_total _ _ _ _ Ht). done.
  - intros x. unfold owned. by rewrite (touched_free _ _ _ _ _ Ht).
Qed.

(** ** Checks when freeing *)

Lemma free_pages_check_spec z p b z' :
  free_pages_check z p = (b, z') ->
  touched z z' p (p + 1) /\
  if bad_at_free z p then b = 1 else b = 0 /\ page_clean (mem_map z' p).
Proof using.
  unfold free_pages_check. destruct (bad_at_free z p) eqn:Eb.
  { intros [= <- <-]. split; [|done]. apply touched_on_page. intros pg. auto. }
  unfold bad_at_free in Eb. rewrite !orb_false_iff, !negb_false_iff, !Z.eqb_eq in Eb.
  destruct Eb as ((((Hmc & Hmap) & Hcnt) & _) & _). unfold page_mapcount in Hmc.
  destruct (Z.eqb_spec (Z.land (pg_flags (mem_map z p)) PAGE_FLAGS_CHECK_AT_PREP) 0) as [E|E]; cbn [negb];
    intros [= <- <-].
  - split; [apply touched_refl|]. split; [done|]. unfold page_clean, mc_ok. split_and!; try done. lia.
  - split; [apply touched_on_page; auto|]. split; [done|]. unfold page_clean, mc_ok.
    rewrite on_page_eq, Z.eqb_refl. cbn. split_and!; try done; [|lia].
    apply Z.bits_inj'. intros i Hi. rewrite Z.land_spec, Z.ldiff_spec, Z.bits_0. by destruct (Z.testbit _ _), (Z.testbit _ _).
Qed.

Lemma check_free_range_spec n : forall p bad z bad' z',
  check_free_range n p bad z = (bad', z') ->
  touched z z' p (p + Z.of_nat n) /\ bad <= bad' /\
  (bad' = bad <-> forall x, p <= x < p + Z.of_nat n -> bad_at_free z x = false) /\
  (bad' = bad -> forall x, p <= x < p + Z.of_nat n -> page_clean (mem_map z' x)).
Proof using.
  induction n as [|n IH]; intros p bad z bad' z'; cbn [check_free_range].
  { intros [= <- <-]. split_and!; [done|done| |]; intros; lia || (split; intros; lia). }
  destruct (free_pages_check z p) as [b z1] eqn:E. intros Hr.
  apply free_pages_check_spec in E as [Ht1 Hb]. apply IH in Hr as (Ht2 & Hle & Hiff & Hcl).
  assert (Hsame : forall x, x <> p -> bad_at_free z1 x = bad_at_free z x).
  { intros x Hx. unfold bad_at_free. by rewrite (to_out _ _ _ _ Ht1) by lia. }
  assert (Hb0 : 0 <= b) by (destruct (bad_at_free z p); lia). split_and!.
  - eapply touched_trans; [eapply touched_mono; [exact Ht1|lia..]|eapply touched_mono; [exact Ht2|lia..]].
  - lia.
  - split.
    + intros -> x Hx. assert (b = 0) as -> by lia.
      destruct (bad_at_free z p) eqn:Ebp; [lia|]. destruct (decide (x = p)) as [->|]; [done|].
      rewrite <- Hsame by done. apply Hiff; lia.
    + intros Hall. rewrite Hall in Hb by lia. destruct Hb as [-> _].
      rewrite (proj2 Hiff); [lia|]. intros x Hx. rewrite Hsame by lia. apply Hall. lia.
  - intros -> x Hx. assert (b = 0) as -> by lia. destruct (bad_at_free z p) eqn:Ebp; [lia|].
    destruct Hb as [_ Hb]. destruct (decide (x = p)) as [->|].
    + rewrite (to_out _ _ _ _ Ht2) by lia. done.
    + apply Hcl; lia.
Qed.

(** [page->mapping = NULL] on an anonymous page. *)
Definition unmapped (z : zone) (p : Z) : zone :=
  if PageAnon (mem_map z p)
  then on_page z p (fun pg => mkPage (pg_mapcount pg) (pg_private pg) (pg_index pg)
         (pg_zone_id pg) (pg_count pg) 0 (pg_flags pg) (pg_first pg) (pg_lru_prev pg))
  else z.

Lemma sz_of_nat o : Z.of_nat (2 ^ o) = sz o.
Proof using. unfold sz. by rewrite Nat2Z.inj_pow. Qed.

Lemma prepare_spec z p o ok z' :
  free_pages_prepare z p o = (ok, z') ->
  touched z z' p (p + sz o) /\
  (ok = true <-> forall x, in_block p o x -> bad_at_free (unmapped z p) x = false) /\
  (ok = true -> forall x, in_block p o x -> page_clean (mem_map z' x)).
Proof using.
  unfold free_pages_prepare. change (if PageAnon (mem_map z p) then _ else z) with (unmapped z p).
  destruct (check_free_range (2 ^ o) p 0 (unmapped z p)) as [bad z1] eqn:E. intros [= <- <-].
  apply check_free_range_spec in E as (Ht & _ & Hiff & Hcl). rewrite sz_of_nat in *. rewrite Z.eqb_eq.
  split; [|done]. eapply touched_trans; [|exact Ht]. unfold unmapped. destruct (PageAnon _); [|apply touched_refl].
  eapply touched_mono; [apply touched_on_page; auto|lia|]. pose proof (sz_pos o). lia.
Qed.

(** ** Freeing a block *)

Lemma touched_index z p mt : touched z (set_freepage_migratetype z p mt) p (p + 1).
Proof using. apply touched_on_page. auto. Qed.

Lemma clean_touched_index z p mt x :
  page_clean (mem_map z x) -> page_clean (mem_map (set_freepage_migratetype z p mt) x).
Proof using. apply clean_frame, frame_index. Qed.

Lemma pcp_free_block z pc p o mt :
  pcp_ok z pc -> hole z p o -> (o < MAX_ORDER)%nat -> (forall x, in_block p o x -> x ∉ pcp_pages pc) ->
  (forall x, in_block p o x -> page_clean (mem_map z x)) ->
  exists z', __free_one_page z p o mt = Ok z' /\ pcp_ok z' pc /\
    forall x, owned z' pc x <-> owned z pc x \/ in_block p o x.
Proof using Hnf.
  intros [Hwf Hcl Hnd Hpg Hst] Hh Ho Hdis Hpc.
  pose proof (clean_not_compound z p (Hpc p (block_head p o))) as Hcomp.
  destruct (free_block_spec z p o mt Hwf Hh Ho) as (z' & Heq & Hwf' & Hfree & Htot & Hn); [by rewrite Hcomp|].
  pose proof (free_frame _ _ _ _ _ Hcomp Heq) as Hfr. exists z'. split; [done|]. split; [split; try done|].
  - intros x. rewrite Hfree. intros [Hx|Hx]; apply (clean_frame z); auto.
  - intros q Hq. destruct (Hpg q Hq) as [Hhq Hcq]. split; [|by apply (clean_frame z)].
    eapply hole_kept; [exact Hhq|apply Hfr|]. intros x Hx. rewrite Hfree. intros [Hf|Hf].
    + by apply (hole_free _ _ _ Hhq x).
    + apply block0 in Hx as ->. by apply (Hdis q).
  - lia.
  - intros x. unfold owned. rewrite Hfree. tauto.
Qed.

(** [__free_pages_ok] puts a block back on the free lists exactly when
    every page of it passes the checks (no users, no mapping, no mapcount, no
    forbidden flags); a block with a bad page is never freed.  The invariant,
    in particular that all pages on the lists are clean, is kept either way. *)
Theorem __free_pages_ok_correct z pc p o :
  pcp_ok z pc -> hole z p o -> (o < MAX_ORDER)%nat -> (forall x, in_block p o x -> x ∉ pcp_pages pc) ->
  exists z', __free_pages_ok z p o = Ok z' /\ pcp_ok z' pc /\
    ((forall x, in_block p o x -> bad_at_free (unmapped z p) x = false) ->
       forall x, owned z' pc x <-> owned z pc x \/ in_block p o x) /\
    ((exists x, in_block p o x /\ bad_at_free (unmapped z p) x = true) ->
       forall x, owned z' pc x <-> owned z pc x).
Proof using Hnf.
  intros Hok Hh Ho Hdis. unfold __free_pages_ok. destruct (free_pages_prepare z p o) as [ok z1] eqn:E.
  apply prepare_spec in E as (Ht & Hiff & Hcl).
  destruct (touched_pcp z z1 pc p o Ht Hok Hh Hdis) as (Hok1 & Hh1 & Hown1).
  destruct ok; cbn [negb].
  - pose proof (sz_pos o). set (mt := get_pageblock_migratetype z1 p).
    destruct (touched_pcp z1 (set_freepage_migratetype z1 p mt) pc p o) as (Hok2 & Hh2 & Hown2); try done.
    { eapply touched_mono; [apply touched_index|lia..]. }
    destruct (pcp_free_block (set_freepage_migratetype z1 p mt) pc p o mt Hok2 Hh2 Ho Hdis)
      as (z' & Heq & Hok' & Hown').
    { intros x Hx. by apply clean_touched_index, Hcl. }
    exists z'. unfold free_one_page. split_and!; try done.
    + intros _ x. by rewrite Hown', Hown2, Hown1.
    + intros (x & Hx & Hbad). by rewrite (proj1 Hiff eq_refl x Hx) in Hbad.
  - exists z1. split_and!; try done. intros Hall. by apply Hiff in Hall.
Qed.

(** After a successful [free_pages_prepare] the block is never compound:
    PG_head and PG_tail are among the flags it clears, so the
    [destroy_compound_page] branch of [__free_one_page] is dead for it. *)
Theorem free_pages_prepare_not_compound z p o z' :
  free_pages_prepare z p o = (true, z') -> forall x, in_block p o x -> PageCompound z' x = false.
Proof using Hnf.
  intros (_ & _ & Hcl)%prepare_spec x Hx. by apply clean_not_compound, Hcl.
Qed.

(** ** Order-0 pages through the per-cpu lists *)

Definition pcp_counted (pc : per_cpu_pages) : Prop := pc_count pc = Z.of_nat (length (pcp_pages pc)).

Lemma pcp_ok_push z pc p mt l :
  pcp_ok z pc -> is_pcp mt -> hole z p 0 -> page_clean (mem_map z p) -> p ∉ pcp_pages pc ->
  l ≡ₚ p :: pc_lists pc mt ->
  pcp_pages (with_pcp_list pc mt l) ≡ₚ p :: pcp_pages pc /\ pcp_ok z (with_pcp_list pc mt l).
Proof using.
  intros [Hwf Hcl Hnd Hpg Hst] Hmt Hh Hc Hp Hl.
  assert (Hpp : pcp_pages (with_pcp_list pc mt l) ≡ₚ p :: pcp_pages pc).
  { apply (Permutation_app_inv_r (pc_lists pc mt)). rewrite <- pcp_pages_update by done. rewrite Hl.
    solve_Permutation. }
  split; [done|]. split; try done.
  - rewrite Hpp. by constructor.
  - intros q. rewrite Hpp, elem_of_cons. intros [->|Hq]; [done|]. by apply Hpg.
Qed.

(** [free_hot_cold_page]: a page that passes the checks joins the
    allocator's pages, any other does not; when the per-cpu lists reach [high]
    a batch goes back to the buddy lists.  [count] stays the number of pages
    on the lists and below [high]. *)
Theorem free_hot_cold_page_correct z pc p cold :
  pcp_ok z pc -> pcp_counted pc -> hole z p 0 -> p ∉ pcp_pages pc ->
  pc_count pc < pc_high pc -> 0 < pc_batch pc <= pc_high pc ->
  exists z' pc', free_hot_cold_page z pc p cold = Ok (z', pc') /\ pcp_ok z' pc' /\ pcp_counted pc' /\
    pc_count pc' < pc_high pc' /\
    (bad_at_free (unmapped z p) p = false -> forall x, owned z' pc' x <-> owned z pc x \/ x = p) /\
    (bad_at_free (unmapped z p) p = true -> forall x, owned z' pc' x <-> owned z pc x).
Proof using Hnf.
  intros Hok Hcnt Hh Hp Hhigh Hbatch. unfold free_hot_cold_page.
  destruct (free_pages_prepare z p 0) as [ok z1] eqn:E. apply prepare_spec in E as (Ht & Hiff & Hcl).
  assert (Hdis : forall x, in_block p 0 x -> x ∉ pcp_pages pc) by (by intros x ->%block0).
  destruct (touched_pcp z z1 pc p 0 Ht Hok Hh Hdis) as (Hok1 & Hh1 & Hown1).
  destruct ok; cbn [negb].
  2:{ exists z1, pc. split_and!; try done. intros Hb. exfalso.
      assert (false = true); [|done]. apply Hiff. by intros x ->%block0. }
  set (mt := get_pageblock_migratetype z1 p).
  destruct (touched_pcp z1 (set_freepage_migratetype z1 p mt) pc p 0) as (Hok2 & Hh2 & Hown2); try done.
  { apply touched_index. }
  assert (Hc2 : page_clean (mem_map (set_freepage_migratetype z1 p mt) p))
    by (by apply clean_touched_index, Hcl, block0).
  set (z2 := set_freepage_migratetype z1 p mt) in *.
  set (mt' := if negb (is_pcptype mt) then MIGRATE_MOVABLE else mt).
  set (l := if negb cold then p :: pc_lists pc mt' else pc_lists pc mt' ++ [p]).
  assert (Hmt : is_pcp mt') by (unfold mt'; by destruct mt).
  destruct (pcp_ok_push z2 pc p mt' l Hok2 Hmt Hh2 Hc2 Hp) as [Hpp Hok3].
  { unfold l. destruct cold; cbn; [symmetry; apply Permutation_cons_append|done]. }
  set (pc1 := with_pcp_count (with_pcp_list pc mt' l) (pc_count (with_pcp_list pc mt' l) + 1)).
  assert (Hpp1 : pcp_pages pc1 ≡ₚ p :: pcp_pages pc) by exact Hpp.
  assert (Hlen1 : Z.of_nat (length (pcp_pages pc1)) = pc_count pc + 1).
  { rewrite Hpp1. cbn. unfold pcp_counted in Hcnt. lia. }
  assert (Hok1' : pcp_ok z2 pc1) by (destruct Hok3; by split).
  assert (Hown : forall x, owned z2 pc1 x <-> owned z pc x \/ x = p).
  { intros x. rewrite <- Hown1, <- Hown2. unfold owned. rewrite Hpp1, elem_of_cons. tauto. }
  assert (Hnb : bad_at_free (unmapped z p) p = false) by (apply (proj1 Hiff eq_refl), block0; done).
  change (pc_high pc1) with (pc_high pc). change (pc_count pc1) with (pc_count pc + 1).
  destruct (Z.leb_spec (pc_high pc) (pc_count pc + 1)).
  - destruct (free_bulk_spec z2 pc1 (pc_batch pc)) as (z' & pc' & Heq & Hok' & Hown' & Hlen' & Hc' & Hh' & Hb');
      [done|lia|].
    change (pc_batch pc1) with (pc_batch pc). rewrite Heq, res_bind_ok.
    exists z', (with_pcp_count pc' (pc_count pc' - pc_batch pc')).
    assert (pc_count pc1 = pc_count pc + 1) by done.
    assert (pc_batch pc1 = pc_batch pc /\ pc_high pc1 = pc_high pc) as [? ?] by done.
    split_and!; try done.
    + by destruct Hok'.
    + unfold pcp_counted, pcp_pages in *. cbn in *. lia.
    + cbn. lia.
    + intros _ x. rewrite <- Hown. apply Hown'.
    + congruence.
  - exists z2, pc1. split_and!; try done; congruence.
Qed.
End pcp.
