(* ===== verification/PcpAlloc.v ===== *)
(** * buffered_rmqueue: pages handed to callers

    Refilling the per-cpu lists ([rmqueue_bulk]), preparing new pages
    ([prep_new_page]) and their combination [buffered_rmqueue]. *)

From S2P Require Import Prelude BuddyDefs BuddyTheory BuddyFree BuddyAlloc PcpDefs PcpTheory.

Section alloc.
Context `{PageEnv} `{PAEnv}.

(** The lists are consistent, whatever the state of the pages on them. *)
Record lists_ok (z : zone) (pc : per_cpu_pages) : Prop := {
  lo_wf : wf z;
  lo_nodup : NoDup (pcp_pages pc);
  lo_pages : forall p, p ∈ pcp_pages pc -> hole z p 0;
  lo_stat : nr_free_pages z = total z }.

Lemma pcp_ok_lists z pc : pcp_ok z pc -> lists_ok z pc.
Proof using. intros [Hwf _ Hnd Hpg Hst]. split; try done. intros p Hp. by apply Hpg. Qed.

(** The number of pages the allocator holds. *)
Definition held (z : zone) (pc : per_cpu_pages) : Z := total z + Z.of_nat (length (pcp_pages pc)).

(** ** Refilling *)

(** [ps] are pages taken off the buddy lists of [z], leaving [z']. *)
Record refill (z z' : zone) (ps : list Z) : Prop := {
  rf_wf : wf z';
  rf_frame : frame z z';
  rf_nodup : NoDup ps;
  rf_hole : forall p, p ∈ ps -> hole z' p 0;
  rf_free : forall x, free_at z x <-> free_at z' x \/ x ∈ ps;
  rf_total : total z' = total z - Z.of_nat (length ps);
  rf_stat : nr_free_pages z' = nr_free_pages z }.

Lemma refill_cons z z1 z' p ps : taken z z1 p 0 -> frame z z1 -> refill z1 z' ps -> refill z z' (p :: ps).
Proof using.
  intros Ht Hf Hr.
  assert (Hnp : p ∉ ps).
  { intros Hp. apply (hole_free _ _ _ (tk_hole _ _ _ _ Ht) p); [by apply block0|].
    apply (rf_free _ _ _ Hr). by right. }
  split.
  - apply Hr.
  - etransitivity; [exact Hf|apply Hr].
  - constructor; [done|apply Hr].
  - intros q [->|Hq]%elem_of_cons; [|by apply Hr].
    eapply hole_kept; [apply Ht|apply Hr|]. intros x ->%block0 Hx.
    apply (hole_free _ _ _ (tk_hole _ _ _ _ Ht) p); [by apply block0|]. apply (rf_free _ _ _ Hr). by left.
  - intros x. rewrite elem_of_cons. pose proof (tk_free _ _ _ _ Ht x) as H1. pose proof (rf_free _ _ _ Hr x).
    pose proof (tk_was_free _ _ _ _ Ht x). rewrite block0 in *. destruct (decide (x = p)); tauto.
  - rewrite (rf_total _ _ _ Hr), (tk_total _ _ _ _ Ht). unfold sz. cbn [length]. rewrite Nat2Z.inj_succ. cbn. lia.
  - rewrite (rf_stat _ _ _ Hr). apply Ht.
Qed.

Lemma refill_nil z : wf z -> refill z z [].
Proof using.
  intros Hwf. split.
  - done.
  - done.
  - apply NoDup_nil_2.
  - by intros p ?%not_elem_of_nil.
  - intros x. rewrite elem_of_nil. tauto.
  - cbn. lia.
  - done.
Qed.

Lemma bulk_from_spec mt n : forall z acc, wf z -> mt <> MIGRATE_RESERVE ->
  exists ps z', rmqueue_bulk_from n z 0 mt acc = Ok (acc ++ ps, z') /\ refill z z' ps /\
    (ps = [] -> (0 < n)%nat -> forall p o, ~ blk z p o).
Proof using.
  induction n as [|n IH]; intros z acc Hwf Hmt; cbn [rmqueue_bulk_from].
  { exists [], z. rewrite app_nil_r. split; [done|]. split; [by apply refill_nil|lia]. }
  destruct (rmqueue_spec z 0 mt Hwf) as (r & z1 & Heq & Hr); [unfold MAX_ORDER; lia|].
  rewrite Heq, res_bind_ok. pose proof (rmqueue_frame _ _ _ _ _ Heq) as Hf. destruct r as [p|].
  - destruct (IH z1 (acc ++ [p]) (tk_wf _ _ _ _ Hr) Hmt) as (ps & z' & -> & Hps & _).
    exists (p :: ps), z'. rewrite <- app_assoc. split; [done|]. split; [by eapply refill_cons|done].
  - destruct Hr as [-> Hr]. rewrite decide_False in Hr by done. exists [], z. rewrite app_nil_r.
    split; [done|]. split; [by apply refill_nil|intros _ _ p o; apply Hr; lia].
Qed.

(** ** Preparing new pages *)

(** A page that [check_new_page] lets pass: no users, no mapping, none of the
    checked flags, not charged. *)
Definition page_good (z : zone) (x : Z) : Prop := page_clean (mem_map z x) /\ mem_cgroup_bad_page_check x = false.

Lemma bad_at_prep_spec z x : bad_at_prep z x = false <->
  pg_count (mem_map z x) = 0 /\ pg_mapping (mem_map z x) = 0 /\ Z.land (pg_flags (mem_map z x)) PAGE_FLAGS_CHECK_AT_PREP = 0 /\
  pg_mapcount (mem_map z x) = -1 /\ mem_cgroup_bad_page_check x = false.
Proof using.
  unfold bad_at_prep, page_mapcount. rewrite !orb_false_iff, !negb_false_iff, !Z.eqb_eq. split.
  - intros ((((? & ?) & ?) & ?) & ?). split_and!; try done. lia.
  - intros (? & ? & ? & ? & ?). split_and!; try done. lia.
Qed.

Lemma new_page_bad z p : wf z -> hole z p 0 -> bad_at_prep z p = true -> ~ page_good z p.
Proof using.
  intros Hwf Hh Hbad [(Hc & Hm & Hfl & Hmc) Hcg]. pose proof (hole_not_buddy z p 0 Hwf Hh) as Hb.
  assert (bad_at_prep z p = false); [|congruence]. apply bad_at_prep_spec. split_and!; try done.
  destruct Hmc as [?|Hmc]; [done|]. unfold PageBuddy in Hb. rewrite Hmc in Hb. done.
Qed.

(** The loop stops at the first bad page of the range. *)
Lemma new_range_cases z n : forall p, wf z -> (forall x, p <= x < p + Z.of_nat n -> hole z x 0) ->
  (check_new_range n p z = (0, z) /\ forall x, p <= x < p + Z.of_nat n -> bad_at_prep z x = false) \/
  (exists x, check_new_range n p z = (1, bad_page z x) /\ p <= x < p + Z.of_nat n /\ ~ page_good z x).
Proof using.
  induction n as [|n IH]; intros p Hwf Hall; cbn [check_new_range]; [left; split; [done|lia]|].
  unfold check_new_page. destruct (bad_at_prep z p) eqn:Eb; cbn [Z.eqb negb].
  - right. exists p. split; [done|]. split; [lia|]. apply new_page_bad; [done|apply Hall; lia|done].
  - destruct (IH (p + 1) Hwf) as [[-> Hg]|(x & -> & Hx & Hbad)]; [intros x Hx; apply Hall; lia|left|right].
    + split; [done|]. intros x Hx. destruct (decide (x = p)) as [->|]; [done|]. apply Hg. lia.
    + exists x. split; [done|]. split; [lia|done].
Qed.

Lemma hole_page z p o x : hole z p o -> in_block p o x -> hole z x 0.
Proof using.
  intros Hh Hx. eapply hole_sub; [exact Hh|destruct Hh; unfold in_block in *; lia| |].
  - unfold sz. cbn. exists x. lia.
  - by intros y ->%block0.
Qed.

Lemma prep_tails_touched n p b : forall i z,
  0 <= i -> i + Z.of_nat n <= b -> touched z (prep_tails n i p z) p (p + b).
Proof using.
  induction n as [|n IH]; intros i z Hi Hb; cbn [prep_tails]; [done|].
  eapply touched_trans; [|apply IH; lia].
  assert (Hon : forall z f, (forall pg, pg_zone_id (f pg) = pg_zone_id pg /\
            (pg_mapcount (f pg) = pg_mapcount pg \/ pg_mapcount (f pg) = -1)) ->
            touched z (on_page z (p + i) f) p (p + b)).
  { intros z0 f Hf. eapply touched_mono; [by apply touched_on_page|lia..]. }
  eapply touched_trans; [|eapply touched_trans]; apply Hon; auto.
Qed.

Lemma prep_tails_head n p : forall i z, 0 < i -> mem_map (prep_tails n i p z) p = mem_map z p.
Proof using.
  induction n as [|n IH]; intros i z Hi; cbn [prep_tails]; [done|]. rewrite IH by lia.
  rewrite !on_page_eq. by rewrite !(proj2 (Z.eqb_neq p (p + i))) by lia.
Qed.

Lemma sz_ge2 o : o <> 0%nat -> 2 <= sz o.
Proof using. intros Ho. destruct o; [done|]. rewrite sz_S. pose proof (sz_pos o). lia. Qed.

Lemma prep_compound_touched z p o : o <> 0%nat -> touched z (prep_compound_page z p o) p (p + sz o).
Proof using.
  intros Ho. pose proof (sz_ge2 o Ho). unfold prep_compound_page, set_compound_order.
  set (z1 := on_page z (p + 1) _).
  apply (touched_trans _ z1); [|eapply touched_trans; [|apply prep_tails_touched]].
  - eapply touched_mono; [apply touched_on_page; auto|lia..].
  - eapply touched_mono; [apply touched_on_page; auto|lia..].
  - lia.
  - pose proof (sz_of_nat o). lia.
Qed.

(** The marks of a compound page leave the map counts alone. *)
Lemma on_page_mapcount z q f x : (forall pg, pg_mapcount (f pg) = pg_mapcount pg) ->
  pg_mapcount (mem_map (on_page z q f) x) = pg_mapcount (mem_map z x).
Proof using. intros Hf. rewrite on_page_eq. destruct (Z.eqb_spec x q) as [->|]; [apply Hf|done]. Qed.

Lemma prep_tails_mapcount n p x : forall i z, pg_mapcount (mem_map (prep_tails n i p z) x) = pg_mapcount (mem_map z x).
Proof using. induction n as [|n IH]; intros i z; cbn [prep_tails]; [done|]. by rewrite IH, !on_page_mapcount. Qed.

Lemma prep_compound_mapcount z p o x : pg_mapcount (mem_map (prep_compound_page z p o) x) = pg_mapcount (mem_map z x).
Proof using. unfold prep_compound_page, set_compound_order. by rewrite prep_tails_mapcount, !on_page_mapcount. Qed.

Lemma touched_lists z z' pc p o :
  touched z z' p (p + sz o) -> lists_ok z pc -> hole z p o ->
  lists_ok z' pc /\ hole z' p o /\ held z' pc = held z pc /\ forall x, owned z' pc x <-> owned z pc x.
Proof using.
  intros Ht [Hwf Hnd Hpg Hst] Hh. destruct (touched_wf z z' p o Ht Hwf Hh) as [Hwf' Hh'].
  split_and!; [split; try done|done| |].
  - intros q Hq. eapply hole_kept; [by apply Hpg|intros; by eapply touched_spans|]. intros x Hx.
    rewrite (touched_free _ _ _ _ _ Ht). by apply (Hpg q).
  - rewrite (to_stat _ _ _ _ Ht), (touched_total _ _ _ _ Ht). done.
  - unfold held. by rewrite (touched_total _ _ _ _ Ht).
  - intros x. unfold owned. by rewrite (touched_free _ _ _ _ _ Ht).
Qed.

(** What [prep_new_page] leaves alone. *)
Definition kept_outside (z z' : zone) (p : Z) (o : nat) : Prop :=
  forall x, ~ in_block p o x -> page_clean (mem_map z x) -> page_clean (mem_map z' x).

(** A page of a block that was accepted: [z] is the state in which it was
    looked at, [z'] the one in which it is handed out. *)
Definition page_checked (z z' : zone) (x : Z) : Prop :=
  pg_count (mem_map z x) = 0 /\ pg_mapping (mem_map z x) = 0 /\ Z.land (pg_flags (mem_map z x)) PAGE_FLAGS_CHECK_AT_PREP = 0 /\
  mem_cgroup_bad_page_check x = false /\ pg_mapcount (mem_map z' x) = -1.

(** A block that belongs to nobody is accepted and gets a reference, or one of
    its pages is bad. *)
Lemma prep_new_cases z pc p o comp :
  lists_ok z pc -> hole z p o ->
  exists b z', prep_new_page z p o comp = (b, z') /\ lists_ok z' pc /\ hole z' p o /\ held z' pc = held z pc /\
    (forall x, owned z' pc x <-> owned z pc x) /\
    ((b = 0 /\ pg_count (mem_map z' p) = 1 /\ (forall x, in_block p o x -> page_checked z z' x) /\ kept_outside z z' p o) \/
     (b = 1 /\ frame z z' /\ exists x, in_block p o x /\ ~ page_good z x)).
Proof using.
  intros Hok Hh. unfold prep_new_page.
  destruct (new_range_cases z (2 ^ o) p (lo_wf _ _ Hok)) as [[-> Hg]|(x & -> & Hx & Hbad)];
    [intros x Hx; rewrite sz_of_nat in Hx; by eapply hole_page| |]; rewrite sz_of_nat in *; cbn [Z.eqb negb].
  - set (z1 := on_page (set_page_private z p 0) p _). pose proof (sz_pos o).
    set (z2 := if negb (o =? 0)%nat && comp then prep_compound_page z1 p o else z1).
    assert (Ht1 : touched z z1 p (p + sz o)).
    { apply (touched_trans _ (set_page_private z p 0));
        (eapply touched_mono; [apply touched_on_page; auto|lia..]). }
    assert (Ht2 : touched z1 z2 p (p + sz o)).
    { unfold z2. destruct (Nat.eqb_spec o 0); cbn [negb andb]; [done|].
      destruct comp; [by apply prep_compound_touched|done]. }
    assert (Ht : touched z z2 p (p + sz o)) by (by eapply touched_trans).
    assert (Hc1 : pg_count (mem_map z1 p) = 1) by (cbn; unfold upd; by rewrite Z.eqb_refl).
    assert (Hc2 : pg_count (mem_map z2 p) = 1).
    { unfold z2. destruct (negb _ && comp); [|done]. unfold prep_compound_page, set_compound_order.
      rewrite prep_tails_head, on_page_eq, Z.eqb_refl by lia. cbn [set_flag with_flags pg_count].
      rewrite on_page_eq. by rewrite (proj2 (Z.eqb_neq p (p + 1))) by lia. }
    destruct (touched_lists z z2 pc p o) as (? & ? & ? & ?); try done.
    exists 0, z2. split_and!; try done. left. split_and!; try done.
    + intros x Hx. destruct (proj1 (bad_at_prep_spec z x) (Hg x Hx)) as (? & ? & ? & Hmc & ?). split_and!; try done. rewrite <- Hmc.
      transitivity (pg_mapcount (mem_map z1 x)).
      * unfold z2. destruct (negb _ && comp); [apply prep_compound_mapcount|done].
      * unfold z1, set_page_private. by rewrite !on_page_mapcount.
    + intros x Hx. by rewrite (to_out _ _ _ _ Ht) by done.
  - assert (Ht : touched z (bad_page z x) p (p + sz o)) by (eapply touched_mono; [apply touched_on_page; auto|lia|lia]).
    destruct (touched_lists z (bad_page z x) pc p o) as (? & ? & ? & ?); try done.
    exists 1, (bad_page z x). split_and!; try done. right. split_and!; [done| |by exists x].
    apply frame_on_page. intros pg. split_and!; try done. intros _. by left.
Qed.

(** ** One round of buffered_rmqueue *)

Lemma is_pcp_not_reserve mt : is_pcp mt -> mt <> MIGRATE_RESERVE.
Proof using. by intros Hmt ->. Qed.

Lemma refill_lists z pc mt cold :
  lists_ok z pc -> pcp_counted pc -> is_pcp mt -> pc_lists pc mt = [] -> 0 < pc_batch pc ->
  exists i l z', rmqueue_bulk z 0 (pc_batch pc) [] mt cold = Ok (i, l, z') /\
    let pc' := with_pcp_count (with_pcp_list pc mt l) (pc_count pc + i) in
    lists_ok z' pc' /\ pcp_counted pc' /\ frame z z' /\ held z' pc' = held z pc /\
    (forall x, owned z' pc' x <-> owned z pc x) /\ (l = [] -> forall p o, ~ blk z' p o).
Proof using.
  intros [Hwf Hnd Hpg Hst] Hcnt Hmt Hl Hb. unfold rmqueue_bulk.
  destruct (bulk_from_spec mt (Z.to_nat (pc_batch pc)) z [] Hwf (is_pcp_not_reserve _ Hmt))
    as (ps & z' & -> & [Hwf' Hfr Hnd' Hh' Hfree' Htot' Hst'] & Hnone).
  rewrite res_bind_ok. cbn [app]. do 3 eexists. split; [done|]. set (l := if negb cold then _ else _).
  assert (Hlp : l ≡ₚ ps).
  { unfold l. destruct cold; cbn; rewrite ?app_nil_r; [symmetry; apply Permutation_rev|done]. }
  assert (Hpp : pcp_pages (with_pcp_list pc mt l) ≡ₚ ps ++ pcp_pages pc).
  { pose proof (pcp_pages_update pc mt l Hmt) as Hu. rewrite Hl, app_nil_r in Hu. rewrite <- Hu, Hlp.
    apply Permutation_app_comm. }
  cbn zeta. set (pc' := with_pcp_count _ _). assert (Hpp' : pcp_pages pc' ≡ₚ ps ++ pcp_pages pc) by exact Hpp.
  assert (Hsep : forall x, x ∈ ps -> x ∉ pcp_pages pc).
  { intros x Hx Hx'. apply (hole_free _ _ _ (Hpg x Hx') x); [by apply block0|]. apply Hfree'. by right. }
  split_and!.
  - split.
    + by eapply wf_same; [|exact Hwf'].
    + rewrite Hpp'. by apply NoDup_app.
    + intros p. rewrite Hpp', elem_of_app. intros Hp. apply (hole_same z'); [done|]. destruct Hp as [Hp|Hp]; [by apply Hh'|].
      pose proof (Hpg p Hp) as Hh. eapply hole_kept; [exact Hh|apply Hfr|]. intros x Hx Hf.
      apply (hole_free _ _ _ Hh x Hx). apply Hfree'. by left.
    + change (nr_free_pages z' - Z.of_nat (length ps) * 2 ^ Z.of_nat 0 = total z').
      change (2 ^ Z.of_nat 0) with 1. lia.
  - unfold pcp_counted in *. rewrite Hpp', length_app, Nat2Z.inj_add. cbn. lia.
  - etransitivity; [exact Hfr|by apply frame_map].
  - unfold held. rewrite Hpp', length_app, Nat2Z.inj_add. change (total (with_nr_free_pages z' _)) with (total z'). lia.
  - intros x. unfold owned. rewrite Hpp', elem_of_app.
    change (free_at (with_nr_free_pages z' _) x) with (free_at z' x). rewrite Hfree'. tauto.
  - intros Hln p o Hblk. rewrite Hln in Hlp. apply Permutation_nil in Hlp as ->.
    assert (Hf' : free_at z' p) by (exists p, o; auto with buddy).
    destruct (proj2 (Hfree' p) (or_introl Hf')) as (q & o' & Hq & _). by apply (Hnone eq_refl ltac:(lia) q o').
Qed.

Lemma lists_take z pc pc' p :
  lists_ok z pc -> pcp_pages pc ≡ₚ p :: pcp_pages pc' ->
  lists_ok z pc' /\ hole z p 0 /\ (p ∉ pcp_pages pc') /\ held z pc' = held z pc - 1 /\
  forall x, owned z pc x <-> owned z pc' x \/ x = p.
Proof using.
  intros [Hwf Hnd Hpg Hst] Hp. pose proof (Hpg p ltac:(rewrite Hp; by left)) as Hh.
  rewrite Hp in Hnd. apply NoDup_cons in Hnd as [Hn Hnd]. split_and!; try done.
  - split; try done. intros q Hq. apply Hpg. rewrite Hp. by right.
  - unfold held. rewrite Hp. cbn [length]. lia.
  - intros x. unfold owned. rewrite Hp, elem_of_cons. tauto.
Qed.

Lemma pop_perm (l : list Z) (cold : bool) p :
  (if cold then last l else head l) = Some p -> l ≡ₚ p :: (if cold then removelast l else tail l).
Proof using.
  destruct cold.
  - intros Hl. rewrite (PcpTheory.removelast_last _ _ Hl) at 1. symmetry. apply Permutation_cons_append.
  - destruct l; [done|]. by intros [= ->].
Qed.

(** A round takes a block off the lists, and hands it out or drops it; or there
    is none. *)
Definition handed_out (z z' : zone) (pc' : per_cpu_pages) (order : nat) (p : Z) : Prop :=
  hole z' p order /\ (forall x, in_block p order x -> x ∉ pcp_pages pc') /\ pg_count (mem_map z' p) = 1 /\
  (forall x, in_block p order x -> page_checked z z' x) /\ kept_outside z z' p order.

Definition round_post (z : zone) (pc : per_cpu_pages) (order : nat)
    (out : zone * per_cpu_pages + option Z * zone * per_cpu_pages) : Prop :=
  match out with
  | inl (z', pc') => lists_ok z' pc' /\ pcp_counted pc' /\ pc_batch pc' = pc_batch pc /\ frame z z' /\ held z' pc' < held z pc /\
      exists q, (exists x, in_block q order x /\ ~ page_good z x) /\
        forall x, owned z pc x <-> owned z' pc' x \/ in_block q order x
  | inr (Some p, z', pc') => lists_ok z' pc' /\ pcp_counted pc' /\ handed_out z z' pc' order p /\
      forall x, owned z pc x <-> owned z' pc' x \/ in_block p order x
  | inr (None, z', pc') => lists_ok z' pc' /\ pcp_counted pc' /\ frame z z' /\
      (forall x, owned z' pc' x <-> owned z pc x) /\ forall p o, (order <= o)%nat -> ~ blk z' p o
  end.

Lemma checked_frame z z1 z' x : frame z z1 -> page_checked z1 z' x -> page_checked z z' x.
Proof using. intros Hf. unfold page_checked. by rewrite (fr_count _ _ Hf), (fr_mapping _ _ Hf), (fr_flags _ _ Hf). Qed.

Lemma good_frame z z1 x : frame z z1 -> ~ page_good z1 x -> ~ page_good z x.
Proof using. intros Hf Hn [Hc Hg]. apply Hn. split; [by eapply clean_frame|done]. Qed.

(** The end of a round, with the block [p] taken off the lists. *)
Lemma round_finish z pc z1 pc1 order comp p :
  lists_ok z1 pc1 -> pcp_counted pc1 -> pc_batch pc1 = pc_batch pc -> frame z z1 -> held z1 pc1 < held z pc -> hole z1 p order ->
  (forall x, in_block p order x -> x ∉ pcp_pages pc1) -> (forall x, owned z pc x <-> owned z1 pc1 x \/ in_block p order x) ->
  exists out, (let '(b, z) := prep_new_page z1 p order comp in
    if negb (b =? 0) then Ok (inl (z, pc1)) else Ok (inr (Some p, z, pc1))) = Ok out /\ round_post z pc order out.
Proof using.
  intros Hok Hcnt Hba Hf Hheld Hh Hdis Hown.
  destruct (prep_new_cases z1 pc1 p order comp Hok Hh) as (b & z2 & -> & Hok2 & Hh2 & Hheld2 & Hown2 & Hb).
  destruct Hb as [(-> & Hc & Hch & Hk)|(-> & Hf2 & x & Hx & Hbad)]; cbn [Z.eqb negb]; eexists; (split; [done|]).
  - split; [done|]. split; [done|]. split.
    + split_and!; try done; [intros x Hx; eapply checked_frame; [done|by apply Hch]|].
      intros x Hx Hc1. apply Hk; [done|]. by eapply clean_frame.
    + intros x. by rewrite Hown2.
  - split_and!; try done; [by etransitivity|lia|]. exists p. split; [|intros y; by rewrite Hown2].
    exists x. split; [done|]. by eapply good_frame.
Qed.

Lemma buffered_order0 z pc mt cold comp :
  lists_ok z pc -> pcp_counted pc -> is_pcp mt -> 0 < pc_batch pc ->
  exists out, buffered_step 0 mt cold comp (z, pc) = Ok out /\ round_post z pc 0 out.
Proof using.
  intros Hok Hcnt Hmt Hb. unfold buffered_step. cbn [Nat.eqb].
  assert (Hre : exists z1 pc1,
    match pc_lists pc mt with
    | [] => '(i, l, z) ← rmqueue_bulk z 0 (pc_batch pc) [] mt cold;
            Ok (z, with_pcp_count (with_pcp_list pc mt l) (pc_count pc + i))
    | _ => Ok (z, pc)
    end = Ok (z1, pc1) /\ lists_ok z1 pc1 /\ pcp_counted pc1 /\ pc_batch pc1 = pc_batch pc /\ frame z z1 /\ held z1 pc1 = held z pc /\
    (forall x, owned z1 pc1 x <-> owned z pc x) /\ (pc_lists pc1 mt = [] -> forall p o, ~ blk z1 p o)).
  { destruct (pc_lists pc mt) eqn:El.
    - destruct (refill_lists z pc mt cold Hok Hcnt Hmt El Hb) as (i & l & z' & -> & ? & ? & ? & ? & ? & Hn).
      rewrite res_bind_ok. do 2 eexists. split; [done|]. split_and!; try done.
      cbn. rewrite decide_True by done. done.
    - exists z, pc. split_and!; try done. by rewrite El. }
  destruct Hre as (z1 & pc1 & -> & Hok1 & Hcnt1 & Hba1 & Hf1 & Hheld1 & Hown1 & Hn1). rewrite res_bind_ok.
  destruct (if cold then last (pc_lists pc1 mt) else head (pc_lists pc1 mt)) as [p|] eqn:Ep.
  - apply pop_perm in Ep. set (l := if cold then _ else _) in *.
    set (pc2 := with_pcp_count (with_pcp_list pc1 mt l) (pc_count pc1 - 1)).
    assert (Hp2 : pcp_pages pc1 ≡ₚ p :: pcp_pages pc2) by (by apply pcp_pages_pop).
    destruct (lists_take z1 pc1 pc2 p Hok1 Hp2) as (Hok2 & Hh2 & Hnp2 & Hheld2 & Hown2).
    apply round_finish; try done; [|lia|by intros x ->%block0|].
    + unfold pcp_counted in *. rewrite Hp2 in Hcnt1. cbn in *. lia.
    + intros x. rewrite block0, <- Hown2, Hown1. done.
  - eexists. split; [done|]. split_and!; try done. intros q o _. apply Hn1.
    destruct cold; [by apply last_None|by destruct (pc_lists pc1 mt)].
Qed.

Lemma buffered_high z pc order mt cold comp :
  lists_ok z pc -> pcp_counted pc -> is_pcp mt -> (0 < order < MAX_ORDER)%nat ->
  exists out, buffered_step order mt cold comp (z, pc) = Ok out /\ round_post z pc order out.
Proof using.
  intros Hok Hcnt Hmt Ho. unfold buffered_step. rewrite (proj2 (Nat.eqb_neq _ _)) by lia.
  pose proof Hok as [Hwf Hnd Hpg Hst].
  destruct (rmqueue_spec z order mt Hwf) as (r & z1 & Heq & Hr); [lia|]. rewrite Heq, res_bind_ok.
  pose proof (rmqueue_frame _ _ _ _ _ Heq) as Hf. destruct r as [p|].
  2:{ destruct Hr as [-> Hr]. rewrite decide_False in Hr by (by apply is_pcp_not_reserve).
      eexists. split; [done|]. done. }
  destruct Hr as [Hwf1 Hh1 Hwas Hfree Htot Hst1]. set (z2 := __mod_zone_freepage_state z1 _).
  assert (Hs : same z1 z2) by done. assert (Hf2 : frame z z2) by (etransitivity; [exact Hf|by apply frame_map]).
  apply round_finish; try done.
  - split; try done.
    + by eapply wf_same.
    + intros q Hq. eapply hole_kept; [by apply Hpg|apply Hf2|]. intros x Hx Hfx. apply (hole_free _ _ _ (Hpg q Hq) x Hx).
      apply Hfree. exact Hfx.
    + change (nr_free_pages z1 + - 2 ^ Z.of_nat order = total z1). unfold sz in Htot. lia.
  - unfold held. change (total z2) with (total z1). pose proof (sz_pos order). lia.
  - by eapply hole_same.
  - intros x Hx Hx'. apply (hole_free _ _ _ (Hpg x Hx') x); [by apply block0|auto].
  - intros x. unfold owned. change (free_at z2 x) with (free_at z1 x). rewrite Hfree.
    specialize (Hwas x). destruct (decide (p <= x < p + sz order)); unfold in_block in *; tauto.
Qed.

(** ** The loop over bad pages *)

(** [lost] are the blocks that were dropped because of a bad page. *)
Definition buffered_post (z : zone) (pc : per_cpu_pages) (order : nat) (lost : list Z)
    (out : option Z * zone * per_cpu_pages) : Prop :=
  let '(r, z', pc') := out in
  let dropped x := exists q, q ∈ lost /\ in_block q order x in
  lists_ok z' pc' /\ pcp_counted pc' /\
  (forall q, q ∈ lost -> exists x, in_block q order x /\ ~ page_good z x) /\
  match r with
  | Some p => handed_out z z' pc' order p /\ forall x, owned z pc x <-> owned z' pc' x \/ in_block p order x \/ dropped x
  | None => frame z z' /\ (forall x, owned z pc x <-> owned z' pc' x \/ dropped x) /\ forall p o, (order <= o)%nat -> ~ blk z' p o
  end.

Lemma buffered_step_cases z pc order mt cold comp :
  lists_ok z pc -> pcp_counted pc -> is_pcp mt -> (order < MAX_ORDER)%nat -> 0 < pc_batch pc ->
  exists out, buffered_step order mt cold comp (z, pc) = Ok out /\ round_post z pc order out.
Proof using. intros. destruct order; [by apply buffered_order0|apply buffered_high; done || lia]. Qed.

Lemma handed_out_frame z z1 z' pc' order p : frame z z1 -> handed_out z1 z' pc' order p -> handed_out z z' pc' order p.
Proof using.
  intros Hf (Hh & Hdis & Hc & Hch & Hk). split_and!; try done; [intros x Hx; eapply checked_frame; [done|by apply Hch]|].
  intros x Hx Hcl. apply Hk; [done|]. by eapply clean_frame.
Qed.

Lemma buffered_loop order mt cold comp fuel : forall z pc,
  held z pc < Z.of_nat fuel -> lists_ok z pc -> pcp_counted pc -> is_pcp mt -> (order < MAX_ORDER)%nat -> 0 < pc_batch pc ->
  exists out lost, buffered_rmqueue fuel z pc order mt cold comp = Ok out /\ buffered_post z pc order lost out.
Proof using.
  unfold buffered_rmqueue. induction fuel as [|fuel IH]; intros z pc Hf Hok Hcnt Hmt Ho Hb; [exfalso; revert Hf; unfold held; pose proof (total_nonneg z); lia|].
  cbn [loop]. destruct (buffered_step_cases z pc order mt cold comp) as (out & -> & Hpost); try done.
  destruct out as [[z1 pc1]|[[[p|] z1] pc1]].
  - destruct Hpost as (Hok1 & Hcnt1 & Hb1 & Hf1 & Hheld1 & q & Hbad & Hown1).
    destruct (IH z1 pc1) as ([[r z2] pc2] & lost & Hl & Hok2 & Hcnt2 & Hlost & Hr); try done; [lia|lia|].
    exists (r, z2, pc2), (q :: lost). split; [done|]. split; [done|]. split; [done|]. split.
    { intros q' [->|Hq']%elem_of_cons; [done|]. destruct (Hlost q' Hq') as (x & Hx & Hn). exists x. split; [done|]. by eapply good_frame. }
    assert (Hdrop : forall x, (exists q', q' ∈ q :: lost /\ in_block q' order x) <-> in_block q order x \/ exists q', q' ∈ lost /\ in_block q' order x).
    { intros x. setoid_rewrite elem_of_cons. split; [intros (q' & [->|?] & ?); eauto|intros [?|(q' & ? & ?)]; eauto]. }
    destruct r as [p|].
    + destruct Hr as [Hr Hown2]. split; [by eapply handed_out_frame|]. intros x. rewrite Hown1, Hown2, Hdrop. tauto.
    + destruct Hr as (Hf2 & Hown2 & Hno). split; [by etransitivity|]. split; [|done]. intros x. rewrite Hown1, Hown2, Hdrop. tauto.
  - destruct Hpost as (Hok1 & Hcnt1 & Hr & Hown). exists (Some p, z1, pc1), []. split; [done|]. split_and!; try done; [by intros q ?%not_elem_of_nil|].
    intros x. rewrite Hown. split; [tauto|]. intros [?|[?|(q & ?%not_elem_of_nil & _)]]; [tauto..|done].
  - destruct Hpost as (Hok1 & Hcnt1 & Hf1 & Hown & Hno). exists (None, z1, pc1), []. split; [done|]. split_and!; try done; [by intros q ?%not_elem_of_nil|].
    intros x. rewrite <- Hown. split; [tauto|]. intros [?|(q & ?%not_elem_of_nil & _)]; done.
Qed.

(** C8.  [buffered_rmqueue] terminates, whatever the state of the pages on the
    lists: the number of pages on them bounds the number of rounds.  A page it
    returns heads an aligned block that leaves the allocator's pages, that no
    list refers to any more, and that has one reference; every page of the block
    was found without users, mapping, flags and charge.  The blocks that are
    lost besides each have a page that is not clean; no other page leaves.  The
    lists stay consistent and the per-cpu count exact.  NULL means that no free
    block of the order or above is left. *)
Theorem buffered_rmqueue_correct fuel z pc order mt cold comp :
  held z pc < Z.of_nat fuel -> lists_ok z pc -> pcp_counted pc -> is_pcp mt -> (order < MAX_ORDER)%nat -> 0 < pc_batch pc ->
  exists r z' pc' (lost : list Z), buffered_rmqueue fuel z pc order mt cold comp = Ok (r, z', pc') /\
    lists_ok z' pc' /\ pcp_counted pc' /\
    (forall q, q ∈ lost -> exists x, in_block q order x /\ ~ page_good z x) /\
    let dropped x := exists q, q ∈ lost /\ in_block q order x in
    match r with
    | Some p => hole z' p order /\ (forall x, in_block p order x -> x ∉ pcp_pages pc') /\ pg_count (mem_map z' p) = 1 /\
        (forall x, in_block p order x -> page_checked z z' x) /\
        (forall x, ~ in_block p order x -> page_clean (mem_map z x) -> page_clean (mem_map z' x)) /\
        forall x, owned z pc x <-> owned z' pc' x \/ in_block p order x \/ dropped x
    | None => frame z z' /\ (forall x, owned z pc x <-> owned z' pc' x \/ dropped x) /\ forall p o, (order <= o)%nat -> ~ blk z' p o
    end.
Proof using.
  intros Hfuel Hok Hcnt Hmt Ho Hb. destruct (buffered_loop order mt cold comp fuel z pc) as ([[r z'] pc'] & lost & Hl & H1 & H2 & H3 & H4); try done.
  exists r, z', pc', lost. split_and!; try done. destruct r; [|done]. by destruct H4 as [(? & ? & ? & ? & ?) ?].
Qed.
End alloc.
