(* ===== verification/Watermark.v ===== *)
(** * Watermarks guarantee allocations

    [__zone_watermark_ok] discounts the blocks below the requested order; when
    it answers true a sufficiently large block is free and [__rmqueue]
    succeeds. *)

From S2P Require Import Prelude BuddyDefs BuddyTheory BuddyFree BuddyAlloc PcpDefs.

Lemma sumZ_app {A} (f : A -> Z) l1 l2 : sumZ f (l1 ++ l2) = sumZ f l1 + sumZ f l2.
Proof. induction l1 as [|x l1 IH]; [done|]. unfold sumZ in *. cbn. lia. Qed.

Lemma sumZ_pos {A} (f : A -> Z) l : 0 < sumZ f l -> exists x, x ∈ l /\ 0 < f x.
Proof.
  induction l as [|x l IH]; unfold sumZ in *; cbn; [lia|]. intros Hs.
  destruct (Z.le_gt_cases (f x) 0).
  - destruct IH as (y & Hy & ?); [lia|]. exists y. split; [by right|done].
  - exists x. split; [by left|lia].
Qed.

Lemma sumZ_elem {A} (f : A -> Z) l x : (forall y, y ∈ l -> 0 <= f y) -> x ∈ l -> f x <= sumZ f l.
Proof.
  intros Hf Hx. apply list_elem_of_split in Hx as (l1 & l2 & ->). rewrite sumZ_app.
  assert (0 <= sumZ f l1) by (apply sumZ_nonneg; intros; apply Hf; set_solver).
  assert (0 <= sumZ f l2) by (apply sumZ_nonneg; intros; apply Hf; set_solver).
  unfold sumZ in *. cbn. lia.
Qed.

Lemma count_blk z o : 0 < count z o -> exists p, blk z p o.
Proof.
  intros (mt & _ & Hl)%sumZ_pos. destruct (free_list z o mt) as [|p l] eqn:E; [cbn in Hl; lia|].
  exists p, mt. rewrite E. by left.
Qed.

(** No counter wraps when the pages fit in 64 bits. *)
Lemma nr_free_count z o : wf z -> total z < 2 ^ 64 -> (o < MAX_ORDER)%nat -> nr_free z o = count z o.
Proof.
  intros Hwf Ht Ho. rewrite (wf_count _ Hwf). apply u64_small.
  pose proof (count_nonneg z o). split; [done|].
  assert (count z o * sz o <= total z).
  { apply (sumZ_elem (fun o => count z o * sz o)); [|apply elem_of_seq; lia].
    intros o' _. pose proof (count_nonneg z o'). pose proof (sz_pos o'). nia. }
  pose proof (sz_pos o). nia.
Qed.

(** The pages of the smaller orders are taken away one order after the other,
    and what is left stays positive; no difference wraps around. *)
Lemma watermark_loop_true z sh n : forall o fp min,
  watermark_loop n o z sh fp min = true -> 0 <= min -> 0 < fp < 2 ^ 63 ->
  (forall i, (o <= i < o + n)%nat -> 0 <= nr_free z i * sz i < 2 ^ 63) ->
  0 < fp - sumZ (fun i => nr_free z i * sz i) (seq o n).
Proof.
  induction n as [|n IH]; intros o fp min; cbn [watermark_loop seq]; [unfold sumZ; cbn; lia|].
  intros Hw Hmin Hfp Hnr. pose proof (Hnr o ltac:(lia)) as Ho.
  rewrite Z.shiftl_mul_pow2 in Hw by lia. fold (sz o) in Hw. rewrite (u64_small (nr_free z o * sz o)) in Hw by lia.
  rewrite s64_small in Hw by lia.
  destruct (Z.leb_spec (fp - nr_free z o * sz o) (Z.shiftr min sh)) as [|Hgt]; [done|].
  assert (0 <= Z.shiftr min sh) by (by apply Z.shiftr_nonneg).
  apply IH in Hw; [|done|lia|intros i Hi; apply Hnr; lia]. unfold sumZ in *. cbn [foldr]. lia.
Qed.

Lemma sz_nr_free z o : wf z -> total z < 2 ^ 63 -> (o < MAX_ORDER)%nat -> 0 <= nr_free z o * sz o < 2 ^ 63.
Proof.
  intros Hwf Ht Ho. rewrite nr_free_count by (done || lia). pose proof (count_nonneg z o). pose proof (sz_pos o).
  assert (count z o * sz o <= total z).
  { apply (sumZ_elem (fun o => count z o * sz o)); [|apply elem_of_seq; lia].
    intros o' _. pose proof (count_nonneg z o'). pose proof (sz_pos o'). nia. }
  nia.
Qed.

Lemma lower_min min d (b : bool) : 0 <= min < 2 ^ 63 -> 0 < d ->
  0 <= (if b then s64 (min - Z.quot min d) else min) <= min.
Proof.
  intros Hm Hd. destruct b; [|lia]. rewrite Z.quot_div_nonneg by lia.
  assert (0 <= min / d <= min) by (split; [apply Z.div_pos; lia|apply Z.div_le_upper_bound; nia]).
  rewrite s64_small by lia. lia.
Qed.

Section watermark.
Context `{PAEnv}.

(** The numbers a watermark test can be relied on for: the statistic does not
    overstate the free pages, and the sums fit a [long]. *)
Definition accurate (z : zone) (mark reserve : Z) : Prop :=
  nr_free_pages z <= total z < 2 ^ 63 /\ - 2 ^ 63 <= nr_free_pages z /\
  0 <= mark /\ 0 <= reserve /\ mark + reserve < 2 ^ 63.

Lemma watermark_block z order sh reserve mark flags :
  wf z -> accurate z mark reserve -> (order < MAX_ORDER)%nat ->
  zone_watermark_ok sh reserve z order mark flags = true ->
  exists p o, (order <= o)%nat /\ blk z p o.
Proof using.
  intros Hwf (Hst & Hlow & Hmark & Hres & Hsum) Ho Hok. unfold zone_watermark_ok, __zone_watermark_ok, zone_page_state in Hok.
  rewrite (s64_small mark), (s64_small (nr_free_pages z)) in Hok by lia.
  set (fp := if nr_free_pages z <? 0 then 0 else nr_free_pages z) in Hok.
  assert (Hfp : 0 <= fp <= Z.max 0 (total z)) by (unfold fp; destruct (Z.ltb_spec (nr_free_pages z) 0); lia). clearbody fp.
  pose proof (lower_min mark 2 (negb (Z.land flags ALLOC_HIGH =? 0)) ltac:(lia) ltac:(lia)) as Hm1.
  set (m1 := if negb (Z.land flags ALLOC_HIGH =? 0) then _ else _) in *. clearbody m1.
  pose proof (lower_min m1 4 (negb (Z.land flags ALLOC_HARDER =? 0)) ltac:(lia) ltac:(lia)) as Hm2.
  set (m2 := if negb (Z.land flags ALLOC_HARDER =? 0) then _ else _) in *. clearbody m2.
  assert (Hsz : sz order < 2 ^ 62) by (unfold sz; apply Z.pow_lt_mono_r; unfold MAX_ORDER in Ho; lia).
  fold (sz order) in Hok. pose proof (sz_pos order).
  rewrite (s64_small fp), !s64_small in Hok by lia.
  destruct (Z.leb_spec (fp - (sz order - 1)) (m2 + reserve)) as [|Hgt]; [done|].
  apply watermark_loop_true in Hok; [|lia|lia|intros i Hi; apply sz_nr_free; done || lia].
  assert (Hlow' : sumZ (fun i => nr_free z i * sz i) (seq 0 order) = sumZ (fun i => count z i * sz i) (seq 0 order)).
  { apply sumZ_ext. intros i Hi%elem_of_seq. rewrite nr_free_count by (done || lia). done. }
  assert (Hsplit : total z = sumZ (fun i => count z i * sz i) (seq 0 order) +
                             sumZ (fun i => count z i * sz i) (seq order (MAX_ORDER - order))).
  { unfold total. replace MAX_ORDER with (order + (MAX_ORDER - order))%nat at 1 by lia.
    by rewrite seq_app, sumZ_app. }
  destruct (sumZ_pos (fun i => count z i * sz i) (seq order (MAX_ORDER - order))) as (o & Ho'%elem_of_seq & Hc); [lia|].
  destruct (count_blk z o) as [p Hp]; [pose proof (sz_pos o); nia|]. exists p, o. split; [lia|done].
Qed.

(** C15.  When [zone_watermark_ok] accepts an order, [__rmqueue] for that order
    and any migrate type but [MIGRATE_RESERVE] succeeds; provided that the
    free-page statistic, which may lag behind, is not above the number of
    pages that are free, and that the mark and the lowmem reserve are not
    negative and their sum fits a [long]. *)
Theorem zone_watermark_ok_allocates z order sh reserve mark flags mt :
  wf z -> accurate z mark reserve -> (order < MAX_ORDER)%nat -> mt <> MIGRATE_RESERVE ->
  zone_watermark_ok sh reserve z order mark flags = true ->
  exists p z', __rmqueue z order mt = Ok (Some p, z') /\ taken z z' p order.
Proof using.
  intros Hwf Hacc Ho Hmt Hok.
  destruct (watermark_block z order sh reserve mark flags) as (q & o & Hle & Hq); try done.
  destruct (rmqueue_spec z order mt Hwf Ho) as (r & z' & -> & Hr). destruct r as [p|]; [by exists p, z'|].
  destruct Hr as [_ Hr]. rewrite decide_False in Hr by done. by destruct (Hr q o).
Qed.
End watermark.
