(* ===== verification/BuddyExamples.v ===== *)
(** * Concrete instances of the page allocator theorems

    A zone of 2048 pages, with a free block of eight pages at page frame 8 and
    page frame 16 on a per-cpu list. *)

From S2P Require Import Prelude BuddyDefs BuddyTheory BuddyFree BuddyAlloc PcpDefs PcpTheory PcpAlloc Watermark.

#[local] Instance ex_pa : PAEnv := {| pageblock_order := 9; page_group_by_mobility_disabled := false |}.
#[local] Instance ex_pe : PageEnv := {|
  NR_PAGEFLAGS := 22; __PG_HWPOISON := 0; __PG_COMPOUND_LOCK := 0;
  mem_cgroup_bad_page_check := fun _ => false |}.

Definition ex_page : page := mkPage (-1) 0 MIGRATE_MOVABLE 0 0 0 0 0 0.

Definition ex_empty : zone :=
  mkZone 0 0 2048 (fun _ _ => []) (fun _ => 0) 0 (fun _ => MIGRATE_MOVABLE) (fun _ => ex_page).

Lemma ex_empty_no_blk p o : ~ blk ex_empty p o.
Proof. intros [mt Hp]. by apply not_elem_of_nil in Hp. Qed.

Lemma ex_empty_wf : wf ex_empty.
Proof.
  split; intros *; try (intros []%ex_empty_no_blk); try done.
  - apply NoDup_nil_2.
  - by intros ?%not_elem_of_nil.
Qed.

Lemma ex_empty_hole p o : 0 <= p -> (sz o | p) -> p + sz o <= 2048 -> hole ex_empty p o.
Proof.
  intros Hp Ha Hle. split; try done.
  - intros x Hx. unfold in_block in Hx. unfold zone_spans_pfn, zone_end_pfn. cbn. lia.
  - intros x Hx (q & o' & Hq & _). by apply ex_empty_no_blk in Hq.
Qed.

(** Eight free pages at page frame 8. *)
Definition ex_zone : zone :=
  with_nr_free_pages (add_nr_free (list_add (set_page_order ex_empty 8 3) 8 3 MIGRATE_MOVABLE) 3 1) 8.

Lemma ex_zone_added : added ex_empty (with_nr_free_pages ex_zone 0) 8 3 MIGRATE_MOVABLE.
Proof. apply added_head. Qed.

Lemma ex_zone_wf : wf ex_zone.
Proof.
  apply (wf_same (with_nr_free_pages ex_zone 0)); [done|].
  eapply added_wf; [apply ex_zone_added|apply ex_empty_wf| |unfold MAX_ORDER; lia|].
  - apply ex_empty_hole; [lia|by exists 1|unfold sz; cbn; lia].
  - intros _. apply ex_empty_no_blk.
Qed.

Lemma ex_zone_free x : free_at ex_zone x <-> 8 <= x < 16.
Proof.
  change (free_at (with_nr_free_pages ex_zone 0) x <-> 8 <= x < 16).
  rewrite (added_free _ _ _ _ _ _ ex_zone_added). unfold in_block, sz. cbn. split; [|by right].
  intros [(q & o & Hq & _)|Hx]; [by apply ex_empty_no_blk in Hq|done].
Qed.

Lemma ex_zone_hole p o :
  0 <= p -> (sz o | p) -> p + sz o <= 2048 -> p + sz o <= 8 \/ 16 <= p -> hole ex_zone p o.
Proof.
  intros Hp Ha Hle Hd. split; try done.
  - intros x Hx. unfold in_block in Hx. unfold zone_spans_pfn, zone_end_pfn. cbn. lia.
  - intros x Hx. rewrite ex_zone_free. unfold in_block in Hx. lia.
Qed.

Lemma ex_clean x : page_clean (mem_map ex_zone x).
Proof.
  unfold page_clean, mc_ok. cbn. unfold upd. cbn. unfold upd. destruct (x =? 8); cbn; auto.
Qed.

Definition ex_pcp : per_cpu_pages :=
  mkPcp 1 4 2 (fun mt => if decide (mt = MIGRATE_MOVABLE) then [16] else []).

Lemma ex_pcp_ok : pcp_ok ex_zone ex_pcp.
Proof.
  split.
  - apply ex_zone_wf.
  - intros x _. apply ex_clean.
  - apply NoDup_singleton.
  - intros p ->%list_elem_of_singleton. split; [|apply ex_clean].
    apply ex_zone_hole; unfold sz; cbn; [lia|by exists 16|lia|lia].
  - done.
Qed.

Lemma __free_one_page_witness : exists z', __free_one_page ex_zone 0 3 MIGRATE_MOVABLE = Ok z' /\ wf z' /\
  (forall x, free_at z' x <-> free_at ex_zone x \/ in_block 0 3 x) /\
  total z' = total ex_zone + sz 3 /\ nr_free_pages z' = nr_free_pages ex_zone + sz 3.
Proof.
  apply __free_one_page_correct.
  - apply ex_zone_wf.
  - apply ex_zone_hole; unfold sz; cbn; [lia|by exists 0|lia|lia].
  - unfold MAX_ORDER. lia.
  - done.
Defined.

Lemma __rmqueue_witness : exists r z', __rmqueue ex_zone 1 MIGRATE_UNMOVABLE = Ok (r, z') /\
  match r with
  | Some p => taken ex_zone z' p 1
  | None => z' = ex_zone /\
      if decide (MIGRATE_UNMOVABLE = MIGRATE_RESERVE)
      then forall o, (1 <= o)%nat -> free_list ex_zone o MIGRATE_RESERVE = []
      else forall p o, (1 <= o)%nat -> ~ blk ex_zone p o
  end.
Proof. apply __rmqueue_correct; [apply ex_zone_wf|unfold MAX_ORDER; lia]. Defined.

Lemma __rmqueue_smallest_witness :
  match __rmqueue_smallest ex_zone 1 MIGRATE_MOVABLE with
  | (Some p, z') => taken ex_zone z' p 1 /\
      exists cur, (1 <= cur < MAX_ORDER)%nat /\ head (free_list ex_zone cur MIGRATE_MOVABLE) = Some p /\
        forall o, (1 <= o < cur)%nat -> free_list ex_zone o MIGRATE_MOVABLE = []
  | (None, z') => z' = ex_zone /\
      forall o, (1 <= o < MAX_ORDER)%nat -> free_list ex_zone o MIGRATE_MOVABLE = []
  end.
Proof. apply __rmqueue_smallest_best_fit; [apply ex_zone_wf|unfold MAX_ORDER; lia]. Defined.

Lemma rmqueue_free_roundtrip_witness : exists z2,
  __free_one_page (snd (__rmqueue_smallest ex_zone 1 MIGRATE_MOVABLE)) 8 1 MIGRATE_MOVABLE = Ok z2 /\
  wf z2 /\ (forall x, free_at z2 x <-> free_at ex_zone x) /\ total z2 = total ex_zone.
Proof.
  apply (rmqueue_free_roundtrip ex_zone _ 1 MIGRATE_MOVABLE);
    [apply ex_zone_wf|unfold MAX_ORDER; lia|reflexivity|reflexivity].
Defined.

Lemma zone_watermark_ok_witness : exists p z',
  __rmqueue ex_zone 2 MIGRATE_MOVABLE = Ok (Some p, z') /\ taken ex_zone z' p 2.
Proof.
  apply (zone_watermark_ok_allocates ex_zone 2 1 0 2 0);
    [apply ex_zone_wf|by repeat split|unfold MAX_ORDER; lia|done|reflexivity].
Defined.

Lemma free_pcppages_bulk_witness : exists z' pc', free_pcppages_bulk ex_zone 1 ex_pcp = Ok (z', pc') /\
  pcp_ok z' pc' /\ (forall x, owned z' pc' x <-> owned ex_zone ex_pcp x) /\
  Z.of_nat (length (pcp_pages pc')) = Z.of_nat (length (pcp_pages ex_pcp)) - 1 /\
  pc_count pc' = pc_count ex_pcp /\ pc_high pc' = pc_high ex_pcp /\ pc_batch pc' = pc_batch ex_pcp.
Proof. apply free_pcppages_bulk_correct; [done|apply ex_pcp_ok|by split; vm_compute]. Defined.

Lemma ex_block24 : hole ex_zone 24 3 /\ forall x, in_block 24 3 x -> x ∉ pcp_pages ex_pcp.
Proof.
  split.
  - apply ex_zone_hole; unfold sz; cbn; [lia|by exists 3|lia|lia].
  - intros x Hx ->%list_elem_of_singleton. unfold in_block, sz in Hx. cbn in Hx. lia.
Qed.

Lemma __free_pages_ok_witness : exists z', __free_pages_ok ex_zone 24 3 = Ok z' /\ pcp_ok z' ex_pcp /\
  ((forall x, in_block 24 3 x -> bad_at_free (unmapped ex_zone 24) x = false) ->
     forall x, owned z' ex_pcp x <-> owned ex_zone ex_pcp x \/ in_block 24 3 x) /\
  ((exists x, in_block 24 3 x /\ bad_at_free (unmapped ex_zone 24) x = true) ->
     forall x, owned z' ex_pcp x <-> owned ex_zone ex_pcp x).
Proof.
  apply __free_pages_ok_correct;
    [done|apply ex_pcp_ok|apply ex_block24|unfold MAX_ORDER; lia|apply ex_block24].
Defined.

Lemma free_pages_prepare_witness :
  PageCompound (snd (free_pages_prepare ex_zone 24 0)) 24 = false.
Proof.
  apply (free_pages_prepare_not_compound) with (z := ex_zone) (p := 24) (o := 0%nat);
    [done|reflexivity|unfold in_block, sz; cbn; lia].
Defined.

Lemma free_hot_cold_page_witness : exists z' pc',
  free_hot_cold_page ex_zone ex_pcp 24 false = Ok (z', pc') /\ pcp_ok z' pc' /\ pcp_counted pc' /\
  pc_count pc' < pc_high pc' /\
  (bad_at_free (unmapped ex_zone 24) 24 = false ->
     forall x, owned z' pc' x <-> owned ex_zone ex_pcp x \/ x = 24) /\
  (bad_at_free (unmapped ex_zone 24) 24 = true -> forall x, owned z' pc' x <-> owned ex_zone ex_pcp x).
Proof.
  apply free_hot_cold_page_correct; [done|apply ex_pcp_ok|done| | |cbn; lia|cbn; lia].
  - apply ex_zone_hole; unfold sz; cbn; [lia|by exists 24|lia|lia].
  - intros ?%list_elem_of_singleton. lia.
Defined.

Lemma buffered_rmqueue_witness : exists r z' pc' (lost : list Z),
  buffered_rmqueue 17 ex_zone ex_pcp 2 MIGRATE_MOVABLE false true = Ok (r, z', pc') /\
  lists_ok z' pc' /\ pcp_counted pc' /\
  (forall q, q ∈ lost -> exists x, in_block q 2 x /\ ~ page_good ex_zone x) /\
  let dropped x := exists q, q ∈ lost /\ in_block q 2 x in
  match r with
  | Some p => hole z' p 2 /\ (forall x, in_block p 2 x -> x ∉ pcp_pages pc') /\ pg_count (mem_map z' p) = 1 /\
      (forall x, in_block p 2 x -> page_checked ex_zone z' x) /\
      (forall x, ~ in_block p 2 x -> page_clean (mem_map ex_zone x) -> page_clean (mem_map z' x)) /\
      forall x, owned ex_zone ex_pcp x <-> owned z' pc' x \/ in_block p 2 x \/ dropped x
  | None => frame ex_zone z' /\ (forall x, owned ex_zone ex_pcp x <-> owned z' pc' x \/ dropped x) /\
      forall p o, (2 <= o)%nat -> ~ blk z' p o
  end.
Proof.
  apply (buffered_rmqueue_correct 17 ex_zone ex_pcp 2 MIGRATE_MOVABLE false true);
    [reflexivity|apply pcp_ok_lists, ex_pcp_ok|done|done|unfold MAX_ORDER; lia|cbn; lia].
Defined.
