(* ===== verification/KfifoDefs.v ===== *)
(** * The generic kernel FIFO: operations of lib/kfifo.c

    [struct __kfifo] with its buffer as a list of bytes; index arithmetic is
    that of [unsigned int].  A [memcpy] outside the buffer or the caller's
    source is a [Fault].  The scatter-gather set-up for DMA is not modelled. *)

From S2P Require Import Prelude.

Record __kfifo := mkKfifo {
  kf_in : Z;
  kf_out : Z;
  kf_mask : Z;
  kf_esize : Z;
  kf_data : list Z }.

Definition with_in (f : __kfifo) (i : Z) : __kfifo :=
  mkKfifo i (kf_out f) (kf_mask f) (kf_esize f) (kf_data f).
Definition with_out (f : __kfifo) (o : Z) : __kfifo :=
  mkKfifo (kf_in f) o (kf_mask f) (kf_esize f) (kf_data f).
Definition with_data (f : __kfifo) (d : list Z) : __kfifo :=
  mkKfifo (kf_in f) (kf_out f) (kf_mask f) (kf_esize f) d.

Definition EINVAL : Z := 22.
Definition ENOMEM : Z := 12.
Definition EFAULT : Z := 14.

(** ** Memory copies *)

(** [memcpy(d + off, src, n)] *)
Definition memcpy_to (d : list Z) (off : Z) (src : list Z) (n : Z) : res (list Z) :=
  if (0 <=? off) && (0 <=? n) && (off + n <=? Z.of_nat (length d)) && (n <=? Z.of_nat (length src))
  then Ok (list_inserts (Z.to_nat off) (take (Z.to_nat n) src) d) else Fault.

(** [memcpy(dst, d + off, n)]: the bytes read. *)
Definition memcpy_from (d : list Z) (off n : Z) : res (list Z) :=
  if (0 <=? off) && (0 <=? n) && (off + n <=? Z.of_nat (length d))
  then Ok (take (Z.to_nat n) (drop (Z.to_nat off) d)) else Fault.

(** ** Sizes *)

Definition kfifo_len (f : __kfifo) : Z := kf_in f ⊟ kf_out f.
Definition kfifo_unused (f : __kfifo) : Z := (kf_mask f ⊞ 1) ⊟ (kf_in f ⊟ kf_out f).
Definition kfifo_is_empty (f : __kfifo) : bool := kf_in f =? kf_out f.
Definition kfifo_is_full (f : __kfifo) : bool := kf_mask f <? kfifo_len f.
Definition kfifo_reset (f : __kfifo) : __kfifo := with_in (with_out f 0) 0.
Definition kfifo_reset_out (f : __kfifo) : __kfifo := with_out f (kf_in f).

(** [fls_long]; shifting by 64 is undefined, so [0] is a [Fault]. *)
Definition fls_long (n : Z) : Z := if n =? 0 then 0 else Z.log2 n + 1.
Definition __roundup_pow_of_two (n : Z) : res Z :=
  let k := fls_long (u64 (n - 1)) in
  if 64 <=? k then Fault else Ok (u64 (Z.shiftl 1 k)).

(** ** Set-up

    [kmalloc n] is the buffer the slab allocator returns, [None] for NULL. *)
Definition __kfifo_alloc (kmalloc : Z -> option (list Z)) (f : __kfifo) (size esize : Z)
    : res (Z * __kfifo) :=
  size ← __roundup_pow_of_two size;
  let size := u32 size in
  if size <? 2 then Ok (- EINVAL, mkKfifo 0 0 0 (u32 esize) [])
  else
    match kmalloc (u64 (size * esize)) with
    | None => Ok (- ENOMEM, mkKfifo 0 0 0 (u32 esize) [])
    | Some data => Ok (0, mkKfifo 0 0 (size ⊟ 1) (u32 esize) data)
    end.

Definition __kfifo_free (f : __kfifo) : __kfifo := mkKfifo 0 0 0 0 [].

Definition __kfifo_init (f : __kfifo) (buffer : list Z) (size esize : Z) : res (Z * __kfifo) :=
  size ← __roundup_pow_of_two (u32 (size / esize));
  let size := u32 size in
  if size <? 2 then Ok (- EINVAL, mkKfifo 0 0 0 (u32 esize) buffer)
  else Ok (0, mkKfifo 0 0 (size ⊟ 1) (u32 esize) buffer).

(** ** Copying in and out *)

(** The local variables [off], [len] and [l] of the copy functions, in bytes. *)
Definition window (f : __kfifo) (len off : Z) : Z * Z * Z :=
  let size := kf_mask f ⊞ 1 in
  let esize := kf_esize f in
  let off := Z.land off (kf_mask f) in
  let '(off, size, len) :=
    if negb (esize =? 1) then (u32 (off * esize), u32 (size * esize), u32 (len * esize))
    else (off, size, len) in
  (off, len, Z.min len (size ⊟ off)).

Definition kfifo_copy_in (f : __kfifo) (src : list Z) (len off : Z) : res __kfifo :=
  let '(off, len, l) := window f len off in
  d ← memcpy_to (kf_data f) off src l;
  d ← memcpy_to d 0 (drop (Z.to_nat l) src) (len ⊟ l);
  Ok (with_data f d).

Definition __kfifo_in (f : __kfifo) (buf : list Z) (len : Z) : res (Z * __kfifo) :=
  let l := kfifo_unused f in
  let len := if l <? len then l else len in
  f ← kfifo_copy_in f buf len (kf_in f);
  Ok (len, with_in f (kf_in f ⊞ len)).

Definition kfifo_copy_out (f : __kfifo) (len off : Z) : res (list Z) :=
  let '(off, len, l) := window f len off in
  a ← memcpy_from (kf_data f) off l;
  b ← memcpy_from (kf_data f) 0 (len ⊟ l);
  Ok (a ++ b).

(** The number of elements and the bytes written to [buf]. *)
Definition __kfifo_out_peek (f : __kfifo) (len : Z) : res (Z * list Z) :=
  let l := kf_in f ⊟ kf_out f in
  let len := if l <? len then l else len in
  bs ← kfifo_copy_out f len (kf_out f);
  Ok (len, bs).

Definition __kfifo_out (f : __kfifo) (len : Z) : res (Z * list Z * __kfifo) :=
  '(len, bs) ← __kfifo_out_peek f len;
  Ok (len, bs, with_out f (kf_out f ⊞ len)).

(** ** Transfers to and from user space

    [copy_from_user off n] is the number of bytes a copy of [n] bytes from the
    user pointer plus [off] failed to transfer, and the [n] bytes it left in
    the destination.  [copy_to_user off bs] is the number of bytes at the end
    of [bs] that a copy to the user pointer plus [off] failed to transfer. *)
Section User.
Variable copy_from_user : Z -> Z -> Z * list Z.
Variable copy_to_user : Z -> list Z -> Z.

Definition DIV_ROUND_UP (n d : Z) : Z := (n + d - 1) / d.

(** Returns the number of elements not copied and [*copied]. *)
Definition kfifo_copy_from_user (f : __kfifo) (len off : Z) : res (Z * Z * __kfifo) :=
  let esize := kf_esize f in
  let '(off, len, l) := window f len off in
  let '(ret, bs) := copy_from_user 0 l in
  d ← memcpy_to (kf_data f) off bs l;
  if negb (ret =? 0) then
    let ret := DIV_ROUND_UP (ret + len - l) esize in
    Ok (ret, u32 (len - ret * esize), with_data f d)
  else
    let '(ret, bs) := copy_from_user l (len ⊟ l) in
    d ← memcpy_to d 0 bs (len ⊟ l);
    let ret := if negb (ret =? 0) then DIV_ROUND_UP ret esize else ret in
    Ok (ret, u32 (len - ret * esize), with_data f d).

(** The result code, [*copied] and the fifo. *)
Definition __kfifo_from_user (f : __kfifo) (len : Z) : res (Z * Z * __kfifo) :=
  let esize := kf_esize f in
  let len := if negb (esize =? 1) then len / esize else len in
  let l := kfifo_unused f in
  let len := if l <? len then l else len in
  '(ret, copied, f) ← kfifo_copy_from_user f len (kf_in f);
  let '(len, err) := if negb (ret =? 0) then (len - ret, - EFAULT) else (len, 0) in
  Ok (err, copied, with_in f (kf_in f ⊞ len)).

(** Also the bytes that reached the user. *)
Definition kfifo_copy_to_user (f : __kfifo) (len off : Z) : res (Z * Z * list Z) :=
  let esize := kf_esize f in
  let '(off, len, l) := window f len off in
  a ← memcpy_from (kf_data f) off l;
  let ret := copy_to_user 0 a in
  let a := take (Z.to_nat (l - ret)) a in
  if negb (ret =? 0) then
    let ret := DIV_ROUND_UP (ret + len - l) esize in
    Ok (ret, u32 (len - ret * esize), a)
  else
    b ← memcpy_from (kf_data f) 0 (len ⊟ l);
    let ret := copy_to_user l b in
    let b := take (Z.to_nat ((len ⊟ l) - ret)) b in
    let ret := if negb (ret =? 0) then DIV_ROUND_UP ret esize else ret in
    Ok (ret, u32 (len - ret * esize), a ++ b).

Definition __kfifo_to_user (f : __kfifo) (len : Z) : res (Z * Z * list Z * __kfifo) :=
  let esize := kf_esize f in
  let len := if negb (esize =? 1) then len / esize else len in
  let l := kf_in f ⊟ kf_out f in
  let len := if l <? len then l else len in
  '(ret, copied, bs) ← kfifo_copy_to_user f len (kf_out f);
  let '(len, err) := if negb (ret =? 0) then (len - ret, - EFAULT) else (len, 0) in
  Ok (err, copied, bs, with_out f (kf_out f ⊞ len)).
End User.

(** ** Records: a length of [recsize] bytes before each record *)

Definition __kfifo_max_r (len recsize : Z) : Z :=
  let max := u32 (Z.shiftl 1 (Z.shiftl recsize 3) - 1) in
  if max <? len then max else len.

Definition __KFIFO_PEEK (d : list Z) (out mask : Z) : res Z := aget d (Z.to_nat (Z.land out mask)).

Definition __kfifo_peek_n (f : __kfifo) (recsize : Z) : res Z :=
  l ← __KFIFO_PEEK (kf_data f) (kf_out f) (kf_mask f);
  if negb (recsize - 1 =? 0) then
    h ← __KFIFO_PEEK (kf_data f) (kf_out f ⊞ 1) (kf_mask f);
    Ok (Z.lor l (Z.shiftl h 8))
  else Ok l.

Definition __KFIFO_POKE (d : list Z) (i mask v : Z) : res (list Z) :=
  aset d (Z.to_nat (Z.land i mask)) (Z.land v 255).

Definition __kfifo_poke_n (f : __kfifo) (n recsize : Z) : res __kfifo :=
  d ← __KFIFO_POKE (kf_data f) (kf_in f) (kf_mask f) n;
  if 1 <? recsize then
    d ← __KFIFO_POKE d (kf_in f ⊞ 1) (kf_mask f) (Z.shiftr n 8);
    Ok (with_data f d)
  else Ok (with_data f d).

Definition __kfifo_len_r (f : __kfifo) (recsize : Z) : res Z := __kfifo_peek_n f recsize.

Definition __kfifo_in_r (f : __kfifo) (buf : list Z) (len recsize : Z) : res (Z * __kfifo) :=
  if kfifo_unused f <? len + recsize then Ok (0, f)
  else
    f ← __kfifo_poke_n f len recsize;
    f ← kfifo_copy_in f buf len (u32 (kf_in f + recsize));
    Ok (len, with_in f (u32 (kf_in f + (len + recsize)))).

(** The bytes copied, and [*n]. *)
Definition kfifo_out_copy_r (f : __kfifo) (len recsize : Z) : res (Z * list Z * Z) :=
  n ← __kfifo_peek_n f recsize;
  let len := if n <? len then n else len in
  bs ← kfifo_copy_out f len (u32 (kf_out f + recsize));
  Ok (len, bs, n).

Definition __kfifo_out_peek_r (f : __kfifo) (len recsize : Z) : res (Z * list Z) :=
  if kf_in f =? kf_out f then Ok (0, [])
  else
    '(len, bs, _) ← kfifo_out_copy_r f len recsize;
    Ok (len, bs).

Definition __kfifo_out_r (f : __kfifo) (len recsize : Z) : res (Z * list Z * __kfifo) :=
  if kf_in f =? kf_out f then Ok (0, [], f)
  else
    '(len, bs, n) ← kfifo_out_copy_r f len recsize;
    Ok (len, bs, with_out f (u32 (kf_out f + (n + recsize)))).

Definition __kfifo_skip_r (f : __kfifo) (recsize : Z) : res __kfifo :=
  n ← __kfifo_peek_n f recsize;
  Ok (with_out f (u32 (kf_out f + (n + recsize)))).

Definition __kfifo_from_user_r (copy_from_user : Z -> Z -> Z * list Z) (f : __kfifo) (len recsize : Z)
    : res (Z * Z * __kfifo) :=
  let len := __kfifo_max_r (u32 len) recsize in
  if kfifo_unused f <? len + recsize then Ok (0, 0, f)
  else
    f ← __kfifo_poke_n f len recsize;
    '(ret, copied, f) ← kfifo_copy_from_user copy_from_user f len (u32 (kf_in f + recsize));
    if negb (ret =? 0) then Ok (- EFAULT, 0, f)
    else Ok (0, copied, with_in f (u32 (kf_in f + (len + recsize)))).

Definition __kfifo_to_user_r (copy_to_user : Z -> list Z -> Z) (f : __kfifo) (len recsize : Z)
    : res (Z * Z * list Z * __kfifo) :=
  if kf_in f =? kf_out f then Ok (0, 0, [], f)
  else
    n ← __kfifo_peek_n f recsize;
    let len := if n <? len then n else len in
    '(ret, copied, bs) ← kfifo_copy_to_user copy_to_user f len (u32 (kf_out f + recsize));
    if negb (ret =? 0) then Ok (- EFAULT, 0, bs, f)
    else Ok (0, copied, bs, with_out f (u32 (kf_out f + (n + recsize)))).

Definition __kfifo_dma_in_finish_r (f : __kfifo) (len recsize : Z) : res __kfifo :=
  let len := __kfifo_max_r len recsize in
  f ← __kfifo_poke_n f len recsize;
  Ok (with_in f (u32 (kf_in f + (len + recsize)))).

Definition __kfifo_dma_out_finish_r (f : __kfifo) (recsize : Z) : res __kfifo :=
  len ← __kfifo_peek_n f recsize;
  Ok (with_out f (u32 (kf_out f + (len + recsize)))).
