(* ===== verification/Kfifo.v ===== *)
(** * Correctness of lib/kfifo.c

    The contents of a fifo are the bytes between [out] and [in], read around
    the end of the buffer.  The operations refine a byte queue, also when the
    32-bit indices wrap and when one reader and one writer interleave. *)

From S2P Require Import Prelude KfifoDefs.

(** ** Circular windows *)

(** [n] bytes of the circular buffer [d], starting at [a]. *)
Definition cyc (d : list Z) (a n : nat) : list Z := take n (drop a (d ++ d)).

(** Writing [src] at [b], continuing at the start of the buffer. *)
Definition cyc_write (d : list Z) (b : nat) (src : list Z) : list Z :=
  let l := Nat.min (length src) (length d - b) in
  list_inserts 0 (drop l src) (list_inserts b (take l src) d).

Lemma cyc_length d a n : (a <= length d)%nat -> (n <= length d)%nat -> length (cyc d a n) = n.
Proof. intros. unfold cyc. rewrite length_take, length_drop, length_app. lia. Qed.

Lemma cyc_lookup d a n i :
  (a < length d)%nat -> (i < n)%nat -> (i < length d)%nat ->
  cyc d a n !! i = d !! (if a + i <? length d then a + i else a + i - length d)%nat.
Proof.
  intros Ha Hi Hl. unfold cyc. rewrite lookup_take_lt by done. rewrite lookup_drop.
  destruct (Nat.ltb_spec (a + i) (length d)).
  - by rewrite lookup_app_l.
  - by rewrite lookup_app_r.
Qed.

Lemma cyc_split d a n :
  (a < length d)%nat -> (n <= length d)%nat ->
  cyc d a n = take (Nat.min n (length d - a)) (drop a d) ++ take (n - Nat.min n (length d - a)) d.
Proof.
  intros Ha Hn. unfold cyc. rewrite drop_app_le by lia. rewrite take_app, length_drop. f_equal.
  - destruct (decide (n <= length d - a)%nat).
    + by rewrite Nat.min_l.
    + rewrite Nat.min_r by lia. rewrite !take_ge; rewrite ?length_drop; done || lia.
  - f_equal. lia.
Qed.

Lemma cyc_write_length d b src : length (cyc_write d b src) = length d.
Proof. unfold cyc_write. by rewrite !length_inserts. Qed.

Lemma cyc_write_lookup d b src j :
  (b < length d)%nat -> (length src <= length d)%nat -> (j < length d)%nat ->
  cyc_write d b src !! j =
    if (b <=? j)%nat && (j <? b + length src)%nat then src !! (j - b)%nat
    else if (j + length d <? b + length src)%nat then src !! (j + length d - b)%nat
    else d !! j.
Proof.
  intros Hb Hs Hj. unfold cyc_write. set (l := Nat.min (length src) (length d - b)).
  destruct (decide (j + length d < b + length src)%nat) as [Hw|Hw].
  - rewrite list_lookup_inserts; rewrite ?length_drop, ?length_inserts; try lia.
    rewrite lookup_drop. destruct (Nat.leb_spec b j), (Nat.ltb_spec j (b + length src)); cbn [andb]; try lia.
    rewrite (proj2 (Nat.ltb_lt _ _)) by lia. f_equal. lia.
  - rewrite list_lookup_inserts_ge by (rewrite length_drop; lia).
    rewrite (proj2 (Nat.ltb_ge (j + length d) _)) by lia.
    destruct (Nat.leb_spec b j), (Nat.ltb_spec j (b + length src)); cbn [andb].
    + rewrite list_lookup_inserts; rewrite ?length_take; try lia. by rewrite lookup_take_lt by lia.
    + apply list_lookup_inserts_ge. rewrite length_take. lia.
    + apply list_lookup_inserts_lt. lia.
    + apply list_lookup_inserts_lt. lia.
Qed.

(** Writing after a window extends it. *)
Lemma cyc_write_append d a m b src :
  (a < length d)%nat -> (b < length d)%nat -> (b = a + m \/ b + length d = a + m)%nat ->
  (m + length src <= length d)%nat ->
  cyc (cyc_write d b src) a (m + length src) = cyc d a m ++ src.
Proof.
  intros Ha Hb Hpos Hfit. apply list_eq_same_length with (n := (m + length src)%nat).
  - rewrite length_app, cyc_length; lia.
  - rewrite cyc_length; rewrite ?cyc_write_length; lia.
  - intros i x y Hi. rewrite cyc_lookup by (rewrite ?cyc_write_length; lia). rewrite cyc_write_length.
    rewrite cyc_write_lookup by (try lia; destruct (Nat.ltb_spec (a + i) (length d)); lia).
    destruct (decide (i < m)%nat).
    + rewrite lookup_app_l by (rewrite cyc_length; lia). rewrite cyc_lookup by lia.
      destruct (Nat.ltb_spec (a + i) (length d));
        repeat match goal with |- context [Nat.leb ?p ?q] => destruct (Nat.leb_spec p q) end;
        repeat match goal with |- context [Nat.ltb ?p ?q] => destruct (Nat.ltb_spec p q) end;
        cbn [andb]; try lia; congruence.
    + rewrite lookup_app_r by (rewrite cyc_length; lia). rewrite cyc_length by lia.
      destruct (Nat.ltb_spec (a + i) (length d));
        repeat match goal with |- context [Nat.leb ?p ?q] => destruct (Nat.leb_spec p q) end;
        repeat match goal with |- context [Nat.ltb ?p ?q] => destruct (Nat.ltb_spec p q) end;
        cbn [andb]; try lia; intros Hx Hy;
        match type of Hx with src !! ?p = _ => match type of Hy with src !! ?q = _ =>
          replace p with q in Hx by lia end end; congruence.
Qed.

(** ** The invariant of a fifo of [2 ^ k] elements *)

Record kf_ok (k : Z) (f : __kfifo) : Prop := {
  ok_k : 1 <= k <= 31;
  ok_mask : kf_mask f = 2 ^ k - 1;
  ok_esize : 1 <= kf_esize f;
  ok_bytes : Z.of_nat (length (kf_data f)) = 2 ^ k * kf_esize f;
  ok_small : 2 ^ k * kf_esize f < 2 ^ 32;
  ok_in : 0 <= kf_in f < 2 ^ 32;
  ok_out : 0 <= kf_out f < 2 ^ 32;
  ok_used : kfifo_len f <= 2 ^ k }.

(** The byte position of an index in the buffer. *)
Definition pos (k : Z) (f : __kfifo) (i : Z) : nat := Z.to_nat (i mod 2 ^ k * kf_esize f).

(** The bytes stored in the fifo. *)
Definition contents (k : Z) (f : __kfifo) : list Z :=
  cyc (kf_data f) (pos k f (kf_out f)) (Z.to_nat (kfifo_len f * kf_esize f)).

Lemma pow_bounds k : 1 <= k <= 31 -> 2 <= 2 ^ k < 2 ^ 32.
Proof.
  intros Hk. split; [|apply Z.pow_lt_mono_r; lia].
  change 2 with (2 ^ 1) at 1. apply Z.pow_le_mono_r; lia.
Qed.

Lemma ok_len_range k f : kf_ok k f -> 0 <= kfifo_len f <= 2 ^ k.
Proof. intros Hok. split; [apply u32_range|apply Hok]. Qed.

Lemma unused_eq k f : kf_ok k f -> kfifo_unused f = 2 ^ k - kfifo_len f.
Proof.
  intros Hok. pose proof (pow_bounds k (ok_k _ _ Hok)). pose proof (ok_len_range k f Hok) as Hl.
  unfold kfifo_unused, kfifo_len in *. rewrite (ok_mask _ _ Hok). set (u := kf_in f ⊟ kf_out f) in *.
  rewrite add32_small by lia. rewrite sub32_small by lia. lia.
Qed.

Lemma pos_lt k f i : kf_ok k f -> (pos k f i < length (kf_data f))%nat.
Proof.
  intros Hok. pose proof (pow_bounds k (ok_k _ _ Hok)). pose proof (Z.mod_pos_bound i (2 ^ k)).
  pose proof (ok_bytes _ _ Hok). pose proof (ok_esize _ _ Hok). unfold pos. nia.
Qed.

(** Advancing an index by at most the size. *)
Lemma mod_add_step x n s :
  0 < s -> 0 <= n <= s -> (x + n) mod s = if x mod s + n <? s then x mod s + n else x mod s + n - s.
Proof.
  intros Hs Hn. pose proof (Z.mod_pos_bound x s Hs). rewrite <- Zplus_mod_idemp_l.
  destruct (Z.ltb_spec (x mod s + n) s).
  - apply Z.mod_small. lia.
  - rewrite <- (Z_mod_plus_full _ (-1)). rewrite Z.mod_small; lia.
Qed.

Lemma u32_mod_pow k x : 0 <= k <= 32 -> u32 x mod 2 ^ k = x mod 2 ^ k.
Proof.
  intros Hk. unfold u32. apply Z.mod_mod_divide.
  exists (2 ^ (32 - k)). rewrite <- Z.pow_add_r by lia. f_equal. lia.
Qed.

(** [in] is [kfifo_len] elements after [out]. *)
Lemma in_mod k f : kf_ok k f -> kf_in f mod 2 ^ k = (kf_out f + kfifo_len f) mod 2 ^ k.
Proof.
  intros Hok. pose proof (ok_k _ _ Hok). unfold kfifo_len, sub32.
  rewrite <- Zplus_mod_idemp_r, u32_mod_pow, Zplus_mod_idemp_r by lia. f_equal. lia.
Qed.

Lemma in_pos k f (x := pos k f (kf_out f)) (m := Z.to_nat (kfifo_len f * kf_esize f)) :
  kf_ok k f -> (pos k f (kf_in f) = x + m \/ pos k f (kf_in f) + length (kf_data f) = x + m)%nat.
Proof.
  intros Hok. pose proof (pow_bounds k (ok_k _ _ Hok)). pose proof (ok_len_range k f Hok).
  pose proof (ok_esize _ _ Hok). pose proof (ok_bytes _ _ Hok). subst x m. unfold pos.
  rewrite (in_mod k f Hok), mod_add_step by lia.
  pose proof (Z.mod_pos_bound (kf_out f) (2 ^ k)). destruct (Z.ltb_spec (kf_out f mod 2 ^ k + kfifo_len f) (2 ^ k)).
  - left. nia.
  - right. nia.
Qed.

Lemma window_eq k f len off :
  kf_ok k f -> 0 <= len <= 2 ^ k ->
  window f len off =
    (Z.of_nat (pos k f off), len * kf_esize f,
     Z.min (len * kf_esize f) (Z.of_nat (length (kf_data f)) - Z.of_nat (pos k f off))).
Proof.
  intros Hok Hlen. pose proof (pow_bounds k (ok_k _ _ Hok)). pose proof (ok_small _ _ Hok).
  pose proof (ok_esize _ _ Hok). pose proof (Z.mod_pos_bound off (2 ^ k)).
  unfold window. rewrite (ok_mask _ _ Hok), (ok_bytes _ _ Hok). rewrite add32_small by lia.
  replace (2 ^ k - 1 + 1) with (2 ^ k) by lia.
  replace (2 ^ k - 1) with (Z.ones k) by (rewrite Z.ones_equiv; lia).
  rewrite Z.land_ones by (destruct (ok_k _ _ Hok); lia).
  assert (Hpos : Z.of_nat (pos k f off) = off mod 2 ^ k * kf_esize f) by (unfold pos; nia).
  rewrite Hpos.
  destruct (Z.eqb_spec (kf_esize f) 1) as [->|Hne]; cbn [negb].
  - rewrite sub32_small by lia. f_equal; [f_equal|]; f_equal; lia.
  - rewrite !u32_small by nia. rewrite sub32_small by nia. done.
Qed.

(** ** Copying *)

Lemma memcpy_to_ok d off src n :
  0 <= off -> 0 <= n -> off + n <= Z.of_nat (length d) -> n <= Z.of_nat (length src) ->
  memcpy_to d off src n = Ok (list_inserts (Z.to_nat off) (take (Z.to_nat n) src) d).
Proof. intros. unfold memcpy_to. destruct (_ && _) eqn:E; [done|]. lia. Qed.

Lemma memcpy_to_fault d off src n : Z.of_nat (length d) < off + n -> memcpy_to d off src n = Fault.
Proof. intros. unfold memcpy_to. destruct (_ && _) eqn:E; [lia|done]. Qed.

Lemma memcpy_from_ok d off n :
  0 <= off -> 0 <= n -> off + n <= Z.of_nat (length d) ->
  memcpy_from d off n = Ok (take (Z.to_nat n) (drop (Z.to_nat off) d)).
Proof. intros. unfold memcpy_from. destruct (_ && _) eqn:E; [done|]. lia. Qed.

Lemma copy_in_spec k f src len off :
  kf_ok k f -> 0 <= len <= 2 ^ k -> len * kf_esize f <= Z.of_nat (length src) ->
  kfifo_copy_in f src len off =
    Ok (with_data f (cyc_write (kf_data f) (pos k f off) (take (Z.to_nat (len * kf_esize f)) src))).
Proof.
  intros Hok Hlen Hsrc. unfold kfifo_copy_in. rewrite (window_eq k) by done.
  pose proof (pos_lt k f off Hok). pose proof (ok_bytes _ _ Hok). pose proof (ok_esize _ _ Hok).
  pose proof (ok_small _ _ Hok). pose proof (pow_bounds k (ok_k _ _ Hok)).
  set (n := len * kf_esize f) in *. set (p := pos k f off) in *. set (d := kf_data f) in *.
  assert (Hn : 0 <= n <= Z.of_nat (length d)) by (unfold n; nia).
  remember (Z.min n (Z.of_nat (length d) - Z.of_nat p)) as l eqn:Hl.
  rewrite memcpy_to_ok, res_bind_ok, sub32_small by lia.
  rewrite memcpy_to_ok, res_bind_ok by (rewrite ?length_inserts, ?length_drop; lia).
  do 2 f_equal. unfold cyc_write. rewrite length_take.
  replace (Nat.min (Nat.min (Z.to_nat n) (length src)) (length d - p)) with (Z.to_nat l) by lia.
  rewrite Nat2Z.id. change (Z.to_nat 0) with 0%nat.
  rewrite take_take, skipn_firstn_comm.
  by replace (Nat.min (Z.to_nat l) (Z.to_nat n)) with (Z.to_nat l) by lia;
    replace (Z.to_nat n - Z.to_nat l)%nat with (Z.to_nat (n - l)) by lia.
Qed.

Lemma copy_out_spec k f len off :
  kf_ok k f -> 0 <= len <= 2 ^ k ->
  kfifo_copy_out f len off = Ok (cyc (kf_data f) (pos k f off) (Z.to_nat (len * kf_esize f))).
Proof.
  intros Hok Hlen. unfold kfifo_copy_out. rewrite (window_eq k) by done.
  pose proof (pos_lt k f off Hok). pose proof (ok_bytes _ _ Hok). pose proof (ok_esize _ _ Hok).
  pose proof (ok_small _ _ Hok). pose proof (pow_bounds k (ok_k _ _ Hok)).
  set (n := len * kf_esize f) in *. set (p := pos k f off) in *. set (d := kf_data f) in *.
  assert (Hn : 0 <= n <= Z.of_nat (length d)) by (unfold n; nia).
  remember (Z.min n (Z.of_nat (length d) - Z.of_nat p)) as l eqn:Hl.
  rewrite (memcpy_from_ok d (Z.of_nat p) l), res_bind_ok, sub32_small by lia. rewrite memcpy_from_ok, res_bind_ok by lia.
  rewrite cyc_split by lia. rewrite Nat2Z.id. change (Z.to_nat 0) with 0%nat. rewrite drop_0.
  replace (Nat.min (Z.to_nat n) (length d - p)) with (Z.to_nat l) by lia.
  by replace (Z.to_nat n - Z.to_nat l)%nat with (Z.to_nat (n - l)) by lia.
Qed.

(** ** Queue operations *)

Lemma cyc_take d a m j : (j <= m)%nat -> take j (cyc d a m) = cyc d a j.
Proof. intros. unfold cyc. rewrite take_take. f_equal. lia. Qed.

Lemma cyc_drop d a a' m j :
  (a < length d)%nat -> (a' < length d)%nat -> (a' = a + j \/ a' + length d = a + j)%nat ->
  (j <= m)%nat -> (m <= length d)%nat ->
  cyc d a' (m - j) = drop j (cyc d a m).
Proof.
  intros Ha Ha' Hpos Hj Hm. apply list_eq_same_length with (n := (m - j)%nat).
  - rewrite length_drop, cyc_length; lia.
  - rewrite cyc_length; lia.
  - intros i x y Hi. rewrite lookup_drop, !cyc_lookup by lia.
    destruct (Nat.ltb_spec (a' + i) (length d)), (Nat.ltb_spec (a + (j + i)) (length d));
      match goal with |- d !! ?p = _ -> d !! ?q = _ -> _ => replace q with p by lia end; congruence.
Qed.

Lemma contents_length k f : kf_ok k f -> length (contents k f) = Z.to_nat (kfifo_len f * kf_esize f).
Proof.
  intros Hok. pose proof (pos_lt k f (kf_out f) Hok). pose proof (ok_len_range k f Hok).
  pose proof (ok_bytes _ _ Hok). pose proof (ok_esize _ _ Hok). apply cyc_length; nia.
Qed.

(** Publishing [n] more elements. *)
Lemma advance_in k f n (f' := with_in f (kf_in f ⊞ n)) :
  kf_ok k f -> 0 <= n -> kfifo_len f + n <= 2 ^ k -> kf_ok k f' /\ kfifo_len f' = kfifo_len f + n.
Proof.
  intros Hok Hn Hfit. pose proof (pow_bounds k (ok_k _ _ Hok)). pose proof (ok_len_range k f Hok).
  assert (Hlen : kfifo_len f' = kfifo_len f + n).
  { unfold f', kfifo_len in *. cbn. unfold sub32, add32, u32 in *. rewrite Zminus_mod_idemp_l.
    replace (kf_in f + n - kf_out f) with ((kf_in f - kf_out f) + n) by lia.
    rewrite <- Zplus_mod_idemp_l, Z.mod_small; lia. }
  split; [|done]. split; try apply Hok; [apply u32_range|lia].
Qed.

Lemma kf_ok_with_data k f d : kf_ok k f -> length d = length (kf_data f) -> kf_ok k (with_data f d).
Proof. intros Hok Hd. split; try apply Hok. cbn. rewrite Hd. apply Hok. Qed.

(** Storing [src] and publishing [n] elements of it. *)
Lemma push_spec k f src n
    (f' := with_in (with_data f (cyc_write (kf_data f) (pos k f (kf_in f)) src)) (kf_in f ⊞ n)) :
  kf_ok k f -> 0 <= n -> n * kf_esize f <= Z.of_nat (length src) ->
  Z.of_nat (length src) <= (2 ^ k - kfifo_len f) * kf_esize f ->
  kf_ok k f' /\ kfifo_len f' = kfifo_len f + n /\
  contents k f' = contents k f ++ take (Z.to_nat (n * kf_esize f)) src.
Proof.
  intros Hok Hn Hsrc Hfit. pose proof (pow_bounds k (ok_k _ _ Hok)). pose proof (ok_len_range k f Hok).
  pose proof (ok_esize _ _ Hok). pose proof (ok_bytes _ _ Hok).
  destruct (advance_in k (with_data f (cyc_write (kf_data f) (pos k f (kf_in f)) src)) n) as [Hok' Hlen].
  { apply kf_ok_with_data; [done|apply cyc_write_length]. }
  { done. } { change (kfifo_len f + n <= 2 ^ k). nia. }
  change (kfifo_len f' = kfifo_len f + n) in Hlen. split_and!; [exact Hok'|done|].
  unfold contents. rewrite Hlen. unfold f'. cbn [with_in with_data kf_data kf_out kf_esize].
  change (pos k (with_in _ _) (kf_out f)) with (pos k f (kf_out f)).
  set (m := Z.to_nat (kfifo_len f * kf_esize f)).
  rewrite <- (cyc_take _ _ (m + length src)) by (unfold m; nia).
  rewrite cyc_write_append; [|by apply pos_lt|by apply pos_lt|by apply in_pos|unfold m; nia].
  rewrite take_app, cyc_length by (unfold m; pose proof (pos_lt k f (kf_out f) Hok); nia || lia).
  rewrite take_ge by (rewrite cyc_length by (unfold m; pose proof (pos_lt k f (kf_out f) Hok); nia || lia); unfold m; nia).
  do 2 f_equal. unfold m. nia.
Qed.

Lemma pos_add k f i n :
  kf_ok k f -> 0 <= n <= 2 ^ k ->
  (pos k f (i ⊞ n) = pos k f i + Z.to_nat (n * kf_esize f) \/
   pos k f (i ⊞ n) + length (kf_data f) = pos k f i + Z.to_nat (n * kf_esize f))%nat.
Proof.
  intros Hok Hn. pose proof (pow_bounds k (ok_k _ _ Hok)). pose proof (ok_esize _ _ Hok).
  pose proof (ok_bytes _ _ Hok). unfold pos, add32.
  rewrite u32_mod_pow by (destruct (ok_k _ _ Hok); lia).
  rewrite mod_add_step by lia. pose proof (Z.mod_pos_bound i (2 ^ k)).
  destruct (Z.ltb_spec (i mod 2 ^ k + n) (2 ^ k)); [left|right]; nia.
Qed.

(** Dropping [n] elements. *)
Lemma pop_spec k f n (f' := with_out f (kf_out f ⊞ n)) :
  kf_ok k f -> 0 <= n <= kfifo_len f ->
  kf_ok k f' /\ kfifo_len f' = kfifo_len f - n /\
  contents k f' = drop (Z.to_nat (n * kf_esize f)) (contents k f).
Proof.
  intros Hok Hn. pose proof (pow_bounds k (ok_k _ _ Hok)). pose proof (ok_len_range k f Hok).
  assert (Hlen : kfifo_len f' = kfifo_len f - n).
  { unfold f', kfifo_len in *. cbn. unfold sub32, add32, u32 in *. rewrite Zminus_mod_idemp_r.
    replace (kf_in f - (kf_out f + n)) with ((kf_in f - kf_out f) - n) by lia.
    rewrite <- Zminus_mod_idemp_l, Z.mod_small; lia. }
  assert (Hok' : kf_ok k f').
  { split; try apply Hok; cbn; [apply u32_range|lia]. }
  split_and!; try done. unfold contents. rewrite Hlen.
  pose proof (ok_esize _ _ Hok). pose proof (ok_bytes _ _ Hok).
  replace (Z.to_nat ((kfifo_len f - n) * kf_esize f')) with
    (Z.to_nat (kfifo_len f * kf_esize f) - Z.to_nat (n * kf_esize f))%nat by (cbn; nia).
  apply cyc_drop; [by apply pos_lt|by apply (pos_lt k f')| |nia|cbn; nia].
  apply (pos_add k f (kf_out f) n Hok). lia.
Qed.

(** [__kfifo_in] stores as many elements as fit (also across the end of
    the buffer and across the wrap of the 32-bit indices), appends exactly
    their bytes to the contents and stays inside the buffer. *)
Theorem __kfifo_in_correct k f buf len (n := Z.min len (2 ^ k - kfifo_len f)) :
  kf_ok k f -> 0 <= len -> n * kf_esize f <= Z.of_nat (length buf) ->
  exists f', __kfifo_in f buf len = Ok (n, f') /\ kf_ok k f' /\
    contents k f' = contents k f ++ take (Z.to_nat (n * kf_esize f)) buf.
Proof.
  intros Hok Hlen Hbuf. unfold __kfifo_in. rewrite (unused_eq k f Hok).
  pose proof (ok_len_range k f Hok). pose proof (ok_esize _ _ Hok).
  replace (if 2 ^ k - kfifo_len f <? len then 2 ^ k - kfifo_len f else len) with n
    by (unfold n; destruct (Z.ltb_spec (2 ^ k - kfifo_len f) len); lia).
  assert (Hn : 0 <= n <= 2 ^ k - kfifo_len f) by (unfold n; lia).
  rewrite (copy_in_spec k), res_bind_ok by (done || lia).
  destruct (push_spec k f (take (Z.to_nat (n * kf_esize f)) buf) n Hok) as (Hok' & _ & Hc);
    [lia|rewrite length_take; nia..|].
  eexists. split; [done|]. split; [exact Hok'|]. rewrite take_take, Nat.min_id in Hc. exact Hc.
Qed.

Lemma out_peek_spec k f len (n := Z.min len (kfifo_len f)) :
  kf_ok k f -> 0 <= len ->
  __kfifo_out_peek f len = Ok (n, take (Z.to_nat (n * kf_esize f)) (contents k f)).
Proof.
  intros Hok Hlen. unfold __kfifo_out_peek. fold (kfifo_len f).
  pose proof (ok_len_range k f Hok). pose proof (ok_esize _ _ Hok).
  replace (if kfifo_len f <? len then kfifo_len f else len) with n
    by (unfold n; destruct (Z.ltb_spec (kfifo_len f) len); lia).
  assert (Hn : 0 <= n <= kfifo_len f) by (unfold n; lia).
  rewrite (copy_out_spec k), res_bind_ok by (done || lia). unfold contents. rewrite cyc_take by nia. done.
Qed.

(** [__kfifo_out] returns the oldest elements, at most as many as are
    stored, and removes exactly them. *)
Theorem __kfifo_out_correct k f len (n := Z.min len (kfifo_len f)) :
  kf_ok k f -> 0 <= len ->
  exists f', __kfifo_out f len = Ok (n, take (Z.to_nat (n * kf_esize f)) (contents k f), f') /\
    kf_ok k f' /\ contents k f' = drop (Z.to_nat (n * kf_esize f)) (contents k f).
Proof.
  intros Hok Hlen. unfold __kfifo_out. rewrite (out_peek_spec k), res_bind_ok by done. fold n.
  pose proof (ok_len_range k f Hok).
  destruct (pop_spec k f n Hok) as (Hok' & _ & Hc); [unfold n; lia|]. eexists. done.
Qed.

(** ** User copies *)

Lemma div_round_up_complement n x d : 0 < d -> DIV_ROUND_UP (n * d - x) d = n - x / d.
Proof.
  intros Hd. unfold DIV_ROUND_UP. pose proof (Z.div_mod x d). pose proof (Z.mod_pos_bound x d Hd).
  symmetry. apply (Z.div_unique_pos _ _ _ (d - 1 - x mod d)); nia.
Qed.

(** Whole elements among [x] bytes. *)
Lemma whole_elements n x d : 0 < d -> 0 <= x <= n * d -> 0 <= x / d <= n /\ x / d * d <= x.
Proof. intros Hd Hx. pose proof (Z.mul_div_le x d). pose proof (Z.div_pos x d). nia. Qed.

Lemma take_le_eq {A} (m n : nat) (a b : list A) :
  (m <= n)%nat -> take n a = take n b -> take m a = take m b.
Proof. intros Hm He. rewrite <- (Nat.min_l m n) by done. by rewrite <- !take_take, He. Qed.

Lemma take_glue {A} (l j : nat) (a b u : list A) :
  length a = l -> a = take l u -> take j b = take j (drop l u) ->
  take (l + j) (a ++ b) = take (l + j) u.
Proof.
  intros Hl Ha Hb. rewrite <- Hl at 1. rewrite take_app_add, Hb, Ha.
  symmetry. rewrite <- (take_drop l u) at 1. rewrite <- Hl at 1.
  replace (length a) with (length (take l u)) by congruence. apply take_app_add.
Qed.

(** The two copies of a window write it around the end of the buffer. *)
Lemma cyc_write_app d p a b :
  length a = Nat.min (length a + length b) (length d - p) ->
  cyc_write d p (a ++ b) = list_inserts 0 b (list_inserts p a d).
Proof.
  intros Ha. unfold cyc_write. rewrite length_app, <- Ha. by rewrite take_app_length, drop_app_length.
Qed.

Section UserCopies.
Variable user : list Z.
Variable copy_from_user : Z -> Z -> Z * list Z.
Variable copy_to_user : Z -> list Z -> Z.

(** What [copy_from_user] promises about the readable part [user] of the
    user's buffer: the bytes it reports as copied are the user's. *)
Definition from_user_ok : Prop :=
  forall off n ret bs, 0 <= off -> 0 <= n -> copy_from_user off n = (ret, bs) ->
    0 <= ret <= n /\ Z.of_nat (length bs) = n /\
    take (Z.to_nat (n - ret)) bs = take (Z.to_nat (n - ret)) (drop (Z.to_nat off) user).

Definition to_user_ok : Prop :=
  forall off bs, 0 <= copy_to_user off bs <= Z.of_nat (length bs).

Lemma copy_from_user_spec k f len off :
  from_user_ok -> kf_ok k f -> 0 <= len <= 2 ^ k ->
  exists n src,
    kfifo_copy_from_user copy_from_user f len off =
      Ok (len - n, n * kf_esize f, with_data f (cyc_write (kf_data f) (pos k f off) src)) /\
    0 <= n <= len /\
    n * kf_esize f <= Z.of_nat (length src) <= len * kf_esize f /\
    take (Z.to_nat (n * kf_esize f)) src = take (Z.to_nat (n * kf_esize f)) user /\
    (n <> len -> exists o m, 0 < fst (copy_from_user o m)).
Proof.
  intros Hu Hok Hlen. unfold kfifo_copy_from_user. rewrite (window_eq k) by done.
  pose proof (pos_lt k f off Hok). pose proof (ok_bytes _ _ Hok). pose proof (ok_esize _ _ Hok).
  pose proof (ok_small _ _ Hok). pose proof (pow_bounds k (ok_k _ _ Hok)).
  set (es := kf_esize f) in *. remember (len * es) as N eqn:HN. set (p := pos k f off) in *. set (d := kf_data f) in *.
  assert (Hn : 0 <= N <= Z.of_nat (length d)) by nia.
  remember (Z.min N (Z.of_nat (length d) - Z.of_nat p)) as l eqn:Hl.
  destruct (copy_from_user 0 l) as [ret bs] eqn:E1.
  destruct (Hu 0 l ret bs) as (Hret & Hbs & Hpre); [lia|lia|done|]. rewrite drop_0 in Hpre.
  rewrite memcpy_to_ok, res_bind_ok by lia. rewrite Nat2Z.id. rewrite take_ge by lia.
  destruct (Z.eqb_spec ret 0) as [->|Hne]; cbn [negb].
  - rewrite sub32_small by lia. destruct (copy_from_user l (N - l)) as [ret2 bs2] eqn:E2.
    destruct (Hu l (N - l) ret2 bs2) as (Hret2 & Hbs2 & Hpre2); [lia|lia|done|].
    rewrite memcpy_to_ok, res_bind_ok by (rewrite ?length_inserts; lia).
    change (Z.to_nat 0) with 0%nat. rewrite (take_ge bs2) by lia.
    destruct (whole_elements len (N - ret2) es) as [Hq Hq2]; [lia|lia|].
    exists ((N - ret2) / es), (bs ++ bs2). rewrite cyc_write_app by lia. rewrite length_app. split_and!; try lia.
    + assert (Hr : (if negb (ret2 =? 0) then DIV_ROUND_UP ret2 es else ret2) = len - (N - ret2) / es).
      { destruct (Z.eqb_spec ret2 0) as [->|]; cbn [negb].
        - rewrite Z.sub_0_r, HN, Z.div_mul; lia.
        - rewrite <- div_round_up_complement by lia. f_equal. lia. }
      rewrite Hr. do 2 f_equal. rewrite u32_small; [|nia]. f_equal. lia.
    + rewrite Z.sub_0_r in Hpre. rewrite take_ge in Hpre by lia.
      apply take_le_eq with (n := (Z.to_nat l + Z.to_nat (N - l - ret2))%nat); [lia|].
      apply take_glue; [lia|done|done].
    + intros Hx. exists l, (N - l). rewrite E2. cbn. destruct (decide (ret2 = 0)) as [->|]; [|lia].
      exfalso. apply Hx. rewrite Z.sub_0_r, HN, Z.div_mul; lia.
  - destruct (whole_elements len (l - ret) es) as [Hq Hq2]; [lia|lia|].
    exists ((l - ret) / es), bs. split_and!; try lia.
    + replace (ret + N - l) with (len * es - (l - ret)) by lia. rewrite div_round_up_complement by lia.
      rewrite <- (app_nil_r bs) at 2. rewrite cyc_write_app by (cbn; lia). cbn [list_inserts].
      do 2 f_equal. rewrite u32_small by nia. f_equal. lia.
    + by apply take_le_eq with (n := Z.to_nat (l - ret)); [lia|].
    + intros _. exists 0, l. rewrite E1. cbn. lia.
Qed.

Lemma copy_to_user_spec k f len off (all := cyc (kf_data f) (pos k f off) (Z.to_nat (len * kf_esize f))) :
  to_user_ok -> kf_ok k f -> 0 <= len <= 2 ^ k ->
  exists n j,
    kfifo_copy_to_user copy_to_user f len off = Ok (len - n, n * kf_esize f, take j all) /\
    0 <= n <= len /\ n * kf_esize f <= Z.of_nat j <= len * kf_esize f /\
    (n <> len -> exists o m, 0 < copy_to_user o m).
Proof.
  intros Hu Hok Hlen. unfold kfifo_copy_to_user. rewrite (window_eq k) by done.
  pose proof (pos_lt k f off Hok). pose proof (ok_bytes _ _ Hok). pose proof (ok_esize _ _ Hok).
  pose proof (ok_small _ _ Hok). pose proof (pow_bounds k (ok_k _ _ Hok)). unfold all. clear all.
  set (es := kf_esize f) in *. remember (len * es) as N eqn:HN. set (p := pos k f off) in *. set (d := kf_data f) in *.
  assert (Hn : 0 <= N <= Z.of_nat (length d)) by nia.
  remember (Z.min N (Z.of_nat (length d) - Z.of_nat p)) as l eqn:Hl.
  rewrite (memcpy_from_ok d (Z.of_nat p) l), res_bind_ok by lia. rewrite Nat2Z.id.
  rewrite cyc_split by lia. replace (Nat.min (Z.to_nat N) (length d - p)) with (Z.to_nat l) by lia.
  set (a := take (Z.to_nat l) (drop p d)).
  assert (Ha : length a = Z.to_nat l) by (unfold a; rewrite length_take, length_drop; lia).
  pose proof (Hu 0 a) as Hret. remember (copy_to_user 0 a) as ret eqn:Hr.
  destruct (Z.eqb_spec ret 0) as [->|Hne]; cbn [negb].
  - rewrite sub32_small by lia. rewrite memcpy_from_ok, res_bind_ok by lia.
    change (Z.to_nat 0) with 0%nat. rewrite drop_0.
    replace (Z.to_nat N - Z.to_nat l)%nat with (Z.to_nat (N - l)) by lia.
    set (b := take (Z.to_nat (N - l)) d).
    assert (Hb : length b = Z.to_nat (N - l)) by (unfold b; rewrite length_take; lia).
    pose proof (Hu l b) as Hret2. remember (copy_to_user l b) as ret2 eqn:Hr2.
    destruct (whole_elements len (N - ret2) es) as [Hq Hq2]; [lia|lia|].
    exists ((N - ret2) / es), (length a + Z.to_nat (N - l - ret2))%nat. split_and!; try lia.
    + rewrite take_app_add, Z.sub_0_r, (take_ge a) by lia.
      assert (Hc : (if negb (ret2 =? 0) then DIV_ROUND_UP ret2 es else ret2) = len - (N - ret2) / es).
      { destruct (Z.eqb_spec ret2 0) as [->|]; cbn [negb].
        - rewrite Z.sub_0_r, HN, Z.div_mul; lia.
        - rewrite <- div_round_up_complement by lia. f_equal. lia. }
      rewrite Hc. do 2 f_equal. rewrite u32_small; [|nia]. f_equal. lia.
    + intros Hx. exists l, b. rewrite <- Hr2. destruct (decide (ret2 = 0)) as [->|]; [|lia].
      exfalso. apply Hx. rewrite Z.sub_0_r, HN, Z.div_mul; lia.
  - destruct (whole_elements len (l - ret) es) as [Hq Hq2]; [lia|lia|].
    exists ((l - ret) / es), (Z.to_nat (l - ret)). split_and!; try lia.
    + replace (ret + N - l) with (len * es - (l - ret)) by lia. rewrite div_round_up_complement by lia.
      rewrite take_app_le by lia. do 2 f_equal. rewrite u32_small by nia. f_equal. lia.
    + intros _. exists 0, a. rewrite <- Hr. lia.
Qed.

(** The result code of a transfer of [n] of [want] elements. *)
Definition user_result (err n want : Z) (failed : Prop) : Prop :=
  err = 0 /\ n = want \/ err = - EFAULT /\ 0 <= n < want /\ failed.

(** The requested number of elements. *)
Lemma user_len es len bound :
  1 <= es -> 0 <= len -> 0 <= bound ->
  (let len := if negb (es =? 1) then len / es else len in if bound <? len then bound else len)
  = Z.min (len / es) bound.
Proof.
  intros Hes Hlen Hb. destruct (Z.eqb_spec es 1) as [->|]; cbn [negb]; rewrite ?Z.div_1_r; cbv zeta;
    case Z.ltb_spec; lia.
Qed.

(** [__kfifo_from_user] appends whole elements read from the user and
    reports their bytes; it reports [-EFAULT] exactly when fewer than possible
    were transferred, and then still publishes the elements that arrived. *)
Theorem __kfifo_from_user_correct k f len (want := Z.min (len / kf_esize f) (2 ^ k - kfifo_len f)) :
  from_user_ok -> kf_ok k f -> 0 <= len ->
  exists err n f',
    __kfifo_from_user copy_from_user f len = Ok (err, n * kf_esize f, f') /\
    user_result err n want (exists off m, 0 < fst (copy_from_user off m)) /\
    kf_ok k f' /\ contents k f' = contents k f ++ take (Z.to_nat (n * kf_esize f)) user.
Proof.
  intros Hu Hok Hlen. unfold __kfifo_from_user. rewrite (unused_eq k f Hok).
  pose proof (ok_len_range k f Hok). pose proof (ok_esize _ _ Hok).
  pose proof (user_len (kf_esize f) len (2 ^ k - kfifo_len f)) as Hwant. cbv zeta in Hwant.
  rewrite Hwant by lia. fold want. clear Hwant.
  assert (Hw : 0 <= want <= 2 ^ k - kfifo_len f) by (unfold want; pose proof (Z.div_pos len (kf_esize f)); lia).
  clearbody want. destruct (copy_from_user_spec k f want (kf_in f) Hu Hok) as (n & src & -> & Hn & Hsrc & Hpre & Hf); [lia|].
  rewrite res_bind_ok.
  destruct (push_spec k f src n Hok) as (Hok' & _ & Hc); [lia|nia|nia|]. rewrite Hpre in Hc.
  destruct (Z.eqb_spec (want - n) 0) as [E|E]; cbn [negb].
  - exists 0, n. eexists. replace want with n by lia. split_and!; [done|by left|done|done].
  - exists (- EFAULT), n. eexists. replace (want - (want - n)) with n by lia.
    split_and!; [done| |done|done]. right. split_and!; [done|lia|lia|]. apply Hf. lia.
Qed.

(** [__kfifo_to_user] hands the user the oldest bytes and removes exactly
    the whole elements it reports; a failed copy loses nothing. *)
Theorem __kfifo_to_user_correct k f len (want := Z.min (len / kf_esize f) (kfifo_len f)) :
  to_user_ok -> kf_ok k f -> 0 <= len ->
  exists err n j f',
    __kfifo_to_user copy_to_user f len = Ok (err, n * kf_esize f, take j (contents k f), f') /\
    user_result err n want (exists off bs, 0 < copy_to_user off bs) /\
    n * kf_esize f <= Z.of_nat j <= want * kf_esize f /\
    kf_ok k f' /\ contents k f' = drop (Z.to_nat (n * kf_esize f)) (contents k f).
Proof.
  intros Hu Hok Hlen. unfold __kfifo_to_user. fold (kfifo_len f).
  pose proof (ok_len_range k f Hok). pose proof (ok_esize _ _ Hok).
  pose proof (user_len (kf_esize f) len (kfifo_len f)) as Hwant. cbv zeta in Hwant.
  rewrite Hwant by lia. fold want. clear Hwant.
  assert (Hw : 0 <= want <= kfifo_len f) by (unfold want; pose proof (Z.div_pos len (kf_esize f)); lia).
  clearbody want. destruct (copy_to_user_spec k f want (kf_out f) Hu Hok) as (n & j & -> & Hn & Hj & Hf); [lia|].
  rewrite res_bind_ok. rewrite <- (cyc_take _ _ (Z.to_nat (kfifo_len f * kf_esize f))) by nia.
  rewrite take_take, Nat.min_l by lia. fold (contents k f).
  destruct (pop_spec k f n Hok) as (Hok' & _ & Hc); [lia|].
  destruct (Z.eqb_spec (want - n) 0) as [E|E]; cbn [negb].
  - exists 0, n, j. eexists. replace want with n by lia. split_and!; [done|by left|lia|lia|done|done].
  - exists (- EFAULT), n, j. eexists. replace (want - (want - n)) with n by lia.
    split_and!; [done| |lia|lia|done|done]. right. split_and!; [done|lia|lia|]. apply Hf. lia.
Qed.

End UserCopies.

(** ** Set-up *)

Lemma roundup_pow_of_two_spec n :
  2 <= n <= 2 ^ 31 -> __roundup_pow_of_two n = Ok (2 ^ Z.log2_up n) /\ 1 <= Z.log2_up n <= 31.
Proof.
  intros Hn. pose proof (Z.log2_up_spec n). unfold __roundup_pow_of_two. rewrite u64_small by lia.
  assert (Hk : fls_long (n - 1) = Z.log2_up n).
  { unfold fls_long. rewrite (proj2 (Z.eqb_neq _ _)) by lia. rewrite Z.log2_up_eqn by lia.
    replace (Z.pred n) with (n - 1) by lia. lia. }
  assert (Hr : 1 <= Z.log2_up n <= 31).
  { split; [change 1 with (Z.log2_up 2)|change 31 with (Z.log2_up (2 ^ 31))]; apply Z.log2_up_le_mono; lia. }
  rewrite Hk. split; [|done]. rewrite (proj2 (Z.leb_gt _ _)) by lia. rewrite Z.shiftl_1_l.
  f_equal. apply u64_small. pose proof (Z.pow_lt_mono_r 2 (Z.log2_up n) 64). lia.
Qed.

(** [__kfifo_alloc] gives an empty fifo whose size is the next power of
    two, or [-ENOMEM] when there is no memory. *)
Theorem __kfifo_alloc_correct kmalloc f size esize (k := Z.log2_up size) :
  (forall n d, kmalloc n = Some d -> Z.of_nat (length d) = n) ->
  2 <= size <= 2 ^ 31 -> 1 <= esize -> 2 ^ k * esize < 2 ^ 32 ->
  match kmalloc (2 ^ k * esize) with
  | None => exists f', __kfifo_alloc kmalloc f size esize = Ok (- ENOMEM, f')
  | Some _ => exists f', __kfifo_alloc kmalloc f size esize = Ok (0, f') /\
      kf_ok k f' /\ kf_esize f' = esize /\ contents k f' = [] /\ size <= 2 ^ k < 2 * size
  end.
Proof.
  intros Hm Hs He Hb. destruct (roundup_pow_of_two_spec size Hs) as [Hr Hk]. fold k in Hr, Hk.
  pose proof (pow_bounds k Hk). unfold __kfifo_alloc. rewrite Hr, res_bind_ok.
  rewrite (u32_small (2 ^ k)) by lia. rewrite (proj2 (Z.ltb_ge _ _)) by lia. rewrite u64_small by nia.
  destruct (kmalloc (2 ^ k * esize)) as [d|] eqn:E; [|eauto].
  eexists. split; [done|]. rewrite sub32_small, u32_small by nia. split_and!; try done.
  - split; cbn; try lia; [by apply Hm|]. unfold kfifo_len. cbn. rewrite sub32_small; lia.
  - apply Z.log2_up_spec. lia.
  - destruct (Z.log2_up_spec size) as [Hlt _]; [lia|]. fold k in Hlt.
    replace (2 ^ k) with (2 * 2 ^ Z.pred k); [lia|]. rewrite <- Z.pow_succ_r by lia. f_equal. lia.
Qed.

(** [__kfifo_init] rounds the number of elements of the caller's buffer
    up: on a buffer of bytes whose size is not a power of two the fifo claims
    more room than there is, and filling it writes outside the buffer. *)
Theorem __kfifo_init_overruns f buffer buf (size := Z.of_nat (length buffer)) (k := Z.log2_up size) :
  2 <= size < 2 ^ 31 -> size <> 2 ^ k -> Z.of_nat (length buf) = 2 ^ k ->
  exists f', __kfifo_init f buffer size 1 = Ok (0, f') /\ kfifo_unused f' = 2 ^ k /\
    __kfifo_in f' buf (2 ^ k) = Fault.
Proof.
  intros Hs Hne Hbuf. destruct (roundup_pow_of_two_spec size) as [Hr Hk]; [lia|]. fold k in Hr, Hk.
  pose proof (pow_bounds k Hk). destruct (Z.log2_up_spec size) as [_ Hup]; [lia|]. fold k in Hup.
  assert (Hmod : u32 1 = 1) by done.
  unfold __kfifo_init. rewrite Z.div_1_r, (u32_small size), Hr, res_bind_ok by lia.
  rewrite (u32_small (2 ^ k)) by lia. rewrite (proj2 (Z.ltb_ge _ _)) by lia. rewrite Hmod.
  eexists. split; [done|]. rewrite sub32_small by lia. set (f' := mkKfifo _ _ _ _ _).
  assert (Hun : kfifo_unused f' = 2 ^ k).
  { unfold kfifo_unused, f'. cbn [kf_in kf_out kf_mask]. rewrite (sub32_small 0 0) by lia.
    rewrite add32_small by lia. rewrite sub32_small; lia. }
  split; [done|]. unfold __kfifo_in. rewrite Hun, Z.ltb_irrefl. unfold kfifo_copy_in, window. cbn.
  rewrite Z.land_0_l, (add32_small (2 ^ k - 1) 1) by lia. rewrite (sub32_small _ 0) by lia.
  rewrite memcpy_to_fault by (fold size; lia). done.
Qed.
