(* ===== verification/KfifoRec.v ===== *)
(** * Record fifos of lib/kfifo.c

    A record fifo has one-byte elements and holds records, each behind its
    length in [recsize] bytes.  The operations refine a queue of records. *)

From S2P Require Import Prelude KfifoDefs Kfifo.

(** The length field of a record. *)
Definition header (recsize n : Z) : list Z :=
  if recsize =? 1 then [Z.land n 255] else [Z.land n 255; Z.land (Z.shiftr n 8) 255].

Definition encode (recsize : Z) (r : list Z) : list Z := header recsize (Z.of_nat (length r)) ++ r.

Definition encode_all (recsize : Z) (rs : list (list Z)) : list Z := concat (map (encode recsize) rs).

(** A fifo of [2 ^ k] bytes that holds the records [rs]. *)
Record rec_ok (k recsize : Z) (f : __kfifo) (rs : list (list Z)) : Prop := {
  rec_kf : kf_ok k f;
  rec_bytes : kf_esize f = 1;
  rec_size : recsize = 1 \/ recsize = 2;
  rec_fits : Forall (fun r => Z.of_nat (length r) < 2 ^ (8 * recsize)) rs;
  rec_contents : contents k f = encode_all recsize rs }.

Lemma encode_all_app recsize a b : encode_all recsize (a ++ b) = encode_all recsize a ++ encode_all recsize b.
Proof. unfold encode_all. by rewrite map_app, concat_app. Qed.

Lemma length_header recsize n : recsize = 1 \/ recsize = 2 -> Z.of_nat (length (header recsize n)) = recsize.
Proof. by intros [->| ->]. Qed.

Lemma header_decode n : 0 <= n < 2 ^ 16 -> Z.lor (Z.land n 255) (Z.shiftl (Z.land (Z.shiftr n 8) 255) 8) = n.
Proof.
  intros Hn. change 255 with (Z.ones 8). rewrite !Z.land_ones by lia.
  rewrite Z.shiftl_mul_pow2, Z.shiftr_div_pow2 by lia. rewrite (Z.mod_small (n / 2 ^ 8)).
  2: { split; [apply Z.div_pos; lia|apply Z.div_lt_upper_bound; lia]. }
  pose proof (Z.div_mod n (2 ^ 8)). pose proof (Z.add_lor_land (n mod 2 ^ 8) (n / 2 ^ 8 * 2 ^ 8)).
  cut (Z.land (n mod 2 ^ 8) (n / 2 ^ 8 * 2 ^ 8) = 0); [lia|]. rewrite <- Z.shiftl_mul_pow2, <- Z.land_ones by lia. apply Z.bits_inj'. intros i Hi.
  rewrite Z.bits_0, !Z.land_spec, Z.shiftl_spec by done. destruct (decide (i < 8)).
  - rewrite (Z.testbit_neg_r _ (i - 8)) by lia. by rewrite andb_false_r.
  - rewrite Z.ones_spec_high by lia. by rewrite andb_false_r.
Qed.

(** ** Single bytes *)

Lemma land_pos k f i : kf_ok k f -> kf_esize f = 1 -> Z.to_nat (Z.land i (kf_mask f)) = pos k f i.
Proof.
  intros Hok H1. unfold pos. rewrite (ok_mask _ _ Hok), H1, Z.mul_1_r. f_equal.
  replace (2 ^ k - 1) with (Z.ones k) by (rewrite Z.ones_equiv; lia).
  apply Z.land_ones. destruct (ok_k _ _ Hok). lia.
Qed.

Lemma poke_spec k f i v :
  kf_ok k f -> kf_esize f = 1 ->
  __KFIFO_POKE (kf_data f) i (kf_mask f) v = Ok (cyc_write (kf_data f) (pos k f i) [Z.land v 255]).
Proof.
  intros Hok H1. unfold __KFIFO_POKE. rewrite (land_pos k) by done.
  pose proof (pos_lt k f i Hok). rewrite aset_ok by done. f_equal. unfold cyc_write. cbn [length].
  rewrite Nat.min_l by lia. done.
Qed.

(** The state after one pushed byte. *)
Definition push1 (k : Z) (f : __kfifo) (v : Z) : __kfifo :=
  with_in (with_data f (cyc_write (kf_data f) (pos k f (kf_in f)) [v])) (kf_in f ⊞ 1).

Lemma push1_spec k f v :
  kf_ok k f -> kf_esize f = 1 -> kfifo_len f < 2 ^ k ->
  kf_ok k (push1 k f v) /\ kfifo_len (push1 k f v) = kfifo_len f + 1 /\
  contents k (push1 k f v) = contents k f ++ [v].
Proof.
  intros Hok H1 Hroom. destruct (push_spec k f [v] 1 Hok) as (? & ? & Hc); rewrite ?H1; cbn; [lia..|].
  rewrite H1 in Hc. done.
Qed.

Lemma peek_spec k f v r :
  kf_ok k f -> kf_esize f = 1 -> contents k f = v :: r ->
  __KFIFO_PEEK (kf_data f) (kf_out f) (kf_mask f) = Ok v.
Proof.
  intros Hok H1 Hc. unfold __KFIFO_PEEK. rewrite (land_pos k) by done. apply aget_ok.
  assert (Hl : (0 < Z.to_nat (kfifo_len f * kf_esize f))%nat).
  { rewrite <- (contents_length k f Hok), Hc. cbn. lia. }
  pose proof (pos_lt k f (kf_out f) Hok).
  assert (Hv : contents k f !! 0%nat = Some v) by (by rewrite Hc).
  unfold contents in Hv. rewrite cyc_lookup in Hv by lia.
  rewrite Nat.add_0_r, (proj2 (Nat.ltb_lt _ _)) in Hv by done. done.
Qed.

(** ** Lengths of records *)

(** Storing the length field and publishing it. *)
Lemma poke_n_spec k f n recsize :
  kf_ok k f -> kf_esize f = 1 -> recsize = 1 \/ recsize = 2 -> kfifo_len f + recsize <= 2 ^ k ->
  exists d, __kfifo_poke_n f n recsize = Ok (with_data f d) /\ length d = length (kf_data f) /\
    let f2 := with_in (with_data f d) (kf_in f ⊞ recsize) in
    kf_ok k f2 /\ kf_esize f2 = 1 /\ kfifo_len f2 = kfifo_len f + recsize /\
    contents k f2 = contents k f ++ header recsize n.
Proof.
  intros Hok H1 Hrs Hroom. unfold __kfifo_poke_n. rewrite (poke_spec k), res_bind_ok by done.
  destruct (push1_spec k f (Z.land n 255) Hok H1) as (Hok1 & Hl1 & Hc1); [lia|].
  destruct Hrs as [->| ->]; cbn [Z.ltb Z.compare Pos.compare Pos.compare_cont].
  - eexists. split; [done|]. split; [apply cyc_write_length|]. cbv zeta. split_and!; [exact Hok1|done|exact Hl1|exact Hc1].
  - destruct (push1_spec k (push1 k f (Z.land n 255)) (Z.land (Z.shiftr n 8) 255) Hok1 H1)
      as (Hok2 & Hl2 & Hc2); [lia|].
    change (cyc_write _ _ _) with (kf_data (push1 k f (Z.land n 255))).
    change (kf_mask f) with (kf_mask (push1 k f (Z.land n 255))).
    rewrite (poke_spec k), res_bind_ok by done. eexists. split; [done|]. split; [rewrite cyc_write_length; apply cyc_write_length|]. cbv zeta.
    rewrite Hc1, <- app_assoc in Hc2. rewrite Hl1 in Hl2.
    assert (Heq : forall d, with_in (with_data f d) (kf_in f ⊞ 2)
              = with_in (with_data (push1 k f (Z.land n 255)) d) ((kf_in f ⊞ 1) ⊞ 1)).
    { intros d. unfold with_in, with_data, push1. cbn. f_equal. unfold add32, u32.
      rewrite Zplus_mod_idemp_l. f_equal. lia. }
    rewrite Heq. split_and!; [exact Hok2|done| |exact Hc2]. etransitivity; [exact Hl2|lia].
Qed.

Lemma peek_n_spec k f n recsize r :
  kf_ok k f -> kf_esize f = 1 -> recsize = 1 \/ recsize = 2 -> 0 <= n < 2 ^ (8 * recsize) ->
  contents k f = header recsize n ++ r ->
  __kfifo_peek_n f recsize = Ok n.
Proof.
  intros Hok H1 Hrs Hn Hc. unfold __kfifo_peek_n.
  assert (Hlen : recsize <= kfifo_len f).
  { pose proof (contents_length k f Hok) as Hl. rewrite Hc, length_app, H1 in Hl.
    pose proof (length_header recsize n Hrs). pose proof (ok_len_range k f Hok). lia. }
  destruct Hrs as [->| ->]; cbn [header Z.eqb Pos.eqb app] in Hc.
  - rewrite (peek_spec k f _ _ Hok H1 Hc), res_bind_ok. cbn [negb Z.sub Z.eqb Z.opp Z.add Z.pos_sub].
    f_equal. change 255 with (Z.ones 8). rewrite Z.land_ones by lia. by apply Z.mod_small.
  - rewrite (peek_spec k f _ _ Hok H1 Hc), res_bind_ok.
    destruct (pop_spec k f 1 Hok) as (Hok' & _ & Hc'); [lia|]. rewrite H1, Hc in Hc'.
    pose proof (peek_spec k _ _ _ Hok' H1 Hc') as Hp. cbn [with_out kf_data kf_out kf_mask] in Hp.
    change (negb (2 - 1 =? 0)) with true. cbv iota. rewrite Hp, res_bind_ok. f_equal.
    by apply header_decode.
Qed.

(** ** The record queue *)

(** [__kfifo_in_r] appends a record whose length fits the length field,
    or leaves the fifo as it is and returns 0 when there is no room for it. *)
Theorem __kfifo_in_r_correct k recsize f rs buf len (r := take (Z.to_nat len) buf) :
  rec_ok k recsize f rs -> 0 <= len < 2 ^ (8 * recsize) -> len <= Z.of_nat (length buf) ->
  if 2 ^ k - kfifo_len f <? len + recsize
  then __kfifo_in_r f buf len recsize = Ok (0, f)
  else exists f', __kfifo_in_r f buf len recsize = Ok (len, f') /\ rec_ok k recsize f' (rs ++ [r]).
Proof.
  intros [Hok H1 Hrs Hfit Hc] Hlen Hbuf. unfold __kfifo_in_r. rewrite (unused_eq k f Hok).
  destruct (Z.ltb_spec (2 ^ k - kfifo_len f) (len + recsize)) as [|Hroom]; [done|].
  pose proof (ok_len_range k f Hok).
  assert (Hr : Z.of_nat (length r) = len) by (unfold r; rewrite length_take; lia).
  destruct (poke_n_spec k f len recsize Hok H1 Hrs) as (d & -> & Hd & Hok2 & H12 & Hl2 & Hc2); [lia|].
  set (f2 := with_in (with_data f d) (kf_in f ⊞ recsize)) in *. rewrite res_bind_ok.
  rewrite (copy_in_spec k), res_bind_ok by (first [by apply kf_ok_with_data|cbn; lia]).
  cbn [with_data kf_data kf_esize kf_in]. rewrite H1, Z.mul_1_r. fold r.
  destruct (push_spec k f2 r len Hok2) as (Hok3 & _ & Hc3); rewrite ?H12; [lia..|].
  eexists. split; [done|].
  assert (Hi : (kf_in f ⊞ recsize) ⊞ len = u32 (kf_in f + (len + recsize))).
  { unfold add32, u32. rewrite Zplus_mod_idemp_l. f_equal. lia. }
  rewrite <- Hi. split; [exact Hok3|done|done| |].
  - apply Forall_app. split; [done|]. constructor; [lia|done].
  - etransitivity; [exact Hc3|]. rewrite H12, Z.mul_1_r, (take_ge r) by lia.
    rewrite Hc2, Hc, encode_all_app, <- app_assoc. f_equal. unfold encode_all, encode. cbn.
    by rewrite app_nil_r, Hr.
Qed.

(** The bytes after the length field of the first record. *)
Lemma rec_pop k recsize f r rs :
  rec_ok k recsize f (r :: rs) ->
  __kfifo_peek_n f recsize = Ok (Z.of_nat (length r)) /\
  recsize + Z.of_nat (length r) <= kfifo_len f /\
  cyc (kf_data f) (pos k f (u32 (kf_out f + recsize))) (length r) = r /\
  rec_ok k recsize (with_out f (u32 (kf_out f + (Z.of_nat (length r) + recsize)))) rs.
Proof.
  intros [Hok H1 Hrs Hfit Hc]. apply Forall_cons in Hfit as [Hr Hfit].
  unfold encode_all in Hc. cbn [map concat] in Hc. fold (encode_all recsize rs) in Hc.
  unfold encode in Hc. rewrite <- app_assoc in Hc.
  pose proof (length_header recsize (Z.of_nat (length r)) Hrs) as Hh.
  assert (Hlen : recsize + Z.of_nat (length r) <= kfifo_len f).
  { pose proof (contents_length k f Hok) as Hl. rewrite Hc, !length_app, H1 in Hl.
    pose proof (ok_len_range k f Hok). lia. }
  split_and!; [|done| |].
  - eapply peek_n_spec; [done..| |exact Hc]. lia.
  - destruct (pop_spec k f recsize Hok) as (_ & Hl' & Hc'); [lia|].
    rewrite H1, Hc, Z.mul_1_r, drop_app_length' in Hc' by lia.
    rewrite <- (take_app_length r (encode_all recsize rs)) at 2. rewrite <- Hc'. unfold contents.
    rewrite cyc_take; [done|]. rewrite Hl'. cbn. lia.
  - destruct (pop_spec k f (Z.of_nat (length r) + recsize) Hok) as (Hok' & _ & Hc'); [lia|].
    split; [exact Hok'|done|done|done|]. etransitivity; [exact Hc'|].
    rewrite H1, Hc, app_assoc, drop_app_length'; [done|]. rewrite length_app. lia.
Qed.

Lemma rec_not_empty k recsize f r rs : rec_ok k recsize f (r :: rs) -> (kf_in f =? kf_out f) = false.
Proof.
  intros Hrec. destruct (rec_pop k recsize f r rs Hrec) as (_ & Hlen & _).
  destruct (Z.eqb_spec (kf_in f) (kf_out f)) as [E|]; [|done].
  unfold kfifo_len in Hlen. rewrite E in Hlen. unfold sub32 in Hlen. rewrite Z.sub_diag, u32_small in Hlen by lia.
  destruct (rec_size _ _ _ _ Hrec); lia.
Qed.

(** [__kfifo_out_r] returns the first record, cut to the caller's buffer,
    and removes the whole record. *)
Theorem __kfifo_out_r_correct k recsize f r rs len :
  rec_ok k recsize f (r :: rs) -> 0 <= len ->
  exists f', __kfifo_out_r f len recsize =
      Ok (Z.min len (Z.of_nat (length r)), take (Z.to_nat len) r, f') /\
    rec_ok k recsize f' rs.
Proof.
  intros Hrec Hlen. destruct (rec_pop k recsize f r rs Hrec) as (Hpeek & Hl & Hc & Hrec').
  unfold __kfifo_out_r, kfifo_out_copy_r. rewrite (rec_not_empty _ _ _ _ _ Hrec), Hpeek, res_bind_ok.
  pose proof (ok_len_range k f (rec_kf _ _ _ _ Hrec)).
  assert (1 <= recsize) by (destruct (rec_size _ _ _ _ Hrec); lia).
  replace (if Z.of_nat (length r) <? len then Z.of_nat (length r) else len)
    with (Z.min len (Z.of_nat (length r))) by (case Z.ltb_spec; lia).
  rewrite (copy_out_spec k), !res_bind_ok by (apply Hrec || lia).
  eexists. split; [|exact Hrec']. do 3 f_equal.
  rewrite (rec_bytes _ _ _ _ Hrec), Z.mul_1_r, <- (cyc_take _ _ (length r)), Hc by lia.
  destruct (Z.min_spec len (Z.of_nat (length r))) as [[? ->]|[? ->]]; [done|].
  by rewrite !take_ge by lia.
Qed.

(** [__kfifo_skip_r] removes exactly the first record. *)
Theorem __kfifo_skip_r_correct k recsize f r rs :
  rec_ok k recsize f (r :: rs) ->
  exists f', __kfifo_skip_r f recsize = Ok f' /\ rec_ok k recsize f' rs.
Proof.
  intros Hrec. destruct (rec_pop k recsize f r rs Hrec) as (Hpeek & _ & _ & Hrec').
  unfold __kfifo_skip_r. rewrite Hpeek, res_bind_ok. eauto.
Qed.
