(* ===== verification/KfifoConc.v ===== *)
(** * One reader and one writer on a kfifo

    [__kfifo_in] and [__kfifo_out] without a lock: the writer's steps are the
    read of the free space, the store of each byte and the update of [in];
    the reader's are the read of the fill level, the load of each byte and the
    update of [out].  Any interleaving keeps the stream intact. *)

From S2P Require Import Prelude KfifoDefs Kfifo.

(** The address of byte [i] of a copy of [n] elements at index [off]: the
    first [memcpy] covers [l] bytes, the second starts at the buffer. *)
Definition addr (f : __kfifo) (n off : Z) (i : nat) : nat :=
  let '(o, _, l) := window f n off in
  if Z.of_nat i <? l then Z.to_nat (o + Z.of_nat i) else Z.to_nat (Z.of_nat i - l).

(** Where the writer is: [WCopy src i n] has stored the first [i] bytes of
    [src], the [n] elements it may write. *)
Inductive writer := WIdle | WCopy (src : list Z) (i : nat) (n : Z).

(** [RCopy n bs] has read [bs] of the [n] elements it may read. *)
Inductive reader := RIdle | RCopy (n : Z) (bs : list Z).

(** The fifo, both threads, all bytes published and all bytes consumed. *)
Record conc := mkConc {
  c_fifo : __kfifo;
  c_wr : writer;
  c_rd : reader;
  c_sent : list Z;
  c_recv : list Z }.

Inductive step : conc -> conc -> Prop :=
| w_reserve f r s v buf len n :
    0 <= len -> n = Z.min len (kfifo_unused f) -> n * kf_esize f <= Z.of_nat (length buf) ->
    step (mkConc f WIdle r s v)
         (mkConc f (WCopy (take (Z.to_nat (n * kf_esize f)) buf) 0 n) r s v)
| w_store f r s v src i n x d :
    src !! i = Some x -> aset (kf_data f) (addr f n (kf_in f) i) x = Ok d ->
    step (mkConc f (WCopy src i n) r s v) (mkConc (with_data f d) (WCopy src (S i) n) r s v)
| w_publish f r s v src i n :
    i = length src ->
    step (mkConc f (WCopy src i n) r s v) (mkConc (with_in f (kf_in f ⊞ n)) WIdle r (s ++ src) v)
| r_reserve f w s v len n :
    0 <= len -> n = Z.min len (kfifo_len f) ->
    step (mkConc f w RIdle s v) (mkConc f w (RCopy n []) s v)
| r_load f w s v n bs x :
    Z.of_nat (length bs) < n * kf_esize f ->
    aget (kf_data f) (addr f n (kf_out f) (length bs)) = Ok x ->
    step (mkConc f w (RCopy n bs) s v) (mkConc f w (RCopy n (bs ++ [x])) s v)
| r_release f w s v n bs :
    Z.of_nat (length bs) = n * kf_esize f ->
    step (mkConc f w (RCopy n bs) s v) (mkConc (with_out f (kf_out f ⊞ n)) w RIdle s (v ++ bs)).

(** ** Invariants of the threads *)

Definition writer_ok (k : Z) (f : __kfifo) (w : writer) : Prop :=
  match w with
  | WIdle => True
  | WCopy src i n =>
      0 <= n /\ kfifo_len f + n <= 2 ^ k /\ Z.of_nat (length src) = n * kf_esize f /\
      (i <= length src)%nat /\
      cyc (kf_data f) (pos k f (kf_out f)) (Z.to_nat (kfifo_len f * kf_esize f) + i)
      = contents k f ++ take i src
  end.

Definition reader_ok (k : Z) (f : __kfifo) (r : reader) : Prop :=
  match r with
  | RIdle => True
  | RCopy n bs =>
      0 <= n <= kfifo_len f /\ Z.of_nat (length bs) <= n * kf_esize f /\
      bs = take (length bs) (contents k f)
  end.

Record conc_ok (k : Z) (c : conc) : Prop := {
  cc_fifo : kf_ok k (c_fifo c);
  cc_wr : writer_ok k (c_fifo c) (c_wr c);
  cc_rd : reader_ok k (c_fifo c) (c_rd c);
  cc_stream : c_sent c = c_recv c ++ contents k (c_fifo c) }.

Lemma addr_eq k f n off i (p := pos k f off) :
  kf_ok k f -> 0 <= n <= 2 ^ k -> Z.of_nat i < n * kf_esize f ->
  addr f n off i = (if p + i <? length (kf_data f) then p + i else p + i - length (kf_data f))%nat.
Proof.
  intros Hok Hn Hi. unfold addr. rewrite (window_eq k) by done. fold p.
  pose proof (pos_lt k f off Hok). fold p in H. clearbody p.
  destruct (Nat.ltb_spec (p + i) (length (kf_data f))); case Z.ltb_spec; intros; lia.
Qed.

Lemma cyc_write_one d b x : (b < length d)%nat -> cyc_write d b [x] = <[b:=x]> d.
Proof. intros. unfold cyc_write. cbn [length]. rewrite Nat.min_l by lia. done. Qed.

(** A stored byte extends the writer's window and leaves the contents. *)
Lemma store_ok k f src i n x d :
  kf_ok k f -> writer_ok k f (WCopy src i n) -> src !! i = Some x ->
  aset (kf_data f) (addr f n (kf_in f) i) x = Ok d ->
  kf_ok k (with_data f d) /\ contents k (with_data f d) = contents k f /\
  writer_ok k (with_data f d) (WCopy src (S i) n).
Proof.
  intros Hok (Hn & Hfit & Hsrc & Hi & Hw) Hx Hset. pose proof (lookup_lt_Some _ _ _ Hx).
  pose proof (ok_len_range k f Hok). pose proof (ok_bytes _ _ Hok). pose proof (ok_esize _ _ Hok).
  rewrite (addr_eq k) in Hset by (done || lia). pose proof (pos_lt k f (kf_in f) Hok) as Hpi.
  pose proof (in_pos k f Hok) as Hin. cbv zeta in Hin. pose proof (pos_lt k f (kf_out f) Hok) as Hpo.
  set (m := Z.to_nat (kfifo_len f * kf_esize f)) in *. assert (Hm : (m + length src <= length (kf_data f))%nat) by nia.
  set (b := (if _ <? _ then _ else _)%nat) in Hset.
  assert (Hb : (b < length (kf_data f))%nat /\
    (b = pos k f (kf_out f) + (m + i) \/ b + length (kf_data f) = pos k f (kf_out f) + (m + i))%nat).
  { unfold b. case Nat.ltb_spec; lia. }
  destruct Hb as [Hb Hbpos]. clearbody b. rewrite aset_ok in Hset by done. injection Hset as <-.
  rewrite <- cyc_write_one by done.
  assert (Hext := cyc_write_append (kf_data f) (pos k f (kf_out f)) (m + i) b [x] Hpo Hb Hbpos). cbn [length] in Hext.
  rewrite Hw, <- app_assoc, <- take_S_r in Hext by done. specialize (Hext ltac:(lia)).
  assert (Hc : contents k (with_data f (cyc_write (kf_data f) b [x])) = contents k f).
  { unfold contents at 1. cbn [with_data kf_data kf_out kf_esize]. change (kfifo_len (with_data f _)) with (kfifo_len f).
    fold m. change (pos k (with_data f _) (kf_out f)) with (pos k f (kf_out f)).
    rewrite <- (cyc_take _ _ (m + i + 1)), Hext by lia.
    rewrite take_app_length'; [done|]. symmetry. by apply contents_length. }
  split_and!; [apply kf_ok_with_data; [done|apply cyc_write_length]|done|].
  split_and!; [done|done|done|done|]. rewrite Hc, <- Hext, <- Nat.add_assoc, Nat.add_1_r. done.
Qed.

Lemma publish_ok k f src n (f' := with_in f (kf_in f ⊞ n)) :
  kf_ok k f -> writer_ok k f (WCopy src (length src) n) ->
  kf_ok k f' /\ kfifo_len f <= kfifo_len f' /\ contents k f' = contents k f ++ src.
Proof.
  intros Hok (Hn & Hfit & Hsrc & _ & Hw). destruct (advance_in k f n Hok Hn Hfit) as [Hok' Hlen].
  fold f' in Hok', Hlen. split_and!; [done|lia|]. rewrite take_ge in Hw by done. rewrite <- Hw.
  pose proof (ok_len_range k f Hok). pose proof (ok_esize _ _ Hok).
  unfold contents. rewrite Hlen. cbn [with_in f' kf_data kf_out kf_esize].
  change (pos k f' (kf_out f)) with (pos k f (kf_out f)). f_equal. nia.
Qed.

Lemma reader_ok_extend k f f' r :
  reader_ok k f r -> kf_ok k f -> kf_esize f' = kf_esize f -> kfifo_len f <= kfifo_len f' ->
  contents k f `prefix_of` contents k f' -> reader_ok k f' r.
Proof.
  destruct r as [|n bs]; [done|]. intros (Hn & Hl & Hbs) Hok Hes Hlen [t Ht]. cbn. rewrite Hes.
  split_and!; [lia|lia|done|]. rewrite Ht, take_app_le; [done|].
  rewrite contents_length by done. pose proof (ok_esize _ _ Hok). nia.
Qed.

(** The byte the reader loads is the next byte of the contents. *)
Lemma load_ok k f n bs x :
  kf_ok k f -> reader_ok k f (RCopy n bs) -> Z.of_nat (length bs) < n * kf_esize f ->
  aget (kf_data f) (addr f n (kf_out f) (length bs)) = Ok x ->
  reader_ok k f (RCopy n (bs ++ [x])).
Proof.
  intros Hok (Hn & Hl & Hbs) Hlt Hx. pose proof (ok_len_range k f Hok).
  pose proof (ok_bytes _ _ Hok). pose proof (ok_esize _ _ Hok). pose proof (pos_lt k f (kf_out f) Hok).
  rewrite (addr_eq k) in Hx by (done || lia). apply aget_Some in Hx.
  rewrite <- (cyc_lookup _ _ (Z.to_nat (kfifo_len f * kf_esize f))) in Hx by nia.
  fold (contents k f) in Hx. cbn. rewrite length_app. cbn [length].
  split_and!; [lia|lia|lia|]. rewrite Nat.add_1_r, (take_S_r _ _ x) by done. by rewrite <- Hbs.
Qed.

Lemma release_ok k f n bs w (f' := with_out f (kf_out f ⊞ n)) :
  kf_ok k f -> reader_ok k f (RCopy n bs) -> Z.of_nat (length bs) = n * kf_esize f -> writer_ok k f w ->
  kf_ok k f' /\ contents k f = bs ++ contents k f' /\ writer_ok k f' w.
Proof.
  intros Hok (Hn & Hl & Hbs) Hlen Hw. destruct (pop_spec k f n Hok Hn) as (Hok' & Hlen' & Hc).
  fold f' in Hok', Hlen', Hc. rewrite <- Hlen, Nat2Z.id in Hc. split_and!; [done| |].
  { rewrite Hc, Hbs at 1. by rewrite take_drop. }
  destruct w as [|src i m]; [done|]. destruct Hw as (Hm & Hfit & Hsrc & Hi & Hw).
  cbn. rewrite Hlen'. split_and!; [done|lia|done|done|].
  pose proof (ok_len_range k f Hok). pose proof (ok_bytes _ _ Hok). pose proof (ok_esize _ _ Hok).
  change (pos k f' (kf_out f ⊞ n)) with (pos k f (kf_out f ⊞ n)).
  replace (Z.to_nat ((kfifo_len f - n) * kf_esize f) + i)%nat
    with ((Z.to_nat (kfifo_len f * kf_esize f) + i) - length bs)%nat by nia.
  rewrite (cyc_drop _ (pos k f (kf_out f))); [|by apply pos_lt|by apply pos_lt| |nia|nia].
  - rewrite Hw, Hc, drop_app_le; [done|]. rewrite contents_length by done. nia.
  - replace (length bs) with (Z.to_nat (n * kf_esize f)) by lia. apply pos_add; [done|lia].
Qed.

Lemma step_ok k c c' : conc_ok k c -> step c c' -> conc_ok k c'.
Proof.
  intros [Hf Hw Hr Hs] Hstep. destruct Hstep; cbn [c_fifo c_wr c_rd c_sent c_recv] in *.
  - split; try done. pose proof (ok_len_range k f Hf). pose proof (ok_esize _ _ Hf).
    rewrite (unused_eq k) in * by done. cbn. rewrite length_take, Nat.add_0_r, take_0, app_nil_r.
    split_and!; [lia|lia|nia|lia|done].
  - destruct (store_ok k f src i n x d) as (Hf' & Hc & Hw'); [done..|]. split; cbn; [done|done| |by rewrite Hc].
    eapply reader_ok_extend; [done|done|done|done|by rewrite Hc].
  - subst i. destruct (publish_ok k f src n Hf Hw) as (Hf' & Hlen & Hc). split; cbn; [done|done| |].
    + eapply reader_ok_extend; [done..|]. by exists src.
    + by rewrite Hc, Hs, app_assoc.
  - split; try done. pose proof (ok_len_range k f Hf). pose proof (ok_esize _ _ Hf). cbn.
    rewrite take_0. split_and!; [lia|lia|nia|done].
  - split; try done. cbn. by eapply load_ok.
  - destruct (release_ok k f n bs w Hf Hr) as (Hf' & Hc & Hw'); [done|done|]. split; try done. cbn.
    by rewrite Hs, Hc, app_assoc.
Qed.

Definition start (k : Z) (f : __kfifo) : conc := mkConc f WIdle RIdle (contents k f) [].

Lemma reachable_ok k f c : kf_ok k f -> rtc step (start k f) c -> conc_ok k c.
Proof.
  intros Hf Hsteps. assert (Hs : conc_ok k (start k f)) by (split; done).
  revert Hs. induction Hsteps as [|c1 c2 c3 Hstep _ IH]; [done|]. intros Hc. apply IH. by eapply step_ok.
Qed.

(** C16.  Without any lock, one writer in [__kfifo_in] and one reader in
    [__kfifo_out], interleaved at every byte, never lose, repeat or reorder a
    byte: what was published is what was consumed followed by the contents. *)
Theorem kfifo_spsc_stream k f c :
  kf_ok k f -> rtc step (start k f) c ->
  kf_ok k (c_fifo c) /\ c_sent c = c_recv c ++ contents k (c_fifo c).
Proof. intros Hf Hsteps. destruct (reachable_ok k f c Hf Hsteps). done. Qed.

(** Neither thread ever blocks or touches memory outside the buffer: in
    every reachable state both can take a step of their own. *)
Theorem kfifo_spsc_progress k f c :
  kf_ok k f -> rtc step (start k f) c ->
  (exists c', step c c' /\ c_wr c' <> c_wr c) /\ (exists c', step c c' /\ c_rd c' <> c_rd c).
Proof.
  intros Hf0 Hsteps. destruct (reachable_ok k f c Hf0 Hsteps) as [Hf Hw Hr _].
  clear Hsteps Hf0 f. destruct c as [f w r s v]. cbn in *.
  pose proof (ok_len_range k f Hf). pose proof (ok_esize _ _ Hf). split.
  - destruct w as [|src i n]; cbn in Hw.
    + eexists. split; [by apply w_reserve with (buf := []) (len := 0) (n := 0); [|rewrite (unused_eq k) by done; lia|]|done].
    + destruct Hw as (Hn & Hfit & Hsrc & Hi & _). destruct (src !! i) as [x|] eqn:Hx.
      * pose proof (lookup_lt_Some _ _ _ Hx). pose proof (pos_lt k f (kf_in f) Hf). pose proof (ok_bytes _ _ Hf).
        eexists. split; [eapply w_store; [done|]|].
        -- apply aset_ok. rewrite (addr_eq k) by (done || lia). case Nat.ltb_spec; nia.
        -- cbn. intros [=]. lia.
      * apply lookup_ge_None in Hx. eexists. split; [apply w_publish; lia|done].
  - destruct r as [|n bs]; cbn in Hr.
    + eexists. split; [by eapply r_reserve|done].
    + destruct Hr as (Hn & Hl & _). destruct (decide (Z.of_nat (length bs) = n * kf_esize f)).
      * eexists. split; [by apply r_release|done].
      * pose proof (pos_lt k f (kf_out f) Hf). pose proof (ok_bytes _ _ Hf).
        destruct (lookup_lt_is_Some_2 (kf_data f) (addr f n (kf_out f) (length bs))) as [x Hx].
        { rewrite (addr_eq k) by (done || lia). case Nat.ltb_spec; nia. }
        eexists. split; [eapply r_load; [lia|by apply aget_ok]|]. cbn. intros [= E].
        apply (f_equal length) in E. rewrite length_app in E. cbn in E. lia.
Qed.

(** ** The sequential functions are runs of the steps *)

Lemma cyc_write_snoc d b s x b' :
  (b < length d)%nat -> (length s < length d)%nat ->
  b' = (if b + length s <? length d then b + length s else b + length s - length d)%nat ->
  <[b':=x]> (cyc_write d b s) = cyc_write d b (s ++ [x]).
Proof.
  intros Hb Hs Hb'. assert (Hlt : (b' < length d)%nat) by (subst b'; case Nat.ltb_spec; lia).
  apply list_eq_same_length with (n := length d); [by rewrite cyc_write_length|by rewrite length_insert, cyc_write_length|].
  intros j y z Hj. rewrite (cyc_write_lookup d b (s ++ [x])) by (rewrite ?length_app; cbn; lia).
  rewrite length_app. cbn [length]. destruct (decide (j = b')) as [->|Hne].
  - rewrite list_lookup_insert_eq by (by rewrite cyc_write_length). intros [= <-].
    subst b'. revert Hlt. repeat (case Nat.ltb_spec || case Nat.leb_spec); cbn [andb]; intros; try lia.
    all: rewrite lookup_app_r in * by lia.
    all: match goal with H : [_] !! ?q = Some _ |- _ => replace q with 0%nat in H by lia; cbn in H end; congruence.
  - rewrite list_lookup_insert_ne, cyc_write_lookup by done || lia.
    subst b'. revert Hne Hlt. repeat (case Nat.ltb_spec || case Nat.leb_spec); cbn [andb]; intros; try lia.
    all: try rewrite lookup_app_l in * by lia; congruence.
Qed.

Lemma store_run k f src n r s v i :
  kf_ok k f -> 0 <= n <= 2 ^ k -> Z.of_nat (length src) = n * kf_esize f -> (i <= length src)%nat ->
  let st j := mkConc (with_data f (cyc_write (kf_data f) (pos k f (kf_in f)) (take j src)))
                     (WCopy src j n) r s v in
  rtc step (st i) (st (length src)).
Proof.
  intros Hok Hn Hsrc. remember (length src - i)%nat as m eqn:Hm. revert i Hm.
  pose proof (pos_lt k f (kf_in f) Hok). pose proof (ok_bytes _ _ Hok). pose proof (ok_esize _ _ Hok).
  induction m as [|m IH]; intros i Hm Hi st.
  { by replace i with (length src) by lia. }
  destruct (lookup_lt_is_Some_2 src i) as [x Hx]; [lia|].
  apply rtc_l with (y := st (S i)); [|apply IH; lia]. unfold st. rewrite (take_S_r _ _ x) by done.
  rewrite <- (cyc_write_snoc _ _ _ _ (addr f n (kf_in f) i)).
  - refine (w_store (with_data f _) r s v src i n x _ Hx _). apply aset_ok. cbn [with_data kf_data kf_in]. rewrite cyc_write_length.
    change (addr (with_data f _) n (kf_in f) i) with (addr f n (kf_in f) i).
    rewrite (addr_eq k) by (done || lia). case Nat.ltb_spec; nia.
  - done.
  - rewrite length_take. nia.
  - rewrite (addr_eq k) by (done || lia). by rewrite length_take, Nat.min_l by lia.
Qed.

Lemma load_run k f n w s v i (all := cyc (kf_data f) (pos k f (kf_out f)) (Z.to_nat (n * kf_esize f))) :
  kf_ok k f -> 0 <= n <= 2 ^ k -> (i <= length all)%nat ->
  rtc step (mkConc f w (RCopy n (take i all)) s v) (mkConc f w (RCopy n all) s v).
Proof.
  intros Hok Hn. remember (length all - i)%nat as m eqn:Hm. revert i Hm.
  pose proof (pos_lt k f (kf_out f) Hok). pose proof (ok_bytes _ _ Hok). pose proof (ok_esize _ _ Hok).
  assert (Hall : length all = Z.to_nat (n * kf_esize f)) by (apply cyc_length; nia).
  induction m as [|m IH]; intros i Hm Hi.
  { by rewrite take_ge by lia. }
  destruct (lookup_lt_is_Some_2 all i) as [x Hx]; [lia|].
  apply rtc_l with (y := mkConc f w (RCopy n (take (S i) all)) s v); [|apply IH; lia].
  rewrite (take_S_r _ _ x) by done. assert (Hi' : length (take i all) = i) by (rewrite length_take; lia).
  apply r_load; rewrite Hi'; [lia|]. apply aget_ok. rewrite (addr_eq k) by (done || lia).
  rewrite <- Hx. unfold all. rewrite cyc_lookup; [done|done|lia|nia].
Qed.

(** [__kfifo_in] and [__kfifo_out] are the uninterrupted runs of the
    writer's and of the reader's steps. *)
Theorem kfifo_ops_are_runs k f buf len w r s v
    (n := Z.min len (2 ^ k - kfifo_len f)) (m := Z.min len (kfifo_len f)) :
  kf_ok k f -> 0 <= len -> n * kf_esize f <= Z.of_nat (length buf) ->
  (exists f', __kfifo_in f buf len = Ok (n, f') /\
     rtc step (mkConc f WIdle r s v)
              (mkConc f' WIdle r (s ++ take (Z.to_nat (n * kf_esize f)) buf) v)) /\
  (exists bs f', __kfifo_out f len = Ok (m, bs, f') /\
     rtc step (mkConc f w RIdle s v) (mkConc f' w RIdle s (v ++ bs))).
Proof.
  intros Hok Hlen Hbuf. pose proof (ok_len_range k f Hok). pose proof (ok_esize _ _ Hok). split.
  - unfold __kfifo_in. rewrite (unused_eq k f Hok).
    replace (if 2 ^ k - kfifo_len f <? len then 2 ^ k - kfifo_len f else len) with n
      by (unfold n; case Z.ltb_spec; lia).
    assert (Hn : 0 <= n <= 2 ^ k - kfifo_len f) by (unfold n; lia).
    rewrite (copy_in_spec k), res_bind_ok by (done || lia). eexists. split; [done|].
    set (src := take _ buf). assert (Hsrc : Z.of_nat (length src) = n * kf_esize f).
    { unfold src. rewrite length_take. nia. }
    apply rtc_l with (y := mkConc f (WCopy src 0 n) r s v).
    { apply w_reserve with (len := len); [done| |done]. by rewrite (unused_eq k). }
    eapply rtc_r; [|by apply w_publish with (i := length src) (n := n)].
    pose proof (store_run k f src n r s v 0 Hok) as Hrun. cbv zeta beta in Hrun.
    rewrite take_0, (take_ge src) in Hrun by lia.
    replace f with (with_data f (cyc_write (kf_data f) (pos k f (kf_in f)) [])) at 1; [apply Hrun; lia|].
    by destruct f.
  - unfold __kfifo_out, __kfifo_out_peek. fold (kfifo_len f).
    replace (if kfifo_len f <? len then kfifo_len f else len) with m by (unfold m; case Z.ltb_spec; lia).
    assert (Hm : 0 <= m <= kfifo_len f) by (unfold m; lia).
    rewrite (copy_out_spec k), !res_bind_ok by (done || lia). do 2 eexists. split; [done|].
    apply rtc_l with (y := mkConc f w (RCopy m []) s v); [by apply r_reserve with (len := len)|].
    pose proof (load_run k f m w s v 0 Hok) as Hrun. rewrite take_0 in Hrun.
    eapply rtc_r; [apply Hrun; lia|]. apply r_release.
    pose proof (pos_lt k f (kf_out f) Hok). pose proof (ok_bytes _ _ Hok). rewrite cyc_length; nia.
Qed.
