(* ===== verification/KfifoExamples.v ===== *)
(** * Kfifo on concrete inputs

    A fifo whose 32-bit indices are about to wrap, a record fifo, and the
    instances of the theorems at them. *)

From S2P Require Import Prelude KfifoDefs Kfifo KfifoRec KfifoConc.

(** Four two-byte elements; [in] has wrapped, [out] has not: three are stored. *)
Definition ex_fifo : __kfifo := mkKfifo 1 4294967294 3 2 [30; 31; 0; 0; 10; 11; 20; 21].

Lemma ex_fifo_ok : kf_ok 2 ex_fifo.
Proof. split; cbn; try lia; vm_compute; congruence. Qed.

Lemma __kfifo_in_witness :
  exists f', __kfifo_in ex_fifo [40; 41; 50; 51] 2 = Ok (1, f') /\ kf_ok 2 f' /\
    contents 2 f' = [10; 11; 20; 21; 30; 31; 40; 41].
Proof.
  destruct (__kfifo_in_correct 2 ex_fifo [40; 41; 50; 51] 2 ex_fifo_ok) as (f' & Hin & Hok & Hc);
    [lia|vm_compute; congruence|]. exists f'. done.
Defined.

Lemma __kfifo_out_witness :
  exists f', __kfifo_out ex_fifo 2 = Ok (2, [10; 11; 20; 21], f') /\ kf_ok 2 f' /\ contents 2 f' = [30; 31].
Proof.
  destruct (__kfifo_out_correct 2 ex_fifo 2 ex_fifo_ok) as (f' & Hout & Hok & Hc); [lia|]. exists f'. done.
Defined.

(** A user buffer of which only three bytes can be read. *)
Definition ex_user : list Z := [40; 41; 50].
Definition ex_from_user (off n : Z) : Z * list Z :=
  let ok := Z.min n (Z.max 0 (3 - off)) in
  (n - ok, take (Z.to_nat ok) (drop (Z.to_nat off) ex_user) ++ replicate (Z.to_nat (n - ok)) 0).

Lemma ex_from_user_ok : from_user_ok ex_user ex_from_user.
Proof.
  intros off n ret bs Ho Hn. unfold ex_from_user. intros [= <- <-].
  set (ok := Z.min n (Z.max 0 (3 - off))). assert (Hok : 0 <= ok <= n) by (unfold ok; lia).
  assert (Hl : length (take (Z.to_nat ok) (drop (Z.to_nat off) ex_user)) = Z.to_nat ok).
  { rewrite length_take, length_drop. cbn. unfold ok. lia. }
  split_and!; [lia|lia|rewrite length_app, Hl, length_replicate; lia|].
  replace (n - (n - ok)) with ok by lia. by rewrite take_app_length' by lia.
Qed.

Definition ex_fifo2 : __kfifo := mkKfifo 3 2 3 2 [1; 2; 3; 4; 5; 6; 7; 8].

Lemma ex_fifo2_ok : kf_ok 2 ex_fifo2.
Proof. split; cbn; try lia; vm_compute; congruence. Qed.

Lemma __kfifo_from_user_witness :
  exists err n f',
    __kfifo_from_user ex_from_user ex_fifo2 4 = Ok (err, n * 2, f') /\
    user_result err n 2 (exists off m, 0 < fst (ex_from_user off m)) /\
    kf_ok 2 f' /\ contents 2 f' = [5; 6] ++ take (Z.to_nat (n * 2)) ex_user.
Proof.
  apply (__kfifo_from_user_correct ex_user ex_from_user 2 ex_fifo2 4 ex_from_user_ok ex_fifo2_ok).
  lia.
Defined.

(** Only one of the two requested elements arrived. *)
Lemma ex_from_user_partial :
  exists f', __kfifo_from_user ex_from_user ex_fifo2 4 = Ok (- EFAULT, 2, f') /\ contents 2 f' = [5; 6; 40; 41].
Proof. exists (mkKfifo 4 2 3 2 [50; 0; 3; 4; 5; 6; 40; 41]). split; vm_compute; reflexivity. Qed.

(** A user buffer of which only three bytes can be written. *)
Definition ex_to_user (off : Z) (bs : list Z) : Z :=
  Z.of_nat (length bs) - Z.min (Z.of_nat (length bs)) (Z.max 0 (3 - off)).

Lemma ex_to_user_ok : to_user_ok ex_to_user.
Proof. intros off bs. unfold ex_to_user. lia. Qed.

Lemma __kfifo_to_user_witness :
  exists err n j f',
    __kfifo_to_user ex_to_user ex_fifo 6 = Ok (err, n * 2, take j [10; 11; 20; 21; 30; 31], f') /\
    user_result err n 3 (exists off bs, 0 < ex_to_user off bs) /\
    n * 2 <= Z.of_nat j <= 3 * 2 /\
    kf_ok 2 f' /\ contents 2 f' = drop (Z.to_nat (n * 2)) [10; 11; 20; 21; 30; 31].
Proof.
  apply (__kfifo_to_user_correct ex_to_user 2 ex_fifo 6 ex_to_user_ok ex_fifo_ok).
  lia.
Defined.

Definition ex_kmalloc (n : Z) : option (list Z) :=
  if (0 <=? n) && (n <=? 64) then Some (replicate (Z.to_nat n) 0) else None.

Lemma __kfifo_alloc_witness :
  exists f', __kfifo_alloc ex_kmalloc ex_fifo 5 2 = Ok (0, f') /\
    kf_ok 3 f' /\ kf_esize f' = 2 /\ contents 3 f' = [] /\ 5 <= 2 ^ 3 < 2 * 5.
Proof.
  apply (__kfifo_alloc_correct ex_kmalloc ex_fifo 5 2); [|lia|lia|vm_compute; congruence].
  intros n d. unfold ex_kmalloc. destruct (Z.leb_spec 0 n), (Z.leb_spec n 64); cbn [andb]; try done.
  intros [= <-]. rewrite length_replicate. lia.
Defined.

Lemma __kfifo_init_witness :
  exists f', __kfifo_init ex_fifo [1; 2; 3] 3 1 = Ok (0, f') /\ kfifo_unused f' = 4 /\
    __kfifo_in f' [1; 2; 3; 4] 4 = Fault.
Proof. apply (__kfifo_init_overruns ex_fifo [1; 2; 3] [1; 2; 3; 4]); vm_compute; split || congruence; congruence. Defined.

(** ** Records *)

(** A fifo of eight bytes that holds the records [5] and [6; 7]. *)
Definition ex_rec : __kfifo := mkKfifo 11 6 7 1 [2; 6; 7; 0; 0; 0; 1; 5].

Lemma ex_rec_ok : rec_ok 3 1 ex_rec [[5]; [6; 7]].
Proof.
  split; [split; cbn; try lia; vm_compute; congruence|done|by left| |done].
  repeat constructor; cbn; lia.
Qed.

Lemma __kfifo_in_r_witness :
  exists f', __kfifo_in_r ex_rec [8; 9; 10] 2 1 = Ok (2, f') /\ rec_ok 3 1 f' [[5]; [6; 7]; [8; 9]].
Proof.
  apply (__kfifo_in_r_correct 3 1 ex_rec [[5]; [6; 7]] [8; 9; 10] 2 ex_rec_ok); [lia|cbn; lia].
Defined.

Lemma __kfifo_out_r_witness :
  exists f', __kfifo_out_r ex_rec 4 1 = Ok (1, [5], f') /\ rec_ok 3 1 f' [[6; 7]].
Proof. apply (__kfifo_out_r_correct 3 1 ex_rec [5] [[6; 7]] 4 ex_rec_ok). lia. Defined.

Lemma __kfifo_skip_r_witness :
  exists f', __kfifo_skip_r ex_rec 1 = Ok f' /\ rec_ok 3 1 f' [[6; 7]].
Proof. apply (__kfifo_skip_r_correct 3 1 ex_rec [5] [[6; 7]] ex_rec_ok). Defined.

(** A record longer than its length field can express is accepted by
    [__kfifo_in_r] all the same; its length reads back as 0. *)
Example __kfifo_in_r_truncates :
  exists f', __kfifo_in_r (mkKfifo 0 0 511 1 (replicate 512 0)) (replicate 256 1) 256 1 = Ok (256, f') /\
    __kfifo_len_r f' 1 = Ok 0 /\ kfifo_len f' = 257.
Proof.
  exists (mkKfifo 257 0 511 1 (0 :: replicate 256 1 ++ replicate 255 0)).
  split_and!; vm_compute; reflexivity.
Qed.

(** ** Interleavings *)

(** A run in which the reader starts before the writer has published. *)
Lemma ex_run :
  rtc step (start 2 ex_fifo2)
    (mkConc (mkKfifo 4 3 3 2 [1; 2; 3; 4; 5; 6; 40; 41]) WIdle RIdle [5; 6; 40; 41] [5; 6]).
Proof.
  eapply rtc_l; [by apply (w_reserve ex_fifo2 RIdle [5; 6] [] [40; 41] 1 1)|].
  eapply rtc_l; [by apply (r_reserve ex_fifo2 _ [5; 6] [] 2 1)|].
  eapply rtc_l; [by eapply (w_store ex_fifo2 _ [5; 6] [] [40; 41] 0 1 40); [|vm_compute]|].
  eapply rtc_l; [by eapply (r_load (mkKfifo 3 2 3 2 [1; 2; 3; 4; 5; 6; 40; 8]) _ _ _ 1 [] 5)|].
  eapply rtc_l; [by eapply (w_store (mkKfifo 3 2 3 2 [1; 2; 3; 4; 5; 6; 40; 8]) _ _ _ [40; 41] 1 1 41); [|vm_compute]|].
  eapply rtc_l; [by eapply (r_load (mkKfifo 3 2 3 2 [1; 2; 3; 4; 5; 6; 40; 41]) _ _ _ 1 [5] 6)|].
  eapply rtc_l; [by apply (w_publish (mkKfifo 3 2 3 2 [1; 2; 3; 4; 5; 6; 40; 41]))|].
  eapply rtc_l; [by apply (r_release (mkKfifo 4 2 3 2 [1; 2; 3; 4; 5; 6; 40; 41]))|].
  apply rtc_refl.
Qed.

Lemma kfifo_spsc_stream_witness :
  kf_ok 2 (mkKfifo 4 3 3 2 [1; 2; 3; 4; 5; 6; 40; 41]) /\ [5; 6; 40; 41] = [5; 6] ++ [40; 41].
Proof. apply (kfifo_spsc_stream 2 ex_fifo2 _ ex_fifo2_ok ex_run). Defined.

Lemma kfifo_spsc_progress_witness :
  let c := mkConc (mkKfifo 4 3 3 2 [1; 2; 3; 4; 5; 6; 40; 41]) WIdle RIdle [5; 6; 40; 41] [5; 6] in
  (exists c', step c c' /\ c_wr c' <> c_wr c) /\ (exists c', step c c' /\ c_rd c' <> c_rd c).
Proof. apply (kfifo_spsc_progress 2 ex_fifo2 _ ex_fifo2_ok ex_run). Defined.

Lemma kfifo_ops_are_runs_witness :
  (exists f', __kfifo_in ex_fifo [40; 41] 1 = Ok (1, f') /\
     rtc step (mkConc ex_fifo WIdle RIdle [] []) (mkConc f' WIdle RIdle [40; 41] [])) /\
  (exists bs f', __kfifo_out ex_fifo 1 = Ok (1, bs, f') /\
     rtc step (mkConc ex_fifo WIdle RIdle [] []) (mkConc f' WIdle RIdle [] bs)).
Proof.
  apply (kfifo_ops_are_runs 2 ex_fifo [40; 41] 1 WIdle RIdle [] [] ex_fifo_ok); [lia|vm_compute; congruence].
Defined.
