(* ===== verification/Semaphore.v ===== *)
(** * Counting semaphores: kernel/locking/semaphore.c

    Every part of an operation that runs with [sem->lock] held is one function
    on the semaphore and the states of the tasks; a task that sleeps in
    [__down_common] has released the lock.  The step relation interleaves the
    calls, the wake-ups and the releases of any number of tasks. *)
From stdpp Require Import gmap functions.
From S2P Require Import Prelude.

Definition task := nat.

Definition TASK_INTERRUPTIBLE : Z := 1.
Definition TASK_UNINTERRUPTIBLE : Z := 2.
Definition TASK_WAKEKILL : Z := 128.
Definition TASK_KILLABLE : Z := Z.lor TASK_WAKEKILL TASK_UNINTERRUPTIBLE.
Definition MAX_SCHEDULE_TIMEOUT : Z := 2 ^ 63 - 1.
Definition EINTR : Z := 4.
Definition ETIME : Z := 62.

(** The signals of a task: any signal, and a fatal one. *)
Record signals := mkSignals { signal_pending : bool; fatal_signal_pending : bool }.

Definition signal_pending_state (state : Z) (p : signals) : bool :=
  if Z.land state (Z.lor TASK_INTERRUPTIBLE TASK_WAKEKILL) =? 0 then false
  else if negb (signal_pending p) then false
  else negb (Z.land state TASK_INTERRUPTIBLE =? 0) || fatal_signal_pending p.

(** The remaining time after [elapsed] jiffies. *)
Definition schedule_timeout (timeout elapsed : Z) : Z :=
  if timeout =? MAX_SCHEDULE_TIMEOUT then timeout
  else if timeout <? 0 then 0
  else let timeout := timeout - elapsed in if timeout <? 0 then 0 else timeout.

(** [wait_list] lists the waiters by their task: the waiter of a task is a
    local variable of its one call of [__down_common]. *)
Record semaphore := mkSem {
  count : Z;
  wait_list : list task }.

(** A task outside the semaphore, or asleep in [__down_common] with its
    waiter's [up], its task state and its timeout. *)
Inductive thread := Idle | Asleep (up : bool) (state timeout : Z).

Record system := mkSys {
  sem : semaphore;
  threads : task -> thread }.

Definition set_count (s : system) (c : Z) : system := mkSys (mkSem c (wait_list (sem s))) (threads s).
Definition set_wait (s : system) (l : list task) : system := mkSys (mkSem (count (sem s)) l) (threads s).
Definition set_thread (s : system) (t : task) (th : thread) : system := mkSys (sem s) (<[t:=th]> (threads s)).

(** [list_del] of the waiter of [t]. *)
Definition list_del (s : system) (t : task) : system :=
  set_wait s (filter (fun u => u <> t) (wait_list (sem s))).

(** ** Operations

    The second component is the value returned, [None] when the task went to
    sleep. *)

(** From the head of the loop of [__down_common] to the next sleep. *)
Definition down_loop (s : system) (t : task) (sig : signals) (state timeout : Z) : system * option Z :=
  if signal_pending_state state sig then (set_thread (list_del s t) t Idle, Some (- EINTR))
  else if timeout <=? 0 then (set_thread (list_del s t) t Idle, Some (- ETIME))
  else (set_thread s t (Asleep false state timeout), None).

Definition __down_common (s : system) (t : task) (sig : signals) (state timeout : Z) : system * option Z :=
  down_loop (set_wait s (wait_list (sem s) ++ [t])) t sig state timeout.

(** The part of the loop after [schedule_timeout]. *)
Definition down_wake (s : system) (t : task) (sig : signals) (elapsed : Z) : system * option Z :=
  match threads s t with
  | Idle => (s, None)
  | Asleep up state timeout =>
      let timeout := schedule_timeout timeout elapsed in
      if up then (set_thread s t Idle, Some 0) else down_loop s t sig state timeout
  end.

Definition __down s t sig := __down_common s t sig TASK_UNINTERRUPTIBLE MAX_SCHEDULE_TIMEOUT.
Definition __down_interruptible s t sig := __down_common s t sig TASK_INTERRUPTIBLE MAX_SCHEDULE_TIMEOUT.
Definition __down_killable s t sig := __down_common s t sig TASK_KILLABLE MAX_SCHEDULE_TIMEOUT.
Definition __down_timeout s t sig timeout := __down_common s t sig TASK_UNINTERRUPTIBLE timeout.

Definition down (s : system) (t : task) (sig : signals) : system * option Z :=
  if 0 <? count (sem s) then (set_count s (count (sem s) - 1), Some 0) else __down s t sig.

Definition down_interruptible (s : system) (t : task) (sig : signals) : system * option Z :=
  if 0 <? count (sem s) then (set_count s (count (sem s) - 1), Some 0) else __down_interruptible s t sig.

Definition down_killable (s : system) (t : task) (sig : signals) : system * option Z :=
  if 0 <? count (sem s) then (set_count s (count (sem s) - 1), Some 0) else __down_killable s t sig.

Definition down_timeout (s : system) (t : task) (sig : signals) (timeout : Z) : system * option Z :=
  if 0 <? count (sem s) then (set_count s (count (sem s) - 1), Some 0) else __down_timeout s t sig timeout.

(** Returns 1 when the semaphore was not acquired. *)
Definition down_trylock (s : system) : system * Z :=
  let c := s32 (count (sem s) - 1) in
  if 0 <=? c then (set_count s c, 0) else (s, 1).

Definition __up (s : system) : res system :=
  match wait_list (sem s) with
  | [] => Fault
  | w :: rest =>
      match threads s w with
      | Idle => Fault
      | Asleep _ state timeout => Ok (set_thread (set_wait s rest) w (Asleep true state timeout))
      end
  end.

Definition up (s : system) : res system :=
  match wait_list (sem s) with
  | [] => Ok (set_count s (count (sem s) ⊞ 1))
  | _ => __up s
  end.

(** ** Interleavings of tasks *)

Inductive request := Down | DownInterruptible | DownKillable | DownTimeout (timeout : Z).

Definition call (s : system) (t : task) (sig : signals) (req : request) : system * option Z :=
  match req with
  | Down => down s t sig
  | DownInterruptible => down_interruptible s t sig
  | DownKillable => down_killable s t sig
  | DownTimeout timeout => down_timeout s t sig timeout
  end.

(** The system, the number of calls that acquired the semaphore and the
    number of calls of [up]. *)
Record run := mkRun { r_sys : system; r_acquired : Z; r_ups : Z }.

Definition acquired (r : option Z) : Z := if decide (r = Some 0) then 1 else 0.

Inductive sem_step : run -> run -> Prop :=
| s_call s a u t sig req s' r :
    threads s t = Idle -> call s t sig req = (s', r) ->
    sem_step (mkRun s a u) (mkRun s' (a + acquired r) u)
| s_trylock s a u s' r :
    down_trylock s = (s', r) ->
    sem_step (mkRun s a u) (mkRun s' (a + acquired (Some r)) u)
| s_wake s a u t sig elapsed s' r :
    threads s t <> Idle -> 0 <= elapsed -> down_wake s t sig elapsed = (s', r) ->
    sem_step (mkRun s a u) (mkRun s' (a + acquired r) u)
| s_up s a u s' :
    up s = Ok s' -> sem_step (mkRun s a u) (mkRun s' a (u + 1)).

(** The state after [sema_init(sem, val)]. *)
Definition sema_init (val : Z) : run := mkRun (mkSys (mkSem val []) (fun _ => Idle)) 0 0.

(** ** The invariant *)

(** Tasks that were given the semaphore and have not run since. *)
Definition handed (s : system) (t : task) : Prop := exists st tm, threads s t = Asleep true st tm.
Definition waiting (s : system) (t : task) : Prop := exists st tm, threads s t = Asleep false st tm.

Record sem_ok (val : Z) (r : run) : Prop := {
  sk_count : 0 <= count (sem (r_sys r));
  sk_free : 0 < count (sem (r_sys r)) -> wait_list (sem (r_sys r)) = [];
  sk_nodup : NoDup (wait_list (sem (r_sys r)));
  sk_wait : forall t, t ∈ wait_list (sem (r_sys r)) <-> waiting (r_sys r) t;
  sk_acq : 0 <= r_acquired r;
  sk_tokens : exists H : gset task, (forall t, t ∈ H <-> handed (r_sys r) t) /\
    count (sem (r_sys r)) + r_acquired r + Z.of_nat (size H) = val + r_ups r }.

Lemma sema_init_ok val : 0 <= val -> sem_ok val (sema_init val).
Proof.
  intros Hv. split; cbn; try done.
  - constructor.
  - intros t. split; [by intros ?%not_elem_of_nil|]. intros (? & ? & [=]).
  - exists ∅. split; [|rewrite size_empty; lia]. intros t. split; [set_solver|]. intros (? & ? & [=]).
Qed.

(** A change of one task's state that leaves the set of handed tasks alone. *)
Lemma handed_same s t th (H : gset task) :
  (forall u, u ∈ H <-> handed s u) -> ~ handed s t -> (forall st tm, th <> Asleep true st tm) ->
  forall u, u ∈ H <-> handed (set_thread s t th) u.
Proof.
  intros HH Ht Hth u. rewrite HH. unfold handed, set_thread. cbn.
  destruct (decide (t = u)) as [<-|Hne]; [|by rewrite fn_lookup_insert_ne].
  rewrite fn_lookup_insert. split; [done|]. intros (st & tm & E). by destruct (Hth st tm).
Qed.

Lemma down_loop_ok val s a u t sig state timeout s' r :
  NoDup (wait_list (sem s)) -> t ∈ wait_list (sem s) -> ~ handed s t -> count (sem s) = 0 -> 0 <= a ->
  (forall x, x <> t -> x ∈ wait_list (sem s) <-> waiting s x) ->
  (exists H : gset task, (forall x, x ∈ H <-> handed s x) /\ a + Z.of_nat (size H) = val + u) ->
  down_loop s t sig state timeout = (s', r) ->
  sem_ok val (mkRun s' (a + acquired r) u) /\ r <> Some 0.
Proof.
  intros Hnd Hin Hnh Hc Ha Hw (H & HH & Hsz). unfold down_loop.
  assert (Hdel : forall e, e <> 0 ->
    sem_ok val (mkRun (set_thread (list_del s t) t Idle) (a + acquired (Some e)) u) /\ Some e <> Some 0).
  { intros e He. assert (Hacq : acquired (Some e) = 0) by (unfold acquired; by rewrite decide_False by congruence).
    split; [|congruence]. rewrite Hacq. split; cbn; try lia.
    - by apply NoDup_filter.
    - intros x. rewrite list_elem_of_filter. unfold waiting. cbn. destruct (decide (t = x)) as [<-|Hne].
      + rewrite fn_lookup_insert. split; [by intros [? _]|]. by intros (? & ? & [=]).
      + rewrite fn_lookup_insert_ne by done. rewrite Hw by done. split; [by intros [_ ?]|intros ?; split; [congruence|done]].
    - exists H. split; [|lia]. by apply handed_same. }
  destruct (signal_pending_state state sig); [|destruct (Z.leb_spec timeout 0)]; intros [= <- <-].
  - by apply Hdel.
  - by apply Hdel.
  - split; [|done]. unfold acquired. rewrite decide_False by done. split; cbn; try done || lia.
    + intros x. unfold waiting. cbn. destruct (decide (t = x)) as [<-|Hne].
      * rewrite fn_lookup_insert. split; [|done]. eauto.
      * rewrite fn_lookup_insert_ne by done. by apply Hw.
    + exists H. split; [|lia]. by apply handed_same.
Qed.

(** A call that finds no token: the caller becomes the last waiter. *)
Lemma down_common_ok val s a u t sig state timeout s' r :
  sem_ok val (mkRun s a u) -> threads s t = Idle -> count (sem s) = 0 ->
  __down_common s t sig state timeout = (s', r) ->
  sem_ok val (mkRun s' (a + acquired r) u).
Proof.
  intros [Hc Hf Hnd Hw Ha (H & HH & Hsz)] Ht Hc0 Hrun. cbn in *.
  assert (Hnin : t ∉ wait_list (sem s)).
  { rewrite Hw. intros (? & ? & E). congruence. }
  eapply down_loop_ok in Hrun as [Hok _]; [exact Hok|..]; cbn.
  - apply NoDup_app. split_and!; [done| |apply NoDup_singleton]. intros x Hx ->%list_elem_of_singleton. done.
  - apply elem_of_app. right. by apply list_elem_of_singleton.
  - intros (? & ? & E). cbn in E. congruence.
  - done.
  - done.
  - intros x Hx. rewrite elem_of_app, list_elem_of_singleton, Hw. split; [by intros [?|?]|by left].
  - exists H. split; [done|lia].
Qed.

Lemma count_down_ok val s a u :
  sem_ok val (mkRun s a u) -> 0 < count (sem s) ->
  sem_ok val (mkRun (set_count s (count (sem s) - 1)) (a + acquired (Some 0)) u).
Proof.
  intros [Hc Hf Hnd Hw Ha (H & HH & Hsz)] Hpos. cbn in *.
  change (acquired (Some 0)) with 1. split; cbn; try done || lia.
  - intros _. by apply Hf.
  - exists H. split; [done|]. lia.
Qed.

Lemma call_ok val s a u t sig req s' r :
  sem_ok val (mkRun s a u) -> threads s t = Idle -> call s t sig req = (s', r) ->
  sem_ok val (mkRun s' (a + acquired r) u).
Proof.
  intros Hok Ht. pose proof (sk_count _ _ Hok) as Hc. cbn in Hc.
  destruct req; unfold call, down, down_interruptible, down_killable, down_timeout.
  all: destruct (Z.ltb_spec 0 (count (sem s))); [intros [= <- <-]; by apply count_down_ok|].
  all: intros Hrun; eapply down_common_ok; [done|done|lia|exact Hrun].
Qed.

Lemma trylock_ok val s a u s' r :
  sem_ok val (mkRun s a u) -> count (sem s) < 2 ^ 32 -> down_trylock s = (s', r) ->
  sem_ok val (mkRun s' (a + acquired (Some r)) u).
Proof.
  intros Hok Hmax. pose proof (sk_count _ _ Hok) as Hc. cbn in Hc. unfold down_trylock.
  destruct (Z.leb_spec 0 (s32 (count (sem s) - 1))) as [Hge|Hlt]; intros [= <- <-].
  - assert (Hs : 0 < count (sem s) /\ s32 (count (sem s) - 1) = count (sem s) - 1).
    { unfold s32 in *. destruct (decide (count (sem s) = 0)) as [E|]; [by rewrite E in Hge|]. split; [lia|].
      destruct (decide (count (sem s) <= 2 ^ 31)); [rewrite Z.mod_small; lia|].
      replace (count (sem s) - 1 + 2 ^ 31) with (count (sem s) - 1 - 2 ^ 31 + 1 * 2 ^ 32) in Hge by lia.
      rewrite Z_mod_plus_full, Z.mod_small in Hge; lia. }
    destruct Hs as [Hpos ->]. by apply count_down_ok.
  - unfold acquired. rewrite decide_False by done. by rewrite Z.add_0_r.
Qed.

Lemma wake_ok val s a u t sig elapsed s' r :
  sem_ok val (mkRun s a u) -> threads s t <> Idle -> down_wake s t sig elapsed = (s', r) ->
  sem_ok val (mkRun s' (a + acquired r) u).
Proof.
  intros [Hc Hf Hnd Hw Ha (H & HH & Hsz)] Ht. cbn in *. unfold down_wake.
  destruct (threads s t) as [|up state timeout] eqn:E; [done|]. destruct up.
  - intros [= <- <-]. assert (Hin : t ∈ H) by (apply HH; by do 2 eexists).
    unfold acquired. rewrite decide_True by done. split; cbn; try done || lia.
    + intros x. rewrite Hw. unfold waiting. cbn. destruct (decide (t = x)) as [<-|Hne].
      * rewrite fn_lookup_insert, E. by split; intros (? & ? & [=]).
      * by rewrite fn_lookup_insert_ne.
    + exists (H ∖ {[t]}). split.
      * intros x. rewrite elem_of_difference, elem_of_singleton, HH. unfold handed. cbn.
        destruct (decide (t = x)) as [<-|Hne]; [rewrite fn_lookup_insert|rewrite fn_lookup_insert_ne by done].
        -- split; [by intros [_ ?]|by intros (? & ? & [=])].
        -- split; [by intros [? _]|]. intros ?; split; [done|congruence].
      * rewrite size_difference by set_solver. rewrite size_singleton.
        assert (size H <> 0)%nat; [|lia]. intros Hz%size_empty_inv. set_solver.
  - intros Hrun. assert (Hin : t ∈ wait_list (sem s)) by (apply Hw; by do 2 eexists).
    eapply down_loop_ok in Hrun as [Hok _]; [exact Hok|done|done| | |done| |].
    + intros (? & ? & E'). congruence.
    + destruct (decide (count (sem s) = 0)) as [|Hne]; [done|].
      rewrite Hf in Hin by lia. by apply not_elem_of_nil in Hin.
    + intros x _. apply Hw.
    + exists H. split; [done|]. destruct (decide (count (sem s) = 0)) as [|Hne]; [lia|].
      rewrite Hf in Hin by lia. by apply not_elem_of_nil in Hin.
Qed.

Lemma up_cases val s a u :
  sem_ok val (mkRun s a u) ->
  match wait_list (sem s) with
  | [] => up s = Ok (set_count s (count (sem s) ⊞ 1))
  | t :: rest => exists st tm, threads s t = Asleep false st tm /\ count (sem s) = 0 /\
      up s = Ok (set_thread (set_wait s rest) t (Asleep true st tm))
  end.
Proof.
  intros [Hc Hf Hnd Hw Ha _]. cbn in *. unfold up, __up.
  destruct (wait_list (sem s)) as [|t rest] eqn:E; [done|].
  destruct (proj1 (Hw t)) as (st & tm & Ht); [apply list_elem_of_here|]. exists st, tm. rewrite Ht.
  split_and!; [done| |done]. destruct (decide (count (sem s) = 0)); [done|]. specialize (Hf ltac:(lia)). done.
Qed.

Lemma up_ok val s a u s' :
  sem_ok val (mkRun s a u) -> count (sem s) + 1 < 2 ^ 32 -> up s = Ok s' ->
  sem_ok val (mkRun s' a (u + 1)).
Proof.
  intros Hok Hmax. pose proof (up_cases _ _ _ _ Hok) as Hup.
  destruct Hok as [Hc Hf Hnd Hw Ha (H & HH & Hsz)]. cbn in *.
  destruct (wait_list (sem s)) as [|t rest] eqn:E.
  - rewrite Hup, add32_small by lia. intros [= <-]. split; cbn; rewrite ?E; try done || lia.
    exists H. split; [done|lia].
  - destruct Hup as (st & tm & Ht & Hc0 & ->). intros [= <-].
    apply NoDup_cons in Hnd as [Hnin Hnd]. split; cbn; try done || lia.
    + intros x. unfold waiting. cbn. destruct (decide (t = x)) as [<-|Hne].
      * rewrite fn_lookup_insert. split; [done|by intros (? & ? & [=])].
      * rewrite fn_lookup_insert_ne by done. change (x ∈ rest <-> waiting s x). rewrite <- Hw, elem_of_cons. naive_solver.
    + exists ({[t]} ∪ H). split.
      * intros x. rewrite elem_of_union, elem_of_singleton, HH. unfold handed. cbn.
        destruct (decide (t = x)) as [<-|Hne]; [rewrite fn_lookup_insert|rewrite fn_lookup_insert_ne by done].
        -- split; [eauto|by left].
        -- split; [by intros [?|?]|by right].
      * rewrite size_union, size_singleton; [lia|]. apply disjoint_singleton_l. rewrite HH.
        intros (? & ? & [=]). congruence.
Qed.

Lemma sem_step_ups r r' : sem_step r r' -> r_ups r <= r_ups r'.
Proof. intros Hstep. destruct Hstep; cbn; lia. Qed.

Lemma sem_step_ok val r r' : sem_ok val r -> sem_step r r' -> val + r_ups r' < 2 ^ 32 -> sem_ok val r'.
Proof.
  intros Hok Hstep Hmax. assert (Hcount : count (sem (r_sys r)) <= val + r_ups r).
  { destruct Hok as [_ _ _ _ Ha (H & _ & Hsz)]. lia. }
  destruct Hstep; cbn in *; [by eapply call_ok|eapply trylock_ok; [done|lia|done]|by eapply wake_ok|].
  eapply up_ok; [done|lia|done].
Qed.

Lemma sem_reachable_ok val r :
  0 <= val -> rtc sem_step (sema_init val) r -> val + r_ups r < 2 ^ 32 -> sem_ok val r.
Proof.
  intros Hv Hsteps. pattern r. eapply rtc_ind_r; [by intros; apply sema_init_ok| |exact Hsteps].
  intros r1 r2 _ Hstep IH Hmax. pose proof (sem_step_ups _ _ Hstep).
  eapply sem_step_ok; [|done|done]. apply IH. lia.
Qed.

(** C18.  However calls, wake-ups, signals, timeouts and releases interleave,
    a semaphore set up with [val] is acquired at most [val] plus the number of
    releases times, and a token is never left over while a task waits. *)
Theorem semaphore_tokens val r (s := r_sys r) :
  0 <= val -> rtc sem_step (sema_init val) r -> val + r_ups r < 2 ^ 32 ->
  count (sem s) + r_acquired r <= val + r_ups r /\
  (forall t, waiting s t -> count (sem s) = 0 /\ t ∈ wait_list (sem s)).
Proof.
  intros Hv Hsteps Hmax. destruct (sem_reachable_ok val r Hv Hsteps Hmax) as [Hc Hf Hnd Hw Ha (H & HH & Hsz)].
  unfold s; split; [lia|]. intros t Ht. apply Hw in Ht as Hin. split; [|done].
  destruct (decide (count (sem (r_sys r)) = 0)); [done|]. rewrite Hf in Hin by lia. by apply not_elem_of_nil in Hin.
Qed.

(** [up] hands the semaphore to the task that has waited longest without
    making a token available to others, and that task returns 0 when it runs,
    whatever signals it has and however late it is. *)
Theorem up_hands_over val r t rest sig elapsed (s := r_sys r) :
  0 <= val -> rtc sem_step (sema_init val) r -> val + r_ups r < 2 ^ 32 ->
  wait_list (sem s) = t :: rest ->
  exists s', up s = Ok s' /\ wait_list (sem s') = rest /\ count (sem s') = 0 /\
    snd (down_wake s' t sig elapsed) = Some 0.
Proof.
  intros Hv Hsteps Hmax Hwait. pose proof (sem_reachable_ok val r Hv Hsteps Hmax) as Hok.
  destruct r as [s0 a u]. cbn in *. pose proof (up_cases _ _ _ _ Hok) as Hup. unfold s in Hwait. rewrite Hwait in Hup.
  destruct Hup as (st & tm & Ht & Hc & Hup). eexists. split; [exact Hup|]. split_and!; [done|done|].
  unfold down_wake. cbn. by rewrite fn_lookup_insert.
Qed.

(** [down] cannot fail: it returns at once with the semaphore, or sleeps,
    and after any wake-up it either sleeps on or returns 0 because it was
    given the semaphore. *)
Theorem down_never_fails s t sig (asleep := fun b => Asleep b TASK_UNINTERRUPTIBLE MAX_SCHEDULE_TIMEOUT) :
  (let '(s', r) := down s t sig in
   (0 < count (sem s) /\ r = Some 0) \/ (r = None /\ threads s' t = asleep false)) /\
  (forall b elapsed, threads s t = asleep b ->
   let '(s', r) := down_wake s t sig elapsed in
   (b = true /\ r = Some 0) \/ (r = None /\ threads s' t = asleep false)).
Proof.
  split.
  - unfold down, __down, __down_common, down_loop. destruct (Z.ltb_spec 0 (count (sem s))); [by left|].
    right. cbn. by rewrite fn_lookup_insert.
  - intros b elapsed Ht. unfold down_wake. rewrite Ht. unfold asleep. destruct b; [by left|].
    right. cbn. by rewrite fn_lookup_insert.
Qed.

(** * * Semaphores on a concrete run A run with one holder and one waiter, and the theorems at its end. *)

Definition quiet : signals := mkSignals false false.

(** Task 0 acquires a semaphore of one token, task 1 sleeps. *)
Definition sem_ex : run :=
  mkRun (mkSys (mkSem 0 [1%nat]) (<[1%nat:=Asleep false TASK_UNINTERRUPTIBLE MAX_SCHEDULE_TIMEOUT]> (fun _ => Idle))) 1 0.

Lemma sem_ex_run : rtc sem_step (sema_init 1) sem_ex.
Proof.
  eapply rtc_l; [by apply (s_call _ _ _ 0%nat quiet Down)|].
  eapply rtc_l; [by apply (s_call _ _ _ 1%nat quiet Down)|]. apply rtc_refl.
Qed.

Lemma semaphore_tokens_witness :
  0 + 1 <= 1 + 0 /\ (forall t, waiting (r_sys sem_ex) t -> 0 = 0 /\ t ∈ [1%nat]).
Proof. apply (semaphore_tokens 1 sem_ex); [lia|apply sem_ex_run|cbn; lia]. Defined.

Lemma up_hands_over_witness :
  exists s', up (r_sys sem_ex) = Ok s' /\ wait_list (sem s') = [] /\ count (sem s') = 0 /\
    snd (down_wake s' 1%nat (mkSignals true true) 5) = Some 0.
Proof.
  apply (up_hands_over 1 sem_ex 1%nat [] (mkSignals true true) 5); [lia|apply sem_ex_run|cbn; lia|done].
Defined.
