(* ===== verification/RwsemDefs.v ===== *)
(** * Read-write semaphores: kernel/locking/rwsem-spinlock.c

    Every part of an operation that runs under [sem->wait_lock] is one
    function on the semaphore and the states of the tasks.  [count] is the
    number of active readers or -1 for a writer; it stays far below the range
    of [__s32] because there are fewer tasks. *)

From stdpp Require Import gmap functions.
From S2P Require Import Prelude.

Definition task := nat.

Inductive rwsem_waiter_type := RWSEM_WAITING_FOR_WRITE | RWSEM_WAITING_FOR_READ.

#[global] Instance rwsem_waiter_type_eq_dec : EqDecision rwsem_waiter_type.
Proof. solve_decision. Defined.

(** The waiters by their task: a waiter is a local variable of the one call
    its task is in. *)
Record rw_semaphore := mkRw {
  count : Z;
  wait_list : list (task * rwsem_waiter_type) }.

(** Where a task is: outside, holding the semaphore, or waiting.  [granted]
    is [waiter.task == NULL]; [runnable] is false when the task sleeps until
    the next [wake_up_process]. *)
Inductive rthread :=
| Out
| Reading
| Writing
| WaitRead (granted runnable : bool)
| WaitWrite (runnable : bool).

Record rwsys := mkRws {
  rsem : rw_semaphore;
  rthreads : task -> rthread }.

Definition set_count (s : rwsys) (c : Z) : rwsys := mkRws (mkRw c (wait_list (rsem s))) (rthreads s).
Definition set_wait (s : rwsys) l : rwsys := mkRws (mkRw (count (rsem s)) l) (rthreads s).
Definition set_thread (s : rwsys) (t : task) (th : rthread) : rwsys := mkRws (rsem s) (<[t:=th]> (rthreads s)).

Definition list_empty {A} (l : list A) : bool := match l with [] => true | _ => false end.

(** What the scheduler does to the state of a waiting task. *)
Definition wake_up_process (s : rwsys) (t : task) : rwsys :=
  match rthreads s t with
  | WaitRead g _ => set_thread s t (WaitRead g true)
  | WaitWrite _ => set_thread s t (WaitWrite true)
  | _ => s
  end.

(** [got_lock]: whether the attempt to take the spinlock succeeded. *)
Definition rwsem_is_locked (got_lock : bool) (s : rwsys) : bool :=
  if got_lock then negb (count (rsem s) =? 0) else true.

Definition __init_rwsem (ths : task -> rthread) : rwsys := mkRws (mkRw 0 []) ths.

(** The loop that grants read locks to the front of the queue; also counts
    them. *)
Fixpoint grant_readers (l : list (task * rwsem_waiter_type)) (ths : task -> rthread) (woken : Z)
    : list (task * rwsem_waiter_type) * (task -> rthread) * Z :=
  match l with
  | (tsk, RWSEM_WAITING_FOR_READ) :: rest =>
      grant_readers rest (<[tsk:=WaitRead true true]> ths) (woken + 1)
  | _ => (l, ths, woken)
  end.

Definition __rwsem_do_wake (s : rwsys) (wakewrite : bool) : res rwsys :=
  match wait_list (rsem s) with
  | [] => Fault
  | (tsk, RWSEM_WAITING_FOR_WRITE) :: _ => Ok (if wakewrite then wake_up_process s tsk else s)
  | (_, RWSEM_WAITING_FOR_READ) :: _ =>
      let '(l, ths, woken) := grant_readers (wait_list (rsem s)) (rthreads s) 0 in
      Ok (mkRws (mkRw (count (rsem s) + woken) l) ths)
  end.

Definition __rwsem_wake_one_writer (s : rwsys) : res rwsys :=
  match wait_list (rsem s) with
  | [] => Fault
  | (tsk, _) :: _ => Ok (wake_up_process s tsk)
  end.

(** ** Readers *)

(** Up to the release of the spinlock. *)
Definition __down_read (s : rwsys) (t : task) : rwsys :=
  if (0 <=? count (rsem s)) && list_empty (wait_list (rsem s))
  then set_thread (set_count s (count (rsem s) + 1)) t Reading
  else set_thread (set_wait s (wait_list (rsem s) ++ [(t, RWSEM_WAITING_FOR_READ)])) t (WaitRead false false).

(** One round of the waiting loop. *)
Definition down_read_loop (s : rwsys) (t : task) : rwsys :=
  match rthreads s t with
  | WaitRead true _ => set_thread s t Reading
  | WaitRead false _ => set_thread s t (WaitRead false false)
  | _ => s
  end.

Definition __down_read_trylock (s : rwsys) (t : task) : rwsys * Z :=
  if (0 <=? count (rsem s)) && list_empty (wait_list (rsem s))
  then (set_thread (set_count s (count (rsem s) + 1)) t Reading, 1)
  else (s, 0).

Definition __up_read (s : rwsys) (t : task) : res rwsys :=
  let s := set_thread (set_count s (count (rsem s) - 1)) t Out in
  if (count (rsem s) =? 0) && negb (list_empty (wait_list (rsem s)))
  then __rwsem_wake_one_writer s else Ok s.

(** ** Writers *)

(** One round of the loop: take the semaphore or go to sleep. *)
Definition down_write_loop (s : rwsys) (t : task) : rwsys :=
  if count (rsem s) =? 0
  then set_thread (mkRws (mkRw (-1) (filter (fun w => w.1 <> t) (wait_list (rsem s)))) (rthreads s)) t Writing
  else set_thread s t (WaitWrite false).

Definition __down_write_nested (s : rwsys) (t : task) : rwsys :=
  down_write_loop (set_wait s (wait_list (rsem s) ++ [(t, RWSEM_WAITING_FOR_WRITE)])) t.

Definition __down_write_trylock (s : rwsys) (t : task) : rwsys * Z :=
  if count (rsem s) =? 0 then (set_thread (set_count s (-1)) t Writing, 1) else (s, 0).

Definition __up_write (s : rwsys) (t : task) : res rwsys :=
  let s := set_thread (set_count s 0) t Out in
  if negb (list_empty (wait_list (rsem s))) then __rwsem_do_wake s true else Ok s.

Definition __downgrade_write (s : rwsys) (t : task) : res rwsys :=
  let s := set_thread (set_count s 1) t Reading in
  if negb (list_empty (wait_list (rsem s))) then __rwsem_do_wake s false else Ok s.

(** ** Interleavings

    A task releases only what it holds. *)
Inductive rw_step : rwsys -> rwsys -> Prop :=
| st_down_read s t : rthreads s t = Out -> rw_step s (__down_read s t)
| st_read_loop s t g b : rthreads s t = WaitRead g b -> rw_step s (down_read_loop s t)
| st_read_trylock s t : rthreads s t = Out -> rw_step s (fst (__down_read_trylock s t))
| st_down_write s t : rthreads s t = Out -> rw_step s (__down_write_nested s t)
| st_write_loop s t b : rthreads s t = WaitWrite b -> rw_step s (down_write_loop s t)
| st_write_trylock s t : rthreads s t = Out -> rw_step s (fst (__down_write_trylock s t))
| st_up_read s t s' : rthreads s t = Reading -> __up_read s t = Ok s' -> rw_step s s'
| st_up_write s t s' : rthreads s t = Writing -> __up_write s t = Ok s' -> rw_step s s'
| st_downgrade s t s' : rthreads s t = Writing -> __downgrade_write s t = Ok s' -> rw_step s s'.
