(* ===== verification/Rwsem.v ===== *)
(** * Correctness of the read-write semaphore

    Mutual exclusion, the meaning of [count], and that no wake-up is lost, for
    every interleaving of the operations of any number of tasks. *)
From stdpp Require Import gmap functions.
From S2P Require Import Prelude RwsemDefs.

(** The queue entry a task must have. *)
Definition waits (th : rthread) : option rwsem_waiter_type :=
  match th with
  | WaitRead false _ => Some RWSEM_WAITING_FOR_READ
  | WaitWrite _ => Some RWSEM_WAITING_FOR_WRITE
  | _ => None
  end.

(** The task has a read lock, maybe without having noticed yet. *)
Definition reads (th : rthread) : bool :=
  match th with Reading | WaitRead true _ => true | _ => false end.

Definition queue_ok (l : list (task * rwsem_waiter_type)) (ths : task -> rthread) : Prop :=
  NoDup l.*1 /\ forall t ty, (t, ty) ∈ l <-> waits (ths t) = Some ty.

Definition owned (ths : task -> rthread) (c : Z) : Prop :=
  exists R : gset task, (forall t, t ∈ R <-> reads (ths t) = true) /\
    (c = Z.of_nat (size R) /\ (forall t, ths t <> Writing) \/
     c = -1 /\ R = ∅ /\ exists w, forall t, ths t = Writing <-> t = w).

(** The first waiter of a semaphore that no writer holds: never a reader, and
    a runnable writer when nobody holds it. *)
Definition head_ok (l : list (task * rwsem_waiter_type)) (ths : task -> rthread) (c : Z) : Prop :=
  0 <= c ->
  match l with
  | [] => True
  | (_, RWSEM_WAITING_FOR_READ) :: _ => False
  | (t, RWSEM_WAITING_FOR_WRITE) :: _ => c = 0 -> ths t = WaitWrite true
  end.

Definition granted_ok (ths : task -> rthread) : Prop := forall t b, ths t = WaitRead true b -> b = true.

Record rw_ok (s : rwsys) : Prop := {
  rk_queue : queue_ok (wait_list (rsem s)) (rthreads s);
  rk_owned : owned (rthreads s) (count (rsem s));
  rk_head : head_ok (wait_list (rsem s)) (rthreads s) (count (rsem s));
  rk_granted : granted_ok (rthreads s) }.

(** Case analysis on an updated task. *)
Ltac upd t x :=
  destruct (decide (t = x)) as [<-|?];
  [rewrite ?fn_lookup_insert in *|rewrite ?fn_lookup_insert_ne in * by done].

(** ** The queue *)

Lemma queue_same l ths t th : queue_ok l ths -> waits th = waits (ths t) -> queue_ok l (<[t:=th]> ths).
Proof. intros [Hnd Hq] Hw. split; [done|]. intros x ty. upd t x; [rewrite Hw|]; apply Hq. Qed.

Lemma queue_add l ths t th ty :
  queue_ok l ths -> waits (ths t) = None -> waits th = Some ty -> queue_ok (l ++ [(t, ty)]) (<[t:=th]> ths).
Proof.
  intros [Hnd Hq] Hn Hw. assert (Hfresh : forall ty', (t, ty') ∉ l).
  { intros ty' Hin. apply Hq in Hin. congruence. }
  split.
  - rewrite fmap_app. change ([(t, ty)].*1) with [t]. apply NoDup_app. split_and!; [done| |apply NoDup_singleton].
    intros x Hx ->%list_elem_of_singleton. apply list_elem_of_fmap in Hx as ([y ty'] & -> & Hin).
    by apply (Hfresh ty').
  - intros x ty'. rewrite elem_of_app, list_elem_of_singleton. upd t x.
    + rewrite Hw. split; [intros [Hin|[=]]; [by apply Hfresh in Hin|congruence]|]. intros [= <-]. by right.
    + rewrite Hq. split; [intros [?|[=]]; [done|congruence]|by left].
Qed.

Lemma queue_del l ths t th :
  queue_ok l ths -> waits th = None -> queue_ok (filter (fun w => w.1 <> t) l) (<[t:=th]> ths).
Proof.
  intros [Hnd Hq] Hw. split.
  - eapply sublist_NoDup; [exact Hnd|]. apply fmap_sublist, sublist_filter.
  - intros x ty. rewrite list_elem_of_filter. cbn. upd t x.
    + rewrite Hw. split; [by intros [? _]|done].
    + rewrite Hq. split; [by intros [_ ?]|by split].
Qed.

Lemma queue_pop l ths t ty th :
  queue_ok ((t, ty) :: l) ths -> waits th = None -> queue_ok l (<[t:=th]> ths).
Proof.
  intros [Hnd Hq] Hw. cbn in Hnd. apply NoDup_cons in Hnd as [Hnin Hnd]. split; [done|].
  intros x ty'. upd t x.
  - rewrite Hw. split; [|done]. intros Hin. destruct Hnin. apply list_elem_of_fmap. by exists (t, ty').
  - rewrite <- Hq, elem_of_cons. split; [by right|]. intros [[=]|?]; congruence.
Qed.

(** ** Ownership *)

Lemma owned_same ths c t th :
  owned ths c -> reads th = reads (ths t) -> th <> Writing -> ths t <> Writing -> owned (<[t:=th]> ths) c.
Proof.
  intros (R & HR & Hc) Hr Hw Hw'. exists R. split.
  - intros x. rewrite HR. upd t x; [by rewrite Hr|done].
  - destruct Hc as [[Hc Hn]|(Hc & HR0 & w & Hwr)]; [left|right].
    + split; [done|]. intros x. by upd t x.
    + split_and!; [done|done|]. exists w. intros x. upd t x; [|apply Hwr]. split; [done|].
      intros ->. by destruct Hw'; apply Hwr.
Qed.

Lemma owned_nonneg ths c : owned ths c -> 0 <= c -> forall t, ths t <> Writing.
Proof. intros (R & HR & [[_ Hn]|(-> & _)]); [done|lia]. Qed.

Lemma owned_read ths c t th :
  owned ths c -> 0 <= c -> reads (ths t) = false -> reads th = true -> owned (<[t:=th]> ths) (c + 1).
Proof.
  intros Ho Hc Ht Hth. pose proof (owned_nonneg _ _ Ho Hc) as Hn.
  destruct Ho as (R & HR & [[-> _]|(-> & _)]); [|lia]. exists ({[t]} ∪ R). split.
  - intros x. rewrite elem_of_union, elem_of_singleton, HR. upd t x; naive_solver.
  - left. split.
    + rewrite size_union, size_singleton; [lia|]. apply disjoint_singleton_l. rewrite HR. congruence.
    + intros x. upd t x; [|done]. by intros ->.
Qed.

Lemma owned_unread ths c t :
  owned ths c -> ths t = Reading -> 0 < c /\ owned (<[t:=Out]> ths) (c - 1).
Proof.
  intros (R & HR & Hc) Ht. assert (Hin : t ∈ R) by (apply HR; by rewrite Ht).
  destruct Hc as [[-> Hn]|(_ & -> & _)]; [|set_solver].
  assert (Hpos : (0 < size R)%nat).
  { destruct (decide (size R = 0)%nat) as [Hz%size_empty_inv|]; [set_solver|lia]. }
  split; [lia|]. exists (R ∖ {[t]}). split.
  - intros x. rewrite elem_of_difference, elem_of_singleton, HR. upd t x; naive_solver.
  - left. split; [rewrite size_difference, size_singleton by set_solver; lia|].
    intros x. by upd t x.
Qed.

Lemma owned_write ths t : owned ths 0 -> reads (ths t) = false -> owned (<[t:=Writing]> ths) (-1).
Proof.
  intros Ho Ht. pose proof (owned_nonneg _ _ Ho ltac:(lia)) as Hn.
  destruct Ho as (R & HR & [[Hc _]|(Hc & _)]); [|lia].
  assert (HR0 : R = ∅) by (apply leibniz_equiv, size_empty_inv; lia). subst R.
  exists ∅. split.
  - intros x. rewrite HR. by upd t x; [rewrite Ht|].
  - right. split_and!; [done|done|]. exists t. intros x. upd t x; [done|].
    split; [by intros ?%Hn|congruence].
Qed.

Lemma owned_unwrite ths c t : owned ths c -> ths t = Writing -> c = -1 /\ owned (<[t:=Out]> ths) 0.
Proof.
  intros (R & HR & Hc) Ht. destruct Hc as [[_ Hn]|(-> & -> & w & Hw)]; [by apply Hn in Ht|].
  split; [done|]. apply Hw in Ht as Htw. subst w. exists ∅. split.
  - intros x. rewrite HR. by upd t x; [rewrite Ht|].
  - left. split; [by rewrite size_empty|]. intros x. upd t x; [done|]. rewrite Hw. congruence.
Qed.

(** ** Extensionality: task states matter pointwise *)

#[global] Instance queue_ok_proper l : Proper (pointwise_relation task (=) ==> iff) (queue_ok l).
Proof.
  intros f g Hfg. unfold queue_ok. apply and_iff_compat_l. by split; intros H t ty; [rewrite <- Hfg|rewrite Hfg].
Qed.

Lemma owned_ext f g c : (forall x, f x = g x) -> owned f c -> owned g c.
Proof.
  intros Hfg (R & HR & Hor). exists R. split; [intros t; by rewrite <- Hfg|].
  destruct Hor as [[Hc Hn]|(Hc & HR0 & w & Hw)]; [left|right].
  - split; [done|]. intros t. by rewrite <- Hfg.
  - split_and!; [done|done|]. exists w. intros t. by rewrite <- Hfg.
Qed.

#[global] Instance owned_proper : Proper (pointwise_relation task (=) ==> (=) ==> iff) owned.
Proof. intros f g Hfg c _ <-. by split; apply owned_ext. Qed.

Lemma insert_twice (ths : task -> rthread) t a b :
  pointwise_relation task (=) (<[t:=a]> (<[t:=b]> ths)) (<[t:=a]> ths).
Proof. intros x. by upd t x. Qed.

(** ** Operations *)

Lemma head_upd l ths c t th :
  head_ok l ths c -> (forall ty, (t, ty) ∉ l) \/ c <> 0 -> head_ok l (<[t:=th]> ths) c.
Proof.
  intros Hh Hor Hc. specialize (Hh Hc). destruct l as [|[x []] l]; [done| |done].
  intros H0. upd t x; [|by apply Hh]. destruct Hor as [Hn|]; [|done].
  destruct (Hn RWSEM_WAITING_FOR_WRITE). apply elem_of_cons. by left.
Qed.

Lemma head_app l x ths c : head_ok l ths c -> l <> [] -> head_ok (l ++ x) ths c.
Proof. by destruct l. Qed.

Lemma not_queued l ths t : queue_ok l ths -> waits (ths t) = None -> forall ty, (t, ty) ∉ l.
Proof. intros [_ Hq] Hn ty Hin. apply Hq in Hin. congruence. Qed.

Lemma granted_upd ths t th :
  granted_ok ths -> (forall b, th = WaitRead true b -> b = true) -> granted_ok (<[t:=th]> ths).
Proof. intros Hg Ht x b. upd t x; [apply Ht|apply Hg]. Qed.

Lemma read_granted_ok s t :
  rw_ok s -> rthreads s t = Out -> 0 <= count (rsem s) -> wait_list (rsem s) = [] ->
  rw_ok (set_thread (set_count s (count (rsem s) + 1)) t Reading).
Proof.
  intros [Hq Ho Hh Hg] Ht Hc Hl. split; cbn.
  - apply queue_same; [done|]. by rewrite Ht.
  - apply owned_read; [done|done|by rewrite Ht|done].
  - by rewrite Hl.
  - by apply granted_upd.
Qed.

Lemma read_queued_ok s t :
  rw_ok s -> rthreads s t = Out -> count (rsem s) < 0 \/ wait_list (rsem s) <> [] ->
  rw_ok (set_thread (set_wait s (wait_list (rsem s) ++ [(t, RWSEM_WAITING_FOR_READ)])) t (WaitRead false false)).
Proof.
  intros [Hq Ho Hh Hg] Ht Hor. split; cbn.
  - apply queue_add; [done|by rewrite Ht|done].
  - apply owned_same; [done|by rewrite Ht|done|by rewrite Ht].
  - destruct Hor as [Hc|Hl]; [intros ?; lia|]. apply head_app; [|done]. apply head_upd; [done|left].
    apply (not_queued _ (rthreads s)); [done|by rewrite Ht].
  - by apply granted_upd.
Qed.

Lemma read_free_spec s :
  (0 <=? count (rsem s)) && list_empty (wait_list (rsem s)) = true ->
  0 <= count (rsem s) /\ wait_list (rsem s) = [].
Proof. destruct (wait_list (rsem s)); cbn; intros ?; split; lia || done. Qed.

Lemma down_read_ok s t : rw_ok s -> rthreads s t = Out -> rw_ok (__down_read s t).
Proof.
  intros Hok Ht. unfold __down_read. destruct (_ && _) eqn:E.
  - apply read_free_spec in E as [Hc Hl]. by apply read_granted_ok.
  - apply read_queued_ok; [done|done|]. destruct (wait_list (rsem s)); cbn in E; [left; lia|by right].
Qed.

Lemma read_trylock_ok s t : rw_ok s -> rthreads s t = Out -> rw_ok (fst (__down_read_trylock s t)).
Proof.
  intros Hok Ht. unfold __down_read_trylock.
  destruct (_ && _) eqn:E; [|done]. apply read_free_spec in E as [Hc Hl]. by apply read_granted_ok.
Qed.

Lemma read_loop_ok s t g b : rw_ok s -> rthreads s t = WaitRead g b -> rw_ok (down_read_loop s t).
Proof.
  intros [Hq Ho Hh Hg] Ht. unfold down_read_loop. rewrite Ht.
  destruct g; split; cbn; try (apply queue_same; [done|by rewrite Ht]);
    try (apply owned_same; [done|by rewrite Ht|done|by rewrite Ht]); try (by apply granted_upd).
  - apply head_upd; [done|left]. apply (not_queued _ (rthreads s)); [done|by rewrite Ht].
  - intros Hc. specialize (Hh Hc). destruct (wait_list (rsem s)) as [|[x []] l]; [done| |done].
    intros H0. specialize (Hh H0). upd t x; [congruence|done].
Qed.

(** The writer's loop, also on its first round. *)
Lemma write_loop_ok s t b :
  queue_ok (wait_list (rsem s)) (<[t:=WaitWrite b]> (rthreads s)) ->
  owned (rthreads s) (count (rsem s)) -> reads (rthreads s t) = false -> rthreads s t <> Writing ->
  (count (rsem s) <> 0 -> head_ok (wait_list (rsem s)) (rthreads s) (count (rsem s))) ->
  granted_ok (rthreads s) ->
  rw_ok (down_write_loop s t).
Proof.
  intros Hq Ho Hr Hw Hh Hg. unfold down_write_loop. destruct (Z.eqb_spec (count (rsem s)) 0) as [E|E].
  - rewrite E in Ho. split; cbn.
    + rewrite <- (insert_twice _ t Writing (WaitWrite b)). by apply queue_del.
    + by apply owned_write.
    + intros ?. lia.
    + by apply granted_upd.
  - split; cbn.
    + rewrite <- (insert_twice _ t (WaitWrite false) (WaitWrite b)). apply queue_same; [done|].
      by rewrite fn_lookup_insert.
    + by apply owned_same.
    + apply head_upd; [by apply Hh|by right].
    + by apply granted_upd.
Qed.

Lemma down_write_ok s t : rw_ok s -> rthreads s t = Out -> rw_ok (__down_write_nested s t).
Proof.
  intros [Hq Ho Hh Hg] Ht. apply write_loop_ok with (b := false); cbn; rewrite ?Ht; try done.
  - apply queue_add; [done|by rewrite Ht|done].
  - intros Hne Hc. specialize (Hh Hc). destruct (wait_list (rsem s)) as [|[x []] l]; [by intros ?|done|done].
Qed.

Lemma write_trylock_ok s t : rw_ok s -> rthreads s t = Out -> rw_ok (fst (__down_write_trylock s t)).
Proof.
  intros [Hq Ho Hh Hg] Ht. unfold __down_write_trylock.
  destruct (Z.eqb_spec (count (rsem s)) 0) as [E|]; cbn; [|done]. rewrite E in Ho. split; cbn.
  - apply queue_same; [done|by rewrite Ht].
  - apply owned_write; [done|by rewrite Ht].
  - intros ?. lia.
  - by apply granted_upd.
Qed.

(** ** Releases *)

(** Waking the first waiter when it is a writer. *)
Lemma wake_writer_ok s t l :
  queue_ok (wait_list (rsem s)) (rthreads s) -> owned (rthreads s) (count (rsem s)) -> granted_ok (rthreads s) ->
  wait_list (rsem s) = (t, RWSEM_WAITING_FOR_WRITE) :: l -> rw_ok (wake_up_process s t).
Proof.
  intros Hq Ho Hg Hl. assert (Ht : exists b, rthreads s t = WaitWrite b).
  { destruct Hq as [_ Hq]. specialize (Hq t RWSEM_WAITING_FOR_WRITE). rewrite Hl, elem_of_cons in Hq.
    destruct (rthreads s t) as [| | |[] b|b]; cbn in Hq; try (destruct Hq as [Hq _]; discriminate Hq; by left). eauto. }
  destruct Ht as [b Ht]. unfold wake_up_process. rewrite Ht. split; cbn.
  - apply queue_same; [done|by rewrite Ht].
  - apply owned_same; [done|by rewrite Ht|done|by rewrite Ht].
  - rewrite Hl. intros _ _. by rewrite fn_lookup_insert.
  - by apply granted_upd.
Qed.

Lemma grant_readers_ok l ths w c l' ths' w' :
  queue_ok l ths -> owned ths c -> 0 <= c -> granted_ok ths ->
  grant_readers l ths w = (l', ths', w') ->
  queue_ok l' ths' /\ owned ths' (c + (w' - w)) /\ w <= w' /\ granted_ok ths' /\
  match l' with (_, RWSEM_WAITING_FOR_READ) :: _ => False | _ => True end /\
  (match l with (_, RWSEM_WAITING_FOR_READ) :: _ => w < w' | _ => True end).
Proof.
  revert ths w c. induction l as [|[t []] l IH]; intros ths w c Hq Ho Hc Hg; cbn.
  1,2: intros [= <- <- <-]; split_and!; try done; by replace (c + (w - w)) with c by lia.
  intros Hrun. assert (Ht : exists b, ths t = WaitRead false b).
  { destruct Hq as [_ Hq]. specialize (Hq t RWSEM_WAITING_FOR_READ). rewrite elem_of_cons in Hq.
    destruct (ths t) as [| | |[] b|b]; cbn in Hq; try (destruct Hq as [Hq _]; discriminate Hq; by left). eauto. }
  destruct Ht as [b Ht].
  destruct (IH (<[t:=WaitRead true true]> ths) (w + 1) (c + 1)) as (Hq' & Ho' & Hw & Hg' & Hhd & _).
  - by eapply queue_pop.
  - apply owned_read; [done|done|by rewrite Ht|done].
  - lia.
  - apply granted_upd; [done|]. by intros ? [= <-].
  - done.
  - split_and!; try done; [|lia|lia]. by replace (c + (w' - w)) with (c + 1 + (w' - (w + 1))) by lia.
Qed.

(** Waking the front of the queue; [c] active readers. *)
Lemma do_wake_ok s (wakewrite : bool) s' :
  queue_ok (wait_list (rsem s)) (rthreads s) -> owned (rthreads s) (count (rsem s)) -> granted_ok (rthreads s) ->
  0 <= count (rsem s) -> (wakewrite = false -> 0 < count (rsem s)) ->
  __rwsem_do_wake s wakewrite = Ok s' -> rw_ok s'.
Proof.
  intros Hq Ho Hg Hc Hww. unfold __rwsem_do_wake.
  destruct (wait_list (rsem s)) as [|[t []] l] eqn:El; [done| |].
  - intros [= <-]. destruct wakewrite; [eapply wake_writer_ok; rewrite ?El; done|].
    split; rewrite ?El; try done. intros _ ?. specialize (Hww eq_refl). lia.
  - destruct (grant_readers _ _ 0) as [[l' ths'] w'] eqn:Eg. intros [= <-].
    destruct (grant_readers_ok _ _ _ _ _ _ _ Hq Ho Hc Hg Eg) as (Hq' & Ho' & Hw & Hg' & Hhd & Hpos).
    rewrite Z.sub_0_r in Ho'. split; cbn; try done. intros _. destruct l' as [|[x []] l']; try done. lia.
Qed.

Lemma up_read_ok s t s' : rw_ok s -> rthreads s t = Reading -> __up_read s t = Ok s' -> rw_ok s'.
Proof.
  intros [Hq Ho Hh Hg] Ht. unfold __up_read. destruct (owned_unread _ _ _ Ho Ht) as [Hc Ho'].
  specialize (Hh ltac:(lia)).
  assert (Hq' : queue_ok (wait_list (rsem s)) (<[t:=Out]> (rthreads s))).
  { apply queue_same; [done|by rewrite Ht]. }
  assert (Hg' : granted_ok (<[t:=Out]> (rthreads s))) by by apply granted_upd.
  cbn. destruct (Z.eqb_spec (count (rsem s) - 1) 0) as [E|E]; cbn [andb].
  - unfold __rwsem_wake_one_writer. cbn.
    destruct (wait_list (rsem s)) as [|[x []] l] eqn:El; cbn; [| |done]; intros [= <-].
    + split; cbn; rewrite ?El; done.
    + eapply wake_writer_ok; cbn; rewrite ?El; done.
  - intros [= <-]. split; cbn; try done. intros _. destruct (wait_list (rsem s)) as [|[x []] l]; done.
Qed.

Lemma up_write_ok s t s' : rw_ok s -> rthreads s t = Writing -> __up_write s t = Ok s' -> rw_ok s'.
Proof.
  intros [Hq Ho Hh Hg] Ht. unfold __up_write. destruct (owned_unwrite _ _ _ Ho Ht) as [Hc Ho'].
  assert (Hq' : queue_ok (wait_list (rsem s)) (<[t:=Out]> (rthreads s))).
  { apply queue_same; [done|by rewrite Ht]. }
  assert (Hg' : granted_ok (<[t:=Out]> (rthreads s))) by by apply granted_upd.
  cbn. destruct (wait_list (rsem s)) as [|w l] eqn:El; cbn; rewrite <- ?El in *.
  - intros [= <-]. split; cbn; try done. by rewrite El.
  - by apply do_wake_ok.
Qed.

Lemma downgrade_ok s t s' : rw_ok s -> rthreads s t = Writing -> __downgrade_write s t = Ok s' -> rw_ok s'.
Proof.
  intros [Hq Ho Hh Hg] Ht. unfold __downgrade_write. destruct (owned_unwrite _ _ _ Ho Ht) as [Hc Ho0].
  assert (Ho' : owned (<[t:=Reading]> (rthreads s)) 1).
  { apply (owned_read _ 0 t Reading) in Ho0; [|lia|by rewrite fn_lookup_insert|done].
    by rewrite insert_twice in Ho0. }
  assert (Hq' : queue_ok (wait_list (rsem s)) (<[t:=Reading]> (rthreads s))).
  { apply queue_same; [done|by rewrite Ht]. }
  assert (Hg' : granted_ok (<[t:=Reading]> (rthreads s))) by by apply granted_upd.
  cbn. destruct (wait_list (rsem s)) as [|w l] eqn:El; cbn; rewrite <- ?El in *.
  - intros [= <-]. split; cbn; try done. by rewrite El.
  - by apply do_wake_ok.
Qed.

(** ** Every interleaving *)

Definition rw_start : rwsys := __init_rwsem (fun _ => Out).

Lemma rw_start_ok : rw_ok rw_start.
Proof.
  split; cbn; try done.
  - split; [constructor|]. intros t ty. split; [by intros ?%not_elem_of_nil|done].
  - exists ∅. split; [set_solver|]. left. by rewrite size_empty.
Qed.

Lemma rw_step_ok s s' : rw_ok s -> rw_step s s' -> rw_ok s'.
Proof.
  intros Hok Hstep. destruct Hstep.
  - by apply down_read_ok.
  - by eapply read_loop_ok.
  - by apply read_trylock_ok.
  - by apply down_write_ok.
  - destruct Hok as [Hq Ho Hh Hg].
    apply write_loop_ok with (b := b); try done; try (by rewrite H).
    apply queue_same; [done|by rewrite H].
  - by apply write_trylock_ok.
  - by eapply up_read_ok.
  - by eapply up_write_ok.
  - by eapply downgrade_ok.
Qed.

Lemma rw_reachable_ok s : rtc rw_step rw_start s -> rw_ok s.
Proof.
  intros Hsteps. pattern s. eapply rtc_ind_r; [apply rw_start_ok| |exact Hsteps].
  intros s1 s2 _ Hstep Hok. by eapply rw_step_ok.
Qed.

(** C19.  A task that holds the semaphore for writing holds it alone, and
    [count] is -1 then and the number of read locks otherwise. *)
Theorem rwsem_exclusion s :
  rtc rw_step rw_start s ->
  (forall t u, rthreads s t = Writing -> rthreads s u = Writing \/ rthreads s u = Reading -> u = t) /\
  (count (rsem s) = -1 <-> exists t, rthreads s t = Writing) /\
  (count (rsem s) <> -1 -> exists R : gset task,
     (forall t, t ∈ R <-> reads (rthreads s t) = true) /\ count (rsem s) = Z.of_nat (size R)).
Proof.
  intros Hsteps. destruct (rk_owned _ (rw_reachable_ok s Hsteps)) as (R & HR & [[Hc Hn]|(Hc & -> & w & Hw)]).
  - split_and!; [by intros t u ?%Hn| |by eauto]. split; [lia|]. by intros [t ?%Hn].
  - split_and!; [| |done].
    + intros t u ->%Hw [->%Hw|Hu]; [done|]. assert (Hin : u ∈ (∅ : gset task)) by (apply HR; by rewrite Hu).
      set_solver.
    + split; [|done]. intros _. exists w. by apply Hw.
Qed.

(** C20.  No wake-up is lost: while the semaphore is free and tasks wait, the
    first of them is a writer that is runnable and takes the semaphore when it
    runs; a reader that was granted the semaphore is runnable; and exactly
    the waiting tasks are in the queue. *)
Theorem rwsem_no_lost_wakeup s :
  rtc rw_step rw_start s ->
  (count (rsem s) = 0 -> wait_list (rsem s) <> [] -> exists t rest,
     wait_list (rsem s) = (t, RWSEM_WAITING_FOR_WRITE) :: rest /\ rthreads s t = WaitWrite true /\
     rthreads (down_write_loop s t) t = Writing) /\
  (forall t b, rthreads s t = WaitRead true b -> b = true) /\
  (forall t ty, (t, ty) ∈ wait_list (rsem s) <-> waits (rthreads s t) = Some ty).
Proof.
  intros Hsteps. destruct (rw_reachable_ok s Hsteps) as [[_ Hq] Ho Hh Hg]. split_and!; [|done|done].
  intros Hc Hl. specialize (Hh ltac:(lia)). destruct (wait_list (rsem s)) as [|[t []] rest] eqn:E; [done| |done].
  exists t, rest. split_and!; [done|by apply Hh|]. unfold down_write_loop. rewrite Hc. cbn.
  by rewrite fn_lookup_insert.
Qed.

(** * * Read-write semaphores on a concrete run A run that ends with a free semaphore and a waiting writer, and the theorems at its end. *)

(** Task 0 reads, task 1 waits to write, task 0 leaves. *)
Definition rw_ex : rwsys :=
  mkRws (mkRw 0 [(1%nat, RWSEM_WAITING_FOR_WRITE)])
        (<[1%nat:=WaitWrite true]> (<[0%nat:=Out]> (<[1%nat:=WaitWrite false]> (<[0%nat:=Reading]> (fun _ => Out))))).

Lemma rw_ex_run : rtc rw_step rw_start rw_ex.
Proof.
  eapply rtc_l; [by apply (st_down_read _ 0%nat)|].
  eapply rtc_l; [by apply (st_down_write _ 1%nat)|].
  eapply rtc_l; [by eapply (st_up_read _ 0%nat)|]. apply rtc_refl.
Qed.

Lemma rwsem_exclusion_witness :
  0 = -1 <-> exists t, rthreads rw_ex t = Writing.
Proof. apply (rwsem_exclusion rw_ex rw_ex_run). Defined.

Lemma rwsem_no_lost_wakeup_witness :
  exists t rest, [(1%nat, RWSEM_WAITING_FOR_WRITE)] = (t, RWSEM_WAITING_FOR_WRITE) :: rest /\
    rthreads rw_ex t = WaitWrite true /\ rthreads (down_write_loop rw_ex t) t = Writing.
Proof. by apply (rwsem_no_lost_wakeup rw_ex rw_ex_run). Defined.
