(* ===== verification/CpudlDefs.v ===== *)
(** * The deadline heap of the cpus: kernel/sched/cpudeadline.c

    A max-heap of the earliest deadlines of the cpus in [elements[0..size)],
    with [elements[c].idx] the position of cpu [c].  An access outside the
    array is a [Fault]. *)

From S2P Require Import Prelude.

Definition IDX_INVALID : Z := -1.
Definition ENOMEM : Z := 12.

Record cpudl_item := mkItem { dl : Z; cpu : Z; idx : Z }.

(** A [struct cpumask]: one bit per cpu. *)
Abbreviation cpumask := (list bool).

Record cpudl := mkCpudl {
  size : Z;
  free_cpus : cpumask;
  elements : list cpudl_item }.

Definition parent (i : Z) : Z := Z.shiftr (i - 1) 1.
Definition left_child (i : Z) : Z := Z.shiftl i 1 + 1.
Definition right_child (i : Z) : Z := Z.shiftl i 1 + 2.

Definition dl_time_before (a b : Z) : bool := s64 (a ⊖ b) <? 0.

(** ** Accesses to [cp->elements] *)

Definition eget (cp : cpudl) (i : Z) : res cpudl_item :=
  if i <? 0 then Fault else aget (elements cp) (Z.to_nat i).

Definition eset (cp : cpudl) (i : Z) (e : cpudl_item) : res cpudl :=
  if i <? 0 then Fault
  else l ← aset (elements cp) (Z.to_nat i) e; Ok (mkCpudl (size cp) (free_cpus cp) l).

Definition set_dl (cp : cpudl) (i v : Z) : res cpudl := e ← eget cp i; eset cp i (mkItem v (cpu e) (idx e)).
Definition set_cpu (cp : cpudl) (i v : Z) : res cpudl := e ← eget cp i; eset cp i (mkItem (dl e) v (idx e)).
Definition set_idx (cp : cpudl) (i v : Z) : res cpudl := e ← eget cp i; eset cp i (mkItem (dl e) (cpu e) v).

Definition set_size (cp : cpudl) (n : Z) : cpudl := mkCpudl n (free_cpus cp) (elements cp).

(** ** Bits of a cpumask *)

Definition cpumask_test_cpu (c : Z) (m : cpumask) : res bool :=
  if c <? 0 then Fault else aget m (Z.to_nat c).
Definition cpumask_set (c : Z) (v : bool) (m : cpumask) : res cpumask :=
  if c <? 0 then Fault else aset m (Z.to_nat c) v.
Definition cpumask_set_cpu (c : Z) (m : cpumask) : res cpumask := cpumask_set c true m.
Definition cpumask_clear_cpu (c : Z) (m : cpumask) : res cpumask := cpumask_set c false m.
Definition cpumask_setall (nr : nat) : cpumask := replicate nr true.
Definition cpumask_and (a b : cpumask) : cpumask * bool :=
  let m := zip_with andb a b in (m, existsb id m).

(** The first bit that is set, the number of bits when there is none. *)
Fixpoint cpumask_first (m : cpumask) : Z :=
  match m with
  | [] => 0
  | b :: m => if b then 0 else 1 + cpumask_first m
  end.

(** ** The heap *)

Definition cpudl_exchange (cp : cpudl) (a b : Z) : res cpudl :=
  ea ← eget cp a; eb ← eget cp b;
  let cpu_a := cpu ea in
  let cpu_b := cpu eb in
  cp ← set_cpu cp a cpu_b; cp ← set_cpu cp b cpu_a;
  cp ← set_dl cp a (dl eb); cp ← set_dl cp b (dl ea);
  ea ← eget cp cpu_a; eb ← eget cp cpu_b;
  cp ← set_idx cp cpu_a (idx eb); set_idx cp cpu_b (idx ea).

(** One round of the loop of [cpudl_heapify]. *)
Definition heapify_step (s : cpudl * Z) : res (cpudl * Z + cpudl) :=
  let '(cp, i) := s in
  let l := left_child i in
  let r := right_child i in
  let largest := i in
  largest ← (if l <? size cp then
               x ← eget cp i; y ← eget cp l;
               Ok (if dl_time_before (dl x) (dl y) then l else largest)
             else Ok largest);
  largest ← (if r <? size cp then
               x ← eget cp largest; y ← eget cp r;
               Ok (if dl_time_before (dl x) (dl y) then r else largest)
             else Ok largest);
  if largest =? i then Ok (inr cp)
  else cp ← cpudl_exchange cp largest i; Ok (inl (cp, largest)).

Definition fuel (cp : cpudl) : nat := S (S (Z.to_nat (size cp))).

Definition cpudl_heapify (cp : cpudl) (i : Z) : res cpudl := loop (fuel cp) heapify_step (cp, i).

(** One round of the loops that move an element towards the root. *)
Definition sift_up_step (s : cpudl * Z) : res (cpudl * Z + cpudl * Z) :=
  let '(cp, i) := s in
  if 0 <? i then
    x ← eget cp (parent i); y ← eget cp i;
    if dl_time_before (dl x) (dl y) then
      cp ← cpudl_exchange cp i (parent i); Ok (inl (cp, parent i))
    else Ok (inr (cp, i))
  else Ok (inr (cp, i)).

Definition sift_up (cp : cpudl) (i : Z) : res (cpudl * Z) := loop (fuel cp) sift_up_step (cp, i).

Definition cpudl_change_key (cp : cpudl) (i new_dl : Z) : res cpudl :=
  e ← eget cp i;
  if dl_time_before new_dl (dl e) then
    cp ← set_dl cp i new_dl; cpudl_heapify cp i
  else
    cp ← set_dl cp i new_dl;
    '(cp, _) ← sift_up cp i; Ok cp.

Definition cpudl_maximum (cp : cpudl) : res Z := e ← eget cp 0; Ok (cpu e).

(** The best cpu, and [*later_mask] when it is not NULL. *)
Definition cpudl_find (cp : cpudl) (deadline : Z) (cpus_allowed : cpumask) (later_mask : option cpumask)
    : res (Z * option cpumask) :=
  let '(later_mask, any) :=
    match later_mask with
    | Some m => let '(m, any) := cpumask_and m (free_cpus cp) in (Some m, any)
    | None => (None, false)
    end in
  if any then Ok (cpumask_first (default [] later_mask), later_mask)
  else
    max ← cpudl_maximum cp;
    ok ← cpumask_test_cpu max cpus_allowed;
    e ← eget cp 0;
    if ok && dl_time_before deadline (dl e) then
      match later_mask with
      | Some m => m ← cpumask_set_cpu max m; Ok (max, Some m)
      | None => Ok (max, None)
      end
    else Ok (-1, later_mask).

Definition cpudl_set (cp : cpudl) (c d : Z) (is_valid : bool) : res cpudl :=
  e ← eget cp c;
  let old_idx := idx e in
  if negb is_valid then
    if old_idx =? IDX_INVALID then Ok cp
    else
      last ← eget cp (size cp - 1);
      let new_cpu := cpu last in
      cp ← set_dl cp old_idx (dl last);
      cp ← set_cpu cp old_idx new_cpu;
      let cp := set_size cp (size cp - 1) in
      cp ← set_idx cp new_cpu old_idx;
      cp ← set_idx cp c IDX_INVALID;
      '(cp, old_idx) ← sift_up cp old_idx;
      m ← cpumask_set_cpu c (free_cpus cp);
      cpudl_heapify (mkCpudl (size cp) m (elements cp)) old_idx
  else if old_idx =? IDX_INVALID then
    let cp := set_size cp (size cp + 1) in
    cp ← set_dl cp (size cp - 1) 0;
    cp ← set_cpu cp (size cp - 1) c;
    cp ← set_idx cp c (size cp - 1);
    cp ← cpudl_change_key cp (size cp - 1) d;
    m ← cpumask_clear_cpu c (free_cpus cp);
    Ok (mkCpudl (size cp) m (elements cp))
  else cpudl_change_key cp old_idx d.

(** [nr_cpu_ids] cpus, all of them possible; [mem] tells whether the two
    allocations succeed. *)
Definition cpudl_init (nr_cpu_ids : nat) (mem : bool * bool) : Z * cpudl :=
  if negb (fst mem) then (- ENOMEM, mkCpudl 0 [] [])
  else if negb (snd mem) then (- ENOMEM, mkCpudl 0 [] [])
  else (0, mkCpudl 0 (cpumask_setall nr_cpu_ids) (replicate nr_cpu_ids (mkItem 0 0 IDX_INVALID))).
