(* ===== verification/CpudlTheory.v ===== *)
(** * The deadline heap: invariant and loops

    Field accessors, the consistency of positions and cpus, the heap order
    with one displaced element, and the two loops that repair it. *)

From S2P Require Import Prelude CpudlDefs.

(** ** Field accessors *)

Definition item (cp : cpudl) (i : Z) : cpudl_item := default (mkItem 0 0 0) (elements cp !! Z.to_nat i).
Definition D (cp : cpudl) (i : Z) : Z := dl (item cp i).
Definition C (cp : cpudl) (i : Z) : Z := cpu (item cp i).
Definition I (cp : cpudl) (i : Z) : Z := idx (item cp i).
Definition nr (cp : cpudl) : Z := Z.of_nat (length (elements cp)).

(** Two heaps of the same shape. *)
Definition shape (cp cp' : cpudl) : Prop :=
  size cp' = size cp /\ free_cpus cp' = free_cpus cp /\ nr cp' = nr cp.

Lemma shape_trans a b c : shape a b -> shape b c -> shape a c.
Proof. unfold shape. intuition congruence. Qed.

Lemma eget_ok cp i : 0 <= i < nr cp -> eget cp i = Ok (item cp i).
Proof.
  unfold nr. intros Hi. unfold eget, item. rewrite (proj2 (Z.ltb_ge _ _)) by lia.
  destruct (lookup_lt_is_Some_2 (elements cp) (Z.to_nat i)) as [e He]; [lia|].
  rewrite He. cbn. by apply aget_ok.
Qed.

Lemma eset_ok cp i e :
  0 <= i < nr cp ->
  exists cp', eset cp i e = Ok cp' /\ shape cp cp' /\
    forall j, 0 <= j -> item cp' j = if j =? i then e else item cp j.
Proof.
  unfold nr. intros Hi. unfold eset. rewrite (proj2 (Z.ltb_ge _ _)) by lia. rewrite aset_ok, res_bind_ok by lia.
  eexists. split; [done|]. split; [split_and!; try done; unfold nr; cbn; by rewrite length_insert|].
  intros j Hj. unfold item. cbn. destruct (Z.eqb_spec j i) as [->|Hne].
  - rewrite list_lookup_insert_eq by lia. done.
  - rewrite list_lookup_insert_ne by lia. done.
Qed.

(** What an assignment to one field does to the three fields. *)
Definition upd (f : Z -> Z) (i v : Z) (j : Z) : Z := if j =? i then v else f j.

Definition agree (f g : Z -> Z) : Prop := forall j, 0 <= j -> f j = g j.

Lemma set_dl_ok cp i v :
  0 <= i < nr cp -> exists cp', set_dl cp i v = Ok cp' /\ shape cp cp' /\
    agree (D cp') (upd (D cp) i v) /\ agree (C cp') (C cp) /\ agree (I cp') (I cp).
Proof.
  intros Hi. unfold set_dl. rewrite eget_ok, res_bind_ok by done.
  destruct (eset_ok cp i (mkItem v (cpu (item cp i)) (idx (item cp i))) Hi) as (cp' & -> & Hs & Hit).
  exists cp'. split_and!; try done; intros j Hj; unfold D, C, I, upd; rewrite Hit by done;
    destruct (Z.eqb_spec j i) as [->|]; done.
Qed.

Lemma set_cpu_ok cp i v :
  0 <= i < nr cp -> exists cp', set_cpu cp i v = Ok cp' /\ shape cp cp' /\
    agree (D cp') (D cp) /\ agree (C cp') (upd (C cp) i v) /\ agree (I cp') (I cp).
Proof.
  intros Hi. unfold set_cpu. rewrite eget_ok, res_bind_ok by done.
  destruct (eset_ok cp i (mkItem (dl (item cp i)) v (idx (item cp i))) Hi) as (cp' & -> & Hs & Hit).
  exists cp'. split_and!; try done; intros j Hj; unfold D, C, I, upd; rewrite Hit by done;
    destruct (Z.eqb_spec j i) as [->|]; done.
Qed.

Lemma set_idx_ok cp i v :
  0 <= i < nr cp -> exists cp', set_idx cp i v = Ok cp' /\ shape cp cp' /\
    agree (D cp') (D cp) /\ agree (C cp') (C cp) /\ agree (I cp') (upd (I cp) i v).
Proof.
  intros Hi. unfold set_idx. rewrite eget_ok, res_bind_ok by done.
  destruct (eset_ok cp i (mkItem (dl (item cp i)) (cpu (item cp i)) v) Hi) as (cp' & -> & Hs & Hit).
  exists cp'. split_and!; try done; intros j Hj; unfold D, C, I, upd; rewrite Hit by done;
    destruct (Z.eqb_spec j i) as [->|]; done.
Qed.

(** ** Consistency of positions and cpus *)

Record cons (cp : cpudl) : Prop := {
  cs_size : 0 <= size cp <= nr cp;
  cs_mask : Z.of_nat (length (free_cpus cp)) = nr cp;
  cs_pos : forall i, 0 <= i < size cp -> 0 <= C cp i < nr cp /\ I cp (C cp i) = i;
  cs_cpu : forall c, 0 <= c < nr cp ->
    I cp c = IDX_INVALID \/ 0 <= I cp c < size cp /\ C cp (I cp c) = c }.

(** The deadline of a cpu, [None] when it has no deadline task. *)
Definition key (cp : cpudl) (c : Z) : option Z :=
  if I cp c =? IDX_INVALID then None else Some (D cp (I cp c)).

Definition swap (a b i : Z) : Z := if i =? a then b else if i =? b then a else i.

Lemma exchange_spec cp a b :
  cons cp -> 0 <= a < size cp -> 0 <= b < size cp -> a <> b ->
  exists cp', cpudl_exchange cp a b = Ok cp' /\ shape cp cp' /\
    agree (D cp') (fun i => D cp (swap a b i)) /\ agree (C cp') (fun i => C cp (swap a b i)) /\
    agree (I cp') (upd (upd (I cp) (C cp a) b) (C cp b) a).
Proof.
  intros Hc Ha Hb Hab. destruct (cs_pos _ Hc a Ha) as [HCa HIa]. destruct (cs_pos _ Hc b Hb) as [HCb HIb].
  pose proof (cs_size _ Hc). unfold cpudl_exchange.
  rewrite (eget_ok cp a), (eget_ok cp b), !res_bind_ok by lia.
  change (cpu (item cp a)) with (C cp a). change (cpu (item cp b)) with (C cp b).
  change (dl (item cp a)) with (D cp a). change (dl (item cp b)) with (D cp b).
  destruct (set_cpu_ok cp a (C cp b)) as (c1 & -> & (S1 & F1 & N1) & D1 & C1 & I1); [lia|]. rewrite res_bind_ok.
  destruct (set_cpu_ok c1 b (C cp a)) as (c2 & -> & (S2 & F2 & N2) & D2 & C2 & I2); [lia|]. rewrite res_bind_ok.
  destruct (set_dl_ok c2 a (D cp b)) as (c3 & -> & (S3 & F3 & N3) & D3 & C3 & I3); [lia|]. rewrite res_bind_ok.
  destruct (set_dl_ok c3 b (D cp a)) as (c4 & -> & (S4 & F4 & N4) & D4 & C4 & I4); [lia|]. rewrite res_bind_ok.
  rewrite (eget_ok c4 (C cp a)), (eget_ok c4 (C cp b)), !res_bind_ok by lia.
  change (idx (item c4 (C cp a))) with (I c4 (C cp a)). change (idx (item c4 (C cp b))) with (I c4 (C cp b)).
  destruct (set_idx_ok c4 (C cp a) (I c4 (C cp b))) as (c5 & -> & (S5 & F5 & N5) & D5 & C5 & I5); [lia|]. rewrite res_bind_ok.
  destruct (set_idx_ok c5 (C cp b) (I c4 (C cp a))) as (c6 & -> & (S6 & F6 & N6) & D6 & C6 & I6); [lia|].
  assert (HI : agree (I c4) (I cp)) by (intros j Hj; by rewrite I4, I3, I2, I1).
  exists c6. split; [done|]. split; [unfold shape; split_and!; congruence|]. split_and!; intros j Hj.
  - rewrite D6, D5, D4 by done. unfold upd, swap.
    destruct (Z.eqb_spec j b), (Z.eqb_spec j a); subst; try lia; try done; rewrite D3 by done; unfold upd;
      rewrite ?Z.eqb_refl, ?(proj2 (Z.eqb_neq j a)) by done; try done; by rewrite D2, D1.
  - rewrite C6, C5, C4, C3, C2 by done. unfold upd, swap.
    destruct (Z.eqb_spec j b), (Z.eqb_spec j a); subst; try lia; try done; rewrite C1 by done; unfold upd;
      rewrite ?Z.eqb_refl, ?(proj2 (Z.eqb_neq j a)) by done; done.
  - rewrite I6 by done. unfold upd at 1 2. rewrite (HI (C cp a)), HIa by lia.
    destruct (Z.eqb_spec j (C cp b)); [done|]. rewrite I5 by done. unfold upd.
    destruct (Z.eqb_spec j (C cp a)); [by rewrite (HI (C cp b)) by lia|by apply HI].
Qed.

(** ** Exchanges keep the deadlines of the cpus *)

(** Deadlines are below [2 ^ 63], where [dl_time_before] is the order. *)
Definition range (cp : cpudl) : Prop := forall j, 0 <= j < size cp -> 0 <= D cp j < 2 ^ 63.

Lemma before_lt a b : 0 <= a < 2 ^ 63 -> 0 <= b < 2 ^ 63 -> dl_time_before a b = (a <? b).
Proof.
  intros Ha Hb. unfold dl_time_before, s64, sub64, u64.
  destruct (Z.ltb_spec a b).
  - assert (E : (a - b) mod 2 ^ 64 = a - b + 2 ^ 64).
    { rewrite <- (Z_mod_plus_full _ 1), Z.mod_small; lia. }
    rewrite E. rewrite <- (Z_mod_plus_full _ (-1)), Z.mod_small; lia.
  - rewrite (Z.mod_small (a - b)) by lia. rewrite Z.mod_small; lia.
Qed.

Record same (cp cp' : cpudl) : Prop := {
  sm_shape : shape cp cp';
  sm_cons : cons cp';
  sm_range : range cp';
  sm_key : forall c, 0 <= c < nr cp -> key cp' c = key cp c }.

Lemma same_cp_refl cp : cons cp -> range cp -> same cp cp.
Proof. by split. Qed.

Lemma same_cp_trans a b c : same a b -> same b c -> same a c.
Proof.
  intros [H1 _ _ K1] [H2 Hc Hr K2]. split; try done; [by eapply shape_trans|].
  intros x Hx. destruct H1 as (_ & _ & Hn). rewrite K2, K1; lia || done.
Qed.

Lemma C_inj cp i j : cons cp -> 0 <= i < size cp -> 0 <= j < size cp -> C cp i = C cp j -> i = j.
Proof. intros Hc Hi Hj E. rewrite <- (proj2 (cs_pos _ Hc i Hi)), E. by apply cs_pos. Qed.

Lemma swap_range a b i n : 0 <= a < n -> 0 <= b < n -> 0 <= i < n -> 0 <= swap a b i < n.
Proof. intros. unfold swap. repeat case Z.eqb_spec; lia. Qed.

Lemma exchange_same cp a b :
  cons cp -> range cp -> 0 <= a < size cp -> 0 <= b < size cp -> a <> b ->
  exists cp', cpudl_exchange cp a b = Ok cp' /\ same cp cp' /\ agree (D cp') (fun i => D cp (swap a b i)).
Proof.
  intros Hc Hr Ha Hb Hab. destruct (exchange_spec cp a b Hc Ha Hb Hab) as (cp' & Hrun & Hs & HD & HC & HI).
  exists cp'. split; [done|]. split; [|done]. destruct Hs as (Hsz & Hf & Hn).
  destruct (cs_pos _ Hc a Ha) as [HCa HIa]. destruct (cs_pos _ Hc b Hb) as [HCb HIb].
  assert (HCab : C cp a <> C cp b) by (intros E; apply Hab; by apply (C_inj cp)).
  split; [done| | |].
  - split; rewrite ?Hsz, ?Hf, ?Hn; try apply Hc.
    + intros i Hi. rewrite HC by lia. pose proof (swap_range a b i (size cp) Ha Hb Hi) as Hsw.
      destruct (cs_pos _ Hc _ Hsw) as [HCs HIs]. split; [done|]. rewrite HI by lia. unfold upd.
      destruct (Z.eqb_spec (C cp (swap a b i)) (C cp b)) as [E|E1].
      { apply C_inj in E; try done. revert E. unfold swap. repeat case Z.eqb_spec; lia. }
      destruct (Z.eqb_spec (C cp (swap a b i)) (C cp a)) as [E|E2].
      { apply C_inj in E; try done. revert E. unfold swap. repeat case Z.eqb_spec; lia. }
      rewrite HIs. revert E1 E2. unfold swap. repeat case Z.eqb_spec; intros; subst; done.
    + intros c Hcr. rewrite HI by lia. unfold upd. destruct (Z.eqb_spec c (C cp b)) as [->|E1].
      { right. split; [lia|]. rewrite HC by lia. unfold swap. by rewrite Z.eqb_refl. }
      destruct (Z.eqb_spec c (C cp a)) as [->|E2].
      { right. split; [lia|]. rewrite HC by lia. unfold swap. rewrite Z.eqb_refl. case Z.eqb_spec; [lia|done]. }
      destruct (cs_cpu _ Hc c Hcr) as [|[Hir HCi]]; [by left|]. right. split; [done|]. rewrite HC by lia.
      unfold swap. repeat case Z.eqb_spec; intros; congruence.
  - intros j Hj. rewrite Hsz in Hj. rewrite HD by lia. apply Hr. by apply swap_range.
  - intros c Hcr. unfold key. rewrite HI by lia. unfold upd. unfold IDX_INVALID in *.
    destruct (Z.eqb_spec c (C cp b)) as [->|E1].
    { rewrite HIb, HD by lia. unfold swap. rewrite Z.eqb_refl. repeat case Z.eqb_spec; lia || done. }
    destruct (Z.eqb_spec c (C cp a)) as [->|E2].
    { rewrite HIa, HD by lia. unfold swap. rewrite Z.eqb_refl. repeat case Z.eqb_spec; intros; lia || done. }
    destruct (cs_cpu _ Hc c Hcr) as [->|[Hir HCi]]; [done|]. case Z.eqb_spec; [lia|]. intros _. rewrite HD by lia.
    unfold swap. repeat case Z.eqb_spec; intros; congruence.
Qed.

(** ** The heap order around a displaced element *)

Lemma parent_spec j : 0 < j -> 0 <= parent j < j /\ (j = 2 * parent j + 1 \/ j = 2 * parent j + 2).
Proof.
  intros Hj. unfold parent. rewrite Z.shiftr_div_pow2 by lia. change (2 ^ 1) with 2.
  pose proof (Z.div_mod (j - 1) 2). pose proof (Z.mod_pos_bound (j - 1) 2). lia.
Qed.

Definition heap (cp : cpudl) : Prop := forall j, 0 < j < size cp -> D cp j <= D cp (parent j).

(** Only the element at [i] may be out of place. *)
Definition near (cp : cpudl) (i : Z) : Prop :=
  (forall j, 0 < j < size cp -> j <> i -> parent j <> i -> D cp j <= D cp (parent j)) /\
  (forall j, 0 < j < size cp -> parent j = i -> 0 < i -> D cp j <= D cp (parent i)).

Definition below_parent (cp : cpudl) (i : Z) : Prop := 0 < i -> D cp i <= D cp (parent i).
Definition above_children (cp : cpudl) (i : Z) : Prop :=
  forall j, 0 < j < size cp -> parent j = i -> D cp j <= D cp i.

Lemma near_heap cp i : near cp i -> below_parent cp i -> above_children cp i -> heap cp.
Proof.
  intros [H1 _] Hp Hc j Hj. destruct (decide (j = i)) as [->|]; [apply Hp; lia|].
  destruct (decide (parent j = i)) as [<-|]; [by apply Hc|by apply H1].
Qed.

Lemma heap_near cp i : heap cp -> near cp i.
Proof.
  intros Hh. split; intros j Hj; intros; [by apply Hh|]. subst i.
  pose proof (parent_spec j). etransitivity; [by apply Hh|]. apply Hh. lia.
Qed.

(** Reads [D] of a heap after an exchange. *)
Lemma D_swap cp cp' a b j :
  agree (D cp') (fun i => D cp (swap a b i)) -> 0 <= j ->
  D cp' j = if j =? a then D cp b else if j =? b then D cp a else D cp j.
Proof. intros HD Hj. rewrite HD by done. unfold swap. by repeat case Z.eqb_spec. Qed.

(** Exchanging a displaced element with its smaller parent. *)
Lemma near_up cp cp' i (p := parent i) :
  near cp i -> 0 < i < size cp -> D cp p < D cp i -> size cp' = size cp ->
  agree (D cp') (fun j => D cp (swap i p j)) ->
  near cp' p /\ (above_children cp i -> above_children cp' p).
Proof.
  intros [H1 H2] Hi Hlt Hsz HD. pose proof (parent_spec i ltac:(lia)) as [Hp _]. fold p in Hp.
  assert (HDj : forall j, 0 <= j -> D cp' j = if j =? i then D cp p else if j =? p then D cp i else D cp j).
  { intros. by apply D_swap. }
  unfold near, above_children. rewrite Hsz. split; [split|].
  - intros j Hj Hne Hpj. pose proof (parent_spec j ltac:(lia)) as [Hq _]. rewrite !HDj by lia.
    destruct (Z.eqb_spec j i) as [->|]; [done|]. rewrite (proj2 (Z.eqb_neq j p)) by done.
    destruct (Z.eqb_spec (parent j) i) as [E|]; [by apply H2; try lia|].
    rewrite (proj2 (Z.eqb_neq (parent j) p)) by done. by apply H1.
  - intros j Hj Hpj Hp0. pose proof (parent_spec p Hp0) as [Hq _]. pose proof (parent_spec j ltac:(lia)).
    rewrite !HDj by lia. rewrite (proj2 (Z.eqb_neq (parent p) i)), (proj2 (Z.eqb_neq (parent p) p)) by lia.
    assert (D cp p <= D cp (parent p)) by (apply H1; lia).
    destruct (Z.eqb_spec j i); [done|]. rewrite (proj2 (Z.eqb_neq j p)) by lia.
    etransitivity; [apply H1; lia|]. by rewrite Hpj.
  - intros Hac j Hj Hpj. pose proof (parent_spec j ltac:(lia)). rewrite !HDj by lia.
    rewrite (proj2 (Z.eqb_neq p i)), Z.eqb_refl by lia. destruct (Z.eqb_spec j i); [lia|].
    rewrite (proj2 (Z.eqb_neq j p)) by lia. assert (D cp j <= D cp (parent j)) by (apply H1; lia).
    rewrite Hpj in *. lia.
Qed.

Lemma sift_up_spec cp i :
  cons cp -> range cp -> near cp i -> 0 <= i < size cp ->
  exists cp' i', sift_up cp i = Ok (cp', i') /\ same cp cp' /\ near cp' i' /\ 0 <= i' < size cp /\
    below_parent cp' i' /\ (above_children cp i -> above_children cp' i').
Proof.
  intros Hc Hr Hn Hi. unfold sift_up.
  destruct (loop_total sift_up_step
    (fun s => same cp s.1 /\ near s.1 s.2 /\ 0 <= s.2 < size cp /\ (above_children cp i -> above_children s.1 s.2))
    (fun s => same cp s.1 /\ near s.1 s.2 /\ 0 <= s.2 < size cp /\ below_parent s.1 s.2 /\
       (above_children cp i -> above_children s.1 s.2))
    (fun s => Z.to_nat s.2)) with (fuel := fuel cp) (s := (cp, i)) as ([cp' i'] & Hrun & HQ).
  - intros [cp1 i1] (Hs & Hn1 & Hi1 & Ha1). cbn in *. destruct Hs as [(Hsz & Hf & Hnr) Hc1 Hr1 Hk].
    assert (Hs : same cp cp1) by done. pose proof (cs_size _ Hc1).
    destruct (Z.ltb_spec 0 i1) as [Hpos|Hz].
    2: { right. eexists. split; [done|]. do 3 (split; [done|]). split; [|done]. intros ?. cbn in *. lia. }
    destruct (parent_spec i1 Hpos) as [Hp _].
    rewrite !eget_ok, !res_bind_ok by lia. change (dl (item ?c ?j)) with (D c j).
    rewrite before_lt by (apply Hr1; lia). destruct (Z.ltb_spec (D cp1 (parent i1)) (D cp1 i1)) as [Hlt|Hge].
    + left. destruct (exchange_same cp1 i1 (parent i1)) as (cp2 & -> & Hs2 & HD); try done; try lia.
      destruct (near_up cp1 cp2 i1) as [Hn2 Ha2]; try done; try lia; [apply Hs2|].
      eexists. split; [done|]. cbn. split; [|lia]. split; [by eapply same_cp_trans|]. split; [done|].
      split; [lia|]. intros Ha. by apply Ha2, Ha1.
    + right. eexists. split; [done|]. do 3 (split; [done|]). split; [by intros _|done].
  - cbn. split; [by apply same_cp_refl|]. done.
  - unfold fuel. cbn. lia.
  - exists cp', i'. done.
Qed.

(** Exchanging a displaced element with its largest child. *)
Lemma near_down cp cp' i c :
  near cp i -> 0 < c < size cp -> parent c = i -> D cp i < D cp c ->
  (forall j, 0 < j < size cp -> parent j = i -> D cp j <= D cp c) -> size cp' = size cp ->
  agree (D cp') (fun j => D cp (swap c i j)) ->
  near cp' c /\ below_parent cp' c.
Proof.
  intros [H1 H2] Hc Hpc Hlt Hmax Hsz HD. pose proof (parent_spec c ltac:(lia)) as [Hi _]. rewrite Hpc in Hi.
  assert (HDj : forall j, 0 <= j -> D cp' j = if j =? c then D cp i else if j =? i then D cp c else D cp j).
  { intros. by apply D_swap. }
  unfold near, below_parent. rewrite Hsz. split; [split|].
  - intros j Hj Hne Hpj. pose proof (parent_spec j ltac:(lia)) as [Hq _]. rewrite !HDj by lia.
    rewrite (proj2 (Z.eqb_neq j c)), (proj2 (Z.eqb_neq (parent j) c)) by done.
    destruct (Z.eqb_spec j i) as [->|].
    + rewrite (proj2 (Z.eqb_neq (parent i) i)) by lia. apply H2; lia || done.
    + destruct (Z.eqb_spec (parent j) i); [by apply Hmax|by apply H1].
  - intros j Hj Hpj _. pose proof (parent_spec j ltac:(lia)). rewrite !HDj, Hpc by lia.
    rewrite (proj2 (Z.eqb_neq j c)), (proj2 (Z.eqb_neq j i)), (proj2 (Z.eqb_neq i c)), Z.eqb_refl by lia.
    rewrite <- Hpj. apply H1; lia.
  - intros _. rewrite !HDj, Hpc by lia. rewrite Z.eqb_refl, (proj2 (Z.eqb_neq i c)), Z.eqb_refl by lia. lia.
Qed.

Lemma children_spec i :
  0 <= i -> parent (left_child i) = i /\ parent (right_child i) = i /\ i < left_child i < right_child i /\
  (forall j, 0 < j -> parent j = i -> j = left_child i \/ j = right_child i).
Proof.
  intros Hi. unfold left_child, right_child. rewrite Z.shiftl_mul_pow2 by lia. change (2 ^ 1) with 2.
  split_and!; [| |lia|lia|intros j Hj Hp; pose proof (parent_spec j Hj); lia].
  - pose proof (parent_spec (i * 2 + 1)). lia.
  - pose proof (parent_spec (i * 2 + 2)). lia.
Qed.

(** The choice of [largest]. *)
Lemma heapify_step_cases cp i :
  cons cp -> range cp -> 0 <= i < size cp ->
  (heapify_step (cp, i) = Ok (inr cp) /\ above_children cp i) \/
  (exists c, 0 < c < size cp /\ parent c = i /\ D cp i < D cp c /\
     (forall j, 0 < j < size cp -> parent j = i -> D cp j <= D cp c) /\
     heapify_step (cp, i) = (cp' ← cpudl_exchange cp c i; Ok (inl (cp', c)))).
Proof.
  intros Hc Hr Hi. pose proof (cs_size _ Hc). destruct (children_spec i) as (Hl & Hrc & Hord & Hkids); [lia|].
  unfold heapify_step. set (l := left_child i) in *. set (r := right_child i) in *. clearbody l r.
  assert (Hget : forall j, 0 <= j < size cp -> eget cp j = Ok (item cp j)) by (intros; apply eget_ok; lia).
  assert (Hcmp : forall a b, 0 <= a < size cp -> 0 <= b < size cp ->
    dl_time_before (dl (item cp a)) (dl (item cp b)) = (D cp a <? D cp b)).
  { intros a b Ha Hb. apply before_lt; by apply Hr. }
  destruct (Z.ltb_spec l (size cp)) as [Hls|Hls].
  - rewrite (Hget i), (Hget l), !res_bind_ok by lia. rewrite Hcmp by lia.
    assert (Hm : forall m, m = (if D cp i <? D cp l then l else i) -> 0 <= m < size cp /\ D cp i <= D cp m /\ D cp l <= D cp m).
    { intros m ->. case Z.ltb_spec; lia. }
    remember (if D cp i <? D cp l then l else i) as m eqn:Em. destruct (Hm m eq_refl) as (Hmr & Him & Hlm). clear Hm.
    assert (Hmc : m = i /\ D cp l <= D cp i \/ m = l /\ D cp i < D cp l) by (subst m; case Z.ltb_spec; lia).
    clear Em. destruct (Z.ltb_spec r (size cp)) as [Hrs|Hrs].
    + rewrite (Hget m), (Hget r), !res_bind_ok by lia. rewrite Hcmp by lia.
      destruct (Z.ltb_spec (D cp m) (D cp r)) as [Hlt|Hge].
      * rewrite (proj2 (Z.eqb_neq r i)) by lia. right. exists r. split_and!; try done; try lia.
        intros j Hj Hp. destruct (Hkids j) as [->| ->]; lia.
      * destruct (Z.eqb_spec m i) as [E|E].
        -- left. split; [done|]. intros j Hj Hp. subst m. destruct (Hkids j) as [->| ->]; lia.
        -- right. exists m. destruct Hmc as [[? _]|[-> Hlt]]; [done|]. split_and!; try done; try lia.
           intros j Hj Hp. destruct (Hkids j) as [->| ->]; lia.
    + rewrite res_bind_ok. destruct (Z.eqb_spec m i) as [E|E].
      * left. split; [done|]. intros j Hj Hp. subst m. destruct (Hkids j) as [->| ->]; lia.
      * right. exists m. destruct Hmc as [[? _]|[-> Hlt]]; [done|]. split_and!; try done; try lia.
        intros j Hj Hp. destruct (Hkids j) as [->| ->]; lia.
  - rewrite (proj2 (Z.ltb_ge r (size cp))), !res_bind_ok, Z.eqb_refl by lia. left. split; [done|].
    intros j Hj Hp. destruct (Hkids j) as [->| ->]; lia.
Qed.

Lemma heapify_spec cp i :
  cons cp -> range cp -> near cp i -> below_parent cp i -> 0 <= i < size cp ->
  exists cp', cpudl_heapify cp i = Ok cp' /\ same cp cp' /\ heap cp'.
Proof.
  intros Hc Hr Hn Hb Hi. unfold cpudl_heapify.
  destruct (loop_total heapify_step
    (fun s => same cp s.1 /\ near s.1 s.2 /\ below_parent s.1 s.2 /\ 0 <= s.2 < size cp)
    (fun cp' => same cp cp' /\ heap cp')
    (fun s => Z.to_nat (size cp - s.2))) with (fuel := fuel cp) (s := (cp, i)) as (cp' & Hrun & HQ).
  - intros [cp1 i1] (Hs & Hn1 & Hb1 & Hi1). cbn [fst snd] in *.
    destruct (sm_shape _ _ Hs) as (Hsz & _ & _). pose proof (sm_cons _ _ Hs). pose proof (sm_range _ _ Hs).
    destruct (heapify_step_cases cp1 i1) as [[-> Ha]|(c & Hc1 & Hpc & Hlt & Hmax & ->)]; try done; try lia.
    + right. exists cp1. split; [done|]. split; [done|]. by eapply near_heap.
    + left. destruct (parent_spec c) as [Hp _]; [lia|].
      destruct (exchange_same cp1 c i1) as (cp2 & -> & Hs2 & HD); try done; try lia. rewrite res_bind_ok.
      destruct (near_down cp1 cp2 i1 c) as [Hn2 Hb2]; try done; [apply Hs2|].
      eexists. split; [done|]. cbn. split; [|lia]. split; [by eapply same_cp_trans|]. split; [done|]. split; [done|lia].
  - cbn. split; [by apply same_cp_refl|]. done.
  - unfold fuel. cbn. lia.
  - exists cp'. done.
Qed.
