(* ===== verification/Cpudl.v ===== *)
(** * Correctness of the deadline heap

    [cpudl_set] implements updates of the map from cpus to their earliest
    deadlines, and [cpudl_find] reads its maximum. *)
From S2P Require Import Prelude CpudlDefs CpudlTheory.

(** The free mask: the cpus without a deadline. *)
Definition mask_ok (cp : cpudl) : Prop :=
  forall c, 0 <= c < nr cp ->
    free_cpus cp !! Z.to_nat c = Some (match key cp c with None => true | Some _ => false end).

Record heap_ok (cp : cpudl) : Prop := {
  co_cons : cons cp;
  co_range : range cp;
  co_heap : heap cp }.

(** The invariant of the component. *)
Definition cpudl_ok (cp : cpudl) : Prop := heap_ok cp /\ mask_ok cp.

Lemma key_pos cp i : cons cp -> 0 <= i < size cp -> key cp (C cp i) = Some (D cp i).
Proof.
  intros Hc Hi. unfold key. rewrite (proj2 (cs_pos _ Hc i Hi)). unfold IDX_INVALID.
  by rewrite (proj2 (Z.eqb_neq i (-1))) by lia.
Qed.

Lemma key_None cp c : key cp c = None <-> I cp c = IDX_INVALID.
Proof. unfold key. case Z.eqb_spec; intros; split; done. Qed.

(** ** Changing a key in place *)

Lemma set_dl_near cp i v cp1 :
  heap_ok cp -> 0 <= i < size cp -> 0 <= v < 2 ^ 63 -> shape cp cp1 ->
  agree (D cp1) (upd (D cp) i v) -> agree (C cp1) (C cp) -> agree (I cp1) (I cp) ->
  cons cp1 /\ range cp1 /\ near cp1 i /\
  (forall c, 0 <= c < nr cp -> key cp1 c = if c =? C cp i then Some v else key cp c).
Proof.
  intros [Hc Hr Hh] Hi Hv (Hsz & Hf & Hn) HD HC HI. split; [|split; [|split]].
  - split; rewrite ?Hsz, ?Hf, ?Hn; try apply Hc.
    + intros j Hj. rewrite HC by lia. destruct (cs_pos _ Hc j Hj). rewrite HI by lia. done.
    + intros c Hcr. rewrite HI by lia. destruct (cs_cpu _ Hc c Hcr) as [|[? ?]]; [by left|].
      right. by rewrite HC by lia.
  - intros j Hj. rewrite HD by lia. unfold upd. case Z.eqb_spec; [done|]. intros _. apply Hr. lia.
  - destruct (heap_near cp i Hh) as [H1 H2]. unfold near. rewrite Hsz. split; intros j Hj.
    + intros Hne Hp. pose proof (parent_spec j ltac:(lia)). rewrite !HD by lia. unfold upd.
      rewrite !(proj2 (Z.eqb_neq _ i)) by done. by apply H1.
    + intros Hp Hpos. pose proof (parent_spec j ltac:(lia)). pose proof (parent_spec i Hpos).
      rewrite !HD by lia. unfold upd. rewrite !(proj2 (Z.eqb_neq _ i)) by lia. by apply H2.
  - intros c Hcr. unfold key. rewrite HI by lia. destruct (cs_cpu _ Hc c Hcr) as [E|[Hir HCi]].
    + rewrite E, Z.eqb_refl. case Z.eqb_spec; [|done]. intros ->.
      destruct (cs_pos _ Hc i Hi) as [_ Hx]. rewrite Hx in E. unfold IDX_INVALID in E. lia.
    + unfold IDX_INVALID. rewrite (proj2 (Z.eqb_neq _ (-1))) by lia. rewrite HD by lia. unfold upd.
      destruct (Z.eqb_spec (I cp c) i) as [E|E], (Z.eqb_spec c (C cp i)) as [E'|E']; try done; try congruence.
      subst c. by destruct E; apply cs_pos.
Qed.

(** The heap after a change, up to the mask. *)
Definition updated (cp cp' : cpudl) (c : Z) (v : option Z) : Prop :=
  shape cp cp' /\ cons cp' /\ range cp' /\ heap cp' /\
  forall x, 0 <= x < nr cp -> key cp' x = if x =? c then v else key cp x.

Lemma updated_same cp cp1 cp2 c v :
  shape cp cp1 -> (forall x, 0 <= x < nr cp -> key cp1 x = if x =? c then v else key cp x) ->
  same cp1 cp2 -> heap cp2 -> updated cp cp2 c v.
Proof.
  intros H1 Hk1 [H2 Hc Hr Hk2] Hh. split; [by eapply shape_trans|]. do 3 (split; [done|]).
  intros x Hx. rewrite Hk2; [by apply Hk1|]. destruct H1 as (_ & _ & ->). done.
Qed.

Lemma change_key_spec cp i v :
  heap_ok cp -> 0 <= i < size cp -> 0 <= v < 2 ^ 63 ->
  exists cp', cpudl_change_key cp i v = Ok cp' /\ updated cp cp' (C cp i) (Some v).
Proof.
  intros Hok Hi Hv. pose proof (cs_size _ (co_cons _ Hok)). unfold cpudl_change_key.
  rewrite eget_ok, res_bind_ok by lia. change (dl (item cp i)) with (D cp i).
  rewrite before_lt by (done || by apply Hok).
  destruct (set_dl_ok cp i v) as (cp1 & -> & Hs & HD & HC & HI); [lia|]. rewrite !res_bind_ok.
  destruct (set_dl_near cp i v cp1) as (Hc1 & Hr1 & Hn1 & Hk1); try done.
  assert (Hsz : size cp1 = size cp) by apply Hs.
  assert (HDi : D cp1 i = v) by (rewrite HD by lia; unfold upd; by rewrite Z.eqb_refl).
  assert (HDj : forall j, 0 <= j -> j <> i -> D cp1 j = D cp j).
  { intros j Hj Hne. rewrite HD by done. unfold upd. by rewrite (proj2 (Z.eqb_neq j i)). }
  destruct (Z.ltb_spec v (D cp i)) as [Hlt|Hge].
  - destruct (heapify_spec cp1 i) as (cp2 & -> & Hs2 & Hh2); try done; [|lia|].
    + intros Hpos. destruct (parent_spec i Hpos). rewrite HDi, HDj by lia.
      pose proof (co_heap _ Hok i ltac:(lia)). lia.
    + exists cp2. split; [done|]. by eapply updated_same.
  - destruct (sift_up_spec cp1 i) as (cp2 & i2 & -> & Hs2 & Hn2 & Hi2 & Hb2 & Ha2); try done; [lia|].
    rewrite res_bind_ok. exists cp2. split; [done|]. eapply updated_same; [done|done|done|].
    apply (near_heap _ i2); [done|done|]. apply Ha2. intros j Hj Hp.
    pose proof (parent_spec j ltac:(lia)). rewrite HDi, HDj by lia.
    pose proof (co_heap _ Hok j ltac:(lia)). rewrite Hp in *. lia.
Qed.

(** ** Insertion *)

(** There is room for a cpu that is not in the heap. *)
Lemma size_lt cp c : cons cp -> 0 <= c < nr cp -> I cp c = IDX_INVALID -> size cp < nr cp.
Proof.
  intros Hc Hcr HI. pose proof (cs_size _ Hc).
  assert (Hsub : c :: (C cp <$> seqZ 0 (size cp)) ⊆+ seqZ 0 (nr cp)).
  { apply NoDup_submseteq.
    - apply NoDup_cons. split.
      + intros (i & -> & Hi%elem_of_seqZ)%list_elem_of_fmap. destruct (cs_pos _ Hc i) as [_ E]; [lia|].
        rewrite E in HI. unfold IDX_INVALID in HI. lia.
      + apply NoDup_fmap_2_strong; [|apply NoDup_seqZ]. intros x y Hx%elem_of_seqZ Hy%elem_of_seqZ E.
        apply (C_inj cp); try done; lia.
    - intros x. rewrite elem_of_cons, elem_of_seqZ. intros [->|(i & -> & Hi%elem_of_seqZ)%list_elem_of_fmap]; [lia|].
      destruct (cs_pos _ Hc i); lia. }
  apply submseteq_length in Hsub. cbn in Hsub. rewrite length_fmap, !length_seqZ in Hsub. lia.
Qed.

(** The state [cpudl_set] reaches before it changes the key of a new cpu. *)
Lemma insert_zero cp c cp3 :
  heap_ok cp -> 0 <= c < nr cp -> I cp c = IDX_INVALID ->
  size cp3 = size cp + 1 -> free_cpus cp3 = free_cpus cp -> nr cp3 = nr cp ->
  agree (D cp3) (upd (D cp) (size cp) 0) -> agree (C cp3) (upd (C cp) (size cp) c) ->
  agree (I cp3) (upd (I cp) c (size cp)) ->
  heap_ok cp3 /\ C cp3 (size cp) = c /\
  forall x, 0 <= x < nr cp -> key cp3 x = if x =? c then Some 0 else key cp x.
Proof.
  intros [Hc Hr Hh] Hcr Hinv Hsz Hf Hn HD HC HI. pose proof (size_lt cp c Hc Hcr Hinv). pose proof (cs_size _ Hc).
  assert (HCs : C cp3 (size cp) = c) by (rewrite HC by lia; unfold upd; by rewrite Z.eqb_refl).
  assert (HIlt : forall i, 0 <= i < size cp -> C cp i <> c).
  { intros i Hi E. destruct (cs_pos _ Hc i Hi) as [_ E']. rewrite E, Hinv in E'. unfold IDX_INVALID in E'. lia. }
  split; [|split; [done|]]. 1: split.
  - split; rewrite ?Hsz, ?Hf, ?Hn; try apply Hc; [lia| |].
    + intros i Hi. assert (HCi : C cp3 i = upd (C cp) (size cp) c i) by (apply HC; lia). rewrite HCi. clear HCi.
      unfold upd. destruct (Z.eqb_spec i (size cp)) as [->|Hne].
      * split; [done|]. rewrite HI by lia. unfold upd. by rewrite Z.eqb_refl.
      * destruct (cs_pos _ Hc i) as [? E]; [lia|]. split; [done|]. rewrite HI by lia. unfold upd.
        by rewrite (proj2 (Z.eqb_neq _ c)) by (apply HIlt; lia).
    + intros x Hx. rewrite HI by lia. unfold upd. destruct (Z.eqb_spec x c) as [->|Hne].
      { right. split; [lia|done]. }
      destruct (cs_cpu _ Hc x Hx) as [|[Hir HCi]]; [by left|]. right. split; [lia|]. rewrite HC by lia.
      unfold upd. by rewrite (proj2 (Z.eqb_neq _ (size cp))) by lia.
  - intros j Hj. rewrite HD by lia. unfold upd. case Z.eqb_spec; [lia|]. intros. apply Hr. lia.
  - intros j Hj. pose proof (parent_spec j ltac:(lia)). rewrite !HD by lia. unfold upd.
    rewrite (proj2 (Z.eqb_neq (parent j) (size cp))) by lia. destruct (Z.eqb_spec j (size cp)).
    + apply Hr. lia.
    + apply Hh. lia.
  - intros x Hx. unfold key. rewrite HI by lia. unfold upd. destruct (Z.eqb_spec x c) as [->|Hne].
    { unfold IDX_INVALID. rewrite (proj2 (Z.eqb_neq _ (-1))) by lia. rewrite HD by lia. unfold upd. by rewrite Z.eqb_refl. }
    destruct (cs_cpu _ Hc x Hx) as [->|[Hir HCi]]; [done|]. rewrite HD by lia. unfold upd.
    by rewrite (proj2 (Z.eqb_neq (I cp x) (size cp))) by lia.
Qed.

(** ** Removal *)

(** The state after the last element has replaced the removed one. *)
Lemma remove_replaced cp c cp1 (o := I cp c) (q := size cp - 1) :
  heap_ok cp -> 0 <= c < nr cp -> 0 <= o < size cp ->
  size cp1 = q -> free_cpus cp1 = free_cpus cp -> nr cp1 = nr cp ->
  agree (D cp1) (upd (D cp) o (D cp q)) -> agree (C cp1) (upd (C cp) o (C cp q)) ->
  agree (I cp1) (upd (upd (I cp) (C cp q) o) c IDX_INVALID) ->
  cons cp1 /\ (forall x, 0 <= x < nr cp -> key cp1 x = if x =? c then None else key cp x).
Proof.
  intros [Hc Hr Hh] Hcr Ho Hsz Hf Hn HD HC HI. pose proof (cs_size _ Hc).
  assert (HCo : C cp o = c).
  { destruct (cs_cpu _ Hc c Hcr) as [E|[_ E]]; [|done]. unfold o in Ho. rewrite E in Ho. unfold IDX_INVALID in Ho. lia. }
  destruct (cs_pos _ Hc q) as [HCq HIq]; [lia|]. assert (Hinj := fun i j => C_inj cp i j Hc).
  assert (HI' : forall x, 0 <= x < nr cp -> I cp1 x = if x =? c then -1 else if x =? C cp q then o else I cp x).
  { intros x Hx. by rewrite HI by lia. }
  assert (HC' : forall i, 0 <= i -> C cp1 i = if i =? o then C cp q else C cp i) by (intros i Hi; by rewrite HC).
  clearbody o. split.
  - split; rewrite ?Hsz, ?Hf, ?Hn; try apply Hc; [lia| |].
    + intros i Hi. rewrite HC' by lia. destruct (Z.eqb_spec i o) as [->|Hne].
      * split; [done|]. rewrite HI' by done. rewrite Z.eqb_refl. case Z.eqb_spec; [|done].
        intros E. rewrite <- HCo in E. apply Hinj in E; lia.
      * destruct (cs_pos _ Hc i) as [HCi HIi]; [lia|]. split; [done|]. rewrite HI' by done.
        repeat case Z.eqb_spec; intros; try done; exfalso; rewrite <- ?HCo in *;
          match goal with E : C cp i = C cp _ |- _ => apply Hinj in E; lia end.
    + intros x Hx. rewrite HI' by done. destruct (Z.eqb_spec x c); [by left|].
      destruct (Z.eqb_spec x (C cp q)) as [->|Hne].
      * right. assert (o <> q) by (intros ->; congruence). split; [lia|]. rewrite HC' by lia. by rewrite Z.eqb_refl.
      * destruct (cs_cpu _ Hc x Hx) as [|[Hir HCi]]; [by left|]. right.
        assert (I cp x <> q) by (intros E; rewrite E in HCi; congruence).
        split; [lia|]. rewrite HC' by lia. case Z.eqb_spec; [|done]. intros E. rewrite E in HCi. congruence.
  - intros x Hx. unfold key. rewrite HI' by done. unfold IDX_INVALID. destruct (Z.eqb_spec x c) as [->|Hne]; [done|].
    assert (HDj : forall j, 0 <= j -> D cp1 j = if j =? o then D cp q else D cp j) by (intros j Hj; by rewrite HD).
    destruct (Z.eqb_spec x (C cp q)) as [->|Hne'].
    + rewrite HIq, HDj, Z.eqb_refl by lia. repeat case Z.eqb_spec; lia || done.
    + destruct (cs_cpu _ Hc x Hx) as [->|[Hir HCi]]; [done|]. rewrite HDj by lia.
      destruct (Z.eqb_spec (I cp x) o) as [E|]; [|done]. rewrite E in HCi. congruence.
Qed.

Lemma remove_near cp c cp1 (o := I cp c) (q := size cp - 1) :
  heap_ok cp -> 0 <= o < size cp -> size cp1 = q -> agree (D cp1) (upd (D cp) o (D cp q)) ->
  range cp1 /\ near cp1 o /\ (o = q -> heap cp1 /\ below_parent cp1 o /\ 0 <= D cp1 o < 2 ^ 63).
Proof.
  intros [Hc Hr Hh] Ho Hsz HD. clearbody o.
  assert (HDj : forall j, 0 <= j -> D cp1 j = if j =? o then D cp q else D cp j) by (intros j Hj; by rewrite HD).
  split; [|split].
  - intros j Hj. rewrite HDj by lia. case Z.eqb_spec; intros; apply Hr; lia.
  - destruct (heap_near cp o Hh) as [H1 H2]. unfold near. rewrite Hsz. split; intros j Hj.
    + intros Hne Hp. pose proof (parent_spec j ltac:(lia)). rewrite !HDj by lia.
      rewrite !(proj2 (Z.eqb_neq _ o)) by done. apply H1; done || lia.
    + intros Hp Hpos. pose proof (parent_spec j ltac:(lia)). pose proof (parent_spec o Hpos).
      rewrite !HDj by lia. rewrite !(proj2 (Z.eqb_neq _ o)) by lia. apply H2; done || lia.
  - intros E. assert (HDs : forall j, 0 <= j -> D cp1 j = D cp j).
    { intros j Hj. rewrite HDj by done. case Z.eqb_spec; [|done]. congruence. }
    split; [|split].
    + intros j Hj. pose proof (parent_spec j ltac:(lia)). rewrite !HDs by lia. apply Hh. lia.
    + intros Hpos. pose proof (parent_spec o Hpos). rewrite !HDs by lia. apply Hh. lia.
    + rewrite HDs by lia. apply Hr. lia.
Qed.

(** Beyond the end of the heap both loops stop at once. *)
Lemma sift_up_stay cp i :
  range cp -> 0 <= i < nr cp -> i = size cp -> below_parent cp i -> 0 <= D cp i < 2 ^ 63 -> sift_up cp i = Ok (cp, i).
Proof.
  intros Hr Hi Hsz Hb HDi. unfold sift_up, fuel. cbn [loop]. unfold sift_up_step at 1.
  destruct (Z.ltb_spec 0 i); [|done]. pose proof (parent_spec i ltac:(done)).
  rewrite !eget_ok, !res_bind_ok by lia. change (dl (item ?c ?j)) with (D c j).
  rewrite before_lt by (done || apply Hr; lia). specialize (Hb ltac:(done)).
  by rewrite (proj2 (Z.ltb_ge _ _)).
Qed.

Lemma heapify_stay cp i : 0 <= i -> size cp <= i -> cpudl_heapify cp i = Ok cp.
Proof.
  intros Hi Hs. unfold cpudl_heapify, fuel. cbn [loop]. unfold heapify_step at 1.
  destruct (children_spec i Hi) as (_ & _ & Hord & _).
  rewrite !(proj2 (Z.ltb_ge _ (size cp))) by lia. rewrite !res_bind_ok. by rewrite Z.eqb_refl.
Qed.

(** ** The interface *)

Lemma cpumask_set_ok c v m :
  0 <= c < Z.of_nat (length m) -> cpumask_set c v m = Ok (<[Z.to_nat c:=v]> m).
Proof. intros Hc. unfold cpumask_set. rewrite (proj2 (Z.ltb_ge _ _)) by lia. apply aset_ok. lia. Qed.

(** The heap with another mask. *)
Definition with_mask (cp : cpudl) (m : cpumask) : cpudl := mkCpudl (size cp) m (elements cp).

Lemma with_mask_ok cp m :
  heap_ok cp -> length m = length (free_cpus cp) -> heap_ok (with_mask cp m).
Proof. intros [Hc Hr Hh] Hl. split; [|done|done]. destruct Hc as [? Hm ? ?]. split; try done. cbn. by rewrite Hl. Qed.

Lemma mask_updated cp cp' c v :
  cons cp -> mask_ok cp -> 0 <= c < nr cp -> nr cp' = nr cp ->
  free_cpus cp' = <[Z.to_nat c:=match v with None => true | Some _ => false end]> (free_cpus cp) ->
  (forall x, 0 <= x < nr cp -> key cp' x = if x =? c then v else key cp x) -> mask_ok cp'.
Proof.
  intros Hc Hm Hcr Hn Hf Hk x Hx. rewrite Hn in Hx. rewrite Hf, Hk by done.
  pose proof (cs_mask _ Hc). destruct (Z.eqb_spec x c) as [->|Hne].
  - rewrite list_lookup_insert_eq by lia. done.
  - rewrite list_lookup_insert_ne by lia. by apply Hm.
Qed.

(** What [cpudl_set] achieves: cpu [c] has deadline [v], no other changes. *)
Definition set_result (cp cp' : cpudl) (c : Z) (v : option Z) : Prop :=
  cpudl_ok cp' /\ nr cp' = nr cp /\
  forall x, 0 <= x < nr cp -> key cp' x = if x =? c then v else key cp x.

Lemma set_insert cp c d :
  cpudl_ok cp -> 0 <= c < nr cp -> 0 <= d < 2 ^ 63 -> I cp c = IDX_INVALID ->
  exists cp', cpudl_set cp c d true = Ok cp' /\ set_result cp cp' c (Some d).
Proof.
  intros [Hok Hm] Hcr Hd Hinv. pose proof (co_cons _ Hok) as Hc. pose proof (cs_size _ Hc). pose proof (cs_mask _ Hc).
  pose proof (size_lt cp c Hc Hcr Hinv). unfold cpudl_set. rewrite (eget_ok cp c), res_bind_ok by lia.
  change (idx (item cp c)) with (I cp c). rewrite Hinv. cbn [negb]. rewrite Z.eqb_refl.
  set (cp0 := set_size cp (size cp + 1)). assert (E0 : size cp0 - 1 = size cp) by (cbn; lia).
  destruct (set_dl_ok cp0 (size cp0 - 1) 0) as (c1 & -> & (S1 & F1 & N1) & D1 & C1 & I1); [change (nr cp0) with (nr cp); lia|].
  rewrite res_bind_ok. change (nr cp0) with (nr cp) in N1. change (size cp0) with (size cp + 1) in S1.
  change (free_cpus cp0) with (free_cpus cp) in F1.
  destruct (set_cpu_ok c1 (size c1 - 1) c) as (c2 & -> & (S2 & F2 & N2) & D2 & C2 & I2); [lia|]. rewrite res_bind_ok.
  destruct (set_idx_ok c2 c (size c2 - 1)) as (c3 & -> & (S3 & F3 & N3) & D3 & C3 & I3); [lia|]. rewrite res_bind_ok.
  rewrite E0 in D1. replace (size c1 - 1) with (size cp) in C2 by lia. replace (size c2 - 1) with (size cp) in I3 by lia.
  destruct (insert_zero cp c c3) as (Hok3 & HC3 & Hk3); try done; try congruence.
  { intros j Hj. by rewrite D3, D2, D1. }
  { intros j Hj. rewrite C3, C2 by done. unfold upd. by rewrite C1. }
  { intros j Hj. rewrite I3 by done. unfold upd. by rewrite I2, I1. }
  replace (size c3 - 1) with (size cp) by lia.
  destruct (change_key_spec c3 (size cp) d) as (c4 & -> & (S4 & F4 & N4) & Hc4 & Hr4 & Hh4 & Hk4); [done|lia|done|].
  rewrite res_bind_ok. assert (F : free_cpus c4 = free_cpus cp) by congruence.
  unfold cpumask_clear_cpu. rewrite F, cpumask_set_ok, res_bind_ok by lia.
  eexists. split; [done|]. assert (Hk : forall x, 0 <= x < nr cp -> key c4 x = if x =? c then Some d else key cp x).
  { intros x Hx. rewrite Hk4, HC3 by lia. case Z.eqb_spec; [done|]. intros Hne. rewrite Hk3 by done.
    by rewrite (proj2 (Z.eqb_neq x c)). }
  assert (N : nr c4 = nr cp) by congruence.
  split; [split|].
  - apply (with_mask_ok c4); [by split|]. by rewrite length_insert, F.
  - by apply (mask_updated cp (with_mask c4 _) c (Some d)).
  - split; [exact N|exact Hk].
Qed.

Lemma set_change cp c d :
  cpudl_ok cp -> 0 <= c < nr cp -> 0 <= d < 2 ^ 63 -> I cp c <> IDX_INVALID ->
  exists cp', cpudl_set cp c d true = Ok cp' /\ set_result cp cp' c (Some d).
Proof.
  intros [Hok Hm] Hcr Hd Hinv. pose proof (co_cons _ Hok) as Hc. pose proof (cs_mask _ Hc).
  unfold cpudl_set. rewrite (eget_ok cp c), res_bind_ok by lia. change (idx (item cp c)) with (I cp c).
  cbn [negb]. rewrite (proj2 (Z.eqb_neq _ _)) by done. destruct (cs_cpu _ Hc c Hcr) as [|[Hir HCi]]; [done|].
  destruct (change_key_spec cp (I cp c) d) as (c4 & -> & (S4 & F4 & N4) & Hc4 & Hr4 & Hh4 & Hk4); [done..|].
  rewrite HCi in Hk4. exists c4. split; [done|]. split; [split; [by split|]|by split].
  apply (mask_updated cp c4 c (Some d)); try done. rewrite F4. symmetry. apply list_insert_id.
  rewrite Hm by done. unfold key. by rewrite (proj2 (Z.eqb_neq _ _)).
Qed.

(** The repair after a removal; [i] is where the last element went. *)
Lemma remove_repair cp1 i c :
  cons cp1 -> range cp1 -> near cp1 i -> 0 <= i <= size cp1 -> i < nr cp1 -> 0 <= c < nr cp1 ->
  (i = size cp1 -> heap cp1 /\ below_parent cp1 i /\ 0 <= D cp1 i < 2 ^ 63) ->
  exists cp', ('(cp, i) ← sift_up cp1 i;
               m ← cpumask_set_cpu c (free_cpus cp);
               cpudl_heapify (mkCpudl (size cp) m (elements cp)) i) = Ok cp' /\
    heap_ok cp' /\ nr cp' = nr cp1 /\ free_cpus cp' = <[Z.to_nat c:=true]> (free_cpus cp1) /\
    forall x, 0 <= x < nr cp1 -> key cp' x = key cp1 x.
Proof.
  intros Hc Hr Hn Hi Hir Hcr Hend. pose proof (cs_mask _ Hc). destruct (decide (i = size cp1)) as [E|Hne].
  - destruct (Hend E) as (Hh & Hb & HD). rewrite sift_up_stay, res_bind_ok by (done || lia).
    unfold cpumask_set_cpu. rewrite cpumask_set_ok, res_bind_ok by lia.
    rewrite heapify_stay by (cbn; lia). eexists. split; [done|].
    split; [|done]. apply (with_mask_ok cp1); [by split|]. by rewrite length_insert.
  - destruct (sift_up_spec cp1 i) as (cp2 & i2 & -> & Hs2 & Hn2 & Hi2 & Hb2 & _); try done; [lia|].
    rewrite res_bind_ok. destruct (sm_shape _ _ Hs2) as (S2 & F2 & N2).
    unfold cpumask_set_cpu. rewrite cpumask_set_ok, res_bind_ok by (rewrite F2; lia). rewrite F2.
    set (cp3 := mkCpudl _ _ _).
    assert (Hc3 : cons cp3).
    { destruct (sm_cons _ _ Hs2) as [H1 H2 H3 H4]. split; try done. cbn. rewrite length_insert. by rewrite <- F2. }
    destruct (heapify_spec cp3 i2) as (cp4 & -> & [(S4 & F4 & N4) Hc4 Hr4 Hk4] & Hh4); try done; [apply Hs2|cbn; lia|].
    exists cp4. split; [done|]. split; [by split|]. split; [rewrite N4; exact N2|]. split; [done|].
    intros x Hx. rewrite Hk4 by (change (nr cp3) with (nr cp2); lia). change (key cp3 x) with (key cp2 x).
    by apply (sm_key _ _ Hs2).
Qed.

Lemma set_remove cp c d :
  cpudl_ok cp -> 0 <= c < nr cp -> I cp c <> IDX_INVALID ->
  exists cp', cpudl_set cp c d false = Ok cp' /\ set_result cp cp' c None.
Proof.
  intros [Hok Hm] Hcr Hinv. pose proof (co_cons _ Hok) as Hc. pose proof (cs_size _ Hc). pose proof (cs_mask _ Hc).
  destruct (cs_cpu _ Hc c Hcr) as [|[Hir HCi]]; [done|].
  unfold cpudl_set. rewrite (eget_ok cp c), res_bind_ok by lia. change (idx (item cp c)) with (I cp c).
  cbn [negb]. rewrite (proj2 (Z.eqb_neq _ _)) by done. rewrite (eget_ok cp (size cp - 1)), res_bind_ok by lia.
  change (dl (item ?a ?b)) with (D a b). change (cpu (item ?a ?b)) with (C a b).
  set (o := I cp c) in *. set (q := size cp - 1) in *.
  destruct (cs_pos _ Hc q) as [HCq HIq]; [lia|].
  destruct (set_dl_ok cp o (D cp q)) as (c1 & -> & (S1 & F1 & N1) & D1 & C1 & I1); [lia|]. rewrite res_bind_ok.
  destruct (set_cpu_ok c1 o (C cp q)) as (c2 & -> & (S2 & F2 & N2) & D2 & C2 & I2); [lia|]. rewrite res_bind_ok.
  set (c2' := set_size c2 (size c2 - 1)). assert (N2' : nr c2' = nr cp) by (change (nr c2 = nr cp); lia).
  destruct (set_idx_ok c2' (C cp q) o) as (c3 & -> & (S3 & F3 & N3) & D3 & C3 & I3); [lia|]. rewrite res_bind_ok.
  destruct (set_idx_ok c3 c IDX_INVALID) as (c4 & -> & (S4 & F4 & N4) & D4 & C4 & I4); [lia|]. rewrite res_bind_ok.
  change (free_cpus c2') with (free_cpus c2) in F3. change (size c2') with (size c2 - 1) in S3.
  assert (HD : agree (D c4) (upd (D cp) o (D cp q))).
  { intros j Hj. rewrite D4, D3 by done. change (D c2' j) with (D c2 j). by rewrite D2, D1. }
  assert (HC : agree (C c4) (upd (C cp) o (C cp q))).
  { intros j Hj. rewrite C4, C3 by done. change (C c2' j) with (C c2 j). rewrite C2 by done. unfold upd. by rewrite C1. }
  assert (HI : agree (I c4) (upd (upd (I cp) (C cp q) o) c IDX_INVALID)).
  { intros j Hj. rewrite I4 by done. unfold upd. rewrite I3 by done. unfold upd. change (I c2' j) with (I c2 j).
    by rewrite I2, I1. }
  assert (Sq : size c4 = q) by lia. assert (N : nr c4 = nr cp) by lia. assert (F : free_cpus c4 = free_cpus cp) by congruence.
  destruct (remove_replaced cp c c4) as [Hc4 Hk4]; try done.
  destruct (remove_near cp c c4) as (Hr4 & Hn4 & Hend); try done.
  destruct (remove_repair c4 o c) as (cp' & -> & Hok' & N' & F' & Hk'); try done; try lia.
  { intros E. apply Hend. fold o q. lia. }
  exists cp'. split; [done|].
  assert (Hk : forall x, 0 <= x < nr cp -> key cp' x = if x =? c then None else key cp x).
  { intros x Hx. rewrite Hk' by lia. by apply Hk4. }
  split; [split; [done|]|split; [lia|done]]. eapply (mask_updated cp cp' c None); try done; [lia|]. by rewrite F', F.
Qed.

(** C33.  [cpudl_set] implements an update of the map from cpus to deadlines:
    with [is_valid] the cpu gets the deadline, without it the cpu loses its
    deadline, all other cpus keep theirs, and the structure stays a heap with
    consistent positions and free mask.  All deadlines, the ones in the heap
    ([cpudl_ok]) and the new one, are below [2 ^ 63]: a cpu new to the heap
    starts with deadline 0, and [dl_time_before] takes a larger one to be
    before that. *)
Theorem cpudl_set_correct cp c d (is_valid : bool) :
  cpudl_ok cp -> 0 <= c < nr cp -> 0 <= d < 2 ^ 63 ->
  exists cp', cpudl_set cp c d is_valid = Ok cp' /\ cpudl_ok cp' /\ nr cp' = nr cp /\
    forall x, 0 <= x < nr cp ->
      key cp' x = if x =? c then (if is_valid then Some d else None) else key cp x.
Proof.
  intros Hok Hcr Hd. destruct (decide (I cp c = IDX_INVALID)) as [E|E].
  - destruct is_valid; [by apply set_insert|]. exists cp.
    assert (Hrun : cpudl_set cp c d false = Ok cp).
    { unfold cpudl_set. rewrite (eget_ok cp c), res_bind_ok by lia. cbn [negb].
      change (idx (item cp c)) with (I cp c). by rewrite E, Z.eqb_refl. }
    split; [done|]. split; [done|]. split; [done|]. intros x Hx. case Z.eqb_spec; [|done]. intros ->.
    by apply key_None.
  - destruct is_valid; [by apply set_change|by apply set_remove].
Qed.

(** ** Finding a cpu *)

Lemma heap_max cp i : heap cp -> 0 <= i < size cp -> D cp i <= D cp 0.
Proof.
  intros Hh. remember (Z.to_nat i) as n eqn:Hn. revert i Hn.
  induction (lt_wf n) as [n _ IH]. intros i Hn Hi. destruct (decide (i = 0)) as [->|]; [done|].
  pose proof (parent_spec i ltac:(lia)). etransitivity; [apply Hh; lia|].
  by apply (IH (Z.to_nat (parent i))); lia.
Qed.

(** The root is the latest deadline of all cpus. *)
Lemma root_max cp :
  heap_ok cp -> 0 < size cp ->
  0 <= C cp 0 < nr cp /\ key cp (C cp 0) = Some (D cp 0) /\
  forall x d, 0 <= x < nr cp -> key cp x = Some d -> d <= D cp 0.
Proof.
  intros [Hc Hr Hh] Hs. split; [apply Hc; lia|]. split; [apply key_pos; [done|lia]|].
  intros x d Hx. unfold key. destruct (cs_cpu _ Hc x Hx) as [->|[Hir _]]; [done|].
  case Z.eqb_spec; [done|]. intros _ [= <-]. by apply heap_max.
Qed.

Lemma cpumask_first_spec m :
  existsb id m = true -> 0 <= cpumask_first m < Z.of_nat (length m) /\ m !! Z.to_nat (cpumask_first m) = Some true.
Proof.
  induction m as [|b m IH]; [done|]. cbn [existsb cpumask_first length]. destruct b; cbn [id orb].
  { intros _. split; [lia|done]. }
  intros H. destruct (IH H) as [Hb Hl]. split; [lia|].
  by replace (Z.to_nat (1 + cpumask_first m)) with (S (Z.to_nat (cpumask_first m))) by lia.
Qed.

Lemma cpumask_and_spec a b :
  (cpumask_and a b).1 = zip_with andb a b /\
  ((cpumask_and a b).2 = false -> forall i, a !! i = Some true -> b !! i = Some true -> False).
Proof.
  split; [done|]. cbn. intros Hex i Ha Hb. apply not_true_iff_false in Hex. apply Hex, existsb_exists.
  exists true. split; [|done]. apply list_elem_of_In, list_elem_of_lookup. exists i.
  by rewrite lookup_zip_with, Ha, Hb.
Qed.

(** The choice at the root of the heap. *)
Definition root_choice (cp : cpudl) (deadline : Z) (allowed : cpumask) (best : Z) : Prop :=
  (0 <= best < nr cp /\ allowed !! Z.to_nat best = Some true /\
   exists d, key cp best = Some d /\ deadline < d /\
     forall x d', 0 <= x < nr cp -> key cp x = Some d' -> d' <= d) \/
  (best = -1 /\ (allowed !! Z.to_nat (C cp 0) = Some false \/ D cp 0 <= deadline)).

Lemma find_root cp deadline allowed (later : option cpumask) :
  heap_ok cp -> 0 < size cp -> 0 <= deadline < 2 ^ 63 -> Z.of_nat (length allowed) = nr cp ->
  (forall m, later = Some m -> Z.of_nat (length m) = nr cp) ->
  exists best later',
    (max ← cpudl_maximum cp; ok ← cpumask_test_cpu max allowed; e ← eget cp 0;
     if ok && dl_time_before deadline (dl e) then
       match later with
       | Some m => m ← cpumask_set_cpu max m; Ok (max, Some m)
       | None => Ok (max, None)
       end
     else Ok (-1, later)) = Ok (best, later') /\ root_choice cp deadline allowed best.
Proof.
  intros Hok Hs Hd Ha Hl. pose proof (cs_size _ (co_cons _ Hok)). destruct (root_max cp Hok Hs) as (HC & Hk & Hmax).
  unfold cpudl_maximum. rewrite eget_ok, !res_bind_ok by lia. change (cpu (item cp 0)) with (C cp 0).
  unfold cpumask_test_cpu. rewrite (proj2 (Z.ltb_ge _ _)) by lia.
  destruct (lookup_lt_is_Some_2 allowed (Z.to_nat (C cp 0))) as [ok Hallow]; [lia|].
  rewrite (aget_ok _ _ _ Hallow), !res_bind_ok. change (dl (item cp 0)) with (D cp 0).
  rewrite before_lt by (done || apply Hok; lia). unfold root_choice.
  destruct ok; cbn [andb]; [destruct (Z.ltb_spec deadline (D cp 0))|].
  - assert (Hch : root_choice cp deadline allowed (C cp 0)).
    { left. split; [done|]. split; [done|]. exists (D cp 0). done. }
    destruct later as [m|]; [|eauto]. unfold cpumask_set_cpu.
    rewrite cpumask_set_ok, res_bind_ok by (rewrite (Hl m); done || lia). eauto.
  - do 2 eexists. split; [done|]. right. split; [done|]. by right.
  - do 2 eexists. split; [done|]. right. split; [done|]. by left.
Qed.

(** [cpudl_find] returns a cpu of [later_mask] without a deadline task if
    there is one, and otherwise the allowed cpu with the latest deadline when
    that is later than the task's, or -1. *)
Theorem cpudl_find_correct cp deadline allowed (later : option cpumask) :
  cpudl_ok cp -> 0 < size cp -> 0 <= deadline < 2 ^ 63 -> Z.of_nat (length allowed) = nr cp ->
  (forall m, later = Some m -> Z.of_nat (length m) = nr cp) ->
  exists best later', cpudl_find cp deadline allowed later = Ok (best, later') /\
    ((exists m, later = Some m /\ 0 <= best < nr cp /\ m !! Z.to_nat best = Some true /\ key cp best = None) \/
     ((forall m x, later = Some m -> 0 <= x < nr cp -> m !! Z.to_nat x = Some true -> key cp x <> None) /\
      root_choice cp deadline allowed best)).
Proof.
  intros [Hok Hm] Hs Hd Ha Hl. unfold cpudl_find. destruct later as [m|].
  2: { destruct (find_root cp deadline allowed None Hok Hs Hd Ha) as (best & later' & -> & Hc); [done|].
       do 2 eexists. split; [done|]. right. done. }
  specialize (Hl m eq_refl). destruct (cpumask_and_spec m (free_cpus cp)) as [Hfst Hnone].
  destruct (cpumask_and m (free_cpus cp)) as [m' any] eqn:E. cbn [fst snd] in *. subst m'.
  assert (Hlen : Z.of_nat (length (zip_with andb m (free_cpus cp))) = nr cp).
  { rewrite length_zip_with. pose proof (cs_mask _ (co_cons _ Hok)). lia. }
  destruct any.
  - assert (Hex : existsb id (zip_with andb m (free_cpus cp)) = true) by (by injection E).
    destruct (cpumask_first_spec _ Hex) as [Hb Hlk]. rewrite lookup_zip_with_Some in Hlk.
    destruct Hlk as (a & b & Hab & Hma & Hfb). destruct a, b; try done. cbn [from_option id].
    do 2 eexists. split; [done|]. left. exists m. split; [done|]. split; [lia|]. split; [done|].
    rewrite Hm in Hfb by lia. by destruct (key _ _).
  - destruct (find_root cp deadline allowed (Some (zip_with andb m (free_cpus cp))) Hok Hs Hd Ha)
      as (best & later' & -> & Hc); [by intros ? [= <-]|].
    do 2 eexists. split; [done|]. right. split; [|done]. intros m0 x [= <-] Hx Hmx Hk.
    apply (Hnone eq_refl (Z.to_nat x)); [done|]. rewrite Hm by done. by rewrite Hk.
Qed.

Lemma cpudl_init_ok n : cpudl_ok (snd (cpudl_init n (true, true))).
Proof.
  assert (Hit : forall c, 0 <= c < Z.of_nat n -> I (snd (cpudl_init n (true, true))) c = IDX_INVALID).
  { intros c Hc. unfold I, item. cbn. by rewrite lookup_replicate_2 by lia. }
  assert (Hn : nr (snd (cpudl_init n (true, true))) = Z.of_nat n) by (unfold nr; cbn; by rewrite length_replicate).
  split; [split|].
  - split; rewrite ?Hn; cbn; try lia; [unfold cpumask_setall; by rewrite length_replicate|]. intros c Hc. left. by apply Hit.
  - intros j Hj. cbn in Hj. lia.
  - intros j Hj. cbn in Hj. lia.
  - intros c Hc. rewrite Hn in Hc. rewrite (proj2 (key_None _ c)) by (by apply Hit). cbn.
    unfold cpumask_setall. by rewrite lookup_replicate_2 by lia.
Qed.

(** * * The deadline heap on concrete inputs *)

(** Four cpus; cpus 2 and 0 have deadlines 300 and 100. *)
Definition ex_heap : cpudl :=
  mkCpudl 2 [false; true; false; true]
    [mkItem 300 2 1; mkItem 100 0 (-1); mkItem 0 0 0; mkItem 0 0 (-1)].

Lemma ex_heap_built :
  (cp ← cpudl_set (snd (cpudl_init 4 (true, true))) 0 100 true; cpudl_set cp 2 300 true) = Ok ex_heap.
Proof. vm_compute. reflexivity. Qed.

Lemma ex_heap_ok : cpudl_ok ex_heap.
Proof.
  destruct (set_insert (snd (cpudl_init 4 (true, true))) 0 100) as (cp1 & E1 & Hok1 & _);
    [apply cpudl_init_ok|unfold nr; cbn; lia|lia|done|].
  vm_compute in E1. injection E1 as <-.
  destruct (set_insert _ 2 300 Hok1) as (cp2 & E2 & Hok2 & _); [unfold nr; cbn; lia|lia|done|].
  vm_compute in E2. injection E2 as <-. exact Hok2.
Qed.

(** Removing the root. *)
Lemma cpudl_set_witness :
  exists cp', cpudl_set ex_heap 2 0 false = Ok cp' /\ cpudl_ok cp' /\ nr cp' = 4 /\
    forall x, 0 <= x < 4 -> key cp' x = if x =? 2 then None else key ex_heap x.
Proof. apply (cpudl_set_correct ex_heap 2 0 false ex_heap_ok); unfold nr; cbn; lia. Defined.

Lemma cpudl_find_witness :
  exists best later', cpudl_find ex_heap 200 [true; true; true; true] None = Ok (best, later') /\
    ((exists m : cpumask, None = Some m /\ 0 <= best < 4 /\ m !! Z.to_nat best = Some true /\ key ex_heap best = None) \/
     ((forall (m : cpumask) x, None = Some m -> 0 <= x < 4 -> m !! Z.to_nat x = Some true -> key ex_heap x <> None) /\
      root_choice ex_heap 200 [true; true; true; true] best)).
Proof. apply (cpudl_find_correct ex_heap 200 [true; true; true; true] None ex_heap_ok); unfold nr; cbn; lia || done. Defined.

(** The root is taken: its deadline is later and it is allowed. *)
Lemma ex_find : cpudl_find ex_heap 200 [true; true; true; true] None = Ok (2, None).
Proof. vm_compute. reflexivity. Qed.

(** A new cpu enters with the temporary deadline 0.  A deadline of the second
    half of the 64-bit range counts as earlier than 0, so it is moved down and
    never up: cpu 1 has the later deadline here, but cpu 0 stays the root. *)
Example cpudl_set_late_deadlines :
  exists cp,
    (cp ← cpudl_set (snd (cpudl_init 2 (true, true))) 0 (2 ^ 63 + 10) true;
     cpudl_set cp 1 (2 ^ 63 + 20) true) = Ok cp /\
    cpudl_maximum cp = Ok 0 /\ key cp 0 = Some (2 ^ 63 + 10) /\ key cp 1 = Some (2 ^ 63 + 20) /\
    dl_time_before (2 ^ 63 + 10) (2 ^ 63 + 20) = true.
Proof.
  exists (mkCpudl 2 [false; false] [mkItem (2 ^ 63 + 10) 0 0; mkItem (2 ^ 63 + 20) 1 1]).
  split_and!; vm_compute; reflexivity.
Qed.
