(* ===== verification/DeadlineDefs.v ===== *)
(** * The deadline I/O scheduler: block/deadline-iosched.c

    Requests are objects named by numbers; [rqs] holds their fields.  The
    red-black tree of a direction is the list of its requests in sector order
    (what [rb_next] walks), the fifo is the list of its requests by age.  That
    the trees of block/elevator.c implement the operations on these lists is
    proved in RbDeadline.v. *)

From stdpp Require Import functions.
From S2P Require Import Prelude.

Inductive ddir := READ | WRITE.

#[global] Instance ddir_eq_dec : EqDecision ddir.
Proof. solve_decision. Defined.

Definition rqid := nat.

Record request := mkRq {
  rq_data_dir : ddir;
  blk_rq_pos : Z;
  blk_rq_sectors : Z;
  fifo_time : Z }.

Record deadline_data := mkDd {
  sort_list : ddir -> list rqid;
  fifo_list : ddir -> list rqid;
  next_rq : ddir -> option rqid;
  batching : Z;
  last_sector : Z;
  starved : Z;
  fifo_expire : ddir -> Z;
  fifo_batch : Z;
  writes_starved : Z;
  front_merges : Z }.

(** The request objects, the scheduler and the dispatch side of the queue. *)
Record request_queue := mkQ {
  rqs : rqid -> request;
  dd : deadline_data;
  queue_head : list rqid;
  nr_sorted : Z;
  end_sector : Z;
  boundary_rq : option rqid;
  last_merge : option rqid }.

Definition rq_end_sector (rq : request) : Z := blk_rq_pos rq ⊕ blk_rq_sectors rq.

Definition with_dd (q : request_queue) (d : deadline_data) : request_queue :=
  mkQ (rqs q) d (queue_head q) (nr_sorted q) (end_sector q) (boundary_rq q) (last_merge q).
Definition with_sort (d : deadline_data) (x : ddir) (l : list rqid) : deadline_data :=
  mkDd (<[x:=l]> (sort_list d)) (fifo_list d) (next_rq d) (batching d) (last_sector d) (starved d)
       (fifo_expire d) (fifo_batch d) (writes_starved d) (front_merges d).
Definition with_fifo (d : deadline_data) (x : ddir) (l : list rqid) : deadline_data :=
  mkDd (sort_list d) (<[x:=l]> (fifo_list d)) (next_rq d) (batching d) (last_sector d) (starved d)
       (fifo_expire d) (fifo_batch d) (writes_starved d) (front_merges d).
Definition with_next (d : deadline_data) (x : ddir) (r : option rqid) : deadline_data :=
  mkDd (sort_list d) (fifo_list d) (<[x:=r]> (next_rq d)) (batching d) (last_sector d) (starved d)
       (fifo_expire d) (fifo_batch d) (writes_starved d) (front_merges d).
Definition with_batching (d : deadline_data) (b : Z) : deadline_data :=
  mkDd (sort_list d) (fifo_list d) (next_rq d) b (last_sector d) (starved d)
       (fifo_expire d) (fifo_batch d) (writes_starved d) (front_merges d).
Definition with_last_sector (d : deadline_data) (s : Z) : deadline_data :=
  mkDd (sort_list d) (fifo_list d) (next_rq d) (batching d) s (starved d)
       (fifo_expire d) (fifo_batch d) (writes_starved d) (front_merges d).
Definition with_starved (d : deadline_data) (s : Z) : deadline_data :=
  mkDd (sort_list d) (fifo_list d) (next_rq d) (batching d) (last_sector d) s
       (fifo_expire d) (fifo_batch d) (writes_starved d) (front_merges d).

Definition set_fifo_time (q : request_queue) (r : rqid) (t : Z) : request_queue :=
  let rq := rqs q r in
  mkQ (<[r:=mkRq (rq_data_dir rq) (blk_rq_pos rq) (blk_rq_sectors rq) t]> (rqs q)) (dd q)
      (queue_head q) (nr_sorted q) (end_sector q) (boundary_rq q) (last_merge q).

(** ** Lists and trees of requests *)

Definition list_empty (l : list rqid) : bool := match l with [] => true | _ => false end.
Definition list_del (r : rqid) (l : list rqid) : list rqid := filter (fun x => x <> r) l.

(** [list_move(&r, &at)]: [r] directly after [at]. *)
Definition list_move_after (r at_ : rqid) (l : list rqid) : list rqid :=
  flat_map (fun x => if decide (x = at_) then [x; r] else [x]) (list_del r l).

(** [elv_rb_add]: requests at the same sector stay in the order of arrival. *)
Fixpoint elv_rb_add (pos : rqid -> Z) (r : rqid) (l : list rqid) : list rqid :=
  match l with
  | [] => [r]
  | x :: l => if pos r <? pos x then r :: x :: l else x :: elv_rb_add pos r l
  end.

(** [rb_next]: the request after [r] in sector order. *)
Fixpoint rb_next (r : rqid) (l : list rqid) : option rqid :=
  match l with
  | [] => None
  | x :: l => if decide (x = r) then head l else rb_next r l
  end.

Definition q_pos (q : request_queue) (r : rqid) : Z := blk_rq_pos (rqs q r).
Definition q_dir (q : request_queue) (r : rqid) : ddir := rq_data_dir (rqs q r).

Definition deadline_latter_request (q : request_queue) (r : rqid) : option rqid :=
  rb_next r (sort_list (dd q) (q_dir q r)).

Definition deadline_add_rq_rb (q : request_queue) (r : rqid) : request_queue :=
  let x := q_dir q r in
  with_dd q (with_sort (dd q) x (elv_rb_add (q_pos q) r (sort_list (dd q) x))).

(** The request is in the tree; the code stops at a [BUG_ON] otherwise. *)
Definition elv_rb_del (q : request_queue) (r : rqid) : request_queue :=
  let x := q_dir q r in with_dd q (with_sort (dd q) x (list_del r (sort_list (dd q) x))).

Definition deadline_del_rq_rb (q : request_queue) (r : rqid) : request_queue :=
  let data_dir := q_dir q r in
  let q := if decide (next_rq (dd q) data_dir = Some r)
           then with_dd q (with_next (dd q) data_dir (deadline_latter_request q r)) else q in
  elv_rb_del q r.

(** ** Requests come and go *)

Definition deadline_add_request (jiffies : Z) (q : request_queue) (r : rqid) : request_queue :=
  let data_dir := q_dir q r in
  let q := deadline_add_rq_rb q r in
  let q := set_fifo_time q r (jiffies ⊕ fifo_expire (dd q) data_dir) in
  with_dd q (with_fifo (dd q) data_dir (fifo_list (dd q) data_dir ++ [r])).

(** [rq_fifo_clear] *)
Definition rq_fifo_clear (q : request_queue) (r : rqid) : request_queue :=
  let x := q_dir q r in with_dd q (with_fifo (dd q) x (list_del r (fifo_list (dd q) x))).

Definition deadline_remove_request (q : request_queue) (r : rqid) : request_queue :=
  deadline_del_rq_rb (rq_fifo_clear q r) r.

Definition ELEVATOR_NO_MERGE : Z := 0.
Definition ELEVATOR_FRONT_MERGE : Z := 1.

(** [found] is what [elv_rb_find] returns for the end sector of the bio;
    [merge_ok] is [elv_rq_merge_ok]. *)
Definition deadline_merge (q : request_queue) (sector : Z) (found : option rqid) (merge_ok : rqid -> bool)
    : res (Z * option rqid) :=
  if negb (front_merges (dd q) =? 0) then
    match found with
    | Some r =>
        bug_on (negb (sector =? q_pos q r))
          (if merge_ok r then Ok (ELEVATOR_FRONT_MERGE, Some r) else Ok (ELEVATOR_NO_MERGE, None))
    | None => Ok (ELEVATOR_NO_MERGE, None)
    end
  else Ok (ELEVATOR_NO_MERGE, None).

Definition deadline_merged_request (q : request_queue) (r : rqid) (type : Z) : request_queue :=
  if type =? ELEVATOR_FRONT_MERGE then deadline_add_rq_rb (elv_rb_del q r) r else q.

(** [!list_empty(&rq->queuelist)]: the request is in a fifo or in the dispatch
    queue. *)
Definition on_list (q : request_queue) (r : rqid) : bool :=
  bool_decide (r ∈ fifo_list (dd q) (q_dir q r)) || bool_decide (r ∈ queue_head q).

Definition deadline_merged_requests (q : request_queue) (req next : rqid) : request_queue :=
  let q :=
    if on_list q req && on_list q next && time_before (fifo_time (rqs q next)) (fifo_time (rqs q req)) then
      let x := q_dir q req in
      let q := with_dd q (with_fifo (dd q) x (list_move_after req next (fifo_list (dd q) x))) in
      set_fifo_time q req (fifo_time (rqs q next))
    else q in
  deadline_remove_request q next.

(** ** Dispatch *)

Definition elv_dispatch_add_tail (q : request_queue) (r : rqid) : request_queue :=
  mkQ (rqs q) (dd q) (queue_head q ++ [r]) (nr_sorted q ⊟ 1) (rq_end_sector (rqs q r)) (Some r)
      (if decide (last_merge q = Some r) then None else last_merge q).

Definition deadline_move_to_dispatch (q : request_queue) (r : rqid) : request_queue :=
  elv_dispatch_add_tail (deadline_remove_request q r) r.

Definition deadline_move_request (q : request_queue) (r : rqid) : request_queue :=
  let data_dir := q_dir q r in
  let d := with_next (with_next (dd q) READ None) WRITE None in
  let d := with_next d data_dir (deadline_latter_request q r) in
  let d := with_last_sector d (rq_end_sector (rqs q r)) in
  deadline_move_to_dispatch (with_dd q d) r.

Definition deadline_check_fifo (jiffies : Z) (q : request_queue) (x : ddir) : res bool :=
  match fifo_list (dd q) x with
  | [] => Fault
  | r :: _ => Ok (time_after_eq jiffies (fifo_time (rqs q r)))
  end.

(** [dispatch_request:] *)
Definition dispatch_request (q : request_queue) (r : rqid) : res (Z * request_queue) :=
  let q := with_dd q (with_batching (dd q) (batching (dd q) ⊞ 1)) in
  Ok (1, deadline_move_request q r).

(** [rq_entry_fifo(dd->fifo_list[data_dir].next)] *)
Definition fifo_first (q : request_queue) (x : ddir) : res rqid :=
  match fifo_list (dd q) x with [] => Fault | r :: _ => Ok r end.

(** [dispatch_find_request:] *)
Definition dispatch_find_request (jiffies : Z) (q : request_queue) (data_dir : ddir) : res (Z * request_queue) :=
  expired ← deadline_check_fifo jiffies q data_dir;
  rq ← (match next_rq (dd q) data_dir with
        | Some r => if (expired : bool) then fifo_first q data_dir else Ok r
        | None => fifo_first q data_dir
        end);
  dispatch_request (with_dd q (with_batching (dd q) 0)) rq.

(** [dispatch_writes:] *)
Definition dispatch_writes (jiffies : Z) (q : request_queue) : res (Z * request_queue) :=
  bug_on (list_empty (sort_list (dd q) WRITE))
    (dispatch_find_request jiffies (with_dd q (with_starved (dd q) 0)) WRITE).

(** No batch is running: select the data direction. *)
Definition dispatch_select (jiffies : Z) (q : request_queue) : res (Z * request_queue) :=
  let reads := negb (list_empty (fifo_list (dd q) READ)) in
  let writes := negb (list_empty (fifo_list (dd q) WRITE)) in
  if reads then
    bug_on (list_empty (sort_list (dd q) READ))
      (if writes then
         let old := starved (dd q) in
         let q := with_dd q (with_starved (dd q) (old ⊞ 1)) in
         if u32 (writes_starved (dd q)) <=? old then dispatch_writes jiffies q
         else dispatch_find_request jiffies q READ
       else dispatch_find_request jiffies q READ)
  else if writes then dispatch_writes jiffies q
  else Ok (0, q).

Definition deadline_dispatch_requests (jiffies : Z) (q : request_queue) : res (Z * request_queue) :=
  let rq := match next_rq (dd q) WRITE with Some r => Some r | None => next_rq (dd q) READ end in
  match rq with
  | Some r =>
      if batching (dd q) <? u32 (fifo_batch (dd q)) then dispatch_request q r else dispatch_select jiffies q
  | None => dispatch_select jiffies q
  end.

(** ** Set-up *)

Definition deadline_init_data (HZ : Z) : deadline_data :=
  mkDd (fun _ => []) (fun _ => []) (fun _ => None) 0 0 0
       (fun x => match x with READ => Z.quot HZ 2 | WRITE => 5 * HZ end) 16 2 1.

Definition deadline_exit_queue (q : request_queue) : res unit :=
  bug_on (negb (list_empty (fifo_list (dd q) READ)))
    (bug_on (negb (list_empty (fifo_list (dd q) WRITE))) (Ok tt)).
