(* ===== verification/Deadline.v ===== *)
(** * Correctness of the deadline I/O scheduler

    The tree and the fifo of a direction hold the same requests; requests are
    dispatched once, a request is dispatched whenever there is one, and writes
    are starved for a bounded number of dispatches. *)
From stdpp Require Import functions sorting.
From S2P Require Import Prelude DeadlineDefs.

(** ** Lists of requests *)

Section Lists.
Variable pos : rqid -> Z.
Definition pos_le (a b : rqid) : Prop := pos a <= pos b.

Lemma elv_rb_add_perm r l : elv_rb_add pos r l ≡ₚ r :: l.
Proof.
  induction l as [|x l IH]; cbn; [done|]. destruct (_ <? _); [done|]. rewrite IH. apply Permutation_swap.
Qed.

Lemma elv_rb_add_sorted r l : StronglySorted pos_le l -> StronglySorted pos_le (elv_rb_add pos r l).
Proof.
  induction 1 as [|x l Hl IH Hx]; cbn; [by repeat constructor|]. destruct (Z.ltb_spec (pos r) (pos x)).
  - constructor; [by constructor|]. constructor; [unfold pos_le; lia|].
    eapply Forall_impl; [exact Hx|]. unfold pos_le. cbn. lia.
  - constructor; [done|]. rewrite elv_rb_add_perm. constructor; [unfold pos_le; lia|done].
Qed.

Lemma list_del_sorted r l : StronglySorted pos_le l -> StronglySorted pos_le (list_del r l).
Proof.
  induction 1 as [|x l Hl IH Hx]; [constructor|]. unfold list_del in *. rewrite filter_cons.
  case_decide; [|done]. constructor; [done|]. apply Forall_forall. intros y [_ Hy]%list_elem_of_filter.
  by apply (proj1 (Forall_forall _ _) Hx).
Qed.

Lemma rb_next_spec r l x :
  NoDup l -> StronglySorted pos_le l -> rb_next r l = Some x -> x ∈ l /\ x <> r /\ pos r <= pos x.
Proof.
  induction l as [|y l IH]; cbn; [done|]. intros [Hy Hnd]%NoDup_cons Hs. inversion_clear Hs as [|? ? Hs' Hall].
  case_decide as E.
  - subst y. intros Hh. assert (Hin : x ∈ l) by (by apply head_Some_elem_of).
    split; [by right|]. split; [by intros ->|]. by apply (proj1 (Forall_forall _ _) Hall).
  - intros Hn. destruct (IH Hnd Hs' Hn) as (Hin & Hne & Hp). split; [by right|done].
Qed.

End Lists.

Lemma elem_of_list_del r x l : x ∈ list_del r l <-> x ∈ l /\ x <> r.
Proof. unfold list_del. rewrite list_elem_of_filter. tauto. Qed.

Lemma list_del_perm r l k : l ≡ₚ k -> list_del r l ≡ₚ list_del r k.
Proof. intros Hp. unfold list_del. by rewrite Hp. Qed.

Lemma list_del_NoDup r l : NoDup l -> NoDup (list_del r l).
Proof. apply NoDup_filter. Qed.

Lemma list_move_after_perm r at_ l :
  NoDup l -> r ∈ l -> at_ ∈ l -> r <> at_ -> list_move_after r at_ l ≡ₚ l.
Proof.
  intros Hnd Hr Ha Hne. unfold list_move_after.
  assert (Hgen : forall k, NoDup k -> at_ ∈ k ->
    flat_map (fun x => if decide (x = at_) then [x; r] else [x]) k ≡ₚ r :: k).
  { induction k as [|y k IH]; [by intros _ ?%not_elem_of_nil|]. intros [Hy Hk]%NoDup_cons Hin. cbn. case_decide as E.
    - subst y. assert (Hid : flat_map (fun x => if decide (x = at_) then [x; r] else [x]) k = k).
      { clear IH Hin Hk. induction k as [|z k IH]; [done|]. apply not_elem_of_cons in Hy as [Hz Hy]. cbn.
        rewrite decide_False by congruence. cbn. by rewrite IH. }
      rewrite Hid. apply Permutation_swap.
    - apply elem_of_cons in Hin as [->|Hin]; [done|]. cbn. rewrite (IH Hk Hin). apply Permutation_swap. }
  rewrite Hgen; [|by apply list_del_NoDup|by apply elem_of_list_del].
  apply NoDup_Permutation; [|done|].
  - apply NoDup_cons. split; [|by apply list_del_NoDup]. rewrite elem_of_list_del. naive_solver.
  - intros x. rewrite elem_of_cons, elem_of_list_del. destruct (decide (x = r)) as [->|]; naive_solver.
Qed.

(** ** The invariant *)

Record dir_ok (q : request_queue) (x : ddir) : Prop := {
  do_nodup : NoDup (fifo_list (dd q) x);
  do_perm : sort_list (dd q) x ≡ₚ fifo_list (dd q) x;
  do_dir : forall r, r ∈ fifo_list (dd q) x -> q_dir q r = x;
  do_sorted : StronglySorted (pos_le (q_pos q)) (sort_list (dd q) x);
  do_next : forall r, next_rq (dd q) x = Some r -> r ∈ fifo_list (dd q) x;
  do_once : forall r, r ∈ fifo_list (dd q) x -> r ∉ queue_head q }.

Record q_ok (q : request_queue) : Prop := {
  qk_dir : forall x, dir_ok q x;
  qk_head : NoDup (queue_head q);
  qk_batching : 0 <= batching (dd q) < 2 ^ 32;
  qk_starved : 0 <= starved (dd q) < 2 ^ 32 }.

Lemma in_sort q x r : dir_ok q x -> r ∈ sort_list (dd q) x <-> r ∈ fifo_list (dd q) x.
Proof. intros Hd. by rewrite (do_perm _ _ Hd). Qed.

Lemma sort_nodup q x : dir_ok q x -> NoDup (sort_list (dd q) x).
Proof. intros Hd. rewrite (do_perm _ _ Hd). apply Hd. Qed.

(** A new request of direction [x] that is not in the scheduler. *)
Lemma add_request_ok jiffies q r (x := q_dir q r) (q' := deadline_add_request jiffies q r) :
  q_ok q -> r ∉ fifo_list (dd q) x -> r ∉ queue_head q ->
  q_ok q' /\ fifo_list (dd q') x = fifo_list (dd q) x ++ [r] /\
  fifo_time (rqs q' r) = jiffies ⊕ fifo_expire (dd q) x.
Proof.
  intros [Hd Hh Hb Hs] Hnf Hnq.
  assert (Hdir : forall y, q_dir q' y = q_dir q y).
  { intros y. unfold q_dir, q', deadline_add_request. cbn. destruct (decide (r = y)) as [<-|];
      [by rewrite fn_lookup_insert|by rewrite fn_lookup_insert_ne]. }
  assert (Hpos : forall y, q_pos q' y = q_pos q y).
  { intros y. unfold q_pos, q', deadline_add_request. cbn. destruct (decide (r = y)) as [<-|];
      [by rewrite fn_lookup_insert|by rewrite fn_lookup_insert_ne]. }
  assert (Hf : fifo_list (dd q') x = fifo_list (dd q) x ++ [r]) by (cbn; by rewrite fn_lookup_insert).
  split_and!; [|done|cbn; by rewrite fn_lookup_insert].
  split; [|done|done|done]. intros y. destruct (Hd y) as [H1 H2 H3 H4 H5 H6].
  assert (Hext : forall l, StronglySorted (pos_le (q_pos q)) l -> StronglySorted (pos_le (q_pos q')) l).
  { intros l. apply StronglySorted_ind; [constructor|]. intros a k _ Hk Ha. constructor; [done|].
    eapply Forall_impl; [exact Ha|]. unfold pos_le. intros b. by rewrite !Hpos. }
  destruct (decide (x = y)) as [<-|Hne].
  - split; rewrite ?Hf.
    + apply NoDup_app. split_and!; [done| |apply NoDup_singleton]. by intros z Hz ->%list_elem_of_singleton.
    + cbn. fold x. rewrite fn_lookup_insert, elv_rb_add_perm, H2. by rewrite Permutation_app_comm.
    + intros z. rewrite Hdir, elem_of_app, list_elem_of_singleton. intros [?| ->]; [by apply H3|done].
    + apply Hext. cbn. rewrite fn_lookup_insert. by apply elv_rb_add_sorted.
    + intros z Hz. apply elem_of_app. left. by apply H5.
    + intros z. rewrite elem_of_app, list_elem_of_singleton. intros [?| ->]; [by apply H6|done].
  - assert (Hfy : fifo_list (dd q') y = fifo_list (dd q) y) by (cbn; by rewrite fn_lookup_insert_ne).
    split; rewrite ?Hfy; try done.
    + cbn. by rewrite fn_lookup_insert_ne.
    + intros z Hz. rewrite Hdir. by apply H3.
    + apply Hext. cbn. by rewrite fn_lookup_insert_ne.
Qed.

(** ** Taking a request out *)

(** [q'] is [q] without request [r] of direction [x]. *)
Record without (q q' : request_queue) (r : rqid) (x : ddir) : Prop := {
  wo_rqs : rqs q' = rqs q;
  wo_fifo : forall y, fifo_list (dd q') y = if decide (y = x) then list_del r (fifo_list (dd q) y) else fifo_list (dd q) y;
  wo_sort : forall y, sort_list (dd q') y = if decide (y = x) then list_del r (sort_list (dd q) y) else sort_list (dd q) y;
  wo_next : forall y z, next_rq (dd q') y = Some z ->
    (next_rq (dd q) y = Some z \/ rb_next r (sort_list (dd q) y) = Some z) /\ z <> r;
  wo_head : queue_head q' = queue_head q \/ queue_head q' = queue_head q ++ [r];
  wo_same : starved (dd q') = starved (dd q) /\ batching (dd q') = batching (dd q) /\
    fifo_batch (dd q') = fifo_batch (dd q) /\ writes_starved (dd q') = writes_starved (dd q) }.

Lemma without_in q q' r x y z :
  q_ok q -> without q q' r x -> r ∈ fifo_list (dd q) x ->
  z ∈ fifo_list (dd q') y <-> z ∈ fifo_list (dd q) y /\ z <> r.
Proof.
  intros Hq Hwo Hr. rewrite (wo_fifo _ _ _ _ Hwo). case_decide as E.
  - subst y. apply elem_of_list_del.
  - split; [|by intros [? _]]. intros Hz. split; [done|]. intros ->.
    apply E. by rewrite <- (do_dir _ _ (qk_dir _ Hq y) r Hz), (do_dir _ _ (qk_dir _ Hq x) r Hr).
Qed.

Lemma without_ok q q' r x : q_ok q -> without q q' r x -> r ∈ fifo_list (dd q) x -> q_ok q'.
Proof.
  intros Hq Hwo Hr. pose proof (fun y z => without_in q q' r x y z Hq Hwo Hr) as Hin.
  destruct Hwo as [Hrq Hf Hs Hn Hh (Hst & Hba & _)]. pose proof (qk_dir _ Hq) as Hd.
  assert (Hpos : q_pos q' = q_pos q) by (unfold q_pos; by rewrite Hrq).
  split; [|destruct Hh as [->| ->]|rewrite Hba; apply Hq|rewrite Hst; apply Hq].
  2: apply Hq.
  2: { apply NoDup_app. split_and!; [apply Hq| |apply NoDup_singleton].
       intros z Hz ->%list_elem_of_singleton. by apply (do_once _ _ (Hd x) r Hr). }
  intros y. destruct (Hd y) as [H1 H2 H3 H4 H5 H6]. split; rewrite ?Hf, ?Hs, ?Hpos.
  - case_decide; [by apply list_del_NoDup|done].
  - case_decide; [by apply list_del_perm|done].
  - intros z Hz. unfold q_dir. rewrite Hrq. apply H3.
    case_decide; [by apply elem_of_list_del in Hz as [? _]|done].
  - case_decide; [by apply list_del_sorted|done].
  - intros z Hz. destruct (Hn y z Hz) as [Hor Hne]. assert (Hzy : z ∈ fifo_list (dd q) y).
    { destruct Hor as [Hz'|Hz']; [by apply H5|]. rewrite <- H2.
      eapply rb_next_spec; [by apply sort_nodup|exact H4|exact Hz']. }
    case_decide; [by apply elem_of_list_del|done].
  - intros z Hz. assert (Hzy : z ∈ fifo_list (dd q) y /\ z <> r) by (apply Hin; by rewrite Hf). destruct Hzy as [Hzy Hne].
    destruct Hh as [->| ->]; [by apply H6|]. rewrite elem_of_app, list_elem_of_singleton.
    intros [?|?]; [by eapply H6|done].
Qed.

Ltac by_dir :=
  repeat match goal with
  | |- context [<[?a:=_]> _ ?b] =>
      destruct (decide (a = b)) as [?E|?E];
      [subst; rewrite !fn_lookup_insert in *|rewrite !fn_lookup_insert_ne in * by done]
  end.

Lemma rb_next_ne q r x : q_ok q -> rb_next r (sort_list (dd q) x) <> Some r.
Proof.
  intros Hq E. destruct (rb_next_spec (q_pos q) r (sort_list (dd q) x) r) as (_ & Hne & _); try done.
  - apply sort_nodup, Hq.
  - apply (qk_dir _ Hq).
Qed.

Lemma other_dir q r x y z :
  q_ok q -> r ∈ fifo_list (dd q) x -> z ∈ fifo_list (dd q) y -> y <> x -> z <> r.
Proof.
  intros Hq Hr Hz Hne ->. apply Hne.
  by rewrite <- (do_dir _ _ (qk_dir _ Hq y) r Hz), (do_dir _ _ (qk_dir _ Hq x) r Hr).
Qed.

Lemma remove_without q r (x := q_dir q r) :
  q_ok q -> r ∈ fifo_list (dd q) x -> without q (deadline_remove_request q r) r x.
Proof.
  intros Hq Hr. pose proof (rb_next_ne q r x Hq) as Hne.
  assert (Hoth : forall y z, next_rq (dd q) y = Some z -> y <> x -> z <> r).
  { intros y z Hz Hy. eapply other_dir; [done|done| |done]. by apply (qk_dir _ Hq y). }
  unfold deadline_remove_request, deadline_del_rq_rb. change (q_dir (rq_fifo_clear q r) r) with x.
  case_decide as E; split; try done; try (by left).
  all: intros y; cbn; change (q_dir _ r) with x; unfold x in *; by_dir;
    rewrite ?decide_True, ?decide_False by done; try done; intros z Hz.
  - split; [by right|]. intros ->. by apply Hne.
  - split; [by left|]. by eapply Hoth.
  - destruct (decide (y = q_dir q r)) as [->|]; (split; [by left|]); [|by eapply Hoth].
    intros ->. by apply E.
Qed.

(** Unfolds a dispatch down to its record updates. *)
Ltac unfold_move :=
  unfold deadline_move_request, deadline_move_to_dispatch, deadline_remove_request, deadline_del_rq_rb.

Lemma move_without q r (x := q_dir q r) (q' := deadline_move_request q r) :
  q_ok q -> r ∈ fifo_list (dd q) x ->
  without q q' r x /\ queue_head q' = queue_head q ++ [r] /\
  (forall y, next_rq (dd q') y = if decide (y = x) then rb_next r (sort_list (dd q) x) else None).
Proof.
  intros Hq Hr. pose proof (rb_next_ne q r x Hq) as Hne.
  assert (Hnext : forall y, next_rq (dd q') y = if decide (y = x) then rb_next r (sort_list (dd q) x) else None).
  { intros y. unfold q'; unfold_move.
    change (q_dir _ r) with x. change (deadline_latter_request q r) with (rb_next r (sort_list (dd q) x)).
    rewrite decide_False; [|cbn; rewrite fn_lookup_insert; done]. cbn.
    destruct (decide (y = x)) as [->|Hy]; [by rewrite fn_lookup_insert|].
    rewrite fn_lookup_insert_ne by done. by destruct y. }
  assert (Hx : q_dir q r = x) by done. clearbody x.
  assert (Hqh : queue_head q' = queue_head q ++ [r]).
  { unfold q'; unfold_move.
    by case_decide. }
  split; [|by split]. split.
  - unfold q'; unfold_move.
    by case_decide.
  - intros y. unfold q'; unfold_move.
    case_decide; cbn; change (q_dir _ r) with (q_dir q r); rewrite Hx; by_dir;
      rewrite ?decide_True, ?decide_False by done; done.
  - intros y. unfold q'; unfold_move.
    case_decide; cbn; change (q_dir _ r) with (q_dir q r); rewrite Hx; by_dir;
      rewrite ?decide_True, ?decide_False by done; done.
  - intros y z. rewrite Hnext. case_decide; [|done]. subst y. intros Hz. split; [by right|].
    intros ->. by apply Hne.
  - by right.
  - unfold q'; unfold_move.
    by case_decide.
Qed.

(** ** Dispatch *)

(** Request [r] of direction [x] has moved to the dispatch queue. *)
Record dispatched (q q' : request_queue) (r : rqid) (x : ddir) (b s : Z) : Prop := {
  ds_ok : q_ok q';
  ds_in : r ∈ fifo_list (dd q) x;
  ds_fifo : forall y, fifo_list (dd q') y = if decide (y = x) then list_del r (fifo_list (dd q) y) else fifo_list (dd q) y;
  ds_head : queue_head q' = queue_head q ++ [r];
  ds_rqs : rqs q' = rqs q;
  ds_next : forall z, next_rq (dd q') x = Some z -> q_pos q r <= q_pos q z;
  ds_batching : batching (dd q') = b;
  ds_starved : starved (dd q') = s;
  ds_settings : fifo_batch (dd q') = fifo_batch (dd q) /\ writes_starved (dd q') = writes_starved (dd q) }.

Definition with_counts (q : request_queue) (b s : Z) : request_queue :=
  with_dd q (with_batching (with_starved (dd q) s) b).

Lemma with_counts_ok q b s : q_ok q -> 0 <= b < 2 ^ 32 -> 0 <= s < 2 ^ 32 -> q_ok (with_counts q b s).
Proof. intros [Hd Hh Hb Hs] Hb' Hs'. split; try done. intros x. by destruct (Hd x). Qed.

Lemma dispatch_request_ok q b s r x :
  q_ok q -> 0 <= b < 2 ^ 32 - 1 -> 0 <= s < 2 ^ 32 -> r ∈ fifo_list (dd q) x ->
  exists q', dispatch_request (with_counts q b s) r = Ok (1, q') /\ dispatched q q' r x (b + 1) s.
Proof.
  intros Hq Hb Hs Hr. unfold dispatch_request. change (batching (dd (with_counts q b s))) with b.
  rewrite add32_small by lia. change (with_dd _ _) with (with_counts q (b + 1) s).
  assert (Hx : q_dir q r = x) by (by apply (qk_dir _ Hq x)).
  assert (Hq1 : q_ok (with_counts q (b + 1) s)) by (apply with_counts_ok; done || lia).
  destruct (move_without (with_counts q (b + 1) s) r) as (Hwo & Hh & Hn); [done|by rewrite <- Hx in Hr|].
  change (q_dir (with_counts q (b + 1) s) r) with (q_dir q r) in Hwo, Hn. rewrite Hx in Hwo, Hn.
  eexists. split; [done|].
  assert (Hok : q_ok (deadline_move_request (with_counts q (b + 1) s) r)) by (eapply without_ok; [exact Hq1|exact Hwo|done]).
  destruct Hwo as [Hrq Hf _ _ _ (H1 & H2 & H3 & H4)]. split; try done.
  intros z. rewrite Hn, decide_True by done. intros Hz.
  eapply (rb_next_spec (q_pos q)); [by apply (sort_nodup q), Hq|apply (qk_dir _ Hq)|exact Hz].
Qed.

(** How a batch is started in direction [x]. *)
Definition batch_start (jiffies : Z) (q : request_queue) (x : ddir) (r : rqid) : Prop :=
  exists first rest, fifo_list (dd q) x = first :: rest /\
    (r = first \/ next_rq (dd q) x = Some r /\ time_after_eq jiffies (fifo_time (rqs q first)) = false).

Lemma find_request_ok jiffies q s x :
  q_ok q -> 0 <= s < 2 ^ 32 -> fifo_list (dd q) x <> [] ->
  exists r q', dispatch_find_request jiffies (with_dd q (with_starved (dd q) s)) x = Ok (1, q') /\
    dispatched q q' r x 1 s /\ batch_start jiffies q x r.
Proof.
  intros Hq Hs Hne. destruct (fifo_list (dd q) x) as [|first rest] eqn:E; [done|].
  assert (Hrun : exists r, r ∈ fifo_list (dd q) x /\ batch_start jiffies q x r /\
    dispatch_find_request jiffies (with_dd q (with_starved (dd q) s)) x = dispatch_request (with_counts q 0 s) r).
  { unfold dispatch_find_request, deadline_check_fifo, fifo_first. cbn [dd with_dd with_starved fifo_list next_rq rqs].
    rewrite E, res_bind_ok. destruct (next_rq (dd q) x) as [n|] eqn:En.
    - destruct (time_after_eq _ _) eqn:Et; rewrite res_bind_ok.
      + exists first. split; [by left|]. split; [|done]. exists first, rest. split; [done|by left].
      + exists n. split; [rewrite <- E; by apply (qk_dir _ Hq)|]. split; [|done]. exists first, rest. split; [done|by right].
    - rewrite res_bind_ok. exists first. split; [by left|]. split; [|done]. exists first, rest. split; [done|by left]. }
  destruct Hrun as (r & Hr & Hst & ->).
  destruct (dispatch_request_ok q 0 s r x) as (q' & -> & Hds); [done|lia|done|done|]. exists r, q'. done.
Qed.

(** The two ways a dispatch goes: it continues the batch, or starts one. *)
Inductive dispatch_case (jiffies : Z) (q q' : request_queue) (r : rqid) (x : ddir) : Prop :=
| in_batch :
    next_rq (dd q) x = Some r -> batching (dd q) < u32 (fifo_batch (dd q)) ->
    dispatched q q' r x (batching (dd q) + 1) (starved (dd q)) -> dispatch_case jiffies q q' r x
| new_read s :
    x = READ -> batch_start jiffies q READ r ->
    (fifo_list (dd q) WRITE = [] /\ s = starved (dd q) \/
     starved (dd q) < u32 (writes_starved (dd q)) /\ s = starved (dd q) + 1) ->
    dispatched q q' r x 1 s -> dispatch_case jiffies q q' r x
| new_write :
    x = WRITE -> batch_start jiffies q WRITE r ->
    (fifo_list (dd q) READ = [] \/ u32 (writes_starved (dd q)) <= starved (dd q)) ->
    dispatched q q' r x 1 0 -> dispatch_case jiffies q q' r x.

Lemma list_empty_spec l : list_empty l = true <-> l = [].
Proof. by destruct l. Qed.

Lemma sort_empty q x : q_ok q -> list_empty (sort_list (dd q) x) = list_empty (fifo_list (dd q) x).
Proof.
  intros Hq. pose proof (do_perm _ _ (qk_dir _ Hq x)) as Hp.
  destruct (sort_list (dd q) x), (fifo_list (dd q) x); try done.
  - by apply Permutation_nil_l in Hp.
  - by apply Permutation_nil_r in Hp.
Qed.

Lemma select_spec jiffies q :
  q_ok q ->
  (fifo_list (dd q) READ = [] /\ fifo_list (dd q) WRITE = [] /\ dispatch_select jiffies q = Ok (0, q)) \/
  exists r x q', dispatch_select jiffies q = Ok (1, q') /\ dispatch_case jiffies q q' r x.
Proof.
  intros Hq. unfold dispatch_select. pose proof (qk_starved _ Hq). pose proof (u32_range (writes_starved (dd q))).
  pose proof (sort_empty q READ Hq) as HsR. pose proof (sort_empty q WRITE Hq) as HsW.
  assert (Hwrite : fifo_list (dd q) WRITE <> [] ->
    fifo_list (dd q) READ = [] \/ u32 (writes_starved (dd q)) <= starved (dd q) -> forall s,
    exists r x q', dispatch_writes jiffies (with_dd q (with_starved (dd q) s)) = Ok (1, q') /\
      dispatch_case jiffies q q' r x).
  { intros Hne Hor s. unfold dispatch_writes. change (sort_list (dd (with_dd q _)) WRITE) with (sort_list (dd q) WRITE).
    rewrite HsW. destruct (list_empty (fifo_list (dd q) WRITE)) eqn:El; [by apply list_empty_spec in El|]. cbn [bug_on].
    destruct (find_request_ok jiffies q 0 WRITE) as (r & q' & Hrun & Hds & Hst); [done|lia|done|].
    exists r, WRITE, q'. split; [exact Hrun|]. by apply new_write. }
  destruct (list_empty (fifo_list (dd q) READ)) eqn:ER; cbn [negb].
  - apply list_empty_spec in ER. destruct (list_empty (fifo_list (dd q) WRITE)) eqn:EW; cbn [negb].
    + apply list_empty_spec in EW. by left.
    + right. destruct (Hwrite) with (s := starved (dd q)) as (r & x & q' & Hrun & Hc);
        [intros E; by rewrite E in EW|by left|].
      exists r, x, q'. split; [|done]. rewrite <- Hrun. by destruct q as [? [] ? ? ? ? ?].
  - right. rewrite HsR. cbn [bug_on]. assert (HneR : fifo_list (dd q) READ <> []) by (intros E; by rewrite E in ER).
    destruct (list_empty (fifo_list (dd q) WRITE)) eqn:EW; cbn [negb].
    + apply list_empty_spec in EW. destruct (find_request_ok jiffies q (starved (dd q)) READ) as (r & q' & Hrun & Hds & Hst); [done|lia|done|].
      exists r, READ, q'. split; [rewrite <- Hrun; by destruct q as [? [] ? ? ? ? ?]|].
      apply new_read with (s := starved (dd q)); try done. by left.
    + change (writes_starved (dd (with_dd q _))) with (writes_starved (dd q)).
      destruct (Z.leb_spec (u32 (writes_starved (dd q))) (starved (dd q))).
      * apply Hwrite; [intros E; by rewrite E in EW|by right].
      * rewrite add32_small by lia.
        destruct (find_request_ok jiffies q (starved (dd q) + 1) READ) as (r & q' & Hrun & Hds & Hst); [done|lia|done|].
        exists r, READ, q'. split; [done|]. apply new_read with (s := starved (dd q) + 1); try done. by right.
Qed.

Lemma dispatch_spec jiffies q :
  q_ok q ->
  (fifo_list (dd q) READ = [] /\ fifo_list (dd q) WRITE = [] /\ deadline_dispatch_requests jiffies q = Ok (0, q)) \/
  exists r x q', deadline_dispatch_requests jiffies q = Ok (1, q') /\ dispatch_case jiffies q q' r x.
Proof.
  intros Hq. unfold deadline_dispatch_requests.
  pose proof (qk_batching _ Hq). pose proof (qk_starved _ Hq). pose proof (u32_range (fifo_batch (dd q))).
  assert (Hbatch : forall r x, next_rq (dd q) x = Some r -> batching (dd q) < u32 (fifo_batch (dd q)) ->
    exists q', dispatch_request q r = Ok (1, q') /\ dispatch_case jiffies q q' r x).
  { intros r x Hn Hlt. destruct (dispatch_request_ok q (batching (dd q)) (starved (dd q)) r x) as (q' & Hrun & Hds);
      [done|lia|done|by apply (qk_dir _ Hq)|].
    exists q'. split; [|by apply in_batch]. rewrite <- Hrun. by destruct q as [? [] ? ? ? ? ?]. }
  destruct (match next_rq (dd q) WRITE with Some r => Some r | None => next_rq (dd q) READ end) as [r|] eqn:E;
    [|by apply select_spec].
  destruct (Z.ltb_spec (batching (dd q)) (u32 (fifo_batch (dd q)))) as [Hlt|]; [|by apply select_spec].
  right. destruct (next_rq (dd q) WRITE) as [w|] eqn:Ew; [injection E as ->|].
  - destruct (Hbatch r WRITE) as (q' & Hrun & Hc); [done|done|]. by exists r, WRITE, q'.
  - destruct (Hbatch r READ) as (q' & Hrun & Hc); [done|done|]. by exists r, READ, q'.
Qed.

(** C36.  Whenever a request is queued a dispatch moves exactly one request to
    the dispatch queue and keeps the scheduler consistent; it continues the
    running batch in sector order, or starts a batch with the oldest request
    of a direction, or with the next one in sector order only while the oldest
    has not expired.  It returns 0 exactly when nothing is queued. *)
Theorem deadline_dispatch_correct jiffies q :
  q_ok q ->
  (fifo_list (dd q) READ = [] /\ fifo_list (dd q) WRITE = [] /\ deadline_dispatch_requests jiffies q = Ok (0, q)) \/
  exists r x q', deadline_dispatch_requests jiffies q = Ok (1, q') /\ q_ok q' /\
    r ∈ fifo_list (dd q) x /\ queue_head q' = queue_head q ++ [r] /\
    (forall y, fifo_list (dd q') y = if decide (y = x) then list_del r (fifo_list (dd q) y) else fifo_list (dd q) y) /\
    (forall z, next_rq (dd q') x = Some z -> q_pos q r <= q_pos q z) /\
    ((next_rq (dd q) x = Some r /\ batching (dd q) < u32 (fifo_batch (dd q))) \/ batch_start jiffies q x r).
Proof.
  intros Hq. destruct (dispatch_spec jiffies q Hq) as [?|(r & x & q' & Hrun & Hc)]; [by left|].
  right. exists r, x, q'. split; [done|]. destruct Hc as [Hn Hb Hds|s -> Hst _ Hds| -> Hst _ Hds];
    destruct Hds; split_and!; try done; [by left|by right..].
Qed.

(** ** Starvation *)

(** The test of [deadline_dispatch_requests] for a batch that goes on. *)
Definition continues (q : request_queue) : bool :=
  match next_rq (dd q) WRITE, next_rq (dd q) READ with
  | None, None => false
  | _, _ => batching (dd q) <? u32 (fifo_batch (dd q))
  end.

(** [n] dispatches of reads, [b] of which started a batch, while writes were
    queued, between any number of arrivals. *)
Inductive reads_only : nat -> nat -> request_queue -> request_queue -> Prop :=
| ro_nil q : reads_only 0 0 q q
| ro_add n b q q1 jiffies r :
    reads_only n b q q1 -> r ∉ fifo_list (dd q1) (q_dir q1 r) -> r ∉ queue_head q1 ->
    reads_only n b q (deadline_add_request jiffies q1 r)
| ro_read n b q q1 q2 jiffies r :
    reads_only n b q q1 -> fifo_list (dd q1) WRITE <> [] ->
    deadline_dispatch_requests jiffies q1 = Ok (1, q2) -> queue_head q2 = queue_head q1 ++ [r] ->
    q_dir q1 r = READ -> reads_only (S n) (if continues q1 then b else S b) q q2.

(** The length of a batch. *)
Definition batch_len (q : request_queue) : Z := Z.max 1 (u32 (fifo_batch (dd q))).

(** What is left for reads: batches, and requests of the running batch. *)
Definition patience (q : request_queue) : Z :=
  Z.max 0 (u32 (writes_starved (dd q)) - starved (dd q)) * batch_len q + Z.max 0 (batch_len q - batching (dd q)).

(** The batches of reads that may still start. *)
Definition batches_left (q : request_queue) : Z := Z.max 0 (u32 (writes_starved (dd q)) - starved (dd q)).

Lemma read_dispatch_patience jiffies q q' r x :
  q_ok q -> fifo_list (dd q) WRITE <> [] -> x = READ -> dispatch_case jiffies q q' r x ->
  patience q' + 1 <= patience q /\ batches_left q' + (if continues q then 0 else 1) <= batches_left q.
Proof.
  intros Hq Hw -> Hc. pose proof (qk_batching _ Hq). unfold patience, batch_len, batches_left.
  destruct Hc as [Hn Hb Hds|s _ Hst Hs Hds|Hx _ _ _]; [| |done]; destruct Hds as [_ _ _ _ _ _ -> -> [-> ->]].
  - split; [lia|]. unfold continues. rewrite Hn, (proj2 (Z.ltb_lt _ _)) by done. destruct (next_rq (dd q) WRITE); lia.
  - destruct Hs as [[? _]|[Hlt ->]]; [done|]. split; [|destruct (continues q); lia].
    remember (u32 (writes_starved (dd q))) as W. remember (u32 (fifo_batch (dd q))) as B. nia.
Qed.

Lemma reads_only_patience n b q q' :
  q_ok q -> reads_only n b q q' -> q_ok q' /\ Z.of_nat n + patience q' <= patience q /\ Z.of_nat b + batches_left q' <= batches_left q.
Proof.
  intros Hq. induction 1 as [q|n b q q1 jiffies r _ IH Hnf Hnq|n b q q1 q2 jiffies r _ IH Hw Hrun Hh Hdir].
  - split_and!; [done|lia|lia].
  - destruct (IH Hq) as (Hq1 & Hp & Hb). split; [by apply add_request_ok|]. done.
  - destruct (IH Hq) as (Hq1 & Hp & Hb).
    destruct (dispatch_spec jiffies q1 Hq1) as [(_ & ? & _)|(r' & x & q2' & Hrun' & Hc)]; [done|].
    rewrite Hrun in Hrun'. injection Hrun' as <-.
    assert (Hds : exists b s, dispatched q1 q2 r' x b s) by (destruct Hc; eauto). destruct Hds as (b' & s & Hds).
    assert (r' = r) as ->.
    { pose proof (ds_head _ _ _ _ _ _ Hds) as E. rewrite Hh in E. apply app_inv_head in E. by injection E. }
    assert (Hx : x = READ) by (rewrite <- Hdir; symmetry; apply (qk_dir _ Hq1 x); apply Hds).
    split; [apply Hds|]. destruct (read_dispatch_patience jiffies q1 q2 r x Hq1 Hw Hx Hc) as [Hp1 Hb1]. destruct (continues q1); lia.
Qed.

(** C35.  However requests arrive, while a write is queued at most
    [writes_starved] batches of reads are started, and with the batch that was
    running at most [writes_starved + 1] times [fifo_batch] reads are
    dispatched.  Both settings are read as unsigned, as the code compares them;
    a [fifo_batch] of 0 makes batches of one request. *)
Theorem writes_not_starved n b q q' :
  q_ok q -> reads_only n b q q' ->
  Z.of_nat b <= u32 (writes_starved (dd q)) /\
  Z.of_nat n <= (u32 (writes_starved (dd q)) + 1) * Z.max 1 (u32 (fifo_batch (dd q))).
Proof.
  intros Hq Hro. destruct (reads_only_patience n b q q' Hq Hro) as (_ & Hp & Hb).
  pose proof (qk_batching _ Hq). pose proof (qk_starved _ Hq). pose proof (u32_range (writes_starved (dd q))).
  unfold patience, batch_len, batches_left in *. split; [lia|nia].
Qed.

(** ** Merges *)

(** Changing fields of a request other than its direction and position. *)
Lemma set_fifo_time_ok q r t : q_ok q -> q_ok (set_fifo_time q r t).
Proof.
  intros [Hd Hh Hb Hs]. split; try done. intros x. destruct (Hd x) as [H1 H2 H3 H4 H5 H6].
  assert (Hpos : forall y, q_pos (set_fifo_time q r t) y = q_pos q y).
  { intros y. unfold q_pos. cbn. destruct (decide (r = y)) as [<-|];
      [by rewrite fn_lookup_insert|by rewrite fn_lookup_insert_ne]. }
  split; try done.
  - intros y Hy. rewrite <- (H3 y Hy). unfold q_dir. cbn. destruct (decide (r = y)) as [<-|];
      [by rewrite fn_lookup_insert|by rewrite fn_lookup_insert_ne].
  - revert H4. cbn. apply StronglySorted_ind; [constructor|]. intros a k _ Hk Ha. constructor; [done|].
    eapply Forall_impl; [exact Ha|]. unfold pos_le. intros b. by rewrite !Hpos.
Qed.

Lemma with_fifo_perm_ok q x l :
  q_ok q -> l ≡ₚ fifo_list (dd q) x -> q_ok (with_dd q (with_fifo (dd q) x l)).
Proof.
  intros [Hd Hh Hb Hs] Hp. split; try done. intros y. destruct (Hd y) as [H1 H2 H3 H4 H5 H6].
  assert (Hf : fifo_list (dd (with_dd q (with_fifo (dd q) x l))) y ≡ₚ fifo_list (dd q) y).
  { cbn. destruct (decide (x = y)) as [<-|]; [by rewrite fn_lookup_insert|by rewrite fn_lookup_insert_ne]. }
  split; try done.
  - by rewrite Hf.
  - by rewrite Hf.
  - intros r. rewrite Hf. apply H3.
  - intros r Hr. rewrite Hf. by apply H5.
  - intros r. rewrite Hf. apply H6.
Qed.

(** When two queued requests of a direction are merged the second leaves
    the scheduler, the first keeps the earlier of the two expiry times, and no
    other request is touched. *)
Theorem deadline_merged_requests_correct q req next x (q' := deadline_merged_requests q req next)
    (earlier := time_before (fifo_time (rqs q next)) (fifo_time (rqs q req))) :
  q_ok q -> req ∈ fifo_list (dd q) x -> next ∈ fifo_list (dd q) x -> req <> next ->
  q_ok q' /\
  (forall y r, r ∈ fifo_list (dd q') y <-> r ∈ fifo_list (dd q) y /\ r <> next) /\
  fifo_time (rqs q' req) = (if earlier then fifo_time (rqs q next) else fifo_time (rqs q req)) /\
  (forall r, r <> req -> rqs q' r = rqs q r).
Proof.
  intros Hq Hreq Hnext Hne. unfold q', deadline_merged_requests. fold earlier.
  assert (Hx : q_dir q req = x) by (by apply (qk_dir _ Hq x)).
  assert (Hxn : q_dir q next = x) by (by apply (qk_dir _ Hq x)).
  assert (Hon : on_list q req && on_list q next = true).
  { unfold on_list. rewrite Hx, Hxn. rewrite (bool_decide_eq_true_2 _ Hreq), (bool_decide_eq_true_2 _ Hnext). done. }
  rewrite Hon. cbn [andb].
  set (q1 := if earlier then _ else q).
  assert (H1 : q_ok q1 /\ (forall y, fifo_list (dd q1) y ≡ₚ fifo_list (dd q) y) /\ q_dir q1 next = x /\
    fifo_time (rqs q1 req) = (if earlier then fifo_time (rqs q next) else fifo_time (rqs q req)) /\
    (forall r, r <> req -> rqs q1 r = rqs q r)).
  { unfold q1. destruct earlier; [|done]. rewrite Hx.
    assert (Hp : list_move_after req next (fifo_list (dd q) x) ≡ₚ fifo_list (dd q) x).
    { apply list_move_after_perm; try done. apply (qk_dir _ Hq x). }
    split_and!.
    - apply set_fifo_time_ok. by apply with_fifo_perm_ok.
    - intros y. cbn. destruct (decide (x = y)) as [<-|]; [by rewrite fn_lookup_insert|by rewrite fn_lookup_insert_ne].
    - unfold q_dir. cbn. by rewrite fn_lookup_insert_ne.
    - cbn. by rewrite fn_lookup_insert.
    - intros r Hr. cbn. by rewrite fn_lookup_insert_ne. }
  clearbody q1. destruct H1 as (Hq1 & Hf & Hd1 & Ht & Hr). assert (Hin : next ∈ fifo_list (dd q1) (q_dir q1 next)).
  { by rewrite Hd1, Hf. }
  pose proof (remove_without q1 next Hq1 Hin) as Hwo. split_and!.
  - by eapply without_ok.
  - intros y r. rewrite (without_in _ _ _ _ y r Hq1 Hwo Hin). by rewrite Hf.
  - by rewrite (wo_rqs _ _ _ _ Hwo).
  - intros r Hne'. rewrite (wo_rqs _ _ _ _ Hwo). by apply Hr.
Qed.

(** * * The deadline scheduler on a concrete queue *)

Lemma init_ok rs HZ : q_ok (mkQ rs (deadline_init_data HZ) [] 0 0 None None).
Proof.
  split; cbn; [|constructor|lia|lia]. intros x. split; cbn; try done; try constructor;
    by intros r ?%not_elem_of_nil.
Qed.

(** Reads at sectors 100 and 20, a write at sector 50. *)
Definition ex_rqs (r : rqid) : request :=
  match r with
  | 0%nat => mkRq READ 100 8 0
  | 1%nat => mkRq WRITE 50 8 0
  | _ => mkRq READ 20 8 0
  end.

Definition ex_q0 : request_queue := mkQ ex_rqs (deadline_init_data 100) [] 0 0 None None.
Definition ex_q1 : request_queue := deadline_add_request 1000 ex_q0 0%nat.
Definition ex_q2 : request_queue := deadline_add_request 1001 ex_q1 1%nat.
Definition ex_q3 : request_queue := deadline_add_request 1002 ex_q2 2%nat.

Lemma ex_q3_ok : q_ok ex_q3.
Proof.
  apply add_request_ok; [|vm_compute; set_solver..]. apply add_request_ok; [|vm_compute; set_solver..].
  apply add_request_ok; [apply init_ok|vm_compute; set_solver..].
Qed.

Lemma deadline_dispatch_witness :
  (fifo_list (dd ex_q3) READ = [] /\ fifo_list (dd ex_q3) WRITE = [] /\
   deadline_dispatch_requests 1003 ex_q3 = Ok (0, ex_q3)) \/
  exists r x q', deadline_dispatch_requests 1003 ex_q3 = Ok (1, q') /\ q_ok q' /\
    r ∈ fifo_list (dd ex_q3) x /\ queue_head q' = queue_head ex_q3 ++ [r] /\
    (forall y, fifo_list (dd q') y = if decide (y = x) then list_del r (fifo_list (dd ex_q3) y) else fifo_list (dd ex_q3) y) /\
    (forall z, next_rq (dd q') x = Some z -> q_pos ex_q3 r <= q_pos ex_q3 z) /\
    ((next_rq (dd ex_q3) x = Some r /\ batching (dd ex_q3) < u32 (fifo_batch (dd ex_q3))) \/ batch_start 1003 ex_q3 x r).
Proof. apply (deadline_dispatch_correct 1003 ex_q3 ex_q3_ok). Defined.

(** The oldest read goes first although the other has a lower sector; the
    write, which both reads precede, goes last. *)
Lemma ex_dispatch_order :
  ('(_, q) ← deadline_dispatch_requests 1003 ex_q3; '(_, q) ← deadline_dispatch_requests 1004 q;
   '(_, q) ← deadline_dispatch_requests 1005 q; '(n, q) ← deadline_dispatch_requests 1006 q;
   Ok (n, queue_head q)) = Ok (0, [0; 2; 1]%nat).
Proof. vm_compute. reflexivity. Qed.

Definition ex_q4 : request_queue :=
  match deadline_dispatch_requests 1003 ex_q3 with Ok (_, q) => q | _ => ex_q3 end.

Lemma writes_not_starved_witness :
  reads_only 1 1 ex_q3 ex_q4 /\ Z.of_nat 1 <= u32 (writes_starved (dd ex_q3)) /\ Z.of_nat 1 <= (u32 (writes_starved (dd ex_q3)) + 1) * Z.max 1 (u32 (fifo_batch (dd ex_q3))).
Proof.
  assert (Hro : reads_only 1 1 ex_q3 ex_q4).
  { eapply (ro_read 0 0 ex_q3 ex_q3 ex_q4 1003 0%nat); [apply ro_nil|..]; vm_compute; reflexivity || congruence. }
  split; [exact Hro|]. apply (writes_not_starved 1 1 ex_q3 ex_q4 ex_q3_ok Hro).
Defined.

Lemma deadline_merged_requests_witness :
  let q' := deadline_merged_requests ex_q3 2%nat 0%nat in
  q_ok q' /\
  (forall y r, r ∈ fifo_list (dd q') y <-> r ∈ fifo_list (dd ex_q3) y /\ r <> 0%nat) /\
  fifo_time (rqs q' 2%nat) = 1050 /\
  (forall r, r <> 2%nat -> rqs q' r = rqs ex_q3 r).
Proof.
  apply (deadline_merged_requests_correct ex_q3 2%nat 0%nat READ ex_q3_ok); [vm_compute; set_solver..|done].
Defined.
