(* ===== verification/FindBitDefs.v ===== *)
(** Bit searches: [__ffs] and [__fls] of [include/asm-generic/bitops/], the
    word-at-a-time searches of [lib/find_next_bit.c] and
    [lib/find_last_bit.c], and [test_bit] and the non-atomic bit operations of
    [include/asm-generic/bitops/non-atomic.h].

    A memory region of [unsigned long]s is a list of 64-bit words; [bit m i]
    is the abstract view of it as a function from bit numbers to booleans.
    Each search is shown equal to the scan [next_ref] that looks at one bit at
    a time. *)
From S2P Require Import Prelude.

(** ** Words *)

Definition BITS_PER_LONG : Z := 64.

(** [~x], [x << n] and [x >> n] on [unsigned long]. *)
Definition lnot64 (x : Z) : Z := ULLONG_MAX - x.
Definition shl64 (x n : Z) : Z := u64 (Z.shiftl x n).
Definition shr64 (x n : Z) : Z := Z.shiftr x n.

(** [include/asm-generic/bitops/__ffs.h]; each test halves the width. *)
Definition __ffs (word : Z) : Z :=
  let num := 0 in
  let '(num, word) := if Z.land word 0xffffffff =? 0 then (num + 32, shr64 word 32) else (num, word) in
  let '(num, word) := if Z.land word 0xffff =? 0 then (num + 16, shr64 word 16) else (num, word) in
  let '(num, word) := if Z.land word 0xff =? 0 then (num + 8, shr64 word 8) else (num, word) in
  let '(num, word) := if Z.land word 0xf =? 0 then (num + 4, shr64 word 4) else (num, word) in
  let '(num, word) := if Z.land word 0x3 =? 0 then (num + 2, shr64 word 2) else (num, word) in
  if Z.land word 0x1 =? 0 then num + 1 else num.

(** [include/asm-generic/bitops/__fls.h]. *)
Definition __fls (word : Z) : Z :=
  let num := BITS_PER_LONG - 1 in
  let '(num, word) := if Z.land word (shl64 ULLONG_MAX 32) =? 0 then (num - 32, shl64 word 32) else (num, word) in
  let '(num, word) := if Z.land word (shl64 ULLONG_MAX (BITS_PER_LONG - 16)) =? 0 then (num - 16, shl64 word 16) else (num, word) in
  let '(num, word) := if Z.land word (shl64 ULLONG_MAX (BITS_PER_LONG - 8)) =? 0 then (num - 8, shl64 word 8) else (num, word) in
  let '(num, word) := if Z.land word (shl64 ULLONG_MAX (BITS_PER_LONG - 4)) =? 0 then (num - 4, shl64 word 4) else (num, word) in
  let '(num, word) := if Z.land word (shl64 ULLONG_MAX (BITS_PER_LONG - 2)) =? 0 then (num - 2, shl64 word 2) else (num, word) in
  if Z.land word (shl64 ULLONG_MAX (BITS_PER_LONG - 1)) =? 0 then num - 1 else num.

(** [fls64] for 64-bit [long]. *)
Definition fls64 (x : Z) : Z := if x =? 0 then 0 else __fls x + 1.

Definition ffz (word : Z) : Z := __ffs (lnot64 word).

(** ** Bit operations in memory *)

Definition BIT_MASK (nr : Z) : Z := shl64 1 (nr mod BITS_PER_LONG).
Definition BIT_WORD (nr : Z) : nat := Z.to_nat (nr / BITS_PER_LONG).

Definition __set_bit (nr : Z) (addr : list Z) : res (list Z) :=
  w ← aget addr (BIT_WORD nr); aset addr (BIT_WORD nr) (Z.lor w (BIT_MASK nr)).

Definition __clear_bit (nr : Z) (addr : list Z) : res (list Z) :=
  w ← aget addr (BIT_WORD nr); aset addr (BIT_WORD nr) (Z.land w (lnot64 (BIT_MASK nr))).

Definition __change_bit (nr : Z) (addr : list Z) : res (list Z) :=
  w ← aget addr (BIT_WORD nr); aset addr (BIT_WORD nr) (Z.lxor w (BIT_MASK nr)).

Definition test_bit (nr : Z) (addr : list Z) : res bool :=
  w ← aget addr (BIT_WORD nr);
  Ok (negb (Z.land 1 (shr64 w (Z.land nr (BITS_PER_LONG - 1))) =? 0)).

Definition __test_and_set_bit (nr : Z) (addr : list Z) : res (bool * list Z) :=
  old ← aget addr (BIT_WORD nr);
  addr' ← aset addr (BIT_WORD nr) (Z.lor old (BIT_MASK nr));
  Ok (negb (Z.land old (BIT_MASK nr) =? 0), addr').

Definition __test_and_clear_bit (nr : Z) (addr : list Z) : res (bool * list Z) :=
  old ← aget addr (BIT_WORD nr);
  addr' ← aset addr (BIT_WORD nr) (Z.land old (lnot64 (BIT_MASK nr)));
  Ok (negb (Z.land old (BIT_MASK nr) =? 0), addr').

(** ** [lib/find_next_bit.c] *)

Definition BITOP_WORD (nr : Z) : nat := Z.to_nat (nr / BITS_PER_LONG).

(** The code after the label [found_first] of [find_next_bit]; the last word
    of [find_first_bit] is examined in the same way. *)
Definition found_first (result size tmp : Z) : Z :=
  let tmp := Z.land tmp (shr64 ULLONG_MAX (BITS_PER_LONG - size)) in
  if tmp =? 0 then result ⊕ size else result ⊕ __ffs tmp.

(** The loop over whole words, and what follows it. *)
Definition find_bit_words (addr : list Z) (s : nat * Z * Z) : res ((nat * Z * Z) + Z) :=
  let '(p, result, size) := s in
  if Z.land size (lnot64 (BITS_PER_LONG - 1)) =? 0 then
    if size =? 0 then Ok (inr result)
    else tmp ← aget addr p; Ok (inr (found_first result size tmp))
  else
    tmp ← aget addr p;
    if negb (tmp =? 0) then Ok (inr (result ⊕ __ffs tmp))
    else Ok (inl (S p, result ⊕ BITS_PER_LONG, size ⊖ BITS_PER_LONG)).

(** Enough rounds for [size] bits. *)
Definition find_fuel (size : Z) : nat := S (Z.to_nat (size / BITS_PER_LONG)).

Definition find_next_bit (addr : list Z) (size offset : Z) : res Z :=
  let p := BITOP_WORD offset in
  let result := Z.land offset (lnot64 (BITS_PER_LONG - 1)) in
  if offset >=? size then Ok size
  else
    let size := size ⊖ result in
    let offset := offset mod BITS_PER_LONG in
    if negb (offset =? 0) then
      tmp ← aget addr p;
      let tmp := Z.land tmp (shl64 ULLONG_MAX offset) in
      if size <? BITS_PER_LONG then Ok (found_first result size tmp)
      else if negb (tmp =? 0) then Ok (result ⊕ __ffs tmp)
      else loop (find_fuel size) (find_bit_words addr)
             (S p, result ⊕ BITS_PER_LONG, size ⊖ BITS_PER_LONG)
    else loop (find_fuel size) (find_bit_words addr) (p, result, size).

Definition find_first_bit (addr : list Z) (size : Z) : res Z :=
  loop (find_fuel size) (find_bit_words addr) (O, 0, size).

(** The searches for a zero bit. *)
Definition found_first_zero (result size tmp : Z) : Z :=
  let tmp := Z.lor tmp (shl64 ULLONG_MAX size) in
  if tmp =? ULLONG_MAX then result ⊕ size else result ⊕ ffz tmp.

Definition find_zero_bit_words (addr : list Z) (s : nat * Z * Z) : res ((nat * Z * Z) + Z) :=
  let '(p, result, size) := s in
  if Z.land size (lnot64 (BITS_PER_LONG - 1)) =? 0 then
    if size =? 0 then Ok (inr result)
    else tmp ← aget addr p; Ok (inr (found_first_zero result size tmp))
  else
    tmp ← aget addr p;
    if negb (lnot64 tmp =? 0) then Ok (inr (result ⊕ ffz tmp))
    else Ok (inl (S p, result ⊕ BITS_PER_LONG, size ⊖ BITS_PER_LONG)).

Definition find_next_zero_bit (addr : list Z) (size offset : Z) : res Z :=
  let p := BITOP_WORD offset in
  let result := Z.land offset (lnot64 (BITS_PER_LONG - 1)) in
  if offset >=? size then Ok size
  else
    let size := size ⊖ result in
    let offset := offset mod BITS_PER_LONG in
    if negb (offset =? 0) then
      tmp ← aget addr p;
      let tmp := Z.lor tmp (shr64 ULLONG_MAX (BITS_PER_LONG - offset)) in
      if size <? BITS_PER_LONG then Ok (found_first_zero result size tmp)
      else if negb (lnot64 tmp =? 0) then Ok (result ⊕ ffz tmp)
      else loop (find_fuel size) (find_zero_bit_words addr)
             (S p, result ⊕ BITS_PER_LONG, size ⊖ BITS_PER_LONG)
    else loop (find_fuel size) (find_zero_bit_words addr) (p, result, size).

Definition find_first_zero_bit (addr : list Z) (size : Z) : res Z :=
  loop (find_fuel size) (find_zero_bit_words addr) (O, 0, size).

(** ** [lib/find_last_bit.c] *)

(** [while (words) { tmp = addr[--words]; ... } return size]. *)
Fixpoint find_last_words (addr : list Z) (size : Z) (words : nat) : res Z :=
  match words with
  | O => Ok size
  | S words' =>
      tmp ← aget addr words';
      if negb (tmp =? 0) then Ok (Z.of_nat words' * BITS_PER_LONG + __fls tmp)
      else find_last_words addr size words'
  end.

Definition find_last_bit (addr : list Z) (size : Z) : res Z :=
  let words := Z.to_nat (size / BITS_PER_LONG) in
  if negb (Z.land size (BITS_PER_LONG - 1) =? 0) then
    w ← aget addr words;
    let tmp := Z.land w (shr64 ULLONG_MAX (BITS_PER_LONG - Z.land size (BITS_PER_LONG - 1))) in
    if negb (tmp =? 0) then Ok (Z.of_nat words * BITS_PER_LONG + __fls tmp)
    else find_last_words addr size words
  else find_last_words addr size words.

(** ** The abstract view *)

(** A word of memory, and a region of words. *)
Definition word (w : Z) : Prop := 0 <= w < 2 ^ 64.

(** Bit [i] of a region; bits beyond its end read as zero. *)
Definition bit (m : list Z) (i : Z) : bool :=
  Z.testbit (default 0 (m !! Z.to_nat (i / 64))) (i mod 64).

(** A region that has room for [size] bits. *)
Definition holds (m : list Z) (size : Z) : Prop :=
  Forall word m /\ 0 <= size <= 64 * Z.of_nat (length m) /\ 64 * Z.of_nat (length m) < 2 ^ 64.

(** Looking at one bit at a time. *)
Fixpoint scan (P : Z -> bool) (n : nat) (i : Z) : Z :=
  match n with O => i | S n' => if P i then i else scan P n' (i + 1) end.

(** The first position from [offset] on where [P] holds, or [size]. *)
Definition next_ref (P : Z -> bool) (size offset : Z) : Z :=
  if offset >=? size then size else scan P (Z.to_nat (size - offset)) offset.

(** The last position below [size] where [P] holds, or [dflt]. *)
Fixpoint last_ref (P : Z -> bool) (n : nat) (dflt : Z) : Z :=
  match n with
  | O => dflt
  | S n' => if P (Z.of_nat n') then Z.of_nat n' else last_ref P n' dflt
  end.
