(* ===== verification/FindBit.v ===== *)
(** Correctness of the bit searches: bits of words, [__ffs] and [__fls], the
    loops of the searches against the reference scans, and the operations on
    single bits. *)
From S2P Require Import Prelude FindBitDefs.

(** ** Bits of words *)

Lemma ULLONG_MAX_ones : ULLONG_MAX = Z.ones 64.
Proof. done. Qed.

Lemma word_u64 x : word (u64 x).
Proof. apply u64_range. Qed.

Lemma word_max : word ULLONG_MAX.
Proof. done. Qed.

Lemma word_lnot x : word x -> word (lnot64 x).
Proof. unfold word, lnot64, ULLONG_MAX. lia. Qed.

Lemma word_bits_high w i : word w -> 64 <= i -> Z.testbit w i = false.
Proof.
  intros Hw Hi. rewrite <- (Z.mod_small w (2 ^ 64)) by done.
  apply Z.mod_pow2_bits_high. lia.
Qed.

Lemma word_of_bits w : 0 <= w -> (forall i, 64 <= i -> Z.testbit w i = false) -> word w.
Proof.
  intros H0 Hb. split; [done|]. destruct (decide (w = 0)) as [->|]; [lia|].
  apply Z.log2_lt_pow2; [lia|]. destruct (Z.ltb_spec (Z.log2 w) 64) as [|Hl]; [done|].
  specialize (Hb _ Hl). rewrite Z.bit_log2 in Hb; [done|lia].
Qed.

Lemma word_land x y : word x -> 0 <= y -> word (Z.land x y).
Proof.
  intros Hx Hy. apply word_of_bits; [apply Z.land_nonneg; by right|]. intros i Hi.
  by rewrite Z.land_spec, (word_bits_high x).
Qed.

Lemma word_lor x y : word x -> word y -> word (Z.lor x y).
Proof.
  intros Hx Hy. apply word_of_bits; [apply Z.lor_nonneg; unfold word in *; lia|]. intros i Hi.
  by rewrite Z.lor_spec, !word_bits_high.
Qed.

Lemma word_lxor x y : word x -> word y -> word (Z.lxor x y).
Proof.
  intros Hx Hy. apply word_of_bits; [apply Z.lxor_nonneg; unfold word in *; lia|]. intros i Hi.
  by rewrite Z.lxor_spec, !word_bits_high.
Qed.

Lemma word_shl x n : word (shl64 x n).
Proof. apply u64_range. Qed.

Lemma word_shr x n : word x -> 0 <= n -> word (shr64 x n).
Proof.
  intros Hx Hn. unfold shr64. apply word_of_bits; [apply Z.shiftr_nonneg; apply Hx|].
  intros i Hi. rewrite Z.shiftr_spec by lia. apply word_bits_high; [done|lia].
Qed.

#[export] Hint Resolve word_u64 word_max word_lnot word_land word_lor word_lxor word_shl word_shr
  Z.lor_nonneg : cint.

Lemma lnot64_bits w i : word w -> 0 <= i < 64 -> Z.testbit (lnot64 w) i = negb (Z.testbit w i).
Proof.
  intros Hw Hi. replace (lnot64 w) with (Z.lnot w mod 2 ^ 64).
  - rewrite Z.mod_pow2_bits_low, Z.lnot_spec by lia. done.
  - unfold lnot64, ULLONG_MAX. symmetry. apply Z.mod_unique with (-1); [unfold word in Hw; lia|].
    unfold Z.lnot. lia.
Qed.

Lemma lnot64_invol w : lnot64 (lnot64 w) = w.
Proof. unfold lnot64. lia. Qed.

Lemma shl64_bits x n i : 0 <= i < 64 -> Z.testbit (shl64 x n) i = Z.testbit x (i - n).
Proof. intros Hi. unfold shl64, u64. rewrite Z.mod_pow2_bits_low, Z.shiftl_spec by lia. done. Qed.

Lemma shr64_bits x n i : 0 <= i -> Z.testbit (shr64 x n) i = Z.testbit x (i + n).
Proof. apply Z.shiftr_spec. Qed.

Lemma max_bits i : 0 <= i -> Z.testbit ULLONG_MAX i = (i <? 64).
Proof. intros. rewrite ULLONG_MAX_ones. by apply Z.testbit_ones_nonneg. Qed.

(** The masks [~0UL << n] and [~0UL >> (64 - n)]. *)
Lemma high_mask_bits n i : 0 <= n -> 0 <= i < 64 -> Z.testbit (shl64 ULLONG_MAX n) i = (n <=? i).
Proof.
  intros Hn Hi. rewrite shl64_bits by done. destruct (Z.leb_spec n i).
  - rewrite max_bits by lia. lia.
  - by rewrite Z.testbit_neg_r by lia.
Qed.

Lemma low_mask_bits n i : 0 <= n <= 64 -> 0 <= i -> Z.testbit (shr64 ULLONG_MAX (64 - n)) i = (i <? n).
Proof. intros Hn Hi. rewrite shr64_bits, max_bits by lia. lia. Qed.

Lemma word_eq_bits x y :
  word x -> word y -> (forall i, 0 <= i < 64 -> Z.testbit x i = Z.testbit y i) -> x = y.
Proof.
  intros Hx Hy Hb. apply Z.bits_inj'. intros i Hi.
  destruct (Z.ltb_spec i 64); [by apply Hb|]. by rewrite !word_bits_high.
Qed.

Lemma word_zero_bits x : word x -> x = 0 <-> (forall i, 0 <= i < 64 -> Z.testbit x i = false).
Proof.
  intros Hx. split; [by intros -> i _; rewrite Z.bits_0|]. intros Hb.
  apply word_eq_bits; [done|split; lia|]. intros i Hi. by rewrite Hb, Z.bits_0.
Qed.

(** Masking with [63] and [~63]. *)
Lemma land_63 x : Z.land x 63 = x mod 64.
Proof. change 63 with (Z.ones 6). by rewrite Z.land_ones by lia. Qed.

Lemma land_not63 x : word x -> Z.land x (lnot64 63) = x - x mod 64.
Proof.
  intros Hx. pose proof (round_down_pow2 x 6 Hx ltac:(lia)) as H. exact H.
Qed.

(** ** [__ffs] and [__fls] *)

(** [w] has its lowest one at bit [n]. *)
Definition lowest (w n : Z) : Prop :=
  0 <= n < 64 /\ Z.testbit w n = true /\ forall i, 0 <= i < n -> Z.testbit w i = false.

Lemma lowest_odd u n : 0 <= n < 64 -> Z.odd u = true -> lowest (u * 2 ^ n) n.
Proof.
  intros Hn Hu. split; [done|]. rewrite <- Z.shiftl_mul_pow2 by lia. split.
  - rewrite Z.shiftl_spec, Z.sub_diag by lia. by rewrite Z.bit0_odd.
  - intros i Hi. rewrite Z.shiftl_spec by lia. apply Z.testbit_neg_r. lia.
Qed.

(** State of the halving: the word is [u * 2 ^ n] and the low [2 * k] bits of
    [u] are not all zero. *)
Definition ffs_inv (w k : Z) (s : Z * Z) : Prop :=
  let '(n, u) := s in w = u * 2 ^ n /\ 0 <= n <= 64 - 2 * k /\ 0 <= u /\ u mod 2 ^ (2 * k) <> 0.

Lemma ffs_step w k n u :
  0 < k -> ffs_inv w k (n, u) ->
  let '(n', u') := if Z.land u (Z.ones k) =? 0 then (n + k, shr64 u k) else (n, u) in
  w = u' * 2 ^ n' /\ 0 <= n' <= 64 - k /\ 0 <= u' /\ u' mod 2 ^ k <> 0.
Proof.
  intros Hk (-> & Hn & Hu & Hm). rewrite Z.land_ones by lia.
  destruct (Z.eqb_spec (u mod 2 ^ k) 0) as [E|E]; [|split_and!; done || lia].
  unfold shr64. rewrite Z.shiftr_div_pow2 by lia.
  assert (Hdiv : u = 2 ^ k * (u / 2 ^ k)) by (apply Z.div_exact; lia).
  replace (2 * k) with (k + k) in Hm by lia. rewrite Z.pow_add_r in Hm by lia.
  split_and!; [|lia|lia|apply Z.div_pos; lia|].
  - rewrite Z.pow_add_r by lia. rewrite Hdiv at 1. ring.
  - intros Hq. apply Hm. rewrite Hdiv, Z.mul_mod_distr_l, Hq by lia. lia.
Qed.

Lemma __ffs_lowest w : word w -> w <> 0 -> lowest w (__ffs w).
Proof.
  intros Hw H0. unfold __ffs. cbv zeta.
  assert (I0 : ffs_inv w 32 (0, w)).
  { split_and!; [lia|lia|lia|apply Hw|]. rewrite Z.mod_small by exact Hw. done. }
  pose proof (ffs_step w 32 _ _ ltac:(lia) I0) as I1.
  change (Z.ones 32) with 0xffffffff in I1. case_match. clear I0.
  pose proof (ffs_step w 16 _ _ ltac:(lia) I1) as I2.
  change (Z.ones 16) with 0xffff in I2. case_match. clear I1.
  pose proof (ffs_step w 8 _ _ ltac:(lia) I2) as I3.
  change (Z.ones 8) with 0xff in I3. case_match. clear I2.
  pose proof (ffs_step w 4 _ _ ltac:(lia) I3) as I4.
  change (Z.ones 4) with 0xf in I4. case_match. clear I3.
  pose proof (ffs_step w 2 _ _ ltac:(lia) I4) as I5.
  change (Z.ones 2) with 3 in I5. case_match. clear I4.
  destruct I5 as (-> & Hn & Hu & Hm). change 1 with (Z.ones 1) at 1. rewrite Z.land_ones by lia.
  change (2 ^ 1) with 2. change (2 ^ 2) with 4 in Hm.
  match goal with |- context [?u mod 2] => rename u into v end.
  match goal with |- context [v * 2 ^ ?e] => rename e into n end.
  destruct (Z.eqb_spec (v mod 2) 0) as [E|E].
  - replace (v * 2 ^ n) with (v / 2 * 2 ^ (n + 1)).
    + apply lowest_odd; [lia|]. rewrite Z.odd_spec. exists (v / 4). Z.div_mod_to_equations. lia.
    + rewrite Z.pow_add_r by lia. replace v with (2 * (v / 2)) at 2 by (Z.div_mod_to_equations; lia).
      ring.
  - apply lowest_odd; [lia|]. rewrite Z.odd_spec. exists (v / 2). Z.div_mod_to_equations. lia.
Qed.

Lemma land_high_zero u k :
  word u -> 0 <= k <= 64 -> (Z.land u (shl64 ULLONG_MAX (64 - k)) =? 0) = (u <? 2 ^ (64 - k)).
Proof.
  intros Hu Hk. apply eq_iff_eq_true. rewrite Z.eqb_eq, Z.ltb_lt.
  rewrite word_zero_bits by (apply word_land; [done|apply word_shl]). split.
  - intros Hb. rewrite <- (Z.mod_small u (2 ^ 64)), <- Z.land_ones by (done || lia).
    replace (Z.land u (Z.ones 64)) with (u mod 2 ^ (64 - k)); [apply Z.mod_pos_bound; lia|].
    apply Z.bits_inj'. intros i Hi. rewrite Z.land_spec, Z.testbit_ones_nonneg by lia.
    destruct (Z.ltb_spec i (64 - k)).
    + rewrite Z.mod_pow2_bits_low by lia. by rewrite (proj2 (Z.ltb_lt _ _)), andb_true_r by lia.
    + rewrite Z.mod_pow2_bits_high by lia. destruct (Z.ltb_spec i 64); [|by rewrite andb_false_r].
      specialize (Hb i ltac:(lia)). rewrite Z.land_spec, high_mask_bits in Hb by lia.
      by rewrite (proj2 (Z.leb_le _ _)) in Hb by lia.
  - intros Hlt i Hi. rewrite Z.land_spec, high_mask_bits by lia.
    destruct (Z.leb_spec (64 - k) i); [|by rewrite andb_false_r].
    rewrite <- (Z.mod_small u (2 ^ (64 - k))) by (unfold word in *; lia).
    by rewrite Z.mod_pow2_bits_high by lia.
Qed.

(** State of the halving: the word shifted up by [63 - n] has a one among its
    top [k] bits. *)
Definition fls_inv (w k : Z) (s : Z * Z) : Prop :=
  let '(n, u) := s in u = w * 2 ^ (63 - n) /\ k - 1 <= n <= 63 /\ 2 ^ (64 - k) <= u < 2 ^ 64.

Lemma fls_step w k n u :
  0 < k <= 32 -> fls_inv w (2 * k) (n, u) ->
  fls_inv w k (if Z.land u (shl64 ULLONG_MAX (64 - k)) =? 0 then (n - k, shl64 u k) else (n, u)).
Proof.
  intros Hk (-> & Hn & Hu). assert (0 < 2 ^ (64 - 2 * k)) by lia.
  rewrite land_high_zero by (unfold word; lia).
  destruct (Z.ltb_spec (w * 2 ^ (63 - n)) (2 ^ (64 - k))) as [E|E]; [|cbn; split; [done|lia]].
  assert (Hs : w * 2 ^ (63 - n) * 2 ^ k < 2 ^ 64).
  { replace (2 ^ 64) with (2 ^ (64 - k) * 2 ^ k) by (rewrite <- Z.pow_add_r by lia; f_equal; lia).
    apply Z.mul_lt_mono_pos_r; lia. }
  assert (Hl : 2 ^ (64 - k) <= w * 2 ^ (63 - n) * 2 ^ k).
  { replace (64 - k) with (64 - 2 * k + k) by lia. rewrite Z.pow_add_r by lia.
    apply Z.mul_le_mono_pos_r; lia. }
  unfold shl64. rewrite Z.shiftl_mul_pow2, u64_small by lia. cbn. split_and!; [|lia..].
  replace (63 - (n - k)) with (63 - n + k) by lia. rewrite Z.pow_add_r by lia. ring.
Qed.

Lemma __fls_log2 w : word w -> w <> 0 -> __fls w = Z.log2 w.
Proof.
  intros Hw H0. unfold __fls. cbv zeta.
  assert (I0 : fls_inv w 64 (BITS_PER_LONG - 1, w)).
  { unfold word, fls_inv, BITS_PER_LONG in *. change (2 ^ (63 - (64 - 1))) with 1. change (2 ^ (64 - 64)) with 1. lia. }
  pose proof (fls_step w 32 _ _ ltac:(lia) I0) as I1. change (64 - 32) with 32 in I1.
  revert I1. match goal with |- fls_inv _ _ ?x -> _ => destruct x as [n1 u1] end. intros I1. clear I0.
  pose proof (fls_step w 16 _ _ ltac:(lia) I1) as I2. change (64 - 16) with (BITS_PER_LONG - 16) in I2.
  revert I2. match goal with |- fls_inv _ _ ?x -> _ => destruct x as [n2 u2] end. intros I2. clear I1.
  pose proof (fls_step w 8 _ _ ltac:(lia) I2) as I3. change (64 - 8) with (BITS_PER_LONG - 8) in I3.
  revert I3. match goal with |- fls_inv _ _ ?x -> _ => destruct x as [n3 u3] end. intros I3. clear I2.
  pose proof (fls_step w 4 _ _ ltac:(lia) I3) as I4. change (64 - 4) with (BITS_PER_LONG - 4) in I4.
  revert I4. match goal with |- fls_inv _ _ ?x -> _ => destruct x as [n4 u4] end. intros I4. clear I3.
  pose proof (fls_step w 2 _ _ ltac:(lia) I4) as I5. change (64 - 2) with (BITS_PER_LONG - 2) in I5.
  revert I5. match goal with |- fls_inv _ _ ?x -> _ => destruct x as [n5 u5] end. intros I5. clear I4.
  rename n5 into n.
  pose proof (fls_step w 1 _ _ ltac:(lia) I5) as I6. change (64 - 1) with (BITS_PER_LONG - 1) in I6.
  clear I5. destruct (_ =? 0); destruct I6 as (-> & Hn & Hu); symmetry; apply Z.log2_unique; try lia.
  - replace (63 - (n - 1)) with (64 - n) in * by lia. split.
    + apply (Z.mul_le_mono_pos_r _ _ (2 ^ (64 - n))); [lia|].
      rewrite <- Z.pow_add_r by lia. replace (n - 1 + (64 - n)) with 63 by lia. lia.
    + apply (Z.mul_lt_mono_pos_r (2 ^ (64 - n))); [lia|].
      rewrite <- Z.pow_add_r by lia. replace (Z.succ (n - 1) + (64 - n)) with 64 by lia. lia.
  - split.
    + apply (Z.mul_le_mono_pos_r _ _ (2 ^ (63 - n))); [lia|].
      rewrite <- Z.pow_add_r by lia. replace (n + (63 - n)) with 63 by lia. lia.
    + apply (Z.mul_lt_mono_pos_r (2 ^ (63 - n))); [lia|].
      rewrite <- Z.pow_add_r by lia. replace (Z.succ n + (63 - n)) with 64 by lia. lia.
Qed.

(** ** The reference scans *)

(** [r] is the first position of [P] in [offset..size), or [size]. *)
Definition first_from (P : Z -> bool) (size offset r : Z) : Prop :=
  offset <= r <= size /\ (forall j, offset <= j < r -> P j = false) /\ (r < size -> P r = true).

Lemma scan_first P n i : first_from P (i + Z.of_nat n) i (scan P n i).
Proof.
  revert i. induction n as [|n IH]; intros i; cbn [scan].
  - split_and!; lia.
  - destruct (P i) eqn:E; [split_and!; [lia|lia|intros j Hj; lia|done]|].
    destruct (IH (i + 1)) as (H1 & H2 & H3). split_and!; [lia|lia| |].
    + intros j Hj. destruct (decide (j = i)) as [->|]; [done|]. apply H2. lia.
    + intros Hlt. apply H3. lia.
Qed.

Lemma next_ref_first P size offset :
  offset <= size -> first_from P size offset (next_ref P size offset).
Proof.
  intros H. unfold next_ref. rewrite Z.geb_leb. destruct (Z.leb_spec size offset).
  - split_and!; lia.
  - pose proof (scan_first P (Z.to_nat (size - offset)) offset) as Hs.
    by replace (offset + Z.of_nat (Z.to_nat (size - offset))) with size in Hs by lia.
Qed.

Lemma first_from_unique P size offset r r' :
  first_from P size offset r -> first_from P size offset r' -> r = r'.
Proof.
  intros (H1 & H2 & H3) (H1' & H2' & H3').
  destruct (Z.lt_trichotomy r r') as [Hlt|[->|Hlt]]; [|done|].
  - rewrite H2' in H3 by lia. specialize (H3 ltac:(lia)). done.
  - rewrite H2 in H3' by lia. specialize (H3' ltac:(lia)). done.
Qed.

Lemma first_from_next_ref P size offset r :
  offset <= size -> first_from P size offset r -> r = next_ref P size offset.
Proof. intros H Hr. eapply first_from_unique; [done|]. by apply next_ref_first. Qed.

Lemma first_from_ok P size offset (c : res Z) :
  offset <= size -> (exists r, c = Ok r /\ first_from P size offset r) ->
  c = Ok (next_ref P size offset).
Proof. intros H (r & -> & Hr). f_equal. by apply first_from_next_ref. Qed.

(** ** The searches, word by word *)

Lemma bit_word m p w j :
  m !! p = Some w -> 0 <= j < 64 -> bit m (64 * Z.of_nat p + j) = Z.testbit w j.
Proof.
  intros Hp Hj. unfold bit.
  rewrite Z.mul_comm, Z.div_add_l, Z.div_small, Z.add_0_r, Nat2Z.id, Hp by lia.
  by rewrite Z.add_comm, Z.mod_add, Z.mod_small by lia.
Qed.

(** The bits of word [p] from position [off] on. *)
Definition masked_word (w off tmp : Z) : Prop :=
  word tmp /\ forall j, 0 <= j < 64 -> Z.testbit tmp j = Z.testbit w j && (off <=? j).

Lemma masked_word_0 w : word w -> masked_word w 0 w.
Proof.
  intros Hw. split; [done|]. intros j Hj. by rewrite (proj2 (Z.leb_le _ _)), andb_true_r by lia.
Qed.

Lemma found_middle_ok m p w off tmp size :
  m !! p = Some w -> masked_word w off tmp -> 64 <= size -> 0 <= off < 64 -> tmp <> 0 ->
  first_from (bit m) (64 * Z.of_nat p + size) (64 * Z.of_nat p + off)
    (64 * Z.of_nat p + __ffs tmp).
Proof.
  intros Hp [Hw Hm] Hs Ho H0. destruct (__ffs_lowest tmp Hw H0) as (Hr & Ht & Hl).
  rewrite Hm in Ht by done. split_and!; [lia|lia| |].
  - intros j Hj. replace j with (64 * Z.of_nat p + (j - 64 * Z.of_nat p)) by lia.
    specialize (Hl (j - 64 * Z.of_nat p) ltac:(lia)). rewrite Hm in Hl by lia.
    rewrite (bit_word m p w) by (done || lia).
    by rewrite (proj2 (Z.leb_le _ _)), andb_true_r in Hl by lia.
  - intros _. rewrite (bit_word m p w) by (done || lia). by apply andb_prop in Ht as [-> _].
Qed.

Lemma found_first_ok m p w off tmp size :
  m !! p = Some w -> masked_word w off tmp -> 0 <= off <= size -> 0 < size <= 64 ->
  64 * Z.of_nat p + size < 2 ^ 64 ->
  first_from (bit m) (64 * Z.of_nat p + size) (64 * Z.of_nat p + off)
    (found_first (64 * Z.of_nat p) size tmp).
Proof.
  intros Hp [Hw Hm] Ho Hs Hlt. unfold found_first, BITS_PER_LONG.
  set (t := Z.land tmp (shr64 ULLONG_MAX (64 - size))).
  assert (Ht : forall j, 0 <= j < 64 -> Z.testbit t j = Z.testbit w j && (off <=? j) && (j <? size)).
  { intros j Hj. unfold t. by rewrite Z.land_spec, Hm, low_mask_bits by lia. }
  assert (Hwt : word t).
  { apply word_land; [done|]. apply word_shr; [done|lia]. }
  destruct (Z.eqb_spec t 0) as [E|E].
  - rewrite add64_small by lia. split_and!; [lia|lia| |lia]. intros j Hj.
    replace j with (64 * Z.of_nat p + (j - 64 * Z.of_nat p)) by lia.
    rewrite (bit_word m p w) by (done || lia).
    specialize (Ht (j - 64 * Z.of_nat p) ltac:(lia)). rewrite E, Z.bits_0 in Ht.
    rewrite (proj2 (Z.leb_le _ _)), (proj2 (Z.ltb_lt _ _)), !andb_true_r in Ht by lia. done.
  - destruct (__ffs_lowest t Hwt E) as (Hr & Hone & Hl). rewrite Ht in Hone by done.
    apply andb_prop in Hone as [Hone Hsz]. apply andb_prop in Hone as [Hone Hof].
    rewrite add64_small by lia. split_and!; [lia|lia| |].
    + intros j Hj. replace j with (64 * Z.of_nat p + (j - 64 * Z.of_nat p)) by lia.
      rewrite (bit_word m p w) by (done || lia).
      specialize (Hl (j - 64 * Z.of_nat p) ltac:(lia)). rewrite Ht in Hl by lia.
      by rewrite (proj2 (Z.leb_le _ _)), (proj2 (Z.ltb_lt _ _)), !andb_true_r in Hl by lia.
    + intros _. by rewrite (bit_word m p w).
Qed.

(** Moving the start of a search down over bits where nothing is found. *)
Lemma first_from_extend P size off off' r :
  off <= off' -> (forall j, off <= j < off' -> P j = false) ->
  first_from P size off' r -> first_from P size off r.
Proof.
  intros Ho Hz (H1 & H2 & H3). split_and!; [lia|lia| |done].
  intros j Hj. destruct (Z.ltb_spec j off'); [apply Hz|apply H2]; lia.
Qed.

Lemma find_bit_words_ok m size off fuel p :
  holds m size -> off <= 64 * Z.of_nat p <= size ->
  (forall j, off <= j < 64 * Z.of_nat p -> bit m j = false) ->
  (Z.to_nat ((size - 64 * Z.of_nat p) / 64) < fuel)%nat ->
  exists r, loop fuel (find_bit_words m) (p, 64 * Z.of_nat p, size - 64 * Z.of_nat p) = Ok r /\
    first_from (bit m) size off r.
Proof.
  intros (Hw & Hs & Hmax) Hp Hz Hf.
  apply (loop_total _ (fun s => exists p : nat, s = (p, 64 * Z.of_nat p, size - 64 * Z.of_nat p) /\
           off <= 64 * Z.of_nat p <= size /\ forall j, off <= j < 64 * Z.of_nat p -> bit m j = false)
           _ (fun s => Z.to_nat (s.2 / 64))); [|by exists p|done].
  clear p Hp Hz Hf fuel. intros s (p & -> & Hp & Hz). unfold find_bit_words.
  change (BITS_PER_LONG - 1) with 63. rewrite land_not63 by (unfold word; lia).
  set (sz := size - 64 * Z.of_nat p) in *. cbn [snd].
  assert (Hsz : size = 64 * Z.of_nat p + sz) by (unfold sz; lia). clearbody sz.
  assert (Hmod : 0 <= sz mod 64 < 64) by (apply Z.mod_pos_bound; lia).
  destruct (Z.eqb_spec (sz - sz mod 64) 0) as [E|E].
  - right. destruct (Z.eqb_spec sz 0) as [E0|E0].
    { eexists. split; [done|]. split_and!; [lia|lia|done|lia]. }
    destruct (lookup_lt_is_Some_2 m p) as [w Hpw]; [lia|].
    rewrite (aget_ok _ _ _ Hpw). eexists. split; [done|].
    eapply first_from_extend; [|exact Hz|]; [lia|].
    replace size with (64 * Z.of_nat p + sz) at 1 by lia.
    rewrite <- (Z.add_0_r (64 * Z.of_nat p)) at 2. eapply found_first_ok; [done| |lia..].
    apply masked_word_0. by eapply Forall_lookup_1.
  - assert (64 <= sz) by (Z.div_mod_to_equations; lia).
    destruct (lookup_lt_is_Some_2 m p) as [w Hpw]; [lia|].
    assert (Hww : word w) by (by eapply Forall_lookup_1).
    rewrite (aget_ok _ _ _ Hpw), res_bind_ok. destruct (Z.eqb_spec w 0) as [->|E0]; cbn [negb].
    + left. eexists. split; [done|]. unfold BITS_PER_LONG. nowrap. cbn [snd]. split.
      * exists (S p). split_and!; [f_equal; [f_equal|]; lia|lia|lia|]. intros j Hj.
        destruct (Z.ltb_spec j (64 * Z.of_nat p)); [apply Hz; lia|].
        replace j with (64 * Z.of_nat p + (j - 64 * Z.of_nat p)) by lia.
        rewrite (bit_word m p 0) by (done || lia). apply Z.bits_0.
      * replace sz with (sz - 64 + 1 * 64) at 2 by lia. rewrite Z.div_add by lia.
        assert (0 <= (sz - 64) / 64) by (apply Z.div_pos; lia). lia.
    + right. pose proof (__ffs_lowest w Hww E0) as (Hr & _).
      eexists. split; [done|]. rewrite add64_small by lia.
      eapply first_from_extend; [|exact Hz|]; [lia|].
      replace size with (64 * Z.of_nat p + sz) at 1 by lia.
      rewrite <- (Z.add_0_r (64 * Z.of_nat p)) at 2.
      eapply found_middle_ok; [done| |done|lia|done]. by apply masked_word_0.
Qed.

Lemma find_first_bit_ok m size :
  holds m size -> find_first_bit m size = Ok (next_ref (bit m) size 0).
Proof.
  intros H. unfold find_first_bit.
  destruct (find_bit_words_ok m size 0 (find_fuel size) 0 H) as (r & Hr & Hf).
  - destruct H; lia.
  - lia.
  - unfold find_fuel, BITS_PER_LONG. rewrite Z.mul_0_r, Z.sub_0_r. lia.
  - rewrite Z.mul_0_r, Z.sub_0_r in Hr. rewrite Hr. f_equal.
    apply first_from_next_ref; [destruct H; lia|done].
Qed.

Lemma find_next_bit_ok m size offset :
  holds m size -> 0 <= offset < 2 ^ 64 ->
  find_next_bit m size offset = Ok (next_ref (bit m) size offset).
Proof.
  intros H Ho. unfold find_next_bit. rewrite Z.geb_leb. destruct (Z.leb_spec size offset) as [Hle|Hlt].
  { unfold next_ref. rewrite Z.geb_leb. by rewrite (proj2 (Z.leb_le _ _)). }
  pose proof H as (Hw & Hs & Hmax). change (BITS_PER_LONG - 1) with 63. unfold BITOP_WORD, BITS_PER_LONG.
  rewrite land_not63 by done. set (p := Z.to_nat (offset / 64)). set (o := offset mod 64).
  assert (Hoff : offset = 64 * Z.of_nat p + o).
  { unfold p, o. rewrite Z2Nat.id by (apply Z.div_pos; lia). apply Z.div_mod. lia. }
  assert (0 <= o < 64) by (apply Z.mod_pos_bound; lia).
  replace (offset - o) with (64 * Z.of_nat p) by lia. rewrite !(sub64_small size) by lia.
  apply first_from_ok; [lia|].
  destruct (Z.eqb_spec o 0) as [E|E]; cbn [negb].
  { apply find_bit_words_ok; [done|lia|lia|]. unfold find_fuel, BITS_PER_LONG. lia. }
  destruct (lookup_lt_is_Some_2 m p) as [w Hpw]; [lia|].
  assert (Hww : word w) by (by eapply Forall_lookup_1).
  rewrite (aget_ok _ _ _ Hpw), res_bind_ok. cbv zeta.
  set (tmp := Z.land w (shl64 ULLONG_MAX o)).
  assert (Htmp : masked_word w o tmp).
  { split; [apply word_land; [done|apply word_shl]|]. intros j Hj. unfold tmp.
    by rewrite Z.land_spec, high_mask_bits by lia. }
  rewrite Hoff. set (sz := size - 64 * Z.of_nat p).
  assert (Hszeq : size = 64 * Z.of_nat p + sz) by (unfold sz; lia). clearbody sz.
  replace size with (64 * Z.of_nat p + sz) by lia.
  destruct (Z.ltb_spec sz 64) as [Hsz|Hsz].
  { eexists. split; [done|]. eapply found_first_ok; [done|done|lia..]. }
  destruct (Z.eqb_spec tmp 0) as [E0|E0]; cbn [negb].
  2:{ pose proof (__ffs_lowest tmp ltac:(apply Htmp) E0) as (Hr & _).
      eexists. split; [done|]. rewrite add64_small by lia. by eapply found_middle_ok. }
  nowrap. replace (64 * Z.of_nat p + 64) with (64 * Z.of_nat (S p)) by lia.
  replace (sz - 64) with (size - 64 * Z.of_nat (S p)) by lia.
  replace (64 * Z.of_nat p + sz) with size by lia.
  apply find_bit_words_ok; [done|lia| |].
  - intros j Hj. replace j with (64 * Z.of_nat p + (j - 64 * Z.of_nat p)) by lia.
    rewrite (bit_word m p w) by (done || lia).
    destruct Htmp as [_ Hm]. specialize (Hm (j - 64 * Z.of_nat p) ltac:(lia)).
    rewrite E0, Z.bits_0, (proj2 (Z.leb_le _ _)), andb_true_r in Hm by lia. done.
  - unfold find_fuel, BITS_PER_LONG.
    assert ((size - 64 * Z.of_nat (S p)) / 64 <= sz / 64) by (apply Z.div_le_mono; lia). lia.
Qed.

(** ** Searching for a zero is searching the complement for a one *)

Lemma lnot64_eq_0 x : (lnot64 x =? 0) = (x =? ULLONG_MAX).
Proof. unfold lnot64. lia. Qed.

Lemma lnot64_lor x y : word x -> word y -> lnot64 (Z.lor x y) = Z.land (lnot64 x) (lnot64 y).
Proof.
  intros Hx Hy. apply word_eq_bits; [auto with cint..| |].
  { apply word_land; [auto with cint|]. apply word_lnot in Hy. apply Hy. }
  intros i Hi. rewrite Z.land_spec, !lnot64_bits, Z.lor_spec by auto with cint. apply negb_orb.
Qed.

Lemma lnot64_high n : 0 <= n <= 64 -> lnot64 (shl64 ULLONG_MAX n) = shr64 ULLONG_MAX (64 - n).
Proof.
  intros Hn. apply word_eq_bits; [auto with cint|apply word_shr; [done|lia]|]. intros i Hi.
  rewrite lnot64_bits, high_mask_bits, low_mask_bits by (auto with cint || lia). lia.
Qed.

Lemma lnot64_low n : 0 <= n <= 64 -> lnot64 (shr64 ULLONG_MAX (64 - n)) = shl64 ULLONG_MAX n.
Proof. intros Hn. by rewrite <- lnot64_high, lnot64_invol. Qed.

Lemma found_first_zero_not result size tmp :
  word tmp -> 0 <= size <= 64 ->
  found_first_zero result size tmp = found_first result size (lnot64 tmp).
Proof.
  intros Ht Hs. unfold found_first_zero, found_first, ffz, BITS_PER_LONG.
  by rewrite <- lnot64_eq_0, lnot64_lor, lnot64_high by auto with cint.
Qed.

Lemma aget_not m p : aget (lnot64 <$> m) p = (w ← aget m p; Ok (lnot64 w)).
Proof. unfold aget. rewrite list_lookup_fmap. by destruct (m !! p). Qed.

Lemma find_zero_bit_words_not m s :
  Forall word m -> word s.2 -> find_zero_bit_words m s = find_bit_words (lnot64 <$> m) s.
Proof.
  intros Hm. destruct s as [[p result] size]. cbn [snd]. intros Hs.
  unfold find_zero_bit_words, find_bit_words. rewrite aget_not.
  change (BITS_PER_LONG - 1) with 63. rewrite land_not63 by done.
  destruct (m !! p) as [w|] eqn:Hp.
  - assert (word w) by (by eapply Forall_lookup_1). rewrite (aget_ok _ _ _ Hp), !res_bind_ok.
    destruct (Z.eqb_spec (size - size mod 64) 0); [|done].
    rewrite found_first_zero_not; [done|done|].
    pose proof (Z.mod_pos_bound size 64). unfold word in Hs. lia.
  - unfold aget. by rewrite Hp.
Qed.

Lemma loop_zero_not fuel m s :
  Forall word m -> word s.2 ->
  loop fuel (find_zero_bit_words m) s = loop fuel (find_bit_words (lnot64 <$> m)) s.
Proof.
  intros Hm. revert s. induction fuel as [|fuel IH]; intros s Hs; [done|]. cbn [loop].
  rewrite find_zero_bit_words_not by done.
  destruct (find_bit_words (lnot64 <$> m) s) as [[s'|r]| |] eqn:E; try done.
  apply IH. destruct s as [[p result] size]. unfold find_bit_words in E.
  repeat case_match; try done; destruct (aget _ p); try done; cbn in *; simplify_eq/=.
  case_match; simplify_eq/=. apply u64_range.
Qed.

Lemma find_next_zero_bit_not m size offset :
  Forall word m -> 0 <= offset < 2 ^ 64 ->
  find_next_zero_bit m size offset = find_next_bit (lnot64 <$> m) size offset.
Proof.
  intros Hm Ho. unfold find_next_zero_bit, find_next_bit. rewrite aget_not.
  destruct (offset >=? size); [done|]. change (BITS_PER_LONG - 1) with 63. unfold BITS_PER_LONG.
  assert (0 <= offset mod 64 < 64) by (apply Z.mod_pos_bound; lia).
  rewrite !loop_zero_not by (done || apply u64_range).
  destruct (negb (offset mod 64 =? 0)) eqn:E; [|done].
  unfold aget. destruct (m !! BITOP_WORD offset) as [w|] eqn:Hp; [|done].
  assert (word w) by (by eapply Forall_lookup_1). rewrite !res_bind_ok. unfold ffz.
  rewrite lnot64_lor, lnot64_low by (auto with cint || (apply word_shr; [done|lia]) || lia).
  destruct (Z.ltb_spec (size ⊖ Z.land offset (lnot64 63)) 64).
  - rewrite found_first_zero_not, lnot64_lor, lnot64_low
      by ((auto with cint || (apply word_shr; [done|lia])) ||
          (apply word_lor; [done|apply word_shr; [done|lia]]) ||
          (pose proof (u64_range (size - Z.land offset (lnot64 63))); unfold sub64 in *; lia)). done.
  - done.
Qed.

Lemma holds_not m size : holds m size -> holds (lnot64 <$> m) size.
Proof.
  intros (Hw & Hs & Hmax). unfold holds. rewrite length_fmap. split_and!; try lia.
  apply Forall_fmap. eapply Forall_impl; [done|]. apply word_lnot.
Qed.

Lemma bit_not m i : Forall word m -> 0 <= i < 64 * Z.of_nat (length m) -> bit (lnot64 <$> m) i = negb (bit m i).
Proof.
  intros Hm Hi. unfold bit. rewrite list_lookup_fmap.
  destruct (lookup_lt_is_Some_2 m (Z.to_nat (i / 64))) as [w Hw].
  { apply Nat2Z.inj_lt. rewrite Z2Nat.id by (apply Z.div_pos; lia). apply Z.div_lt_upper_bound; lia. }
  rewrite Hw. cbn. apply lnot64_bits; [by eapply Forall_lookup_1|]. apply Z.mod_pos_bound. lia.
Qed.

Lemma scan_ext P Q n i : (forall j, i <= j < i + Z.of_nat n -> P j = Q j) -> scan P n i = scan Q n i.
Proof.
  revert i. induction n as [|n IH]; intros i H; [done|]. cbn [scan].
  rewrite H by lia. destruct (Q i); [done|]. apply IH. intros j Hj. apply H. lia.
Qed.

Lemma next_ref_ext P Q size offset :
  (forall j, offset <= j < size -> P j = Q j) -> next_ref P size offset = next_ref Q size offset.
Proof.
  intros H. unfold next_ref. rewrite Z.geb_leb. destruct (Z.leb_spec size offset); [done|].
  apply scan_ext. intros j Hj. apply H. lia.
Qed.

Lemma find_next_zero_bit_ok m size offset :
  holds m size -> 0 <= offset < 2 ^ 64 ->
  find_next_zero_bit m size offset = Ok (next_ref (fun i => negb (bit m i)) size offset).
Proof.
  intros H Ho. rewrite find_next_zero_bit_not by (done || apply H).
  rewrite find_next_bit_ok by (done || by apply holds_not). f_equal. apply next_ref_ext.
  destruct H as (Hw & Hs & _). intros j Hj. apply bit_not; [done|lia].
Qed.

Lemma find_first_zero_bit_ok m size :
  holds m size -> find_first_zero_bit m size = Ok (next_ref (fun i => negb (bit m i)) size 0).
Proof.
  intros H. pose proof H as (Hw & Hs & Hmax). unfold find_first_zero_bit.
  rewrite loop_zero_not by (done || (cbn; unfold word; lia)).
  pose proof (find_first_bit_ok _ _ (holds_not _ _ H)) as Hf. unfold find_first_bit in Hf.
  rewrite Hf. f_equal. apply next_ref_ext. intros j Hj. apply bit_not; [done|lia].
Qed.

(** ** The last set bit *)

(** [r] is the last position of [P] below [n], or [dflt] where there is none. *)
Definition last_below (P : Z -> bool) (n : nat) (dflt r : Z) : Prop :=
  (0 <= r < Z.of_nat n /\ P r = true /\ forall j, r < j < Z.of_nat n -> P j = false) \/
  (r = dflt /\ forall j, 0 <= j < Z.of_nat n -> P j = false).

Lemma last_ref_below P n dflt r : last_below P n dflt r -> r = last_ref P n dflt.
Proof.
  induction n as [|n IH]; cbn [last_ref]; intros H.
  - destruct H as [(H & _)|(-> & _)]; [lia|done].
  - destruct (P (Z.of_nat n)) eqn:E.
    + destruct H as [(Hr & Hp & Hz)|(-> & Hz)].
      * destruct (decide (r = Z.of_nat n)) as [|Hne]; [done|].
        rewrite (Hz (Z.of_nat n)) in E; [done|lia].
      * rewrite (Hz (Z.of_nat n)) in E; [done|lia].
    + apply IH. destruct H as [(Hr & Hp & Hz)|(-> & Hz)].
      * left. destruct (decide (r = Z.of_nat n)) as [->|Hne]; [congruence|].
        split_and!; [lia|lia|done|]. intros j Hj. apply Hz. lia.
      * right. split; [done|]. intros j Hj. apply Hz. lia.
Qed.

(** A non-zero (masked) last word decides the search. *)
Lemma fls_last m p w t n dflt :
  m !! p = Some w -> word t -> t <> 0 ->
  64 * Z.of_nat p <= Z.of_nat n <= 64 * Z.of_nat p + 64 ->
  (forall j, 0 <= j < 64 -> Z.testbit t j = Z.testbit w j && (64 * Z.of_nat p + j <? Z.of_nat n)) ->
  last_below (bit m) n dflt (Z.of_nat p * 64 + __fls t).
Proof.
  intros Hp Ht H0 Hn Hb. rewrite __fls_log2 by done. left.
  pose proof (Z.log2_nonneg t). assert (Z.log2 t < 64) by (apply Z.log2_lt_pow2; unfold word in Ht; lia).
  pose proof (Z.bit_log2 t ltac:(unfold word in Ht; lia)) as Hl. rewrite Hb in Hl by lia.
  apply andb_prop in Hl as [Hl Hl']. rewrite (Z.mul_comm (Z.of_nat p)). split_and!; [lia|lia| |].
  - by rewrite (bit_word m p w).
  - intros j Hj. replace j with (64 * Z.of_nat p + (j - 64 * Z.of_nat p)) by lia.
    rewrite (bit_word m p w) by (done || lia).
    pose proof (Z.bits_above_log2 t (j - 64 * Z.of_nat p)) as Hz. rewrite Hb in Hz by lia.
    rewrite (proj2 (Z.ltb_lt _ _)), andb_true_r in Hz by lia. apply Hz; [apply Ht|lia].
Qed.

(** A zero (masked) last word is skipped. *)
Lemma fls_skip m p w n dflt r :
  m !! p = Some w -> 64 * Z.of_nat p <= Z.of_nat n <= 64 * Z.of_nat p + 64 ->
  (forall j, 0 <= j < 64 -> Z.testbit w j && (64 * Z.of_nat p + j <? Z.of_nat n) = false) ->
  last_below (bit m) (64 * p) dflt r -> last_below (bit m) n dflt r.
Proof.
  intros Hp Hn Hz Hl.
  assert (Hz' : forall j, Z.of_nat (64 * p) <= j < Z.of_nat n -> bit m j = false).
  { intros j Hj. replace j with (64 * Z.of_nat p + (j - 64 * Z.of_nat p)) by lia.
    rewrite (bit_word m p w) by (done || lia).
    specialize (Hz (j - 64 * Z.of_nat p) ltac:(lia)).
    by rewrite (proj2 (Z.ltb_lt _ _)), andb_true_r in Hz by lia. }
  destruct Hl as [(Hr & Hb & Hj)|(-> & Hj)].
  - left. split_and!; [lia|lia|done|]. intros j Hjr.
    destruct (Z.ltb_spec j (Z.of_nat (64 * p))); [apply Hj|apply Hz']; lia.
  - right. split; [done|]. intros j Hjr.
    destruct (Z.ltb_spec j (Z.of_nat (64 * p))); [apply Hj|apply Hz']; lia.
Qed.

Lemma find_last_words_ok m size words :
  Forall word m -> (words <= length m)%nat ->
  exists r, find_last_words m size words = Ok r /\ last_below (bit m) (64 * words) size r.
Proof.
  intros Hm. induction words as [|words IH]; intros Hl; cbn [find_last_words].
  - eexists. split; [done|]. right. split; [done|]. lia.
  - destruct (lookup_lt_is_Some_2 m words) as [w Hw]; [lia|].
    assert (word w) by (by eapply Forall_lookup_1).
    rewrite (aget_ok _ _ _ Hw), res_bind_ok. destruct (Z.eqb_spec w 0) as [->|E]; cbn [negb].
    + destruct IH as (r & -> & Hr); [lia|]. eexists. split; [done|].
      eapply fls_skip; [done|lia| |done]. intros j Hj. by rewrite Z.bits_0.
    + eexists. split; [done|]. eapply fls_last; [done..|lia|]. intros j Hj.
      by rewrite (proj2 (Z.ltb_lt _ _)), andb_true_r by lia.
Qed.

Lemma last_below_ok P n dflt (c : res Z) :
  (exists r, c = Ok r /\ last_below P n dflt r) -> c = Ok (last_ref P n dflt).
Proof. intros (r & -> & Hr). f_equal. by apply last_ref_below. Qed.

Lemma find_last_bit_ok m size :
  holds m size -> find_last_bit m size = Ok (last_ref (bit m) (Z.to_nat size) size).
Proof.
  intros (Hm & Hs & Hmax). unfold find_last_bit. change (BITS_PER_LONG - 1) with 63.
  rewrite land_63. unfold BITS_PER_LONG. set (p := Z.to_nat (size / 64)).
  assert (Hp : size = 64 * Z.of_nat p + size mod 64).
  { unfold p. rewrite Z2Nat.id by (apply Z.div_pos; lia). apply Z.div_mod. lia. }
  pose proof (Z.mod_pos_bound size 64 ltac:(lia)) as Hr.
  destruct (find_last_words_ok m size p Hm ltac:(lia)) as (r & Hf & Hb). rewrite Hf.
  apply last_below_ok. destruct (Z.eqb_spec (size mod 64) 0) as [E|E]; cbn [negb].
  { exists r. split; [done|]. by replace (Z.to_nat size) with (64 * p)%nat by lia. }
  destruct (lookup_lt_is_Some_2 m p) as [w Hw]; [lia|].
  assert (Hww : word w) by (by eapply Forall_lookup_1).
  rewrite (aget_ok _ _ _ Hw), res_bind_ok. cbv zeta.
  set (t := Z.land w (shr64 ULLONG_MAX (64 - size mod 64))).
  assert (Ht : forall j, 0 <= j < 64 ->
    Z.testbit t j = Z.testbit w j && (64 * Z.of_nat p + j <? Z.of_nat (Z.to_nat size))).
  { intros j Hj. unfold t. rewrite Z.land_spec, low_mask_bits by lia. destruct (Z.ltb_spec j (size mod 64)), (Z.ltb_spec (64 * Z.of_nat p + j) (Z.of_nat (Z.to_nat size))); done || lia. }
  destruct (Z.eqb_spec t 0) as [E0|E0]; cbn [negb].
  - exists r. split; [done|]. eapply fls_skip; [done|lia| |done].
    intros j Hj. by rewrite <- Ht, E0, Z.bits_0.
  - eexists. split; [done|]. eapply fls_last; [done| |done|lia|exact Ht].
    apply word_land; [done|]. apply word_shr; [done|lia].
Qed.

(** ** Single bits *)

Lemma bit_word_nat nr : 0 <= nr -> nr = 64 * Z.of_nat (BIT_WORD nr) + nr mod 64.
Proof.
  intros H. unfold BIT_WORD, BITS_PER_LONG. rewrite Z2Nat.id by (apply Z.div_pos; lia).
  apply Z.div_mod. lia.
Qed.

Lemma BIT_WORD_lt nr (m : list Z) : 0 <= nr < 64 * Z.of_nat (length m) -> (BIT_WORD nr < length m)%nat.
Proof. intros H. pose proof (bit_word_nat nr). pose proof (Z.mod_pos_bound nr 64). lia. Qed.

Lemma BIT_MASK_bits nr i : 0 <= i < 64 -> Z.testbit (BIT_MASK nr) i = (i =? nr mod 64).
Proof.
  intros Hi. unfold BIT_MASK, BITS_PER_LONG. rewrite shl64_bits by done.
  destruct (Z.eqb_spec i (nr mod 64)) as [->|Hne]; [by rewrite Z.sub_diag|].
  destruct (Z.ltb_spec (i - nr mod 64) 0); [by apply Z.testbit_neg_r|].
  apply Z.bits_above_log2; cbn; lia.
Qed.

(** Replacing the word that holds a bit. *)
Lemma bit_insert m p w' j :
  (p < length m)%nat -> 0 <= j ->
  bit (<[p := w']> m) j = if decide (BIT_WORD j = p) then Z.testbit w' (j mod 64) else bit m j.
Proof.
  intros Hp Hj. unfold bit. change (Z.to_nat (j / 64)) with (BIT_WORD j). case_decide as E.
  - rewrite E, list_lookup_insert_eq by done. done.
  - by rewrite list_lookup_insert_ne.
Qed.

(** Each operation on one bit changes that bit and no other. *)
Lemma bit_update m nr (f : Z -> Z) (g : bool -> bool) :
  Forall word m -> 0 <= nr < 64 * Z.of_nat (length m) ->
  (forall w, word w -> word (f w)) ->
  (forall w i, word w -> 0 <= i < 64 ->
     Z.testbit (f w) i = if decide (i = nr mod 64) then g (Z.testbit w i) else Z.testbit w i) ->
  exists w, m !! BIT_WORD nr = Some w /\ word w /\ Forall word (<[BIT_WORD nr := f w]> m) /\
    forall j, 0 <= j -> bit (<[BIT_WORD nr := f w]> m) j = if decide (j = nr) then g (bit m j) else bit m j.
Proof.
  intros Hm Hnr Hf Hg. pose proof (BIT_WORD_lt nr m Hnr) as Hlt.
  destruct (lookup_lt_is_Some_2 m (BIT_WORD nr) Hlt) as [w Hw].
  assert (Hww : word w) by (by eapply Forall_lookup_1).
  exists w. split_and!; [done|done|by apply Forall_insert; auto|].
  intros j Hj. rewrite bit_insert by done. pose proof (Z.mod_pos_bound j 64 ltac:(lia)) as Hmod.
  pose proof (bit_word_nat j Hj) as Ej. pose proof (bit_word_nat nr ltac:(lia)) as Enr.
  destruct (decide (BIT_WORD j = BIT_WORD nr)) as [E|E].
  - assert (Hbj : bit m j = Z.testbit w (j mod 64)).
    { transitivity (bit m (64 * Z.of_nat (BIT_WORD nr) + j mod 64)); [f_equal; lia|].
      by apply bit_word. }
    rewrite Hg, Hbj by done. destruct (decide (j = nr)) as [->|Hne]; [by rewrite decide_True|].
    rewrite decide_False; [done|]. lia.
  - rewrite decide_False; [done|]. by intros ->.
Qed.

Lemma __set_bit_ok m nr :
  Forall word m -> 0 <= nr < 64 * Z.of_nat (length m) ->
  exists m', __set_bit nr m = Ok m' /\ Forall word m' /\ length m' = length m /\
    forall j, 0 <= j -> bit m' j = (j =? nr) || bit m j.
Proof.
  intros Hm Hnr.
  destruct (bit_update m nr (fun w => Z.lor w (BIT_MASK nr)) (fun _ => true) Hm Hnr)
    as (w & Hw & Hww & Hall & Hb).
  - intros w Hw. apply word_lor; [done|apply word_shl].
  - intros w i Hw Hi. rewrite Z.lor_spec, BIT_MASK_bits by done. case_decide as E.
    + by rewrite (proj2 (Z.eqb_eq _ _) E), orb_true_r.
    + by rewrite (proj2 (Z.eqb_neq _ _) E), orb_false_r.
  - exists (<[BIT_WORD nr := Z.lor w (BIT_MASK nr)]> m). unfold __set_bit.
    rewrite (aget_ok _ _ _ Hw), res_bind_ok, aset_ok by (by apply BIT_WORD_lt).
    rewrite length_insert. split_and!; [done..|]. intros j Hj. rewrite Hb by done.
    case_decide as E; [by rewrite (proj2 (Z.eqb_eq _ _) E)|by rewrite (proj2 (Z.eqb_neq _ _) E)].
Qed.

Lemma __clear_bit_ok m nr :
  Forall word m -> 0 <= nr < 64 * Z.of_nat (length m) ->
  exists m', __clear_bit nr m = Ok m' /\ Forall word m' /\ length m' = length m /\
    forall j, 0 <= j -> bit m' j = negb (j =? nr) && bit m j.
Proof.
  intros Hm Hnr.
  destruct (bit_update m nr (fun w => Z.land w (lnot64 (BIT_MASK nr))) (fun _ => false) Hm Hnr)
    as (w & Hw & Hww & Hall & Hb).
  - intros w Hw. apply word_land; [done|]. apply word_lnot, word_shl.
  - intros w i Hw Hi. rewrite Z.land_spec, lnot64_bits, BIT_MASK_bits by (done || apply word_shl).
    case_decide as E.
    + by rewrite (proj2 (Z.eqb_eq _ _) E), andb_false_r.
    + by rewrite (proj2 (Z.eqb_neq _ _) E), andb_true_r.
  - exists (<[BIT_WORD nr := Z.land w (lnot64 (BIT_MASK nr))]> m). unfold __clear_bit.
    rewrite (aget_ok _ _ _ Hw), res_bind_ok, aset_ok by (by apply BIT_WORD_lt).
    rewrite length_insert. split_and!; [done..|]. intros j Hj. rewrite Hb by done.
    case_decide as E; [by rewrite (proj2 (Z.eqb_eq _ _) E)|by rewrite (proj2 (Z.eqb_neq _ _) E)].
Qed.

Lemma land_1 x : Z.land 1 x = Z.b2z (Z.testbit x 0).
Proof.
  rewrite Z.land_comm. change 1 with (Z.ones 1). rewrite Z.land_ones, Z.bit0_mod by lia. done.
Qed.

Lemma test_bit_ok m nr :
  0 <= nr < 64 * Z.of_nat (length m) -> test_bit nr m = Ok (bit m nr).
Proof.
  intros Hnr. unfold test_bit.
  destruct (lookup_lt_is_Some_2 m (BIT_WORD nr) (BIT_WORD_lt nr m Hnr)) as [w Hw].
  rewrite (aget_ok _ _ _ Hw), res_bind_ok. change (BITS_PER_LONG - 1) with 63. rewrite land_63, land_1.
  rewrite shr64_bits, Z.add_0_l by lia.
  replace (bit m nr) with (Z.testbit w (nr mod 64)); [by destruct (Z.testbit _ _)|].
  unfold bit. change (Z.to_nat (nr / 64)) with (BIT_WORD nr). by rewrite Hw.
Qed.

(** C24.  Every search of [lib/find_next_bit.c] and [lib/find_last_bit.c], which
    walk the bitmap a word at a time with masks at the ends and [__ffs]/[__fls]
    inside a word, returns exactly what scanning one bit at a time returns:
    the first set (zero) bit at or after [offset], the first one of the map,
    the last one, or [size] where there is none. *)
Theorem find_bits_equiv m size offset :
  holds m size -> 0 <= offset < 2 ^ 64 ->
  find_next_bit m size offset = Ok (next_ref (bit m) size offset) /\
  find_next_zero_bit m size offset = Ok (next_ref (fun i => negb (bit m i)) size offset) /\
  find_first_bit m size = Ok (next_ref (bit m) size 0) /\
  find_first_zero_bit m size = Ok (next_ref (fun i => negb (bit m i)) size 0) /\
  find_last_bit m size = Ok (last_ref (bit m) (Z.to_nat size) size).
Proof.
  intros H Ho. split_and!.
  - by apply find_next_bit_ok.
  - by apply find_next_zero_bit_ok.
  - by apply find_first_bit_ok.
  - by apply find_first_zero_bit_ok.
  - by apply find_last_bit_ok.
Qed.

(** Three words, of which the last is used up to bit 130 only. *)
Lemma find_bits_equiv_witness :
  holds [0; 2 ^ 63; 2 ^ 10] 130 /\
  find_next_bit [0; 2 ^ 63; 2 ^ 10] 130 5 = Ok 127 /\
  find_next_bit [0; 2 ^ 63; 2 ^ 10] 130 128 = Ok 130.
Proof.
  assert (H : holds [0; 2 ^ 63; 2 ^ 10] 130).
  { split; [repeat constructor; lia|]. cbn. lia. }
  split; [exact H|]. split.
  - rewrite (proj1 (find_bits_equiv _ 130 5 H ltac:(lia))). vm_compute. reflexivity.
  - rewrite (proj1 (find_bits_equiv _ 130 128 H ltac:(lia))). vm_compute. reflexivity.
Defined.
