(* ===== verification/BitmapDefs.v ===== *)
(** Bitmaps: the operations of [lib/bitmap.c] and the masks and helpers of
    [include/linux/bitmap.h] and [lib/hweight.c], on regions of 64-bit words.

    A routine that writes [dst] takes the old contents of [dst] and returns the
    new ones.  The element-wise routines read word [k] of their sources before
    they write word [k] of [dst], so passing the same list for [dst] and a
    source is the in-place call; the two shifts read words that they have
    already passed, and take a flag that says whether [dst] is [src]. *)
From S2P Require Import Prelude FindBitDefs.

Definition BITS_TO_LONGS (nr : Z) : nat := Z.to_nat ((nr + BITS_PER_LONG - 1) / BITS_PER_LONG).

Definition BITMAP_FIRST_WORD_MASK (start : Z) : Z := shl64 ULLONG_MAX (start mod BITS_PER_LONG).
Definition BITMAP_LAST_WORD_MASK (nbits : Z) : Z :=
  if negb (nbits mod BITS_PER_LONG =? 0) then shl64 1 (nbits mod BITS_PER_LONG) ⊖ 1 else ULLONG_MAX.

(** [for (k = k0; k < k0 + n; k++) body]. *)
Fixpoint for_loop {S : Type} (n k : nat) (body : nat -> S -> res S) (s : S) : res S :=
  match n with
  | O => Ok s
  | Datatypes.S n' => s' ← body k s; for_loop n' (Datatypes.S k) body s'
  end.

(** [for (k = k0; k < k0 + n; k++) if (test) return ...]: did some test hold? *)
Fixpoint any_word (n k : nat) (test : nat -> res bool) : res bool :=
  match n with
  | O => Ok false
  | Datatypes.S n' => b ← test k; if b : bool then Ok true else any_word n' (Datatypes.S k) test
  end.

(** The shape of the predicates on bitmaps: is [w k] non-zero for some whole
    word [k], or for the last word under its mask? *)
Definition some_bits (bits : Z) (w : nat -> res Z) : res bool :=
  let lim := Z.to_nat (bits / BITS_PER_LONG) in
  b ← any_word lim 0 (fun k => x ← w k; Ok (negb (x =? 0)));
  if b : bool then Ok true
  else if negb (bits mod BITS_PER_LONG =? 0) then
    x ← w lim; Ok (negb (Z.land x (BITMAP_LAST_WORD_MASK bits) =? 0))
  else Ok false.

Definition __bitmap_empty (bitmap : list Z) (bits : Z) : res bool :=
  b ← some_bits bits (fun k => aget bitmap k); Ok (negb b).

Definition __bitmap_full (bitmap : list Z) (bits : Z) : res bool :=
  b ← some_bits bits (fun k => w ← aget bitmap k; Ok (lnot64 w)); Ok (negb b).

(** Two words differ when their exclusive or is not zero. *)
Definition __bitmap_equal (bitmap1 bitmap2 : list Z) (bits : Z) : res bool :=
  b ← some_bits bits (fun k => w1 ← aget bitmap1 k; w2 ← aget bitmap2 k; Ok (Z.lxor w1 w2));
  Ok (negb b).

Definition __bitmap_intersects (bitmap1 bitmap2 : list Z) (bits : Z) : res bool :=
  some_bits bits (fun k => w1 ← aget bitmap1 k; w2 ← aget bitmap2 k; Ok (Z.land w1 w2)).

Definition __bitmap_subset (bitmap1 bitmap2 : list Z) (bits : Z) : res bool :=
  b ← some_bits bits (fun k =>
        w1 ← aget bitmap1 k; w2 ← aget bitmap2 k; Ok (Z.land w1 (lnot64 w2)));
  Ok (negb b).

Definition __bitmap_complement (dst src : list Z) (bits : Z) : res (list Z) :=
  let lim := Z.to_nat (bits / BITS_PER_LONG) in
  dst ← for_loop lim 0 (fun k dst => w ← aget src k; aset dst k (lnot64 w)) dst;
  if negb (bits mod BITS_PER_LONG =? 0) then w ← aget src lim; aset dst lim (lnot64 w)
  else Ok dst.

(** [result |= (dst[k] = ...)] over whole words and the masked last word. *)
Definition bitmap_binop (op : Z -> Z -> Z) (dst bitmap1 bitmap2 : list Z) (bits : Z)
    : res (bool * list Z) :=
  let lim := Z.to_nat (bits / BITS_PER_LONG) in
  '(dst, result) ← for_loop lim 0 (fun k '(dst, result) =>
      w1 ← aget bitmap1 k; w2 ← aget bitmap2 k;
      dst ← aset dst k (op w1 w2); Ok (dst, Z.lor result (op w1 w2))) (dst, 0);
  '(dst, result) ←
    (if negb (bits mod BITS_PER_LONG =? 0) then
       w1 ← aget bitmap1 lim; w2 ← aget bitmap2 lim;
       let x := Z.land (op w1 w2) (BITMAP_LAST_WORD_MASK bits) in
       dst ← aset dst lim x; Ok (dst, Z.lor result x)
     else Ok (dst, result));
  Ok (negb (result =? 0), dst).

Definition __bitmap_and (dst bitmap1 bitmap2 : list Z) (bits : Z) : res (bool * list Z) :=
  bitmap_binop Z.land dst bitmap1 bitmap2 bits.

Definition __bitmap_andnot (dst bitmap1 bitmap2 : list Z) (bits : Z) : res (bool * list Z) :=
  bitmap_binop (fun w1 w2 => Z.land w1 (lnot64 w2)) dst bitmap1 bitmap2 bits.

(** [__bitmap_or] and [__bitmap_xor] write every word in full. *)
Definition bitmap_words (op : Z -> Z -> Z) (dst bitmap1 bitmap2 : list Z) (bits : Z) : res (list Z) :=
  for_loop (BITS_TO_LONGS bits) 0 (fun k dst =>
    w1 ← aget bitmap1 k; w2 ← aget bitmap2 k; aset dst k (op w1 w2)) dst.

Definition __bitmap_or := bitmap_words Z.lor.
Definition __bitmap_xor := bitmap_words Z.lxor.

(** ** Shifts *)

(** [src[k]] when [src] is [dst] ([alias]) or another region. *)
Definition rd (alias : bool) (dst src : list Z) (k : nat) : res Z :=
  aget (if alias then dst else src) k.

(** [memset(&dst[from], 0, n * sizeof(unsigned long))]. *)
Definition zero_words (dst : list Z) (from n : nat) : res (list Z) :=
  for_loop n from (fun k dst => aset dst k 0) dst.

Definition shift_right_word (alias : bool) (src : list Z) (lim off : nat) (left rem mask : Z)
    (k : nat) (dst : list Z) : res (list Z) :=
  upper ←
    (if (rem =? 0) || (lim <=? off + k + 1)%nat then Ok 0
     else
       upper ← rd alias dst src (off + k + 1);
       Ok (if (off + k + 1 =? lim - 1)%nat && negb (left =? 0) then Z.land upper mask else upper));
  lower ← rd alias dst src (off + k);
  let lower := if negb (left =? 0) && (off + k =? lim - 1)%nat then Z.land lower mask else lower in
  let x := shr64 lower rem in
  let x := if negb (rem =? 0) then Z.lor x (shl64 upper (BITS_PER_LONG - rem)) else x in
  let x := if negb (left =? 0) && (k =? lim - 1)%nat then Z.land x mask else x in
  aset dst k x.

Definition __bitmap_shift_right (alias : bool) (dst src : list Z) (shift bits : Z) : res (list Z) :=
  let lim := BITS_TO_LONGS bits in
  let left := bits mod BITS_PER_LONG in
  let off := Z.to_nat (shift / BITS_PER_LONG) in
  let rem := shift mod BITS_PER_LONG in
  let mask := shl64 1 left ⊖ 1 in
  dst ← for_loop (lim - off) 0 (shift_right_word alias src lim off left rem mask) dst;
  if (off =? 0)%nat then Ok dst
  else if (lim <? off)%nat then Fault
  else zero_words dst (lim - off) off.

Definition shift_left_word (alias : bool) (src : list Z) (lim off : nat) (left rem : Z)
    (k : nat) (dst : list Z) : res (list Z) :=
  lower ← (if negb (rem =? 0) && (0 <? k)%nat then rd alias dst src (k - 1) else Ok 0);
  upper ← rd alias dst src k;
  let upper := if negb (left =? 0) && (k =? lim - 1)%nat then Z.land upper (shl64 1 left ⊖ 1) else upper in
  let x := shl64 upper rem in
  let x := if negb (rem =? 0) then Z.lor x (shr64 lower (BITS_PER_LONG - rem)) else x in
  let x := if negb (left =? 0) && (k + off =? lim - 1)%nat then Z.land x (shl64 1 left ⊖ 1) else x in
  aset dst (k + off) x.

(** [for (k = n - 1; k >= 0; --k) body]. *)
Fixpoint for_down {S : Type} (n : nat) (body : nat -> S -> res S) (s : S) : res S :=
  match n with
  | O => Ok s
  | Datatypes.S n' => s' ← body n' s; for_down n' body s'
  end.

Definition __bitmap_shift_left (alias : bool) (dst src : list Z) (shift bits : Z) : res (list Z) :=
  let lim := BITS_TO_LONGS bits in
  let left := bits mod BITS_PER_LONG in
  let off := Z.to_nat (shift / BITS_PER_LONG) in
  let rem := shift mod BITS_PER_LONG in
  dst ← for_down (lim - off) (shift_left_word alias src lim off left rem) dst;
  if (off =? 0)%nat then Ok dst else zero_words dst 0 off.

(** ** Weight *)

(** [__sw_hweight64] without a fast multiplier. *)
Definition __sw_hweight64 (w : Z) : Z :=
  let res := w ⊖ Z.land (shr64 w 1) 0x5555555555555555 in
  let res := Z.land res 0x3333333333333333 ⊕ Z.land (shr64 res 2) 0x3333333333333333 in
  let res := Z.land (res ⊕ shr64 res 4) 0x0F0F0F0F0F0F0F0F in
  let res := res ⊕ shr64 res 8 in
  let res := res ⊕ shr64 res 16 in
  Z.land (res ⊕ shr64 res 32) 0x00000000000000FF.

Definition __bitmap_weight (bitmap : list Z) (bits : Z) : res Z :=
  let lim := Z.to_nat (bits / BITS_PER_LONG) in
  w ← for_loop lim 0 (fun k w => x ← aget bitmap k; Ok (w + __sw_hweight64 x)) 0;
  if negb (bits mod BITS_PER_LONG =? 0) then
    x ← aget bitmap lim; Ok (w + __sw_hweight64 (Z.land x (BITMAP_LAST_WORD_MASK bits)))
  else Ok w.

(** ** Ranges of bits *)

(** The loop [while (len - bits_to_set >= 0)] of [bitmap_set] and
    [bitmap_clear]; [op] puts the mask into the word. *)
Definition range_words (op : Z -> Z -> Z) (size : Z) (s : list Z * nat * Z * Z * Z)
    : res ((list Z * nat * Z * Z * Z) + list Z) :=
  let '(map, p, len, bits_to_set, mask) := s in
  if len - bits_to_set >=? 0 then
    w ← aget map p; map ← aset map p (op w mask);
    Ok (inl (map, Datatypes.S p, len - bits_to_set, BITS_PER_LONG, ULLONG_MAX))
  else if negb (len =? 0) then
    let mask := Z.land mask (BITMAP_LAST_WORD_MASK size) in
    w ← aget map p; map ← aset map p (op w mask); Ok (inr map)
  else Ok (inr map).

Definition range_fuel (len : Z) : nat := Datatypes.S (Datatypes.S (Z.to_nat (len / BITS_PER_LONG))).

Definition bitmap_set (map : list Z) (start len : Z) : res (list Z) :=
  loop (range_fuel len) (range_words Z.lor (start ⊞ len))
    (map, BIT_WORD start, len, BITS_PER_LONG - start mod BITS_PER_LONG, BITMAP_FIRST_WORD_MASK start).

Definition bitmap_clear (map : list Z) (start len : Z) : res (list Z) :=
  loop (range_fuel len) (range_words (fun w m => Z.land w (lnot64 m)) (start ⊞ len))
    (map, BIT_WORD start, len, BITS_PER_LONG - start mod BITS_PER_LONG, BITMAP_FIRST_WORD_MASK start).

(** [__ALIGN_MASK(x, mask)]. *)
Definition __ALIGN_MASK (x mask : Z) : Z := Z.land (x ⊕ mask) (lnot64 mask).

(** One pass from the label [again]. *)
Definition zero_area_step (map : list Z) (size nr align_mask : Z) (start : Z) : res (Z + Z) :=
  index ← find_next_zero_bit map size start;
  let index := __ALIGN_MASK index align_mask in
  let end_ := index ⊕ nr in
  if end_ >? size then Ok (inr end_)
  else
    i ← find_next_bit map end_ index;
    if i <? end_ then Ok (inl (i ⊕ 1)) else Ok (inr index).

(** Every pass moves [start] up by at least one bit. *)
Definition bitmap_find_next_zero_area (map : list Z) (size start nr align_mask : Z) : res Z :=
  loop (S (Z.to_nat (size + 1 - start))) (zero_area_step map size nr align_mask) start.
