(* ===== verification/Bitmap.v ===== *)
(** Correctness of the word-parallel bitmap operations: predicates, boolean
    algebra, shifts and weight, each stated on the bits of the map. *)
From S2P Require Import Prelude FindBitDefs FindBit BitmapDefs.

(** ** Loops over words *)

Lemma for_loop_inv {S} (I : nat -> S -> Prop) n k (body : nat -> S -> res S) s :
  I k s ->
  (forall i s, (k <= i < k + n)%nat -> I i s -> exists s', body i s = Ok s' /\ I (Datatypes.S i) s') ->
  exists s', for_loop n k body s = Ok s' /\ I (k + n)%nat s'.
Proof.
  revert k s. induction n as [|n IH]; intros k s Hs Hb; cbn [for_loop].
  - exists s. by rewrite Nat.add_0_r.
  - destruct (Hb k s) as (s' & -> & Hs'); [lia|done|]. rewrite res_bind_ok.
    rewrite Nat.add_succ_r, <- Nat.add_succ_l. apply IH; [done|]. intros i t Hi. apply Hb. lia.
Qed.

Lemma for_down_inv {S} (I : nat -> S -> Prop) n (body : nat -> S -> res S) s :
  I n s ->
  (forall i s, (i < n)%nat -> I (Datatypes.S i) s -> exists s', body i s = Ok s' /\ I i s') ->
  exists s', for_down n body s = Ok s' /\ I O s'.
Proof.
  revert s. induction n as [|n IH]; intros s Hs Hb; cbn [for_down]; [by exists s|].
  destruct (Hb n s) as (s' & -> & Hs'); [lia|done|]. rewrite res_bind_ok.
  apply IH; [done|]. intros i t Hi. apply Hb. lia.
Qed.

Lemma any_word_ok n k (test : nat -> res bool) (T : nat -> bool) :
  (forall i, (k <= i < k + n)%nat -> test i = Ok (T i)) ->
  exists b, any_word n k test = Ok b /\
    (b = true <-> exists i, (k <= i < k + n)%nat /\ T i = true).
Proof.
  revert k. induction n as [|n IH]; intros k Ht; cbn [any_word].
  - exists false. split; [done|]. split; [done|]. intros (i & Hi & _). lia.
  - rewrite Ht by lia. rewrite res_bind_ok. destruct (T k) eqn:E.
    + exists true. split; [done|]. split; [|done]. intros _. exists k. split; [lia|done].
    + destruct (IH (Datatypes.S k)) as (b & -> & Hb); [intros i Hi; apply Ht; lia|].
      exists b. split; [done|]. rewrite Hb. split; intros (i & Hi & HT); exists i; (split; [|done]).
      * lia.
      * destruct (decide (i = k)) as [->|]; [congruence|lia].
Qed.

(** ** Words of a bitmap *)

(** Number of whole words, number of words touched. *)
Lemma last_mask_bits bits i :
  bits mod 64 <> 0 -> 0 <= i < 64 -> Z.testbit (BITMAP_LAST_WORD_MASK bits) i = (i <? bits mod 64).
Proof.
  intros Hb Hi. unfold BITMAP_LAST_WORD_MASK, BITS_PER_LONG.
  rewrite (proj2 (Z.eqb_neq _ _) Hb). cbn [negb].
  pose proof (Z.mod_pos_bound bits 64 ltac:(lia)). unfold shl64. rewrite Z.shiftl_1_l.
  assert (0 < 2 ^ (bits mod 64) < 2 ^ 64) by (split; [lia|apply Z.pow_lt_mono_r; lia]).
  rewrite u64_small, sub64_small by lia.
  replace (2 ^ (bits mod 64) - 1) with (Z.ones (bits mod 64)) by (rewrite Z.ones_equiv; lia).
  apply Z.testbit_ones_nonneg; lia.
Qed.

Lemma word_last_mask bits : word (BITMAP_LAST_WORD_MASK bits).
Proof. unfold BITMAP_LAST_WORD_MASK. case_match; [apply u64_range|apply word_max]. Qed.
#[export] Hint Resolve word_last_mask : cint.

(** A bit position as word and offset. *)
Lemma bits_split bits : 0 <= bits ->
  bits = 64 * Z.of_nat (Z.to_nat (bits / 64)) + bits mod 64 /\ 0 <= bits mod 64 < 64.
Proof.
  intros H. rewrite Z2Nat.id by (apply Z.div_pos; lia).
  split; [apply Z.div_mod; lia|apply Z.mod_pos_bound; lia].
Qed.

Lemma BITS_TO_LONGS_spec bits : 0 <= bits ->
  BITS_TO_LONGS bits =
    (Z.to_nat (bits / 64) + if Z.eqb (bits mod 64) 0 then 0 else 1)%nat.
Proof.
  intros H. unfold BITS_TO_LONGS, BITS_PER_LONG.
  pose proof (bits_split bits H) as [E ?]. rewrite Z2Nat.id in E by (apply Z.div_pos; lia).
  assert (0 <= bits / 64) by (apply Z.div_pos; lia).
  destruct (Z.eqb_spec (bits mod 64) 0) as [E0|E0].
  - replace ((bits + 64 - 1) / 64) with (bits / 64); [lia|]. apply Z.div_unique with 63; lia.
  - replace ((bits + 64 - 1) / 64) with (bits / 64 + 1); [lia|].
    apply Z.div_unique with (bits mod 64 - 1); lia.
Qed.

Lemma holds_longs m bits : holds m bits -> (BITS_TO_LONGS bits <= length m)%nat.
Proof.
  intros (_ & Hs & _). rewrite BITS_TO_LONGS_spec by lia.
  pose proof (bits_split bits ltac:(lia)) as [E ?]. case_match; lia.
Qed.

Lemma holds_word m bits k : holds m bits -> (k < BITS_TO_LONGS bits)%nat ->
  exists w, m !! k = Some w /\ aget m k = Ok w /\ word w.
Proof.
  intros H Hk. pose proof (holds_longs m bits H). destruct (lookup_lt_is_Some_2 m k) as [w Hw]; [lia|].
  exists w. split_and!; [done|by apply aget_ok|]. by eapply Forall_lookup_1; [apply H|].
Qed.

(** Reading a word of a bitmap with room for [bits] bits. *)
Definition wordn (m : list Z) (k : nat) : Z := default 0 (m !! k).

Lemma holds_aget m bits k : holds m bits -> (k < BITS_TO_LONGS bits)%nat ->
  aget m k = Ok (wordn m k) /\ word (wordn m k).
Proof. intros H Hk. destruct (holds_word m bits k H Hk) as (w & Hw & -> & ?). unfold wordn. by rewrite Hw. Qed.

Lemma bit_wordn m i : bit m i = Z.testbit (wordn m (BIT_WORD i)) (i mod 64).
Proof. reflexivity. Qed.

Lemma bit_at m k j : 0 <= j < 64 -> bit m (64 * Z.of_nat k + j) = Z.testbit (wordn m k) j.
Proof.
  intros Hj. unfold bit, wordn.
  rewrite Z.mul_comm, Z.div_add_l, Z.div_small, Z.add_0_r, Nat2Z.id by lia.
  by rewrite Z.add_comm, Z.mod_add, Z.mod_small by lia.
Qed.

Lemma BIT_WORD_at k j : 0 <= j < 64 -> BIT_WORD (64 * Z.of_nat k + j) = k.
Proof.
  intros Hj. unfold BIT_WORD, BITS_PER_LONG.
  by rewrite Z.mul_comm, Z.div_add_l, Z.div_small, Z.add_0_r, Nat2Z.id by lia.
Qed.

(** Where bit [i] of [bits] bits lies. *)
Lemma bit_position bits i : 0 <= i < bits ->
  exists k j, i = 64 * Z.of_nat k + j /\ 0 <= j < 64 /\ (k < BITS_TO_LONGS bits)%nat /\
    ((k < Z.to_nat (bits / 64))%nat \/ (k = Z.to_nat (bits / 64) /\ j < bits mod 64)).
Proof.
  intros Hi. exists (BIT_WORD i), (i mod 64).
  pose proof (bit_word_nat i ltac:(lia)) as E. pose proof (Z.mod_pos_bound i 64 ltac:(lia)).
  pose proof (bits_split bits ltac:(lia)) as [Eb ?]. rewrite BITS_TO_LONGS_spec by lia.
  split_and!; [done|lia|lia|case_match; lia|lia].
Qed.

(** ** Predicates *)

Lemma nonzero_bits x : word x -> negb (x =? 0) = true <-> exists j, 0 <= j < 64 /\ Z.testbit x j = true.
Proof.
  intros Hx. destruct (Z.eqb_spec x 0) as [->|E]; cbn [negb]; (split; [|]).
  - done.
  - intros (j & _ & Hj). by rewrite Z.bits_0 in Hj.
  - intros _. destruct (__ffs_lowest x Hx E) as (Hr & Ht & _). eauto.
  - done.
Qed.

Lemma some_bits_ok bits (w : nat -> res Z) (W : nat -> Z) :
  0 <= bits ->
  (forall k, (k < BITS_TO_LONGS bits)%nat -> w k = Ok (W k) /\ word (W k)) ->
  exists b, some_bits bits w = Ok b /\
    (b = true <-> exists i, 0 <= i < bits /\ Z.testbit (W (BIT_WORD i)) (i mod 64) = true).
Proof.
  intros Hb Hw. unfold some_bits, BITS_PER_LONG. rewrite BITS_TO_LONGS_spec in Hw by done.
  pose proof (bits_split bits Hb) as [Eb Hm]. set (lim := Z.to_nat (bits / 64)) in *.
  destruct (any_word_ok lim 0 (fun k => x ← w k; Ok (negb (x =? 0))) (fun k => negb (W k =? 0)))
    as (b & -> & Hany).
  { intros i Hi. by rewrite (proj1 (Hw i ltac:(lia))). }
  rewrite res_bind_ok. destruct b.
  - exists true. split; [done|]. split; [intros _|done].
    destruct (proj1 Hany eq_refl) as (k & Hk & Ht).
    apply nonzero_bits in Ht as (j & Hj & Ht); [|apply Hw; lia].
    exists (64 * Z.of_nat k + j). split; [lia|].
    by rewrite BIT_WORD_at, Z.add_comm, Z.mul_comm, Z.mod_add, Z.mod_small by lia.
  - assert (Hno : forall i, 0 <= i < 64 * Z.of_nat lim -> Z.testbit (W (BIT_WORD i)) (i mod 64) = false).
    { intros i Hi. destruct (Z.testbit _ _) eqn:E; [|done]. exfalso.
      pose proof (bit_word_nat i ltac:(lia)). pose proof (Z.mod_pos_bound i 64 ltac:(lia)).
      enough (false = true) by done. apply Hany. exists (BIT_WORD i). split; [lia|].
      apply nonzero_bits; [apply Hw; lia|]. eauto. }
    destruct (Z.eqb_spec (bits mod 64) 0) as [E0|E0]; cbn [negb].
    + exists false. split; [done|]. split; [done|]. intros (i & Hi & Ht). rewrite Hno in Ht; [done|lia].
    + destruct (Hw lim ltac:(lia)) as [-> HW]. rewrite res_bind_ok. eexists. split; [done|].
      rewrite nonzero_bits by (apply word_land; [done|apply word_last_mask]). split.
      * intros (j & Hj & Ht). rewrite Z.land_spec, last_mask_bits in Ht by done.
        apply andb_prop in Ht as [Ht Hlt]. exists (64 * Z.of_nat lim + j). split; [lia|].
        by rewrite BIT_WORD_at, Z.add_comm, Z.mul_comm, Z.mod_add, Z.mod_small by lia.
      * intros (i & Hi & Ht). pose proof (bit_word_nat i ltac:(lia)).
        pose proof (Z.mod_pos_bound i 64 ltac:(lia)).
        destruct (Z.ltb_spec i (64 * Z.of_nat lim)); [rewrite Hno in Ht; [done|lia]|].
        assert (BIT_WORD i = lim) as Hk by lia. rewrite Hk in Ht.
        exists (i mod 64). split; [done|]. rewrite Z.land_spec, Ht, last_mask_bits by done. lia.
Qed.

Lemma none_bits_ok bits (w : nat -> res Z) (W : nat -> Z) :
  0 <= bits ->
  (forall k, (k < BITS_TO_LONGS bits)%nat -> w k = Ok (W k) /\ word (W k)) ->
  exists b, (b ← some_bits bits w; Ok (negb b)) = Ok b /\
    (b = true <-> forall i, 0 <= i < bits -> Z.testbit (W (BIT_WORD i)) (i mod 64) = false).
Proof.
  intros Hb Hw. destruct (some_bits_ok bits w W Hb Hw) as (b & -> & Hs).
  eexists. split; [reflexivity|]. rewrite negb_true_iff, <- not_true_iff_false, Hs. split.
  - intros Hn i Hi. destruct (Z.testbit _ _) eqn:E; [|done]. exfalso. eauto.
  - intros Hn (i & Hi & Ht). by rewrite Hn in Ht.
Qed.

Lemma __bitmap_empty_ok m bits : holds m bits ->
  exists b, __bitmap_empty m bits = Ok b /\
    (b = true <-> forall i, 0 <= i < bits -> bit m i = false).
Proof.
  intros H. apply (none_bits_ok bits _ (wordn m)); [apply H|]. intros k Hk. by eapply holds_aget.
Qed.

Lemma lnot64_bit_pos w i : word w -> Z.testbit (lnot64 w) (i mod 64) = negb (Z.testbit w (i mod 64)).
Proof. intros Hw. apply lnot64_bits; [done|]. apply Z.mod_pos_bound. lia. Qed.

Lemma BIT_WORD_longs bits i : 0 <= i < bits -> (BIT_WORD i < BITS_TO_LONGS bits)%nat.
Proof.
  intros Hi. destruct (bit_position bits i Hi) as (k & j & -> & Hj & Hk & _).
  by rewrite BIT_WORD_at.
Qed.

Lemma __bitmap_full_ok m bits : holds m bits ->
  exists b, __bitmap_full m bits = Ok b /\
    (b = true <-> forall i, 0 <= i < bits -> bit m i = true).
Proof.
  intros H. destruct (none_bits_ok bits (fun k => w ← aget m k; Ok (lnot64 w)) (fun k => lnot64 (wordn m k)))
    as (b & Hb & Hi); [apply H| |].
  - intros k Hk. destruct (holds_aget m bits k H Hk) as [-> ?]. auto with cint.
  - exists b. split; [exact Hb|]. rewrite Hi. apply forall_proper. intros i.
    split; intros Hf Hr; specialize (Hf Hr); rewrite ?bit_wordn in *;
      destruct (holds_aget m bits (BIT_WORD i) H (BIT_WORD_longs _ _ Hr)) as [_ ?];
      rewrite lnot64_bit_pos in * by done; by destruct (Z.testbit _ _).
Qed.

(** Two sources. *)
Lemma holds_aget2 m1 m2 bits k (op : Z -> Z -> Z) :
  holds m1 bits -> holds m2 bits -> (k < BITS_TO_LONGS bits)%nat ->
  (w1 ← aget m1 k; w2 ← aget m2 k; Ok (op w1 w2)) = Ok (op (wordn m1 k) (wordn m2 k)) /\
  word (wordn m1 k) /\ word (wordn m2 k).
Proof.
  intros H1 H2 Hk. destruct (holds_aget m1 bits k H1 Hk) as [-> ?].
  by destruct (holds_aget m2 bits k H2 Hk) as [-> ?].
Qed.

Lemma __bitmap_equal_ok m1 m2 bits : holds m1 bits -> holds m2 bits ->
  exists b, __bitmap_equal m1 m2 bits = Ok b /\
    (b = true <-> forall i, 0 <= i < bits -> bit m1 i = bit m2 i).
Proof.
  intros H1 H2. destruct (none_bits_ok bits
    (fun k => w1 ← aget m1 k; w2 ← aget m2 k; Ok (Z.lxor w1 w2))
    (fun k => Z.lxor (wordn m1 k) (wordn m2 k))) as (b & Hb & Hi); [apply H1| |].
  - intros k Hk. destruct (holds_aget2 m1 m2 bits k Z.lxor H1 H2 Hk) as (-> & ? & ?). auto with cint.
  - exists b. split; [exact Hb|]. rewrite Hi. apply forall_proper. intros i.
    rewrite Z.lxor_spec, !bit_wordn. split; intros Hf Hr; specialize (Hf Hr);
      by destruct (Z.testbit (wordn m1 _) _), (Z.testbit (wordn m2 _) _).
Qed.

Lemma __bitmap_intersects_ok m1 m2 bits : holds m1 bits -> holds m2 bits ->
  exists b, __bitmap_intersects m1 m2 bits = Ok b /\
    (b = true <-> exists i, 0 <= i < bits /\ bit m1 i = true /\ bit m2 i = true).
Proof.
  intros H1 H2. destruct (some_bits_ok bits
    (fun k => w1 ← aget m1 k; w2 ← aget m2 k; Ok (Z.land w1 w2))
    (fun k => Z.land (wordn m1 k) (wordn m2 k))) as (b & Hb & Hi); [apply H1| |].
  - intros k Hk. destruct (holds_aget2 m1 m2 bits k Z.land H1 H2 Hk) as (-> & [] & []).
    split; [done|]. by apply word_land.
  - exists b. split; [exact Hb|]. rewrite Hi. apply exist_proper. intros i.
    by rewrite Z.land_spec, andb_true_iff, !bit_wordn.
Qed.

Lemma __bitmap_subset_ok m1 m2 bits : holds m1 bits -> holds m2 bits ->
  exists b, __bitmap_subset m1 m2 bits = Ok b /\
    (b = true <-> forall i, 0 <= i < bits -> bit m1 i = true -> bit m2 i = true).
Proof.
  intros H1 H2. destruct (none_bits_ok bits
    (fun k => w1 ← aget m1 k; w2 ← aget m2 k; Ok (Z.land w1 (lnot64 w2)))
    (fun k => Z.land (wordn m1 k) (lnot64 (wordn m2 k)))) as (b & Hb & Hi); [apply H1| |].
  - intros k Hk.
    destruct (holds_aget2 m1 m2 bits k (fun a b => Z.land a (lnot64 b)) H1 H2 Hk) as (-> & ? & Hw2).
    split; [done|]. apply word_land; [done|]. apply word_lnot in Hw2. apply Hw2.
  - exists b. split; [exact Hb|]. rewrite Hi. apply forall_proper. intros i.
    rewrite Z.land_spec, !bit_wordn. split; intros Hf Hr; specialize (Hf Hr);
      destruct (holds_aget m2 bits (BIT_WORD i) H2 (BIT_WORD_longs _ _ Hr)) as [_ ?];
      rewrite ?lnot64_bit_pos in * by done;
      destruct (Z.testbit (wordn m1 _) _), (Z.testbit (wordn m2 _) _); naive_solver.
Qed.

(** ** Boolean algebra *)

Lemma wordn_insert m k x j :
  (k < length m)%nat -> wordn (<[k := x]> m) j = if decide (j = k) then x else wordn m j.
Proof.
  intros Hk. unfold wordn. case_decide as E; [subst; by rewrite list_lookup_insert_eq|].
  by rewrite list_lookup_insert_ne.
Qed.

(** [dst'] is [dst] with its first [n] words replaced by the words [W]. *)
Definition written (dst dst' : list Z) (n : nat) (W : nat -> Z) : Prop :=
  length dst' = length dst /\ Forall word dst' /\
  forall k, wordn dst' k = if decide (k < n)%nat then W k else wordn dst k.

Lemma written_0 dst W : Forall word dst -> written dst dst 0 W.
Proof. intros H. split_and!; [done..|]. intros k. by rewrite decide_False by lia. Qed.

Lemma written_S dst dst' n W x :
  written dst dst' n W -> (n < length dst)%nat -> x = W n -> word x ->
  written dst (<[n := x]> dst') (S n) W.
Proof.
  intros (Hl & Hf & Hw) Hn -> Hx. split_and!.
  - by rewrite length_insert.
  - by apply Forall_insert.
  - intros k. rewrite wordn_insert, Hw by lia.
    repeat case_decide; subst; try done; lia.
Qed.

(** The last word, masked or not. *)
Definition masked_last (bits : Z) (W : nat -> Z) (k : nat) : Z :=
  if decide (k < Z.to_nat (bits / 64))%nat then W k else Z.land (W k) (BITMAP_LAST_WORD_MASK bits).

Lemma longs_cases bits : 0 <= bits ->
  (bits mod 64 = 0 /\ BITS_TO_LONGS bits = Z.to_nat (bits / 64)) \/
  (bits mod 64 <> 0 /\ BITS_TO_LONGS bits = S (Z.to_nat (bits / 64))).
Proof. intros H. rewrite BITS_TO_LONGS_spec by done. destruct (Z.eqb_spec (bits mod 64) 0); lia. Qed.

Lemma bitmap_binop_ok op dst m1 m2 bits :
  (forall w1 w2, word w1 -> word w2 -> word (op w1 w2)) ->
  holds dst bits -> holds m1 bits -> holds m2 bits ->
  exists b dst', bitmap_binop op dst m1 m2 bits = Ok (b, dst') /\
    written dst dst' (BITS_TO_LONGS bits) (masked_last bits (fun k => op (wordn m1 k) (wordn m2 k))) /\
    (b = false <-> forall k, (k < BITS_TO_LONGS bits)%nat ->
                     masked_last bits (fun k => op (wordn m1 k) (wordn m2 k)) k = 0).
Proof.
  intros Hop Hd H1 H2. pose proof (holds_longs dst bits Hd) as Hlen.
  set (W := fun k => op (wordn m1 k) (wordn m2 k)). unfold bitmap_binop, BITS_PER_LONG.
  set (lim := Z.to_nat (bits / 64)).
  assert (Hlim : (lim <= BITS_TO_LONGS bits)%nat).
  { destruct (longs_cases bits) as [[_ ->]|[_ ->]]; [apply Hd|..]; unfold lim; lia. }
  assert (Hsrc : forall k, (k < BITS_TO_LONGS bits)%nat ->
            aget m1 k = Ok (wordn m1 k) /\ aget m2 k = Ok (wordn m2 k) /\ word (W k)).
  { intros k Hk. destruct (holds_aget m1 bits k H1 Hk), (holds_aget m2 bits k H2 Hk).
    split_and!; [done..|]. by apply Hop. }
  destruct (for_loop_inv (fun k (s : list Z * Z) =>
      written dst s.1 k (masked_last bits W) /\ word s.2 /\
      (s.2 = 0 <-> forall i, (i < k)%nat -> masked_last bits W i = 0)) lim 0
      (fun k '(dst, result) =>
         w1 ← aget m1 k; w2 ← aget m2 k;
         dst ← aset dst k (op w1 w2); Ok (dst, Z.lor result (op w1 w2))) (dst, 0))
    as ([dst1 r1] & -> & Hw1 & Hr1 & Hz1).
  - split; [apply written_0, Hd|]. split; [done|]. split; [lia|done].
  - intros k [d r] Hk (Hw & Hr & Hz). cbn [fst snd] in *.
    destruct (Hsrc k ltac:(lia)) as (-> & -> & HW). rewrite !res_bind_ok.
    rewrite aset_ok by (destruct Hw as (-> & _); lia). rewrite res_bind_ok.
    assert (Hm : W k = masked_last bits W k) by (unfold masked_last; fold lim; by rewrite decide_True by lia).
    eexists. split; [done|]. cbn [fst snd]. split_and!.
    + apply written_S; [done|lia|done|done].
    + by apply word_lor.
    + change (op (wordn m1 k) (wordn m2 k)) with (W k). rewrite Z.lor_eq_0_iff, Hz. split.
      * intros [Hlt H0] i Hi. destruct (decide (i = k)) as [->|]; [congruence|]. apply Hlt. lia.
      * intros Hall. split; [intros i Hi; apply Hall; lia|]. rewrite Hm. apply Hall. lia.
  - rewrite Nat.add_0_l in *. cbn [fst snd] in *. cbn [mbind res_bind].
    destruct (longs_cases bits) as [[E0 EL]|[E0 EL]]; [apply Hd| |]; rewrite EL.
    + rewrite E0. cbn [negb Z.eqb]. rewrite !res_bind_ok. eexists _, _. split; [done|]. split; [done|].
      rewrite negb_false_iff, Z.eqb_eq. done.
    + rewrite (proj2 (Z.eqb_neq _ _) E0). cbn [negb].
      destruct (Hsrc lim ltac:(unfold lim; lia)) as (-> & -> & HW). rewrite !res_bind_ok. cbv zeta.
      rewrite aset_ok by (destruct Hw1 as (-> & _); lia). rewrite !res_bind_ok.
      assert (Hm : Z.land (W lim) (BITMAP_LAST_WORD_MASK bits) = masked_last bits W lim).
      { unfold masked_last. by rewrite decide_False by (unfold lim; lia). }
      change (op (wordn m1 lim) (wordn m2 lim)) with (W lim). rewrite Hm.
      eexists _, _. split; [done|]. split.
      * apply written_S; [done|lia|done|]. rewrite <- Hm. apply word_land; [done|apply word_last_mask].
      * rewrite negb_false_iff, Z.eqb_eq, Z.lor_eq_0_iff, Hz1. split.
        -- intros [Hlt H0] i Hi. destruct (decide (i = lim)) as [->|]; [done|]. apply Hlt. lia.
        -- intros Hall. split; [intros i Hi; apply Hall; lia|]. apply Hall. lia.
Qed.

Lemma bitmap_words_ok op dst m1 m2 bits :
  (forall w1 w2, word w1 -> word w2 -> word (op w1 w2)) ->
  holds dst bits -> holds m1 bits -> holds m2 bits ->
  exists dst', bitmap_words op dst m1 m2 bits = Ok dst' /\
    written dst dst' (BITS_TO_LONGS bits) (fun k => op (wordn m1 k) (wordn m2 k)).
Proof.
  intros Hop Hd H1 H2. pose proof (holds_longs dst bits Hd). unfold bitmap_words.
  apply (for_loop_inv (fun k d => written dst d k (fun k => op (wordn m1 k) (wordn m2 k)))
           (BITS_TO_LONGS bits) 0); [apply written_0, Hd|].
  intros k d Hk Hw.
  destruct (holds_aget m1 bits k H1 ltac:(lia)) as [-> ?], (holds_aget m2 bits k H2 ltac:(lia)) as [-> ?].
  rewrite !res_bind_ok, aset_ok by (destruct Hw as (-> & _); lia).
  eexists. split; [done|]. apply written_S; [done|lia|done|]. by apply Hop.
Qed.

Lemma __bitmap_complement_ok dst src bits :
  holds dst bits -> holds src bits ->
  exists dst', __bitmap_complement dst src bits = Ok dst' /\
    written dst dst' (BITS_TO_LONGS bits) (fun k => lnot64 (wordn src k)).
Proof.
  intros Hd Hs. pose proof (holds_longs dst bits Hd). unfold __bitmap_complement, BITS_PER_LONG.
  set (lim := Z.to_nat (bits / 64)).
  assert (Hlim : (lim <= BITS_TO_LONGS bits)%nat).
  { destruct (longs_cases bits) as [[_ ->]|[_ ->]]; [apply Hd|..]; unfold lim; lia. }
  destruct (for_loop_inv (fun k d => written dst d k (fun k => lnot64 (wordn src k))) lim 0
    (fun k dst => w ← aget src k; aset dst k (lnot64 w)) dst) as (d & -> & Hw).
  - apply written_0, Hd.
  - intros k d Hk Hw. destruct (holds_aget src bits k Hs ltac:(lia)) as [-> ?].
    rewrite res_bind_ok, aset_ok by (destruct Hw as (-> & _); lia).
    eexists. split; [done|]. apply written_S; [done|lia|done|]. by apply word_lnot.
  - rewrite res_bind_ok. destruct (longs_cases bits) as [[E0 EL]|[E0 EL]]; [apply Hd| |]; rewrite EL.
    + rewrite E0. cbn [negb Z.eqb]. by exists d.
    + rewrite (proj2 (Z.eqb_neq _ _) E0). cbn [negb].
      destruct (holds_aget src bits lim Hs ltac:(unfold lim; lia)) as [-> ?].
      rewrite res_bind_ok, aset_ok by (destruct Hw as (-> & _); lia).
      eexists. split; [done|]. apply written_S; [done|lia|done|]. by apply word_lnot.
Qed.

Lemma written_bits dst dst' n W i :
  written dst dst' n W -> 0 <= i ->
  bit dst' i = if i <? 64 * Z.of_nat n then Z.testbit (W (BIT_WORD i)) (i mod 64) else bit dst i.
Proof.
  intros (_ & _ & Hw) Hi. rewrite bit_wordn, Hw. pose proof (bit_word_nat i Hi).
  pose proof (Z.mod_pos_bound i 64 ltac:(lia)).
  destruct (Z.ltb_spec i (64 * Z.of_nat n)); case_decide; done || lia.
Qed.

Lemma masked_last_bits bits W i :
  0 <= bits -> 0 <= i < 64 * Z.of_nat (BITS_TO_LONGS bits) ->
  Z.testbit (masked_last bits W (BIT_WORD i)) (i mod 64)
  = Z.testbit (W (BIT_WORD i)) (i mod 64) && (i <? bits).
Proof.
  intros Hb Hi. unfold masked_last. pose proof (bit_word_nat i ltac:(lia)) as Ei.
  pose proof (Z.mod_pos_bound i 64 ltac:(lia)) as Hm.
  pose proof (bits_split bits Hb) as [Eb Hmb]. case_decide as Hk.
  - rewrite (proj2 (Z.ltb_lt _ _)) by lia. by rewrite andb_true_r.
  - destruct (longs_cases bits Hb) as [[E0 EL]|[E0 EL]]; [lia|].
    rewrite Z.land_spec, last_mask_bits by done.
    destruct (Z.ltb_spec (i mod 64) (bits mod 64)), (Z.ltb_spec i bits); done || lia.
Qed.

(** What an operation on [bits] bits leaves in [dst]: bit [i] is [f i], the
    unused bits of the last word are [g i], and the words above are untouched. *)
Definition bits_written (dst dst' : list Z) (bits : Z) (f g : Z -> bool) : Prop :=
  length dst' = length dst /\ Forall word dst' /\
  (forall i, 0 <= i < bits -> bit dst' i = f i) /\
  (forall i, bits <= i < 64 * Z.of_nat (BITS_TO_LONGS bits) -> bit dst' i = g i) /\
  (forall i, 64 * Z.of_nat (BITS_TO_LONGS bits) <= i -> bit dst' i = bit dst i).

Lemma longs_room bits : 0 <= bits -> bits <= 64 * Z.of_nat (BITS_TO_LONGS bits).
Proof.
  intros H. pose proof (bits_split bits H) as [E ?]. destruct (longs_cases bits H) as [[? ->]|[? ->]]; lia.
Qed.

Lemma written_bits_written dst dst' bits W h :
  0 <= bits -> written dst dst' (BITS_TO_LONGS bits) W ->
  (forall i, 0 <= i < 64 * Z.of_nat (BITS_TO_LONGS bits) -> Z.testbit (W (BIT_WORD i)) (i mod 64) = h i) ->
  bits_written dst dst' bits h h.
Proof.
  intros Hb Hw Hh. pose proof (longs_room bits Hb). split; [apply Hw|]. split; [apply Hw|].
  split_and!; intros i Hi; rewrite (written_bits _ _ _ _ _ Hw) by lia.
  - rewrite (proj2 (Z.ltb_lt _ _)) by lia. apply Hh. lia.
  - rewrite (proj2 (Z.ltb_lt _ _)) by lia. apply Hh. lia.
  - by rewrite (proj2 (Z.ltb_ge _ _)) by lia.
Qed.

Lemma bits_written_ext dst dst' bits f g f' g' :
  bits_written dst dst' bits f g ->
  (forall i, 0 <= i < bits -> f i = f' i) ->
  (forall i, bits <= i < 64 * Z.of_nat (BITS_TO_LONGS bits) -> g i = g' i) ->
  bits_written dst dst' bits f' g'.
Proof.
  intros (Hl & Hw & Hf & Hg & Ho) Hf' Hg'. split_and!; [done..| | |done].
  - intros i Hi. by rewrite Hf, Hf'.
  - intros i Hi. by rewrite Hg, Hg'.
Qed.

Lemma masked_binop_ok op (g : bool -> bool -> bool) dst m1 m2 bits :
  (forall w1 w2, word w1 -> word w2 -> word (op w1 w2)) ->
  (forall w1 w2 j, word w1 -> word w2 -> 0 <= j < 64 ->
     Z.testbit (op w1 w2) j = g (Z.testbit w1 j) (Z.testbit w2 j)) ->
  holds dst bits -> holds m1 bits -> holds m2 bits ->
  exists b dst', bitmap_binop op dst m1 m2 bits = Ok (b, dst') /\
    bits_written dst dst' bits (fun i => g (bit m1 i) (bit m2 i)) (fun _ => false) /\
    (b = true <-> exists i, 0 <= i < bits /\ g (bit m1 i) (bit m2 i) = true).
Proof.
  intros Hop Hg Hd H1 H2. pose proof (proj1 (proj1 (proj2 Hd))) as Hb.
  destruct (bitmap_binop_ok op dst m1 m2 bits Hop Hd H1 H2) as (b & dst' & -> & Hw & Hz).
  set (W := fun k => op (wordn m1 k) (wordn m2 k)) in *.
  assert (HW : forall i, 0 <= i < 64 * Z.of_nat (BITS_TO_LONGS bits) ->
            Z.testbit (masked_last bits W (BIT_WORD i)) (i mod 64) = g (bit m1 i) (bit m2 i) && (i <? bits)).
  { intros i Hi. rewrite masked_last_bits by done. unfold W. rewrite !bit_wordn.
    assert (Hk : (BIT_WORD i < BITS_TO_LONGS bits)%nat).
    { pose proof (bit_word_nat i ltac:(lia)). pose proof (Z.mod_pos_bound i 64 ltac:(lia)). lia. }
    destruct (holds_aget m1 bits _ H1 Hk), (holds_aget m2 bits _ H2 Hk).
    by rewrite Hg by (done || (apply Z.mod_pos_bound; lia)). }
  eexists _, _. split; [done|]. split.
  - eapply bits_written_ext; [eapply written_bits_written; [done|exact Hw|exact HW]| |]; cbn.
    + intros i Hi. by rewrite (proj2 (Z.ltb_lt _ _)), andb_true_r by lia.
    + intros i Hi. by rewrite (proj2 (Z.ltb_ge _ _)), andb_false_r by lia.
  - pose proof (longs_room bits Hb) as Hroom. destruct b; (split; [intros HH|]); try done.
    + destruct (decide (Exists (fun i => g (bit m1 i) (bit m2 i) = true) (seqZ 0 bits))) as [He|He].
      { apply Exists_exists in He as (i & Hi & Hgi). apply elem_of_seqZ in Hi. exists i. split; [lia|done]. }
      exfalso. enough (true = false) by done. apply Hz. intros k Hk. apply word_zero_bits.
      { unfold masked_last, W. destruct (holds_aget m1 bits _ H1 Hk), (holds_aget m2 bits _ H2 Hk).
        case_decide; [by apply Hop|]. apply word_land; [by apply Hop|apply word_last_mask]. }
      intros j Hj. specialize (HW (64 * Z.of_nat k + j) ltac:(lia)).
      rewrite BIT_WORD_at in HW by done.
      replace ((64 * Z.of_nat k + j) mod 64) with j in HW
        by (rewrite Z.add_comm, Z.mul_comm, Z.mod_add, Z.mod_small; lia).
      rewrite HW. destruct (Z.ltb_spec (64 * Z.of_nat k + j) bits); [|by rewrite andb_false_r].
      rewrite andb_true_r. apply not_true_is_false. intros Hgt. apply He, Exists_exists.
      exists (64 * Z.of_nat k + j). rewrite elem_of_seqZ. split; [lia|done].
    + intros (i & Hi & Hgi). exfalso.
      specialize (HW i ltac:(lia)). rewrite (proj1 Hz eq_refl), Z.bits_0 in HW by (by apply BIT_WORD_longs).
      rewrite Hgi, (proj2 (Z.ltb_lt _ _)) in HW by lia. done.
Qed.

Lemma BIT_WORD_below n i : 0 <= i < 64 * Z.of_nat n -> (BIT_WORD i < n)%nat.
Proof. intros Hi. pose proof (bit_word_nat i ltac:(lia)). pose proof (Z.mod_pos_bound i 64 ltac:(lia)). lia. Qed.

(** ** Shifts *)

(** The bits of a map of [bits] bits, zero outside it. *)
Definition inbit (m : list Z) (bits i : Z) : bool := (0 <=? i) && (i <? bits) && bit m i.

Lemma inbit_masked m bits k j :
  0 <= bits -> (k < BITS_TO_LONGS bits)%nat -> 0 <= j < 64 ->
  Z.testbit (masked_last bits (wordn m) k) j = inbit m bits (64 * Z.of_nat k + j).
Proof.
  intros Hb Hk Hj. pose proof (masked_last_bits bits (wordn m) (64 * Z.of_nat k + j) Hb ltac:(lia)) as H.
  rewrite BIT_WORD_at in H by done.
  replace ((64 * Z.of_nat k + j) mod 64) with j in H
    by (rewrite Z.add_comm, Z.mul_comm, Z.mod_add, Z.mod_small; lia).
  rewrite H. unfold inbit. rewrite (proj2 (Z.leb_le _ _)) by lia. rewrite bit_at by done.
  by rewrite andb_comm.
Qed.

Lemma inbit_outside m bits i : i < 0 \/ bits <= i -> inbit m bits i = false.
Proof.
  unfold inbit. intros [H|H].
  - by rewrite (proj2 (Z.leb_gt _ _)).
  - by rewrite (proj2 (Z.ltb_ge _ _)), andb_false_r.
Qed.

Lemma word_masked m bits k :
  holds m bits -> (k < BITS_TO_LONGS bits)%nat -> word (masked_last bits (wordn m) k).
Proof.
  intros H Hk. destruct (holds_aget m bits k H Hk). unfold masked_last.
  case_decide; [done|]. apply word_land; [done|apply word_last_mask].
Qed.

(** The conditional masking of a word in the shift loops. *)
Lemma mask_if_last bits W k :
  0 <= bits -> (k < BITS_TO_LONGS bits)%nat ->
  (if negb (bits mod 64 =? 0) && (k =? BITS_TO_LONGS bits - 1)%nat
   then Z.land (W k) (shl64 1 (bits mod 64) ⊖ 1) else W k) = masked_last bits W k.
Proof.
  intros Hb Hk. unfold masked_last, BITMAP_LAST_WORD_MASK, BITS_PER_LONG.
  destruct (longs_cases bits Hb) as [[E0 EL]|[E0 EL]].
  - rewrite E0. cbn [negb andb Z.eqb]. by rewrite decide_True by lia.
  - rewrite (proj2 (Z.eqb_neq _ _) E0). cbn [negb andb].
    destruct (Nat.eqb_spec k (BITS_TO_LONGS bits - 1)).
    + by rewrite decide_False by lia.
    + by rewrite decide_True by lia.
Qed.

Lemma shift_right_bits B lower upper q rem j :
  word lower -> word upper -> 0 <= rem < 64 -> 0 <= j < 64 ->
  (forall j, 0 <= j < 64 -> Z.testbit lower j = B (64 * q + j)) ->
  (rem <> 0 -> forall j, 0 <= j < 64 -> Z.testbit upper j = B (64 * (q + 1) + j)) ->
  Z.testbit (if negb (rem =? 0) then Z.lor (shr64 lower rem) (shl64 upper (64 - rem)) else shr64 lower rem) j
  = B (64 * q + (j + rem)).
Proof.
  intros Hl Hu Hr Hj HL HU. destruct (Z.eqb_spec rem 0) as [->|E]; cbn [negb].
  - rewrite shr64_bits by lia. by rewrite HL by lia.
  - rewrite Z.lor_spec, shr64_bits, shl64_bits by lia.
    destruct (Z.ltb_spec (j + rem) 64).
    + rewrite (Z.testbit_neg_r upper) by lia. rewrite orb_false_r. apply HL. lia.
    + rewrite (word_bits_high lower) by (done || lia). cbn [orb]. rewrite HU by lia. f_equal. lia.
Qed.

Lemma shift_left_bits B lower upper q rem j :
  word lower -> word upper -> 0 <= rem < 64 -> 0 <= j < 64 ->
  (forall j, 0 <= j < 64 -> Z.testbit upper j = B (64 * q + j)) ->
  (rem <> 0 -> forall j, 0 <= j < 64 -> Z.testbit lower j = B (64 * (q - 1) + j)) ->
  Z.testbit (if negb (rem =? 0) then Z.lor (shl64 upper rem) (shr64 lower (64 - rem)) else shl64 upper rem) j
  = B (64 * q + (j - rem)).
Proof.
  intros Hl Hu Hr Hj HU HL. destruct (Z.eqb_spec rem 0) as [->|E]; cbn [negb].
  - rewrite shl64_bits by lia. by rewrite HU by lia.
  - rewrite Z.lor_spec, shr64_bits, shl64_bits by lia.
    destruct (Z.ltb_spec j rem).
    + rewrite (Z.testbit_neg_r upper) by lia. cbn [orb]. rewrite HL by lia. f_equal. lia.
    + rewrite (word_bits_high lower) by (done || lia). rewrite orb_false_r. apply HU. lia.
Qed.

Lemma zero_words_ok dst from n :
  Forall word dst -> (from + n <= length dst)%nat ->
  exists dst', zero_words dst from n = Ok dst' /\ length dst' = length dst /\ Forall word dst' /\
    forall k, wordn dst' k = if decide (from <= k < from + n)%nat then 0 else wordn dst k.
Proof.
  intros Hw Hl. unfold zero_words.
  pose (I := fun (i : nat) (d : list Z) => length d = length dst /\ Forall word d /\
    forall k : nat, wordn d k = if decide (from <= k < i)%nat then 0 else wordn dst k).
  apply (for_loop_inv I n from); unfold I.
  - split_and!; [done..|]. intros k. by rewrite decide_False by lia.
  - intros i d Hi (Hld & Hwd & Hd). rewrite aset_ok by lia. eexists. split; [done|]. split_and!.
    + by rewrite length_insert.
    + by apply Forall_insert.
    + intros k. rewrite wordn_insert, Hd by lia. repeat case_decide; done || lia.
Qed.

(** A word of the shifted map: its bits are those of the source, [d] further up. *)
Definition shifted_word (m : list Z) (bits d : Z) (k : nat) (x : Z) : Prop :=
  word x /\ forall j, 0 <= j < 64 -> Z.testbit x j = inbit m bits (64 * Z.of_nat k + j + d) && (64 * Z.of_nat k + j <? bits).

Lemma shift_right_word_ok (alias : bool) (dst src d : list Z) (k : nat) (bits shift : Z) :
  let m := if alias then dst else src in
  let lim := BITS_TO_LONGS bits in
  let off := Z.to_nat (shift / 64) in
  holds m bits -> holds dst bits -> length d = length dst -> 0 <= shift -> (off + k < lim)%nat ->
  (forall i, (k <= i)%nat -> wordn d i = wordn dst i) ->
  exists x, shift_right_word alias src lim off (bits mod 64) (shift mod 64) (shl64 1 (bits mod 64) ⊖ 1) k d
            = Ok (<[k := x]> d) /\ shifted_word m bits shift k x.
Proof.
  intros m lim off Hm Hd Hld Hsh Hk Hsame. pose proof (proj1 (proj1 (proj2 Hd))) as Hb.
  pose proof (bits_split shift Hsh) as [Esh Hrem]. fold off in Esh.
  pose proof (holds_longs dst bits Hd) as Hlong. fold lim in Hlong.
  assert (Hrd : forall q, (k <= q < lim)%nat -> rd alias d src q = Ok (wordn m q)).
  { intros q Hq. unfold rd. destruct alias.
    - destruct (lookup_lt_is_Some_2 d q) as [w Hw]; [lia|]. rewrite (aget_ok _ _ _ Hw). f_equal.
      unfold m. rewrite <- (Hsame q) by lia. unfold wordn. by rewrite Hw.
    - eapply holds_aget; [exact Hm|]. unfold lim in *. lia. }
  set (upper := if (shift mod 64 =? 0) || (lim <=? off + k + 1)%nat then 0
                else masked_last bits (wordn m) (off + k + 1)).
  set (lower := masked_last bits (wordn m) (off + k)).
  set (x0 := if negb (shift mod 64 =? 0) then Z.lor (shr64 lower (shift mod 64)) (shl64 upper (64 - shift mod 64))
             else shr64 lower (shift mod 64)).
  exists (if negb (bits mod 64 =? 0) && (k =? lim - 1)%nat then Z.land x0 (shl64 1 (bits mod 64) ⊖ 1) else x0).
  assert (Hlw : word lower) by (apply word_masked; [done|unfold lim in *; lia]).
  assert (Huw : word upper).
  { unfold upper. case_match; [done|]. apply word_masked; [done|]. apply orb_false_elim in H as [_ H].
    apply Nat.leb_gt in H. unfold lim in *. lia. }
  assert (Hxw : word x0).
  { unfold x0. case_match; [|by apply word_shr; [done|lia]].
    apply word_lor; [by apply word_shr; [done|lia]|apply word_shl]. }
  assert (Hx0 : forall j, 0 <= j < 64 -> Z.testbit x0 j = inbit m bits (64 * Z.of_nat k + j + shift)).
  { intros j Hj. unfold x0.
    rewrite (shift_right_bits (inbit m bits) lower upper (Z.of_nat (off + k))) by
      (done || (intros; unfold lower; apply inbit_masked; done || (unfold lim in *; lia)) ||
       (intros Hr i Hi; unfold upper; rewrite (proj2 (Z.eqb_neq _ _) Hr); cbn [orb];
        destruct (Nat.leb_spec lim (off + k + 1));
        [rewrite Z.bits_0, inbit_outside; [done|]; right; pose proof (longs_room bits Hb); unfold lim in *; lia
        |rewrite inbit_masked by (done || (unfold lim in *; lia)); f_equal; lia])).
    f_equal. lia. }
  split.
  - unfold shift_right_word, BITS_PER_LONG.
    assert (Hupper : (if (shift mod 64 =? 0) || (lim <=? off + k + 1)%nat then Ok 0
       else upper ← rd alias d src (off + k + 1);
         Ok (if (off + k + 1 =? lim - 1)%nat && negb (bits mod 64 =? 0)
             then Z.land upper (shl64 1 (bits mod 64) ⊖ 1) else upper)) = Ok upper).
    { unfold upper. destruct (Z.eqb_spec (shift mod 64) 0); [done|]. cbn [orb].
      destruct (Nat.leb_spec lim (off + k + 1)); [done|].
      rewrite Hrd, res_bind_ok, andb_comm by lia. unfold lim in *. by rewrite mask_if_last by lia. }
    rewrite Hupper, res_bind_ok, Hrd, res_bind_ok by lia. cbv zeta.
    unfold lim. rewrite mask_if_last by (unfold lim in *; lia). fold lower x0.
    rewrite aset_ok by lia. done.
  - split.
    + case_match; [|done]. apply word_land; [done|]. apply u64_range.
    + intros j Hj. pose proof (mask_if_last bits (fun _ => x0) k Hb ltac:(unfold lim in *; lia)) as Hmask.
      fold lim in Hmask. rewrite Hmask. clear Hmask.
      pose proof (masked_last_bits bits (fun _ => x0) (64 * Z.of_nat k + j) Hb ltac:(unfold lim in *; lia)) as Hmb.
      rewrite BIT_WORD_at in Hmb by done.
      replace ((64 * Z.of_nat k + j) mod 64) with j in Hmb
        by (rewrite Z.add_comm, Z.mul_comm, Z.mod_add, Z.mod_small; lia).
      by rewrite Hmb, Hx0.
Qed.

(** Words made by a shift are the bits of the shifted map. *)
Lemma shifted_bits_written dst dst' m bits d :
  0 <= bits -> length dst' = length dst -> Forall word dst' ->
  (forall k, (k < BITS_TO_LONGS bits)%nat -> shifted_word m bits d k (wordn dst' k)) ->
  (forall k, (BITS_TO_LONGS bits <= k)%nat -> wordn dst' k = wordn dst k) ->
  bits_written dst dst' bits (fun i => inbit m bits (i + d)) (fun _ => false).
Proof.
  intros Hb Hl Hw Hin Hout. pose proof (longs_room bits Hb).
  assert (Hbits : forall i, 0 <= i < 64 * Z.of_nat (BITS_TO_LONGS bits) ->
            bit dst' i = inbit m bits (i + d) && (i <? bits)).
  { intros i Hi. pose proof (bit_word_nat i ltac:(lia)) as Ei.
    destruct (Hin (BIT_WORD i)) as [_ Hj]; [by apply BIT_WORD_below|].
    rewrite bit_wordn, Hj by (apply Z.mod_pos_bound; lia). by rewrite <- Ei. }
  split_and!; [done..| | |].
  - intros i Hi. rewrite Hbits by lia. by rewrite (proj2 (Z.ltb_lt _ _)), andb_true_r by lia.
  - intros i Hi. rewrite Hbits by lia. by rewrite (proj2 (Z.ltb_ge _ _)), andb_false_r by lia.
  - intros i Hi. rewrite !bit_wordn, Hout; [done|]. pose proof (bit_word_nat i ltac:(lia)).
    pose proof (Z.mod_pos_bound i 64 ltac:(lia)). lia.
Qed.

Lemma shifted_word_zero m bits d k :
  (forall j, 0 <= j < 64 -> 64 * Z.of_nat k + j + d < 0 \/ bits <= 64 * Z.of_nat k + j + d) ->
  shifted_word m bits d k 0.
Proof. intros H. split; [done|]. intros j Hj. by rewrite Z.bits_0, inbit_outside by auto. Qed.

Lemma __bitmap_shift_right_ok (alias : bool) dst src shift bits :
  let m := if alias then dst else src in
  holds dst bits -> holds m bits -> 0 <= shift <= bits ->
  exists dst', __bitmap_shift_right alias dst src shift bits = Ok dst' /\
    bits_written dst dst' bits (fun i => inbit m bits (i + shift)) (fun _ => false).
Proof.
  intros m Hd Hm Hs. pose proof (proj1 (proj1 (proj2 Hd))) as Hb.
  pose proof (holds_longs dst bits Hd) as Hlong. unfold __bitmap_shift_right, BITS_PER_LONG.
  set (lim := BITS_TO_LONGS bits) in *. set (off := Z.to_nat (shift / 64)).
  pose proof (bits_split shift ltac:(lia)) as [Esh Hrem]. fold off in Esh.
  pose proof (longs_room bits Hb) as Hroom. fold lim in Hroom.
  assert (Hoff : (off <= lim)%nat) by lia.
  pose (I := fun (k : nat) (d : list Z) => length d = length dst /\ Forall word d /\
    (forall i, (i < k)%nat -> shifted_word m bits shift i (wordn d i)) /\
    (forall i, (k <= i)%nat -> wordn d i = wordn dst i)).
  destruct (for_loop_inv I (lim - off) 0
    (shift_right_word alias src lim off (bits mod 64) (shift mod 64) (shl64 1 (bits mod 64) ⊖ 1)) dst)
    as (d & -> & Hld & Hwd & Hin & Hout).
  - split_and!; [done|apply Hd|lia|done].
  - intros k d Hk (Hld & Hwd & Hin & Hout).
    destruct (shift_right_word_ok alias dst src d k bits shift Hm Hd Hld) as (x & Hx & Hsx);
      [lia|fold off lim; lia|done|]. fold off lim in Hx. rewrite Hx. eexists. split; [done|].
    split_and!; [by rewrite length_insert|by apply Forall_insert; [|apply Hsx]|..];
      intros i Hi; rewrite wordn_insert by lia; case_decide; subst; try done; auto with lia.
  - rewrite Nat.add_0_l in *. rewrite res_bind_ok. destruct (Nat.eqb_spec off 0) as [E|E].
    + exists d. split; [done|]. apply shifted_bits_written; [done..| |].
      * intros k Hk. apply Hin. fold lim in Hk. lia.
      * intros k Hk. apply Hout. fold lim in Hk. lia.
    + rewrite (proj2 (Nat.ltb_ge _ _)) by lia.
      destruct (zero_words_ok d (lim - off) off Hwd) as (d' & -> & Hl' & Hw' & Hz); [lia|].
      exists d'. split; [done|]. apply shifted_bits_written; [done|lia|done|..]; fold lim.
      * intros k Hk. rewrite Hz. case_decide; [|apply Hin; lia]. apply shifted_word_zero. lia.
      * intros k Hk. rewrite Hz, decide_False by lia. apply Hout. lia.
Qed.

Lemma shift_left_word_ok (alias : bool) (dst src d : list Z) (k : nat) (bits shift : Z) :
  let m := if alias then dst else src in
  let lim := BITS_TO_LONGS bits in
  let off := Z.to_nat (shift / 64) in
  holds m bits -> holds dst bits -> length d = length dst -> 0 <= shift -> (k + off < lim)%nat ->
  (forall i, (i <= k)%nat -> wordn d i = wordn dst i) ->
  exists x, shift_left_word alias src lim off (bits mod 64) (shift mod 64) k d
            = Ok (<[(k + off)%nat := x]> d) /\ shifted_word m bits (- shift) (k + off) x.
Proof.
  intros m lim off Hm Hd Hld Hsh Hk Hsame. pose proof (proj1 (proj1 (proj2 Hd))) as Hb.
  pose proof (bits_split shift Hsh) as [Esh Hrem]. fold off in Esh.
  pose proof (holds_longs dst bits Hd) as Hlong. fold lim in Hlong.
  assert (Hrd : forall q, (q <= k)%nat -> rd alias d src q = Ok (wordn m q)).
  { intros q Hq. unfold rd. destruct alias.
    - destruct (lookup_lt_is_Some_2 d q) as [w Hw]; [lia|]. rewrite (aget_ok _ _ _ Hw). f_equal.
      unfold m. rewrite <- (Hsame q) by lia. unfold wordn. by rewrite Hw.
    - eapply holds_aget; [exact Hm|]. unfold lim in *. lia. }
  set (lower := if negb (shift mod 64 =? 0) && (0 <? k)%nat then wordn m (k - 1) else 0).
  set (upper := masked_last bits (wordn m) k).
  set (x0 := if negb (shift mod 64 =? 0) then Z.lor (shl64 upper (shift mod 64)) (shr64 lower (64 - shift mod 64))
             else shl64 upper (shift mod 64)).
  exists (if negb (bits mod 64 =? 0) && (k + off =? lim - 1)%nat then Z.land x0 (shl64 1 (bits mod 64) ⊖ 1) else x0).
  assert (Huw : word upper) by (apply word_masked; [done|unfold lim in *; lia]).
  assert (Hlw : word lower).
  { unfold lower. case_match; [|done]. eapply holds_aget; [exact Hm|]. unfold lim in *. lia. }
  assert (Hxw : word x0).
  { unfold x0. case_match; [|apply word_shl]. apply word_lor; [apply word_shl|]. apply word_shr; [done|lia]. }
  assert (Hx0 : forall j, 0 <= j < 64 -> Z.testbit x0 j = inbit m bits (64 * Z.of_nat (k + off) + j + - shift)).
  { intros j Hj. unfold x0.
    rewrite (shift_left_bits (inbit m bits) lower upper (Z.of_nat k)) by
      (done || (intros; unfold upper; apply inbit_masked; done || (unfold lim in *; lia)) ||
       (intros Hr i Hi; unfold lower; rewrite (proj2 (Z.eqb_neq _ _) Hr); cbn [negb andb];
        destruct (Nat.ltb_spec 0 k);
        [replace (wordn m (k - 1)) with (masked_last bits (wordn m) (k - 1));
         [rewrite inbit_masked by (done || (unfold lim in *; lia)); f_equal; lia
         |unfold masked_last; rewrite decide_True;
            [done|destruct (longs_cases bits Hb) as [[_ EL]|[_ EL]]; unfold lim in *; lia]]
        |rewrite Z.bits_0, inbit_outside; [done|]; left; lia])).
    f_equal. lia. }
  split.
  - unfold shift_left_word, BITS_PER_LONG.
    assert (Hlower : (if negb (shift mod 64 =? 0) && (0 <? k)%nat then rd alias d src (k - 1) else Ok 0) = Ok lower).
    { unfold lower. case_match; [|done]. apply Hrd. lia. }
    rewrite Hlower, res_bind_ok, Hrd, res_bind_ok by lia. cbv zeta.
    unfold lim. rewrite mask_if_last by (unfold lim in *; lia). fold upper x0.
    rewrite aset_ok by lia. done.
  - split.
    + case_match; [|done]. apply word_land; [done|]. apply u64_range.
    + intros j Hj.
      pose proof (mask_if_last bits (fun _ => x0) (k + off) Hb ltac:(unfold lim in *; lia)) as Hmask.
      fold lim in Hmask. rewrite Hmask. clear Hmask.
      pose proof (masked_last_bits bits (fun _ => x0) (64 * Z.of_nat (k + off) + j) Hb ltac:(unfold lim in *; lia)) as Hmb.
      rewrite BIT_WORD_at in Hmb by done.
      replace ((64 * Z.of_nat (k + off) + j) mod 64) with j in Hmb
        by (rewrite Z.add_comm, Z.mul_comm, Z.mod_add, Z.mod_small; lia).
      by rewrite Hmb, Hx0.
Qed.

Lemma __bitmap_shift_left_ok (alias : bool) dst src shift bits :
  let m := if alias then dst else src in
  holds dst bits -> holds m bits -> 0 <= shift <= bits ->
  exists dst', __bitmap_shift_left alias dst src shift bits = Ok dst' /\
    bits_written dst dst' bits (fun i => inbit m bits (i - shift)) (fun _ => false).
Proof.
  intros m Hd Hm Hs. pose proof (proj1 (proj1 (proj2 Hd))) as Hb.
  pose proof (holds_longs dst bits Hd) as Hlong. unfold __bitmap_shift_left, BITS_PER_LONG.
  set (lim := BITS_TO_LONGS bits) in *. set (off := Z.to_nat (shift / 64)).
  pose proof (bits_split shift ltac:(lia)) as [Esh Hrem]. fold off in Esh.
  pose proof (longs_room bits Hb) as Hroom. fold lim in Hroom.
  assert (Hoff : (off <= lim)%nat) by lia.
  pose (I := fun (k : nat) (d : list Z) => length d = length dst /\ Forall word d /\
    (forall i, (k + off <= i < lim)%nat -> shifted_word m bits (- shift) i (wordn d i)) /\
    (forall i, (i < k + off \/ lim <= i)%nat -> wordn d i = wordn dst i)).
  destruct (for_down_inv I (lim - off) (shift_left_word alias src lim off (bits mod 64) (shift mod 64)) dst)
    as (d & -> & Hld & Hwd & Hin & Hout).
  - split_and!; [done|apply Hd|lia|done].
  - intros k d Hk (Hld & Hwd & Hin & Hout).
    destruct (shift_left_word_ok alias dst src d k bits shift Hm Hd Hld) as (x & Hx & Hsx);
      [lia|fold off lim; lia|intros i Hi; apply Hout; lia|]. fold off lim in Hx. rewrite Hx. eexists. split; [done|].
    split_and!; [by rewrite length_insert|by apply Forall_insert; [|apply Hsx]|..];
      intros i Hi; rewrite wordn_insert by lia; case_decide; subst; try done; try lia; auto with lia.
  - rewrite res_bind_ok. destruct (Nat.eqb_spec off 0) as [E|E].
    + exists d. split; [done|]. apply (shifted_bits_written dst d m bits (- shift)); [done..| |]; fold lim.
      * intros k Hk. apply Hin. lia.
      * intros k Hk. apply Hout. lia.
    + destruct (zero_words_ok d 0 off Hwd) as (d' & -> & Hl' & Hw' & Hz); [lia|].
      exists d'. split; [done|]. apply (shifted_bits_written dst d' m bits (- shift)); [done|lia|done|..]; fold lim.
      * intros k Hk. rewrite Hz. case_decide; [|apply Hin; lia]. apply shifted_word_zero. lia.
      * intros k Hk. rewrite Hz, decide_False by lia. apply Hout. lia.
Qed.
