(* ===== verification/BitmapWeight.v ===== *)
(** The Hamming weight: [__sw_hweight64] adds up the bits of a word pairwise,
    in ever wider fields of the same word; [__bitmap_weight] adds up words. *)
From S2P Require Import Prelude FindBitDefs FindBit BitmapDefs Bitmap.

(** How many of [0 .. n) satisfy [P]. *)
Fixpoint count (P : Z -> bool) (n : nat) : Z :=
  match n with O => 0 | S n' => Z.b2z (P (Z.of_nat n')) + count P n' end.

Lemma count_add P a b : count P (a + b) = count P a + count (fun i => P (Z.of_nat a + i)) b.
Proof.
  induction b as [|b IH]; [rewrite Nat.add_0_r; cbn; lia|].
  rewrite Nat.add_succ_r. cbn [count]. rewrite IH, Nat2Z.inj_add. lia.
Qed.

Lemma count_ext P Q n : (forall i, 0 <= i < Z.of_nat n -> P i = Q i) -> count P n = count Q n.
Proof.
  induction n as [|n IH]; intros H; [done|]. cbn [count]. rewrite H, IH; [done| |lia].
  intros i Hi. apply H. lia.
Qed.

(** The sum of [n] fields of [k] bits. *)
Fixpoint dsum (k : Z) (n : nat) (w : Z) : Z :=
  match n with O => 0 | S n' => w mod 2 ^ k + dsum k n' (w / 2 ^ k) end.

(** All of the [n] fields of [k] bits are at most [d], and there is no more. *)
Fixpoint fields (d k : Z) (n : nat) (w : Z) : Prop :=
  match n with O => w = 0 | S n' => 0 <= w /\ w mod 2 ^ k <= d /\ fields d k n' (w / 2 ^ k) end.

(** The mask that selects every other field of [k] bits. *)
Fixpoint field_mask (k : Z) (n : nat) : Z :=
  match n with O => 0 | S n' => 2 ^ k - 1 + 2 ^ (2 * k) * field_mask k n' end.

(** Adding neighbouring fields. *)
Definition field_step (k : Z) (n : nat) (w : Z) : Z :=
  Z.land w (field_mask k n) + Z.land (w / 2 ^ k) (field_mask k n).

Lemma field_mask_nonneg k n : 0 < k -> 0 <= field_mask k n.
Proof. intros Hk. induction n as [|n IH]; cbn [field_mask]; [lia|]. assert (0 < 2 ^ k) by lia. nia. Qed.

Lemma land_field_mask k n w : 0 < k -> 0 <= w ->
  Z.land w (field_mask k (S n)) = w mod 2 ^ k + 2 ^ (2 * k) * Z.land (w / 2 ^ (2 * k)) (field_mask k n).
Proof.
  intros Hk Hw. pose proof (field_mask_nonneg k n Hk) as HM. cbn [field_mask].
  replace (2 ^ k - 1) with (Z.ones k) by (rewrite Z.ones_equiv; lia).
  assert (Hsplit : forall a b, 0 <= a < 2 ^ (2 * k) -> a + 2 ^ (2 * k) * b = Z.lor a (Z.shiftl b (2 * k))).
  { intros a b Ha. rewrite Z.mul_comm, <- Z.shiftl_mul_pow2 by lia. apply Z.add_nocarry_lor.
    apply Z.bits_inj'. intros i Hi. rewrite Z.land_spec, Z.bits_0, Z.shiftl_spec by lia.
    destruct (Z.ltb_spec i (2 * k)); [rewrite (Z.testbit_neg_r b) by lia; apply andb_false_r|].
    rewrite <- (Z.mod_small a (2 ^ (2 * k))) by done. by rewrite Z.mod_pow2_bits_high by lia. }
  assert (2 ^ k < 2 ^ (2 * k)) by (apply Z.pow_lt_mono_r; lia).
  rewrite !Hsplit by (rewrite ?Z.ones_equiv; try pose proof (Z.mod_pos_bound w (2 ^ k)); lia).
  apply Z.bits_inj'. intros i Hi.
  rewrite Z.land_spec, !Z.lor_spec, Z.testbit_ones_nonneg, !Z.shiftl_spec, Z.land_spec by lia.
  destruct (Z.ltb_spec i (2 * k)).
  - rewrite !(Z.testbit_neg_r _ (i - 2 * k)) by lia. rewrite !orb_false_r.
    destruct (Z.ltb_spec i k); [rewrite Z.mod_pow2_bits_low by lia; apply andb_true_r|].
    rewrite Z.mod_pow2_bits_high by lia. apply andb_false_r.
  - rewrite (proj2 (Z.ltb_ge i k)), Z.mod_pow2_bits_high by lia. cbn [orb].
    rewrite Z.div_pow2_bits by lia. by replace (i - 2 * k + 2 * k) with i by lia.
Qed.

Lemma div_pow_pow w a b : 0 <= a -> 0 <= b -> w / 2 ^ a / 2 ^ b = w / 2 ^ (a + b).
Proof. intros Ha Hb. rewrite Z.div_div, Z.pow_add_r by lia. done. Qed.

Lemma field_step_S k n w : 0 < k -> 0 <= w ->
  field_step k (S n) w =
  w mod 2 ^ k + (w / 2 ^ k) mod 2 ^ k + 2 ^ (2 * k) * field_step k n (w / 2 ^ (2 * k)).
Proof.
  intros Hk Hw. unfold field_step. rewrite !land_field_mask by (done || (apply Z.div_pos; lia)).
  rewrite !div_pow_pow by lia. replace (k + 2 * k) with (2 * k + k) by lia. ring.
Qed.

Lemma div_add_field B x y : 0 <= x < B -> (x + B * y) / B = y /\ (x + B * y) mod B = x.
Proof.
  intros Hx. rewrite (Z.mul_comm B), Z.div_add, Z.mod_add, Z.div_small, Z.mod_small by lia. lia.
Qed.

(** One step halves the number of fields and keeps their sum. *)
Lemma field_step_ok d k n w : 0 < k -> 0 <= d -> 2 * d < 2 ^ (2 * k) -> fields d k (2 * n) w ->
  dsum (2 * k) n (field_step k n w) = dsum k (2 * n) w /\ fields (2 * d) (2 * k) n (field_step k n w).
Proof.
  intros Hk Hd Hov. revert w. induction n as [|n IH]; intros w Hf.
  - split; [done|]. cbn. unfold field_step. by rewrite !Z.land_0_r.
  - replace (2 * S n)%nat with (S (S (2 * n))) in * by lia. destruct Hf as (Hw & H1 & _ & H2 & Hf).
    rewrite div_pow_pow in Hf by lia. replace (k + k) with (2 * k) in Hf by lia.
    specialize (IH _ Hf) as [IHs IHf].
    pose proof (Z.mod_pos_bound w (2 ^ k) ltac:(lia)). pose proof (Z.mod_pos_bound (w / 2 ^ k) (2 ^ k) ltac:(lia)).
    rewrite field_step_S by done. cbn [dsum fields].
    set (r := field_step k n (w / 2 ^ (2 * k))) in *.
    assert (Hr : 0 <= r).
    { unfold r, field_step. pose proof (field_mask_nonneg k n Hk).
      apply Z.add_nonneg_nonneg; apply Z.land_nonneg; by right. }
    destruct (div_add_field (2 ^ (2 * k)) (w mod 2 ^ k + (w / 2 ^ k) mod 2 ^ k) r) as [-> ->]; [lia|].
    rewrite IHs, div_pow_pow by lia. replace (k + k) with (2 * k) by lia.
    split; [lia|]. split_and!; [nia|lia|done].
Qed.

(** A word is its even fields plus its odd fields, shifted. *)
Lemma field_split d k n w : 0 < k -> fields d k (2 * n) w ->
  w = Z.land w (field_mask k n) + 2 ^ k * Z.land (w / 2 ^ k) (field_mask k n).
Proof.
  intros Hk. revert w. induction n as [|n IH]; intros w Hf.
  - cbn in Hf. subst w. cbn [field_mask]. rewrite !Z.land_0_r. lia.
  - replace (2 * S n)%nat with (S (S (2 * n))) in * by lia. destruct Hf as (Hw & _ & _ & _ & Hf).
    rewrite div_pow_pow in Hf by lia. replace (k + k) with (2 * k) in Hf by lia.
    specialize (IH _ Hf). rewrite !land_field_mask by (done || (apply Z.div_pos; lia)).
    rewrite !div_pow_pow in * by lia. replace (k + 2 * k) with (2 * k + k) by lia.
    pose proof (Z.div_mod w (2 ^ k)). pose proof (Z.div_mod (w / 2 ^ k) (2 ^ k)).
    rewrite div_pow_pow in * by lia. replace (k + k) with (2 * k) in * by lia.
    assert (2 ^ (2 * k) = 2 ^ k * 2 ^ k) by (rewrite <- Z.pow_add_r by lia; f_equal; lia). nia.
Qed.

(** With small fields the sum can be masked after the addition. *)
Lemma field_mask_late k n w : 0 < k -> fields (2 ^ (k - 1) - 1) k (2 * n) w ->
  Z.land (w + w / 2 ^ k) (field_mask k n) = field_step k n w.
Proof.
  intros Hk. revert w. induction n as [|n IH]; intros w Hf.
  - cbn. unfold field_step. cbn. by rewrite !Z.land_0_r.
  - replace (2 * S n)%nat with (S (S (2 * n))) in * by lia. destruct Hf as (Hw & H1 & _ & H2 & Hf).
    rewrite div_pow_pow in Hf by lia. replace (k + k) with (2 * k) in Hf by lia.
    assert (H3 : (w / 2 ^ (2 * k)) mod 2 ^ k <= 2 ^ (k - 1) - 1).
    { destruct n; [cbn in Hf; rewrite Hf, Z.mod_0_l; lia|].
      replace (2 * S n)%nat with (S (S (2 * n))) in Hf by lia. by destruct Hf as (_ & ? & _). }
    specialize (IH _ Hf). assert (0 <= w / 2 ^ k) by (apply Z.div_pos; lia).
    rewrite land_field_mask, field_step_S by lia.
    assert (Hp : 2 ^ k = 2 * 2 ^ (k - 1)) by (rewrite <- Z.pow_succ_r by lia; f_equal; lia).
    assert (Hpp : 2 ^ (2 * k) = 2 ^ k * 2 ^ k) by (rewrite <- Z.pow_add_r by lia; f_equal; lia).
    set (B := 2 ^ k) in *. rewrite Hpp in *. rewrite <- !Z.div_div in * by lia.
    set (a := w mod B) in *. set (b := (w / B) mod B) in *. set (w' := w / B / B) in *.
    assert (Ew : w = a + B * (w / B)) by (pose proof (Z.div_mod w B); lia).
    assert (Eb : w / B = b + B * w') by (pose proof (Z.div_mod (w / B) B); lia).
    assert (0 <= a < B) by (apply Z.mod_pos_bound; lia).
    assert (0 <= b < B) by (apply Z.mod_pos_bound; lia).
    assert (Ew' : w' = w' mod B + B * (w' / B)) by (pose proof (Z.div_mod w' B); lia).
    assert (0 <= w' mod B < B) by (apply Z.mod_pos_bound; lia).
    replace (w + w / B) with (a + b + B * (b + w' mod B + B * (w' + w' / B))) by nia.
    destruct (div_add_field B (a + b) (b + w' mod B + B * (w' + w' / B))) as [-> ->]; [lia|].
    destruct (div_add_field B (b + w' mod B) (w' + w' / B)) as [-> _]; [lia|].
    by rewrite IH.
Qed.

(** Eight byte fields of at most 8 each, added by three shifts. *)
Lemma byte_sum r : fields 8 8 8 r ->
  Z.land (r + r / 2 ^ 8 + (r + r / 2 ^ 8) / 2 ^ 16
          + (r + r / 2 ^ 8 + (r + r / 2 ^ 8) / 2 ^ 16) / 2 ^ 32) 255 = dsum 8 8 r /\
  r + r / 2 ^ 8 + (r + r / 2 ^ 8) / 2 ^ 16
    + (r + r / 2 ^ 8 + (r + r / 2 ^ 8) / 2 ^ 16) / 2 ^ 32 < 2 ^ 64 /\ 0 <= r.
Proof.
  cbn [fields dsum]. change 255 with (Z.ones 8). rewrite Z.land_ones by lia.
  change (2 ^ 8) with 256. change (2 ^ 16) with 65536. change (2 ^ 32) with 4294967296.
  intros (H0 & D0 & _ & D1 & _ & D2 & _ & D3 & _ & D4 & _ & D5 & _ & D6 & _ & D7 & Hr8).
  pose proof (div_add_field 256) as Hf.
  set (r1 := r / 256) in *. set (r2 := r1 / 256) in *. set (r3 := r2 / 256) in *.
  set (r4 := r3 / 256) in *. set (r5 := r4 / 256) in *. set (r6 := r5 / 256) in *.
  set (r7 := r6 / 256) in *.
  assert (E0 : r = r mod 256 + 256 * r1) by (pose proof (Z.div_mod r 256); lia).
  assert (E1 : r1 = r1 mod 256 + 256 * r2) by (pose proof (Z.div_mod r1 256); lia).
  assert (E2 : r2 = r2 mod 256 + 256 * r3) by (pose proof (Z.div_mod r2 256); lia).
  assert (E3 : r3 = r3 mod 256 + 256 * r4) by (pose proof (Z.div_mod r3 256); lia).
  assert (E4 : r4 = r4 mod 256 + 256 * r5) by (pose proof (Z.div_mod r4 256); lia).
  assert (E5 : r5 = r5 mod 256 + 256 * r6) by (pose proof (Z.div_mod r5 256); lia).
  assert (E6 : r6 = r6 mod 256 + 256 * r7) by (pose proof (Z.div_mod r6 256); lia).
  assert (E7 : r7 = r7 mod 256 + 0) by (pose proof (Z.div_mod r7 256); lia).
  pose proof (Z.mod_pos_bound r 256 ltac:(lia)). pose proof (Z.mod_pos_bound r1 256 ltac:(lia)).
  pose proof (Z.mod_pos_bound r2 256 ltac:(lia)). pose proof (Z.mod_pos_bound r3 256 ltac:(lia)).
  pose proof (Z.mod_pos_bound r4 256 ltac:(lia)). pose proof (Z.mod_pos_bound r5 256 ltac:(lia)).
  pose proof (Z.mod_pos_bound r6 256 ltac:(lia)). pose proof (Z.mod_pos_bound r7 256 ltac:(lia)).
  assert (F1 : (r + r1) / 65536 = r2 + r3).
  { symmetry. apply Z.div_unique with (r mod 256 + r1 mod 256 + 256 * (r1 mod 256 + r2 mod 256)); lia. }
  rewrite F1.
  assert (F2 : (r + r1 + (r2 + r3)) / 4294967296 = r4 + r5 + r6 + r7).
  { symmetry. apply Z.div_unique with
      (r mod 256 + r1 mod 256 + r2 mod 256 + r3 mod 256
       + 256 * (r1 mod 256 + r2 mod 256 + r3 mod 256 + r4 mod 256)
       + 65536 * (r2 mod 256 + r3 mod 256 + r4 mod 256 + r5 mod 256)
       + 16777216 * (r3 mod 256 + r4 mod 256 + r5 mod 256 + r6 mod 256)); lia. }
  rewrite F2. split_and!; [|lia|lia].
  symmetry. apply Z.mod_unique with (r1 + r2 + r3 + r4 + r5 + r6 + r7); lia.
Qed.

Lemma dsum_count n w : 0 <= w -> dsum 1 n w = count (Z.testbit w) n.
Proof.
  revert w. induction n as [|n IH]; intros w Hw; [done|]. cbn [dsum].
  rewrite IH by (apply Z.div_pos; lia). replace (S n) with (1 + n)%nat by lia. rewrite count_add.
  f_equal.
  - cbn [count]. change (2 ^ 1) with 2. change (Z.of_nat 0) with 0. rewrite Z.add_0_r. symmetry. apply Z.bit0_mod.
  - apply count_ext. intros i Hi. change (Z.of_nat 1) with 1.
    rewrite Z.div_pow2_bits by lia. f_equal. lia.
Qed.

Lemma fields_word n w : 0 <= w < 2 ^ Z.of_nat n -> fields 1 1 n w.
Proof.
  revert w. induction n as [|n IH]; intros w Hw; [cbn in *; lia|]. cbn [fields]. change (2 ^ 1) with 2.
  pose proof (Z.mod_pos_bound w 2 ltac:(lia)). split_and!; [lia|lia|]. apply IH.
  rewrite Nat2Z.inj_succ, Z.pow_succ_r in Hw by lia. split; [apply Z.div_pos; lia|].
  apply Z.div_lt_upper_bound; lia.
Qed.

Lemma fields_bound d k n w : 0 < k -> fields d k n w -> 0 <= w < 2 ^ (k * Z.of_nat n).
Proof.
  intros Hk. revert w. induction n as [|n IH]; intros w Hf; cbn [fields] in Hf.
  - subst. rewrite Z.mul_0_r. lia.
  - destruct Hf as (Hw & _ & Hf). apply IH in Hf. split; [done|].
    replace (k * Z.of_nat (S n)) with (k + k * Z.of_nat n) by lia. rewrite Z.pow_add_r by lia.
    pose proof (Z.div_mod w (2 ^ k)). pose proof (Z.mod_pos_bound w (2 ^ k)). nia.
Qed.

Lemma fields_mono d d' k n w : d <= d' -> fields d k n w -> fields d' k n w.
Proof.
  intros Hd. revert w. induction n as [|n IH]; intros w; cbn [fields]; [done|].
  intros (H1 & H2 & H3). split_and!; [done|lia|auto].
Qed.

(** Fields whose top bit is clear leave the top bit of the word clear. *)
Lemma fields_top k n w : 0 < k -> fields (2 ^ (k - 1) - 1) k (S n) w -> 2 * w < 2 ^ (k * Z.of_nat (S n)).
Proof.
  intros Hk. revert w. induction n as [|n IH]; intros w (Hw & H1 & Hf);
    pose proof (Z.div_mod w (2 ^ k) ltac:(lia)); pose proof (Z.mod_pos_bound w (2 ^ k) ltac:(lia)).
  - cbn in Hf. change (k * Z.of_nat 1) with (k * 1). rewrite Z.mul_1_r.
    replace (2 ^ k) with (2 * 2 ^ (k - 1)) in * by (rewrite <- Z.pow_succ_r by lia; f_equal; lia). lia.
  - apply IH in Hf. replace (k * Z.of_nat (S (S n))) with (k + k * Z.of_nat (S n)) by lia.
    rewrite Z.pow_add_r by lia.
    replace (2 ^ (k * Z.of_nat (S n))) with (2 * 2 ^ (k * Z.of_nat (S n) - 1)) in *
      by (rewrite <- Z.pow_succ_r by lia; f_equal; lia). nia.
Qed.

(** The population count of a word. *)
Lemma __sw_hweight64_ok w : word w -> __sw_hweight64 w = count (Z.testbit w) 64.
Proof.
  intros Hw. rewrite <- dsum_count by apply Hw.
  assert (F0 : fields 1 1 (2 * 32) w) by (apply fields_word, Hw).
  destruct (field_step_ok 1 1 32 w ltac:(lia) ltac:(lia) ltac:(done) F0) as [S1 F1].
  destruct (field_step_ok 2 2 16 _ ltac:(lia) ltac:(lia) ltac:(done) F1) as [S2 F2].
  destruct (field_step_ok 4 4 8 _ ltac:(lia) ltac:(lia) ltac:(done) F2) as [S3 F3].
  change (2 * 1) with 2 in *. change (2 * 2) with 4 in *. change (2 * 4) with 8 in *.
  change (2 * 32)%nat with 64%nat in *. change (2 * 16)%nat with 32%nat in *.
  change (2 * 8)%nat with 16%nat in *. rewrite <- S1, <- S2, <- S3.
  pose proof (fields_bound 4 4 16 _ ltac:(lia) F2) as B2.
  change (2 ^ (4 * Z.of_nat 16)) with (2 ^ 64) in B2.
  set (r1 := field_step 1 32 w) in *. set (r2 := field_step 2 16 r1) in *.
  set (r3 := field_step 4 8 r2) in *.
  unfold __sw_hweight64, shr64. rewrite !Z.shiftr_div_pow2 by lia.
  assert (E1 : w ⊖ Z.land (w / 2 ^ 1) 0x5555555555555555 = r1).
  { pose proof (field_split 1 1 32 w ltac:(lia) F0) as Hs.
    unfold r1, field_step in *. change (field_mask 1 32) with 0x5555555555555555 in *.
    change (2 ^ 1) with 2 in *. assert (0 <= Z.land (w / 2) 0x5555555555555555) by (apply Z.land_nonneg; by right).
    assert (0 <= Z.land w 0x5555555555555555) by (apply Z.land_nonneg; by right).
    unfold word in Hw. rewrite sub64_small; lia. }
  rewrite E1. clearbody r1.
  assert (E2 : Z.land r1 0x3333333333333333 ⊕ Z.land (r1 / 2 ^ 2) 0x3333333333333333 = r2)
    by (apply add64_small, B2).
  rewrite E2. clearbody r2.
  assert (F2' : fields (2 ^ (4 - 1) - 1) 4 (2 * 8) r2) by (eapply fields_mono; [|exact F2]; done).
  pose proof (fields_top 4 15 r2 ltac:(lia) F2') as T2. change (2 ^ (4 * Z.of_nat 16)) with (2 ^ 64) in T2.
  assert (E3 : Z.land (r2 ⊕ r2 / 2 ^ 4) 0x0F0F0F0F0F0F0F0F = r3).
  { rewrite add64_small by (change (2 ^ 4) with 16; Z.div_mod_to_equations; lia).
    by apply (field_mask_late 4 8 r2). }
  rewrite E3. clearbody r3. destruct (byte_sum r3 F3) as (<- & Hlt & H0).
  change 0x00000000000000FF with 255.
  assert (0 <= r3 / 2 ^ 8) by (apply Z.div_pos; lia).
  assert (0 <= (r3 + r3 / 2 ^ 8) / 2 ^ 16) by (apply Z.div_pos; lia).
  assert (0 <= (r3 + r3 / 2 ^ 8 + (r3 + r3 / 2 ^ 8) / 2 ^ 16) / 2 ^ 32) by (apply Z.div_pos; lia).
  rewrite (add64_small r3), (add64_small (r3 + _)), add64_small by lia. done.
Qed.

Lemma __bitmap_weight_ok m bits :
  holds m bits -> __bitmap_weight m bits = Ok (count (bit m) (Z.to_nat bits)).
Proof.
  intros H. pose proof (proj1 (proj1 (proj2 H))) as Hb. unfold __bitmap_weight, BITS_PER_LONG.
  pose proof (bits_split bits Hb) as [Eb Hm]. set (lim := Z.to_nat (bits / 64)) in *.
  assert (Hlim : (lim <= BITS_TO_LONGS bits)%nat).
  { destruct (longs_cases bits Hb) as [[_ ->]|[_ ->]]; unfold lim; lia. }
  destruct (for_loop_inv (fun k w => w = count (bit m) (64 * k)) lim 0
    (fun k w => x ← aget m k; Ok (w + __sw_hweight64 x)) 0) as (w & -> & ->).
  - done.
  - intros k w Hk ->. destruct (holds_aget m bits k H ltac:(lia)) as [-> Hw]. rewrite res_bind_ok.
    eexists. split; [done|]. rewrite __sw_hweight64_ok by done.
    replace (64 * S k)%nat with (64 * k + 64)%nat by lia. rewrite count_add. f_equal. apply count_ext.
    intros i Hi. rewrite Nat2Z.inj_mul, bit_at by lia. done.
  - rewrite res_bind_ok, Nat.add_0_l. destruct (Z.eqb_spec (bits mod 64) 0) as [E|E]; cbn [negb].
    + do 2 f_equal. lia.
    + destruct (longs_cases bits Hb) as [[? ?]|[_ EL]]; [lia|].
      destruct (holds_aget m bits lim H ltac:(unfold lim; lia)) as [-> Hw]. rewrite res_bind_ok. f_equal.
      rewrite __sw_hweight64_ok by (apply word_land; [done|apply word_last_mask]).
      replace (Z.to_nat bits) with (64 * lim + Z.to_nat (bits mod 64))%nat by lia.
      rewrite count_add. f_equal.
      replace 64%nat with (Z.to_nat (bits mod 64) + (64 - Z.to_nat (bits mod 64)))%nat at 1 by lia.
      rewrite count_add. rewrite (count_ext _ (fun _ => false) (64 - _)).
      2:{ intros i Hi. rewrite Z.land_spec, last_mask_bits by lia.
          rewrite (proj2 (Z.ltb_ge _ _)), andb_false_r by lia. done. }
      assert (Hz : forall n, count (fun _ => false) n = 0) by (induction n; done).
      rewrite Hz, Z.add_0_r. apply count_ext. intros i Hi.
      rewrite Z.land_spec, last_mask_bits, (proj2 (Z.ltb_lt _ _)), andb_true_r by lia.
      rewrite Nat2Z.inj_mul, bit_at by lia. done.
Qed.
