(* ===== verification/BitmapProps.v ===== *)
(** What the word-parallel operations of [lib/bitmap.c] do to the bits. *)
From S2P Require Import Prelude FindBitDefs FindBit BitmapDefs Bitmap BitmapWeight.

Lemma BITS_in_words m bits i :
  holds m bits -> 0 <= i < 64 * Z.of_nat (BITS_TO_LONGS bits) -> word (wordn m (BIT_WORD i)).
Proof. intros H Hi. eapply holds_aget; [done|]. by apply BIT_WORD_below. Qed.

Lemma bitmap_words_bits op (g : bool -> bool -> bool) dst m1 m2 bits :
  (forall w1 w2, word w1 -> word w2 -> word (op w1 w2)) ->
  (forall w1 w2 j, Z.testbit (op w1 w2) j = g (Z.testbit w1 j) (Z.testbit w2 j)) ->
  holds dst bits -> holds m1 bits -> holds m2 bits ->
  exists dst', bitmap_words op dst m1 m2 bits = Ok dst' /\
    bits_written dst dst' bits (fun i => g (bit m1 i) (bit m2 i)) (fun i => g (bit m1 i) (bit m2 i)).
Proof.
  intros Hop Hg Hd H1 H2. destruct (bitmap_words_ok op dst m1 m2 bits Hop Hd H1 H2) as (d & -> & Hw).
  exists d. split; [done|]. eapply written_bits_written; [apply Hd|done|].
  intros i Hi. cbv beta. by rewrite Hg, !bit_wordn.
Qed.

(** Boolean algebra on bitmaps.  [__bitmap_and], [__bitmap_andnot],
    [__bitmap_or], [__bitmap_xor] and [__bitmap_complement] compute their
    operation on every bit below [bits] and leave the words above untouched;
    [and] and [andnot] clear the unused bits of the last word and return whether
    the result has a bit set; [or] and [xor] combine the unused bits too, and
    [complement] inverts them. *)
Theorem bitmap_algebra dst m1 m2 bits :
  holds dst bits -> holds m1 bits -> holds m2 bits ->
  (exists b d, __bitmap_and dst m1 m2 bits = Ok (b, d) /\
     bits_written dst d bits (fun i => bit m1 i && bit m2 i) (fun _ => false) /\
     (b = true <-> exists i, 0 <= i < bits /\ bit m1 i && bit m2 i = true)) /\
  (exists b d, __bitmap_andnot dst m1 m2 bits = Ok (b, d) /\
     bits_written dst d bits (fun i => bit m1 i && negb (bit m2 i)) (fun _ => false) /\
     (b = true <-> exists i, 0 <= i < bits /\ bit m1 i && negb (bit m2 i) = true)) /\
  (exists d, __bitmap_or dst m1 m2 bits = Ok d /\
     bits_written dst d bits (fun i => bit m1 i || bit m2 i) (fun i => bit m1 i || bit m2 i)) /\
  (exists d, __bitmap_xor dst m1 m2 bits = Ok d /\
     bits_written dst d bits (fun i => xorb (bit m1 i) (bit m2 i)) (fun i => xorb (bit m1 i) (bit m2 i))) /\
  (exists d, __bitmap_complement dst m1 bits = Ok d /\
     bits_written dst d bits (fun i => negb (bit m1 i)) (fun i => negb (bit m1 i))).
Proof.
  intros Hd H1 H2. split; [|split; [|split; [|split]]].
  - apply (masked_binop_ok Z.land andb); [|intros; apply Z.land_spec|done..].
    intros w1 w2 Hw1 Hw2. apply word_land; [done|apply Hw2].
  - apply (masked_binop_ok (fun w1 w2 => Z.land w1 (lnot64 w2)) (fun a b => a && negb b)); [| |done..].
    + intros w1 w2 Hw1 Hw2. apply word_land; [done|]. apply word_lnot in Hw2. apply Hw2.
    + intros w1 w2 j Hw1 Hw2 Hj. by rewrite Z.land_spec, lnot64_bits.
  - apply (bitmap_words_bits Z.lor orb); [apply word_lor|apply Z.lor_spec|done..].
  - apply (bitmap_words_bits Z.lxor xorb); [apply word_lxor|apply Z.lxor_spec|done..].
  - destruct (__bitmap_complement_ok dst m1 bits Hd H1) as (d & -> & Hw). exists d. split; [done|].
    eapply written_bits_written; [apply Hd|done|]. intros i Hi. cbv beta.
    rewrite lnot64_bit_pos; [by rewrite bit_wordn|]. by eapply BITS_in_words.
Qed.

(** Sixty bits of one word; the complement also sets the four unused bits. *)
Lemma bitmap_algebra_witness :
  holds [0] 60 /\ holds [5] 60 /\ holds [6] 60 /\
  __bitmap_complement [0] [5] 60 = Ok [2 ^ 64 - 6] /\
  exists b d, __bitmap_and [0] [5] [6] 60 = Ok (b, d) /\
     bits_written [0] d 60 (fun i => bit [5] i && bit [6] i) (fun _ => false) /\
     (b = true <-> exists i, 0 <= i < 60 /\ bit [5] i && bit [6] i = true).
Proof.
  assert (H : forall w, word w -> holds [w] 60).
  { intros w Hw. split; [repeat constructor; apply Hw|]. cbn. lia. }
  split; [by apply H|]. split; [by apply H|]. split; [by apply H|]. split; [vm_compute; reflexivity|].
  apply (bitmap_algebra [0] [5] [6] 60); by apply H.
Defined.

(** The two shifts move the bits of a map of [bits] bits by [shift]
    positions, feed in zeros, drop what leaves the map and clear the unused bits
    of its last word; this also holds when source and destination are the same
    map, where words are overwritten while others are still to be read. *)
Theorem bitmap_shifts (inplace : bool) dst src shift bits :
  let m := if inplace then dst else src in
  holds dst bits -> holds m bits -> 0 <= shift <= bits ->
  (exists d, __bitmap_shift_right inplace dst src shift bits = Ok d /\
     bits_written dst d bits (fun i => inbit m bits (i + shift)) (fun _ => false)) /\
  (exists d, __bitmap_shift_left inplace dst src shift bits = Ok d /\
     bits_written dst d bits (fun i => inbit m bits (i - shift)) (fun _ => false)).
Proof.
  intros m Hd Hm Hs. split; [by apply __bitmap_shift_right_ok|by apply __bitmap_shift_left_ok].
Qed.

(** A shift by 66 of 130 bits, in place. *)
Lemma bitmap_shifts_witness :
  holds [0; 12; 3] 130 /\ __bitmap_shift_right true [0; 12; 3] [] 66 130 = Ok [2 ^ 62 * 3 + 3; 0; 0] /\
  exists d, __bitmap_shift_right true [0; 12; 3] [] 66 130 = Ok d /\
     bits_written [0; 12; 3] d 130 (fun i => inbit [0; 12; 3] 130 (i + 66)) (fun _ => false).
Proof.
  assert (H : holds [0; 12; 3] 130).
  { split; [repeat constructor; lia|]. cbn. lia. }
  split; [exact H|]. split; [vm_compute; reflexivity|].
  apply (bitmap_shifts true [0; 12; 3] [] 66 130 H H). lia.
Defined.

(** The predicates and the weight look at the bits below [bits] only:
    [__bitmap_empty], [__bitmap_full], [__bitmap_equal], [__bitmap_intersects]
    and [__bitmap_subset] decide the statement about those bits that their name
    says, and [__bitmap_weight], which adds up fields inside each word, is the
    number of set bits among them. *)
Theorem bitmap_tests m1 m2 bits :
  holds m1 bits -> holds m2 bits ->
  (exists b, __bitmap_empty m1 bits = Ok b /\ (b = true <-> forall i, 0 <= i < bits -> bit m1 i = false)) /\
  (exists b, __bitmap_full m1 bits = Ok b /\ (b = true <-> forall i, 0 <= i < bits -> bit m1 i = true)) /\
  (exists b, __bitmap_equal m1 m2 bits = Ok b /\ (b = true <-> forall i, 0 <= i < bits -> bit m1 i = bit m2 i)) /\
  (exists b, __bitmap_intersects m1 m2 bits = Ok b /\
     (b = true <-> exists i, 0 <= i < bits /\ bit m1 i = true /\ bit m2 i = true)) /\
  (exists b, __bitmap_subset m1 m2 bits = Ok b /\
     (b = true <-> forall i, 0 <= i < bits -> bit m1 i = true -> bit m2 i = true)) /\
  __bitmap_weight m1 bits = Ok (count (bit m1) (Z.to_nat bits)).
Proof.
  intros H1 H2. split; [by apply __bitmap_empty_ok|]. split; [by apply __bitmap_full_ok|].
  split; [by apply __bitmap_equal_ok|]. split; [by apply __bitmap_intersects_ok|].
  split; [by apply __bitmap_subset_ok|by apply __bitmap_weight_ok].
Qed.

Lemma bitmap_tests_witness :
  holds [0xff; 0x1f0] 69 /\ __bitmap_weight [0xff; 0x1f0] 69 = Ok 9.
Proof.
  assert (H : holds [0xff; 0x1f0] 69).
  { split; [repeat constructor; lia|]. cbn. lia. }
  split; [exact H|].
  rewrite (proj2 (proj2 (proj2 (proj2 (proj2 (bitmap_tests _ _ 69 H H)))))). vm_compute. reflexivity.
Defined.

(** * Ranges of bits: [bitmap_set], [bitmap_clear], and the search for an aligned run of zero bits in [bitmap_find_next_zero_area]. *)

(** ** [bitmap_set] and [bitmap_clear] *)

(** [op w mask] puts [v] where the mask is set. *)
Definition mask_op (op : Z -> Z -> Z) (v : bool) : Prop :=
  (forall w m, word w -> word m -> word (op w m)) /\
  (forall w m j, word w -> word m -> 0 <= j < 64 ->
     Z.testbit (op w m) j = if Z.testbit m j then v else Z.testbit w j).

Lemma mask_op_set : mask_op Z.lor true.
Proof.
  split; [apply word_lor|]. intros w m j _ _ _. rewrite Z.lor_spec.
  destruct (Z.testbit m j); [apply orb_true_r|apply orb_false_r].
Qed.

Lemma mask_op_clear : mask_op (fun w m => Z.land w (lnot64 m)) false.
Proof.
  split.
  - intros w m Hw Hm. apply word_land; [done|]. apply word_lnot in Hm. apply Hm.
  - intros w m j Hw Hm Hj. rewrite Z.land_spec, lnot64_bits by done.
    destruct (Z.testbit m j); [apply andb_false_r|apply andb_true_r].
Qed.

(** [m'] is [m] with the bits of [[a, b)] replaced by [v]. *)
Definition range_is (m m' : list Z) (a b : Z) (v : bool) : Prop :=
  length m' = length m /\ Forall word m' /\
  forall j, 0 <= j -> bit m' j = if decide (a <= j < b) then v else bit m j.

Lemma range_is_empty m a v : Forall word m -> range_is m m a a v.
Proof. intros H. split_and!; [done..|]. intros j Hj. by rewrite decide_False by lia. Qed.

(** Extending the range by a part of one word. *)
Lemma range_is_word op v m m' a b b' p mask w :
  mask_op op v -> range_is m m' a b v -> a <= b <= b' -> 64 * Z.of_nat p <= b -> b' <= 64 * Z.of_nat p + 64 ->
  m' !! p = Some w -> word mask ->
  (forall j, 0 <= j < 64 -> Z.testbit mask j = (b <=? 64 * Z.of_nat p + j) && (64 * Z.of_nat p + j <? b')) ->
  range_is m (<[p := op w mask]> m') a b' v.
Proof.
  intros [Hop Hbits] (Hl & Hw & Hr) Hab Hp Hb' Hpw Hm Hmask.
  assert (Hww : word w) by (by eapply Forall_lookup_1).
  assert (Hlt : (p < length m')%nat) by (by eapply lookup_lt_Some).
  split_and!; [by rewrite length_insert|by apply Forall_insert; auto|].
  intros j Hj. rewrite bit_insert by done. pose proof (bit_word_nat j Hj) as Ej.
  pose proof (Z.mod_pos_bound j 64 ltac:(lia)) as Hmod. destruct (decide (BIT_WORD j = p)) as [E|E].
  - assert (Hbj : bit m' j = Z.testbit w (j mod 64)).
    { transitivity (bit m' (64 * Z.of_nat p + j mod 64)); [f_equal; lia|]. by apply bit_word. }
    rewrite Hbits, <- Hbj, Hr, Hmask by done.
    replace (64 * Z.of_nat p + j mod 64) with j by lia.
    destruct (Z.leb_spec b j), (Z.ltb_spec j b'); cbn [andb]; repeat case_decide; done || lia.
  - rewrite Hr by done. repeat case_decide; done || lia.
Qed.

Lemma first_mask_bits start j :
  0 <= j < 64 -> Z.testbit (BITMAP_FIRST_WORD_MASK start) j = (start mod 64 <=? j).
Proof.
  intros Hj. unfold BITMAP_FIRST_WORD_MASK, BITS_PER_LONG. apply high_mask_bits; [|done].
  apply Z.mod_pos_bound. lia.
Qed.

Lemma range_words_ok op v m start len fuel :
  mask_op op v -> holds m (start + len) -> 0 <= start -> 0 <= len -> start + len < 2 ^ 32 ->
  (Z.to_nat (len / 64) + 1 < fuel)%nat ->
  exists m', loop fuel (range_words op (start ⊞ len))
      (m, BIT_WORD start, len, BITS_PER_LONG - start mod BITS_PER_LONG, BITMAP_FIRST_WORD_MASK start) = Ok m' /\
    range_is m m' start (start + len) v.
Proof.
  intros Hop (Hm & Hs & Hmax) Hst Hlen H32 Hf. rewrite add32_small by lia. unfold BITS_PER_LONG.
  pose (I := fun s : list Z * nat * Z * Z * Z => let '(m', p, l, b, mask) := s in
    0 <= l /\ 0 < b <= 64 /\ (start <= start + len - l /\ start + len - l = 64 * Z.of_nat p + 64 - b) /\ word mask /\
    (forall j, 0 <= j < 64 -> Z.testbit mask j = (64 - b <=? j)) /\ range_is m m' start (start + len - l) v).
  pose proof (Z.mod_pos_bound start 64 ltac:(lia)) as Hmod. pose proof (bit_word_nat start Hst) as Est.
  apply (loop_total _ I _ (fun s => Z.to_nat ((s.1.1.2 + 64 - s.1.2) / 64))).
  - intros [[[[m' p] l] b] mask] (Hl & Hb & Hcur & Hwm & Hmask & Hr). unfold range_words.
    rewrite Z.geb_leb. pose proof Hr as (Hlm & _ & _).
    destruct (Z.leb_spec 0 (l - b)) as [Hge|Hlt]; [left|right].
    + destruct (lookup_lt_is_Some_2 m' p) as [w Hw]; [lia|].
      rewrite (aget_ok _ _ _ Hw), res_bind_ok, aset_ok, res_bind_ok by lia.
      eexists. split; [done|]. cbn [fst snd]. split.
      * unfold BITS_PER_LONG. split; [lia|]. split; [lia|]. split; [lia|]. split; [apply word_max|].
        split; [intros j Hj; rewrite max_bits by lia; lia|].
        eapply range_is_word; [done|exact Hr|lia|lia|lia|done|done|]. intros j Hj. rewrite Hmask by done. lia.
      * unfold BITS_PER_LONG. replace (l + 64 - b) with (l - b + 64 - 64 + 1 * 64) by lia.
        rewrite Z.div_add by lia. assert (0 <= (l - b + 64 - 64) / 64) by (apply Z.div_pos; lia). lia.
    + destruct (Z.eqb_spec l 0) as [->|E]; cbn [negb].
      { eexists. split; [done|]. by rewrite Z.sub_0_r in Hr. }
      destruct (lookup_lt_is_Some_2 m' p) as [w Hw]; [lia|].
      rewrite (aget_ok _ _ _ Hw), res_bind_ok, aset_ok, res_bind_ok by lia.
      eexists. split; [done|].
      assert (He : (start + len) mod 64 = start + len - 64 * Z.of_nat p).
      { symmetry. apply Z.mod_unique with (Z.of_nat p); lia. }
      eapply range_is_word; [done|exact Hr|lia|lia|lia|done| |].
      * apply word_land; [done|apply word_last_mask].
      * intros j Hj. rewrite Z.land_spec, Hmask, last_mask_bits by lia. rewrite He. lia.
  - split; [lia|]. split; [lia|]. split; [lia|]. split; [apply word_shl|]. split.
    + intros j Hj. rewrite first_mask_bits by done. f_equal. lia.
    + replace (start + len - len) with start by lia. by apply range_is_empty.
  - cbn [fst snd]. replace (len + 64 - (64 - start mod 64)) with (len + start mod 64) by lia.
    assert ((len + start mod 64) / 64 <= len / 64 + 1).
    { replace (len / 64 + 1) with ((len + 1 * 64) / 64) by (rewrite Z.div_add; lia). apply Z.div_le_mono; lia. }
    lia.
Qed.

Lemma range_fuel_ok len : 0 <= len -> (Z.to_nat (len / 64) + 1 < range_fuel len)%nat.
Proof. intros H. unfold range_fuel, BITS_PER_LONG. lia. Qed.

(** [bitmap_set] and [bitmap_clear], which work a word at a time with a
    mask at each end, change exactly the bits [start .. start + len): they become
    ones (zeros), and every other bit of the map keeps its value. *)
Theorem bitmap_set_clear m start len :
  holds m (start + len) -> 0 <= start -> 0 <= len -> start + len < 2 ^ 32 ->
  (exists m', bitmap_set m start len = Ok m' /\ range_is m m' start (start + len) true) /\
  (exists m', bitmap_clear m start len = Ok m' /\ range_is m m' start (start + len) false).
Proof.
  intros H Hs Hl H32. split.
  - apply range_words_ok; [apply mask_op_set|done..|by apply range_fuel_ok].
  - apply range_words_ok; [apply mask_op_clear|done..|by apply range_fuel_ok].
Qed.

(** Setting and clearing bits 60 to 129 of three words. *)
Lemma bitmap_set_clear_witness :
  holds [0; 0; 0] (60 + 70) /\ exists m', bitmap_set [0; 0; 0] 60 70 = Ok m' /\
  range_is [0; 0; 0] m' 60 (60 + 70) true.
Proof.
  assert (H : holds [0; 0; 0] (60 + 70)).
  { split; [repeat constructor; lia|]. cbn. lia. }
  split; [exact H|]. apply (bitmap_set_clear [0; 0; 0] 60 70 H); lia.
Defined.

(** ** Aligned runs of zeros *)

Definition aligned (a r : Z) : Prop := r mod 2 ^ a = 0.

(** [r] is no place for [nr] zero bits below [size]. *)
Definition no_room (m : list Z) (size nr r : Z) : Prop :=
  size < r + nr \/ exists j, r <= j < r + nr /\ bit m j = true.

Lemma align_mask_up x a :
  0 <= a < 64 -> 0 <= x -> x + 2 ^ a < 2 ^ 64 ->
  let y := __ALIGN_MASK x (2 ^ a - 1) in
  x <= y < x + 2 ^ a /\ aligned a y /\ forall r, x <= r < y -> ~ aligned a r.
Proof.
  intros Ha Hx Hlt y. unfold y, __ALIGN_MASK, lnot64.
  assert (Hp : 0 < 2 ^ a < 2 ^ 64) by (split; [lia|apply Z.pow_lt_mono_r; lia]).
  rewrite add64_small by lia. pose proof (round_down_pow2 (x + (2 ^ a - 1)) a ltac:(lia) Ha) as Hr.
  unfold round_down in Hr. rewrite sub64_small in Hr by lia. rewrite Hr. clear y Hr.
  set (s := x + (2 ^ a - 1)). pose proof (Z.mod_pos_bound s (2 ^ a) ltac:(lia)).
  pose proof (Z.div_mod s (2 ^ a) ltac:(lia)) as Ed. split; [unfold s in *; lia|]. split.
  - unfold aligned. replace (s - s mod 2 ^ a) with (s / 2 ^ a * 2 ^ a) by lia. by apply Z.mod_mul; lia.
  - unfold aligned. intros r Hr Hal. apply Z.mod_divide in Hal as [q ->]; [|lia].
    replace (s - s mod 2 ^ a) with (s / 2 ^ a * 2 ^ a) in Hr by lia.
    assert (s / 2 ^ a - 1 < q < s / 2 ^ a); [|lia]. split; [|nia].
    unfold s in *. nia.
Qed.

(** [bitmap_find_next_zero_area] terminates; a result [r] with
    [r + nr <= size] is the lowest multiple of the alignment from [start] on that
    begins [nr] zero bits inside the map, and any other result exceeds
    [size] and is returned only if there is no such place at all. *)
Theorem bitmap_find_next_zero_area_ok m size start nr a :
  holds m size -> 0 <= start < 2 ^ 63 -> 1 <= nr < 2 ^ 32 -> 0 <= a < 62 -> size < 2 ^ 62 ->
  exists r, bitmap_find_next_zero_area m size start nr (2 ^ a - 1) = Ok r /\
    ((r + nr <= size /\ start <= r /\ aligned a r /\ (forall j, r <= j < r + nr -> bit m j = false) /\
      forall r', start <= r' < r -> aligned a r' -> no_room m size nr r') \/
     (size < r /\ forall r', start <= r' -> aligned a r' -> no_room m size nr r')).
Proof.
  intros H Hst Hnr Ha Hsz. unfold bitmap_find_next_zero_area.
  assert (Hp : 0 < 2 ^ a <= 2 ^ 62) by (split; [lia|apply Z.pow_le_mono_r; lia]).
  apply (loop_total _ (fun s => start <= s < 2 ^ 63 + 1 /\ (s <= size \/ s = start) /\
    forall r', start <= r' < s -> aligned a r' -> no_room m size nr r') _ (fun s => Z.to_nat (size + 1 - s)));
    [|split; [lia|]; split; [by right|lia]|lia].
  intros s (Hs & Hsz' & Hbad). unfold zero_area_step.
  rewrite find_next_zero_bit_ok, res_bind_ok by (done || lia). cbv zeta.
  destruct (Z.leb_spec s size) as [Hle|Hgt].
  - destruct (next_ref_first (fun i => negb (bit m i)) size s Hle) as (Hz & Hones & _).
    set (z := next_ref _ size s) in *.
    destruct (align_mask_up z a ltac:(lia) ltac:(lia) ltac:(lia)) as (Hi & Hal & Hskip).
    set (index := __ALIGN_MASK z (2 ^ a - 1)) in *. rewrite add64_small by lia.
    assert (Hbad' : forall r', start <= r' < index -> aligned a r' -> no_room m size nr r').
    { intros r' Hr' Hra. destruct (Z.ltb_spec r' s); [apply Hbad; [lia|done]|].
      destruct (Z.ltb_spec r' z); [|exfalso; apply (Hskip r'); [lia|done]].
      right. exists r'. split; [lia|]. specialize (Hones r' ltac:(lia)). by apply negb_false_iff. }
    rewrite Z.gtb_ltb. destruct (Z.ltb_spec size (index + nr)) as [Hfull|Hfit].
    + right. eexists. split; [done|]. right. split; [lia|]. intros r' Hr' Hra.
      destruct (Z.ltb_spec r' index); [apply Hbad'; [lia|done]|]. left. lia.
    + assert (Hh : holds m (index + nr)) by (destruct H as (? & ? & ?); split_and!; done || lia).
      rewrite find_next_bit_ok, res_bind_ok by (done || lia).
      destruct (next_ref_first (bit m) (index + nr) index ltac:(lia)) as (Hn & Hzero & Hone).
      set (i := next_ref (bit m) (index + nr) index) in *.
      destruct (Z.ltb_spec i (index + nr)) as [Hhit|Hmiss].
      * left. rewrite add64_small by lia. eexists. split; [done|]. split; [|lia].
        split; [lia|]. split; [left; lia|]. intros r' Hr' Hra.
        destruct (Z.ltb_spec r' index); [apply Hbad'; [lia|done]|].
        right. exists i. split; [lia|]. by apply Hone.
      * right. eexists. split; [done|]. left. split_and!; [lia|lia|done| |].
        -- intros j Hj. apply Hzero. lia.
        -- intros r' Hr'. apply Hbad'. lia.
  - assert (Hz : next_ref (fun i => negb (bit m i)) size s = size).
    { unfold next_ref. rewrite Z.geb_leb. by rewrite (proj2 (Z.leb_le _ _)) by lia. }
    rewrite Hz. destruct (align_mask_up size a ltac:(lia) ltac:(apply H) ltac:(lia)) as (Hi & _ & _).
    set (index := __ALIGN_MASK size (2 ^ a - 1)) in *.
    pose proof (proj1 (proj1 (proj2 H))). rewrite add64_small by lia.
    rewrite Z.gtb_ltb, (proj2 (Z.ltb_lt _ _)) by lia. right. eexists. split; [done|].
    right. split; [lia|]. intros r' Hr' Hra. left. lia.
Qed.

(** Bits 0-3 and 9 of one word are taken; five bits aligned to four start at 12. *)
Lemma bitmap_find_next_zero_area_witness :
  holds [0x20f] 64 /\ bitmap_find_next_zero_area [0x20f] 64 0 6 (2 ^ 2 - 1) = Ok 12 /\
  exists r, bitmap_find_next_zero_area [0x20f] 64 0 6 (2 ^ 2 - 1) = Ok r /\
    ((r + 6 <= 64 /\ 0 <= r /\ aligned 2 r /\ (forall j, r <= j < r + 6 -> bit [0x20f] j = false) /\
      forall r', 0 <= r' < r -> aligned 2 r' -> no_room [0x20f] 64 6 r') \/
     (64 < r /\ forall r', 0 <= r' -> aligned 2 r' -> no_room [0x20f] 64 6 r')).
Proof.
  assert (H : holds [0x20f] 64).
  { split; [repeat constructor; lia|]. cbn. lia. }
  split; [exact H|]. split; [vm_compute; reflexivity|].
  apply (bitmap_find_next_zero_area_ok [0x20f] 64 0 6 2 H); lia.
Defined.
