(* ===== verification/BitmapMapDefs.v ===== *)
(** Regions and maps between bitmaps: [__reg_op] and the region allocator,
    [bitmap_pos_to_ord], [bitmap_ord_to_pos], [bitmap_remap],
    [bitmap_bitremap], [bitmap_onto] and [bitmap_fold] of [lib/bitmap.c]. *)
From S2P Require Import Prelude FindBitDefs BitmapDefs.

Definition ENOMEM : Z := 12.
Definition EBUSY : Z := 16.

(** ** Regions *)

Inductive reg_op : Type := REG_OP_ISFREE | REG_OP_ALLOC | REG_OP_RELEASE.

Definition __reg_op (bitmap : list Z) (pos order : Z) (op : reg_op) : res (Z * list Z) :=
  let nbits_reg := 2 ^ order in
  let index := Z.to_nat (pos / BITS_PER_LONG) in
  let offset := pos - pos / BITS_PER_LONG * BITS_PER_LONG in
  let nlongs_reg := BITS_TO_LONGS nbits_reg in
  let nbitsinlong := Z.min nbits_reg BITS_PER_LONG in
  let mask := shl64 1 (nbitsinlong - 1) in
  let mask := mask ⊕ (mask ⊖ 1) in
  let mask := shl64 mask offset in
  match op with
  | REG_OP_ISFREE =>
      b ← any_word nlongs_reg index (fun k => w ← aget bitmap k; Ok (negb (Z.land w mask =? 0)));
      Ok (if b : bool then 0 else 1, bitmap)
  | REG_OP_ALLOC =>
      bitmap ← for_loop nlongs_reg index (fun k m => w ← aget m k; aset m k (Z.lor w mask)) bitmap;
      Ok (0, bitmap)
  | REG_OP_RELEASE =>
      bitmap ← for_loop nlongs_reg index (fun k m => w ← aget m k; aset m k (Z.land w (lnot64 mask))) bitmap;
      Ok (0, bitmap)
  end.

(** One round of [for (pos = 0; (end = pos + (1U << order)) <= bits; pos = end)]. *)
Definition free_region_step (bitmap : list Z) (bits order pos : Z) : res (Z + (Z * list Z)) :=
  let end_ := pos ⊞ u32 (Z.shiftl 1 order) in
  if end_ <=? bits then
    '(free, _) ← __reg_op bitmap pos order REG_OP_ISFREE;
    if free =? 0 then Ok (inl end_)
    else '(_, bitmap) ← __reg_op bitmap pos order REG_OP_ALLOC; Ok (inr (pos, bitmap))
  else Ok (inr (- ENOMEM, bitmap)).

Definition bitmap_find_free_region (bitmap : list Z) (bits order : Z) : res (Z * list Z) :=
  loop (S (Z.to_nat (bits / 2 ^ order))) (free_region_step bitmap bits order) 0.

Definition bitmap_release_region (bitmap : list Z) (pos order : Z) : res (list Z) :=
  '(_, bitmap) ← __reg_op bitmap pos order REG_OP_RELEASE; Ok bitmap.

Definition bitmap_allocate_region (bitmap : list Z) (pos order : Z) : res (Z * list Z) :=
  '(free, _) ← __reg_op bitmap pos order REG_OP_ISFREE;
  if free =? 0 then Ok (- EBUSY, bitmap) else __reg_op bitmap pos order REG_OP_ALLOC.

(** ** Ordinals *)

(** [while (i < pos) { i = find_next_bit(buf, bits, i + 1); ord++; }]. *)
Definition pos_to_ord_step (buf : list Z) (pos bits : Z) (s : Z * Z) : res ((Z * Z) + Z) :=
  let '(i, ord) := s in
  if i <? pos then i' ← find_next_bit buf bits (i + 1); Ok (inl (i', ord + 1))
  else bug_on (negb (i =? pos)) (Ok (inr ord)).

Definition bitmap_pos_to_ord (buf : list Z) (pos bits : Z) : res Z :=
  if (pos <? 0) || (pos >=? bits) then Ok (-1)
  else
    b ← test_bit pos buf;
    if negb b then Ok (-1)
    else i ← find_first_bit buf bits; loop (S (Z.to_nat bits)) (pos_to_ord_step buf pos bits) (i, 0).

(** [for (i = find_first_bit(buf, bits); i < bits && ord > 0; i = ...) ord--]. *)
Definition ord_to_pos_step (buf : list Z) (bits : Z) (s : Z * Z) : res ((Z * Z) + (Z * Z)) :=
  let '(i, ord) := s in
  if (i <? bits) && (ord >? 0) then i' ← find_next_bit buf bits (i + 1); Ok (inl (i', ord - 1))
  else Ok (inr (i, ord)).

Definition bitmap_ord_to_pos (buf : list Z) (ord bits : Z) : res Z :=
  if (ord >=? 0) && (ord <? bits) then
    i ← find_first_bit buf bits;
    '(i, ord) ← loop (S (Z.to_nat bits)) (ord_to_pos_step buf bits) (i, ord);
    Ok (if (i <? bits) && (ord =? 0) then i else 0)
  else Ok 0.

(** ** Maps *)

(** [for_each_set_bit(bit, addr, size) body]. *)
Definition for_each_step {S} (addr : list Z) (size : Z) (body : Z -> S -> res S) (st : Z * S)
    : res ((Z * S) + S) :=
  let '(i, s) := st in
  if i <? size then s' ← body i s; i' ← find_next_bit addr size (i + 1); Ok (inl (i', s'))
  else Ok (inr s).

Definition for_each_set_bit {S} (addr : list Z) (size : Z) (body : Z -> S -> res S) (s : S) : res S :=
  i ← find_first_bit addr size; loop (Datatypes.S (Z.to_nat size)) (for_each_step addr size body) (i, s).

Definition bitmap_zero (dst : list Z) (nbits : Z) : res (list Z) := zero_words dst 0 (BITS_TO_LONGS nbits).

(** [same] is the test [dst == src]. *)
Definition bitmap_remap (same : bool) (dst src old new : list Z) (bits : Z) : res (list Z) :=
  if same then Ok dst
  else
    dst ← bitmap_zero dst bits;
    w ← __bitmap_weight new bits;
    for_each_set_bit src bits (fun oldbit dst =>
      n ← bitmap_pos_to_ord old oldbit bits;
      if (n <? 0) || (w =? 0) then __set_bit oldbit dst
      else pos ← bitmap_ord_to_pos new (Z.rem n w) bits; __set_bit pos dst) dst.

Definition bitmap_bitremap (oldbit : Z) (old new : list Z) (bits : Z) : res Z :=
  w ← __bitmap_weight new bits;
  n ← bitmap_pos_to_ord old oldbit bits;
  if (n <? 0) || (w =? 0) then Ok oldbit else bitmap_ord_to_pos new (Z.rem n w) bits.

Definition bitmap_onto (same : bool) (dst orig relmap : list Z) (bits : Z) : res (list Z) :=
  if same then Ok dst
  else
    dst ← bitmap_zero dst bits;
    '(dst, _) ← for_each_set_bit relmap bits (fun n '(dst, m) =>
      b ← test_bit m orig;
      dst ← (if b : bool then __set_bit n dst else Ok dst);
      Ok (dst, m + 1)) (dst, 0);
    Ok dst.

(** [%] by a zero [sz] traps. *)
Definition bitmap_fold (same : bool) (dst orig : list Z) (sz bits : Z) : res (list Z) :=
  if same then Ok dst
  else
    dst ← bitmap_zero dst bits;
    for_each_set_bit orig bits (fun oldbit dst =>
      bug_on (sz =? 0) (__set_bit (Z.rem oldbit sz) dst)) dst.
