(* ===== verification/BitmapRegion.v ===== *)
(** The region allocator on bitmaps: [__reg_op] on an aligned region is a test
    or an update of exactly its bits; [bitmap_find_free_region] is first fit
    over the aligned regions, and [bitmap_release_region] undoes it. *)
From S2P Require Import Prelude FindBitDefs FindBit BitmapDefs Bitmap BitmapProps BitmapMapDefs.

(** The mask computed by [__reg_op]. *)
Definition reg_mask (pos order : Z) : Z :=
  let mask := shl64 1 (Z.min (2 ^ order) 64 - 1) in
  shl64 (mask ⊕ (mask ⊖ 1)) (pos - pos / 64 * 64).

Lemma reg_mask_bits pos order j :
  0 <= pos -> 0 <= order -> 0 <= j < 64 ->
  Z.testbit (reg_mask pos order) j = (pos mod 64 <=? j) && (j <? pos mod 64 + Z.min (2 ^ order) 64).
Proof.
  intros Hp Ho Hj. unfold reg_mask. cbv zeta. assert (0 < 2 ^ order) by lia.
  set (n := Z.min (2 ^ order) 64). assert (Hn : 1 <= n <= 64) by lia.
  replace (pos - pos / 64 * 64) with (pos mod 64) by (rewrite Z.mod_eq; lia).
  pose proof (Z.mod_pos_bound pos 64 ltac:(lia)).
  assert (Hpow : 0 < 2 ^ (n - 1) <= 2 ^ 63) by (split; [lia|apply Z.pow_le_mono_r; lia]).
  assert (E1 : shl64 1 (n - 1) = 2 ^ (n - 1)).
  { unfold shl64. rewrite Z.shiftl_1_l. apply u64_small. lia. }
  rewrite E1, sub64_small, add64_small by lia.
  replace (2 ^ (n - 1) + (2 ^ (n - 1) - 1)) with (Z.ones n).
  2:{ rewrite Z.ones_equiv. replace n with (Z.succ (n - 1)) at 1 by lia. rewrite Z.pow_succ_r by lia. lia. }
  rewrite shl64_bits by done. destruct (Z.leb_spec (pos mod 64) j).
  - rewrite Z.testbit_ones_nonneg by lia. cbn [andb]. lia.
  - by rewrite Z.testbit_neg_r by lia.
Qed.

(** An aligned region of [2 ^ order] bits. *)
Definition region_ok (pos order : Z) : Prop := 0 <= pos /\ 0 <= order <= 30 /\ aligned order pos.

(** Membership of the region, by word and mask. *)
Lemma region_member pos order j :
  region_ok pos order -> 0 <= j ->
  pos <= j < pos + 2 ^ order <->
  (BIT_WORD pos <= BIT_WORD j < BIT_WORD pos + BITS_TO_LONGS (2 ^ order))%nat /\
  Z.testbit (reg_mask pos order) (j mod 64) = true.
Proof.
  intros (Hp & Ho & Hal) Hj. pose proof (Z.mod_pos_bound j 64 ltac:(lia)).
  pose proof (Z.mod_pos_bound pos 64 ltac:(lia)).
  pose proof (bit_word_nat j Hj) as Ej. pose proof (bit_word_nat pos Hp) as Ep.
  rewrite reg_mask_bits, andb_true_iff, Z.leb_le, Z.ltb_lt by (done || lia).
  assert (Hpow : 0 < 2 ^ order) by lia. rewrite BITS_TO_LONGS_spec by lia.
  destruct (Z.ltb_spec order 6) as [Hs|Hb].
  - assert (Hle : 2 ^ order <= 2 ^ 5) by (apply Z.pow_le_mono_r; lia).
    rewrite Z.min_l by lia. rewrite Z.div_small, Z.mod_small by lia.
    rewrite (proj2 (Z.eqb_neq _ _)) by lia.
    assert (Hfit : pos mod 64 + 2 ^ order <= 64).
    { apply Z.mod_divide in Hal as [q Hq]; [|lia].
      assert (H64 : 64 = 2 ^ order * 2 ^ (6 - order)).
      { rewrite <- Z.pow_add_r by lia. by replace (order + (6 - order)) with 6 by lia. }
      assert (0 < 2 ^ (6 - order)) by lia.
      assert (E : pos mod 64 = 2 ^ order * (q mod 2 ^ (6 - order))).
      { rewrite Hq, H64, (Z.mul_comm q), Z.mul_mod_distr_l by lia. done. }
      pose proof (Z.mod_pos_bound q (2 ^ (6 - order)) ltac:(lia)). nia. }
    lia.
  - assert (H64 : 2 ^ order = 2 ^ (order - 6) * 64).
    { replace 64 with (2 ^ 6) by done. rewrite <- Z.pow_add_r by lia. f_equal. lia. }
    assert (0 < 2 ^ (order - 6)) by lia. rewrite Z.min_r by lia.
    rewrite H64, Z.div_mul, Z.mod_mul by lia. cbn [Z.eqb].
    assert (E0 : pos mod 64 = 0).
    { apply Z.mod_divide in Hal as [q Hq]; [|lia]. rewrite Hq, H64, Z.mul_assoc, Z.mod_mul by lia. done. }
    lia.
Qed.

Lemma region_in_map (m : list Z) pos order :
  region_ok pos order -> pos + 2 ^ order <= 64 * Z.of_nat (length m) ->
  (BIT_WORD pos + BITS_TO_LONGS (2 ^ order) <= length m)%nat.
Proof.
  intros H Hl. destruct (Nat.leb_spec (BIT_WORD pos + BITS_TO_LONGS (2 ^ order)) (length m)); [done|].
  exfalso. pose proof H as (Hp & Ho & _). assert (0 < 2 ^ order) by lia.
  pose proof (bit_word_nat pos Hp) as Ep. pose proof (Z.mod_pos_bound pos 64 ltac:(lia)).
  destruct (decide (BITS_TO_LONGS (2 ^ order) = 1%nat)) as [E1|E1]; [lia|].
  destruct (longs_cases (2 ^ order) ltac:(lia)) as [[Em EL]|[Em EL]];
    pose proof (bits_split (2 ^ order) ltac:(lia)) as [Es _]; [lia|].
  destruct (Z.ltb_spec order 6) as [Hs|Hb].
  - assert (2 ^ order <= 2 ^ 5) by (apply Z.pow_le_mono_r; lia). rewrite Z.div_small in EL by lia. lia.
  - apply Em. replace (2 ^ order) with (2 ^ (order - 6) * 2 ^ 6).
    + by apply Z.mod_mul.
    + rewrite <- Z.pow_add_r by lia. f_equal. lia.
Qed.

Lemma word_reg_mask pos order : word (reg_mask pos order).
Proof. apply word_shl. Qed.

Lemma word_wordn m k : Forall word m -> word (wordn m k).
Proof.
  intros Hm. unfold wordn. destruct (m !! k) eqn:E; cbn; [|done]. by eapply Forall_lookup_1.
Qed.

(** [REG_OP_ISFREE]. *)
Lemma __reg_op_isfree m pos order :
  Forall word m -> region_ok pos order -> pos + 2 ^ order <= 64 * Z.of_nat (length m) ->
  exists r, __reg_op m pos order REG_OP_ISFREE = Ok (r, m) /\
    ((r = 1 /\ forall j, pos <= j < pos + 2 ^ order -> bit m j = false) \/
     (r = 0 /\ exists j, pos <= j < pos + 2 ^ order /\ bit m j = true)).
Proof.
  intros Hm Hr Hl. pose proof (region_in_map m pos order Hr Hl) as Hin. pose proof Hr as (Hp & Ho & _).
  unfold __reg_op, BITS_PER_LONG. fold (reg_mask pos order). change (Z.to_nat (pos / 64)) with (BIT_WORD pos).
  destruct (any_word_ok (BITS_TO_LONGS (2 ^ order)) (BIT_WORD pos)
    (fun k => w ← aget m k; Ok (negb (Z.land w (reg_mask pos order) =? 0)))
    (fun k => negb (Z.land (wordn m k) (reg_mask pos order) =? 0))) as (b & -> & Hb).
  { intros k Hk. destruct (lookup_lt_is_Some_2 m k) as [w Hw]; [lia|].
    rewrite (aget_ok _ _ _ Hw). unfold wordn. by rewrite Hw. }
  rewrite res_bind_ok. eexists. split; [done|].
  assert (Hword : forall k, word (Z.land (wordn m k) (reg_mask pos order))).
  { intros k. rewrite Z.land_comm. apply word_land; [apply word_reg_mask|]. by apply word_wordn. }
  destruct b; [right|left]; (split; [done|]).
  - destruct (proj1 Hb eq_refl) as (k & Hk & Ht). apply nonzero_bits in Ht as (i & Hi & Ht); [|done].
    rewrite Z.land_spec in Ht. apply andb_prop in Ht as [Ht1 Ht2].
    exists (64 * Z.of_nat k + i). rewrite bit_at by done. split; [|done].
    apply region_member; [done|lia|]. rewrite BIT_WORD_at by done. split; [lia|].
    by rewrite Z.add_comm, Z.mul_comm, Z.mod_add, Z.mod_small by lia.
  - intros j Hj. apply not_true_is_false. intros Ht. enough (false = true) by done. apply Hb.
    apply region_member in Hj as [Hk Hmj]; [|done|lia]. exists (BIT_WORD j). split; [lia|].
    apply nonzero_bits; [done|]. exists (j mod 64). split; [apply Z.mod_pos_bound; lia|].
    by rewrite Z.land_spec, Hmj, <- bit_wordn, Ht.
Qed.

(** [REG_OP_ALLOC] and [REG_OP_RELEASE]. *)
Lemma reg_words_ok op v m pos order :
  mask_op op v -> Forall word m -> region_ok pos order -> pos + 2 ^ order <= 64 * Z.of_nat (length m) ->
  exists m', for_loop (BITS_TO_LONGS (2 ^ order)) (BIT_WORD pos)
      (fun k m => w ← aget m k; aset m k (op w (reg_mask pos order))) m = Ok m' /\
    range_is m m' pos (pos + 2 ^ order) v.
Proof.
  intros [Hop Hbits] Hm Hr Hl. pose proof (region_in_map m pos order Hr Hl) as Hin.
  pose proof Hr as (Hp & Ho & _).
  pose (I := fun (k : nat) (m' : list Z) => length m' = length m /\ Forall word m' /\
    (forall i, wordn m' i = if decide (BIT_WORD pos <= i < k)%nat
                            then op (wordn m i) (reg_mask pos order) else wordn m i)).
  destruct (for_loop_inv I (BITS_TO_LONGS (2 ^ order)) (BIT_WORD pos)
    (fun k m => w ← aget m k; aset m k (op w (reg_mask pos order))) m) as (m' & Hf & Hl' & Hw' & Hi).
  - split_and!; [done..|]. intros i. by rewrite decide_False by lia.
  - intros k d Hk (Hld & Hwd & Hd). destruct (lookup_lt_is_Some_2 d k) as [w Hw]; [lia|].
    assert (word w) by (by eapply Forall_lookup_1).
    rewrite (aget_ok _ _ _ Hw), res_bind_ok, aset_ok by lia. eexists. split; [done|]. split_and!.
    + by rewrite length_insert.
    + apply Forall_insert; [done|]. apply Hop; [done|apply word_reg_mask].
    + intros i. rewrite wordn_insert by lia. case_decide; subst; [|rewrite Hd; repeat case_decide; done || lia].
      rewrite decide_True by lia. f_equal. specialize (Hd k). rewrite decide_False in Hd by lia.
      rewrite <- Hd. unfold wordn. by rewrite Hw.
  - exists m'. split; [done|]. split_and!; [done..|]. intros j Hj. rewrite !bit_wordn, Hi.
    pose proof (region_member pos order j Hr Hj) as Hmem. case_decide as Hd.
    + rewrite Hbits; [|by apply word_wordn|apply word_reg_mask|apply Z.mod_pos_bound; lia].
      destruct (Z.testbit (reg_mask pos order) (j mod 64)) eqn:E.
      * rewrite decide_True; [done|]. by apply Hmem.
      * rewrite decide_False; [done|]. intros HH. apply Hmem in HH as [_ HH]. done.
    + rewrite decide_False; [done|]. intros HH. apply Hmem in HH as [HH _]. done.
Qed.

Lemma __reg_op_alloc m pos order :
  Forall word m -> region_ok pos order -> pos + 2 ^ order <= 64 * Z.of_nat (length m) ->
  exists m', __reg_op m pos order REG_OP_ALLOC = Ok (0, m') /\ range_is m m' pos (pos + 2 ^ order) true.
Proof.
  intros Hm Hr Hl. destruct (reg_words_ok _ _ m pos order mask_op_set Hm Hr Hl) as (m' & Hf & Hi).
  exists m'. split; [|done]. unfold __reg_op, BITS_PER_LONG. fold (reg_mask pos order).
  change (Z.to_nat (pos / 64)) with (BIT_WORD pos). by rewrite Hf.
Qed.

Lemma bitmap_release_region_ok m pos order :
  Forall word m -> region_ok pos order -> pos + 2 ^ order <= 64 * Z.of_nat (length m) ->
  exists m', bitmap_release_region m pos order = Ok m' /\ range_is m m' pos (pos + 2 ^ order) false.
Proof.
  intros Hm Hr Hl. destruct (reg_words_ok _ _ m pos order mask_op_clear Hm Hr Hl) as (m' & Hf & Hi).
  exists m'. split; [|done]. unfold bitmap_release_region, __reg_op, BITS_PER_LONG. fold (reg_mask pos order).
  change (Z.to_nat (pos / 64)) with (BIT_WORD pos). by rewrite Hf.
Qed.

(** A region is taken when one of its bits is set. *)
Definition region_taken (m : list Z) (pos order : Z) : Prop :=
  exists j, pos <= j < pos + 2 ^ order /\ bit m j = true.

(** [bitmap_find_free_region] is first fit over the aligned regions of
    [2 ^ order] bits: it returns the lowest one that is entirely free, with
    exactly its bits set in the map, and [bitmap_release_region] on it gives
    every bit of the map its old value back; it returns [-ENOMEM], with the map
    unchanged, only if every aligned region of the map is taken. *)
Theorem bitmap_find_free_region_ok m bits order :
  holds m bits -> 0 <= order <= 30 -> bits < 2 ^ 31 ->
  exists r m', bitmap_find_free_region m bits order = Ok (r, m') /\
    ((r = - ENOMEM /\ m' = m /\
      forall p, 0 <= p -> aligned order p -> p + 2 ^ order <= bits -> region_taken m p order) \/
     (0 <= r /\ r + 2 ^ order <= bits /\ aligned order r /\ range_is m m' r (r + 2 ^ order) true /\
      (forall j, r <= j < r + 2 ^ order -> bit m j = false) /\
      (forall p, 0 <= p < r -> aligned order p -> region_taken m p order) /\
      exists m'', bitmap_release_region m' r order = Ok m'' /\ forall j, 0 <= j -> bit m'' j = bit m j)).
Proof.
  intros (Hm & Hs & Hmax) Ho Hbits. unfold bitmap_find_free_region.
  assert (Hp : 0 < 2 ^ order <= 2 ^ 30) by (split; [lia|apply Z.pow_le_mono_r; lia]).
  enough (H : exists r, loop (S (Z.to_nat (bits / 2 ^ order))) (free_region_step m bits order) 0 = Ok r /\
    ((r.1 = - ENOMEM /\ r.2 = m /\
      forall p, 0 <= p -> aligned order p -> p + 2 ^ order <= bits -> region_taken m p order) \/
     (0 <= r.1 /\ r.1 + 2 ^ order <= bits /\ aligned order r.1 /\ range_is m r.2 r.1 (r.1 + 2 ^ order) true /\
      (forall j, r.1 <= j < r.1 + 2 ^ order -> bit m j = false) /\
      (forall p, 0 <= p < r.1 -> aligned order p -> region_taken m p order) /\
      exists m'', bitmap_release_region r.2 r.1 order = Ok m'' /\ forall j, 0 <= j -> bit m'' j = bit m j))).
  { destruct H as ([r m'] & Hr & HH). by exists r, m'. }
  apply (loop_total _ (fun pos => exists q, pos = q * 2 ^ order /\ 0 <= q /\ pos <= bits /\
    forall p, 0 <= p < pos -> aligned order p -> region_taken m p order) _
    (fun pos => Z.to_nat (bits / 2 ^ order - pos / 2 ^ order))).
  - intros pos (q & -> & Hq & Hle & Htaken). unfold free_region_step. rewrite Z.shiftl_1_l.
    rewrite u32_small, add32_small by lia.
    assert (Hr : region_ok (q * 2 ^ order) order).
    { split_and!; [lia|lia|lia|]. unfold aligned. by apply Z.mod_mul; lia. }
    destruct (Z.leb_spec (q * 2 ^ order + 2 ^ order) bits) as [Hfit|Hend].
    + destruct (__reg_op_isfree m _ order Hm Hr ltac:(lia)) as (f & -> & [(-> & Hfree)|(-> & Hset)]);
        cbn [mbind res_bind Z.eqb].
      * right. destruct (__reg_op_alloc m _ order Hm Hr ltac:(lia)) as (m' & -> & Hrange).
        cbn [mbind res_bind]. eexists. split; [done|]. right. cbn [fst snd].
        split; [lia|]. split; [lia|]. split; [apply Hr|]. split; [exact Hrange|]. split; [done|]. split; [done|].
        destruct Hrange as (Hl' & Hw' & Hb').
        destruct (bitmap_release_region_ok m' _ order Hw' Hr ltac:(lia)) as (m'' & -> & _ & _ & Hb'').
        eexists. split; [done|]. intros j Hj. rewrite Hb'', Hb' by done.
        case_decide; [|done]. by rewrite Hfree.
      * left. eexists. split; [done|]. split.
        { exists (q + 1). split_and!; [lia|lia|lia|]. intros p Hp' Hal.
          destruct (Z.ltb_spec p (q * 2 ^ order)); [apply Htaken; [lia|done]|].
          replace p with (q * 2 ^ order); [done|].
          unfold aligned in Hal. apply Z.mod_divide in Hal as [q' ->]; [|lia].
          assert (q <= q' < q + 1) by nia. f_equal. lia. }
        replace (q * 2 ^ order + 2 ^ order) with ((q + 1) * 2 ^ order) by lia.
        rewrite !Z.div_mul by lia. assert (q + 1 <= bits / 2 ^ order) by (apply Z.div_le_lower_bound; lia). lia.
    + right. eexists. split; [done|]. left. cbn [fst snd]. split_and!; [done..|].
      intros p Hp0 Hal Hfit. apply Htaken; [|done]. split; [done|].
      unfold aligned in Hal. apply Z.mod_divide in Hal as [q' ->]; [|lia]. nia.
  - exists 0. split_and!; [lia..|]. intros p. lia.
  - rewrite Z.div_0_l by lia. lia.
Qed.

(** Order 2 in a map whose first region is partly taken. *)
Lemma bitmap_find_free_region_witness :
  holds [0x12] 64 /\ bitmap_find_free_region [0x12] 64 2 = Ok (8, [0xf12]) /\
  exists r m', bitmap_find_free_region [0x12] 64 2 = Ok (r, m') /\
    ((r = - ENOMEM /\ m' = [0x12] /\
      forall p, 0 <= p -> aligned 2 p -> p + 2 ^ 2 <= 64 -> region_taken [0x12] p 2) \/
     (0 <= r /\ r + 2 ^ 2 <= 64 /\ aligned 2 r /\ range_is [0x12] m' r (r + 2 ^ 2) true /\
      (forall j, r <= j < r + 2 ^ 2 -> bit [0x12] j = false) /\
      (forall p, 0 <= p < r -> aligned 2 p -> region_taken [0x12] p 2) /\
      exists m'', bitmap_release_region m' r 2 = Ok m'' /\ forall j, 0 <= j -> bit m'' j = bit [0x12] j)).
Proof.
  assert (H : holds [0x12] 64).
  { split; [repeat constructor; lia|]. cbn. lia. }
  split; [exact H|]. split; [vm_compute; reflexivity|].
  apply (bitmap_find_free_region_ok [0x12] 64 2 H); lia.
Defined.
