(* ===== verification/BitmapMap.v ===== *)
(** Ordinals of set bits, and the maps between bitmaps built on them. *)
From S2P Require Import Prelude FindBitDefs FindBit BitmapDefs Bitmap BitmapWeight BitmapMapDefs.

(** ** Counting *)

(** The number of set bits below position [p]. *)
Definition rank (m : list Z) (p : Z) : Z := count (bit m) (Z.to_nat p).

Lemma count_S P n : count P (S n) = count P n + Z.b2z (P (Z.of_nat n)).
Proof. cbn [count]. lia. Qed.

Lemma rank_succ m p : 0 <= p -> rank m (p + 1) = rank m p + Z.b2z (bit m p).
Proof.
  intros Hp. unfold rank. replace (Z.to_nat (p + 1)) with (S (Z.to_nat p)) by lia.
  rewrite count_S. by rewrite Z2Nat.id.
Qed.

Lemma rank_0 m : rank m 0 = 0.
Proof. done. Qed.

Lemma rank_mono m p q : 0 <= p <= q -> rank m p <= rank m q.
Proof.
  intros Hpq. replace q with (p + Z.of_nat (Z.to_nat (q - p))) by lia.
  induction (Z.to_nat (q - p)) as [|n IH]; [rewrite Z.add_0_r; lia|].
  replace (p + Z.of_nat (S n)) with (p + Z.of_nat n + 1) by lia. rewrite rank_succ by lia.
  destruct (bit m _); cbn; lia.
Qed.

Lemma rank_gap m p q : 0 <= p <= q -> (forall j, p <= j < q -> bit m j = false) -> rank m q = rank m p.
Proof.
  intros Hpq. replace q with (p + Z.of_nat (Z.to_nat (q - p))) by lia.
  induction (Z.to_nat (q - p)) as [|n IH]; intros Hz; [by rewrite Z.add_0_r|].
  replace (p + Z.of_nat (S n)) with (p + Z.of_nat n + 1) by lia.
  rewrite rank_succ, Hz, IH by (lia || (intros j Hj; apply Hz; lia)). cbn. lia.
Qed.

Lemma rank_le m p : 0 <= p -> 0 <= rank m p <= p.
Proof.
  intros Hp. rewrite <- (Z2Nat.id p) by done. induction (Z.to_nat p) as [|n IH]; [done|].
  rewrite Nat2Z.inj_succ, <- Z.add_1_r, rank_succ by lia. destruct (bit m _); cbn; lia.
Qed.

(** Different set bits have different ranks. *)
Lemma rank_inj m p q : 0 <= p -> 0 <= q -> bit m p = true -> bit m q = true -> rank m p = rank m q -> p = q.
Proof.
  intros Hp Hq Bp Bq E. destruct (Z.lt_trichotomy p q) as [H|[H|H]]; [exfalso|done|exfalso].
  - pose proof (rank_mono m (p + 1) q ltac:(lia)). rewrite rank_succ, Bp in H0 by done. cbn in H0. lia.
  - pose proof (rank_mono m (q + 1) p ltac:(lia)). rewrite rank_succ, Bq in H0 by done. cbn in H0. lia.
Qed.

(** ** Walking over the set bits *)

(** [p] is the next set bit of [m] from [q] on, or [bits]. *)
Lemma find_next_ok m bits q : holds m bits -> 0 <= q <= bits ->
  exists p, find_next_bit m bits q = Ok p /\ first_from (bit m) bits q p.
Proof.
  intros H Hq. eexists. split; [apply find_next_bit_ok; [done|]|by apply next_ref_first; lia].
  destruct H as (_ & Hs & Hmax). lia.
Qed.

Lemma find_first_ok m bits : holds m bits ->
  exists p, find_first_bit m bits = Ok p /\ first_from (bit m) bits 0 p.
Proof.
  intros H. eexists. split; [by apply find_first_bit_ok|]. apply next_ref_first. apply H.
Qed.

(** The loop body runs on the set bits in increasing order: an invariant that
    holds up to a position is carried over the zero bits as it is. *)
Lemma for_each_set_bit_inv {S} (I : Z -> S -> Prop) m bits (body : Z -> S -> res S) s :
  holds m bits -> I 0 s ->
  (forall p s, 0 <= p < bits -> bit m p = false -> I p s -> I (p + 1) s) ->
  (forall p s, 0 <= p < bits -> bit m p = true -> I p s -> exists s', body p s = Ok s' /\ I (p + 1) s') ->
  exists s', for_each_set_bit m bits body s = Ok s' /\ I bits s'.
Proof.
  intros H H0 Hz Ho. pose proof (proj1 (proj1 (proj2 H))) as Hb.
  assert (Hskip : forall p q s, 0 <= p <= q -> q <= bits ->
            (forall j, p <= j < q -> bit m j = false) -> I p s -> I q s).
  { intros p q s' Hpq Hqb. replace q with (p + Z.of_nat (Z.to_nat (q - p))) in * by lia.
    induction (Z.to_nat (q - p)) as [|n IH]; intros Hj HI; [by rewrite Z.add_0_r|].
    replace (p + Z.of_nat (Datatypes.S n)) with (p + Z.of_nat n + 1) in * by lia.
    apply Hz; [lia|apply Hj; lia|]. apply IH; [lia|lia| |done]. intros j Hj'. apply Hj. lia. }
  unfold for_each_set_bit. destruct (find_first_ok m bits H) as (p & -> & Hp & Hgap & Hone).
  rewrite res_bind_ok.
  apply (loop_total _ (fun st : Z * S => 0 <= st.1 <= bits /\ (st.1 < bits -> bit m st.1 = true) /\ I st.1 st.2)
           _ (fun st => Z.to_nat (bits - st.1))).
  - intros [i t] (Hi & Hbit & HI). cbn [fst snd] in *. unfold for_each_step.
    destruct (Z.ltb_spec i bits) as [Hlt|Hge].
    + left. destruct (Ho i t) as (t' & -> & HI'); [lia|auto|done|]. rewrite res_bind_ok.
      destruct (find_next_ok m bits (i + 1) H) as (q & -> & Hq & Hgap' & Hone'); [lia|].
      rewrite res_bind_ok. eexists. split; [done|]. cbn [fst snd]. split; [|lia].
      split; [lia|]. split; [done|]. eapply Hskip; [|lia|exact Hgap'|done]. lia.
    + right. eexists. split; [done|]. by replace bits with i by lia.
  - cbn [fst snd]. split; [lia|]. split; [done|]. eapply Hskip; [|lia|exact Hgap|done]. lia.
  - cbn [fst snd]. lia.
Qed.

(** ** Ordinals *)

Lemma bitmap_pos_to_ord_ok m pos bits :
  holds m bits ->
  bitmap_pos_to_ord m pos bits =
    Ok (if (0 <=? pos) && (pos <? bits) && bit m pos then rank m pos else -1).
Proof.
  intros H. pose proof H as (Hm & Hs & Hmax). unfold bitmap_pos_to_ord. rewrite Z.geb_leb.
  destruct (Z.ltb_spec pos 0).
  { cbn [orb]. by rewrite (proj2 (Z.leb_gt _ _)). }
  destruct (Z.leb_spec bits pos).
  { cbn [orb]. by rewrite (proj2 (Z.ltb_ge _ _)), andb_false_r. }
  cbn [orb]. rewrite (proj2 (Z.leb_le _ _)), (proj2 (Z.ltb_lt _ _)) by done. cbn [andb].
  rewrite test_bit_ok, res_bind_ok by lia. destruct (bit m pos) eqn:Hbit; cbn [negb]; [|done].
  destruct (find_first_ok m bits H) as (i & -> & Hi & Hgap & Hone). rewrite res_bind_ok.
  assert (Hle : forall q r, first_from (bit m) bits q r -> q <= pos -> r <= pos).
  { intros q r (Hr & Hz & _) Hq. destruct (Z.leb_spec r pos); [done|]. rewrite Hz in Hbit; [done|lia]. }
  enough (exists r, loop (S (Z.to_nat bits)) (pos_to_ord_step m pos bits) (i, 0) = Ok r /\ r = rank m pos)
    as (r & -> & ->) by done.
  apply (loop_total _ (fun s => 0 <= s.1 <= pos /\ bit m s.1 = true /\ s.2 = rank m s.1) _
           (fun s => Z.to_nat (bits - s.1))).
  - intros [j ord] (Hj & Hjb & Ho). cbn [fst snd] in *. unfold pos_to_ord_step.
    destruct (Z.ltb_spec j pos) as [Hlt|Hge].
    + left. destruct (find_next_ok m bits (j + 1) H) as (q & -> & Hq); [lia|]. rewrite res_bind_ok.
      eexists. split; [done|]. cbn [fst snd]. pose proof (Hle _ _ Hq ltac:(lia)) as Hqp.
      destruct Hq as (Hq & Hz & Hone'). split; [|lia]. split; [lia|]. split; [apply Hone'; lia|].
      rewrite (rank_gap m (j + 1) q), rank_succ, Hjb by (done || lia). cbn. lia.
    + right. replace j with pos in * by lia. rewrite Z.eqb_refl. cbn. eauto.
  - cbn [fst snd]. pose proof (Hle 0 i ltac:(done) ltac:(lia)). split; [lia|]. split; [apply Hone; lia|].
    rewrite (rank_gap m 0 i) by (done || lia). done.
  - cbn [fst snd]. lia.
Qed.

Lemma bitmap_ord_to_pos_ok m ord bits :
  holds m bits ->
  exists r, bitmap_ord_to_pos m ord bits = Ok r /\
    ((0 <= r < bits /\ bit m r = true /\ rank m r = ord) \/
     (r = 0 /\ ~ 0 <= ord < rank m bits)).
Proof.
  intros H. pose proof H as (Hm & Hs & Hmax). unfold bitmap_ord_to_pos. rewrite Z.geb_leb.
  pose proof (rank_le m bits ltac:(lia)) as Hrb.
  destruct (Z.leb_spec 0 ord) as [H0|H0]; [|exists 0; split; [done|]; right; lia].
  destruct (Z.ltb_spec ord bits) as [H1|H1]; [|exists 0; split; [done|]; right; lia]. cbn [andb].
  destruct (find_first_ok m bits H) as (i & -> & Hi & Hgap & Hone). rewrite res_bind_ok.
  destruct (loop_total (ord_to_pos_step m bits)
    (fun s => 0 <= s.1 <= bits /\ (s.1 < bits -> bit m s.1 = true) /\ 0 <= s.2 /\ rank m s.1 + s.2 = ord)
    (fun r => 0 <= r.1 <= bits /\ (r.1 < bits -> bit m r.1 = true) /\ 0 <= r.2 /\ rank m r.1 + r.2 = ord /\
              (r.1 = bits \/ r.2 = 0))
    (fun s => Z.to_nat (bits - s.1))) with (fuel := S (Z.to_nat bits)) (s := (i, ord)) as ([j o] & -> & HQ).
  - intros [j o] (Hj & Hjb & Ho & Hsum). cbn [fst snd] in *. unfold ord_to_pos_step. rewrite Z.gtb_ltb.
    destruct (Z.ltb_spec j bits) as [Hlt|Hge].
    + cbn [andb]. destruct (Z.ltb_spec 0 o) as [Hpos|Hzero].
      * left. destruct (find_next_ok m bits (j + 1) H) as (q & -> & Hq & Hz & Hone'); [lia|].
        rewrite res_bind_ok. eexists. split; [done|]. cbn [fst snd]. split; [|lia].
        split; [lia|]. split; [done|]. split; [lia|].
        rewrite (rank_gap m (j + 1) q), rank_succ, Hjb by (done || lia || auto). cbn. lia.
      * right. eexists. split; [done|]. cbn [fst snd]. split_and!; [lia|lia|done|lia|done|lia].
    + right. eexists. split; [done|]. cbn [fst snd]. split_and!; [lia|lia|done|lia|done|lia].
  - cbn [fst snd]. split; [lia|]. split; [done|]. split; [lia|]. rewrite (rank_gap m 0 i), rank_0 by (done || lia). lia.
  - cbn [fst snd]. lia.
  - cbn [fst snd mbind res_bind] in *. destruct HQ as (Hj & Hjb & Ho & Hsum & Hex).
    eexists. split; [done|]. destruct (Z.ltb_spec j bits) as [Hlt|Hge]; cbn [andb].
    + destruct Hex as [-> | ->]; [lia|]. cbn [Z.eqb]. left. split; [lia|]. split; [auto|lia].
    + right. split; [done|]. replace j with bits in * by lia. lia.
Qed.

(** [bitmap_pos_to_ord] and [bitmap_ord_to_pos] are inverse to each other:
    the position of the [ord]-th set bit has ordinal [ord], and a set bit is the
    one its ordinal leads back to. *)
Theorem pos_ord_roundtrip m bits :
  holds m bits ->
  (forall pos, 0 <= pos < bits -> bit m pos = true ->
     exists ord, bitmap_pos_to_ord m pos bits = Ok ord /\ bitmap_ord_to_pos m ord bits = Ok pos) /\
  (forall ord w, __bitmap_weight m bits = Ok w -> 0 <= ord < w ->
     exists pos, bitmap_ord_to_pos m ord bits = Ok pos /\ bit m pos = true /\
       bitmap_pos_to_ord m pos bits = Ok ord).
Proof.
  intros H. split.
  - intros pos Hp Hbit. exists (rank m pos). split.
    { rewrite bitmap_pos_to_ord_ok by done. rewrite Hbit. rewrite (proj2 (Z.leb_le _ _)), (proj2 (Z.ltb_lt _ _)) by lia. done. }
    destruct (bitmap_ord_to_pos_ok m (rank m pos) bits H) as (r & -> & [(Hr & Hbr & Er)|(-> & Hno)]).
    + f_equal. apply (rank_inj m); done || lia.
    + exfalso. apply Hno. pose proof (rank_le m pos ltac:(lia)). split; [lia|].
      pose proof (rank_mono m (pos + 1) bits ltac:(lia)) as Hm. rewrite rank_succ, Hbit in Hm by lia. cbn in Hm. lia.
  - intros ord w Hw Ho. rewrite __bitmap_weight_ok in Hw by done. injection Hw as <-.
    destruct (bitmap_ord_to_pos_ok m ord bits H) as (r & -> & [(Hr & Hbr & Er)|(-> & Hno)]); [|by exfalso; apply Hno].
    exists r. split; [done|]. split; [done|]. rewrite bitmap_pos_to_ord_ok by done.
    rewrite Hbr, (proj2 (Z.leb_le _ _)), (proj2 (Z.ltb_lt _ _)) by lia. by rewrite Er.
Qed.

(** Bits 4, 7 and 70. *)
Lemma pos_ord_roundtrip_witness :
  holds [0x90; 0x40] 128 /\
  exists ord, bitmap_pos_to_ord [0x90; 0x40] 70 128 = Ok ord /\ bitmap_ord_to_pos [0x90; 0x40] ord 128 = Ok 70.
Proof.
  assert (H : holds [0x90; 0x40] 128).
  { split; [repeat constructor; lia|]. cbn. lia. }
  split; [exact H|]. apply (proj1 (pos_ord_roundtrip [0x90; 0x40] 128 H) 70); [lia|]. vm_compute. reflexivity.
Defined.

(** ** Maps between bitmaps *)

Lemma bitmap_zero_ok dst bits : holds dst bits ->
  exists dst', bitmap_zero dst bits = Ok dst' /\ holds dst' bits /\
    forall j, 0 <= j -> bit dst' j = if j <? 64 * Z.of_nat (BITS_TO_LONGS bits) then false else bit dst j.
Proof.
  intros H. pose proof (holds_longs dst bits H) as Hl. pose proof H as (Hw & Hs & Hmax).
  destruct (zero_words_ok dst 0 (BITS_TO_LONGS bits) Hw) as (d & Hd & Hld & Hwd & Hz); [lia|].
  exists d. split; [done|]. split; [split_and!; [done|lia..]|].
  intros j Hj. rewrite !bit_wordn, Hz. pose proof (bit_word_nat j Hj). pose proof (Z.mod_pos_bound j 64 ltac:(lia)).
  destruct (Z.ltb_spec j (64 * Z.of_nat (BITS_TO_LONGS bits))); case_decide; try lia; [apply Z.bits_0|done].
Qed.

Lemma set_bit_holds m bits p : holds m bits -> 0 <= p < bits ->
  exists m', __set_bit p m = Ok m' /\ holds m' bits /\ forall j, 0 <= j -> bit m' j = (j =? p) || bit m j.
Proof.
  intros (Hw & Hs & Hmax) Hp. destruct (__set_bit_ok m p Hw ltac:(lia)) as (m' & Hm' & Hw' & Hl' & Hb').
  exists m'. split; [done|]. split; [split_and!; [done|lia..]|done].
Qed.

(** [dst'] has, below [bits], exactly the bits [f] maps a bit of [src] to, and
    is unchanged from the end of its last word on. *)
Definition image_of (dst dst' src : list Z) (bits : Z) (f : Z -> option Z) : Prop :=
  holds dst' bits /\
  (forall j, 0 <= j < 64 * Z.of_nat (BITS_TO_LONGS bits) ->
     bit dst' j = true <-> exists i, 0 <= i < bits /\ bit src i = true /\ f i = Some j) /\
  (forall j, 64 * Z.of_nat (BITS_TO_LONGS bits) <= j -> bit dst' j = bit dst j).

(** A loop over [src] that sets the image of each of its bits. *)
Lemma for_each_image {S} (get : S -> list Z) (J : Z -> S -> Prop) dst0 src bits (f : Z -> option Z) body s :
  let dst := get s in
  holds dst0 bits -> holds src bits -> J 0 s -> holds dst bits ->
  (forall j, 0 <= j -> bit dst j = if j <? 64 * Z.of_nat (BITS_TO_LONGS bits) then false else bit dst0 j) ->
  (forall p s, 0 <= p < bits -> bit src p = false -> J p s -> J (p + 1) s) ->
  (forall p s, 0 <= p < bits -> bit src p = true -> J p s -> holds (get s) bits ->
     exists s', body p s = Ok s' /\ J (p + 1) s' /\ holds (get s') bits /\
       forall j, 0 <= j -> bit (get s') j = match f p with Some q => j =? q | None => false end || bit (get s) j) ->
  (forall p q, f p = Some q -> 0 <= p < bits -> bit src p = true -> 0 <= q < bits) ->
  exists s', for_each_set_bit src bits body s = Ok s' /\ image_of dst0 (get s') src bits f.
Proof.
  intros dst H0 Hsrc HJ Hd Hz Hskip Hbody Hrange.
  pose proof (longs_room bits ltac:(apply H0)) as Hroom.
  destruct (for_each_set_bit_inv (fun p s => J p s /\ holds (get s) bits /\
    (forall j, 0 <= j < 64 * Z.of_nat (BITS_TO_LONGS bits) ->
       bit (get s) j = true <-> exists i, 0 <= i < p /\ bit src i = true /\ f i = Some j) /\
    (forall j, 64 * Z.of_nat (BITS_TO_LONGS bits) <= j -> bit (get s) j = bit dst0 j)) src bits body s Hsrc)
    as (s' & Hf & _ & Hh & Hin & Hout).
  - split; [done|]. split; [done|]. split.
    + intros j Hj. rewrite Hz, (proj2 (Z.ltb_lt _ _)) by lia. split; [done|]. intros (i & Hi & _). lia.
    + intros j Hj. by rewrite Hz, (proj2 (Z.ltb_ge _ _)) by lia.
  - intros p t Hp Hbit (HJt & Ht & Hin & Hout). split; [by apply Hskip|]. split; [done|]. split; [|done].
    intros j Hj. rewrite Hin by done. split; intros (i & Hi & Hbi & Hfi); exists i; (split; [|done]); [lia|].
    destruct (decide (i = p)) as [->|]; [congruence|lia].
  - intros p t Hp Hbit (HJt & Ht & Hin & Hout).
    destruct (Hbody p t Hp Hbit HJt Ht) as (t' & -> & HJ' & Ht' & Hb'). eexists. split; [done|].
    split; [done|]. split; [done|]. split.
    + intros j Hj. rewrite Hb', orb_true_iff, Hin by lia. split.
      * intros [E|(i & Hi & Hbi & Hfi)]; [|exists i; split; [lia|done]].
        destruct (f p) as [q|] eqn:Efp; [|done]. apply Z.eqb_eq in E as ->. exists p. split; [lia|done].
      * intros (i & Hi & Hbi & Hfi). destruct (decide (i = p)) as [->|Hne].
        -- left. rewrite Hfi. apply Z.eqb_refl.
        -- right. exists i. split; [lia|done].
    + intros j Hj. rewrite Hb', Hout by lia. destruct (f p) as [q|] eqn:Efp; [|done].
      pose proof (Hrange p q Efp Hp Hbit). by rewrite (proj2 (Z.eqb_neq _ _)) by lia.
  - exists s'. split; [done|]. done.
Qed.

(** The position a bit is mapped to by [old] and [new]. *)
Definition remapped (old new : list Z) (bits oldbit newbit : Z) : Prop :=
  if (0 <=? oldbit) && (oldbit <? bits) && bit old oldbit && negb (rank new bits =? 0)
  then 0 <= newbit < bits /\ bit new newbit = true /\ rank new newbit = rank old oldbit mod rank new bits
  else newbit = oldbit.

Lemma bitmap_bitremap_ok oldbit old new bits :
  holds old bits -> holds new bits ->
  exists newbit, bitmap_bitremap oldbit old new bits = Ok newbit /\ remapped old new bits oldbit newbit.
Proof.
  intros Ho Hn. unfold bitmap_bitremap. rewrite __bitmap_weight_ok, res_bind_ok by done.
  fold (rank new bits). rewrite bitmap_pos_to_ord_ok, res_bind_ok by done. unfold remapped.
  pose proof (rank_le new bits ltac:(apply Hn)).
  destruct ((0 <=? oldbit) && (oldbit <? bits) && bit old oldbit) eqn:E; cbn [andb].
  2:{ cbn. by eexists. }
  pose proof (rank_le old oldbit ltac:(lia)). rewrite (proj2 (Z.ltb_ge _ _)) by lia. cbn [orb].
  destruct (Z.eqb_spec (rank new bits) 0) as [E0|E0]; cbn [negb]; [by eexists|].
  rewrite Z.rem_mod_nonneg by lia.
  destruct (bitmap_ord_to_pos_ok new (rank old oldbit mod rank new bits) bits Hn) as (r & -> & [Hr|(_ & Hno)]).
  - eexists. split; [done|]. naive_solver.
  - exfalso. apply Hno. apply Z.mod_pos_bound. lia.
Qed.

(** The pure map: [bitmap_bitremap] where it returns. *)
Definition remap_fun (old new : list Z) (bits oldbit : Z) : option Z :=
  match bitmap_bitremap oldbit old new bits with Ok p => Some p | _ => None end.

Lemma remapped_range old new bits i p :
  remapped old new bits i p -> 0 <= i < bits -> 0 <= p < bits.
Proof. unfold remapped. case_match; [naive_solver|by intros ->]. Qed.

Lemma bitmap_remap_ok dst src old new bits :
  holds dst bits -> holds src bits -> holds old bits -> holds new bits ->
  exists dst', bitmap_remap false dst src old new bits = Ok dst' /\
    image_of dst dst' src bits (remap_fun old new bits).
Proof.
  intros Hd Hs Ho Hn. unfold bitmap_remap.
  destruct (bitmap_zero_ok dst bits Hd) as (d & -> & Hdz & Hz). rewrite res_bind_ok.
  rewrite __bitmap_weight_ok, res_bind_ok by done. fold (rank new bits).
  apply (for_each_image (fun s => s) (fun _ _ => True) dst src bits (remap_fun old new bits)); [done..| |].
  - intros p s Hp Hbit _ Hh.
    destruct (bitmap_bitremap_ok p old new bits Ho Hn) as (q & Hq & Hr). unfold remap_fun. rewrite Hq.
    unfold bitmap_bitremap in Hq. rewrite __bitmap_weight_ok, res_bind_ok in Hq by done. fold (rank new bits) in Hq.
    destruct (bitmap_pos_to_ord old p bits) as [n| |]; try done. rewrite res_bind_ok. cbn [mbind res_bind] in Hq.
    destruct (set_bit_holds s bits q Hh) as (s' & Hs' & Hhs' & Hbs'); [by eapply remapped_range|].
    exists s'. split; [|done]. revert Hq. destruct ((n <? 0) || (rank new bits =? 0)); intros Hq.
    + by injection Hq as ->.
    + by rewrite Hq.
  - intros p q Hf Hp _. unfold remap_fun in Hf.
    destruct (bitmap_bitremap_ok p old new bits Ho Hn) as (q' & Hq & Hr). rewrite Hq in Hf. injection Hf as ->.
    by eapply remapped_range.
Qed.

Lemma bitmap_onto_ok dst orig relmap bits :
  holds dst bits -> holds orig bits -> holds relmap bits ->
  exists dst', bitmap_onto false dst orig relmap bits = Ok dst' /\
    image_of dst dst' relmap bits (fun n => if bit orig (rank relmap n) then Some n else None).
Proof.
  intros Hd Ho Hr. unfold bitmap_onto.
  destruct (bitmap_zero_ok dst bits Hd) as (d & -> & Hdz & Hz). rewrite res_bind_ok.
  destruct (for_each_image fst (fun p s => s.2 = rank relmap p) dst relmap bits
    (fun n => if bit orig (rank relmap n) then Some n else None)
    (fun n '(dst, m) =>
      b ← test_bit m orig;
      dst ← (if b : bool then __set_bit n dst else Ok dst);
      Ok (dst, m + 1)) (d, 0)) as ([d' m'] & -> & Him); [done..| | | |].
  - intros p [t k] Hp Hbit Hk. cbn [snd] in *. subst k. rewrite rank_succ, Hbit by lia. cbn. lia.
  - intros p [t k] Hp Hbit Hk Hh. cbn [fst snd] in *. subst k. pose proof (rank_le relmap p ltac:(lia)).
    rewrite test_bit_ok, res_bind_ok by (destruct Ho as (_ & ? & _); lia).
    destruct (bit orig (rank relmap p)).
    + destruct (set_bit_holds t bits p Hh Hp) as (t' & -> & Hh' & Hb'). rewrite res_bind_ok.
      eexists. split; [done|]. cbn [fst snd]. rewrite rank_succ, Hbit by lia. done.
    + rewrite res_bind_ok. eexists. split; [done|]. cbn [fst snd]. rewrite rank_succ, Hbit by lia. done.
  - intros p q Hf Hp _. case_match; [|done]. by injection Hf as ->.
  - cbn [mbind res_bind]. by eexists.
Qed.

Lemma bitmap_fold_ok dst orig sz bits :
  holds dst bits -> holds orig bits -> 0 < sz <= bits ->
  exists dst', bitmap_fold false dst orig sz bits = Ok dst' /\
    image_of dst dst' orig bits (fun i => Some (i mod sz)).
Proof.
  intros Hd Ho Hsz. unfold bitmap_fold.
  destruct (bitmap_zero_ok dst bits Hd) as (d & -> & Hdz & Hz). rewrite res_bind_ok.
  apply (for_each_image (fun s => s) (fun _ _ => True) dst orig bits (fun i => Some (i mod sz))); [done..| |].
  - intros p s Hp Hbit _ Hh. rewrite (proj2 (Z.eqb_neq _ _)) by lia. cbn [bug_on].
    rewrite Z.rem_mod_nonneg by lia. pose proof (Z.mod_pos_bound p sz ltac:(lia)).
    destruct (set_bit_holds s bits (p mod sz) Hh) as (s' & -> & Hh' & Hb'); [lia|]. by exists s'.
  - intros p q Hf _ _. injection Hf as <-. pose proof (Z.mod_pos_bound p sz ltac:(lia)). lia.
Qed.

(** The maps between bitmaps do what their comments say.
    [bitmap_remap] leaves in [dst] exactly the positions to which
    [bitmap_bitremap] sends the bits of [src], where the [n]-th set bit of [old]
    goes to the [n mod w]-th set bit of [new] ([w] its weight) and every other
    position to itself; [bitmap_onto] sets bit [n] iff it is the [m]-th set bit of
    [relmap] for an [m] that is set in [orig]; [bitmap_fold] sets the bits [i mod sz].
    No bit outside the words of [dst] changes. *)
Theorem bitmap_maps dst src old new sz bits :
  holds dst bits -> holds src bits -> holds old bits -> holds new bits -> 0 < sz <= bits ->
  (forall i, exists p, bitmap_bitremap i old new bits = Ok p /\ remapped old new bits i p) /\
  (exists dst', bitmap_remap false dst src old new bits = Ok dst' /\
     image_of dst dst' src bits (remap_fun old new bits)) /\
  (exists dst', bitmap_onto false dst src new bits = Ok dst' /\
     image_of dst dst' new bits (fun n => if bit src (rank new n) then Some n else None)) /\
  (exists dst', bitmap_fold false dst src sz bits = Ok dst' /\
     image_of dst dst' src bits (fun i => Some (i mod sz))).
Proof.
  intros Hd Hs Ho Hn Hsz. split; [intros i; by apply bitmap_bitremap_ok|].
  split; [by apply bitmap_remap_ok|]. split; [by apply bitmap_onto_ok|by apply bitmap_fold_ok].
Qed.

(** The example of the comment of [bitmap_remap]: bits 4-7 go to bits 12-15. *)
Lemma bitmap_maps_witness :
  holds [0xa2] 64 /\ holds [0xf0] 64 /\ holds [0xf000] 64 /\
  bitmap_remap false [0] [0xa2] [0xf0] [0xf000] 64 = Ok [0xa002] /\
  exists dst', bitmap_remap false [0] [0xa2] [0xf0] [0xf000] 64 = Ok dst' /\
     image_of [0] dst' [0xa2] 64 (remap_fun [0xf0] [0xf000] 64).
Proof.
  assert (H : forall w, word w -> holds [w] 64).
  { intros w Hw. split; [repeat constructor; apply Hw|]. cbn. lia. }
  split; [apply H; done|]. split; [apply H; done|]. split; [apply H; done|].
  split; [vm_compute; reflexivity|].
  apply (bitmap_maps [0] [0xa2] [0xf0] [0xf000] 10 64); try (apply H; done). lia.
Defined.
