(* ===== verification/TimerDefs.v ===== *)
(** The timer wheel of [kernel/time/timer.c].

    A timer is known by a number; [timers] holds the [timer_list] structures,
    [bases] the [tvec_base] structures by their address.  A list head of a
    vector is the list of the timers queued on it, so that unlinking an entry is
    removing its number from the lists of its base.  The on-stack list of
    [__run_timers] is the field [work_list].  Each function runs with the lock of
    its base held; the lock is dropped around a timer's function only, and what
    the function, or another cpu, does in that window is a list of operations of
    the timer interface. *)
From stdpp Require Import functions.
From S2P Require Import Prelude FindBitDefs.

(** ** Constants *)

Definition TVN_BITS : Z := 6.
Definition TVR_BITS : Z := 8.
Definition TVN_SIZE : Z := 64.
Definition TVR_SIZE : Z := 256.
Definition TVN_MASK : Z := TVN_SIZE - 1.
Definition TVR_MASK : Z := TVR_SIZE - 1.
Definition MAX_TVAL : Z := 2 ^ (TVR_BITS + 4 * TVN_BITS) - 1.
Definition NEXT_TIMER_MAX_DELTA : Z := 2 ^ 30 - 1.
Definition HZ : Z := 100.

Definition TIMER_DEFERRABLE : Z := 1.
Definition TIMER_IRQSAFE : Z := 2.
Definition TIMER_FLAG_MASK : Z := 3.

(** ** State *)

Abbreviation tid := nat (only parsing).

Record timer_list := mkTimer {
  pending : bool;          (* entry.next != NULL *)
  expires : Z;
  base : Z;                (* address of the tvec_base, with the flags in its low bits *)
  function : bool;         (* function != NULL *)
  slack : Z }.

Record tvec_base := mkBase {
  running_timer : option tid;
  timer_jiffies : Z;
  next_timer : Z;
  active_timers : Z;
  all_timers : Z;
  cpu : Z;
  tv1 : list (list tid);
  tv2 : list (list tid);
  tv3 : list (list tid);
  tv4 : list (list tid);
  tv5 : list (list tid);
  work_list : list tid }.

(** [fired] logs the calls of timer functions, with the timer's [expires] and
    [jiffies] at that moment; [kicked] the calls of [wake_up_nohz_cpu]. *)
Record world := mkWorld {
  jiffies : Z;
  timers : tid -> timer_list;
  bases : Z -> tvec_base;
  tvec_bases : Z -> Z;
  kicked : list Z;
  fired : list (tid * Z * Z) }.

Definition timer_pending (w : world) (timer : tid) : bool := pending (timers w timer).

(** *** Flags in the base pointer *)

Definition tbase_get_deferrable (b : Z) : bool := negb (Z.land b TIMER_DEFERRABLE =? 0).
Definition tbase_get_irqsafe (b : Z) : bool := negb (Z.land b TIMER_IRQSAFE =? 0).
Definition tbase_get_base (b : Z) : Z := Z.land b (lnot64 TIMER_FLAG_MASK).

(** *** Updates *)

Definition set_timer (w : world) (t : tid) (v : timer_list) : world :=
  mkWorld (jiffies w) (<[t := v]> (timers w)) (bases w) (tvec_bases w) (kicked w) (fired w).
Definition set_base (w : world) (a : Z) (b : tvec_base) : world :=
  mkWorld (jiffies w) (timers w) (<[a := b]> (bases w)) (tvec_bases w) (kicked w) (fired w).
Definition with_pending (t : timer_list) (p : bool) : timer_list :=
  mkTimer p (expires t) (base t) (function t) (slack t).
Definition with_expires (t : timer_list) (e : Z) : timer_list :=
  mkTimer (pending t) e (base t) (function t) (slack t).
Definition with_base (t : timer_list) (b : Z) : timer_list :=
  mkTimer (pending t) (expires t) b (function t) (slack t).

(** The vectors of a base: a pointer to one of [tv1] .. [tv5]. *)
Inductive tvsel : Type := TV1 | TV2 | TV3 | TV4 | TV5.

Definition tv (b : tvec_base) (s : tvsel) : list (list tid) :=
  match s with TV1 => tv1 b | TV2 => tv2 b | TV3 => tv3 b | TV4 => tv4 b | TV5 => tv5 b end.

Definition set_tv (b : tvec_base) (s : tvsel) (v : list (list tid)) : tvec_base :=
  let sel x old := if match s, x with TV1, TV1 | TV2, TV2 | TV3, TV3 | TV4, TV4 | TV5, TV5 => true | _, _ => false end
                   then v else old in
  mkBase (running_timer b) (timer_jiffies b) (next_timer b) (active_timers b) (all_timers b) (cpu b)
    (sel TV1 (tv1 b)) (sel TV2 (tv2 b)) (sel TV3 (tv3 b)) (sel TV4 (tv4 b)) (sel TV5 (tv5 b)) (work_list b).

(** [tv->vec[i]]. *)
Definition vec (b : tvec_base) (s : tvsel) (i : Z) : list tid := default [] (tv b s !! Z.to_nat i).
Definition set_vec (b : tvec_base) (s : tvsel) (i : Z) (l : list tid) : tvec_base :=
  set_tv b s (<[Z.to_nat i := l]> (tv b s)).

Definition with_clock (b : tvec_base) (tj : Z) : tvec_base :=
  mkBase (running_timer b) tj (next_timer b) (active_timers b) (all_timers b) (cpu b)
    (tv1 b) (tv2 b) (tv3 b) (tv4 b) (tv5 b) (work_list b).
Definition with_next (b : tvec_base) (n : Z) : tvec_base :=
  mkBase (running_timer b) (timer_jiffies b) n (active_timers b) (all_timers b) (cpu b)
    (tv1 b) (tv2 b) (tv3 b) (tv4 b) (tv5 b) (work_list b).
Definition with_counts (b : tvec_base) (active all : Z) : tvec_base :=
  mkBase (running_timer b) (timer_jiffies b) (next_timer b) active all (cpu b)
    (tv1 b) (tv2 b) (tv3 b) (tv4 b) (tv5 b) (work_list b).
Definition with_running (b : tvec_base) (t : option tid) : tvec_base :=
  mkBase t (timer_jiffies b) (next_timer b) (active_timers b) (all_timers b) (cpu b)
    (tv1 b) (tv2 b) (tv3 b) (tv4 b) (tv5 b) (work_list b).
Definition with_work (b : tvec_base) (l : list tid) : tvec_base :=
  mkBase (running_timer b) (timer_jiffies b) (next_timer b) (active_timers b) (all_timers b) (cpu b)
    (tv1 b) (tv2 b) (tv3 b) (tv4 b) (tv5 b) l.

(** [__list_del] of the entry of [t], wherever in the base it is linked. *)
Definition unlink (t : tid) (l : list tid) : list tid := filter (fun x => x <> t) l.
Definition unlink_base (t : tid) (b : tvec_base) : tvec_base :=
  mkBase (running_timer b) (timer_jiffies b) (next_timer b) (active_timers b) (all_timers b) (cpu b)
    (unlink t <$> tv1 b) (unlink t <$> tv2 b) (unlink t <$> tv3 b) (unlink t <$> tv4 b) (unlink t <$> tv5 b)
    (unlink t (work_list b)).

(** ** Operations *)

Definition timer_set_base (w : world) (timer : tid) (new_base : Z) : world :=
  let flags := Z.land (base (timers w timer)) TIMER_FLAG_MASK in
  set_timer w timer (with_base (timers w timer) (Z.lor new_base flags)).

Definition catchup_timer_jiffies (j : Z) (b : tvec_base) : tvec_base * bool :=
  if all_timers b =? 0 then (with_clock b j, true) else (b, false).

(** The list head [vec] chosen by [__internal_add_timer]. *)
Definition timer_vec (tj expires : Z) : tvsel * Z :=
  let idx := expires ⊖ tj in
  if idx <? TVR_SIZE then (TV1, Z.land expires TVR_MASK)
  else if idx <? 2 ^ (TVR_BITS + TVN_BITS) then
    (TV2, Z.land (shr64 expires TVR_BITS) TVN_MASK)
  else if idx <? 2 ^ (TVR_BITS + 2 * TVN_BITS) then
    (TV3, Z.land (shr64 expires (TVR_BITS + TVN_BITS)) TVN_MASK)
  else if idx <? 2 ^ (TVR_BITS + 3 * TVN_BITS) then
    (TV4, Z.land (shr64 expires (TVR_BITS + 2 * TVN_BITS)) TVN_MASK)
  else if s64 idx <? 0 then (TV1, Z.land tj TVR_MASK)
  else
    let expires := if idx >? MAX_TVAL then MAX_TVAL ⊕ tj else expires in
    (TV5, Z.land (shr64 expires (TVR_BITS + 3 * TVN_BITS)) TVN_MASK).

Definition __internal_add_timer (w : world) (a : Z) (timer : tid) : world :=
  let b := bases w a in
  let '(s, i) := timer_vec (timer_jiffies b) (expires (timers w timer)) in
  set_timer (set_base w a (set_vec b s i (vec b s i ++ [timer]))) timer
    (with_pending (timers w timer) true).

Section timers.

(** [tick_nohz_full_cpu] of [include/linux/tick.h]. *)
Variable tick_nohz_full_cpu : Z -> bool.

Definition internal_add_timer (w : world) (a : Z) (timer : tid) : world :=
  let w := set_base w a (fst (catchup_timer_jiffies (jiffies w) (bases w a))) in
  let w := __internal_add_timer w a timer in
  let b := bases w a in
  let e := expires (timers w timer) in
  let b :=
    if negb (tbase_get_deferrable (base (timers w timer))) then
      let b' := with_counts b (active_timers b + 1) (all_timers b) in
      if (active_timers b =? 0) || time_before e (next_timer b) then with_next b' e else b'
    else b in
  let b := with_counts b (active_timers b) (all_timers b + 1) in
  let w := set_base w a b in
  if negb (tbase_get_deferrable a) || tick_nohz_full_cpu (cpu b)
  then mkWorld (jiffies w) (timers w) (bases w) (tvec_bases w) (kicked w ++ [cpu b]) (fired w)
  else w.

(** [detach_timer]; [a] is the base on whose lists the timer is linked. *)
Definition detach_timer (w : world) (a : Z) (timer : tid) (clear_pending : bool) : world :=
  let w := set_base w a (unlink_base timer (bases w a)) in
  if clear_pending then set_timer w timer (with_pending (timers w timer) false) else w.

Definition detach_expired_timer (w : world) (a : Z) (timer : tid) : world :=
  let w := detach_timer w a timer true in
  let b := bases w a in
  let b := if negb (tbase_get_deferrable (base (timers w timer)))
           then with_counts b (active_timers b - 1) (all_timers b) else b in
  let b := with_counts b (active_timers b) (all_timers b - 1) in
  set_base w a (fst (catchup_timer_jiffies (jiffies w) b)).

Definition detach_if_pending (w : world) (a : Z) (timer : tid) (clear_pending : bool) : Z * world :=
  if negb (timer_pending w timer) then (0, w)
  else
    let w := detach_timer w a timer clear_pending in
    let b := bases w a in
    let b :=
      if negb (tbase_get_deferrable (base (timers w timer))) then
        let b := with_counts b (active_timers b - 1) (all_timers b) in
        if expires (timers w timer) =? next_timer b then with_next b (timer_jiffies b) else b
      else b in
    let b := with_counts b (active_timers b) (all_timers b - 1) in
    (1, set_base w a (fst (catchup_timer_jiffies (jiffies w) b))).

(** With the locks taken in turn the loop of [lock_timer_base] settles at
    once, unless the timer has no base, where it spins. *)
Definition lock_timer_base (w : world) (timer : tid) : res Z :=
  let a := tbase_get_base (base (timers w timer)) in
  if a =? 0 then NoFuel else Ok a.

(** [target] is the cpu chosen by [get_nohz_timer_target]. *)
Definition __mod_timer (w : world) (timer : tid) (e : Z) (pending_only : bool) (target : Z)
    : res (Z * world) :=
  bug_on (negb (function (timers w timer)))
    (a ← lock_timer_base w timer;
     let '(ret, w) := detach_if_pending w a timer false in
     if (ret =? 0) && pending_only then Ok (ret, w)
     else
       let new_base := tvec_bases w target in
       let '(a, w) :=
         if negb (a =? new_base) && negb (bool_decide (running_timer (bases w a) = Some timer))
         then (new_base, timer_set_base (timer_set_base w timer 0) timer new_base)
         else (a, w) in
       let w := set_timer w timer (with_expires (timers w timer) e) in
       Ok (ret, internal_add_timer w a timer)).

Definition mod_timer_pending (w : world) (timer : tid) (e target : Z) : res (Z * world) :=
  __mod_timer w timer e true target.

(** [slack] is an [int]; [delta / 256] rounds towards zero. *)
Definition apply_slack (j : Z) (timer : timer_list) (e : Z) : res Z :=
  let limit :=
    if slack timer >=? 0 then Some (e ⊕ slack timer)
    else
      let delta := s64 (e ⊖ j) in
      if delta <? 256 then None else Some (e ⊕ Z.quot delta 256) in
  match limit with
  | None => Ok e
  | Some expires_limit =>
      let mask := Z.lxor e expires_limit in
      if mask =? 0 then Ok e
      else
        bit ← find_last_bit [mask] BITS_PER_LONG;
        let mask := shl64 1 bit ⊖ 1 in
        Ok (Z.land expires_limit (lnot64 mask))
  end.

Definition mod_timer (w : world) (timer : tid) (e target : Z) : res (Z * world) :=
  e ← apply_slack (jiffies w) (timers w timer) e;
  if timer_pending w timer && (expires (timers w timer) =? e) then Ok (1, w)
  else __mod_timer w timer e false target.

Definition mod_timer_pinned (w : world) (timer : tid) (e target : Z) : res (Z * world) :=
  if (expires (timers w timer) =? e) && timer_pending w timer then Ok (1, w)
  else __mod_timer w timer e false target.

Definition add_timer (w : world) (timer : tid) (target : Z) : res world :=
  bug_on (timer_pending w timer)
    ('(_, w) ← mod_timer w timer (expires (timers w timer)) target; Ok w).

Definition add_timer_on (w : world) (timer : tid) (c : Z) : res world :=
  let new_base := tvec_bases w c in
  bug_on (timer_pending w timer || negb (function (timers w timer)))
    (a ← lock_timer_base w timer;
     let '(a, w) :=
       if negb (a =? new_base)
       then (new_base, timer_set_base (timer_set_base w timer 0) timer new_base)
       else (a, w) in
     Ok (internal_add_timer w a timer)).

Definition del_timer (w : world) (timer : tid) : res (Z * world) :=
  if timer_pending w timer then
    a ← lock_timer_base w timer; Ok (detach_if_pending w a timer true)
  else Ok (0, w).

Definition try_to_del_timer_sync (w : world) (timer : tid) : res (Z * world) :=
  a ← lock_timer_base w timer;
  if bool_decide (running_timer (bases w a) = Some timer) then Ok (-1, w)
  else Ok (detach_if_pending w a timer true).

(** ** The interface as a list of operations *)

Inductive timer_op : Type :=
| OpTick                                   (* do_timer: jiffies advances *)
| OpMod (timer : tid) (e target : Z)
| OpModPinned (timer : tid) (e target : Z)
| OpModPending (timer : tid) (e target : Z)
| OpAdd (timer : tid) (e target : Z)       (* timer->expires = e; add_timer(timer) *)
| OpAddOn (timer : tid) (e target : Z)     (* timer->expires = e; add_timer_on(timer, target) *)
| OpDel (timer : tid)
| OpTryDelSync (timer : tid).

Definition do_op (w : world) (op : timer_op) : res world :=
  match op with
  | OpTick => Ok (mkWorld (jiffies w ⊕ 1) (timers w) (bases w) (tvec_bases w) (kicked w) (fired w))
  | OpMod t e c => '(_, w) ← mod_timer w t e c; Ok w
  | OpModPinned t e c => '(_, w) ← mod_timer_pinned w t e c; Ok w
  | OpModPending t e c => '(_, w) ← mod_timer_pending w t e c; Ok w
  | OpAdd t e c =>
      bug_on (timer_pending w t) (add_timer (set_timer w t (with_expires (timers w t) e)) t c)
  | OpAddOn t e c =>
      bug_on (timer_pending w t) (add_timer_on (set_timer w t (with_expires (timers w t) e)) t c)
  | OpDel t => '(_, w) ← del_timer w t; Ok w
  | OpTryDelSync t => '(_, w) ← try_to_del_timer_sync w t; Ok w
  end.

Fixpoint do_ops (w : world) (ops : list timer_op) : res world :=
  match ops with [] => Ok w | op :: ops => w ← do_op w op; do_ops w ops end.

(** ** Running timers *)

(** [list_for_each_entry_safe(timer, tmp, &tv_list, entry)]. *)
Fixpoint cascade_list (w : world) (a : Z) (l : list tid) : res world :=
  match l with
  | [] => Ok w
  | timer :: l =>
      bug_on (negb (tbase_get_base (base (timers w timer)) =? a))
        (cascade_list (__internal_add_timer w a timer) a l)
  end.

Definition cascade (w : world) (a : Z) (s : tvsel) (index : Z) : res (Z * world) :=
  let l := vec (bases w a) s index in
  w ← cascade_list (set_base w a (set_vec (bases w a) s index [])) a l;
  Ok (index, w).

Definition INDEX (b : tvec_base) (n : Z) : Z :=
  Z.land (shr64 (timer_jiffies b) (TVR_BITS + n * TVN_BITS)) TVN_MASK.

(** What the function of a timer does, and what other cpus do meanwhile. *)
Variable fn : tid -> world -> list timer_op.

Definition call_timer_fn (w : world) (timer : tid) : res world :=
  let w := mkWorld (jiffies w) (timers w) (bases w) (tvec_bases w) (kicked w)
             (fired w ++ [(timer, expires (timers w timer), jiffies w)]) in
  do_ops w (fn timer w).

(** [while (!list_empty(head))]. *)
Definition expire_step (a : Z) (w : world) : res (world + world) :=
  match work_list (bases w a) with
  | [] => Ok (inr w)
  | timer :: _ =>
      let w := set_base w a (with_running (bases w a) (Some timer)) in
      let w := detach_expired_timer w a timer in
      w ← call_timer_fn w timer;
      Ok (inl w)
  end.

Definition cascades (w : world) (a : Z) (index : Z) : res world :=
  if negb (index =? 0) then Ok w
  else
    '(i, w) ← cascade w a TV2 (INDEX (bases w a) 0);
    if negb (i =? 0) then Ok w
    else
      '(i, w) ← cascade w a TV3 (INDEX (bases w a) 1);
      if negb (i =? 0) then Ok w
      else
        '(i, w) ← cascade w a TV4 (INDEX (bases w a) 2);
        if negb (i =? 0) then Ok w
        else '(_, w) ← cascade w a TV5 (INDEX (bases w a) 3); Ok w.

(** [while (time_after_eq(jiffies, base->timer_jiffies))]. *)
Definition run_step (a : Z) (w : world) : res (world + world) :=
  if time_after_eq (jiffies w) (timer_jiffies (bases w a)) then
    let index := Z.land (timer_jiffies (bases w a)) TVR_MASK in
    w ← cascades w a index;
    let b := with_clock (bases w a) (timer_jiffies (bases w a) ⊕ 1) in
    let b := with_work (set_vec b TV1 index []) (vec b TV1 index) in
    w ← loop (S (length (work_list b))) (expire_step a) (set_base w a b);
    Ok (inl w)
  else Ok (inr (set_base w a (with_running (bases w a) None))).

Definition __run_timers (fuel : nat) (w : world) (a : Z) : res world :=
  let '(b, empty) := catchup_timer_jiffies (jiffies w) (bases w a) in
  let w := set_base w a b in
  if empty : bool then Ok w else loop fuel (run_step a) w.

End timers.
