(* ===== verification/TimerWheel.v ===== *)
(** Arithmetic of the wheel: which list head [timer_vec] chooses, and how long
    a timer may stay on a list as the clock of its base advances.

    Times are unbounded here: [T] is the clock of the base, [E] an expiry, and
    the machine words are [u64 T] and [u64 E]. *)
From stdpp Require Import functions.
From S2P Require Import Prelude FindBitDefs FindBit TimerDefs.

Definition shift (s : tvsel) : Z :=
  match s with TV1 => 0 | TV2 => 8 | TV3 => 14 | TV4 => 20 | TV5 => 26 end.
Definition vsize (s : tvsel) : Z := match s with TV1 => 256 | _ => 64 end.

#[global] Instance tvsel_eq_dec : EqDecision tvsel.
Proof. solve_decision. Defined.

(** The next multiple of [2 ^ k] that the clock [T] reaches, counted in units
    of [2 ^ k]. *)
Definition turn (T k : Z) : Z := (T - 1) / 2 ^ k + 1.

(** A timer that expires at [E] may be on list [i] of vector [s] when the clock
    is [T]: on [tv1] it expires within a revolution, or is overdue and on the
    list that is next; on a higher vector its list is reached not after it is
    due, and within a revolution. *)
Definition slot_ok (s : tvsel) (i T E : Z) : Prop :=
  match s with
  | TV1 => (T <= E < T + 256 /\ i = E mod 256) \/ (E < T /\ i = T mod 256)
  | _ => exists e, e <= E /\ (s <> TV5 -> e = E) /\
           turn T (shift s) <= e / 2 ^ shift s < turn T (shift s) + 64 /\
           i = (e / 2 ^ shift s) mod 64
  end.

(** The list that is emptied when the clock is [T]. *)
Definition turns (s : tvsel) (i T : Z) : Prop :=
  (2 ^ shift s | T) /\ i = (T / 2 ^ shift s) mod vsize s.

Lemma shift_pos s : 0 <= shift s <= 26.
Proof. destruct s; cbn; lia. Qed.

Lemma turn_next T k : 0 <= k -> turn (T + 1) k = T / 2 ^ k + 1.
Proof. intros. unfold turn. do 2 f_equal. lia. Qed.

Lemma turn_divide T k : 0 <= k -> (2 ^ k | T) -> turn T k = T / 2 ^ k.
Proof.
  intros Hk [q ->]. unfold turn. rewrite Z.div_mul by lia.
  assert (2 ^ k <> 0) by lia. assert (0 < 2 ^ k) by lia.
  replace ((q * 2 ^ k - 1) / 2 ^ k) with (q - 1); [lia|]. apply Z.div_unique with (2 ^ k - 1); lia.
Qed.

Lemma turn_not_divide T k : 0 <= k -> ~ (2 ^ k | T) -> turn T k = T / 2 ^ k + 1.
Proof.
  intros Hk Hnd. unfold turn. f_equal. assert (0 < 2 ^ k) by lia.
  pose proof (Z.div_mod T (2 ^ k)) as Hd. pose proof (Z.mod_pos_bound T (2 ^ k)) as Hm.
  assert (T mod 2 ^ k <> 0).
  { intros H0. apply Hnd. exists (T / 2 ^ k). lia. }
  symmetry. apply Z.div_unique with (T mod 2 ^ k - 1); lia.
Qed.

(** *** Time passes *)

Lemma slot_ok_advance s i T E : slot_ok s i T E -> ~ turns s i T -> slot_ok s i (T + 1) E.
Proof.
  intros H Hn. destruct (decide (s = TV1)) as [->|Hs].
  - unfold turns in Hn. cbn in *. rewrite Z.div_1_r in Hn.
    assert (i <> T mod 256) by (intros ->; apply Hn; split; [apply Z.divide_1_l|done]).
    destruct H as [[H ->]|[H ->]]; [|done]. left. split; [|done].
    assert (E <> T) by (intros ->; done). lia.
  - assert (vsize s = 64) as Ev by (by destruct s). unfold turns in Hn. rewrite Ev in Hn.
    pose proof (shift_pos s) as Hsh.
    assert (Hgen : exists e, e <= E /\ (s <> TV5 -> e = E) /\
      turn T (shift s) <= e / 2 ^ shift s < turn T (shift s) + 64 /\ i = (e / 2 ^ shift s) mod 64)
      by (by destruct s).
    enough (exists e, e <= E /\ (s <> TV5 -> e = E) /\
      turn (T + 1) (shift s) <= e / 2 ^ shift s < turn (T + 1) (shift s) + 64 /\
      i = (e / 2 ^ shift s) mod 64) by (by destruct s).
    destruct Hgen as (e & He & He5 & Hr & Hi). exists e. split_and!; [done|done| | |done];
      rewrite turn_next by lia;
      (destruct (Z.eq_dec (T mod 2 ^ shift s) 0) as [Hd|Hd]; rewrite Z.mod_divide in Hd by lia;
       [rewrite turn_divide in Hr by (done || lia)|rewrite turn_not_divide in Hr by (done || lia); lia]);
      [|lia].
    destruct (decide (e / 2 ^ shift s = T / 2 ^ shift s)) as [Heq|]; [|lia].
    exfalso. apply Hn. split; [done|]. by rewrite Hi, Heq.
Qed.

(** A timer on the list of [tv1] that is next is due. *)
Lemma slot_ok_due T E : slot_ok TV1 (T mod 256) T E -> E <= T.
Proof.
  cbn. intros [[H Hi]|[H _]]; [|lia].
  destruct (Z.eq_dec E T) as [->|Hne]; [lia|]. exfalso.
  assert (E mod 256 = (T + (E - T)) mod 256) as Hm by (f_equal; lia).
  rewrite <- Hi in Hm. pose proof (Z.div_mod T 256). pose proof (Z.div_mod (T + (E - T)) 256). lia.
Qed.

(** A timer on a list that is cascaded is not overdue. *)
Lemma slot_ok_cascade s i T E : s <> TV1 -> slot_ok s i T E -> turns s i T -> T <= E.
Proof.
  intros Hs H [Hd Hi]. assert (vsize s = 64) as Ev by (by destruct s). rewrite Ev in Hi.
  pose proof (shift_pos s) as Hsh.
  assert (exists e, e <= E /\ (s <> TV5 -> e = E) /\
      turn T (shift s) <= e / 2 ^ shift s < turn T (shift s) + 64 /\ i = (e / 2 ^ shift s) mod 64)
    as (e & He & _ & Hr & Hi') by (by destruct s).
  rewrite turn_divide in Hr by (done || lia). rewrite Hi in Hi'.
  assert (e / 2 ^ shift s = T / 2 ^ shift s) as Heq.
  { pose proof (Z.div_mod (e / 2 ^ shift s) 64). pose proof (Z.div_mod (T / 2 ^ shift s) 64). lia. }
  destruct Hd as [q ->]. rewrite Z.div_mul in Heq by lia.
  assert (0 < 2 ^ shift s) by lia. pose proof (Z.div_mod e (2 ^ shift s)).
  pose proof (Z.mod_pos_bound e (2 ^ shift s)). nia.
Qed.

(** A timer on a coarse vector is not overdue. *)
Lemma slot_ok_late s i T E : s <> TV1 -> slot_ok s i T E -> T <= E.
Proof.
  intros Hs Hok. assert (He : exists e, e <= E /\ turn T (shift s) <= e / 2 ^ shift s) by (destruct s; naive_solver).
  destruct He as (e & HeE & Ht). unfold turn in Ht. pose proof (shift_pos s). assert (0 < 2 ^ shift s) by lia.
  pose proof (Z.mul_div_le e (2 ^ shift s)). pose proof (Z.mul_succ_div_gt (T - 1) (2 ^ shift s)). nia.
Qed.

(** *** Where a timer is put *)

Lemma u64_div_mod x k n : 0 <= k -> 0 <= n -> k + n <= 64 ->
  (u64 x / 2 ^ k) mod 2 ^ n = (x / 2 ^ k) mod 2 ^ n.
Proof.
  intros Hk Hn Hkn. unfold u64.
  replace (2 ^ 64) with (2 ^ k * 2 ^ (64 - k)) by (rewrite <- Z.pow_add_r by lia; f_equal; lia).
  rewrite Z.rem_mul_r by lia. rewrite (Z.mul_comm (2 ^ k)), Z.div_add by lia.
  rewrite (Z.div_small (x mod 2 ^ k)) by (apply Z.mod_pos_bound; lia). rewrite Z.add_0_l.
  replace (2 ^ (64 - k)) with (2 ^ n * 2 ^ (64 - k - n)) by (rewrite <- Z.pow_add_r by lia; f_equal; lia).
  rewrite Z.rem_mul_r by lia. by rewrite (Z.mul_comm (2 ^ n) (_ mod _)), Z.mod_add, Z.mod_mod by lia.
Qed.

Lemma land_mask_TVN x : Z.land x TVN_MASK = x mod 64.
Proof. change TVN_MASK with (Z.ones 6). by rewrite Z.land_ones by lia. Qed.
Lemma land_mask_TVR x : Z.land x TVR_MASK = x mod 256.
Proof. change TVR_MASK with (Z.ones 8). by rewrite Z.land_ones by lia. Qed.

Lemma slot_index x k : 0 <= k <= 26 -> Z.land (shr64 (u64 x) k) TVN_MASK = (x / 2 ^ k) mod 64.
Proof.
  intros Hk. rewrite land_mask_TVN. unfold shr64. rewrite Z.shiftr_div_pow2 by lia.
  change 64 with (2 ^ 6). apply u64_div_mod; lia.
Qed.

Lemma slot_index_root x : Z.land (u64 x) TVR_MASK = x mod 256.
Proof.
  rewrite land_mask_TVR. pose proof (u64_div_mod x 0 8 ltac:(lia) ltac:(lia) ltac:(lia)) as H.
  by rewrite !Z.div_1_r in H.
Qed.

Lemma u64_sub T E : u64 E ⊖ u64 T = u64 (E - T).
Proof. unfold sub64, u64. by rewrite <- Zminus_mod. Qed.

Lemma u64_signed d : - 2 ^ 63 <= d < 2 ^ 63 -> s64 (u64 d) = d.
Proof.
  intros Hd. unfold s64, u64. rewrite Zplus_mod_idemp_l. rewrite Z.mod_small by lia. lia.
Qed.

Lemma u64_of_signed d : - 2 ^ 63 <= d < 2 ^ 63 -> u64 d = if d <? 0 then d + 2 ^ 64 else d.
Proof.
  intros Hd. unfold u64. destruct (Z.ltb_spec d 0).
  - symmetry. apply Z.mod_unique with (-1); lia.
  - apply Z.mod_small. lia.
Qed.

(** What holds of a list when it is chosen at clock [T]: the timer may stay
    there, and on the higher vectors also after this tick. *)
Definition slot_new (s : tvsel) (i T E : Z) : Prop :=
  0 <= i < vsize s /\ slot_ok s i T E /\ (s <> TV1 -> slot_ok s i (T + 1) E).

Lemma slot_new_high s T E e :
  s <> TV1 -> e <= E -> (s <> TV5 -> e = E) -> T + 2 ^ shift s <= e < T + 2 ^ (shift s + 6) ->
  slot_new s ((e / 2 ^ shift s) mod 64) T E.
Proof.
  intros Hs He He5 Hr. pose proof (shift_pos s) as Hsh. assert (0 < 2 ^ shift s) by lia.
  rewrite Z.pow_add_r in Hr by lia. change (2 ^ 6) with 64 in Hr.
  assert (H1 : T / 2 ^ shift s + 1 <= e / 2 ^ shift s).
  { replace (T / 2 ^ shift s + 1) with ((T + 1 * 2 ^ shift s) / 2 ^ shift s) by (rewrite Z.div_add; lia).
    apply Z.div_le_mono; lia. }
  assert (H2 : e / 2 ^ shift s <= (T - 1) / 2 ^ shift s + 64).
  { replace ((T - 1) / 2 ^ shift s + 64) with ((T - 1 + 64 * 2 ^ shift s) / 2 ^ shift s) by (rewrite Z.div_add; lia).
    apply Z.div_le_mono; lia. }
  assert (H3 : (T - 1) / 2 ^ shift s <= T / 2 ^ shift s) by (apply Z.div_le_mono; lia).
  assert (Hok : slot_ok s ((e / 2 ^ shift s) mod 64) T E /\ slot_ok s ((e / 2 ^ shift s) mod 64) (T + 1) E).
  { split; [enough (exists e', e' <= E /\ (s <> TV5 -> e' = E) /\
      turn T (shift s) <= e' / 2 ^ shift s < turn T (shift s) + 64 /\
      (e / 2 ^ shift s) mod 64 = (e' / 2 ^ shift s) mod 64) by (by destruct s)
    |enough (exists e', e' <= E /\ (s <> TV5 -> e' = E) /\
      turn (T + 1) (shift s) <= e' / 2 ^ shift s < turn (T + 1) (shift s) + 64 /\
      (e / 2 ^ shift s) mod 64 = (e' / 2 ^ shift s) mod 64) by (by destruct s)];
      exists e; (split; [done|]; split; [done|]; split; [|done]).
    - unfold turn. lia.
    - rewrite turn_next by lia. lia. }
  split; [|by split; [|intros _]; apply Hok].
  replace (vsize s) with 64 by (by destruct s). apply Z.mod_pos_bound. lia.
Qed.

Lemma timer_vec_ok T E s i :
  T - 2 ^ 63 <= E < T + 2 ^ 63 -> timer_vec (u64 T) (u64 E) = (s, i) -> slot_new s i T E.
Proof.
  intros HE. unfold timer_vec. rewrite u64_sub. set (d := E - T).
  assert (Hd : - 2 ^ 63 <= d < 2 ^ 63) by (unfold d; lia).
  rewrite u64_signed by done. rewrite u64_of_signed by done.
  assert (Eq : E = T + d) by (unfold d; lia). clearbody d.
  change TVR_SIZE with 256. change (2 ^ (TVR_BITS + TVN_BITS)) with (2 ^ 14).
  change (2 ^ (TVR_BITS + 2 * TVN_BITS)) with (2 ^ 20). change (2 ^ (TVR_BITS + 3 * TVN_BITS)) with (2 ^ 26).
  change (TVR_BITS + 2 * TVN_BITS) with 20. change (TVR_BITS + 3 * TVN_BITS) with 26.
  change (TVR_BITS + TVN_BITS) with 14. change TVR_BITS with 8. change MAX_TVAL with (2 ^ 32 - 1).
  destruct (Z.ltb_spec d 0) as [Hneg|Hpos].
  - rewrite !(proj2 (Z.ltb_ge _ _)) by lia. intros [= <- <-]. rewrite slot_index_root.
    split; [apply Z.mod_pos_bound; cbn; lia|]. split; [right; split; [lia|done]|done].
  - destruct (Z.ltb_spec d 256); [|destruct (Z.ltb_spec d (2 ^ 14)); [|destruct (Z.ltb_spec d (2 ^ 20));
      [|destruct (Z.ltb_spec d (2 ^ 26)); [|rewrite Z.gtb_ltb; destruct (Z.ltb_spec (2 ^ 32 - 1) d)]]]];
      intros [= <- <-].
    + rewrite slot_index_root. split; [apply Z.mod_pos_bound; cbn; lia|].
      split; [left; split; [lia|done]|done].
    + rewrite slot_index by lia. apply (slot_new_high TV2 T E E); cbn; done || lia.
    + rewrite slot_index by lia. apply (slot_new_high TV3 T E E); cbn; done || lia.
    + rewrite slot_index by lia. apply (slot_new_high TV4 T E E); cbn; done || lia.
    + replace (2 ^ 32 - 1 ⊕ u64 T) with (u64 (T + (2 ^ 32 - 1))).
      2:{ unfold add64, u64. rewrite Zplus_mod_idemp_r. f_equal. lia. }
      rewrite slot_index by lia. apply (slot_new_high TV5 T E (T + (2 ^ 32 - 1))); cbn; done || lia.
    + rewrite slot_index by lia. apply (slot_new_high TV5 T E E); cbn; done || lia.
Qed.
