(* ===== verification/TimerInv.v ===== *)
(** The invariant of the timer wheel, and that every operation of the timer
    interface preserves it. *)
From stdpp Require Import functions.
From S2P Require Import Prelude FindBitDefs FindBit TimerDefs TimerWheel.

(** ** Lists of a base *)

Lemma tv_set_tv b s v s' : tv (set_tv b s v) s' = if decide (s = s') then v else tv b s'.
Proof. by destruct s, s'. Qed.

Lemma vec_set_vec b s i l s' i' :
  0 <= i < Z.of_nat (length (tv b s)) -> 0 <= i' ->
  vec (set_vec b s i l) s' i' = if decide (s = s' /\ i = i') then l else vec b s' i'.
Proof.
  intros Hi Hi'. unfold vec, set_vec. rewrite tv_set_tv. destruct (decide (s = s')) as [<-|Hs].
  - destruct (decide (i = i')) as [<-|Hne].
    + rewrite decide_True by done. rewrite list_lookup_insert_eq by lia. done.
    + rewrite decide_False by naive_solver. rewrite list_lookup_insert_ne by lia. done.
  - rewrite decide_False by naive_solver. done.
Qed.

(** All timers linked on a base. *)
Definition elems (b : tvec_base) : list tid :=
  mjoin (tv1 b) ++ mjoin (tv2 b) ++ mjoin (tv3 b) ++ mjoin (tv4 b) ++ mjoin (tv5 b) ++ work_list b.

Lemma concat_insert_perm {A} (v : list (list A)) i old l :
  v !! i = Some old -> old ++ mjoin (<[i := l]> v) ≡ₚ l ++ mjoin v.
Proof.
  revert i. induction v as [|x v IH]; intros [|i] H; cbn in *; try done.
  - injection H as ->. solve_Permutation.
  - specialize (IH _ H). rewrite !(Permutation_app_swap_app _ x). by rewrite IH.
Qed.

Lemma vec_Some b s i :
  0 <= i < Z.of_nat (length (tv b s)) -> tv b s !! Z.to_nat i = Some (vec b s i).
Proof.
  intros Hi. unfold vec. destruct (lookup_lt_is_Some_2 (tv b s) (Z.to_nat i)) as [l Hl]; [lia|].
  by rewrite Hl.
Qed.

Lemma elems_set_vec b s i l :
  0 <= i < Z.of_nat (length (tv b s)) ->
  vec b s i ++ elems (set_vec b s i l) ≡ₚ l ++ elems b.
Proof.
  intros Hi. pose proof (concat_insert_perm _ _ _ l (vec_Some b s i Hi)) as Hp.
  unfold elems, set_vec. destruct s; cbn [set_tv tv1 tv2 tv3 tv4 tv5 work_list tv] in *;
    rewrite ?(Permutation_app_swap_app (mjoin (tv1 b))), ?(Permutation_app_swap_app (mjoin (tv2 b))),
      ?(Permutation_app_swap_app (mjoin (tv3 b))), ?(Permutation_app_swap_app (mjoin (tv4 b)));
    rewrite !(assoc_L (++)); rewrite Hp; solve_Permutation.
Qed.

Lemma vec_elem b s i t : t ∈ vec b s i -> t ∈ elems b.
Proof.
  intros H. unfold vec in H. destruct (tv b s !! Z.to_nat i) as [l|] eqn:E; cbn in H; [|by apply elem_of_nil in H].
  assert (Hc : t ∈ mjoin (tv b s)) by (apply list_elem_of_join; exists l; split; [done|by eapply list_elem_of_lookup_2]).
  unfold elems. rewrite !elem_of_app. destruct s; tauto.
Qed.

Lemma elems_cases b t : t ∈ elems b ->
  t ∈ work_list b \/ exists s i, 0 <= i < Z.of_nat (length (tv b s)) /\ t ∈ vec b s i.
Proof.
  intros H.
  assert (Hcase : forall s, t ∈ mjoin (tv b s) ->
            exists s i, 0 <= i < Z.of_nat (length (tv b s)) /\ t ∈ vec b s i).
  { intros s Hc. apply list_elem_of_join in Hc as (l & Ht & Hl).
    apply list_elem_of_lookup_1 in Hl as (k & Hk). exists s, (Z.of_nat k).
    pose proof (lookup_lt_Some _ _ _ Hk). split; [lia|]. unfold vec. by rewrite Nat2Z.id, Hk. }
  unfold elems in H. rewrite !elem_of_app in H.
  destruct H as [H|[H|[H|[H|[H|H]]]]]; [right..|by left].
  - by apply (Hcase TV1).
  - by apply (Hcase TV2).
  - by apply (Hcase TV3).
  - by apply (Hcase TV4).
  - by apply (Hcase TV5).
Qed.

Lemma concat_unlink t (v : list (list tid)) : mjoin (unlink t <$> v) = unlink t (mjoin v).
Proof.
  induction v as [|l v IH]; [done|]. rewrite fmap_cons.
  change (unlink t l ++ mjoin (unlink t <$> v) = unlink t (l ++ mjoin v)).
  rewrite IH. unfold unlink. by rewrite filter_app.
Qed.

Lemma elems_unlink t b : elems (unlink_base t b) = unlink t (elems b).
Proof. unfold elems. cbn. rewrite !concat_unlink. unfold unlink. by rewrite !filter_app. Qed.

Lemma vec_unlink t b s i : vec (unlink_base t b) s i = unlink t (vec b s i).
Proof.
  unfold vec. replace (tv (unlink_base t b) s) with (unlink t <$> tv b s) by (by destruct s).
  rewrite list_lookup_fmap. by destruct (tv b s !! _).
Qed.

Lemma elem_of_unlink t x l : x ∈ unlink t l <-> x <> t /\ x ∈ l.
Proof. unfold unlink. by rewrite list_elem_of_filter. Qed.

Lemma unlink_notin t l : t ∉ l -> unlink t l = l.
Proof.
  induction l as [|x l IH]; intros Hn; [done|]. apply not_elem_of_cons in Hn as [Hx Hn].
  unfold unlink in *. rewrite filter_cons, decide_True by done. by rewrite IH.
Qed.

(** Unlinking removes exactly one entry. *)
Lemma unlink_perm t l : NoDup l -> t ∈ l -> l ≡ₚ t :: unlink t l.
Proof.
  intros Hn Ht. induction l as [|x l IH]; [by apply elem_of_nil in Ht|].
  apply NoDup_cons in Hn as [Hx Hn]. unfold unlink. rewrite filter_cons.
  destruct (decide (x = t)) as [->|Hne].
  - rewrite decide_False by naive_solver. f_equiv. fold (unlink t l).
    by rewrite unlink_notin.
  - rewrite decide_True by done. fold (unlink t l). apply elem_of_cons in Ht as [->|Ht]; [done|].
    rewrite IH at 1 by done. apply Permutation_swap.
Qed.

(** ** The invariant *)

(** How far a base may lag behind [jiffies], and an expiry lie from it. *)
Definition window : Z := 2 ^ 61.

(** Timer [t] has an expiry [E] near the clock for which [Q] holds. *)
Definition tok (tm : tid -> timer_list) (J T : Z) (t : tid) (Q : Z -> Prop) : Prop :=
  exists E, expires (tm t) = u64 E /\ T - window - 1 <= E <= J + window /\ Q E.

Lemma tok_mono tm J T t (Q Q' : Z -> Prop) : (forall E, Q E -> Q' E) -> tok tm J T t Q -> tok tm J T t Q'.
Proof. intros H (E & He & Hr & HQ). exists E. auto. Qed.

(** The clock of a base and the lists its timers are on. *)
Record wheel (J : Z) (tm : tid -> timer_list) (b : tvec_base) (T : Z) : Prop := {
  wh_clock : timer_jiffies b = u64 T;
  wh_lag : J - window <= T <= J + 1;
  wh_vec : forall s i t, 0 <= i -> t ∈ vec b s i -> tok tm J T t (slot_ok s i T);
  wh_work : forall t, t ∈ work_list b -> tok tm J (T - 1) t (fun E => E < T) }.

Definition nondef (tm : tid -> timer_list) (t : tid) : Prop :=
  tbase_get_deferrable (base (tm t)) = false.
#[global] Instance nondef_dec tm t : Decision (nondef tm t).
Proof. unfold nondef. apply _. Defined.

(** Base [b] at address [a]; [x] is a timer in the hands of an operation, on
    none of the lists. *)
Record base_inv (J : Z) (tm : tid -> timer_list) (b : tvec_base) (a : Z) (x : option tid) : Prop := {
  bi_len : forall s, length (tv b s) = Z.to_nat (vsize s);
  bi_nodup : NoDup (elems b);
  bi_mem : forall t, Some t <> x -> t ∈ elems b <-> pending (tm t) = true /\ tbase_get_base (base (tm t)) = a;
  bi_out : forall t, Some t = x -> t ∉ elems b;
  bi_all : all_timers b = Z.of_nat (length (elems b));
  bi_active : active_timers b = Z.of_nat (length (filter (nondef tm) (elems b)));
  bi_wheel : exists T, wheel J tm b T }.

Definition base_addr (a : Z) : Prop := 0 < a < 2 ^ 64 /\ Z.land a 3 = 0.

Record wf (J : Z) (w : world) (x : option tid) : Prop := {
  wf_now : jiffies w = u64 J;
  wf_addr : forall c, base_addr (tvec_bases w c);
  wf_init : forall t, function (timers w t) = true -> base_addr (tbase_get_base (base (timers w t)));
  wf_base : forall a, base_inv J (timers w) (bases w a) a x }.

(** *** Changing what the invariant does not mention *)

Definition same_lists (b b' : tvec_base) : Prop :=
  (forall s, tv b' s = tv b s) /\ work_list b' = work_list b.

Lemma same_lists_elems b b' : same_lists b b' -> elems b' = elems b.
Proof.
  intros [Hv Hw]. unfold elems. pose proof (Hv TV1). pose proof (Hv TV2). pose proof (Hv TV3).
  pose proof (Hv TV4). pose proof (Hv TV5). cbn in *. congruence.
Qed.

Lemma same_lists_vec b b' s i : same_lists b b' -> vec b' s i = vec b s i.
Proof. intros [Hv _]. unfold vec. by rewrite Hv. Qed.

Lemma wheel_same J tm b b' T :
  same_lists b b' -> timer_jiffies b' = timer_jiffies b -> wheel J tm b T -> wheel J tm b' T.
Proof.
  intros Hs Hc [H1 H2 H3 H4]. split; [congruence|done| |].
  - intros s i t Hi. rewrite (same_lists_vec b b') by done. auto.
  - destruct Hs as [_ ->]. auto.
Qed.

Lemma base_inv_same J tm b b' a x :
  same_lists b b' -> timer_jiffies b' = timer_jiffies b -> all_timers b' = all_timers b ->
  active_timers b' = active_timers b -> base_inv J tm b a x -> base_inv J tm b' a x.
Proof.
  intros Hs Hc Ha Hac [H1 H2 H3 H4 H5 H6 (T & H7)]. pose proof (same_lists_elems _ _ Hs) as He.
  split; rewrite ?He; [|done|done|done|congruence|congruence|].
  - intros s. destruct Hs as [-> _]. done.
  - exists T. by eapply wheel_same.
Qed.

(** *** The clock of an empty base catches up *)

Lemma elems_nil_vec b s i : elems b = [] -> vec b s i = [].
Proof.
  intros He. destruct (vec b s i) as [|t l] eqn:E; [done|].
  assert (t ∈ elems b) as Hin by (eapply vec_elem; rewrite E; by left). rewrite He in Hin.
  by apply elem_of_nil in Hin.
Qed.

Lemma elems_nil_work b : elems b = [] -> work_list b = [].
Proof. unfold elems. intros He. by repeat apply app_nil in He as [_ He]. Qed.

Lemma wheel_empty J tm b : elems b = [] -> wheel J tm (with_clock b (u64 J)) J.
Proof.
  intros He. split; [done|unfold window; lia| |].
  - intros s i t _ Ht. rewrite (same_lists_vec b), elems_nil_vec in Ht by done. by apply elem_of_nil in Ht.
  - intros t Ht. cbn in Ht. rewrite elems_nil_work in Ht by done. by apply elem_of_nil in Ht.
Qed.

Lemma catchup_wheel J tm b :
  all_timers b = Z.of_nat (length (elems b)) -> (exists T, wheel J tm b T) ->
  exists T, wheel J tm (fst (catchup_timer_jiffies (u64 J) b)) T.
Proof.
  intros Hall Hw. unfold catchup_timer_jiffies. destruct (Z.eqb_spec (all_timers b) 0) as [E|E]; [|done].
  exists J. apply wheel_empty. apply nil_length_inv. lia.
Qed.

Lemma catchup_same j b : same_lists b (fst (catchup_timer_jiffies j b)) /\
  all_timers (fst (catchup_timer_jiffies j b)) = all_timers b /\
  active_timers (fst (catchup_timer_jiffies j b)) = active_timers b.
Proof. unfold catchup_timer_jiffies. by case_match. Qed.

(** *** Framing: a change to a timer that is not on the base *)

Lemma tok_frame (tm tm' : tid -> timer_list) J T t Q :
  expires (tm' t) = expires (tm t) -> tok tm J T t Q -> tok tm' J T t Q.
Proof. intros He (E & H1 & H2). exists E. rewrite He. done. Qed.

Lemma wheel_frame J (tm tm' : tid -> timer_list) b T :
  (forall t, t ∈ elems b -> expires (tm' t) = expires (tm t)) -> wheel J tm b T -> wheel J tm' b T.
Proof.
  intros He [H1 H2 H3 H4]. split; [done|done| |].
  - intros s i t Hi Ht. eapply tok_frame; [|by apply H3]. apply He. by eapply vec_elem.
  - intros t Ht. eapply tok_frame; [|by apply H4]. apply He. unfold elems. rewrite !elem_of_app. tauto.
Qed.

Lemma filter_nondef_frame (tm tm' : tid -> timer_list) (l : list tid) :
  (forall t, t ∈ l -> base (tm' t) = base (tm t)) -> filter (nondef tm') l = filter (nondef tm) l.
Proof.
  induction l as [|x l IH]; intros H; [done|]. rewrite !filter_cons, IH by (intros t Ht; apply H; by right).
  assert (E : nondef tm' x <-> nondef tm x) by (unfold nondef; rewrite H; [done|by left]).
  destruct (decide (nondef tm x)) as [Hx|Hx].
  - by rewrite decide_True by tauto.
  - by rewrite decide_False by tauto.
Qed.

Lemma length_nondef_cons (tm : tid -> timer_list) t l :
  Z.of_nat (length (filter (nondef tm) (t :: l)))
  = Z.of_nat (length (filter (nondef tm) l)) + if tbase_get_deferrable (base (tm t)) then 0 else 1.
Proof.
  rewrite filter_cons. destruct (decide (nondef tm t)) as [H|H]; unfold nondef in H.
  - rewrite H. cbn [length]. lia.
  - apply not_false_is_true in H. rewrite H. lia.
Qed.

Lemma base_inv_frame J (tm tm' : tid -> timer_list) b a x x' :
  base_inv J tm b a x ->
  (forall t, t ∈ elems b -> tm' t = tm t) ->
  (forall t, Some t <> x' -> t ∉ elems b -> ~ (pending (tm' t) = true /\ tbase_get_base (base (tm' t)) = a)) ->
  (forall t, Some t = x' -> t ∉ elems b) ->
  base_inv J tm' b a x'.
Proof.
  intros [H1 H2 H3 H4 H5 H6 (T & H7)] Hsame Hout Hx. split; [done|done| |done|done| |].
  - intros t Ht. destruct (decide (t ∈ elems b)) as [Hin|Hno].
    + split; [intros _|done]. rewrite Hsame by done. destruct (decide (Some t = x)) as [E|E].
      * by apply H4 in E.
      * by apply H3.
    + split; [done|]. intros Hp. by apply Hout in Hno.
  - rewrite (filter_nondef_frame tm tm'); [done|]. intros t Ht. by rewrite Hsame.
  - exists T. eapply wheel_frame; [|done]. intros t Ht. by rewrite Hsame.
Qed.

(** ** Queueing *)

(** The list chosen for an expiry inside the window. *)
Lemma timer_vec_slot J tm b T t E :
  wheel J tm b T -> expires (tm t) = u64 E -> J - window <= E <= J + window ->
  slot_new (timer_vec (timer_jiffies b) (expires (tm t))).1 (timer_vec (timer_jiffies b) (expires (tm t))).2 T E.
Proof.
  intros Hw He Hr. rewrite (wh_clock _ _ _ _ Hw), He. pose proof (wh_lag _ _ _ _ Hw).
  destruct (timer_vec (u64 T) (u64 E)) as [s i] eqn:Ev. cbn [fst snd].
  apply timer_vec_ok; [unfold window in *; lia|done].
Qed.

Lemma vsize_len J tm b a x s i :
  base_inv J tm b a x -> 0 <= i < vsize s -> 0 <= i < Z.of_nat (length (tv b s)).
Proof. intros H Hi. rewrite (bi_len _ _ _ _ _ H). destruct s; cbn in *; lia. Qed.

(** Appending a timer to the list chosen for it. *)
Lemma wheel_add J tm b T t s i E :
  (forall s, length (tv b s) = Z.to_nat (vsize s)) ->
  wheel J tm b T -> expires (tm t) = u64 E -> T - window - 1 <= E <= J + window ->
  0 <= i < vsize s -> slot_ok s i T E ->
  wheel J tm (set_vec b s i (vec b s i ++ [t])) T.
Proof.
  intros Hlen [H1 H2 H3 H4] He Hr Hi Hslot.
  assert (Hi' : 0 <= i < Z.of_nat (length (tv b s))) by (rewrite Hlen; destruct s; cbn in *; lia).
  split; [done|done| |done].
  intros s' i' t' Hi0 Ht. rewrite vec_set_vec in Ht by done. case_decide as Hd; [|by apply H3].
  destruct Hd as [-> ->]. apply elem_of_app in Ht as [Ht|Ht]; [by apply H3|].
  apply list_elem_of_singleton in Ht as ->. exists E. done.
Qed.

Lemma elems_add b s i t : 0 <= i < Z.of_nat (length (tv b s)) ->
  elems (set_vec b s i (vec b s i ++ [t])) ≡ₚ t :: elems b.
Proof.
  intros Hi. pose proof (elems_set_vec b s i (vec b s i ++ [t]) Hi) as Hp.
  rewrite <- app_assoc in Hp. by apply Permutation_app_inv_l in Hp.
Qed.

(** The structural part of the invariant after queueing [t]. *)
Lemma base_inv_add J (tm : tid -> timer_list) b a t s i E :
  let tm' := <[t := with_pending (tm t) true]> tm in
  let b' := set_vec b s i (vec b s i ++ [t]) in
  let b'' := with_counts b' (active_timers b + if tbase_get_deferrable (base (tm t)) then 0 else 1)
               (all_timers b + 1) in
  base_inv J tm b a (Some t) -> tbase_get_base (base (tm t)) = a ->
  (forall T, wheel J tm b T -> slot_new s i T E) ->
  expires (tm t) = u64 E -> J - window <= E <= J + window ->
  base_inv J tm' b'' a None.
Proof.
  intros tm' b' b'' Hb Ha Hslot He Hr. destruct (bi_wheel _ _ _ _ _ Hb) as (T & Hw).
  destruct (Hslot T Hw) as (Hi & Hok & _). pose proof (vsize_len _ _ _ _ _ s i Hb Hi) as Hi'.
  pose proof (elems_add b s i t Hi') as Hp. change (elems b') with (elems b'') in Hp. fold b' in Hp.
  pose proof (bi_out _ _ _ _ _ Hb t eq_refl) as Hnot.
  assert (Hp' : elems b'' ≡ₚ t :: elems b) by exact Hp.
  assert (Hsame : forall t', t' <> t -> tm' t' = tm t') by (intros t' Hne; unfold tm'; by rewrite fn_lookup_insert_ne).
  assert (Ht : tm' t = with_pending (tm t) true) by (unfold tm'; by rewrite fn_lookup_insert).
  assert (Hexp : forall t', expires (tm' t') = expires (tm t') /\ base (tm' t') = base (tm t')).
  { intros t'. destruct (decide (t' = t)) as [->|Hne]; [by rewrite Ht|by rewrite Hsame]. }
  split.
  - intros s'. unfold b''. change (tv (with_counts ?b _ _) s') with (tv b s'). unfold b', set_vec.
    rewrite tv_set_tv. case_decide; subst; [rewrite length_insert|]; apply Hb.
  - rewrite Hp'. apply NoDup_cons. split; [done|apply Hb].
  - intros t' _. rewrite Hp', elem_of_cons. destruct (decide (t' = t)) as [->|Hne].
    + rewrite Ht. cbn. naive_solver.
    + rewrite Hsame by done. rewrite <- (bi_mem _ _ _ _ _ Hb t') by congruence. naive_solver.
  - done.
  - rewrite Hp'. cbn. rewrite (bi_all _ _ _ _ _ Hb). lia.
  - rewrite (filter_nondef_frame tm) by (intros; apply Hexp). rewrite Hp'. cbn [active_timers b'' with_counts].
    rewrite length_nondef_cons, (bi_active _ _ _ _ _ Hb). lia.
  - exists T. apply (wheel_same J _ b'); [done|done|].
    apply (wheel_frame J tm); [intros; apply Hexp|].
    eapply wheel_add; [apply Hb|done|done| |done|done]. pose proof (wh_lag _ _ _ _ Hw). lia.
Qed.

(** ** Dequeueing *)

Lemma base_inv_detach J (tm tm' : tid -> timer_list) b a t x :
  let b' := unlink_base t b in
  let b'' := with_counts b' (active_timers b - if tbase_get_deferrable (base (tm t)) then 0 else 1)
               (all_timers b - 1) in
  base_inv J tm b a None -> t ∈ elems b ->
  (forall t', t' <> t -> tm' t' = tm t') ->
  (Some t = x \/ (x = None /\ pending (tm' t) = false)) ->
  base_inv J tm' b'' a x.
Proof.
  intros b' b'' Hb Hin Hsame Hx. destruct (bi_wheel _ _ _ _ _ Hb) as (T & Hw).
  assert (He : elems b'' = unlink t (elems b)) by apply elems_unlink.
  pose proof (unlink_perm t (elems b) (bi_nodup _ _ _ _ _ Hb) Hin) as Hp.
  assert (Hnot : t ∉ elems b'') by (rewrite He, elem_of_unlink; tauto).
  split.
  - intros s. change (tv b'' s) with (tv b' s). unfold b'.
    replace (tv (unlink_base t b) s) with (unlink t <$> tv b s) by (by destruct s). rewrite length_fmap. apply Hb.
  - rewrite He. apply NoDup_filter, Hb.
  - intros t' Ht'. rewrite He, elem_of_unlink. destruct (decide (t' = t)) as [->|Hne].
    + destruct Hx as [Hx|[-> Hx]]; [done|]. rewrite Hx. naive_solver.
    + rewrite Hsame by done. rewrite (bi_mem _ _ _ _ _ Hb t') by done. tauto.
  - intros t' Ht'. destruct Hx as [Hx|[-> Hx]]; [|done]. assert (t' = t) as -> by congruence. done.
  - rewrite He. change (all_timers b'') with (all_timers b - 1). rewrite (bi_all _ _ _ _ _ Hb).
    rewrite Hp at 1. cbn [length]. lia.
  - rewrite He, (filter_nondef_frame tm tm').
    2:{ intros t' Ht'. apply elem_of_unlink in Ht' as [Hne _]. by rewrite Hsame. }
    change (active_timers b'') with (active_timers b - if tbase_get_deferrable (base (tm t)) then 0 else 1).
    rewrite (bi_active _ _ _ _ _ Hb). rewrite Hp at 1. rewrite length_nondef_cons. lia.
  - exists T. destruct Hw as [H1 H2 H3 H4]. split; [done|done| |].
    + intros s i t' Hi Ht'. rewrite (same_lists_vec b') in Ht' by done. unfold b' in Ht'.
      rewrite vec_unlink, elem_of_unlink in Ht'. destruct Ht' as [Hne Ht'].
      eapply tok_frame; [|by apply H3]. by rewrite Hsame.
    + intros t' Ht'. cbn in Ht'. apply elem_of_unlink in Ht' as [Hne Ht'].
      eapply tok_frame; [|by apply H4]. by rewrite Hsame.
Qed.

(** ** Operations on the world *)

Lemma catchup_inv J tm b a x :
  base_inv J tm b a x -> base_inv J tm (fst (catchup_timer_jiffies (u64 J) b)) a x.
Proof.
  intros Hb. destruct (catchup_same (u64 J) b) as (Hs & Ha & Hac).
  pose proof (same_lists_elems _ _ Hs) as He. destruct Hb as [H1 H2 H3 H4 H5 H6 H7].
  split; rewrite ?He; [|done|done|done|congruence|congruence|by apply catchup_wheel].
  intros s. destruct Hs as [-> _]. done.
Qed.

(** What an operation on timer [t] may change of a base: the clock moves only
    when no other timer is queued, and no other timer is linked or unlinked. *)
Record base_frame (j : Z) (t : tid) (b b' : tvec_base) : Prop := {
  bf_clock : timer_jiffies b' = timer_jiffies b \/
             (timer_jiffies b' = j /\ forall x, x ∈ elems b -> x = t);
  bf_work : work_list b' `sublist_of` work_list b;
  bf_work_keep : forall x, x <> t -> x ∈ work_list b -> x ∈ work_list b';
  bf_elems : forall x, x <> t -> x ∈ elems b' <-> x ∈ elems b }.

Lemma base_frame_trans j t b1 b2 b3 : base_frame j t b1 b2 -> base_frame j t b2 b3 -> base_frame j t b1 b3.
Proof.
  intros [H1 H2 H3 H4] [K1 K2 K3 K4]. split.
  - destruct K1 as [-> | [-> K1]]; [done|]. right. split; [done|]. intros x Hx.
    destruct (decide (x = t)) as [|Hne]; [done|]. apply K1. by apply H4.
  - by etrans.
  - auto.
  - intros x Hx. by rewrite K4, H4.
Qed.

Lemma same_lists_frame j t b b' : same_lists b b' -> timer_jiffies b' = timer_jiffies b -> base_frame j t b b'.
Proof.
  intros Hs Ht. pose proof (same_lists_elems _ _ Hs) as He. destruct Hs as [_ Hw].
  split; [by left|by rewrite Hw|by rewrite Hw|by rewrite He].
Qed.

#[global] Instance base_frame_refl j t : Reflexive (base_frame j t).
Proof. intros b. by apply same_lists_frame. Qed.

Lemma catchup_frame j t b :
  all_timers b = Z.of_nat (length (elems b)) -> base_frame j t b (fst (catchup_timer_jiffies j b)).
Proof.
  intros Ha. unfold catchup_timer_jiffies. destruct (Z.eqb_spec (all_timers b) 0) as [H0|]; [|reflexivity].
  assert (He : elems b = []) by (apply nil_length_inv; lia).
  split; [|done..]. right. split; [done|]. intros x. rewrite He. by intros ?%elem_of_nil.
Qed.

Lemma unlink_frame j t b : base_frame j t b (unlink_base t b).
Proof.
  split; [by left| | |].
  - apply sublist_filter.
  - intros x Hx Hin. cbn. by apply elem_of_unlink.
  - intros x Hx. rewrite elems_unlink, elem_of_unlink. tauto.
Qed.

Lemma add_frame j t b s i :
  0 <= i < Z.of_nat (length (tv b s)) -> base_frame j t b (set_vec b s i (vec b s i ++ [t])).
Proof.
  intros Hi. split; [by left|done|done|]. intros x Hx. rewrite elems_add by done.
  rewrite elem_of_cons. tauto.
Qed.

(** What an operation on timer [t] leaves alone. *)
Record op_frame (w w' : world) (t : tid) : Prop := {
  of_now : jiffies w' = jiffies w;
  of_bases : tvec_bases w' = tvec_bases w;
  of_fired : fired w' = fired w;
  of_timers : forall t', t' <> t -> timers w' t' = timers w t';
  of_base : forall a, base_frame (jiffies w) t (bases w a) (bases w' a) }.

#[global] Instance op_frame_refl t : Reflexive (fun w w' => op_frame w w' t).
Proof. done. Qed.

Lemma op_frame_trans w1 w2 w3 t : op_frame w1 w2 t -> op_frame w2 w3 t -> op_frame w1 w3 t.
Proof.
  intros [H1 H2 H3 H4 H5] [K1 K2 K3 K4 K5]. split; [congruence..| |].
  - intros t' Ht. by rewrite K4, H4.
  - intros a. eapply base_frame_trans; [apply H5|]. rewrite <- H1. apply K5.
Qed.

Lemma set_timer_frame w t v : op_frame w (set_timer w t v) t.
Proof. split; [done..| |done]. intros t' Ht. cbn. by rewrite fn_lookup_insert_ne. Qed.

Lemma internal_add_timer_wf nf J w a t E :
  wf J w (Some t) -> tbase_get_base (base (timers w t)) = a ->
  expires (timers w t) = u64 E -> J - window <= E <= J + window ->
  wf J (internal_add_timer nf w a t) None /\ op_frame w (internal_add_timer nf w a t) t /\
  timers (internal_add_timer nf w a t) t = with_pending (timers w t) true.
Proof.
  intros Hwf Ha He Hr. unfold internal_add_timer, __internal_add_timer.
  cbn [bases timers set_base jiffies]. rewrite fn_lookup_insert, (wf_now _ _ _ Hwf).
  set (b1 := fst (catchup_timer_jiffies (u64 J) (bases w a))).
  assert (Hb1 : base_inv J (timers w) b1 a (Some t)) by (apply catchup_inv, Hwf).
  destruct (timer_vec (timer_jiffies b1) (expires (timers w t))) as [s i] eqn:Ev.
  pose proof (base_inv_add J (timers w) b1 a t s i E Hb1 Ha) as Hadd.
  specialize (Hadd ltac:(intros T HT; pose proof (timer_vec_slot J (timers w) b1 T t E HT He Hr) as Hsl;
                         by rewrite Ev in Hsl) He Hr).
  cbn [bases timers set_base set_timer jiffies tvec_bases kicked fired]. rewrite !fn_lookup_insert.
  set (b2 := set_vec b1 s i (vec b1 s i ++ [t])) in *. cbn [base with_pending expires].
  set (b3 := if negb (tbase_get_deferrable (base (timers w t))) then _ else b2).
  assert (Hb3 : base_inv J (<[t:=with_pending (timers w t) true]> (timers w))
                  (with_counts b3 (active_timers b3) (all_timers b3 + 1)) a None).
  { eapply base_inv_same; [..|exact Hadd]; unfold b3;
      destruct (tbase_get_deferrable (base (timers w t))); cbn [negb]; repeat case_match; cbn; done || lia. }
  assert (Hs3 : same_lists b2 b3 /\ timer_jiffies b3 = timer_jiffies b2) by (unfold b3; by repeat case_match).
  destruct Hs3 as [Hs3 Hc3]. clearbody b3.
  assert (Hall : forall k, wf J (mkWorld (jiffies w) (<[t:=with_pending (timers w t) true]> (timers w))
     (<[a:=with_counts b3 (active_timers b3) (all_timers b3 + 1)]> (<[a:=b2]> (<[a:=b1]> (bases w))))
     (tvec_bases w) k (fired w)) None).
  { intros k. split; [apply Hwf|apply Hwf| |].
    { intros t'. cbn [timers]. destruct (decide (t' = t)) as [->|Hne].
      - rewrite fn_lookup_insert. apply (wf_init _ _ _ Hwf t).
      - rewrite fn_lookup_insert_ne by done. apply Hwf. }
    intros a'. cbn [timers bases].
    destruct (decide (a' = a)) as [->|Hne]; [by rewrite fn_lookup_insert|].
    rewrite !fn_lookup_insert_ne by done. eapply base_inv_frame; [apply Hwf|..].
    - intros t' Ht'. rewrite fn_lookup_insert_ne; [done|]. intros <-.
      by apply (bi_out _ _ _ _ _ (wf_base _ _ _ Hwf a') t).
    - intros t' _ Hno [Hp Hbase]. destruct (decide (t' = t)) as [->|Hne'].
      + rewrite fn_lookup_insert in Hbase. cbn in Hbase. congruence.
      + rewrite fn_lookup_insert_ne in Hp, Hbase by done. apply Hno.
        apply (bi_mem _ _ _ _ _ (wf_base _ _ _ Hwf a') t'); [congruence|done].
    - done. }
  assert (Hi : 0 <= i < Z.of_nat (length (tv b1 s))).
  { destruct (bi_wheel _ _ _ _ _ Hb1) as [T HT]. eapply vsize_len; [exact Hb1|].
    pose proof (timer_vec_slot J (timers w) b1 T t E HT He Hr) as Hsl. rewrite Ev in Hsl. apply Hsl. }
  assert (Hframe : forall a', base_frame (jiffies w) t (bases w a')
     ((<[a:=with_counts b3 (active_timers b3) (all_timers b3 + 1)]> (<[a:=b2]> (<[a:=b1]> (bases w)))) a')).
  { intros a'. destruct (decide (a' = a)) as [->|Hne]; [|by rewrite !fn_lookup_insert_ne].
    rewrite fn_lookup_insert, (wf_now _ _ _ Hwf).
    eapply base_frame_trans; [apply catchup_frame, (wf_base _ _ _ Hwf a)|]. fold b1.
    eapply base_frame_trans; [by apply (add_frame _ t b1 s i)|]. by apply same_lists_frame. }
  destruct (negb (tbase_get_deferrable a) || _); (split; [apply Hall|]);
    (split; [split; [done..| |done]; intros t' Ht'; cbn; by rewrite fn_lookup_insert_ne|cbn; by rewrite fn_lookup_insert]).
Qed.

Lemma catchup_running j b : running_timer (fst (catchup_timer_jiffies j b)) = running_timer b.
Proof. unfold catchup_timer_jiffies. by case_match. Qed.

(** Timer [t] leaves the lists of its base [a]; it is taken in hand ([x]), or
    is no longer pending. *)
Lemma unlinked_wf J w w' a t x b3 :
  wf J w None -> tbase_get_base (base (timers w t)) = a -> pending (timers w t) = true ->
  jiffies w' = jiffies w -> tvec_bases w' = tvec_bases w -> fired w' = fired w ->
  (forall t', t' <> t -> timers w' t' = timers w t') ->
  base (timers w' t) = base (timers w t) -> function (timers w' t) = function (timers w t) ->
  Some t = x \/ (x = None /\ pending (timers w' t) = false) ->
  (forall a', a' <> a -> bases w' a' = bases w a') ->
  same_lists (unlink_base t (bases w a)) b3 -> timer_jiffies b3 = timer_jiffies (bases w a) ->
  all_timers b3 = all_timers (bases w a) - 1 ->
  active_timers b3 = active_timers (bases w a) - (if tbase_get_deferrable (base (timers w t)) then 0 else 1) ->
  bases w' a = fst (catchup_timer_jiffies (jiffies w) b3) \/ bases w' a = b3 ->
  wf J w' x /\ op_frame w w' t.
Proof.
  intros Hwf Ha Hp Hj Htb Hfi Htm Hbt Hft Hx Hbs Hs3 Hc3 Hall3 Hact3 Hba.
  assert (Hin : t ∈ elems (bases w a)) by (by apply (wf_base _ _ _ Hwf a)).
  assert (Hb3 : base_inv J (timers w') b3 a x).
  { eapply base_inv_same; [..|exact (base_inv_detach J (timers w) (timers w') (bases w a) a t x
      (wf_base _ _ _ Hwf a) Hin Htm Hx)]; done. }
  split; split; [by rewrite Hj, (wf_now _ _ _ Hwf)|rewrite Htb; apply Hwf| | |done..| |].
  - intros t'. destruct (decide (t' = t)) as [->|Hne].
    + rewrite Hbt, Hft. apply Hwf.
    + rewrite Htm by done. apply Hwf.
  - intros a'. destruct (decide (a' = a)) as [->|Hne].
    { destruct Hba as [-> | ->]; [|done]. rewrite (wf_now _ _ _ Hwf). by apply catchup_inv. }
    rewrite Hbs by done. eapply base_inv_frame; [apply Hwf|..].
    + intros t' Ht'. apply Htm. intros ->.
      apply (bi_mem _ _ _ _ _ (wf_base _ _ _ Hwf a') t) in Ht' as [_ ?]; [congruence|done].
    + intros t' Hxt Hno [Hp' Hb']. destruct (decide (t' = t)) as [->|Hne'].
      * rewrite Hbt in Hb'. congruence.
      * rewrite Htm in Hp', Hb' by done. apply Hno. by apply (wf_base _ _ _ Hwf a').
    + intros t' Ht' Hin'. destruct Hx as [Hx|[-> _]]; [|done]. assert (t' = t) as -> by congruence.
      apply (bi_mem _ _ _ _ _ (wf_base _ _ _ Hwf a') t) in Hin' as [_ ?]; [congruence|done].
  - done.
  - intros a'. destruct (decide (a' = a)) as [->|Hne]; [|by rewrite Hbs].
    eapply base_frame_trans; [apply unlink_frame|]. eapply base_frame_trans; [by apply same_lists_frame|].
    destruct Hba as [-> | ->]; [apply catchup_frame, Hb3|done].
Qed.

Lemma detach_wf J w a t clear :
  wf J w None -> tbase_get_base (base (timers w t)) = a -> pending (timers w t) = true ->
  let w' := snd (detach_if_pending w a t clear) in
  wf J w' (if clear then None else Some t) /\ op_frame w w' t /\
  timers w' t = with_pending (timers w t) (negb clear).
Proof.
  intros Hwf Ha Hp. unfold detach_if_pending, timer_pending. rewrite Hp. cbn [negb snd].
  set (w1 := detach_timer w a t clear). set (b3 := with_counts _ _ _). set (w' := set_base w1 a _).
  assert (E5 : bases w1 = <[a := unlink_base t (bases w a)]> (bases w)) by (unfold w1; by destruct clear).
  assert (Ht : timers w' t = with_pending (timers w t) (negb clear)).
  { unfold w', w1. destruct clear; cbn; [by rewrite fn_lookup_insert|]. rewrite <- Hp. by destruct (timers w t). }
  assert (Hb : base (timers w1 t) = base (timers w t)).
  { change (timers w1 t) with (timers w' t). by rewrite Ht. }
  assert (Hba : bases w' a = fst (catchup_timer_jiffies (jiffies w) b3) \/ bases w' a = b3).
  { left. unfold w'. cbn [bases set_base]. rewrite fn_lookup_insert. f_equal. f_equal. unfold w1. by destruct clear. }
  enough (wf J w' (if clear then None else Some t) /\ op_frame w w' t) by tauto.
  apply (unlinked_wf J w w' a t _ b3); try done; unfold b3; rewrite ?Hb, ?E5, ?fn_lookup_insert;
    try (destruct (tbase_get_deferrable (base (timers w t))); cbn [negb]; repeat case_match; cbn; done || lia).
  - unfold w', w1. by destruct clear.
  - unfold w', w1. by destruct clear.
  - unfold w', w1. by destruct clear.
  - intros t' Ht'. unfold w', w1. destruct clear; cbn; [by rewrite fn_lookup_insert_ne|done].
  - by rewrite Ht.
  - destruct clear; [right; by rewrite Ht|by left].
  - intros a' Ha'. cbn. by rewrite E5, !fn_lookup_insert_ne.
Qed.

(** The timer about to run leaves the list of expired timers. *)
Lemma detach_expired_wf J w a t :
  wf J w None -> t ∈ elems (bases w a) ->
  let w' := detach_expired_timer w a t in
  wf J w' None /\ op_frame w w' t /\ timers w' t = with_pending (timers w t) false.
Proof.
  intros Hwf Hin. assert (Hm : pending (timers w t) = true /\ tbase_get_base (base (timers w t)) = a)
    by (by apply (wf_base _ _ _ Hwf a)).
  destruct Hm as [Hp Ha]. unfold detach_expired_timer. set (w1 := detach_timer w a t true).
  set (b3 := with_counts _ _ _). set (w' := set_base w1 a _).
  assert (Ht : timers w' t = with_pending (timers w t) false) by (cbn; by rewrite fn_lookup_insert).
  assert (Hb : base (timers w1 t) = base (timers w t)).
  { change (timers w1 t) with (timers w' t). by rewrite Ht. }
  assert (Hba : bases w' a = fst (catchup_timer_jiffies (jiffies w) b3) \/ bases w' a = b3)
    by (left; cbn [w' bases set_base]; by rewrite fn_lookup_insert).
  enough (wf J w' None /\ op_frame w w' t) by tauto.
  apply (unlinked_wf J w w' a t None b3); try done; unfold b3; rewrite ?Hb; cbn [bases w1 detach_timer set_timer set_base];
    rewrite ?fn_lookup_insert;
    try (destruct (tbase_get_deferrable (base (timers w t))); cbn [negb]; repeat case_match; cbn; done || lia).
  - intros t' Ht'. cbn. by rewrite fn_lookup_insert_ne.
  - by rewrite Ht.
  - right. by rewrite Ht.
  - intros a' Ha'. cbn. by rewrite !fn_lookup_insert_ne.
Qed.

(** *** Flags in the base pointer *)

Lemma land_lnot3_bits x i : 0 <= i < 64 -> Z.testbit (tbase_get_base x) i = Z.testbit x i && (2 <=? i).
Proof.
  intros Hi. unfold tbase_get_base. rewrite Z.land_spec, lnot64_bits by (done || lia). f_equal.
  change TIMER_FLAG_MASK with (Z.ones 2). rewrite Z.testbit_ones_nonneg by lia. lia.
Qed.

Lemma flag_bits x i : 0 <= i -> Z.testbit (Z.land x TIMER_FLAG_MASK) i = Z.testbit x i && (i <? 2).
Proof.
  intros Hi. rewrite Z.land_spec. change TIMER_FLAG_MASK with (Z.ones 2).
  by rewrite Z.testbit_ones_nonneg by lia.
Qed.

Lemma base_addr_bits a i : base_addr a -> 0 <= i < 2 -> Z.testbit a i = false.
Proof.
  intros [_ Ha] Hi. assert (Z.testbit (Z.land a 3) i = false) as Hb by (rewrite Ha; apply Z.bits_0).
  change 3 with (Z.ones 2) in Hb. rewrite Z.land_spec, Z.testbit_ones_nonneg in Hb by lia.
  by rewrite (proj2 (Z.ltb_lt _ _)), andb_true_r in Hb by lia.
Qed.

Lemma get_base_set a x : base_addr a -> tbase_get_base (Z.lor a (Z.land x TIMER_FLAG_MASK)) = a.
Proof.
  intros Ha. assert (word a) by (destruct Ha as [? _]; unfold word; lia).
  assert (Hw : forall y, word (tbase_get_base y)).
  { intros y. unfold tbase_get_base. rewrite Z.land_comm. change (lnot64 TIMER_FLAG_MASK) with (lnot64 3).
    apply word_of_bits; [apply Z.land_nonneg; left; unfold lnot64, ULLONG_MAX; lia|].
    intros i Hi. rewrite Z.land_spec, word_bits_high; [done|by apply word_lnot|done]. }
  apply word_eq_bits; [done|done|]. intros i Hi.
  rewrite land_lnot3_bits, Z.lor_spec, flag_bits by lia. destruct (Z.leb_spec 2 i).
  - rewrite (proj2 (Z.ltb_ge _ _)) by lia. by rewrite andb_false_r, orb_false_r, andb_true_r.
  - rewrite base_addr_bits by (done || lia). by rewrite andb_false_r.
Qed.

Lemma get_def_set a x : base_addr a -> tbase_get_deferrable (Z.lor a (Z.land x TIMER_FLAG_MASK)) = tbase_get_deferrable x.
Proof.
  intros Ha. unfold tbase_get_deferrable, TIMER_DEFERRABLE.
  rewrite !(Z.land_comm _ 1), !land_1, Z.lor_spec, flag_bits by lia.
  rewrite base_addr_bits by (done || lia). by rewrite andb_true_r.
Qed.
