(* ===== verification/TimerOps.v ===== *)
(** The operations of the timer interface keep the wheel well formed. *)
From stdpp Require Import functions.
From S2P Require Import Prelude FindBitDefs FindBit TimerDefs TimerWheel TimerInv.

(** ** Expiry times near [jiffies] *)

Definition near (w : world) (lo hi e : Z) : Prop :=
  0 <= e < 2 ^ 64 /\ lo <= s64 (e ⊖ jiffies w) <= hi.

Lemma s64_range x : - 2 ^ 63 <= s64 x < 2 ^ 63.
Proof. unfold s64. pose proof (Z.mod_pos_bound (x + 2 ^ 63) (2 ^ 64)). lia. Qed.

Lemma u64_s64 x : u64 (s64 x) = u64 x.
Proof.
  unfold u64, s64. rewrite Zminus_mod, Z.mod_mod, <- Zminus_mod by lia. f_equal. lia.
Qed.

Lemma u64_add_l x y : u64 (u64 x + y) = u64 (x + y).
Proof. unfold u64. apply Zplus_mod_idemp_l. Qed.
Lemma u64_add_r x y : u64 (x + u64 y) = u64 (x + y).
Proof. unfold u64. apply Zplus_mod_idemp_r. Qed.

Lemma u64_near J e : 0 <= e < 2 ^ 64 -> u64 (J + s64 (e ⊖ u64 J)) = e.
Proof.
  intros He. rewrite <- u64_add_r, u64_s64. unfold sub64. rewrite <- u64_add_r.
  unfold u64. rewrite !Z.mod_mod, Zplus_mod_idemp_r by lia.
  rewrite <- Zplus_mod_idemp_r, Zminus_mod_idemp_r, Zplus_mod_idemp_r.
  replace (J + (e - J)) with e by lia. by apply Z.mod_small.
Qed.

Lemma near_expiry J w lo hi e : jiffies w = u64 J -> near w lo hi e ->
  exists E, e = u64 E /\ J + lo <= E <= J + hi.
Proof.
  intros Hj [He Hd]. rewrite Hj in Hd. exists (J + s64 (e ⊖ u64 J)).
  rewrite u64_near by done. split; [done|lia].
Qed.

(** ** Changing a timer that is on no list *)

Lemma wf_take J w t : wf J w None -> pending (timers w t) = false -> wf J w (Some t).
Proof.
  intros Hwf Hp. split; [apply Hwf..|]. intros a. eapply base_inv_frame; [apply Hwf|done| |].
  - intros t' _ Hno HH. apply Hno. by apply (wf_base _ _ _ Hwf a).
  - intros t' [= ->] Hin. apply (wf_base _ _ _ Hwf a) in Hin as [Hin _]; [congruence|done].
Qed.

Lemma wf_set_timer J w t v :
  wf J w (Some t) -> (function v = true -> base_addr (tbase_get_base (base v))) ->
  wf J (set_timer w t v) (Some t).
Proof.
  intros Hwf Hv. split; [apply Hwf|apply Hwf| |].
  - intros t'. cbn. destruct (decide (t' = t)) as [->|Hne].
    + by rewrite fn_lookup_insert.
    + rewrite fn_lookup_insert_ne by done. apply Hwf.
  - intros a. cbn. eapply base_inv_frame; [apply Hwf|..].
    + intros t' Ht'. rewrite fn_lookup_insert_ne; [done|]. intros <-.
      by apply (bi_out _ _ _ _ _ (wf_base _ _ _ Hwf a) t).
    + intros t' Hx Hno HH. rewrite fn_lookup_insert_ne in HH by congruence. apply Hno.
      by apply (bi_mem _ _ _ _ _ (wf_base _ _ _ Hwf a) t').
    + intros t' [= ->]. by apply (bi_out _ _ _ _ _ (wf_base _ _ _ Hwf a)).
Qed.

(** ** Moving a timer to another base *)

Definition move_base (w : world) (timer : tid) (new_base : Z) : world :=
  timer_set_base (timer_set_base w timer 0) timer new_base.

Lemma land_flags_idem x : Z.land (Z.lor 0 (Z.land x TIMER_FLAG_MASK)) TIMER_FLAG_MASK = Z.land x TIMER_FLAG_MASK.
Proof. rewrite Z.lor_0_l, <- Z.land_assoc. by rewrite Z.land_diag. Qed.

Lemma move_base_timer w t a :
  timers (move_base w t a) t = with_base (timers w t) (Z.lor a (Z.land (base (timers w t)) TIMER_FLAG_MASK)).
Proof.
  unfold move_base, timer_set_base. cbn [timers set_timer]. rewrite !fn_lookup_insert.
  cbn [base with_base]. by rewrite land_flags_idem.
Qed.

Lemma move_base_frame w t a : op_frame w (move_base w t a) t.
Proof. split; [done..| |done]. intros t' Ht'. cbn. by rewrite !fn_lookup_insert_ne. Qed.

Lemma move_base_wf J w t a : wf J w (Some t) -> base_addr a -> wf J (move_base w t a) (Some t).
Proof.
  intros Hwf Ha. pose proof (move_base_timer w t a) as Ht. pose proof (move_base_frame w t a) as Hf.
  split; [apply Hwf|apply Hwf| |].
  - intros t'. destruct (decide (t' = t)) as [->|Hne].
    + rewrite Ht. cbn. by rewrite get_base_set.
    + rewrite (of_timers _ _ _ Hf) by done. apply Hwf.
  - intros a'. change (bases (move_base w t a)) with (bases w). eapply base_inv_frame; [apply Hwf|..].
    + intros t' Ht'. apply (of_timers _ _ _ Hf). intros ->.
      by apply (bi_out _ _ _ _ _ (wf_base _ _ _ Hwf a') t).
    + intros t' Hx Hno HH. rewrite (of_timers _ _ _ Hf) in HH by congruence. apply Hno.
      by apply (bi_mem _ _ _ _ _ (wf_base _ _ _ Hwf a') t').
    + intros t' [= ->]. by apply (bi_out _ _ _ _ _ (wf_base _ _ _ Hwf a')).
Qed.

Section ops.
Context (nf : Z -> bool).

(** What a successful (re)arming of [t] leaves in its structure. *)
Record armed (w w' : world) (t : tid) (e : Z) : Prop := {
  ar_pending : pending (timers w' t) = true;
  ar_expires : expires (timers w' t) = e;
  ar_function : function (timers w' t) = function (timers w t);
  ar_def : tbase_get_deferrable (base (timers w' t)) = tbase_get_deferrable (base (timers w t)) }.

Lemma __mod_timer_wf J w t e only c :
  wf J w None -> function (timers w t) = true -> near w (- window) window e ->
  exists ret w', __mod_timer nf w t e only c = Ok (ret, w') /\ wf J w' None /\ op_frame w w' t /\
    ret = Z.b2z (pending (timers w t)) /\
    ((ret = 0 /\ only = true /\ w' = w) \/ armed w w' t e).
Proof.
  intros Hwf Hfn Hnear. pose proof (wf_init _ _ _ Hwf t Hfn) as Haddr.
  destruct (near_expiry J w _ _ e (wf_now _ _ _ Hwf) Hnear) as (E & He & HE).
  unfold __mod_timer, lock_timer_base. rewrite Hfn. cbn [negb bug_on].
  rewrite (proj2 (Z.eqb_neq _ 0)) by (destruct Haddr as [[? ?] _]; lia). rewrite res_bind_ok.
  set (a := tbase_get_base (base (timers w t))) in *.
  destruct (detach_if_pending w a t false) as [ret w1] eqn:Hdet.
  assert (Hdet' : wf J w1 (Some t) /\ op_frame w w1 t /\ timers w1 t = timers w t /\
    ret = Z.b2z (pending (timers w t)) /\ (ret = 0 -> w1 = w)).
  { destruct (pending (timers w t)) eqn:Hp.
    - destruct (detach_wf J w a t false Hwf eq_refl Hp) as (H1 & H2 & H3). rewrite Hdet in H1, H2, H3.
      cbn [snd] in *. split_and!; [done|done| | |].
      + rewrite H3. destruct (timers w t). cbn in *. by subst.
      + unfold detach_if_pending, timer_pending in Hdet. rewrite Hp in Hdet. cbn in Hdet. by injection Hdet as <- _.
      + unfold detach_if_pending, timer_pending in Hdet. rewrite Hp in Hdet. cbn in Hdet. by injection Hdet as <- _.
    - unfold detach_if_pending, timer_pending in Hdet. rewrite Hp in Hdet. cbn in Hdet. injection Hdet as <- <-.
      split_and!; [by apply wf_take|done..]. }
  destruct Hdet' as (Hwf1 & Hf1 & Ht1 & Hret & Hsame).
  destruct ((ret =? 0) && only) eqn:Honly.
  { apply andb_prop in Honly as [H0%Z.eqb_eq ->]. exists ret, w1. rewrite (Hsame H0).
    split_and!; [done..|by left]. }
  set (p := if negb (a =? tvec_bases w1 c) && _ then _ else (a, w1)).
  assert (Hp : exists a2 w2, p = (a2, w2) /\ wf J w2 (Some t) /\ op_frame w w2 t /\
    tbase_get_base (base (timers w2 t)) = a2 /\ expires (timers w2 t) = expires (timers w t) /\
    function (timers w2 t) = function (timers w t) /\ base_addr a2 /\
    tbase_get_deferrable (base (timers w2 t)) = tbase_get_deferrable (base (timers w t))).
  { unfold p. case_match.
    - fold (move_base w1 t (tvec_bases w1 c)). pose proof (wf_addr _ _ _ Hwf1 c) as Hc.
      eexists _, _. split; [done|]. split; [by apply move_base_wf|].
      split; [eapply op_frame_trans; [done|apply move_base_frame]|]. rewrite move_base_timer, Ht1. cbn.
      rewrite get_base_set, get_def_set by done. done.
    - eexists _, _. split; [done|]. rewrite Ht1. done. }
  destruct Hp as (a2 & w2 & -> & Hwf2 & Hf2 & Hb2 & He2 & Hfn2 & Ha2 & Hd2).
  set (w3 := set_timer w2 t (with_expires (timers w2 t) e)).
  assert (Ht3 : timers w3 t = with_expires (timers w2 t) e) by (cbn; by rewrite fn_lookup_insert).
  assert (Hwf3 : wf J w3 (Some t)).
  { apply wf_set_timer; [done|]. cbn. by rewrite Hb2. }
  destruct (internal_add_timer_wf nf J w3 a2 t E Hwf3) as (Hwf4 & Hf4 & Ht4); [by rewrite Ht3|by rewrite Ht3|unfold window in *; lia|].
  exists ret, (internal_add_timer nf w3 a2 t). split; [done|]. split; [done|].
  split; [eapply op_frame_trans; [exact Hf2|]; eapply op_frame_trans; [apply set_timer_frame|exact Hf4]|].
  split; [done|]. right. split; rewrite Ht4, Ht3; cbn; done.
Qed.

(** ** Slack *)

Lemma find_last_bit_word m : word m -> m <> 0 -> find_last_bit [m] BITS_PER_LONG = Ok (Z.log2 m).
Proof.
  intros Hm H0. unfold find_last_bit, BITS_PER_LONG. change (Z.land 64 (64 - 1)) with 0.
  change (Z.to_nat (64 / 64)) with 1%nat. cbn [negb Z.eqb find_last_words aget lookup list_lookup mbind res_bind].
  rewrite (proj2 (Z.eqb_neq _ _) H0). cbn [negb Z.of_nat Z.mul Z.add]. by rewrite __fls_log2.
Qed.

(** Rounding [l] down at the highest bit in which it differs from [e]. *)
Lemma round_at_difference e l :
  word e -> word l -> e <> l ->
  let b := Z.log2 (Z.lxor e l) in
  Z.land l (lnot64 (shl64 1 b ⊖ 1)) = l - l mod 2 ^ b /\ (e < l -> e <= l - l mod 2 ^ b).
Proof.
  intros He Hl Hne b. assert (Hx : word (Z.lxor e l)) by (by apply word_lxor).
  assert (H0 : Z.lxor e l <> 0) by (intros H; apply Hne; by apply Z.lxor_eq in H).
  assert (Hb : 0 <= b < 64).
  { split; [apply Z.log2_nonneg|]. apply Z.log2_lt_pow2; unfold word in Hx; lia. }
  assert (Hpow : 0 < 2 ^ b < 2 ^ 64) by (split; [lia|apply Z.pow_lt_mono_r; lia]). split.
  - unfold shl64. rewrite Z.shiftl_1_l, u64_small by lia. apply (round_down_pow2 l b Hl Hb).
  - intros Hlt. set (m := Z.lxor e l) in *.
    assert (Hm : m < 2 ^ (b + 1)).
    { unfold b. rewrite Z.add_1_r. apply Z.log2_spec. unfold word in Hx. lia. }
    assert (Heq : e / 2 ^ (b + 1) = l / 2 ^ (b + 1)).
    { rewrite <- !Z.shiftr_div_pow2 by lia. apply Z.lxor_eq. rewrite <- Z.shiftr_lxor.
      fold m. rewrite Z.shiftr_div_pow2 by lia. apply Z.div_small. unfold word in Hx. lia. }
    assert (Hbit : Z.testbit m b = true) by (apply Z.bit_log2; unfold word in Hx; lia).
    unfold m in Hbit. rewrite Z.lxor_spec in Hbit.
    assert (Hpw : 2 ^ (b + 1) = 2 ^ b * 2) by (rewrite Z.pow_add_r; lia).
    rewrite Hpw, <- !Z.div_div in Heq by lia.
    pose proof (Z.div_mod e (2 ^ b)) as Ee. pose proof (Z.div_mod l (2 ^ b)) as El.
    pose proof (Z.mod_pos_bound e (2 ^ b)). pose proof (Z.mod_pos_bound l (2 ^ b)).
    assert (l / 2 ^ b = e / 2 ^ b + 1).
    { rewrite <- (Z.add_0_l b) in Hbit. rewrite <- !Z.div_pow2_bits, !Z.bit0_odd in Hbit by lia.
      pose proof (Z.div_mod (e / 2 ^ b) 2). pose proof (Z.div_mod (l / 2 ^ b) 2).
      rewrite !Zmod_odd in *. assert (e / 2 ^ b <= l / 2 ^ b) by (apply Z.div_le_mono; lia).
      destruct (Z.odd (e / 2 ^ b)), (Z.odd (l / 2 ^ b)); cbn in Hbit; done || lia. }
    nia.
Qed.

(** The slack only ever moves an expiry later, and not beyond its limit. *)
Lemma apply_slack_ok J tl E :
  - 2 ^ 31 <= slack tl < 2 ^ 31 -> J - 2 ^ 60 <= E <= J + 2 ^ 60 ->
  exists E', apply_slack (u64 J) tl (u64 E) = Ok (u64 E') /\
    E <= E' <= E + Z.max (slack tl) ((E - J) / 256) `max` 0.
Proof.
  intros Hs HE. unfold apply_slack.
  assert (Hd : s64 (u64 E ⊖ u64 J) = E - J) by (rewrite u64_sub; apply u64_signed; lia). rewrite Hd.
  set (lim := if slack tl >=? 0 then _ else _).
  assert (Hlim : (lim = None) \/ exists d, lim = Some (u64 (E + d)) /\ 0 <= d <= Z.max (slack tl) ((E - J) / 256) `max` 0 /\ d < 2 ^ 63).
  { unfold lim. rewrite Z.geb_leb. destruct (Z.leb_spec 0 (slack tl)).
    - right. exists (slack tl). unfold add64. rewrite u64_add_l. split; [done|]. lia.
    - destruct (Z.ltb_spec (E - J) 256); [by left|]. right. exists (Z.quot (E - J) 256).
      rewrite Z.quot_div_nonneg by lia. unfold add64. rewrite u64_add_l. split; [done|].
      assert (0 <= (E - J) / 256) by (apply Z.div_pos; lia).
      assert ((E - J) / 256 <= E - J) by (apply Z.div_le_upper_bound; lia). lia. }
  destruct Hlim as [->|(d & -> & Hd0 & Hd1)]; [exists E; split; [done|lia]|].
  set (e := u64 E). set (l := u64 (E + d)).
  assert (He : word e) by apply u64_range. assert (Hl : word l) by apply u64_range.
  destruct (Z.eqb_spec (Z.lxor e l) 0) as [E0|E0]; [exists E; split; [done|lia]|].
  assert (Hne : e <> l) by (intros Heq; apply E0; rewrite Heq; apply Z.lxor_nilpotent).
  rewrite find_last_bit_word, res_bind_ok by (by apply word_lxor || done).
  destruct (round_at_difference e l He Hl Hne) as [-> Hround].
  set (b := Z.log2 (Z.lxor e l)) in *. pose proof (Z.log2_nonneg (Z.lxor e l)) as Hb. fold b in Hb.
  assert (Hpow : 0 < 2 ^ b) by lia. pose proof (Z.mod_pos_bound l (2 ^ b) Hpow).
  exists (E + d - l mod 2 ^ b).
  assert (Hml : l mod 2 ^ b <= l) by (apply Z.mod_le; unfold word in Hl; lia).
  pose proof (Z.div_mod E (2 ^ 64) ltac:(lia)) as Eq1. fold e in Eq1.
  pose proof (Z.div_mod (E + d) (2 ^ 64) ltac:(lia)) as Eq2. fold l in Eq2.
  change (E mod 2 ^ 64) with e in Eq1. change ((E + d) mod 2 ^ 64) with l in Eq2.
  unfold word in He, Hl. split.
  - f_equal. symmetry. unfold u64. symmetry. apply Z.mod_unique with ((E + d) / 2 ^ 64); lia.
  - split; [|lia]. destruct (decide (e < l)) as [Hlt|Hge].
    + specialize (Hround Hlt). assert ((E + d) / 2 ^ 64 = E / 2 ^ 64) by nia. lia.
    + assert (E / 2 ^ 64 < (E + d) / 2 ^ 64) by nia. lia.
Qed.

(** ** The interface *)

(** The contract of each operation: a timer with a function, an expiry near
    [jiffies], and no base left behind by more than the window. *)
Definition op_ok (w : world) (op : timer_op) : Prop :=
  match op with
  | OpTick => forall a, s64 (jiffies w ⊖ timer_jiffies (bases w a)) < window
  | OpMod t e _ =>
      function (timers w t) = true /\ - 2 ^ 31 <= slack (timers w t) < 2 ^ 31 /\ near w (- 2 ^ 60) (2 ^ 60) e
  | OpModPinned t e _ | OpModPending t e _ => function (timers w t) = true /\ near w (- window) window e
  | OpAdd t e _ =>
      pending (timers w t) = false /\ function (timers w t) = true /\
      - 2 ^ 31 <= slack (timers w t) < 2 ^ 31 /\ near w (- 2 ^ 60) (2 ^ 60) e
  | OpAddOn t e _ =>
      pending (timers w t) = false /\ function (timers w t) = true /\ near w (- window) window e
  | OpDel t | OpTryDelSync t => function (timers w t) = true
  end.

(** The timer an operation is about. *)
Definition op_timer (op : timer_op) : option tid :=
  match op with
  | OpTick => None
  | OpMod t _ _ | OpModPinned t _ _ | OpModPending t _ _ | OpAdd t _ _ | OpAddOn t _ _
  | OpDel t | OpTryDelSync t => Some t
  end.

Definition op_expiry (op : timer_op) : option Z :=
  match op with
  | OpMod _ e _ | OpModPinned _ e _ | OpModPending _ e _ | OpAdd _ e _ | OpAddOn _ e _ => Some e
  | OpTick | OpDel _ | OpTryDelSync _ => None
  end.

Definition tick_of (op : timer_op) : Z := match op with OpTick => 1 | _ => 0 end.

(** What becomes of the timer of the operation: nothing changes, or it is not
    pending, or it is pending and expires not before the time asked for. *)
Definition timer_effect (J : Z) (w w' : world) (op : timer_op) (t : tid) : Prop :=
  w' = w \/ pending (timers w' t) = false \/
  exists e E, op_expiry op = Some e /\ pending (timers w' t) = true /\ expires (timers w' t) = u64 E /\
    J + s64 (e ⊖ jiffies w) <= E <= J + window.

Definition op_effect (J : Z) (w w' : world) (op : timer_op) : Prop :=
  match op_timer op with
  | None => w' = mkWorld (jiffies w ⊕ 1) (timers w) (bases w) (tvec_bases w) (kicked w) (fired w)
  | Some t => op_frame w w' t /\ timer_effect J w w' op t
  end.

Lemma wheel_lag_signed J tm b T : wheel J tm b T -> s64 (u64 J ⊖ timer_jiffies b) = J - T.
Proof.
  intros Hw. rewrite (wh_clock _ _ _ _ Hw), u64_sub. apply u64_signed.
  pose proof (wh_lag _ _ _ _ Hw). unfold window in *. lia.
Qed.

Lemma tick_wf J w :
  wf J w None -> (forall a, s64 (jiffies w ⊖ timer_jiffies (bases w a)) < window) ->
  wf (J + 1) (mkWorld (jiffies w ⊕ 1) (timers w) (bases w) (tvec_bases w) (kicked w) (fired w)) None.
Proof.
  intros Hwf Hlag. split; [|apply Hwf|apply Hwf|].
  - cbn. rewrite (wf_now _ _ _ Hwf). unfold add64. apply u64_add_l.
  - intros a. cbn. specialize (Hlag a). rewrite (wf_now _ _ _ Hwf) in Hlag.
    destruct (wf_base _ _ _ Hwf a) as [H1 H2 H3 H4 H5 H6 (T & Hw)]. split; [done..|].
    exists T. rewrite (wheel_lag_signed _ _ _ _ Hw) in Hlag. destruct Hw as [K1 K2 K3 K4].
    split; [done|lia| |].
    + intros s i t Hi Ht. destruct (K3 s i t Hi Ht) as (E & He & Hr & HQ). exists E. split_and!; [done|lia|lia|done].
    + intros t Ht. destruct (K4 t Ht) as (E & He & Hr & HQ). exists E. split_and!; [done|lia|lia|done].
Qed.

Lemma near_signed J w lo hi e : jiffies w = u64 J -> near w lo hi e ->
  exists E, e = u64 E /\ E = J + s64 (e ⊖ jiffies w) /\ J + lo <= E <= J + hi.
Proof.
  intros Hj [He Hd]. rewrite Hj in *. exists (J + s64 (e ⊖ u64 J)).
  rewrite u64_near by done. split; [done|]. split; [done|lia].
Qed.

Lemma armed_effect J w w' t e op E :
  armed w w' t (u64 E) -> op_expiry op = Some e -> J + s64 (e ⊖ jiffies w) <= E <= J + window ->
  timer_effect J w w' op t.
Proof. intros [H1 H2 _ _] He HE. right. right. exists e, E. done. Qed.

Lemma __mod_timer_effect J w t e only c op :
  wf J w None -> function (timers w t) = true -> near w (- window) window e -> op_expiry op = Some e ->
  exists ret w', __mod_timer nf w t e only c = Ok (ret, w') /\ wf J w' None /\ op_frame w w' t /\
    timer_effect J w w' op t.
Proof.
  intros Hwf Hfn Hnear Hop.
  destruct (__mod_timer_wf J w t e only c Hwf Hfn Hnear) as (ret & w' & -> & Hw' & Hf & _ & Har).
  exists ret, w'. split; [done|]. split; [done|]. split; [done|].
  destruct Har as [(_ & _ & ->)|Har]; [by left|].
  destruct (near_signed J w _ _ e (wf_now _ _ _ Hwf) Hnear) as (E & He & HE & Hr).
  eapply armed_effect; [by rewrite <- He|done|lia].
Qed.

Lemma mod_timer_effect J w t e c op :
  wf J w None -> op_ok w (OpMod t e c) -> op_expiry op = Some e ->
  exists ret w', mod_timer nf w t e c = Ok (ret, w') /\ wf J w' None /\ op_frame w w' t /\
    timer_effect J w w' op t /\ pending (timers w' t) = true.
Proof.
  intros Hwf (Hfn & Hsl & Hnear) Hop.
  destruct (near_signed J w _ _ e (wf_now _ _ _ Hwf) Hnear) as (E & He & HE & Hr).
  destruct (apply_slack_ok J (timers w t) E Hsl ltac:(lia)) as (E' & Hs & HE').
  assert ((E - J) / 256 <= 2 ^ 60) by (apply Z.div_le_upper_bound; lia).
  unfold mod_timer. rewrite (wf_now _ _ _ Hwf). rewrite <- He in Hs. rewrite Hs, res_bind_ok. unfold timer_pending.
  destruct (pending (timers w t) && (expires (timers w t) =? u64 E')) eqn:Hsame.
  - apply andb_prop in Hsame as [Hp _]. eexists _, w. split; [done|]. split; [done|]. split; [done|].
    split; [by left|done].
  - destruct (__mod_timer_wf J w t (u64 E') false c Hwf Hfn) as (ret & w' & -> & Hwf' & Hf & _ & [Hno|Har]);
      [|naive_solver|].
    + split; [apply u64_range|]. rewrite (wf_now _ _ _ Hwf), u64_sub, u64_signed; unfold window; lia.
    + eexists _, _. split; [done|]. split; [done|]. split; [done|].
      split; [|apply Har]. eapply armed_effect; [done..|]. unfold window in *. lia.
Qed.

Lemma detach_if_pending_effect J w t op :
  wf J w None ->
  let w' := snd (detach_if_pending w (tbase_get_base (base (timers w t))) t true) in
  wf J w' None /\ op_frame w w' t /\ timer_effect J w w' op t.
Proof.
  intros Hwf. destruct (pending (timers w t)) eqn:Hp.
  - destruct (detach_wf J w _ t true Hwf eq_refl Hp) as (H1 & H2 & H3). split_and!; [done..|].
    right. left. by rewrite H3.
  - unfold detach_if_pending, timer_pending. rewrite Hp. cbn [negb snd]. split_and!; [done..|]. by left.
Qed.

(** [timer->expires = e] on a timer that is not pending. *)
Lemma set_expires_wf J w t e :
  wf J w None -> pending (timers w t) = false -> wf J (set_timer w t (with_expires (timers w t) e)) (Some t).
Proof. intros Hwf Hp. apply wf_set_timer; [by apply wf_take|]. apply (wf_init _ _ _ Hwf t). Qed.

Lemma wf_put J w t : wf J w (Some t) -> pending (timers w t) = false -> wf J w None.
Proof.
  intros Hwf Hp. split; [apply Hwf..|]. intros a. eapply base_inv_frame; [apply Hwf|done| |done].
  intros t' _ Hno [Hpp Hbb]. destruct (decide (t' = t)) as [->|Hne]; [congruence|].
  apply Hno. apply (bi_mem _ _ _ _ _ (wf_base _ _ _ Hwf a)); [congruence|done].
Qed.

Lemma add_timer_effect J w t e c :
  wf J w None -> op_ok w (OpAdd t e c) ->
  exists w', do_op nf w (OpAdd t e c) = Ok w' /\ wf J w' None /\ op_frame w w' t /\
    timer_effect J w w' (OpAdd t e c) t.
Proof.
  intros Hwf (Hp & Hfn & Hsl & Hnear). cbn [do_op]. unfold timer_pending at 1. rewrite Hp. cbn [bug_on].
  pose proof (set_expires_wf J w t e Hwf Hp) as Hw1. set (w1 := set_timer w t _) in *.
  assert (Ht1 : timers w1 t = with_expires (timers w t) e) by (cbn; by rewrite fn_lookup_insert).
  apply wf_put in Hw1; [|by rewrite Ht1].
  unfold add_timer, timer_pending. rewrite Ht1. cbn [pending with_expires expires]. rewrite Hp. cbn [bug_on].
  destruct (mod_timer_effect J w1 t e c (OpAdd t e c) Hw1) as (ret & w' & -> & Hw' & Hf & He & Hpw); [|done|].
  { cbn [op_ok]. rewrite Ht1. done. }
  rewrite res_bind_ok. exists w'. split; [done|]. split; [done|].
  split; [eapply op_frame_trans; [apply set_timer_frame|done]|].
  destruct He as [->|[?|He]]; [|congruence|by right; right].
  exfalso. rewrite Ht1 in Hpw. cbn in Hpw. congruence.
Qed.

Lemma add_timer_on_effect J w t e c :
  wf J w None -> op_ok w (OpAddOn t e c) ->
  exists w', do_op nf w (OpAddOn t e c) = Ok w' /\ wf J w' None /\ op_frame w w' t /\
    timer_effect J w w' (OpAddOn t e c) t.
Proof.
  intros Hwf (Hp & Hfn & Hnear). cbn [do_op]. unfold timer_pending at 1. rewrite Hp. cbn [bug_on].
  pose proof (set_expires_wf J w t e Hwf Hp) as Hw1. set (w1 := set_timer w t _) in *.
  assert (Ht1 : timers w1 t = with_expires (timers w t) e) by (cbn; by rewrite fn_lookup_insert).
  destruct (near_signed J w _ _ e (wf_now _ _ _ Hwf) Hnear) as (E & He & HE & Hr).
  unfold add_timer_on, timer_pending. rewrite Ht1. cbn [pending with_expires function]. rewrite Hp, Hfn.
  cbn [negb orb bug_on]. unfold lock_timer_base. rewrite Ht1. cbn [base with_expires].
  pose proof (wf_init _ _ _ Hwf t Hfn) as [[? ?] _]. rewrite (proj2 (Z.eqb_neq _ 0)) by lia. rewrite res_bind_ok.
  set (a := tbase_get_base _). set (p := if negb (a =? tvec_bases w1 c) then _ else _).
  assert (Hpp : exists a2 w2, p = (a2, w2) /\ wf J w2 (Some t) /\ op_frame w w2 t /\
    tbase_get_base (base (timers w2 t)) = a2 /\ expires (timers w2 t) = e).
  { unfold p. destruct (negb (a =? tvec_bases w1 c)).
    - fold (move_base w1 t (tvec_bases w1 c)). pose proof (wf_addr _ _ _ Hw1 c) as Hc.
      eexists _, _. split; [done|]. split; [by apply move_base_wf|].
      split; [eapply op_frame_trans; [apply set_timer_frame|apply move_base_frame]|].
      rewrite move_base_timer, Ht1. cbn. by rewrite get_base_set.
    - eexists _, _. split; [done|]. split; [done|]. split; [apply set_timer_frame|]. by rewrite Ht1. }
  destruct Hpp as (a2 & w2 & -> & Hw2 & Hf2 & Hb2 & He2).
  destruct (internal_add_timer_wf nf J w2 a2 t E Hw2 Hb2) as (H1 & H2 & H3); [congruence|lia|].
  eexists. split; [done|]. split; [done|]. split; [by eapply op_frame_trans|].
  right. right. exists e, E. split; [done|]. rewrite H3. cbn. split; [done|]. split; [congruence|lia].
Qed.

(** Every operation that respects its contract succeeds, keeps the invariant
    and changes no timer but its own. *)
Lemma do_op_wf J w op :
  wf J w None -> op_ok w op ->
  exists w', do_op nf w op = Ok w' /\ wf (J + tick_of op) w' None /\ op_effect J w w' op.
Proof.
  intros Hwf Hok.
  assert (Hsame : forall t, wf J w None /\ op_frame w w t /\ timer_effect J w w op t) by (intros t; split_and!; [done..|by left]).
  assert (Hlock : forall t, function (timers w t) = true ->
    lock_timer_base w t = Ok (tbase_get_base (base (timers w t)))).
  { intros t Hfn. pose proof (wf_init _ _ _ Hwf t Hfn) as [[? ?] _]. unfold lock_timer_base.
    by rewrite (proj2 (Z.eqb_neq _ 0)) by lia. }
  destruct op as [|t e c|t e c|t e c|t e c|t e c|t|t]; cbn [do_op tick_of op_ok] in *; rewrite ?Z.add_0_r; unfold op_effect; cbn [op_timer].
  - eexists. split; [done|]. split; [by apply tick_wf|]. done.
  - destruct (mod_timer_effect J w t e c (OpMod t e c) Hwf Hok) as (ret & w' & -> & Hw' & Hf & He & _); [done|].
    rewrite res_bind_ok. eauto.
  - destruct Hok as [Hfn Hnear]. unfold mod_timer_pinned.
    destruct ((expires (timers w t) =? e) && timer_pending w t); [rewrite res_bind_ok; eauto|].
    destruct (__mod_timer_effect J w t e false c (OpModPinned t e c) Hwf Hfn Hnear) as (ret & w' & -> & H); [done|].
    rewrite res_bind_ok. eauto.
  - destruct Hok as [Hfn Hnear]. unfold mod_timer_pending.
    destruct (__mod_timer_effect J w t e true c (OpModPending t e c) Hwf Hfn Hnear) as (ret & w' & -> & H); [done|].
    rewrite res_bind_ok. eauto.
  - by apply add_timer_effect.
  - by apply add_timer_on_effect.
  - unfold del_timer. destruct (timer_pending w t); [|rewrite res_bind_ok; eauto].
    rewrite Hlock, res_bind_ok by done. pose proof (detach_if_pending_effect J w t (OpDel t) Hwf) as Hd.
    destruct (detach_if_pending w _ t true) as [r w']. rewrite res_bind_ok. eauto.
  - unfold try_to_del_timer_sync. rewrite Hlock, res_bind_ok by done. case_bool_decide; [rewrite res_bind_ok; eauto|].
    pose proof (detach_if_pending_effect J w t (OpTryDelSync t) Hwf) as Hd.
    destruct (detach_if_pending w _ t true) as [r w']. rewrite res_bind_ok. eauto.
Qed.
End ops.

(** * Cascading: emptying a list of a coarse vector into finer ones keeps every timer, and afterwards the clock may advance. *)

(** What cascading leaves alone. *)
Record same_world (w w' : world) (a : Z) : Prop := {
  sw_now : jiffies w' = jiffies w;
  sw_bases : tvec_bases w' = tvec_bases w;
  sw_fired : fired w' = fired w;
  sw_timers : forall t, timers w' t = timers w t;
  sw_other : forall a', a' <> a -> bases w' a' = bases w a';
  sw_clock : timer_jiffies (bases w' a) = timer_jiffies (bases w a);
  sw_all : all_timers (bases w' a) = all_timers (bases w a);
  sw_active : active_timers (bases w' a) = active_timers (bases w a);
  sw_work : work_list (bases w' a) = work_list (bases w a) }.

#[global] Instance same_world_refl a : Reflexive (fun w w' => same_world w w' a).
Proof. done. Qed.

Lemma same_world_trans w1 w2 w3 a : same_world w1 w2 a -> same_world w2 w3 a -> same_world w1 w3 a.
Proof.
  intros [H1 H2 H3 H4 H5 H6 H7 H8 H9] [K1 K2 K3 K4 K5 K6 K7 K8 K9].
  split; try congruence.
  intros a' Ha. by rewrite K5, H5.
Qed.

(** The base while the vectors in [K] are ready for the next clock. *)
Record cascading (J : Z) (tm : tid -> timer_list) (b : tvec_base) (T : Z) (K : tvsel -> Prop) : Prop := {
  ca_clock : timer_jiffies b = u64 T;
  ca_len : forall s, length (tv b s) = Z.to_nat (vsize s);
  ca_vec : forall s i t, 0 <= i -> t ∈ vec b s i ->
    tok tm J T t (fun E => slot_ok s i T E /\ (K s -> slot_ok s i (T + 1) E)) }.

Lemma timers_put w t : pending (timers w t) = true ->
  forall t', (<[t := with_pending (timers w t) true]> (timers w)) t' = timers w t'.
Proof.
  intros Hp t'. destruct (decide (t' = t)) as [->|Hne]; [|by rewrite fn_lookup_insert_ne].
  rewrite fn_lookup_insert. destruct (timers w t). cbn in *. by subst.
Qed.

Section cascade.
Context (J T a : Z) (tm : tid -> timer_list).
Hypothesis HT : J - window <= T <= J + 1.

(** A timer that is to be queued again. *)
Definition requeue (t : tid) : Prop :=
  pending (tm t) = true /\ tbase_get_base (base (tm t)) = a /\ tok tm J T t (fun E => T <= E).

Lemma add_cascading w t K :
  (forall t, timers w t = tm t) -> cascading J tm (bases w a) T K -> ~ K TV1 -> requeue t ->
  let w' := __internal_add_timer w a t in
  same_world w w' a /\ cascading J tm (bases w' a) T K /\ elems (bases w' a) ≡ₚ t :: elems (bases w a).
Proof.
  intros Htm [H1 H2 H3] HK (Hp & Hb & E & He & Hr & HE). unfold __internal_add_timer.
  destruct (timer_vec (timer_jiffies (bases w a)) (expires (timers w t))) as [s i] eqn:Ev.
  rewrite H1, Htm, He in Ev. apply timer_vec_ok in Ev as (Hi & Hs & Hs1); [|unfold window in *; lia].
  assert (Hlen : 0 <= i < Z.of_nat (length (tv (bases w a) s))) by (rewrite H2; destruct s; cbn in *; lia).
  cbn [bases timers set_base set_timer]. rewrite fn_lookup_insert. split; [|split; [|by apply elems_add]].
  - split; cbn; rewrite ?fn_lookup_insert; try done.
    + apply timers_put. by rewrite Htm.
    + intros a' Ha'. by rewrite fn_lookup_insert_ne.
  - split; [done| |].
    + intros s'. unfold set_vec. rewrite tv_set_tv. destruct (decide (s = s')) as [<-|]; [|done].
      by rewrite length_insert.
    + intros s' i' t' Hi' Ht'. rewrite vec_set_vec in Ht' by done. destruct (decide (s = s' /\ i = i')) as [[<- <-]|].
      * apply elem_of_app in Ht' as [Ht'|Ht']; [by apply H3|].
        apply list_elem_of_singleton in Ht' as ->. exists E. split; [done|]. split; [done|].
        split; [done|]. intros Hk. apply Hs1. intros ->. done.
      * by apply H3.
Qed.

Lemma cascade_list_ok K l : forall w,
  (forall t, timers w t = tm t) -> cascading J tm (bases w a) T K -> ~ K TV1 -> (forall t, t ∈ l -> requeue t) ->
  exists w', cascade_list w a l = Ok w' /\ same_world w w' a /\ cascading J tm (bases w' a) T K /\
    elems (bases w' a) ≡ₚ l ++ elems (bases w a).
Proof.
  induction l as [|t l IH]; intros w Htm Hc HK Hl; cbn [cascade_list].
  { exists w. done. }
  assert (Ht : requeue t) by (apply Hl; left). rewrite Htm.
  destruct Ht as (Hp & Hb & Htok). rewrite Hb, Z.eqb_refl. cbn [negb bug_on].
  destruct (add_cascading w t K Htm Hc HK) as (Hs & Hc' & Hp'); [done|].
  destruct (IH (__internal_add_timer w a t)) as (w' & -> & Hs' & Hc'' & Hp''); [|done|done| |].
  - intros t'. by rewrite (sw_timers _ _ _ Hs).
  - intros t' Ht'. apply Hl. by right.
  - exists w'. split; [done|]. split; [by eapply same_world_trans|]. split; [done|].
    rewrite Hp'', Hp'. cbn. by rewrite Permutation_middle.
Qed.

Lemma cascade_ok K w s :
  (forall t, timers w t = tm t) -> cascading J tm (bases w a) T K -> ~ K TV1 -> s <> TV1 -> (2 ^ shift s | T) ->
  (forall t, t ∈ elems (bases w a) -> pending (tm t) = true /\ tbase_get_base (base (tm t)) = a) ->
  let i := (T / 2 ^ shift s) mod 64 in
  exists w', cascade w a s i = Ok (i, w') /\ same_world w w' a /\
    cascading J tm (bases w' a) T (fun s' => K s' \/ s' = s) /\
    elems (bases w' a) ≡ₚ elems (bases w a).
Proof.
  intros Htm Hc HK Hs Hdiv Hel i. unfold cascade. set (b := bases w a) in *. set (w1 := set_base w a _).
  destruct Hc as [H1 H2 H3].
  assert (Hi : 0 <= i < 64) by (apply Z.mod_pos_bound; lia).
  assert (Hv : vsize s = 64) by (by destruct s).
  assert (Hlen : 0 <= i < Z.of_nat (length (tv b s))) by (rewrite H2, Hv; lia).
  assert (Hturn : turns s i T) by (split; [done|by rewrite Hv]).
  assert (Hb1 : bases w1 a = set_vec b s i []) by (cbn; by rewrite fn_lookup_insert).
  assert (Hs1 : same_world w w1 a).
  { split; try done; rewrite ?Hb1; try done. intros a' Ha'. cbn. by rewrite fn_lookup_insert_ne. }
  assert (Hc1 : cascading J tm (bases w1 a) T (fun s' => K s' \/ s' = s)).
  { rewrite Hb1. split; [done| |].
    - intros s'. unfold set_vec. rewrite tv_set_tv. destruct (decide (s = s')) as [<-|]; [|done].
      by rewrite length_insert.
    - intros s' i' t Hi' Ht. rewrite vec_set_vec in Ht by done.
      destruct (decide (s = s' /\ i = i')) as [|Hne]; [by apply elem_of_nil in Ht|].
      eapply tok_mono; [|by apply H3]. intros E [HE HKE]. split; [done|]. intros [Hk | ->]; [by apply HKE|].
      apply slot_ok_advance; [done|]. intros [_ Hidx]. apply Hne. split; [done|]. rewrite Hidx, Hv. done. }
  destruct (cascade_list_ok (fun s' => K s' \/ s' = s) (vec b s i) w1) as (w' & -> & Hs' & Hc' & Hp').
  - done.
  - done.
  - by intros [? | ?].
  - intros t Ht. destruct (Hel t) as [? ?]; [by eapply vec_elem|]. split; [done|]. split; [done|].
    eapply tok_mono; [|apply (H3 s i); [lia|done]]. intros E [HE _]. by apply (slot_ok_cascade s i).
  - rewrite res_bind_ok. exists w'. split; [done|]. split; [by eapply same_world_trans|]. split; [done|].
    rewrite Hp', Hb1. rewrite (elems_set_vec b s i []) by done. done.
Qed.

Lemma INDEX_ok b n : timer_jiffies b = u64 T -> 0 <= n <= 3 -> INDEX b n = (T / 2 ^ (8 + n * 6)) mod 64.
Proof. intros Hb Hn. unfold INDEX, TVR_BITS, TVN_BITS. rewrite Hb. apply slot_index. lia. Qed.

Lemma div_next k : 0 <= k -> (2 ^ k | T) -> (T / 2 ^ k) mod 64 = 0 -> (2 ^ (k + 6) | T).
Proof.
  intros Hk [q ->] H. assert (0 < 2 ^ k) by lia. rewrite Z.div_mul in H by lia.
  apply Z.mod_divide in H as [r ->]; [|lia]. exists r. rewrite Z.pow_add_r by lia. lia.
Qed.

Lemma div_not_next k k' : 0 <= k -> k + 6 <= k' -> (T / 2 ^ k) mod 64 <> 0 -> ~ (2 ^ k' | T).
Proof.
  intros Hk Hk' H [q Hq]. apply H. rewrite Hq. replace k' with (k + (6 + (k' - k - 6))) by lia.
  rewrite !Z.pow_add_r by lia. assert (0 < 2 ^ k) by lia.
  replace (q * (2 ^ k * (2 ^ 6 * 2 ^ (k' - k - 6)))) with (q * 2 ^ (k' - k - 6) * 64 * 2 ^ k) by lia.
  rewrite Z.div_mul by lia. apply Z.mod_mul. lia.
Qed.

(** After the cascades every coarse vector is ready for the next clock. *)
Lemma cascades_ok w :
  (forall t, timers w t = tm t) -> cascading J tm (bases w a) T (fun _ => False) ->
  (forall t, t ∈ elems (bases w a) -> pending (tm t) = true /\ tbase_get_base (base (tm t)) = a) ->
  exists w', cascades w a (T mod 256) = Ok w' /\ same_world w w' a /\
    cascading J tm (bases w' a) T (fun s => s <> TV1) /\ elems (bases w' a) ≡ₚ elems (bases w a).
Proof.
  intros Htm [H1 H2 H3] Hel.
  assert (Hc : cascading J tm (bases w a) T (fun s => s <> TV1 /\ ~ (2 ^ shift s | T))).
  { split; [done..|]. intros s i t Hi Ht. eapply tok_mono; [|by apply H3]. intros E [HE _]. split; [done|].
    intros [_ Hnd]. apply slot_ok_advance; [done|]. by intros [? _]. }
  assert (Hfin : forall (K : tvsel -> Prop) b, cascading J tm b T K -> (forall s, s <> TV1 -> K s) ->
    cascading J tm b T (fun s => s <> TV1)).
  { intros K b [K1 K2 K3] HK. split; [done..|]. intros s i t Hi Ht. eapply tok_mono; [|by apply K3]. naive_solver. }
  assert (Hstep : forall (K : tvsel -> Prop) w1 s n, same_world w w1 a -> cascading J tm (bases w1 a) T K -> ~ K TV1 ->
    s <> TV1 -> shift s = 8 + n * 6 -> 0 <= n <= 3 -> (2 ^ shift s | T) -> elems (bases w1 a) ≡ₚ elems (bases w a) ->
    exists w2, cascade w1 a s (INDEX (bases w1 a) n) = Ok ((T / 2 ^ shift s) mod 64, w2) /\ same_world w w2 a /\
      cascading J tm (bases w2 a) T (fun s' => K s' \/ s' = s) /\ elems (bases w2 a) ≡ₚ elems (bases w a)).
  { intros K w1 s n Hs1 Hc1 HK Hs Hn Hn3 Hd Hp. rewrite INDEX_ok, <- Hn by (apply Hc1 || lia).
    destruct (cascade_ok K w1 s) as (w2 & -> & Hs2 & Hc2 & Hp2); try done.
    - intros t. by rewrite (sw_timers _ _ _ Hs1).
    - intros t Ht. apply Hel. by rewrite <- Hp.
    - exists w2. split; [done|]. split; [by eapply same_world_trans|]. split; [done|]. by rewrite Hp2. }
  unfold cascades. destruct (Z.eqb_spec (T mod 256) 0) as [H0|H0]; cbn [negb].
  2:{ exists w. split; [done|]. split; [done|]. split; [|done]. eapply Hfin; [exact Hc|]. intros s Hs. split; [done|].
      intros Hd. apply H0. apply Z.mod_divide; [done|]. etrans; [|exact Hd].
      exists (2 ^ (shift s - 8)). destruct s; done. }
  assert (D2 : (2 ^ shift TV2 | T)) by (apply Z.mod_divide; done).
  destruct (Hstep _ w TV2 0 ltac:(done) Hc ltac:(naive_solver) ltac:(done) ltac:(done) ltac:(lia) D2 ltac:(done))
    as (w2 & -> & Hs2 & Hc2 & Hp2). rewrite res_bind_ok.
  destruct (Z.eqb_spec ((T / 2 ^ shift TV2) mod 64) 0) as [I2|I2]; cbn [negb].
  2:{ exists w2. split; [done|]. split; [done|]. split; [|done]. eapply Hfin; [exact Hc2|].
      intros [] Hs; [done|by right|left..]; (split; [done|apply (div_not_next (shift TV2)); [cbn; lia|cbn; lia|exact I2]]). }
  pose proof (div_next (shift TV2) ltac:(cbn; lia) D2 I2) as D3.
  destruct (Hstep _ w2 TV3 1 Hs2 Hc2 ltac:(naive_solver) ltac:(done) ltac:(done) ltac:(lia) D3 Hp2)
    as (w3 & -> & Hs3 & Hc3 & Hp3). rewrite res_bind_ok.
  destruct (Z.eqb_spec ((T / 2 ^ shift TV3) mod 64) 0) as [I3|I3]; cbn [negb].
  2:{ exists w3. split; [done|]. split; [done|]. split; [|done]. eapply Hfin; [exact Hc3|].
      intros [] Hs; [done|by left; right|by right|left; left..]; (split; [done|apply (div_not_next (shift TV3)); [cbn; lia|cbn; lia|exact I3]]). }
  pose proof (div_next (shift TV3) ltac:(cbn; lia) D3 I3) as D4.
  destruct (Hstep _ w3 TV4 2 Hs3 Hc3 ltac:(naive_solver) ltac:(done) ltac:(done) ltac:(lia) D4 Hp3)
    as (w4 & -> & Hs4 & Hc4 & Hp4). rewrite res_bind_ok.
  destruct (Z.eqb_spec ((T / 2 ^ shift TV4) mod 64) 0) as [I4|I4]; cbn [negb].
  2:{ exists w4. split; [done|]. split; [done|]. split; [|done]. eapply Hfin; [exact Hc4|].
      intros [] Hs; [done|by left; left; right|by left; right|by right|left; left; left; split; [done|]].
      apply (div_not_next (shift TV4)); [cbn; lia|cbn; lia|exact I4]. }
  pose proof (div_next (shift TV4) ltac:(cbn; lia) D4 I4) as D5.
  destruct (Hstep _ w4 TV5 3 Hs4 Hc4 ltac:(naive_solver) ltac:(done) ltac:(done) ltac:(lia) D5 Hp4)
    as (w5 & -> & Hs5 & Hc5 & Hp5). rewrite res_bind_ok.
  exists w5. split; [done|]. split; [done|]. split; [|done]. eapply Hfin; [exact Hc5|].
  intros [] Hs; [done|by left; left; left; right|by left; left; right|by left; right|by right].
Qed.
End cascade.
