(* ===== verification/TimerRun.v ===== *)
(** [__run_timers]: one round of the timer softirq.

    The theory is for timer functions that respect the contracts of the timer
    interface and arm timers for a later jiffy only, with no tick during the
    run; [TimerReach] has what holds without the last two. *)
From stdpp Require Import functions.
From S2P Require Import Prelude FindBitDefs FindBit TimerDefs TimerWheel TimerInv TimerOps.

(** Timer [t] is on base [a]. *)
Definition queued (w : world) (a : Z) (t : tid) : Prop :=
  pending (timers w t) = true /\ tbase_get_base (base (timers w t)) = a.

Definition due (w : world) (t : tid) : Prop := time_after_eq (jiffies w) (expires (timers w t)) = true.

#[global] Instance due_dec w t : Decision (due w t).
Proof. unfold due. apply _. Defined.

(** The operation arms no timer for now or the past, and is not the tick. *)
Definition future (w : world) (op : timer_op) : Prop :=
  match op with
  | OpTick => False
  | _ => match op_expiry op with Some e => 1 <= s64 (e ⊖ jiffies w) | None => True end
  end.

(** The calls in the log, by timer. *)
Definition ids (log : list (tid * Z * Z)) : list tid := (fun x => x.1.1) <$> log.

Definition times (u : tid) (log : list (tid * Z * Z)) : nat := length (filter (fun x => x = u) (ids log)).

Lemma ids_app l1 l2 : ids (l1 ++ l2) = ids l1 ++ ids l2.
Proof. apply fmap_app. Qed.

Lemma times_app u l1 l2 : times u (l1 ++ l2) = (times u l1 + times u l2)%nat.
Proof. unfold times. by rewrite ids_app, filter_app, length_app. Qed.

Lemma times_notin u l : u ∉ ids l -> times u l = 0%nat.
Proof.
  unfold times. intros H. destruct (filter (fun x => x = u) (ids l)) as [|y f] eqn:Hf; [done|].
  assert (Hy : y ∈ filter (fun x => x = u) (ids l)) by (rewrite Hf; left).
  apply list_elem_of_filter in Hy as [-> Hy]. done.
Qed.

Lemma sublist_notin_length {A} (l1 l : list A) x :
  l1 `sublist_of` x :: l -> x ∉ l1 -> (length l1 <= length l)%nat.
Proof.
  intros Hs Hx. apply sublist_cons_r in Hs as [Hs|(l' & -> & Hs)]; [by apply sublist_length|].
  destruct Hx. left.
Qed.

(** ** Clocks and expiry times *)

Lemma u64_inj_near x y : u64 x = u64 y -> - 2 ^ 63 <= x - y < 2 ^ 63 -> x = y.
Proof.
  intros H Hr. pose proof (u64_sub y x) as Hs. rewrite H in Hs.
  assert (Hz : s64 (u64 (x - y)) = s64 (u64 (y - y))) by (rewrite <- Hs, <- u64_sub; done).
  rewrite !u64_signed in Hz by lia. lia.
Qed.

Lemma wheel_clock_eq J tm tm' b b' T T' :
  wheel J tm b T -> wheel J tm' b' T' -> timer_jiffies b' = timer_jiffies b -> T' = T.
Proof.
  intros [H1 H2 _ _] [K1 K2 _ _] He. apply u64_inj_near; [congruence|unfold window in *; lia].
Qed.

Lemma wheel_clock_now J tm b T : wheel J tm b T -> timer_jiffies b = u64 J -> T = J.
Proof. intros [H1 H2 _ _] He. apply u64_inj_near; [congruence|unfold window in *; lia]. Qed.

Lemma time_after_eq_near J E : - 2 ^ 63 <= J - E < 2 ^ 63 -> time_after_eq (u64 J) (u64 E) = (E <=? J).
Proof.
  intros H. unfold time_after_eq. rewrite u64_sub, u64_signed by lia. rewrite Z.geb_leb.
  apply eq_bool_prop_intro. rewrite !Is_true_true, !Z.leb_le. lia.
Qed.

Lemma due_tok J w t T (Q : Z -> Prop) :
  jiffies w = u64 J -> J - window - 1 <= T -> tok (timers w) J T t Q ->
  exists E, expires (timers w t) = u64 E /\ T - window - 1 <= E <= J + window /\ Q E /\ (due w t <-> E <= J).
Proof.
  intros Hj HT (E & He & Hr & HQ). exists E. split; [done|]. split; [done|]. split; [done|].
  unfold due. rewrite Hj, He, time_after_eq_near by (unfold window in *; lia). apply Z.leb_le.
Qed.

(** ** Between two steps of the run *)

(** The clock of base [a] is [T]; timers that are overdue are on the list of
    expired ones. *)
Record ready (J : Z) (w : world) (a T : Z) : Prop := {
  rd_wf : wf J w None;
  rd_wheel : wheel J (timers w) (bases w a) T;
  rd_late : forall t, t ∈ elems (bases w a) -> t ∉ work_list (bases w a) ->
    tok (timers w) J T t (fun E => T <= E) }.

Lemma wf_queued J w a t : wf J w None -> t ∈ elems (bases w a) <-> queued w a t.
Proof. intros Hwf. by apply (bi_mem _ _ _ _ _ (wf_base _ _ _ Hwf a)). Qed.

Lemma elems_with_work b l : work_list b = [] -> elems (with_work b l) ≡ₚ l ++ elems b.
Proof.
  intros Hw. unfold elems. cbn [tv1 tv2 tv3 tv4 tv5 work_list with_work]. rewrite Hw, app_nil_r.
  rewrite (Permutation_app_comm l). by rewrite !app_assoc.
Qed.

(** The base after the list of [tv1] that is next has been set aside. *)
Definition turned (b : tvec_base) (T : Z) : tvec_base :=
  with_work (set_vec (with_clock b (u64 (T + 1))) TV1 (T mod 256) []) (vec b TV1 (T mod 256)).

Lemma turned_ok J tm b T :
  J - window <= T <= J -> cascading J tm b T (fun s => s <> TV1) -> work_list b = [] ->
  wheel J tm (turned b T) (T + 1) /\
  (forall t, t ∈ elems (turned b T) -> t ∉ work_list (turned b T) -> tok tm J (T + 1) t (fun E => T + 1 <= E)) /\
  (forall t, t ∈ work_list (turned b T) -> tok tm J T t (fun E => E <= T)) /\
  (forall s, length (tv (turned b T) s) = Z.to_nat (vsize s)) /\
  elems (turned b T) ≡ₚ elems b.
Proof.
  intros HT [H1 H2 H3] Hw. set (i0 := T mod 256). pose proof (Z.mod_pos_bound T 256 ltac:(lia)) as Hi0. fold i0 in Hi0.
  set (b1 := with_clock b (u64 (T + 1))).
  assert (Hlen : 0 <= i0 < Z.of_nat (length (tv b1 TV1))) by (change (tv b1 TV1) with (tv b TV1); rewrite H2; cbn; lia).
  assert (Hvec : forall s i t, 0 <= i -> t ∈ vec (turned b T) s i ->
    tok tm J (T + 1) t (fun E => T + 1 <= E /\ slot_ok s i (T + 1) E)).
  { intros s i t Hi Ht. change (vec (turned b T) s i) with (vec (set_vec b1 TV1 i0 []) s i) in Ht.
    rewrite vec_set_vec in Ht by done. destruct (decide _) as [|Hne]; [by apply elem_of_nil in Ht|].
    destruct (H3 s i t Hi Ht) as (E & He & Hr & HE & HE1). exists E. split; [done|].
    enough (T + 1 <= E /\ slot_ok s i (T + 1) E) by (unfold window in *; split; [lia|done]).
    destruct (decide (s = TV1)) as [->|Hs].
    - assert (i <> i0) by (intros ->; by apply Hne). split.
      + destruct HE as [[? ->]|[? ->]]; [|done]. assert (E <> T) by (by intros ->). lia.
      + apply slot_ok_advance; [done|]. intros [_ Hidx]. cbn [shift vsize] in Hidx. change (2 ^ 0) with 1 in Hidx.
        rewrite Z.div_1_r in Hidx. done.
    - split; [|by apply HE1]. by apply (slot_ok_late s i), HE1. }
  assert (Hwork : forall t, t ∈ work_list (turned b T) -> tok tm J T t (fun E => E <= T)).
  { intros t Ht. change (t ∈ vec b TV1 i0) in Ht. eapply tok_mono; [|by apply (H3 TV1 i0); [lia|]].
    intros E [HE _]. by apply slot_ok_due. }
  split_and!.
  - split; [done|unfold window in *; lia| |].
    + intros s i t Hi Ht. eapply tok_mono; [|by apply Hvec]. by intros E [_ ?].
    + intros t Ht. replace (T + 1 - 1) with T by lia. eapply tok_mono; [|by apply Hwork]. cbn beta. intros E HE. lia.
  - intros t Ht Hn. apply elems_cases in Ht as [?|(s & i & [Hi _] & Ht)]; [done|].
    eapply tok_mono; [|by apply (Hvec s i)]. by intros E [? _].
  - done.
  - intros s. change (tv (turned b T) s) with (tv (set_vec b1 TV1 i0 []) s). unfold set_vec. rewrite tv_set_tv.
    destruct (decide _) as [<-|]; [|apply (H2 s)]. rewrite length_insert. apply (H2 TV1).
  - transitivity (vec b1 TV1 i0 ++ elems (set_vec b1 TV1 i0 [])); [|by rewrite elems_set_vec].
    by apply elems_with_work.
Qed.

Lemma turned_wf J w w1 a T :
  wf J w None -> same_world w w1 a -> J - window <= T + 1 <= J + 1 ->
  wheel J (timers w) (turned (bases w1 a) T) (T + 1) ->
  (forall s, length (tv (turned (bases w1 a) T) s) = Z.to_nat (vsize s)) ->
  elems (turned (bases w1 a) T) ≡ₚ elems (bases w a) ->
  wf J (set_base w1 a (turned (bases w1 a) T)) None.
Proof.
  intros Hwf [S1 S2 S3 S4 S5 S6 S7 S8 S9] HT Hwh Hlen Hp. split; cbn [jiffies tvec_bases timers bases set_base].
  - rewrite S1. apply Hwf.
  - rewrite S2. apply Hwf.
  - intros t. rewrite S4. apply Hwf.
  - intros a'. destruct (decide (a' = a)) as [->|Hne].
    + rewrite fn_lookup_insert. destruct (wf_base _ _ _ Hwf a) as [H1 H2 H3 H4 H5 H6 _]. split.
      * done.
      * by rewrite Hp.
      * intros t Ht. rewrite Hp, S4. by apply H3.
      * done.
      * rewrite Hp. change (all_timers (turned (bases w1 a) T)) with (all_timers (bases w1 a)). by rewrite S7.
      * rewrite Hp. rewrite (filter_nondef_frame (timers w) (timers w1)) by (intros; by rewrite S4).
        change (active_timers (turned (bases w1 a) T)) with (active_timers (bases w1 a)). by rewrite S8.
      * exists (T + 1). eapply wheel_frame; [|done]. intros t _. by rewrite S4.
    + rewrite fn_lookup_insert_ne, S5 by done. eapply base_inv_frame; [apply Hwf|done| |done].
      intros t _ Hn. rewrite S4. intros Hq. by apply Hn, (wf_base _ _ _ Hwf a').
Qed.

Section run.
Context (nf : Z -> bool) (fn : tid -> world -> list timer_op) (J a : Z).

(** The timers no timer function touches. *)
Context (U : tid -> Prop).

Fixpoint ops_ok (w : world) (ops : list timer_op) : Prop :=
  match ops with
  | [] => True
  | op :: ops => op_ok w op /\ future w op /\ forall w', do_op nf w op = Ok w' -> ops_ok w' ops
  end.

Definition untouched (ops : list timer_op) : Prop := forall u op, U u -> op ∈ ops -> op_timer op <> Some u.

(** What may happen between two states of the run, with the calls logged. *)
Record ran (log : list (tid * Z * Z)) (w w' : world) : Prop := {
  rn_now : jiffies w' = jiffies w;
  rn_fired : fired w' = fired w ++ log;
  rn_keep : forall u, U u -> u ∉ ids log -> timers w' u = timers w u;
  rn_done : forall u, U u -> u ∈ ids log ->
    queued w a u /\ timers w' u = with_pending (timers w u) false /\ times u log = 1%nat;
  rn_due : forall x, queued w' a x -> due w' x -> timers w' x = timers w x /\ x ∉ ids log;
  rn_log : forall x e j, (x, e, j) ∈ log ->
    j = jiffies w /\ time_after_eq j e = true /\ (U x -> e = expires (timers w x));
  rn_other : forall a', a' <> a -> work_list (bases w' a') `sublist_of` work_list (bases w a') }.

Lemma ran_refl w : ran [] w w.
Proof.
  split; [done|by rewrite app_nil_r|done|by intros u _ ?%elem_of_nil| |by intros x e j ?%elem_of_nil|done].
  intros x _ _. split; [done|apply not_elem_of_nil].
Qed.

Lemma due_same w w' x : jiffies w' = jiffies w -> timers w' x = timers w x -> due w' x -> due w x.
Proof. unfold due. by intros -> ->. Qed.

Lemma queued_same w w' x : timers w' x = timers w x -> queued w' a x -> queued w a x.
Proof. unfold queued. by intros ->. Qed.

Lemma ran_trans l1 l2 w1 w2 w3 : ran l1 w1 w2 -> ran l2 w2 w3 -> ran (l1 ++ l2) w1 w3.
Proof.
  intros [H1 H2 H3 H4 H5 H6 H7] [K1 K2 K3 K4 K5 K6 K7].
  assert (Hex : forall u, U u -> u ∈ ids l1 -> u ∉ ids l2).
  { intros u Hu Hin Hin2. destruct (H4 u Hu Hin) as (_ & Ht & _). destruct (K4 u Hu Hin2) as ([Hp _] & _).
    rewrite Ht in Hp. done. }
  split.
  - congruence.
  - by rewrite K2, H2, app_assoc.
  - intros u Hu Hn. rewrite ids_app, elem_of_app in Hn. rewrite K3, H3; [done|done|tauto|done|tauto].
  - intros u Hu Hin. rewrite ids_app, elem_of_app in Hin. rewrite times_app.
    destruct (decide (u ∈ ids l1)) as [Hin1|Hn1].
    + pose proof (Hex u Hu Hin1) as Hn2. destruct (H4 u Hu Hin1) as (Hq & Ht & Hc).
      split; [done|]. rewrite K3 by done. split; [done|]. rewrite (times_notin _ l2) by done. lia.
    + destruct Hin as [|Hin2]; [done|]. destruct (K4 u Hu Hin2) as (Hq & Ht & Hc).
      pose proof (H3 u Hu Hn1) as He. split; [by eapply queued_same|].
      rewrite Ht, He. split; [done|]. rewrite (times_notin _ l1) by done. lia.
  - intros x Hq Hd. destruct (K5 x Hq Hd) as [He2 Hn2].
    destruct (H5 x) as [He1 Hn1]; [by eapply queued_same|by eapply due_same|].
    split; [congruence|]. rewrite ids_app, elem_of_app. tauto.
  - intros x e j Hin. apply elem_of_app in Hin as [Hin|Hin]; [by apply H6|].
    destruct (K6 x e j Hin) as (Hj & Hd & He). split; [congruence|]. split; [done|]. intros Hu.
    rewrite He by done. f_equal. apply H3; [done|]. intros Hin1. apply (Hex x Hu Hin1).
    apply list_elem_of_fmap. by exists (x, e, j).
  - intros a' Ha'. etrans; [by apply K7|by apply H7].
Qed.

(** The clock of the base and its list of expired timers. *)
Record base_ran (log : list (tid * Z * Z)) (w : world) (T : Z) (w' : world) (T' : Z) : Prop := {
  br_clock : T' = T \/ (T' = J /\ forall u, U u -> ~ queued w' a u);
  br_work : work_list (bases w' a) `sublist_of` work_list (bases w a);
  br_from : forall x, x ∈ ids log -> x ∈ work_list (bases w a);
  br_keep : forall u, U u -> u ∈ work_list (bases w a) -> u ∉ ids log -> u ∈ work_list (bases w' a) }.

Lemma base_ran_trans l1 l2 w1 T1 w2 T2 w3 T3 :
  ran l2 w2 w3 -> base_ran l1 w1 T1 w2 T2 -> base_ran l2 w2 T2 w3 T3 -> base_ran (l1 ++ l2) w1 T1 w3 T3.
Proof.
  intros Hr [H1 H2 H3 H4] [K1 K2 K3 K4]. split.
  - destruct K1 as [-> | ?]; [|by right]. destruct H1 as [-> | [-> H1]]; [by left|]. right. split; [done|].
    intros u Hu Hq. apply (H1 u Hu). destruct (decide (u ∈ ids l2)) as [Hin|Hn]; [by apply (rn_done _ _ _ Hr)|].
    eapply queued_same; [by apply (rn_keep _ _ _ Hr)|done].
  - by etrans.
  - intros x. rewrite ids_app, elem_of_app. intros [Hx|Hx]; [by apply H3|]. eapply elem_of_sublist; [by apply K3|done].
  - intros u Hu Hw. rewrite ids_app, elem_of_app. intros Hn. apply K4; [done| |tauto]. apply H4; [done..|tauto].
Qed.

(** *** A change to one timer *)

Lemma frame_ready w w' T t :
  ready J w a T -> wf J w' None -> op_frame w w' t ->
  (forall T', wheel J (timers w') (bases w' a) T' -> queued w' a t -> t ∉ work_list (bases w' a) ->
     tok (timers w') J T' t (fun E => T' <= E)) ->
  exists T', ready J w' a T' /\ (T' = T \/ (T' = J /\ forall x, x <> t -> ~ queued w' a x)).
Proof.
  intros [Hwf Hwh Hlate] Hwf' Hf Ht.
  destruct (bi_wheel _ _ _ _ _ (wf_base _ _ _ Hwf' a)) as [T' Hwh'].
  pose proof (of_base _ _ _ Hf a) as [Hc Hsub Hkeep Hel]. rewrite (wf_now _ _ _ Hwf) in Hc.
  assert (HcT : T' = T \/ (T' = J /\ forall x, x <> t -> ~ queued w' a x)).
  { destruct Hc as [Hc|[Hc He]]; [left; by eapply wheel_clock_eq|right]. split; [by eapply wheel_clock_now|].
    intros x Hne Hq. apply (wf_queued J) in Hq; [|done]. apply Hel in Hq; [|done]. by apply Hne, He. }
  exists T'. split; [|done]. split; [done..|]. intros x Hx Hnw. destruct (decide (x = t)) as [->|Hne].
  - apply Ht; [done| |done]. by apply (wf_queued J).
  - destruct HcT as [-> | [_ Hall]]; [|by destruct (Hall x Hne); apply (wf_queued J)].
    eapply tok_frame; [|apply Hlate; [by apply Hel|]]; [by rewrite (of_timers _ _ _ Hf)|].
    intros Hw. apply Hnw. by apply Hkeep.
Qed.

(** *** An operation of a timer function *)

Lemma do_op_ready w T op :
  ready J w a T -> op_ok w op -> future w op -> (forall u, U u -> op_timer op <> Some u) ->
  exists w' T', do_op nf w op = Ok w' /\ ready J w' a T' /\ ran [] w w' /\ base_ran [] w T w' T'.
Proof.
  intros Hrd Hok Hfut HU. pose proof Hrd as [Hwf Hwh Hlate].
  destruct (do_op_wf nf J w op Hwf Hok) as (w' & -> & Hwf' & Heff).
  assert (Hop : exists t, op_timer op = Some t) by (destruct op; cbn in *; naive_solver).
  destruct Hop as [t Ht]. unfold op_effect in Heff. rewrite Ht in Heff. destruct Heff as [Hf Heff].
  assert (tick_of op = 0) as Htick by (by destruct op). rewrite Htick, Z.add_0_r in Hwf'.
  assert (HtU : forall u, U u -> u <> t) by (intros u Hu ->; by apply (HU t)).
  assert (Hexp : forall e, op_expiry op = Some e -> 1 <= s64 (e ⊖ jiffies w)).
  { intros e He. unfold future in Hfut. rewrite He in Hfut. by destruct op. }
  destruct (frame_ready w w' T t Hrd Hwf' Hf) as (T' & Hrd' & HcT).
  { intros T' Hwh' Hq Hnw. destruct Heff as [-> | [Hp|(e & E & He & Hp & Hex & HE)]].
    - assert (T' = T) as -> by (by eapply wheel_clock_eq). apply Hlate; [by apply (wf_queued J)|done].
    - destruct Hq; congruence.
    - exists E. split; [done|]. pose proof (wh_lag _ _ _ _ Hwh'). apply Hexp in He. unfold window in *. lia. }
  exists w', T'. split; [done|]. split; [done|]. split.
  - split; [apply Hf|by rewrite (of_fired _ _ _ Hf), app_nil_r| |by intros u _ ?%elem_of_nil| |by intros x e j ?%elem_of_nil|].
    + intros u Hu _. by apply (of_timers _ _ _ Hf), HtU.
    + intros x Hq Hd. split; [|apply not_elem_of_nil]. destruct (decide (x = t)) as [->|Hne]; [|by apply (of_timers _ _ _ Hf)].
      destruct Heff as [-> | [Hp|(e & E & He & Hp & Hex & HE)]]; [done|by destruct Hq; congruence|].
      exfalso. apply Hexp in He.
      unfold due in Hd. rewrite (wf_now _ _ _ Hwf'), Hex, time_after_eq_near in Hd by (unfold window in *; lia).
      apply Z.leb_le in Hd. lia.
    + intros a' _. apply (of_base _ _ _ Hf a').
  - pose proof (of_base _ _ _ Hf a) as [_ Hsub Hkeep _]. split; [|done|by intros x ?%elem_of_nil|].
    + destruct HcT as [-> | [-> Hall]]; [by left|]. right. split; [done|]. intros u Hu. by apply Hall, HtU.
    + intros u Hu Hw _. apply Hkeep; [by apply HtU|done].
Qed.

Lemma do_ops_ready ops : forall w T,
  ready J w a T -> ops_ok w ops -> untouched ops ->
  exists w' T', do_ops nf w ops = Ok w' /\ ready J w' a T' /\ ran [] w w' /\ base_ran [] w T w' T'.
Proof.
  induction ops as [|op ops IH]; intros w T Hr Hok HU; cbn [do_ops].
  - exists w, T. split; [done|]. split; [done|]. split; [apply ran_refl|].
    split; [by left|done|by intros x ?%elem_of_nil|done].
  - destruct Hok as (Hop & Hfut & Hrest).
    destruct (do_op_ready w T op Hr Hop Hfut) as (w1 & T1 & Hdo & Hr1 & Hran1 & Hb1).
    { intros u Hu. apply (HU u op Hu). by left. }
    rewrite Hdo, res_bind_ok.
    destruct (IH w1 T1 Hr1 (Hrest w1 Hdo)) as (w2 & T2 & -> & Hr2 & Hran2 & Hb2).
    { intros u op' Hu Hin. apply (HU u op' Hu). by right. }
    exists w2, T2. split; [done|]. split; [done|]. split.
    + by apply (ran_trans [] [] w w1 w2).
    + by eapply (base_ran_trans [] []).
Qed.
(** *** A timer expires *)

Hypothesis fn_ok : forall t w, wf J w None -> ops_ok w (fn t w).
Hypothesis fn_untouched : forall t w, untouched (fn t w).

Lemma ready_fired w T f :
  ready J w a T ->
  ready J (mkWorld (jiffies w) (timers w) (bases w) (tvec_bases w) (kicked w) f) a T.
Proof. intros [[H1 H2 H3 H4] Hwh Hl]. by split; [split|..]. Qed.

Lemma running_wf w t : wf J w None -> wf J (set_base w a (with_running (bases w a) t)) None.
Proof.
  intros Hwf. split; [apply Hwf..|]. intros a'. cbn. destruct (decide (a' = a)) as [->|Hne].
  - rewrite fn_lookup_insert. by eapply base_inv_same; [..|apply Hwf].
  - rewrite fn_lookup_insert_ne by done. apply Hwf.
Qed.

Lemma running_frame w t t' : op_frame w (set_base w a (with_running (bases w a) t)) t'.
Proof.
  split; [done..|]. intros a'. cbn. destruct (decide (a' = a)) as [->|Hne].
  - rewrite fn_lookup_insert. by apply same_lists_frame.
  - by rewrite fn_lookup_insert_ne.
Qed.

Lemma expire_step_ready w T t l :
  ready J w a T -> work_list (bases w a) = t :: l ->
  exists w' T' log, expire_step nf fn a w = Ok (inl w') /\ ready J w' a T' /\ ran log w w' /\
    base_ran log w T w' T' /\ log <> [] /\ (length (work_list (bases w' a)) <= length l)%nat.
Proof.
  intros Hrd Hwk. pose proof Hrd as [Hwf Hwh Hlate]. unfold expire_step. rewrite Hwk.
  set (w1 := set_base w a _).
  assert (Hwf1 : wf J w1 None) by (by apply running_wf).
  assert (Hf1 : op_frame w w1 t) by apply running_frame.
  assert (Hb1 : bases w1 a = with_running (bases w a) (Some t)) by (cbn; by rewrite fn_lookup_insert).
  assert (Hin : t ∈ elems (bases w1 a)).
  { rewrite Hb1. unfold elems. rewrite !elem_of_app. cbn. rewrite Hwk. do 5 right. left. }
  destruct (detach_expired_wf J w1 a t Hwf1 Hin) as (Hwf2 & Hf2 & Ht2).
  set (w2 := detach_expired_timer w1 a t) in *. pose proof (op_frame_trans _ _ _ _ Hf1 Hf2) as Hf.
  change (timers w1 t) with (timers w t) in Ht2.
  destruct (frame_ready w w2 T t Hrd Hwf2 Hf) as (T2 & Hrd2 & HcT).
  { intros T' _ [Hp _]. by rewrite Ht2 in Hp. }
  unfold call_timer_fn. set (log := [(t, expires (timers w2 t), jiffies w2)]).
  set (w3 := mkWorld _ _ _ _ _ _).
  assert (Hrd3 : ready J w3 a T2) by (by apply ready_fired).
  destruct (wh_work _ _ _ _ Hwh t) as (E & HE & Hr & Hlt); [rewrite Hwk; left|].
  pose proof (wh_lag _ _ _ _ Hwh) as Hlag.
  assert (Hq : queued w a t) by (apply (wf_queued J w1 a t Hwf1) in Hin; done).
  assert (Hran3 : ran log w w3).
  { split.
    - apply Hf.
    - cbn [fired w3]. rewrite (of_fired _ _ _ Hf). done.
    - intros u Hu Hn. apply (of_timers _ _ _ Hf). intros ->. apply Hn. left.
    - intros u Hu Hl. apply list_elem_of_singleton in Hl as ->. split; [done|]. split; [done|].
      unfold times. cbn. rewrite decide_True by done. done.
    - intros x [Hp _] Hd. assert (x <> t) by (intros ->; change (pending (timers w2 t) = true) in Hp; by rewrite Ht2 in Hp).
      split; [by apply (of_timers _ _ _ Hf)|]. by apply not_elem_of_cons; split; [|apply not_elem_of_nil].
    - intros x e j Hl. apply list_elem_of_singleton in Hl.
      assert (x = t /\ e = expires (timers w2 t) /\ j = jiffies w2) as (-> & -> & ->) by (injection Hl; auto). rewrite Ht2. cbn [expires with_pending].
      rewrite (of_now _ _ _ Hf). split; [done|]. split; [|done].
      rewrite (wf_now _ _ _ Hwf), HE, time_after_eq_near by (unfold window in *; lia). apply Z.leb_le. lia.
    - intros a' _. apply (of_base _ _ _ Hf a'). }
  pose proof (of_base _ _ _ Hf a) as [_ Hsub Hkeep _].
  assert (Hbr3 : base_ran log w T w3 T2).
  { split.
    - destruct HcT as [-> | [-> Hall]]; [by left|]. right. split; [done|]. intros u Hu Hqu.
      destruct (decide (u = t)) as [->|Hne]; [|by apply (Hall u Hne)]. destruct Hqu as [Hp _].
      change (pending (timers w2 t) = true) in Hp. by rewrite Ht2 in Hp.
    - done.
    - intros x Hx. apply list_elem_of_singleton in Hx as ->. rewrite Hwk. left.
    - intros u Hu Hw Hn. apply Hkeep; [|done]. intros ->. apply Hn. left. }
  destruct (do_ops_ready (fn t w3) w3 T2 Hrd3 (fn_ok t w3 (rd_wf _ _ _ _ Hrd3)) (fn_untouched t w3))
    as (w4 & T4 & -> & Hrd4 & Hran4 & Hbr4).
  rewrite res_bind_ok. exists w4, T4, (log ++ []). split; [done|]. split; [done|].
  split; [by eapply ran_trans|]. split; [by eapply base_ran_trans|]. split; [done|].
  pose proof (sublist_length _ _ (br_work _ _ _ _ _ Hbr4)) as Hlen4.
  enough (length (work_list (bases w3 a)) <= length l)%nat by lia. clear Hlen4.
  assert (Hnt : t ∉ work_list (bases w2 a)).
  { intros Hw. assert (Hel : t ∈ elems (bases w2 a)) by (unfold elems; rewrite !elem_of_app; tauto).
    apply (wf_queued J) in Hel as [Hp _]; [|done]. by rewrite Ht2 in Hp. }
  rewrite Hwk in Hsub. change (work_list (bases w3 a)) with (work_list (bases w2 a)).
  by eapply sublist_notin_length.
Qed.

(** *** All expired timers run *)

Lemma expire_loop w T fuel :
  ready J w a T -> (length (work_list (bases w a)) < fuel)%nat ->
  exists w', loop fuel (expire_step nf fn a) w = Ok w' /\ exists T' log, ready J w' a T' /\ ran log w w' /\
    base_ran log w T w' T' /\ (log = [] -> T' = T) /\ work_list (bases w' a) = [].
Proof.
  intros Hrd Hfuel.
  apply (loop_total _ (fun w' => exists T' log, ready J w' a T' /\ ran log w w' /\ base_ran log w T w' T' /\
                                   (log = [] -> T' = T)) _
           (fun w' => length (work_list (bases w' a)))); [|by exists T, []; split_and!; [|apply ran_refl|split; [by left|done|by intros x ?%elem_of_nil|done]|]|done].
  intros w1 (T1 & log1 & Hrd1 & Hran1 & Hbr1 & Hnil1). destruct (work_list (bases w1 a)) as [|t l] eqn:Hwk.
  - right. exists w1. unfold expire_step. rewrite Hwk. split; [done|]. by exists T1, log1.
  - left. destruct (expire_step_ready w1 T1 t l Hrd1 Hwk) as (w2 & T2 & log2 & -> & Hrd2 & Hran2 & Hbr2 & Hne & Hlen).
    exists w2. split; [done|]. split; [|cbn; lia]. exists T2, (log1 ++ log2). split; [done|].
    split; [by eapply ran_trans|]. split; [by eapply base_ran_trans|]. by intros [_ ->]%app_eq_nil.
Qed.

(** *** One turn of the clock *)

(** The clock of the base is moved on: what is left of the step is to run the
    timers of the list that was set aside. *)
Lemma run_step_turn w T :
  wf J w None -> wheel J (timers w) (bases w a) T -> work_list (bases w a) = [] -> T <= J ->
  exists w1, run_step nf fn a w =
      (w ← loop (S (length (work_list (turned (bases w1 a) T)))) (expire_step nf fn a)
             (set_base w1 a (turned (bases w1 a) T)); Ok (inl w)) /\
    same_world w w1 a /\ elems (bases w1 a) ≡ₚ elems (bases w a) /\
    wf J (set_base w1 a (turned (bases w1 a) T)) None /\
    wheel J (timers w) (turned (bases w1 a) T) (T + 1) /\
    (forall t, t ∈ elems (turned (bases w1 a) T) -> t ∉ work_list (turned (bases w1 a) T) ->
       tok (timers w) J (T + 1) t (fun E => T + 1 <= E)) /\
    (forall t, t ∈ work_list (turned (bases w1 a) T) -> tok (timers w) J T t (fun E => E <= T)) /\
    (forall s, length (tv (turned (bases w1 a) T) s) = Z.to_nat (vsize s)) /\
    elems (turned (bases w1 a) T) ≡ₚ elems (bases w1 a).
Proof.
  intros Hwf Hwh Hwk HTJ. pose proof (wf_base _ _ _ Hwf a) as Hb. unfold run_step.
  pose proof (wh_lag _ _ _ _ Hwh) as Hlag.
  rewrite (wf_now _ _ _ Hwf), (wh_clock _ _ _ _ Hwh), time_after_eq_near by (unfold window in *; lia).
  rewrite (proj2 (Z.leb_le T J)), slot_index_root by done.
  destruct (cascades_ok J T a (timers w) Hlag w) as (w1 & -> & Hs1 & Hc1 & Hp1); [done| | |].
  { split; [apply Hwh|apply Hb|]. intros s i t Hi Ht. eapply tok_mono; [|by apply Hwh]. done. }
  { intros t Ht. by apply (wf_queued J). }
  rewrite res_bind_ok. pose proof (ca_clock _ _ _ _ _ Hc1) as Hck.
  rewrite Hck. change (u64 T ⊕ 1) with (u64 (u64 T + 1)). rewrite u64_add_l.
  change (vec (with_clock (bases w1 a) (u64 (T + 1))) TV1 (T mod 256)) with (vec (bases w1 a) TV1 (T mod 256)).
  fold (turned (bases w1 a) T). exists w1. split; [done|]. split; [done|]. split; [done|].
  destruct (turned_ok J (timers w) (bases w1 a) T) as (Hwh2 & Hlate2 & Hdue2 & Hlen2 & Hp2);
    [lia|done|by rewrite (sw_work _ _ _ Hs1)|].
  split; [|done]. apply (turned_wf J w w1 a T); [done|done|lia|done|done|by rewrite Hp2].
Qed.

Lemma run_step_head w T :
  wf J w None -> wheel J (timers w) (bases w a) T -> work_list (bases w a) = [] -> T <= J ->
  exists w' T' log, run_step nf fn a w = Ok (inl w') /\ ready J w' a T' /\ work_list (bases w' a) = [] /\
    ran log w w' /\ (T' = T + 1 \/ (T' = J /\ log <> [] /\ forall u, U u -> ~ queued w' a u)) /\
    (forall x, x ∈ ids log -> queued w a x) /\
    forall x, queued w a x -> tok (timers w) J T x (fun E => (x ∈ ids log -> E <= T) /\ (U x -> E <= T -> x ∈ ids log)).
Proof.
  intros Hwf Hwh Hwk HTJ. destruct (run_step_turn w T Hwf Hwh Hwk HTJ) as (w1 & -> & Hs1 & Hp1 & Hwf2 & Ht2).
  destruct Ht2 as (Hwh2 & Hlate2 & Hdue2 & Hlen2 & Hp2).
  set (w2 := set_base w1 a (turned (bases w1 a) T)) in *.
  assert (Hb2 : bases w2 a = turned (bases w1 a) T) by (cbn; by rewrite fn_lookup_insert).
  assert (Hrd2 : ready J w2 a (T + 1)).
  { split; [done|..].
    - rewrite Hb2. eapply wheel_frame; [|done]. intros t _. cbn. by rewrite (sw_timers _ _ _ Hs1).
    - rewrite Hb2. intros t Ht Hn. eapply tok_frame; [|by apply Hlate2]. cbn. by rewrite (sw_timers _ _ _ Hs1). }
  assert (Hran2 : ran [] w w2).
  { split; cbn [jiffies fired timers w2 set_base]; [apply Hs1|by rewrite (sw_fired _ _ _ Hs1), app_nil_r| |by intros u _ ?%elem_of_nil| |by intros x e j ?%elem_of_nil|].
    - intros u _ _. apply Hs1.
    - intros x _ _. split; [apply Hs1|apply not_elem_of_nil].
    - intros a' Ha'. cbn. rewrite fn_lookup_insert_ne by done. by rewrite (sw_other _ _ _ Hs1). }
  destruct (expire_loop w2 (T + 1) (S (length (work_list (turned (bases w1 a) T)))) Hrd2)
    as (w3 & -> & T3 & log & Hrd3 & Hran3 & Hbr3 & Hnil & Hwk3); [rewrite Hb2; lia|].
  rewrite res_bind_ok. exists w3, T3, log. split; [done|]. split; [done|]. split; [done|].
  split; [by apply (ran_trans [] log w w2 w3)|].
  assert (Hqw : forall x, x ∈ elems (turned (bases w1 a) T) <-> queued w a x).
  { intros x. rewrite Hp2, Hp1. by apply (wf_queued J). }
  assert (Hlogw : forall x, x ∈ ids log -> x ∈ work_list (turned (bases w1 a) T)).
  { intros x Hx. rewrite <- Hb2. by apply (br_from _ _ _ _ _ Hbr3). }
  split; [|split].
  - destruct (br_clock _ _ _ _ _ Hbr3) as [?|[-> Hno]]; [by left|].
    destruct log as [|p log]; [left; by apply Hnil|]. right. done.
  - intros x Hx%Hlogw. apply Hqw. unfold elems. rewrite !elem_of_app. tauto.
  - intros x Hq%Hqw. destruct (decide (x ∈ work_list (turned (bases w1 a) T))) as [Hw|Hn].
    + eapply tok_mono; [|by apply Hdue2]. intros E HE. split; [done|]. intros Hu _.
      destruct (decide (x ∈ ids log)) as [|Hnl]; [done|]. exfalso.
      apply (not_elem_of_nil x). rewrite <- Hwk3. apply (br_keep _ _ _ _ _ Hbr3); [done|by rewrite Hb2|done].
    + destruct (Hlate2 x Hq Hn) as (E & He & Hr & HE). exists E. split; [done|]. split; [lia|].
      split; [by intros Hx%Hlogw|]. lia.
Qed.
End run.
