(* ===== verification/TimerProps.v ===== *)
(** What one run of the timer softirq guarantees. *)
From stdpp Require Import functions.
From S2P Require Import Prelude FindBitDefs FindBit TimerDefs TimerWheel TimerInv TimerOps TimerRun.

(** The timers no timer function touches. *)
Definition left_alone (fn : tid -> world -> list timer_op) (u : tid) : Prop :=
  forall t w op, op ∈ fn t w -> op_timer op <> Some u.

(** How many jiffies after the clock of base [a] the timer expires. *)
Definition lateness (w : world) (a : Z) (u : tid) : Z :=
  Z.max 0 (s64 (expires (timers w u) ⊖ timer_jiffies (bases w a))).

(** The timers of [U] are called in the order of their expiry. *)
Definition in_order (U : tid -> Prop) (key : tid -> Z) (l : list tid) : Prop :=
  forall i j u v, (i < j)%nat -> l !! i = Some u -> l !! j = Some v -> U u -> U v -> key u <= key v.

Lemma in_order_app U key l1 l2 :
  in_order U key l1 -> in_order U key l2 ->
  (forall u v, u ∈ l1 -> v ∈ l2 -> U u -> U v -> key u <= key v) -> in_order U key (l1 ++ l2).
Proof.
  intros H1 H2 H12 i j u v Hij Hi Hj Hu Hv.
  apply lookup_app_Some in Hi as [Hi|[Hi Hi2]], Hj as [Hj|[Hj Hj2]].
  - by eapply (H1 i j).
  - apply H12; [by eapply list_elem_of_lookup_2|by eapply list_elem_of_lookup_2|done|done].
  - apply lookup_lt_Some in Hj. lia.
  - eapply (H2 (i - length l1)%nat (j - length l1)%nat); [lia|done..].
Qed.

Lemma in_order_const U key k l : (forall u, u ∈ l -> U u -> key u = k) -> in_order U key l.
Proof.
  intros H i j u v _ Hi Hj Hu Hv. apply list_elem_of_lookup_2 in Hi, Hj.
  rewrite (H u), (H v) by done. lia.
Qed.

(** ** Progress *)

Definition due_count (w : world) (a : Z) : nat := length (filter (due w) (elems (bases w a))).

Definition run_measure (a : Z) (w : world) : nat :=
  (2 * due_count w a + Z.to_nat (s64 (jiffies w ⊖ timer_jiffies (bases w a)) + 1))%nat.

Section run.
Context (nf : Z -> bool) (fn : tid -> world -> list timer_op) (J a : Z).
Hypothesis fn_ok : forall t w, wf J w None -> ops_ok nf w (fn t w).
Let U := left_alone fn.

Lemma fn_untouched t w : untouched U (fn t w).
Proof. intros u op Hu Hin. by apply (Hu t w op). Qed.

Lemma due_count_ran log w w' :
  wf J w None -> wf J w' None -> ran a U log w w' ->
  (forall x, x ∈ ids log -> queued w a x /\ due w x) ->
  (due_count w' a + (if log is [] then 0 else 1) <= due_count w a)%nat.
Proof.
  intros Hwf Hwf' Hr Hlog. unfold due_count.
  assert (Hsub : forall x, x ∈ filter (due w') (elems (bases w' a)) ->
    x ∈ filter (due w) (elems (bases w a)) /\ x ∉ ids log).
  { intros x [Hd Hx]%list_elem_of_filter. apply (wf_queued J) in Hx; [|done].
    destruct (rn_due _ _ _ _ _ Hr x Hx Hd) as [He Hn]. split; [|done]. apply list_elem_of_filter.
    split; [eapply due_same; [apply Hr|done..]|]. apply (wf_queued J); [done|]. by eapply queued_same. }
  assert (Hnd : NoDup (filter (due w') (elems (bases w' a)))) by (apply NoDup_filter, Hwf').
  destruct log as [|[[x e] j] log].
  - rewrite Nat.add_0_r. apply submseteq_length, NoDup_submseteq; [done|]. intros x Hx. by apply Hsub.
  - enough (length (x :: filter (due w') (elems (bases w' a))) <= length (filter (due w) (elems (bases w a))))%nat
      by (cbn in *; lia).
    apply submseteq_length, NoDup_submseteq.
    + apply NoDup_cons. split; [|done]. intros Hx%Hsub. destruct Hx as [_ Hx]. apply Hx. left.
    + intros y [->|Hy]%elem_of_cons; [|by apply Hsub]. destruct (Hlog x) as [Hq Hd]; [left|].
      apply list_elem_of_filter. split; [done|]. by apply (wf_queued J).
Qed.

(** The state at the head of the loop, after at least one turn. *)
Definition head_inv (w0 : world) (T0 : Z) (w : world) : Prop :=
  exists T log, ready J w a T /\ work_list (bases w a) = [] /\ ran a U log w0 w /\ T0 <= T /\
    in_order U (lateness w0 a) (ids log) /\
    ((forall u, u ∈ ids log -> U u -> T0 + lateness w0 a u < T) \/ forall u, U u -> ~ queued w a u).

Lemma lateness_eq w0 u T0 E : wf J w0 None -> timer_jiffies (bases w0 a) = u64 T0 ->
  expires (timers w0 u) = u64 E -> - 2 ^ 63 <= E - T0 < 2 ^ 63 -> lateness w0 a u = Z.max 0 (E - T0).
Proof. intros Hwf HT HE Hr. unfold lateness. rewrite HE, HT, u64_sub, u64_signed; done. Qed.

Lemma turn_measure w T w' T' log :
  wf J w None -> wheel J (timers w) (bases w a) T -> T <= J -> ready J w' a T' -> ran a U log w w' ->
  (T' = T + 1 \/ (T' = J /\ log <> [] /\ forall u, U u -> ~ queued w' a u)) ->
  (forall x, x ∈ ids log -> queued w a x) ->
  (forall x, queued w a x -> tok (timers w) J T x (fun E => (x ∈ ids log -> E <= T) /\ (U x -> E <= T -> x ∈ ids log))) ->
  (run_measure a w' < run_measure a w)%nat.
Proof.
  intros Hwf Hwh HT Hrd Hr HT' Hq Htok. unfold run_measure.
  rewrite (wf_now _ _ _ (rd_wf _ _ _ _ Hrd)), (wheel_lag_signed _ _ _ _ (rd_wheel _ _ _ _ Hrd)).
  rewrite (wf_now _ _ _ Hwf), (wheel_lag_signed _ _ _ _ Hwh).
  pose proof (due_count_ran log w w' Hwf (rd_wf _ _ _ _ Hrd) Hr) as Hd.
  specialize (Hd ltac:(intros x Hx; split; [by apply Hq|];
    destruct (due_tok J w x T _ (wf_now _ _ _ Hwf) ltac:(pose proof (wh_lag _ _ _ _ Hwh); lia) (Htok x (Hq x Hx)))
      as (E & _ & _ & [HE _] & Hdue); apply Hdue; specialize (HE Hx); lia)).
  destruct HT' as [-> | (-> & Hne & _)]; [lia|]. destruct log; [done|lia].
Qed.

Lemma first_turn w0 T0 :
  wf J w0 None -> wheel J (timers w0) (bases w0 a) T0 -> work_list (bases w0 a) = [] -> T0 <= J ->
  exists w, run_step nf fn a w0 = Ok (inl w) /\ head_inv w0 T0 w /\ (run_measure a w < run_measure a w0)%nat.
Proof.
  intros Hwf Hwh Hwk HT.
  destruct (run_step_head nf fn J a U fn_ok fn_untouched w0 T0 Hwf Hwh Hwk HT)
    as (w & T & log & -> & Hrd & Hwk' & Hr & HT' & Hq & Htok).
  exists w. split; [done|]. split; [|by eapply turn_measure].
  assert (Hz : forall u, u ∈ ids log -> U u -> lateness w0 a u = 0).
  { intros u Hu _. destruct (Htok u (Hq u Hu)) as (E & He & Hr' & HE & _). specialize (HE Hu).
    rewrite (lateness_eq w0 u T0 E Hwf (wh_clock _ _ _ _ Hwh) He) by (unfold window in *; lia). lia. }
  exists T, log. split; [done|]. split; [done|]. split; [done|]. split; [naive_solver lia|].
  split; [by apply (in_order_const _ _ 0)|].
  destruct HT' as [-> | (_ & _ & Hno)]; [left|by right]. intros u Hu HU. rewrite Hz by done. lia.
Qed.

Lemma next_turn w0 T0 w :
  wf J w0 None -> wheel J (timers w0) (bases w0 a) T0 -> head_inv w0 T0 w ->
  (exists w', run_step nf fn a w = Ok (inl w') /\ head_inv w0 T0 w' /\ (run_measure a w' < run_measure a w)%nat) \/
  (run_step nf fn a w = Ok (inr (set_base w a (with_running (bases w a) None))) /\
   forall t, queued w a t -> ~ due w t).
Proof.
  intros Hwf0 Hwh0 (T & log & Hrd & Hwk & Hr & H0T & Hord & Hkeys). pose proof Hrd as [Hwf Hwh Hlate].
  pose proof (wh_lag _ _ _ _ Hwh) as Hlag. pose proof (wh_lag _ _ _ _ Hwh0) as Hlag0.
  assert (Hge : forall t, queued w a t -> tok (timers w) J T t (fun E => T <= E)).
  { intros t Ht. apply Hlate; [by apply (wf_queued J)|]. rewrite Hwk. apply not_elem_of_nil. }
  destruct (decide (T <= J)) as [HT|HT]; [left|right].
  - destruct (run_step_head nf fn J a U fn_ok fn_untouched w T Hwf Hwh Hwk HT)
      as (w' & T' & log' & -> & Hrd' & Hwk' & Hr' & HT' & Hq & Htok).
    exists w'. split; [done|]. split; [|by eapply turn_measure].
    assert (Hk : forall u, u ∈ ids log' -> U u -> T0 + lateness w0 a u = T).
    { intros u Hu HU. assert (Hn : u ∉ ids log).
      { intros Hin. destruct (rn_done _ _ _ _ _ Hr u HU Hin) as (_ & Ht & _). destruct (Hq u Hu) as [Hp _].
        by rewrite Ht in Hp. }
      destruct (Htok u (Hq u Hu)) as (E & He & Hr1 & HE & _). specialize (HE Hu).
      destruct (Hge u (Hq u Hu)) as (E' & He' & Hr2 & HE').
      assert (E' = E) as -> by (apply u64_inj_near; [congruence|unfold window in *; lia]).
      rewrite (rn_keep _ _ _ _ _ Hr u HU Hn) in He.
      rewrite (lateness_eq w0 u T0 E Hwf0 (wh_clock _ _ _ _ Hwh0) He) by (unfold window in *; lia). lia. }
    exists T', (log ++ log'). split; [done|]. split; [done|]. split; [by eapply ran_trans|].
    split; [naive_solver lia|]. rewrite ids_app. split.
    + apply in_order_app; [done|apply (in_order_const _ _ (T - T0)); intros u Hu HU; specialize (Hk u Hu HU); lia|].
      intros u v Hu Hv HU HV. specialize (Hk v Hv HV). destruct Hkeys as [Hkeys|Hno].
      * specialize (Hkeys u Hu HU). lia.
      * destruct (Hno v HV). by apply Hq.
    + destruct HT' as [-> | (_ & _ & Hno)]; [|by right]. destruct Hkeys as [Hkeys|Hno].
      * left. intros u [Hu|Hu]%elem_of_app HU; [specialize (Hkeys u Hu HU)|specialize (Hk u Hu HU)]; lia.
      * right. intros u HU Hqu. apply (Hno u HU). destruct (decide (u ∈ ids log')) as [|Hn]; [by apply Hq|].
        eapply queued_same; [by apply (rn_keep _ _ _ _ _ Hr')|done].
  - unfold run_step. rewrite (wf_now _ _ _ Hwf), (wh_clock _ _ _ _ Hwh), time_after_eq_near by (unfold window in *; lia).
    rewrite (proj2 (Z.leb_gt T J)) by lia. split; [done|]. intros t Ht.
    destruct (due_tok J w t T _ (wf_now _ _ _ Hwf) ltac:(lia) (Hge t Ht)) as (E & _ & _ & HE & Hdue).
    rewrite Hdue. lia.
Qed.

(** The loop of [__run_timers]. *)
Lemma run_loop w0 T0 fuel :
  wf J w0 None -> wheel J (timers w0) (bases w0 a) T0 -> work_list (bases w0 a) = [] -> T0 <= J ->
  (run_measure a w0 < fuel)%nat ->
  exists w', loop fuel (run_step nf fn a) w0 = Ok w' /\ exists log, wf J w' None /\ ran a U log w0 w' /\
    in_order U (lateness w0 a) (ids log) /\ (forall t, queued w' a t -> ~ due w' t) /\
    work_list (bases w' a) = [].
Proof.
  intros Hwf Hwh Hwk HT Hfuel. destruct (first_turn w0 T0 Hwf Hwh Hwk HT) as (w1 & Hs1 & Hi1 & Hm1).
  destruct fuel as [|fuel]; [lia|]. cbn [loop]. rewrite Hs1.
  apply (loop_total _ (head_inv w0 T0) _ (run_measure a)); [|done|lia].
  intros w Hi. destruct (next_turn w0 T0 w Hwf Hwh Hi) as [?|[Hs Hno]]; [by left|right].
  eexists. split; [exact Hs|]. destruct Hi as (T & log & Hrd & Hwk' & Hr & _ & Hord & _).
  exists log. split; [apply running_wf, Hrd|]. split; [|split; [done|split; [done|]]].
  - destruct Hr as [R1 R2 R3 R4 R5 R6 R7]. split; [done..|].
    intros a' Ha'. cbn. rewrite fn_lookup_insert_ne by done. by apply R7.
  - cbn. by rewrite fn_lookup_insert.
Qed.
End run.

(** ** The softirq *)

Definition idle (J : Z) (w : world) : Prop := wf J w None /\ forall a, work_list (bases w a) = [].

Lemma idle_same J w a : idle J w -> wf J (set_base w a (bases w a)) None.
Proof.
  intros [Hwf _]. split; [apply Hwf..|]. intros a'. cbn. destruct (decide (a' = a)) as [->|Hne].
  - rewrite fn_lookup_insert. apply Hwf.
  - rewrite fn_lookup_insert_ne by done. apply Hwf.
Qed.

Definition run_fuel (w : world) (a : Z) : Z :=
  2 * all_timers (bases w a) + s64 (jiffies w ⊖ timer_jiffies (bases w a)) + 1.

Lemma run_measure_fuel J w a T : wf J w None -> wheel J (timers w) (bases w a) T ->
  Z.of_nat (run_measure a w) <= run_fuel w a.
Proof.
  intros Hwf Hwh. unfold run_measure, run_fuel, due_count.
  rewrite (wf_now _ _ _ Hwf), (wheel_lag_signed _ _ _ _ Hwh), (bi_all _ _ _ _ _ (wf_base _ _ _ Hwf a)).
  pose proof (length_filter (due w) (elems (bases w a))). pose proof (wh_lag _ _ _ _ Hwh). lia.
Qed.

Lemma catchup_empty_ran J U w a :
  idle J w -> elems (bases w a) = [] ->
  let w' := set_base w a (with_clock (bases w a) (jiffies w)) in idle J w' /\ ran a U [] w w'.
Proof.
  intros [Hwf Hidle] He. split; [split|].
  - split; [apply Hwf..|]. intros a'. cbn. destruct (decide (a' = a)) as [->|Hne].
    + rewrite fn_lookup_insert. pose proof (catchup_inv J _ _ _ _ (wf_base _ _ _ Hwf a)) as Hc.
      unfold catchup_timer_jiffies in Hc. rewrite (bi_all _ _ _ _ _ (wf_base _ _ _ Hwf a)), He in Hc. cbn in Hc.
      by rewrite (wf_now _ _ _ Hwf).
    + rewrite fn_lookup_insert_ne by done. apply Hwf.
  - intros a'. cbn. destruct (decide (a' = a)) as [->|Hne]; [rewrite fn_lookup_insert; apply (Hidle a)|].
    rewrite fn_lookup_insert_ne by done. apply Hidle.
  - destruct (ran_refl a U w) as [R1 R2 R3 R4 R5 R6 R7]. split; [done..|].
    intros a' Ha'. cbn. by rewrite fn_lookup_insert_ne.
Qed.

Lemma run_timers_ran nf fn J a w fuel :
  idle J w -> time_after_eq (jiffies w) (timer_jiffies (bases w a)) = true ->
  (forall t w, wf J w None -> ops_ok nf w (fn t w)) -> run_fuel w a < Z.of_nat fuel ->
  exists w' log, __run_timers nf fn fuel w a = Ok w' /\ idle J w' /\ ran a (left_alone fn) log w w' /\
    in_order (left_alone fn) (lateness w a) (ids log) /\ forall t, queued w' a t -> ~ due w' t.
Proof.
  intros Hid Hc Hfn Hfuel. pose proof Hid as [Hwf Hidle]. pose proof (wf_base _ _ _ Hwf a) as Hb.
  unfold __run_timers, catchup_timer_jiffies. destruct (Z.eqb_spec (all_timers (bases w a)) 0) as [H0|H0].
  - assert (He : elems (bases w a) = []) by (apply nil_length_inv; rewrite (bi_all _ _ _ _ _ Hb) in H0; lia).
    destruct (catchup_empty_ran J (left_alone fn) w a Hid He) as [Hid' Hr].
    eexists _, []. split; [done|]. split; [done|]. split; [done|]. split; [by intros i j u v _ Hi|].
    intros t Hq. exfalso. apply (not_elem_of_nil t). rewrite <- He. by apply (wf_queued J).
  - set (w0 := set_base w a (bases w a)).
    assert (Hb0 : forall a', bases w0 a' = bases w a').
    { intros a'. cbn. destruct (decide (a' = a)) as [->|]; [by rewrite fn_lookup_insert|by rewrite fn_lookup_insert_ne]. }
    destruct (bi_wheel _ _ _ _ _ Hb) as [T Hwh]. pose proof (wh_lag _ _ _ _ Hwh).
    rewrite (wf_now _ _ _ Hwf), (wh_clock _ _ _ _ Hwh), time_after_eq_near in Hc by (unfold window in *; lia).
    apply Z.leb_le in Hc.
    destruct (run_loop nf fn J a Hfn w0 T fuel) as (w' & Hl & log & Hwf' & Hr & Hord & Hno & Hwk);
      [by apply idle_same|by rewrite Hb0|by rewrite Hb0|done| |].
    { pose proof (run_measure_fuel J w0 a T (idle_same J w a Hid)) as Hm. rewrite Hb0 in Hm. specialize (Hm Hwh).
      unfold run_fuel in *. rewrite Hb0 in Hm. cbn [jiffies w0 set_base] in Hm. lia. }
    exists w', log. split; [exact Hl|]. split; [|split; [|split; [|done]]].
    + split; [done|]. intros a'. destruct (decide (a' = a)) as [->|Hne]; [done|].
      pose proof (rn_other _ _ _ _ _ Hr a' Hne) as Hs. rewrite Hb0, Hidle in Hs. by apply sublist_nil_r in Hs.
    + destruct Hr as [R1 R2 R3 R4 R5 R6 R7]. split; [done..|]. intros a' Ha'. rewrite <- Hb0. by apply R7.
    + unfold lateness in *. rewrite Hb0 in Hord. exact Hord.
Qed.

(** C5.  One run of the timer softirq on a base whose clock is not ahead, the
    timers being well formed.  The timer functions use the timer interface
    within its contracts, arm timers for a later jiffy only, and no tick happens
    during the run ([ops_ok]); without that the run need not end.  Then the run
    returns within a number of turns bounded by the backlog; no timer that is
    due is left on the base; no timer function is called before its time; a
    timer that no function touches is called exactly once if it was due, and is
    left as it was otherwise; and such timers are called in the order of their
    expiry. *)
Theorem run_timers_correct nf fn J a w fuel :
  idle J w -> time_after_eq (jiffies w) (timer_jiffies (bases w a)) = true ->
  (forall t w, wf J w None -> ops_ok nf w (fn t w)) -> run_fuel w a < Z.of_nat fuel ->
  exists w' log, __run_timers nf fn fuel w a = Ok w' /\ idle J w' /\ fired w' = fired w ++ log /\
    (forall t, queued w' a t -> ~ due w' t) /\
    (forall t e j, (t, e, j) ∈ log -> j = jiffies w /\ time_after_eq j e = true) /\
    (forall u, left_alone fn u -> queued w a u ->
       (due w u -> times u log = 1%nat /\ timers w' u = with_pending (timers w u) false) /\
       (~ due w u -> times u log = 0%nat /\ timers w' u = timers w u)) /\
    in_order (left_alone fn) (lateness w a) (ids log).
Proof.
  intros Hid Hc Hfn Hfuel.
  destruct (run_timers_ran nf fn J a w fuel Hid Hc Hfn Hfuel) as (w' & log & Hrun & Hid' & Hr & Hord & Hno).
  exists w', log. split; [done|]. split; [done|]. split; [apply Hr|]. split; [done|]. split; [|split; [|done]].
  - intros t e j Hin. destruct (rn_log _ _ _ _ _ Hr t e j Hin) as (? & ? & _). done.
  - intros u HU Hq. destruct (decide (u ∈ ids log)) as [Hin|Hn].
    + destruct (rn_done _ _ _ _ _ Hr u HU Hin) as (_ & Ht & Htimes). split; [done|]. intros Hnd. exfalso.
      apply list_elem_of_fmap in Hin as ([[u' e] j] & Heq & Hin). cbn in Heq. subst u'.
      destruct (rn_log _ _ _ _ _ Hr u e j Hin) as (-> & Hd & He). apply Hnd. unfold due. by rewrite <- He.
    + pose proof (rn_keep _ _ _ _ _ Hr u HU Hn) as Ht. split.
      * intros Hd. exfalso. apply (Hno u); [by apply (queued_same a w' w)|]. apply (due_same w' w); [|done..].
        symmetry. apply Hr.
      * intros _. split; [by apply times_notin|done].
Qed.
