(* ===== verification/TimerCpuDefs.v ===== *)
(** The rest of [kernel/time/timer.c]: setting up timers and bases, the softirq,
    rounding, the search for the next expiry, and taking over the timers of a
    dead cpu. *)
From stdpp Require Import functions.
From S2P Require Import Prelude FindBitDefs TimerDefs BitmapMapDefs.

(** ** Setting up *)

Definition do_init_timer (w : world) (timer : tid) (flags this_cpu : Z) : world :=
  let base := tvec_bases w this_cpu in
  let t := timers w timer in
  set_timer w timer (mkTimer false (expires t) (Z.lor base flags) (function t) (-1)).

Definition __setup_timer (w : world) (timer : tid) (flags this_cpu : Z) : world :=
  let w := do_init_timer w timer flags this_cpu in
  let t := timers w timer in
  set_timer w timer (mkTimer (pending t) (expires t) (base t) true (slack t)).

Definition set_timer_slack (w : world) (timer : tid) (slack_hz : Z) : world :=
  let t := timers w timer in
  set_timer w timer (mkTimer (pending t) (expires t) (base t) (function t) slack_hz).

(** The static variables of [init_timers_cpu]. *)
Record boot_state := mkBoot { tvec_base_done : Z -> bool; boot_done : bool }.

Definition zeroed_base : tvec_base := mkBase None 0 0 0 0 0 [] [] [] [] [] [].
Definition with_cpu (b : tvec_base) (c : Z) : tvec_base :=
  mkBase (running_timer b) (timer_jiffies b) (next_timer b) (active_timers b) (all_timers b) c
    (tv1 b) (tv2 b) (tv3 b) (tv4 b) (tv5 b) (work_list b).
Definition set_tvec_bases (w : world) (c a : Z) : world :=
  mkWorld (jiffies w) (timers w) (bases w) (<[c := a]> (tvec_bases w)) (kicked w) (fired w).

(** The list heads, the clock and the counters of a base. *)
Definition init_base (j : Z) (b : tvec_base) : tvec_base :=
  let heads n := replicate (Z.to_nat n) ([] : list tid) in
  mkBase (running_timer b) j j 0 0 (cpu b)
    (heads TVR_SIZE) (heads TVN_SIZE) (heads TVN_SIZE) (heads TVN_SIZE) (heads TVN_SIZE) (work_list b).

(** [kzalloc] is what [kzalloc_node] returns, [boot_tvec_bases] the address of
    the static base. *)
Definition init_timers_cpu (boot_tvec_bases : Z) (kzalloc : option Z) (w : world) (st : boot_state) (c : Z)
    : Z * world * boot_state :=
  let finish (a : Z) (w : world) (st : boot_state) :=
    (0, set_base w a (init_base (jiffies w) (bases w a)), st) in
  let first (a : Z) (w : world) (st : boot_state) :=
    finish a (set_base w a (with_cpu (bases w a) c)) (mkBoot (<[c := true]> (tvec_base_done st)) (boot_done st)) in
  if negb (tvec_base_done st c) then
    if boot_done st then
      match kzalloc with
      | None => (- ENOMEM, w, st)
      | Some a =>
          if negb (a =? tbase_get_base a) then (- ENOMEM, w, st)
          else first a (set_tvec_bases (set_base w a zeroed_base) c a) st
      end
    else first boot_tvec_bases w (mkBoot (tvec_base_done st) true)
  else finish (tvec_bases w c) w st.

(** ** Rounding *)

(** [cpu * 3] is an [int], converted to [unsigned long]; [rem < HZ] fits an
    [int]. *)
Definition round_jiffies_common (jiffies j c : Z) (force_up : bool) : Z :=
  let original := j in
  let j := j ⊕ c * 3 in
  let rem := j mod HZ in
  let j := if (rem <? HZ / 4) && negb force_up then j ⊖ rem else (j ⊖ rem) ⊕ HZ in
  let j := j ⊖ c * 3 in
  if time_before jiffies j then j else original.

Definition __round_jiffies (jiffies j c : Z) : Z := round_jiffies_common jiffies j c false.
Definition __round_jiffies_relative (jiffies j c : Z) : Z :=
  let j0 := jiffies in round_jiffies_common jiffies (j ⊕ j0) c false ⊖ j0.
Definition __round_jiffies_up (jiffies j c : Z) : Z := round_jiffies_common jiffies j c true.
Definition __round_jiffies_up_relative (jiffies j c : Z) : Z :=
  let j0 := jiffies in round_jiffies_common jiffies (j ⊕ j0) c true ⊖ j0.

(** ** The softirq *)

Definition run_timer_softirq (nf : Z -> bool) (fn : tid -> world -> list timer_op) (fuel : nat)
    (w : world) (this_cpu : Z) : res world :=
  let a := tvec_bases w this_cpu in
  if time_after_eq (jiffies w) (timer_jiffies (bases w a)) then __run_timers nf fn fuel w a else Ok w.

(** ** The next expiry *)

Section next.
Context (w : world) (b : tvec_base).

Definition deferrable (nte : tid) : bool := tbase_get_deferrable (base (timers w nte)).

(** The first entry of a list of [tv1] that is not deferrable. *)
Fixpoint first_entry (l : list tid) : option tid :=
  match l with
  | [] => None
  | nte :: l => if deferrable nte then first_entry l else Some nte
  end.

Definition tv1_step (index slot : Z) : res (Z + option (Z * Z)) :=
  match first_entry (vec b TV1 slot) with
  | Some nte => Ok (inr (Some (slot, expires (timers w nte))))
  | None =>
      let slot := Z.land (slot + 1) TVR_MASK in
      if negb (slot =? index) then Ok (inl slot) else Ok (inr None)
  end.

Fixpoint scan_entries (found : bool) (e : Z) (l : list tid) : bool * Z :=
  match l with
  | [] => (found, e)
  | nte :: l =>
      if deferrable nte then scan_entries found e l
      else scan_entries true (if time_before (expires (timers w nte)) e then expires (timers w nte) else e) l
  end.

(** [true] in the result is [return expires], [false] leaves the loop. *)
Definition vec_step (s : tvsel) (index : Z) (st : Z * bool * Z) : res (Z * bool * Z + bool * bool * Z) :=
  let '(slot, found, e) := st in
  let '(found, e) := scan_entries found e (vec b s slot) in
  if found : bool then
    if (index =? 0) || (slot <? index) then Ok (inr (false, found, e)) else Ok (inr (true, found, e))
  else
    let slot := Z.land (slot + 1) TVN_MASK in
    if negb (slot =? index) then Ok (inl (slot, found, e)) else Ok (inr (false, found, e)).

Fixpoint next_cascade (varray : list tvsel) (timer_jiffies : Z) (found : bool) (e : Z) : res Z :=
  match varray with
  | [] => Ok e
  | varp :: varray =>
      let index := Z.land timer_jiffies TVN_MASK in
      '(ret, found, e) ← loop (Z.to_nat TVN_SIZE) (vec_step varp index) (index, found, e);
      if ret : bool then Ok e
      else
        let timer_jiffies := if negb (index =? 0) then timer_jiffies ⊕ (TVN_SIZE - index) else timer_jiffies in
        next_cascade varray (shr64 timer_jiffies TVN_BITS) found e
  end.

Definition __next_timer_interrupt : res Z :=
  let tj := timer_jiffies b in
  let index := Z.land tj TVR_MASK in
  let cascade (found : bool) (e : Z) :=
    let tj := if negb (index =? 0) then tj ⊕ (TVR_SIZE - index) else tj in
    next_cascade [TV2; TV3; TV4; TV5] (shr64 tj TVR_BITS) found e in
  r ← loop (Z.to_nat TVR_SIZE) (tv1_step index) index;
  match r with
  | Some (slot, e) => if (index =? 0) || (slot <? index) then cascade true e else Ok e
  | None => cascade false (tj ⊕ NEXT_TIMER_MAX_DELTA)
  end.
End next.

(** [hr_delta] is the result of [hrtimer_get_next_event], and
    [timespec_to_jiffies] that of the conversion of a positive one. *)
Definition KTIME_MAX : Z := 2 ^ 63 - 1.

Definition cmp_next_hrtimer_event (timespec_to_jiffies : Z -> Z) (hr_delta now e : Z) : Z :=
  if hr_delta =? KTIME_MAX then e
  else if hr_delta <=? 0 then now ⊕ 1
  else
    let delta := timespec_to_jiffies hr_delta in
    let delta := if delta >? NEXT_TIMER_MAX_DELTA then NEXT_TIMER_MAX_DELTA else delta in
    let delta := if delta <? 1 then 1 else delta in
    let now := now ⊕ delta in
    if time_before now e then now else e.

Definition get_next_timer_interrupt (timespec_to_jiffies : Z -> Z) (hr_delta : Z) (cpu_is_offline : bool)
    (w : world) (this_cpu now : Z) : res (Z * world) :=
  let a := tvec_bases w this_cpu in
  let e := now ⊕ NEXT_TIMER_MAX_DELTA in
  if cpu_is_offline then Ok (e, w)
  else
    let b := bases w a in
    '(e, w) ← (if negb (active_timers b =? 0) then
                 if time_before_eq (next_timer b) (timer_jiffies b) then
                   n ← __next_timer_interrupt w b; Ok (n, set_base w a (with_next b n))
                 else Ok (next_timer b, w)
               else Ok (e, w));
    if time_before_eq e now then Ok (now, w)
    else Ok (cmp_next_hrtimer_event timespec_to_jiffies hr_delta now e, w).

(** ** A dead cpu *)

(** [while (!list_empty(head))] on list [i] of vector [s] of [old_base]. *)
Definition migrate_step (nf : Z -> bool) (old_base new_base : Z) (s : tvsel) (i : Z) (w : world) : res (world + world) :=
  match vec (bases w old_base) s i with
  | [] => Ok (inr w)
  | timer :: _ =>
      let w := detach_timer w old_base timer false in
      let w := timer_set_base w timer new_base in
      Ok (inl (internal_add_timer nf w new_base timer))
  end.

Definition migrate_timer_list (nf : Z -> bool) (old_base new_base : Z) (w : world) (s : tvsel) (i : Z) : res world :=
  loop (S (length (vec (bases w old_base) s i))) (migrate_step nf old_base new_base s i) w.

Fixpoint migrate_lists (nf : Z -> bool) (old_base new_base : Z) (l : list (tvsel * Z)) (w : world) : res world :=
  match l with
  | [] => Ok w
  | (s, i) :: l => w ← migrate_timer_list nf old_base new_base w s i; migrate_lists nf old_base new_base l w
  end.

Definition migrate_timers (nf : Z -> bool) (cpu_online : Z -> bool) (w : world) (c this_cpu : Z) : res world :=
  bug_on (cpu_online c)
    (let old_base := tvec_bases w c in
     let new_base := tvec_bases w this_cpu in
     bug_on (bool_decide (running_timer (bases w old_base) <> None))
       (migrate_lists nf old_base new_base
          (((fun i => (TV1, i)) <$> seqZ 0 TVR_SIZE) ++
           (i ← seqZ 0 TVN_SIZE; [(TV2, i); (TV3, i); (TV4, i); (TV5, i)])) w)).
