(* ===== verification/TimerReach.v ===== *)
(** Well-formedness of the timers as an invariant of everything that happens
    to them. *)
From stdpp Require Import functions.
From S2P Require Import Prelude FindBitDefs FindBit TimerDefs TimerWheel TimerInv TimerOps TimerRun TimerProps TimerCpuDefs BitmapMapDefs.

(** ** Setting up *)

Lemma base_inv_ext J (tm tm' : tid -> timer_list) b a x :
  (forall t, pending (tm' t) = pending (tm t) /\ expires (tm' t) = expires (tm t) /\ base (tm' t) = base (tm t)) ->
  base_inv J tm b a x -> base_inv J tm' b a x.
Proof.
  intros He [H1 H2 H3 H4 H5 H6 [T HT]]. split; [done..| |done|done| |].
  - intros t Ht. destruct (He t) as (-> & _ & ->). by apply H3.
  - rewrite (filter_nondef_frame tm tm'); [done|]. intros t _. apply He.
  - exists T. eapply wheel_frame; [|done]. intros t _. apply He.
Qed.

Lemma flags_land a flags : base_addr a -> 0 <= flags <= 3 -> tbase_get_base (Z.lor a flags) = a.
Proof.
  intros Ha Hf. assert (Hl : Z.land flags TIMER_FLAG_MASK = flags).
  { change TIMER_FLAG_MASK with (Z.ones 2). rewrite Z.land_ones by lia. apply Z.mod_small. lia. }
  rewrite <- Hl. by apply get_base_set.
Qed.

(** A timer that is not pending may be overwritten. *)
Lemma set_idle_timer J w t v :
  idle J w -> pending (timers w t) = false -> pending v = false ->
  (function v = true -> base_addr (tbase_get_base (base v))) -> idle J (set_timer w t v).
Proof.
  intros [Hwf Hid] Hp Hv Hb. split; [|done]. apply (wf_put J _ t).
  - apply wf_set_timer; [by apply wf_take|done].
  - cbn. by rewrite fn_lookup_insert.
Qed.

Lemma do_init_timer_idle J w t flags c :
  idle J w -> pending (timers w t) = false -> 0 <= flags <= 3 -> idle J (do_init_timer w t flags c).
Proof.
  intros Hid Hp Hf. apply set_idle_timer; [done..|]. intros _. cbn. pose proof (wf_addr _ _ _ (proj1 Hid) c).
  by rewrite flags_land.
Qed.

Lemma __setup_timer_idle J w t flags c :
  idle J w -> pending (timers w t) = false -> 0 <= flags <= 3 -> idle J (__setup_timer w t flags c).
Proof.
  intros Hid Hp Hf. pose proof (do_init_timer_idle J w t flags c Hid Hp Hf) as Hid'.
  unfold __setup_timer. assert (Ht : timers (do_init_timer w t flags c) t =
    mkTimer false (expires (timers w t)) (Z.lor (tvec_bases w c) flags) (function (timers w t)) (-1)).
  { cbn. by rewrite fn_lookup_insert. }
  apply set_idle_timer; [done|by rewrite Ht|by rewrite Ht|]. intros _. rewrite Ht. cbn.
  pose proof (wf_addr _ _ _ (proj1 Hid) c). by rewrite flags_land.
Qed.

Lemma set_timer_slack_idle J w t s : idle J w -> idle J (set_timer_slack w t s).
Proof.
  intros [Hwf Hid]. split; [|done]. assert (He : forall t', let tl := timers (set_timer_slack w t s) t' in
    pending tl = pending (timers w t') /\ expires tl = expires (timers w t') /\ base tl = base (timers w t') /\
    function tl = function (timers w t')).
  { intros t'. cbn. destruct (decide (t' = t)) as [->|Hne]; [by rewrite fn_lookup_insert|by rewrite fn_lookup_insert_ne]. }
  split; [apply Hwf|apply Hwf| |].
  - intros t'. destruct (He t') as (_ & _ & -> & ->). apply Hwf.
  - intros a. eapply base_inv_ext; [|apply Hwf]. intros t'. destruct (He t') as (? & ? & ? & _). done.
Qed.

(** *** An empty base *)

Lemma mjoin_replicate_nil {A} n : mjoin (replicate n ([] : list A)) = [].
Proof. by induction n. Qed.

Lemma init_base_elems j b : elems (init_base j b) = work_list b.
Proof. unfold elems, init_base. cbn [tv1 tv2 tv3 tv4 tv5 work_list]. by rewrite !mjoin_replicate_nil. Qed.

Lemma init_base_inv J (tm : tid -> timer_list) b a :
  work_list b = [] -> (forall t, ~ (pending (tm t) = true /\ tbase_get_base (base (tm t)) = a)) ->
  base_inv J tm (init_base (u64 J) b) a None.
Proof.
  intros Hw Hno. assert (He : elems (init_base (u64 J) b) = []) by (by rewrite init_base_elems).
  split; rewrite ?He.
  - intros []; cbn [tv init_base vsize tv1 tv2 tv3 tv4 tv5]; by rewrite length_replicate.
  - constructor.
  - intros t _. split; [by intros ?%elem_of_nil|]. intros Hq. by destruct (Hno t).
  - done.
  - done.
  - done.
  - exists J. split; [done|unfold window; lia| |].
    + intros s i t _ Ht. rewrite elems_nil_vec in Ht by done. by apply elem_of_nil in Ht.
    + intros t Ht. rewrite elems_nil_work in Ht by done. by apply elem_of_nil in Ht.
Qed.

Lemma set_base_idle J w a b :
  idle J w -> base_inv J (timers w) b a None -> work_list b = [] -> idle J (set_base w a b).
Proof.
  intros [Hwf Hid] Hb Hw. split; [split; [apply Hwf..|]|]; intros a'; cbn; destruct (decide (a' = a)) as [->|Hne].
  - by rewrite fn_lookup_insert.
  - rewrite fn_lookup_insert_ne by done. apply Hwf.
  - by rewrite fn_lookup_insert.
  - rewrite fn_lookup_insert_ne by done. apply Hid.
Qed.

(** The base that [init_timers_cpu] sets up. *)
Definition cpu_base (boot_tvec_bases : Z) (kzalloc : option Z) (w : world) (st : boot_state) (c : Z) : option Z :=
  if tvec_base_done st c then Some (tvec_bases w c)
  else if boot_done st then kzalloc else Some boot_tvec_bases.

Lemma init_timers_cpu_idle J bt kz w st c :
  idle J w ->
  (forall a, cpu_base bt kz w st c = Some a -> base_addr a /\ forall t, ~ queued w a t) ->
  idle J (init_timers_cpu bt kz w st c).1.2.
Proof.
  intros Hid Hc. unfold init_timers_cpu, cpu_base in *.
  assert (Hfin : forall a b w', idle J w' -> (forall t, timers w' t = timers w t) -> (forall t, ~ queued w a t) ->
    work_list b = [] -> idle J (set_base w' a (init_base (jiffies w') b))).
  { intros a b w' Hid' Ht Hno Hw. apply set_base_idle; [done| |done]. rewrite (wf_now _ _ _ (proj1 Hid')).
    apply init_base_inv; [done|]. intros t. rewrite Ht. apply Hno. }
  assert (Hsame : forall a b b' w', idle J w' -> (forall t, timers w' t = timers w t) -> (forall t, ~ queued w a t) ->
    work_list b = [] -> idle J (set_base (set_base w' a b') a (init_base (jiffies w') b))).
  { intros a b b' w' Hid' Ht Hno Hw. destruct (Hfin a b w' Hid' Ht Hno Hw) as [Hwf' Hid2].
    assert (He : forall a', bases (set_base (set_base w' a b') a (init_base (jiffies w') b)) a'
      = bases (set_base w' a (init_base (jiffies w') b)) a').
    { intros a'. cbn. destruct (decide (a' = a)) as [->|]; [by rewrite !fn_lookup_insert|by rewrite !fn_lookup_insert_ne]. }
    split; [split; [apply Hwf'..|]|]; intros a'; rewrite He; [apply Hwf'|apply Hid2]. }
  destruct (tvec_base_done st c); cbn [negb].
  - destruct (Hc _ eq_refl) as [_ Hno]. apply Hfin; [done..|apply Hid].
  - destruct (boot_done st).
    + destruct kz as [a|]; [|done]. destruct (Hc _ eq_refl) as [Ha Hno].
      destruct (a =? tbase_get_base a); cbn [negb]; [|done]. cbn [fst snd bases set_base jiffies set_tvec_bases].
      rewrite !fn_lookup_insert. set (b0 := init_base _ _).
      pose proof (Hsame a (with_cpu zeroed_base c) zeroed_base w Hid ltac:(done) Hno eq_refl) as [Hwf1 Hid1].
      assert (He : forall a', bases (set_base (set_base (set_tvec_bases (set_base w a zeroed_base) c a) a (with_cpu zeroed_base c)) a b0) a'
        = bases (set_base (set_base w a zeroed_base) a b0) a').
      { intros a'. cbn. destruct (decide (a' = a)) as [->|]; [by rewrite !fn_lookup_insert|by rewrite !fn_lookup_insert_ne]. }
      split; [split; [apply Hwf1| |apply Hwf1|]|].
      * intros c'. cbn. destruct (decide (c' = c)) as [->|]; [by rewrite fn_lookup_insert|].
        rewrite fn_lookup_insert_ne by done. apply Hid.
      * intros a'. rewrite He. apply Hwf1.
      * intros a'. rewrite He. apply Hid1.
    + destruct (Hc _ eq_refl) as [Ha Hno]. cbn [fst snd bases set_base jiffies]. rewrite fn_lookup_insert.
      apply Hsame; [done..|apply Hid].
Qed.

(** ** A softirq with any timer functions

    The functions, and what other cpus and the timer interrupt do while they
    run, respect the contracts of the interface; they may arm timers for the
    past, and time may pass. *)

Fixpoint ops_within (nf : Z -> bool) (w : world) (ops : list timer_op) : Prop :=
  match ops with
  | [] => True
  | op :: ops => op_ok w op /\ forall w', do_op nf w op = Ok w' -> ops_within nf w' ops
  end.

Definition shrinks (w w' : world) : Prop :=
  forall a, work_list (bases w' a) `sublist_of` work_list (bases w a).

Lemma shrinks_refl w : shrinks w w.
Proof. by intros a. Qed.

Lemma shrinks_trans w1 w2 w3 : shrinks w1 w2 -> shrinks w2 w3 -> shrinks w1 w3.
Proof. intros H1 H2 a. etrans; [apply H2|apply H1]. Qed.

Lemma do_op_shrinks nf J w op :
  wf J w None -> op_ok w op ->
  exists w', do_op nf w op = Ok w' /\ wf (J + tick_of op) w' None /\ shrinks w w'.
Proof.
  intros Hwf Hok. destruct (do_op_wf nf J w op Hwf Hok) as (w' & -> & Hwf' & Heff). exists w'.
  split; [done|]. split; [done|]. intros a. unfold op_effect in Heff.
  destruct (op_timer op) as [t|]; [|by rewrite Heff]. apply (of_base _ _ _ (proj1 Heff) a).
Qed.

Section within.
Context (nf : Z -> bool) (fn : tid -> world -> list timer_op).
Hypothesis fn_within : forall J t w, wf J w None -> ops_within nf w (fn t w).

Lemma do_ops_shrinks ops : forall J w, wf J w None -> ops_within nf w ops ->
  exists J' w', do_ops nf w ops = Ok w' /\ wf J' w' None /\ shrinks w w'.
Proof using nf.
  clear fn fn_within. induction ops as [|op ops IH]; intros J w Hwf Hok; cbn [do_ops].
  { exists J, w. split; [done|]. split; [done|apply shrinks_refl]. }
  destruct Hok as [Hop Hrest]. destruct (do_op_shrinks nf J w op Hwf Hop) as (w1 & Hdo & Hwf1 & Hs1).
  rewrite Hdo, res_bind_ok. destruct (IH _ w1 Hwf1 (Hrest w1 Hdo)) as (J' & w2 & -> & Hwf2 & Hs2).
  exists J', w2. split; [done|]. split; [done|]. by eapply shrinks_trans.
Qed.

Lemma expire_step_within J a w t l :
  wf J w None -> work_list (bases w a) = t :: l ->
  exists J' w', expire_step nf fn a w = Ok (inl w') /\ wf J' w' None /\ shrinks w w' /\
    (length (work_list (bases w' a)) <= length l)%nat.
Proof using All.
  intros Hwf Hwk. unfold expire_step. rewrite Hwk. set (w1 := set_base w a _).
  assert (Hwf1 : wf J w1 None) by (by apply running_wf).
  assert (Hf1 : op_frame w w1 t) by apply running_frame.
  assert (Hin : t ∈ elems (bases w1 a)).
  { cbn. rewrite fn_lookup_insert. unfold elems. rewrite !elem_of_app. cbn. rewrite Hwk. do 5 right. left. }
  destruct (detach_expired_wf J w1 a t Hwf1 Hin) as (Hwf2 & Hf2 & Ht2).
  set (w2 := detach_expired_timer w1 a t) in *. pose proof (op_frame_trans _ _ _ _ Hf1 Hf2) as Hf.
  unfold call_timer_fn. set (w3 := mkWorld _ _ _ _ _ _).
  assert (Hwf3 : wf J w3 None) by (destruct Hwf2; by split).
  destruct (do_ops_shrinks (fn t w3) J w3 Hwf3 (fn_within J t w3 Hwf3)) as (J' & w4 & -> & Hwf4 & Hs4).
  rewrite res_bind_ok. exists J', w4. split; [done|]. split; [done|].
  assert (Hs : shrinks w w3) by (intros a'; apply (of_base _ _ _ Hf a')).
  split; [by eapply shrinks_trans|]. pose proof (sublist_length _ _ (Hs4 a)) as Hlen.
  assert (Hnt : t ∉ work_list (bases w2 a)).
  { intros Hw. assert (Hel : t ∈ elems (bases w2 a)) by (unfold elems; rewrite !elem_of_app; tauto).
    apply (wf_queued J) in Hel as [Hp _]; [|done]. by rewrite Ht2 in Hp. }
  pose proof (Hs a) as Hsub. rewrite Hwk in Hsub. change (work_list (bases w3 a)) with (work_list (bases w2 a)) in *.
  pose proof (sublist_notin_length _ _ _ Hsub Hnt). lia.
Qed.

Lemma run_step_within J a w :
  idle J w -> exists J' w', idle J' w' /\ (run_step nf fn a w = Ok (inl w') \/ run_step nf fn a w = Ok (inr w')).
Proof using All.
  intros [Hwf Hid]. destruct (bi_wheel _ _ _ _ _ (wf_base _ _ _ Hwf a)) as [T Hwh].
  pose proof (wh_lag _ _ _ _ Hwh) as Hlag. destruct (decide (T <= J)) as [HT|HT].
  - destruct (run_step_turn nf fn J a w T Hwf Hwh (Hid a) HT) as (w1 & -> & Hs1 & _ & Hwf2 & _).
    set (w2 := set_base w1 a (turned (bases w1 a) T)) in *.
    assert (Hb2 : bases w2 a = turned (bases w1 a) T) by (cbn; by rewrite fn_lookup_insert).
    destruct (loop_total (expire_step nf fn a) (fun w' => (exists J', wf J' w' None) /\ shrinks w2 w')
      (fun w' => (exists J', wf J' w' None) /\ shrinks w2 w' /\ work_list (bases w' a) = [])
      (fun w' => length (work_list (bases w' a))) ltac:(
        intros w' [[J' Hwf'] Hs']; destruct (work_list (bases w' a)) as [|t l] eqn:Hwk;
        [right; exists w'; unfold expire_step; rewrite Hwk; eauto|left];
        destruct (expire_step_within J' a w' t l Hwf' Hwk) as (J3 & w3 & -> & Hwf3 & Hs3 & Hlen);
        exists w3; split; [done|]; split; [split; [eauto|by eapply shrinks_trans]|cbn; lia])
      (S (length (work_list (turned (bases w1 a) T)))) w2) as (w3 & -> & [J3 Hwf3] & Hs3 & Hwk3);
      [split; [by exists J|apply shrinks_refl]|rewrite Hb2; lia|].
    rewrite res_bind_ok. exists J3, w3. split; [|by left]. split; [done|]. intros a'.
    destruct (decide (a' = a)) as [->|Hne]; [done|]. specialize (Hs3 a'). cbn in Hs3.
    rewrite fn_lookup_insert_ne, (sw_other _ _ _ Hs1), Hid in Hs3 by done. by apply sublist_nil_r in Hs3.
  - exists J, (set_base w a (with_running (bases w a) None)). split.
    + split; [by apply running_wf|]. intros a'. cbn. destruct (decide (a' = a)) as [->|Hne].
      * rewrite fn_lookup_insert. apply (Hid a).
      * rewrite fn_lookup_insert_ne by done. apply Hid.
    + right. unfold run_step.
      rewrite (wf_now _ _ _ Hwf), (wh_clock _ _ _ _ Hwh), time_after_eq_near by (unfold window in *; lia).
      by rewrite (proj2 (Z.leb_gt T J)) by lia.
Qed.

(** Such a softirq does not crash, and leaves the timers well formed when it ends. *)
Lemma run_timers_within J a w fuel :
  idle J w -> match __run_timers nf fn fuel w a with
              | Ok w' => exists J', idle J' w'
              | Fault => False
              | NoFuel => True
              end.
Proof using All.
  intros Hid. unfold __run_timers. destruct (catchup_timer_jiffies _ _) as [b e] eqn:Hc.
  assert (Hid1 : idle J (set_base w a b)).
  { unfold catchup_timer_jiffies in Hc. destruct (Z.eqb_spec (all_timers (bases w a)) 0) as [H0|H0].
    - injection Hc as <- <-. pose proof (wf_base _ _ _ (proj1 Hid) a) as Hb.
      apply (catchup_empty_ran J (fun _ => True) w a Hid). apply nil_length_inv.
      rewrite (bi_all _ _ _ _ _ Hb) in H0. lia.
    - injection Hc as <- <-. destruct Hid as [Hwf Hwk]. split; [by apply idle_same|]. intros a'. cbn.
      destruct (decide (a' = a)) as [->|]; [rewrite fn_lookup_insert|rewrite fn_lookup_insert_ne by done]; apply Hwk. }
  destruct e; [by exists J|]. clear Hc Hid. revert J Hid1. generalize (set_base w a b) as w1.
  induction fuel as [|fuel IH]; intros w1 J1 Hid1; cbn [loop]; [done|].
  destruct (run_step_within J1 a w1 Hid1) as (J2 & w2 & Hid2 & [-> | ->]); [by apply (IH w2 J2)|by exists J2].
Qed.
End within.

(** ** Everything that happens *)

Inductive timer_step (nf : Z -> bool) : world -> world -> Prop :=
| step_op w w' op : op_ok w op -> do_op nf w op = Ok w' -> timer_step nf w w'
| step_setup w t flags c :
    pending (timers w t) = false -> 0 <= flags <= 3 -> timer_step nf w (__setup_timer w t flags c)
| step_slack w t s : timer_step nf w (set_timer_slack w t s)
| step_softirq w w' fn fuel c :
    (forall J t w, wf J w None -> ops_within nf w (fn t w)) ->
    run_timer_softirq nf fn fuel w c = Ok w' -> timer_step nf w w'
| step_cpu_up w bt kz st c :
    (forall a, cpu_base bt kz w st c = Some a -> base_addr a /\ forall t, ~ queued w a t) ->
    timer_step nf w (init_timers_cpu bt kz w st c).1.2.

Lemma do_op_idle nf J w w' op : idle J w -> op_ok w op -> do_op nf w op = Ok w' -> idle (J + tick_of op) w'.
Proof.
  intros [Hwf Hid] Hok Hdo. destruct (do_op_shrinks nf J w op Hwf Hok) as (w1 & Hdo' & Hwf1 & Hs).
  rewrite Hdo in Hdo'. injection Hdo' as <-. split; [done|]. intros a.
  specialize (Hs a). rewrite Hid in Hs. by apply sublist_nil_r in Hs.
Qed.

Lemma softirq_idle nf J w fn fuel c :
  idle J w -> (forall J t w, wf J w None -> ops_within nf w (fn t w)) ->
  match run_timer_softirq nf fn fuel w c with
  | Ok w' => exists J', idle J' w'
  | Fault => False
  | NoFuel => True
  end.
Proof.
  intros Hid Hfn. unfold run_timer_softirq. destruct (time_after_eq _ _); [|by exists J].
  by eapply run_timers_within.
Qed.

(** C17.  The timers stay well formed.  Start from well-formed timers and let
    any sequence of these happen: operations of the timer interface within their
    contracts (the timer has been set up, the expiry is near [jiffies], [add_timer]
    is for timers that are not pending), ticks that leave no base behind by more
    than the window, set-ups of timers that are not pending, set-ups of cpus
    whose base has no timers, and complete softirqs during which the timer
    functions, other cpus and the timer interrupt do anything within the same
    contracts.  Then every pending timer is on exactly one list, of the base it
    names, in a slot from which it is reached in time; no other timer is on a
    list; the counters of each base are the numbers of all and of the
    non-deferrable timers on it; and a softirq on any cpu does not crash. *)
Theorem timers_well_formed nf J w w' :
  rtc (timer_step nf) w w' -> idle J w ->
  (forall fn fuel c, (forall J t w, wf J w None -> ops_within nf w (fn t w)) ->
     run_timer_softirq nf fn fuel w' c <> Fault) /\
  exists J', jiffies w' = u64 J' /\ forall a,
    NoDup (elems (bases w' a)) /\
    (forall t, t ∈ elems (bases w' a) <-> queued w' a t) /\
    all_timers (bases w' a) = Z.of_nat (length (elems (bases w' a))) /\
    active_timers (bases w' a) = Z.of_nat (length (filter (nondef (timers w')) (elems (bases w' a)))) /\
    exists T, timer_jiffies (bases w' a) = u64 T /\ J' - window <= T <= J' + 1 /\
      forall t, queued w' a t -> exists s i E, t ∈ vec (bases w' a) s i /\ 0 <= i < vsize s /\
        expires (timers w' t) = u64 E /\ slot_ok s i T E.
Proof.
  intros Hsteps Hid. assert (Hid' : exists J', idle J' w').
  { revert J Hid. induction Hsteps as [w|w1 w2 w3 Hs _ IH]; intros J Hid; [by exists J|].
    enough (exists J2, idle J2 w2) as [J2 Hid2] by (by apply (IH J2)).
    destruct Hs as [w w' op Hok Hdo|w t flags c Hp Hf|w t s|w w' fn fuel c Hfn Hrun|w bt kz st c Hc].
    - eexists. by eapply do_op_idle.
    - exists J. by apply __setup_timer_idle.
    - exists J. by apply set_timer_slack_idle.
    - pose proof (softirq_idle nf J w fn fuel c Hid Hfn) as H. by rewrite Hrun in H.
    - exists J. by apply init_timers_cpu_idle. }
  destruct Hid' as (J' & Hwf & Hidle). split.
  { intros fn fuel c Hfn Hrun. pose proof (softirq_idle nf J' w' fn fuel c (conj Hwf Hidle) Hfn) as H. by rewrite Hrun in H. }
  exists J'. split; [apply Hwf|]. intros a.
  destruct (wf_base _ _ _ Hwf a) as [H1 H2 H3 H4 H5 H6 [T HT]].
  split; [done|]. split; [intros t; by apply (wf_queued J')|]. split; [done|]. split; [done|].
  exists T. split; [apply HT|]. split; [apply HT|]. intros t Ht.
  apply (wf_queued J') in Ht; [|done]. apply elems_cases in Ht as [Ht|(s & i & Hi & Ht)].
  { rewrite Hidle in Ht. by apply elem_of_nil in Ht. }
  destruct (wh_vec _ _ _ _ HT s i t ltac:(lia) Ht) as (E & He & _ & Hs). exists s, i, E.
  split; [done|]. split; [|done]. rewrite H1 in Hi. destruct s; cbn [vsize] in *; lia.
Qed.
