(* ===== verification/TimerNext.v ===== *)
(** [__next_timer_interrupt] finds the first expiry. *)
From stdpp Require Import functions.
From S2P Require Import Prelude FindBitDefs FindBit TimerDefs TimerWheel TimerInv TimerOps TimerRun TimerProps TimerCpuDefs.

(** ** Turns of coarser and coarser hands *)

Lemma turn_coarser T k : 0 <= k ->
  let idx := turn T k mod 64 in
  turn T (k + 6) = (turn T k + if idx =? 0 then 0 else 64 - idx) / 64.
Proof.
  intros Hk idx. unfold idx, turn. rewrite Z.pow_add_r, <- Z.div_div by lia. change (2 ^ 6) with 64.
  set (x := (T - 1) / 2 ^ k). destruct (Z.eqb_spec ((x + 1) mod 64) 0); Z.div_mod_to_equations; lia.
Qed.

Lemma turn_ge T k : 0 <= k -> T <= turn T k * 2 ^ k.
Proof. intros Hk. unfold turn. pose proof (Z.mul_succ_div_gt (T - 1) (2 ^ k) ltac:(lia)). lia. Qed.

Lemma turn_first T : turn T 8 = (T + if T mod 256 =? 0 then 0 else 256 - T mod 256) / 256.
Proof.
  unfold turn. change (2 ^ 8) with 256. destruct (Z.eqb_spec (T mod 256) 0); Z.div_mod_to_equations; lia.
Qed.

(** The next coarse turn is not before any finer one. *)
Lemma turn_mono T k m : 0 <= k -> 0 <= m -> turn T k * 2 ^ k <= turn T (k + m) * 2 ^ (k + m).
Proof.
  intros Hk Hm. unfold turn. rewrite Z.pow_add_r, <- Z.div_div by lia.
  set (x := (T - 1) / 2 ^ k). assert (0 < 2 ^ k) by lia. assert (0 < 2 ^ m) by lia.
  pose proof (Z.mul_succ_div_gt x (2 ^ m) ltac:(lia)). nia.
Qed.

Section next.
Context (w : world) (b : tvec_base) (T : Z).

(** The expiry of a timer, as an unbounded time near the clock. *)
Definition exp (t : tid) : Z := T + s64 (expires (timers w t) ⊖ u64 T).

Definition nd (t : tid) : Prop := deferrable w t = false.

#[local] Instance nd_dec t : Decision (nd t).
Proof. unfold nd. apply _. Defined.

Definition close (r : Z) : Prop := T - 2 ^ 62 < r <= T + 2 ^ 62.

(** [t] is on list [i] of vector [s]. *)
Definition on (s : tvsel) (t : tid) : Prop := exists i, 0 <= i < vsize s /\ t ∈ vec b s i.

Hypothesis H_clock : timer_jiffies b = u64 T.
Hypothesis H_exp : forall s i t, 0 <= i < vsize s -> t ∈ vec b s i -> expires (timers w t) = u64 (exp t) /\ close (exp t).
Hypothesis H_tv1 : forall i t, 0 <= i < 256 -> t ∈ vec b TV1 i -> Z.max (exp t) T < T + 256 /\ i = Z.max (exp t) T mod 256.
Hypothesis H_tvn : forall s i t, s <> TV1 -> 0 <= i < 64 -> t ∈ vec b s i ->
  turn T (shift s) <= exp t / 2 ^ shift s < turn T (shift s) + 64 /\ i = (exp t / 2 ^ shift s) mod 64.

Lemma time_before_close x y : close x -> close y -> time_before (u64 x) (u64 y) = (x <? y).
Proof.
  intros Hx Hy. unfold close in *. unfold time_before, time_after. rewrite u64_sub, u64_signed by lia.
  apply eq_bool_prop_intro. rewrite !Is_true_true, !Z.ltb_lt. lia.
Qed.

(** ** One list *)

Lemma scan_entries_ok l : forall found r,
  (forall t, t ∈ l -> expires (timers w t) = u64 (exp t) /\ close (exp t)) -> close r ->
  exists found' r', scan_entries w found (u64 r) l = (found', u64 r') /\ close r' /\ r' <= r /\
    (forall t, t ∈ l -> nd t -> r' <= exp t) /\ (r' = r \/ exists t, t ∈ l /\ nd t /\ r' = exp t) /\
    (found' = true <-> found = true \/ exists t, t ∈ l /\ nd t).
Proof.
  induction l as [|t l IH]; intros found r He Hr; cbn [scan_entries].
  { exists found, r. split; [done|]. split; [done|]. split; [lia|]. split; [by intros t ?%elem_of_nil|].
    split; [by left|]. split; [by left|]. intros [?|(t & ?%elem_of_nil & _)]; done. }
  assert (Hl : forall t, t ∈ l -> expires (timers w t) = u64 (exp t) /\ close (exp t)) by (intros; apply He; by right).
  destruct (He t) as [Ht Hct]; [left|]. destruct (deferrable w t) eqn:Hd.
  - destruct (IH found r Hl Hr) as (f' & r' & -> & Hc & Hle & Hmin & Hat & Hf). exists f', r'.
    assert (Hn : ~ nd t) by (unfold nd; by rewrite Hd).
    split; [done|]. split; [done|]. split; [done|]. split; [|split].
    + intros x [->|Hx]%elem_of_cons Hnd; [done|by apply Hmin].
    + destruct Hat as [|(x & Hx & ?)]; [by left|right; exists x; split; [by right|done]].
    + rewrite Hf. split; (intros [?|(x & Hx & Hnd)]; [by left|]); right; exists x.
      * split; [by right|done].
      * apply elem_of_cons in Hx as [->|]; done.
  - rewrite Ht, time_before_close by done. set (r1 := if exp t <? r then exp t else r).
    replace (if exp t <? r then u64 (exp t) else u64 r) with (u64 r1) by (unfold r1; by case_match).
    assert (Hr1 : close r1 /\ r1 <= r /\ r1 <= exp t /\ (r1 = r \/ r1 = exp t)).
    { unfold r1. destruct (Z.ltb_spec (exp t) r); split_and!; try done; try lia; auto. }
    destruct Hr1 as (Hc1 & Hle1 & Het & Hor).
    destruct (IH true r1 Hl Hc1) as (f' & r' & -> & Hc & Hle & Hmin & Hat & Hf). exists f', r'.
    split; [done|]. split; [done|]. split; [lia|]. split; [|split].
    + intros x [->|Hx]%elem_of_cons Hnd; [lia|by apply Hmin].
    + destruct Hat as [->|(x & Hx & ?)]; [|right; exists x; split; [by right|done]].
      destruct Hor as [-> | ->]; [by left|right]. exists t. split; [left|done].
    + rewrite Hf. split; [|by left]. intros _. right. exists t. split; [left|done].
Qed.

(** ** One coarse vector *)

(** What is known before vector [s] is searched: [r] is not after any timer of
    [P], the timers seen so far; it is the expiry of one of them if [found]. *)
Record known (P : tid -> Prop) (found : bool) (r : Z) : Prop := {
  kn_close : close r;
  kn_max : r <= T + NEXT_TIMER_MAX_DELTA;
  kn_min : forall t, P t -> nd t -> Z.max r T <= Z.max (exp t) T;
  kn_at : r = T + NEXT_TIMER_MAX_DELTA \/ exists s t, on s t /\ nd t /\ r = exp t;
  kn_none : found = false -> r = T + NEXT_TIMER_MAX_DELTA }.

Lemma on_tvn s t : s <> TV1 -> on s t ->
  turn T (shift s) <= exp t / 2 ^ shift s < turn T (shift s) + 64 /\ t ∈ vec b s ((exp t / 2 ^ shift s) mod 64) /\
  T <= exp t /\ turn T (shift s) * 2 ^ shift s <= exp t.
Proof.
  intros Hs (i & Hi & Ht). assert (vsize s = 64) as Hv by (by destruct s). rewrite Hv in Hi.
  destruct (H_tvn s i t Hs Hi Ht) as [Hb ->]. split; [done|]. split; [done|].
  pose proof (turn_ge T (shift s) ltac:(pose proof (shift_pos s); lia)).
  pose proof (Z.mul_div_le (exp t) (2 ^ shift s) ltac:(pose proof (shift_pos s); lia)).
  assert (0 < 2 ^ shift s) by (pose proof (shift_pos s); lia). nia.
Qed.

Lemma vec_loop (P : tid -> Prop) s found r :
  s <> TV1 -> known P found r -> (found = true -> Z.max r T < (turn T (shift s) + 1) * 2 ^ shift s) ->
  let index := turn T (shift s) mod 64 in
  exists res, loop (Z.to_nat TVN_SIZE) (vec_step w b s index) (index, found, u64 r) = Ok res /\
  exists ret found' r', res = (ret, found', u64 r') /\ known (fun t => P t \/ on s t) found' r' /\
    (found' = true -> Z.max r' T < (turn T (shift s) + 64) * 2 ^ shift s) /\
    (ret = true -> index <> 0 /\ Z.max r' T < (turn T (shift s) + 64 - index) * 2 ^ shift s).
Proof.
  intros Hs Hkn Hfb index. set (k := shift s) in *. set (N := turn T k) in *.
  assert (Hk : 0 < 2 ^ k) by (pose proof (shift_pos s); unfold k; lia).
  assert (Hidx : 0 <= index < 64) by (apply Z.mod_pos_bound; lia).
  apply (loop_total _ (fun st => exists n, 0 <= n < 64 /\ st = ((index + n) mod 64, found, u64 r) /\ (found = true -> n = 0) /\
      forall t, on s t -> nd t -> N + n <= exp t / 2 ^ k) _
    (fun st => Z.to_nat ((index - 1 - st.1.1) mod 64))).
  2:{ exists 0. rewrite Z.add_0_r, Z.mod_small by lia. split; [lia|]. split; [done|]. split; [done|]. intros t Ht _.
      rewrite Z.add_0_r. by apply (on_tvn s t). }
  2:{ cbn. unfold TVN_SIZE. pose proof (Z.mod_pos_bound (index - 1 - index) 64). lia. }
  intros st (n & Hn & -> & Hn0 & Hseen). unfold vec_step. set (slot := (index + n) mod 64).
  assert (Hslot : 0 <= slot < 64) by (apply Z.mod_pos_bound; lia).
  assert (Hv : vsize s = 64) by (by destruct s).
  destruct (scan_entries_ok (vec b s slot) found r) as (f' & r' & -> & Hc & Hle & Hmin & Hat & Hf).
  { intros t Ht. apply (H_exp s slot); [by rewrite Hv|done]. }
  { apply Hkn. }
  assert (Hblock : forall t, t ∈ vec b s slot -> exp t / 2 ^ k = N + n).
  { intros t Ht. destruct (H_tvn s slot t Hs Hslot Ht) as [Hb Hi]. fold k N in Hb, Hi.
    unfold slot, index in Hi. rewrite Zplus_mod_idemp_l in Hi. Z.div_mod_to_equations; lia. }
  destruct f'.
  - right. exists (negb ((index =? 0) || (slot <? index)), true, u64 r').
    split; [by destruct ((index =? 0) || (slot <? index))|].
    exists (negb ((index =? 0) || (slot <? index))), true, r'. split; [done|].
    assert (Hub : Z.max r' T < (N + n + 1) * 2 ^ k).
    { destruct (proj1 Hf eq_refl) as [Hft|(t & Ht & Hnd)].
      - rewrite (Hn0 Hft), Z.add_0_r. specialize (Hfb Hft). lia.
      - specialize (Hmin t Ht Hnd). pose proof (Hblock t Ht) as Hb.
        assert (T <= exp t) by (apply (on_tvn s t Hs); exists slot; rewrite Hv; done).
        pose proof (Z.mul_succ_div_gt (exp t) (2 ^ k) Hk). rewrite Hb in *. lia. }
    split; [split|split].
    + done.
    + pose proof (kn_max _ _ _ Hkn). lia.
    + intros t [Ht|Ht] Hnd; [pose proof (kn_min _ _ _ Hkn t Ht Hnd); lia|].
      destruct (on_tvn s t Hs Ht) as (_ & Hin & HTt & _). fold k in Hin.
      destruct (Z.eq_dec (exp t / 2 ^ k) (N + n)) as [Heq|Hne].
      * assert (Hin' : t ∈ vec b s slot).
        { unfold slot, index. rewrite Zplus_mod_idemp_l. by rewrite <- Heq. }
        specialize (Hmin t Hin' Hnd). lia.
      * specialize (Hseen t Ht Hnd). pose proof (Z.mul_div_le (exp t) (2 ^ k) Hk). nia.
    + destruct Hat as [->|(t & Ht & Hnd & ->)]; [apply Hkn|]. right. exists s, t.
      split; [exists slot; by rewrite Hv|done].
    + done.
    + intros _. nia.
    + intros Hret. apply negb_true_iff, orb_false_iff in Hret as [H0%Z.eqb_neq Hsl%Z.ltb_ge]. split; [done|].
      assert (n < 64 - index); [|nia]. unfold slot in Hsl. Z.div_mod_to_equations; lia.
  - assert (Hno : found = false /\ forall t, t ∈ vec b s slot -> ~ nd t).
    { split; [destruct found; [naive_solver|done]|]. intros t Ht Hnd.
      assert (false = true) by (apply Hf; right; by exists t). done. }
    destruct Hno as [-> Hno].
    assert (r' = r) as -> by (destruct Hat as [|(t & Ht & Hnd & _)]; [done|by destruct (Hno t)]).
    assert (Hseen' : forall t, on s t -> nd t -> N + (n + 1) <= exp t / 2 ^ k).
    { intros t Ht Hnd. specialize (Hseen t Ht Hnd). destruct (Z.eq_dec (exp t / 2 ^ k) (N + n)) as [Heq|]; [|lia].
      exfalso. apply (Hno t); [|done]. destruct (on_tvn s t Hs Ht) as (_ & Hin & _). fold k in Hin.
      unfold slot, index. rewrite Zplus_mod_idemp_l. by rewrite <- Heq. }
    assert (Hnext : Z.land (slot + 1) TVN_MASK = (index + (n + 1)) mod 64).
    { rewrite land_mask_TVN. unfold slot. rewrite Zplus_mod_idemp_l. f_equal. lia. }
    rewrite Hnext. destruct (Z.eqb_spec ((index + (n + 1)) mod 64) index) as [Heq|Hne]; cbn [negb].
    + right. eexists. split; [done|]. exists false, false, r. split; [done|].
      assert (n = 63) as -> by (Z.div_mod_to_equations; lia).
      split; [split|done]; [apply Hkn..| |apply Hkn|apply Hkn].
      intros t [Ht|Ht] Hnd; [by apply Hkn|]. specialize (Hseen' t Ht Hnd).
      destruct (on_tvn s t Hs Ht) as (Hb & _). fold k N in Hb. lia.
    + left. eexists. split; [done|]. split.
      * exists (n + 1). split; [|done]. assert (n <> 63); [|lia]. intros ->. apply Hne. Z.div_mod_to_equations; lia.
      * cbn [fst]. unfold slot. Z.div_mod_to_equations; lia.
Qed.

(** ** All coarse vectors *)

Definition up_to (k : Z) (t : tid) : Prop := exists s, shift s <= k /\ on s t.

(** Timers of coarser vectors are not before the next coarse turn. *)
Lemma coarser_ge s k t : 0 <= k -> k + 6 <= shift s -> on s t -> turn T (k + 6) * 2 ^ (k + 6) <= exp t.
Proof.
  intros Hk Hsh Ht. assert (s <> TV1) as Hs by (intros ->; cbn in Hsh; lia).
  destruct (on_tvn s t Hs Ht) as (_ & _ & _ & Hge).
  pose proof (turn_mono T (k + 6) (shift s - (k + 6)) ltac:(lia) ltac:(lia)) as Hm.
  replace (k + 6 + (shift s - (k + 6))) with (shift s) in Hm by lia. lia.
Qed.

(** What is known when the search of vector [s] begins. *)
Record searching (s : tvsel) (tj : Z) (found : bool) (r : Z) : Prop := {
  se_known : known (up_to (shift s - 6)) found r;
  se_found : found = true -> Z.max r T < (turn T (shift s) + 1) * 2 ^ shift s;
  se_range : 0 <= tj < 2 ^ 63;
  se_tj : exists q, tj = turn T (shift s) + q * 2 ^ (64 - shift s) }.

Lemma known_ext (P Q : tid -> Prop) f r : known P f r -> (forall t, Q t -> P t) -> known Q f r.
Proof. intros [H1 H2 H3 H4 H5] HPQ. split; auto. Qed.

Lemma shift_step s s' : s <> TV1 -> s' <> TV1 -> shift s' <= shift s -> shift s' <= shift s - 6 \/ s' = s.
Proof. destruct s, s'; cbn; intros; (left; lia) || (right; done) || lia || done. Qed.

Lemma level_ok s l tj found r :
  s <> TV1 -> searching s tj found r ->
  (exists r' f', next_cascade w b (s :: l) tj found (u64 r) = Ok (u64 r') /\ known (fun t => exists s, on s t) f' r') \/
  (exists tj' f' r', next_cascade w b (s :: l) tj found (u64 r) = next_cascade w b l tj' f' (u64 r') /\
     known (up_to (shift s)) f' r' /\ forall s', shift s' = shift s + 6 -> searching s' tj' f' r').
Proof.
  intros Hs [Hkn Hfb Hr64 [q Htj]]. cbn [next_cascade]. set (k := shift s) in *.
  assert (Hk : 8 <= k <= 26) by (unfold k; destruct s; cbn; lia || done).
  assert (Hidx : Z.land tj TVN_MASK = turn T k mod 64).
  { rewrite land_mask_TVN, Htj. replace (64 - k) with (58 - k + 6) by lia.
    rewrite Z.pow_add_r, Z.mul_assoc by lia. apply Z.mod_add. lia. }
  rewrite Hidx. destruct (vec_loop _ s found r Hs Hkn Hfb) as (res & Hl & ret & f' & r' & -> & Hkn' & Hub & Hret).
  fold k in Hl, Hub, Hret. rewrite Hl, res_bind_ok. set (index := turn T k mod 64) in *.
  assert (Hidx64 : 0 <= index < 64) by (apply Z.mod_pos_bound; lia).
  pose proof (turn_coarser T k ltac:(lia)) as Hco. cbv zeta in Hco. fold index in Hco.
  assert (Hto : known (up_to k) f' r').
  { eapply known_ext; [exact Hkn'|]. intros t (s' & Hle & Hon). destruct (decide (s' = TV1)) as [->|Hs'].
    - left. exists TV1. cbn in *. split; [lia|done].
    - destruct (shift_step s s' Hs Hs' Hle) as [| ->]; [left; by exists s'|by right]. }
  destruct ret; [left|right].
  - exists r', f'. split; [done|]. destruct (Hret eq_refl) as [H0 Hlt].
    rewrite (proj2 (Z.eqb_neq _ _) H0) in Hco.
    assert (turn T (k + 6) * 64 = turn T k + (64 - index)) by (unfold index in *; Z.div_mod_to_equations; lia).
    destruct Hto as [K1 K2 K3 K4 K5]. split; [done..| |done|done]. intros t (s' & Hon) Hnd.
    destruct (decide (shift s' <= k)) as [Hle|Hgt]; [by apply K3; [exists s'|]|].
    assert (k + 6 <= shift s') by (unfold k in *; destruct s, s'; cbn in *; lia).
    pose proof (coarser_ge s' k t ltac:(lia) ltac:(lia) Hon) as Hge.
    rewrite Z.pow_add_r in Hge by lia. change (2 ^ 6) with 64 in Hge. nia.
  - eexists _, f', r'. split; [done|]. split; [done|]. intros s' Hs'. split.
    + rewrite Hs'. replace (k + 6 - 6) with k by lia. done.
    + intros Hf. specialize (Hub Hf). rewrite Hs'. rewrite Z.pow_add_r by lia. change (2 ^ 6) with 64.
      assert (0 < 2 ^ k) by lia.
      assert (turn T k <= 64 * turn T (k + 6)); [|nia].
      rewrite Hco. destruct (Z.eqb_spec index 0); unfold index in *; Z.div_mod_to_equations; lia.
    + unfold shr64, TVN_BITS, TVN_SIZE. rewrite Z.shiftr_div_pow2 by lia. change (2 ^ 6) with 64.
      destruct (negb (index =? 0)); [unfold add64; rewrite u64_small by lia|]; Z.div_mod_to_equations; lia.
    + exists q. rewrite Hs'. unfold shr64, TVN_BITS, TVN_SIZE. rewrite Z.shiftr_div_pow2 by lia. change (2 ^ 6) with 64.
      replace (64 - k) with (64 - (k + 6) + 6) in Htj by lia. rewrite Z.pow_add_r, Z.mul_assoc in Htj by lia.
      change (2 ^ 6) with 64 in Htj. rewrite Hco, <- Z.div_add by lia. f_equal.
      destruct (index =? 0); cbn [negb]; [|unfold add64; rewrite u64_small by lia]; lia.
Qed.

Lemma next_cascade_ok tj found r :
  searching TV2 tj found r ->
  exists r' f', next_cascade w b [TV2; TV3; TV4; TV5] tj found (u64 r) = Ok (u64 r') /\ known (fun t => exists s, on s t) f' r'.
Proof.
  intros Hse. destruct (level_ok TV2 [TV3; TV4; TV5] tj found r ltac:(done) Hse) as [?|(tj3 & f3 & r3 & -> & _ & H3)]; [done|].
  destruct (level_ok TV3 [TV4; TV5] tj3 f3 r3 ltac:(done) (H3 TV3 eq_refl)) as [?|(tj4 & f4 & r4 & -> & _ & H4)]; [done|].
  destruct (level_ok TV4 [TV5] tj4 f4 r4 ltac:(done) (H4 TV4 eq_refl)) as [?|(tj5 & f5 & r5 & -> & _ & H5)]; [done|].
  destruct (level_ok TV5 [] tj5 f5 r5 ltac:(done) (H5 TV5 eq_refl)) as [?|(tj6 & f6 & r6 & -> & H6 & _)]; [done|].
  exists r6, f6. split; [done|]. eapply known_ext; [exact H6|]. intros t [s Hs]. exists s. split; [|done].
  pose proof (shift_pos s). cbn. lia.
Qed.

(** ** The first vector *)

Lemma first_entry_ok l : match first_entry w l with
  | Some t => t ∈ l /\ nd t
  | None => forall t, t ∈ l -> ~ nd t end.
Proof.
  induction l as [|t l IH]; cbn [first_entry]; [by intros t ?%elem_of_nil|].
  unfold nd in *. destruct (deferrable w t) eqn:Hd.
  - destruct (first_entry w l); [split; [right|]; apply IH|].
    intros x [->|Hx]%elem_of_cons; [by rewrite Hd|by apply IH].
  - split; [left|done].
Qed.

Lemma tv1_loop :
  let index := T mod 256 in
  exists res, loop (Z.to_nat TVR_SIZE) (tv1_step w b index) index = Ok res /\
  match res with
  | Some (slot, e) => exists t n, 0 <= n < 256 /\ slot = (index + n) mod 256 /\ e = u64 (exp t) /\ on TV1 t /\ nd t /\
      Z.max (exp t) T = T + n /\ forall t', on TV1 t' -> nd t' -> T + n <= Z.max (exp t') T
  | None => forall t, on TV1 t -> ~ nd t
  end.
Proof.
  intros index. assert (Hidx : 0 <= index < 256) by (apply Z.mod_pos_bound; lia).
  apply (loop_total _ (fun slot => exists n, 0 <= n < 256 /\ slot = (index + n) mod 256 /\
      forall t, on TV1 t -> nd t -> T + n <= Z.max (exp t) T) _ (fun slot => Z.to_nat ((index - 1 - slot) mod 256))).
  2:{ exists 0. rewrite Z.add_0_r, Z.mod_small by lia. split; [lia|]. split; [done|]. intros. lia. }
  2:{ unfold TVR_SIZE. pose proof (Z.mod_pos_bound (index - 1 - index) 256). lia. }
  intros slot (n & Hn & -> & Hseen). unfold tv1_step. set (slot := (index + n) mod 256).
  assert (Hslot : 0 <= slot < 256) by (apply Z.mod_pos_bound; lia).
  assert (Hval : forall i t, 0 <= i < 256 -> t ∈ vec b TV1 i -> i = slot <-> Z.max (exp t) T = T + n).
  { intros i t Hi Ht. destruct (H_tv1 i t Hi Ht) as [Hm ->]. unfold slot, index. rewrite Zplus_mod_idemp_l.
    split; [|by intros ->]. intros Heq. Z.div_mod_to_equations; lia. }
  pose proof (first_entry_ok (vec b TV1 slot)) as Hfe. destruct (first_entry w (vec b TV1 slot)) as [t|].
  - right. eexists. split; [done|]. cbn. destruct Hfe as [Ht Hnd]. exists t, n.
    destruct (H_exp TV1 slot t Hslot Ht) as [He _]. split; [done|]. split; [done|]. split; [done|].
    split; [by exists slot|]. split; [done|]. split; [by apply (Hval slot)|done].
  - assert (Hseen' : forall t, on TV1 t -> nd t -> T + (n + 1) <= Z.max (exp t) T).
    { intros t (i & Hi & Ht) Hnd. specialize (Hseen t ltac:(by exists i) Hnd).
      destruct (Z.eq_dec (Z.max (exp t) T) (T + n)) as [Heq|]; [|lia].
      apply (Hval i t Hi Ht) in Heq as ->. by destruct (Hfe t Ht). }
    assert (Hnext : Z.land (slot + 1) TVR_MASK = (index + (n + 1)) mod 256).
    { rewrite land_mask_TVR. unfold slot. rewrite Zplus_mod_idemp_l. f_equal. lia. }
    rewrite Hnext. destruct (Z.eqb_spec ((index + (n + 1)) mod 256) index) as [Heq|Hne]; cbn [negb].
    + right. eexists. split; [done|]. intros t Ht Hnd. specialize (Hseen' t Ht Hnd).
      assert (n = 255) as -> by (Z.div_mod_to_equations; lia). destruct Ht as (i & Hi & Ht).
      destruct (H_tv1 i t Hi Ht) as [Hm _]. lia.
    + left. eexists. split; [done|]. split.
      * exists (n + 1). split; [|done]. assert (n <> 255); [|lia]. intros ->. apply Hne. Z.div_mod_to_equations; lia.
      * unfold slot. Z.div_mod_to_equations; lia.
Qed.

Lemma next_ok :
  exists r f, __next_timer_interrupt w b = Ok (u64 r) /\ known (fun t => exists s, on s t) f r.
Proof.
  unfold __next_timer_interrupt. rewrite H_clock, slot_index_root. destruct tv1_loop as (res & -> & Hres).
  rewrite res_bind_ok. set (index := T mod 256) in *.
  assert (Hidx : 0 <= index < 256) by (apply Z.mod_pos_bound; lia).
  set (tj := shr64 _ TVR_BITS).
  assert (Htj : 0 <= tj < 2 ^ 63 /\ exists q, tj = turn T (shift TV2) + q * 2 ^ (64 - shift TV2)).
  { set (T1 := T + if index =? 0 then 0 else 256 - index).
    assert (Heq : tj = u64 T1 / 256).
    { unfold tj, T1, shr64, TVR_BITS, TVR_SIZE. rewrite Z.shiftr_div_pow2 by lia. change (2 ^ 8) with 256. f_equal.
      destruct (index =? 0); cbn [negb]; [by rewrite Z.add_0_r|]. unfold add64. apply u64_add_l. }
    pose proof (u64_range T1). split; [rewrite Heq; Z.div_mod_to_equations; lia|].
    exists (- (T1 / 2 ^ 64)). cbn [shift]. rewrite turn_first. fold index. fold T1. rewrite Heq. unfold u64.
    rewrite <- Z.div_add by lia. f_equal. rewrite Z.mod_eq by lia. change (2 ^ 64) with (2 ^ (64 - 8) * 256). lia. }
  destruct Htj as [Htj64 Hq].
  assert (Hlow : forall t, up_to (shift TV2 - 6) t -> on TV1 t).
  { intros t (s & Hle & Hon). destruct s; cbn in Hle; done || lia. }
  pose proof (turn_ge T 8 ltac:(lia)) as Hge. change (2 ^ 8) with 256 in Hge.
  destruct res as [[slot e]|].
  - destruct Hres as (t & n & Hn & -> & -> & Hon & Hnd & Heq & Hmin).
    assert (Hkn : forall P, (forall t', P t' -> nd t' -> T + n <= Z.max (exp t') T) -> known P true (exp t)).
    { intros P HP. destruct Hon as (i & Hi & Ht). destruct (H_exp TV1 i t Hi Ht) as [_ Hc]. split; [done| | | |done].
      - unfold NEXT_TIMER_MAX_DELTA. lia.
      - intros t' Ht' Hnd'. specialize (HP t' Ht' Hnd'). lia.
      - right. exists TV1, t. split; [by exists i|done]. }
    destruct ((index =? 0) || ((index + n) mod 256 <? index)) eqn:Hw.
    + destruct (next_cascade_ok tj true (exp t)) as (r' & f' & Hr' & Hk'); [|by exists r', f'].
      split; [|cbn [shift]; change (2 ^ 8) with 256; lia|done|done].
      apply Hkn. intros t' Ht' Hnd'. apply Hmin; [by apply Hlow|done].
    + exists (exp t), true. split; [done|]. apply Hkn. intros t' [s Hs] Hnd'.
      destruct (decide (s = TV1)) as [->|Hs1]; [by apply Hmin|].
      apply orb_false_iff in Hw as [H0%Z.eqb_neq Hlt%Z.ltb_ge].
      destruct (on_tvn s t' Hs1 Hs) as (_ & _ & _ & Hget).
      pose proof (turn_mono T 8 (shift s - 8) ltac:(lia) ltac:(destruct s; cbn; lia || done)) as Hm.
      replace (8 + (shift s - 8)) with (shift s) in Hm by lia. change (2 ^ 8) with 256 in Hm.
      rewrite turn_first in Hm. fold index in Hm. rewrite (proj2 (Z.eqb_neq _ _) H0) in Hm.
      unfold index in *. Z.div_mod_to_equations; lia.
  - destruct (next_cascade_ok tj false (T + NEXT_TIMER_MAX_DELTA)) as (r' & f' & Hr' & Hk').
    + split; [split|done|done|done].
      * unfold close, NEXT_TIMER_MAX_DELTA. lia.
      * lia.
      * intros t Ht Hnd. by destruct (Hres t (Hlow t Ht)).
      * by left.
      * done.
    + exists r', f'. split; [|done]. rewrite <- Hr'. unfold add64. by rewrite u64_add_l.
Qed.
End next.

(** ** In the kernel's terms *)

(** No timer of [tv5] is there for want of a coarser vector: a timer that
    expires more than [MAX_TVAL] ahead is queued as if it expired earlier, and
    stays on that list. *)
Definition unclamped (w : world) (b : tvec_base) : Prop :=
  forall i t, 0 <= i < TVN_SIZE -> t ∈ vec b TV5 i ->
    i = Z.land (shr64 (expires (timers w t)) (TVR_BITS + 3 * TVN_BITS)) TVN_MASK /\
    s64 (expires (timers w t) ⊖ timer_jiffies b) <= MAX_TVAL.

Lemma wheel_exp J w b T s i t :
  wheel J (timers w) b T -> 0 <= i < vsize s -> t ∈ vec b s i ->
  expires (timers w t) = u64 (exp w T t) /\ close T (exp w T t) /\ slot_ok s i T (exp w T t).
Proof.
  intros Hwh Hi Ht. pose proof (wh_lag _ _ _ _ Hwh).
  destruct (wh_vec _ _ _ _ Hwh s i t ltac:(lia) Ht) as (E & He & Hr & Hs).
  assert (exp w T t = E) as ->.
  { unfold exp. rewrite He, u64_sub, u64_signed by (unfold window in *; lia). lia. }
  split; [done|]. split; [unfold close, window in *; lia|done].
Qed.

Lemma slot_ok_exact s i T E :
  s <> TV1 -> slot_ok s i T E -> (s = TV5 -> i = (E / 2 ^ 26) mod 64 /\ E < T + 2 ^ 32) ->
  turn T (shift s) <= E / 2 ^ shift s < turn T (shift s) + 64 /\ i = (E / 2 ^ shift s) mod 64.
Proof.
  intros Hs Hok H5. pose proof (turn_ge T 26 ltac:(lia)) as Hge.
  assert (He : exists e, e <= E /\ (s <> TV5 -> e = E) /\ turn T (shift s) <= e / 2 ^ shift s < turn T (shift s) + 64 /\
    i = (e / 2 ^ shift s) mod 64) by (by destruct s). clear Hok.
  destruct He as (e & HeE & Hex & Hr & Hi). destruct (decide (s = TV5)) as [->|Hn].
  - destruct (H5 eq_refl) as [Hi5 Hlt]. cbn [shift] in *. split; [|done].
    change (2 ^ 32) with (64 * 2 ^ 26) in Hlt. pose proof (Z.div_le_mono e E (2 ^ 26) ltac:(lia) HeE).
    split; [lia|]. apply Z.div_lt_upper_bound; lia.
  - by rewrite <- (Hex Hn).
Qed.

(** C26.  [__next_timer_interrupt] on a base of well-formed timers, none of
    them waiting to run, when no timer is in [tv5] because it was armed for more
    than [MAX_TVAL] ahead ([unclamped]; with such a timer the function can miss
    an earlier one).  It returns the earliest expiry among the timers of the
    base that are not deferrable, but nothing later than the clock plus
    [NEXT_TIMER_MAX_DELTA], which it returns if no such timer expires before;
    of timers that are overdue it returns any one.  It looks at one list per
    turn of a coarser hand at most, and no timer it does not look at is
    earlier. *)
Theorem next_timer_interrupt_first J w a :
  wf J w None -> work_list (bases w a) = [] -> unclamped w (bases w a) ->
  let ahead e := s64 (e ⊖ timer_jiffies (bases w a)) in
  exists e, __next_timer_interrupt w (bases w a) = Ok e /\ ahead e <= NEXT_TIMER_MAX_DELTA /\
    (ahead e = NEXT_TIMER_MAX_DELTA \/ exists t, queued w a t /\ nd w t /\ e = expires (timers w t)) /\
    forall t, queued w a t -> nd w t -> Z.max 0 (ahead e) <= Z.max 0 (ahead (expires (timers w t))).
Proof.
  intros Hwf Hwk Hun ahead. set (b := bases w a) in *. destruct (wf_base _ _ _ Hwf a) as [Hlen _ _ _ _ _ [T Hwh]]. fold b in Hlen, Hwh.
  pose proof (wh_clock _ _ _ _ Hwh) as Hck.
  assert (Hmem : forall t, queued w a t <-> exists s, on b s t).
  { intros t. rewrite <- (wf_queued J w a t Hwf). fold b. split.
    - intros [Ht|(s & i & Hi & Ht)]%elems_cases; [rewrite Hwk in Ht; by apply elem_of_nil in Ht|].
      exists s, i. rewrite Hlen in Hi. split; [destruct s; cbn [vsize] in *; lia|done].
    - intros (s & i & _ & Ht). by eapply vec_elem. }
  assert (Hah : forall r, close T r -> ahead (u64 r) = r - T).
  { intros r Hr. unfold ahead. rewrite Hck, u64_sub, u64_signed; [done|unfold close in Hr; lia]. }
  destruct (next_ok w b T Hck) as (r & f & Hn & Hk).
  - intros s i t Hi Ht. destruct (wheel_exp J w b T s i t Hwh Hi Ht) as (? & ? & _). done.
  - intros i t Hi Ht. destruct (wheel_exp J w b T TV1 i t Hwh Hi Ht) as (_ & _ & [[Hr ->]|[Hr ->]]).
    + rewrite Z.max_l by lia. split; [lia|done].
    + rewrite Z.max_r by lia. split; [lia|done].
  - intros s i t Hs Hi Ht. destruct (wheel_exp J w b T s i t Hwh) as (He & Hc & Hok); [by destruct s|done|].
    apply slot_ok_exact; [done..|]. intros ->. destruct (Hun i t) as [H1 H2]; [done..|].
    fold (ahead (expires (timers w t))) in H2. rewrite He, Hah in H2 by done. unfold MAX_TVAL, TVR_BITS, TVN_BITS in H2.
    rewrite He, slot_index in H1 by (unfold TVR_BITS, TVN_BITS; lia). split; [exact H1|lia].
  - exists (u64 r). destruct Hk as [Hc Hm Hmin Hat _]. rewrite Hah by done. split; [done|]. split; [lia|]. split.
    + destruct Hat as [-> |(s & t & Hon & Hnd & ->)]; [left; lia|right]. exists t.
      split; [apply Hmem; by exists s|]. split; [done|]. destruct Hon as (i & Hi & Ht).
      destruct (wheel_exp J w b T s i t Hwh Hi Ht) as (He & _). done.
    + intros t Ht Hnd. apply Hmem in Ht as Hon. specialize (Hmin t Hon Hnd). destruct Hon as (s & i & Hi & Hin).
      destruct (wheel_exp J w b T s i t Hwh Hi Hin) as (He & Hct & _). rewrite He, Hah by done. lia.
Qed.

(** ** Rounding *)

(** Rounding stays within a quarter of a second below and a second above, never
    rounds down when told not to, and never moves a time that is in the future
    into the past; if it moves the time, then to a whole second, skewed by the
    cpu. *)
Theorem round_jiffies_common_ok J D c force_up :
  0 <= c < 2 ^ 28 -> - 2 ^ 60 <= D - J <= 2 ^ 60 ->
  exists R, round_jiffies_common (u64 J) (u64 D) c force_up = u64 R /\ D - HZ / 4 < R <= D + HZ /\
    (force_up = true -> D <= R) /\ (J < D -> J < R) /\
    (R = D \/ (u64 (D + c * 3) + (R - D)) mod HZ = 0).
Proof.
  intros Hc HD. unfold round_jiffies_common. change (HZ / 4) with 25. unfold add64, HZ. rewrite u64_add_l.
  set (x := u64 (D + c * 3)). set (rem := x mod 100). pose proof (Z.mod_pos_bound x 100 ltac:(lia)) as Hrem. fold rem in Hrem.
  assert (Hsub : forall y z, u64 y ⊖ z = u64 (y - z)) by (intros y z; exact (u64_add_l y (- z))).
  set (d := if (rem <? 25) && negb force_up then - rem else 100 - rem).
  assert (Hstep : (if (rem <? 25) && negb force_up then x ⊖ rem else u64 ((x ⊖ rem) + 100)) = u64 (D + c * 3 + d)).
  { unfold d, x. rewrite Hsub. case_match; [done|]. rewrite u64_add_l. f_equal. lia. }
  rewrite Hstep, Hsub. replace (D + c * 3 + d - c * 3) with (D + d) by lia.
  assert (Hd : - 25 < d <= 100 /\ (force_up = true -> 0 <= d)).
  { unfold d. destruct (Z.ltb_spec rem 25), force_up; cbn [andb negb]; split; intros; lia || done. }
  destruct Hd as [Hd Hup]. unfold time_before, time_after. rewrite u64_sub, u64_signed by lia.
  destruct (Z.ltb_spec (J - (D + d)) 0) as [Hlt|Hge].
  - exists (D + d). split; [done|]. split; [lia|]. split; [intros Hf; specialize (Hup Hf); lia|]. split; [lia|]. right.
    replace (x + (D + d - D)) with (x + d) by lia. pose proof (Z.div_mod x 100 ltac:(lia)) as Hx. fold rem in Hx.
    unfold d. case_match;
      [replace (x + - rem) with (x / 100 * 100) by lia|replace (x + (100 - rem)) with ((x / 100 + 1) * 100) by lia];
      apply Z.mod_mul; lia.
  - exists D. split; [done|]. split; [lia|]. split; [lia|]. split; [done|]. by left.
Qed.
