(* ===== verification/TimerMigrate.v ===== *)
(** [migrate_timers]: the timers of a dead cpu move to this one. *)
From stdpp Require Import functions.
From S2P Require Import Prelude FindBitDefs FindBit TimerDefs TimerWheel TimerInv TimerOps TimerRun TimerProps TimerCpuDefs TimerReach.

Section migrate.
Context (nf : Z -> bool) (J old new : Z).
Hypothesis H_new : new <> old.
Hypothesis H_addr : base_addr new.

(** The counters of the dead base are not kept up to date; [v] is [w] with the
    right ones. *)
Record repaired (w v : world) : Prop := {
  re_now : jiffies v = jiffies w;
  re_timers : timers v = timers w;
  re_bases : tvec_bases v = tvec_bases w;
  re_fired : fired v = fired w;
  re_other : forall a, a <> old -> bases v a = bases w a;
  re_old : exists x y, bases v old = with_counts (bases w old) x y }.

Lemma internal_add_repaired w v t :
  repaired w v -> repaired (internal_add_timer nf w new t) (internal_add_timer nf v new t).
Proof.
  intros [H1 H2 H3 H4 H5 [x [y H6]]]. pose proof (H5 new H_new) as Hn.
  unfold internal_add_timer, __internal_add_timer. cbn [bases timers set_base jiffies]. rewrite !fn_lookup_insert.
  rewrite H1, H2, Hn. destruct (timer_vec _ _) as [s i].
  cbn [bases timers set_base set_timer jiffies]. rewrite !fn_lookup_insert.
  set (b := with_counts _ _ _). destruct (negb (tbase_get_deferrable new) || _).
  all: split; cbn [bases timers set_base set_timer jiffies tvec_bases fired]; rewrite ?H2; try done.
  all: try (intros a Ha; destruct (decide (a = new)) as [->|Hne];
    [by rewrite !fn_lookup_insert|rewrite !fn_lookup_insert_ne by done; by apply H5]).
  all: exists x, y; by rewrite !fn_lookup_insert_ne.
Qed.

Definition moved (tl : timer_list) : timer_list := with_base tl (Z.lor new (Z.land (base tl) TIMER_FLAG_MASK)).

Context (w0 : world).

(** The state of the migration: some timers of the old base have moved. *)
Record migrating (w : world) : Prop := {
  mg_wf : exists v, repaired w v /\ wf J v None;
  mg_work : forall a, work_list (bases w a) = [];
  mg_now : jiffies w = jiffies w0;
  mg_cpus : tvec_bases w = tvec_bases w0;
  mg_timers : forall t, timers w t = timers w0 t \/ (queued w0 old t /\ timers w t = moved (timers w0 t)) }.

Hypothesis H_near : forall t, queued w0 old t ->
  exists E, expires (timers w0 t) = u64 E /\ J - window <= E <= J + window.

Lemma vec_counts b x y s i : vec (with_counts b x y) s i = vec b s i.
Proof. by apply same_lists_vec. Qed.

Lemma migrate_step_ok s i w t l :
  migrating w -> vec (bases w old) s i = t :: l ->
  exists w', migrate_step nf old new s i w = Ok (inl w') /\ migrating w' /\
    (length (vec (bases w' old) s i) <= length l)%nat /\
    forall s' i', vec (bases w old) s' i' = [] -> vec (bases w' old) s' i' = [].
Proof.
  intros [(v & Hre & Hwf) Hwk Hnow Hcpus Htm] Hvec. unfold migrate_step. rewrite Hvec.
  destruct (re_old _ _ Hre) as (x & y & Hold).
  assert (Hin : t ∈ elems (bases v old)) by (apply (vec_elem _ s i); rewrite Hold, vec_counts, Hvec; left).
  assert (Hq : queued v old t) by (by apply (wf_queued J)). destruct Hq as [Hp Hb].
  assert (Ht0 : timers w t = timers w0 t /\ queued w0 old t).
  { rewrite (re_timers _ _ Hre) in Hp, Hb. destruct (Htm t) as [Ht|[Hq0 Ht]].
    - split; [done|]. unfold queued. by rewrite <- Ht.
    - rewrite Ht in Hb. cbn in Hb. rewrite get_base_set in Hb by done. done. }
  destruct Ht0 as [Ht0 Hq0]. destruct (H_near t Hq0) as (E & HE & HEr).
  set (w1 := detach_timer w old t false). set (w2 := timer_set_base w1 t new).
  set (b3 := with_counts (unlink_base t (bases v old))
    (active_timers (bases v old) - (if tbase_get_deferrable (base (timers v t)) then 0 else 1)) (all_timers (bases v old) - 1)).
  set (v1 := set_base v old b3).
  assert (Hb3 : bases v1 old = b3) by (cbn; by rewrite fn_lookup_insert).
  destruct (unlinked_wf J v v1 old t (Some t) b3) as [Hwf1 _]; try done; [by left| |by right|].
  { intros a' Ha'. cbn. by rewrite fn_lookup_insert_ne. }
  set (v2 := timer_set_base v1 t new).
  assert (Hre2 : repaired w2 v2).
  { destruct Hre as [R1 R2 R3 R4 R5 R6]. split; cbn; try done.
    - by rewrite R2.
    - intros a Ha. rewrite !fn_lookup_insert_ne by done. by apply R5.
    - rewrite !fn_lookup_insert. unfold b3. rewrite Hold. eexists _, _. done. }
  assert (Ht2 : timers v2 t = moved (timers w0 t)).
  { cbn. rewrite fn_lookup_insert. unfold moved. by rewrite (re_timers _ _ Hre), Ht0. }
  assert (Hwf2 : wf J v2 (Some t)).
  { apply wf_set_timer; [done|]. intros _. cbn. by rewrite get_base_set. }
  destruct (internal_add_timer_wf nf J v2 new t E Hwf2) as (Hwf3 & Hf3 & Ht3);
    [rewrite Ht2; cbn; by rewrite get_base_set|by rewrite Ht2|done|].
  pose proof (internal_add_repaired _ _ t Hre2) as Hre3. set (w3 := internal_add_timer nf w2 new t) in *.
  set (v3 := internal_add_timer nf v2 new t) in *.
  assert (Hold3 : forall s' i', vec (bases w3 old) s' i' = unlink t (vec (bases w old) s' i')).
  { intros s' i'. assert (bases w3 old = bases w2 old) as ->.
    { unfold w3, internal_add_timer, __internal_add_timer. cbn [bases timers set_base jiffies]. rewrite fn_lookup_insert.
      destruct (timer_vec _ _) as [s1 i1]. destruct (negb (tbase_get_deferrable new) || _); cbn; rewrite ?fn_lookup_insert_ne by done; done. }
    cbn. rewrite fn_lookup_insert. apply vec_unlink. }
  exists w3. split; [done|]. split; [split|split].
  - by exists v3.
  - intros a. assert (Hs : work_list (bases v3 a) `sublist_of` work_list (bases v2 a)) by apply (of_base _ _ _ Hf3 a).
    change (bases v2 a) with (bases v1 a) in Hs. destruct (decide (a = old)) as [->|Ha].
    + destruct (re_old _ _ Hre3) as (x3 & y3 & Ho3). rewrite Ho3 in Hs. cbn [work_list with_counts] in Hs.
      rewrite Hb3 in Hs. unfold b3 in Hs. rewrite Hold in Hs. cbn in Hs. rewrite Hwk in Hs. by apply sublist_nil_r in Hs.
    + rewrite (re_other _ _ Hre3) in Hs by done. cbn in Hs. rewrite fn_lookup_insert_ne in Hs by done.
      rewrite (re_other _ _ Hre), Hwk in Hs by done. by apply sublist_nil_r in Hs.
  - rewrite <- (re_now _ _ Hre3), (of_now _ _ _ Hf3). cbn. by rewrite (re_now _ _ Hre).
  - rewrite <- (re_bases _ _ Hre3), (of_bases _ _ _ Hf3). cbn. by rewrite (re_bases _ _ Hre).
  - intros t'. rewrite <- (re_timers _ _ Hre3). destruct (decide (t' = t)) as [->|Hne].
    + right. split; [done|]. rewrite Ht3, Ht2. unfold moved, with_pending, with_base. cbn.
      destruct Hq0 as [Hp0 _]. by rewrite Hp0.
    + rewrite (of_timers _ _ _ Hf3) by done. cbn. rewrite fn_lookup_insert_ne by done. rewrite (re_timers _ _ Hre). apply Htm.
  - rewrite Hold3, Hvec. unfold unlink. rewrite filter_cons_False by (by intros []). apply length_filter.
  - intros s' i' He. by rewrite Hold3, He.
Qed.

Lemma migrate_timer_list_ok w s i :
  migrating w -> exists w', migrate_timer_list nf old new w s i = Ok w' /\ migrating w' /\
    vec (bases w' old) s i = [] /\ forall s' i', vec (bases w old) s' i' = [] -> vec (bases w' old) s' i' = [].
Proof.
  intros Hmg. apply (loop_total _ (fun w' => migrating w' /\ forall s' i', vec (bases w old) s' i' = [] -> vec (bases w' old) s' i' = []) _
    (fun w' => length (vec (bases w' old) s i))); [|done|lia].
  intros w1 [Hmg1 Hk1]. destruct (vec (bases w1 old) s i) as [|t l] eqn:Hv.
  - right. exists w1. unfold migrate_step. by rewrite Hv.
  - left. destruct (migrate_step_ok s i w1 t l Hmg1 Hv) as (w2 & -> & Hmg2 & Hlen & Hk2).
    exists w2. split; [done|]. split; [split; [done|auto]|]. cbn. lia.
Qed.

Lemma migrate_lists_ok l : forall w,
  migrating w -> exists w', migrate_lists nf old new l w = Ok w' /\ migrating w' /\
    (forall s i, (s, i) ∈ l -> vec (bases w' old) s i = []) /\
    forall s' i', vec (bases w old) s' i' = [] -> vec (bases w' old) s' i' = [].
Proof.
  induction l as [|[s i] l IH]; intros w Hmg; cbn [migrate_lists].
  - exists w. split_and!; [done..|by intros s i ?%elem_of_nil|done].
  - destruct (migrate_timer_list_ok w s i Hmg) as (w1 & -> & Hmg1 & He & Hk1). rewrite res_bind_ok.
    destruct (IH w1 Hmg1) as (w2 & -> & Hmg2 & Hl & Hk2). exists w2. split; [done|]. split; [done|]. split; [|auto].
    intros s' i' [[= -> ->]|Hin]%elem_of_cons; auto.
Qed.
End migrate.

(** All list heads of a base, in the order of [migrate_timers]. *)
Lemma all_heads s i : 0 <= i < vsize s ->
  (s, i) ∈ ((fun i => (TV1, i)) <$> seqZ 0 TVR_SIZE) ++ (i ← seqZ 0 TVN_SIZE; [(TV2, i); (TV3, i); (TV4, i); (TV5, i)]).
Proof.
  intros Hi. rewrite elem_of_app. destruct (decide (s = TV1)) as [->|Hs]; [left|right].
  - apply list_elem_of_fmap. exists i. split; [done|]. apply elem_of_seqZ. cbn in Hi. unfold TVR_SIZE. lia.
  - apply list_elem_of_bind. exists i. split; [destruct s; set_solver|]. apply elem_of_seqZ.
    unfold TVN_SIZE. destruct s; cbn in Hi; done || lia.
Qed.

(** When a cpu is dead, [migrate_timers] moves every timer of its base to
    the base of this cpu and leaves the expiry, the function and the flags of
    each as they were; no other timer changes.  The counters of the dead base are
    not maintained, but once the base is set up again all timers are well
    formed. *)
Theorem migrate_timers_ok nf cpu_online J w c this_cpu :
  idle J w -> cpu_online c = false -> running_timer (bases w (tvec_bases w c)) = None ->
  tvec_bases w this_cpu <> tvec_bases w c ->
  (forall t, queued w (tvec_bases w c) t -> near w (- window) window (expires (timers w t))) ->
  exists w', migrate_timers nf cpu_online w c this_cpu = Ok w' /\
    (forall t, queued w (tvec_bases w c) t ->
       queued w' (tvec_bases w this_cpu) t /\ expires (timers w' t) = expires (timers w t) /\
       function (timers w' t) = function (timers w t) /\
       tbase_get_deferrable (base (timers w' t)) = tbase_get_deferrable (base (timers w t))) /\
    (forall t, ~ queued w (tvec_bases w c) t -> timers w' t = timers w t) /\
    idle J (set_base w' (tvec_bases w c) (init_base (jiffies w') (bases w' (tvec_bases w c)))).
Proof.
  intros [Hwf Hid] Hoff Hrun Hne Hnear. set (old := tvec_bases w c) in *. set (new := tvec_bases w this_cpu) in *.
  pose proof (wf_addr _ _ _ Hwf this_cpu) as Hnew. fold new in Hnew.
  unfold migrate_timers. rewrite Hoff. cbn [bug_on]. fold old. rewrite Hrun. rewrite bool_decide_false by naive_solver. cbn [bug_on].
  assert (Hmg : migrating J old new w w).
  { split; [|apply Hid|done|done|by left]. exists w. split; [|done]. split; try done.
    exists (active_timers (bases w old)), (all_timers (bases w old)). by destruct (bases w old). }
  destruct (migrate_lists_ok nf J old new Hne Hnew w) with
    (l := ((fun i => (TV1, i)) <$> seqZ 0 TVR_SIZE) ++ (i ← seqZ 0 TVN_SIZE; [(TV2, i); (TV3, i); (TV4, i); (TV5, i)]))
    (w := w) as (w' & Hdo & Hmg' & Hempty & _); [|done|].
  { intros t Ht. destruct (near_expiry J w _ _ _ (wf_now _ _ _ Hwf) (Hnear t Ht)) as (E & ? & ?). exists E. split; [done|lia]. }
  exists w'. split; [exact Hdo|]. destruct Hmg' as [(v & Hre & Hwfv) Hwk Hnow Hcpus Htm].
  destruct (re_old _ _ _ Hre) as (x & y & Hold).
  assert (Hno : forall t, ~ queued w' old t).
  { intros t Hq. assert (Ht : t ∈ elems (bases v old)).
    { apply (wf_queued J); [done|]. unfold queued in *. by rewrite (re_timers _ _ _ Hre). }
    apply elems_cases in Ht as [Ht|(s & i & Hi & Ht)].
    - rewrite Hold in Ht. cbn in Ht. rewrite Hwk in Ht. by apply elem_of_nil in Ht.
    - rewrite Hold, vec_counts, Hempty in Ht; [by apply elem_of_nil in Ht|]. apply all_heads.
      rewrite (bi_len _ _ _ _ _ (wf_base _ _ _ Hwfv old)) in Hi. destruct s; cbn [vsize] in *; lia. }
  split; [|split].
  - intros t Hq. destruct (Htm t) as [Ht|[_ Ht]].
    + destruct (Hno t). unfold queued in *. by rewrite Ht.
    + rewrite Ht. unfold queued. rewrite Ht. cbn. rewrite get_base_set, get_def_set by done. by destruct Hq.
  - intros t Hq. destruct (Htm t) as [Ht|[Hq' _]]; done.
  - rewrite Hnow, (wf_now _ _ _ Hwf).
    assert (Hw' : forall a, bases (set_base w' old (init_base (u64 J) (bases w' old))) a =
      bases (set_base v old (init_base (u64 J) (bases w' old))) a).
    { intros a. cbn. destruct (decide (a = old)) as [->|Ha]; [by rewrite !fn_lookup_insert|].
      rewrite !fn_lookup_insert_ne by done. by rewrite (re_other _ _ _ Hre). }
    assert (Hbi : base_inv J (timers w') (init_base (u64 J) (bases w' old)) old None) by (by apply init_base_inv).
    split; [split|].
    + cbn. by rewrite Hnow, (wf_now _ _ _ Hwf).
    + cbn. rewrite Hcpus. apply Hwf.
    + cbn. rewrite <- (re_timers _ _ _ Hre). apply Hwfv.
    + intros a. rewrite Hw'. cbn. destruct (decide (a = old)) as [->|Ha]; [by rewrite fn_lookup_insert|].
      rewrite fn_lookup_insert_ne by done. rewrite <- (re_timers _ _ _ Hre). apply Hwfv.
    + intros a. rewrite Hw'. cbn. destruct (decide (a = old)) as [->|Ha]; [rewrite fn_lookup_insert; apply (Hwk old)|].
      rewrite fn_lookup_insert_ne by done. rewrite (re_other _ _ _ Hre) by done. apply Hwk.
Qed.
