(* ===== verification/TimerExamples.v ===== *)
(** The timers of two cpus at work: [jiffies] wraps around, a periodic timer
    re-arms itself, a cpu dies. *)
From stdpp Require Import functions.
From S2P Require Import Prelude FindBitDefs FindBit TimerDefs TimerWheel TimerInv TimerOps TimerRun TimerProps TimerCpuDefs TimerReach TimerNext TimerMigrate.

Definition get (d : world) (r : res world) : world := match r with Ok w => w | _ => d end.

Definition cpu_bases (c : Z) : Z := if c =? 1 then 0x2000 else 0x1000.

(** Bases that have just been set up, and timers that have not. *)
Definition boot_world (j : Z) : world :=
  mkWorld j (fun _ => mkTimer false 0 0 false (-1)) (fun _ => init_base j zeroed_base) cpu_bases [] [].

Lemma boot_idle J : idle J (boot_world (u64 J)).
Proof.
  split; [|done]. split; [done| |done|].
  - intros c. cbn. unfold cpu_bases. case_match; done.
  - intros a. apply init_base_inv; [done|]. intros t [? _]. done.
Qed.

Definition no_nohz (c : Z) : bool := false.

Abbreviation op_on w op := (get w (do_op no_nohz w op)) (only parsing).

Lemma op_idle J w op : idle J w -> op_ok w op ->
  do_op no_nohz w op = Ok (op_on w op) /\ idle (J + tick_of op) (op_on w op).
Proof.
  intros Hid Hok. destruct (do_op_wf no_nohz J w op (proj1 Hid) Hok) as (w' & Hdo & _).
  rewrite Hdo. cbn [get]. split; [done|]. by eapply do_op_idle.
Qed.

(** The clocks of the bases do not move while [jiffies] is their value. *)
Definition clocks (c : Z) (w : world) : Prop := forall a, timer_jiffies (bases w a) = c.
Definition at_rest (J : Z) (w : world) : Prop := idle J w /\ clocks (u64 J) w.

Lemma op_at_rest J w op : at_rest J w -> op_ok w op -> tick_of op = 0 -> at_rest J (op_on w op).
Proof.
  intros [Hid Hc] Hok Ht. split.
  { destruct (op_idle J w op Hid Hok) as [_ Hid']. by rewrite Ht, Z.add_0_r in Hid'. }
  pose proof (proj1 Hid) as Hwf. destruct (do_op_wf no_nohz J w op Hwf Hok) as (w' & -> & _ & Heff). cbn [get].
  unfold op_effect in Heff. destruct (op_timer op) as [t|] eqn:Hop; [|by destruct op]. destruct Heff as [Hf _]. intros a.
  destruct (bf_clock _ _ _ _ (of_base _ _ _ Hf a)) as [-> | [-> _]]; [apply Hc|apply Hwf].
Qed.

Lemma tick_idle J T w : idle J w -> clocks (u64 T) w -> T <= J < T + window ->
  idle (J + 1) (op_on w OpTick) /\ clocks (u64 T) (op_on w OpTick).
Proof.
  intros Hid Hc HJ. split; [|done]. apply (op_idle J w OpTick Hid). intros a.
  rewrite Hc, (wf_now _ _ _ (proj1 Hid)), u64_sub, u64_signed; unfold window in *; lia.
Qed.

Fixpoint tick (n : nat) (w : world) : world := match n with O => w | S n => tick n (op_on w OpTick) end.

Lemma ticks_idle n : forall J T w, idle J w -> clocks (u64 T) w -> T <= J -> J + Z.of_nat n < T + window ->
  idle (J + Z.of_nat n) (tick n w).
Proof.
  induction n as [|n IH]; intros J T w Hid Hc HT Hn; cbn [tick]; [by rewrite Z.add_0_r|].
  destruct (tick_idle J T w Hid Hc) as [Hid' Hc']; [lia|].
  replace (J + Z.of_nat (S n)) with (J + 1 + Z.of_nat n) by lia. apply (IH (J + 1) T); [done..|lia|lia].
Qed.

(** [J = -3]: three jiffies before the counter wraps around. *)
Definition w_boot : world := boot_world (u64 (-3)).
Definition w_set : world :=
  __setup_timer (__setup_timer (__setup_timer (__setup_timer (__setup_timer w_boot 1 0 0) 2 0 0) 3 0 0) 4 0 1)
    5 TIMER_DEFERRABLE 0.
Definition w_add1 : world := op_on w_set (OpAdd 1 (u64 (-1)) 0).
Definition w_add2 : world := op_on w_add1 (OpAdd 2 2 0).
Definition w_add3 : world := op_on w_add2 (OpAdd 3 300 0).
Definition w_add4 : world := op_on w_add3 (OpAdd 4 7 1).
Definition w_add : world := op_on w_add4 (OpAddOn 5 1 0).

(** Six jiffies later. *)
Definition w_late : world := tick 6 w_add.

Ltac op_ok_compute :=
  cbn [op_ok]; unfold near; repeat split; vm_compute; congruence || (intros ?; congruence).

Lemma w_set_rest : at_rest (-3) w_set.
Proof.
  split; [|done]. unfold w_set.
  repeat (apply __setup_timer_idle; [|vm_compute; reflexivity|unfold TIMER_DEFERRABLE; lia]). apply boot_idle.
Qed.

Lemma w_add_rest : at_rest (-3) w_add.
Proof.
  unfold w_add, w_add4, w_add3, w_add2, w_add1.
  do 5 (apply op_at_rest; [|op_ok_compute|done]). apply w_set_rest.
Qed.

Lemma w_late_idle : idle 3 w_late.
Proof. destruct w_add_rest as [Hid Hc]. apply (ticks_idle 6 (-3) (-3)); [done..|lia|unfold window; lia]. Qed.

(** The function of timer 2 arms it again, ten jiffies from now. *)
Definition periodic (t : tid) (w : world) : list timer_op :=
  if bool_decide (t = 2%nat) && function (timers w 2) && (slack (timers w 2) =? -1)
  then [OpMod 2 (jiffies w ⊕ 10) 0] else [].

Lemma periodic_ok J t w : wf J w None -> ops_ok no_nohz w (periodic t w).
Proof.
  intros Hwf. unfold periodic. case_match eqn:Hc; [|done].
  apply andb_prop in Hc as [[_ Hfn]%andb_prop Hsl%Z.eqb_eq].
  assert (Hs : s64 ((jiffies w ⊕ 10) ⊖ jiffies w) = 10).
  { rewrite (wf_now _ _ _ Hwf). unfold add64. rewrite u64_add_l, u64_sub. rewrite u64_signed; lia. }
  cbn [ops_ok op_ok future op_expiry]. unfold near. rewrite Hs, Hsl. split; [|split; [lia|done]].
  split; [done|]. split; [lia|]. split; [apply u64_range|lia].
Qed.

(** The run at jiffy 3 calls timers 1, 5 and 2, in this order. *)
Lemma run_timers_correct_witness :
  run_fuel w_late 0x1000 = 15 /\
  exists w' log, __run_timers no_nohz periodic 16 w_late 0x1000 = Ok w' /\ idle 3 w' /\
    fired w' = fired w_late ++ log /\
    (forall t, queued w' 0x1000 t -> ~ due w' t) /\
    (forall t e j, (t, e, j) ∈ log -> j = jiffies w_late /\ time_after_eq j e = true) /\
    (forall u, left_alone periodic u -> queued w_late 0x1000 u ->
       (due w_late u -> times u log = 1%nat /\ timers w' u = with_pending (timers w_late u) false) /\
       (~ due w_late u -> times u log = 0%nat /\ timers w' u = timers w_late u)) /\
    in_order (left_alone periodic) (lateness w_late 0x1000) (ids log).
Proof.
  split; [vm_compute; reflexivity|]. apply (run_timers_correct no_nohz periodic 3 0x1000 w_late 16).
  - exact w_late_idle.
  - vm_compute. reflexivity.
  - apply periodic_ok.
  - vm_compute. reflexivity.
Defined.

Example run_example :
  fired (get w_late (__run_timers no_nohz periodic 16 w_late 0x1000)) = [(1%nat, 2 ^ 64 - 1, 3); (5%nat, 1, 3); (2%nat, 2, 3)].
Proof. vm_compute. reflexivity. Qed.

Lemma timers_well_formed_witness :
  rtc (timer_step no_nohz) w_set w_add1 /\
  (forall fn fuel c, (forall J t w, wf J w None -> ops_within no_nohz w (fn t w)) ->
     run_timer_softirq no_nohz fn fuel w_add1 c <> Fault) /\
  exists J', jiffies w_add1 = u64 J' /\ forall a,
    NoDup (elems (bases w_add1 a)) /\
    (forall t, t ∈ elems (bases w_add1 a) <-> queued w_add1 a t) /\
    all_timers (bases w_add1 a) = Z.of_nat (length (elems (bases w_add1 a))) /\
    active_timers (bases w_add1 a) = Z.of_nat (length (filter (nondef (timers w_add1)) (elems (bases w_add1 a)))) /\
    exists T, timer_jiffies (bases w_add1 a) = u64 T /\ J' - window <= T <= J' + 1 /\
      forall t, queued w_add1 a t -> exists s i E, t ∈ vec (bases w_add1 a) s i /\ 0 <= i < vsize s /\
        expires (timers w_add1 t) = u64 E /\ slot_ok s i T E.
Proof.
  assert (Hs : rtc (timer_step no_nohz) w_set w_add1).
  { apply rtc_once. assert (Hok : op_ok w_set (OpAdd 1 (u64 (-1)) 0)) by op_ok_compute.
    apply (step_op no_nohz _ _ _ Hok). apply (op_idle (-3) w_set _ (proj1 w_set_rest) Hok). }
  split; [exact Hs|]. exact (timers_well_formed no_nohz (-3) w_set w_add1 Hs (proj1 w_set_rest)).
Defined.

Lemma next_timer_interrupt_first_witness :
  let ahead e := s64 (e ⊖ timer_jiffies (bases w_add 0x1000)) in
  exists e, __next_timer_interrupt w_add (bases w_add 0x1000) = Ok e /\ ahead e <= NEXT_TIMER_MAX_DELTA /\
    (ahead e = NEXT_TIMER_MAX_DELTA \/ exists t, queued w_add 0x1000 t /\ nd w_add t /\ e = expires (timers w_add t)) /\
    forall t, queued w_add 0x1000 t -> nd w_add t -> Z.max 0 (ahead e) <= Z.max 0 (ahead (expires (timers w_add t))).
Proof.
  apply (next_timer_interrupt_first (-3) w_add 0x1000).
  - apply w_add_rest.
  - apply w_add_rest.
  - intros i t _ Ht. exfalso. assert (H5 : tv5 (bases w_add 0x1000) = replicate 64 []) by (vm_compute; reflexivity).
    unfold vec in Ht. cbn [tv] in Ht. rewrite H5 in Ht.
    destruct (replicate 64 [] !! Z.to_nat i) as [l|] eqn:Hl; [|by apply elem_of_nil in Ht].
    apply lookup_replicate in Hl as [-> _]. by apply elem_of_nil in Ht.
Defined.

Lemma migrate_timers_ok_witness :
  exists w', migrate_timers no_nohz (fun c => c =? 0) w_add 1 0 = Ok w' /\
    (forall t, queued w_add 0x2000 t ->
       queued w' 0x1000 t /\ expires (timers w' t) = expires (timers w_add t) /\
       function (timers w' t) = function (timers w_add t) /\
       tbase_get_deferrable (base (timers w' t)) = tbase_get_deferrable (base (timers w_add t))) /\
    (forall t, ~ queued w_add 0x2000 t -> timers w' t = timers w_add t) /\
    idle (-3) (set_base w' 0x2000 (init_base (jiffies w') (bases w' 0x2000))).
Proof.
  apply (migrate_timers_ok no_nohz (fun c => c =? 0) (-3) w_add 1 0).
  - apply w_add_rest.
  - reflexivity.
  - vm_compute. reflexivity.
  - vm_compute. congruence.
  - intros t Ht. apply (wf_queued (-3)) in Ht; [|apply w_add_rest].
    assert (He : elems (bases w_add (tvec_bases w_add 1)) = [4%nat]) by (vm_compute; reflexivity).
    rewrite He in Ht. apply list_elem_of_singleton in Ht as ->. unfold near. repeat split; vm_compute; congruence.
Defined.

(** ** What goes wrong *)

(** A timer more than [MAX_TVAL] ahead hides one that expires earlier: when the
    list of [tv5] it was put on is next, [__next_timer_interrupt] stops there. *)
Definition w_far : world :=
  mkWorld 0 (fun t => mkTimer true (if bool_decide (t = 1%nat) then 2 ^ 33 else 3 * 2 ^ 26) 0x1000 true 0)
    (fun _ => let b := init_base 0 zeroed_base in
              with_counts (set_vec (set_vec b TV5 1 [1%nat]) TV5 3 [2%nat]) 2 2) cpu_bases [] [].

Example next_timer_interrupt_clamped :
  slot_ok TV5 1 0 (2 ^ 33) /\ slot_ok TV5 3 0 (3 * 2 ^ 26) /\
  __next_timer_interrupt w_far (bases w_far 0x1000) = Ok NEXT_TIMER_MAX_DELTA /\
  expires (timers w_far 2) < NEXT_TIMER_MAX_DELTA.
Proof.
  split; [exists (2 ^ 26); split; [lia|]; split; [done|]; vm_compute; split; [split; congruence|done]|].
  split; [exists (3 * 2 ^ 26); split; [lia|]; split; [done|]; vm_compute; split; [split; congruence|done]|].
  split; vm_compute; reflexivity.
Qed.

(** A timer function that arms its timer, the only one of the base, for the
    current jiffy: [catchup_timer_jiffies] sets the clock of the base back, so the
    timer is due again in the same run, which does not come to an end while
    [jiffies] stands still. *)
Definition rearm_now (t : tid) (w : world) : list timer_op := [OpModPinned t (jiffies w) 0].

Definition w_one : world := op_on (op_on w_set (OpAdd 1 (u64 (-2)) 0)) OpTick.

Example rearm_now_runs_on :
  run_fuel w_one 0x1000 = 4 /\ __run_timers no_nohz rearm_now 500 w_one 0x1000 = NoFuel /\
  exists w', __run_timers no_nohz (fun _ _ => []) 5 w_one 0x1000 = Ok w'.
Proof.
  split; [vm_compute; reflexivity|]. split; [vm_compute; reflexivity|].
  destruct (run_timers_ran no_nohz (fun _ _ => []) (-2) 0x1000 w_one 5) as (w' & _ & -> & _);
    [|vm_compute; reflexivity|done|vm_compute; reflexivity|by exists w'].
  assert (H1 : at_rest (-3) (op_on w_set (OpAdd 1 (u64 (-2)) 0)))
    by (apply op_at_rest; [apply w_set_rest|op_ok_compute|done]).
  apply (tick_idle (-3) (-3)); [apply H1|apply H1|unfold window; lia].
Qed.
