(* ===== verification/NumDefs.v ===== *)
(** Numbers and text: [lib/kstrtox.c], the [simple_strto*] functions and the
    printing of numbers of [lib/vsprintf.c].

    A C string is the list of its characters, as numbers; reading at its end
    gives the terminator [0].  A pointer into a string that the code advances is
    the rest of the string.  [char] is unsigned, as on arm64. *)
From S2P Require Import Prelude FindBitDefs BitmapDefs.

Definition u8 (x : Z) : Z := x mod 2 ^ 8.
Definition s16 (x : Z) : Z := (x + 2 ^ 15) mod 2 ^ 16 - 2 ^ 15.
Definition u16 (x : Z) : Z := x mod 2 ^ 16.
Definition s8 (x : Z) : Z := (x + 2 ^ 7) mod 2 ^ 8 - 2 ^ 7.

Definition EINVAL : Z := 22.
Definition ERANGE : Z := 34.
Definition EFAULT : Z := 14.

(** [s[i]]. *)
Definition ch (s : list Z) (i : nat) : Z := default 0 (s !! i).

(** ** Characters *)

Definition _U : Z := 0x01.
Definition _L : Z := 0x02.
Definition _D : Z := 0x04.
Definition _C : Z := 0x08.
Definition _P : Z := 0x10.
Definition _S : Z := 0x20.
Definition _X : Z := 0x40.
Definition _SP : Z := 0x80.

Definition _ctype : list Z := [
  _C; _C; _C; _C; _C; _C; _C; _C;
  _C; Z.lor _C _S; Z.lor _C _S; Z.lor _C _S; Z.lor _C _S; Z.lor _C _S; _C; _C;
  _C; _C; _C; _C; _C; _C; _C; _C;
  _C; _C; _C; _C; _C; _C; _C; _C;
  Z.lor _S _SP; _P; _P; _P; _P; _P; _P; _P;
  _P; _P; _P; _P; _P; _P; _P; _P;
  _D; _D; _D; _D; _D; _D; _D; _D;
  _D; _D; _P; _P; _P; _P; _P; _P;
  _P; Z.lor _U _X; Z.lor _U _X; Z.lor _U _X; Z.lor _U _X; Z.lor _U _X; Z.lor _U _X; _U;
  _U; _U; _U; _U; _U; _U; _U; _U;
  _U; _U; _U; _U; _U; _U; _U; _U;
  _U; _U; _U; _P; _P; _P; _P; _P;
  _P; Z.lor _L _X; Z.lor _L _X; Z.lor _L _X; Z.lor _L _X; Z.lor _L _X; Z.lor _L _X; _L;
  _L; _L; _L; _L; _L; _L; _L; _L;
  _L; _L; _L; _L; _L; _L; _L; _L;
  _L; _L; _L; _P; _P; _P; _P; _C;
  0; 0; 0; 0; 0; 0; 0; 0; 0; 0; 0; 0; 0; 0; 0; 0;
  0; 0; 0; 0; 0; 0; 0; 0; 0; 0; 0; 0; 0; 0; 0; 0;
  Z.lor _S _SP; _P; _P; _P; _P; _P; _P; _P; _P; _P; _P; _P; _P; _P; _P; _P;
  _P; _P; _P; _P; _P; _P; _P; _P; _P; _P; _P; _P; _P; _P; _P; _P;
  _U; _U; _U; _U; _U; _U; _U; _U; _U; _U; _U; _U; _U; _U; _U; _U;
  _U; _U; _U; _U; _U; _U; _U; _P; _U; _U; _U; _U; _U; _U; _U; _L;
  _L; _L; _L; _L; _L; _L; _L; _L; _L; _L; _L; _L; _L; _L; _L; _L;
  _L; _L; _L; _L; _L; _L; _L; _P; _L; _L; _L; _L; _L; _L; _L; _L].

Definition __ismask (x : Z) : Z := default 0 (_ctype !! Z.to_nat (u8 x)).
Definition isdigit (c : Z) : bool := negb (Z.land (__ismask c) _D =? 0).
Definition isxdigit (c : Z) : bool := negb (Z.land (__ismask c) (Z.lor _D _X) =? 0).
Definition isalnum (c : Z) : bool := negb (Z.land (__ismask c) (Z.lor (Z.lor _U _L) _D) =? 0).
Definition _tolower (c : Z) : Z := Z.lor c 0x20.

(** ** Parsing *)

Definition KSTRTOX_OVERFLOW : Z := 2 ^ 31.

Definition _parse_integer_fixup_radix (s : list Z) (base : Z) : list Z * Z :=
  let base :=
    if base =? 0 then
      if ch s 0 =? 48 then
        if (_tolower (ch s 1) =? 120) && isxdigit (ch s 2) then 16 else 8
      else 10
    else base in
  let s := if (base =? 16) && (ch s 0 =? 48) && (_tolower (ch s 1) =? 120) then drop 2 s else s in
  (s, base).

(** The value of a digit, in any radix. *)
Definition digit_val (c : Z) : option Z :=
  if (48 <=? c) && (c <=? 57) then Some (c - 48)
  else if (97 <=? _tolower c) && (_tolower c <=? 102) then Some (_tolower c - 97 + 10)
  else None.

Fixpoint parse_loop (base res rv : Z) (overflow : bool) (s : list Z) : Z * Z * bool :=
  match s with
  | [] => (res, rv, overflow)
  | c :: s =>
      if c =? 0 then (res, rv, overflow)
      else
        match digit_val c with
        | None => (res, rv, overflow)
        | Some val =>
            if val >=? base then (res, rv, overflow)
            else
              let overflow :=
                if negb (Z.land res (shl64 ULLONG_MAX 60) =? 0) then
                  if res >? (ULLONG_MAX - val) / base then true else overflow
                else overflow in
              parse_loop base (u64 (res * base + val)) (u32 (rv + 1)) overflow s
        end
  end.

(** Returns the number of characters, with the overflow bit, and the value. *)
Definition _parse_integer (s : list Z) (base : Z) : Z * Z :=
  let '(res, rv, overflow) := parse_loop base 0 0 false s in
  (if overflow : bool then Z.lor rv KSTRTOX_OVERFLOW else rv, res).

(** The conversions return the error code and, on success, the value stored. *)
Definition _kstrtoull (s : list Z) (base : Z) : Z * option Z :=
  let '(s, base) := _parse_integer_fixup_radix s base in
  let '(rv, _res) := _parse_integer s base in
  if negb (Z.land rv KSTRTOX_OVERFLOW =? 0) then (- ERANGE, None)
  else if rv =? 0 then (- EINVAL, None)
  else
    let s := drop (Z.to_nat rv) s in
    let s := if ch s 0 =? 10 then drop 1 s else s in
    if negb (ch s 0 =? 0) then (- EINVAL, None) else (0, Some _res).

Definition kstrtoull (s : list Z) (base : Z) : Z * option Z :=
  let s := if ch s 0 =? 43 then drop 1 s else s in
  _kstrtoull s base.

Definition kstrtoll (s : list Z) (base : Z) : Z * option Z :=
  if ch s 0 =? 45 then
    match _kstrtoull (drop 1 s) base with
    | (_, Some tmp) => if s64 (u64 (- tmp)) >=? 0 then (- ERANGE, None) else (0, Some (s64 (u64 (- tmp))))
    | (rv, None) => (rv, None)
    end
  else
    match kstrtoull s base with
    | (_, Some tmp) => if s64 tmp <? 0 then (- ERANGE, None) else (0, Some (s64 tmp))
    | (rv, None) => (rv, None)
    end.

(** The narrow types: [fit] is the conversion to the type and back. *)
Definition narrow (fit : Z -> Z) (r : Z * option Z) : Z * option Z :=
  match r with
  | (_, Some tmp) => if negb (tmp =? fit tmp) then (- ERANGE, None) else (0, Some tmp)
  | (rv, None) => (rv, None)
  end.

Definition _kstrtoul (s : list Z) (base : Z) := narrow u64 (kstrtoull s base).
Definition _kstrtol (s : list Z) (base : Z) := narrow s64 (kstrtoll s base).
Definition kstrtouint (s : list Z) (base : Z) := narrow u32 (kstrtoull s base).
Definition kstrtoint (s : list Z) (base : Z) := narrow s32 (kstrtoll s base).
Definition kstrtou16 (s : list Z) (base : Z) := narrow u16 (kstrtoull s base).
Definition kstrtos16 (s : list Z) (base : Z) := narrow s16 (kstrtoll s base).
Definition kstrtou8 (s : list Z) (base : Z) := narrow u8 (kstrtoull s base).
Definition kstrtos8 (s : list Z) (base : Z) := narrow s8 (kstrtoll s base).

(** [kstrto_from_user(f, g, type)]; [copied] is what [copy_from_user] put into
    [buf], or [None] when it failed; [size] is [sizeof(type)]. *)
Definition kstrto_from_user (g : list Z -> Z -> Z * option Z) (size : Z) (copy_from_user : Z -> option (list Z))
    (count base : Z) : Z * option Z :=
  let count := Z.min count (1 + size * 8 + 1 + 1 - 1) in
  match copy_from_user count with
  | None => (- EFAULT, None)
  | Some buf => g (take (Z.to_nat count) buf) base
  end.

(** The value and the rest of the string. *)
Definition simple_strtoull (cp : list Z) (base : Z) : Z * list Z :=
  let '(cp, base) := _parse_integer_fixup_radix cp base in
  let '(rv, result) := _parse_integer cp base in
  (result, drop (Z.to_nat (Z.land rv (u32 (- 1 - KSTRTOX_OVERFLOW)))) cp).

Definition simple_strtoul := simple_strtoull.
Definition simple_strtoll (cp : list Z) (base : Z) : Z * list Z :=
  if ch cp 0 =? 45 then
    let '(v, rest) := simple_strtoull (drop 1 cp) base in (s64 (u64 (- v)), rest)
  else let '(v, rest) := simple_strtoull cp base in (s64 v, rest).
Definition simple_strtol := simple_strtoll.

(** [i] is an [int]. *)
Fixpoint skip_atoi_loop (i : Z) (s : list Z) : Z * list Z :=
  match s with
  | [] => (i, [])
  | c :: s' => if isdigit c then skip_atoi_loop (s32 (i * 10 + c - 48)) s' else (i, s)
  end.
Definition skip_atoi (s : list Z) : Z * list Z := skip_atoi_loop 0 s.

(** ** Printing in decimal *)

(** [(x * (uint64_t)m) >> n], [(x * m) >> n] and the digit [x - 10 * y]. *)
Definition mul64_shift (x m n : Z) : Z := u32 (Z.shiftr (u64 (x * m)) n).
Definition mul32_shift (x m n : Z) : Z := Z.shiftr (u32 (x * m)) n.
Definition dec_char (x y : Z) : Z := u8 ((x ⊟ u32 (10 * y)) ⊞ 48).

Definition put_dec_full9 (q : Z) : list Z :=
  let r := mul64_shift q 0x1999999a 32 in
  let c1 := dec_char q r in
  let q := mul64_shift r 0x1999999a 32 in
  let c2 := dec_char r q in
  let r := mul64_shift q 0x1999999a 32 in
  let c3 := dec_char q r in
  let q := mul64_shift r 0x1999999a 32 in
  let c4 := dec_char r q in
  let r := mul64_shift q 0x1999999a 32 in
  let c5 := dec_char q r in
  let q := mul32_shift r 0x199a 16 in
  let c6 := dec_char r q in
  let r := mul32_shift q 0xcd 11 in
  let c7 := dec_char q r in
  let q := mul32_shift r 0xcd 11 in
  let c8 := dec_char r q in
  let c9 := u8 (q ⊞ 48) in
  [c1; c2; c3; c4; c5; c6; c7; c8; c9].

(** [while (r >= 10000)]. *)
Definition trunc8_step (st : list Z * Z) : res (list Z * Z + list Z * Z) :=
  let '(buf, r) := st in
  if r >=? 10000 then
    let q := r ⊞ 48 in
    let r := mul64_shift r 0x1999999a 32 in
    Ok (inl (buf ++ [u8 (q ⊟ u32 (10 * r))], r))
  else Ok (inr (buf, r)).

(** The digits after the loop, with early returns. *)
Definition trunc8_tail (buf : list Z) (r : Z) : list Z :=
  let q := mul32_shift r 0x199a 16 in
  let buf := buf ++ [dec_char r q] in
  if q =? 0 then buf
  else
    let r := mul32_shift q 0xcd 11 in
    let buf := buf ++ [dec_char q r] in
    if r =? 0 then buf
    else
      let q := mul32_shift r 0xcd 11 in
      let buf := buf ++ [dec_char r q] in
      if q =? 0 then buf else buf ++ [u8 (q ⊞ 48)].

Definition put_dec_trunc8 (buf : list Z) (r : Z) : res (list Z) :=
  '(buf, r) ← loop 5 trunc8_step (buf, r);
  Ok (trunc8_tail buf r).

(** [while (n >= 1000*1000*1000)]. *)
Definition put_dec_step (st : list Z * Z) : res (list Z * Z + list Z * Z) :=
  let '(buf, n) := st in
  if n >=? 1000 * 1000 * 1000
  then Ok (inl (buf ++ put_dec_full9 (n mod (1000 * 1000 * 1000)), n / (1000 * 1000 * 1000)))
  else Ok (inr (buf, n)).

(** The characters stored, least significant first. *)
Definition put_dec (n : Z) : res (list Z) :=
  if n >=? 100 * 1000 * 1000 then
    '(buf, n) ← loop 4 put_dec_step ([], n);
    if n >=? 100 * 1000 * 1000 then Ok (buf ++ put_dec_full9 n)
    else put_dec_trunc8 buf (u32 n)
  else put_dec_trunc8 [] (u32 n).

Definition num_to_str (buf : list Z) (size num : Z) : res (Z * list Z) :=
  tmp ← (if num <=? 9 then Ok [u8 (48 + num)] else put_dec num);
  let len := length tmp in
  if Z.of_nat len >? size then Ok (0, buf)
  else
    buf ← for_loop len 0 (fun idx buf => c ← aget tmp (len - idx - 1); aset buf idx c) buf;
    Ok (Z.of_nat len, buf).

(** ** [number] *)

Definition ZEROPAD : Z := 1.
Definition SIGN : Z := 2.
Definition PLUS : Z := 4.
Definition SPACE : Z := 8.
Definition LEFT : Z := 16.
Definition SMALL : Z := 32.
Definition SPECIAL : Z := 64.

Inductive format_type :=
  | FORMAT_TYPE_NONE
  | FORMAT_TYPE_WIDTH
  | FORMAT_TYPE_PRECISION
  | FORMAT_TYPE_CHAR
  | FORMAT_TYPE_STR
  | FORMAT_TYPE_PTR
  | FORMAT_TYPE_PERCENT_CHAR
  | FORMAT_TYPE_INVALID
  | FORMAT_TYPE_LONG_LONG
  | FORMAT_TYPE_ULONG
  | FORMAT_TYPE_LONG
  | FORMAT_TYPE_UBYTE
  | FORMAT_TYPE_BYTE
  | FORMAT_TYPE_USHORT
  | FORMAT_TYPE_SHORT
  | FORMAT_TYPE_UINT
  | FORMAT_TYPE_INT
  | FORMAT_TYPE_SIZE_T
  | FORMAT_TYPE_PTRDIFF.

Record printf_spec := mkSpec {
  type : format_type;
  flags : Z;
  base : Z;
  qualifier : Z;
  field_width : Z;
  precision : Z }.

Definition flag (f : Z) (spec : printf_spec) : bool := negb (Z.land (flags spec) f =? 0).

Definition digits : list Z := [48; 49; 50; 51; 52; 53; 54; 55; 56; 57; 65; 66; 67; 68; 69; 70].
Definition digit (d : Z) : Z := default 0 (digits !! Z.to_nat d).

(** The output: the buffer and [buf], as an index into it. *)
Definition out : Type := list Z * nat.

(** [if (buf < end) *buf = c; ++buf;]. *)
Definition emit (end_ : nat) (c : Z) (o : out) : res out :=
  let '(mem, buf) := o in
  mem ← (if (buf <? end_)%nat then aset mem buf c else Ok mem);
  Ok (mem, S buf).

(** [while (--spec.field_width >= 0)], and the width left. *)
Fixpoint emit_n (end_ : nat) (n : nat) (c : Z) (o : out) : res out :=
  match n with O => Ok o | S n => o ← emit end_ c o; emit_n end_ n c o end.
Definition pad (end_ : nat) (c width : Z) (o : out) : res (Z * out) :=
  let width := s16 (width - 1) in
  o ← emit_n end_ (Z.to_nat (width + 1)) c o;
  Ok (if width >=? 0 then -1 else width, o).

Fixpoint emit_list (end_ : nat) (l : list Z) (o : out) : res out :=
  match l with [] => Ok o | c :: l => o ← emit end_ c o; emit_list end_ l o end.

(** [do { ... } while (num)] for base 8 and 16. *)
Definition shift_step (mask shift locase : Z) (st : list Z * Z) : res (list Z * Z + list Z) :=
  let '(tmp, num) := st in
  let tmp := tmp ++ [Z.lor (digit (Z.land (u8 num) mask)) locase] in
  let num := shr64 num shift in
  if negb (num =? 0) then Ok (inl (tmp, num)) else Ok (inr tmp).

Definition number (o : out) (end_ : nat) (num : Z) (spec : printf_spec) : res out :=
  let need_pfx := flag SPECIAL spec && negb (base spec =? 10) in
  let is_zero := num =? 0 in
  let locase := Z.land (flags spec) SMALL in
  let zeropad := if flag LEFT spec then false else flag ZEROPAD spec in
  let width := field_width spec in
  let '(sign, num, width) :=
    if flag SIGN spec then
      if s64 num <? 0 then (45, u64 (- num), s16 (width - 1))
      else if flag PLUS spec then (43, num, s16 (width - 1))
      else if flag SPACE spec then (32, num, s16 (width - 1))
      else (0, num, width)
    else (0, num, width) in
  let width :=
    if need_pfx then
      if base spec =? 16 then s16 (width - 2) else if negb is_zero then s16 (width - 1) else width
    else width in
  tmp ← (if num <? base spec then Ok [Z.lor (digit num) locase]
         else if negb (base spec =? 10) then
           loop 22 (shift_step (base spec - 1) (if base spec =? 16 then 4 else 3) locase) ([], num)
         else put_dec num);
  let i := Z.of_nat (length tmp) in
  let precision := if i >? precision spec then s16 i else precision spec in
  let width := s16 (width - precision) in
  '(width, o) ← (if negb (zeropad || flag LEFT spec) then pad end_ 32 width o else Ok (width, o));
  o ← (if negb (sign =? 0) then emit end_ sign o else Ok o);
  o ← (if need_pfx && ((base spec =? 16) || negb is_zero) then emit end_ 48 o else Ok o);
  o ← (if need_pfx && (base spec =? 16) then emit end_ (Z.lor 88 locase) o else Ok o);
  '(width, o) ← (if negb (flag LEFT spec) then pad end_ (if zeropad then 48 else 32) width o else Ok (width, o));
  o ← emit_n end_ (Z.to_nat (precision - i)) 48 o;
  o ← emit_list end_ (reverse tmp) o;
  '(_, o) ← pad end_ 32 width o;
  Ok o.
