(* ===== verification/NumParse.v ===== *)
(** What [kstrtoull] and its relatives accept. *)
From S2P Require Import Prelude FindBitDefs FindBit BitmapDefs NumDefs.

(** ** Reference *)

(** The values of the digits the string begins with. *)
Fixpoint digits_of (base : Z) (s : list Z) : list Z :=
  match s with
  | [] => []
  | c :: s =>
      match digit_val c with
      | Some v => if v <? base then v :: digits_of base s else []
      | None => []
      end
  end.

Definition value_from (base a : Z) (ds : list Z) : Z := foldl (fun a d => a * base + d) a ds.
Definition value (base : Z) (ds : list Z) : Z := value_from base 0 ds.

(** What an unsigned conversion returns: an error, or the number. *)
Definition parsed (s : list Z) (base : Z) : Z * option Z :=
  let '(s, base) := _parse_integer_fixup_radix s base in
  let ds := digits_of base s in
  let rest := drop (length ds) s in
  if 2 ^ 64 <=? value base ds then (- ERANGE, None)
  else if bool_decide (ds <> [] /\ (ch rest 0 = 0 \/ (ch rest 0 = 10 /\ ch rest 1 = 0)))
  then (0, Some (value base ds)) else (- EINVAL, None).

(** ** The loop *)

Lemma digit_val_0 : digit_val 0 = None.
Proof. done. Qed.

Lemma digit_val_range c v : digit_val c = Some v -> 0 <= v <= 15.
Proof.
  unfold digit_val. intros H. repeat case_match; simplify_eq;
    repeat match goal with H : _ && _ = true |- _ => apply andb_prop in H as [?%Z.leb_le ?%Z.leb_le] end; lia.
Qed.

Lemma digits_of_range base s d : 0 < base -> d ∈ digits_of base s -> 0 <= d < base.
Proof.
  intros Hb. induction s as [|c s IH]; cbn; [by intros ?%elem_of_nil|].
  destruct (digit_val c) as [v|] eqn:Hv; [|by intros ?%elem_of_nil].
  destruct (Z.ltb_spec v base); [|by intros ?%elem_of_nil]. intros [->|?]%elem_of_cons; [|by apply IH].
  apply digit_val_range in Hv. lia.
Qed.

Lemma high_bits x : 0 <= x < 2 ^ 64 -> (Z.land x (shl64 ULLONG_MAX 60) =? 0) = (x <? 2 ^ 60).
Proof.
  intros Hx. change (shl64 ULLONG_MAX 60) with (Z.shiftl (Z.ones 4) 60).
  apply eq_bool_prop_intro. rewrite !Is_true_true, Z.eqb_eq, Z.ltb_lt. split.
  - intros H0. destruct (Z.lt_ge_cases x (2 ^ 60)) as [|Hge]; [done|exfalso].
    assert (Hlog : 60 <= Z.log2 x < 64).
    { split; [by apply Z.log2_le_pow2; lia|]. apply Z.log2_lt_pow2; lia. }
    assert (Ht : Z.testbit (Z.land x (Z.shiftl (Z.ones 4) 60)) (Z.log2 x) = true).
    { rewrite Z.land_spec, Z.bit_log2, Z.shiftl_spec, Z.ones_spec_low by lia. done. }
    by rewrite H0, Z.bits_0 in Ht.
  - intros Hlt. apply Z.bits_inj'. intros i Hi. rewrite Z.land_spec, Z.bits_0.
    destruct (Z.lt_ge_cases i 60) as [Hi60|Hi60].
    + rewrite Z.shiftl_spec, (Z.testbit_neg_r _ (i - 60)) by lia. apply andb_false_r.
    + destruct (decide (x = 0)) as [->|]; [by rewrite Z.bits_0|].
      assert (Z.log2 x < 60) by (apply Z.log2_lt_pow2; lia). by rewrite Z.bits_above_log2 by lia.
Qed.

Lemma value_from_ge base a ds : 1 <= base -> 0 <= a -> (forall d, d ∈ ds -> 0 <= d) -> a <= value_from base a ds.
Proof.
  intros Hb. revert a. induction ds as [|d ds IH]; intros a Ha Hd; cbn; [lia|].
  assert (0 <= d) by (apply Hd; left). etrans; [|apply IH; [nia|intros; apply Hd; by right]]. nia.
Qed.

(** The overflow check is exact for radices up to 16. *)
Lemma overflow_step base V v :
  1 <= base <= 16 -> 0 <= V -> 0 <= v < base ->
  (if negb (Z.land (u64 V) (shl64 ULLONG_MAX 60) =? 0) then
     if u64 V >? (ULLONG_MAX - v) / base then true else bool_decide (2 ^ 64 <= V)
   else bool_decide (2 ^ 64 <= V)) = bool_decide (2 ^ 64 <= V * base + v).
Proof.
  intros Hb HV Hv. pose proof (u64_range V). rewrite high_bits by done.
  destruct (decide (2 ^ 64 <= V)) as [Hbig|Hsmall].
  - rewrite (bool_decide_true (2 ^ 64 <= V)), (bool_decide_true (2 ^ 64 <= V * base + v)) by (done || nia).
    by repeat case_match.
  - rewrite u64_small in * by lia. rewrite (bool_decide_false (2 ^ 64 <= V)) by done.
    destruct (Z.ltb_spec V (2 ^ 60)); cbn [negb].
    + symmetry. apply bool_decide_false. nia.
    + assert (Hiff : V > (ULLONG_MAX - v) / base <-> 2 ^ 64 <= V * base + v).
      { change ULLONG_MAX with (2 ^ 64 - 1). split; intros H1.
        - destruct (Z.lt_ge_cases (V * base + v) (2 ^ 64)) as [Hlt|]; [|done]. exfalso.
          assert (V <= (2 ^ 64 - 1 - v) / base); [apply Z.div_le_lower_bound; lia|lia].
        - apply Z.lt_gt, Z.div_lt_upper_bound; lia. }
      rewrite Z.gtb_ltb. destruct (Z.ltb_spec ((ULLONG_MAX - v) / base) V).
      * symmetry. apply bool_decide_true. apply Hiff. lia.
      * symmetry. apply bool_decide_false. intros Hc. apply Hiff in Hc. lia.
Qed.

Lemma parse_loop_ok base : 1 <= base <= 16 -> forall s V rv,
  0 <= V -> 0 <= rv -> rv + Z.of_nat (length (digits_of base s)) < 2 ^ 31 ->
  parse_loop base (u64 V) rv (bool_decide (2 ^ 64 <= V)) s =
  (u64 (value_from base V (digits_of base s)), rv + Z.of_nat (length (digits_of base s)),
   bool_decide (2 ^ 64 <= value_from base V (digits_of base s))).
Proof.
  intros Hb. induction s as [|c s IH]; intros V rv HV Hrv Hlen; cbn [parse_loop digits_of] in *.
  { cbn. by rewrite Z.add_0_r. }
  destruct (Z.eqb_spec c 0) as [->|Hc].
  { rewrite digit_val_0. cbn. by rewrite Z.add_0_r. }
  destruct (digit_val c) as [v|] eqn:Hv; [|cbn; by rewrite Z.add_0_r].
  rewrite Z.geb_leb. destruct (Z.ltb_spec v base) as [Hlt|Hge].
  2:{ rewrite (proj2 (Z.leb_le base v)) by done. cbn. by rewrite Z.add_0_r. }
  rewrite (proj2 (Z.leb_gt base v)) by done. apply digit_val_range in Hv.
  rewrite overflow_step by lia.
  replace (u64 (u64 V * base + v)) with (u64 (V * base + v))
    by (unfold u64; rewrite <- (Zplus_mod_idemp_l (V mod 2 ^ 64 * base)), Zmult_mod_idemp_l; by rewrite Zplus_mod_idemp_l).
  cbn [length] in *. rewrite u32_small by lia. rewrite IH by nia. cbn [value_from foldl].
  by replace (rv + Z.of_nat (S (length (digits_of base s)))) with (rv + 1 + Z.of_nat (length (digits_of base s))) by lia.
Qed.

Lemma _parse_integer_ok s base :
  1 <= base <= 16 -> Z.of_nat (length s) < 2 ^ 31 ->
  let n := Z.of_nat (length (digits_of base s)) in
  let v := value base (digits_of base s) in
  _parse_integer s base = (if 2 ^ 64 <=? v then Z.lor n KSTRTOX_OVERFLOW else n, u64 v).
Proof.
  intros Hb Hlen n v. unfold _parse_integer.
  assert (Hds : (length (digits_of base s) <= length s)%nat).
  { clear. induction s as [|c s IH]; cbn; [done|]. repeat case_match; cbn; lia. }
  pose proof (parse_loop_ok base Hb s 0 0 ltac:(lia) ltac:(lia) ltac:(lia)) as Hp.
  change (u64 0) with 0 in Hp. change (bool_decide (2 ^ 64 <= 0)) with false in Hp. rewrite Hp.
  fold (value base (digits_of base s)). fold v. fold n. rewrite Z.add_0_l.
  destruct (Z.leb_spec (2 ^ 64) v); [rewrite bool_decide_true by done|rewrite bool_decide_false by lia]; done.
Qed.

(** ** Unsigned conversions *)

Lemma fixup_radix_base s base s' base' :
  _parse_integer_fixup_radix s base = (s', base') -> base = 0 \/ 2 <= base <= 16 -> 2 <= base' <= 16.
Proof. unfold _parse_integer_fixup_radix. intros [= _ <-] Hb. repeat case_match; lia. Qed.

Lemma fixup_radix_length s base s' base' :
  _parse_integer_fixup_radix s base = (s', base') -> (length s' <= length s)%nat.
Proof. unfold _parse_integer_fixup_radix. intros [= <- _]. repeat case_match; rewrite ?length_drop; lia. Qed.

Lemma digits_of_length base s : (length (digits_of base s) <= length s)%nat.
Proof. induction s as [|c s IH]; cbn; [done|]. repeat case_match; cbn; lia. Qed.

Lemma overflow_bit n : 0 <= n < 2 ^ 31 -> Z.land n KSTRTOX_OVERFLOW = 0.
Proof.
  intros Hn. apply Z.bits_inj'. intros i Hi. unfold KSTRTOX_OVERFLOW. rewrite Z.land_spec, Z.bits_0.
  destruct (decide (i = 31)) as [->|].
  - rewrite (Z.testbit_eqb n 31), Z.div_small by lia. done.
  - rewrite Z.pow2_bits_false by lia. apply andb_false_r.
Qed.

Lemma overflow_bit_set n : Z.land (Z.lor n KSTRTOX_OVERFLOW) KSTRTOX_OVERFLOW <> 0.
Proof.
  intros H. assert (Ht : Z.testbit (Z.land (Z.lor n KSTRTOX_OVERFLOW) KSTRTOX_OVERFLOW) 31 = true).
  { unfold KSTRTOX_OVERFLOW. rewrite Z.land_spec, Z.lor_spec, Z.pow2_bits_true by lia. by rewrite orb_true_r. }
  by rewrite H, Z.bits_0 in Ht.
Qed.

Lemma ch_drop s n i : ch (drop n s) i = ch s (n + i).
Proof. unfold ch. by rewrite lookup_drop. Qed.

Lemma value_nonneg base s : 0 < base -> 0 <= value base (digits_of base s).
Proof.
  intros Hb. apply (value_from_ge base 0); [lia|lia|]. intros d Hd. apply digits_of_range in Hd; lia.
Qed.

Lemma _kstrtoull_parsed s base :
  base = 0 \/ 2 <= base <= 16 -> Z.of_nat (length s) < 2 ^ 31 -> _kstrtoull s base = parsed s base.
Proof.
  intros Hbase Hlen. unfold _kstrtoull, parsed. destruct (_parse_integer_fixup_radix s base) as [s' b] eqn:Hf.
  pose proof (fixup_radix_base _ _ _ _ Hf Hbase) as Hb. pose proof (fixup_radix_length _ _ _ _ Hf) as Hl.
  rewrite _parse_integer_ok by lia. pose proof (digits_of_length b s') as Hdl.
  pose proof (value_nonneg b s' ltac:(lia)) as Hv0.
  set (ds := digits_of b s') in *. set (n := Z.of_nat (length ds)). destruct (Z.leb_spec (2 ^ 64) (value b ds)) as [Hbig|Hsm].
  - rewrite (proj2 (Z.eqb_neq _ _) (overflow_bit_set n)). done.
  - rewrite overflow_bit, Z.eqb_refl by lia. cbn [negb]. rewrite u64_small by lia.
    destruct (Z.eqb_spec n 0) as [H0|H0].
    + rewrite bool_decide_false; [done|]. intros [Hne _]. apply Hne. apply nil_length_inv. lia.
    + assert (Hne : ds <> []) by (intros ->; done).
      unfold n. rewrite Nat2Z.id. rewrite ch_drop, Nat.add_0_r.
      destruct (Z.eqb_spec (ch s' (length ds)) 10) as [H10|H10].
      * rewrite drop_drop, ch_drop. rewrite !ch_drop. replace (length ds + 0)%nat with (length ds) by lia.
        replace (length ds + 1 + 0)%nat with (length ds + 1)%nat by lia.
        destruct (Z.eqb_spec (ch s' (length ds + 1)) 0) as [He|He]; cbn [negb].
        -- by rewrite bool_decide_true by (split; [done|]; right; done).
        -- rewrite bool_decide_false; [done|]. intros [_ [?|[_ ?]]]; congruence.
      * rewrite !ch_drop. replace (length ds + 0)%nat with (length ds) by lia.
        destruct (Z.eqb_spec (ch s' (length ds)) 0) as [He|He]; cbn [negb].
        -- by rewrite bool_decide_true by (split; [done|]; left; done).
        -- rewrite bool_decide_false; [done|]. intros [_ [?|[? _]]]; congruence.
Qed.

Lemma parsed_cases s base : base = 0 \/ 2 <= base <= 16 ->
  (exists e, parsed s base = (e, None)) \/ (exists v, parsed s base = (0, Some v) /\ 0 <= v < 2 ^ 64).
Proof.
  intros Hb. unfold parsed. destruct (_parse_integer_fixup_radix s base) as [s' b] eqn:Hf.
  apply fixup_radix_base in Hf; [|done]. pose proof (value_nonneg b s' ltac:(lia)).
  destruct (Z.leb_spec (2 ^ 64) (value b (digits_of b s'))); [left; eauto|].
  case_match; [right; eauto|left; eauto].
Qed.

(** *** Ranges *)

Definition within (lo hi : Z) (r : Z * option Z) : Z * option Z :=
  match r with (_, Some v) => if (lo <=? v) && (v <=? hi) then r else (- ERANGE, None) | _ => r end.

Lemma narrow_unsigned n v : 0 < n -> 0 <= v ->
  narrow (fun x => x mod 2 ^ n) (0, Some v) = within 0 (2 ^ n - 1) (0, Some v).
Proof.
  intros Hn Hv. unfold narrow, within. assert (0 < 2 ^ n) by lia. rewrite (proj2 (Z.leb_le 0 v)) by done. cbn [andb].
  destruct (Z.leb_spec v (2 ^ n - 1)).
  - rewrite Z.mod_small by lia. by rewrite Z.eqb_refl.
  - rewrite (proj2 (Z.eqb_neq _ _)); [done|]. pose proof (Z.mod_pos_bound v (2 ^ n)). lia.
Qed.

Lemma narrow_signed n v : 0 < n <= 63 ->
  narrow (fun x => (x + 2 ^ n) mod 2 ^ (n + 1) - 2 ^ n) (within (- 2 ^ 63) (2 ^ 63 - 1) (0, Some v))
  = within (- 2 ^ n) (2 ^ n - 1) (0, Some v).
Proof.
  intros Hn. assert (0 < 2 ^ n) by lia. assert (Hp : 2 ^ (n + 1) = 2 * 2 ^ n) by (rewrite Z.pow_add_r by lia; lia).
  assert (2 ^ n <= 2 ^ 63) by (apply Z.pow_le_mono_r; lia).
  unfold within. destruct (Z.leb_spec (- 2 ^ n) v) as [Hlo|Hlo], (Z.leb_spec v (2 ^ n - 1)) as [Hhi|Hhi]; cbn [andb].
  - rewrite (proj2 (Z.leb_le (- 2 ^ 63) v)), (proj2 (Z.leb_le v (2 ^ 63 - 1))) by lia. cbn [andb narrow].
    rewrite Hp, Z.mod_small by lia. rewrite (proj2 (Z.eqb_eq _ _)) by lia. done.
  - destruct ((- 2 ^ 63 <=? v) && (v <=? 2 ^ 63 - 1)); [|done]. cbn [narrow].
    rewrite (proj2 (Z.eqb_neq _ _)); [done|]. rewrite Hp. pose proof (Z.mod_pos_bound (v + 2 ^ n) (2 * 2 ^ n)). lia.
  - destruct ((- 2 ^ 63 <=? v) && (v <=? 2 ^ 63 - 1)); [|done]. cbn [narrow].
    rewrite (proj2 (Z.eqb_neq _ _)); [done|]. rewrite Hp. pose proof (Z.mod_pos_bound (v + 2 ^ n) (2 * 2 ^ n)). lia.
  - lia.
Qed.

Lemma s64_sign v : 0 <= v < 2 ^ 64 -> s64 v = if 2 ^ 63 <=? v then v - 2 ^ 64 else v.
Proof.
  intros Hv. unfold s64. destruct (Z.leb_spec (2 ^ 63) v).
  - replace (v + 2 ^ 63) with (v - 2 ^ 63 + 1 * 2 ^ 64) by lia. rewrite Z.mod_add, Z.mod_small by lia. lia.
  - rewrite Z.mod_small by lia. lia.
Qed.

(** The digits after a minus sign. *)
Definition negated (r : Z * option Z) : Z * option Z := (r.1, Z.opp <$> r.2).

(** The string with or without a sign.  With a minus sign the number has to be
    negative: "-0" is rejected as out of range. *)
Definition signed_within (lo hi : Z) (s : list Z) (base : Z) : Z * option Z :=
  if ch s 0 =? 45 then within lo (-1) (negated (parsed (drop 1 s) base))
  else within lo hi (parsed (if ch s 0 =? 43 then drop 1 s else s) base).

Lemma within_negative lo hi v : 0 <= hi -> v <> 0 -> 0 <= v ->
  within lo (-1) (negated (0, Some v)) = within lo hi (0, Some (- v)).
Proof.
  intros Hh Hv0 Hv. unfold within, negated. cbn [fst snd fmap option_fmap option_map].
  by rewrite (proj2 (Z.leb_le (- v) (-1))), (proj2 (Z.leb_le (- v) hi)) by lia.
Qed.

Lemma within_minus_zero lo : within lo (-1) (negated (0, Some 0)) = (- ERANGE, None).
Proof. unfold within, negated. cbn. by rewrite andb_false_r. Qed.

Lemma negated_within v : 0 <= v < 2 ^ 64 ->
  (if s64 (u64 (- v)) >=? 0 then (- ERANGE, None) else (0, Some (s64 (u64 (- v))))) =
  within (- 2 ^ 63) (-1) (negated (0, Some v)).
Proof.
  intros Hv. destruct (decide (v = 0)) as [->|Hv0]; [done|].
  rewrite (within_negative _ (2 ^ 63 - 1)) by lia.
  assert (Hu : u64 (- v) = 2 ^ 64 - v).
  { unfold u64. replace (- v) with (2 ^ 64 - v + (-1) * 2 ^ 64) by lia. rewrite Z.mod_add, Z.mod_small; lia. }
  rewrite Hu, s64_sign, Z.geb_leb by lia. unfold within. rewrite (proj2 (Z.leb_le (- v) (2 ^ 63 - 1))), andb_true_r by lia.
  destruct (Z.leb_spec (2 ^ 63) (2 ^ 64 - v)).
  - rewrite (proj2 (Z.leb_gt _ _)), (proj2 (Z.leb_le (- 2 ^ 63) (- v))) by lia. do 2 f_equal. lia.
  - by rewrite (proj2 (Z.leb_le _ _)), (proj2 (Z.leb_gt (- 2 ^ 63) (- v))) by lia.
Qed.

