(* ===== verification/NumPrint.v ===== *)
(** Printing numbers, and reading them back. *)
From S2P Require Import Prelude FindBitDefs FindBit BitmapDefs NumDefs NumParse.

(** ** Division by multiplication *)

Lemma mul64_shift_10 x : 0 <= x < 1073741829 -> mul64_shift x 0x1999999a 32 = x / 10.
Proof.
  intros Hx. unfold mul64_shift. rewrite u64_small by lia. rewrite Z.shiftr_div_pow2 by lia.
  assert (He : x * 0x1999999a / 2 ^ 32 = x / 10) by (Z.div_mod_to_equations; lia).
  rewrite He. apply u32_small. Z.div_mod_to_equations; lia.
Qed.

Lemma mul32_shift_199a x : 0 <= x <= 9999 -> mul32_shift x 0x199a 16 = x / 10.
Proof.
  intros Hx. unfold mul32_shift. rewrite u32_small by lia. rewrite Z.shiftr_div_pow2 by lia.
  Z.div_mod_to_equations; lia.
Qed.

Lemma mul32_shift_cd x : 0 <= x <= 999 -> mul32_shift x 0xcd 11 = x / 10.
Proof.
  intros Hx. unfold mul32_shift. rewrite u32_small by lia. rewrite Z.shiftr_div_pow2 by lia.
  Z.div_mod_to_equations; lia.
Qed.

Lemma dec_char_ok x : 0 <= x < 2 ^ 32 -> dec_char x (x / 10) = 48 + x mod 10.
Proof.
  intros Hx. unfold dec_char, u8. rewrite (u32_small (10 * _)) by (Z.div_mod_to_equations; lia).
  pose proof (Z.mod_pos_bound x 10). rewrite (Z.mod_eq x 10) in * by lia. nowrap. rewrite Z.mod_small; lia.
Qed.

(** ** Decimal digits, least significant first *)

Fixpoint le_value (l : list Z) : Z := match l with [] => 0 | c :: l => (c - 48) + 10 * le_value l end.

Definition all_digits (l : list Z) : Prop := forall c, c ∈ l -> 48 <= c <= 57.

(** The text of [n]: digits, the last one not [0] unless it is the only one. *)
Record decimal (n : Z) (l : list Z) : Prop := {
  dc_digits : all_digits l;
  dc_value : le_value l = n;
  dc_canonical : l = [48] \/ exists l' c, l = l' ++ [c] /\ c <> 48 }.

Lemma le_value_app l1 l2 : le_value (l1 ++ l2) = le_value l1 + 10 ^ Z.of_nat (length l1) * le_value l2.
Proof.
  induction l1 as [|c l1 IH]; cbn [app le_value length]; [cbn; lia|]. rewrite IH.
  replace (10 ^ Z.of_nat (S (length l1))) with (10 * 10 ^ Z.of_nat (length l1)); [lia|].
  rewrite Nat2Z.inj_succ, Z.pow_succ_r by lia. done.
Qed.

Lemma all_digits_app l1 l2 : all_digits (l1 ++ l2) <-> all_digits l1 /\ all_digits l2.
Proof. unfold all_digits. setoid_rewrite elem_of_app. naive_solver. Qed.

Lemma all_digits_one d : 0 <= d <= 9 -> all_digits [48 + d].
Proof. intros Hd c ->%list_elem_of_singleton. lia. Qed.

Lemma le_value_bound l : all_digits l -> 0 <= le_value l < 10 ^ Z.of_nat (length l).
Proof.
  induction l as [|c l IH]; cbn [le_value length]; [cbn; lia|]. intros Hd.
  apply (all_digits_app [c]) in Hd as [Hc Hl]. specialize (IH Hl). specialize (Hc c ltac:(left)).
  rewrite Nat2Z.inj_succ, Z.pow_succ_r by lia. lia.
Qed.

(** A number is its last digit and the text of the rest. *)
Lemma decimal_cons n l : 10 <= n -> decimal (n / 10) l -> decimal n (48 + n mod 10 :: l).
Proof.
  intros Hn [H1 H2 H3]. split.
  - apply (all_digits_app [_]). split; [apply all_digits_one; pose proof (Z.mod_pos_bound n 10); lia|done].
  - cbn. rewrite H2. Z.div_mod_to_equations; lia.
  - right. destruct H3 as [->|(l' & c & -> & Hc)].
    + exfalso. cbn in H2. Z.div_mod_to_equations; lia.
    + by exists (48 + n mod 10 :: l'), c.
Qed.

Lemma decimal_one n : 0 <= n <= 9 -> decimal n [48 + n].
Proof.
  intros Hn. split; [by apply all_digits_one|cbn; lia|].
  destruct (decide (n = 0)) as [->|]; [by left|right; exists [], (48 + n); split; [done|lia]].
Qed.

(** A text with a block of digits before it. *)
Lemma decimal_app n m l1 l2 :
  all_digits l1 -> le_value l1 = m -> decimal n l2 -> n <> 0 -> decimal (m + 10 ^ Z.of_nat (length l1) * n) (l1 ++ l2).
Proof.
  intros H1 H2 [K1 K2 K3] Hn. split; [by apply all_digits_app|by rewrite le_value_app, H2, K2|].
  right. destruct K3 as [->|(l' & c & -> & Hc)]; [cbn in K2; lia|]. exists (l1 ++ l'), c. by rewrite app_assoc.
Qed.

(** ** The routines *)

Lemma full9_ok q : 0 <= q < 10 ^ 9 ->
  all_digits (put_dec_full9 q) /\ le_value (put_dec_full9 q) = q /\ length (put_dec_full9 q) = 9%nat.
Proof.
  intros Hq. unfold put_dec_full9.
  rewrite (mul64_shift_10 q) by lia.
  rewrite (mul64_shift_10 (q / 10)) by (Z.div_mod_to_equations; lia).
  rewrite (mul64_shift_10 (q / 10 / 10)) by (Z.div_mod_to_equations; lia).
  rewrite (mul64_shift_10 (q / 10 / 10 / 10)) by (Z.div_mod_to_equations; lia).
  rewrite (mul64_shift_10 (q / 10 / 10 / 10 / 10)) by (Z.div_mod_to_equations; lia).
  set (r5 := q / 10 / 10 / 10 / 10 / 10). assert (Hr5 : 0 <= r5 <= 9999) by (unfold r5; Z.div_mod_to_equations; lia).
  rewrite (mul32_shift_199a r5) by lia.
  rewrite (mul32_shift_cd (r5 / 10)) by (Z.div_mod_to_equations; lia).
  rewrite (mul32_shift_cd (r5 / 10 / 10)) by (Z.div_mod_to_equations; lia).
  unfold r5. rewrite !dec_char_ok by (Z.div_mod_to_equations; lia). fold r5.
  assert (Hlast : u8 (r5 / 10 / 10 / 10 ⊞ 48) = 48 + r5 / 10 / 10 / 10).
  { assert (0 <= r5 / 10 / 10 / 10 <= 9) by (Z.div_mod_to_equations; lia). unfold u8. nowrap. rewrite Z.mod_small; lia. }
  rewrite Hlast. split; [|split; [|done]].
  - intros c Hc. repeat (apply elem_of_cons in Hc as [->|Hc]); [..|by apply elem_of_nil in Hc];
      unfold r5 in *; Z.div_mod_to_equations; lia.
  - cbn [le_value]. unfold r5. Z.div_mod_to_equations; lia.
Qed.

(** The last four digits of [put_dec_trunc8]. *)
Lemma trunc4_ok buf r : 0 <= r <= 9999 -> exists l, trunc8_tail buf r = buf ++ l /\ decimal r l.
Proof.
  intros Hr. unfold trunc8_tail. rewrite (mul32_shift_199a r) by lia.
  rewrite (mul32_shift_cd (r / 10)) by (Z.div_mod_to_equations; lia).
  rewrite (mul32_shift_cd (r / 10 / 10)) by (Z.div_mod_to_equations; lia).
  rewrite !dec_char_ok by (Z.div_mod_to_equations; lia).
  destruct (Z.eqb_spec (r / 10) 0) as [H1|H1].
  { eexists. split; [done|]. rewrite Z.mod_small by (Z.div_mod_to_equations; lia). apply decimal_one. Z.div_mod_to_equations; lia. }
  destruct (Z.eqb_spec (r / 10 / 10) 0) as [H2|H2].
  { eexists. rewrite <- app_assoc. split; [done|]. apply decimal_cons; [Z.div_mod_to_equations; lia|].
    rewrite Z.mod_small by (Z.div_mod_to_equations; lia). apply decimal_one. Z.div_mod_to_equations; lia. }
  destruct (Z.eqb_spec (r / 10 / 10 / 10) 0) as [H3|H3].
  { eexists. rewrite <- !app_assoc. split; [done|]. apply decimal_cons; [Z.div_mod_to_equations; lia|].
    apply decimal_cons; [Z.div_mod_to_equations; lia|].
    rewrite Z.mod_small by (Z.div_mod_to_equations; lia). apply decimal_one. Z.div_mod_to_equations; lia. }
  assert (H9 : 0 <= r / 10 / 10 / 10 <= 9) by (Z.div_mod_to_equations; lia).
  assert (Hlast : u8 (r / 10 / 10 / 10 ⊞ 48) = 48 + r / 10 / 10 / 10) by (unfold u8; nowrap; rewrite Z.mod_small; lia).
  rewrite Hlast. eexists. rewrite <- !app_assoc. split; [done|].
  do 3 (apply decimal_cons; [Z.div_mod_to_equations; lia|]). by apply decimal_one.
Qed.

Lemma trunc8_loop n : forall buf r, 0 <= r < 10 ^ (4 + Z.of_nat n) -> r < 10 ^ 8 ->
  exists l r', loop (S n) trunc8_step (buf, r) = Ok (buf ++ l, r') /\ 0 <= r' <= 9999 /\
    forall l', decimal r' l' -> decimal r (l ++ l').
Proof.
  induction n as [|n IH]; intros buf r Hr H8; cbn [loop trunc8_step]; rewrite Z.geb_leb;
    (destruct (Z.leb_spec 10000 r) as [Hge|Hlt]; [|exists [], r; rewrite app_nil_r; split; [done|]; split; [lia|done]]).
  { cbn in Hr. lia. }
  rewrite mul64_shift_10 by lia.
  assert (Hc : u8 (r ⊞ 48 ⊟ u32 (10 * (r / 10))) = 48 + r mod 10).
  { unfold u8. rewrite (u32_small (10 * _)) by (Z.div_mod_to_equations; lia). pose proof (Z.mod_pos_bound r 10).
    rewrite (Z.mod_eq r 10) in * by lia. nowrap. rewrite Z.mod_small; lia. }
  rewrite Hc. destruct (IH (buf ++ [48 + r mod 10]) (r / 10)) as (l & r' & Hl & Hr' & Hdec).
  - replace (4 + Z.of_nat (S n)) with (Z.succ (4 + Z.of_nat n)) in Hr by lia. rewrite Z.pow_succ_r in Hr by lia.
    split; [Z.div_mod_to_equations; lia|]. apply Z.div_lt_upper_bound; lia.
  - Z.div_mod_to_equations; lia.
  - cbn [loop] in Hl. rewrite Hl. exists (48 + r mod 10 :: l), r'. rewrite <- app_assoc. split; [done|]. split; [done|].
    intros l' Hl'. cbn. apply decimal_cons; [lia|]. by apply Hdec.
Qed.

Lemma trunc8_ok buf r : 0 <= r < 10 ^ 8 -> exists l, put_dec_trunc8 buf r = Ok (buf ++ l) /\ decimal r l.
Proof.
  intros Hr. unfold put_dec_trunc8. destruct (trunc8_loop 4 buf r) as (l & r' & -> & Hr' & Hdec); [exact Hr|lia|].
  rewrite res_bind_ok. destruct (trunc4_ok (buf ++ l) r' Hr') as (l' & -> & Hl').
  exists (l ++ l'). rewrite app_assoc. split; [done|by apply Hdec].
Qed.

Lemma put_dec_loop n : forall buf m, 0 <= m < 10 ^ (9 * (Z.of_nat n + 1)) ->
  exists l m', loop (S n) put_dec_step (buf, m) = Ok (buf ++ l, m') /\ 0 <= m' < 10 ^ 9 /\
    (l = [] -> m' = m) /\ (l <> [] -> m' <> 0) /\ forall l', decimal m' l' -> decimal m (l ++ l').
Proof.
  induction n as [|n IH]; intros buf m Hm; cbn [loop put_dec_step]; rewrite Z.geb_leb;
    (destruct (Z.leb_spec (1000 * 1000 * 1000) m) as [Hge|Hlt]; [|exists [], m; rewrite app_nil_r; split_and!; [done|lia|lia|done..]]).
  { cbn in Hm. lia. }
  change (1000 * 1000 * 1000) with (10 ^ 9) in *.
  pose proof (Z.mod_pos_bound m (10 ^ 9) ltac:(lia)) as Hmod.
  destruct (full9_ok (m mod 10 ^ 9)) as (Hd & Hv & Hlen); [lia|].
  assert (Hq : 1 <= m / 10 ^ 9) by (apply Z.div_le_lower_bound; lia).
  destruct (IH (buf ++ put_dec_full9 (m mod 10 ^ 9)) (m / 10 ^ 9)) as (l & m' & Hl & Hm' & Hnil & Hne & Hdec).
  { split; [lia|]. apply Z.div_lt_upper_bound; [lia|]. rewrite <- Z.pow_add_r by lia.
    replace (9 + 9 * (Z.of_nat n + 1)) with (9 * (Z.of_nat (S n) + 1)) by lia. lia. }
  cbn [loop] in Hl. rewrite Hl. exists (put_dec_full9 (m mod 10 ^ 9) ++ l), m'. rewrite <- app_assoc.
  split; [done|]. split; [done|]. split; [intros [H9 _]%app_eq_nil; by rewrite H9 in Hlen|]. split.
  - intros _. destruct (decide (l = [])) as [H0|]; [rewrite (Hnil H0); lia|by apply Hne].
  - intros l' Hl'. rewrite <- app_assoc.
    pose proof (decimal_app (m / 10 ^ 9) (m mod 10 ^ 9) _ (l ++ l') Hd Hv (Hdec l' Hl') ltac:(lia)) as Hres.
    rewrite Hlen in Hres. replace m with (m mod 10 ^ 9 + 10 ^ Z.of_nat 9 * (m / 10 ^ 9)) at 1; [done|].
    change (10 ^ Z.of_nat 9) with (10 ^ 9). Z.div_mod_to_equations; lia.
Qed.

(** [put_dec] writes the decimal text of every 64-bit number. *)
Lemma put_dec_ok n : 0 <= n < 2 ^ 64 -> exists l, put_dec n = Ok l /\ decimal n l.
Proof.
  intros Hn. unfold put_dec. change (100 * 1000 * 1000) with (10 ^ 8). rewrite Z.geb_leb.
  destruct (Z.leb_spec (10 ^ 8) n) as [Hge|Hlt].
  - destruct (put_dec_loop 3 [] n) as (l & m & -> & Hm & Hnil & Hne & Hdec); [cbn; lia|]. rewrite res_bind_ok. cbn [app].
    rewrite Z.geb_leb. destruct (Z.leb_spec (10 ^ 8) m) as [Hge'|Hlt'].
    + destruct (full9_ok m Hm) as (Hd & Hv & Hlen). eexists. split; [done|]. apply Hdec. split; [done..|]. right.
      destruct (exists_last (l := put_dec_full9 m)) as (l' & c & Hl'); [by intros H0; rewrite H0 in Hlen|].
      exists l', c. split; [done|]. intros ->. rewrite Hl' in Hlen, Hv. rewrite length_app in Hlen. cbn in Hlen.
      assert (Hl8 : length l' = 8%nat) by lia. rewrite le_value_app, Hl8 in Hv. cbn [le_value] in Hv.
      rewrite Hl' in Hd. apply all_digits_app in Hd as [Hd _]. apply le_value_bound in Hd. rewrite Hl8 in Hd.
      change (10 ^ Z.of_nat 8) with (10 ^ 8) in Hd. lia.
    + destruct (trunc8_ok l (u32 m)) as (l' & -> & Hl'); [rewrite u32_small by lia; lia|].
      rewrite u32_small in Hl' by lia. eexists. split; [done|]. by apply Hdec.
  - destruct (trunc8_ok [] (u32 n)) as (l & -> & Hl); [rewrite u32_small by lia; lia|].
    rewrite u32_small in Hl by lia. by exists l.
Qed.

(** ** Reading digits back *)

(** [l] is the text of [n] in the radix, least significant digit first. *)
Definition le (base : Z) (ds : list Z) : Z := foldr (fun d a => d + base * a) 0 ds.

Definition text_of (base n : Z) (l : list Z) : Prop :=
  exists ds, digit_val <$> l = Some <$> ds /\ (forall d, d ∈ ds -> 0 <= d < base) /\ le base ds = n /\ ds <> [].

Lemma digit_val_dec c : 48 <= c <= 57 -> digit_val c = Some (c - 48).
Proof. intros Hc. unfold digit_val. by rewrite (proj2 (Z.leb_le 48 c)), (proj2 (Z.leb_le c 57)) by lia. Qed.

Lemma decimal_text n l : decimal n l -> text_of 10 n l.
Proof.
  intros [H1 H2 H3]. exists ((fun c => c - 48) <$> l). split_and!.
  - rewrite <- list_fmap_compose. apply list_fmap_ext. intros i c Hc. apply digit_val_dec, H1. by eapply list_elem_of_lookup_2.
  - intros d (c & -> & Hc)%list_elem_of_fmap. specialize (H1 c Hc). lia.
  - rewrite <- H2. clear. induction l as [|c l IH]; cbn; [done|]. unfold le in IH. cbn in IH. by rewrite IH.
  - destruct H3 as [->|(l' & c & -> & _)]; [done|]. rewrite fmap_app. cbn. by intros [_ ?]%app_eq_nil.
Qed.

Lemma digits_of_prefix base s ds rest :
  digit_val <$> s = Some <$> ds -> (forall d, d ∈ ds -> 0 <= d < base) ->
  digits_of base (s ++ rest) = ds ++ digits_of base rest.
Proof.
  revert ds. induction s as [|c s IH]; intros [|d ds] Heq Hd; try done. cbn in *. injection Heq as -> Heq.
  rewrite (proj2 (Z.ltb_lt d base)) by (apply Hd; left). f_equal. apply IH; [done|]. intros d' ?. apply Hd. by right.
Qed.

Lemma value_reverse base ds : value base (reverse ds) = le base ds.
Proof.
  induction ds as [|d ds IH]; [done|]. rewrite reverse_cons. unfold value, value_from in *.
  rewrite foldl_app, IH. cbn. unfold le. lia.
Qed.

Lemma fmap_reverse_eq {A B} (f : A -> option B) l ds : f <$> l = Some <$> ds -> f <$> reverse l = Some <$> reverse ds.
Proof. intros H. by rewrite !fmap_reverse, H. Qed.

(** Digits of the radix alone are read back as the number. *)
Lemma digits_of_text base n l rest :
  text_of base n l -> digits_of base rest = [] ->
  value base (digits_of base (reverse l ++ rest)) = n /\ digits_of base (reverse l ++ rest) <> [] /\
  length (digits_of base (reverse l ++ rest)) = length l.
Proof.
  intros (ds & H1 & H2 & H3 & H4) Hr.
  rewrite (digits_of_prefix base (reverse l) (reverse ds) rest), Hr, app_nil_r; [|by apply fmap_reverse_eq|].
  - rewrite value_reverse. split; [done|]. split.
    + intros H0. apply H4. apply (f_equal reverse) in H0. by rewrite reverse_involutive in H0.
    + rewrite length_reverse. apply (f_equal length) in H1. by rewrite !length_fmap in H1.
  - intros d Hd. apply H2. by rewrite elem_of_reverse in Hd.
Qed.

Lemma digits_of_zero base s : 1 <= base -> digits_of base (48 :: s) = 0 :: digits_of base s.
Proof.
  intros Hb. cbn [digits_of]. change (digit_val 48) with (Some 0). cbv iota beta.
  by rewrite (proj2 (Z.ltb_lt 0 base)) by lia.
Qed.

Lemma digit_not_x c v : digit_val c = Some v -> (_tolower c =? 120) = false.
Proof.
  unfold digit_val. intros H. apply Z.eqb_neq. intros Hx. rewrite Hx in H. cbn in H.
  destruct ((48 <=? c) && (c <=? 57)) eqn:Hc; [|done]. apply andb_prop in Hc as [H1%Z.leb_le H2%Z.leb_le].
  unfold _tolower in Hx. assert (c = 48 \/ c = 49 \/ c = 50 \/ c = 51 \/ c = 52 \/ c = 53 \/ c = 54 \/ c = 55 \/ c = 56 \/ c = 57) as Hcs by lia.
  destruct Hcs as [->|[->|[->|[->|[->|[->|[->|[->|[->| ->]]]]]]]]]; done.
Qed.

(** *** The whole text *)

Lemma parsed_text s base s' base' l :
  _parse_integer_fixup_radix s base = (s', base') -> 0 < base' ->
  forall n z, s' = replicate z 48 ++ reverse l -> text_of base' n l -> n < 2 ^ 64 -> parsed s base = (0, Some n).
Proof.
  intros Hf Hb n z -> Ht Hn. unfold parsed. rewrite Hf.
  destruct (digits_of_text base' n l [] Ht eq_refl) as (Hv & Hne & Hl). rewrite app_nil_r in Hv, Hne, Hl.
  assert (Hz : forall m, let ds := digits_of base' (replicate m 48 ++ reverse l) in
    value base' ds = n /\ ds <> [] /\ length ds = (m + length l)%nat).
  { induction m as [|m IH]; [done|]. cbn [replicate app]. rewrite digits_of_zero by lia.
    destruct IH as (IH1 & IH2 & IH3). split; [done|]. split; [done|]. cbn. by rewrite IH3. }
  destruct (Hz z) as (-> & Hne' & ->). rewrite (proj2 (Z.leb_gt _ _)) by done.
  rewrite bool_decide_true; [done|]. split; [done|]. left. unfold ch.
  rewrite lookup_drop, lookup_ge_None_2; [done|]. rewrite length_app, length_replicate, length_reverse. lia.
Qed.
