(* ===== verification/Number.v ===== *)
(** [number]: the text it produces, where it writes, and reading it back. *)
From S2P Require Import Prelude FindBitDefs BitmapDefs Bitmap NumDefs NumParse NumPrint.

(** ** Output *)

(** Characters stored one after the other, those beyond the end dropped. *)
Definition put (end_ : nat) (o : out) (c : Z) : out :=
  (if (o.2 <? end_)%nat then <[o.2 := c]> o.1 else o.1, S o.2).
Definition puts (end_ : nat) (l : list Z) (o : out) : out := foldl (put end_) o l.

Lemma puts_app end_ l1 l2 o : puts end_ (l1 ++ l2) o = puts end_ l2 (puts end_ l1 o).
Proof. apply foldl_app. Qed.

Lemma put_length end_ o c : length (put end_ o c).1 = length o.1.
Proof. cbn. case_match; [apply length_insert|done]. Qed.

Lemma puts_length end_ l o : length (puts end_ l o).1 = length o.1.
Proof.
  revert o. induction l as [|c l IH]; intros o; cbn; [done|]. unfold puts in IH. rewrite IH. apply put_length.
Qed.

Lemma puts_pos end_ l o : (puts end_ l o).2 = (o.2 + length l)%nat.
Proof. revert o. induction l as [|c l IH]; intros o; cbn; [lia|]. unfold puts in IH. rewrite IH. cbn. lia. Qed.

Lemma puts_lookup end_ l o k : (end_ <= length o.1)%nat ->
  (puts end_ l o).1 !! k =
  if decide (o.2 <= k < o.2 + length l /\ k < end_)%nat then l !! (k - o.2)%nat else o.1 !! k.
Proof.
  revert o. induction l as [|c l IH]; intros [mem pos] He; cbn [puts foldl fst snd length] in *.
  { rewrite decide_False by lia. done. }
  fold (puts end_ l (put end_ (mem, pos) c)). rewrite IH by (by rewrite put_length).
  unfold put. cbn [fst snd].
  destruct (decide (S pos <= k < S pos + length l /\ k < end_)%nat) as [H1|H1].
  - rewrite decide_True by lia. replace (k - pos)%nat with (S (k - S pos)) by lia. done.
  - destruct (decide (pos <= k < pos + S (length l) /\ k < end_)%nat) as [H2|H2].
    + assert (k = pos) as -> by lia. rewrite (proj2 (Nat.ltb_lt pos end_)) by lia.
      rewrite list_lookup_insert_eq by lia. by rewrite Nat.sub_diag.
    + destruct (Nat.ltb_spec pos end_); [|done]. rewrite list_lookup_insert_ne; [done|]. lia.
Qed.

Lemma emit_ok end_ c o : (end_ <= length o.1)%nat -> emit end_ c o = Ok (put end_ o c).
Proof.
  destruct o as [mem pos]. cbn [emit fst]. intros He. unfold put. cbn [fst snd]. destruct (Nat.ltb_spec pos end_); [|done].
  by rewrite aset_ok by lia.
Qed.

Lemma emit_list_ok end_ l o : (end_ <= length o.1)%nat -> emit_list end_ l o = Ok (puts end_ l o).
Proof.
  revert o. induction l as [|c l IH]; intros o He; cbn [emit_list]; [done|].
  rewrite emit_ok, res_bind_ok by done. rewrite IH; [done|]. by rewrite put_length.
Qed.

Lemma emit_n_ok end_ n c o : (end_ <= length o.1)%nat -> emit_n end_ n c o = Ok (puts end_ (replicate n c) o).
Proof.
  revert o. induction n as [|n IH]; intros o He; cbn [emit_n]; [done|].
  rewrite emit_ok, res_bind_ok by done. rewrite IH; [done|]. by rewrite put_length.
Qed.

Lemma s16_small x : - 2 ^ 15 <= x < 2 ^ 15 -> s16 x = x.
Proof. intros Hx. unfold s16. rewrite Z.mod_small by lia. lia. Qed.

Lemma pad_ok end_ c w o : (end_ <= length o.1)%nat -> - 2 ^ 15 < w < 2 ^ 15 ->
  pad end_ c w o = Ok (if w >? 0 then -1 else w - 1, puts end_ (replicate (Z.to_nat w) c) o).
Proof.
  intros He Hw. unfold pad. rewrite s16_small by lia. replace (w - 1 + 1) with w by lia.
  rewrite emit_n_ok, res_bind_ok by done. rewrite Z.geb_leb, Z.gtb_ltb.
  destruct (Z.leb_spec 0 (w - 1)), (Z.ltb_spec 0 w); done || lia.
Qed.

(** ** Digits *)

Lemma digit_locase d locase : 0 <= d < 16 -> locase = 0 \/ locase = 32 -> digit_val (Z.lor (digit d) locase) = Some d.
Proof.
  intros Hd Hl. assert (Hcs : d ∈ seqZ 0 16) by (apply elem_of_seqZ; lia). cbn in Hcs.
  repeat (apply elem_of_cons in Hcs as [->|Hcs]); [..|by apply elem_of_nil in Hcs]; destruct Hl as [-> | ->]; reflexivity.
Qed.

(** [l] is the numeral of [n], least significant digit first: digits in the
    case asked for, none of them a leading zero. *)
Record numeral (base locase n : Z) (l : list Z) : Prop := {
  nm_text : text_of base n l;
  nm_case : forall c, c ∈ l -> c ∈ (fun d => Z.lor d locase) <$> digits;
  nm_canonical : l = [48] \/ exists l' c, l = l' ++ [c] /\ c <> 48 }.

Lemma digit_elem d locase : 0 <= d < 16 -> Z.lor (digit d) locase ∈ (fun d => Z.lor d locase) <$> digits.
Proof.
  intros Hd. apply list_elem_of_fmap. exists (digit d). split; [done|]. unfold digit.
  destruct (lookup_lt_is_Some_2 digits (Z.to_nat d)) as [c Hc]; [cbn; lia|]. rewrite Hc. by eapply list_elem_of_lookup_2.
Qed.

Lemma numeral_one base locase d :
  0 <= d < base -> base <= 16 -> locase = 0 \/ locase = 32 -> numeral base locase d [Z.lor (digit d) locase].
Proof.
  intros Hd Hb Hl. pose proof (digit_locase d locase ltac:(lia) Hl) as Hv. constructor.
  - exists [d]. split_and!; [by cbn; rewrite Hv|intros ? ->%list_elem_of_singleton; done|cbn; lia|done].
  - intros c ->%list_elem_of_singleton. apply digit_elem. lia.
  - destruct (decide (d = 0)) as [->|Hne]; [left; by destruct Hl as [-> | ->]|right]. exists [], (Z.lor (digit d) locase).
    split; [done|]. intros H0. rewrite H0 in Hv. by injection Hv as <-.
Qed.

Lemma numeral_cons base locase n tl :
  2 <= base <= 16 -> 0 <= n -> n / base <> 0 -> locase = 0 \/ locase = 32 -> numeral base locase (n / base) tl ->
  numeral base locase n (Z.lor (digit (n mod base)) locase :: tl).
Proof.
  intros Hb Hn H0 Hl [(ds & H1 & H2 & H3 & H4) Hc Hcan]. pose proof (Z.mod_pos_bound n base ltac:(lia)) as Hm. constructor.
  - exists (n mod base :: ds). split_and!; [|..|done].
    + cbn. rewrite digit_locase by (done || lia). by rewrite H1.
    + intros d [->|?]%elem_of_cons; [lia|by apply H2].
    + cbn. fold (le base ds). rewrite H3. rewrite (Z.div_mod n base) at 3 by lia. lia.
  - intros c [->|?]%elem_of_cons; [apply digit_elem; lia|by apply Hc].
  - destruct Hcan as [->|(l' & c & -> & Hne)].
    + destruct ds as [|d [|]]; try done. injection H1 as <-. cbn in H3. lia.
    + right. by exists (Z.lor (digit (n mod base)) locase :: l'), c.
Qed.

Lemma shift_loop_ok base shift locase n :
  base = 2 ^ shift -> 3 <= shift <= 4 -> locase = 0 \/ locase = 32 -> forall tmp num,
  0 <= num < 2 ^ (shift * (Z.of_nat n + 1)) ->
  exists l, loop (S n) (shift_step (base - 1) shift locase) (tmp, num) = Ok (tmp ++ l) /\ numeral base locase num l.
Proof.
  intros Hb Hs Hl. assert (Hb16 : 8 <= base <= 16) by (assert (shift = 3 \/ shift = 4) as [-> | ->] by lia; subst; cbn; lia).
  assert (Hmask : forall x, 0 <= x -> Z.land (u8 x) (base - 1) = x mod base).
  { intros x Hx. rewrite Hb. replace (2 ^ shift - 1) with (Z.ones shift) by (rewrite Z.ones_equiv; lia).
    rewrite Z.land_ones by lia. unfold u8. assert (shift = 3 \/ shift = 4) as [-> | ->] by lia; Z.div_mod_to_equations; lia. }
  induction n as [|n IH]; intros tmp num Hn; cbn [loop shift_step].
  all: rewrite Hmask by lia; unfold shr64; rewrite Z.shiftr_div_pow2, <- Hb by lia.
  all: destruct (Z.eqb_spec (num / base) 0) as [H0|H0]; cbn [negb].
  1,3: eexists; split; [done|]; rewrite Z.div_small_iff in H0 by lia;
    rewrite Z.mod_small by lia; apply numeral_one; done || lia.
  - exfalso. apply H0. apply Z.div_small. rewrite Hb. replace (shift * (Z.of_nat 0 + 1)) with shift in Hn by lia. lia.
  - destruct (IH (tmp ++ [Z.lor (digit (num mod base)) locase]) (num / base)) as (l & Hlp & Ht).
    + split; [apply Z.div_pos; lia|]. apply Z.div_lt_upper_bound; [lia|]. rewrite Hb, <- Z.pow_add_r by lia.
      replace (shift + shift * (Z.of_nat n + 1)) with (shift * (Z.of_nat (S n) + 1)) by lia. lia.
    + cbn [loop] in Hlp. rewrite Hlp. eexists. rewrite <- app_assoc. split; [done|]. apply numeral_cons; done || lia.
Qed.

Lemma decimal_numeral locase n l : locase = 0 \/ locase = 32 -> decimal n l -> numeral 10 locase n l.
Proof.
  intros Hl Hd. constructor; [by apply decimal_text| |apply Hd].
  intros c Hc. apply (dc_digits _ _ Hd) in Hc. replace c with (Z.lor (digit (c - 48)) locase); [apply digit_elem; lia|].
  assert (Hcs : c ∈ seqZ 48 10) by (apply elem_of_seqZ; lia). cbn in Hcs.
  repeat (apply elem_of_cons in Hcs as [->|Hcs]); [..|by apply elem_of_nil in Hcs]; destruct Hl as [-> | ->]; reflexivity.
Qed.

Lemma digit_val_pos c d : digit_val c = Some d -> c <> 48 -> 1 <= d.
Proof.
  unfold digit_val. intros H Hc. repeat case_match; simplify_eq;
    repeat match goal with H : _ && _ = true |- _ => apply andb_prop in H as [?%Z.leb_le ?%Z.leb_le] end; lia.
Qed.

Lemma le_app base ds1 ds2 : 0 <= base -> le base (ds1 ++ ds2) = le base ds1 + base ^ Z.of_nat (length ds1) * le base ds2.
Proof.
  intros Hb. induction ds1 as [|d ds1 IH]; [unfold le at 2; cbn [app length Z.of_nat]; cbn [foldr]; lia|].
  cbn [app length]. unfold le in *. cbn [foldr]. rewrite IH, Nat2Z.inj_succ, Z.pow_succ_r by lia. lia.
Qed.

Lemma le_nonneg base ds : 0 <= base -> (forall d, d ∈ ds -> 0 <= d) -> 0 <= le base ds.
Proof.
  intros Hb. induction ds as [|d ds IH]; intros Hd; cbn; [lia|]. fold (le base ds).
  assert (0 <= d) by (apply Hd; left). assert (0 <= le base ds) by (apply IH; intros; apply Hd; by right). nia.
Qed.

Lemma numeral_length base locase n l : 8 <= base -> numeral base locase n l -> n < 2 ^ 64 -> (1 <= length l <= 22)%nat.
Proof.
  intros Hb [(ds & H1 & H2 & H3 & _) _ Hcan] Hn. destruct Hcan as [->|(l' & c & -> & Hne)]; [cbn; lia|].
  rewrite length_app. cbn [length]. rewrite fmap_app in H1. symmetry in H1.
  apply fmap_app_inv in H1 as (ds1 & ds2 & E1 & E2 & ->). destruct ds2 as [|d [|]]; try done. injection E2 as E2.
  apply digit_val_pos in E2; [|done]. rewrite le_app in H3 by lia. cbn in H3.
  assert (0 <= le base ds1) by (apply le_nonneg; [lia|]; intros d' ?; apply H2; set_solver).
  apply (f_equal length) in E1. rewrite !length_fmap in E1. rewrite E1.
  assert (Hlt : ~ 22 <= Z.of_nat (length ds1)); [|lia]. intros Hge.
  assert (8 ^ 22 <= base ^ Z.of_nat (length ds1)).
  { trans (base ^ 22); [apply Z.pow_le_mono_l; lia|apply Z.pow_le_mono_r; lia]. }
  assert (2 ^ 64 <= 8 ^ 22) by (vm_compute; done). nia.
Qed.

Lemma numeral_zero b locase l : 1 <= b -> numeral b locase 0 l -> l = [48].
Proof.
  intros Hb [(ds & H1 & H2 & H3 & _) _ [?|(l' & c & -> & Hne)]]; [done|]. exfalso. rewrite fmap_app in H1. symmetry in H1.
  apply fmap_app_inv in H1 as (ds1 & ds2 & E1 & E2 & ->). destruct ds2 as [|d [|]]; try done. injection E2 as E2.
  apply digit_val_pos in E2; [|done]. rewrite le_app in H3 by lia. cbn in H3.
  assert (0 <= le b ds1) by (apply le_nonneg; [lia|]; intros d' ?; apply H2; set_solver).
  assert (0 < b ^ Z.of_nat (length ds1)) by lia. nia.
Qed.

(** The numeral, by division. *)
Fixpoint numeral_digits (fuel : nat) (base locase n : Z) : list Z :=
  match fuel with
  | O => []
  | S fuel => Z.lor (digit (n mod base)) locase :: (if n / base =? 0 then [] else numeral_digits fuel base locase (n / base))
  end.
Definition numeral_text : Z -> Z -> Z -> list Z := numeral_digits 22.

Lemma digit_val_char c d locase : locase = 0 \/ locase = 32 ->
  c ∈ (fun d => Z.lor d locase) <$> digits -> digit_val c = Some d -> c = Z.lor (digit d) locase.
Proof.
  intros Hl Hc Hv. cbn in Hc.
  repeat (apply elem_of_cons in Hc as [->|Hc]); [..|by apply elem_of_nil in Hc];
    destruct Hl as [-> | ->]; cbn in Hv; injection Hv as <-; reflexivity.
Qed.

Lemma numeral_tail b locase n c c' tl :
  2 <= b <= 16 -> locase = 0 \/ locase = 32 -> numeral b locase n (c :: c' :: tl) ->
  c = Z.lor (digit (n mod b)) locase /\ n / b <> 0 /\ numeral b locase (n / b) (c' :: tl).
Proof.
  intros Hb Hl [(ds & H1 & H2 & H3 & _) Hcase Hcan]. destruct ds as [|d ds]; [done|]. injection H1 as Hd H1.
  assert (Hdb : 0 <= d < b) by (apply H2; left). cbn in H3. fold (le b ds) in H3.
  assert (n mod b = d) as -> by (symmetry; apply Z.mod_unique with (le b ds); lia).
  assert (n / b = le b ds) as -> by (symmetry; apply Z.div_unique with d; lia).
  assert (Hnum : numeral b locase (le b ds) (c' :: tl)).
  { constructor.
    - exists ds. split_and!; [done| |done|by destruct ds]. intros d' ?. apply H2. by right.
    - intros x Hx. apply Hcase. by right.
    - destruct Hcan as [?|(l' & x & Heq & Hx)]; [done|right]. destruct l' as [|y l']; [done|]. injection Heq as -> Heq. by exists l', x. }
  split; [apply digit_val_char; [done|apply Hcase; left|done]|]. split; [|done].
  intros H0. rewrite H0 in Hnum. destruct Hcan as [?|(l' & x & Heq & Hx)]; [done|].
  apply numeral_zero in Hnum; [|lia]. rewrite Hnum in Heq. change [c; 48] with ([c] ++ [48]) in Heq.
  apply app_inj_tail in Heq as [_ <-]. done.
Qed.

Lemma numeral_digits_ok b locase l : 2 <= b <= 16 -> locase = 0 \/ locase = 32 -> forall n fuel,
  numeral b locase n l -> (length l <= fuel)%nat -> numeral_digits fuel b locase n = l.
Proof.
  intros Hb Hl. induction l as [|c l IH]; intros n fuel Hnum Hf.
  { by destruct Hnum as [_ _ [?|([] & ? & ? & _)]]. }
  destruct fuel as [|fuel]; cbn in Hf; [lia|]. cbn [numeral_digits]. destruct l as [|c' tl].
  - destruct Hnum as [(ds & H1 & H2 & H3 & _) Hcase _]. destruct ds as [|d [|]]; try done. injection H1 as Hd.
    assert (Hdb : 0 <= d < b) by (apply H2; left). cbn in H3. assert (n = d) as -> by lia.
    rewrite Z.mod_small, Z.div_small by lia. f_equal. symmetry. apply digit_val_char; [done|apply Hcase; left|done].
  - apply numeral_tail in Hnum as (-> & H0 & Hnum); [|done..]. rewrite (proj2 (Z.eqb_neq _ _) H0). f_equal. apply IH; [done|lia].
Qed.

Lemma numeral_text_ok b locase n l : 8 <= b <= 16 -> locase = 0 \/ locase = 32 -> n < 2 ^ 64 ->
  numeral b locase n l -> l = numeral_text b locase n.
Proof.
  intros Hb Hl Hn Hnum. symmetry. apply numeral_digits_ok; [lia|done|done|]. eapply numeral_length; [|done|done]. lia.
Qed.

(** ** The layout *)

Definition magnitude (num : Z) (spec : printf_spec) : Z :=
  if flag SIGN spec && (s64 num <? 0) then u64 (- num) else num.

Definition sign_text (num : Z) (spec : printf_spec) : list Z :=
  if flag SIGN spec then
    if s64 num <? 0 then [45] else if flag PLUS spec then [43] else if flag SPACE spec then [32] else []
  else [].

Definition prefix_text (num : Z) (spec : printf_spec) : list Z :=
  if flag SPECIAL spec && negb (base spec =? 10) then
    if base spec =? 16 then [48; Z.lor 88 (Z.land (flags spec) SMALL)] else if num =? 0 then [] else [48]
  else [].

(** Sign, prefix, zeros up to the precision, digits; filled up to the width on
    the side the flags say. *)
Definition layout (num : Z) (spec : printf_spec) (tmp : list Z) : list Z :=
  let digits := replicate (Z.to_nat (precision spec - Z.of_nat (length tmp))) 48 ++ reverse tmp in
  let sp := sign_text num spec ++ prefix_text num spec in
  let fill := Z.to_nat (field_width spec - Z.of_nat (length sp + length digits)) in
  if flag LEFT spec then sp ++ digits ++ replicate fill 32
  else if flag ZEROPAD spec then sp ++ replicate fill 48 ++ digits
  else replicate fill 32 ++ sp ++ digits.

(** The specifications [number] is called with; the widths are [s16] fields. *)
Record spec_ok (spec : printf_spec) : Prop := {
  sp_base : base spec = 8 \/ base spec = 10 \/ base spec = 16;
  sp_width : -1 <= field_width spec < 2 ^ 15;
  sp_precision : -1 <= precision spec <= 32760 }.

Lemma flag_value x n : 0 <= n -> Z.land x (2 ^ n) = 0 \/ Z.land x (2 ^ n) = 2 ^ n.
Proof.
  intros Hn. destruct (Z.testbit x n) eqn:Hx; [right|left]; apply Z.bits_inj'; intros i Hi;
    rewrite Z.land_spec, ?Z.bits_0; destruct (decide (i = n)) as [->|Hne];
    rewrite ?Hx, ?Z.pow2_bits_true, ?Z.pow2_bits_false, ?andb_false_r by lia; done.
Qed.

Lemma locase_cases spec : Z.land (flags spec) SMALL = 0 \/ Z.land (flags spec) SMALL = 32.
Proof. apply (flag_value _ 5). lia. Qed.

Lemma magnitude_range num spec : 0 <= num < 2 ^ 64 -> 0 <= magnitude num spec < 2 ^ 64.
Proof. intros Hn. unfold magnitude. case_match; [apply u64_range|done]. Qed.

(** The digits of the number, whichever way they are made. *)
Lemma number_digits num spec : spec_ok spec -> 0 <= num < 2 ^ 64 ->
  exists tmp, (let locase := Z.land (flags spec) SMALL in
    if num <? base spec then Ok [Z.lor (digit num) locase]
    else if negb (base spec =? 10) then
      loop 22 (shift_step (base spec - 1) (if base spec =? 16 then 4 else 3) locase) ([], num)
    else put_dec num) = Ok tmp /\ numeral (base spec) (Z.land (flags spec) SMALL) num tmp.
Proof.
  intros [Hb _ _] Hn. cbv zeta. pose proof (locase_cases spec) as Hl. destruct (Z.ltb_spec num (base spec)).
  { eexists. split; [done|]. apply numeral_one; lia. }
  destruct Hb as [Hb|[Hb|Hb]]; rewrite Hb; cbn [Z.eqb Pos.eqb negb].
  - apply (shift_loop_ok 8 3 _ 21 eq_refl); [lia|done|]. change (3 * (Z.of_nat 21 + 1)) with 66. lia.
  - destruct (put_dec_ok num Hn) as (l & -> & Hd). exists l. split; [done|]. by apply decimal_numeral.
  - apply (shift_loop_ok 16 4 _ 21 eq_refl); [lia|done|]. change (4 * (Z.of_nat 21 + 1)) with 88. lia.
Qed.

Definition sign_char (num : Z) (spec : printf_spec) : Z := ch (sign_text num spec) 0.

Lemma number_sign num spec : spec_ok spec ->
  (if flag SIGN spec then
     if s64 num <? 0 then (45, u64 (- num), s16 (field_width spec - 1))
     else if flag PLUS spec then (43, num, s16 (field_width spec - 1))
     else if flag SPACE spec then (32, num, s16 (field_width spec - 1))
     else (0, num, field_width spec)
   else (0, num, field_width spec)) =
  (sign_char num spec, magnitude num spec, field_width spec - Z.of_nat (length (sign_text num spec))).
Proof.
  intros [_ Hw _]. unfold sign_char, magnitude, sign_text, ch.
  destruct (flag SIGN spec), (s64 num <? 0), (flag PLUS spec), (flag SPACE spec);
    cbn [andb lookup list_lookup default length from_option id]; rewrite ?s16_small by lia; repeat f_equal; lia.
Qed.

Lemma emit_sign end_ num spec o : (end_ <= length o.1)%nat ->
  (if negb (sign_char num spec =? 0) then emit end_ (sign_char num spec) o else Ok o) = Ok (puts end_ (sign_text num spec) o).
Proof.
  intros He. unfold sign_char, sign_text. repeat case_match; try done; cbn [ch lookup list_lookup default from_option id Z.eqb negb] in *;
    try done; by rewrite emit_ok.
Qed.

Lemma prefix_width num spec w : - 2 ^ 15 + 2 <= w < 2 ^ 15 ->
  (if flag SPECIAL spec && negb (base spec =? 10) then
     if base spec =? 16 then s16 (w - 2) else if negb (num =? 0) then s16 (w - 1) else w
   else w) = w - Z.of_nat (length (prefix_text num spec)).
Proof.
  intros Hw. unfold prefix_text. repeat case_match; try done; cbn [length]; rewrite ?s16_small by lia; simplify_eq; try lia.
Qed.

(** The characters of the prefix, one after the other. *)
Lemma emit_prefix num spec :
  let need_pfx := flag SPECIAL spec && negb (base spec =? 10) in
  exists p1 p2, prefix_text num spec = p1 ++ p2 /\
  forall end_ o, (end_ <= length o.1)%nat ->
  (if need_pfx && ((base spec =? 16) || negb (num =? 0)) then emit end_ 48 o else Ok o) = Ok (puts end_ p1 o) /\
  (if need_pfx && (base spec =? 16) then emit end_ (Z.lor 88 (Z.land (flags spec) SMALL)) o else Ok o) = Ok (puts end_ p2 o).
Proof.
  cbv zeta. unfold prefix_text.
  exists (if flag SPECIAL spec && negb (base spec =? 10) && ((base spec =? 16) || negb (num =? 0)) then [48] else []),
    (if flag SPECIAL spec && negb (base spec =? 10) && (base spec =? 16) then [Z.lor 88 (Z.land (flags spec) SMALL)] else []).
  destruct (flag SPECIAL spec && negb (base spec =? 10)), (base spec =? 16), (num =? 0); cbn [andb orb negb];
    (split; [done|]); intros end_ o He; by rewrite ?emit_ok.
Qed.

Lemma sign_length num spec : (length (sign_text num spec) <= 1)%nat.
Proof. unfold sign_text. repeat case_match; cbn; lia. Qed.

Lemma prefix_length num spec : (length (prefix_text num spec) <= 2)%nat.
Proof. unfold prefix_text. repeat case_match; cbn; lia. Qed.

(** The padding, sign, prefix and digits are written as the layout says. *)
Lemma number_emits end_ (left zeropad : bool) width e1 e2 e3 p1 p2 p3 zeros tmp o :
  (end_ <= length o.1)%nat -> - 2 ^ 15 + 3 <= width < 2 ^ 15 -> (left = true -> zeropad = false) ->
  (forall o, (end_ <= length o.1)%nat ->
     e1 o = Ok (puts end_ p1 o) /\ e2 o = Ok (puts end_ p2 o) /\ e3 o = Ok (puts end_ p3 o)) ->
  ('(width, o) ← (if negb (zeropad || left) then pad end_ 32 width o else Ok (width, o));
   o ← e1 o; o ← e2 o; o ← e3 o;
   '(width, o) ← (if negb left then pad end_ (if zeropad then 48 else 32) width o else Ok (width, o));
   o ← emit_n end_ zeros 48 o;
   o ← emit_list end_ (reverse tmp) o;
   '(_, o) ← pad end_ 32 width o;
   Ok o) =
  Ok (puts end_
    (let fill := Z.to_nat width in
     let prefix := p1 ++ p2 ++ p3 in
     let body := replicate zeros 48 ++ reverse tmp in
     if left then prefix ++ body ++ replicate fill 32
     else if zeropad then prefix ++ replicate fill 48 ++ body
     else replicate fill 32 ++ prefix ++ body) o).
Proof.
  intros He Hw Hz Hs.
  assert (H1 : forall o, (end_ <= length o.1)%nat -> e1 o = Ok (puts end_ p1 o)) by (intros; by apply Hs).
  assert (H2 : forall o, (end_ <= length o.1)%nat -> e2 o = Ok (puts end_ p2 o)) by (intros; by apply Hs).
  assert (H3 : forall o, (end_ <= length o.1)%nat -> e3 o = Ok (puts end_ p3 o)) by (intros; by apply Hs).
  assert (HL : forall l o, (end_ <= length o.1)%nat -> (end_ <= length (puts end_ l o).1)%nat) by (intros; by rewrite puts_length).
  assert (Hgone : forall w : Z, replicate (Z.to_nat (if w >? 0 then -1 else w - 1)) (32 : Z) = []).
  { intros w. replace (Z.to_nat _) with 0%nat; [done|]. rewrite Z.gtb_ltb. destruct (Z.ltb_spec 0 w); lia. }
  assert (Hrange : forall k w, k <= 10 -> - 2 ^ 15 + k <= w < 2 ^ 15 -> - 2 ^ 15 + k - 1 <= (if w >? 0 then -1 else w - 1) <= -1).
  { intros k w Hk Hw'. rewrite Z.gtb_ltb. destruct (Z.ltb_spec 0 w); lia. }
  pose proof (Hrange 3 width ltac:(lia) ltac:(lia)) as Hr1.
  pose proof (Hrange 2 (if width >? 0 then -1 else width - 1) ltac:(lia) ltac:(lia)) as Hr2.
  destruct left, zeropad; try (by specialize (Hz eq_refl)); cbn [negb orb].
  all: repeat first [rewrite res_bind_ok | rewrite pad_ok by (lia || auto 12) | rewrite H1 by auto 12 | rewrite H2 by auto 12 | rewrite H3 by auto 12 |
     rewrite emit_n_ok by auto 12 | rewrite emit_list_ok by auto 12].
  all: by rewrite ?puts_app, ?Hgone.
Qed.

Lemma number_ok mem pos end_ num spec :
  spec_ok spec -> 0 <= num < 2 ^ 64 -> (end_ <= length mem)%nat ->
  exists tmp, numeral (base spec) (Z.land (flags spec) SMALL) (magnitude num spec) tmp /\
    number (mem, pos) end_ num spec = Ok (puts end_ (layout num spec tmp) (mem, pos)).
Proof.
  intros Hs Hn He. pose proof (magnitude_range num spec Hn) as Hm.
  destruct (number_digits (magnitude num spec) spec Hs Hm) as (tmp & Htmp & Hnum). cbv zeta in Htmp.
  assert (Hl : (1 <= length tmp <= 22)%nat) by (eapply numeral_length; [|done|lia]; destruct (sp_base _ Hs) as [->|[-> | ->]]; lia).
  pose proof (sp_width _ Hs). pose proof (sp_precision _ Hs). pose proof (sign_length num spec). pose proof (prefix_length num spec).
  exists tmp. split; [done|]. unfold number. rewrite number_sign by done. cbv iota beta.
  rewrite prefix_width by lia. rewrite Htmp, res_bind_ok.
  set (i := Z.of_nat (length tmp)) in *.
  assert (HP : (if i >? precision spec then s16 i else precision spec) = Z.max i (precision spec)).
  { rewrite Z.gtb_ltb. destruct (Z.ltb_spec (precision spec) i); [rewrite s16_small by lia|]; lia. }
  rewrite HP. rewrite s16_small by lia.
  destruct (emit_prefix num spec) as (p1 & p2 & Hp & Hemit).
  rewrite (number_emits end_ (flag LEFT spec) (if flag LEFT spec then false else flag ZEROPAD spec) _
    (fun o => if negb (sign_char num spec =? 0) then emit end_ (sign_char num spec) o else Ok o)
    (fun o => if flag SPECIAL spec && negb (base spec =? 10) && ((base spec =? 16) || negb (num =? 0)) then emit end_ 48 o else Ok o)
    (fun o => if flag SPECIAL spec && negb (base spec =? 10) && (base spec =? 16)
              then emit end_ (Z.lor 88 (Z.land (flags spec) SMALL)) o else Ok o)
    (sign_text num spec) p1 p2); [|done|lia|by intros ->|].
  - do 2 f_equal. unfold layout. rewrite Hp in *. cbv zeta. rewrite !length_app, length_replicate, length_reverse in *.
    replace (Z.to_nat (Z.max i (precision spec) - i)) with (Z.to_nat (precision spec - i)) by lia.
    replace (field_width spec - Z.of_nat (length (sign_text num spec)) - Z.of_nat (length p1 + length p2) - Z.max i (precision spec))
      with (field_width spec - Z.of_nat (length (sign_text num spec) + (length p1 + length p2) + (Z.to_nat (precision spec - i) + length tmp)))
      by lia.
    destruct (flag LEFT spec), (flag ZEROPAD spec); by rewrite <- ?app_assoc.
  - intros o Ho. split; [by apply emit_sign|]. by apply Hemit.
Qed.

(** What [number] prints. *)
Definition number_text (num : Z) (spec : printf_spec) : list Z :=
  layout num spec (numeral_text (base spec) (Z.land (flags spec) SMALL) (magnitude num spec)).

(** [number] writes the sign, the prefix, the zeros of the precision and the
    digits of the number, filled up to the width on the side the flags say; the
    characters beyond [end] are dropped, and counted all the same. *)
Lemma number_puts mem pos end_ num spec :
  spec_ok spec -> 0 <= num < 2 ^ 64 -> (end_ <= length mem)%nat ->
  number (mem, pos) end_ num spec = Ok (puts end_ (number_text num spec) (mem, pos)).
Proof.
  intros Hs Hn He. destruct (number_ok mem pos end_ num spec Hs Hn He) as (tmp & Hnum & ->). unfold number_text.
  rewrite <- (numeral_text_ok _ _ _ tmp); [done|..|done]; [destruct (sp_base _ Hs) as [->|[-> | ->]]; lia|apply locase_cases|].
  by apply magnitude_range.
Qed.

(** ** Reading back *)

Lemma lor_32 c : c = Z.lor c 32 \/ c = Z.lor c 32 - 32.
Proof.
  destruct (Z.testbit c 5) eqn:Ht; [left|right]; symmetry.
  - apply Z.bits_inj'. intros i Hi. rewrite Z.lor_spec. change 32 with (2 ^ 5). rewrite Z.pow2_bits_eqb by lia.
    destruct (Z.eqb_spec 5 i) as [<-|]; [by rewrite Ht|by rewrite orb_false_r].
  - rewrite <- Z.add_nocarry_lor; [lia|]. apply Z.bits_inj'. intros i Hi. rewrite Z.land_spec, Z.bits_0.
    change 32 with (2 ^ 5). rewrite Z.pow2_bits_eqb by lia.
    destruct (Z.eqb_spec 5 i) as [<-|]; [by rewrite Ht|by rewrite andb_false_r].
Qed.

Lemma isxdigit_val c v : digit_val c = Some v -> isxdigit c = true.
Proof.
  intros H. assert (Hc : c ∈ seqZ 48 10 ++ seqZ 65 6 ++ seqZ 97 6).
  { rewrite !elem_of_app, !elem_of_seqZ. unfold digit_val, _tolower in H. pose proof (lor_32 c) as Hc.
    destruct ((48 <=? c) && (c <=? 57)) eqn:H1; [apply andb_prop in H1 as [?%Z.leb_le ?%Z.leb_le]; lia|].
    destruct ((97 <=? Z.lor c 32) && _) eqn:H2; [|done]. apply andb_prop in H2 as [?%Z.leb_le ?%Z.leb_le]. lia. }
  cbn in Hc. repeat (apply elem_of_cons in Hc as [->|Hc]); [..|by apply elem_of_nil in Hc]; vm_compute; reflexivity.
Qed.

Section body.
Context (b locase n : Z) (tmp : list Z) (z : nat).
Hypothesis Hb : b = 8 \/ b = 10 \/ b = 16.
Hypothesis Hnum : numeral b locase n tmp.
Let body : list Z := replicate z 48 ++ reverse tmp.

Lemma body_digit i c : body !! i = Some c -> exists v, digit_val c = Some v.
Proof.
  intros Hc. apply list_elem_of_lookup_2, elem_of_app in Hc as [[-> _]%elem_of_replicate|Hc]; [by exists 0|].
  rewrite elem_of_reverse in Hc. apply list_elem_of_lookup in Hc as [j Hj]. destruct Hnum as [(ds & H1 & _) _ _].
  apply (f_equal (fun l => l !! j)) in H1. rewrite !list_lookup_fmap, Hj in H1. cbn in H1.
  destruct (ds !! j) as [d|]; [|done]. injection H1 as H1. by exists d.
Qed.

Lemma body_not_x i : (_tolower (ch body i) =? 120) = false.
Proof. unfold ch. destruct (body !! i) as [c|] eqn:Hc; [|done]. destruct (body_digit _ _ Hc) as [v Hv]. by eapply digit_not_x. Qed.

Lemma body_isxdigit : isxdigit (ch body 0) = true.
Proof.
  unfold ch. destruct (body !! 0%nat) as [c|] eqn:Hc.
  - destruct (body_digit _ _ Hc) as [v Hv]. by eapply isxdigit_val.
  - exfalso. apply lookup_ge_None in Hc. unfold body in Hc. rewrite length_app, length_reverse in Hc.
    assert (tmp = []) as -> by (destruct tmp; [done|cbn in Hc; lia]). by destruct Hnum as [_ _ [?|([] & ? & ? & _)]].
Qed.

Lemma body_parsed s b' : _parse_integer_fixup_radix s b' = (body, b) -> n < 2 ^ 64 -> parsed s b' = (0, Some n).
Proof. intros Hf Hn. by apply (parsed_text s b' body b tmp Hf ltac:(lia) n z eq_refl (nm_text _ _ _ _ Hnum)). Qed.
End body.

(** Without the prefix [0x], the radix is the one given, or told from a zero. *)
Lemma fixup_plain b locase n tmp z b' :
  numeral b locase n tmp -> 2 <= b ->
  b' = b \/ b' = 0 /\ b = (if ch (replicate z 48 ++ reverse tmp) 0 =? 48 then 8 else 10) ->
  _parse_integer_fixup_radix (replicate z 48 ++ reverse tmp) b' = (replicate z 48 ++ reverse tmp, b).
Proof.
  intros Hnum Hb Hb'. unfold _parse_integer_fixup_radix. rewrite (body_not_x b locase n tmp z Hnum 1), andb_false_r. cbn [andb].
  destruct Hb' as [->|[-> ->]]; [|done]. by rewrite (proj2 (Z.eqb_neq b 0)) by lia.
Qed.

(** A numeral with its prefix and zeros in front is read in its own radix, or
    with the radix told from the prefix. *)
Lemma parsed_numeral num spec locase n tmp z b' :
  spec_ok spec -> numeral (base spec) locase n tmp -> n < 2 ^ 64 -> (num = 0 -> n = 0) ->
  b' = base spec \/ b' = 0 /\ (if base spec =? 10 then z = 0%nat else flag SPECIAL spec = true) ->
  parsed (prefix_text num spec ++ replicate z 48 ++ reverse tmp) b' = (0, Some n).
Proof.
  intros Hs Hnum Hn H0 Hb'. pose proof (sp_base _ Hs) as Hb. unfold prefix_text.
  destruct (flag SPECIAL spec && negb (base spec =? 10)) eqn:Hneed.
  2: { destruct Hb' as [->|[-> Hz]].
    { apply (body_parsed (base spec) locase n tmp z Hb Hnum); [|done]. apply (fixup_plain _ _ _ _ _ _ Hnum); [lia|by left]. }
    destruct (Z.eqb_spec (base spec) 10) as [Hb10|]; [|by rewrite Hz in Hneed]. subst z. rewrite Hb10 in *.
    destruct (nm_canonical _ _ _ _ Hnum) as [->|(l' & c & -> & Hc)].
    - destruct (nm_text _ _ _ _ Hnum) as (ds & H1 & _ & <- & _). destruct ds as [|d [|]]; try done. by injection H1 as <-.
    - apply (body_parsed 10 locase n (l' ++ [c]) 0 Hb Hnum); [|done]. apply (fixup_plain _ _ _ _ _ _ Hnum); [lia|right].
      split; [done|]. rewrite reverse_app. unfold ch. cbn. by rewrite (proj2 (Z.eqb_neq c 48)). }
  apply andb_prop in Hneed as [_ H10%negb_true_iff%Z.eqb_neq]. destruct (Z.eqb_spec (base spec) 16) as [H16|].
  - rewrite H16 in *. apply (body_parsed 16 locase n tmp z Hb Hnum); [|done].
    assert (Hx : (_tolower (Z.lor 88 (Z.land (flags spec) SMALL)) =? 120) = true) by (destruct (locase_cases spec) as [-> | ->]; done).
    pose proof (body_isxdigit 16 locase n tmp z Hnum) as Hxd. unfold _parse_integer_fixup_radix.
    set (body := replicate z 48 ++ reverse tmp) in *.
    change (ch _ 0) with 48. change (ch _ 1) with (Z.lor 88 (Z.land (flags spec) SMALL)). change (ch _ 2) with (ch body 0).
    rewrite Hx, Hxd. destruct Hb' as [->|[-> _]]; done.
  - assert (base spec = 8) as H8 by lia. rewrite H8 in *. 
    assert (Hfix : forall z', ch (replicate z' 48 ++ reverse tmp) 0 = 48 -> parsed (replicate z' 48 ++ reverse tmp) b' = (0, Some n)).
    { intros z' Hz'. apply (body_parsed 8 locase n tmp z' Hb Hnum); [|done]. apply (fixup_plain _ _ _ _ _ _ Hnum); [lia|].
      rewrite Hz'. destruct Hb' as [->|[-> _]]; [by left|by right]. }
    destruct (Z.eqb_spec num 0) as [->|].
    + rewrite H0 in Hnum by done. apply numeral_zero in Hnum as ->; [|lia]. apply Hfix. by destruct z.
    + apply (Hfix (S z)). done.
Qed.

Lemma layout_length num spec tmp :
  Z.of_nat (length (layout num spec tmp)) =
  Z.max (field_width spec) (Z.of_nat (length (sign_text num spec) + length (prefix_text num spec)) + Z.max (precision spec) (Z.of_nat (length tmp))).
Proof. unfold layout. repeat case_match; rewrite ?length_app, ?length_replicate, ?length_reverse, ?length_app, ?length_replicate; lia. Qed.

(** Filled with zeros or not at all, the text is a number with zeros in front. *)
Lemma layout_zeros num spec tmp :
  field_width spec <= 1 \/ flag ZEROPAD spec = true /\ flag LEFT spec = false -> tmp <> [] ->
  exists z, layout num spec tmp = sign_text num spec ++ prefix_text num spec ++ replicate z 48 ++ reverse tmp /\
    (field_width spec <= 1 -> precision spec <= 1 -> z = 0%nat).
Proof.
  intros Hf Htmp. assert (Hl : (1 <= length tmp)%nat) by (destruct tmp; [done|cbn; lia]). unfold layout.
  set (zeros := Z.to_nat (precision spec - Z.of_nat (length tmp))). set (fill := Z.to_nat _).
  assert (Hfill : field_width spec <= 1 -> fill = 0%nat).
  { intros ?. unfold fill. rewrite !length_app, length_reverse. lia. }
  exists (fill + zeros)%nat. split; [|intros ??; rewrite Hfill by done; unfold zeros; lia].
  rewrite replicate_add. destruct Hf as [Hf|[-> ->]]; [|by rewrite <- !app_assoc].
  rewrite Hfill by done. cbn [replicate app]. rewrite app_nil_r. repeat case_match; by rewrite <- app_assoc.
Qed.

Lemma puts_text end_ l mem : (length l <= end_ <= length mem)%nat -> take (length l) (puts end_ l (mem, 0%nat)).1 = l.
Proof.
  intros Hl. apply list_eq. intros k. destruct (decide (k < length l)%nat) as [Hk|Hk].
  - rewrite lookup_take_lt by done. rewrite puts_lookup by (cbn; lia). cbn [snd]. rewrite decide_True by lia. by rewrite Nat.sub_0_r.
  - rewrite !lookup_ge_None_2; [done|lia|]. rewrite length_take. lia.
Qed.

(** A number is not taken for a sign. *)
Lemma body_not_sign num spec locase n tmp z :
  numeral (base spec) locase n tmp ->
  let c := ch (prefix_text num spec ++ replicate z 48 ++ reverse tmp) 0 in (c =? 43) = false /\ (c =? 45) = false.
Proof.
  intros Hnum. unfold prefix_text. repeat case_match; try done; cbn [app].
  all: pose proof (body_isxdigit _ _ _ _ z Hnum) as Hx; split; apply Z.eqb_neq; intros Hc; by rewrite Hc in Hx.
Qed.

Lemma kstrto_text num spec tmp z b :
  spec_ok spec -> 0 <= num < 2 ^ 64 -> flag SPACE spec = false ->
  numeral (base spec) (Z.land (flags spec) SMALL) (magnitude num spec) tmp -> Z.of_nat z <= 2 ^ 20 ->
  b = base spec \/ b = 0 /\ (if base spec =? 10 then z = 0%nat else flag SPECIAL spec = true) ->
  let text := sign_text num spec ++ prefix_text num spec ++ replicate z 48 ++ reverse tmp in
  if flag SIGN spec then kstrtoll text b = (0, Some (s64 num)) else kstrtoull text b = (0, Some num).
Proof.
  intros Hs Hn Hsp Hnum Hz Hb text. pose proof (magnitude_range num spec Hn) as Hm.
  assert (Hl : (1 <= length tmp <= 22)%nat) by (eapply numeral_length; [|done|lia]; destruct (sp_base _ Hs) as [->|[-> | ->]]; lia).
  pose proof (parsed_numeral num spec _ _ tmp z b Hs Hnum ltac:(lia)) as Hparse.
  pose proof (body_not_sign num spec _ _ tmp z Hnum) as [H43 H45].
  set (body := prefix_text num spec ++ replicate z 48 ++ reverse tmp) in *.
  assert (Hlen : Z.of_nat (length body) < 2 ^ 31).
  { unfold body. pose proof (prefix_length num spec). rewrite !length_app, length_replicate, length_reverse. lia. }
  assert (Hb0 : b = 0 \/ 2 <= b <= 16) by (pose proof (sp_base _ Hs); naive_solver lia).
  specialize (Hparse ltac:(intros ->; unfold magnitude; by destruct (_ && _)) Hb). rewrite <- _kstrtoull_parsed in Hparse by done.
  revert Hparse. subst text. unfold sign_text, magnitude. rewrite Hsp, s64_sign by done.
  destruct (flag SIGN spec); cbn [andb app]; [|intros Hp; unfold kstrtoull; by rewrite H43].
  destruct (Z.leb_spec (2 ^ 63) num).
  - rewrite (proj2 (Z.ltb_lt _ _)) by lia. cbn [app]. intros Hp. unfold kstrtoll. change (ch (45 :: body) 0) with 45. cbn [Z.eqb Pos.eqb drop].
    rewrite drop_0, Hp. assert (Hun : u64 (- num) = 2 ^ 64 - num) by (symmetry; apply Z.mod_unique with (-1); lia).
    rewrite Hun. replace (u64 (- (2 ^ 64 - num))) with num by (apply Z.mod_unique with (-1); lia).
    rewrite s64_sign, (proj2 (Z.leb_le _ _)) by lia. rewrite Z.geb_leb, (proj2 (Z.leb_gt _ _)) by lia. done.
  - rewrite (proj2 (Z.ltb_ge _ _)) by lia. intros Hp.
    assert (Hpos : forall s, (ch s 0 =? 45) = false -> kstrtoull s b = (0, Some num) -> kstrtoll s b = (0, Some num)).
    { intros s Hc Hk. unfold kstrtoll. rewrite Hc, Hk, s64_sign, (proj2 (Z.leb_gt _ _)) by lia. by rewrite (proj2 (Z.ltb_ge _ _)) by lia. }
    destruct (flag PLUS spec); cbn [app]; apply Hpos; try done. unfold kstrtoull. by rewrite H43.
Qed.

(** C31.  What [number] writes is read back: a number printed without padding
    or padded with zeros is what [kstrtoull] returns for the text in its radix,
    and the signed number what [kstrtoll] returns when the number was printed
    as signed.  The radix can be left to the conversion when the text has a
    prefix or is a decimal number without leading zeros. *)
Theorem number_roundtrip mem end_ num spec b :
  spec_ok spec -> 0 <= num < 2 ^ 64 -> (end_ <= length mem)%nat ->
  Z.max (field_width spec) (Z.max 22 (precision spec) + 3) <= Z.of_nat end_ ->
  flag SPACE spec = false -> field_width spec <= 1 \/ flag ZEROPAD spec = true /\ flag LEFT spec = false ->
  b = base spec \/ b = 0 /\ (if base spec =? 10 then field_width spec <= 1 /\ precision spec <= 1 else flag SPECIAL spec = true) ->
  exists mem' len, number (mem, 0%nat) end_ num spec = Ok (mem', len) /\ (len <= end_)%nat /\
    if flag SIGN spec then kstrtoll (take len mem') b = (0, Some (s64 num)) else kstrtoull (take len mem') b = (0, Some num).
Proof.
  intros Hs Hn He Hroom Hsp Hpad Hb. destruct (number_ok mem 0 end_ num spec Hs Hn He) as (tmp & Hnum & ->).
  assert (Hl : (1 <= length tmp <= 22)%nat).
  { eapply numeral_length; [|done|apply magnitude_range; done]. destruct (sp_base _ Hs) as [->|[-> | ->]]; lia. }
  pose proof (layout_length num spec tmp) as HL. pose proof (sign_length num spec). pose proof (prefix_length num spec).
  assert (Hfit : (length (layout num spec tmp) <= end_)%nat) by lia.
  exists (puts end_ (layout num spec tmp) (mem, 0%nat)).1, (length (layout num spec tmp)).
  split; [|split; [done|]].
  { f_equal. apply injective_projections; [done|]. by rewrite puts_pos. }
  rewrite puts_text by lia. destruct (layout_zeros num spec tmp Hpad) as (z & Hz & Hz0); [by destruct tmp; cbn in Hl; [lia|]|].
  rewrite Hz in *. apply kstrto_text; try done.
  - rewrite !length_app, length_replicate in HL. pose proof (sp_width _ Hs). pose proof (sp_precision _ Hs). lia.
  - destruct Hb as [?|[? Hb]]; [by left|right]. split; [done|]. case_match; naive_solver.
Qed.

(** ** [num_to_str] *)

Lemma num_digits num : 0 <= num < 2 ^ 64 ->
  exists tmp, (if num <=? 9 then Ok [u8 (48 + num)] else put_dec num) = Ok tmp /\ decimal num tmp.
Proof.
  intros Hn. destruct (Z.leb_spec num 9); [|by apply put_dec_ok]. eexists. split; [done|].
  unfold u8. rewrite Z.mod_small by lia. constructor; [intros c ->%list_elem_of_singleton; lia|cbn; lia|].
  destruct (decide (num = 0)) as [->|]; [by left|right]. exists [], (48 + num). split; [done|lia].
Qed.

(** [num_to_str] writes the decimal digits when they fit and returns their
    number, and returns 0 and leaves the buffer alone otherwise; what it writes
    is read back by [kstrtoull]. *)
Theorem num_to_str_ok buf size num :
  0 <= num < 2 ^ 64 -> size <= Z.of_nat (length buf) ->
  exists tmp, decimal num tmp /\
    num_to_str buf size num = Ok (if size <? Z.of_nat (length tmp) then (0, buf)
      else (Z.of_nat (length tmp), reverse tmp ++ drop (length tmp) buf)) /\
    forall base, base = 0 \/ base = 10 -> kstrtoull (reverse tmp) base = (0, Some num).
Proof.
  intros Hn Hsz. destruct (num_digits num Hn) as (tmp & Htmp & Hd). exists tmp. split; [done|]. unfold num_to_str.
  rewrite Htmp, res_bind_ok, Z.gtb_ltb. split.
  - destruct (Z.ltb_spec size (Z.of_nat (length tmp))); [done|].
    destruct (for_loop_inv (fun k b => b = take k (reverse tmp) ++ drop k buf) (length tmp) 0
      (fun idx buf => c ← aget tmp (length tmp - idx - 1); aset buf idx c) buf) as (b & -> & ->); [done|..].
    + intros k b Hk ->. destruct (lookup_lt_is_Some_2 tmp (length tmp - k - 1)) as [c Hc]; [lia|].
      rewrite (aget_ok _ _ _ Hc), res_bind_ok. eexists. rewrite aset_ok by (rewrite length_app, length_take, length_drop, length_reverse; lia).
      split; [done|]. rewrite (take_S_r _ _ c) by (rewrite reverse_lookup by lia; rewrite <- Hc; f_equal; lia).
      destruct (lookup_lt_is_Some_2 buf k) as [x Hx]; [lia|]. rewrite (drop_S _ _ _ Hx).
      rewrite insert_app_r_alt by (rewrite length_take, length_reverse; lia). rewrite length_take, length_reverse.
      replace (k - k `min` length tmp)%nat with 0%nat by lia. by rewrite <- app_assoc.
    + cbn [res_bind]. do 2 f_equal. rewrite take_ge; [done|]. by rewrite length_reverse.
  - intros b Hb. pose proof (kstrto_text num (mkSpec FORMAT_TYPE_UINT 0 10 0 0 0) tmp 0 b) as Hk. cbn [flag SIGN Z.land] in Hk.
    apply Hk; try done; [constructor; cbn; lia| |cbn; tauto].
    replace (magnitude _ _) with num by done. apply decimal_numeral; [by left|done].
Qed.

(** * Examples *)

(** ["0x1F\n"]. *)
Definition hex_text : list Z := [48; 120; 49; 70; 10].

(** [%#06x] and [%+d]. *)
Definition hex_spec : printf_spec := mkSpec FORMAT_TYPE_UINT (ZEROPAD + SMALL + SPECIAL) 16 0 6 (-1).
Definition dec_spec : printf_spec := mkSpec FORMAT_TYPE_INT (SIGN + PLUS) 10 0 (-1) (-1).

Lemma hex_spec_ok : spec_ok hex_spec.
Proof. constructor; cbn; lia. Qed.

Lemma dec_spec_ok : spec_ok dec_spec.
Proof. constructor; cbn; lia. Qed.


Lemma number_roundtrip_witness :
  exists mem' len, number (replicate 30 0, 0%nat) 30 (2 ^ 64 - 42) dec_spec = Ok (mem', len) /\
    kstrtoll (take len mem') 0 = (0, Some (-42)).
Proof.
  destruct (number_roundtrip (replicate 30 0) 30 (2 ^ 64 - 42) dec_spec 0 dec_spec_ok) as (mem' & len & Heq & _ & Hk);
    [lia|rewrite length_replicate; lia|cbn; lia|reflexivity|cbn; lia|cbn; lia|].
  exists mem', len. split; [exact Heq|exact Hk].
Defined.

(** The texts themselves. *)
Example number_hex : number (replicate 8 0, 0%nat) 8 31 hex_spec = Ok ([48; 120; 48; 48; 49; 102; 0; 0], 6%nat).
Proof. vm_compute. reflexivity. Qed.

Example number_dec : number (replicate 5 0, 0%nat) 5 (2 ^ 64 - 42) dec_spec = Ok ([45; 52; 50; 0; 0], 3%nat).
Proof. vm_compute. reflexivity. Qed.

Example num_to_str_max :
  num_to_str (replicate 20 0) 20 (2 ^ 64 - 1) =
  Ok (20, [49; 56; 52; 52; 54; 55; 52; 52; 48; 55; 51; 55; 48; 57; 53; 53; 49; 54; 49; 53]).
Proof. vm_compute. reflexivity. Qed.

(** A buffer of four characters takes [0x00] of [0x001f]. *)
Example number_truncated : number (replicate 4 0, 0%nat) 4 31 hex_spec = Ok ([48; 120; 48; 48], 6%nat).
Proof. vm_compute. reflexivity. Qed.

(** ["-0"] is refused by the signed conversions. *)
Example kstrtoll_minus_zero : kstrtoll [45; 48] 10 = (- ERANGE, None) /\ kstrtoint [45; 48] 0 = (- ERANGE, None).
Proof. vm_compute. split; reflexivity. Qed.

(** With [%.32767d] the [s16] width wraps around and 32768 spaces are printed
    in front of the 32767 digits. *)
Example number_width_wraps :
  (fun o : out => Z.of_nat o.2) <$> match number ([], 0%nat) 0 5 (mkSpec FORMAT_TYPE_INT SIGN 10 0 (-1) 32767) with Ok o => Some o | _ => None end
  = Some 65535.
Proof. vm_compute. reflexivity. Qed.
