(* ===== verification/FormatDefs.v ===== *)
(** Formatted output: [format_decode], [string], [pointer] and [vsnprintf] of
    [lib/vsprintf.c]. *)
From Stdlib Require Import Ascii.
From stdpp Require Import strings.
From S2P Require Import Prelude NumDefs.

(** A character constant and a string constant of the source. *)
Definition chr (c : Ascii.ascii) : Z := Z.of_N (Ascii.N_of_ascii c).
Arguments chr c%_char.
Definition str (s : string) : list Z := chr <$> String.list_ascii_of_string s.
Arguments str s%_string.

(** ** Assignments to the members of the specification *)

Definition with_type (t : format_type) (s : printf_spec) : printf_spec :=
  mkSpec t (flags s) (base s) (qualifier s) (field_width s) (precision s).
Definition with_flags (f : Z) (s : printf_spec) : printf_spec :=
  mkSpec (type s) f (base s) (qualifier s) (field_width s) (precision s).
Definition with_base (b : Z) (s : printf_spec) : printf_spec :=
  mkSpec (type s) (flags s) b (qualifier s) (field_width s) (precision s).
Definition with_qualifier (q : Z) (s : printf_spec) : printf_spec :=
  mkSpec (type s) (flags s) (base s) q (field_width s) (precision s).
Definition with_width (w : Z) (s : printf_spec) : printf_spec :=
  mkSpec (type s) (flags s) (base s) (qualifier s) w (precision s).
Definition with_precision (p : Z) (s : printf_spec) : printf_spec :=
  mkSpec (type s) (flags s) (base s) (qualifier s) (field_width s) p.

Definition add_flag (f : Z) (s : printf_spec) : printf_spec := with_flags (Z.lor (flags s) f) s.

(** ** [format_decode]

    The functions return the rest of the format and the specification; the
    number of characters read is the difference of the lengths. *)

(** The loop that stops at the first [%]. *)
Fixpoint skip_literal (fmt : list Z) : list Z :=
  match fmt with
  | [] => []
  | c :: rest => if (c =? 0) || (c =? chr "%") then fmt else skip_literal rest
  end.

(** The loop over the flags, after the [++fmt]. *)
Fixpoint decode_flags (fmt : list Z) (f : Z) : list Z * Z :=
  match fmt with
  | [] => ([], f)
  | c :: rest =>
      if c =? chr "-" then decode_flags rest (Z.lor f LEFT)
      else if c =? chr "+" then decode_flags rest (Z.lor f PLUS)
      else if c =? chr " " then decode_flags rest (Z.lor f SPACE)
      else if c =? chr "#" then decode_flags rest (Z.lor f SPECIAL)
      else if c =? chr "0" then decode_flags rest (Z.lor f ZEROPAD)
      else (fmt, f)
  end.

(** The type of an integer, from the qualifier. *)
Definition integer_type (spec : printf_spec) : format_type :=
  let sign := flag SIGN spec in
  let q := qualifier spec in
  if q =? chr "L" then FORMAT_TYPE_LONG_LONG
  else if q =? chr "l" then if sign then FORMAT_TYPE_LONG else FORMAT_TYPE_ULONG
  else if _tolower q =? chr "z" then FORMAT_TYPE_SIZE_T
  else if q =? chr "t" then FORMAT_TYPE_PTRDIFF
  else if q =? chr "H" then if sign then FORMAT_TYPE_BYTE else FORMAT_TYPE_UBYTE
  else if q =? chr "h" then if sign then FORMAT_TYPE_SHORT else FORMAT_TYPE_USHORT
  else if sign then FORMAT_TYPE_INT else FORMAT_TYPE_UINT.

(** From [spec->base = 10] on. *)
Definition decode_conversion (fmt : list Z) (spec : printf_spec) : list Z * printf_spec :=
  let spec := with_base 10 spec in
  let c := ch fmt 0 in
  let integer spec := (drop 1 fmt, with_type (integer_type spec) spec) in
  if c =? chr "c" then (drop 1 fmt, with_type FORMAT_TYPE_CHAR spec)
  else if c =? chr "s" then (drop 1 fmt, with_type FORMAT_TYPE_STR spec)
  else if c =? chr "p" then (fmt, with_type FORMAT_TYPE_PTR spec)
  else if c =? chr "%" then (drop 1 fmt, with_type FORMAT_TYPE_PERCENT_CHAR spec)
  else if c =? chr "o" then integer (with_base 8 spec)
  else if c =? chr "x" then integer (with_base 16 (add_flag SMALL spec))
  else if c =? chr "X" then integer (with_base 16 spec)
  else if (c =? chr "d") || (c =? chr "i") then integer (add_flag SIGN spec)
  else if c =? chr "u" then integer spec
  else (fmt, with_type FORMAT_TYPE_INVALID spec).

(** From the label [qualifier] on; [-1] in the [u8] member is 255. *)
Definition decode_qualifier (fmt : list Z) (spec : printf_spec) : list Z * printf_spec :=
  let c := ch fmt 0 in
  if (c =? chr "h") || (_tolower c =? chr "l") || (_tolower c =? chr "z") || (c =? chr "t") then
    let fmt := drop 1 fmt in
    if (c =? ch fmt 0) && (c =? chr "l") then decode_conversion (drop 1 fmt) (with_qualifier (chr "L") spec)
    else if (c =? ch fmt 0) && (c =? chr "h") then decode_conversion (drop 1 fmt) (with_qualifier (chr "H") spec)
    else decode_conversion fmt (with_qualifier c spec)
  else decode_conversion fmt (with_qualifier (u8 (- 1)) spec).

(** From the label [precision] on. *)
Definition decode_precision (fmt : list Z) (spec : printf_spec) : list Z * printf_spec :=
  let spec := with_precision (-1) spec in
  if ch fmt 0 =? chr "." then
    let fmt := drop 1 fmt in
    if isdigit (ch fmt 0) then
      let '(i, fmt) := skip_atoi fmt in
      let p := s16 i in
      decode_qualifier fmt (with_precision (if p <? 0 then 0 else p) spec)
    else if ch fmt 0 =? chr "*" then (drop 1 fmt, with_type FORMAT_TYPE_PRECISION spec)
    else decode_qualifier fmt spec
  else decode_qualifier fmt spec.

(** From [By default] on, for a call that does not continue a directive. *)
Definition decode_start (start : list Z) (spec : printf_spec) : list Z * printf_spec :=
  let spec := with_type FORMAT_TYPE_NONE spec in
  let fmt := skip_literal start in
  if negb (length fmt =? length start)%nat || (ch fmt 0 =? 0) then (fmt, spec)
  else
    let '(fmt, f) := decode_flags (drop 1 fmt) 0 in
    let spec := with_width (-1) (with_flags f spec) in
    if isdigit (ch fmt 0) then
      let '(i, fmt) := skip_atoi fmt in decode_precision fmt (with_width (s16 i) spec)
    else if ch fmt 0 =? chr "*" then (drop 1 fmt, with_type FORMAT_TYPE_WIDTH spec)
    else decode_precision fmt spec.

Definition format_decode (fmt : list Z) (spec : printf_spec) : list Z * printf_spec :=
  match type spec with
  | FORMAT_TYPE_WIDTH =>
      let spec := if field_width spec <? 0 then add_flag LEFT (with_width (s16 (- field_width spec)) spec) else spec in
      decode_precision fmt (with_type FORMAT_TYPE_NONE spec)
  | FORMAT_TYPE_PRECISION =>
      let spec := if precision spec <? 0 then with_precision 0 spec else spec in
      decode_qualifier fmt (with_type FORMAT_TYPE_NONE spec)
  | _ => decode_start fmt spec
  end.

(** ** Characters and strings *)

Fixpoint strnlen (s : list Z) (count : Z) : nat :=
  match s with
  | [] => O
  | c :: s => if (count =? 0) || (c =? 0) then O else S (strnlen s (count - 1))
  end.

(** [while (len < spec.field_width--)], and the width left. *)
Definition string_pad (end_ : nat) (len width : Z) (o : out) : res (Z * out) :=
  let n := Z.to_nat (width - len) in
  o ← emit_n end_ n (chr " ") o;
  Ok (s16 (width - Z.of_nat n - 1), o).

(** [None] is a pointer below [PAGE_SIZE]. *)
Definition string_ (o : out) (end_ : nat) (s : option (list Z)) (spec : printf_spec) : res out :=
  let s := match s with Some s => s | None => str "(null)" end in
  let len := strnlen s (u64 (precision spec)) in
  '(w, o) ← (if negb (flag LEFT spec) then string_pad end_ (Z.of_nat len) (field_width spec) o else Ok (field_width spec, o));
  o ← emit_list end_ (take len s) o;
  '(_, o) ← string_pad end_ (Z.of_nat len) w o;
  Ok o.

(** [while (--spec.field_width > 0)], and the width left. *)
Definition char_pad (end_ : nat) (width : Z) (o : out) : res (Z * out) :=
  let width := s16 (width - 1) in
  o ← emit_n end_ (Z.to_nat width) (chr " ") o;
  Ok (if width >? 0 then 0 else width, o).

Definition char_ (o : out) (end_ : nat) (c : Z) (spec : printf_spec) : res out :=
  '(w, o) ← (if negb (flag LEFT spec) then char_pad end_ (field_width spec) o else Ok (field_width spec, o));
  o ← emit end_ (u8 c) o;
  '(_, o) ← char_pad end_ w o;
  Ok o.

(** [memcpy(str, src, n)]. *)
Fixpoint memcpy (mem : list Z) (dst : nat) (src : list Z) : res (list Z) :=
  match src with
  | [] => Ok mem
  | c :: src => mem ← aset mem dst c; memcpy mem (S dst) src
  end.

(** [case FORMAT_TYPE_NONE]. *)
Definition literal (o : out) (end_ : nat) (text : list Z) : res out :=
  let '(mem, pos) := o in
  mem ← (if (pos <? end_)%nat then
           let copy := if (end_ - pos <? length text)%nat then (end_ - pos)%nat else length text in
           memcpy mem pos (take copy text)
         else Ok mem);
  Ok (mem, (pos + length text)%nat).

(** ** Arguments *)

(** The arguments of a call: an [int], a 64-bit integer, a string, a pointer. *)
Inductive varg :=
  | VInt (i : Z)
  | VLong (n : Z)
  | VStr (s : option (list Z))
  | VPtr (p : Z).

Definition va_int (args : list varg) : res (Z * list varg) :=
  match args with VInt i :: args => Ok (s32 i, args) | _ => Fault end.
Definition va_long (args : list varg) : res (Z * list varg) :=
  match args with VLong n :: args => Ok (u64 n, args) | _ => Fault end.
Definition va_str (args : list varg) : res (option (list Z) * list varg) :=
  match args with VStr s :: args => Ok (s, args) | _ => Fault end.
Definition va_ptr (args : list varg) : res (Z * list varg) :=
  match args with VPtr p :: args => Ok (u64 p, args) | _ => Fault end.

(** The integer argument, converted to [unsigned long long]. *)
Definition va_num (t : format_type) (args : list varg) : res (Z * list varg) :=
  match t with
  | FORMAT_TYPE_LONG_LONG | FORMAT_TYPE_ULONG | FORMAT_TYPE_LONG | FORMAT_TYPE_SIZE_T | FORMAT_TYPE_PTRDIFF => va_long args
  | FORMAT_TYPE_UBYTE => '(i, args) ← va_int args; Ok (u8 i, args)
  | FORMAT_TYPE_BYTE => '(i, args) ← va_int args; Ok (u64 (s8 i), args)
  | FORMAT_TYPE_USHORT => '(i, args) ← va_int args; Ok (u16 i, args)
  | FORMAT_TYPE_SHORT => '(i, args) ← va_int args; Ok (u64 (s16 i), args)
  | FORMAT_TYPE_INT => '(i, args) ← va_int args; Ok (u64 i, args)
  | _ => '(i, args) ← va_int args; Ok (u32 i, args)
  end.

(** ** [pointer] and [vsnprintf]

    The functions that [pointer] calls for the extensions of [%p] print an
    object; they are not modelled.  [pointer_ext] stands for these calls, and
    what is proved of the text that is printed is about formats without them.
    [kptr_restrict] is the setting of the same name, [in_irq] whether the caller
    is in an interrupt and [may_see] whether the process has [CAP_SYSLOG] and its
    own credentials. *)
Record pointer_env := mkPointerEnv {
  pointer_ext : list Z -> Z -> printf_spec -> nat -> out -> res out;
  kptr_restrict : Z;
  in_irq : bool;
  may_see : bool }.

(** The letters after [%p] that select an extension. *)
Definition extension (fmt : list Z) : bool :=
  let c := ch fmt 0 in
  existsb (Z.eqb c) (str "FfSsBRrhMmEUVadD")
  || existsb (Z.eqb c) (str "Ii") && existsb (Z.eqb (ch fmt 1)) (str "64S")
  || (c =? chr "N") && (ch fmt 1 =? chr "F").

Definition pointer (e : pointer_env) (fmt : list Z) (o : out) (end_ : nat) (ptr : Z) (spec : printf_spec) : res out :=
  let default_width := 16 + (if flag SPECIAL spec then 2 else 0) in
  let widened := if field_width spec =? -1 then with_width default_width spec else spec in
  let address ptr :=
    let spec := add_flag SMALL spec in
    let spec := if field_width spec =? -1 then add_flag ZEROPAD (with_width default_width spec) else spec in
    number o end_ ptr (with_base 16 spec) in
  if (ptr =? 0) && negb (ch fmt 0 =? chr "K") then string_ o end_ (Some (str "(null)")) widened
  else if extension fmt then pointer_ext e fmt ptr spec end_ o
  else if ch fmt 0 =? chr "K" then
    if negb (kptr_restrict e =? 0) && in_irq e then string_ o end_ (Some (str "pK-error")) widened
    else if kptr_restrict e =? 0 then address ptr
    else if kptr_restrict e =? 1 then address (if may_see e then ptr else 0)
    else address 0
  else address ptr.

(** [while (isalnum( *fmt)) fmt++]. *)
Fixpoint skip_alnum (fmt : list Z) : list Z :=
  match fmt with
  | [] => []
  | c :: rest => if isalnum c then skip_alnum rest else fmt
  end.

(** The state of the loop: [fmt], [spec], [args] and the output. *)
Definition fmt_state : Type := list Z * printf_spec * list varg * out.

(** One round of [while ( *fmt)]. *)
Definition vsnprintf_step (e : pointer_env) (end_ : nat) (st : fmt_state) : res (fmt_state + out) :=
  let '(old_fmt, spec, args, o) := st in
  if ch old_fmt 0 =? 0 then Ok (inr o)
  else
    let '(fmt, spec) := format_decode old_fmt spec in
    let read := (length old_fmt - length fmt)%nat in
    match type spec with
    | FORMAT_TYPE_NONE => o ← literal o end_ (take read old_fmt); Ok (inl (fmt, spec, args, o))
    | FORMAT_TYPE_WIDTH => '(i, args) ← va_int args; Ok (inl (fmt, with_width (s16 i) spec, args, o))
    | FORMAT_TYPE_PRECISION => '(i, args) ← va_int args; Ok (inl (fmt, with_precision (s16 i) spec, args, o))
    | FORMAT_TYPE_CHAR => '(c, args) ← va_int args; o ← char_ o end_ c spec; Ok (inl (fmt, spec, args, o))
    | FORMAT_TYPE_STR => '(s, args) ← va_str args; o ← string_ o end_ s spec; Ok (inl (fmt, spec, args, o))
    | FORMAT_TYPE_PTR =>
        '(p, args) ← va_ptr args;
        o ← pointer e (drop 1 fmt) o end_ p spec;
        Ok (inl (skip_alnum fmt, spec, args, o))
    | FORMAT_TYPE_PERCENT_CHAR | FORMAT_TYPE_INVALID => o ← emit end_ (chr "%") o; Ok (inl (fmt, spec, args, o))
    | _ => '(num, args) ← va_num (type spec) args; o ← number o end_ num spec; Ok (inl (fmt, spec, args, o))
    end.

Definition spec0 : printf_spec := mkSpec FORMAT_TYPE_NONE 0 0 0 0 0.

(** [addr] is the address of the buffer. *)
Definition vsnprintf (e : pointer_env) (addr : Z) (buf : list Z) (size : Z) (fmt : list Z) (args : list varg) : res (Z * list Z) :=
  if s32 size <? 0 then Ok (0, buf)
  else
    let end_ := addr ⊕ size in
    let size := if end_ <? addr then u64 (- 1) ⊖ addr else size in
    let end_ := Z.to_nat size in
    '(mem, pos) ← loop (2 * length fmt + 2) (vsnprintf_step e end_) (fmt, spec0, args, (buf, O));
    mem ← (if size >? 0 then aset mem (if (pos <? end_)%nat then pos else (end_ - 1)%nat) 0 else Ok mem);
    Ok (s32 (Z.of_nat pos), mem).

Definition vscnprintf (e : pointer_env) (addr : Z) (buf : list Z) (size : Z) (fmt : list Z) (args : list varg) : res (Z * list Z) :=
  '(i, mem) ← vsnprintf e addr buf size fmt args;
  Ok (if u64 i <? size then i else if negb (size =? 0) then s32 (size - 1) else 0, mem).

Definition INT_MAX : Z := 2 ^ 31 - 1.

Definition vsprintf (e : pointer_env) (addr : Z) (buf fmt : list Z) (args : list varg) : res (Z * list Z) :=
  vsnprintf e addr buf INT_MAX fmt args.
