(* ===== verification/FormatDecode.v ===== *)
(** [format_decode] reads a directive written in the documented syntax. *)
From Stdlib Require Import Ascii.
From stdpp Require Import strings.
From S2P Require Import Prelude FindBitDefs BitmapDefs NumDefs NumParse NumPrint Number FormatDefs.

(** ** Every call makes progress *)

Definition pending (t : format_type) : nat :=
  match t with FORMAT_TYPE_WIDTH | FORMAT_TYPE_PRECISION => 1 | _ => 0 end.
Definition progress (r : list Z * printf_spec) : nat := (2 * length r.1 + pending (type r.2))%nat.

Lemma integer_type_settled spec : pending (integer_type spec) = 0%nat.
Proof. unfold integer_type. by repeat case_match. Qed.

Lemma decode_conversion_progress fmt spec : (progress (decode_conversion fmt spec) <= 2 * length fmt)%nat.
Proof.
  unfold decode_conversion, progress. repeat case_match; cbn [fst snd type with_type];
    rewrite ?integer_type_settled, ?length_drop; cbn [pending]; lia.
Qed.

Lemma decode_qualifier_progress fmt spec : (progress (decode_qualifier fmt spec) <= 2 * length fmt)%nat.
Proof.
  unfold decode_qualifier. repeat case_match; etrans; try apply decode_conversion_progress; rewrite ?length_drop; lia.
Qed.

Lemma skip_atoi_length i s : (length (skip_atoi_loop i s).2 <= length s)%nat.
Proof. revert i. induction s as [|c s IH]; intros i; cbn; [lia|]. case_match; cbn; [etrans; [apply IH|]|]; lia. Qed.

Lemma ch_nonzero fmt : ch fmt 0 <> 0 -> (1 <= length fmt)%nat.
Proof. destruct fmt; [done|cbn; lia]. Qed.

Lemma decode_precision_progress fmt spec : (progress (decode_precision fmt spec) <= 2 * length fmt)%nat.
Proof.
  unfold decode_precision. destruct (Z.eqb_spec (ch fmt 0) (chr ".")) as [Hd|]; [|apply decode_qualifier_progress].
  pose proof (ch_nonzero fmt ltac:(by rewrite Hd)). destruct (isdigit _).
  - pose proof (skip_atoi_length 0 (drop 1 fmt)) as Hl. unfold skip_atoi. destruct (skip_atoi_loop 0 (drop 1 fmt)) as [i f].
    etrans; [apply decode_qualifier_progress|]. rewrite length_drop in Hl. cbn in Hl. lia.
  - case_match; [unfold progress; cbn [fst snd type with_type pending]|etrans; [apply decode_qualifier_progress|]]; rewrite !length_drop; lia.
Qed.

Lemma decode_flags_length fmt f : (length (decode_flags fmt f).1 <= length fmt)%nat.
Proof. revert f. induction fmt as [|c fmt IH]; intros f; cbn; [lia|]. repeat case_match; cbn; rewrite ?IH; lia. Qed.

Lemma skip_literal_length fmt : (length (skip_literal fmt) <= length fmt)%nat.
Proof. induction fmt as [|c fmt IH]; cbn; [lia|]. case_match; cbn; lia. Qed.

Lemma skip_alnum_length fmt : (length (skip_alnum fmt) <= length fmt)%nat.
Proof. induction fmt as [|c fmt IH]; cbn; [lia|]. case_match; cbn; lia. Qed.

Lemma skip_literal_none fmt : length (skip_literal fmt) = length fmt -> skip_literal fmt = fmt.
Proof.
  destruct fmt as [|c fmt]; [done|]. cbn [skip_literal]. case_match; [done|]. intros Heq.
  pose proof (skip_literal_length fmt). cbn in Heq. lia.
Qed.

Lemma decode_start_progress fmt spec : ch fmt 0 <> 0 -> (progress (decode_start fmt spec) < 2 * length fmt)%nat.
Proof.
  intros H0. pose proof (ch_nonzero _ H0) as H1. unfold decode_start. pose proof (skip_literal_length fmt) as Hl.
  destruct (Nat.eqb_spec (length (skip_literal fmt)) (length fmt)) as [He%skip_literal_none|He]; cbn [negb orb].
  2: { unfold progress. cbn. lia. }
  rewrite He, (proj2 (Z.eqb_neq _ _) H0). pose proof (decode_flags_length (drop 1 fmt) 0) as Hf.
  rewrite length_drop in Hf. destruct (decode_flags (drop 1 fmt) 0) as [f fl]. cbn in Hf. destruct (isdigit _).
  - pose proof (skip_atoi_length 0 f) as Ha. unfold skip_atoi. destruct (skip_atoi_loop 0 f) as [i f'].
    pose proof (decode_precision_progress f' (with_width (s16 i) (with_width (-1) (with_flags fl (with_type FORMAT_TYPE_NONE spec))))).
    cbn in Ha. lia.
  - destruct (Z.eqb_spec (ch f 0) (chr "*")) as [Hs|].
    + pose proof (ch_nonzero f ltac:(by rewrite Hs)). unfold progress. cbn [fst snd type with_type pending]. rewrite length_drop. lia.
    + pose proof (decode_precision_progress f (with_width (-1) (with_flags fl (with_type FORMAT_TYPE_NONE spec)))). lia.
Qed.

Lemma format_decode_progress fmt spec : ch fmt 0 <> 0 -> (progress (format_decode fmt spec) < progress (fmt, spec))%nat.
Proof.
  intros H0. unfold format_decode, progress at 2. cbn [fst snd].
  pose proof (decode_start_progress fmt spec H0). destruct (type spec); cbn [pending]; try lia.
  - match goal with |- (progress (decode_precision _ ?s) < _)%nat => pose proof (decode_precision_progress fmt s) end. lia.
  - match goal with |- (progress (decode_qualifier _ ?s) < _)%nat => pose proof (decode_qualifier_progress fmt s) end. lia.
Qed.

(** ** Directives

    [%], flags, width, precision, qualifier, conversion.  A width or precision
    is absent, a number or an argument.  This is the syntax as the comments of
    [vsnprintf] give it; it is not derived from the decoder. *)

Inductive amount := Absent | Number (n : Z) | Star (arg : Z).

Record directive := mkDirective {
  d_flags : list Z;
  d_width : amount;
  d_precision : amount;
  d_qualifier : list Z;
  d_conversion : Z }.

Definition flag_bits : list (Z * Z) :=
  [(chr "-", LEFT); (chr "+", PLUS); (chr " ", SPACE); (chr "#", SPECIAL); (chr "0", ZEROPAD)].

(** A qualifier: the character kept, the signed and the unsigned type. *)
Definition qualifiers : list (list Z * (Z * format_type * format_type)) :=
  [ ([], (255, FORMAT_TYPE_INT, FORMAT_TYPE_UINT));
    (str "h", (chr "h", FORMAT_TYPE_SHORT, FORMAT_TYPE_USHORT));
    (str "hh", (chr "H", FORMAT_TYPE_BYTE, FORMAT_TYPE_UBYTE));
    (str "l", (chr "l", FORMAT_TYPE_LONG, FORMAT_TYPE_ULONG));
    (str "ll", (chr "L", FORMAT_TYPE_LONG_LONG, FORMAT_TYPE_LONG_LONG));
    (str "L", (chr "L", FORMAT_TYPE_LONG_LONG, FORMAT_TYPE_LONG_LONG));
    (str "z", (chr "z", FORMAT_TYPE_SIZE_T, FORMAT_TYPE_SIZE_T));
    (str "Z", (chr "Z", FORMAT_TYPE_SIZE_T, FORMAT_TYPE_SIZE_T));
    (str "t", (chr "t", FORMAT_TYPE_PTRDIFF, FORMAT_TYPE_PTRDIFF)) ].

(** A conversion: not an integer, with its type, or an integer with the flags
    it adds and its base. *)
Definition conversions : list (Z * (format_type + Z * Z)) :=
  [ (chr "c", inl FORMAT_TYPE_CHAR); (chr "s", inl FORMAT_TYPE_STR); (chr "p", inl FORMAT_TYPE_PTR);
    (chr "%", inl FORMAT_TYPE_PERCENT_CHAR);
    (chr "o", inr (0, 8)); (chr "x", inr (SMALL, 16)); (chr "X", inr (0, 16));
    (chr "d", inr (SIGN, 10)); (chr "i", inr (SIGN, 10)); (chr "u", inr (0, 10)) ].

Definition decimal_chars (n : Z) : list Z := reverse (numeral_text 10 0 n).

Definition print_amount (a : amount) : list Z :=
  match a with Absent => [] | Number n => decimal_chars n | Star _ => [chr "*"] end.
Definition print_precision (a : amount) : list Z :=
  match a with Absent => [] | _ => chr "." :: print_amount a end.

Definition print_directive (d : directive) : list Z :=
  chr "%" :: d_flags d ++ print_amount (d_width d) ++ print_precision (d_precision d) ++ d_qualifier d ++ [d_conversion d].

Definition star_arg (a : amount) : list varg := match a with Star i => [VInt i] | _ => [] end.
Definition star_args (d : directive) : list varg := star_arg (d_width d) ++ star_arg (d_precision d).

Record valid_directive (d : directive) : Prop := {
  vd_flags : Forall (fun c => c ∈ flag_bits.*1) (d_flags d);
  vd_width : match d_width d with Absent => True | Number n => 1 <= n < 2 ^ 15 | Star i => - 2 ^ 15 < i < 2 ^ 15 end;
  vd_precision : match d_precision d with Absent => True | Number n => 0 <= n < 2 ^ 15 | Star i => - 2 ^ 15 <= i < 2 ^ 15 end;
  vd_qualifier : d_qualifier d ∈ qualifiers.*1;
  vd_conversion : d_conversion d ∈ conversions.*1 }.

(** What the directive asks for. *)

Fixpoint assoc {K V} `{EqDecision K} (k : K) (l : list (K * V)) : option V :=
  match l with [] => None | (k', v) :: l => if decide (k = k') then Some v else assoc k l end.

Definition add_bits (f add : Z) : Z := if add =? 0 then f else Z.lor f add.

Definition directive_flags (d : directive) : Z :=
  let f := foldl (fun f c => Z.lor f (default 0 (assoc c flag_bits))) 0 (d_flags d) in
  match d_width d with Star i => if i <? 0 then Z.lor f LEFT else f | _ => f end.

Definition directive_width (d : directive) : Z :=
  match d_width d with Absent => -1 | Number n => n | Star i => Z.abs i end.
Definition directive_precision (d : directive) : Z :=
  match d_precision d with Absent => -1 | Number n => n | Star i => Z.max 0 i end.

Definition conversion_spec (q : Z * format_type * format_type) (r : format_type + Z * Z) (f w p : Z) : printf_spec :=
  let '(k, signed, unsigned) := q in
  match r with
  | inl t => mkSpec t f 10 k w p
  | inr (add, b) => mkSpec (if add =? SIGN then signed else unsigned) (add_bits f add) b k w p
  end.

Definition directive_spec (d : directive) : printf_spec :=
  conversion_spec (default (0, FORMAT_TYPE_NONE, FORMAT_TYPE_NONE) (assoc (d_qualifier d) qualifiers))
    (default (inl FORMAT_TYPE_INVALID) (assoc (d_conversion d) conversions))
    (directive_flags d) (directive_width d) (directive_precision d).

(** What is left to read: the letter of [%p] stays, for the letters after it. *)
Definition left_of (c : Z) (rest : list Z) : list Z := if c =? chr "p" then c :: rest else rest.

(** The calls [vsnprintf] makes for one directive, with the arguments for the
    stars read in between; it does not call at the end of the format. *)
Definition continue (decode : list Z -> printf_spec -> list varg -> res (list Z * printf_spec * list varg))
    (x : list Z * printf_spec) (args : list varg) : res (list Z * printf_spec * list varg) :=
  let '(fmt, spec) := x in
  match type spec with
  | FORMAT_TYPE_WIDTH => '(i, args) ← va_int args; decode fmt (with_width (s16 i) spec) args
  | FORMAT_TYPE_PRECISION => '(i, args) ← va_int args; decode fmt (with_precision (s16 i) spec) args
  | _ => Ok (fmt, spec, args)
  end.

Fixpoint decode_calls (n : nat) (fmt : list Z) (spec : printf_spec) (args : list varg) : res (list Z * printf_spec * list varg) :=
  match n with
  | O => NoFuel
  | S n => if ch fmt 0 =? 0 then Fault else continue (decode_calls n) (format_decode fmt spec) args
  end.

(** ** Tables *)

(** Case analysis on a member of a list that is written out. *)
Ltac member H := cbn in H; repeat (apply elem_of_cons in H as [H|H]); [..|by apply elem_of_nil in H].

Lemma assoc_elem {K V} `{EqDecision K} k (l : list (K * V)) : k ∈ l.*1 -> exists v, assoc k l = Some v /\ (k, v) ∈ l.
Proof.
  induction l as [|[k' v'] l IH]; cbn; [by intros ?%elem_of_nil|]. intros [->|Hk]%elem_of_cons.
  - exists v'. rewrite decide_True by done. split; [done|left].
  - case_decide; subst; [exists v'; split; [done|left]|]. destruct (IH Hk) as (v & ? & ?). exists v. split; [done|by right].
Qed.

Lemma flag_testbit n s : 0 <= n -> flag (2 ^ n) s = Z.testbit (flags s) n.
Proof.
  intros Hn. unfold flag. destruct (Z.testbit (flags s) n) eqn:Ht.
  - apply negb_true_iff, Z.eqb_neq. intros H0. apply (f_equal (fun z => Z.testbit z n)) in H0.
    by rewrite Z.land_spec, Ht, Z.pow2_bits_true, Z.bits_0 in H0.
  - apply negb_false_iff, Z.eqb_eq. apply Z.bits_inj'. intros i Hi. rewrite Z.land_spec, Z.pow2_bits_eqb, Z.bits_0 by done.
    destruct (Z.eqb_spec n i) as [<-|]; [by rewrite Ht|by rewrite andb_false_r].
Qed.

Lemma decode_conversion_ok c r rest spec : (c, r) ∈ conversions ->
  decode_conversion (c :: rest) spec =
  (left_of c rest, match r with
         | inl t => with_type t (with_base 10 spec)
         | inr (add, b) => let s := with_base b (with_flags (add_bits (flags spec) add) spec) in with_type (integer_type s) s
         end).
Proof. intros H. member H; injection H as -> ->; reflexivity. Qed.

Lemma decode_qualifier_ok q k c r rest spec : (q, k) ∈ qualifiers -> (c, r) ∈ conversions ->
  decode_qualifier (q ++ c :: rest) spec = decode_conversion (c :: rest) (with_qualifier k.1.1 spec).
Proof. intros Hq H. member Hq; injection Hq as -> ->; member H; injection H as -> ->; reflexivity. Qed.

Lemma integer_type_ok q k s : (q, k) ∈ qualifiers -> qualifier s = k.1.1 ->
  integer_type s = if flag SIGN s then k.1.2 else k.2.
Proof. intros Hq Hs. unfold integer_type. rewrite Hs. member Hq; injection Hq as -> ->; cbn; by destruct (flag SIGN s). Qed.

(** What follows the precision is not taken for a part of what is before it. *)
Lemma tail_head q k c r rest : (q, k) ∈ qualifiers -> (c, r) ∈ conversions ->
  let h := ch (q ++ c :: rest) 0 in
  isdigit h = false /\ (h =? chr ".") = false /\ (h =? chr "*") = false /\ (h ∉ flag_bits.*1) /\ (h =? 0) = false.
Proof.
  intros Hq H. member Hq; injection Hq as -> ->; member H; injection H as -> ->; split_and!; try reflexivity;
    apply (bool_decide_unpack _); vm_compute; reflexivity.
Qed.

Lemma qualifier_conversion q k c r rest spec :
  (q, k) ∈ qualifiers -> (c, r) ∈ conversions -> flag SIGN spec = false ->
  decode_qualifier (q ++ c :: rest) spec = (left_of c rest, conversion_spec k r (flags spec) (field_width spec) (precision spec)).
Proof.
  intros Hq Hc Hs. rewrite (decode_qualifier_ok q k c r), (decode_conversion_ok c r) by done. f_equal.
  destruct k as [[k st] ut]. destruct r as [t|[add b]]; [done|]. cbn. rewrite (integer_type_ok q (k, st, ut)) by done. unfold with_type. cbn.
  f_equal. change (flag SIGN) with (flag (2 ^ 1)) in Hs |- *. rewrite flag_testbit in Hs by lia. rewrite flag_testbit by lia.
  cbn [flags with_base with_flags]. member Hc; try done; injection Hc as -> -> ->; unfold add_bits; cbn [Z.eqb SMALL SIGN Pos.eqb];
    rewrite ?Z.lor_spec, ?Hs; reflexivity.
Qed.

(** ** Numbers *)

Lemma numeral_text_decimal n : 0 <= n < 2 ^ 64 -> decimal n (numeral_text 10 0 n).
Proof.
  intros Hn. destruct (put_dec_ok n Hn) as (l & _ & Hd). rewrite <- (numeral_text_ok 10 0 n l); [done|lia|by left|lia|].
  apply decimal_numeral; [by left|done].
Qed.

Lemma isdigit_dec c : 48 <= c <= 57 -> isdigit c = true.
Proof.
  intros Hc. assert (H : c ∈ seqZ 48 10) by (apply elem_of_seqZ; lia). member H; subst; reflexivity.
Qed.

Lemma skip_atoi_digits s rest : all_digits s -> isdigit (ch rest 0) = false -> forall i,
  0 <= i -> value_from 10 i ((fun c => c - 48) <$> s) < 2 ^ 31 ->
  skip_atoi_loop i (s ++ rest) = (value_from 10 i ((fun c => c - 48) <$> s), rest).
Proof.
  intros Hs Hr. induction s as [|c s IH]; intros i Hi Hv.
  - cbn. destruct rest as [|c rest]; [done|]. cbn in Hr |- *. unfold ch in Hr. cbn in Hr. by rewrite Hr.
  - cbn [app skip_atoi_loop]. assert (Hc : 48 <= c <= 57) by (apply Hs; left). rewrite isdigit_dec by done.
    assert (Hs' : all_digits s) by (intros c' ?; apply Hs; by right).
    assert (Hge : i * 10 + (c - 48) <= value_from 10 (i * 10 + (c - 48)) ((fun c => c - 48) <$> s)).
    { apply value_from_ge; [lia|lia|]. intros d (c' & -> & Hc')%list_elem_of_fmap. specialize (Hs' c' Hc'). lia. }
    cbn in Hv. rewrite s32_small by (unfold value_from in *; lia). replace (i * 10 + c - 48) with (i * 10 + (c - 48)) by lia.
    cbn. apply IH; [done|lia|]. unfold value_from. lia.
Qed.

Lemma skip_atoi_decimal n rest : 0 <= n < 2 ^ 31 -> isdigit (ch rest 0) = false ->
  skip_atoi (decimal_chars n ++ rest) = (n, rest).
Proof.
  intros Hn Hr. destruct (numeral_text_decimal n ltac:(lia)) as [Hd Hv _]. unfold skip_atoi, decimal_chars.
  assert (Hval : value_from 10 0 ((fun c => c - 48) <$> reverse (numeral_text 10 0 n)) = n).
  { rewrite fmap_reverse. etrans; [apply value_reverse|]. rewrite <- Hv at 2. generalize (numeral_text 10 0 n). clear.
    induction l as [|c l IH]; [done|]. cbn. unfold le in IH. cbn in IH. by rewrite IH. }
  rewrite skip_atoi_digits; [by rewrite Hval| |done|lia|lia]. intros c Hc. apply Hd. by rewrite elem_of_reverse in Hc.
Qed.

Lemma decimal_head n rest : 0 <= n < 2 ^ 64 -> isdigit (ch (decimal_chars n ++ rest) 0) = true /\
  (1 <= n -> ch (decimal_chars n ++ rest) 0 ∉ flag_bits.*1).
Proof.
  intros Hn. destruct (numeral_text_decimal n Hn) as [Hd Hv Hc]. unfold decimal_chars.
  assert (Hh : exists c, ch (reverse (numeral_text 10 0 n) ++ rest) 0 = c /\ 48 <= c <= 57 /\ (1 <= n -> c <> 48)).
  { destruct Hc as [Hc|(l & c & Hc & Hne)]; rewrite Hc in *.
    - exists 48. split; [done|]. split; [lia|]. cbn in Hv. lia.
    - exists c. rewrite reverse_app. split; [done|]. split; [apply Hd; set_solver|done]. }
  destruct Hh as (c & -> & Hr & H48). split; [by apply isdigit_dec|]. intros H1 Hf. specialize (H48 H1).
  member Hf; vm_compute in Hf; lia.
Qed.

(** ** The parts of a directive *)

Lemma decode_flags_ok fl tail : Forall (fun c => c ∈ flag_bits.*1) fl -> ch tail 0 ∉ flag_bits.*1 -> forall f,
  decode_flags (fl ++ tail) f = (tail, foldl (fun f c => Z.lor f (default 0 (assoc c flag_bits))) f fl).
Proof.
  intros Hf Ht. induction fl as [|c fl IH]; intros f.
  - cbn. destruct tail as [|c tail]; [done|]. unfold ch in Ht. cbn [lookup list_lookup default from_option id] in Ht. cbn [decode_flags].
    cbn in Ht. rewrite !not_elem_of_cons in Ht. destruct Ht as (H1 & H2 & H3 & H4 & H5 & _).
    by rewrite !(proj2 (Z.eqb_neq _ _)) by done.
  - apply Forall_cons in Hf as [Hc Hf]. cbn [app foldl]. rewrite <- IH by done. member Hc; subst c; reflexivity.
Qed.

Lemma drop_cons (c : Z) l : drop 1 (c :: l) = l.
Proof. apply drop_0. Qed.

Section tail.
Context (q : list Z) (k : Z * format_type * format_type) (c : Z) (r : format_type + Z * Z) (rest : list Z).
Hypothesis Hq : (q, k) ∈ qualifiers.
Hypothesis Hc : (c, r) ∈ conversions.
Let tl : list Z := q ++ c :: rest.

Lemma continue_settled decode f w p args :
  continue decode (left_of c rest, conversion_spec k r f w p) args = Ok (left_of c rest, conversion_spec k r f w p, args).
Proof. destruct k as [[k' st] ut]. member Hq; member Hc; simplify_eq; reflexivity. Qed.

Lemma qualifier_calls decode spec args : flag SIGN spec = false ->
  continue decode (decode_qualifier tl spec) args =
  Ok (left_of c rest, conversion_spec k r (flags spec) (field_width spec) (precision spec), args).
Proof. intros Hs. unfold tl. rewrite (qualifier_conversion q k c r) by done. apply continue_settled. Qed.

Lemma va_star i args : - 2 ^ 15 <= i < 2 ^ 15 -> va_int (VInt i :: args) = Ok (i, args).
Proof. intros Hi. cbn. by rewrite s32_small by lia. Qed.

Lemma precision_calls n d spec args :
  match d with Absent => True | Number n => 0 <= n < 2 ^ 15 | Star i => - 2 ^ 15 <= i < 2 ^ 15 end ->
  flag SIGN spec = false ->
  continue (decode_calls (S n)) (decode_precision (print_precision d ++ tl) spec) (star_arg d ++ args) =
  Ok (left_of c rest, conversion_spec k r (flags spec) (field_width spec)
              (match d with Absent => -1 | Number n => n | Star i => Z.max 0 i end), args).
Proof.
  intros Hd Hs. destruct (tail_head q k c r rest Hq Hc) as (Hdig & Hdot & Hstar & _ & H0). fold tl in Hdig, Hdot, Hstar, H0.
  unfold decode_precision. destruct d as [|m|i]; cbn [print_precision print_amount app star_arg].
  - rewrite Hdot. by apply qualifier_calls.
  - change (ch (chr "." :: _) 0) with (chr "."). rewrite Z.eqb_refl, drop_cons.
    destruct (decimal_head m tl ltac:(lia)) as [-> _]. rewrite skip_atoi_decimal by (done || lia).
    rewrite s16_small by lia. rewrite (proj2 (Z.ltb_ge m 0)) by lia. by apply (qualifier_calls _ (with_precision m (with_precision (-1) spec))).
  - change (ch (chr "." :: _) 0) with (chr "."). rewrite Z.eqb_refl, drop_cons.
    change (ch (chr "*" :: tl) 0) with (chr "*"). change (isdigit (chr "*")) with false. rewrite Z.eqb_refl, drop_cons.
    cbn [continue type with_type]. rewrite va_star, res_bind_ok, s16_small by lia. cbn [decode_calls]. rewrite H0. cbn [format_decode type with_precision with_type].
    set (s := if _ <? 0 then _ else _).
    assert (Hs' : s = with_precision (Z.max 0 i) (with_type FORMAT_TYPE_PRECISION spec)).
    { unfold s. change (precision _) with i. destruct (Z.ltb_spec i 0); [rewrite Z.max_l by lia|rewrite Z.max_r by lia]; reflexivity. }
    rewrite Hs'. by apply (qualifier_calls _ (with_type FORMAT_TYPE_NONE (with_precision (Z.max 0 i) (with_type FORMAT_TYPE_PRECISION spec)))).
Qed.

(** What follows the flags is not a flag. *)
Lemma precision_head d : let h := ch (print_precision d ++ tl) 0 in isdigit h = false /\ (h =? chr "*") = false /\ (h ∉ flag_bits.*1) /\ (h =? 0) = false.
Proof.
  destruct (tail_head q k c r rest Hq Hc) as (Hdig & _ & Hstar & Hfl & H0). fold tl in Hdig, Hstar, Hfl, H0.
  destruct d; cbn [print_precision app]; [done|..];
    (split; [reflexivity|split; [reflexivity|split; [|reflexivity]]]); apply (bool_decide_unpack _); vm_compute; reflexivity.
Qed.
End tail.

Lemma user_flags_unsigned fl f : Forall (fun c => c ∈ flag_bits.*1) fl -> Z.testbit f 1 = false ->
  Z.testbit (foldl (fun f c => Z.lor f (default 0 (assoc c flag_bits))) f fl) 1 = false.
Proof.
  intros Hf. revert f. induction fl as [|c fl IH]; intros f H; [done|]. apply Forall_cons in Hf as [Hc Hf]. cbn [foldl].
  apply IH; [done|]. rewrite Z.lor_spec, H. member Hc; subst c; reflexivity.
Qed.

(** The calls of [format_decode] for one directive, with the width and the
    precision taken from the arguments where it has stars, read exactly the
    directive and leave in the specification what its flags, width, precision,
    qualifier and conversion ask for; a negative width from an argument means
    left justified. *)
Theorem format_decode_directive d rest spec args :
  valid_directive d -> pending (type spec) = 0%nat ->
  decode_calls 3 (print_directive d ++ rest) spec (star_args d ++ args) =
  Ok (left_of (d_conversion d) rest, directive_spec d, args).
Proof.
  intros [Hfl Hw Hp Hq Hc] Hspec.
  destruct (assoc_elem _ _ Hq) as (k & Ek & Hk). destruct (assoc_elem _ _ Hc) as (r & Er & Hr).
  unfold directive_spec, directive_precision. rewrite Ek, Er. cbn [default from_option id]. unfold print_directive, star_args. rewrite <- !app_assoc.
  destruct d as [fl w p q c]; cbn [d_flags d_width d_precision d_qualifier d_conversion] in *.
  set (tl := print_precision p ++ q ++ c :: rest).
  assert (Hstart : forall n, decode_calls (S n) (chr "%" :: (fl ++ print_amount w ++ tl)) spec =
    continue (decode_calls n) (decode_start (chr "%" :: (fl ++ print_amount w ++ tl)) spec)).
  { intros n. cbn [decode_calls]. unfold format_decode. by destruct (type spec). }
  replace ((chr "%" :: fl ++ print_amount w ++ print_precision p ++ q ++ [c]) ++ rest) with (chr "%" :: (fl ++ print_amount w ++ tl))
    by (unfold tl; cbn; rewrite <- !app_assoc; done).
  rewrite Hstart. unfold decode_start. change (skip_literal (chr "%" :: ?l)) with (chr "%" :: l).
  rewrite Nat.eqb_refl. cbn [negb orb]. change (ch (chr "%" :: _) 0 =? 0) with false. cbv iota. rewrite drop_cons.
  destruct (precision_head q k c r rest Hk Hr p) as (Hdig & Hstar & Hnf & H0). fold tl in Hdig, Hstar, Hnf, H0.
  pose proof (user_flags_unsigned fl 0 Hfl eq_refl) as Hun. set (f := foldl _ 0 fl) in Hun.
  assert (Hs : forall s, Z.testbit (flags s) 1 = false -> flag SIGN s = false) by (intros s; by rewrite (flag_testbit 1)).
  rewrite decode_flags_ok; [|done|].
  2: { destruct w as [|m|i]; [done| |]; cbn [print_amount app]; [apply decimal_head; lia|apply (bool_decide_unpack _); vm_compute; reflexivity]. }
  fold f. unfold directive_flags, directive_width. cbn [d_flags d_width]. fold f. unfold tl in *. destruct w as [|m|i]; cbn [print_amount app star_arg] in *.
  - rewrite Hdig, Hstar. apply precision_calls; [done|done|done|by apply Hs].
  - destruct (decimal_head m (print_precision p ++ q ++ c :: rest) ltac:(lia)) as [-> _].
    rewrite skip_atoi_decimal by (done || lia). rewrite s16_small by lia. apply precision_calls; [done|done|done|by apply Hs].
  - change (ch (chr "*" :: _) 0) with (chr "*"). change (isdigit (chr "*")) with false. rewrite Z.eqb_refl, drop_cons. cbv iota.
    cbn [continue type with_type]. rewrite va_star, res_bind_ok, s16_small by lia.
    change (decode_calls 2 ?a ?b ?c) with (if ch a 0 =? 0 then Fault else continue (decode_calls 1) (format_decode a b) c). rewrite H0. unfold format_decode. cbn [type with_width with_type field_width]. destruct (Z.ltb_spec i 0).
    + rewrite s16_small by lia. rewrite (precision_calls q k c r rest) by (done || (apply Hs; cbn [flags with_type with_flags add_flag with_width]; rewrite Z.lor_spec, Hun; reflexivity)).
      cbn. by rewrite Z.abs_neq by lia.
    + rewrite (precision_calls q k c r rest) by (done || by apply Hs). cbn. by rewrite Z.abs_eq by lia.
Qed.

(** * Example *)

(** [%-*.3llu] *)
Definition ex_directive : directive := mkDirective (str "-") (Star 8) (Number 3) (str "ll") (chr "u").

Lemma ex_directive_valid : valid_directive ex_directive.
Proof.
  constructor; cbn; [|lia|lia|apply (bool_decide_unpack _); vm_compute; reflexivity..].
  apply Forall_singleton. apply (bool_decide_unpack _). vm_compute. reflexivity.
Qed.

Lemma format_decode_directive_witness :
  decode_calls 3 (print_directive ex_directive ++ str " bytes") spec0 [VInt 8; VLong 7] =
  Ok (str " bytes", mkSpec FORMAT_TYPE_LONG_LONG LEFT 10 (chr "L") 8 3, [VLong 7]).
Proof.
  refine (format_decode_directive ex_directive (str " bytes") spec0 [VLong 7] ex_directive_valid _). reflexivity.
Defined.

Example print_ex_directive : print_directive ex_directive = str "%-*.3llu".
Proof. vm_compute. reflexivity. Qed.
