(* ===== verification/Format.v ===== *)
(** [vsnprintf] prints the text of the format, cut to the buffer. *)
From Stdlib Require Import Ascii.
From stdpp Require Import strings.
From S2P Require Import Prelude FindBitDefs BitmapDefs NumDefs NumParse NumPrint Number FormatDefs FormatDecode.

(** ** Writing into the buffer *)

Lemma memcpy_puts end_ l mem pos : (end_ <= length mem)%nat ->
  memcpy mem pos (take (end_ - pos) l) = Ok (puts end_ l (mem, pos)).1.
Proof.
  revert mem pos. induction l as [|c l IH]; intros mem pos He; [by rewrite take_nil|].
  unfold puts. cbn [foldl]. fold (puts end_ l (put end_ (mem, pos) c)). unfold put. cbn [fst snd].
  destruct (Nat.ltb_spec pos end_).
  - replace (end_ - pos)%nat with (S (end_ - S pos)) by lia. cbn [take memcpy]. rewrite aset_ok, res_bind_ok by lia.
    apply IH. by rewrite length_insert.
  - replace (end_ - pos)%nat with 0%nat by lia. cbn [take memcpy]. rewrite <- IH by done.
    by replace (end_ - S pos)%nat with 0%nat by lia.
Qed.

Lemma literal_puts end_ t o : (end_ <= length o.1)%nat -> literal o end_ t = Ok (puts end_ t o).
Proof.
  destruct o as [mem pos]. cbn [fst]. intros He. unfold literal.
  assert (Heq : (if (pos <? end_)%nat then memcpy mem pos (take (if (end_ - pos <? length t)%nat then (end_ - pos)%nat else length t) t)
                 else Ok mem) = Ok (puts end_ t (mem, pos)).1).
  { rewrite <- memcpy_puts by done. destruct (Nat.ltb_spec pos end_).
    - f_equal. destruct (Nat.ltb_spec (end_ - pos) (length t)); [done|]. by rewrite !take_ge by lia.
    - by replace (end_ - pos)%nat with 0%nat by lia. }
  cbv zeta. rewrite Heq, res_bind_ok. f_equal. apply injective_projections; [done|]. by rewrite puts_pos.
Qed.

(** ** The text of a conversion *)

(** Text in a field of the given width. *)
Definition in_field (spec : printf_spec) (t : list Z) : list Z :=
  let fill := replicate (Z.to_nat (field_width spec - Z.of_nat (length t))) (chr " ") in
  if flag LEFT spec then t ++ fill else fill ++ t.

(** The characters before the terminator, at most as many as the precision. *)
Fixpoint c_string (s : list Z) : list Z :=
  match s with [] => [] | c :: s => if c =? 0 then [] else c :: c_string s end.
Definition limited (p : Z) (t : list Z) : list Z := if p <? 0 then t else take (Z.to_nat p) t.
Definition string_text (s : option (list Z)) (spec : printf_spec) : list Z :=
  in_field spec (limited (precision spec) (c_string (default (str "(null)") s))).

Definition ranged (spec : printf_spec) : Prop := -1 <= field_width spec < 2 ^ 15 /\ -1 <= precision spec <= 32760.

Lemma strnlen_max s n : Z.of_nat (length s) < n -> take (strnlen s n) s = c_string s.
Proof.
  revert n. induction s as [|c s IH]; intros n Hn; [done|]. cbn [strnlen c_string length] in *.
  rewrite (proj2 (Z.eqb_neq n 0)) by lia. cbn [orb]. destruct (c =? 0); [done|]. cbn. f_equal. apply IH. lia.
Qed.

Lemma strnlen_limit s n : 0 <= n -> take (strnlen s n) s = take (Z.to_nat n) (c_string s).
Proof.
  revert n. induction s as [|c s IH]; intros n Hn; [by cbn; rewrite take_nil|]. cbn [strnlen c_string].
  destruct (Z.eqb_spec n 0) as [->|]; [done|]. cbn [orb]. destruct (c =? 0); [by rewrite take_nil|].
  replace (Z.to_nat n) with (S (Z.to_nat (n - 1))) by lia. cbn. f_equal. apply IH. lia.
Qed.

Lemma strnlen_le s n : (strnlen s n <= length s)%nat.
Proof. revert n. induction s as [|c s IH]; intros n; cbn; [lia|]. case_match; [lia|]. specialize (IH (n - 1)). lia. Qed.

Lemma strnlen_ok s p : -1 <= p < 2 ^ 15 -> Z.of_nat (length s) < 2 ^ 31 -> take (strnlen s (u64 p)) s = limited p (c_string s).
Proof.
  intros Hp Hs. unfold limited. destruct (Z.ltb_spec p 0).
  - assert (p = -1) as -> by lia. apply strnlen_max. change (u64 (-1)) with (2 ^ 64 - 1). lia.
  - rewrite u64_small by lia. by apply strnlen_limit.
Qed.

Lemma string_pad_ok end_ len w o : (end_ <= length o.1)%nat -> -2 <= w < 2 ^ 15 -> 0 <= len ->
  string_pad end_ len w o = Ok (Z.min w len - 1, puts end_ (replicate (Z.to_nat (w - len)) (chr " ")) o).
Proof.
  intros He Hw Hl. unfold string_pad. rewrite emit_n_ok, res_bind_ok by done. rewrite s16_small by lia. do 2 f_equal. lia.
Qed.

Lemma string_puts end_ s spec o : (end_ <= length o.1)%nat -> ranged spec ->
  Z.of_nat (length (default (str "(null)") s)) < 2 ^ 31 -> string_ o end_ s spec = Ok (puts end_ (string_text s spec) o).
Proof.
  intros He [Hw Hp] Hs. unfold string_, string_text, in_field.
  replace (match s with Some s => s | None => str "(null)" end) with (default (str "(null)") s) by (by destruct s).
  set (t := default (str "(null)") s) in *. rewrite <- strnlen_ok by lia.
  pose proof (strnlen_le t (u64 (precision spec))) as Hle. rewrite length_take, Nat.min_l by done.
  set (n := strnlen t (u64 (precision spec))) in *.
  destruct (flag LEFT spec); cbn [negb]; rewrite ?res_bind_ok.
  - rewrite emit_list_ok, res_bind_ok by done. rewrite string_pad_ok by (rewrite ?puts_length; lia).
    rewrite res_bind_ok. by rewrite puts_app.
  - rewrite string_pad_ok, res_bind_ok by lia. rewrite emit_list_ok, res_bind_ok by (by rewrite puts_length).
    rewrite string_pad_ok by (rewrite ?puts_length; lia). rewrite res_bind_ok.
    replace (Z.to_nat (Z.min (field_width spec) (Z.of_nat n) - 1 - Z.of_nat n)) with 0%nat by lia. by rewrite puts_app.
Qed.

Lemma char_pad_ok end_ w o : (end_ <= length o.1)%nat -> -3 <= w < 2 ^ 15 ->
  char_pad end_ w o = Ok (Z.min (w - 1) 0, puts end_ (replicate (Z.to_nat (w - 1)) (chr " ")) o).
Proof.
  intros He Hw. unfold char_pad. rewrite s16_small by lia. rewrite emit_n_ok, res_bind_ok by done.
  rewrite Z.gtb_ltb. do 2 f_equal. destruct (Z.ltb_spec 0 (w - 1)); lia.
Qed.

Lemma char_puts end_ c spec o : (end_ <= length o.1)%nat -> ranged spec ->
  char_ o end_ c spec = Ok (puts end_ (in_field spec [u8 c]) o).
Proof.
  intros He [Hw _]. unfold char_, in_field. change (Z.of_nat (length [u8 c])) with 1.
  destruct (flag LEFT spec); cbn [negb]; rewrite ?res_bind_ok.
  - rewrite emit_ok, res_bind_ok by done. rewrite char_pad_ok by (rewrite ?put_length; lia). rewrite res_bind_ok. by rewrite puts_app.
  - rewrite char_pad_ok, res_bind_ok by lia. rewrite emit_ok, res_bind_ok by (by rewrite puts_length).
    rewrite char_pad_ok by (rewrite ?put_length, ?puts_length; lia). rewrite res_bind_ok.
    replace (Z.to_nat (Z.min (field_width spec - 1) 0 - 1)) with 0%nat by lia. by rewrite puts_app.
Qed.

(** ** Pointers *)

(** The specification an address is printed with, and a name in its place. *)
Definition address_width (spec : printf_spec) : Z := if flag SPECIAL spec then 18 else 16.
Definition name_spec (spec : printf_spec) : printf_spec :=
  if field_width spec =? -1 then with_width (address_width spec) spec else spec.
Definition address_spec (spec : printf_spec) : printf_spec :=
  let spec' := add_flag SMALL spec in
  with_base 16 (if field_width spec =? -1 then add_flag ZEROPAD (with_width (address_width spec) spec') else spec').

(** The address that [%pK] shows. *)
Definition visible (e : pointer_env) (ptr : Z) : Z :=
  if (kptr_restrict e =? 0) || (kptr_restrict e =? 1) && may_see e then ptr else 0.

(** Without, or with the restriction of [%pK]. *)
Definition pointer_text (e : pointer_env) (restricted : bool) (ptr : Z) (spec : printf_spec) : list Z :=
  if restricted then
    if negb (kptr_restrict e =? 0) && in_irq e then string_text (Some (str "pK-error")) (name_spec spec)
    else number_text (visible e ptr) (address_spec spec)
  else if ptr =? 0 then string_text (Some (str "(null)")) (name_spec spec)
  else number_text ptr (address_spec spec).

Lemma name_ranged spec : ranged spec -> ranged (name_spec spec).
Proof. unfold ranged, name_spec, address_width. intros ?. repeat case_match; cbn; lia. Qed.

Lemma address_spec_ok spec : ranged spec -> spec_ok (address_spec spec).
Proof. unfold ranged, address_spec, address_width. intros ?. repeat case_match; constructor; cbn; lia. Qed.

Lemma extension_K fmt : ch fmt 0 = chr "K" -> extension fmt = false.
Proof. unfold extension. intros ->. reflexivity. Qed.

(** The letters that [pointer] looks for are alphanumeric. *)
Lemma not_alnum_pointer fmt : isalnum (ch fmt 0) = false -> extension fmt = false /\ (ch fmt 0 =? chr "K") = false.
Proof.
  intros Hn. assert (Hl : forall c, c ∈ str "FfSsBRrhMmEUVadDIiNK" -> (ch fmt 0 =? c) = false).
  { intros c Hc. apply Z.eqb_neq. intros Heq. rewrite Heq in Hn. member Hc; subst c; vm_compute in Hn; done. }
  assert (He : forall l, (forall c, c ∈ l -> c ∈ str "FfSsBRrhMmEUVadDIiNK") -> existsb (Z.eqb (ch fmt 0)) l = false).
  { induction l as [|c l IH]; intros Hin; [done|]. cbn [existsb]. rewrite Hl, IH; [done|set_solver|apply Hin; left]. }
  split; [|apply Hl, (bool_decide_unpack _); vm_compute; reflexivity]. unfold extension. rewrite !He, Hl; [done|..];
    [apply (bool_decide_unpack _); vm_compute; reflexivity|intros c Hc; member Hc; subst c; apply (bool_decide_unpack _); vm_compute; reflexivity..].
Qed.

Lemma pointer_puts e end_ fmt ptr spec o : (end_ <= length o.1)%nat -> ranged spec -> 0 <= ptr < 2 ^ 64 -> extension fmt = false ->
  pointer e fmt o end_ ptr spec = Ok (puts end_ (pointer_text e (ch fmt 0 =? chr "K") ptr spec) o).
Proof.
  intros He Hr Hp Hx. unfold pointer, pointer_text. destruct o as [mem pos]. cbn [fst] in He.
  replace (16 + (if flag SPECIAL spec then 2 else 0)) with (address_width spec) by (unfold address_width; by case_match).
  fold (name_spec spec). change (field_width (add_flag SMALL spec)) with (field_width spec). fold (address_spec spec).
  pose proof (address_spec_ok spec Hr). pose proof (name_ranged spec Hr). rewrite Hx.
  destruct (ch fmt 0 =? chr "K"); cbn [negb]; rewrite ?andb_false_r, ?andb_true_r.
  - unfold visible. destruct (Z.eqb_spec (kptr_restrict e) 0) as [->|]; cbn [negb andb orb]; [by apply number_puts|].
    destruct (in_irq e); [by apply string_puts|]. destruct (kptr_restrict e =? 1); cbn [andb]; [destruct (may_see e)|];
      apply number_puts; done || lia.
  - destruct (ptr =? 0); [by apply string_puts|by apply number_puts].
Qed.

(** ** Formats

    A format is a sequence of ordinary text and directives, each with the value
    of its argument. *)

Inductive piece :=
  | Plain (t : list Z)
  | Percent (d : directive)
  | Character (d : directive) (c : Z)
  | Text (d : directive) (s : option (list Z))
  | Integer (d : directive) (n : Z)
  | Address (d : directive) (restricted : bool) (p : Z).

Definition print_piece (p : piece) : list Z :=
  match p with
  | Plain t => t
  | Percent d | Character d _ | Text d _ | Integer d _ => print_directive d
  | Address d restricted _ => print_directive d ++ (if restricted then str "K" else [])
  end.

(** The integer types narrower than 64 bits: the signed and the unsigned one. *)
Definition narrow_types : list (list Z * ((Z -> Z) * (Z -> Z))) := [([], (s32, u32)); (str "h", (s16, u16)); (str "hh", (s8, u8))].

Definition integer_arg (d : directive) (n : Z) : varg :=
  match assoc (d_qualifier d) narrow_types with Some _ => VInt n | None => VLong n end.

(** The argument of an integer directive in the type that the directive names,
    as a 64-bit word. *)
Definition integer_value (d : directive) (n : Z) : Z :=
  let '(signed, unsigned) := default (s64, u64) (assoc (d_qualifier d) narrow_types) in
  u64 (if bool_decide (d_conversion d ∈ str "di") then signed n else unsigned n).

Definition piece_args (p : piece) : list varg :=
  match p with
  | Plain _ => []
  | Percent d => star_args d
  | Character d c => star_args d ++ [VInt c]
  | Text d s => star_args d ++ [VStr s]
  | Integer d n => star_args d ++ [integer_arg d n]
  | Address d _ p => star_args d ++ [VPtr p]
  end.

Definition piece_text (e : pointer_env) (p : piece) : list Z :=
  match p with
  | Plain t => t
  | Percent _ => str "%"
  | Character d c => in_field (directive_spec d) [u8 c]
  | Text d s => string_text s (directive_spec d)
  | Integer d n => number_text (integer_value d n) (directive_spec d)
  | Address d restricted p => pointer_text e restricted p (directive_spec d)
  end.

Definition converts (d : directive) (cs : list Z) : Prop :=
  valid_directive d /\ directive_precision d <= 32760 /\ d_conversion d ∈ cs.

Definition valid_piece (p : piece) : Prop :=
  match p with
  | Plain t => t <> [] /\ Forall (fun c => c <> 0 /\ c <> chr "%") t
  | Percent d => converts d (str "%")
  | Character d _ => converts d (str "c")
  | Text d s => converts d (str "s") /\ Z.of_nat (length (default [] s)) < 2 ^ 31
  | Integer d _ => converts d (str "oxXdiu")
  | Address d _ p => converts d (str "p") /\ 0 <= p < 2 ^ 64
  end.

Definition print_format (ps : list piece) : list Z := ps ≫= print_piece.
Definition format_args (ps : list piece) : list varg := ps ≫= piece_args.
Definition format_text (e : pointer_env) (ps : list piece) : list Z := ps ≫= piece_text e.

(** Text is not split, and what follows [%p] or [%pK] is not a letter or a
    digit, which would be taken for a part of the directive. *)
Definition may_follow (p : piece) (ps : list piece) : Prop :=
  match p with
  | Plain _ => match ps with Plain _ :: _ => False | _ => True end
  | Address _ _ _ => isalnum (ch (print_format ps) 0) = false
  | _ => True
  end.

Fixpoint valid_format (ps : list piece) : Prop :=
  match ps with [] => True | p :: ps => valid_piece p /\ may_follow p ps /\ valid_format ps end.

(** *** The specification of a directive *)

Lemma directive_spec_fields d : let s := directive_spec d in
  field_width s = directive_width d /\ precision s = directive_precision d.
Proof.
  unfold directive_spec, conversion_spec. destruct (default _ (assoc (d_qualifier d) qualifiers)) as [[k st] ut].
  by destruct (default _ (assoc (d_conversion d) conversions)) as [t|[add b]].
Qed.

Lemma converts_ranged d cs : converts d cs -> ranged (directive_spec d).
Proof.
  intros ([_ Hw Hp _ _] & Hpr & _). unfold ranged. destruct (directive_spec_fields d) as [-> ->].
  unfold directive_width, directive_precision in *. destruct (d_width d), (d_precision d); lia.
Qed.

(** The type of a conversion that is not of an integer. *)
Lemma directive_type d t : assoc (d_conversion d) conversions = Some (inl t) -> type (directive_spec d) = t.
Proof.
  intros H. unfold directive_spec. rewrite H. unfold conversion_spec. cbn [default from_option id].
  by destruct (default _ (assoc (d_qualifier d) qualifiers)) as [[k st] ut].
Qed.

Lemma s_narrow k n x : 0 < k <= n -> exists q, (x + 2 ^ (n - 1)) mod 2 ^ n - 2 ^ (n - 1) = x + q * 2 ^ k.
Proof.
  intros Hk. exists (- ((x + 2 ^ (n - 1)) / 2 ^ n) * 2 ^ (n - k)).
  assert (Hp : 2 ^ (n - k) * 2 ^ k = 2 ^ n) by (rewrite <- Z.pow_add_r by lia; f_equal; lia).
  pose proof (Z.div_mod (x + 2 ^ (n - 1)) (2 ^ n) ltac:(lia)) as Hd. rewrite <- Z.mul_assoc, Hp. lia.
Qed.

Lemma narrow_again m k n x : 0 < k <= n ->
  (((x + 2 ^ (n - 1)) mod 2 ^ n - 2 ^ (n - 1)) + m) mod 2 ^ k = (x + m) mod 2 ^ k.
Proof.
  intros Hk. destruct (s_narrow k n x Hk) as [q ->]. replace (x + q * 2 ^ k + m) with (x + m + q * 2 ^ k) by lia.
  apply Z.mod_add. lia.
Qed.

Lemma narrow_word n :
  u8 (s32 n) = u64 (u8 n) /\ u64 (s8 (s32 n)) = u64 (s8 n) /\ u16 (s32 n) = u64 (u16 n) /\
  u64 (s16 (s32 n)) = u64 (s16 n) /\ u32 (s32 n) = u64 (u32 n) /\ u64 (s32 n) = u64 (s32 n).
Proof.
  assert (Hu : forall k x, 0 < k <= 32 -> u64 (x mod 2 ^ k) = x mod 2 ^ k).
  { intros k x Hk. apply u64_small. pose proof (Z.mod_pos_bound x (2 ^ k) ltac:(lia)).
    pose proof (Z.pow_le_mono_r 2 k 32 ltac:(lia) ltac:(lia)). lia. }
  pose proof (narrow_again 0 8 32 n ltac:(lia)) as H8. pose proof (narrow_again 0 16 32 n ltac:(lia)) as H16.
  pose proof (narrow_again 0 32 32 n ltac:(lia)) as H32. pose proof (narrow_again (2 ^ 7) 8 32 n ltac:(lia)) as S8.
  pose proof (narrow_again (2 ^ 15) 16 32 n ltac:(lia)) as S16. rewrite !Z.add_0_r in *. change (32 - 1) with 31 in *.
  unfold u8, u16, u32, s8, s16, s32. rewrite !Hu by lia. rewrite H8, H16, H32, S8, S16. done.
Qed.

Lemma s64_u64_word n : u64 (s64 n) = u64 n /\ u64 (u64 n) = u64 n.
Proof.
  split; [|apply u64_small, u64_range]. pose proof (narrow_again 0 64 64 n ltac:(lia)) as H. by rewrite !Z.add_0_r in H.
Qed.

Definition is_integer (t : format_type) : bool :=
  match t with
  | FORMAT_TYPE_NONE | FORMAT_TYPE_WIDTH | FORMAT_TYPE_PRECISION | FORMAT_TYPE_CHAR | FORMAT_TYPE_STR | FORMAT_TYPE_PTR
  | FORMAT_TYPE_PERCENT_CHAR | FORMAT_TYPE_INVALID => false
  | _ => true
  end.

(** An integer argument is taken with the type that the directive names. *)
Lemma integer_arg_ok d n args : valid_directive d -> d_conversion d ∈ str "oxXdiu" ->
  is_integer (type (directive_spec d)) = true /\
  va_num (type (directive_spec d)) (integer_arg d n :: args) = Ok (integer_value d n, args) /\
  (base (directive_spec d) = 8 \/ base (directive_spec d) = 10 \/ base (directive_spec d) = 16).
Proof.
  intros [_ _ _ Hq _] Hc. unfold directive_spec, integer_arg, integer_value.
  destruct (s64_u64_word n) as [Hs Hu]. pose proof (narrow_word n) as (H1 & H2 & H3 & H4 & H5 & H6).
  member Hq; rewrite Hq; member Hc; rewrite Hc; (split; [reflexivity|split; [|cbn; auto]]);
    cbv -[u64 s64 u32 s32 u16 s16 u8 s8]; congruence.
Qed.

Lemma integer_value_range d n : 0 <= integer_value d n < 2 ^ 64.
Proof. unfold integer_value. destruct (default _ _). apply u64_range. Qed.

Lemma ranged_spec_ok spec : ranged spec -> base spec = 8 \/ base spec = 10 \/ base spec = 16 -> spec_ok spec.
Proof. intros [Hw Hp] Hb. by constructor. Qed.

(** *** Rounds of the loop *)

(** What a round does with a directive that has been read. *)
Definition convert (e : pointer_env) (end_ : nat) (fmt : list Z) (spec : printf_spec) (args : list varg) (o : out) : res fmt_state :=
  match type spec with
  | FORMAT_TYPE_NONE | FORMAT_TYPE_WIDTH | FORMAT_TYPE_PRECISION => Fault
  | FORMAT_TYPE_CHAR => '(c, args) ← va_int args; o ← char_ o end_ c spec; Ok (fmt, spec, args, o)
  | FORMAT_TYPE_STR => '(s, args) ← va_str args; o ← string_ o end_ s spec; Ok (fmt, spec, args, o)
  | FORMAT_TYPE_PTR => '(p, args) ← va_ptr args; o ← pointer e (drop 1 fmt) o end_ p spec; Ok (skip_alnum fmt, spec, args, o)
  | FORMAT_TYPE_PERCENT_CHAR | FORMAT_TYPE_INVALID => o ← emit end_ (chr "%") o; Ok (fmt, spec, args, o)
  | _ => '(num, args) ← va_num (type spec) args; o ← number o end_ num spec; Ok (fmt, spec, args, o)
  end.

Section rounds.
Context (e : pointer_env) (end_ : nat).
Abbreviation step := (vsnprintf_step e end_).

Lemma step_convert fmt spec f s args o st :
  ch fmt 0 <> 0 -> format_decode fmt spec = (f, s) -> convert e end_ f s args o = Ok st ->
  step (fmt, spec, args, o) = Ok (inl st).
Proof.
  intros H0 Hd Hc. unfold vsnprintf_step. rewrite (proj2 (Z.eqb_neq _ _) H0), Hd. unfold convert in Hc.
  destruct (type s); try done;
    repeat match goal with
    | H : (x ← ?r; _) = Ok _ |- _ => destruct r as [[]| |]; rewrite ?res_bind_ok in *; try done
    end; by injection Hc as <-.
Qed.

(** The calls of [format_decode] for one directive, and its conversion. *)
Definition rounds (n : nat) (fmt : list Z) (spec : printf_spec) (args : list varg) (f : list Z) (s : printf_spec) (a : list varg) : Prop :=
  exists k, (k <= n)%nat /\ forall fuel o st, convert e end_ f s a o = Ok st ->
    loop (k + fuel) step (fmt, spec, args, o) = loop fuel step st.

Lemma calls_loop n : forall fmt spec args f s a,
  decode_calls n fmt spec args = Ok (f, s, a) -> rounds n fmt spec args f s a.
Proof.
  induction n as [|n IH]; intros fmt spec args f s a Hd; [done|]. cbn [decode_calls] in Hd.
  destruct (Z.eqb_spec (ch fmt 0) 0) as [|H0]; [done|]. destruct (format_decode fmt spec) as [f1 s1] eqn:Hf.
  assert (Hstar : forall s2 a1, (forall o, step (fmt, spec, args, o) = Ok (inl (f1, s2, a1, o))) ->
    decode_calls n f1 s2 a1 = Ok (f, s, a) -> rounds (S n) fmt spec args f s a).
  { intros s2 a1 Hs Hn. destruct (IH _ _ _ _ _ _ Hn) as (k & Hk & Hl). exists (S k). split; [lia|].
    intros fuel o st Hc. cbn [loop Nat.add]. rewrite Hs. by apply Hl. }
  assert (Hsettled : Ok (f1, s1, args) = Ok (f, s, a) -> rounds (S n) fmt spec args f s a).
  { intros [= -> -> ->]. exists 1%nat. split; [lia|]. intros fuel o st Hc. cbn [loop Nat.add].
    by rewrite (step_convert fmt spec f s a o st H0 Hf Hc). }
  unfold continue in Hd. destruct (type s1) eqn:Ht; try by apply Hsettled.
  all: destruct (va_int args) as [[i a1]| |] eqn:Hv; try done; rewrite res_bind_ok in Hd;
    apply (fun H => Hstar _ a1 H Hd); intros o; unfold vsnprintf_step;
    by rewrite (proj2 (Z.eqb_neq _ _) H0), Hf, Ht, Hv, res_bind_ok.
Qed.

(** *** A piece of the format *)

Lemma skip_literal_app t rest : Forall (fun c => c <> 0 /\ c <> chr "%") t -> skip_literal (t ++ rest) = skip_literal rest.
Proof.
  induction 1 as [|c t [H0 Hp] _ IH]; [done|]. cbn [app skip_literal].
  by rewrite !(proj2 (Z.eqb_neq _ _)) by done.
Qed.

(** After a piece of text comes a directive or the end. *)
Lemma skip_literal_next ps : may_follow (Plain []) ps -> valid_format ps -> skip_literal (print_format ps) = print_format ps.
Proof.
  intros Hf Hv. destruct ps as [|[t|d|d c|d s|d n|d r p] ps]; [done|done|reflexivity..|].
  destruct r; reflexivity.
Qed.

Lemma plain_loop t ps spec args o : valid_piece (Plain t) -> may_follow (Plain t) ps -> valid_format ps ->
  pending (type spec) = 0%nat -> (end_ <= length o.1)%nat -> exists spec', pending (type spec') = 0%nat /\
  forall fuel, loop (S fuel) step (t ++ print_format ps, spec, args, o) = loop fuel step (print_format ps, spec', args, puts end_ t o).
Proof.
  intros [Hne Ht] Hf Hv Hs He. exists (with_type FORMAT_TYPE_NONE spec). split; [done|]. intros fuel. cbn [loop]. unfold vsnprintf_step.
  assert (H0 : ch (t ++ print_format ps) 0 <> 0) by (destruct t as [|c t]; [done|apply Forall_cons in Ht as [[? _] _]; done]).
  rewrite (proj2 (Z.eqb_neq _ _) H0).
  assert (Hd : format_decode (t ++ print_format ps) spec = (print_format ps, with_type FORMAT_TYPE_NONE spec)).
  { assert (format_decode (t ++ print_format ps) spec = decode_start (t ++ print_format ps) spec) as ->
      by (unfold format_decode; by destruct (type spec)).
    unfold decode_start. rewrite skip_literal_app, skip_literal_next by done.
    destruct (Nat.eqb_spec (length (print_format ps)) (length (t ++ print_format ps))) as [Hl|]; [|done].
    rewrite length_app in Hl. destruct t; [done|cbn in Hl; lia]. }
  rewrite Hd. cbn [type with_type]. rewrite length_app.
  replace (length t + length (print_format ps) - length (print_format ps))%nat with (length t) by lia.
  rewrite take_app_length, literal_puts, res_bind_ok by done. done.
Qed.

(** [k] rounds print the text [t] and leave [rest] to be read. *)
Definition prints (k : nat) (fmt : list Z) (spec : printf_spec) (args : list varg) (t rest : list Z) (args' : list varg) (o : out) : Prop :=
  exists spec', pending (type spec') = 0%nat /\
    forall fuel, loop (k + fuel) step (fmt, spec, args, o) = loop fuel step (rest, spec', args', puts end_ t o).

Lemma directive_prints d cs rest rest' spec a args o t :
  converts d cs -> pending (type (directive_spec d)) = 0%nat -> pending (type spec) = 0%nat ->
  convert e end_ (left_of (d_conversion d) rest') (directive_spec d) (a ++ args) o = Ok (rest, directive_spec d, args, puts end_ t o) ->
  exists k, (k <= 2 * length (print_directive d))%nat /\
    prints k (print_directive d ++ rest') spec ((star_args d ++ a) ++ args) t rest args o.
Proof.
  intros (Hd & _ & _) Hp Hs Hc.
  destruct (calls_loop 3 _ _ _ _ _ _ (format_decode_directive d rest' spec (a ++ args) Hd Hs)) as (k & Hk & Hl).
  exists k. split.
  - unfold print_directive. cbn [length]. rewrite !length_app. cbn [length]. lia.
  - exists (directive_spec d). split; [done|]. intros fuel. rewrite <- app_assoc. by apply Hl.
Qed.

Lemma pending_integer t : is_integer t = true -> pending t = 0%nat.
Proof. by destruct t. Qed.

Lemma convert_integer f s args num args' o t :
  is_integer (type s) = true -> va_num (type s) args = Ok (num, args') -> number o end_ num s = Ok (puts end_ t o) ->
  convert e end_ f s args o = Ok (f, s, args', puts end_ t o).
Proof. intros Hi Hv Hn. unfold convert. rewrite Hv, !res_bind_ok, Hn. by destruct (type s). Qed.

Lemma skip_alnum_none l : isalnum (ch l 0) = false -> skip_alnum l = l.
Proof. destruct l as [|c l]; [done|]. cbn. unfold ch. cbn. by intros ->. Qed.

Lemma address_prints d (r : bool) p rest spec args o :
  valid_piece (Address d r p) -> isalnum (ch rest 0) = false -> pending (type spec) = 0%nat -> (end_ <= length o.1)%nat ->
  exists k, (k <= 2 * length (print_directive d))%nat /\
    prints k (print_directive d ++ (if r then str "K" else []) ++ rest) spec ((star_args d ++ [VPtr p]) ++ args)
      (pointer_text e r p (directive_spec d)) rest args o.
Proof.
  intros [Hc Hp] Hn Hs He. pose proof (converts_ranged _ _ Hc) as Hr. pose proof Hc as (_ & _ & Hcv).
  apply list_elem_of_singleton in Hcv. pose proof (directive_type d FORMAT_TYPE_PTR ltac:(by rewrite Hcv)) as Ht.
  apply (directive_prints _ _ rest _ _ [VPtr p] _ _ _ Hc); [by rewrite Ht|done|]. unfold convert. rewrite Ht, Hcv.
  set (rest' := (if r then str "K" else []) ++ rest). change (left_of (chr "p") rest') with (chr "p" :: rest').
  rewrite drop_cons. cbn [app va_ptr]. rewrite res_bind_ok, u64_small by done.
  assert (Hx : extension rest' = false /\ (ch rest' 0 =? chr "K") = r).
  { destruct r; [split; [by apply extension_K|done]|by apply not_alnum_pointer]. }
  destruct Hx as [Hx HK]. rewrite pointer_puts, res_bind_ok, HK by done. do 5 f_equal.
  transitivity (skip_alnum rest); [by destruct r|by apply skip_alnum_none].
Qed.

(** The rounds for a piece print its text. *)
Lemma piece_prints p ps spec args o :
  valid_piece p -> may_follow p ps -> valid_format ps -> pending (type spec) = 0%nat -> (end_ <= length o.1)%nat ->
  exists k, (k <= 2 * length (print_piece p))%nat /\
    prints k (print_piece p ++ print_format ps) spec (piece_args p ++ args) (piece_text e p) (print_format ps) args o.
Proof.
  intros Hv Hf Hps Hs He. destruct p as [t|d|d c|d s|d n|d r p]; cbn [print_piece piece_args piece_text].
  - exists 1%nat. split; [destruct t; [by destruct Hv|cbn; lia]|].
    destruct (plain_loop t ps spec args o Hv Hf Hps Hs He) as (s' & Hs' & Hl). exists s'. split; [done|]. exact Hl.
  - pose proof Hv as (_ & _ & Hcv). apply list_elem_of_singleton in Hcv.
    pose proof (directive_type d FORMAT_TYPE_PERCENT_CHAR ltac:(by rewrite Hcv)) as Ht.
    destruct (directive_prints d _ (print_format ps) (print_format ps) spec [] args o (str "%") Hv) as (k & Hk & Hl);
      [by rewrite Ht|done| |exists k; split; [done|by rewrite app_nil_r in Hl]].
    unfold convert. rewrite Ht, Hcv, emit_ok, res_bind_ok by done. done.
  - pose proof Hv as (_ & _ & Hcv). apply list_elem_of_singleton in Hcv.
    pose proof (directive_type d FORMAT_TYPE_CHAR ltac:(by rewrite Hcv)) as Ht.
    apply (directive_prints _ _ _ _ _ _ _ _ _ Hv); [by rewrite Ht|done|]. unfold convert. rewrite Ht, Hcv. cbn [app va_int].
    rewrite res_bind_ok, char_puts, res_bind_ok by (done || by eapply converts_ranged).
    destruct (narrow_word c) as [-> _]. by rewrite (u64_small (u8 c)) by (unfold u8; pose proof (Z.mod_pos_bound c (2 ^ 8) ltac:(lia)); lia).
  - destruct Hv as [Hv Hl]. pose proof Hv as (_ & _ & Hcv). apply list_elem_of_singleton in Hcv.
    pose proof (directive_type d FORMAT_TYPE_STR ltac:(by rewrite Hcv)) as Ht.
    apply (directive_prints _ _ _ _ _ _ _ _ _ Hv); [by rewrite Ht|done|]. unfold convert. rewrite Ht, Hcv. cbn [app va_str].
    rewrite res_bind_ok, string_puts, res_bind_ok by (done || by eapply converts_ranged || by destruct s). done.
  - pose proof Hv as (Hd & _ & Hcv). destruct (integer_arg_ok d n args Hd Hcv) as (Hi & Hva & Hb).
    apply (directive_prints _ _ _ _ _ _ _ _ _ Hv); [by apply pending_integer|done|].
    replace (left_of (d_conversion d) (print_format ps)) with (print_format ps) by (member Hcv; by rewrite Hcv).
    apply (convert_integer _ _ _ (integer_value d n)); [done|exact Hva|]. destruct o as [mem pos]. apply number_puts; [|apply integer_value_range|done].
    apply ranged_spec_ok; [by eapply converts_ranged|done].
  - rewrite <- app_assoc, length_app. destruct (address_prints d r p (print_format ps) spec args o Hv Hf Hs He) as (k & Hk & Hl).
    exists k. split; [lia|done].
Qed.

Lemma format_loop ps : forall fuel spec o,
  valid_format ps -> pending (type spec) = 0%nat -> (end_ <= length o.1)%nat -> (2 * length (print_format ps) < fuel)%nat ->
  loop fuel step (print_format ps, spec, format_args ps, o) = Ok (puts end_ (format_text e ps) o).
Proof.
  induction ps as [|p ps IH]; intros fuel spec o Hv Hs He Hfuel.
  - destruct fuel; [lia|]. done.
  - destruct Hv as (Hp & Hf & Hps). unfold print_format, format_args, format_text in *. rewrite !bind_cons in *.
    destruct (piece_prints p ps spec (format_args ps) o Hp Hf Hps Hs He) as (k & Hk & spec' & Hs' & Hl).
    rewrite length_app in Hfuel. replace fuel with (k + (fuel - k))%nat by lia.
    unfold print_format, format_args in Hl. rewrite Hl, IH by (done || rewrite ?puts_length; lia || done). by rewrite puts_app.
Qed.
End rounds.

(** ** [vsnprintf] *)


(** ** Any format at all *)

(** Nothing at or after [end] changes. *)
Definition bounded (end_ : nat) (o o' : out) : Prop :=
  length o'.1 = length o.1 /\ forall k, (end_ <= k)%nat -> o'.1 !! k = o.1 !! k.

(** The outcome stays within the bounds, if there is one; it is not running on. *)
Definition safe (end_ : nat) (o : out) (r : res out) : Prop :=
  match r with Ok o' => bounded end_ o o' | Fault => True | NoFuel => False end.

Section safe.
Context (end_ : nat).

Lemma bounded_refl o : bounded end_ o o.
Proof. done. Qed.

Lemma bounded_trans o1 o2 o3 : bounded end_ o1 o2 -> bounded end_ o2 o3 -> bounded end_ o1 o3.
Proof. intros [H1 H2] [K1 K2]. split; [congruence|]. intros k Hk. by rewrite K2, H2. Qed.

Lemma safe_bind o r f : safe end_ o r -> (forall o', safe end_ o' (f o')) -> safe end_ o (o ← r; f o).
Proof.
  unfold safe. destruct r as [o1| |]; [|done..]. intros Hb Hf. rewrite res_bind_ok. specialize (Hf o1).
  destruct (f o1); [by eapply bounded_trans|done..].
Qed.

Lemma safe_pair_bind {A} o (r : res (A * out)) f :
  safe end_ o ('(_, o) ← r; Ok o) -> (forall w o', safe end_ o' (f w o')) -> safe end_ o ('(w, o) ← r; f w o).
Proof.
  unfold safe. destruct r as [[w o1]| |]; [|done..]. rewrite !res_bind_ok. intros Hb Hf. specialize (Hf w o1).
  destruct (f w o1); [by eapply bounded_trans|done..].
Qed.

Lemma emit_safe c o : safe end_ o (emit end_ c o).
Proof.
  destruct o as [mem pos]. unfold emit, aset. destruct (Nat.ltb_spec pos end_); [|done]. case_match; [|done]. cbn.
  split; [apply length_insert|]. intros k Hk. cbn. apply list_lookup_insert_ne. lia.
Qed.

Lemma emit_n_safe n c o : safe end_ o (emit_n end_ n c o).
Proof. revert o. induction n as [|n IH]; intros o; [done|]. cbn [emit_n]. apply safe_bind; [apply emit_safe|done]. Qed.

Lemma emit_list_safe l o : safe end_ o (emit_list end_ l o).
Proof. revert o. induction l as [|c l IH]; intros o; [done|]. cbn [emit_list]. apply safe_bind; [apply emit_safe|done]. Qed.

Lemma padded_safe {A} n c o (w : A) : safe end_ o ('(_, o) ← (o ← emit_n end_ n c o; Ok (w, o)); Ok o).
Proof. pose proof (emit_n_safe n c o) as H. by destruct (emit_n end_ n c o). Qed.

Lemma memcpy_safe mem pos t : (pos + length t <= end_)%nat ->
  match memcpy mem pos t with
  | Ok mem' => length mem' = length mem /\ forall k, (end_ <= k)%nat -> mem' !! k = mem !! k
  | Fault => True
  | NoFuel => False
  end.
Proof.
  revert mem pos. induction t as [|c t IH]; intros mem pos Hl; [done|]. cbn [memcpy length] in *. unfold aset.
  destruct (decide _); [|done]. rewrite res_bind_ok. specialize (IH (<[pos:=c]> mem) (S pos) ltac:(lia)).
  destruct (memcpy _ _ _) as [mem'| |]; [|done..]. destruct IH as [H1 H2]. rewrite length_insert in H1.
  split; [done|]. intros k Hk. rewrite H2 by done. apply list_lookup_insert_ne. lia.
Qed.

Lemma literal_safe t o : safe end_ o (literal o end_ t).
Proof.
  destruct o as [mem pos]. unfold literal. destruct (Nat.ltb_spec pos end_); [|done].
  set (copy := if (end_ - pos <? length t)%nat then _ else _).
  assert (Hc : (pos + length (take copy t) <= end_)%nat).
  { rewrite length_take. unfold copy. destruct (Nat.ltb_spec (end_ - pos) (length t)); lia. }
  pose proof (memcpy_safe mem pos _ Hc) as Hm. by destruct (memcpy _ _ _).
Qed.

Lemma padded_if_safe {A} (b : bool) (r : res (A * out)) w o :
  safe end_ o ('(_, o) ← r; Ok o) -> safe end_ o ('(_, o) ← (if b then r else Ok (w, o)); Ok o).
Proof. by destruct b. Qed.

Lemma emit_if_safe (b : bool) c o : safe end_ o (if b then emit end_ c o else Ok o).
Proof. destruct b; [apply emit_safe|done]. Qed.

Lemma string_safe s spec o : safe end_ o (string_ o end_ s spec).
Proof.
  unfold string_. apply safe_pair_bind; [apply padded_if_safe, padded_safe|intros w o1].
  apply safe_bind; [apply emit_list_safe|intros o2]. apply padded_safe.
Qed.

Lemma char_safe c spec o : safe end_ o (char_ o end_ c spec).
Proof.
  unfold char_. apply safe_pair_bind; [apply padded_if_safe, padded_safe|intros w o1].
  apply safe_bind; [apply emit_safe|intros o2]. apply padded_safe.
Qed.

Lemma number_safe num spec o : base spec = 8 \/ base spec = 10 \/ base spec = 16 -> 0 <= num < 2 ^ 64 ->
  safe end_ o (number o end_ num spec).
Proof.
  intros Hb Hn. unfold number. cbv zeta.
  set (r := if flag SIGN spec then _ else _). assert (Hr : 0 <= r.1.2 < 2 ^ 64).
  { unfold r. repeat case_match; cbn; try done; apply u64_range. }
  destruct r as [[sign num'] w]. cbn [fst snd] in Hr.
  destruct (number_digits num' (with_precision 0 (with_width 0 spec))) as (tmp & Htmp & _); [constructor; cbn; done || lia|done|].
  cbn [base with_precision with_width flags] in Htmp. cbv zeta in Htmp. rewrite Htmp, res_bind_ok.
  apply safe_pair_bind; [apply padded_if_safe, padded_safe|intros w1 o1].
  do 3 (apply safe_bind; [apply emit_if_safe|intros ?]).
  apply safe_pair_bind; [apply padded_if_safe, padded_safe|intros w2 o5].
  apply safe_bind; [apply emit_n_safe|intros o6]. apply safe_bind; [apply emit_list_safe|intros o7]. apply padded_safe.
Qed.
End safe.

(** The base of an integer conversion. *)
Definition base_ok (spec : printf_spec) : Prop :=
  is_integer (type spec) = true -> base spec = 8 \/ base spec = 10 \/ base spec = 16.

Lemma decode_conversion_base fmt spec : base_ok (decode_conversion fmt spec).2.
Proof. unfold decode_conversion, base_ok. repeat (case_match; [cbn; auto|]). cbn. done. Qed.

Lemma decode_qualifier_base fmt spec : base_ok (decode_qualifier fmt spec).2.
Proof. unfold decode_qualifier. repeat case_match; apply decode_conversion_base. Qed.

Lemma decode_precision_base fmt spec : base_ok (decode_precision fmt spec).2.
Proof. unfold decode_precision. repeat case_match; try apply decode_qualifier_base. done. Qed.

Lemma decode_start_base fmt spec : base_ok (decode_start fmt spec).2.
Proof.
  unfold decode_start. destruct (_ || _); [done|]. destruct (decode_flags _ _) as [fmt' f]. destruct (isdigit _).
  - destruct (skip_atoi _). apply decode_precision_base.
  - destruct (_ =? _); [done|apply decode_precision_base].
Qed.

Lemma format_decode_base fmt spec : base_ok (format_decode fmt spec).2.
Proof.
  unfold format_decode.
  destruct (type spec); try apply decode_start_base; [apply decode_precision_base|apply decode_qualifier_base].
Qed.

Lemma va_num_range t args n args' : va_num t args = Ok (n, args') -> 0 <= n < 2 ^ 64.
Proof.
  unfold va_num, va_int, va_long. intros H. destruct args as [|[] args]; destruct t; cbn in H; try done; injection H as <- _;
    first [apply u64_range | unfold u8, u16, u32; match goal with |- context [?a mod ?b] => pose proof (Z.mod_pos_bound a b ltac:(lia)) end; lia].
Qed.

Lemma va_ptr_range args p args' : va_ptr args = Ok (p, args') -> 0 <= p < 2 ^ 64.
Proof. unfold va_ptr. destruct args as [|[] args]; try done. intros [= <- _]. apply u64_range. Qed.

(** What is assumed of the extensions of [%p]: they return, and keep to the buffer. *)
Definition ext_safe (e : pointer_env) : Prop :=
  forall fmt ptr spec end_ o, safe end_ o (pointer_ext e fmt ptr spec end_ o).

Lemma pointer_safe e end_ fmt ptr spec o : ext_safe e -> 0 <= ptr < 2 ^ 64 -> safe end_ o (pointer e fmt o end_ ptr spec).
Proof.
  intros Hx Hp. unfold pointer. assert (Ha : forall p s, 0 <= p < 2 ^ 64 -> safe end_ o (number o end_ p (with_base 16 s))).
  { intros p s Hp'. apply number_safe; [cbn; auto|done]. }
  repeat case_match; try apply string_safe; try (by apply Hx); by apply Ha.
Qed.

(** One round keeps to the buffer, and leaves less to be read. *)
Definition round_safe (end_ : nat) (st : fmt_state) (r : res (fmt_state + out)) : Prop :=
  match r with
  | Ok (inl st') => bounded end_ st.2 st'.2 /\ (progress st'.1.1 < progress st.1.1)%nat
  | Ok (inr o) => o = st.2
  | Fault => True
  | NoFuel => False
  end.

Lemma round_output end_ st fmt spec args r : (progress (fmt, spec) < progress st.1.1)%nat -> safe end_ st.2 r ->
  round_safe end_ st (o ← r; Ok (inl (fmt, spec, args, o))).
Proof. intros Hp Hr. by destruct r. Qed.

Lemma step_safe e end_ st : ext_safe e -> round_safe end_ st (vsnprintf_step e end_ st).
Proof.
  intros Hx. destruct st as [[[fmt spec] args] o]. unfold vsnprintf_step.
  destruct (Z.eqb_spec (ch fmt 0) 0) as [|H0]; [done|]. pose proof (format_decode_progress fmt spec H0) as Hp.
  pose proof (format_decode_base fmt spec) as Hb. destruct (format_decode fmt spec) as [f s]. cbn [snd] in Hb. unfold base_ok in Hb.
  assert (Hint : forall n a, va_num (type s) args = Ok (n, a) -> is_integer (type s) = true -> safe end_ o (number o end_ n s)).
  { intros n a Hn Hi. apply number_safe; [by apply Hb|by eapply va_num_range]. }
  destruct (type s) eqn:Ht.
  1: apply round_output; [done|apply literal_safe].
  1,2: destruct (va_int args) as [[i a]| |] eqn:Hv; [|done|by destruct args as [|[]]];
    split; [apply bounded_refl|unfold progress in *; cbn [fst snd type with_width with_precision] in *; by rewrite Ht in *].
  1: destruct (va_int args) as [[c a]| |] eqn:Hv; [|done|by destruct args as [|[]]]; apply round_output; [done|apply char_safe].
  1: destruct (va_str args) as [[c a]| |] eqn:Hv; [|done|by destruct args as [|[]]]; apply round_output; [done|apply string_safe].
  1: { destruct (va_ptr args) as [[p a]| |] eqn:Hv; [|done|by destruct args as [|[]]]. apply round_output.
    - pose proof (skip_alnum_length f). unfold progress in *. cbn [fst snd] in *. lia.
    - apply pointer_safe; [done|by eapply va_ptr_range]. }
  1,2: apply round_output; [done|apply emit_safe].
  all: destruct (va_num _ args) as [[c a]| |] eqn:Hv; [|done|by destruct args as [|[]]]; apply round_output; [done|by eapply Hint].
Qed.

Lemma loop_safe e end_ : ext_safe e -> forall fuel st, (progress st.1.1 < fuel)%nat ->
  safe end_ st.2 (loop fuel (vsnprintf_step e end_) st).
Proof.
  intros Hx. induction fuel as [|fuel IH]; intros st Hf; [lia|]. cbn [loop]. pose proof (step_safe e end_ st Hx) as Hs.
  destruct (vsnprintf_step e end_ st) as [[st'|o]| |]; cbn [round_safe] in Hs; [|by subst|done|done].
  destruct Hs as [Hb Hp]. specialize (IH st' ltac:(lia)). unfold safe in *. destruct (loop _ _ _); [by eapply bounded_trans|done..].
Qed.

(** Whatever the format and the arguments, [vsnprintf] comes to an end, and
    writes nothing beyond [size] bytes.  An argument that is missing or not of
    the type that the format names is a fault of the model. *)
Theorem vsnprintf_safe e addr buf size fmt args : ext_safe e -> 0 <= addr < 2 ^ 64 -> 0 <= size < 2 ^ 64 ->
  match vsnprintf e addr buf size fmt args with
  | Ok (_, buf') => length buf' = length buf /\ forall k, size <= Z.of_nat k -> buf' !! k = buf !! k
  | Fault => True
  | NoFuel => False
  end.
Proof.
  intros Hx Ha Hs. unfold vsnprintf. destruct (s32 size <? 0); [done|].
  set (size' := if addr ⊕ size <? addr then _ else _).
  assert (Hs' : 0 <= size' <= size).
  { unfold size'. destruct (Z.ltb_spec (addr ⊕ size) addr) as [Hlt|]; [|lia]. unfold sub64. change (u64 (-1)) with (2 ^ 64 - 1).
    rewrite u64_small by lia. unfold add64 in Hlt. destruct (decide (addr + size < 2 ^ 64)); [rewrite u64_small in Hlt by lia|]; lia. }
  pose proof (loop_safe e (Z.to_nat size') Hx (2 * length fmt + 2) (fmt, spec0, args, (buf, 0%nat))) as Hl.
  specialize (Hl ltac:(unfold progress; cbn; lia)). destruct (loop _ _ _) as [[mem pos]| |]; [|done..]. destruct Hl as [Hlen Hk].
  cbn [fst snd] in Hlen, Hk. rewrite res_bind_ok. destruct (Z.gtb_spec size' 0); cbn [negb].
  - unfold aset. destruct (decide _); [|done]. rewrite !res_bind_ok. split; [by rewrite length_insert|].
    intros k Hsk. rewrite list_lookup_insert_ne; [apply Hk; lia|]. destruct (Nat.ltb_spec pos (Z.to_nat size')); lia.
  - rewrite res_bind_ok. split; [done|]. intros k Hsk. apply Hk. lia.
Qed.

(** * Examples: concrete formats *)

(** An extension that prints a name. *)
Definition name_env : pointer_env :=
  mkPointerEnv (fun _ _ _ end_ o => emit_list end_ (str "start_kernel") o) 1 false false.

Lemma name_env_safe : ext_safe name_env.
Proof. intros fmt ptr spec end_ o. apply emit_list_safe. Qed.

Definition buffer : list Z := replicate 32 (chr ".").
Definition dots (n : nat) : list Z := replicate n (chr ".").

(** [snprintf(buf, 16, "[%4d|%-4s|%*x] %p", -42, "ab", 6, 255, NULL)] *)
Definition ex_pieces : list piece :=
  [ Plain (str "["); Integer (mkDirective [] (Number 4) Absent [] (chr "d")) (-42); Plain (str "|");
    Text (mkDirective (str "-") (Number 4) Absent [] (chr "s")) (Some (str "ab")); Plain (str "|");
    Integer (mkDirective [] (Star 6) Absent [] (chr "x")) 255; Plain (str "] ");
    Address (mkDirective [] (Number 8) Absent [] (chr "p")) false 0 ].
Definition ex_fmt : list Z := str "[%4d|%-4s|%*x] %8p".
Definition ex_args : list varg := [VInt (-42); VStr (Some (str "ab")); VInt 6; VInt 255; VPtr 0].
Definition ex_text : list Z := str "[ -42|ab  |    ff]   (null)".

Example ex_pieces_are : print_format ex_pieces = ex_fmt /\ format_args ex_pieces = ex_args /\ format_text name_env ex_pieces = ex_text.
Proof. split_and!; vm_compute; reflexivity. Qed.

Lemma ex_pieces_valid : valid_format ex_pieces.
Proof.
  cbn -[str chr]. unfold converts. cbn -[str chr].
  split_and!; try done; try (constructor; [..|constructor]); try (apply (bool_decide_unpack _); vm_compute; reflexivity); cbn; try lia.
Qed.


(** What the caller sees in the buffer. *)
Definition shown (r : res (Z * list Z)) : option (Z * list Z) :=
  match r with Ok (n, mem) => Some (n, c_string mem) | _ => None end.

Example vsnprintf_fits : shown (vsnprintf name_env 4096 buffer 32 ex_fmt ex_args) = Some (27, ex_text).
Proof. vm_compute. reflexivity. Qed.

(** Without a buffer only the length is computed. *)
Example vsnprintf_size_0 : vsnprintf name_env 4096 [] 0 ex_fmt ex_args = Ok (27, []).
Proof. vm_compute. reflexivity. Qed.

(** A size above [INT_MAX] is refused. *)
Example vsnprintf_size_negative : vsnprintf name_env 4096 buffer (2 ^ 31) ex_fmt ex_args = Ok (0, buffer).
Proof. vm_compute. reflexivity. Qed.

Example vsnprintf_pointers :
  shown (vsnprintf name_env 4096 buffer 32 (str "%p %pK") [VPtr 0; VPtr 0xffff0000]) = Some (33, str "          (null) 00000000000000").
Proof. vm_compute. reflexivity. Qed.

(** A precision of which only the point is given counts as no precision. *)
Example precision_point_only :
  shown (vsnprintf name_env 4096 buffer 32 (str "%.s|%.0s|%.d") [VStr (Some (str "ab")); VStr (Some (str "ab")); VInt 0]) = Some (5, str "ab||0").
Proof. vm_compute. reflexivity. Qed.

(** A width of 32768 becomes negative in the [s16] member, and the text is left
    justified in a field of 32767 characters. *)
Example width_wraps :
  (fun r => (r.1, take 4 r.2)) <$> shown (vsnprintf name_env 4096 buffer 32 (str "%32768s") [VStr (Some (str "ab"))]) = Some (32767, str "ab  ").
Proof. vm_compute. reflexivity. Qed.

(** [%.0d] of 0 prints a digit, where C99 asks for none. *)
Example precision_zero_of_zero : shown (vsnprintf name_env 4096 buffer 32 (str "[%.0d]") [VInt 0]) = Some (3, str "[0]").
Proof. vm_compute. reflexivity. Qed.
