(* ===== verification/State.v ===== *)
(** Actions on a state, and what they establish.

    C code that works on linked objects is a function from a state to a result
    and a new state, or to a fault. *)
From stdpp Require Import gmap.
From S2P Require Import Prelude.

Definition ST (S A : Type) : Type := S -> res (A * S).

#[global] Instance st_ret S : MRet (ST S) := fun A a st => Ok (a, st).
#[global] Instance st_bind S : MBind (ST S) := fun A B f m st =>
  match m st with Ok (a, st') => f a st' | Fault => Fault | NoFuel => NoFuel end.

(** [BUG_ON]. *)
Definition st_bug_on {S} (b : bool) : ST S unit := fun st => bug_on b (Ok (tt, st)).

(** [while (true)] with local variables. *)
Definition st_loop {S X R} (fuel : nat) (body : X -> ST S (X + R)) (x : X) : ST S R := fun st =>
  loop fuel (fun '(x, st) =>
    match body x st with
    | Ok (inl x', st') => Ok (inl (x', st'))
    | Ok (inr r, st') => Ok (inr (r, st'))
    | Fault => Fault
    | NoFuel => NoFuel
    end) (x, st).

(** ** Weakest preconditions *)

(** The action returns, with a result and a state that satisfy [Q]. *)
Definition wp {S A} (m : ST S A) (Q : A -> S -> Prop) (st : S) : Prop :=
  exists a st', m st = Ok (a, st') /\ Q a st'.

Section wp.
Context {S : Type}.

Lemma wp_ret {A} (a : A) Q (st : S) : Q a st -> wp (mret a) Q st.
Proof. intros HQ. by exists a, st. Qed.

Lemma wp_ret_inv {A} (a : A) Q (st : S) : wp (mret a) Q st -> Q a st.
Proof. intros (b & st' & [= <- <-] & HQ). done. Qed.

Lemma wp_bind {A B} (m : ST S A) (f : A -> ST S B) Q st : wp m (fun a st' => wp (f a) Q st') st -> wp (m ≫= f) Q st.
Proof.
  intros (a & st' & Hm & b & st'' & Hf & HQ). exists b, st''. split; [|done].
  unfold mbind, st_bind. by rewrite Hm.
Qed.

Lemma wp_bind_inv {A B} (m : ST S A) (f : A -> ST S B) Q st : wp (m ≫= f) Q st -> wp m (fun a st' => wp (f a) Q st') st.
Proof.
  intros (b & st'' & Hm & HQ). unfold mbind, st_bind in Hm. destruct (m st) as [[a st']| |] eqn:Hma; try done.
  exists a, st'. split; [done|]. by exists b, st''.
Qed.

Lemma wp_mono {A} (m : ST S A) (Q Q' : A -> S -> Prop) st : wp m Q st -> (forall a st', Q a st' -> Q' a st') -> wp m Q' st.
Proof. intros (a & st' & Hm & HQ) Himp. exists a, st'. auto. Qed.

(** A loop whose invariant comes with a number that gets smaller. *)
Lemma st_loop_ok {X R} (I : nat -> X -> S -> Prop) (Q : R -> S -> Prop) (body : X -> ST S (X + R)) :
  (forall n x st, I n x st ->
     wp (body x) (fun o st' => match o with inl x' => exists n', (n' < n)%nat /\ I n' x' st' | inr r => Q r st' end) st) ->
  forall fuel n x st, (n < fuel)%nat -> I n x st -> wp (st_loop fuel body x) Q st.
Proof.
  intros Hbody. induction fuel as [|fuel IH]; intros n x st Hn HI; [lia|].
  destruct (Hbody n x st HI) as (o & st' & Hb & HQ). unfold wp, st_loop in *. cbn [loop]. rewrite Hb. destruct o as [x'|r].
  - destruct HQ as (n' & Hlt & HI'). destruct (IH n' x' st' ltac:(lia) HI') as (r & st'' & Hl & HQ). by exists r, st''.
  - by exists r, st'.
Qed.
End wp.

(** ** Lists without common members *)

Definition disj (l1 l2 : list Z) : Prop := forall x, x ∈ l1 -> x ∉ l2.

Lemma disj_sym l1 l2 : disj l1 l2 -> disj l2 l1.
Proof. unfold disj. intros H x H2 H1. by apply (H x). Qed.

Lemma disj_nil_l l : disj [] l <-> True.
Proof. split; [done|]. intros _ x ?%elem_of_nil. done. Qed.
Lemma disj_nil_r l : disj l [] <-> True.
Proof. split; [done|]. intros _ x _. apply not_elem_of_nil. Qed.
Lemma disj_app_l l1 l2 l : disj (l1 ++ l2) l <-> disj l1 l /\ disj l2 l.
Proof. unfold disj. set_solver. Qed.
Lemma disj_app_r l1 l2 l : disj l (l1 ++ l2) <-> disj l l1 /\ disj l l2.
Proof. unfold disj. set_solver. Qed.
Lemma disj_cons_l a l1 l : disj (a :: l1) l <-> (a ∉ l) /\ disj l1 l.
Proof. unfold disj. set_solver. Qed.
Lemma disj_cons_r a l1 l : disj l (a :: l1) <-> (a ∉ l) /\ disj l l1.
Proof. unfold disj. set_solver. Qed.
Lemma NoDup_app_disj l1 l2 : NoDup (l1 ++ l2) <-> NoDup l1 /\ disj l1 l2 /\ NoDup l2.
Proof. apply NoDup_app. Qed.

(** What it means for a list that is written out to have no duplicates. *)
Ltac distinct H :=
  repeat progress rewrite ?NoDup_cons, ?NoDup_app_disj, ?not_elem_of_app, ?not_elem_of_cons,
    ?disj_app_l, ?disj_app_r, ?disj_cons_l, ?disj_cons_r, ?disj_nil_l, ?disj_nil_r in H;
  destruct_and? H.

(** ** Memories *)

(** Different addresses of a memory: as many as it has at most. *)
Lemma NoDup_size {A} (h : gmap Z A) (l : list Z) : NoDup l -> (forall a, a ∈ l -> is_Some (h !! a)) -> (length l <= size h)%nat.
Proof.
  intros Hnd Hl. rewrite <- (size_list_to_set (C := gset Z)) by done. rewrite <- size_dom. apply subseteq_size.
  intros a. rewrite elem_of_list_to_set, elem_of_dom. apply Hl.
Qed.
