(* ===== verification/RbDefs.v ===== *)
(** Red-black trees: [lib/rbtree.c], [include/linux/rbtree.h] and
    [include/linux/rbtree_augmented.h].

    Nodes live in a heap indexed by their addresses; [0] is [NULL].  The word
    [__rb_parent_color] packs the address of the parent and the colour, as in the
    code.  Operations are actions on the heap and on the root pointer. *)
From stdpp Require Import gmap.
From S2P Require Import Prelude State.

Record rb_node := mkRb {
  __rb_parent_color : Z;
  rb_right : Z;
  rb_left : Z }.

(** The heap and [root->rb_node]. *)
Record rb_state := mkRbState {
  rb_nodes : gmap Z rb_node;
  rb_root : Z }.

(** ** Actions *)

Abbreviation RB := (ST rb_state).

Definition load (a : Z) : RB rb_node := fun st =>
  match rb_nodes st !! a with Some n => Ok (n, st) | None => Fault end.
Definition update (a : Z) (f : rb_node -> rb_node) : RB unit := fun st =>
  match rb_nodes st !! a with
  | Some n => Ok (tt, mkRbState (<[a := f n]> (rb_nodes st)) (rb_root st))
  | None => Fault
  end.
Definition get_root : RB Z := fun st => Ok (rb_root st, st).
Definition set_root (a : Z) : RB unit := fun st => Ok (tt, mkRbState (rb_nodes st) a).

(** The members of a node; the code treats the two sides alike. *)
Inductive side := Lft | Rgt.
#[global] Instance side_eq_dec : EqDecision side.
Proof. solve_decision. Defined.
Definition opp (s : side) : side := match s with Lft => Rgt | Rgt => Lft end.

Definition child (s : side) (n : rb_node) : Z := match s with Lft => rb_left n | Rgt => rb_right n end.
Definition with_child (s : side) (v : Z) (n : rb_node) : rb_node :=
  match s with
  | Lft => mkRb (__rb_parent_color n) (rb_right n) v
  | Rgt => mkRb (__rb_parent_color n) v (rb_left n)
  end.
Definition with_pc (pc : Z) (n : rb_node) : rb_node := mkRb pc (rb_right n) (rb_left n).

Definition get_child (s : side) (a : Z) : RB Z := n ← load a; mret (child s n).
Definition set_child (s : side) (a v : Z) : RB unit := update a (with_child s v).
Definition get_pc (a : Z) : RB Z := n ← load a; mret (__rb_parent_color n).
Definition set_pc (a pc : Z) : RB unit := update a (with_pc pc).

(** [if (p) action]. *)
Definition if_nonnull (p : Z) (m : RB unit) : RB unit := if p =? 0 then mret tt else m.

(** A loop goes at most once through every node of the heap. *)
Definition rb_while {X R} (body : X -> RB (X + R)) (x : X) : RB R := fun st =>
  st_loop (S (size (rb_nodes st))) body x st.

(** ** Colours and parents *)

Definition RB_RED : Z := 0.
Definition RB_BLACK : Z := 1.

Definition __rb_parent (pc : Z) : Z := Z.land pc (Z.lnot 3).
Definition __rb_color (pc : Z) : Z := Z.land pc 1.
Definition __rb_is_black (pc : Z) : bool := negb (__rb_color pc =? 0).
Definition __rb_is_red (pc : Z) : bool := __rb_color pc =? 0.
Definition rb_parent (r : Z) : RB Z := pc ← get_pc r; mret (__rb_parent pc).
Definition rb_is_red (rb : Z) : RB bool := pc ← get_pc rb; mret (__rb_is_red pc).
Definition rb_is_black (rb : Z) : RB bool := pc ← get_pc rb; mret (__rb_is_black pc).

Definition rb_set_parent (rb p : Z) : RB unit := pc ← get_pc rb; set_pc rb (Z.lor (__rb_color pc) p).
Definition rb_set_parent_color (rb p color : Z) : RB unit := set_pc rb (Z.lor p color).
Definition rb_set_black (rb : Z) : RB unit := pc ← get_pc rb; set_pc rb (Z.lor pc RB_BLACK).
Definition rb_red_parent (red : Z) : RB Z := get_pc red.

(** [!p || rb_is_black(p)] and [p && rb_is_red(p)]. *)
Definition null_or_black (p : Z) : RB bool := if p =? 0 then mret true else rb_is_black p.
Definition nonnull_and_red (p : Z) : RB bool := if p =? 0 then mret false else rb_is_red p.

Definition __rb_change_child (old new parent : Z) : RB unit :=
  if negb (parent =? 0) then
    l ← get_child Lft parent;
    if l =? old then set_child Lft parent new else set_child Rgt parent new
  else set_root new.

Definition __rb_rotate_set_parents (old new color : Z) : RB unit :=
  parent ← rb_parent old;
  pc ← get_pc old;
  set_pc new pc;;
  rb_set_parent_color old new color;;
  __rb_change_child old new parent.

(** ** Callbacks of augmented trees *)

Record rb_augment_callbacks := mkCallbacks {
  propagate : Z -> Z -> RB unit;
  copy : Z -> Z -> RB unit;
  rotate : Z -> Z -> RB unit }.

Definition dummy_propagate (node stop : Z) : RB unit := mret tt.
Definition dummy_copy (old new : Z) : RB unit := mret tt.
Definition dummy_rotate (old new : Z) : RB unit := mret tt.
Definition dummy_callbacks : rb_augment_callbacks := mkCallbacks dummy_propagate dummy_copy dummy_rotate.

(** ** Insertion *)

(** [rb_link_node(node, parent, rb_link)]; the link is a member of the parent,
    or the root pointer. *)
Definition rb_link_node (node parent : Z) (rb_link : option side) : RB unit :=
  update node (fun _ => mkRb parent 0 0);;
  match rb_link with Some s => set_child s parent node | None => set_root node end.

(** The body for a parent on side [s] of [gparent]; [tmp] is the uncle. *)
Definition insert_case (augment_rotate : Z -> Z -> RB unit) (s : side) (node parent gparent tmp : Z) : RB (Z * Z + unit) :=
  red ← nonnull_and_red tmp;
  if (red : bool) then
    rb_set_parent_color tmp gparent RB_BLACK;;
    rb_set_parent_color parent gparent RB_BLACK;;
    p ← rb_parent gparent;
    rb_set_parent_color gparent p RB_RED;;
    mret (inl (gparent, p))
  else
    tmp ← get_child (opp s) parent;
    '(parent, tmp) ← (if node =? tmp then
        tmp ← get_child s node;
        set_child (opp s) parent tmp;;
        set_child s node parent;;
        if_nonnull tmp (rb_set_parent_color tmp parent RB_BLACK);;
        rb_set_parent_color parent node RB_RED;;
        augment_rotate parent node;;
        tmp ← get_child (opp s) node;
        mret (node, tmp)
      else mret (parent, tmp));
    set_child s gparent tmp;;
    set_child (opp s) parent gparent;;
    if_nonnull tmp (rb_set_parent_color tmp gparent RB_BLACK);;
    __rb_rotate_set_parents gparent parent RB_RED;;
    augment_rotate gparent parent;;
    mret (inr tt).

Definition insert_step (augment_rotate : Z -> Z -> RB unit) (x : Z * Z) : RB (Z * Z + unit) :=
  let '(node, parent) := x in
  if parent =? 0 then
    rb_set_parent_color node 0 RB_BLACK;;
    mret (inr tt)
  else
    black ← rb_is_black parent;
    if (black : bool) then mret (inr tt)
    else
      gparent ← rb_red_parent parent;
      tmp ← get_child Rgt gparent;
      if negb (parent =? tmp) then insert_case augment_rotate Lft node parent gparent tmp
      else
        tmp ← get_child Lft gparent;
        insert_case augment_rotate Rgt node parent gparent tmp.

Definition __rb_insert (node : Z) (augment_rotate : Z -> Z -> RB unit) : RB unit :=
  parent ← rb_red_parent node;
  rb_while (insert_step augment_rotate) (node, parent).

Definition rb_insert_color (node : Z) : RB unit := __rb_insert node dummy_rotate.
Definition __rb_insert_augmented (node : Z) (augment_rotate : Z -> Z -> RB unit) : RB unit := __rb_insert node augment_rotate.

(** ** Removal *)

(** [Case 4]. *)
Definition erase_case4 (augment_rotate : Z -> Z -> RB unit) (s : side) (parent sibling tmp1 : Z) : RB (Z * Z + unit) :=
  tmp2 ← get_child s sibling;
  set_child (opp s) parent tmp2;;
  set_child s sibling parent;;
  rb_set_parent_color tmp1 sibling RB_BLACK;;
  if_nonnull tmp2 (rb_set_parent tmp2 parent);;
  __rb_rotate_set_parents parent sibling RB_BLACK;;
  augment_rotate parent sibling;;
  mret (inr tt).

(** Cases 2 and 3, for a node on side [s] of its parent and a black sibling. *)
Definition erase_rest (augment_rotate : Z -> Z -> RB unit) (s : side) (parent sibling : Z) : RB (Z * Z + unit) :=
  tmp1 ← get_child (opp s) sibling;
  b1 ← null_or_black tmp1;
  if (b1 : bool) then
    tmp2 ← get_child s sibling;
    b2 ← null_or_black tmp2;
    if (b2 : bool) then
      rb_set_parent_color sibling parent RB_RED;;
      r ← rb_is_red parent;
      if (r : bool) then rb_set_black parent;; mret (inr tt)
      else
        p ← rb_parent parent;
        if negb (p =? 0) then mret (inl (parent, p)) else mret (inr tt)
    else
      tmp1 ← get_child (opp s) tmp2;
      set_child s sibling tmp1;;
      set_child (opp s) tmp2 sibling;;
      set_child (opp s) parent tmp2;;
      if_nonnull tmp1 (rb_set_parent_color tmp1 sibling RB_BLACK);;
      augment_rotate sibling tmp2;;
      erase_case4 augment_rotate s parent tmp2 sibling
  else erase_case4 augment_rotate s parent sibling tmp1.

(** The body, with [Case 1]. *)
Definition erase_case (augment_rotate : Z -> Z -> RB unit) (s : side) (parent sibling : Z) : RB (Z * Z + unit) :=
  red ← rb_is_red sibling;
  sibling ← (if (red : bool) then
      tmp1 ← get_child s sibling;
      set_child (opp s) parent tmp1;;
      set_child s sibling parent;;
      rb_set_parent_color tmp1 parent RB_BLACK;;
      __rb_rotate_set_parents parent sibling RB_RED;;
      augment_rotate parent sibling;;
      mret tmp1
    else mret sibling);
  erase_rest augment_rotate s parent sibling.

Definition erase_step (augment_rotate : Z -> Z -> RB unit) (x : Z * Z) : RB (Z * Z + unit) :=
  let '(node, parent) := x in
  sibling ← get_child Rgt parent;
  if negb (node =? sibling) then erase_case augment_rotate Lft parent sibling
  else
    sibling ← get_child Lft parent;
    erase_case augment_rotate Rgt parent sibling.

Definition ____rb_erase_color (parent : Z) (augment_rotate : Z -> Z -> RB unit) : RB unit :=
  rb_while (erase_step augment_rotate) (0, parent).

(** [do { parent = successor; successor = tmp; tmp = tmp->rb_left } while (tmp)]. *)
Definition successor_step (x : Z * Z * Z) : RB (Z * Z * Z + Z * Z) :=
  let '(parent, successor, tmp) := x in
  let parent := successor in
  let successor := tmp in
  tmp ← get_child Lft tmp;
  if negb (tmp =? 0) then mret (inl (parent, successor, tmp)) else mret (inr (parent, successor)).

(** The successor takes the place of the node. *)
Definition erase_replace (node parent successor child2 : Z) : RB Z :=
  tmp ← get_child Lft node;
  set_child Lft successor tmp;;
  rb_set_parent tmp successor;;
  pc ← get_pc node;
  let tmp := __rb_parent pc in
  __rb_change_child node successor tmp;;
  if negb (child2 =? 0) then
    set_pc successor pc;;
    rb_set_parent_color child2 parent RB_BLACK;;
    mret 0
  else
    pc2 ← get_pc successor;
    set_pc successor pc;;
    mret (if __rb_is_black pc2 then parent else 0).

Definition __rb_erase_augmented (node : Z) (augment : rb_augment_callbacks) : RB Z :=
  child ← get_child Rgt node;
  tmp ← get_child Lft node;
  '(tmp, rebalance) ← (if tmp =? 0 then
      pc ← get_pc node;
      let parent := __rb_parent pc in
      __rb_change_child node child parent;;
      rebalance ← (if negb (child =? 0) then set_pc child pc;; mret 0
                   else mret (if __rb_is_black pc then parent else 0));
      mret (parent, rebalance)
    else if child =? 0 then
      pc ← get_pc node;
      set_pc tmp pc;;
      let parent := __rb_parent pc in
      __rb_change_child node tmp parent;;
      mret (parent, 0)
    else
      tmp ← get_child Lft child;
      '(parent, successor, child2) ← (if tmp =? 0 then
          child2 ← get_child Rgt child;
          copy augment node child;;
          mret (child, child, child2)
        else
          '(parent, successor) ← rb_while successor_step (0, child, tmp);
          child2 ← get_child Rgt successor;
          set_child Lft parent child2;;
          set_child Rgt successor child;;
          rb_set_parent child successor;;
          copy augment node successor;;
          propagate augment parent successor;;
          mret (parent, successor, child2));
      rebalance ← erase_replace node parent successor child2;
      mret (successor, rebalance));
  propagate augment tmp 0;;
  mret rebalance.

Definition rb_erase (node : Z) : RB unit :=
  rebalance ← __rb_erase_augmented node dummy_callbacks;
  if_nonnull rebalance (____rb_erase_color rebalance dummy_rotate).

(** The same with the callbacks of a user. *)
Definition __rb_erase_color (parent : Z) (augment_rotate : Z -> Z -> RB unit) : RB unit := ____rb_erase_color parent augment_rotate.

Definition rb_insert_augmented (node : Z) (augment : rb_augment_callbacks) : RB unit := __rb_insert_augmented node (rotate augment).

Definition rb_erase_augmented (node : Z) (augment : rb_augment_callbacks) : RB unit :=
  rebalance ← __rb_erase_augmented node augment;
  if_nonnull rebalance (__rb_erase_color rebalance (rotate augment)).

(** ** Walking *)

(** [while (n->side) n = n->side]. *)
Definition descend_step (s : side) (n : Z) : RB (Z + Z) :=
  c ← get_child s n;
  mret (if negb (c =? 0) then inl c else inr n).

Definition rb_end (s : side) : RB Z :=
  n ← get_root;
  if n =? 0 then mret 0 else rb_while (descend_step s) n.
Definition rb_first : RB Z := rb_end Lft.
Definition rb_last : RB Z := rb_end Rgt.

Definition RB_EMPTY_NODE (node : Z) : RB bool := pc ← get_pc node; mret (pc =? node).
Definition RB_CLEAR_NODE (node : Z) : RB unit := set_pc node node.

(** [while ((parent = rb_parent(node)) && node == parent->side) node = parent]. *)
Definition ascend_step (s : side) (node : Z) : RB (Z + Z) :=
  parent ← rb_parent node;
  if parent =? 0 then mret (inr 0)
  else
    c ← get_child s parent;
    mret (if node =? c then inl parent else inr parent).

Definition rb_step (s : side) (node : Z) : RB Z :=
  empty ← RB_EMPTY_NODE node;
  if (empty : bool) then mret 0
  else
    c ← get_child s node;
    if negb (c =? 0) then rb_while (descend_step (opp s)) c
    else rb_while (ascend_step s) node.
Definition rb_next (node : Z) : RB Z := rb_step Rgt node.
Definition rb_prev (node : Z) : RB Z := rb_step Lft node.

Definition rb_replace_node (victim new : Z) : RB unit :=
  parent ← rb_parent victim;
  __rb_change_child victim new parent;;
  l ← get_child Lft victim;
  if_nonnull l (rb_set_parent l new);;
  r ← get_child Rgt victim;
  if_nonnull r (rb_set_parent r new);;
  n ← load victim;
  update new (fun _ => n).

Definition deepest_step (node : Z) : RB (Z + Z) :=
  l ← get_child Lft node;
  if negb (l =? 0) then mret (inl l)
  else
    r ← get_child Rgt node;
    mret (if negb (r =? 0) then inl r else inr node).
Definition rb_left_deepest_node (node : Z) : RB Z := rb_while deepest_step node.

Definition rb_next_postorder (node : Z) : RB Z :=
  if node =? 0 then mret 0
  else
    parent ← rb_parent node;
    if parent =? 0 then mret parent
    else
      l ← get_child Lft parent;
      r ← get_child Rgt parent;
      if (node =? l) && negb (r =? 0) then rb_left_deepest_node r else mret parent.

Definition rb_first_postorder : RB Z :=
  n ← get_root;
  if n =? 0 then mret 0 else rb_left_deepest_node n.
