(* ===== verification/RbTree.v ===== *)
(** Trees, contexts, and the heaps that represent them. *)
From stdpp Require Import gmap.
From S2P Require Import Prelude State RbDefs.

(** ** Trees *)

Inductive color := Red | Black.
#[global] Instance color_eq_dec : EqDecision color.
Proof. solve_decision. Defined.

Inductive tree := E | T (c : color) (l : tree) (a : Z) (r : tree).

#[global] Instance tree_eq_dec : EqDecision tree.
Proof. solve_decision. Defined.

Definition ptr (t : tree) : Z := match t with E => 0 | T _ _ a _ => a end.
Definition col (t : tree) : color := match t with E => Black | T c _ _ _ => c end.
Definition recolor (c : color) (t : tree) : tree := match t with E => E | T _ l a r => T c l a r end.

Fixpoint inorder (t : tree) : list Z :=
  match t with E => [] | T _ l a r => inorder l ++ a :: inorder r end.

(** A tree with its child on side [s] first. *)
Definition mkT (s : side) (c : color) (x : tree) (a : Z) (y : tree) : tree :=
  match s with Lft => T c x a y | Rgt => T c y a x end.

(** ** Contexts

    The way from a subtree up to the root: on which side of its parent it is,
    the colour and the address of the parent, and the other child. *)
Record frame := mkF { f_side : side; f_col : color; f_addr : Z; f_sib : tree }.
Definition ctx : Type := list frame.

Definition up (k : ctx) : Z := match k with [] => 0 | f :: _ => f_addr f end.
Definition fill (f : frame) (t : tree) : tree := mkT (f_side f) (f_col f) t (f_addr f) (f_sib f).
Fixpoint plug (k : ctx) (t : tree) : tree := match k with [] => t | f :: k => plug k (fill f t) end.

(** The nodes before and after the hole. *)
Fixpoint before (k : ctx) : list Z :=
  match k with
  | [] => []
  | f :: k => before k ++ match f_side f with Lft => [] | Rgt => inorder (f_sib f) ++ [f_addr f] end
  end.
Fixpoint after (k : ctx) : list Z :=
  match k with
  | [] => []
  | f :: k => match f_side f with Lft => f_addr f :: inorder (f_sib f) | Rgt => [] end ++ after k
  end.

Lemma inorder_plug k t : inorder (plug k t) = before k ++ inorder t ++ after k.
Proof.
  revert t. induction k as [|[s c a sib] k IH]; intros t; cbn [plug before after]; [by rewrite app_nil_r|].
  rewrite IH. destruct s; cbn; rewrite <- ?app_assoc; cbn; rewrite <- ?app_assoc; done.
Qed.

Lemma plug_app k1 k2 t : plug (k1 ++ k2) t = plug k2 (plug k1 t).
Proof. revert t. induction k1; intros t; [done|]. cbn. auto. Qed.

(** ** Packing of parent and colour *)

Definition cbit (c : color) : Z := match c with Red => RB_RED | Black => RB_BLACK end.
Definition pack (p : Z) (c : color) : Z := Z.lor p (cbit c).

(** Addresses of nodes are not [NULL], and aligned. *)
Definition addr_ok (a : Z) : Prop := 0 < a /\ a mod 4 = 0.
Definition parent_ok (a : Z) : Prop := 0 <= a /\ a mod 4 = 0.

Lemma addr_parent_ok a : addr_ok a -> parent_ok a.
Proof. unfold addr_ok, parent_ok. lia. Qed.

Lemma parent_bits p i : parent_ok p -> 0 <= i < 2 -> Z.testbit p i = false.
Proof.
  intros [Hp Hm] Hi. assert (p = Z.shiftl (p / 4) 2) as ->.
  { rewrite Z.shiftl_mul_pow2 by lia. change (2 ^ 2) with 4. Z.div_mod_to_equations. lia. }
  apply Z.shiftl_spec_low. lia.
Qed.

Lemma cbit_bits c i : Z.testbit (cbit c) i = match c with Red => false | Black => i =? 0 end.
Proof.
  destruct c; [by rewrite Z.bits_0|]. unfold cbit, RB_BLACK. destruct (decide (0 <= i)).
  - change 1 with (2 ^ 0). rewrite Z.pow2_bits_eqb by lia. apply eq_bool_prop_intro. rewrite !Is_true_true, !Z.eqb_eq. lia.
  - rewrite Z.testbit_neg_r by lia. symmetry. apply Z.eqb_neq. lia.
Qed.

Lemma pack_parent p c : parent_ok p -> __rb_parent (pack p c) = p.
Proof.
  intros Hp. unfold __rb_parent, pack. apply Z.bits_inj'. intros i Hi.
  rewrite Z.land_spec, Z.lor_spec, Z.lnot_spec, cbit_bits by lia. change 3 with (Z.ones 2).
  destruct (decide (i < 2)).
  - rewrite Z.ones_spec_low, andb_false_r by lia. symmetry. apply parent_bits; [done|lia].
  - rewrite Z.ones_spec_high, andb_true_r by lia. destruct c; [by rewrite orb_false_r|].
    rewrite (proj2 (Z.eqb_neq i 0)) by lia. by rewrite orb_false_r.
Qed.

Lemma pack_color p c : parent_ok p -> __rb_color (pack p c) = cbit c.
Proof.
  intros Hp. unfold __rb_color, pack. apply Z.bits_inj'. intros i Hi.
  rewrite Z.land_spec, Z.lor_spec, !cbit_bits by lia. change 1 with (Z.ones 1).
  destruct (decide (i = 0)) as [->|].
  - rewrite parent_bits by (done || lia). rewrite Z.ones_spec_low by lia. by destruct c.
  - rewrite Z.ones_spec_high, andb_false_r by lia. destruct c; [done|]. symmetry. apply Z.eqb_neq. lia.
Qed.

Lemma pack_is_black p c : parent_ok p -> __rb_is_black (pack p c) = bool_decide (c = Black).
Proof. intros Hp. unfold __rb_is_black. rewrite pack_color by done. by destruct c. Qed.

Lemma pack_is_red p c : parent_ok p -> __rb_is_red (pack p c) = bool_decide (c = Red).
Proof. intros Hp. unfold __rb_is_red. rewrite pack_color by done. by destruct c. Qed.

Lemma pack_red p : pack p Red = p.
Proof. apply Z.lor_0_r. Qed.

Lemma pack_black p c : Z.lor (pack p c) RB_BLACK = pack p Black.
Proof. unfold pack. rewrite <- Z.lor_assoc. by destruct c. Qed.

#[global] Arguments __rb_parent : simpl never.
#[global] Arguments __rb_color : simpl never.
#[global] Arguments __rb_is_red : simpl never.
#[global] Arguments __rb_is_black : simpl never.
#[global] Arguments pack : simpl never.

(** ** Heaps *)

(** The heap holds the tree [t], whose parent is [par]. *)
Fixpoint repr (h : gmap Z rb_node) (par : Z) (t : tree) : Prop :=
  match t with
  | E => True
  | T c l a r => h !! a = Some (mkRb (pack par c) (ptr r) (ptr l)) /\ repr h a l /\ repr h a r
  end.

(** The node of a frame whose hole holds [p]. *)
Definition frame_node (f : frame) (par p : Z) : rb_node :=
  match f_side f with
  | Lft => mkRb (pack par (f_col f)) (ptr (f_sib f)) p
  | Rgt => mkRb (pack par (f_col f)) p (ptr (f_sib f))
  end.

Fixpoint repr_ctx (st : rb_state) (k : ctx) (p : Z) : Prop :=
  match k with
  | [] => rb_root st = p
  | f :: k => rb_nodes st !! f_addr f = Some (frame_node f (up k) p) /\ repr (rb_nodes st) (f_addr f) (f_sib f) /\
              repr_ctx st k (f_addr f)
  end.

(** The nodes of a tree and of a context. *)
Fixpoint addrs (t : tree) : list Z := match t with E => [] | T _ l a r => a :: addrs l ++ addrs r end.
Fixpoint addrs_ctx (k : ctx) : list Z :=
  match k with [] => [] | f :: k => f_addr f :: addrs (f_sib f) ++ addrs_ctx k end.

(** The state holds the tree [t] in the context [k]. *)
Record focus (st : rb_state) (k : ctx) (t : tree) : Prop := {
  fc_tree : repr (rb_nodes st) (up k) t;
  fc_ctx : repr_ctx st k (ptr t);
  fc_nodup : NoDup (addrs t ++ addrs_ctx k);
  fc_ok : Forall addr_ok (addrs t ++ addrs_ctx k) }.

Lemma ptr_in t : t <> E -> ptr t ∈ addrs t.
Proof. destruct t; [done|]. cbn. by left. Qed.

Lemma ptr_nonzero t : t <> E -> 0 ∉ addrs t -> ptr t <> 0.
Proof. intros Ht%ptr_in H0 Heq. by rewrite Heq in Ht. Qed.

Lemma addrs_inorder t : addrs t ≡ₚ inorder t.
Proof. induction t as [|c l IHl a r IHr]; cbn; [done|]. rewrite IHl, IHr. apply Permutation_middle. Qed.

Lemma addrs_plug k t : addrs (plug k t) ≡ₚ addrs t ++ addrs_ctx k.
Proof.
  revert t. induction k as [|[s c a sib] k IH]; intros t; cbn [plug addrs_ctx]; [by rewrite app_nil_r|].
  rewrite IH. cbn. rewrite <- (Permutation_middle (addrs t)), app_assoc.
  destruct s; cbn; [done|]. by rewrite (Permutation_app_comm (addrs sib)).
Qed.

Lemma addrs_zipper k t : addrs t ++ addrs_ctx k ≡ₚ before k ++ inorder t ++ after k.
Proof. by rewrite <- addrs_plug, addrs_inorder, inorder_plug. Qed.

(** * Symbolic execution of actions on the heap, and rotations. *)

(** ** Single actions *)

Section ops.
Context (h : gmap Z rb_node) (r : Z).

Lemma wp_load a n Q : h !! a = Some n -> Q n (mkRbState h r) -> wp (load a) Q (mkRbState h r).
Proof. intros Ha HQ. exists n, (mkRbState h r). unfold load. cbn. by rewrite Ha. Qed.

Lemma wp_update a f n Q : h !! a = Some n -> Q tt (mkRbState (<[a := f n]> h) r) -> wp (update a f) Q (mkRbState h r).
Proof. intros Ha HQ. eexists _, _. unfold update. cbn. rewrite Ha. done. Qed.

Lemma wp_get_child s a n Q : h !! a = Some n -> Q (child s n) (mkRbState h r) -> wp (get_child s a) Q (mkRbState h r).
Proof. intros Ha HQ. apply wp_bind. eapply wp_load; [done|]. by apply wp_ret. Qed.

Lemma wp_get_pc a n Q : h !! a = Some n -> Q (__rb_parent_color n) (mkRbState h r) -> wp (get_pc a) Q (mkRbState h r).
Proof. intros Ha HQ. apply wp_bind. eapply wp_load; [done|]. by apply wp_ret. Qed.

Lemma wp_set_root p Q : Q tt (mkRbState h p) -> wp (set_root p) Q (mkRbState h r).
Proof. intros HQ. by eexists _, _. Qed.
End ops.

Ltac all_ok H := repeat progress rewrite ?Forall_cons, ?Forall_app in H; destruct_and? H.

(** ** What is not written stays *)

Lemma repr_insert h par t a n : a ∉ addrs t -> repr h par t -> repr (<[a := n]> h) par t.
Proof.
  revert par. induction t as [|c l IHl x y IHr]; intros par Ha Hr; [done|]. cbn in *.
  rewrite not_elem_of_cons, not_elem_of_app in Ha. destruct Ha as (H1 & H2 & H3), Hr as (R1 & R2 & R3).
  rewrite lookup_insert_ne by done. auto.
Qed.

Lemma repr_agree h h' par t : (forall a, a ∈ addrs t -> h' !! a = h !! a) -> repr h par t -> repr h' par t.
Proof.
  revert par. induction t as [|c l IHl x y IHr]; intros par Ha Hr; [done|]. cbn in *. destruct Hr as (R1 & R2 & R3). split_and!.
  - rewrite Ha; [done|left].
  - apply IHl; [|done]. intros a ?. apply Ha. right. apply elem_of_app. by left.
  - apply IHr; [|done]. intros a ?. apply Ha. right. apply elem_of_app. by right.
Qed.

Lemma repr_ctx_insert h r k p a n : a ∉ addrs_ctx k -> repr_ctx (mkRbState h r) k p -> repr_ctx (mkRbState (<[a := n]> h) r) k p.
Proof.
  revert p. induction k as [|f k IH]; intros p Ha Hr; [done|]. cbn in *. rewrite not_elem_of_cons, not_elem_of_app in Ha.
  destruct Ha as (H1 & H2 & H3), Hr as (R1 & R2 & R3). rewrite lookup_insert_ne by done. split_and!; [done| |auto]. by apply repr_insert.
Qed.

Lemma repr_ctx_agree st st' k p : rb_root st' = rb_root st -> (forall a, a ∈ addrs_ctx k -> rb_nodes st' !! a = rb_nodes st !! a) ->
  repr_ctx st k p -> repr_ctx st' k p.
Proof.
  intros Hroot. revert p. induction k as [|f k IH]; intros p Ha Hr; cbn in *; [congruence|]. destruct Hr as (R1 & R2 & R3). split_and!.
  - rewrite Ha; [done|left].
  - eapply repr_agree; [|done]. intros a ?. apply Ha. right. apply elem_of_app. by left.
  - apply IH; [|done]. intros a ?. apply Ha. right. apply elem_of_app. by right.
Qed.

Lemma repr_after h h' x y (l : list Z) par t :
  (forall a, a <> x -> a <> y -> a ∉ l -> h' !! a = h !! a) -> x ∉ addrs t -> y ∉ addrs t -> disj (addrs t) l ->
  repr h par t -> repr h' par t.
Proof. intros Ha Hx Hy Hl. apply repr_agree. intros a Hin. apply Ha; [congruence..|]. by apply Hl. Qed.

(** Nothing but the nodes of the list has changed. *)
Definition same_but (l : list Z) (st st' : rb_state) : Prop := forall a, a ∉ l -> rb_nodes st' !! a = rb_nodes st !! a.

(** ** Moving the focus *)

Lemma focus_up st f k t : focus st (f :: k) t <-> focus st k (fill f t).
Proof.
  assert (Hperm : addrs (fill f t) ++ addrs_ctx k ≡ₚ addrs t ++ addrs_ctx (f :: k)) by (by rewrite <- !addrs_plug).
  destruct f as [s c a sib]. split; intros [H1 H2 H3 H4]; constructor; try (by rewrite Hperm); try (by rewrite <- Hperm).
  all: destruct s; cbn in *; naive_solver.
Qed.

Lemma focus_plug st k t : focus st k t <-> focus st [] (plug k t).
Proof. revert t. induction k as [|f k IH]; intros t; [done|]. by rewrite focus_up, IH. Qed.

Lemma focus_zero st k t : focus st k t -> 0 ∉ addrs t ++ addrs_ctx k.
Proof. intros [_ _ _ Hok] H0. rewrite Forall_forall in Hok. specialize (Hok 0 H0). unfold addr_ok in Hok. lia. Qed.

Lemma ctx_up_ok k : Forall addr_ok (addrs_ctx k) -> parent_ok (up k).
Proof. destruct k as [|f k]; cbn; [done|]. intros [H _]%Forall_cons. by apply addr_parent_ok. Qed.

Lemma focus_up_ok st k t : focus st k t -> parent_ok (up k).
Proof. intros [_ _ _ Hok]. apply Forall_app in Hok as [_ Hok]. by apply ctx_up_ok. Qed.

(** ** The link from the parent *)

Lemma change_child_ok h r k old new :
  repr_ctx (mkRbState h r) k old -> old ∉ addrs_ctx k -> old <> 0 -> NoDup (addrs_ctx k) -> Forall addr_ok (addrs_ctx k) ->
  wp (__rb_change_child old new (up k))
    (fun _ st => repr_ctx st k new /\ forall a, a ∉ addrs_ctx k -> rb_nodes st !! a = h !! a) (mkRbState h r).
Proof.
  intros Hr Hold H0 Hnd Hok. unfold __rb_change_child. destruct k as [|[s c a sib] k]; cbn [up f_addr].
  { rewrite Z.eqb_refl. apply wp_set_root. cbn in *. done. }
  cbn [addrs_ctx f_addr f_sib] in *. apply Forall_cons in Hok as [Haok _].
  rewrite (proj2 (Z.eqb_neq a 0)) by (unfold addr_ok in Haok; lia). cbn [negb]. cbn in Hr. destruct Hr as (R1 & R2 & R3).
  distinct Hnd. distinct Hold. apply wp_bind. eapply wp_get_child; [done|].
  assert (Hc : (child Lft (frame_node (mkF s c a sib) (up k) old) =? old) = match s with Lft => true | Rgt => false end).
  { destruct s; cbn; [apply Z.eqb_refl|]. apply Z.eqb_neq. destruct sib as [|c' l' a' r']; cbn in *; [congruence|set_solver]. }
  rewrite Hc. destruct s; eapply wp_update; try done; cbn.
  all: rewrite lookup_insert_eq; (split; [|intros a' Ha'; rewrite lookup_insert_ne; [done|set_solver]]); split_and!;
    [done|by apply repr_insert|by apply repr_ctx_insert].
Qed.

(** ** New parents for a subtree *)

Definition reparent (p : Z) (t : tree) (h : gmap Z rb_node) : gmap Z rb_node :=
  match t with E => h | T c l b r => <[b := mkRb (pack p c) (ptr r) (ptr l)]> h end.

Lemma reparent_ne p t h a : a ∉ addrs t -> reparent p t h !! a = h !! a.
Proof. destruct t; [done|]. cbn. intros ?. apply lookup_insert_ne. set_solver. Qed.

Lemma repr_reparent h par p t : NoDup (addrs t) -> repr h par t -> repr (reparent p t h) p t.
Proof.
  destruct t as [|c l b y]; [done|]. cbn. intros Hnd (R1 & R2 & R3). distinct Hnd.
  rewrite lookup_insert_eq. split_and!; [done|by apply repr_insert..].
Qed.

Lemma repr_reparent_ne h par p t t' : ptr t ∉ addrs t' -> repr h par t' -> repr (reparent p t h) par t'.
Proof. destruct t; [done|]. cbn. intros ??. by apply repr_insert. Qed.

Lemma repr_ctx_reparent h r k q p t : ptr t ∉ addrs_ctx k -> repr_ctx (mkRbState h r) k q -> repr_ctx (mkRbState (reparent p t h) r) k q.
Proof. destruct t; [done|]. cbn. intros ??. by apply repr_ctx_insert. Qed.

Section reparent.
Context (h : gmap Z rb_node) (r par p : Z) (t : tree) (Q : unit -> rb_state -> Prop).
Hypothesis Ht : repr h par t.
Hypothesis HQ : Q tt (mkRbState (reparent p t h) r).

Lemma wp_reparent_black : col t = Black -> Forall addr_ok (addrs t) ->
  wp (if_nonnull (ptr t) (rb_set_parent_color (ptr t) p RB_BLACK)) Q (mkRbState h r).
Proof.
  unfold if_nonnull. destruct t as [|c l b y]; cbn; [intros _ _; by apply wp_ret|]. intros -> [[Hb _] _]%Forall_cons.
  rewrite (proj2 (Z.eqb_neq b 0)) by lia. eapply wp_update; [apply Ht|]. done.
Qed.

Lemma wp_reparent : parent_ok par -> Forall addr_ok (addrs t) -> wp (if_nonnull (ptr t) (rb_set_parent (ptr t) p)) Q (mkRbState h r).
Proof.
  unfold if_nonnull. destruct t as [|c l b y]; cbn; [intros _ _; by apply wp_ret|]. intros Hp [[Hb _] _]%Forall_cons.
  rewrite (proj2 (Z.eqb_neq b 0)) by lia. apply wp_bind. eapply wp_get_pc; [apply Ht|]. eapply wp_update; [apply Ht|].
  cbn. rewrite pack_color by done. unfold pack in HQ |- *. by rewrite Z.lor_comm.
Qed.
End reparent.

(** ** Rotations *)

(** A state with the same nodes in the same order. *)
Lemma focus_intro st0 st k t0 t :
  focus st0 k t0 -> repr (rb_nodes st) (up k) t -> repr_ctx st k (ptr t) -> inorder t = inorder t0 -> focus st k t.
Proof.
  intros [_ _ Hnd Hok] H1 H2 Hio. assert (Hp : addrs t ++ addrs_ctx k ≡ₚ addrs t0 ++ addrs_ctx k) by (by rewrite !addrs_inorder, Hio).
  constructor; [done|done|by rewrite Hp..].
Qed.

Lemma rotate_set_parents_ok h r k c0 color x y nx ny :
  h !! x = Some nx -> h !! y = Some ny -> __rb_parent_color ny = pack (up k) c0 ->
  repr_ctx (mkRbState h r) k y -> x <> y -> y <> 0 -> x ∉ addrs_ctx k -> y ∉ addrs_ctx k ->
  NoDup (addrs_ctx k) -> Forall addr_ok (addrs_ctx k) ->
  wp (__rb_rotate_set_parents y x (cbit color))
    (fun _ st => repr_ctx st k x /\ rb_nodes st !! x = Some (with_pc (pack (up k) c0) nx) /\
       rb_nodes st !! y = Some (with_pc (pack x color) ny) /\
       forall a, a <> x -> a <> y -> a ∉ addrs_ctx k -> rb_nodes st !! a = h !! a) (mkRbState h r).
Proof.
  intros Hx Hy Hpc Hc Hxy H0 Hxk Hyk Hnd Hok. unfold __rb_rotate_set_parents, rb_parent.
  apply wp_bind, wp_bind. eapply wp_get_pc; [done|]. apply wp_ret. rewrite Hpc, pack_parent by (by apply ctx_up_ok).
  apply wp_bind. eapply wp_get_pc; [done|]. apply wp_bind. eapply wp_update; [done|]. apply wp_bind.
  eapply wp_update; [rewrite lookup_insert_ne by congruence; done|]. rewrite Hpc.
  eapply wp_mono; [apply change_child_ok; try done; by repeat apply repr_ctx_insert|].
  cbn. intros _ st [H1 H2]. split; [done|]. rewrite !H2 by done. rewrite lookup_insert_ne, lookup_insert_eq by congruence.
  rewrite lookup_insert_eq. split_and!; [done|done|]. intros a ???. rewrite H2, !lookup_insert_ne by congruence. done.
Qed.

(** ** Tactics *)

Lemma ptr_notin t (l : list Z) : disj (addrs t) l -> 0 ∉ l -> ptr t ∉ l.
Proof. destruct t as [|c t1 a t2]; cbn; [done|]. intros H _. apply H. left. Qed.

Lemma ptr_ne t a : a ∉ addrs t -> 0 <> a -> ptr t <> a.
Proof. destruct t as [|c t1 b t2]; cbn; [done|]. rewrite not_elem_of_cons. naive_solver. Qed.

Lemma ptr_ne_sym t a : a ∉ addrs t -> 0 <> a -> a <> ptr t.
Proof. intros ??. symmetry. by apply ptr_ne. Qed.

Lemma ptr_ne_ptr t t' : disj (addrs t) (addrs t') -> ptr t <> 0 -> ptr t <> ptr t'.
Proof. destruct t, t'; cbn; try done. intros H _ ->. by eapply H; left. Qed.

(** Membership of nodes, from facts left by [distinct]. *)
Ltac known := first [assumption | apply disj_sym; assumption].
Ltac apart := first
  [ assumption
  | congruence
  | apply ptr_notin; known
  | apply ptr_ne; known
  | apply ptr_ne_sym; known
  | apply ptr_ne_ptr; known
  | apply not_eq_sym, ptr_ne_ptr; known ].

(** A cell of a heap that was written to. *)
Ltac cell := first
  [ eassumption
  | rewrite lookup_insert_eq; reflexivity
  | rewrite lookup_insert_ne by apart; cell
  | rewrite reparent_ne by apart; cell ].

(** A subtree or the context in a heap that was written to elsewhere. *)
Ltac untouched := first
  [ eassumption
  | apply repr_insert; [apart|untouched]
  | apply repr_reparent_ne; [apart|untouched]
  | apply repr_ctx_insert; [apart|untouched]
  | apply repr_ctx_reparent; [apart|untouched]
  | eapply repr_reparent; [apart|untouched] ].

(** A cell outside the nodes that were written to. *)
Ltac outside_writes tac :=
  let a := fresh "a" in let Ha := fresh "Ha" in
  intros a Ha; cbn in Ha; distinct Ha; tac; cbn;
  repeat first [rewrite lookup_insert_ne by apart | rewrite reparent_ne by apart]; reflexivity.
Ltac outside Q := outside_writes ltac:(rewrite Q by apart).

(** One step of an action. *)
Ltac rb_action :=
  lazymatch goal with
  | |- wp (_ ≫= _) _ _ => apply wp_bind
  | |- wp (mret _) _ _ => apply wp_ret
  | |- wp (get_child _ _) _ _ => eapply wp_get_child; [cell|]
  | |- wp (get_pc _) _ _ => eapply wp_get_pc; [cell|]
  | |- wp (load _) _ _ => eapply wp_load; [cell|]
  | |- wp (update _ _) _ _ => eapply wp_update; [cell|]
  end.

(** The actions that the code leaves out of line. *)
Ltac rb_unfold := unfold rb_set_parent_color, rb_set_parent, rb_set_black, set_child, set_pc, rb_parent, rb_is_red, rb_is_black,
  rb_red_parent, dummy_rotate, dummy_copy, dummy_propagate.

(** The colour of a subtree. *)
Lemma wp_nonnull_and_red h rt t par Q : repr h par t -> parent_ok par -> Forall addr_ok (addrs t) ->
  Q (bool_decide (col t = Red)) (mkRbState h rt) -> wp (nonnull_and_red (ptr t)) Q (mkRbState h rt).
Proof.
  unfold nonnull_and_red. destruct t as [|c l b y]; cbn; [intros _ _ _ HQ; by apply wp_ret|].
  intros (Hb & _) Hp [[H0 _] _]%Forall_cons HQ. rewrite (proj2 (Z.eqb_neq b 0)) by lia.
  rb_unfold. repeat rb_action. cbn. by rewrite pack_is_red.
Qed.

Lemma wp_null_or_black h rt t par Q : repr h par t -> parent_ok par -> Forall addr_ok (addrs t) ->
  Q (bool_decide (col t = Black)) (mkRbState h rt) -> wp (null_or_black (ptr t)) Q (mkRbState h rt).
Proof.
  unfold null_or_black. destruct t as [|c l b y]; cbn; [intros _ _ _ HQ; by apply wp_ret|].
  intros (Hb & _) Hp [[H0 _] _]%Forall_cons HQ. rewrite (proj2 (Z.eqb_neq b 0)) by lia.
  rb_unfold. repeat rb_action. cbn. by rewrite pack_is_black.
Qed.

(** * The red-black properties, for trees and for contexts. *)

(** Both children of a red node are black, and every path to a leaf has [n]
    black nodes. *)
Inductive rb : nat -> tree -> Prop :=
| rb_E : rb 0 E
| rb_black n l a r : rb n l -> rb n r -> rb (S n) (T Black l a r)
| rb_red n l a r : rb n l -> rb n r -> col l = Black -> col r = Black -> rb n (T Red l a r).

(** A tree with a black root, as the properties ask for. *)
Definition rb_tree (t : tree) : Prop := col t = Black /\ exists n, rb n t.

(** Whether the hole of a context may hold a red node. *)
Definition allows_red (k : ctx) : Prop := match k with [] => False | f :: _ => f_col f = Black end.

(** A context whose hole takes a tree of black height [n]. *)
Inductive rb_ctx : nat -> ctx -> Prop :=
| rb_top n : rb_ctx n []
| rb_ctx_black n s a sib k : rb n sib -> rb_ctx (S n) k -> rb_ctx n (mkF s Black a sib :: k)
| rb_ctx_red n s a sib k : rb n sib -> col sib = Black -> allows_red k -> rb_ctx n k -> rb_ctx n (mkF s Red a sib :: k).

Create HintDb rbt.
#[export] Hint Constructors rb rb_ctx : rbt.

Lemma rb_mkT_black s n l a r : rb n l -> rb n r -> rb (S n) (mkT s Black l a r).
Proof. destruct s; cbn; auto with rbt. Qed.

Lemma rb_mkT_red s n l a r : rb n l -> rb n r -> col l = Black -> col r = Black -> rb n (mkT s Red l a r).
Proof. destruct s; cbn; auto with rbt. Qed.

Lemma col_mkT s c l a r : col (mkT s c l a r) = c.
Proof. by destruct s. Qed.

Lemma ptr_mkT s c l a r : ptr (mkT s c l a r) = a.
Proof. by destruct s. Qed.

#[export] Hint Resolve rb_mkT_black rb_mkT_red : rbt.

(** A tree of the right height in a context is a red-black tree. *)
Lemma rb_plug k : forall n t, rb_ctx n k -> rb n t -> col t = Black \/ allows_red k -> rb_tree (plug k t).
Proof.
  induction k as [|[s c a sib] k IH]; intros n t Hk Ht Hc; inversion Hk; subst; cbn [plug].
  - destruct Hc; [|done]. split; eauto.
  - eapply IH; [done| |left; apply col_mkT]. by apply rb_mkT_black.
  - eapply IH; [done| |by right]. cbn in Hc. destruct Hc; [|done]. by apply rb_mkT_red.
Qed.

Lemma rb_mkT_inv s c n l a r : rb n (mkT s c l a r) ->
  match c with
  | Black => exists m, n = S m /\ rb m l /\ rb m r
  | Red => rb n l /\ rb n r /\ col l = Black /\ col r = Black
  end.
Proof. destruct s; cbn; intros H; inversion H; subst; eauto. Qed.

(** And the other way round. *)
Lemma rb_plug_inv k : forall t, rb_tree (plug k t) -> exists n, rb_ctx n k /\ rb n t /\ (col t = Black \/ allows_red k).
Proof.
  induction k as [|[s c a sib] k IH]; intros t Ht; cbn [plug] in *.
  - destruct Ht as [Hc (n & Hn)]. exists n. auto with rbt.
  - apply IH in Ht as (n & Hk & Hn & Hc). unfold fill in *. cbn in *. rewrite col_mkT in Hc. apply rb_mkT_inv in Hn. destruct c.
    + destruct Hn as (H1 & H2 & H3 & H4). destruct Hc as [|Hc]; [done|]. exists n. auto with rbt.
    + destruct Hn as (m & -> & H1 & H2). exists m. auto with rbt.
Qed.

Lemma rb_recolor n t : rb n t -> col t = Red -> rb (S n) (recolor Black t).
Proof. destruct 1; cbn; try done. auto with rbt. Qed.

Lemma recolor_same c t : col t = c -> recolor c t = t.
Proof. destruct t; cbn; [done|]. by intros ->. Qed.

Lemma col_recolor t : col (recolor Black t) = Black.
Proof. by destruct t. Qed.

Lemma ptr_recolor c t : ptr (recolor c t) = ptr t.
Proof. by destruct t. Qed.

Lemma inorder_recolor c t : inorder (recolor c t) = inorder t.
Proof. by destruct t. Qed.

(** ** Height *)

Fixpoint height (t : tree) : nat := match t with E => 0 | T _ l _ r => S (Nat.max (height l) (height r)) end.

Lemma rb_height n t : rb n t -> (height t <= 2 * n + match col t with Red => 1 | Black => 0 end)%nat.
Proof.
  induction 1 as [|n l a r Hl IHl Hr IHr|n l a r Hl IHl Hr IHr Hcl Hcr]; cbn; [lia| |].
  - destruct (col l), (col r); lia.
  - rewrite Hcl, Hcr in *. lia.
Qed.

Lemma rb_size n t : rb n t -> (2 ^ n <= S (length (inorder t)))%nat.
Proof.
  induction 1 as [|n l a r Hl IHl Hr IHr|n l a r Hl IHl Hr IHr Hcl Hcr]; cbn; [lia| |];
    rewrite length_app; cbn [length]; lia.
Qed.

(** The longest path is at most twice the logarithm of the size. *)
Lemma rb_tree_height t : rb_tree t -> (2 ^ (height t / 2) <= S (length (inorder t)))%nat.
Proof.
  intros [Hc (n & Hn)]. pose proof (rb_height n t Hn) as Hh. rewrite Hc in Hh. etrans; [|by apply rb_size].
  apply Nat.pow_le_mono_r; [lia|]. apply Nat.Div0.div_le_upper_bound. lia.
Qed.

(** ** Loops *)

Lemma rb_while_ok {X R} (I : nat -> X -> rb_state -> Prop) (Q : R -> rb_state -> Prop) (body : X -> RB (X + R)) :
  (forall n x st, I n x st ->
     wp (body x) (fun o st' => match o with inl x' => exists n', (n' < n)%nat /\ I n' x' st' | inr r => Q r st' end) st) ->
  forall n x st, (n <= size (rb_nodes st))%nat -> I n x st -> wp (rb_while body x) Q st.
Proof. intros Hbody n x st Hn HI. unfold rb_while. eapply (st_loop_ok I); [done| |done]. lia. Qed.

(** The nodes of the tree are in the heap, so the heap is not smaller. *)
Lemma repr_dom h par t a : repr h par t -> a ∈ addrs t -> is_Some (h !! a).
Proof.
  revert par. induction t as [|c l IHl x r IHr]; intros par Hr; cbn in *; [by intros ?%elem_of_nil|].
  destruct Hr as (H1 & H2 & H3). rewrite elem_of_cons, elem_of_app. intros [->|[?|?]]; eauto.
Qed.

Lemma focus_size st k t : focus st k t -> (length (addrs t ++ addrs_ctx k) <= size (rb_nodes st))%nat.
Proof.
  intros Hf. rewrite <- addrs_plug. rewrite focus_plug in Hf. destruct Hf as [Ht _ Hnd _]. cbn in Hnd. rewrite app_nil_r in Hnd.
  apply NoDup_size; [done|]. intros a. by eapply repr_dom.
Qed.

Lemma ctx_length k : (length k <= length (addrs_ctx k))%nat.
Proof. induction k as [|f k IH]; cbn; [lia|]. rewrite length_app. lia. Qed.

Lemma focus_ctx_size st k t : focus st k t -> (length k <= size (rb_nodes st))%nat.
Proof. intros Hf%focus_size. pose proof (ctx_length k). rewrite length_app in Hf. lia. Qed.

(** ** States that are red-black trees *)

(** The state is a red-black tree with the nodes [l] in this order. *)
Definition is_rb (st : rb_state) (l : list Z) : Prop := exists t, focus st [] t /\ rb_tree t /\ inorder t = l.

Lemma is_rb_intro st k t n : focus st k t -> rb_ctx n k -> rb n t -> col t = Black \/ allows_red k ->
  is_rb st (before k ++ inorder t ++ after k).
Proof.
  intros Hf Hk Ht Hc. exists (plug k t). rewrite <- focus_plug. split; [done|]. split; [by eapply rb_plug|apply inorder_plug].
Qed.

Lemma same_but_refl l st : same_but l st st.
Proof. done. Qed.

Lemma same_but_trans l l1 l2 st st1 st2 : l1 ≡ₚ l -> l2 ≡ₚ l -> same_but l1 st st1 -> same_but l2 st1 st2 -> same_but l st st2.
Proof. intros H1 H2 S1 S2 a Ha. rewrite S2, S1; [done|by rewrite H1|by rewrite H2]. Qed.

Lemma same_but_focus l0 k t st0 st st' :
  before k ++ inorder t ++ after k = l0 -> same_but l0 st0 st -> same_but (addrs t ++ addrs_ctx k) st st' -> same_but l0 st0 st'.
Proof. intros <- H1 H2. eapply same_but_trans; [reflexivity|apply addrs_zipper|done|done]. Qed.
