(* ===== verification/RbInsert.v ===== *)
(** Insertion: [rb_link_node] and [rb_insert_color]. *)
From stdpp Require Import gmap.
From S2P Require Import Prelude State RbDefs RbTree.

(** ** The three cases *)

Section cases.
Context (h : gmap Z rb_node) (rt : Z) (k : ctx) (s : side) (p g : Z) (u : tree).

(** The uncle is black: rotation at the grandparent. *)
Lemma insert_outer n sib :
  col u = Black -> col sib = Black -> ptr n <> 0 ->
  focus (mkRbState h rt) k (mkT s Black (mkT s Red n p sib) g u) ->
  wp (insert_case dummy_rotate s (ptr n) p g (ptr u))
    (fun o st => o = inr tt /\ focus st k (mkT s Black n p (mkT s Red sib g u)) /\
       same_but (addrs (mkT s Black (mkT s Red n p sib) g u) ++ addrs_ctx k) (mkRbState h rt) st) (mkRbState h rt).
Proof.
  intros Hu Hsib Hn0 Hf. pose proof (focus_zero _ _ _ Hf) as H0. pose proof Hf as [Ht Hc Hnd Hok].
  unfold insert_case.
  assert (Hp : parent_ok (up k)) by (by eapply focus_up_ok).
  destruct s; cbn [mkT opp] in *; cbn in Ht, Hc, Hnd, Hok, H0; destruct_and? Ht;
    distinct Hnd; distinct H0; all_ok Hok.
  all: apply wp_bind; eapply wp_nonnull_and_red; [done|by apply addr_parent_ok|done|]; rewrite Hu, bool_decide_false by done.
  all: rb_unfold; repeat rb_action; cbn [child rb_right rb_left]; rewrite (proj2 (Z.eqb_neq (ptr n) (ptr sib))) by apart.
  all: repeat rb_action; cbn; eapply wp_reparent_black; [untouched| |done|done].
  all: rb_action; eapply wp_mono; [eapply (rotate_set_parents_ok _ _ k Black Red); try apart; [cell|cell|done|untouched]|].
  all: cbn; intros _ st (Q1 & Q2 & Q3 & Q4); repeat rb_action; (split; [done|]); (split; [|outside Q4]);
    (eapply focus_intro; [exact Hf| |done|]); [|cbn; rewrite <- ?app_assoc; done].
  all: cbn; rewrite Q2, Q3; cbn; split_and!; try done; (eapply repr_after; [exact Q4|apart|apart|known|untouched]).
Qed.

(** The node is on the inner side: rotation at the parent before that. *)
Lemma insert_inner n b1 b2 sib :
  col u = Black -> col b1 = Black -> col b2 = Black -> ptr sib <> n ->
  focus (mkRbState h rt) k (mkT s Black (mkT s Red sib p (mkT s Red b1 n b2)) g u) ->
  wp (insert_case dummy_rotate s n p g (ptr u))
    (fun o st => o = inr tt /\ focus st k (mkT s Black (mkT s Red sib p b1) n (mkT s Red b2 g u)) /\
       same_but (addrs (mkT s Black (mkT s Red sib p (mkT s Red b1 n b2)) g u) ++ addrs_ctx k) (mkRbState h rt) st) (mkRbState h rt).
Proof.
  intros Hu Hb1 Hb2 Hsib Hf. pose proof (focus_zero _ _ _ Hf) as H0. pose proof Hf as [Ht Hc Hnd Hok].
  unfold insert_case.
  assert (Hp : parent_ok (up k)) by (by eapply focus_up_ok).
  destruct s; cbn [mkT opp] in *; cbn in Ht, Hc, Hnd, Hok, H0; destruct_and? Ht; distinct Hnd; distinct H0; all_ok Hok.
  all: apply wp_bind; eapply wp_nonnull_and_red; [done|by apply addr_parent_ok|done|]; rewrite Hu, bool_decide_false by done.
  all: rb_unfold; repeat rb_action; cbn [child rb_right rb_left]; rewrite Z.eqb_refl; repeat rb_action; cbn.
  all: eapply wp_reparent_black; [untouched| |done|done]; repeat rb_action; cbn; repeat rb_action; cbn.
  all: eapply wp_reparent_black; [untouched| |done|done].
  all: rb_action; eapply wp_mono; [eapply (rotate_set_parents_ok _ _ k Black Red); try apart; [cell|cell|done|untouched]|].
  all: cbn; intros _ st (Q1 & Q2 & Q3 & Q4); repeat rb_action; (split; [done|]); (split; [|outside Q4]);
    (eapply focus_intro; [exact Hf| |done|]); [|cbn; rewrite <- ?app_assoc; cbn; rewrite <- ?app_assoc; done].
  all: cbn; rewrite Q2, Q3, Q4 by apart; cbn; split_and!; try done; first [cell | (eapply repr_after; [exact Q4|apart|apart|known|untouched])].
Qed.

(** The uncle is red: the colours move up. *)
Lemma insert_recolor s1 n sib :
  col u = Red ->
  focus (mkRbState h rt) k (mkT s Black (mkT s1 Red n p sib) g u) ->
  wp (insert_case dummy_rotate s (ptr n) p g (ptr u))
    (fun o st => o = inl (g, up k) /\ focus st k (mkT s Red (mkT s1 Black n p sib) g (recolor Black u)) /\
       same_but (addrs (mkT s Black (mkT s1 Red n p sib) g u) ++ addrs_ctx k) (mkRbState h rt) st) (mkRbState h rt).
Proof.
  intros Hu Hf. pose proof (focus_zero _ _ _ Hf) as H0. pose proof Hf as [Ht Hc Hnd Hok].
  unfold insert_case.
  assert (Hp : parent_ok (up k)) by (by eapply focus_up_ok). destruct u as [|cu ul ua ur]; [done|]. cbn in Hu. subst cu.
  destruct s, s1; cbn [mkT opp] in *; cbn in Ht, Hc, Hnd, Hok, H0; destruct_and? Ht; distinct Hnd; distinct H0; all_ok Hok.
  all: apply wp_bind; eapply wp_nonnull_and_red; [cbn; eauto|by apply addr_parent_ok|cbn; rewrite Forall_cons, Forall_app; auto|].
  all: cbn [col ptr]; rewrite bool_decide_true by done; rb_unfold; repeat rb_action; cbn; rewrite pack_parent by done; repeat rb_action.
  all: (split; [done|]); (split; [|outside_writes idtac]); (eapply focus_intro; [exact Hf| |cbn; untouched|done]);
    cbn; split_and!; first [cell | untouched].
Qed.
End cases.

(** ** The loop *)

Definition insert_inv (l0 : list Z) (st0 : rb_state) (n : nat) (x : Z * Z) (st : rb_state) : Prop :=
  exists k l r m, n = length k /\ x.2 = up k /\ focus st k (T Red l x.1 r) /\ rb m l /\ rb m r /\ col l = Black /\ col r = Black /\
    rb_ctx m k /\ before k ++ inorder (T Red l x.1 r) ++ after k = l0 /\ same_but l0 st0 st.

(** What a case of the loop leaves. *)
Definition insert_post (l0 : list Z) (st0 : rb_state) (n : nat) (o : Z * Z + unit) (st : rb_state) : Prop :=
  match o with inl x => exists n', (n' < n)%nat /\ insert_inv l0 st0 n' x st | inr _ => is_rb st l0 /\ same_but l0 st0 st end.

Section step.
Context (l0 : list Z) (st0 : rb_state) (h : gmap Z rb_node) (rt : Z) (l r sib u : tree) (node p g : Z) (k : ctx) (m : nat) (s1 s2 : side).
Let nt : tree := T Red l node r.
Let two : tree := mkT s2 Black (mkT s1 Red nt p sib) g u.
Hypothesis Hf : focus (mkRbState h rt) k two.
Hypothesis Hnt : rb m nt.
Hypothesis Hsib : rb m sib.
Hypothesis Hcs : col sib = Black.
Hypothesis Hu : rb m u.
Hypothesis Hk : rb_ctx (S m) k.
Hypothesis Ho : before k ++ inorder two ++ after k = l0.
Hypothesis Hsame : same_but l0 st0 (mkRbState h rt).

Lemma two_zero : node <> 0 /\ ptr sib <> node.
Proof.
  pose proof (focus_zero _ _ _ Hf) as H0. destruct Hf as [_ _ Hnd _]. unfold two, nt in *.
  destruct s1, s2; cbn in H0, Hnd; distinct H0; distinct Hnd; (split; [congruence|apart]).
Qed.

Lemma recolor_step : col u = Red ->
  wp (insert_case dummy_rotate s2 node p g (ptr u)) (insert_post l0 st0 (S (S (length k)))) (mkRbState h rt).
Proof.
  intros Hcu. eapply wp_mono; [apply (insert_recolor h rt k s2 p g u s1 nt sib Hcu Hf)|]. intros o st (-> & Hf2 & Hs2).
  exists (length k). split; [lia|].
  assert (Hsh : exists l' r', mkT s2 Red (mkT s1 Black nt p sib) g (recolor Black u) = T Red l' g r' /\
    rb (S m) l' /\ rb (S m) r' /\ col l' = Black /\ col r' = Black).
  { assert (rb (S m) (mkT s1 Black nt p sib)) by (by apply rb_mkT_black). assert (rb (S m) (recolor Black u)) by (by apply rb_recolor).
    destruct s2; cbn; eexists _, _; (split; [done|]); split_and!; try done; rewrite ?col_mkT, ?col_recolor; done. }
  destruct Hsh as (l' & r' & Heq & H1 & H2 & H3 & H4). rewrite Heq in Hf2. exists k, l', r', (S m). cbn [fst snd]. split_and!; try done.
  - rewrite <- Ho, <- Heq. f_equal. f_equal. unfold two. destruct s1, s2; cbn; by rewrite ?inorder_recolor.
  - by eapply same_but_focus; [|exact Hsame|exact Hs2].
Qed.

Lemma outer_step : col u = Black -> s1 = s2 ->
  wp (insert_case dummy_rotate s2 node p g (ptr u)) (insert_post l0 st0 (S (S (length k)))) (mkRbState h rt).
Proof.
  intros Hcu Hs. destruct two_zero as [Hn0 _]. unfold two in *. rewrite Hs in *.
  eapply wp_mono; [apply (insert_outer h rt k s2 p g u nt sib Hcu Hcs Hn0 Hf)|].
  intros o st (-> & Hf2 & Hs2). split; [|by eapply same_but_focus; [|exact Hsame|exact Hs2]]. rewrite <- Ho.
  replace (inorder (mkT s2 Black (mkT s2 Red nt p sib) g u)) with (inorder (mkT s2 Black nt p (mkT s2 Red sib g u)))
    by (destruct s2; cbn; rewrite <- ?app_assoc; done).
  inversion Hnt; subst. eapply is_rb_intro; [done|done| |by left; rewrite col_mkT]. apply rb_mkT_black; [done|]. by apply rb_mkT_red.
Qed.

Lemma inner_step : col u = Black -> s1 <> s2 ->
  wp (insert_case dummy_rotate s2 node p g (ptr u)) (insert_post l0 st0 (S (S (length k)))) (mkRbState h rt).
Proof.
  intros Hcu Hne. destruct two_zero as [_ Hsn]. unfold two, nt in *.
  set (b1 := match s2 with Lft => l | Rgt => r end). set (b2 := match s2 with Lft => r | Rgt => l end).
  assert (Hshape : mkT s1 Red (T Red l node r) p sib = mkT s2 Red sib p (mkT s2 Red b1 node b2)) by (unfold b1, b2; destruct s1, s2; done).
  assert (Hb : rb m b1 /\ rb m b2 /\ col b1 = Black /\ col b2 = Black) by (unfold b1, b2; inversion Hnt; by destruct s2).
  destruct Hb as (Hb1 & Hb2 & Hc1 & Hc2). rewrite Hshape in *.
  eapply wp_mono; [apply (insert_inner h rt k s2 p g u node b1 b2 sib Hcu Hc1 Hc2 Hsn Hf)|].
  intros o st (-> & Hf2 & Hs2). split; [|by eapply same_but_focus; [|exact Hsame|exact Hs2]]. rewrite <- Ho.
  replace (inorder (mkT s2 Black (mkT s2 Red sib p (mkT s2 Red b1 node b2)) g u))
    with (inorder (mkT s2 Black (mkT s2 Red sib p b1) node (mkT s2 Red b2 g u)))
    by (destruct s2; cbn; rewrite <- ?app_assoc; cbn; rewrite <- ?app_assoc; done).
  eapply is_rb_intro; [done|done| |by left; rewrite col_mkT]. apply rb_mkT_black; by apply rb_mkT_red.
Qed.
End step.

(** The parent is red, so there is a grandparent. *)
Lemma insert_red_parent l0 st0 h rt l r node s1 p sib k m :
  let kk := mkF s1 Red p sib :: k in
  focus (mkRbState h rt) kk (T Red l node r) -> rb m (T Red l node r) -> rb_ctx m kk ->
  before kk ++ inorder (T Red l node r) ++ after kk = l0 -> same_but l0 st0 (mkRbState h rt) ->
  wp (tmp ← get_child Rgt (up k);
      if negb (p =? tmp) then insert_case dummy_rotate Lft node p (up k) tmp
      else tmp ← get_child Lft (up k); insert_case dummy_rotate Rgt node p (up k) tmp)
    (insert_post l0 st0 (length kk)) (mkRbState h rt).
Proof.
  intros kk Hf Hnt Hk Ho Hsame. inversion Hk as [| |? ? ? ? ? Hs Hcs Hall Hk1]; subst.
  destruct k as [|[s2 c2 g u] k]; [done|]. cbn in Hall. subst c2. inversion Hk1 as [|? ? ? ? ? Hu Hk2|]; subst.
  pose proof (focus_zero _ _ _ Hf) as H0. pose proof Hf as [_ Hc Hnd _]. cbn in Hc. destruct Hc as (_ & _ & Hg & _ & _).
  unfold kk in *. rewrite !focus_up in Hf. unfold fill in Hf. cbn [f_side f_col f_addr f_sib] in Hf. cbn [up f_addr].
  assert (Hcase : wp (insert_case dummy_rotate s2 node p g (ptr u)) (insert_post (before kk ++ inorder (T Red l node r) ++ after kk) st0
    (S (S (length k)))) (mkRbState h rt)).
  { destruct (col u) eqn:Hcu; [eapply (recolor_step _ _ _ _ l r sib u node p g k m s1 s2)|destruct (decide (s1 = s2)) as [->|Hne];
      [eapply (outer_step _ _ _ _ l r sib u node p g k m s2 s2)|eapply (inner_step _ _ _ _ l r sib u node p g k m s1 s2)]];
      try done; by rewrite <- !inorder_plug. }
  apply wp_bind. eapply wp_get_child; [exact Hg|]. destruct s2; cbn [child frame_node f_side rb_right rb_left f_sib].
  - assert (Hpu : p <> ptr u) by (cbn in Hnd, H0; distinct Hnd; distinct H0; apart).
    rewrite (proj2 (Z.eqb_neq p (ptr u))) by done. exact Hcase.
  - rewrite Z.eqb_refl. cbn [negb]. apply wp_bind. eapply wp_get_child; [exact Hg|]. exact Hcase.
Qed.

Lemma insert_step_ok l0 st0 n x st : insert_inv l0 st0 n x st -> wp (insert_step dummy_rotate x) (insert_post l0 st0 n) st.
Proof.
  destruct x as [node parent], st as [h rt]. intros (k & l & r & m & -> & Hpar & Hf & Hl & Hr & Hcl & Hcr & Hk & Ho & Hsame).
  cbn [fst snd] in *. subst parent. pose proof (focus_zero _ _ _ Hf) as H0. unfold insert_step.
  destruct k as [|[s1 c1 p sib] k]; cbn [up f_addr].
  - rewrite Z.eqb_refl. pose proof Hf as [Ht Hc Hnd Hok]. cbn in Ht, Hc, Hnd. destruct Ht as (H1 & H2 & H3). distinct Hnd.
    rb_unfold. repeat rb_action. split.
    + exists (T Black l node r). split; [|split; [split; [done|exists (S m); by constructor]|]].
      * eapply focus_intro; [exact Hf| |exact Hc|done]. cbn. split_and!; [cell|untouched|untouched].
      * rewrite <- Ho. cbn. by rewrite app_nil_r.
    + eapply same_but_focus; [exact Ho|exact Hsame|]. outside_writes idtac.
  - assert (Hp0 : p <> 0) by (cbn in H0; distinct H0; congruence). rewrite (proj2 (Z.eqb_neq p 0)) by done.
    pose proof Hf as [_ Hc _ _]. cbn in Hc. destruct Hc as (H1 & _ & _).
    assert (Hup : parent_ok (up k)) by (pose proof Hf as Hf'; rewrite focus_up in Hf'; by eapply focus_up_ok).
    assert (Hpc : __rb_parent_color (frame_node (mkF s1 c1 p sib) (up k) node) = pack (up k) c1) by (by destruct s1).
    apply wp_bind. unfold rb_is_black. apply wp_bind. eapply wp_get_pc; [exact H1|]. apply wp_ret. rewrite Hpc, pack_is_black by done.
    destruct c1.
    + rewrite bool_decide_false by done. apply wp_bind. eapply wp_get_pc; [exact H1|]. rewrite Hpc, pack_red.
      eapply insert_red_parent; try done. by constructor.
    + rewrite bool_decide_true by done. apply wp_ret. split; [|done]. rewrite <- Ho.
      eapply is_rb_intro; [exact Hf|exact Hk| |by right]. by constructor.
Qed.

(** ** Insertion *)

(** The member of the parent that a hole is. *)
Definition link_of (k : ctx) : option side := match k with [] => None | f :: _ => Some (f_side f) end.

Lemma rb_link_ok st k node :
  focus st k E -> addr_ok node -> node ∉ addrs_ctx k -> is_Some (rb_nodes st !! node) ->
  wp (rb_link_node node (up k) (link_of k))
    (fun _ st' => focus st' k (T Red E node E) /\ same_but (node :: addrs_ctx k) st st') st.
Proof.
  destruct st as [h rt]. intros [_ Hc Hnd Hok] Hn Hnin [n0 Hn0]. cbn in Hn0, Hc, Hnd, Hok. unfold rb_link_node, set_child.
  assert (Hok' : Forall addr_ok (addrs (T Red E node E) ++ addrs_ctx k)) by (by constructor).
  assert (Hnd' : NoDup (addrs (T Red E node E) ++ addrs_ctx k)) by (by constructor).
  apply wp_bind. eapply wp_update; [done|]. destruct k as [|[s c a sib] k]; cbn [link_of up f_addr f_side].
  - apply wp_set_root. split; [|intros b Hb; cbn in Hb; distinct Hb; cbn; by rewrite lookup_insert_ne by congruence].
    constructor; [|done..]. cbn. rewrite lookup_insert_eq. by rewrite pack_red.
  - cbn in Hc. destruct Hc as (H1 & H2 & H3). cbn in Hnin, Hnd. distinct Hnin. distinct Hnd.
    eapply wp_update; [cbn; rewrite lookup_insert_ne by congruence; exact H1|].
    split; [|outside_writes idtac]. constructor; [| |done..].
    + cbn. rewrite pack_red. split; [cell|done].
    + cbn. split_and!; [rewrite lookup_insert_eq; by destruct s|untouched|untouched].
Qed.

(** What every user of the trees does at the place it found. *)
Definition rb_add (node parent : Z) (link : option side) : RB unit :=
  rb_link_node node parent link;;
  rb_insert_color node.

Lemma rb_add_ok st k node :
  focus st k E -> rb_tree (plug k E) -> addr_ok node -> node ∉ addrs_ctx k -> is_Some (rb_nodes st !! node) ->
  wp (rb_add node (up k) (link_of k))
    (fun _ st' => is_rb st' (before k ++ node :: after k) /\ same_but (before k ++ node :: after k) st st') st.
Proof.
  intros Hf Hrb Hn Hnin Hsome. apply rb_plug_inv in Hrb as (m & Hk & Hm & _). inversion Hm; subst.
  assert (Hperm : node :: addrs_ctx k ≡ₚ before k ++ node :: after k) by (apply (addrs_zipper k (T Red E node E))).
  apply wp_bind. eapply wp_mono; [by apply rb_link_ok|]. intros [] st1 [Hf1 Hs1].
  unfold rb_insert_color, __rb_insert, rb_red_parent. destruct st1 as [h rt]. pose proof Hf1 as [[Hpc _] _ _ _]. cbn in Hpc.
  apply wp_bind. eapply wp_get_pc; [exact Hpc|]. cbn [__rb_parent_color]. rewrite pack_red.
  eapply (rb_while_ok (insert_inv (before k ++ node :: after k) st)); [|by eapply (focus_ctx_size _ k)|].
  - intros n x st2 Hinv. eapply wp_mono; [by apply insert_step_ok|]. intros [x'|[]] st3; [done|]. exact (fun H => H).
  - exists k, E, E, 0%nat. split_and!; try done. intros a Ha. apply Hs1. by rewrite Hperm.
Qed.

(** C10.  Linking a new node at an empty place of a red-black tree and calling
    [rb_insert_color] terminates and leaves a red-black tree, with the new node
    at this place in the order of the nodes and all others in the order they
    had; no cell outside the tree is written. *)
Theorem rb_insert_correct st k node :
  focus st k E -> rb_tree (plug k E) -> addr_ok node -> node ∉ addrs_ctx k -> is_Some (rb_nodes st !! node) ->
  exists st', rb_add node (up k) (link_of k) st = Ok (tt, st') /\
    is_rb st' (before k ++ node :: after k) /\ same_but (before k ++ node :: after k) st st'.
Proof.
  intros Hf Hrb Hn Hnin Hsome. destruct (rb_add_ok st k node Hf Hrb Hn Hnin Hsome) as ([] & st' & Heq & HQ). by exists st'.
Qed.
