(* ===== verification/RbErase.v ===== *)
(** Removal: [rb_erase]. *)
From stdpp Require Import gmap.
From S2P Require Import Prelude State RbDefs RbTree.

(** ** The cases of [____rb_erase_color] *)

Section cases.
Context (h : gmap Z rb_node) (rt : Z) (k : ctx) (s : side) (c : color) (p a : Z) (t : tree).

(** Case 1: the sibling is red. *)
Lemma erase_case1 sl sr :
  col sl = Black -> sl <> E -> focus (mkRbState h rt) k (mkT s Black t p (mkT s Red sl a sr)) ->
  wp (tmp1 ← get_child s a;
      set_child (opp s) p tmp1;;
      set_child s a p;;
      rb_set_parent_color tmp1 p RB_BLACK;;
      __rb_rotate_set_parents p a RB_RED;;
      dummy_rotate p a;;
      mret tmp1)
    (fun o st => o = ptr sl /\ focus st k (mkT s Black (mkT s Red t p sl) a sr) /\
       same_but (addrs (mkT s Black t p (mkT s Red sl a sr)) ++ addrs_ctx k) (mkRbState h rt) st) (mkRbState h rt).
Proof.
  intros Hsl Hne Hf. pose proof (focus_zero _ _ _ Hf) as H0. pose proof Hf as [Ht Hc Hnd Hok].
  assert (Hp : parent_ok (up k)) by (by eapply focus_up_ok). destruct sl as [|cl ll la lr]; [done|]. cbn in Hsl. subst cl.
  destruct s; cbn [mkT opp] in *; cbn in Ht, Hc, Hnd, Hok, H0; destruct_and? Ht; distinct Hnd; distinct H0; all_ok Hok.
  all: unfold rb_set_parent_color, set_child, set_pc, dummy_rotate; repeat rb_action; cbn; repeat rb_action.
  all: eapply wp_mono; [eapply (rotate_set_parents_ok _ _ k Black Red); try apart; [cell|cell|done|untouched]|].
  all: cbn; intros _ st (Q1 & Q2 & Q3 & Q4); repeat rb_action; (split; [done|]); (split; [|outside Q4]);
    (eapply focus_intro; [exact Hf| |done|]); [|cbn; rewrite <- ?app_assoc; cbn; rewrite <- ?app_assoc; done].
  all: cbn; rewrite Q2, Q3, Q4 by apart; cbn; split_and!; try done; first [cell | (eapply repr_after; [exact Q4|apart|apart|known|untouched])].
Qed.

(** Case 2: both children of the sibling are black. *)
Lemma erase_recolor sl sr :
  focus (mkRbState h rt) k (mkT s c t p (mkT s Black sl a sr)) ->
  wp (rb_set_parent_color a p RB_RED;;
      r ← rb_is_red p;
      if (r : bool) then rb_set_black p;; mret (inr tt)
      else
        q ← rb_parent p;
        if negb (q =? 0) then mret (inl (p, q)) else mret (inr tt))
    (fun o st => o = match c with Red => inr tt | Black => if up k =? 0 then inr tt else inl (p, up k) end /\
       focus st k (mkT s Black t p (mkT s Red sl a sr)) /\
       same_but (addrs (mkT s c t p (mkT s Black sl a sr)) ++ addrs_ctx k) (mkRbState h rt) st) (mkRbState h rt).
Proof.
  intros Hf. pose proof (focus_zero _ _ _ Hf) as H0. pose proof Hf as [Ht Hc Hnd Hok].
  assert (Hp : parent_ok (up k)) by (by eapply focus_up_ok).
  destruct s; cbn [mkT opp] in *; cbn in Ht, Hc, Hnd, Hok, H0; destruct_and? Ht; distinct Hnd; distinct H0; all_ok Hok.
  all: rb_unfold; repeat rb_action; cbn; rewrite pack_is_red by done.
  all: destruct c; [rewrite bool_decide_true by done; repeat rb_action; cbn; rewrite pack_black
    |rewrite bool_decide_false by done; repeat rb_action; cbn; rewrite pack_parent by done; destruct (up k =? 0); cbn; rb_action].
  all: (split; [done|]); (split; [|outside_writes idtac]); (eapply focus_intro; [exact Hf| |cbn; untouched|done]);
    cbn; split_and!; first [cell | untouched].
Qed.

(** Case 4: the far child of the sibling is red. *)
Lemma erase_far sl sr :
  col sr = Red -> focus (mkRbState h rt) k (mkT s c t p (mkT s Black sl a sr)) ->
  wp (erase_case4 dummy_rotate s p a (ptr sr))
    (fun o st => o = inr tt /\ focus st k (mkT s c (mkT s Black t p sl) a (recolor Black sr)) /\
       same_but (addrs (mkT s c t p (mkT s Black sl a sr)) ++ addrs_ctx k) (mkRbState h rt) st) (mkRbState h rt).
Proof.
  intros Hsr Hf. pose proof (focus_zero _ _ _ Hf) as H0. pose proof Hf as [Ht Hc Hnd Hok].
  unfold erase_case4. assert (Hp : parent_ok (up k)) by (by eapply focus_up_ok). destruct sr as [|cr rl ra rr]; [done|]. cbn in Hsr. subst cr.
  destruct s; cbn [mkT opp] in *; cbn in Ht, Hc, Hnd, Hok, H0; destruct_and? Ht; distinct Hnd; distinct H0; all_ok Hok.
  all: cbn [ptr]; unfold rb_set_parent_color, set_child, set_pc, dummy_rotate; repeat rb_action; cbn; repeat rb_action.
  all: eapply wp_reparent; [untouched| |by apply addr_parent_ok|done].
  all: rb_action; eapply wp_mono; [eapply (rotate_set_parents_ok _ _ k c Black); try apart; [cell|cell|done|untouched]|].
  all: cbn; intros _ st (Q1 & Q2 & Q3 & Q4); repeat rb_action; (split; [done|]); (split; [|outside Q4]);
    (eapply focus_intro; [exact Hf| |done|]); [|cbn; rewrite <- ?app_assoc; cbn; rewrite <- ?app_assoc; done].
  all: cbn; rewrite Q2, Q3, Q4 by apart; cbn; split_and!; try done; first [cell | (eapply repr_after; [exact Q4|apart|apart|known|untouched])].
Qed.

(** Case 3: only the near child is red. *)
Lemma erase_near sll slr b sr :
  col slr = Black -> focus (mkRbState h rt) k (mkT s c t p (mkT s Black (mkT s Red sll b slr) a sr)) ->
  wp (tmp1 ← get_child (opp s) b;
      set_child s a tmp1;;
      set_child (opp s) b a;;
      set_child (opp s) p b;;
      if_nonnull tmp1 (rb_set_parent_color tmp1 a RB_BLACK);;
      dummy_rotate a b;;
      erase_case4 dummy_rotate s p b a)
    (fun o st => o = inr tt /\ focus st k (mkT s c (mkT s Black t p sll) b (mkT s Black slr a sr)) /\
       same_but (addrs (mkT s c t p (mkT s Black (mkT s Red sll b slr) a sr)) ++ addrs_ctx k) (mkRbState h rt) st) (mkRbState h rt).
Proof.
  intros Hslr Hf. pose proof (focus_zero _ _ _ Hf) as H0. pose proof Hf as [Ht Hc Hnd Hok].
  unfold erase_case4. assert (Hp : parent_ok (up k)) by (by eapply focus_up_ok).
  destruct s; cbn [mkT opp] in *; cbn in Ht, Hc, Hnd, Hok, H0; destruct_and? Ht; distinct Hnd; distinct H0; all_ok Hok.
  all: unfold rb_set_parent_color, set_child, set_pc, dummy_rotate; repeat rb_action; cbn.
  all: eapply wp_reparent_black; [untouched| |done|done]; repeat rb_action; cbn; repeat rb_action; cbn.
  all: eapply wp_reparent; [untouched| |by apply addr_parent_ok|done].
  all: rb_action; eapply wp_mono; [eapply (rotate_set_parents_ok _ _ k c Black); try apart; [cell|cell|done|untouched]|].
  all: cbn; intros _ st (Q1 & Q2 & Q3 & Q4); repeat rb_action; (split; [done|]); (split; [|outside Q4]);
    (eapply focus_intro; [exact Hf| |done|]); [|cbn; rewrite <- ?app_assoc; cbn; rewrite <- ?app_assoc; done].
  all: cbn; rewrite Q2, Q3, Q4 by apart; cbn; split_and!; try done; first [cell | (eapply repr_after; [exact Q4|apart|apart|known|untouched])].
Qed.
End cases.

(** ** The loop *)

Definition erase_inv (l0 : list Z) (st0 : rb_state) (n : nat) (x : Z * Z) (st : rb_state) : Prop :=
  exists k s c t sib m, n = length k /\ x.1 = ptr t /\ focus st (mkF s c x.2 sib :: k) t /\ rb m t /\ col t = Black /\
    rb_ctx (S m) (mkF s c x.2 sib :: k) /\ before k ++ inorder (mkT s c t x.2 sib) ++ after k = l0 /\ same_but l0 st0 st.

(** What a case of the loop leaves. *)
Definition erase_post (l0 : list Z) (st0 : rb_state) (n : nat) (o : Z * Z + unit) (st : rb_state) : Prop :=
  match o with inl x => exists n', (n' < n)%nat /\ erase_inv l0 st0 n' x st | inr _ => is_rb st l0 /\ same_but l0 st0 st end.

(** The place of a node of colour [c] over trees of black height [m]. *)
Definition place (c : color) (m : nat) (k : ctx) : Prop :=
  match c with Red => rb_ctx m k /\ allows_red k | Black => rb_ctx (S m) k end.

Lemma place_rb st k s c m l a r :
  focus st k (mkT s c l a r) -> place c m k -> rb m l -> rb m r -> col l = Black -> col r = Black ->
  is_rb st (before k ++ inorder (mkT s c l a r) ++ after k).
Proof.
  intros Hf Hp Hl Hr H1 H2. destruct c; cbn in Hp.
  - destruct Hp as [Hk Ha]. eapply is_rb_intro; [done|done|by apply rb_mkT_red|by right].
  - eapply is_rb_intro; [done|done|by apply rb_mkT_black|left; apply col_mkT].
Qed.

(** The side of the tree on which [s] is near. *)
Lemma as_mkT s t : t <> E -> exists l r, t = mkT s (col t) l (ptr t) r.
Proof. destruct t as [|c l a r]; [done|]. intros _. destruct s; cbn; eauto. Qed.

Section rest.
Context (l0 : list Z) (st0 : rb_state) (h : gmap Z rb_node) (rt : Z) (k : ctx) (s : side) (c : color) (p a : Z) (t sl sr : tree) (m n : nat).
Let whole : tree := mkT s c t p (mkT s Black sl a sr).
Hypothesis Hf : focus (mkRbState h rt) k whole.
Hypothesis Ht : rb m t.
Hypothesis Hct : col t = Black.
Hypothesis Hsl : rb m sl.
Hypothesis Hsr : rb m sr.
Hypothesis Hk : place c (S m) k.
Hypothesis Hn : c = Red \/ (length k <= n)%nat.
Hypothesis Ho : before k ++ inorder whole ++ after k = l0.
Hypothesis Hsame : same_but l0 st0 (mkRbState h rt).

Lemma far_step : col sr = Red -> wp (erase_case4 dummy_rotate s p a (ptr sr)) (erase_post l0 st0 n) (mkRbState h rt).
Proof.
  intros Hc. eapply wp_mono; [by apply (erase_far h rt k s c p a t sl sr)|]. intros o st (-> & Hf2 & Hs2).
  split; [|by eapply same_but_focus; [|exact Hsame|exact Hs2]]. rewrite <- Ho. unfold whole.
  replace (inorder (mkT s c t p (mkT s Black sl a sr))) with (inorder (mkT s c (mkT s Black t p sl) a (recolor Black sr)))
    by (destruct s; cbn; rewrite inorder_recolor, <- ?app_assoc; done).
  eapply place_rb; [done|done|by apply rb_mkT_black|by apply rb_recolor|apply col_mkT|apply col_recolor].
Qed.

Lemma near_step : col sr = Black -> col sl = Red ->
  wp (tmp1 ← get_child (opp s) (ptr sl);
      set_child s a tmp1;;
      set_child (opp s) (ptr sl) a;;
      set_child (opp s) p (ptr sl);;
      if_nonnull tmp1 (rb_set_parent_color tmp1 a RB_BLACK);;
      dummy_rotate a (ptr sl);;
      erase_case4 dummy_rotate s p (ptr sl) a) (erase_post l0 st0 n) (mkRbState h rt).
Proof.
  intros Hcr Hc. destruct (as_mkT s sl) as (sll & slr & Heq); [by destruct sl|]. rewrite Hc in Heq.
  unfold whole in *. rewrite Heq in *. apply rb_mkT_inv in Hsl as (H1 & H2 & H3 & H4). rewrite !ptr_mkT.
  eapply wp_mono; [by apply (erase_near h rt k s c p a t sll slr (ptr sl) sr)|]. intros o st (-> & Hf2 & Hs2).
  split; [|by eapply same_but_focus; [|exact Hsame|exact Hs2]]. rewrite <- Ho.
  replace (inorder (mkT s c t p (mkT s Black (mkT s Red sll (ptr sl) slr) a sr)))
    with (inorder (mkT s c (mkT s Black t p sll) (ptr sl) (mkT s Black slr a sr)))
    by (destruct s; cbn; rewrite <- ?app_assoc; cbn; rewrite <- ?app_assoc; done).
  eapply place_rb; [done|done|by apply rb_mkT_black|by apply rb_mkT_black|apply col_mkT|apply col_mkT].
Qed.

Lemma black_step : col sr = Black -> col sl = Black ->
  wp (rb_set_parent_color a p RB_RED;;
      r ← rb_is_red p;
      if (r : bool) then rb_set_black p;; mret (inr tt)
      else
        q ← rb_parent p;
        if negb (q =? 0) then mret (inl (p, q)) else mret (inr tt)) (erase_post l0 st0 n) (mkRbState h rt).
Proof.
  intros Hcr Hcl. eapply wp_mono; [by apply (erase_recolor h rt k s c p a t sl sr)|]. intros o st (-> & Hf2 & Hs2).
  assert (Hrb : rb (S m) (mkT s Black t p (mkT s Red sl a sr))) by (apply rb_mkT_black; [done|by apply rb_mkT_red]).
  assert (Hs3 : same_but l0 st0 st) by (by eapply same_but_focus; [|exact Hsame|exact Hs2]).
  assert (Ho2 : before k ++ inorder (mkT s Black t p (mkT s Red sl a sr)) ++ after k = l0) by (rewrite <- Ho; unfold whole; by destruct s).
  destruct c; cbn in Hk.
  - destruct Hk as [Hk' Ha]. split; [|done]. rewrite <- Ho2. eapply is_rb_intro; [done|done|done|by right].
  - destruct k as [|[s1 c1 q u] k1]; cbn [up f_addr].
    + rewrite Z.eqb_refl. split; [|done]. rewrite <- Ho2. eapply is_rb_intro; [done|constructor|done|left; apply col_mkT].
    + assert (Hq : q <> 0) by (pose proof (focus_zero _ _ _ Hf2) as H0; cbn in H0; distinct H0; congruence).
      rewrite (proj2 (Z.eqb_neq q 0)) by done. exists (length k1). destruct Hn as [|Hn']; [done|]. cbn in Hn'. split; [lia|].
      exists k1, s1, c1, (mkT s Black t p (mkT s Red sl a sr)), u, (S m). cbn [fst snd]. rewrite ptr_mkT, col_mkT. split_and!; try done.
      rewrite <- Ho2. symmetry. rewrite <- !inorder_plug. done.
Qed.

Lemma erase_rest_ok : wp (erase_rest dummy_rotate s p a) (erase_post l0 st0 n) (mkRbState h rt).
Proof.
  pose proof Hf as [Hr _ _ Hok]. unfold whole in Hr, Hok. unfold erase_rest.
  assert (Ha : repr h p (mkT s Black sl a sr) /\ Forall addr_ok (addrs (mkT s Black sl a sr)) /\ addr_ok p).
  { destruct s; cbn in *; all_ok Hok; destruct_and? Hr; rewrite ?Forall_cons, ?Forall_app; auto. }
  destruct Ha as (Hr2 & Hok2 & Hp).
  assert (H : repr h a sl /\ repr h a sr /\ Forall addr_ok (addrs sl) /\ Forall addr_ok (addrs sr) /\ parent_ok a).
  { destruct s; cbn in *; all_ok Hok2; destruct_and? Hr2; split_and!; try done; by apply addr_parent_ok. }
  destruct H as (R1 & R2 & O1 & O2 & Ha).
  assert (Hc : exists na, h !! a = Some na /\ child (opp s) na = ptr sr /\ child s na = ptr sl).
  { destruct s; cbn in Hr2; destruct Hr2 as (H1 & _); eexists; (split; [exact H1|done]). }
  destruct Hc as (na & Hna & E1 & E2).
  apply wp_bind. eapply wp_get_child; [exact Hna|]. rewrite E1. apply wp_bind. eapply wp_null_or_black; [exact R2|done|done|].
  destruct (col sr) eqn:Hcr; [rewrite bool_decide_false by done; by apply far_step|rewrite bool_decide_true by done].
  apply wp_bind. eapply wp_get_child; [exact Hna|]. rewrite E2. apply wp_bind. eapply wp_null_or_black; [exact R1|done|done|].
  destruct (col sl) eqn:Hcl; [rewrite bool_decide_false by done; by apply near_step|rewrite bool_decide_true by done; by apply black_step].
Qed.
End rest.

(** A node one black node short has a sibling. *)
Lemma erase_case_ok l0 st0 h rt k s c p t sib m :
  focus (mkRbState h rt) k (mkT s c t p sib) -> rb m t -> col t = Black -> rb_ctx (S m) (mkF s c p sib :: k) ->
  before k ++ inorder (mkT s c t p sib) ++ after k = l0 -> same_but l0 st0 (mkRbState h rt) ->
  wp (erase_case dummy_rotate s p (ptr sib)) (erase_post l0 st0 (length k)) (mkRbState h rt).
Proof.
  intros Hf Ht Hct Hk Ho Hsame. assert (Hs : rb (S m) sib) by (by inversion Hk). assert (Hne : sib <> E) by (intros ->; inversion Hs).
  destruct (as_mkT s sib Hne) as (sl & sr & Heq).
  remember (col sib) as cs eqn:Hcs. remember (ptr sib) as a eqn:Ha. subst sib. clear Ha Hne.
  assert (Hpc : exists na, h !! a = Some na /\ __rb_parent_color na = pack p cs).
  { destruct Hf as [Hr _ _ _]. destruct s; cbn in Hr; destruct_and? Hr; eexists; (split; [eassumption|done]). }
  assert (Hp : parent_ok p) by (destruct Hf as [_ _ _ Hok]; destruct s; cbn in Hok; all_ok Hok; by apply addr_parent_ok).
  destruct Hpc as (na & Hna & Hpc). unfold erase_case. apply wp_bind. unfold rb_is_red. apply wp_bind. eapply wp_get_pc; [exact Hna|].
  apply wp_ret. rewrite Hpc, pack_is_red by done. destruct cs.
  - rewrite bool_decide_true by done. apply rb_mkT_inv in Hs as (H1 & H2 & H3 & H4).
    assert (c = Black /\ rb_ctx (S (S m)) k) as [-> Hk2].
    { inversion Hk as [|? ? ? ? ? ? Hk2|? ? ? ? ? ? Hb]; subst; [done|]. by rewrite col_mkT in Hb. }
    apply wp_bind. eapply wp_mono; [eapply (erase_case1 h rt k s p a t sl sr); [done| |done]; intros ->; inversion H1|].
    intros o [h1 rt1] (-> & Hf2 & Hs2). destruct (as_mkT s sl) as (sll & slr & Hsl); [intros ->; inversion H1|]. rewrite H3 in Hsl.
    assert (Hrb : rb m sll /\ rb m slr) by (rewrite Hsl in H1; apply rb_mkT_inv in H1 as (m' & [= <-] & ?); done).
    rewrite Hsl in Hf2.
    eapply (erase_rest_ok l0 st0 h1 rt1 (mkF s Black a sr :: k) s Red p (ptr sl) t sll slr m); try tauto.
    + by rewrite focus_up.
    + split; [by constructor|done].
    + rewrite <- Ho, <- !inorder_plug, <- Hsl. cbn [plug fill f_side f_col f_addr f_sib]. rewrite !inorder_plug. f_equal. f_equal. destruct s; cbn; rewrite <- ?app_assoc; cbn; rewrite <- ?app_assoc; done.
    + by eapply same_but_focus; [|exact Hsame|exact Hs2].
  - rewrite bool_decide_false by done. apply rb_mkT_inv in Hs as (m' & [= <-] & H1 & H2).
    apply wp_bind, wp_ret. eapply (erase_rest_ok l0 st0 h rt k s c p a t sl sr m); try done; [|by right].
    inversion Hk; subst; by cbn.
Qed.

Lemma erase_step_ok l0 st0 n x st : erase_inv l0 st0 n x st -> wp (erase_step dummy_rotate x) (erase_post l0 st0 n) st.
Proof.
  destruct x as [node p], st as [h rt]. intros (k & s & c & t & sib & m & -> & Hnode & Hf & Ht & Hct & Hk & Ho & Hsame).
  cbn [fst snd] in *. subst node. pose proof (focus_zero _ _ _ Hf) as H0. pose proof Hf as [_ Hc Hnd _].
  assert (Hne : sib <> E) by (intros ->; inversion Hk as [|? ? ? ? ? Hs|? ? ? ? ? Hs]; inversion Hs).
  assert (Hps : ptr t <> ptr sib).
  { destruct sib as [|cs l a r]; [done|]. destruct t as [|ct tl ta tr]; cbn in H0, Hnd |- *; distinct H0; distinct Hnd; congruence. }
  cbn in Hc. destruct Hc as (Hp & _). rewrite focus_up in Hf. unfold fill in Hf. cbn in Hf.
  pose proof (erase_case_ok l0 st0 h rt k s c p t sib m Hf Ht Hct Hk Ho Hsame) as Hcase.
  unfold erase_step. apply wp_bind. eapply wp_get_child; [exact Hp|]. destruct s; cbn [child frame_node f_side rb_right rb_left f_sib].
  - rewrite (proj2 (Z.eqb_neq _ _)) by done. exact Hcase.
  - rewrite Z.eqb_refl. cbn [negb]. apply wp_bind. eapply wp_get_child; [exact Hp|]. exact Hcase.
Qed.

(** Rebalancing below [parent], where a black node is missing. *)
Lemma erase_color_ok l0 st0 st k s c p sib :
  focus st (mkF s c p sib :: k) E -> rb_ctx 1 (mkF s c p sib :: k) ->
  before (mkF s c p sib :: k) ++ after (mkF s c p sib :: k) = l0 -> same_but l0 st0 st ->
  wp (____rb_erase_color p dummy_rotate) (fun _ st' => is_rb st' l0 /\ same_but l0 st0 st') st.
Proof.
  intros Hf Hk Ho Hsame. unfold ____rb_erase_color.
  eapply (rb_while_ok (erase_inv l0 st0)) with (n := length k).
  - intros n x st2 Hinv. eapply wp_mono; [by apply erase_step_ok|]. intros [x'|[]] st3; exact (fun H => H).
  - apply focus_ctx_size in Hf. cbn in Hf. lia.
  - exists k, s, c, E, sib, 0%nat. cbn [fst snd]. split_and!; try done; [constructor|].
    rewrite <- Ho. symmetry. pose proof (inorder_plug (mkF s c p sib :: k) E) as H. cbn [inorder app] in H. rewrite <- H, <- inorder_plug. done.
Qed.

(** ** Unlinking *)

(** Where a black node is missing after a node of colour [c] has made way for
    its only child. *)
Definition missing (k : ctx) (c : color) (r : tree) : Z := match r, c with E, Black => up k | _, _ => 0 end.

(** A state without the node [a]. *)
Lemma focus_without st0 k0 t0 a st k t :
  focus st0 k0 t0 -> addrs t0 ++ addrs_ctx k0 ≡ₚ a :: addrs t ++ addrs_ctx k ->
  repr (rb_nodes st) (up k) t -> repr_ctx st k (ptr t) -> focus st k t.
Proof.
  intros [_ _ Hnd Hok] Hp H1 H2. rewrite Hp in Hnd. rewrite Hp in Hok. apply NoDup_cons in Hnd as [_ Hnd]. apply Forall_cons in Hok as [_ Hok].
  by constructor.
Qed.

Lemma addrs_recolor c t : addrs (recolor c t) = addrs t.
Proof. by destruct t. Qed.

Lemma wp_propagate x y (Q : unit -> rb_state -> Prop) (st : rb_state) : Q tt st -> wp (propagate dummy_callbacks x y) Q st.
Proof. apply wp_ret. Qed.

Lemma wp_copy x y (Q : unit -> rb_state -> Prop) (st : rb_state) : Q tt st -> wp (copy dummy_callbacks x y) Q st.
Proof. apply wp_ret. Qed.

(** A node takes the place of another, with its colour. *)
Lemma repr_set_pc h par par' c t :
  t <> E -> repr h par t -> NoDup (addrs t) ->
  exists n, h !! ptr t = Some n /\ repr (<[ptr t := with_pc (pack par' c) n]> h) par' (recolor c t).
Proof.
  destruct t as [|cr rl ra rr]; [done|]. cbn. intros _ (R1 & R2 & R3) Hnd. distinct Hnd.
  eexists. split; [exact R1|]. cbn. rewrite lookup_insert_eq. split_and!; [done|untouched|untouched].
Qed.

Lemma unlink_no_left h rt k c a r :
  focus (mkRbState h rt) k (T c E a r) ->
  wp (__rb_erase_augmented a dummy_callbacks)
    (fun o st => o = missing k c r /\ focus st k (recolor c r) /\ same_but (addrs r ++ addrs_ctx k) (mkRbState h rt) st) (mkRbState h rt).
Proof.
  intros Hf. pose proof (focus_zero _ _ _ Hf) as H0. pose proof Hf as [Ht Hc Hnd Hok]. assert (Hp : parent_ok (up k)) by (by eapply focus_up_ok).
  cbn in Ht, Hc, Hnd, Hok, H0. destruct Ht as (H1 & _ & H2). distinct Hnd. distinct H0. all_ok Hok. unfold __rb_erase_augmented.
  repeat rb_action. cbn [child rb_left rb_right]. rewrite Z.eqb_refl. repeat rb_action. cbn [__rb_parent_color]. rewrite pack_parent by done.
  eapply wp_mono; [eapply (change_child_ok _ _ k a (ptr r)); try done; apart|]. intros _ [h1 rt1] (Q1 & Q2). cbn in Q2.
  assert (Hr1 : repr h1 a r) by (eapply repr_agree; [|done]; intros b Hb; apply Q2; set_solver).
  rewrite pack_is_black by done. destruct (decide (r = E)) as [->|Hne]; cbn [ptr] in *.
  - rewrite Z.eqb_refl. cbn [negb]. repeat rb_action. apply wp_propagate, wp_ret. split_and!.
    + by destruct c.
    + by eapply (focus_without _ _ _ a); [exact Hf|..].
    + intros b Hb. by apply Q2.
  - destruct (repr_set_pc h1 a (up k) c r Hne Hr1 ltac:(assumption)) as (n & Hn & Hr2).
    rewrite (proj2 (Z.eqb_neq (ptr r) 0)) by (by apply ptr_nonzero). cbn [negb].
    unfold set_pc. repeat rb_action. apply wp_propagate, wp_ret. split_and!.
    + by destruct r, c.
    + eapply (focus_without _ _ _ a); [exact Hf|by rewrite addrs_recolor|done|rewrite ptr_recolor; untouched].
    + intros b Hb. distinct Hb. cbn. rewrite lookup_insert_ne by (apply ptr_in in Hne; congruence). by apply Q2.
Qed.

Lemma unlink_no_right h rt k c a l :
  focus (mkRbState h rt) k (T c l a E) -> l <> E ->
  wp (__rb_erase_augmented a dummy_callbacks)
    (fun o st => o = 0 /\ focus st k (recolor c l) /\ same_but (addrs l ++ addrs_ctx k) (mkRbState h rt) st) (mkRbState h rt).
Proof.
  intros Hf Hne. pose proof (focus_zero _ _ _ Hf) as H0. pose proof Hf as [Ht Hc Hnd Hok]. assert (Hp : parent_ok (up k)) by (by eapply focus_up_ok).
  cbn in Ht, Hc, Hnd, Hok, H0. rewrite app_nil_r in Hnd, Hok, H0. destruct Ht as (H1 & H2 & _). distinct Hnd. distinct H0. all_ok Hok.
  destruct (repr_set_pc h a (up k) c l Hne H2 ltac:(assumption)) as (n & Hn & Hr2).
  unfold __rb_erase_augmented. repeat rb_action. cbn [child rb_left rb_right].
  rewrite (proj2 (Z.eqb_neq (ptr l) 0)) by (by apply ptr_nonzero). rewrite Z.eqb_refl. unfold set_pc. repeat rb_action.
  cbn [__rb_parent_color]. rewrite pack_parent by done.
  eapply wp_mono; [eapply (change_child_ok _ _ k a (ptr l)); first [done|untouched|apart]|]. intros _ [h1 rt1] (Q1 & Q2). cbn in Q2.
  repeat rb_action. apply wp_propagate, wp_ret. split_and!; [done| |].
  - eapply (focus_without _ _ _ a); [exact Hf|by rewrite addrs_recolor; cbn; rewrite app_nil_r| |by rewrite ptr_recolor].
    eapply repr_agree; [|exact Hr2]. intros b Hb. rewrite addrs_recolor in Hb. apply Q2. set_solver.
  - intros b Hb. distinct Hb. cbn. rewrite Q2, lookup_insert_ne by (done || apply ptr_in in Hne; congruence). done.
Qed.

(** *** The successor in the right subtree *)

(** The part of a context below its parent [par]. *)
Fixpoint repr_seg (h : gmap Z rb_node) (par : Z) (k : ctx) (p : Z) : Prop :=
  match k with
  | [] => True
  | f :: k => h !! f_addr f = Some (frame_node f (match k with [] => par | g :: _ => f_addr g end) p) /\
              repr h (f_addr f) (f_sib f) /\ repr_seg h par k (f_addr f)
  end.

(** The node that the part has at its top. *)
Fixpoint top (k : ctx) (p : Z) : Z := match k with [] => p | f :: k => top k (f_addr f) end.

Lemma repr_ctx_app st k1 k2 p :
  repr_ctx st (k1 ++ k2) p <-> repr_seg (rb_nodes st) (up k2) k1 p /\ repr_ctx st k2 (top k1 p).
Proof.
  revert p. induction k1 as [|f k1 IH]; intros p; cbn; [tauto|]. rewrite IH.
  assert (Hup : up (k1 ++ k2) = match k1 with [] => up k2 | g :: _ => f_addr g end) by (by destruct k1). rewrite Hup. tauto.
Qed.

Lemma addrs_ctx_app k1 k2 : addrs_ctx (k1 ++ k2) = addrs_ctx k1 ++ addrs_ctx k2.
Proof. induction k1; cbn; [done|]. by rewrite IHk1, <- app_assoc. Qed.

Lemma ptr_plug k t : ptr (plug k t) = top k (ptr t).
Proof. revert t. induction k as [|f k IH]; intros t; cbn; [done|]. rewrite IH. unfold fill. by destruct (f_side f). Qed.

Lemma repr_seg_agree h h' par k p : (forall a, a ∈ addrs_ctx k -> h' !! a = h !! a) -> repr_seg h par k p -> repr_seg h' par k p.
Proof.
  revert p. induction k as [|f k IH]; intros p Ha Hr; cbn in *; [done|]. destruct Hr as (R1 & R2 & R3). split_and!.
  - rewrite Ha; [done|left].
  - eapply repr_agree; [|done]. intros a ?. apply Ha. right. apply elem_of_app. by left.
  - apply IH; [|done]. intros a ?. apply Ha. right. apply elem_of_app. by right.
Qed.

Lemma repr_seg_insert h par k p a n : a ∉ addrs_ctx k -> repr_seg h par k p -> repr_seg (<[a := n]> h) par k p.
Proof. intros Ha. apply repr_seg_agree. intros b Hb. apply lookup_insert_ne. congruence. Qed.

Lemma repr_seg_reparent_ne h par k p q t : disj (addrs t) (addrs_ctx k) -> repr_seg h par k p -> repr_seg (reparent q t h) par k p.
Proof. intros Ha. apply repr_seg_agree. intros b Hb. apply reparent_ne. intros Hin. by eapply Ha. Qed.

(** A new parent for the top. *)
Lemma repr_seg_reparent h par par' k p :
  k <> [] -> repr_seg h par k p -> NoDup (addrs_ctx k) ->
  top k p ∈ addrs_ctx k /\ exists n c, h !! top k p = Some n /\ __rb_parent_color n = pack par c /\
    repr_seg (<[top k p := with_pc (pack par' c) n]> h) par' k p.
Proof.
  revert p. induction k as [|[s c a sib] k IH]; intros p Hne Hr Hnd; [done|]. cbn in *. destruct Hr as (R1 & R2 & R3). distinct Hnd.
  destruct k as [|g k].
  - cbn. split; [by left|]. eexists _, c. split; [exact R1|]. split; [by destruct s|]. rewrite lookup_insert_eq. split_and!; [by destruct s|untouched|done].
  - destruct (IH a) as (Hin & n & c' & Hn & Hpc & Hs); [done|done|done|]. split; [right; apply elem_of_app; by right|].
    exists n, c'. split; [done|]. split; [done|]. rewrite lookup_insert_ne by congruence. split_and!; [done| |done].
    apply repr_insert; [|done]. intros Hin2. by eapply H0.
Qed.

Lemma wp_set_parent h r par p t (Q : unit -> rb_state -> Prop) :
  repr h par t -> t <> E -> parent_ok par -> Forall addr_ok (addrs t) ->
  Q tt (mkRbState (reparent p t h) r) -> wp (rb_set_parent (ptr t) p) Q (mkRbState h r).
Proof.
  intros Hr Hne Hp Hok HQ. pose proof (wp_reparent h r par p t Q Hr HQ Hp Hok) as Hw. unfold if_nonnull in Hw.
  rewrite (proj2 (Z.eqb_neq (ptr t) 0)) in Hw; [done|]. apply ptr_in in Hne. rewrite Forall_forall in Hok. apply Hok in Hne. unfold addr_ok in Hne. lia.
Qed.

Lemma erase_replace_end k kr c a s l rs st ns (h : gmap Z rb_node) :
  NoDup (s :: addrs rs ++ addrs_ctx kr ++ a :: addrs l ++ addrs_ctx k) ->
  rb_nodes st !! s = Some ns -> __rb_parent_color ns = pack (up k) c -> rb_left ns = ptr l -> rb_right ns = top kr (ptr rs) ->
  repr (rb_nodes st) s l -> repr_ctx st k s -> repr_seg h s kr (ptr rs) ->
  (forall b, b ∉ s :: addrs rs ++ addrs l ++ addrs_ctx k -> rb_nodes st !! b = h !! b) ->
  repr_ctx st (kr ++ mkF Rgt c s l :: k) (ptr rs).
Proof.
  intros Hnd Hs H1 H2 H3 Rl Rk Rseg Hsame. rewrite repr_ctx_app. split.
  - eapply repr_seg_agree; [|exact Rseg]. intros b Hb. apply Hsame. distinct Hnd. set_solver.
  - cbn. rewrite Hs. split_and!; [|done|done]. destruct ns. cbn in *. by subst.
Qed.

Section two_children.
Context (k kr : ctx) (c cs : color) (a s : Z) (l rs : tree).
Let nodes : list Z := s :: addrs rs ++ addrs_ctx kr ++ a :: addrs l ++ addrs_ctx k.
Let kk : ctx := kr ++ mkF Rgt c s l :: k.
Hypothesis Hnd : NoDup nodes.
Hypothesis Hok : Forall addr_ok nodes.
Hypothesis Hl : l <> E.

Lemma erase_replace_ok h rt na ns sp :
  h !! a = Some na -> __rb_parent_color na = pack (up k) c -> rb_left na = ptr l -> repr h a l -> repr_ctx (mkRbState h rt) k a ->
  h !! s = Some ns -> __rb_parent_color ns = pack sp cs -> parent_ok sp -> rb_right ns = top kr (ptr rs) ->
  repr_seg h s kr (ptr rs) -> repr h s rs ->
  wp (erase_replace a (up kk) s (ptr rs))
    (fun o st => o = missing kk cs rs /\ repr (rb_nodes st) (up kk) (recolor Black rs) /\ repr_ctx st kk (ptr rs) /\
       forall b, b ∉ s :: addrs rs ++ addrs l ++ addrs_ctx k -> rb_nodes st !! b = h !! b) (mkRbState h rt).
Proof.
  intros Ha Hpa Hla Rl Rk Hs Hps Hsp Hrs Rseg Rrs. unfold erase_replace, set_child, set_pc.
  assert (H0 : 0 ∉ nodes) by (intros H0; rewrite Forall_forall in Hok; specialize (Hok 0 H0); unfold addr_ok in Hok; lia).
  pose proof Hnd as Hnd'. pose proof Hok as Hok'. unfold nodes in Hnd', Hok', H0. distinct Hnd'. distinct H0. all_ok Hok'.
  assert (Hp : parent_ok (up k)) by (by apply ctx_up_ok).
  repeat rb_action. cbn [child]. rewrite Hla. repeat rb_action.
  eapply wp_set_parent; [untouched|done|by apply addr_parent_ok|done|]. repeat rb_action. rewrite Hpa, pack_parent by done.
  eapply wp_mono; [eapply (change_child_ok _ _ k a s); first [done|untouched|apart]|]. intros _ [h1 rt1] (Q1 & Q2). cbn in Q2.
  assert (Hs1 : h1 !! s = Some (mkRb (__rb_parent_color ns) (rb_right ns) (ptr l))) by (rewrite Q2 by apart; cell).
  assert (Rl1 : repr h1 s l) by (eapply repr_agree; [intros b Hb; apply Q2; set_solver|]; untouched).
  assert (Rs1 : repr h1 s rs) by (eapply repr_agree; [intros b Hb; apply Q2; set_solver|]; untouched).
  assert (Hfr : forall b, b ∉ s :: addrs rs ++ addrs l ++ addrs_ctx k -> h1 !! b = h !! b)
    by (intros b Hb; distinct Hb; rewrite Q2 by done; rewrite reparent_ne, lookup_insert_ne by congruence; done).
  clear Q2. destruct (decide (rs = E)) as [->|Hne]; cbn [ptr].
  - rewrite Z.eqb_refl. cbn [negb]. repeat rb_action. cbn [__rb_parent_color]. rewrite Hps, pack_is_black by done.
    assert (Hfr2 : forall b, b ∉ s :: addrs E ++ addrs l ++ addrs_ctx k ->
      <[s := with_pc (pack (up k) c) (mkRb (pack sp cs) (rb_right ns) (ptr l))]> h1 !! b = h !! b).
    { intros b Hb. pose proof Hb as Hb'. distinct Hb'. rewrite lookup_insert_ne by congruence. by apply Hfr. }
    split_and!; [by destruct cs|done| |exact Hfr2].
    eapply (erase_replace_end k kr c a s l E); [exact Hnd|cbn; cell|done|done|exact Hrs|cbn; untouched|untouched|exact Rseg|exact Hfr2].
  - rewrite (proj2 (Z.eqb_neq (ptr rs) 0)) by (by apply ptr_nonzero). cbn [negb]. repeat rb_action. cbn.
    set (h2 := <[s := _]> h1). assert (Rs2 : repr h2 s rs) by (unfold h2; untouched).
    destruct (repr_set_pc h2 s (up kk) Black rs Hne Rs2 ltac:(assumption)) as (n & Hn & Hr2).
    unfold rb_set_parent_color, set_pc. repeat rb_action. change (Z.lor (up kk) RB_BLACK) with (pack (up kk) Black).
    assert (Hfr2 : forall b, b ∉ s :: addrs rs ++ addrs l ++ addrs_ctx k -> <[ptr rs := with_pc (pack (up kk) Black) n]> h2 !! b = h !! b).
    { intros b Hb. pose proof Hb as Hb'. distinct Hb'. unfold h2. apply ptr_in in Hne. rewrite !lookup_insert_ne by congruence. by apply Hfr. }
    split_and!; [by destruct rs, cs|exact Hr2| |exact Hfr2].
    eapply (erase_replace_end k kr c a s l rs _ (mkRb (pack (up k) c) (rb_right ns) (ptr l)));
      [exact Hnd| |done|done|exact Hrs| | |exact Rseg|exact Hfr2]; unfold h2; cbn; first [cell | untouched].
Qed.
End two_children.

(** The way down to the first node of a tree. *)
Definition leftmost (k : ctx) : Prop := Forall (fun f => f_side f = Lft) k.

Lemma height_addrs t : (height t <= length (addrs t))%nat.
Proof. induction t; cbn; [lia|]. rewrite length_app. lia. Qed.

Lemma successor_ok st k c rl ra rr :
  focus st k (T c rl ra rr) -> rl <> E ->
  wp (rb_while successor_step (0, ra, ptr rl))
    (fun o st' => st' = st /\ exists kr cs rs, o.1 = up kr /\ T c rl ra rr = plug kr (T cs E o.2 rs) /\ kr <> [] /\ leftmost kr) st.
Proof.
  intros Hf Hne. pose (I := fun (n : nat) (x : Z * Z * Z) st' => st' = st /\ exists kr t, n = height t /\ x.1.2 = up kr /\ x.2 = ptr t /\
    T c rl ra rr = plug kr t /\ kr <> [] /\ leftmost kr /\ t <> E).
  eapply (rb_while_ok I) with (n := height rl).
  - intros n [[p s] tmp] st' (-> & kr & t & -> & Hs & Htmp & Heq & Hkr & Hleft & Ht). cbn in Hs, Htmp. subst s tmp.
    pose proof Hf as Hf'. rewrite Heq in Hf'. rewrite focus_plug, <- plug_app, <- focus_plug in Hf'.
    pose proof (focus_zero _ _ _ Hf') as H0.
    destruct t as [|ct tl ta tr]; [done|]. destruct Hf' as [[Ha Hr] _ _ _]. destruct st as [h rt]. cbn in Ha, H0. distinct H0.
    unfold successor_step. apply wp_bind. eapply wp_get_child; [exact Ha|]. cbn [child rb_left]. destruct (decide (tl = E)) as [->|Htl].
    + cbn [ptr]. rewrite Z.eqb_refl. apply wp_ret. split; [done|]. by exists kr, ct, tr.
    + rewrite (proj2 (Z.eqb_neq (ptr tl) 0)) by (by apply ptr_nonzero).
      apply wp_ret. exists (height tl). cbn [height]. split; [lia|]. split; [done|]. exists (mkF Lft ct ta tr :: kr), tl. split_and!; try done. by constructor.
  - apply focus_size in Hf. cbn in Hf. rewrite !length_app in Hf. pose proof (height_addrs rl). lia.
  - split; [done|]. exists [mkF Lft c ra rr], rl. split_and!; try done. by repeat constructor.
Qed.

(** Both children are there, and the successor is not the right one. *)
Lemma unlink_far h rt k c a l kr cs s rs :
  let kk := kr ++ mkF Rgt c s l :: k in
  focus (mkRbState h rt) (kr ++ mkF Rgt c a l :: k) (T cs E s rs) -> kr <> [] -> leftmost kr -> l <> E ->
  wp (child2 ← get_child Rgt s;
      set_child Lft (up kr) child2;;
      set_child Rgt s (top kr s);;
      rb_set_parent (top kr s) s;;
      erase_replace a (up kr) s child2)
    (fun o st => o = missing kk cs rs /\ focus st kk (recolor Black rs) /\ same_but (addrs rs ++ addrs_ctx kk) (mkRbState h rt) st) (mkRbState h rt).
Proof.
  intros kk Hf Hkr Hleft Hl. destruct kr as [|[sp cp p sibp] kr]; [done|]. apply Forall_cons in Hleft as [Hsp _]. cbn in Hsp. subst sp.
  set (kr1 := mkF Lft cp p sibp :: kr) in *. pose proof Hf as [Ht Hc Hnd Hok]. rewrite addrs_ctx_app in Hnd, Hok.
  apply repr_ctx_app in Hc as [Hseg Hc]. cbn in Ht, Hc, Hnd, Hok, Hseg. destruct Ht as (H1 & _ & H2), Hc as (H3 & H4 & H5), Hseg as (H6 & H7 & H8).
  assert (Hnodes : NoDup (s :: addrs rs ++ addrs_ctx kr1 ++ a :: addrs l ++ addrs_ctx k)) by done.
  assert (Hoks : Forall addr_ok (s :: addrs rs ++ addrs_ctx kr1 ++ a :: addrs l ++ addrs_ctx k)) by done.
  distinct Hnd. all_ok Hok. unfold set_child. repeat rb_action. cbn [child rb_right up kr1 f_addr]. repeat rb_action. cbn [with_child frame_node f_side].
  set (h2 := <[s := _]> _).
  assert (Hseg2 : repr_seg h2 a kr1 (ptr rs)).
  { apply repr_seg_insert; [cbn; distinct Hnodes; set_solver|]. cbn. rewrite lookup_insert_eq. split_and!; [done|untouched|by apply repr_seg_insert]. }
  assert (Hin : forall x, x ∈ addrs_ctx kr1 -> x <> s /\ x <> a /\ (x ∉ addrs rs) /\ (x ∉ addrs l) /\ (x ∉ addrs_ctx k)).
  { clear -Hnodes. intros x Hx. distinct Hnodes. unfold disj in *. split_and!; [congruence..| | |]; intros ?; naive_solver. }
  destruct (repr_seg_reparent h2 a s kr1 (ptr rs)) as (Htop & n & c' & Hn & Hpc & Hseg3); [done|done|clear -Hnodes; by distinct Hnodes|].
  change (top kr1 (ptr rs)) with (top kr1 s) in *. pose proof (Hin _ Htop) as (T1 & T2 & T3 & T4 & T5).
  assert (Hp : p ∈ addrs_ctx kr1) by left. pose proof (Hin _ Hp) as (P1 & P2 & P3 & P4 & P5).
  unfold rb_set_parent, set_pc. repeat rb_action. rewrite Hpc, pack_color, Z.lor_comm by (by apply addr_parent_ok).
  change (Z.lor s (cbit c')) with (pack s c').
  eapply wp_mono; [eapply (erase_replace_ok k kr1 c cs a s l rs) with (sp := p)|]; try done.
  all: try (unfold h2; first [cell|untouched]); try done; try (by apply addr_parent_ok).
  intros o st (-> & Q1 & Q2 & Q3). unfold kk. split_and!; [done| |].
  - eapply (focus_without _ _ _ a); [exact Hf| |exact Q1|rewrite ptr_recolor; exact Q2].
    rewrite addrs_recolor, !addrs_ctx_app. cbn [addrs addrs_ctx f_addr f_sib app]. rewrite !app_assoc, <- !Permutation_middle. apply perm_swap.
  - intros b Hb. rewrite addrs_ctx_app in Hb. cbn [addrs_ctx f_addr f_sib] in Hb.
    rewrite !not_elem_of_app, not_elem_of_cons, not_elem_of_app in Hb. destruct Hb as (B1 & B2 & B3 & B4 & B5).
    rewrite Q3 by (rewrite not_elem_of_cons, !not_elem_of_app; done). unfold h2. rewrite !lookup_insert_ne by congruence. done.
Qed.

(** The successor is the right child. *)
Lemma unlink_near h rt k c a l cs s rs :
  let kk := mkF Rgt c s l :: k in
  focus (mkRbState h rt) (mkF Rgt c a l :: k) (T cs E s rs) -> l <> E ->
  wp (erase_replace a s s (ptr rs))
    (fun o st => o = missing kk cs rs /\ focus st kk (recolor Black rs) /\ same_but (addrs rs ++ addrs_ctx kk) (mkRbState h rt) st) (mkRbState h rt).
Proof.
  intros kk Hf Hl. pose proof Hf as [Ht Hc Hnd Hok]. cbn in Ht, Hc, Hnd, Hok. destruct Ht as (H1 & _ & H2), Hc as (H3 & H4 & H5).
  eapply wp_mono; [eapply (erase_replace_ok k [] c cs a s l rs) with (sp := a)|]; try done.
  { apply addr_parent_ok. all_ok Hok. done. }
  intros o st (-> & Q1 & Q2 & Q3). unfold kk. split_and!; [done| |].
  - eapply (focus_without _ _ _ a); [exact Hf| |exact Q1|rewrite ptr_recolor; exact Q2].
    rewrite addrs_recolor. cbn [addrs addrs_ctx f_addr f_sib app]. rewrite <- !Permutation_middle. apply perm_swap.
  - intros b Hb. apply Q3. cbn in Hb. set_solver.
Qed.

(** Both children are there. *)
Lemma unlink_two h rt k c l a r :
  focus (mkRbState h rt) k (T c l a r) -> l <> E -> r <> E ->
  wp (__rb_erase_augmented a dummy_callbacks)
    (fun o st => exists kr cs s rs, let kk := kr ++ mkF Rgt c s l :: k in
       r = plug kr (T cs E s rs) /\ leftmost kr /\ o = missing kk cs rs /\ focus st kk (recolor Black rs) /\
       same_but (addrs rs ++ addrs_ctx kk) (mkRbState h rt) st) (mkRbState h rt).
Proof.
  intros Hf Hl Hr. pose proof (focus_zero _ _ _ Hf) as H0. pose proof Hf as [Ht _ _ _]. cbn in Ht, H0. destruct Ht as (H1 & H2 & H3).
  distinct H0. unfold __rb_erase_augmented. repeat rb_action. cbn [child rb_right rb_left].
  rewrite (proj2 (Z.eqb_neq (ptr l) 0)) by (by apply ptr_nonzero). rewrite (proj2 (Z.eqb_neq (ptr r) 0)) by (by apply ptr_nonzero).
  assert (Hf1 : focus (mkRbState h rt) (mkF Rgt c a l :: k) r) by (by rewrite focus_up).
  destruct r as [|cr rl ra rr]; [done|]. cbn [ptr]. pose proof H3 as (R1 & R2 & R3). repeat rb_action. cbn [child rb_left].
  destruct (decide (rl = E)) as [->|Hne]; cbn [ptr].
  - rewrite Z.eqb_refl. repeat rb_action. apply wp_copy. repeat rb_action. cbn [child rb_right].
    eapply wp_mono; [by apply (unlink_near h rt k c a l cr ra rr)|]. intros o st (-> & Q1 & Q2). apply wp_ret, wp_bind, wp_propagate, wp_ret.
    exists [], cr, ra, rr. split_and!; try done. constructor.
  - rewrite (proj2 (Z.eqb_neq (ptr rl) 0)) by (apply ptr_nonzero; [done|cbn in *; set_solver]).
    cbn [negb]. apply wp_bind. eapply wp_mono; [eapply (successor_ok _ _ cr rl ra rr); [exact Hf1|done]|].
    intros [p s] st (-> & kr & cs & rs & Hp & Heq & Hkr & Hleft). cbn [fst snd] in *. subst p.
    rewrite Heq in Hf1. rewrite focus_plug, <- plug_app, <- focus_plug in Hf1.
    assert (Hra : ra = top kr s) by (change ra with (ptr (T cr rl ra rr)); rewrite Heq; apply ptr_plug). rewrite Hra.
    pose proof (unlink_far h rt k c a l kr cs s rs Hf1 Hkr Hleft Hl) as W.
    do 4 (apply wp_bind_inv in W; apply wp_bind; eapply wp_mono; [exact W|clear W; intros ?? W]).
    apply wp_bind, wp_copy, wp_bind, wp_propagate, wp_ret, wp_bind.
    eapply wp_mono; [exact W|]. intros o st (-> & Q1 & Q2). apply wp_ret, wp_bind, wp_propagate, wp_ret. exists kr, cs, s, rs. by rewrite <- Hra.
Qed.

(** ** Removal *)

(** Where a node is in a tree. *)
Lemma tree_zipper t a : a ∈ inorder t -> exists k c l r, t = plug k (T c l a r).
Proof.
  induction t as [|c l IHl b r IHr]; cbn; [by intros ?%elem_of_nil|]. rewrite elem_of_app, elem_of_cons. intros [H|[->|H]].
  - destruct (IHl H) as (k & c' & l' & r' & Heq). exists (k ++ [mkF Lft c b r]), c', l', r'. by rewrite plug_app, <- Heq.
  - by exists [], c, l, r.
  - destruct (IHr H) as (k & c' & l' & r' & Heq). exists (k ++ [mkF Rgt c b l]), c', l', r'. by rewrite plug_app, <- Heq.
Qed.

Lemma NoDup_middle_split (x : Z) l1 l2 m1 m2 :
  l1 ++ x :: l2 = m1 ++ x :: m2 -> NoDup (l1 ++ x :: l2) -> l1 = m1 /\ l2 = m2.
Proof.
  revert m1. induction l1 as [|y l1 IH]; intros [|z m1]; cbn; intros Heq Hnd; inversion Heq; subst; try done.
  - apply NoDup_cons in Hnd as [Hnd _]. set_solver.
  - apply NoDup_cons in Hnd as [Hnd _]. set_solver.
  - apply NoDup_cons in Hnd as [_ Hnd]. destruct (IH m1) as [-> ->]; done.
Qed.

(** What is left after the unlinking: a node of colour [c] is gone from the
    hole of [K], and its only child [r] is there. *)
Definition unlinked (l0 : list Z) (st0 : rb_state) (o : Z) (st : rb_state) : Prop :=
  exists K n c x r, rb_ctx n K /\ rb n (T c E x r) /\ (c = Black \/ allows_red K) /\ o = missing K c r /\
    focus st K (recolor Black r) /\ before K ++ inorder r ++ after K = l0 /\ same_but l0 st0 st.

Lemma rebalance_ok l0 st0 o st :
  unlinked l0 st0 o st ->
  wp (if_nonnull o (____rb_erase_color o dummy_rotate)) (fun _ st' => is_rb st' l0 /\ same_but l0 st0 st') st.
Proof.
  intros (K & n & c & x & r & HK & Hrb & Hc & -> & Hf & Ho & Hsame). rewrite <- (inorder_recolor Black) in Ho.
  assert (Hstop : rb n (recolor Black r) -> wp (if_nonnull 0 (____rb_erase_color 0 dummy_rotate)) (fun _ st' => is_rb st' l0 /\ same_but l0 st0 st') st).
  { intros Hr. apply wp_ret. split; [|done]. rewrite <- Ho. eapply is_rb_intro; [done|done|done|left; apply col_recolor]. }
  destruct c.
  - assert (r = E) as -> by (inversion Hrb as [| |? ? ? ? Hl Hr ? Hcr]; subst; inversion Hl; subst; inversion Hr; subst; done).
    apply Hstop. inversion Hrb; subst. done.
  - inversion Hrb as [|m ? ? ? Hl Hr|]; subst. inversion Hl; subst. destruct r as [|cr rl ra rr]; cbn [missing].
    + destruct K as [|[s c p sib] K]; cbn [up f_addr].
      * apply wp_ret. split; [|done]. eapply (is_rb_intro _ []); [done|constructor|constructor|by left].
      * unfold if_nonnull. rewrite (proj2 (Z.eqb_neq p 0)) by (pose proof (focus_zero _ _ _ Hf) as H0; cbn in H0; distinct H0; congruence).
        by eapply erase_color_ok.
    + apply Hstop. inversion Hr; subst. by apply rb_recolor.
Qed.

(** A context with another address. *)
Lemma rb_ctx_replace n kr c a s l k : rb_ctx n (kr ++ mkF Rgt c a l :: k) -> rb_ctx n (kr ++ mkF Rgt c s l :: k).
Proof.
  revert n. induction kr as [|[s1 c1 a1 sib1] kr IH]; intros n Hk; cbn in *; inversion Hk; subst; constructor; auto.
  destruct kr; done.
Qed.

Lemma leftmost_before kr k : leftmost kr -> before (kr ++ k) = before k.
Proof. induction 1 as [|[s c a sib] kr Hs Hkr IH]; cbn in *; [done|]. subst s. by rewrite app_nil_r. Qed.

Lemma after_app k1 k2 : after (k1 ++ k2) = after k1 ++ after k2.
Proof. induction k1 as [|f k1 IH]; cbn; [done|]. by rewrite IH, app_assoc. Qed.

Lemma unlink_ok st k c l a r :
  focus st k (T c l a r) -> rb_tree (plug k (T c l a r)) ->
  wp (__rb_erase_augmented a dummy_callbacks) (unlinked (before k ++ inorder l ++ inorder r ++ after k) st) st.
Proof.
  destruct st as [h rt]. intros Hf Hrb. destruct (rb_plug_inv _ _ Hrb) as (n & Hk & Hn & Hc). cbn in Hc.
  destruct (decide (l = E)) as [->|Hl]; [|destruct (decide (r = E)) as [->|Hr]].
  - eapply wp_mono; [by apply unlink_no_left|]. intros o st (-> & Hf2 & Hs). exists k, n, c, a, r. split_and!; try done.
    + destruct c; [|done]. inversion Hn as [| |? ? ? ? Hl Hr]; subst. inversion Hl; subst. by inversion Hr; subst.
    + intros b Hb. apply Hs. rewrite addrs_zipper. done.
  - eapply wp_mono; [by apply unlink_no_right|]. intros o st (-> & Hf2 & Hs). exists k, n, Black, a, l.
    assert (c = Black /\ exists x, n = 1%nat /\ l = T Red E x E) as (-> & x & -> & ->).
    { inversion Hn as [|? ? ? ? H1 H2|? ? ? ? H1 H2]; subst; inversion H2; subst; inversion H1 as [| |? ? ? ? H3 H4 H5 H6]; subst; try done.
      inversion H3; subst; [|done]. inversion H4; subst; [|done]. eauto. }
    split_and!; try done; [repeat constructor|]. intros b Hb. apply Hs. rewrite addrs_zipper. done.
  - eapply wp_mono; [by apply unlink_two|]. intros o st (kr & cs & s & rs & -> & Hleft & -> & Hf2 & Hs).
    assert (Hrb2 : rb_tree (plug (kr ++ mkF Rgt c a l :: k) (T cs E s rs))) by (by rewrite plug_app).
    apply rb_plug_inv in Hrb2 as (m & Hk2 & Hm & Hc2).
    assert (Ho : before (kr ++ mkF Rgt c s l :: k) ++ inorder rs ++ after (kr ++ mkF Rgt c s l :: k) =
      before k ++ inorder l ++ inorder (plug kr (T cs E s rs)) ++ after k).
    { pose proof (leftmost_before kr [] Hleft) as Hb. rewrite app_nil_r in Hb.
      rewrite (leftmost_before kr) by done. rewrite after_app, inorder_plug, Hb. cbn. rewrite <- !app_assoc. done. }
    exists (kr ++ mkF Rgt c s l :: k), m, cs, s, rs. split_and!; try done; [by eapply rb_ctx_replace|by destruct kr|].
    intros b Hb. apply Hs. by rewrite addrs_zipper, Ho.
Qed.

(** A node of the tree, and the nodes before and after it. *)
Lemma is_rb_zipper st l1 a l2 :
  is_rb st (l1 ++ a :: l2) ->
  exists k c l r, focus st k (T c l a r) /\ rb_tree (plug k (T c l a r)) /\ l1 = before k ++ inorder l /\ l2 = inorder r ++ after k.
Proof.
  intros (t & Hf & Hrb & Hio). destruct (tree_zipper t a) as (k & c & l & r & ->); [rewrite Hio; set_solver|].
  rewrite inorder_plug in Hio. rewrite <- focus_plug in Hf.
  assert (Hnd : NoDup (before k ++ inorder (T c l a r) ++ after k)) by (rewrite <- addrs_zipper; apply Hf).
  cbn in Hio, Hnd. rewrite <- !app_assoc in Hio, Hnd. rewrite app_assoc in Hio, Hnd. apply NoDup_middle_split in Hio as [<- <-]; [|done].
  by exists k, c, l, r.
Qed.

Lemma erase_ok st l1 a l2 :
  is_rb st (l1 ++ a :: l2) -> wp (rb_erase a) (fun _ st' => is_rb st' (l1 ++ l2) /\ same_but (l1 ++ l2) st st') st.
Proof.
  intros (k & c & l & r & Hf & Hrb & -> & ->)%is_rb_zipper. rewrite <- app_assoc.
  apply wp_bind. eapply wp_mono; [by apply (unlink_ok st k c l a r)|]. intros o st' Hu. by apply rebalance_ok.
Qed.

(** C3.  [rb_erase] of a node of a red-black tree terminates and leaves a
    red-black tree with the other nodes in the order they had; neither the
    record of the removed node nor a cell outside the tree is written. *)
Theorem rb_erase_correct st l1 a l2 :
  is_rb st (l1 ++ a :: l2) ->
  exists st', rb_erase a st = Ok (tt, st') /\ is_rb st' (l1 ++ l2) /\ same_but (l1 ++ l2) st st'.
Proof. intros H. destruct (erase_ok st l1 a l2 H) as ([] & st' & Heq & HQ). by exists st'. Qed.
