(* ===== verification/RbWalk.v ===== *)
(** Walking through a tree, and replacing a node. *)
From stdpp Require Import gmap.
From S2P Require Import Prelude State RbDefs RbTree RbErase.

(** ** The ends of a tree *)

(** The first or the last node of a list, [NULL] when it is empty. *)
Definition ends (s : side) (l : list Z) : Z := match s with Lft => hd 0 l | Rgt => default 0 (last l) end.

Lemma ends_app s l1 l2 : match s with Lft => l1 | Rgt => l2 end <> [] -> ends s (l1 ++ l2) = ends s (match s with Lft => l1 | Rgt => l2 end).
Proof.
  destruct s; cbn; intros Hne; [by destruct l1|]. rewrite last_app. destruct l2 as [|x l2]; [done|].
  destruct (last (x :: l2)) eqn:Hl; [done|]. by apply last_None in Hl.
Qed.

Lemma inorder_ne t : t <> E -> inorder t <> [].
Proof. destruct t; [done|]. cbn. intros _ H. by apply app_nil in H as [_ H]. Qed.

Lemma ends_mkT s c x a y : ends s (inorder (mkT s c x a y)) = if decide (x = E) then a else ends s (inorder x).
Proof.
  destruct (decide (x = E)) as [->|Hne]; [destruct s; cbn; [done|by rewrite last_snoc]|].
  assert (inorder x <> []) by (by apply inorder_ne).
  destruct s; cbn [mkT inorder].
  - by apply (ends_app Lft).
  - change (a :: inorder x) with ([a] ++ inorder x). rewrite app_assoc. by apply (ends_app Rgt).
Qed.

Lemma wp_link st k t c l a r (Q : Z -> rb_state -> Prop) s :
  focus st k t -> t = mkT s c l a r -> Q (ptr l) st -> wp (get_child s a) Q st.
Proof. intros [Ht _ _ _] -> HQ. destruct st, s; cbn in Ht; (eapply wp_get_child; [apply Ht|]); done. Qed.

Lemma descend_ok s st k t :
  focus st k t -> t <> E -> wp (rb_while (descend_step s) (ptr t)) (fun o st' => st' = st /\ o = ends s (inorder t)) st.
Proof.
  intros Hf Hne. pose (I := fun (n : nat) (x : Z) st' => st' = st /\ exists k' t', n = height t' /\ x = ptr t' /\ focus st k' t' /\ t' <> E /\
    ends s (inorder t') = ends s (inorder t)).
  eapply (rb_while_ok I) with (n := height t).
  - intros n x st' (-> & k' & t' & -> & -> & Hf' & Hne' & Hends). destruct (as_mkT s t' Hne') as (l & r & Heq).
    unfold descend_step. apply wp_bind. eapply wp_link; [exact Hf'|exact Heq|]. apply wp_ret.
    pose proof Hends as He. rewrite Heq, ends_mkT in He. case_decide as Hl.
    + subst l. cbn. by rewrite He.
    + assert (Hsub : focus st (mkF s (col t') (ptr t') r :: k') l) by (rewrite focus_up; unfold fill; cbn; by rewrite <- Heq).
      pose proof (focus_zero _ _ _ Hsub) as H0. rewrite (proj2 (Z.eqb_neq (ptr l) 0)) by (apply ptr_nonzero; [done|set_solver]).
      cbn. exists (height l). split; [|split; [done|by eauto 10]]. rewrite Heq. destruct s; cbn; lia.
  - apply focus_size in Hf. rewrite length_app in Hf. pose proof (height_addrs t). lia.
  - split; [done|]. by eauto 10.
Qed.

Lemma rb_ends_ok st l : is_rb st l -> rb_first st = Ok (hd 0 l, st) /\ rb_last st = Ok (default 0 (last l), st).
Proof.
  intros (t & Hf & _ & <-).
  assert (H : forall s, rb_end s st = Ok (ends s (inorder t), st)); [|by split; [apply (H Lft)|apply (H Rgt)]].
  intros s. assert (Hroot : rb_root st = ptr t) by apply Hf. unfold rb_end, get_root, mbind, st_bind. rewrite Hroot.
  destruct (decide (t = E)) as [->|Hne]; [by destruct s|].
  pose proof (focus_zero _ _ _ Hf) as H0. rewrite (proj2 (Z.eqb_neq (ptr t) 0)) by (apply ptr_nonzero; [done|set_solver]).
  destruct (descend_ok s st [] t Hf Hne) as (o & st' & Hw & -> & ->). exact Hw.
Qed.

(** ** The neighbours of a node *)

(** The nodes on side [s] of a hole. *)
Definition beyond (s : side) (k : ctx) : list Z := match s with Rgt => after k | Lft => before k end.

Lemma wp_ctx_link st f k t (Q : Z -> rb_state -> Prop) s :
  focus st (f :: k) t -> Q (if decide (f_side f = s) then ptr t else ptr (f_sib f)) st -> wp (get_child s (f_addr f)) Q st.
Proof.
  intros [_ Hc _ _] HQ. destruct st. cbn in Hc. eapply wp_get_child; [apply Hc|]. unfold frame_node. destruct (f_side f), s; exact HQ.
Qed.

Lemma wp_rb_parent st k t (Q : Z -> rb_state -> Prop) : focus st k t -> t <> E -> Q (up k) st -> wp (rb_parent (ptr t)) Q st.
Proof.
  intros Hf Hne HQ. pose proof (focus_up_ok _ _ _ Hf) as Hp. destruct Hf as [Ht _ _ _], st. destruct t as [|c l a r]; [done|].
  cbn in Ht. unfold rb_parent. apply wp_bind. eapply wp_get_pc; [apply Ht|]. apply wp_ret. cbn. by rewrite pack_parent.
Qed.

Lemma ends_beyond s f k : ends (opp s) (beyond s (f :: k)) = if decide (f_side f = s) then ends (opp s) (beyond s k) else f_addr f.
Proof.
  destruct s; cbn; destruct (f_side f); cbn; try done.
  - by rewrite app_nil_r.
  - by rewrite app_assoc, last_snoc.
Qed.

Lemma ascend_ok s st k t :
  focus st k t -> t <> E -> wp (rb_while (ascend_step s) (ptr t)) (fun o st' => st' = st /\ o = ends (opp s) (beyond s k)) st.
Proof.
  intros Hf Hne. pose (I := fun (n : nat) (x : Z) st' => st' = st /\ exists k' t', n = length k' /\ x = ptr t' /\ focus st k' t' /\ t' <> E /\
    ends (opp s) (beyond s k') = ends (opp s) (beyond s k)).
  eapply (rb_while_ok I) with (n := length k).
  - intros n x st' (-> & k' & t' & -> & -> & Hf' & Hne' & Hends). unfold ascend_step. apply wp_bind. eapply wp_rb_parent; [done..|].
    destruct k' as [|f k']; cbn [up].
    + rewrite Z.eqb_refl. apply wp_ret. split; [done|]. rewrite <- Hends. by destruct s.
    + pose proof (focus_zero _ _ _ Hf') as H0. pose proof (fc_nodup _ _ _ Hf') as Hnd. cbn in H0, Hnd. distinct H0. distinct Hnd.
      rewrite (proj2 (Z.eqb_neq (f_addr f) 0)) by congruence. apply wp_bind. eapply wp_ctx_link; [done|]. apply wp_ret.
      rewrite ends_beyond in Hends. case_decide.
      * rewrite Z.eqb_refl. exists (length k'). cbn. split; [lia|]. split; [done|]. exists k', (fill f t').
        split_and!; try done; [by destruct f as [[]]|by rewrite <- focus_up|by destruct f as [[]]].
      * rewrite (proj2 (Z.eqb_neq (ptr t') (ptr (f_sib f)))); [by rewrite Hends|]. apply ptr_ne_ptr; [known|]. by apply ptr_nonzero.
  - by apply focus_ctx_size in Hf.
  - split; [done|]. by eauto 10.
Qed.

Lemma linked_node st k t (Q : bool -> rb_state -> Prop) : focus st k t -> t <> E -> Q false st -> wp (RB_EMPTY_NODE (ptr t)) Q st.
Proof.
  intros Hf Hne HQ. pose proof (focus_up_ok _ _ _ Hf) as Hp. pose proof (focus_zero _ _ _ Hf) as H0. destruct Hf as [Ht _ Hnd Hok], st.
  destruct t as [|c l a r]; [done|]. cbn in *. all_ok Hok. unfold RB_EMPTY_NODE. apply wp_bind. eapply wp_get_pc; [apply Ht|]. apply wp_ret. cbn.
  rewrite (proj2 (Z.eqb_neq _ _)); [done|]. intros Heq%(f_equal __rb_parent). rewrite pack_parent in Heq by done.
  assert (Ha : __rb_parent a = a) by (rewrite <- (pack_red a) at 1; apply pack_parent; by apply addr_parent_ok).
  rewrite Ha in Heq. destruct k as [|f k]; cbn in *; distinct Hnd; distinct H0; congruence.
Qed.

Lemma rb_step_ok s st k c x a y :
  focus st k (mkT s c x a y) ->
  wp (rb_step s a) (fun o st' => st' = st /\ o = ends (opp s) (match s with Rgt => inorder x ++ after k | Lft => before k ++ inorder x end)) st.
Proof.
  intros Hf. set (t := mkT s c x a y) in *. assert (Ht : t <> E) by (by destruct s). assert (Ha : a = ptr t) by (by destruct s).
  unfold rb_step. rewrite Ha at 1. apply wp_bind. eapply linked_node; [done..|]. apply wp_bind. eapply wp_link; [exact Hf|done|].
  destruct (decide (x = E)) as [->|Hne]; cbn [ptr].
  - rewrite Z.eqb_refl, Ha. cbn [negb]. eapply wp_mono; [by apply ascend_ok|]. intros o st' [-> ->]. split; [done|].
    destruct s; cbn; by rewrite ?app_nil_r.
  - assert (Hsub : focus st (mkF s c a y :: k) x) by (by rewrite focus_up).
    pose proof (focus_zero _ _ _ Hsub) as H0. rewrite (proj2 (Z.eqb_neq (ptr x) 0)) by (apply ptr_nonzero; [done|set_solver]).
    eapply wp_mono; [by eapply descend_ok|]. intros o st' [-> ->]. split; [done|].
    assert (inorder x <> []) by (by apply inorder_ne). destruct s; symmetry.
    + by apply (ends_app Rgt).
    + by apply (ends_app Lft).
Qed.

Lemma neighbours_ok st l1 a l2 :
  is_rb st (l1 ++ a :: l2) -> rb_next a st = Ok (hd 0 l2, st) /\ rb_prev a st = Ok (default 0 (last l1), st).
Proof.
  intros (k & c & l & r & Hf & _ & -> & ->)%is_rb_zipper.
  destruct (rb_step_ok Rgt st k c r a l Hf) as (o & st' & Hw & -> & ->). destruct (rb_step_ok Lft st k c l a r Hf) as (o & st' & Hw2 & -> & ->).
  done.
Qed.

(** C38.  [rb_first], [rb_last], [rb_next] and [rb_prev] walk through a tree in its
    order: they return its first and its last node, and the nodes after and
    before a node, with [NULL] at the ends and for the empty tree. *)
Theorem rb_walk_correct st l :
  is_rb st l ->
  rb_first st = Ok (hd 0 l, st) /\ rb_last st = Ok (default 0 (last l), st) /\
  forall l1 a l2, l = l1 ++ a :: l2 -> rb_next a st = Ok (hd 0 l2, st) /\ rb_prev a st = Ok (default 0 (last l1), st).
Proof.
  intros Hrb. destruct (rb_ends_ok st l Hrb) as [H1 H2]. split_and!; [done|done|]. intros l1 a l2 ->. by apply neighbours_ok.
Qed.

(** ** Replacement *)

Lemma replace_ok st k c l a r new :
  focus st k (T c l a r) -> addr_ok new -> new ∉ addrs (T c l a r) ++ addrs_ctx k -> is_Some (rb_nodes st !! new) ->
  wp (rb_replace_node a new)
    (fun _ st' => focus st' k (T c l new r) /\ same_but (addrs (T c l new r) ++ addrs_ctx k) st st') st.
Proof.
  destruct st as [h rt]. intros Hf Hnew Hnin [n0 Hn0]. cbn in Hn0. pose proof (focus_zero _ _ _ Hf) as H0. pose proof Hf as [Ht Hc Hnd Hok].
  assert (Hp : parent_ok (up k)) by (by eapply focus_up_ok).
  assert (Hnd' : NoDup (addrs (T c l new r) ++ addrs_ctx k)) by (cbn in *; constructor; [set_solver|by apply NoDup_cons in Hnd as [_ Hnd]]).
  assert (Hok' : Forall addr_ok (addrs (T c l new r) ++ addrs_ctx k)) by (cbn in *; constructor; [done|by apply Forall_cons in Hok as [_ Hok]]).
  cbn in Ht, Hc, Hnd, Hok, H0, Hnin. destruct_and? Ht. distinct Hnd. distinct H0. distinct Hnin. all_ok Hok.
  unfold rb_replace_node, rb_parent. repeat rb_action. cbn [__rb_parent_color]. rewrite pack_parent by done.
  eapply wp_mono; [eapply (change_child_ok _ _ k a new); first [done|apart]|]. intros _ [h1 rt1] (Q1 & Q2). cbn in Q2.
  assert (Ha : h1 !! a = Some (mkRb (pack (up k) c) (ptr r) (ptr l))) by (by rewrite Q2).
  assert (Hn1 : h1 !! new = Some n0) by (by rewrite Q2).
  assert (Rl : repr h1 a l) by (eapply repr_agree; [|done]; intros b Hb; apply Q2; set_solver).
  assert (Rr : repr h1 a r) by (eapply repr_agree; [|done]; intros b Hb; apply Q2; set_solver).
  repeat rb_action. cbn [child rb_left]. eapply wp_reparent; [untouched| |by apply addr_parent_ok|done].
  repeat rb_action. cbn [child rb_right]. eapply wp_reparent; [untouched| |by apply addr_parent_ok|done].
  repeat rb_action. cbn. split.
  - constructor; [cbn; split_and!; [cell|untouched|untouched]|untouched|done..].
  - intros b Hb. cbn in Hb. distinct Hb. cbn. rewrite lookup_insert_ne by congruence. rewrite !reparent_ne by done. by apply Q2.
Qed.

(** [rb_replace_node] puts a node that is not in the tree in the place of
    another one: the tree stays a red-black tree, and the order of the other
    nodes does not change. *)
Theorem rb_replace_correct st l1 a l2 new :
  is_rb st (l1 ++ a :: l2) -> addr_ok new -> new ∉ l1 ++ a :: l2 -> is_Some (rb_nodes st !! new) ->
  exists st', rb_replace_node a new st = Ok (tt, st') /\ is_rb st' (l1 ++ new :: l2) /\ same_but (l1 ++ new :: l2) st st'.
Proof.
  intros (k & c & l & r & Hf & Hrb & -> & ->)%is_rb_zipper Hok Hnin Hnew.
  assert (Hio : forall x, (before k ++ inorder l) ++ x :: inorder r ++ after k = before k ++ inorder (T c l x r) ++ after k)
    by (intros x; cbn; by rewrite <- !app_assoc).
  rewrite Hio in *. rewrite <- addrs_zipper in Hnin. destruct (replace_ok st k c l a r new Hf Hok Hnin Hnew) as ([] & st' & Hw & Hf2 & Hs).
  exists st'. split; [done|]. split; [|intros b Hb; apply Hs; by rewrite addrs_zipper].
  apply rb_plug_inv in Hrb as (n & Hk & Hn & Hc). eapply is_rb_intro; [done|done| |done]. inversion Hn; subst; by constructor.
Qed.

(** ** Postorder *)

Fixpoint postorder (t : tree) : list Z := match t with E => [] | T _ l a r => postorder l ++ postorder r ++ [a] end.

(** The nodes after a hole in postorder. *)
Fixpoint after_post (k : ctx) : list Z :=
  match k with
  | [] => []
  | f :: k => match f_side f with Lft => postorder (f_sib f) | Rgt => [] end ++ f_addr f :: after_post k
  end.

Lemma postorder_plug k t : exists l, postorder (plug k t) = l ++ postorder t ++ after_post k.
Proof.
  revert t. induction k as [|[s c a sib] k IH]; intros t; cbn [plug after_post]; [exists []; by rewrite app_nil_r|].
  destruct (IH (fill (mkF s c a sib) t)) as (l & Heq). rewrite Heq. destruct s; cbn.
  - exists l. by rewrite <- !app_assoc.
  - exists (l ++ postorder sib). by rewrite <- !app_assoc.
Qed.

Lemma addrs_postorder t : addrs t ≡ₚ postorder t.
Proof.
  induction t as [|c l IHl a r IHr]; cbn; [done|]. rewrite IHl, IHr, app_assoc, <- Permutation_cons_append. done.
Qed.

Lemma postorder_ne t : t <> E -> postorder t <> [].
Proof. destruct t; [done|]. cbn. intros _ H. apply app_nil in H as [_ H]. by apply app_nil in H as [_ H]. Qed.

Lemma hd_app (l1 l2 : list Z) : l1 <> [] -> hd 0 (l1 ++ l2) = hd 0 l1.
Proof. by destruct l1. Qed.

Lemma deepest_ok st k t :
  focus st k t -> t <> E -> wp (rb_left_deepest_node (ptr t)) (fun o st' => st' = st /\ o = hd 0 (postorder t)) st.
Proof.
  intros Hf Hne. pose (I := fun (n : nat) (x : Z) st' => st' = st /\ exists k' t', n = height t' /\ x = ptr t' /\ focus st k' t' /\ t' <> E /\
    hd 0 (postorder t') = hd 0 (postorder t)).
  eapply (rb_while_ok I) with (n := height t).
  - intros n x st' (-> & k' & t' & -> & -> & Hf' & Hne' & Hends). destruct t' as [|c l a r]; [done|]. cbn [ptr].
    pose proof (focus_zero _ _ _ Hf') as H0. cbn in H0. distinct H0.
    unfold deepest_step. apply wp_bind. eapply (wp_link _ _ _ c l a r _ Lft); [exact Hf'|done|]. destruct (decide (l = E)) as [->|Hl].
    + cbn [ptr]. rewrite Z.eqb_refl. apply wp_bind. eapply (wp_link _ _ _ c r a E _ Rgt); [exact Hf'|done|]. apply wp_ret.
      destruct (decide (r = E)) as [->|Hr]; cbn [ptr].
      * rewrite Z.eqb_refl. by rewrite <- Hends.
      * rewrite (proj2 (Z.eqb_neq (ptr r) 0)) by (by apply ptr_nonzero). exists (height r). split; [cbn; lia|]. split; [done|].
        exists (mkF Rgt c a E :: k'), r. split_and!; try done; [by rewrite focus_up|]. rewrite <- Hends. cbn. by rewrite hd_app by (by apply postorder_ne).
    + rewrite (proj2 (Z.eqb_neq (ptr l) 0)) by (by apply ptr_nonzero). apply wp_ret. exists (height l). split; [cbn; lia|]. split; [done|].
      exists (mkF Lft c a r :: k'), l. split_and!; try done; [by rewrite focus_up|]. rewrite <- Hends. cbn. by rewrite hd_app by (by apply postorder_ne).
  - apply focus_size in Hf. rewrite length_app in Hf. pose proof (height_addrs t). lia.
  - split; [done|]. by eauto 10.
Qed.

Lemma next_postorder_ok st k t : focus st k t -> t <> E -> wp (rb_next_postorder (ptr t)) (fun o st' => st' = st /\ o = hd 0 (after_post k)) st.
Proof.
  intros Hf Hne. pose proof (focus_zero _ _ _ Hf) as H0. unfold rb_next_postorder.
  rewrite (proj2 (Z.eqb_neq (ptr t) 0)) by (apply ptr_nonzero; [done|set_solver]). apply wp_bind. eapply wp_rb_parent; [done..|].
  destruct k as [|f k]; cbn [up].
  { rewrite Z.eqb_refl. by apply wp_ret. }
  pose proof (fc_nodup _ _ _ Hf) as Hnd. cbn in H0, Hnd. distinct H0. distinct Hnd.
  rewrite (proj2 (Z.eqb_neq (f_addr f) 0)) by congruence.
  apply wp_bind. eapply wp_ctx_link; [done|]. apply wp_bind. eapply wp_ctx_link; [done|]. destruct f as [[] c a sib]; cbn [f_side f_sib f_addr] in *.
  - rewrite decide_True, decide_False, Z.eqb_refl by done. cbn [andb after_post f_side f_sib f_addr]. destruct (decide (sib = E)) as [->|Hs]; cbn [ptr].
    + rewrite Z.eqb_refl. by apply wp_ret.
    + rewrite (proj2 (Z.eqb_neq (ptr sib) 0)) by (by apply ptr_nonzero). cbn [negb].
      rewrite focus_up in Hf. assert (Hf2 : focus st (mkF Rgt c a t :: k) sib) by (rewrite focus_up; exact Hf).
      eapply wp_mono; [by eapply deepest_ok|]. intros o st' [-> ->]. split; [done|]. by rewrite hd_app by (by apply postorder_ne).
  - rewrite decide_False, decide_True by done. rewrite (proj2 (Z.eqb_neq (ptr t) (ptr sib))); [by apply wp_ret|].
    apply ptr_ne_ptr; [known|]. by apply ptr_nonzero.
Qed.

(** [rb_first_postorder] and [rb_next_postorder] walk through a tree in
    postorder: every node comes after its children. *)
Theorem rb_postorder_correct st t :
  focus st [] t ->
  rb_first_postorder st = Ok (hd 0 (postorder t), st) /\
  forall l1 a l2, postorder t = l1 ++ a :: l2 -> rb_next_postorder a st = Ok (hd 0 l2, st).
Proof.
  intros Hf. split.
  - unfold rb_first_postorder, get_root, mbind, st_bind. assert (Hroot : rb_root st = ptr t) by apply Hf. rewrite Hroot.
    destruct (decide (t = E)) as [->|Hne]; [done|].
    pose proof (focus_zero _ _ _ Hf) as H0. rewrite (proj2 (Z.eqb_neq (ptr t) 0)) by (apply ptr_nonzero; [done|set_solver]).
    destruct (deepest_ok st [] t Hf Hne) as (o & st' & Hw & -> & ->). exact Hw.
  - intros l1 a l2 Hp. destruct (tree_zipper t a) as (k & c & l & r & ->).
    { rewrite <- addrs_inorder, addrs_postorder, Hp. set_solver. }
    assert (Hnd : NoDup (postorder (plug k (T c l a r)))) by (rewrite <- addrs_postorder; pose proof (fc_nodup _ _ _ Hf) as H; cbn in H; by rewrite app_nil_r in H).
    rewrite <- focus_plug in Hf. destruct (postorder_plug k (T c l a r)) as (l0 & Heq). rewrite Heq in Hnd, Hp. cbn in Hnd, Hp.
    rewrite <- !app_assoc in Hnd, Hp. cbn in Hnd, Hp. rewrite !app_assoc in Hnd, Hp. apply NoDup_middle_split in Hp as [_ <-]; [|done].
    destruct (next_postorder_ok st k (T c l a r) Hf) as (o & st' & Hw & -> & ->); [done|]. exact Hw.
Qed.
