(* ===== verification/RbElv.v ===== *)
(** The trees of requests: elv_rb_add, elv_rb_del, elv_rb_find and the
    neighbours of a request, of block/elevator.c, and the sorted lists of the
    deadline scheduler that they implement.

    A request is named by the address of its [rb_node]; [blk_rq_pos] gives the
    first sector of the request of a node. *)
From stdpp Require Import gmap sorting.
From S2P Require Import Prelude State RbDefs RbTree RbInsert RbErase RbWalk.

Section elv.
Context (blk_rq_pos : Z -> Z).

(** [*p]. *)
Definition deref (parent : Z) (p : option side) : RB Z :=
  match p with None => get_root | Some s => get_child s parent end.

Definition elv_add_step (rq : Z) (x : Z * option side) : RB (Z * option side + Z * option side) :=
  let '(parent, p) := x in
  cur ← deref parent p;
  if cur =? 0 then mret (inr (parent, p))
  else
    let parent := cur in
    if blk_rq_pos rq <? blk_rq_pos parent then mret (inl (parent, Some Lft))
    else if blk_rq_pos parent <=? blk_rq_pos rq then mret (inl (parent, Some Rgt))
    else mret (inl (parent, p)).

Definition elv_rb_add (rq : Z) : RB unit :=
  '(parent, p) ← rb_while (elv_add_step rq) (0, None);
  rb_link_node rq parent p;;
  rb_insert_color rq.

Definition elv_rb_del (rq : Z) : RB unit :=
  empty ← RB_EMPTY_NODE rq;
  st_bug_on empty;;
  rb_erase rq;;
  RB_CLEAR_NODE rq.

Definition elv_find_step (sector n : Z) : RB (Z + Z) :=
  if n =? 0 then mret (inr 0)
  else if sector <? blk_rq_pos n then c ← get_child Lft n; mret (inl c)
  else if blk_rq_pos n <? sector then c ← get_child Rgt n; mret (inl c)
  else mret (inr n).

Definition elv_rb_find (sector : Z) : RB Z :=
  n ← get_root;
  rb_while (elv_find_step sector) n.

Definition elv_rb_former_request (rq : Z) : RB Z :=
  rbprev ← rb_prev rq;
  mret (if negb (rbprev =? 0) then rbprev else 0).

Definition elv_rb_latter_request (rq : Z) : RB Z :=
  rbnext ← rb_next rq;
  mret (if negb (rbnext =? 0) then rbnext else 0).

(** ** Adding *)

Definition by_pos (l : list Z) : Prop := StronglySorted (fun x y => blk_rq_pos x <= blk_rq_pos y) l.

Lemma by_pos_app l1 l2 : by_pos (l1 ++ l2) <-> by_pos l1 /\ by_pos l2 /\ forall x y, x ∈ l1 -> y ∈ l2 -> blk_rq_pos x <= blk_rq_pos y.
Proof.
  induction l1 as [|z l1 IH]; cbn.
  - split; [intros H; split_and!; [constructor|done|]; set_solver|tauto].
  - split.
    + intros H. inversion H as [|? ? H1 H2]; subst. apply IH in H1 as (H3 & H4 & H5). rewrite Forall_app, !Forall_forall in H2. destruct H2 as [H6 H7].
      split_and!; [constructor; [done|by rewrite Forall_forall]|done|]. intros x y [->|Hx]%elem_of_cons Hy; auto.
    + intros (H1 & H2 & H3). inversion H1 as [|? ? H4 H5]; subst. constructor.
      * apply IH. split_and!; [done|done|]. intros x y Hx Hy. apply H3; [by right|done].
      * rewrite Forall_app. split; [done|]. rewrite Forall_forall. intros y Hy. apply H3; [left|done].
Qed.

(** Where the new request goes: behind all at its sector or before. *)
Definition splits (rq : Z) (l1 l2 : list Z) : Prop :=
  (forall x, x ∈ l1 -> blk_rq_pos x <= blk_rq_pos rq) /\ (forall x, x ∈ l2 -> blk_rq_pos rq < blk_rq_pos x).

Lemma wp_deref st k t (Q : Z -> rb_state -> Prop) : focus st k t -> Q (ptr t) st -> wp (deref (up k) (link_of k)) Q st.
Proof.
  intros Hf HQ. destruct k as [|f k]; cbn.
  - destruct Hf as [_ Hc _ _]. cbn in Hc. exists (rb_root st), st. split; [done|]. by rewrite Hc.
  - eapply wp_ctx_link; [done|]. by rewrite decide_True.
Qed.

Lemma elv_descend st t0 rq :
  focus st [] t0 -> by_pos (inorder t0) ->
  wp (rb_while (elv_add_step rq) (0, None))
    (fun o st' => st' = st /\ exists k, o = (up k, link_of k) /\ plug k E = t0 /\ splits rq (before k) (after k)) st.
Proof.
  intros Hf Hs. pose (I := fun (n : nat) (x : Z * option side) st' => st' = st /\ exists k t, n = height t /\ x = (up k, link_of k) /\
    plug k t = t0 /\ splits rq (before k) (after k)).
  eapply (rb_while_ok I) with (n := height t0).
  - intros n x st' (-> & k & t & -> & -> & Heq & Hsp). rewrite <- Heq in Hf, Hs. rewrite <- focus_plug in Hf.
    unfold elv_add_step. apply wp_bind. eapply wp_deref; [done|]. destruct t as [|c l a r]; cbn [ptr].
    + rewrite Z.eqb_refl. apply wp_ret. split; [done|]. by exists k.
    + pose proof (focus_zero _ _ _ Hf) as H0. cbn in H0. distinct H0. rewrite (proj2 (Z.eqb_neq a 0)) by congruence.
      rewrite inorder_plug in Hs. cbn in Hs. rewrite by_pos_app in Hs. destruct Hs as (_ & [Hs _]%by_pos_app & _).
      rewrite by_pos_app in Hs. destruct Hs as (_ & Hs & Hla). inversion Hs as [|? ? _ Har]; subst. rewrite Forall_forall in Har. destruct Hsp as [S1 S2].
      destruct (Z.ltb_spec (blk_rq_pos rq) (blk_rq_pos a)) as [Hlt|Hge]; [|rewrite (proj2 (Z.leb_le _ _)) by lia]; apply wp_ret.
      * exists (height l). split; [cbn; lia|]. split; [done|]. exists (mkF Lft c a r :: k), l. split_and!; try done. split; cbn.
        -- intros x. rewrite app_nil_r. apply S1.
        -- intros x [->|[Hx|Hx]%elem_of_app]%elem_of_cons; [done| |auto]. specialize (Har x Hx). lia.
      * exists (height r). split; [cbn; lia|]. split; [done|]. exists (mkF Rgt c a l :: k), r. split_and!; try done. split; cbn; [|done].
        intros x. rewrite !elem_of_app, list_elem_of_singleton. intros [Hx|[Hx| ->]]; [auto| |lia].
        specialize (Hla x a Hx ltac:(left)). lia.
  - apply focus_size in Hf. rewrite length_app in Hf. pose proof (height_addrs t0). lia.
  - split; [done|]. exists [], t0. split_and!; try done. split; intros x; by rewrite ?elem_of_nil.
Qed.

Lemma elv_add_ok st l rq :
  is_rb st l -> by_pos l -> addr_ok rq -> rq ∉ l -> is_Some (rb_nodes st !! rq) ->
  wp (elv_rb_add rq) (fun _ st' => exists l1 l2, l = l1 ++ l2 /\ splits rq l1 l2 /\ is_rb st' (l1 ++ rq :: l2) /\ same_but (l1 ++ rq :: l2) st st') st.
Proof.
  intros (t & Hf & Hrb & <-) Hs Hok Hnin Hsome. apply wp_bind. eapply wp_mono; [by apply (elv_descend st t rq)|].
  intros o st' (-> & k & -> & <- & Hsp). rewrite <- focus_plug in Hf. rewrite inorder_plug in Hnin. cbn in Hnin.
  eapply wp_mono; [eapply (rb_add_ok st k rq); try done|].
  - pose proof (addrs_zipper k E) as Hp. cbn in Hp. by rewrite Hp.
  - intros _ st' [H1 H2]. exists (before k), (after k). rewrite inorder_plug. done.
Qed.

(** ** Removing *)

Lemma is_rb_outside st st' l : is_rb st l -> rb_root st' = rb_root st -> (forall a, a ∈ l -> rb_nodes st' !! a = rb_nodes st !! a) -> is_rb st' l.
Proof.
  intros (t & Hf & Hrb & <-) Hroot Hsame. exists t. split; [|done]. destruct Hf as [H1 H2 H3 H4]. constructor; [|by cbn in *; congruence|done|done].
  eapply repr_agree; [|done]. intros a Ha. apply Hsame. by rewrite <- addrs_inorder.
Qed.

Lemma elv_del_ok st l1 rq l2 :
  is_rb st (l1 ++ rq :: l2) ->
  wp (elv_rb_del rq) (fun _ st' => is_rb st' (l1 ++ l2) /\ RB_EMPTY_NODE rq st' = Ok (true, st') /\ same_but (l1 ++ rq :: l2) st st') st.
Proof.
  intros Hrb. pose proof Hrb as (k & c & l & r & Hf & _ & Hl1 & Hl2)%is_rb_zipper.
  assert (Hnin : rq ∉ l1 ++ l2).
  { pose proof (addrs_zipper k (T c l rq r)) as Hp. pose proof (fc_nodup _ _ _ Hf) as Hnd. rewrite Hp in Hnd. cbn in Hnd.
    rewrite <- !app_assoc in Hnd. cbn in Hnd. rewrite app_assoc, <- Hl1, <- Hl2 in Hnd. rewrite <- Permutation_middle, NoDup_cons in Hnd. apply Hnd. }
  apply wp_bind. change rq with (ptr (T c l rq r)) at 1. eapply linked_node; [done|done|]. apply wp_bind. eapply wp_ret.
  apply wp_bind. eapply wp_mono; [by apply (erase_ok st l1 rq l2)|]. intros _ [h rt] [H1 H2].
  assert (Hrq : exists n, h !! rq = Some n).
  { specialize (H2 rq Hnin). cbn in H2. rewrite H2. destruct Hf as [[Hr _] _ _ _]. eauto. }
  destruct Hrq as [n Hn]. unfold RB_CLEAR_NODE, set_pc. eapply wp_update; [exact Hn|]. split_and!.
  - eapply is_rb_outside; [exact H1|done|]. cbn. intros a Ha. rewrite lookup_insert_ne; [done|congruence].
  - unfold RB_EMPTY_NODE, get_pc, load, mbind, st_bind. cbn. rewrite lookup_insert_eq. cbn. by rewrite Z.eqb_refl.
  - intros a Ha. cbn. rewrite lookup_insert_ne by set_solver. apply H2. set_solver.
Qed.

(** ** Looking up *)

Lemma elv_find_ok st l sector :
  is_rb st l -> by_pos l ->
  wp (elv_rb_find sector) (fun o st' => st' = st /\
    if decide (o = 0) then forall x, x ∈ l -> blk_rq_pos x <> sector else o ∈ l /\ blk_rq_pos o = sector) st.
Proof.
  intros (t0 & Hf & _ & <-) Hs. apply wp_bind. exists (rb_root st), st. split; [done|].
  pose (I := fun (n : nat) (x : Z) st' => st' = st /\ exists k t, n = height t /\ x = ptr t /\ plug k t = t0 /\
    (forall y, y ∈ before k -> blk_rq_pos y < sector) /\ (forall y, y ∈ after k -> sector < blk_rq_pos y)).
  eapply (rb_while_ok I) with (n := height t0).
  - intros n x st' (-> & k & t & -> & -> & Heq & S1 & S2). rewrite <- Heq in Hf, Hs. rewrite <- focus_plug in Hf. unfold elv_find_step.
    destruct t as [|c l a r]; cbn [ptr].
    + rewrite Z.eqb_refl. apply wp_ret. split; [done|]. rewrite decide_True by done. intros x. rewrite <- Heq, inorder_plug. cbn.
      intros [Hx%S1|Hx%S2]%elem_of_app; lia.
    + pose proof (focus_zero _ _ _ Hf) as H0. cbn in H0. distinct H0. rewrite (proj2 (Z.eqb_neq a 0)) by congruence.
      rewrite inorder_plug in Hs. cbn in Hs. rewrite by_pos_app in Hs. destruct Hs as (_ & [Hs _]%by_pos_app & _).
      rewrite by_pos_app in Hs. destruct Hs as (_ & Hs & Hla). inversion Hs as [|? ? _ Har]; subst. rewrite Forall_forall in Har.
      destruct (Z.ltb_spec sector (blk_rq_pos a)) as [Hlt|Hge]; [|destruct (Z.ltb_spec (blk_rq_pos a) sector) as [Hgt|Hle]].
      * apply wp_bind. eapply (wp_link _ _ _ c l a r _ Lft); [done|done|]. apply wp_ret. exists (height l). split; [cbn; lia|]. split; [done|].
        exists (mkF Lft c a r :: k), l. split_and!; try done; cbn.
        -- intros y. rewrite app_nil_r. apply S1.
        -- intros y [->|[Hy|Hy]%elem_of_app]%elem_of_cons; [done| |auto]. specialize (Har y Hy). lia.
      * apply wp_bind. eapply (wp_link _ _ _ c r a l _ Rgt); [done|done|]. apply wp_ret. exists (height r). split; [cbn; lia|]. split; [done|].
        exists (mkF Rgt c a l :: k), r. split_and!; try done. cbn.
        intros y. rewrite !elem_of_app, list_elem_of_singleton. intros [Hy|[Hy| ->]]; [auto| |lia]. specialize (Hla y a Hy ltac:(left)). lia.
      * apply wp_ret. split; [done|]. rewrite decide_False by congruence. split; [|lia]. rewrite inorder_plug. cbn. set_solver.
  - apply focus_size in Hf. rewrite length_app in Hf. pose proof (height_addrs t0). lia.
  - assert (Hroot : rb_root st = ptr t0) by apply Hf. split; [done|]. exists [], t0. split_and!; try done; intros y; by rewrite elem_of_nil.
Qed.
End elv.
