(* ===== verification/RbDeadline.v ===== *)
(** The trees of the deadline scheduler are the sorted lists of its model. *)
From stdpp Require Import gmap sorting functions.
From S2P Require Import Prelude State RbDefs RbTree RbErase RbWalk RbElv DeadlineDefs Deadline.

Section refinement.
(** [node r] is the address of the [rb_node] of request [r], and [rb_entry_rq]
    the way back. *)
Context (node : rqid -> Z) (rb_entry_rq : Z -> rqid).
Hypothesis rb_entry_node : forall r, rb_entry_rq (node r) = r.
Hypothesis node_ok : forall r, addr_ok (node r).
(** The requests that are used, whose memory is there. *)
Context (used : list rqid).

Definition node_pos (q : request_queue) (a : Z) : Z := q_pos q (rb_entry_rq a).

(** The tree of the direction [x] holds the requests of the sorted list. *)
Record tree_of (x : ddir) (q : request_queue) (st : rb_state) : Prop := {
  to_rb : is_rb st (node <$> sort_list (dd q) x);
  to_sorted : StronglySorted (pos_le (q_pos q)) (sort_list (dd q) x);
  to_mem : forall r, r ∈ used -> is_Some (rb_nodes st !! node r) }.

#[local] Instance node_inj : Inj (=) (=) node.
Proof. intros r1 r2 Heq%(f_equal rb_entry_rq). by rewrite !rb_entry_node in Heq. Qed.

Lemma node_by_pos q l : StronglySorted (pos_le (q_pos q)) l -> by_pos (node_pos q) (node <$> l).
Proof.
  induction 1 as [|r l Hl IH Hr]; cbn; constructor; [done|]. rewrite Forall_fmap. eapply Forall_impl; [exact Hr|]. cbn. intros y Hy.
  unfold node_pos. by rewrite !rb_entry_node.
Qed.

Lemma add_splits pos r l1 l2 :
  (forall x, x ∈ l1 -> pos x <= pos r) -> (forall x, x ∈ l2 -> pos r < pos x) -> DeadlineDefs.elv_rb_add pos r (l1 ++ l2) = l1 ++ r :: l2.
Proof.
  intros H1 H2. induction l1 as [|x l1 IH]; cbn.
  - destruct l2 as [|y l2]; cbn; [done|]. rewrite (proj2 (Z.ltb_lt _ _)); [done|]. apply H2. left.
  - rewrite (proj2 (Z.ltb_ge _ _)) by (apply H1; left). f_equal. apply IH. intros y Hy. apply H1. by right.
Qed.

Lemma to_mem_after x l st st' :
  is_rb st' l -> same_but (node x :: l) st st' -> is_Some (rb_nodes st' !! node x) ->
  (forall r, r ∈ used -> is_Some (rb_nodes st !! node r)) -> forall r, r ∈ used -> is_Some (rb_nodes st' !! node r).
Proof.
  intros (t & [Ht _ _ _] & _ & <-) Hs Hx Hmem r Hr. destruct (decide (node r = node x)) as [->|Hne]; [done|].
  destruct (decide (node r ∈ inorder t)) as [Hin|Hnin].
  - eapply repr_dom; [exact Ht|]. by rewrite addrs_inorder.
  - rewrite Hs; [by apply Hmem|]. rewrite not_elem_of_cons. done.
Qed.

Lemma tree_add x q st r :
  tree_of x q st -> q_dir q r = x -> r ∈ used -> r ∉ sort_list (dd q) x ->
  wp (RbElv.elv_rb_add (node_pos q) (node r)) (fun _ st' => tree_of x (deadline_add_rq_rb q r) st') st.
Proof.
  intros [Hrb Hs Hmem] Hx Hu Hnin. eapply wp_mono; [eapply (elv_add_ok (node_pos q)); [exact Hrb|by apply node_by_pos|done| |by apply Hmem]|].
  { intros Hin. apply list_elem_of_fmap in Hin as (y & Heq%(inj node) & Hy). by subst. }
  intros _ st' (l1 & l2 & Heq & [S1 S2] & Hrb' & Hsame). apply fmap_app_inv in Heq as (k1 & k2 & -> & -> & Hk).
  assert (Hadd : DeadlineDefs.elv_rb_add (q_pos q) r (sort_list (dd q) x) = k1 ++ r :: k2).
  { rewrite Hk. apply add_splits; intros y Hy.
    - specialize (S1 (node y)). unfold node_pos in S1. rewrite !rb_entry_node in S1. apply S1. by apply list_elem_of_fmap_2.
    - specialize (S2 (node y)). unfold node_pos in S2. rewrite !rb_entry_node in S2. apply S2. by apply list_elem_of_fmap_2. }
  assert (Hsort : sort_list (dd (deadline_add_rq_rb q r)) x = k1 ++ r :: k2).
  { unfold deadline_add_rq_rb. rewrite Hx. cbn. rewrite fn_lookup_insert. exact Hadd. }
  constructor; rewrite ?Hsort.
  - by rewrite fmap_app.
  - rewrite <- Hadd. by apply elv_rb_add_sorted.
  - eapply (to_mem_after r); [exact Hrb'| | |done].
    + intros a Ha. apply Hsame. set_solver.
    + destruct Hrb' as (t & [Ht _ _ _] & _ & Hio). eapply repr_dom; [exact Ht|]. rewrite addrs_inorder, Hio. set_solver.
Qed.

Lemma list_del_id r l : r ∉ l -> list_del r l = l.
Proof.
  unfold list_del. induction l as [|x l IH]; [done|]. rewrite not_elem_of_cons. intros [Hx Hl]. rewrite filter_cons_True by congruence.
  by rewrite IH.
Qed.

Lemma del_split r (l1 l2 : list rqid) : NoDup (l1 ++ r :: l2) -> list_del r (l1 ++ r :: l2) = l1 ++ l2 /\ DeadlineDefs.rb_next r (l1 ++ r :: l2) = head l2.
Proof.
  induction l1 as [|x l1 IH]; cbn [app]; intros [Hx Hnd]%NoDup_cons; cbn [DeadlineDefs.rb_next].
  - unfold list_del. rewrite filter_cons_False by tauto. split; [|by rewrite decide_True].
    by apply list_del_id.
  - destruct (IH Hnd) as [IH1 IH2]. unfold list_del in *. rewrite filter_cons_True, IH1 by set_solver. split; [done|]. by rewrite decide_False by set_solver.
Qed.

(** A request of the list and the nodes around it. *)
Lemma tree_split x q st r :
  tree_of x q st -> r ∈ sort_list (dd q) x ->
  exists l1 l2, sort_list (dd q) x = l1 ++ r :: l2 /\ is_rb st ((node <$> l1) ++ node r :: (node <$> l2)) /\ NoDup (l1 ++ r :: l2).
Proof.
  intros [Hrb _ _] Hin. apply list_elem_of_split in Hin as (l1 & l2 & Heq). exists l1, l2. rewrite Heq, fmap_app in Hrb. split_and!; [done|done|].
  destruct Hrb as (t & [_ _ Hnd _] & _ & Hio). cbn in Hnd. rewrite app_nil_r, addrs_inorder, Hio in Hnd.
  apply (NoDup_fmap_1 node). by rewrite fmap_app.
Qed.

Lemma tree_del x q st r :
  tree_of x q st -> q_dir q r = x -> r ∈ sort_list (dd q) x ->
  wp (RbElv.elv_rb_del (node r)) (fun _ st' => tree_of x (DeadlineDefs.elv_rb_del q r) st') st.
Proof.
  intros Hto Hx Hin. destruct (tree_split x q st r Hto Hin) as (l1 & l2 & Heq & Hrb & Hnd). pose proof Hto as [_ Hs Hmem].
  eapply wp_mono; [by apply elv_del_ok|]. intros _ st' (Hrb' & Hempty & Hsame).
  assert (Hsort : sort_list (dd (DeadlineDefs.elv_rb_del q r)) x = l1 ++ l2).
  { unfold DeadlineDefs.elv_rb_del. rewrite Hx. cbn. rewrite fn_lookup_insert, Heq. by apply del_split. }
  constructor; rewrite ?Hsort.
  - by rewrite fmap_app.
  - destruct (del_split r l1 l2 Hnd) as [Hd _]. rewrite <- Hd, <- Heq. by apply list_del_sorted.
  - eapply (to_mem_after r); [exact Hrb'| | |done].
    + intros a Ha. apply Hsame. set_solver.
    + unfold RB_EMPTY_NODE, get_pc, load, mbind, st_bind in Hempty. destruct (rb_nodes st' !! node r); [done|]. cbn in Hempty. done.
Qed.

(** ** Sequences of operations *)

Inductive rq_op := AddRq (r : rqid) | DelRq (r : rqid).

Definition list_op (q : request_queue) (op : rq_op) : request_queue :=
  match op with AddRq r => deadline_add_rq_rb q r | DelRq r => DeadlineDefs.elv_rb_del q r end.
Definition tree_op (q : request_queue) (op : rq_op) : RB unit :=
  match op with AddRq r => RbElv.elv_rb_add (node_pos q) (node r) | DelRq r => RbElv.elv_rb_del (node r) end.
Fixpoint tree_ops (q : request_queue) (ops : list rq_op) : RB unit :=
  match ops with [] => mret tt | op :: ops => tree_op q op;; tree_ops (list_op q op) ops end.

(** A request is added when it is not in the tree, and removed when it is. *)
Definition op_ok (x : ddir) (q : request_queue) (op : rq_op) : Prop :=
  match op with
  | AddRq r => q_dir q r = x /\ r ∈ used /\ (r ∉ sort_list (dd q) x)
  | DelRq r => q_dir q r = x /\ r ∈ sort_list (dd q) x
  end.
Fixpoint ops_ok (x : ddir) (q : request_queue) (ops : list rq_op) : Prop :=
  match ops with [] => True | op :: ops => op_ok x q op /\ ops_ok x (list_op q op) ops end.

Lemma tree_ops_ok x ops : forall q st, tree_of x q st -> ops_ok x q ops ->
  wp (tree_ops q ops) (fun _ st' => tree_of x (foldl list_op q ops) st') st.
Proof.
  induction ops as [|op ops IH]; intros q st Hto Hok; [by apply wp_ret|]. destruct Hok as [Hop Hok]. cbn. apply wp_bind.
  eapply wp_mono with (Q := fun _ st' => tree_of x (list_op q op) st'); [|intros _ st' H; by apply IH].
  destruct op as [r|r]; cbn in *; [destruct Hop as (?&?&?); by apply tree_add|destruct Hop as (?&?); by apply tree_del].
Qed.

(** C25.  The red-black tree of a direction implements the sorted list of the
    deadline scheduler: any sequence of additions and removals of requests runs
    without a fault and ends in the tree of the list that the scheduler model has
    after the same sequence. *)
Theorem deadline_tree_refines x q st ops :
  tree_of x q st -> ops_ok x q ops ->
  exists st', tree_ops q ops st = Ok (tt, st') /\ tree_of x (foldl list_op q ops) st'.
Proof. intros Hto Hok. destruct (tree_ops_ok x ops q st Hto Hok) as ([] & st' & Hw & HQ). by exists st'. Qed.

(** What the scheduler reads from a tree is what its list has: the request
    after a request is the next one of the list, and [elv_rb_find] finds a
    request at the sector exactly when the list has one. *)
Theorem deadline_tree_lookup x q st sector :
  tree_of x q st ->
  (forall r, q_dir q r = x -> r ∈ sort_list (dd q) x ->
     elv_rb_latter_request (node r) st = Ok (from_option node 0 (deadline_latter_request q r), st)) /\
  exists found, elv_rb_find (node_pos q) sector st = Ok (from_option node 0 found, st) /\
    match found with
    | Some r => r ∈ sort_list (dd q) x /\ q_pos q r = sector
    | None => forall r, r ∈ sort_list (dd q) x -> q_pos q r <> sector
    end.
Proof.
  intros Hto. split.
  - intros r Hx Hin. destruct (tree_split x q st r Hto Hin) as (l1 & l2 & Heq & Hrb & Hnd).
    destruct (neighbours_ok st _ _ _ Hrb) as [Hn _]. unfold elv_rb_latter_request, mbind, st_bind. rewrite Hn. unfold deadline_latter_request.
    rewrite Hx, Heq. destruct (del_split r l1 l2 Hnd) as [_ ->]. destruct l2 as [|y l2]; cbn; [done|].
    rewrite (proj2 (Z.eqb_neq (node y) 0)); [done|]. pose proof (node_ok y) as Hy. unfold addr_ok in Hy. lia.
  - destruct Hto as [Hrb Hs _]. destruct (elv_find_ok (node_pos q) st _ sector Hrb) as (o & st' & Hw & -> & Ho); [by apply node_by_pos|].
    unfold node_pos in Ho. case_decide as H0.
    + subst o. exists None. split; [exact Hw|]. intros r Hr. specialize (Ho (node r)). rewrite rb_entry_node in Ho. apply Ho. by apply list_elem_of_fmap_2.
    + destruct Ho as [Hin Hp]. apply list_elem_of_fmap in Hin as (r & -> & Hr). rewrite rb_entry_node in Hp. by exists (Some r).
Qed.
End refinement.
