(* ===== verification/RbExamples.v ===== *)
(** Concrete trees. *)
From stdpp Require Import gmap sorting functions.
From S2P Require Import Prelude DeadlineDefs Deadline State RbDefs RbTree RbInsert RbErase RbWalk RbElv RbDeadline.

(** ** A tree of six nodes, and a node that is not in it *)

Definition six : tree := T Black (T Red (T Black E 4 E) 8 (T Black E 12 E)) 16 (T Black E 20 (T Red E 24 E)).

Definition six_state : rb_state := mkRbState (list_to_map [
  (16, mkRb (pack 0 Black) 20 8); (8, mkRb (pack 16 Red) 12 4); (4, mkRb (pack 8 Black) 0 0); (12, mkRb (pack 8 Black) 0 0);
  (20, mkRb (pack 16 Black) 24 0); (24, mkRb (pack 20 Red) 0 0); (28, mkRb 28 0 0)]) 16.

Ltac nodup := apply (bool_decide_unpack _); vm_compute; exact I.
Ltac addresses := repeat constructor; reflexivity.

Lemma six_focus : focus six_state [] six.
Proof. constructor; [repeat split; reflexivity|reflexivity|nodup|addresses]. Defined.

Lemma six_rb : rb_tree six.
Proof. split; [reflexivity|]. exists 2%nat. repeat constructor. Defined.

Lemma six_is_rb : is_rb six_state [4; 8; 12; 16; 20; 24].
Proof. exists six. split; [exact six_focus|]. split; [exact six_rb|reflexivity]. Defined.

(** Insertion of 28 as the right child of 24: the uncle is missing, and the tree
    is rotated at 20. *)
Definition hole28 : ctx := [mkF Rgt Red 24 E; mkF Rgt Black 20 E; mkF Rgt Black 16 (T Red (T Black E 4 E) 8 (T Black E 12 E))].

Lemma rb_insert_correct_witness :
  exists st', rb_add 28 24 (Some Rgt) six_state = Ok (tt, st') /\ is_rb st' [4; 8; 12; 16; 20; 24; 28] /\
    same_but [4; 8; 12; 16; 20; 24; 28] six_state st'.
Proof.
  apply (rb_insert_correct six_state hole28 28).
  - apply (focus_plug six_state hole28 E). exact six_focus.
  - exact six_rb.
  - addresses.
  - apply (bool_decide_unpack _). vm_compute. exact I.
  - eexists. reflexivity.
Defined.

(** Removal of the root, whose successor is its right child. *)
Lemma rb_erase_correct_witness :
  exists st', rb_erase 16 six_state = Ok (tt, st') /\ is_rb st' [4; 8; 12; 20; 24] /\ same_but [4; 8; 12; 20; 24] six_state st'.
Proof. apply (rb_erase_correct six_state [4; 8; 12] 16 [20; 24]). exact six_is_rb. Defined.

Lemma rb_walk_correct_witness :
  rb_first six_state = Ok (4, six_state) /\ rb_last six_state = Ok (24, six_state) /\
  forall l1 a l2, [4; 8; 12; 16; 20; 24] = l1 ++ a :: l2 -> rb_next a six_state = Ok (hd 0 l2, six_state) /\
    rb_prev a six_state = Ok (default 0 (last l1), six_state).
Proof. apply (rb_walk_correct six_state [4; 8; 12; 16; 20; 24]). exact six_is_rb. Defined.

Lemma rb_replace_correct_witness :
  exists st', rb_replace_node 8 28 six_state = Ok (tt, st') /\ is_rb st' [4; 28; 12; 16; 20; 24] /\
    same_but [4; 28; 12; 16; 20; 24] six_state st'.
Proof.
  apply (rb_replace_correct six_state [4] 8 [12; 16; 20; 24] 28); [exact six_is_rb|addresses| |eexists; reflexivity].
  apply (bool_decide_unpack _). vm_compute. exact I.
Defined.

Lemma rb_postorder_correct_witness :
  rb_first_postorder six_state = Ok (4, six_state) /\
  forall l1 a l2, postorder six = l1 ++ a :: l2 -> rb_next_postorder a six_state = Ok (hd 0 l2, six_state).
Proof. apply (rb_postorder_correct six_state six). exact six_focus. Defined.

(** ** The sequence of all nodes, added and removed *)

Definition blank (l : list Z) : rb_state := mkRbState (list_to_map ((fun a => (a, mkRb a 0 0)) <$> l)) 0.

Fixpoint each (f : Z -> RB unit) (l : list Z) : RB unit := match l with [] => mret tt | a :: l => f a;; each f l end.

(** The nodes of a state, by [rb_first] and [rb_next]. *)
Definition walk (n : nat) : RB (list Z) :=
  a ← rb_first;
  (fix go n a := match n with O => mret [] | S n => if a =? 0 then mret [] else b ← rb_next a; l ← go n b; mret (a :: l) end) n a.

Definition scenario : RB (list Z) :=
  each (elv_rb_add (fun a => (a * 5) mod 64)) [4; 8; 12; 16; 20; 24; 28; 32; 36; 40; 44; 48];;
  each elv_rb_del [20; 4; 48; 32; 36];;
  walk 20.

(** The nodes that are left, in the order of their sectors. *)
Example scenario_runs :
  match scenario (blank [4; 8; 12; 16; 20; 24; 28; 32; 36; 40; 44; 48]) with
  | Ok (l, _) => l = [40; 28; 16; 44; 8; 24; 12]
  | _ => False
  end.
Proof. vm_compute. reflexivity. Qed.

(** Removing a node that is not linked stops at the [BUG_ON]. *)
Example elv_rb_del_empty : elv_rb_del 28 six_state = Fault.
Proof. reflexivity. Qed.

(** ** Trees of the deadline scheduler *)

Definition ex_node (r : rqid) : Z := 4 * (Z.of_nat r + 1).
Definition ex_entry (a : Z) : rqid := Z.to_nat (a / 4 - 1).

Lemma ex_entry_node r : ex_entry (ex_node r) = r.
Proof. unfold ex_entry, ex_node. rewrite Z.mul_comm, Z.div_mul by lia. lia. Qed.

Lemma ex_node_ok r : addr_ok (ex_node r).
Proof. unfold addr_ok, ex_node. split; [lia|]. by rewrite Z.mul_comm, Z_mod_mult. Qed.

Definition ex_queue : request_queue :=
  mkQ (fun r => mkRq READ (match r with 0%nat => 80 | 1%nat => 16 | 2%nat => 80 | _ => 40 end) 8 0)
    (mkDd (fun _ => []) (fun _ => []) (fun _ => None) 0 0 0 (fun _ => 500) 16 2 1) [] 0 0 None None.

Definition ex_ops : list rq_op := [AddRq 0%nat; AddRq 1%nat; AddRq 2%nat; DelRq 0%nat; AddRq 3%nat].

Lemma ex_tree : tree_of ex_node [0; 1; 2; 3]%nat READ ex_queue (blank (ex_node <$> [0; 1; 2; 3]%nat)).
Proof.
  constructor.
  - exists E. split; [|split; [split; [reflexivity|exists 0%nat; constructor]|reflexivity]].
    constructor; [exact I|reflexivity|constructor|constructor].
  - constructor.
  - intros r Hr. repeat (apply elem_of_cons in Hr as [->|Hr]; [vm_compute; eexists; reflexivity|]). by apply elem_of_nil in Hr.
Defined.

Lemma deadline_tree_refines_witness :
  exists st', tree_ops ex_node ex_entry ex_queue ex_ops (blank (ex_node <$> [0; 1; 2; 3]%nat)) = Ok (tt, st') /\
    tree_of ex_node [0; 1; 2; 3]%nat READ (foldl list_op ex_queue ex_ops) st'.
Proof.
  apply (deadline_tree_refines ex_node ex_entry ex_entry_node ex_node_ok [0; 1; 2; 3]%nat READ ex_queue _ ex_ops); [exact ex_tree|].
  cbn [ops_ok ex_ops op_ok]. split_and!; try exact I; try reflexivity; apply (bool_decide_unpack _); vm_compute; exact I.
Defined.

Example ex_ops_list : sort_list (dd (foldl list_op ex_queue ex_ops)) READ = [1; 3; 2]%nat.
Proof. reflexivity. Qed.

(** Two requests in the tree. *)
Definition ex_two : request_queue := foldl list_op ex_queue [AddRq 0%nat; AddRq 1%nat].
Definition ex_two_state : rb_state := mkRbState (list_to_map [(4, mkRb (pack 8 Red) 0 0); (8, mkRb (pack 0 Black) 4 0)]) 8.

Lemma ex_two_tree : tree_of ex_node [0; 1]%nat READ ex_two ex_two_state.
Proof.
  constructor.
  - exists (T Black E 8 (T Red E 4 E)). split; [|split; [split; [reflexivity|exists 1%nat; repeat constructor]|reflexivity]].
    constructor; [repeat split; reflexivity|reflexivity|nodup|addresses].
  - repeat constructor. unfold pos_le. vm_compute. discriminate.
  - intros r Hr. repeat (apply elem_of_cons in Hr as [->|Hr]; [vm_compute; eexists; reflexivity|]). by apply elem_of_nil in Hr.
Defined.

Lemma deadline_tree_lookup_witness :
  (forall r, q_dir ex_two r = READ -> r ∈ sort_list (dd ex_two) READ ->
     elv_rb_latter_request (ex_node r) ex_two_state = Ok (from_option ex_node 0 (deadline_latter_request ex_two r), ex_two_state)) /\
  exists found, elv_rb_find (node_pos ex_entry ex_two) 80 ex_two_state = Ok (from_option ex_node 0 found, ex_two_state) /\
    match found with
    | Some r => r ∈ sort_list (dd ex_two) READ /\ q_pos ex_two r = 80
    | None => forall r, r ∈ sort_list (dd ex_two) READ -> q_pos ex_two r <> 80
    end.
Proof.
  apply (deadline_tree_lookup ex_node ex_entry ex_entry_node ex_node_ok [0; 1]%nat READ ex_two ex_two_state 80). exact ex_two_tree.
Defined.

Example ex_two_find : elv_rb_find (node_pos ex_entry ex_two) 80 ex_two_state = Ok (4, ex_two_state).
Proof. reflexivity. Qed.
