(* ===== verification/Sorting.v ===== *)
(** Orders given by comparison functions, sorted lists, and merging. *)
From stdpp Require Import sorting.
From S2P Require Import Prelude.

(** A comparison function whose sign is a total preorder. *)
Class CmpOk {A} (cmp : A -> A -> Z) : Prop := {
  cmp_total a b : cmp a b <= 0 \/ cmp b a <= 0;
  cmp_trans a b c : cmp a b <= 0 -> cmp b c <= 0 -> cmp a c <= 0 }.

Lemma filter_none {A} (P : A -> Prop) `{forall x, Decision (P x)} l : (forall z, z ∈ l -> ~ P z) -> filter P l = [].
Proof.
  intros HP. induction l as [|x l IH]; [done|]. rewrite filter_cons_False by (apply HP; left). apply IH. intros z Hz. apply HP. by right.
Qed.

Section sorting.
Context {A : Type} (cmp : A -> A -> Z) `{!CmpOk cmp}.

Definition le (a b : A) : Prop := cmp a b <= 0.
Definition eqv (a b : A) : Prop := cmp a b <= 0 /\ cmp b a <= 0.

#[global] Instance eqv_dec a b : Decision (eqv a b).
Proof. unfold eqv. apply _. Defined.

(** [m] is [l], sorted, with equivalent elements in the order they had. *)
Definition sorts (l m : list A) : Prop :=
  m ≡ₚ l /\ StronglySorted le m /\ forall c, filter (eqv c) m = filter (eqv c) l.

(** Merging; of equivalent elements, the one of the first list comes first. *)
Fixpoint pmerge (x : list A) : list A -> list A :=
  fix go (y : list A) : list A :=
    match x, y with
    | [], _ => y
    | _, [] => x
    | a :: x', b :: y' => if cmp a b <=? 0 then a :: pmerge x' y else b :: go y'
    end.

Lemma pmerge_nil_l y : pmerge [] y = y.
Proof. by destruct y. Qed.
Lemma pmerge_nil_r x : pmerge x [] = x.
Proof. by destruct x. Qed.
Lemma pmerge_cons a x b y : pmerge (a :: x) (b :: y) = if cmp a b <=? 0 then a :: pmerge x (b :: y) else b :: pmerge (a :: x) y.
Proof. done. Qed.

(** Induction over the steps of a merge. *)
Lemma pmerge_ind (P : list A -> list A -> Prop) :
  (forall y, P [] y) -> (forall x, P x []) ->
  (forall a x b y, cmp a b <= 0 -> P x (b :: y) -> P (a :: x) (b :: y)) ->
  (forall a x b y, 0 < cmp a b -> P (a :: x) y -> P (a :: x) (b :: y)) ->
  forall x y, P x y.
Proof.
  intros H1 H2 H3 H4 x. induction x as [|a x IHx]; [done|]. intros y. induction y as [|b y IHy]; [done|].
  destruct (Z.leb_spec (cmp a b) 0); auto.
Qed.

Lemma pmerge_perm x y : pmerge x y ≡ₚ x ++ y.
Proof.
  revert x y. refine (pmerge_ind _ _ _ _ _); [intros y|intros x|intros a x b y Hab IH|intros a x b y Hab IH].
  - by rewrite pmerge_nil_l.
  - by rewrite pmerge_nil_r, app_nil_r.
  - rewrite pmerge_cons, (proj2 (Z.leb_le _ _)) by lia. cbn. by rewrite IH.
  - rewrite pmerge_cons, (proj2 (Z.leb_gt _ _)) by lia. rewrite IH. apply Permutation_middle.
Qed.

Lemma sorted_cons_le a x b : StronglySorted le (a :: x) -> cmp b a <= 0 -> Forall (le b) (a :: x).
Proof.
  intros Hs Hb. inversion Hs as [|? ? _ Ha]; subst. constructor; [done|]. eapply Forall_impl; [exact Ha|]. intros z Hz. by eapply cmp_trans.
Qed.

Lemma pmerge_sorted x y : StronglySorted le x -> StronglySorted le y -> StronglySorted le (pmerge x y).
Proof.
  revert x y. refine (pmerge_ind _ _ _ _ _); [intros y|intros x|intros a x b y Hab IH|intros a x b y Hab IH]; intros Hx Hy.
  - by rewrite pmerge_nil_l.
  - by rewrite pmerge_nil_r.
  - rewrite pmerge_cons, (proj2 (Z.leb_le _ _)) by lia. inversion Hx as [|? ? Hx1 Hx2]; subst. constructor; [auto|].
    rewrite pmerge_perm, Forall_app. split; [done|]. by apply sorted_cons_le.
  - rewrite pmerge_cons, (proj2 (Z.leb_gt _ _)) by lia. inversion Hy as [|? ? Hy1 Hy2]; subst. constructor; [auto|].
    rewrite pmerge_perm, Forall_app. split; [|done]. apply sorted_cons_le; [done|]. destruct (cmp_total a b); [lia|done].
Qed.

Lemma pmerge_filter c x y : StronglySorted le x -> StronglySorted le y ->
  filter (eqv c) (pmerge x y) = filter (eqv c) x ++ filter (eqv c) y.
Proof.
  revert x y. refine (pmerge_ind _ _ _ _ _); [intros y|intros x|intros a x b y Hab IH|intros a x b y Hab IH]; intros Hx Hy.
  - by rewrite pmerge_nil_l.
  - by rewrite pmerge_nil_r, app_nil_r.
  - rewrite pmerge_cons, (proj2 (Z.leb_le _ _)) by lia. inversion Hx as [|? ? Hx1 Hx2]; subst. specialize (IH Hx1 Hy).
    rewrite !(filter_cons _ a). case_decide; cbn; by rewrite IH.
  - rewrite pmerge_cons, (proj2 (Z.leb_gt _ _)) by lia. inversion Hy as [|? ? Hy1 Hy2]; subst. specialize (IH Hx Hy1).
    rewrite !(filter_cons _ b). case_decide as Hc; [|done]. rewrite IH.
    assert (Hnil : filter (eqv c) (a :: x) = []); [|by rewrite Hnil].
    apply filter_none. intros z Hz [H1 H2].
    assert (Haz : cmp a z <= 0).
    { inversion Hx as [|? ? _ Ha]; subst. rewrite Forall_forall in Ha. apply elem_of_cons in Hz as [->|Hz]; [|by apply Ha].
      destruct (cmp_total a a); done. }
    destruct Hc as [Hc1 Hc2]. assert (cmp a b <= 0); [|lia]. eapply cmp_trans; [exact Haz|]. by eapply cmp_trans.
Qed.

Lemma sorts_nil : sorts [] [].
Proof. split_and!; [done|constructor|done]. Qed.

Lemma sorts_single a : sorts [a] [a].
Proof. split_and!; [done|repeat constructor|done]. Qed.

Lemma sorts_merge l1 l2 m1 m2 : sorts l1 m1 -> sorts l2 m2 -> sorts (l1 ++ l2) (pmerge m1 m2).
Proof.
  intros (P1 & S1 & F1) (P2 & S2 & F2). split_and!.
  - by rewrite pmerge_perm, P1, P2.
  - by apply pmerge_sorted.
  - intros c. by rewrite pmerge_filter, F1, F2, filter_app.
Qed.
End sorting.
