(* ===== verification/ListSortDefs.v ===== *)
(** Sorting of linked lists: [lib/list_sort.c].

    Nodes are named by their addresses; [0] is [NULL].  The comparison function
    is an argument, called on nodes. *)
From stdpp Require Import gmap.
From S2P Require Import Prelude State.

Record list_head := mkLh { next : Z; prev : Z }.

Abbreviation heap := (gmap Z list_head).
Abbreviation LH := (ST heap).

Definition lh_load (a : Z) : LH list_head := fun h => match h !! a with Some n => Ok (n, h) | None => Fault end.
Definition lh_update (a : Z) (f : list_head -> list_head) : LH unit := fun h =>
  match h !! a with Some n => Ok (tt, <[a := f n]> h) | None => Fault end.
Definition get_next (a : Z) : LH Z := n ← lh_load a; mret (next n).
Definition get_prev (a : Z) : LH Z := n ← lh_load a; mret (prev n).
Definition set_next (a v : Z) : LH unit := lh_update a (fun n => mkLh v (prev n)).
Definition set_prev (a v : Z) : LH unit := lh_update a (fun n => mkLh (next n) v).

(** An access to an array of the caller. *)
Definition lift {A} (r : res A) : LH A := fun h => a ← r; Ok (a, h).

(** A loop goes at most once through every node of the heap. *)
Definition lh_while {X R} (body : X -> LH (X + R)) (x : X) : LH R := fun h => st_loop (S (size h)) body x h.

Section list_sort.
Context (cmp : Z -> Z -> Z).

(** ** Merging

    [tail] is [None] while it points to the local variable [head], whose [next]
    is [hnext]. *)
Definition tail_set (tail : option Z) (hnext v : Z) : LH Z :=
  match tail with None => mret v | Some t => set_next t v;; mret hnext end.
Definition tail_next (tail : option Z) (hnext : Z) : LH Z :=
  match tail with None => mret hnext | Some t => get_next t end.

Definition merge_lists_step (x : option Z * Z * Z * Z) : LH (option Z * Z * Z * Z + Z) :=
  let '(tail, hnext, a, b) := x in
  if negb (a =? 0) && negb (b =? 0) then
    '(hnext, a, b) ← (if cmp a b <=? 0 then
        hnext ← tail_set tail hnext a;
        a ← get_next a;
        mret (hnext, a, b)
      else
        hnext ← tail_set tail hnext b;
        b ← get_next b;
        mret (hnext, a, b));
    tail ← tail_next tail hnext;
    mret (inl (Some tail, hnext, a, b))
  else
    hnext ← tail_set tail hnext (if negb (a =? 0) then a else b);
    mret (inr hnext).

Definition merge (a b : Z) : LH Z := lh_while merge_lists_step (None, 0, a, b).

Definition restore_merge_step (x : Z * Z * Z) : LH (Z * Z * Z + Z * Z * Z) :=
  let '(tail, a, b) := x in
  if negb (a =? 0) && negb (b =? 0) then
    '(a, b) ← (if cmp a b <=? 0 then
        set_next tail a;;
        set_prev a tail;;
        a ← get_next a;
        mret (a, b)
      else
        set_next tail b;;
        set_prev b tail;;
        b ← get_next b;
        mret (a, b));
    tail ← get_next tail;
    mret (inl (tail, a, b))
  else mret (inr (tail, a, b)).

(** [do { ... } while (tail->next)]; the calls of [cmp] that let the client
    reschedule have no result. *)
Definition restore_step (x : Z * Z) : LH (Z * Z + Z) :=
  let '(tail, count) := x in
  let count := (count + 1) mod 2 ^ 8 in
  n ← get_next tail;
  set_prev n tail;;
  tail ← get_next tail;
  n ← get_next tail;
  mret (if negb (n =? 0) then inl (tail, count) else inr tail).

Definition merge_and_restore_back_links (head a b : Z) : LH unit :=
  '(tail, a, b) ← lh_while restore_merge_step (head, a, b);
  set_next tail (if negb (a =? 0) then a else b);;
  tail ← lh_while restore_step (tail, 0);
  set_next tail head;;
  set_prev head tail.

(** ** Sorting *)

Definition MAX_LIST_LENGTH_BITS : nat := 20.

(** [for (lev = 0; part[lev]; lev++)] *)
Definition carry_step (x : nat * Z * list Z) : LH (nat * Z * list Z + nat * Z * list Z) :=
  let '(lev, cur, part) := x in
  p ← lift (aget part lev);
  if negb (p =? 0) then
    cur ← merge p cur;
    part ← lift (aset part lev 0);
    mret (inl (S lev, cur, part))
  else mret (inr (lev, cur, part)).

Definition node_step (x : Z * nat * list Z) : LH (Z * nat * list Z + nat * list Z) :=
  let '(list, max_lev, part) := x in
  if negb (list =? 0) then
    let cur := list in
    list ← get_next list;
    set_next cur 0;;
    '(lev, cur, part) ← st_loop (S (length part)) carry_step (0%nat, cur, part);
    let '(lev, max_lev) :=
      if (max_lev <? lev)%nat then
        let lev := if (length part - 1 <=? lev)%nat then (lev - 1)%nat else lev in (lev, lev)
      else (lev, max_lev) in
    part ← lift (aset part lev cur);
    mret (inl (list, max_lev, part))
  else mret (inr (max_lev, part)).

(** [for (lev = 0; lev < max_lev; lev++)] *)
Definition collect_step (max_lev : nat) (part : list Z) (x : nat * Z) : LH (nat * Z + Z) :=
  let '(lev, list) := x in
  if (lev <? max_lev)%nat then
    p ← lift (aget part lev);
    list ← (if negb (p =? 0) then merge p list else mret list);
    mret (inl (S lev, list))
  else mret (inr list).

Definition list_sort (head : Z) : LH unit :=
  first ← get_next head;
  if first =? head then mret tt
  else
    let part := replicate (MAX_LIST_LENGTH_BITS + 1) 0 in
    last ← get_prev head;
    set_next last 0;;
    list ← get_next head;
    '(max_lev, part) ← lh_while node_step (list, 0%nat, part);
    list ← st_loop (S (length part)) (collect_step max_lev part) (0%nat, 0);
    p ← lift (aget part max_lev);
    merge_and_restore_back_links head p list.
End list_sort.
