(* ===== verification/ListSort.v ===== *)
(** Correctness of [list_sort]. *)
From stdpp Require Import gmap sorting.
From S2P Require Import Prelude State Sorting ListSortDefs.

(** ** Links *)

Definition nextof (h : heap) (a : Z) : option Z := next <$> h !! a.
Definition prevof (h : heap) (a : Z) : option Z := prev <$> h !! a.

(** The nodes [l] follow each other, and [q] the last one. *)
Fixpoint lseg (h : heap) (l : list Z) (q : Z) : Prop :=
  match l with [] => True | a :: l => nextof h a = Some (hd q l) /\ lseg h l q end.

(** The way back, from the last of [l] to the node [p] before the first one. *)
Fixpoint bseg (h : heap) (p : Z) (l : list Z) : Prop :=
  match l with [] => True | a :: l => prevof h a = Some p /\ bseg h a l end.

(** A list with the head [head] and the nodes [l]. *)
Definition ring (h : heap) (head : Z) (l : list Z) : Prop :=
  lseg h (head :: l) head /\ bseg h head l /\ prevof h head = last (head :: l).

(** Nothing but the nodes of [l] has changed. *)
Definition keeps (l : list Z) (h h' : heap) : Prop := forall a, a ∉ l -> h' !! a = h !! a.

#[global] Instance keeps_proper : Proper ((≡ₚ) ==> eq ==> eq ==> iff) keeps.
Proof. intros l l' Hl h _ <- h' _ <-. unfold keeps. by setoid_rewrite Hl. Qed.

Lemma keeps_trans l l1 h h1 h2 : keeps l h h1 -> keeps l1 h1 h2 -> (forall a, a ∈ l1 -> a ∈ l) -> keeps l h h2.
Proof. intros H1 H2 Hsub a Ha. rewrite H2, H1; [done|done|]. intros Hin. by apply Ha, Hsub. Qed.

Lemma lseg_app h l1 l2 q : lseg h (l1 ++ l2) q <-> lseg h l1 (hd q l2) /\ lseg h l2 q.
Proof. induction l1 as [|a l1 IH]; cbn; [tauto|]. rewrite IH. assert (hd q (l1 ++ l2) = hd (hd q l2) l1) as -> by (by destruct l1). tauto. Qed.

Lemma bseg_app h p l1 l2 : bseg h p (l1 ++ l2) <-> bseg h p l1 /\ bseg h (default p (last l1)) l2.
Proof.
  revert p. induction l1 as [|a l1 IH]; intros p; cbn [app bseg]; [cbn; tauto|]. rewrite IH.
  assert (Hl : default a (last l1) = default p (last (a :: l1))) by (rewrite last_cons; by destruct (last l1)). rewrite Hl. tauto.
Qed.

Lemma lseg_keeps h h' l q : (forall a, a ∈ l -> nextof h' a = nextof h a) -> lseg h l q -> lseg h' l q.
Proof.
  induction l as [|a l IH]; cbn; [done|]. intros Hk [H1 H2]. split; [rewrite Hk by left; done|]. apply IH; [|done]. intros b Hb. apply Hk. by right.
Qed.

Lemma bseg_keeps h h' p l : (forall a, a ∈ l -> prevof h' a = prevof h a) -> bseg h p l -> bseg h' p l.
Proof.
  revert p. induction l as [|a l IH]; intros p; cbn; [done|]. intros Hk [H1 H2]. split; [rewrite Hk by left; done|].
  apply IH; [|done]. intros b Hb. apply Hk. by right.
Qed.

Lemma lseg_dom h l q a : lseg h l q -> a ∈ l -> is_Some (h !! a).
Proof.
  induction l as [|b l IH]; cbn; [by intros _ ?%elem_of_nil|]. intros [H1 H2] [->|Ha]%elem_of_cons; [|auto].
  unfold nextof in H1. destruct (h !! b); [eauto|done].
Qed.

(** ** Writes *)

Definition setn (h : heap) (a v : Z) : heap := match h !! a with Some n => <[a := mkLh v (prev n)]> h | None => h end.
Definition setp (h : heap) (a v : Z) : heap := match h !! a with Some n => <[a := mkLh (next n) v]> h | None => h end.

Section writes.
Context (h : heap) (a v : Z).

Lemma setn_ne b : b <> a -> setn h a v !! b = h !! b.
Proof. unfold setn. destruct (h !! a); [|done]. intros ?. by rewrite lookup_insert_ne. Qed.
Lemma setp_ne b : b <> a -> setp h a v !! b = h !! b.
Proof. unfold setp. destruct (h !! a); [|done]. intros ?. by rewrite lookup_insert_ne. Qed.

Lemma nextof_setn : is_Some (h !! a) -> nextof (setn h a v) a = Some v.
Proof. intros [n Hn]. unfold nextof, setn. by rewrite Hn, lookup_insert_eq. Qed.
Lemma prevof_setp : is_Some (h !! a) -> prevof (setp h a v) a = Some v.
Proof. intros [n Hn]. unfold prevof, setp. by rewrite Hn, lookup_insert_eq. Qed.
Lemma nextof_setn_ne b : b <> a -> nextof (setn h a v) b = nextof h b.
Proof. intros ?. unfold nextof. by rewrite setn_ne. Qed.
Lemma prevof_setp_ne b : b <> a -> prevof (setp h a v) b = prevof h b.
Proof. intros ?. unfold prevof. by rewrite setp_ne. Qed.
Lemma prevof_setn b : prevof (setn h a v) b = prevof h b.
Proof.
  destruct (decide (b = a)) as [->|]; unfold prevof, setn; destruct (h !! a) eqn:Ha; try done.
  - by rewrite lookup_insert_eq.
  - by rewrite Ha.
  - by rewrite lookup_insert_ne.
Qed.
Lemma nextof_setp b : nextof (setp h a v) b = nextof h b.
Proof.
  destruct (decide (b = a)) as [->|]; unfold nextof, setp; destruct (h !! a) eqn:Ha; try done.
  - by rewrite lookup_insert_eq.
  - by rewrite Ha.
  - by rewrite lookup_insert_ne.
Qed.

Lemma is_Some_setn b : is_Some (setn h a v !! b) <-> is_Some (h !! b).
Proof.
  destruct (decide (b = a)) as [->|]; [|by rewrite setn_ne]. unfold setn. destruct (h !! a) eqn:Ha; [|by rewrite Ha].
  rewrite lookup_insert_eq. split; eauto.
Qed.
Lemma is_Some_setp b : is_Some (setp h a v !! b) <-> is_Some (h !! b).
Proof.
  destruct (decide (b = a)) as [->|]; [|by rewrite setp_ne]. unfold setp. destruct (h !! a) eqn:Ha; [|by rewrite Ha].
  rewrite lookup_insert_eq. split; eauto.
Qed.

Lemma wp_get_next (Q : Z -> heap -> Prop) : nextof h a = Some v -> Q v h -> wp (get_next a) Q h.
Proof.
  unfold nextof. destruct (h !! a) as [n|] eqn:Ha; [|done]. intros [= <-] HQ. apply wp_bind. exists n, h. unfold lh_load. rewrite Ha.
  split; [done|]. by apply wp_ret.
Qed.
Lemma wp_get_prev (Q : Z -> heap -> Prop) : prevof h a = Some v -> Q v h -> wp (get_prev a) Q h.
Proof.
  unfold prevof. destruct (h !! a) as [n|] eqn:Ha; [|done]. intros [= <-] HQ. apply wp_bind. exists n, h. unfold lh_load. rewrite Ha.
  split; [done|]. by apply wp_ret.
Qed.
Lemma wp_set_next (Q : unit -> heap -> Prop) : is_Some (h !! a) -> Q tt (setn h a v) -> wp (set_next a v) Q h.
Proof. intros [n Ha] HQ. unfold setn in HQ. rewrite Ha in HQ. eexists tt, _. unfold set_next, lh_update. rewrite Ha. done. Qed.
Lemma wp_set_prev (Q : unit -> heap -> Prop) : is_Some (h !! a) -> Q tt (setp h a v) -> wp (set_prev a v) Q h.
Proof. intros [n Ha] HQ. unfold setp in HQ. rewrite Ha in HQ. eexists tt, _. unfold set_prev, lh_update. rewrite Ha. done. Qed.
End writes.

Lemma NoDup_heap (h : heap) (l : list Z) : NoDup l -> (forall a, a ∈ l -> is_Some (h !! a)) -> (length l <= size h)%nat.
Proof.
  intros Hnd Hl. rewrite <- (size_list_to_set (C := gset Z)) by done. rewrite <- size_dom. apply subseteq_size.
  intros a. rewrite elem_of_list_to_set, elem_of_dom. apply Hl.
Qed.

Lemma lh_while_ok {X R} (I : nat -> X -> heap -> Prop) (Q : R -> heap -> Prop) (body : X -> LH (X + R)) :
  (forall n x h, I n x h ->
     wp (body x) (fun o h' => match o with inl x' => exists n', (n' < n)%nat /\ I n' x' h' | inr r => Q r h' end) h) ->
  forall n x h, (n <= size h)%nat -> I n x h -> wp (lh_while body x) Q h.
Proof. intros Hbody n x h Hn HI. unfold lh_while. eapply (st_loop_ok I); [done| |done]. lia. Qed.

(** ** Merging *)

(** The end of the list that [merge] builds: the nodes [d] are linked up to the
    last one, [t], whose [next] is still to be written. *)
Definition tail_ok (h : heap) (d : list Z) (tail : option Z) (hnext : Z) : Prop :=
  match tail with
  | None => d = []
  | Some t => exists d0, d = d0 ++ [t] /\ lseg h d0 t /\ is_Some (h !! t) /\ hnext = hd 0 d
  end.

Lemma hd_ne v v' (d : list Z) : d <> [] -> hd v d = hd v' d.
Proof. by destruct d. Qed.

Lemma tail_set_ok h d tail hnext v : tail_ok h d tail hnext -> NoDup d ->
  wp (tail_set tail hnext v) (fun hn h' => hn = hd v d /\ lseg h' d v /\ keeps d h h') h.
Proof.
  intros Ht Hnd. destruct tail as [t|]; cbn in *; [|subst; by apply wp_ret].
  destruct Ht as (d0 & -> & Hd0 & Hsome & ->). apply wp_bind, wp_set_next; [done|]. apply wp_ret. split_and!.
  - apply hd_ne. by destruct d0.
  - apply NoDup_app in Hnd as (_ & Hdisj & _). rewrite lseg_app. cbn. rewrite nextof_setn by done. split; [|done].
    eapply lseg_keeps; [|exact Hd0]. intros a Ha. apply nextof_setn_ne. intros ->. apply (Hdisj t Ha). left.
  - intros a Ha. apply setn_ne. set_solver.
Qed.

Lemma tail_next_ok h d tail hnext v (Q : Z -> heap -> Prop) :
  lseg h d v -> (match tail with None => d = [] | Some t => last d = Some t end) -> hnext = hd v d -> Q v h -> wp (tail_next tail hnext) Q h.
Proof.
  intros Hd Ht -> HQ. destruct tail as [t|]; cbn.
  - apply last_Some in Ht as [d0 ->]. apply lseg_app in Hd as [_ [Hn _]]. cbn in Hn. by eapply wp_get_next.
  - subst d. by apply wp_ret.
Qed.

(** The next action of a sequence, as in [W]. *)
Ltac follow W := apply wp_bind_inv in W; eapply wp_mono; [exact W|clear W; intros ?? W].

Section sort.
Context (cmp : Z -> Z -> Z).

Definition merge_inv (x y : list Z) (h0 : heap) (n : nat) (s : option Z * Z * Z * Z) (h : heap) : Prop :=
  let '(tail, hnext, a, b) := s in
  exists d x' y', n = (length x' + length y')%nat /\ a = hd 0 x' /\ b = hd 0 y' /\ lseg h x' 0 /\ lseg h y' 0 /\ tail_ok h d tail hnext /\
    pmerge cmp x y = d ++ pmerge cmp x' y' /\ keeps (x ++ y) h0 h.

Lemma merge_inv_nodes x y d x' y' : pmerge cmp x y = d ++ pmerge cmp x' y' -> d ++ x' ++ y' ≡ₚ x ++ y.
Proof. intros Heq. by rewrite <- (pmerge_perm cmp x y), Heq, pmerge_perm. Qed.

Lemma merge_take h d tail hnext c z q :
  tail_ok h d tail hnext -> NoDup (d ++ c :: z) -> lseg h (c :: z) q ->
  wp (hn ← tail_set tail hnext c; c' ← get_next c; t ← tail_next tail hn; mret (hn, c', t))
    (fun '(hn, c', t) h' => c' = hd q z /\ t = c /\ tail_ok h' (d ++ [c]) (Some c) hn /\ keeps d h h') h.
Proof.
  intros Ht Hnd [Hn Hz]. apply NoDup_app in Hnd as (Hd & Hdisj & Hcz). apply wp_bind. eapply wp_mono; [by apply tail_set_ok|].
  intros hn h' (-> & Hl & Hk). assert (Hc : h' !! c = h !! c) by (apply Hk; intros Hin; apply (Hdisj c Hin); left).
  apply wp_bind. eapply wp_get_next; [unfold nextof; rewrite Hc; exact Hn|]. apply wp_bind. eapply (tail_next_ok _ d); [done| |done|].
  { destruct tail as [t|]; cbn in Ht; [|done]. destruct Ht as (d0 & -> & _). by rewrite last_snoc. }
  apply wp_ret. split_and!; [done|done| |done]. exists d. split_and!; [done|done| |by destruct d].
  rewrite Hc. unfold nextof in Hn. destruct (h !! c); [eauto|done].
Qed.

Lemma merge_step_end x y h0 h d tail hnext r :
  tail_ok h d tail hnext -> NoDup (d ++ r) -> lseg h r 0 -> pmerge cmp x y = d ++ r -> keeps (x ++ y) h0 h -> d ++ r ≡ₚ x ++ y ->
  wp (hn ← tail_set tail hnext (hd 0 r); mret (inr hn))
    (fun o h' => match o : option Z * Z * Z * Z + Z with
       | inl x' => exists n', (n' < length r)%nat /\ merge_inv x y h0 n' x' h'
       | inr o => o = hd 0 (pmerge cmp x y) /\ lseg h' (pmerge cmp x y) 0 /\ keeps (x ++ y) h0 h'
       end) h.
Proof.
  intros Ht Hnd Hr Heq Hk Hp. apply NoDup_app in Hnd as (Hd & Hdisj & _). apply wp_bind. eapply wp_mono; [by apply tail_set_ok|].
  intros hn h' (-> & Hl & Hk'). apply wp_ret. rewrite Heq. split_and!.
  - by destruct d.
  - rewrite lseg_app. split; [done|]. eapply lseg_keeps; [|exact Hr]. intros a Ha. unfold nextof. rewrite Hk'; [done|].
    intros Hin. by apply (Hdisj a Hin).
  - eapply keeps_trans; [done|done|]. intros a Ha. rewrite <- Hp. apply elem_of_app. by left.
Qed.

Lemma merge_inv_next x y h0 h h' d c x1 y1 hn :
  NoDup (x ++ y) -> pmerge cmp x y = d ++ c :: pmerge cmp x1 y1 -> keeps (x ++ y) h0 h ->
  lseg h x1 0 -> lseg h y1 0 -> tail_ok h' (d ++ [c]) (Some c) hn -> keeps d h h' ->
  merge_inv x y h0 (length x1 + length y1) (Some c, hn, hd 0 x1, hd 0 y1) h'.
Proof.
  intros Hnd Heq Hk Hx Hy Ht Hk'. assert (Heq' : pmerge cmp x y = (d ++ [c]) ++ pmerge cmp x1 y1) by (by rewrite <- app_assoc).
  pose proof (merge_inv_nodes _ _ _ _ _ Heq') as Hp. rewrite <- Hp, <- app_assoc in Hnd. apply NoDup_app in Hnd as (_ & Hdisj & _).
  assert (Hsame : forall l, (forall a, a ∈ l -> a ∈ x1 ++ y1) -> lseg h l 0 -> lseg h' l 0).
  { intros l Hl. apply lseg_keeps. intros a Ha. unfold nextof. rewrite Hk'; [done|]. intros Hin. apply (Hdisj a Hin). right. by apply Hl. }
  exists (d ++ [c]), x1, y1. split_and!; try done.
  - apply Hsame; [|done]. intros a Ha. apply elem_of_app. by left.
  - apply Hsame; [|done]. intros a Ha. apply elem_of_app. by right.
  - eapply keeps_trans; [done|done|]. intros a Ha. rewrite <- Hp. set_solver.
Qed.

Lemma merge_step_ok x y h0 n s h :
  NoDup (x ++ y) -> 0 ∉ x ++ y -> merge_inv x y h0 n s h ->
  wp (merge_lists_step cmp s) (fun o h' => match o with
    | inl s' => exists n', (n' < n)%nat /\ merge_inv x y h0 n' s' h'
    | inr o => o = hd 0 (pmerge cmp x y) /\ lseg h' (pmerge cmp x y) 0 /\ keeps (x ++ y) h0 h'
    end) h.
Proof.
  intros Hnd H0. destruct s as [[[tail hnext] a] b]. intros (d & x' & y' & -> & -> & -> & Hx & Hy & Ht & Heq & Hk).
  pose proof (merge_inv_nodes _ _ _ _ _ Heq) as Hp. rewrite <- Hp in Hnd. rewrite <- Hp in H0. unfold merge_lists_step.
  destruct x' as [|a x']; cbn [hd].
  { rewrite Z.eqb_refl. cbn [negb andb]. rewrite pmerge_nil_l in Heq. cbn [app length Nat.add] in *. by apply (merge_step_end x y h0 h d). }
  destruct y' as [|b y']; cbn [hd].
  { assert (a <> 0) by set_solver. rewrite Z.eqb_refl, (proj2 (Z.eqb_neq a 0)) by done. cbn [negb andb]. rewrite pmerge_nil_r in Heq.
    rewrite app_nil_r in Hnd, Hp. cbn [length]. rewrite Nat.add_0_r. by apply (merge_step_end x y h0 h d tail hnext (a :: x')). }
  assert (a <> 0 /\ b <> 0) as [Ha Hb] by set_solver. rewrite (proj2 (Z.eqb_neq a 0)), (proj2 (Z.eqb_neq b 0)) by done. cbn [negb andb].
  rewrite pmerge_cons in Heq. destruct (cmp a b <=? 0).
  - assert (Hnd1 : NoDup (d ++ a :: x')) by (rewrite app_assoc in Hnd; by apply NoDup_app in Hnd as (Hnd & _)).
    pose proof (merge_take h d tail hnext a x' 0 Ht Hnd1 Hx) as W.
    apply wp_bind, wp_bind. follow W. apply wp_bind. follow W. apply wp_ret, wp_bind. follow W. apply wp_ret.
    destruct W as (? & ? & [= <- <-] & -> & -> & Ht' & Hk').
    exists (length x' + length (b :: y'))%nat. split; [cbn; lia|]. eapply (merge_inv_next _ _ _ h _ d a x' (b :: y')); try done.
    + by rewrite <- Hp.
    + apply Hx.
  - assert (Hnd1 : NoDup (d ++ b :: y')).
    { apply NoDup_app in Hnd as (N1 & N2 & N3). apply NoDup_app in N3 as (_ & _ & N3). apply NoDup_app. split_and!; [done| |done].
      intros z Hz Hin. apply (N2 z Hz), elem_of_app. by right. }
    pose proof (merge_take h d tail hnext b y' 0 Ht Hnd1 Hy) as W.
    apply wp_bind, wp_bind. follow W. apply wp_bind. follow W. apply wp_ret, wp_bind. follow W. apply wp_ret.
    destruct W as (? & ? & [= <- <-] & -> & -> & Ht' & Hk').
    exists (length (a :: x') + length y')%nat. split; [cbn; lia|]. eapply (merge_inv_next _ _ _ h _ d b (a :: x') y'); try done.
    + by rewrite <- Hp.
    + apply Hy.
Qed.

Lemma merge_ok h x y :
  NoDup (x ++ y) -> 0 ∉ x ++ y -> lseg h x 0 -> lseg h y 0 ->
  wp (merge cmp (hd 0 x) (hd 0 y))
    (fun o h' => o = hd 0 (pmerge cmp x y) /\ lseg h' (pmerge cmp x y) 0 /\ keeps (x ++ y) h h') h.
Proof.
  intros Hnd H0 Hx Hy. unfold merge. eapply (lh_while_ok (merge_inv x y h)) with (n := (length x + length y)%nat).
  - intros n s h' Hinv. by apply merge_step_ok.
  - rewrite <- length_app. apply NoDup_heap; [done|]. intros a [Ha|Ha]%elem_of_app; [exact (lseg_dom h x 0 a Hx Ha)|exact (lseg_dom h y 0 a Hy Ha)].
  - exists [], x, y. split_and!; try done.
Qed.

(** ** Merging with the links back *)

(** The nodes [d] after [head] are linked in both directions up to the last
    one, [t]. *)
Definition linked (h : heap) (head : Z) (d : list Z) (t : Z) : Prop :=
  exists d0, head :: d = d0 ++ [t] /\ lseg h d0 t /\ is_Some (h !! t) /\ bseg h head d.

Lemma linked_last h head d t : linked h head d t -> default head (last d) = t.
Proof.
  intros (d0 & Heq & _). assert (Hl : last (head :: d) = Some t) by (by rewrite Heq, last_snoc). rewrite last_cons in Hl.
  destruct (last d); cbn in *; congruence.
Qed.

(** [set_next] at the end. *)
Lemma linked_next h head d t v : linked h head d t -> NoDup (head :: d) ->
  lseg (setn h t v) (head :: d) v /\ bseg (setn h t v) head d.
Proof.
  intros (d0 & Heq & Hd0 & Hs & Hb) Hnd. split.
  - rewrite Heq, lseg_app. cbn. rewrite nextof_setn by done. split; [|done]. rewrite Heq in Hnd. apply NoDup_app in Hnd as (_ & Hdisj & _).
    eapply lseg_keeps; [|exact Hd0]. intros a Ha. apply nextof_setn_ne. intros ->. apply (Hdisj t Ha). left.
  - eapply bseg_keeps; [|exact Hb]. intros a _. apply prevof_setn.
Qed.

Lemma restore_take h head d t c z q :
  linked h head d t -> NoDup ((head :: d) ++ c :: z) -> lseg h (c :: z) q ->
  wp (set_next t c;; set_prev c t;; c' ← get_next c; t' ← get_next t; mret (c', t'))
    (fun '(c', t') h' => c' = hd q z /\ t' = c /\ linked h' head (d ++ [c]) c /\ keeps (head :: d ++ [c]) h h') h.
Proof.
  intros Hl Hnd [Hn Hz]. assert (Hnd' : NoDup (head :: d)) by (by apply NoDup_app in Hnd as (Hnd & _)).
  assert (Hc : c ∉ head :: d) by (apply NoDup_app in Hnd as (_ & Hd & _); intros Hin; apply (Hd c Hin); left).
  pose proof (linked_last _ _ _ _ Hl) as Hlast. pose proof (linked_next _ _ _ _ c Hl Hnd') as [Hl1 Hb1].
  assert (Ht : t ∈ head :: d) by (destruct Hl as (d0 & -> & _); set_solver). assert (Htc : t <> c) by congruence.
  assert (Hsc : is_Some (h !! c)) by (unfold nextof in Hn; destruct (h !! c); [eauto|done]).
  destruct Hl as (d0 & Heq & _ & Hst & _).
  apply wp_bind, wp_set_next; [done|]. apply wp_bind, wp_set_prev; [by apply is_Some_setn|].
  apply wp_bind. eapply wp_get_next; [rewrite nextof_setp, nextof_setn_ne by congruence; exact Hn|].
  apply wp_bind. eapply wp_get_next; [rewrite nextof_setp; by apply nextof_setn|]. apply wp_ret. split_and!; [done|done| |].
  - exists (head :: d). split_and!; [done| | |].
    + eapply lseg_keeps; [|exact Hl1]. intros a _. apply nextof_setp.
    + by rewrite is_Some_setp, is_Some_setn.
    + rewrite bseg_app, Hlast. cbn. rewrite prevof_setp by (by apply is_Some_setn). split; [|done].
      eapply bseg_keeps; [|exact Hb1]. intros a Ha. apply prevof_setp_ne. set_solver.
  - intros a Ha. rewrite setp_ne, setn_ne; [done|set_solver|set_solver].
Qed.

Definition restore_inv (head : Z) (x y : list Z) (h0 : heap) (n : nat) (s : Z * Z * Z) (h : heap) : Prop :=
  let '(tail, a, b) := s in
  exists d x' y', n = (length x' + length y')%nat /\ a = hd 0 x' /\ b = hd 0 y' /\ lseg h x' 0 /\ lseg h y' 0 /\ x' ++ y' <> [] /\
    linked h head d tail /\ pmerge cmp x y = d ++ pmerge cmp x' y' /\ keeps (head :: x ++ y) h0 h.

Lemma restore_inv_next head x y h0 h h' d c x1 y1 :
  NoDup (head :: x ++ y) -> pmerge cmp x y = d ++ c :: pmerge cmp x1 y1 -> keeps (head :: x ++ y) h0 h -> x1 ++ y1 <> [] ->
  lseg h x1 0 -> lseg h y1 0 -> linked h' head (d ++ [c]) c -> keeps (head :: d ++ [c]) h h' ->
  restore_inv head x y h0 (length x1 + length y1) (c, hd 0 x1, hd 0 y1) h'.
Proof.
  intros Hnd Heq Hk Hne Hx Hy Ht Hk'. assert (Heq' : pmerge cmp x y = (d ++ [c]) ++ pmerge cmp x1 y1) by (by rewrite <- app_assoc).
  pose proof (merge_inv_nodes _ _ _ _ _ Heq') as Hp. rewrite <- Hp in Hnd. change (NoDup ((head :: d ++ [c]) ++ x1 ++ y1)) in Hnd.
  apply NoDup_app in Hnd as (_ & Hdisj & _).
  assert (Hsame : forall l, (forall a, a ∈ l -> a ∈ x1 ++ y1) -> lseg h l 0 -> lseg h' l 0).
  { intros l Hl. apply lseg_keeps. intros a Ha. unfold nextof. rewrite Hk'; [done|]. intros Hin. by apply (Hdisj a Hin), Hl. }
  exists (d ++ [c]), x1, y1. split_and!; try done.
  - apply Hsame; [|done]. intros a Ha. apply elem_of_app. by left.
  - apply Hsame; [|done]. intros a Ha. apply elem_of_app. by right.
  - eapply keeps_trans; [done|done|]. intros a [->|Ha]%elem_of_cons; [left|]. right. rewrite <- Hp. set_solver.
Qed.

Lemma restore_merge_ok head x y h0 n s h :
  NoDup (head :: x ++ y) -> 0 ∉ x ++ y -> restore_inv head x y h0 n s h ->
  wp (restore_merge_step cmp s) (fun o h' => match o with
    | inl s' => exists n', (n' < n)%nat /\ restore_inv head x y h0 n' s' h'
    | inr (tail, a, b) => exists d r, linked h' head d tail /\ (if negb (a =? 0) then a else b) = hd 0 r /\ r <> [] /\ lseg h' r 0 /\
        pmerge cmp x y = d ++ r /\ keeps (head :: x ++ y) h0 h'
    end) h.
Proof.
  intros Hnd H0. destruct s as [[tail a] b]. intros (d & x' & y' & -> & -> & -> & Hx & Hy & Hne & Ht & Heq & Hk).
  pose proof Hnd as Hnd0. pose proof (merge_inv_nodes _ _ _ _ _ Heq) as Hp. rewrite <- Hp in Hnd, H0.
  change (NoDup ((head :: d) ++ x' ++ y')) in Hnd. unfold restore_merge_step.
  destruct x' as [|a x']; cbn [hd].
  { rewrite Z.eqb_refl. cbn [negb andb]. rewrite pmerge_nil_l in Heq. apply wp_ret. rewrite Z.eqb_refl. by exists d, y'. }
  assert (Ha : a <> 0) by set_solver. rewrite (proj2 (Z.eqb_neq a 0)) by done.
  destruct y' as [|b y']; cbn [hd].
  { rewrite Z.eqb_refl. cbn [negb andb]. rewrite pmerge_nil_r in Heq. apply wp_ret. rewrite (proj2 (Z.eqb_neq a 0)) by done. by exists d, (a :: x'). }
  assert (Hb : b <> 0) by set_solver. rewrite (proj2 (Z.eqb_neq b 0)) by done. cbn [negb andb].
  rewrite pmerge_cons in Heq. destruct (cmp a b <=? 0).
  - assert (Hnd1 : NoDup ((head :: d) ++ a :: x')) by (rewrite app_assoc in Hnd; by apply NoDup_app in Hnd as (Hnd & _)).
    pose proof (restore_take h head d tail a x' 0 Ht Hnd1 Hx) as W.
    apply wp_bind, wp_bind. follow W. apply wp_bind. follow W. apply wp_bind. follow W. apply wp_ret, wp_bind. follow W. apply wp_ret.
    destruct W as (? & ? & [= <- <-] & -> & -> & Ht' & Hk').
    exists (length x' + length (b :: y'))%nat. split; [cbn; lia|]. eapply (restore_inv_next _ _ _ _ h _ d a x' (b :: y')); try done.
    + by destruct x'.
    + apply Hx.
  - assert (Hnd1 : NoDup ((head :: d) ++ b :: y')).
    { apply NoDup_app in Hnd as (N1 & N2 & N3). apply NoDup_app in N3 as (_ & _ & N3). apply NoDup_app. split_and!; [done| |done].
      intros z Hz Hin. apply (N2 z Hz), elem_of_app. by right. }
    pose proof (restore_take h head d tail b y' 0 Ht Hnd1 Hy) as W.
    apply wp_bind, wp_bind. follow W. apply wp_bind. follow W. apply wp_bind. follow W. apply wp_ret, wp_bind. follow W. apply wp_ret.
    destruct W as (? & ? & [= <- <-] & -> & -> & Ht' & Hk').
    exists (length (a :: x') + length y')%nat. split; [cbn; lia|]. eapply (restore_inv_next _ _ _ _ h _ d b (a :: x') y'); try done.
    apply Hy.
Qed.

Lemma cons_snoc (x : Z) l : exists l0 t, x :: l = l0 ++ [t] /\ t = default x (last l).
Proof.
  destruct (last l) as [t|] eqn:Hl.
  - apply last_Some in Hl as [l0 ->]. by exists (x :: l0), t.
  - apply last_None in Hl as ->. by exists [], x.
Qed.

(** The remaining links back. *)
Lemma restore_ok head m h tail d r :
  m = d ++ r -> r <> [] -> NoDup (head :: m) -> 0 ∉ m -> tail = default head (last d) -> lseg h (head :: m) 0 -> bseg h head d ->
  wp (lh_while restore_step (tail, 0)) (fun t h' => linked h' head m t /\ keeps (head :: m) h h') h.
Proof.
  intros Hm Hr Hnd H0 Htail Hl Hb. pose (I := fun (n : nat) (s : Z * Z) h' => exists d r, n = length r /\ m = d ++ r /\ r <> [] /\
    s.1 = default head (last d) /\ lseg h' (head :: m) 0 /\ bseg h' head d /\ keeps (head :: m) h h').
  eapply (lh_while_ok I) with (n := length r); [| |by exists d, r].
  2: { pose proof (NoDup_heap h (head :: m) Hnd) as Hsz. cbn in Hsz. rewrite Hm, length_app in Hsz. rewrite Hm in Hl.
       specialize (Hsz ltac:(intros a Ha; by eapply lseg_dom)). lia. }
  clear d r Hm Hr Htail Hl Hb. intros n [t count] h1 (d & r & -> & Hm & Hr & Ht & Hl & Hb & Hk). cbn in Ht. subst t.
  destruct (cons_snoc head d) as (p & t & Hp & Ht). rewrite <- Ht. destruct r as [|c r]; [done|].
  assert (Hl' : lseg h1 (p ++ t :: c :: r) 0) by (replace (p ++ t :: c :: r) with (head :: m); [done|rewrite Hm, app_comm_cons, Hp, <- app_assoc; done]).
  pose proof Hl' as Hl2. apply lseg_app in Hl2 as (_ & Hnt & Hnc & _). cbn in Hnt, Hnc.
  assert (Hsc : is_Some (h1 !! c)) by (unfold nextof in Hnc; destruct (h1 !! c); [eauto|done]).
  assert (Hcm : c ∈ m) by (rewrite Hm; set_solver).
  unfold restore_step. apply wp_bind. eapply wp_get_next; [exact Hnt|]. apply wp_bind, wp_set_prev; [done|].
  apply wp_bind. eapply wp_get_next; [rewrite nextof_setp; exact Hnt|]. apply wp_bind. eapply wp_get_next; [rewrite nextof_setp; exact Hnc|].
  apply wp_ret.
  assert (Hl3 : lseg (setp h1 c t) (head :: m) 0) by (eapply lseg_keeps; [|exact Hl]; intros a _; apply nextof_setp).
  assert (Hb3 : bseg (setp h1 c t) head (d ++ [c])).
  { rewrite bseg_app, <- Ht. cbn. rewrite prevof_setp by done. split; [|done]. eapply bseg_keeps; [|exact Hb]. intros a Ha. apply prevof_setp_ne.
    apply NoDup_cons in Hnd as [_ Hnd]. rewrite Hm in Hnd. apply NoDup_app in Hnd as (_ & Hd & _). intros ->. apply (Hd c Ha). left. }
  assert (Hk3 : keeps (head :: m) h (setp h1 c t)) by (intros a Ha; rewrite setp_ne; [by apply Hk|set_solver]).
  destruct r as [|c' r]; cbn [hd].
  - rewrite Z.eqb_refl. cbn [negb]. split; [|done]. subst m. exists (head :: d). split_and!; [done| |by apply is_Some_setp|done].
    rewrite app_comm_cons in Hl3. apply lseg_app in Hl3 as [Hl3 _]. exact Hl3.
  - rewrite (proj2 (Z.eqb_neq c' 0)) by set_solver. cbn [negb]. exists (length (c' :: r)). split; [cbn; lia|].
    exists (d ++ [c]), (c' :: r). split_and!; try done; [by rewrite <- app_assoc|by rewrite last_snoc].
Qed.

Lemma merge_and_restore_ok h head x y :
  NoDup (head :: x ++ y) -> 0 ∉ x ++ y -> x ++ y <> [] -> is_Some (h !! head) -> lseg h x 0 -> lseg h y 0 ->
  wp (merge_and_restore_back_links cmp head (hd 0 x) (hd 0 y))
    (fun _ h' => ring h' head (pmerge cmp x y) /\ keeps (head :: x ++ y) h h') h.
Proof.
  intros Hnd H0 Hne Hh Hx Hy. unfold merge_and_restore_back_links. apply wp_bind.
  eapply wp_mono; [eapply (lh_while_ok (restore_inv head x y h)) with (n := (length x + length y)%nat)|].
  - intros n s h' Hinv. by apply restore_merge_ok.
  - apply NoDup_cons in Hnd as [_ Hnd]. rewrite <- length_app. apply NoDup_heap; [done|].
    intros a [Ha|Ha]%elem_of_app; [exact (lseg_dom h x 0 a Hx Ha)|exact (lseg_dom h y 0 a Hy Ha)].
  - exists [], x, y. split_and!; try done. by exists [].
  - intros [[tail a] b] h1 (d & r & Hl & -> & Hr & Hlr & Heq & Hk). set (m := pmerge cmp x y) in *.
    assert (Hp : m ≡ₚ x ++ y) by apply pmerge_perm. rewrite <- Hp in Hnd, H0.
    assert (Hnd' : NoDup (head :: d)) by (rewrite Heq in Hnd; change (NoDup ((head :: d) ++ r)) in Hnd; by apply NoDup_app in Hnd as (Hnd & _)).
    pose proof (linked_next _ _ _ _ (hd 0 r) Hl Hnd') as [Hl1 Hb1]. pose proof (linked_last _ _ _ _ Hl) as Hlast.
    assert (Htd : tail ∈ head :: d) by (destruct Hl as (d0 & -> & _); set_solver).
    apply wp_bind, wp_set_next; [by destruct Hl as (? & _ & _ & Hs & _)|]. apply wp_bind.
    eapply wp_mono; [eapply (restore_ok head m _ tail d r); try done|].
    + rewrite Heq. change (lseg (setn h1 tail (hd 0 r)) ((head :: d) ++ r) 0). rewrite lseg_app. split; [done|].
      eapply lseg_keeps; [|exact Hlr]. intros z Hz. apply nextof_setn_ne. intros ->. rewrite Heq in Hnd.
      change (NoDup ((head :: d) ++ r)) in Hnd. apply NoDup_app in Hnd as (_ & Hd & _). by apply (Hd tail).
    + intros t h2 [Hl2 Hk2]. pose proof (linked_next _ _ _ _ head Hl2 Hnd) as [Hl3 Hb3]. pose proof (linked_last _ _ _ _ Hl2) as Hlast2.
      assert (Htm : t ∈ head :: m) by (destruct Hl2 as (d0 & -> & _); set_solver).
      assert (Hh2 : is_Some (setn h2 t head !! head)).
      { destruct Hl3 as [Hn _]. unfold nextof in Hn. destruct (setn h2 t head !! head); [eauto|done]. }
      apply wp_bind, wp_set_next; [by destruct Hl2 as (? & _ & _ & Hs & _)|]. apply wp_set_prev; [done|]. split.
      * split_and!.
        -- eapply lseg_keeps; [|exact Hl3]. intros z _. apply nextof_setp.
        -- eapply bseg_keeps; [|exact Hb3]. intros z Hz. apply prevof_setp_ne. apply NoDup_cons in Hnd as [Hnin _]. congruence.
        -- rewrite prevof_setp by done. rewrite last_cons. destruct (last m); cbn in *; congruence.
      * intros z Hz. rewrite <- Hp in Hz. rewrite setp_ne, setn_ne by set_solver. rewrite Hk2 by done.
        rewrite setn_ne; [apply Hk; by rewrite <- Hp|]. rewrite Heq in Hz. set_solver.
Qed.

(** ** The pending lists

    For every level the nodes it stands for, in the order of the original list,
    and the sorted list of them. *)
Abbreviation pending := (list (list Z * list Z)).

(** The nodes of all levels in the order of the original list: higher levels
    are older. *)
Definition origs (P : pending) : list Z := concat (reverse (fst <$> P)).
Definition nodes (P : pending) : list Z := concat (snd <$> P).
Definition heads (P : pending) : list Z := (fun e => hd 0 e.2) <$> P.

Definition entry_ok (h : heap) (e : list Z * list Z) : Prop := sorts cmp e.1 e.2 /\ lseg h e.2 0.

Lemma origs_app P1 P2 : origs (P1 ++ P2) = origs P2 ++ origs P1.
Proof. unfold origs. by rewrite fmap_app, reverse_app, concat_app. Qed.

Lemma origs_cons e P : origs (e :: P) = origs P ++ e.1.
Proof. change (e :: P) with ([e] ++ P). rewrite origs_app. f_equal. unfold origs. cbn. apply app_nil_r. Qed.

Lemma nodes_app P1 P2 : nodes (P1 ++ P2) = nodes P1 ++ nodes P2.
Proof. unfold nodes. by rewrite fmap_app, concat_app. Qed.

Lemma nodes_cons e P : nodes (e :: P) = e.2 ++ nodes P.
Proof. done. Qed.

Lemma elem_nodes P e z : e ∈ P -> z ∈ e.2 -> z ∈ nodes P.
Proof. induction 1 as [e P|e e' P _ IH]; intros Hz; rewrite nodes_cons, elem_of_app; auto. Qed.

Definition no_entries (P : pending) : Prop := Forall (fun e => e = ([], [])) P.

Lemma no_entries_origs P : no_entries P -> origs P = [].
Proof. induction 1 as [|e P -> _ IH]; [done|]. by rewrite origs_cons, IH. Qed.

Lemma no_entries_nodes P : no_entries P -> nodes P = [].
Proof. induction 1 as [|e P -> _ IH]; [done|]. by rewrite nodes_cons, IH. Qed.

Lemma no_entries_heads P : no_entries P -> heads P = replicate (length P) 0.
Proof. induction 1 as [|e P -> _ IH]; [done|]. unfold heads in *. cbn. by rewrite IH. Qed.

Lemma no_entries_replicate n : no_entries (replicate n ([], [])).
Proof. apply Forall_replicate. done. Qed.

Lemma entry_nil h e : entry_ok h e -> hd 0 e.2 = 0 -> 0 ∉ e.2 -> e = ([], []).
Proof.
  destruct e as [o m]. cbn. intros [[Hp _] _] Hh H0. destruct m as [|x m]; cbn in *; [|subst; set_solver].
  by apply Permutation_nil_l in Hp as ->.
Qed.

Lemma entry_keeps h h' l e : entry_ok h e -> keeps l h h' -> (forall a, a ∈ e.2 -> a ∉ l) -> entry_ok h' e.
Proof.
  intros [H1 H2] Hk Hl. split; [done|]. eapply lseg_keeps; [|exact H2]. intros a Ha. unfold nextof. rewrite Hk; [done|]. by apply Hl.
Qed.

Lemma wp_lift {A} (r : res A) a (Q : A -> heap -> Prop) h : r = Ok a -> Q a h -> wp (lift r) Q h.
Proof. intros -> HQ. by exists a, h. Qed.

(** *** Carrying *)

(** The levels below [lev] have been merged into the current list, which stands
    for [oc]. *)
Definition carry_inv (P : pending) (ot nt : list Z) (h0 : heap) (n : nat) (s : nat * Z * list Z) (h : heap) : Prop :=
  let '(lev, cur, part) := s in
  exists oc mc, n = (length P - lev)%nat /\ (lev < length P)%nat /\ part = replicate lev 0 ++ heads (drop lev P) /\ cur = hd 0 mc /\ mc <> [] /\
    sorts cmp oc mc /\ lseg h mc 0 /\ Forall (entry_ok h) (drop lev P) /\
    origs (drop lev P) ++ oc = ot /\ nodes (drop lev P) ++ mc ≡ₚ nt /\ keeps nt h0 h.

Context `{!CmpOk cmp}.

Lemma carry_step_ok P ot nt h0 n s h :
  last P = Some ([], []) -> NoDup nt -> 0 ∉ nt -> carry_inv P ot nt h0 n s h ->
  wp (carry_step cmp s) (fun o h' => match o with
    | inl s' => exists n', (n' < n)%nat /\ carry_inv P ot nt h0 n' s' h'
    | inr s' => s'.1.1 = s.1.1 /\ (exists m, carry_inv P ot nt h0 m s' h') /\ P !! s.1.1 = Some ([], [])
    end) h.
Proof.
  intros Hlast Hnd H0. destruct s as [[lev cur] part].
  intros (oc & mc & -> & Hlev & -> & -> & Hmc & Hs & Hl & Hent & Ho & Hn & Hk). cbn [fst].
  destruct (lookup_lt_is_Some_2 P lev Hlev) as [[o m] He]. rewrite (drop_S _ _ _ He) in *.
  apply Forall_cons in Hent as [He1 Hent]. rewrite nodes_cons in Hn. cbn [snd] in Hn. rewrite origs_cons in Ho. cbn [fst] in Ho.
  assert (Hpart : aget (replicate lev 0 ++ heads ((o, m) :: drop (S lev) P)) lev = Ok (hd 0 m)).
  { unfold aget. rewrite lookup_app_r, length_replicate, Nat.sub_diag by (rewrite length_replicate; lia). done. }
  unfold carry_step. apply wp_bind. eapply wp_lift; [exact Hpart|]. destruct m as [|x m].
  - cbn [hd]. rewrite Z.eqb_refl. cbn [negb]. apply wp_ret. cbn [fst]. split; [done|].
    assert (o = []) as -> by (destruct He1 as [[Hp _] _]; cbn in Hp; by apply Permutation_nil_l in Hp). split; [|done].
    exists (length P - lev)%nat, oc, mc. rewrite (drop_S _ _ _ He), origs_cons, nodes_cons. cbn [fst snd].
    split_and!; try done. by constructor.
  - set (mm := x :: m) in *. assert (Hn' : (mm ++ mc) ++ nodes (drop (S lev) P) ≡ₚ nt).
    { rewrite <- Hn, <- !app_assoc. f_equiv. apply Permutation_app_comm. }
    rewrite <- Hn' in Hnd, H0. apply NoDup_app in Hnd as (Hnd1 & Hdisj & _).
    rewrite (proj2 (Z.eqb_neq (hd 0 mm) 0)) by (cbn; set_solver). cbn [negb]. apply wp_bind.
    eapply wp_mono; [apply (merge_ok h mm mc); [done|set_solver|apply He1|done]|]. intros cur h1 (-> & Hl1 & Hk1).
    assert (Hset : aset (replicate lev 0 ++ heads ((o, mm) :: drop (S lev) P)) lev 0 = Ok (replicate (S lev) 0 ++ heads (drop (S lev) P))).
    { unfold aset. rewrite decide_True by (rewrite length_app, length_replicate; cbn; lia). f_equal.
      rewrite insert_app_r_alt, length_replicate, Nat.sub_diag by (rewrite length_replicate; lia). cbn [heads fmap list_fmap].
      change (replicate (S lev) 0) with (replicate (1 + lev) 0). rewrite Nat.add_comm, replicate_add, <- app_assoc. done. }
    apply wp_bind. eapply wp_lift; [exact Hset|]. apply wp_ret. exists (length P - S lev)%nat. split; [lia|].
    assert (HS : (S lev < length P)%nat).
    { destruct (decide (S lev = length P)) as [Heq|]; [|lia]. rewrite last_lookup, <- Heq in Hlast. cbn in Hlast. rewrite He in Hlast. injection Hlast as _ Hmm. done. }
    exists (o ++ oc), (pmerge cmp mm mc). split_and!; try done.
    + intros Hnil. pose proof (pmerge_perm cmp mm mc) as Hp. rewrite Hnil in Hp. by apply Permutation_nil_l in Hp.
    + apply sorts_merge; [done|apply He1|done].
    + rewrite Forall_forall in Hent |- *. intros e Hin. eapply entry_keeps; [by apply Hent|exact Hk1|]. intros z Hz Hz'.
      apply (Hdisj z Hz'). by eapply elem_nodes.
    + by rewrite app_assoc.
    + rewrite <- Hn', (pmerge_perm cmp mm mc). apply Permutation_app_comm.
    + eapply keeps_trans; [exact Hk|exact Hk1|]. intros z Hz. rewrite <- Hn'. apply elem_of_app. by left.
Qed.

Lemma carry_ok P ot nt h oc mc :
  last P = Some ([], []) -> NoDup nt -> 0 ∉ nt -> mc <> [] -> sorts cmp oc mc -> lseg h mc 0 -> Forall (entry_ok h) P ->
  origs P ++ oc = ot -> nodes P ++ mc ≡ₚ nt ->
  wp (st_loop (S (length (heads P))) (carry_step cmp) (0%nat, hd 0 mc, heads P))
    (fun s h' => (exists m, carry_inv P ot nt h m s h') /\ P !! s.1.1 = Some ([], [])) h.
Proof.
  intros Hlast Hnd H0 Hmc Hs Hl Hent Ho Hn.
  assert (Hlen : (0 < length P)%nat) by (destruct P; [done|cbn; lia]).
  eapply (st_loop_ok (carry_inv P ot nt h)) with (n := length P).
  - intros n s h1 Hinv. eapply wp_mono; [by eapply carry_step_ok|]. intros [s'|s'] h2; [done|]. intros (H1 & H2 & H3). by rewrite H1.
  - unfold heads. rewrite length_fmap. lia.
  - exists oc, mc. rewrite drop_0. split_and!; try done. lia.
Qed.

(** *** Taking the nodes one by one *)

(** [max_lev] is the highest level in use, and the last level is a sentinel. *)
Definition top_ok (P : pending) (max_lev : nat) : Prop :=
  length P = (MAX_LIST_LENGTH_BITS + 1)%nat /\ (max_lev < MAX_LIST_LENGTH_BITS)%nat /\ no_entries (drop (S max_lev) P) /\
  ((exists e, P !! max_lev = Some e /\ e.2 <> []) \/ (max_lev = 0%nat /\ no_entries P)).

Lemma top_ok_last P k : top_ok P k -> last P = Some ([], []).
Proof.
  intros (Hlen & Hk & Hno & _). rewrite last_lookup, Hlen. assert (Hin : (20 < length P)%nat) by (rewrite Hlen; unfold MAX_LIST_LENGTH_BITS; lia).
  destruct (lookup_lt_is_Some_2 P 20 Hin) as [e He]. change (pred (MAX_LIST_LENGTH_BITS + 1)) with 20%nat. rewrite He. f_equal.
  unfold no_entries in Hno. rewrite Forall_forall in Hno. apply Hno. unfold MAX_LIST_LENGTH_BITS in Hk.
  apply (list_elem_of_lookup_2 _ (20 - S k)). rewrite lookup_drop. by replace (S k + (20 - S k))%nat with 20%nat by lia.
Qed.

Definition sort_inv (l : list Z) (h0 : heap) (n : nat) (s : Z * nat * list Z) (h : heap) : Prop :=
  let '(list, max_lev, part) := s in
  exists P rest, n = length rest /\ list = hd 0 rest /\ part = heads P /\ Forall (entry_ok h) P /\ lseg h rest 0 /\
    origs P ++ rest = l /\ nodes P ++ rest ≡ₚ l /\ keeps l h0 h /\ top_ok P max_lev.

(** The place where the current list goes. *)
Definition place (lev max_lev len : nat) : nat * nat :=
  if (max_lev <? lev)%nat then let lev := if (len - 1 <=? lev)%nat then (lev - 1)%nat else lev in (lev, lev) else (lev, max_lev).

Lemma drop_place {A} (e x : A) (P : list A) lev i : (lev <= i)%nat -> drop (S i) (replicate lev e ++ x :: drop (S lev) P) = drop (S i) P.
Proof.
  intros Hi. rewrite drop_app_ge, length_replicate by (rewrite length_replicate; lia). replace (S i - lev)%nat with (S (i - lev)) by lia.
  cbn [drop]. rewrite drop_drop. f_equal. lia.
Qed.

Lemma no_entries_drop P i j : (i <= j)%nat -> no_entries (drop i P) -> no_entries (drop j P).
Proof. intros Hij Hno. replace j with (i + (j - i))%nat by lia. rewrite <- drop_drop. by apply Forall_drop. Qed.

Lemma place_ok P lev max_lev oc mc :
  top_ok P max_lev -> P !! lev = Some ([], []) -> mc <> [] ->
  exists lev' R, place lev max_lev (length P) = (lev', if (max_lev <? lev)%nat then lev' else max_lev) /\
    replicate lev 0 ++ heads (drop lev P) = replicate lev' 0 ++ 0 :: heads R /\ origs R = origs (drop lev P) /\ nodes R = nodes (drop lev P) /\
    (forall e, e ∈ R -> e ∈ drop lev P) /\
    top_ok (replicate lev' ([], []) ++ (oc, mc) :: R) (if (max_lev <? lev)%nat then lev' else max_lev).
Proof.
  intros (Hlen & Hk & Hno & Hmax) He Hmc. pose proof (lookup_lt_Some _ _ _ He) as Hlt. rewrite (drop_S _ _ _ He).
  unfold place. rewrite Hlen in *. unfold MAX_LIST_LENGTH_BITS in *.
  destruct (Nat.ltb_spec max_lev lev) as [Hgt|Hle]; [destruct (Nat.leb_spec (20 + 1 - 1) lev) as [Hcap|Hcap]|].
  - assert (lev = 20)%nat as -> by lia. rewrite (drop_ge P 21) by lia. exists 19%nat, [([], [])].
    split_and!; [done|done|done|done|done|]. unfold top_ok. split_and!; [done|unfold MAX_LIST_LENGTH_BITS; lia|by constructor|].
    left. by exists (oc, mc).
  - exists lev, (drop (S lev) P). rewrite origs_cons, nodes_cons. cbn [fst snd]. rewrite app_nil_r.
    split_and!; [done|done|done|done|by intros e ?; right|]. unfold top_ok, MAX_LIST_LENGTH_BITS. rewrite drop_place by lia. split_and!.
    + rewrite length_app, length_replicate. cbn. rewrite length_drop. lia.
    + lia.
    + eapply no_entries_drop; [|exact Hno]. lia.
    + left. exists (oc, mc). split; [|done]. rewrite lookup_app_r by (rewrite length_replicate; lia). by rewrite length_replicate, Nat.sub_diag.
  - exists lev, (drop (S lev) P). rewrite origs_cons, nodes_cons. cbn [fst snd]. rewrite app_nil_r.
    split_and!; [done|done|done|done|by intros e ?; right|]. unfold top_ok, MAX_LIST_LENGTH_BITS. rewrite drop_place by lia. split_and!.
    + rewrite length_app, length_replicate. cbn. rewrite length_drop. lia.
    + lia.
    + done.
    + left. destruct (decide (lev = max_lev)) as [->|Hne].
      { exists (oc, mc). split; [|done]. rewrite lookup_app_r, length_replicate by (rewrite length_replicate; lia). by rewrite Nat.sub_diag. }
      destruct Hmax as [(e & He' & Hne')|[-> _]]; [|lia]. exists e. split; [|done].
      rewrite lookup_app_r, length_replicate by (rewrite length_replicate; lia). replace (max_lev - lev)%nat with (S (max_lev - S lev)) by lia.
      change (drop (S lev) P !! (max_lev - S lev)%nat = Some e). rewrite lookup_drop. by replace (S lev + (max_lev - S lev))%nat with max_lev by lia.
Qed.

Lemma heads_length P : length (heads P) = length P.
Proof. apply length_fmap. Qed.

Lemma heads_place P1 e P2 : no_entries P1 -> heads (P1 ++ e :: P2) = replicate (length P1) 0 ++ hd 0 e.2 :: heads P2.
Proof. intros Hno. unfold heads at 1. rewrite fmap_app. fold (heads P1). by rewrite no_entries_heads. Qed.

Lemma node_step_ok l h0 n s h :
  NoDup l -> 0 ∉ l -> sort_inv l h0 n s h ->
  wp (node_step cmp s) (fun o h' => match o with
    | inl s' => exists n', (n' < n)%nat /\ sort_inv l h0 n' s' h'
    | inr (max_lev, part) => sort_inv l h0 0 (0, max_lev, part) h'
    end) h.
Proof.
  intros Hnd H0. destruct s as [[list max_lev] part]. intros (P & rest & -> & -> & -> & Hent & Hl & Ho & Hn & Hk & Htop). unfold node_step.
  destruct rest as [|a rest]; cbn [hd].
  { rewrite Z.eqb_refl. cbn [negb]. apply wp_ret. by exists P, []. }
  pose proof Hnd as Hnd'. pose proof H0 as H0'. rewrite <- Hn in Hnd', H0'.
  assert (Hn' : (nodes P ++ [a]) ++ rest ≡ₚ l) by (by rewrite <- app_assoc).
  rewrite (proj2 (Z.eqb_neq a 0)) by set_solver. cbn [negb]. destruct Hl as [Hna Hrest].
  assert (Hsa : is_Some (h !! a)) by (unfold nextof in Hna; destruct (h !! a); [eauto|done]).
  apply wp_bind. eapply wp_get_next; [exact Hna|]. apply wp_bind, wp_set_next; [done|].
  change (a :: rest) with ([a] ++ rest) in Hnd'. rewrite app_assoc in Hnd'. apply NoDup_app in Hnd' as (Hnd1 & Hdisj & Hnd2).
  assert (Hap : a ∉ nodes P) by (apply NoDup_app in Hnd1 as (_ & Hd & _); intros Hin; apply (Hd a Hin); left).
  assert (Har : a ∉ rest) by (apply Hdisj, elem_of_app; right; left).
  assert (Hk1 : keeps [a] h (setn h a 0)) by (intros b Hb; apply setn_ne; set_solver).
  apply wp_bind. eapply wp_mono; [eapply (carry_ok P (origs P ++ [a]) (nodes P ++ [a]) (setn h a 0) [a] [a]); try done|].
  - by eapply top_ok_last.
  - set_solver.
  - apply sorts_single.
  - cbn. by rewrite nextof_setn.
  - rewrite Forall_forall in Hent |- *. intros e He. eapply entry_keeps; [by apply Hent|exact Hk1|]. intros z Hz ->%list_elem_of_singleton.
    by apply Hap, (elem_nodes P e).
  - intros [[lev cur] part] h2 [(? & oc & mc & _ & Hlev & -> & -> & Hmc & Hs & Hl2 & Hent2 & Ho2 & Hn2 & Hk2) He]. cbn [fst] in He.
    destruct (place_ok P lev max_lev oc mc Htop He Hmc) as (lev' & R & Hpl & Hpart & HoR & HnR & HR & Htop').
    set (part := replicate lev 0 ++ heads (drop lev P)) in *.
    assert (Hlen : length part = length P) by (unfold part; rewrite length_app, length_replicate, heads_length, length_drop; lia).
    match goal with |- wp (let '(_, _) := ?e in _) _ _ => change e with (place lev max_lev (length part)) end.
    rewrite Hlen, Hpl. set (max' := if (max_lev <? lev)%nat then lev' else max_lev) in *.
    set (P' := replicate lev' ([], []) ++ (oc, mc) :: R) in *.
    assert (Hset : aset part lev' (hd 0 mc) = Ok (heads P')).
    { unfold P'. rewrite heads_place by apply no_entries_replicate. rewrite length_replicate, Hpart. cbn [snd].
      pose proof (aset_middle (replicate lev' 0) (heads R) 0 (hd 0 mc)) as Hm. by rewrite length_replicate in Hm. }
    apply wp_bind. eapply wp_lift; [exact Hset|]. apply wp_ret. exists (length rest). split; [cbn; lia|].
    exists P', rest. split_and!; try done.
    + unfold P'. apply Forall_app. split; [apply Forall_replicate; split; [apply sorts_nil|done]|]. constructor; [done|].
      rewrite Forall_forall in Hent2 |- *. intros e HeR. by apply Hent2, HR.
    + eapply lseg_keeps; [|exact Hrest]. intros b Hb. unfold nextof. rewrite Hk2, setn_ne; [done|congruence|]. intros Hin. by apply (Hdisj b).
    + unfold P'. rewrite origs_app, origs_cons, HoR. cbn [fst]. rewrite (no_entries_origs (replicate _ _)) by apply no_entries_replicate.
      rewrite app_nil_r, Ho2, <- app_assoc. done.
    + unfold P'. rewrite nodes_app, nodes_cons, HnR. cbn [snd]. rewrite (no_entries_nodes (replicate _ _)) by apply no_entries_replicate.
      cbn [app]. rewrite (Permutation_app_comm mc), Hn2. exact Hn'.
    + eapply keeps_trans; [eapply keeps_trans; [exact Hk|exact Hk1|]|exact Hk2|].
      * intros b ->%list_elem_of_singleton. rewrite <- Hn. set_solver.
      * intros b Hb. rewrite <- Hn'. apply elem_of_app. by left.
Qed.

(** *** Collecting the levels *)

Definition collect_inv (P : pending) (l : list Z) (max_lev : nat) (h0 : heap) (n : nat) (s : nat * Z) (h : heap) : Prop :=
  let '(lev, list) := s in
  exists m, n = (max_lev - lev)%nat /\ (lev <= max_lev)%nat /\ list = hd 0 m /\ sorts cmp (origs (take lev P)) m /\ lseg h m 0 /\
    Forall (entry_ok h) (drop lev P) /\ nodes (drop lev P) ++ m ≡ₚ l /\ keeps l h0 h.

Lemma collect_step_ok P l max_lev h0 n s h :
  NoDup l -> 0 ∉ l -> (max_lev < length P)%nat -> collect_inv P l max_lev h0 n s h ->
  wp (collect_step cmp max_lev (heads P) s) (fun o h' => match o with
    | inl s' => exists n', (n' < n)%nat /\ collect_inv P l max_lev h0 n' s' h'
    | inr list => collect_inv P l max_lev h0 0 (max_lev, list) h'
    end) h.
Proof.
  intros Hnd H0 Hmax. destruct s as [lev list]. intros (m & -> & Hle & -> & Hs & Hl & Hent & Hn & Hk). unfold collect_step.
  destruct (Nat.ltb_spec lev max_lev) as [Hlt|Hge].
  2: { assert (lev = max_lev) as -> by lia. apply wp_ret. exists m. split_and!; try done. lia. }
  destruct (lookup_lt_is_Some_2 P lev ltac:(lia)) as [[o q] He]. rewrite (drop_S _ _ _ He) in Hent, Hn.
  apply Forall_cons in Hent as [[Hsq Hlq] Hent]. cbn [fst snd] in Hsq, Hlq. rewrite nodes_cons in Hn. cbn [snd] in Hn.
  assert (Hget : aget (heads P) lev = Ok (hd 0 q)) by (unfold aget, heads; rewrite list_lookup_fmap, He; done).
  apply wp_bind. eapply wp_lift; [exact Hget|].
  assert (Hn' : (q ++ m) ++ nodes (drop (S lev) P) ≡ₚ l) by (rewrite <- Hn, <- !app_assoc; f_equiv; apply Permutation_app_comm).
  rewrite <- Hn' in Hnd, H0. apply NoDup_app in Hnd as (Hnd1 & Hdisj & _).
  assert (Hord : origs (take (S lev) P) = o ++ origs (take lev P)).
  { rewrite (take_S_r _ _ _ He), origs_app. unfold origs at 1. cbn. by rewrite app_nil_r. }
  apply wp_bind. eapply (wp_mono _ (fun o h' => o = hd 0 (pmerge cmp q m) /\ lseg h' (pmerge cmp q m) 0 /\ keeps (q ++ m) h h')).
  - destruct q as [|x q]; cbn [hd].
    + rewrite Z.eqb_refl. cbn [negb]. apply wp_ret. by rewrite pmerge_nil_l.
    + rewrite (proj2 (Z.eqb_neq x 0)) by set_solver. cbn [negb]. apply (merge_ok h (x :: q) m); [done|set_solver|done|done].
  - intros o' h1 (-> & Hl1 & Hk1). apply wp_ret. exists (max_lev - S lev)%nat. split; [lia|]. exists (pmerge cmp q m). rewrite Hord.
    split_and!; try done.
    + by apply sorts_merge.
    + rewrite Forall_forall in Hent |- *. intros e HeP. eapply entry_keeps; [by apply Hent|exact Hk1|]. intros z Hz Hz'.
      apply (Hdisj z Hz'). by eapply elem_nodes.
    + rewrite <- Hn', (pmerge_perm cmp q m). apply Permutation_app_comm.
    + eapply keeps_trans; [exact Hk|exact Hk1|]. intros z Hz. rewrite <- Hn'. apply elem_of_app. by left.
Qed.

(** ** The whole function *)

Lemma list_sort_empty h head : ring h head [] -> wp (list_sort cmp head) (fun _ h' => h' = h) h.
Proof.
  intros ([Hn _] & _). cbn in Hn. unfold list_sort. apply wp_bind. eapply wp_get_next; [exact Hn|]. rewrite Z.eqb_refl. by apply wp_ret.
Qed.

(** Opening the ring: the last node gets no successor. *)
Lemma ring_open h head l : ring h head l -> l <> [] -> NoDup (head :: l) ->
  exists t, prevof h head = Some t /\ t ∈ l /\ is_Some (h !! t) /\ nextof (setn h t 0) head = Some (hd 0 l) /\ lseg (setn h t 0) l 0.
Proof.
  intros ([Hn Hl] & _ & Hp) Hne [Hnin Hnd]%NoDup_cons. destruct (last l) as [t|] eqn:Hlast; [|by apply last_None in Hlast].
  rewrite last_cons, Hlast in Hp. apply last_Some in Hlast as [l0 ->]. exists t.
  assert (Hst : is_Some (h !! t)) by (eapply lseg_dom; [exact Hl|set_solver]).
  split_and!; [done|set_solver|done| |].
  - rewrite nextof_setn_ne by set_solver. rewrite Hn. by destruct l0.
  - apply lseg_app in Hl as [Hl0 _]. apply NoDup_app in Hnd as (_ & Hd & _). rewrite lseg_app. cbn. rewrite nextof_setn by done. split; [|done].
    eapply lseg_keeps; [|exact Hl0]. intros a Ha. apply nextof_setn_ne. intros ->. apply (Hd t Ha). left.
Qed.

(** The last merge, from the highest level and the rest. *)
Lemma list_sort_end h0 h head l max_lev part :
  NoDup (head :: l) -> 0 ∉ l -> l <> [] -> is_Some (h0 !! head) -> sort_inv l h0 0 (0, max_lev, part) h ->
  wp (list ← st_loop (S (length part)) (collect_step cmp max_lev part) (0%nat, 0);
      p ← lift (aget part max_lev);
      merge_and_restore_back_links cmp head p list)
    (fun _ h' => exists m, sorts cmp l m /\ ring h' head m /\ keeps (head :: l) h0 h') h.
Proof.
  intros Hnd H0 Hne Hh (P & rest & Hlen & _ & -> & Hent & _ & Ho & Hn & Hk & Htop). destruct rest; [|done]. rewrite app_nil_r in Ho, Hn.
  pose proof Hnd as [Hnin Hndl]%NoDup_cons. destruct Htop as (HlenP & Hmax & Hno & Hmaxe). unfold MAX_LIST_LENGTH_BITS in *.
  destruct Hmaxe as [([o q] & He & Hq)|[-> Hno']]; [|by rewrite no_entries_origs in Ho].
  apply wp_bind. eapply wp_mono; [eapply (st_loop_ok (collect_inv P l max_lev h)) with (n := max_lev)|].
  - intros n s h1 Hinv. apply collect_step_ok; [done|done|lia|done].
  - rewrite heads_length. lia.
  - exists []. rewrite take_0, drop_0, app_nil_r. split_and!; try done; [lia|lia|apply sorts_nil].
  - intros list h1 (m & _ & _ & -> & Hs & Hl & Hent1 & Hn1 & Hk1). rewrite (drop_S _ _ _ He) in Hent1, Hn1.
    apply Forall_cons in Hent1 as [[Hsq Hlq] _]. cbn [fst snd] in Hsq, Hlq, Hq.
    rewrite nodes_cons, (no_entries_nodes (drop _ _)), app_nil_r in Hn1 by done. cbn [snd] in Hn1.
    assert (Hget : aget (heads P) max_lev = Ok (hd 0 q)) by (unfold aget, heads; rewrite list_lookup_fmap, He; done).
    apply wp_bind. eapply wp_lift; [exact Hget|]. eapply wp_mono; [apply (merge_and_restore_ok h1 head q m); try done|].
    + by rewrite Hn1.
    + by rewrite Hn1.
    + by destruct q.
    + by rewrite Hk1, Hk by done.
    + intros _ h2 [Hring Hk2]. exists (pmerge cmp q m). split_and!; [|done|].
      * replace l with (o ++ origs (take max_lev P)); [by apply sorts_merge|].
        rewrite <- Ho. rewrite <- (take_drop_middle P max_lev _ He) at 2. rewrite origs_app, origs_cons, (no_entries_origs (drop _ _)) by done. done.
      * rewrite Hn1 in Hk2. eapply keeps_trans; [|exact Hk2|done]. intros a Ha. rewrite Hk1, Hk by set_solver. done.
Qed.

Lemma list_sort_ok h head l :
  ring h head l -> NoDup (head :: l) -> 0 ∉ l ->
  wp (list_sort cmp head) (fun _ h' => exists m, sorts cmp l m /\ ring h' head m /\ keeps (head :: l) h h') h.
Proof.
  intros Hring Hnd H0. destruct (decide (l = [])) as [->|Hne].
  { eapply wp_mono; [by apply list_sort_empty|]. intros _ h' ->. exists []. split; [apply sorts_nil|done]. }
  destruct (ring_open h head l Hring Hne Hnd) as (t & Hpt & Htl & Hst & Hn1 & Hl1). destruct Hring as ([Hn _] & _).
  pose proof Hnd as [Hnin Hndl]%NoDup_cons. unfold list_sort. apply wp_bind. eapply wp_get_next; [exact Hn|].
  rewrite (proj2 (Z.eqb_neq (hd head l) head)) by (destruct l; [done|cbn; set_solver]).
  apply wp_bind. eapply wp_get_prev; [exact Hpt|]. apply wp_bind, wp_set_next; [done|]. apply wp_bind. eapply wp_get_next; [exact Hn1|].
  set (h1 := setn h t 0) in *. set (P0 := replicate (MAX_LIST_LENGTH_BITS + 1) ([] : list Z, [] : list Z)).
  assert (Hno : no_entries P0) by apply no_entries_replicate.
  apply wp_bind. eapply wp_mono; [eapply (lh_while_ok (sort_inv l h1) (fun s h' => sort_inv l h1 0 (0, s.1, s.2) h')) with (n := length l)|].
  - intros n s h2 Hinv. eapply wp_mono; [by apply node_step_ok|]. intros [s'|[max' part']] h3; exact (fun H => H).
  - apply NoDup_heap; [done|]. intros a Ha. by eapply lseg_dom.
  - exists P0, l. rewrite (no_entries_origs P0), (no_entries_nodes P0), (no_entries_heads P0) by done. split_and!; try done.
    + apply Forall_replicate. split; [apply sorts_nil|done].
    + split_and!; [done|unfold MAX_LIST_LENGTH_BITS; lia|by apply Forall_drop|by right].
  - intros [max_lev part] h2 Hinv. eapply wp_mono; [eapply (list_sort_end h1); try done|].
    + unfold h1. apply is_Some_setn. unfold nextof in Hn. destruct (h !! head); [eauto|done].
    + intros _ h3 (m & Hs & Hr & Hk). exists m. split_and!; [done|done|]. intros a Ha. rewrite Hk by done. apply setn_ne. set_solver.
Qed.

(** C11.  [list_sort] of a list terminates and leaves a list, linked in both
    directions, of the same nodes in ascending order, in which equivalent nodes
    keep the order they had; no other memory is written.  This holds for lists
    of any length, also beyond the one the levels are made for. *)
Theorem list_sort_correct h head l :
  ring h head l -> NoDup (head :: l) -> 0 ∉ l ->
  exists h' m, list_sort cmp head h = Ok (tt, h') /\ ring h' head m /\ m ≡ₚ l /\ StronglySorted (fun a b => cmp a b <= 0) m /\
    (forall c, filter (eqv cmp c) m = filter (eqv cmp c) l) /\ keeps (head :: l) h h'.
Proof.
  intros Hring Hnd H0. destruct (list_sort_ok h head l Hring Hnd H0) as ([] & h' & Hw & m & (Hp & Hs & Hf) & Hr & Hk). by exists h', m.
Qed.
End sort.
