(* ===== verification/SortDefs.v ===== *)
(** Sorting and searching of arrays: [lib/sort.c] and [lib/bsearch.c].

    The state is the memory from [base] on, as bytes; pointers are offsets into
    it.  The comparison function is an argument, called on the bytes of two
    elements.  Expressions that mix [int] and [size_t] are evaluated in 64 bits
    and cut back to 32 bits on assignment, as in C. *)
From S2P Require Import Prelude State.

Abbreviation MEM := (ST (list Z)).

Definition get_byte (a : Z) : MEM Z := fun mem =>
  if bool_decide (0 <= a) then b ← aget mem (Z.to_nat a); Ok (b, mem) else Fault.
Definition set_byte (a v : Z) : MEM unit := fun mem =>
  if bool_decide (0 <= a) then mem' ← aset mem (Z.to_nat a) v; Ok (tt, mem') else Fault.

(** The [size] bytes at [off]. *)
Definition elem (size off : Z) : MEM (list Z) := fun mem =>
  if bool_decide (0 <= off /\ off + size <= Z.of_nat (length mem)) then
    Ok (take (Z.to_nat size) (drop (Z.to_nat off) mem), mem)
  else Fault.

(** ** Swapping *)

(** A [u32] in memory, least significant byte first. *)
Definition load32 (a : Z) : MEM Z :=
  b0 ← get_byte a; b1 ← get_byte (a + 1); b2 ← get_byte (a + 2); b3 ← get_byte (a + 3);
  mret (b0 + b1 * 2 ^ 8 + b2 * 2 ^ 16 + b3 * 2 ^ 24).
Definition store32 (a v : Z) : MEM unit :=
  set_byte a (v mod 2 ^ 8);;
  set_byte (a + 1) (v / 2 ^ 8 mod 2 ^ 8);;
  set_byte (a + 2) (v / 2 ^ 16 mod 2 ^ 8);;
  set_byte (a + 3) (v / 2 ^ 24 mod 2 ^ 8).

Definition u32_swap (a b size : Z) : MEM unit :=
  t ← load32 a;
  v ← load32 b;
  store32 a v;;
  store32 b t.

(** [do { ... } while (--size > 0)] *)
Definition swap_step (x : Z * Z * Z) : MEM (Z * Z * Z + unit) :=
  let '(a, b, size) := x in
  t ← get_byte a;
  v ← get_byte b;
  set_byte a v;;
  set_byte b t;;
  let size := s32 (size - 1) in
  mret (if size >? 0 then inl (a + 1, b + 1, size) else inr tt).

Definition generic_swap (a b size : Z) : MEM unit := st_loop (S (Z.to_nat size)) swap_step (a, b, size).

(** ** Heapsort *)

Section sort.
Context (cmp_func : list Z -> list Z -> Z).

Definition cmp_at (size a b : Z) : MEM Z := x ← elem size a; y ← elem size b; mret (cmp_func x y).

(** The inner loops: [for (r = ...; r * 2 + size < n; r = c)]. *)
Definition sift_step (swap : Z -> Z -> Z -> MEM unit) (size n : Z) (r : Z) : MEM (Z + unit) :=
  if u64 (s32 (r * 2) + size) <? u64 n then
    let c := s32 (u64 (s32 (r * 2) + size)) in
    less ← (if u64 c <? u64 (n - size) then d ← cmp_at size c (c + size); mret (d <? 0) else mret false);
    let c := if (less : bool) then s32 (u64 (c + size)) else c in
    d ← cmp_at size r c;
    if d >=? 0 then mret (inr tt)
    else
      swap r c size;;
      mret (inl c)
  else mret (inr tt).

Definition sift (swap : Z -> Z -> Z -> MEM unit) (size n r : Z) : MEM unit := st_loop (S (Z.to_nat n)) (sift_step swap size n) r.

(** [for ( ; i >= 0; i -= size)] *)
Definition sort_heapify_step (swap : Z -> Z -> Z -> MEM unit) (size n i : Z) : MEM (Z + unit) :=
  if i >=? 0 then
    sift swap size n i;;
    mret (inl (s32 (u64 (i - size))))
  else mret (inr tt).

(** [for (i = n - size; i > 0; i -= size)] *)
Definition extract_step (swap : Z -> Z -> Z -> MEM unit) (size i : Z) : MEM (Z + unit) :=
  if i >? 0 then
    swap 0 i size;;
    sift swap size i 0;;
    mret (inl (s32 (u64 (i - size))))
  else mret (inr tt).

Definition sort (num size : Z) (swap_func : option (Z -> Z -> Z -> MEM unit)) : MEM unit :=
  let i := s32 (u64 (u64 (num / 2 - 1) * size)) in
  let n := s32 (u64 (num * size)) in
  let swap := match swap_func with Some f => f | None => if size =? 4 then u32_swap else generic_swap end in
  st_loop (S (Z.to_nat num)) (sort_heapify_step swap size n) i;;
  st_loop (S (Z.to_nat num)) (extract_step swap size) (s32 (u64 (n - size))).
End sort.

(** ** Binary search *)

Definition bsearch_step {K} (cmp : K -> list Z -> Z) (key : K) (size : Z) (x : Z * Z) : MEM (Z * Z + option Z) :=
  let '(start, end_) := x in
  if start <? end_ then
    let mid := u64 (start + u64 (end_ - start) / 2) in
    e ← elem size (u64 (mid * size));
    let result := cmp key e in
    mret (if result <? 0 then inl (start, mid)
          else if result >? 0 then inl (u64 (mid + 1), end_)
          else inr (Some (u64 (mid * size))))
  else mret (inr None).

(** The offset of the element that was found. *)
Definition bsearch {K} (cmp : K -> list Z -> Z) (key : K) (num size : Z) : MEM (option Z) :=
  st_loop (S (Z.to_nat num)) (bsearch_step cmp key size) (0, num).
