(* ===== verification/SortTheory.v ===== *)
(** Heaps in arrays, and swapping of elements. *)
From stdpp Require Import sorting.
From S2P Require Import Prelude State Sorting SortDefs.

(** ** Bytes *)

Definition byte_ok (b : Z) : Prop := 0 <= b < 2 ^ 8.

Lemma get_byte_ok p b r (Q : Z -> list Z -> Prop) a :
  a = Z.of_nat (length p) -> Q b (p ++ b :: r) -> wp (get_byte a) Q (p ++ b :: r).
Proof.
  intros -> HQ. exists b, (p ++ b :: r). split; [|done]. unfold get_byte. rewrite bool_decide_true by lia. rewrite Nat2Z.id.
  by rewrite aget_middle.
Qed.

Lemma set_byte_ok p b r v (Q : unit -> list Z -> Prop) a :
  a = Z.of_nat (length p) -> Q tt (p ++ v :: r) -> wp (set_byte a v) Q (p ++ b :: r).
Proof.
  intros -> HQ. exists tt, (p ++ v :: r). split; [|done]. unfold set_byte. rewrite bool_decide_true by lia. rewrite Nat2Z.id.
  by rewrite aset_middle.
Qed.

(** ** A function that swaps elements *)

(** [swap] exchanges two elements of [size] bytes that do not overlap. *)
Class SwapOk (swap : Z -> Z -> Z -> MEM unit) (size : Z) : Prop :=
  swap_ok p x q y r :
    Z.of_nat (length x) = size -> Z.of_nat (length y) = size -> Forall byte_ok (p ++ x ++ q ++ y ++ r) ->
    wp (swap (Z.of_nat (length p)) (Z.of_nat (length p + length x + length q)) size)
      (fun _ mem => mem = p ++ y ++ q ++ x ++ r) (p ++ x ++ q ++ y ++ r).

#[global] Instance generic_swap_ok size : 0 < size < 2 ^ 31 -> SwapOk generic_swap size.
Proof.
  intros Hsize p0 x0 q0 y0 r Hx0 Hy0 _. unfold generic_swap.
  pose (I := fun (n : nat) (s : Z * Z * Z) (mem : list Z) => exists p x q y,
    s = (Z.of_nat (length p), Z.of_nat (length p + length x + length q), Z.of_nat (length x)) /\ n = length x /\ x <> [] /\
    length y = length x /\ Z.of_nat (length x) < 2 ^ 31 /\ mem = p ++ x ++ q ++ y ++ r /\ p ++ y ++ q ++ x ++ r = p0 ++ y0 ++ q0 ++ x0 ++ r).
  eapply (st_loop_ok I) with (n := length x0).
  - intros n s mem (p & x & q & y & -> & -> & Hne & Hlen & Hlt & -> & Heq). destruct x as [|a x]; [done|]. destruct y as [|b y]; [done|].
    cbn in Hlen. injection Hlen as Hlen. unfold swap_step.
    assert (Hb : Z.of_nat (length p + length (a :: x) + length q) = Z.of_nat (length (p ++ (a :: x) ++ q)))
      by (rewrite !length_app; lia). rewrite Hb.
    apply wp_bind. apply (get_byte_ok p a (x ++ q ++ (b :: y) ++ r)); [done|].
    assert (Hm : forall z, p ++ z :: x ++ q ++ (b :: y) ++ r = (p ++ (z :: x) ++ q) ++ b :: y ++ r) by (intros z; by rewrite <- !app_assoc).
    rewrite Hm. apply wp_bind. apply get_byte_ok; [done|]. rewrite <- Hm. apply wp_bind. apply set_byte_ok; [done|]. rewrite Hm.
    apply wp_bind. apply set_byte_ok; [rewrite !length_app; done|]. apply wp_ret.
    assert (Hs : s32 (Z.of_nat (length (a :: x)) - 1) = Z.of_nat (length x)) by (rewrite s32_small; cbn in *; lia). rewrite Hs.
    destruct x as [|a' x].
    + destruct y; [|done]. cbn. rewrite <- Heq. cbn. by rewrite <- !app_assoc.
    + rewrite (proj2 (Z.gtb_lt _ _)) by (cbn; lia). exists (length (a' :: x)). split; [cbn; lia|].
      exists (p ++ [b]), (a' :: x), (q ++ [a]), y. split_and!; try done.
      * f_equal. f_equal; [rewrite length_app; cbn; lia|]. rewrite !length_app. cbn. lia.
      * cbn in *. lia.
      * cbn. rewrite <- ?app_assoc. cbn. rewrite <- ?app_assoc. done.
      * rewrite <- Heq. cbn. rewrite <- ?app_assoc. cbn. rewrite <- ?app_assoc. done.
  - lia.
  - exists p0, x0, q0, y0. rewrite Hx0. split_and!; try done; try lia. destruct x0; [cbn in *; lia|done].
Qed.

(** A [u32] and its bytes. *)
Definition le32 (v : Z) : list Z := [v mod 2 ^ 8; v / 2 ^ 8 mod 2 ^ 8; v / 2 ^ 16 mod 2 ^ 8; v / 2 ^ 24 mod 2 ^ 8].
Definition of_le32 (l : list Z) : Z := match l with [b0; b1; b2; b3] => b0 + b1 * 2 ^ 8 + b2 * 2 ^ 16 + b3 * 2 ^ 24 | _ => 0 end.

Lemma le32_of_le32 l : length l = 4%nat -> Forall byte_ok l -> le32 (of_le32 l) = l.
Proof.
  destruct l as [|b0 [|b1 [|b2 [|b3 [|]]]]]; try done. intros _ H. rewrite !Forall_cons in H. destruct H as (H0 & H1 & H2 & H3 & _).
  unfold byte_ok in *. unfold le32, of_le32. Z.div_mod_to_equations. repeat f_equal; lia.
Qed.

Lemma load32_ok p x r (Q : Z -> list Z -> Prop) a :
  a = Z.of_nat (length p) -> length x = 4%nat -> Q (of_le32 x) (p ++ x ++ r) -> wp (load32 a) Q (p ++ x ++ r).
Proof.
  intros -> Hx HQ. destruct x as [|b0 [|b1 [|b2 [|b3 [|]]]]]; try done. unfold load32. cbn [app] in *.
  apply wp_bind, get_byte_ok; [done|].
  apply wp_bind. change (b0 :: b1 :: b2 :: b3 :: r) with ([b0] ++ b1 :: b2 :: b3 :: r) in *. rewrite app_assoc in *. apply get_byte_ok; [rewrite length_app; cbn; lia|].
  apply wp_bind. change (b1 :: b2 :: b3 :: r) with ([b1] ++ b2 :: b3 :: r) in *. rewrite app_assoc in *. apply get_byte_ok; [rewrite !length_app; cbn; lia|].
  apply wp_bind. change (b2 :: b3 :: r) with ([b2] ++ b3 :: r) in *. rewrite app_assoc in *. apply get_byte_ok; [rewrite !length_app; cbn; lia|].
  by apply wp_ret.
Qed.

Lemma store32_ok p x r v (Q : unit -> list Z -> Prop) a :
  a = Z.of_nat (length p) -> length x = 4%nat -> Q tt (p ++ le32 v ++ r) -> wp (store32 a v) Q (p ++ x ++ r).
Proof.
  intros -> Hx HQ. destruct x as [|b0 [|b1 [|b2 [|b3 [|]]]]]; try done. unfold store32. unfold le32 in HQ. cbn [app] in *.
  apply wp_bind, set_byte_ok; [done|]. set (v0 := v mod 2 ^ 8) in *. set (v1 := v / 2 ^ 8 mod 2 ^ 8) in *. set (v2 := v / 2 ^ 16 mod 2 ^ 8) in *.
  apply wp_bind. change (v0 :: b1 :: b2 :: b3 :: r) with ([v0] ++ b1 :: b2 :: b3 :: r). rewrite app_assoc. apply set_byte_ok; [rewrite length_app; cbn; lia|].
  apply wp_bind. change (v1 :: b2 :: b3 :: r) with ([v1] ++ b2 :: b3 :: r). rewrite app_assoc. apply set_byte_ok; [rewrite !length_app; cbn; lia|].
  change (v2 :: b3 :: r) with ([v2] ++ b3 :: r). rewrite app_assoc. apply set_byte_ok; [rewrite !length_app; cbn; lia|].
  by rewrite <- !app_assoc.
Qed.

#[global] Instance u32_swap_ok : SwapOk u32_swap 4.
Proof.
  intros p x q y r Hx Hy Hb. rewrite !Forall_app in Hb. destruct Hb as (_ & Hbx & _ & Hby & _). unfold u32_swap.
  assert (Hlx : length x = 4%nat) by lia. assert (Hly : length y = 4%nat) by lia.
  assert (Hm : forall z, p ++ z ++ q ++ y ++ r = (p ++ z ++ q) ++ y ++ r) by (intros z; by rewrite <- !app_assoc).
  apply wp_bind, load32_ok; [done|done|]. rewrite Hm. apply wp_bind, load32_ok; [rewrite !length_app; lia|done|]. rewrite <- Hm.
  apply wp_bind. eapply store32_ok; [done|done|]. rewrite Hm. eapply store32_ok; [rewrite !length_app; cbn; lia|done|].
  rewrite !le32_of_le32 by done. by rewrite <- !app_assoc.
Qed.

(** ** Arrays of elements *)

(** The memory holds the elements [l], of [size] bytes each, and [tl] after
    them. *)
Definition holds (size : Z) (tl : list Z) (mem : list Z) (l : list (list Z)) : Prop :=
  mem = concat l ++ tl /\ Forall (fun e => Z.of_nat (length e) = size) l /\ Forall byte_ok mem.

Definition swapl {A} (i j : nat) (l : list A) : list A :=
  match l !! i, l !! j with Some x, Some y => <[i := y]> (<[j := x]> l) | _, _ => l end.

Lemma concat_length (size : Z) (l : list (list Z)) :
  0 <= size -> Forall (fun e => Z.of_nat (length e) = size) l -> Z.of_nat (length (concat l)) = size * Z.of_nat (length l).
Proof. intros Hs. induction 1 as [|e l He _ IH]; cbn; [lia|]. rewrite length_app. lia. Qed.

Section holds.
Context (size : Z) (tl : list Z).
Hypothesis size_pos : 0 < size.

Lemma elem_ok mem l i (Q : list Z -> list Z -> Prop) :
  holds size tl mem l -> (i < length l)%nat -> Q (l !!! i) mem -> wp (elem size (size * Z.of_nat i)) Q mem.
Proof.
  intros (-> & Hl & _) Hi HQ. destruct (lookup_lt_is_Some_2 l i Hi) as [e He]. rewrite (list_lookup_total_correct _ _ _ He) in HQ.
  pose proof (take_drop_middle l i e He) as Hsplit. rewrite <- Hsplit in Hl. rewrite Forall_app, Forall_cons in Hl. destruct Hl as (Hl1 & Hle & Hl2).
  assert (Hlen : Z.of_nat (length (concat (take i l))) = size * Z.of_nat i) by (rewrite (concat_length size) by (lia || done); rewrite length_take; lia).
  assert (Hmem : concat l ++ tl = concat (take i l) ++ e ++ concat (drop (S i) l) ++ tl).
  { rewrite <- Hsplit at 1. rewrite concat_app. cbn. by rewrite <- !app_assoc. }
  exists e, (concat l ++ tl). split; [|done]. unfold elem. rewrite Hmem, bool_decide_true by (rewrite !length_app; lia). f_equal. f_equal.
  rewrite drop_app_length' by lia. by rewrite take_app_length' by lia.
Qed.

Lemma swapl_split {A} (l1 : list A) x l2 y l3 : swapl (length l1) (length (l1 ++ x :: l2)) (l1 ++ x :: l2 ++ y :: l3) = l1 ++ y :: l2 ++ x :: l3.
Proof.
  unfold swapl. assert (H1 : (l1 ++ x :: l2 ++ y :: l3) !! length l1 = Some x) by (by rewrite list_lookup_middle).
  assert (Hassoc : forall z, l1 ++ z :: l2 ++ y :: l3 = (l1 ++ z :: l2) ++ y :: l3) by (intros z; by rewrite <- app_assoc).
  rewrite H1. rewrite Hassoc at 1. rewrite list_lookup_middle by done. rewrite Hassoc, insert_app_r_alt, Nat.sub_diag by done. cbn [insert list_insert].
  rewrite <- app_assoc. cbn [app]. rewrite insert_app_r_alt, Nat.sub_diag by done. done.
Qed.

Lemma swap_elems_ok swap `{!SwapOk swap size} mem l i j :
  holds size tl mem l -> (i < j)%nat -> (j < length l)%nat ->
  wp (swap (size * Z.of_nat i) (size * Z.of_nat j) size) (fun _ mem' => holds size tl mem' (swapl i j l)) mem.
Proof.
  intros (-> & Hl & Hb) Hij Hj.
  assert (exists l1 x l2 y l3, l = l1 ++ x :: l2 ++ y :: l3 /\ i = length l1 /\ j = length (l1 ++ x :: l2)) as (l1 & x & l2 & y & l3 & -> & -> & ->).
  { destruct (lookup_lt_is_Some_2 l j Hj) as [y Hy]. destruct (lookup_lt_is_Some_2 (take j l) i) as [x Hx]; [rewrite length_take; lia|].
    exists (take i (take j l)), x, (drop (S i) (take j l)), y, (drop (S j) l). split_and!.
    - rewrite app_comm_cons, app_assoc, (take_drop_middle _ _ _ Hx), (take_drop_middle _ _ _ Hy). done.
    - rewrite !length_take. lia.
    - rewrite (take_drop_middle _ _ _ Hx), length_take. lia. }
  rewrite swapl_split. pose proof Hl as Hl'. rewrite Forall_app, Forall_cons, Forall_app, Forall_cons in Hl'. destruct Hl' as (H1 & Hx & H2 & Hy & H3).
  assert (Hmem : forall a b, concat (l1 ++ a :: l2 ++ b :: l3) ++ tl = concat l1 ++ a ++ concat l2 ++ b ++ concat l3 ++ tl).
  { intros a b. rewrite concat_app. cbn. rewrite concat_app. cbn. by rewrite <- !app_assoc. }
  rewrite Hmem in Hb |- *.
  pose proof (concat_length size l1 ltac:(lia) H1) as L1. pose proof (concat_length size l2 ltac:(lia) H2) as L2.
  replace (size * Z.of_nat (length l1)) with (Z.of_nat (length (concat l1))) by lia.
  replace (size * Z.of_nat (length (l1 ++ x :: l2))) with (Z.of_nat (length (concat l1) + length x + length (concat l2))) by (rewrite length_app; cbn; lia).
  eapply wp_mono; [by apply swap_ok|]. intros _ mem' ->. split_and!.
  - by rewrite Hmem.
  - rewrite Forall_app, Forall_cons, Forall_app, Forall_cons. done.
  - rewrite !Forall_app in Hb |- *. tauto.
Qed.
End holds.

(** ** Heaps *)

(** The sign is reversed when the arguments are exchanged. *)
Class CmpSign {A} (cmp : A -> A -> Z) : Prop := cmp_neg a b : cmp a b < 0 <-> 0 < cmp b a.

Lemma cmp_sign {A} (cmp : A -> A -> Z) `{!CmpSign cmp} a b : 0 <= cmp a b -> cmp b a <= 0.
Proof. intros H. pose proof (cmp_neg a b). lia. Qed.

Lemma swapl_length {A} i j (l : list A) : length (swapl i j l) = length l.
Proof. unfold swapl. repeat case_match; by rewrite ?length_insert. Qed.

Lemma swapl_perm {A} i j (l : list A) : swapl i j l ≡ₚ l.
Proof.
  unfold swapl. destruct (l !! i) as [x|] eqn:Hi; [|done]. destruct (l !! j) as [y|] eqn:Hj; [|done].
  by apply Permutation_insert_swap.
Qed.

Section heap.
Context {A : Type} `{!Inhabited A} (cmp : A -> A -> Z) `{!CmpOk cmp} `{!CmpSign cmp}.

Lemma swapl_lookup i j k (l : list A) : (i < length l)%nat -> (j < length l)%nat ->
  swapl i j l !!! k = if decide (k = i) then l !!! j else if decide (k = j) then l !!! i else l !!! k.
Proof.
  intros Hi Hj. unfold swapl. destruct (lookup_lt_is_Some_2 l i Hi) as [x Hx], (lookup_lt_is_Some_2 l j Hj) as [y Hy].
  rewrite Hx, Hy, (list_lookup_total_correct _ _ _ Hx), (list_lookup_total_correct _ _ _ Hy). case_decide as H1; [subst k|].
  - apply list_lookup_total_insert_eq. by rewrite length_insert.
  - rewrite list_lookup_total_insert_ne by done. case_decide as H2; [subst k; by apply list_lookup_total_insert_eq|].
    by rewrite list_lookup_total_insert_ne.
Qed.

Definition child_of (i c : nat) : Prop := c = (2 * i + 1)%nat \/ c = (2 * i + 2)%nat.

(** Every node from [lo] on is not smaller than its children below [n]. *)
Definition is_heap (lo n : nat) (l : list A) : Prop :=
  forall i c, (lo <= i)%nat -> child_of i c -> (c < n)%nat -> cmp (l !!! c) (l !!! i) <= 0.

(** The same but for the node [r], which is on its way down. *)
Definition almost_heap (lo n r : nat) (l : list A) : Prop :=
  (forall i c, (lo <= i)%nat -> i <> r -> child_of i c -> (c < n)%nat -> cmp (l !!! c) (l !!! i) <= 0) /\
  (forall i c, (lo <= i)%nat -> child_of i r -> child_of r c -> (c < n)%nat -> cmp (l !!! c) (l !!! i) <= 0).

Lemma almost_heap_done lo n r l :
  almost_heap lo n r l -> (forall c, child_of r c -> (c < n)%nat -> cmp (l !!! c) (l !!! r) <= 0) -> is_heap lo n l.
Proof. intros [H1 _] H2 i c Hi Hc Hn. destruct (decide (i = r)) as [->|]; auto. Qed.

Lemma almost_heap_swap lo n r c l :
  almost_heap lo n r l -> (lo <= r)%nat -> child_of r c -> (c < n)%nat -> (n <= length l)%nat -> cmp (l !!! r) (l !!! c) <= 0 ->
  (forall d, child_of r d -> (d < n)%nat -> cmp (l !!! d) (l !!! c) <= 0) -> almost_heap lo n c (swapl r c l).
Proof.
  intros [H1 H2] Hlo Hrc Hc Hn Hle Hbig. assert (Hr : (r < c)%nat) by (unfold child_of in Hrc; lia).
  split; intros i d Hi.
  - intros Hic Hid Hd. rewrite !swapl_lookup by lia. unfold child_of in *.
    repeat case_decide; subst; try lia; first [done | apply Hbig; lia | apply H2; lia | apply H1; lia].
  - intros Hic Hcd Hd. rewrite !swapl_lookup by lia. unfold child_of in *. assert (i = r) as -> by lia.
    repeat case_decide; subst; try lia. apply H1; lia.
Qed.

Lemma is_heap_max n l k : is_heap 0 n l -> (k < n)%nat -> cmp (l !!! k) (l !!! 0%nat) <= 0.
Proof.
  intros Hh. induction k as [k IH] using lt_wf_ind. intros Hk. destruct (decide (k = 0%nat)) as [->|Hne].
  { destruct (cmp_total (l !!! 0%nat) (l !!! 0%nat)); done. }
  set (p := ((k - 1) / 2)%nat). assert (Hp : (2 * p <= k - 1 < 2 * p + 2)%nat).
  { unfold p. pose proof (Nat.div_mod (k - 1) 2 ltac:(lia)). pose proof (Nat.mod_upper_bound (k - 1) 2 ltac:(lia)). lia. }
  eapply cmp_trans; [|apply (IH p); lia]. apply Hh; [lia| |done]. unfold child_of. lia.
Qed.

Lemma sorted_lookup l : (forall a b, (a < b)%nat -> (b < length l)%nat -> cmp (l !!! a) (l !!! b) <= 0) -> StronglySorted (le cmp) l.
Proof.
  induction l as [|x l IH]; intros Hs; constructor.
  - apply IH. intros a b Hab Hb. apply (Hs (S a) (S b)); cbn; lia.
  - rewrite Forall_forall. intros y [i Hi]%list_elem_of_lookup. pose proof (lookup_lt_Some _ _ _ Hi). specialize (Hs 0%nat (S i)).
    change ((x :: l) !!! 0%nat) with x in Hs. change ((x :: l) !!! S i) with (l !!! i) in Hs. cbn [length] in Hs.
    rewrite (list_lookup_total_correct _ _ _ Hi) in Hs. apply Hs; lia.
Qed.

Lemma lookup_sorted l a b : StronglySorted (le cmp) l -> (a < b)%nat -> (b < length l)%nat -> cmp (l !!! a) (l !!! b) <= 0.
Proof.
  intros Hs. revert a b. induction Hs as [|x l Hs IH Hx]; intros a b Hab Hb; [cbn in Hb; lia|]. destruct b as [|b]; [lia|]. cbn in Hb.
  destruct a as [|a]; cbn; [|apply IH; lia]. rewrite Forall_forall in Hx. apply Hx, list_elem_of_lookup_total_2. lia.
Qed.
End heap.
