(* ===== verification/Sort.v ===== *)
(** Correctness of [sort] and [bsearch]. *)
From stdpp Require Import sorting gmap.
From S2P Require Import Prelude State Sorting ListSortDefs ListSort SortDefs SortTheory.

Section sort.
Context (cmp : list Z -> list Z -> Z) `{!CmpOk cmp} `{!CmpSign cmp}.
Context (size : Z) (tl : list Z) (swap : Z -> Z -> Z -> MEM unit) `{!SwapOk swap size}.
(** The array has [m] elements, and its size fits an [int]. *)
Context (m : nat).
Hypothesis size_pos : 0 < size.
Hypothesis bytes_small : size * Z.of_nat m < 2 ^ 31.

(** ** Offsets *)

Lemma offset_small i : (i <= m)%nat -> 0 <= size * Z.of_nat i < 2 ^ 31.
Proof using size_pos bytes_small. intros Hi. split; [lia|]. assert (size * Z.of_nat i <= size * Z.of_nat m) by nia. lia. Qed.

Lemma child_lt r n : (r < n)%nat -> (n <= m)%nat ->
  (u64 (s32 (size * Z.of_nat r * 2) + size) <? u64 (size * Z.of_nat n)) = (2 * r + 1 <? n)%nat.
Proof using size_pos bytes_small.
  intros Hr Hn. pose proof (offset_small n Hn) as Hsn. rewrite (u64_small (size * Z.of_nat n)) by lia.
  assert (Hr2 : size * Z.of_nat r * 2 + 2 * size <= 2 * (size * Z.of_nat n)) by nia.
  destruct (decide (size * Z.of_nat r * 2 < 2 ^ 31)) as [Hlt|Hge].
  - rewrite s32_small by nia. rewrite u64_small by nia. destruct (Nat.ltb_spec (2 * r + 1) n).
    + apply Z.ltb_lt. nia.
    + apply Z.ltb_ge. nia.
  - assert (Hw : s32 (size * Z.of_nat r * 2) = size * Z.of_nat r * 2 - 2 ^ 32).
    { unfold s32. replace (size * Z.of_nat r * 2 + 2 ^ 31) with (size * Z.of_nat r * 2 - 2 ^ 31 + 1 * 2 ^ 32) by lia.
      rewrite Z.mod_add by lia. rewrite Z.mod_small by lia. lia. }
    rewrite Hw. unfold u64. replace (size * Z.of_nat r * 2 - 2 ^ 32 + size) with (size * Z.of_nat r * 2 - 2 ^ 32 + size + 2 ^ 64 + (-1) * 2 ^ 64) by lia.
    rewrite Z.mod_add by lia. rewrite Z.mod_small by lia. destruct (Nat.ltb_spec (2 * r + 1) n); [nia|]. apply Z.ltb_ge. lia.
Qed.

Lemma child_offset r n : (2 * r + 1 < n)%nat -> (n <= m)%nat ->
  s32 (u64 (s32 (size * Z.of_nat r * 2) + size)) = size * Z.of_nat (2 * r + 1).
Proof using size_pos bytes_small.
  intros Hr Hn. pose proof (offset_small n Hn) as Hsn. assert (size * Z.of_nat (2 * r + 1) < size * Z.of_nat n) by nia.
  rewrite (s32_small (size * Z.of_nat r * 2)) by nia. rewrite u64_small by nia. rewrite s32_small by nia. nia.
Qed.

Lemma sibling_lt c n : (c < n)%nat -> (n <= m)%nat -> (u64 (size * Z.of_nat c) <? u64 (size * Z.of_nat n - size)) = (c + 1 <? n)%nat.
Proof using size_pos bytes_small.
  intros Hc Hn. pose proof (offset_small n Hn) as Hsn. assert (0 <= size * Z.of_nat n - size) by nia. rewrite !u64_small by nia.
  destruct (Nat.ltb_spec (c + 1) n); [apply Z.ltb_lt|apply Z.ltb_ge]; nia.
Qed.

Lemma sibling_offset c n : (c + 1 < n)%nat -> (n <= m)%nat -> s32 (u64 (size * Z.of_nat c + size)) = size * Z.of_nat (c + 1).
Proof using size_pos bytes_small.
  intros Hc Hn. pose proof (offset_small n Hn) as Hsn. assert (size * Z.of_nat (c + 1) < size * Z.of_nat n) by nia.
  rewrite u64_small, s32_small by nia. nia.
Qed.

Lemma cmp_at_ok mem l i j (Q : Z -> list Z -> Prop) :
  holds size tl mem l -> (i < length l)%nat -> (j < length l)%nat -> Q (cmp (l !!! i) (l !!! j)) mem ->
  wp (cmp_at cmp size (size * Z.of_nat i) (size * Z.of_nat j)) Q mem.
Proof using size_pos.
  intros Hh Hi Hj HQ. apply wp_bind. eapply elem_ok; [done|done|done|]. apply wp_bind. eapply elem_ok; [done|done|done|]. by apply wp_ret.
Qed.

(** ** Sifting down *)

Definition sift_inv (l : list (list Z)) (lo n : nat) (k : nat) (r : Z) (mem : list Z) : Prop :=
  exists l' ri, r = size * Z.of_nat ri /\ k = (n - ri)%nat /\ (lo <= ri < n)%nat /\ holds size tl mem l' /\ l' ≡ₚ l /\ drop n l' = drop n l /\
    almost_heap cmp lo n ri l'.

Definition sift_post (l : list (list Z)) (lo n : nat) (mem : list Z) : Prop :=
  exists l', holds size tl mem l' /\ l' ≡ₚ l /\ drop n l' = drop n l /\ is_heap cmp lo n l'.

Lemma drop_swapl {A} (l : list A) i j n : (i < n)%nat -> (j < n)%nat -> drop n (swapl i j l) = drop n l.
Proof.
  intros Hi Hj. unfold swapl. destruct (l !! i); [|done]. destruct (l !! j); [|done]. by rewrite !drop_insert_lt by lia.
Qed.

(** The larger child. *)
Lemma larger_child mem l r n (Q : Z -> list Z -> Prop) :
  holds size tl mem l -> (2 * r + 1 < n)%nat -> (n <= length l)%nat -> length l = m ->
  (forall c, child_of r c -> (c < n)%nat -> (forall d, child_of r d -> (d < n)%nat -> cmp (l !!! d) (l !!! c) <= 0) ->
     Q (size * Z.of_nat c) mem) ->
  wp (less ← (if u64 (size * Z.of_nat (2 * r + 1)) <? u64 (size * Z.of_nat n - size) then
        d ← cmp_at cmp size (size * Z.of_nat (2 * r + 1)) (size * Z.of_nat (2 * r + 1) + size); mret (d <? 0) else mret false);
      mret (if (less : bool) then s32 (u64 (size * Z.of_nat (2 * r + 1) + size)) else size * Z.of_nat (2 * r + 1))) Q mem.
Proof using All.
  intros Hh Hr Hn Hm HQ. assert (Hrefl : forall x, cmp x x <= 0) by (intros x; destruct (cmp_total x x); done).
  rewrite sibling_lt by lia. destruct (Nat.ltb_spec (2 * r + 1 + 1) n) as [Hs|Hs].
  - replace (size * Z.of_nat (2 * r + 1) + size) with (size * Z.of_nat (2 * r + 1 + 1)) at 1 by lia.
    apply wp_bind, wp_bind. eapply cmp_at_ok; [done|lia|lia|]. apply wp_ret, wp_ret.
    destruct (Z.ltb_spec (cmp (l !!! (2 * r + 1)%nat) (l !!! (2 * r + 1 + 1)%nat)) 0) as [Hlt|Hge].
    + rewrite (sibling_offset _ n) by lia. apply HQ; [unfold child_of; lia|lia|]. intros d [->| ->] _; [lia|].
      replace (2 * r + 2)%nat with (2 * r + 1 + 1)%nat by lia. apply Hrefl.
    + apply HQ; [unfold child_of; lia|lia|]. intros d [->| ->] _; [apply Hrefl|]. replace (2 * r + 2)%nat with (2 * r + 1 + 1)%nat by lia.
      by apply cmp_sign.
  - apply wp_bind, wp_ret, wp_ret. apply HQ; [unfold child_of; lia|lia|]. intros d [->| ->] Hd; [apply Hrefl|lia].
Qed.

Lemma sift_step_ok l lo n k r mem :
  (n <= length l)%nat -> length l = m -> sift_inv l lo n k r mem ->
  wp (sift_step cmp swap size (size * Z.of_nat n) r) (fun o mem' => match o with
    | inl r' => exists k', (k' < k)%nat /\ sift_inv l lo n k' r' mem'
    | inr _ => sift_post l lo n mem'
    end) mem.
Proof using All.
  intros Hn Hm (l' & r0 & -> & -> & Hr & Hh & Hp & Hd & Hal). assert (Hlen : length l' = length l) by (by rewrite Hp).
  unfold sift_step. rewrite child_lt by lia. destruct (Nat.ltb_spec (2 * r0 + 1) n) as [Hc|Hc].
  2: { apply wp_ret. exists l'. split_and!; try done. eapply almost_heap_done; [done|]. intros c Hrc Hcn. unfold child_of in Hrc. lia. }
  rewrite (child_offset _ n) by lia.
  pose proof (larger_child mem l' r0 n (fun o mem' => mem' = mem /\ exists c, o = size * Z.of_nat c /\ child_of r0 c /\ (c < n)%nat /\
    forall d, child_of r0 d -> (d < n)%nat -> cmp (l' !!! d) (l' !!! c) <= 0) Hh Hc ltac:(lia) ltac:(lia)) as W.
  specialize (W ltac:(intros c H1 H2 H3; split; [reflexivity|exists c; exact (conj eq_refl (conj H1 (conj H2 H3)))])). apply wp_bind_inv in W. apply wp_bind. eapply wp_mono; [exact W|]. clear W. intros less mem1 W.
  apply wp_ret_inv in W. destruct W as (-> & c & Hoc & Hrc & Hcn & Hbig). rewrite Hoc.
  apply wp_bind. eapply cmp_at_ok; [done|lia|lia|]. destruct (Z.geb_spec (cmp (l' !!! r0) (l' !!! c)) 0) as [Hge|Hlt].
  - apply wp_ret. exists l'. split_and!; try done. eapply almost_heap_done; [done|]. intros d Hrd Hdn.
    eapply cmp_trans; [by apply Hbig|]. by apply cmp_sign.
  - assert (Hrc' : (r0 < c)%nat) by (unfold child_of in Hrc; lia).
    apply wp_bind. eapply wp_mono; [eapply (swap_elems_ok size tl size_pos swap); [done|done|lia]|]. intros [] mem3 Hh3. apply wp_ret.
    exists (n - c)%nat. split; [lia|]. exists (swapl r0 c l'), c. split_and!; try done; try lia.
    + by rewrite swapl_perm.
    + by rewrite drop_swapl by lia.
    + apply almost_heap_swap; try done; lia.
Qed.

Lemma sift_ok l lo n mem :
  holds size tl mem l -> (lo < n)%nat -> (n <= length l)%nat -> length l = m -> almost_heap cmp lo n lo l ->
  wp (sift cmp swap size (size * Z.of_nat n) (size * Z.of_nat lo)) (fun _ mem' => sift_post l lo n mem') mem.
Proof using All.
  intros Hh Hlo Hn Hm Hal. unfold sift. eapply (st_loop_ok (sift_inv l lo n)) with (n := (n - lo)%nat).
  - intros k r mem' Hinv. eapply wp_mono; [by apply sift_step_ok|]. intros [r'|[]] mem2; exact (fun H => H).
  - nia.
  - exists l, lo. split_and!; try done; lia.
Qed.

(** ** Building the heap *)

Hypothesis size_small : size < 2 ^ 31.

Lemma s32_u64 x : s32 (u64 x) = s32 x.
Proof.
  unfold s32, u64. f_equal. rewrite <- (Zplus_mod_idemp_l (x mod 2 ^ 64)), <- (Zplus_mod_idemp_l x). f_equal. f_equal.
  change (2 ^ 64) with (2 ^ 32 * 2 ^ 32). apply Z.mod_mod_divide. by exists (2 ^ 32).
Qed.

Lemma back_offset k : (k <= m)%nat -> s32 (u64 (size * Z.of_nat k - size)) = size * (Z.of_nat k - 1).
Proof using All. intros Hk. pose proof (offset_small k Hk). rewrite s32_u64, s32_small by nia. lia. Qed.

Definition heapify_inv (l : list (list Z)) (k : nat) (i : Z) (mem : list Z) : Prop :=
  exists l', i = size * (Z.of_nat k - 1) /\ (k <= m)%nat /\ holds size tl mem l' /\ l' ≡ₚ l /\ is_heap cmp k m l'.

Lemma sort_heapify_step_ok l k i mem :
  length l = m -> heapify_inv l k i mem ->
  wp (sort_heapify_step cmp swap size (size * Z.of_nat m) i) (fun o mem' => match o with
    | inl i' => exists k', (k' < k)%nat /\ heapify_inv l k' i' mem'
    | inr _ => exists l', holds size tl mem' l' /\ l' ≡ₚ l /\ is_heap cmp 0 m l'
    end) mem.
Proof using All.
  intros Hm (l' & -> & Hk & Hh & Hp & Hheap). assert (Hlen : length l' = m) by (by rewrite Hp). unfold sort_heapify_step. destruct k as [|k].
  - destruct (Z.geb_spec (size * (Z.of_nat 0 - 1)) 0); [lia|]. apply wp_ret. by exists l'.
  - replace (size * (Z.of_nat (S k) - 1)) with (size * Z.of_nat k) by lia. destruct (Z.geb_spec (size * Z.of_nat k) 0); [|lia].
    apply wp_bind. eapply wp_mono; [apply (sift_ok l' k m); try done; [lia|]|].
    + split; intros j c Hj; [intros Hne Hjc Hc; apply Hheap; [lia|done|done]|]. unfold child_of. lia.
    + intros [] mem' (l2 & Hh2 & Hp2 & _ & Hheap2). apply wp_ret. exists k. split; [lia|]. exists l2. split_and!; try done.
      * apply back_offset. lia.
      * lia.
      * by rewrite Hp2.
Qed.

(** ** Taking the largest element out *)

Definition extract_inv (l : list (list Z)) (k : nat) (i : Z) (mem : list Z) : Prop :=
  exists l', i = size * Z.of_nat k /\ (k < m)%nat /\ holds size tl mem l' /\ l' ≡ₚ l /\ is_heap cmp 0 (k + 1) l' /\
    (forall a b, (a < b)%nat -> (k < b)%nat -> (b < m)%nat -> cmp (l' !!! a) (l' !!! b) <= 0).

(** The elements below [k] after a permutation of them. *)
Lemma take_perm_lookup (l1 l2 : list (list Z)) k a :
  l2 ≡ₚ l1 -> drop k l2 = drop k l1 -> (a < k)%nat -> (k <= length l1)%nat -> exists a', (a' < k)%nat /\ l2 !!! a = l1 !!! a'.
Proof.
  intros Hp Hd Ha Hk. assert (Hlen : length l2 = length l1) by (by rewrite Hp).
  assert (Ht : take k l2 ≡ₚ take k l1).
  { apply (Permutation_app_inv_r (drop k l1)). rewrite take_drop. rewrite <- Hd. by rewrite take_drop. }
  destruct (lookup_lt_is_Some_2 l2 a ltac:(lia)) as [x Hx]. rewrite (list_lookup_total_correct _ _ _ Hx).
  assert (Hin : x ∈ take k l1) by (rewrite <- Ht; apply (list_elem_of_lookup_2 _ a); by rewrite lookup_take_lt).
  apply list_elem_of_lookup in Hin as [a' Ha']. apply lookup_take_Some in Ha' as [Ha' Hlt]. exists a'. split; [done|].
  by rewrite (list_lookup_total_correct _ _ _ Ha').
Qed.

Lemma extract_order l' l2 k :
  length l' = m -> (0 < k < m)%nat -> is_heap cmp 0 (k + 1) l' ->
  (forall a b, (a < b)%nat -> (k < b)%nat -> (b < m)%nat -> cmp (l' !!! a) (l' !!! b) <= 0) ->
  l2 ≡ₚ swapl 0 k l' -> drop k l2 = drop k (swapl 0 k l') ->
  forall a b, (a < b)%nat -> (k - 1 < b)%nat -> (b < m)%nat -> cmp (l2 !!! a) (l2 !!! b) <= 0.
Proof using CmpOk0.
  intros Hlen Hk Hheap Hord Hp2 Hd2 a b Hab Hkb Hb.
  assert (Hlen1 : length (swapl 0 k l') = m) by (by rewrite swapl_length).
  assert (Hhi : forall j, (k <= j)%nat -> l2 !!! j = swapl 0 k l' !!! j).
  { intros j Hj. replace j with (k + (j - k))%nat by lia. rewrite <- !lookup_total_drop. by rewrite Hd2. }
  assert (Hlo : exists a'', (a'' <= k)%nat /\ (a < k)%nat /\ l2 !!! a = l' !!! a'' \/ (k <= a)%nat /\ a'' = 0%nat).
  { destruct (decide (a < k)%nat) as [Hak|Hak]; [|exists 0%nat; right; lia].
    destruct (take_perm_lookup _ _ k a Hp2 Hd2 Hak ltac:(lia)) as (a' & Ha' & ->). rewrite swapl_lookup by lia.
    case_decide; [exists k; left; split_and!; [lia|lia|done]|]. rewrite decide_False by lia. exists a'. left. split_and!; [lia|lia|done]. }
  destruct Hlo as (a'' & [(Ha'' & Hak & ->)|[Hak ->]]); rewrite (Hhi b) by lia; rewrite swapl_lookup by lia.
  - rewrite (decide_False (P := b = 0%nat)) by lia. case_decide as Hbk; [apply (is_heap_max cmp (k + 1)); [done|lia]|]. apply Hord; lia.
  - rewrite (Hhi a), swapl_lookup by lia. rewrite (decide_False (P := b = 0%nat)), (decide_False (P := b = k)), (decide_False (P := a = 0%nat)) by lia.
    case_decide; apply Hord; lia.
Qed.

Lemma extract_step_ok l k i mem :
  length l = m -> extract_inv l k i mem ->
  wp (extract_step cmp swap size i) (fun o mem' => match o with
    | inl i' => exists k', (k' < k)%nat /\ extract_inv l k' i' mem'
    | inr _ => exists l', holds size tl mem' l' /\ l' ≡ₚ l /\ StronglySorted (le cmp) l'
    end) mem.
Proof using All.
  intros Hm (l' & -> & Hk & Hh & Hp & Hheap & Hord). assert (Hlen : length l' = m) by (by rewrite Hp). unfold extract_step. destruct k as [|k].
  - destruct (Z.gtb_spec (size * Z.of_nat 0) 0); [lia|]. apply wp_ret. exists l'. split_and!; try done. apply sorted_lookup. intros a b Hab Hb.
    apply Hord; lia.
  - destruct (Z.gtb_spec (size * Z.of_nat (S k)) 0); [|lia]. apply wp_bind.
    replace 0 with (size * Z.of_nat 0) at 1 by lia. eapply wp_mono; [eapply (swap_elems_ok size tl size_pos swap mem l' 0 (S k)); [done|lia|lia]|].
    intros [] mem1 Hh1. cbn beta in Hh1. set (l1 := swapl 0 (S k) l') in *. assert (Hlen1 : length l1 = m) by (unfold l1; by rewrite swapl_length).
    apply wp_bind. replace 0 with (size * Z.of_nat 0) by lia. eapply wp_mono; [apply (sift_ok l1 0 (S k)); [done|lia|lia|done|]|].
    + split; intros j c Hj; [|unfold child_of; lia]. intros Hne Hjc Hc. unfold l1. rewrite !swapl_lookup by (unfold child_of in Hjc; lia).
      unfold child_of in Hjc. rewrite !decide_False by lia. apply Hheap; [lia|done|lia].
    + intros [] mem2 (l2 & Hh2 & Hp2 & Hd2 & Hheap2). apply wp_ret. exists k. split; [lia|]. exists l2. split_and!; try done.
      * rewrite back_offset by lia. lia.
      * lia.
      * rewrite Hp2. unfold l1. by rewrite swapl_perm.
      * by replace (k + 1)%nat with (S k) by lia.
      * intros a b Hab Hkb Hb. apply (extract_order l' l2 (S k)); try done; lia.
Qed.

Lemma sort_loops_ok l mem :
  holds size tl mem l -> length l = m ->
  wp (st_loop (S (Z.to_nat (Z.of_nat m))) (sort_heapify_step cmp swap size (size * Z.of_nat m)) (size * (Z.of_nat (m / 2) - 1));;
      st_loop (S (Z.to_nat (Z.of_nat m))) (extract_step cmp swap size) (size * (Z.of_nat m - 1)))
    (fun _ mem' => exists l', holds size tl mem' l' /\ l' ≡ₚ l /\ StronglySorted (le cmp) l') mem.
Proof using All.
  intros Hh Hm. rewrite Nat2Z.id. pose proof (Nat.div_mod m 2 ltac:(lia)) as Hdiv. pose proof (Nat.mod_upper_bound m 2 ltac:(lia)) as Hmod.
  apply wp_bind. eapply wp_mono; [eapply (st_loop_ok (heapify_inv l)
    (fun _ mem' => exists l', holds size tl mem' l' /\ l' ≡ₚ l /\ is_heap cmp 0 m l')) with (n := (m / 2)%nat)|].
  - intros k i mem' Hinv. eapply wp_mono; [by apply sort_heapify_step_ok|]. intros [i'|[]] mem2; exact (fun H => H).
  - lia.
  - exists l. split_and!; try done; [lia|]. intros i c Hi Hc. unfold child_of in Hc. lia.
  - intros [] mem1 (l1 & Hh1 & Hp1 & Hheap). destruct (decide (m = 0%nat)) as [Hm0|Hm0].
    + exists tt, mem1. rewrite Hm0. split; [cbn; unfold extract_step; destruct (Z.gtb_spec (size * (Z.of_nat 0 - 1)) 0); [lia|done]|].
      exists l1. split_and!; try done. assert (l1 = []) as -> by (apply length_zero_iff_nil; rewrite Hp1; lia). constructor.
    + eapply (st_loop_ok (extract_inv l)) with (n := (m - 1)%nat).
      * intros k' i mem' Hinv. eapply wp_mono; [by apply extract_step_ok|]. intros [i'|[]] mem2; exact (fun H => H).
      * lia.
      * exists l1. split_and!; try done; [f_equal; lia|lia|by replace (m - 1 + 1)%nat with m by lia|lia].
Qed.
End sort.

Lemma sort_ok cmp `{!CmpOk cmp} `{!CmpSign cmp} size tl swap_func mem l :
  0 < size < 2 ^ 31 -> size * Z.of_nat (length l) < 2 ^ 31 -> holds size tl mem l ->
  match swap_func with Some f => SwapOk f size | None => True end ->
  exists mem' l', sort cmp (Z.of_nat (length l)) size swap_func mem = Ok (tt, mem') /\ holds size tl mem' l' /\ l' ≡ₚ l /\
    StronglySorted (fun a b => cmp a b <= 0) l'.
Proof.
  intros Hsize Hbytes Hh Hswap. set (swap := match swap_func with Some f => f | None => if size =? 4 then u32_swap else generic_swap end).
  assert (SwapOk swap size).
  { unfold swap. destruct swap_func as [f|]; [done|]. destruct (Z.eqb_spec size 4) as [->|]; [apply _|by apply generic_swap_ok]. }
  destruct (sort_loops_ok cmp size tl swap (length l) ltac:(lia) Hbytes ltac:(lia) l mem Hh eq_refl) as ([] & mem' & Hw & l' & Hh' & Hp & Hs).
  exists mem', l'. split; [|done]. rewrite <- Hw. unfold sort. fold swap.
  assert (Hn : s32 (u64 (Z.of_nat (length l) * size)) = size * Z.of_nat (length l)) by (rewrite s32_u64, s32_small; lia).
  assert (Hi : s32 (u64 (u64 (Z.of_nat (length l) / 2 - 1) * size)) = size * (Z.of_nat (length l / 2) - 1)).
  { assert (Hmul : u64 (u64 (Z.of_nat (length l) / 2 - 1) * size) = u64 ((Z.of_nat (length l) / 2 - 1) * size))
      by (unfold u64; by rewrite Zmult_mod_idemp_l).
    assert (0 <= Z.of_nat (length l) / 2 <= Z.of_nat (length l)) by (split; [apply Z.div_pos; lia|apply Z.div_le_upper_bound; lia]).
    rewrite Hmul, s32_u64, Nat2Z.inj_div, s32_small by nia. change (Z.of_nat 2) with 2. lia. }
  assert (Hx : s32 (u64 (size * Z.of_nat (length l) - size)) = size * (Z.of_nat (length l) - 1)) by (rewrite s32_u64, s32_small; lia).
  by rewrite Hn, Hi, Hx.
Qed.

(** C27.  [sort] terminates and leaves the same elements in ascending order, for
    every array whose size in bytes fits an [int], with the built-in exchange of
    words or bytes or one of the caller; the memory after the array does not
    change. *)
Theorem sort_correct cmp `{!CmpOk cmp} `{!CmpSign cmp} size tl swap_func mem l :
  0 < size < 2 ^ 31 -> size * Z.of_nat (length l) < 2 ^ 31 -> holds size tl mem l ->
  match swap_func with Some f => SwapOk f size | None => True end ->
  exists mem' l', sort cmp (Z.of_nat (length l)) size swap_func mem = Ok (tt, mem') /\ holds size tl mem' l' /\ l' ≡ₚ l /\
    StronglySorted (fun a b => cmp a b <= 0) l'.
Proof. exact (sort_ok cmp size tl swap_func mem l). Qed.

(** ** Binary search *)

Section bsearch.
Context {K : Type} (cmp : K -> list Z -> Z) (key : K) (size : Z) (tl mem : list Z) (l : list (list Z)).
Hypothesis size_pos : 0 < size.
Hypothesis mem_small : Z.of_nat (length mem) < 2 ^ 64.
Hypothesis mem_holds : holds size tl mem l.
(** Elements after one larger than the key are larger, elements before one
    smaller than the key are smaller. *)
Hypothesis ascending : forall i j, (i < j)%nat -> (j < length l)%nat ->
  (cmp key (l !!! i) < 0 -> cmp key (l !!! j) < 0) /\ (0 < cmp key (l !!! j) -> 0 < cmp key (l !!! i)).

Definition bsearch_inv (n : nat) (x : Z * Z) (mem' : list Z) : Prop :=
  exists s e, x = (Z.of_nat s, Z.of_nat e) /\ n = (e - s)%nat /\ (s <= e <= length l)%nat /\ mem' = mem /\
    (forall i, (i < s)%nat -> 0 < cmp key (l !!! i)) /\ (forall i, (e <= i < length l)%nat -> cmp key (l !!! i) < 0).

Lemma mem_bound i : (i <= length l)%nat -> 0 <= size * Z.of_nat i < 2 ^ 64 /\ Z.of_nat i < 2 ^ 64.
Proof using size_pos mem_small mem_holds.
  intros Hi. destruct mem_holds as (Hmem & Hl & _). pose proof (concat_length size l ltac:(lia) Hl) as Hc.
  assert (Z.of_nat (length mem) = size * Z.of_nat (length l) + Z.of_nat (length tl)) by (rewrite Hmem, length_app; lia).
  assert (size * Z.of_nat i <= size * Z.of_nat (length l)) by nia. nia.
Qed.

Lemma bsearch_ok :
  wp (bsearch cmp key (Z.of_nat (length l)) size) (fun o mem' => mem' = mem /\
    match o with
    | Some off => exists i, off = size * Z.of_nat i /\ (i < length l)%nat /\ cmp key (l !!! i) = 0
    | None => forall e, e ∈ l -> cmp key e <> 0
    end) mem.
Proof using All.
  unfold bsearch. rewrite Nat2Z.id. eapply (st_loop_ok bsearch_inv) with (n := length l).
  - intros n x mem' (s & e & -> & -> & Hse & -> & H1 & H2). unfold bsearch_step. destruct (Z.ltb_spec (Z.of_nat s) (Z.of_nat e)) as [Hlt|Hge].
    2: { apply wp_ret. split; [done|]. intros el [i Hi]%list_elem_of_lookup. pose proof (lookup_lt_Some _ _ _ Hi).
         rewrite <- (list_lookup_total_correct _ _ _ Hi). destruct (decide (i < s)%nat); [specialize (H1 i ltac:(lia)); lia|].
         specialize (H2 i ltac:(lia)). lia. }
    set (mid := (s + (e - s) / 2)%nat).
    pose proof (Nat.div_mod (e - s) 2 ltac:(lia)) as Hdiv. pose proof (Nat.mod_upper_bound (e - s) 2 ltac:(lia)) as Hmod.
    assert (Hmid : (s <= mid < e)%nat) by (unfold mid; lia). pose proof (mem_bound e ltac:(lia)) as [_ He]. pose proof (mem_bound mid ltac:(lia)) as [Hm Hm'].
    assert (Hmz : u64 (Z.of_nat s + u64 (Z.of_nat e - Z.of_nat s) / 2) = Z.of_nat mid).
    { rewrite (u64_small (Z.of_nat e - Z.of_nat s)) by lia.
      assert (Hz : Z.of_nat s + (Z.of_nat e - Z.of_nat s) / 2 = Z.of_nat mid)
        by (unfold mid; rewrite Nat2Z.inj_add, Nat2Z.inj_div, Nat2Z.inj_sub by lia; done).
      rewrite Hz. apply u64_small. lia. }
    rewrite Hmz, (Z.mul_comm (Z.of_nat mid)), (u64_small (size * Z.of_nat mid)) by lia.
    apply wp_bind. eapply (elem_ok size tl); [done|done|lia|]. apply wp_ret.
    destruct (Z.ltb_spec (cmp key (l !!! mid)) 0) as [Hneg|Hnn]; [|destruct (Z.gtb_spec (cmp key (l !!! mid)) 0) as [Hpos|Hnp]].
    + exists (mid - s)%nat. split; [lia|]. exists s, mid. split_and!; try done; try lia. intros i Hi.
      destruct (decide (i = mid)) as [->|]; [done|]. by apply (ascending mid i); [lia|lia|].
    + exists (e - (mid + 1))%nat. split; [lia|]. exists (mid + 1)%nat, e. split_and!; try done; try lia.
      * rewrite u64_small by lia. f_equal. lia.
      * intros i Hi. destruct (decide (i = mid)) as [->|]; [done|]. by apply (ascending i mid); [lia|lia|].
    + split; [done|]. exists mid. split_and!; [done|lia|lia].
  - lia.
  - exists 0%nat, (length l). split_and!; try done; lia.
Qed.
End bsearch.

(** C39.  Sorting an array and searching it with the same comparison function
    finds exactly what is there: [bsearch] terminates and returns the place of
    an element equal to the key, or nothing when the array had none. *)
Theorem sort_bsearch_correct cmp `{!CmpOk cmp} `{!CmpSign cmp} size tl swap_func mem l key :
  0 < size < 2 ^ 31 -> size * Z.of_nat (length l) < 2 ^ 31 -> Z.of_nat (length mem) < 2 ^ 64 -> holds size tl mem l ->
  match swap_func with Some f => SwapOk f size | None => True end ->
  exists mem' found, sort cmp (Z.of_nat (length l)) size swap_func mem = Ok (tt, mem') /\
    bsearch cmp key (Z.of_nat (length l)) size mem' = Ok (found, mem') /\
    match found with
    | Some off => exists e, elem size off mem' = Ok (e, mem') /\ e ∈ l /\ cmp key e = 0
    | None => forall e, e ∈ l -> cmp key e <> 0
    end.
Proof.
  intros Hsize Hbytes Hmem Hh Hswap. destruct (sort_ok cmp size tl swap_func mem l Hsize Hbytes Hh Hswap) as (mem' & l' & Hsort & Hh' & Hp & Hs).
  assert (Hlen : length l' = length l) by by rewrite Hp.
  assert (Hmem' : length mem' = length mem).
  { destruct Hh as (-> & Hl & _), Hh' as (-> & Hl' & _). rewrite !length_app. f_equal.
    apply Nat2Z.inj. rewrite !(concat_length size), Hlen by (lia || done). done. }
  destruct (bsearch_ok cmp key size tl mem' l' ltac:(lia) ltac:(lia) Hh') as (found & mem2 & Hb & -> & Hfound).
  { intros i j Hij Hj. pose proof (lookup_sorted cmp l' i j Hs Hij Hj) as Hle. split; intros Hc.
    - destruct (Z.ltb_spec (cmp key (l' !!! j)) 0) as [|Hn]; [done|]. apply cmp_neg in Hc.
      assert (cmp (l' !!! j) key <= 0) by (apply Z.nlt_ge; intros ?%cmp_neg; lia).
      pose proof (cmp_trans _ _ _ Hle ltac:(eassumption)). lia.
    - destruct (Z.ltb_spec 0 (cmp key (l' !!! i))) as [|Hn]; [done|]. pose proof (cmp_trans _ _ _ Hn Hle). lia. }
  rewrite Hlen in Hb. exists mem', found. split_and!; [done|done|]. destruct found as [off|].
  - destruct Hfound as (i & -> & Hi & Hc). exists (l' !!! i). split_and!; [|by rewrite <- Hp; apply list_elem_of_lookup_total_2|done].
    destruct (elem_ok size tl ltac:(lia) mem' l' i (fun e m => e = l' !!! i /\ m = mem')) as (e & m & He & -> & ->); try done.
  - intros e He. apply Hfound. by rewrite Hp.
Qed.

(** * Examples *)

(** ** A list of five nodes *)

(** The key of a node is its last decimal digit. *)
Definition digit_cmp (a b : Z) : Z := a mod 10 - b mod 10.

#[global] Instance digit_cmp_ok : CmpOk digit_cmp.
Proof. constructor; unfold digit_cmp; intros; lia. Qed.

Definition five : gmap Z list_head := list_to_map [
  (100, mkLh 13 31); (13, mkLh 21 100); (21, mkLh 23 13); (23, mkLh 12 21); (12, mkLh 31 23); (31, mkLh 100 12)].

Lemma five_ring : ring five 100 [13; 21; 23; 12; 31].
Proof. split_and!; [repeat split; reflexivity|repeat split; reflexivity|reflexivity]. Defined.

Lemma list_sort_correct_witness : exists h' m,
  list_sort digit_cmp 100 five = Ok (tt, h') /\ ring h' 100 m /\ m ≡ₚ [13; 21; 23; 12; 31] /\
  StronglySorted (fun a b => digit_cmp a b <= 0) m /\
  (forall c, filter (eqv digit_cmp c) m = filter (eqv digit_cmp c) [13; 21; 23; 12; 31]) /\
  keeps [100; 13; 21; 23; 12; 31] five h'.
Proof. apply (list_sort_correct digit_cmp); [exact five_ring|apply (bool_decide_unpack _); vm_compute; exact I|set_solver]. Defined.

(** The nodes with equal keys stay in their order. *)
Example list_sort_five :
  (h ← list_sort digit_cmp 100 five; Ok (nextof h.2 <$> [100; 21; 31; 12; 13; 23])) =
  Ok (Some <$> [21; 31; 12; 13; 23; 100]).
Proof. vm_compute. reflexivity. Qed.

(** ** An array of four elements of three bytes, followed by one byte *)

Definition first_cmp (a b : list Z) : Z := hd 0 a - hd 0 b.

#[global] Instance first_cmp_ok : CmpOk first_cmp.
Proof. constructor; unfold first_cmp; intros; lia. Qed.
#[global] Instance first_cmp_sign : CmpSign first_cmp.
Proof. intros a b. unfold first_cmp. lia. Qed.

Definition four : list (list Z) := [[7; 1; 2]; [3; 3; 4]; [9; 5; 6]; [3; 7; 8]].

Lemma four_holds : holds 3 [255] (concat four ++ [255]) four.
Proof. split_and!; [reflexivity|repeat constructor|repeat constructor; cbn; discriminate]. Defined.

Lemma sort_correct_witness : exists mem' l',
  sort first_cmp 4 3 None (concat four ++ [255]) = Ok (tt, mem') /\ holds 3 [255] mem' l' /\ l' ≡ₚ four /\
  StronglySorted (fun a b => first_cmp a b <= 0) l'.
Proof. apply (sort_correct first_cmp 3 [255] None _ four); [lia|reflexivity|exact four_holds|exact I]. Defined.

Lemma sort_bsearch_correct_witness : exists mem' found,
  sort first_cmp 4 3 None (concat four ++ [255]) = Ok (tt, mem') /\ bsearch first_cmp [7] 4 3 mem' = Ok (found, mem') /\
  match found with
  | Some off => exists e, elem 3 off mem' = Ok (e, mem') /\ e ∈ four /\ first_cmp [7] e = 0
  | None => forall e, e ∈ four -> first_cmp [7] e <> 0
  end.
Proof. apply (sort_bsearch_correct first_cmp 3 [255] None _ four); [lia|reflexivity|reflexivity|exact four_holds|exact I]. Defined.

Example sort_four :
  snd <$> sort first_cmp 4 3 None (concat four ++ [255]) = Ok [3; 3; 4; 3; 7; 8; 7; 1; 2; 9; 5; 6; 255].
Proof. vm_compute. reflexivity. Qed.

(** Elements of four bytes are exchanged as words. *)
Example sort_words :
  snd <$> sort first_cmp 3 4 None [5; 0; 0; 1; 4; 0; 0; 2; 3; 0; 0; 3] = Ok [3; 0; 0; 3; 4; 0; 0; 2; 5; 0; 0; 1].
Proof. vm_compute. reflexivity. Qed.

Example bsearch_four :
  fst <$> bsearch first_cmp [7] 4 3 [3; 3; 4; 3; 7; 8; 7; 1; 2; 9; 5; 6; 255] = Ok (Some 6) /\
  fst <$> bsearch first_cmp [8] 4 3 [3; 3; 4; 3; 7; 8; 7; 1; 2; 9; 5; 6; 255] = Ok None.
Proof. split; vm_compute; reflexivity. Qed.
