(* ===== verification/ResourceDefs.v ===== *)
(** The resource tree: [kernel/resource.c] and [include/linux/ioport.h].

    Resources are named by their addresses; [0] is [NULL].  The memory is a map
    from addresses to resources.  Functions that allocate work on a larger
    state, which adds the list of recycled entries and what the slab allocator
    returns next.  [resource_size_t] has 64 bits.  Messages are left out. *)
From stdpp Require Import gmap strings.
From S2P Require Import Prelude State.

Definition EBUSY : Z := 16.
Definition EINVAL : Z := 22.
Definition ENOMEM : Z := 12.

Definition IORESOURCE_TYPE_BITS : Z := 0x00001f00.
Definition IORESOURCE_MEM : Z := 0x00000200.
Definition IORESOURCE_SIZEALIGN : Z := 0x00040000.
Definition IORESOURCE_STARTALIGN : Z := 0x00080000.
Definition IORESOURCE_MUXED : Z := 0x00400000.
Definition IORESOURCE_EXCLUSIVE : Z := 0x08000000.
Definition IORESOURCE_UNSET : Z := 0x20000000.
Definition IORESOURCE_BUSY : Z := 0x80000000.

Record resource := mkRes {
  start : Z; end_ : Z; name : option string; flags : Z; parent : Z; sibling : Z; child : Z }.

Abbreviation rheap := (gmap Z resource).
Abbreviation RES := (ST rheap).

Definition with_range (n : resource) (s e : Z) : resource :=
  mkRes s e (name n) (flags n) (parent n) (sibling n) (child n).
Definition with_parent (n : resource) (v : Z) : resource :=
  mkRes (start n) (end_ n) (name n) (flags n) v (sibling n) (child n).
Definition with_sibling (n : resource) (v : Z) : resource :=
  mkRes (start n) (end_ n) (name n) (flags n) (parent n) v (child n).
Definition with_child (n : resource) (v : Z) : resource :=
  mkRes (start n) (end_ n) (name n) (flags n) (parent n) (sibling n) v.

Definition load (a : Z) : RES resource := fun h => match h !! a with Some n => Ok (n, h) | None => Fault end.
Definition update (a : Z) (f : resource -> resource) : RES unit := fun h =>
  match h !! a with Some n => Ok (tt, <[a := f n]> h) | None => Fault end.

(** What a [struct resource **] points to. *)
Inductive slot := Child (r : Z) | Sibling (r : Z).
Definition slot_load (p : slot) : RES Z :=
  match p with
  | Child r => n ← load r; mret (child n)
  | Sibling r => n ← load r; mret (sibling n)
  end.
Definition slot_store (p : slot) (v : Z) : RES unit :=
  match p with
  | Child r => update r (fun n => with_child n v)
  | Sibling r => update r (fun n => with_sibling n v)
  end.

(** A loop that visits a resource at most once. *)
Definition while_ {X R} (body : X -> RES (X + R)) (x : X) : RES R := fun h => st_loop (S (size h)) body x h.

Definition flag (n : resource) (mask : Z) : bool := negb (Z.land (flags n) mask =? 0).
Definition resource_size (n : resource) : Z := u64 (end_ n - start n + 1).
Definition resource_type (n : resource) : Z := Z.land (flags n) IORESOURCE_TYPE_BITS.

Definition resource_contains (r1 r2 : resource) : bool :=
  if negb (resource_type r1 =? resource_type r2) then false
  else if flag r1 IORESOURCE_UNSET || flag r2 IORESOURCE_UNSET then false
  else (start r1 <=? start r2) && (end_ r1 >=? end_ r2).

Definition resource_alignment (n : resource) : Z :=
  let b := Z.land (flags n) (Z.lor IORESOURCE_SIZEALIGN IORESOURCE_STARTALIGN) in
  if b =? IORESOURCE_SIZEALIGN then resource_size n
  else if b =? IORESOURCE_STARTALIGN then start n
  else 0.

(** ** Requesting and releasing *)

Definition request_step (start_ end__ root new : Z) (p : slot) : RES (slot + Z) :=
  tmp ← slot_load p;
  n ← (if tmp =? 0 then mret None else n ← load tmp; mret (Some n));
  if match n with None => true | Some n => start n >? end__ end then
    update new (fun n => with_sibling n tmp);;
    slot_store p new;;
    update new (fun n => with_parent n root);;
    mret (inr 0)
  else
    t ← load tmp;
    mret (if end_ t <? start_ then inl (Sibling tmp) else inr tmp).

Definition __request_resource (root new : Z) : RES Z :=
  n ← load new;
  let start_ := start n in
  let end__ := end_ n in
  r ← load root;
  if end__ <? start_ then mret root
  else if start_ <? start r then mret root
  else if end__ >? end_ r then mret root
  else while_ (request_step start_ end__ root new) (Child root).

Definition release_step (old : Z) (p : slot) : RES (slot + Z) :=
  tmp ← slot_load p;
  if tmp =? 0 then mret (inr (- EINVAL))
  else if tmp =? old then
    t ← load tmp;
    slot_store p (sibling t);;
    update old (fun n => with_parent n 0);;
    mret (inr 0)
  else mret (inl (Sibling tmp)).

Definition __release_resource (old : Z) : RES Z :=
  o ← load old;
  while_ (release_step old) (Child (parent o)).

(** The resources below [r], which are given up with their sizes; [fuel] bounds
    the depth of the recursion. *)
Fixpoint release_children (fuel : nat) (r : Z) : RES unit :=
  match fuel with
  | O => fun _ => NoFuel
  | S fuel =>
    n ← load r;
    update r (fun n => with_child n 0);;
    while_ (fun p =>
      if p =? 0 then mret (inr tt)
      else
        let tmp := p in
        t ← load p;
        let p := sibling t in
        update tmp (fun n => with_parent n 0);;
        update tmp (fun n => with_sibling n 0);;
        release_children fuel tmp;;
        t ← load tmp;
        update tmp (fun n => with_range n 0 (resource_size t ⊖ 1));;
        mret (inl p)) (child n)
  end.
Definition __release_child_resources (r : Z) : RES unit := fun h => release_children (S (size h)) r h.
Definition release_child_resources (r : Z) : RES unit := __release_child_resources r.

Definition request_resource_conflict (root new : Z) : RES Z := __request_resource root new.
Definition request_resource (root new : Z) : RES Z :=
  conflict ← request_resource_conflict root new;
  mret (if negb (conflict =? 0) then - EBUSY else 0).
Definition release_resource (old : Z) : RES Z := __release_resource old.

(** ** Allocating a range *)

Record resource_constraint := mkConstraint {
  c_min : Z; c_max : Z; c_align : Z; c_alignf : resource -> Z -> Z -> Z }.

Definition simple_align_resource (avail : resource) (size align : Z) : Z := start avail.
Definition ALIGN (x a : Z) : Z := Z.land (x ⊕ (a ⊖ 1)) (ULLONG_MAX - (a ⊖ 1)).
Definition resource_clip (n : resource) (min max : Z) : resource :=
  let n := if start n <? min then with_range n min (end_ n) else n in
  if end_ n >? max then with_range n (start n) max else n.

Definition slot_fits (new tmp : resource) (size : Z) (c : resource_constraint) : option (Z * Z) :=
  let new_flags := Z.land (flags new) (ULLONG_MAX - IORESOURCE_UNSET) in
  let avail := mkRes (ALIGN (start tmp) (c_align c)) (end_ tmp) None new_flags 0 0 0 in
  if start avail >=? start tmp then
    let s := c_alignf c avail size (c_align c) in
    let alloc := mkRes s (s ⊕ size ⊖ 1) None new_flags 0 0 0 in
    if resource_contains avail alloc then Some (start alloc, end_ alloc) else None
  else None.

Definition find_step (root old : Z) (new : resource) (size : Z) (c : resource_constraint) (x : Z * resource) :
    RES (Z * resource + option (Z * Z)) :=
  let '(this, tmp) := x in
  r ← load root;
  t ← (if this =? 0 then mret None else t ← load this; mret (Some t));
  let tmp := with_range tmp (start tmp)
    (match t with Some t => if this =? old then end_ t else start t ⊖ 1 | None => end_ r end) in
  let tmp' := if end_ tmp <? start tmp then tmp else resource_clip tmp (c_min c) (c_max c) in
  match (if end_ tmp <? start tmp then None else slot_fits new tmp' size c) with
  | Some found => mret (inr (Some found))
  | None =>
    match t with
    | None => mret (inr None)
    | Some t =>
      if end_ t =? end_ r then mret (inr None)
      else mret (inl (sibling t, if negb (this =? old) then with_range tmp' (end_ t ⊕ 1) (end_ tmp') else tmp'))
    end
  end.

(** The range that [new->start] and [new->end] are set to; [None] is [-EBUSY]. *)
Definition __find_resource (root old : Z) (new : resource) (size : Z) (c : resource_constraint) : RES (option (Z * Z)) :=
  r ← load root;
  let this := child r in
  let tmp := with_range new (start r) (end_ new) in
  '(this, tmp) ← (if this =? 0 then mret (this, tmp)
    else
      t ← load this;
      if start t =? start r then
        o ← (if this =? old then load old else mret t);
        mret (sibling t, with_range tmp (if this =? old then start o else end_ t ⊕ 1) (end_ tmp))
      else mret (this, tmp));
  while_ (find_step root old new size c) (this, tmp).

Definition find_resource (root : Z) (new : resource) (size : Z) (c : resource_constraint) : RES (option (Z * Z)) :=
  __find_resource root 0 new size c.

Definition reallocate_resource (root old newsize : Z) (c : resource_constraint) : RES Z :=
  o ← load old;
  found ← __find_resource root old o newsize c;
  match found with
  | None => mret (- EBUSY)
  | Some (s, e) =>
    let new := with_range o s e in
    if resource_contains new o then update old (fun n => with_range n s e);; mret 0
    else if negb (child o =? 0) then mret (- EBUSY)
    else if resource_contains o new then update old (fun n => with_range n s e);; mret 0
    else
      __release_resource old;;
      update old (fun _ => new);;
      conflict ← __request_resource root old;
      st_bug_on (negb (conflict =? 0));;
      mret 0
  end.

Definition allocate_resource (root new size min max align : Z) (alignf : option (resource -> Z -> Z -> Z)) : RES Z :=
  let c := mkConstraint min max align (match alignf with Some f => f | None => simple_align_resource end) in
  n ← load new;
  if negb (parent n =? 0) then reallocate_resource root new size c
  else
    found ← find_resource root n size c;
    match found with
    | None => mret (- EBUSY)
    | Some (s, e) =>
      update new (fun n => with_range n s e);;
      conflict ← __request_resource root new;
      mret (if negb (conflict =? 0) then - EBUSY else 0)
    end.

(** [for (res = root->child; res; res = res->sibling)] *)
Definition lookup_resource (root start_ : Z) : RES Z :=
  r ← load root;
  while_ (fun res =>
    if res =? 0 then mret (inr res)
    else
      n ← load res;
      mret (if start n =? start_ then inr res else inl (sibling n))) (child r).

(** ** Inserting above other resources *)

(** [for (;; parent = first)]: either the result, or the place to insert. *)
Definition insert_descend (new : Z) (parent_ : Z) : RES (Z + (Z + Z * Z)) :=
  first ← __request_resource parent_ new;
  if first =? 0 then mret (inr (inl first))
  else if first =? parent_ then mret (inr (inl first))
  else if first =? new then mret (inr (inl first))
  else
    f ← load first;
    n ← load new;
    if (start f >? start n) || (end_ f <? end_ n) then mret (inr (inr (parent_, first)))
    else if (start f =? start n) && (end_ f =? end_ n) then mret (inr (inr (parent_, first)))
    else mret (inl first).

(** [for (next = first; ; next = next->sibling)]: the last of the resources that
    [new] covers, or one it covers in part. *)
Definition insert_cover (new : Z) (next : Z) : RES (Z + (Z + Z)) :=
  x ← load next;
  n ← load new;
  if (start x <? start n) || (end_ x >? end_ n) then mret (inr (inl next))
  else if sibling x =? 0 then mret (inr (inr next))
  else
    s ← load (sibling x);
    if start s >? end_ n then mret (inr (inr next)) else mret (inl (sibling x)).

(** [for (next = first; next; next = next->sibling) next->parent = new;] *)
Definition insert_adopt (new : Z) (next : Z) : RES (Z + unit) :=
  if next =? 0 then mret (inr tt)
  else
    update next (fun n => with_parent n new);;
    x ← load next;
    mret (inl (sibling x)).

(** [while (next->sibling != first)] *)
Definition before_step (first : Z) (next : Z) : RES (Z + Z) :=
  x ← load next;
  mret (if negb (sibling x =? first) then inl (sibling x) else inr next).

Definition insert_above (new parent_ first next : Z) : RES Z :=
  update new (fun n => with_parent n parent_);;
  x ← load next;
  update new (fun n => with_sibling n (sibling x));;
  update new (fun n => with_child n first);;
  update next (fun n => with_sibling n 0);;
  while_ (insert_adopt new) first;;
  p ← load parent_;
  if child p =? first then
    update parent_ (fun n => with_child n new);;
    mret 0
  else
    next ← while_ (before_step first) (child p);
    update next (fun n => with_sibling n new);;
    mret 0.

Definition __insert_resource (parent_ new : Z) : RES Z :=
  place ← while_ (insert_descend new) parent_;
  match place with
  | inl conflict => mret conflict
  | inr (parent_, first) =>
    covered ← while_ (insert_cover new) first;
    match covered with
    | inl next => mret next
    | inr next => insert_above new parent_ first next
    end
  end.

Definition insert_resource_conflict (parent_ new : Z) : RES Z := __insert_resource parent_ new.
Definition insert_resource (parent_ new : Z) : RES Z :=
  conflict ← insert_resource_conflict parent_ new;
  mret (if negb (conflict =? 0) then - EBUSY else 0).

Definition expand_step (root new : Z) (x : unit) : RES (unit + unit) :=
  conflict ← __insert_resource root new;
  if conflict =? 0 then mret (inr tt)
  else if conflict =? root then mret (inr tt)
  else
    c ← load conflict;
    n ← load new;
    (if start c <? start n then update new (fun n => with_range n (start c) (end_ n)) else mret tt);;
    n ← load new;
    (if end_ c >? end_ n then update new (fun n => with_range n (start n) (end_ c)) else mret tt);;
    mret (inl tt).

Definition insert_resource_expand_to_fit (root new : Z) : RES unit :=
  n ← load new;
  if negb (parent n =? 0) then mret tt else while_ (expand_step root new) tt.

(** ** Changing a range *)

Definition children_fit (start_ end__ : Z) (tmp : Z) : RES (Z + bool) :=
  if tmp =? 0 then mret (inr true)
  else
    t ← load tmp;
    mret (if (start t <? start_) || (end_ t >? end__) then inr false else inl (sibling t)).

(** The tests against the parent and the siblings. *)
Definition neighbours_fit (res start_ end__ : Z) : RES bool :=
  n ← load res;
  if parent n =? 0 then mret true
  else
    p ← load (parent n);
    if (start_ <? start p) || (end__ >? end_ p) then mret false
    else
      next_resource_ok ← (if sibling n =? 0 then mret true else s ← load (sibling n); mret (negb (start s <=? end__)));
      if negb next_resource_ok then mret false
      else if child p =? res then mret true
      else
        tmp ← while_ (before_step res) (child p);
        t ← load tmp;
        mret (negb (start_ <=? end_ t)).

Definition __adjust_resource (res start_ size : Z) : RES Z :=
  let end__ := start_ ⊕ size ⊖ 1 in
  ok ← neighbours_fit res start_ end__;
  if negb ok then mret (- EBUSY)
  else
    n ← load res;
    ok ← while_ (children_fit start_ end__) (child n);
    if negb ok then mret (- EBUSY)
    else
      update res (fun n => with_range n start_ end__);;
      mret 0.
Definition adjust_resource (res start_ size : Z) : RES Z := __adjust_resource res start_ size.

(** ** Walking through the tree *)

(** [while (!p->sibling && p->parent) p = p->parent;] *)
Definition up_step (p : Z) : RES (Z + Z) :=
  n ← load p;
  mret (if (sibling n =? 0) && negb (parent n =? 0) then inl (parent n) else inr (sibling n)).

Definition next_resource (p : Z) (sibling_only : bool) : RES Z :=
  n ← load p;
  if sibling_only then mret (sibling n)
  else if negb (child n =? 0) then mret (child n)
  else while_ up_step p.

Definition r_next (v pos : Z) : RES (Z * Z) := p ← next_resource v false; mret (p, pos + 1).

Definition start_step (pos : Z) (x : Z * Z) : RES (Z * Z + Z) :=
  let '(p, l) := x in
  if negb (p =? 0) && (l <? pos) then
    '(p, l) ← r_next p l;
    mret (inl (p, l))
  else mret (inr p).
Definition r_start (root pos : Z) : RES Z :=
  r ← load root;
  while_ (start_step pos) (child r, 0).

(** [strcmp(p->name, name)], as the test whether the names differ. *)
Definition named (n : resource) (s : string) : RES bool :=
  match name n with Some s' => mret (negb (bool_decide (s' = s))) | None => fun _ => Fault end.

Definition iomem_step (flags_ : Z) (name_ : option string) (start_ end__ : Z) (sibling_only : bool) (p : Z) : RES (Z + Z) :=
  if p =? 0 then mret (inr 0)
  else
    n ← load p;
    other ← if negb (flags n =? flags_) then mret true else match name_ with None => mret false | Some s => named n s end;
    if (other : bool) then
      p ← next_resource p sibling_only;
      mret (inl p)
    else if start n >? end__ then mret (inr 0)
    else if (end_ n >=? start_) && (start n <? end__) then mret (inr p)
    else
      p ← next_resource p sibling_only;
      mret (inl p).

(** The range that is left in [*res]; [None] is [-1]. *)
Definition find_next_iomem_res (iomem flags_ start_ end__ : Z) (name_ : option string) (first_level_children_only : bool) :
    RES (option (Z * Z)) :=
  st_bug_on (start_ >=? end__);;
  r ← load iomem;
  p ← while_ (iomem_step flags_ name_ start_ end__ first_level_children_only) (child r);
  if p =? 0 then mret None
  else
    n ← load p;
    mret (Some (if start_ <? start n then start n else start_, if end__ >? end_ n then end_ n else end__)).

(** The loops that call [func] on every range; [func] works on what [arg] points
    to. *)
Section walk.
Context {A : Type} (iomem : Z).

Definition walk_step (func : Z -> Z -> A -> Z * A) (flags_ orig_end : Z) (name_ : option string) (first_level : bool)
    (x : Z * Z * Z * A) : RES (Z * Z * Z * A + Z * A) :=
  let '(s, e, ret, arg) := x in
  if s <? e then
    found ← find_next_iomem_res iomem flags_ s e name_ first_level;
    match found with
    | None => mret (inr (ret, arg))
    | Some (s, e) =>
      let '(ret, arg) := func s e arg in
      mret (if negb (ret =? 0) then inr (ret, arg) else inl (e ⊕ 1, orig_end, ret, arg))
    end
  else mret (inr (ret, arg)).

Definition walk_iomem_res (name_ : option string) (flags_ start_ end__ : Z) (arg : A) (func : Z -> Z -> A -> Z * A) : RES (Z * A) :=
  while_ (walk_step func flags_ end__ name_ false) (start_, end__, -1, arg).

Definition walk_system_ram_res (start_ end__ : Z) (arg : A) (func : Z -> Z -> A -> Z * A) : RES (Z * A) :=
  while_ (walk_step func (Z.lor IORESOURCE_MEM IORESOURCE_BUSY) end__ (Some "System RAM"%string) true) (start_, end__, -1, arg).

Definition PAGE_SHIFT : Z := 12.
Definition PAGE_SIZE : Z := 4096.

Definition ram_step (func : Z -> Z -> A -> Z * A) (orig_end : Z) (x : Z * Z * Z * A) : RES (Z * Z * Z * A + Z * A) :=
  let '(s, e, ret, arg) := x in
  if s <? e then
    found ← find_next_iomem_res iomem (Z.lor IORESOURCE_MEM IORESOURCE_BUSY) s e (Some "System RAM"%string) true;
    match found with
    | None => mret (inr (ret, arg))
    | Some (s, e) =>
      let pfn := Z.shiftr (s ⊕ PAGE_SIZE ⊖ 1) PAGE_SHIFT in
      let end_pfn := Z.shiftr (e ⊕ 1) PAGE_SHIFT in
      let '(ret, arg) := if end_pfn >? pfn then func pfn (end_pfn - pfn) arg else (ret, arg) in
      mret (if negb (ret =? 0) then inr (ret, arg) else inl (e ⊕ 1, orig_end, ret, arg))
    end
  else mret (inr (ret, arg)).

Definition walk_system_ram_range (start_pfn nr_pages : Z) (arg : A) (func : Z -> Z -> A -> Z * A) : RES (Z * A) :=
  let s := u64 (Z.shiftl start_pfn PAGE_SHIFT) in
  let e := u64 (Z.shiftl (start_pfn ⊕ nr_pages) PAGE_SHIFT) ⊖ 1 in
  while_ (ram_step func e) (s, e, -1, arg).
End walk.

Definition __is_ram (pfn nr_pages : Z) (arg : unit) : Z * unit := (1, arg).
Definition page_is_ram (iomem pfn : Z) : RES bool :=
  '(ret, _) ← walk_system_ram_range iomem pfn 1 tt __is_ram;
  mret (ret =? 1).

(** The flags of "System RAM", in an [int]. *)
Definition ram_flags : Z := s32 (Z.lor IORESOURCE_MEM IORESOURCE_BUSY).

(** The comparison extends [flags], an [int], to [unsigned long]. *)
Definition is_ram_step (start_ end__ flags_ : Z) (p : Z) : RES (Z + Z) :=
  if p =? 0 then mret (inr (-1))
  else
    n ← load p;
    if end__ <? start n then mret (inl (sibling n))
    else if (start n <=? start_) && (end__ <=? end_ n) then
      if negb (flags n =? u64 flags_) then mret (inr 0)
      else other_name ← named n "System RAM"; mret (inr (if (other_name : bool) then 0 else 1))
    else if end_ n <? start_ then mret (inr (-1))
    else mret (inl (sibling n)).
Definition region_is_ram (iomem start_ size_ : Z) : RES Z :=
  r ← load iomem;
  while_ (is_ram_step start_ (start_ ⊕ size_ ⊖ 1) ram_flags) (child r).

Definition PFN_DOWN (x : Z) : Z := Z.shiftr x PAGE_SHIFT.

Definition sanity_step (addr size : Z) (p : Z) : RES (Z + Z) :=
  if p =? 0 then mret (inr 0)
  else
    n ← load p;
    if (start n >=? addr ⊕ size) || (end_ n <? addr) ||
       ((PFN_DOWN (start n) <=? PFN_DOWN addr) && (PFN_DOWN (end_ n) >=? PFN_DOWN (addr ⊕ size ⊖ 1))) ||
       flag n IORESOURCE_BUSY
    then p ← next_resource p false; mret (inl p)
    else mret (inr (-1)).
Definition iomem_map_sanity_check (iomem addr size : Z) : RES Z :=
  r ← load iomem;
  while_ (sanity_step addr size) (child r).

Definition exclusive_step (addr : Z) (p : Z) : RES (Z + Z) :=
  if p =? 0 then mret (inr 0)
  else
    n ← load p;
    if start n >=? addr ⊕ PAGE_SIZE then mret (inr 0)
    else if end_ n <? addr then p ← next_resource p false; mret (inl p)
    else if flag n IORESOURCE_BUSY && flag n IORESOURCE_EXCLUSIVE then mret (inr 1)
    else p ← next_resource p false; mret (inl p).
Definition iomem_is_exclusive (iomem : Z) (strict_iomem_checks : bool) (addr : Z) : RES Z :=
  if negb strict_iomem_checks then mret 0
  else
    r ← load iomem;
    while_ (exclusive_step (Z.land addr (ULLONG_MAX - (PAGE_SIZE - 1)))) (child r).

(** ** Regions that are allocated here *)

(** [slab] is what the next calls of [kzalloc] return. *)
Record rstate := mkRs { mem : rheap; bootmem_resource_free : Z; slab : list Z }.
Abbreviation RST := (ST rstate).

Definition on_mem {A} (m : RES A) : RST A := fun st =>
  '(a, h) ← m (mem st); Ok (a, mkRs h (bootmem_resource_free st) (slab st)).

Definition zeroed : resource := mkRes 0 0 None 0 0 0 0.

Definition kzalloc : RST Z := fun st =>
  match slab st with
  | [] => Ok (0, st)
  | a :: s => if a =? 0 then Ok (0, mkRs (mem st) (bootmem_resource_free st) s)
              else Ok (a, mkRs (<[a := zeroed]> (mem st)) (bootmem_resource_free st) s)
  end.
Definition kfree (a : Z) : RST unit := fun st =>
  match mem st !! a with
  | Some _ => Ok (tt, mkRs (delete a (mem st)) (bootmem_resource_free st) (slab st))
  | None => Fault
  end.
Definition get_bootmem_free : RST Z := fun st => Ok (bootmem_resource_free st, st).
Definition set_bootmem_free (a : Z) : RST unit := fun st => Ok (tt, mkRs (mem st) a (slab st)).

Section regions.
(** Whether the entry lies in a page of the slab allocator. *)
Context (PageSlab : Z -> bool).

Definition free_resource (res : Z) : RST unit :=
  if res =? 0 then mret tt
  else if negb (PageSlab res) then
    f ← get_bootmem_free;
    on_mem (update res (fun n => with_sibling n f));;
    set_bootmem_free res
  else kfree res.

Definition alloc_resource : RST Z :=
  f ← get_bootmem_free;
  res ← (if negb (f =? 0) then
      n ← on_mem (load f);
      set_bootmem_free (sibling n);;
      mret f
    else mret 0);
  if negb (res =? 0) then
    on_mem (update res (fun _ => zeroed));;
    mret res
  else kzalloc.

(** A region, or [NULL]; a request for a muxed region may have to wait, with
    [parent] and [res] where it will go on. *)
Inductive region_result := Region (res : Z) | Waits (parent_ res : Z).

Definition region_step (flags_ res : Z) (parent_ : Z) : RST (Z + region_result) :=
  conflict ← on_mem (__request_resource parent_ res);
  if conflict =? 0 then mret (inr (Region res))
  else
    c ← on_mem (load conflict);
    if negb (conflict =? parent_) && negb (flag c IORESOURCE_BUSY) then mret (inl conflict)
    else if negb (Z.land (Z.land (flags c) flags_) IORESOURCE_MUXED =? 0) then mret (inr (Waits parent_ res))
    else
      free_resource res;;
      mret (inr (Region 0)).

(** [for (;;)], also after a wake-up. *)
Definition request_region_loop (flags_ res parent_ : Z) : RST region_result := fun st =>
  st_loop (S (size (mem st))) (region_step flags_ res) parent_ st.

(** [flags] is an [int]; [IORESOURCE_BUSY | flags] is an [unsigned int]. *)
Definition __request_region (parent_ start_ n : Z) (name_ : option string) (flags_ : Z) : RST region_result :=
  res ← alloc_resource;
  if res =? 0 then mret (Region 0)
  else
    p ← on_mem (load parent_);
    on_mem (update res (fun r =>
      mkRes start_ (start_ ⊕ n ⊖ 1) name_ (Z.lor (resource_type p) (Z.lor IORESOURCE_BUSY (u32 flags_)))
        (parent r) (sibling r) (child r)));;
    request_region_loop flags_ res parent_.

Definition __check_region (parent_ start_ n : Z) : RST Z :=
  r ← __request_region parent_ start_ n (Some "check-region"%string) 0;
  match r with
  | Region res =>
    if res =? 0 then mret (- EBUSY)
    else
      on_mem (release_resource res);;
      free_resource res;;
      mret 0
  | Waits _ _ => fun _ => Fault
  end.

(** Whether a region was released. *)
Definition release_region_step (start_ end__ : Z) (p : slot) : RST (slot + bool) :=
  res ← on_mem (slot_load p);
  if res =? 0 then mret (inr false)
  else
    r ← on_mem (load res);
    if (start r <=? start_) && (end_ r >=? end__) then
      if negb (flag r IORESOURCE_BUSY) then mret (inl (Child res))
      else if negb (start r =? start_) || negb (end_ r =? end__) then mret (inr false)
      else
        on_mem (slot_store p (sibling r));;
        free_resource res;;
        mret (inr true)
    else mret (inl (Sibling res)).
Definition __release_region (parent_ start_ n : Z) : RST bool := fun st =>
  st_loop (S (size (mem st))) (release_region_step start_ (start_ ⊕ n ⊖ 1)) (Child parent_) st.

(** ** Reserving what is left of a range *)

Definition new_reserved (name_ : option string) (res start_ end__ : Z) : RST unit :=
  on_mem (update res (fun r => mkRes start_ end__ name_ IORESOURCE_BUSY (parent r) (sibling r) (child r))).

Definition split_step (parent_ : Z) (name_ : option string) (x : Z * Z) : RST (Z * Z + unit) :=
  let '(res, next_res) := x in
  conflict ← on_mem (__request_resource parent_ res);
  if conflict =? 0 then
    mret (if next_res =? 0 then inr tt else inl (next_res, 0))
  else
    c ← on_mem (load conflict);
    r ← on_mem (load res);
    if (start c <=? start r) && (end_ c >=? end_ r) then
      free_resource res;;
      mret (inr tt)
    else if start c >? start r then
      let end__ := end_ r in
      on_mem (update res (fun r => with_range r (start r) (start c ⊖ 1)));;
      if end_ c <? end__ then
        next_res ← alloc_resource;
        if next_res =? 0 then
          free_resource res;;
          mret (inr tt)
        else
          new_reserved name_ next_res (end_ c ⊕ 1) end__;;
          mret (inl (res, next_res))
      else mret (inl (res, next_res))
    else
      on_mem (update res (fun r => with_range r (end_ c ⊕ 1) (end_ r)));;
      mret (inl (res, next_res)).

(** Every round but the last one inserts an entry, passes a resource or both. *)
Definition split_loop (root : Z) (name_ : option string) (res : Z) : RST unit := fun st =>
  st_loop (3 * S (size (mem st))) (split_step root name_) (res, 0) st.

Definition __reserve_region_with_split (root start_ end__ : Z) (name_ : option string) : RST unit :=
  res ← alloc_resource;
  if res =? 0 then mret tt
  else
    new_reserved name_ res start_ end__;;
    split_loop root name_ res.

Definition reserve_region_with_split (root start_ end__ : Z) (name_ : option string) : RST unit :=
  r ← on_mem (load root);
  let outside := (start r >? start_) || (end_ r <? end__) in
  let abort := outside && ((start_ >? end_ r) || (end__ <? start r)) in
  let end__ := if outside && (end__ >? end_ r) then end_ r else end__ in
  let start_ := if outside && (start_ <? start r) then start r else start_ in
  if abort then mret tt else __reserve_region_with_split root start_ end__ name_.

(** ** Giving back a part of a memory region *)

(** The result, and the entry that was not needed. *)
Definition adjustable_step (start_ end__ new_res : Z) (p : slot) : RST (slot + Z * Z) :=
  res ← on_mem (slot_load p);
  if res =? 0 then mret (inr (- EINVAL, new_res))
  else
    r ← on_mem (load res);
    if start r >=? end__ then mret (inr (- EINVAL, new_res))
    else if (start r >? start_) || (end_ r <? end__) then mret (inl (Sibling res))
    else if negb (flag r IORESOURCE_MEM) then mret (inr (- EINVAL, new_res))
    else if negb (flag r IORESOURCE_BUSY) then mret (inl (Child res))
    else if (start r =? start_) && (end_ r =? end__) then
      on_mem (slot_store p (sibling r));;
      free_resource res;;
      mret (inr (0, new_res))
    else if (start r =? start_) && negb (end_ r =? end__) then
      ret ← on_mem (__adjust_resource res (end__ ⊕ 1) (end_ r ⊖ end__));
      mret (inr (ret, new_res))
    else if negb (start r =? start_) && (end_ r =? end__) then
      ret ← on_mem (__adjust_resource res (start r) (start_ ⊖ start r));
      mret (inr (ret, new_res))
    else if new_res =? 0 then mret (inr (- ENOMEM, new_res))
    else
      on_mem (update new_res (fun _ => mkRes (end__ ⊕ 1) (end_ r) (name r) (flags r) (parent r) (sibling r) 0));;
      ret ← on_mem (__adjust_resource res (start r) (start_ ⊖ start r));
      if negb (ret =? 0) then mret (inr (ret, new_res))
      else
        on_mem (update res (fun r => with_sibling r new_res));;
        mret (inr (ret, 0)).

Definition adjustable_loop (start_ end__ new_res parent_ : Z) : RST (Z * Z) := fun st =>
  st_loop (S (size (mem st))) (adjustable_step start_ end__ new_res) (Child parent_) st.

Definition release_mem_region_adjustable (parent_ start_ size_ : Z) : RST Z :=
  let end__ := start_ ⊕ size_ ⊖ 1 in
  p ← on_mem (load parent_);
  if (start_ <? start p) || (end__ >? end_ p) then mret (- EINVAL)
  else
    new_res ← alloc_resource;
    '(ret, new_res) ← adjustable_loop start_ end__ new_res parent_;
    free_resource new_res;;
    mret ret.
End regions.
