(* ===== verification/ResourceTree.v ===== *)
(** The forest that a memory of resources holds. *)
From stdpp Require Import gmap strings sorting functions.
From S2P Require Import Prelude State ResourceDefs.

(** ** Links and data *)

Record rdata := mkData { d_start : Z; d_end : Z; d_name : option string; d_flags : Z }.
Definition data (n : resource) : rdata := mkData (start n) (end_ n) (name n) (flags n).

(** A memory, field by field. *)
Record view := V { par : gmap Z Z; sib : gmap Z Z; chd : gmap Z Z; dat : gmap Z rdata }.
Definition view_of (h : rheap) : view := V (parent <$> h) (sibling <$> h) (child <$> h) (data <$> h).
#[global] Arguments view_of : simpl never.

Definition set_par (v : view) (a x : Z) : view := V (<[a := x]> (par v)) (sib v) (chd v) (dat v).
Definition set_sib (v : view) (a x : Z) : view := V (par v) (<[a := x]> (sib v)) (chd v) (dat v).
Definition set_chd (v : view) (a x : Z) : view := V (par v) (sib v) (<[a := x]> (chd v)) (dat v).
Definition set_dat (v : view) (a : Z) (x : rdata) : view := V (par v) (sib v) (chd v) (<[a := x]> (dat v)).

(** What a resource is in a view. *)
Definition shows (v : view) (a : Z) (n : resource) : Prop :=
  par v !! a = Some (parent n) /\ sib v !! a = Some (sibling n) /\ chd v !! a = Some (child n) /\ dat v !! a = Some (data n).

Lemma view_size h : size (dat (view_of h)) = size h.
Proof. apply map_size_fmap. Qed.

Lemma view_some h a n : h !! a = Some n -> shows (view_of h) a n.
Proof. intros Ha. unfold shows, view_of. cbn. by rewrite !lookup_fmap, Ha. Qed.

Lemma view_none h a : h !! a = None -> par (view_of h) !! a = None /\ sib (view_of h) !! a = None /\ chd (view_of h) !! a = None /\ dat (view_of h) !! a = None.
Proof. intros Ha. unfold view_of. cbn. by rewrite !lookup_fmap, Ha. Qed.

Lemma view_is_some h a : is_Some (dat (view_of h) !! a) <-> is_Some (h !! a).
Proof. unfold view_of. cbn. rewrite lookup_fmap. apply fmap_is_Some. Qed.

Lemma view_par_some h a : is_Some (par (view_of h) !! a) <-> is_Some (h !! a).
Proof. unfold view_of. cbn. rewrite lookup_fmap. apply fmap_is_Some. Qed.

Section ops.
Context (h : rheap).

Lemma wp_rload a Q : is_Some (dat (view_of h) !! a) -> (forall n, shows (view_of h) a n -> Q n h) -> wp (load a) Q h.
Proof. intros [n Ha]%view_is_some HQ. exists n, h. unfold load. rewrite Ha. split; [done|]. by apply HQ, view_some. Qed.

Lemma wp_update_view a f v Q :
  is_Some (dat (view_of h) !! a) -> (forall n, h !! a = Some n -> view_of (<[a := f n]> h) = v) ->
  (forall h', view_of h' = v -> Q tt h') -> wp (update a f) Q h.
Proof. intros [n Ha]%view_is_some Hv HQ. eexists _, _. unfold update. rewrite Ha. split; [done|]. by apply HQ, Hv. Qed.

Lemma fmap_insert_same {A} (f : resource -> A) a n n' : h !! a = Some n -> f n' = f n -> f <$> <[a := n']> h = f <$> h.
Proof. intros Ha Hf. rewrite fmap_insert, Hf. apply insert_id. by rewrite lookup_fmap, Ha. Qed.

Lemma wp_set_par a x Q : is_Some (dat (view_of h) !! a) ->
  (forall h', view_of h' = set_par (view_of h) a x -> Q tt h') -> wp (update a (fun n => with_parent n x)) Q h.
Proof.
  intros Ha. apply wp_update_view; [done|]. intros n Hn. unfold view_of, set_par. cbn. rewrite fmap_insert. f_equal; by eapply fmap_insert_same.
Qed.
Lemma wp_set_sib a x Q : is_Some (dat (view_of h) !! a) ->
  (forall h', view_of h' = set_sib (view_of h) a x -> Q tt h') -> wp (update a (fun n => with_sibling n x)) Q h.
Proof.
  intros Ha. apply wp_update_view; [done|]. intros n Hn. unfold view_of, set_sib. cbn. rewrite (fmap_insert sibling). f_equal; by eapply fmap_insert_same.
Qed.
Lemma wp_set_chd a x Q : is_Some (dat (view_of h) !! a) ->
  (forall h', view_of h' = set_chd (view_of h) a x -> Q tt h') -> wp (update a (fun n => with_child n x)) Q h.
Proof.
  intros Ha. apply wp_update_view; [done|]. intros n Hn. unfold view_of, set_chd. cbn. rewrite (fmap_insert child). f_equal; by eapply fmap_insert_same.
Qed.
Lemma wp_set_range_with a (f g : resource -> Z) s e x Q : dat (view_of h) !! a = Some x -> (forall n, data n = x -> f n = s /\ g n = e) ->
  (forall h', view_of h' = set_dat (view_of h) a (mkData s e (d_name x) (d_flags x)) -> Q tt h') -> wp (update a (fun n => with_range n (f n) (g n))) Q h.
Proof.
  intros Ha Hfg. apply wp_update_view; [done|]. intros n Hn. unfold view_of in Ha. cbn in Ha. rewrite lookup_fmap, Hn in Ha. injection Ha as <-.
  destruct (Hfg n eq_refl) as [-> ->]. unfold view_of, set_dat. cbn. rewrite (fmap_insert data). f_equal; by eapply fmap_insert_same.
Qed.
Lemma wp_set_range a s e x Q : dat (view_of h) !! a = Some x ->
  (forall h', view_of h' = set_dat (view_of h) a (mkData s e (d_name x) (d_flags x)) -> Q tt h') -> wp (update a (fun n => with_range n s e)) Q h.
Proof. intros Ha. by apply (wp_set_range_with a (fun _ => s) (fun _ => e)). Qed.

Lemma view_insert a n : view_of (<[a := n]> h) =
  V (<[a := parent n]> (par (view_of h))) (<[a := sibling n]> (sib (view_of h))) (<[a := child n]> (chd (view_of h))) (<[a := data n]> (dat (view_of h))).
Proof. unfold view_of. cbn. by rewrite !fmap_insert. Qed.

Lemma wp_overwrite a n Q : is_Some (dat (view_of h) !! a) -> Q tt (<[a := n]> h) -> wp (update a (fun _ => n)) Q h.
Proof. intros [n0 Ha]%view_is_some HQ. eexists _, _. unfold update. rewrite Ha. split; [done|]. done. Qed.
End ops.

(** A memory is determined by its view. *)
Lemma view_eq_at h h' a :
  par (view_of h') !! a = par (view_of h) !! a -> sib (view_of h') !! a = sib (view_of h) !! a ->
  chd (view_of h') !! a = chd (view_of h) !! a -> dat (view_of h') !! a = dat (view_of h) !! a -> h' !! a = h !! a.
Proof.
  unfold view_of. cbn. rewrite !lookup_fmap. destruct (h' !! a) as [n'|], (h !! a) as [n|]; cbn; try done.
  intros [= Hp] [= Hs] [= Hc] [= H1 H2 H3 H4]. destruct n, n'. cbn in *. congruence.
Qed.

#[global] Opaque view_of.

(** ** Ranges *)

Definition lo (v : view) (c : Z) : Z := from_option d_start 0 (dat v !! c).
Definition hi (v : view) (c : Z) : Z := from_option d_end 0 (dat v !! c).
Definition before (v : view) (a b : Z) : Prop := hi v a < lo v b.
Definition within (v : view) (c r : Z) : Prop := lo v r <= lo v c /\ lo v c <= hi v c /\ hi v c <= hi v r.

(** ** Lists of children *)

(** The siblings [l] have the parent [r], and [q] follows them. *)
Fixpoint seg (v : view) (r : Z) (l : list Z) (q : Z) : Prop :=
  match l with
  | [] => True
  | c :: l => par v !! c = Some r /\ sib v !! c = Some (hd q l) /\ seg v r l q
  end.

(** The children of [r] begin with [l], and [q] follows. *)
Definition children (v : view) (r : Z) (l : list Z) (q : Z) : Prop := chd v !! r = Some (hd q l) /\ seg v r l q.

(** The pointer behind the children [l] of [r]. *)
Definition slot_of (r : Z) (l : list Z) : slot := match last l with None => Child r | Some c => Sibling c end.
Definition set_slot (v : view) (r : Z) (l : list Z) (x : Z) : view :=
  match last l with None => set_chd v r x | Some c => set_sib v c x end.

(** ** The forest

    [kids r] are the children of [r]; [dead] are entries that wait for being
    used again. *)
Record wf (dead : list Z) (v : view) (kids : Z -> list Z) : Prop := {
  wf_null : dat v !! 0 = None;
  wf_range a x : dat v !! a = Some x -> 0 <= d_start x < 2 ^ 64 /\ 0 <= d_end x < 2 ^ 64;
  wf_kids r : is_Some (dat v !! r) -> r ∉ dead -> children v r (kids r) 0;
  wf_order r : StronglySorted (before v) (kids r);
  wf_within r c : c ∈ kids r -> within v c r;
  wf_live r c : c ∈ kids r -> is_Some (dat v !! r) /\ is_Some (dat v !! c) /\ (r ∉ dead) /\ (c ∉ dead);
  wf_parent r c : par v !! c = Some r -> c ∉ dead -> r <> 0 -> c ∈ kids r;
  wf_acyclic : well_founded (fun c r => c ∈ kids r) }.

(** ** Lemmas on segments *)

Lemma hd_app_hd {A} (q : A) l1 l2 : hd q (l1 ++ l2) = hd (hd q l2) l1.
Proof. by destruct l1. Qed.

Lemma seg_app v r l1 l2 q : seg v r (l1 ++ l2) q <-> seg v r l1 (hd q l2) /\ seg v r l2 q.
Proof. induction l1 as [|c l1 IH]; cbn; [tauto|]. rewrite IH, hd_app_hd. tauto. Qed.

Lemma children_app v r l1 l2 q : children v r (l1 ++ l2) q <-> children v r l1 (hd q l2) /\ seg v r l2 q.
Proof. unfold children. rewrite hd_app_hd, seg_app. tauto. Qed.

Lemma seg_agree v v' r l q :
  (forall c, c ∈ l -> par v' !! c = par v !! c /\ sib v' !! c = sib v !! c) -> seg v r l q -> seg v' r l q.
Proof.
  induction l as [|c l IH]; intros Ha Hs; [done|]. cbn in *. destruct (Ha c ltac:(left)) as [-> ->], Hs as (? & ? & ?).
  split_and!; [done|done|]. apply IH; [|done]. intros x Hx. apply Ha. by right.
Qed.

Lemma seg_parent v r l q c : seg v r l q -> c ∈ l -> par v !! c = Some r.
Proof. induction l as [|a l IH]; intros Hs Hc; [by apply elem_of_nil in Hc|]. cbn in Hs. apply elem_of_cons in Hc as [->|Hc]; naive_solver. Qed.

Lemma children_set_slot v r l q x : children v r l q -> NoDup l -> children (set_slot v r l x) r l x.
Proof.
  destruct l as [|c l _] using rev_ind; unfold set_slot, children.
  - intros _ _. cbn. by rewrite lookup_insert_eq.
  - rewrite last_snoc. intros [Hc Hs] [_ [Hnd _]]%NoDup_app. rewrite hd_app_hd in *. rewrite seg_app in *. cbn in *. destruct Hs as (Hs1 & Hp & Hs & _).
    split_and!; [done| |done|by rewrite lookup_insert_eq|done]. revert Hs1. apply seg_agree. intros a Ha. cbn. split; [done|].
    rewrite lookup_insert_ne; [done|]. intros <-. by apply (Hnd c Ha); left.
Qed.

Lemma children_agree v v' r l q :
  chd v' !! r = chd v !! r -> (forall c, c ∈ l -> par v' !! c = par v !! c /\ sib v' !! c = sib v !! c) ->
  children v r l q -> children v' r l q.
Proof. intros Hc Ha [H1 H2]. split; [congruence|]. by eapply seg_agree. Qed.

Lemma slot_load_ok h r l q : is_Some (dat (view_of h) !! r) -> (forall c, c ∈ l -> is_Some (dat (view_of h) !! c)) ->
  children (view_of h) r l q -> wp (slot_load (slot_of r l)) (fun a h' => a = q /\ h' = h) h.
Proof.
  intros Hr Hl [Hc Hs]. unfold slot_of. destruct l as [|c l _] using rev_ind; [|rewrite last_snoc]; apply wp_bind.
  - apply wp_rload; [done|]. intros n (_ & _ & Hn & _). apply wp_ret. cbn in Hc. split; [congruence|done].
  - apply wp_rload; [apply Hl; set_solver|]. intros n (_ & Hn & _). apply wp_ret. apply seg_app in Hs as (_ & _ & Hs & _). cbn in Hs.
    split; [congruence|done].
Qed.

Lemma slot_store_ok h r l x Q : is_Some (dat (view_of h) !! r) -> (forall c, c ∈ l -> is_Some (dat (view_of h) !! c)) ->
  (forall h', view_of h' = set_slot (view_of h) r l x -> Q tt h') -> wp (slot_store (slot_of r l) x) Q h.
Proof.
  intros Hr Hl. unfold slot_of, set_slot. destruct l as [|c l _] using rev_ind; [|rewrite last_snoc]; [by apply wp_set_chd|].
  apply wp_set_sib. apply Hl. set_solver.
Qed.

(** ** Lemmas on the forest *)

Section forest.
Context (dead : list Z) (v : view) (kids : Z -> list Z).
Hypothesis Hwf : wf dead v kids.

Lemma kids_parent r c : c ∈ kids r -> par v !! c = Some r.
Proof using Hwf. intros Hc. pose proof (wf_live _ _ _ Hwf r c Hc) as (Hr & _ & Hd & _). eapply seg_parent; [|done]. by apply (wf_kids _ _ _ Hwf r). Qed.

Lemma kids_disjoint r r' c : c ∈ kids r -> c ∈ kids r' -> r = r'.
Proof using Hwf. intros H1%kids_parent H2%kids_parent. congruence. Qed.

Lemma kids_nonnull r c : c ∈ kids r -> r <> 0 /\ c <> 0.
Proof using Hwf.
  intros Hc. pose proof (wf_live _ _ _ Hwf r c Hc) as ([? Hr] & [? Hx] & _). pose proof (wf_null _ _ _ Hwf). split; congruence.
Qed.

Lemma null_no_kids : kids 0 = [].
Proof using Hwf. destruct (kids 0) as [|c l] eqn:E; [done|]. destruct (kids_nonnull 0 c); [rewrite E; left|done]. Qed.

Lemma unlinked r c : par v !! c = Some 0 -> c ∉ kids r.
Proof using Hwf. intros Hp Hc. destruct (kids_nonnull r c Hc) as [Hr _]. apply kids_parent in Hc. congruence. Qed.

Lemma kids_NoDup r : NoDup (kids r).
Proof using Hwf.
  pose proof (wf_order _ _ _ Hwf r) as Ho. assert (Hin : forall c, c ∈ kids r -> lo v c <= hi v c) by (intros c Hc; apply (wf_within _ _ _ Hwf r c Hc)).
  revert Ho Hin. induction (kids r) as [|c l IH]; intros Ho Hin; constructor; inversion Ho as [|?? Ho' Hc]; subst.
  - intros Hc'. rewrite Forall_forall in Hc. specialize (Hc c Hc'). unfold before in Hc. specialize (Hin c ltac:(left)). lia.
  - apply IH; [done|]. intros x Hx. apply Hin. by right.
Qed.

Lemma acyclic r : r ∉ kids r.
Proof using Hwf.
  intros Hr. pose proof (wf_acyclic _ _ _ Hwf r) as Ha. induction Ha as [r _ IH]. by apply (IH r).
Qed.
End forest.

Lemma kids_length dead v kids r : wf dead v kids -> (length (kids r) <= size (dat v))%nat.
Proof. intros Hwf. apply NoDup_size; [by eapply kids_NoDup|]. intros c Hc. by apply (wf_live _ _ _ Hwf r c Hc). Qed.

(** ** Changing some of the lists *)

Lemma wf_update dead v v' kids kids' (R : list Z) :
  wf dead v kids -> dat v' = dat v -> (forall r, r ∉ R -> kids' r = kids r) ->
  (forall r, r ∉ R -> chd v' !! r = chd v !! r) ->
  (forall r c, r ∉ R -> c ∈ kids r -> par v' !! c = par v !! c /\ sib v' !! c = sib v !! c) ->
  (forall r, r ∈ R -> is_Some (dat v !! r) /\ (r ∉ dead) /\ children v' r (kids' r) 0 /\ StronglySorted (before v) (kids' r) /\
    (forall c, c ∈ kids' r -> within v c r /\ is_Some (dat v !! c) /\ (c ∉ dead))) ->
  (forall r c, par v' !! c = Some r -> c ∉ dead -> r <> 0 -> c ∈ kids' r) ->
  well_founded (fun c r => c ∈ kids' r) ->
  wf dead v' kids'.
Proof.
  intros [H1 H2 H3 H4 H5 H6 H7 H8] Hdat Hk Hchd Hlinks HR Hpar Hacyc.
  assert (Hord : forall l, StronglySorted (before v) l -> StronglySorted (before v') l).
  { intros l. unfold before, lo, hi. by rewrite Hdat. }
  constructor; rewrite ?Hdat; try done.
  - intros r Hr Hd. destruct (decide (r ∈ R)) as [Hin|Hin]; [by apply HR|]. rewrite Hk by done.
    eapply children_agree; [by apply Hchd| |by apply H3]. intros c Hc. by apply (Hlinks r).
  - intros r. apply Hord. destruct (decide (r ∈ R)) as [Hin|Hin]; [by apply HR|]. by rewrite Hk.
  - intros r c Hc. unfold within, lo, hi. rewrite Hdat. destruct (decide (r ∈ R)) as [Hin|Hin].
    + by apply HR in Hin as (_ & _ & _ & _ & Hin); apply Hin.
    + rewrite Hk in Hc by done. by apply H5.
  - intros r c Hc. destruct (decide (r ∈ R)) as [Hin|Hin].
    + apply HR in Hin as (? & ? & _ & _ & Hin). apply Hin in Hc as (_ & ? & ?). done.
    + rewrite Hk in Hc by done. by apply H6.
Qed.
