(* ===== verification/ResourceRequest.v ===== *)
(** Requesting and releasing resources, and changing their ranges. *)
From stdpp Require Import gmap strings sorting functions.
From Stdlib Require Import Wellfounded.Inclusion.
From S2P Require Import Prelude State Sorting ResourceDefs ResourceTree.

(** ** What a request does *)

(** [c] is a resource of the subtree of [r]. *)
Definition below (kids : Z -> list Z) : Z -> Z -> Prop := rtc (fun c r => c ∈ kids r).

Definition overlaps (v : view) (a b : Z) : Prop := lo v b <= hi v a /\ lo v a <= hi v b.
#[global] Instance overlaps_dec v a b : Decision (overlaps v a b).
Proof. unfold overlaps. apply _. Defined.
#[global] Instance before_dec v a b : Decision (before v a b).
Proof. unfold before. apply _. Defined.
#[global] Instance within_dec v a b : Decision (within v a b).
Proof. unfold within. apply _. Defined.

(** The resource that a request conflicts with, or [0]. *)
Definition conflict_of (v : view) (kids : Z -> list Z) (root new : Z) : Z :=
  if decide (within v new root) then hd 0 (filter (overlaps v new) (kids root)) else root.

(** The place of a new resource among its siblings. *)
Definition insert_child (v : view) (new : Z) (l : list Z) : list Z :=
  filter (fun c => before v c new) l ++ new :: filter (before v new) l.

(** Nothing but the resources of [l] is written. *)
Definition writes (l : list Z) (h h' : rheap) : Prop := forall a, a ∉ l -> h' !! a = h !! a.

(** ** Lemmas *)

Lemma filter_all {A} (P : A -> Prop) `{forall x, Decision (P x)} (l : list A) : (forall x, x ∈ l -> P x) -> filter P l = l.
Proof.
  intros HP. induction l as [|x l IH]; [done|]. rewrite filter_cons_True by (apply HP; left). f_equal. apply IH. intros y Hy. apply HP. by right.
Qed.

Lemma insert_child_split v new l1 l2 :
  (forall c, c ∈ l1 -> before v c new) -> (forall c, c ∈ l2 -> before v new c) -> (forall c, c ∈ l1 ++ l2 -> lo v c <= hi v c) ->
  lo v new <= hi v new -> insert_child v new (l1 ++ l2) = l1 ++ new :: l2 /\ filter (overlaps v new) (l1 ++ l2) = [].
Proof.
  unfold before, overlaps, insert_child. intros H1 H2 Hl Hn. split.
  - rewrite !filter_app. rewrite (filter_all _ l1), (filter_none _ l2), (filter_none _ l1), (filter_all _ l2), app_nil_r; [done|..].
    all: intros c Hc; try (by auto); assert (lo v c <= hi v c) by (apply Hl; set_solver); try (specialize (H1 c Hc)); try (specialize (H2 c Hc)); unfold before; lia.
  - apply filter_none. intros c [Hc|Hc]%elem_of_app; [specialize (H1 c Hc)|specialize (H2 c Hc)]; unfold overlaps; lia.
Qed.

Lemma writes_refl l h : writes l h h.
Proof. done. Qed.
Lemma writes_trans l h h1 h2 : writes l h h1 -> writes l h1 h2 -> writes l h h2.
Proof. intros H1 H2 a Ha. rewrite H2, H1; done. Qed.
Lemma writes_mono l l' h h' : (forall a, a ∈ l -> a ∈ l') -> writes l h h' -> writes l' h h'.
Proof. intros Hl H a Ha. apply H. intros Hin. by apply Ha, Hl. Qed.

Lemma well_founded_add {A} (R : A -> A -> Prop) new root :
  well_founded R -> ~ rtc R root new -> well_founded (fun c r => R c r \/ (c = new /\ r = root)).
Proof.
  intros Hwf Hno. assert (Hnew : forall y, rtc R y new -> Acc (fun c r => R c r \/ (c = new /\ r = root)) y).
  { intros y. induction (Hwf y) as [y _ IH]. intros Hy. constructor. intros z [Hz|[_ ->]]; [|done]. apply IH; [done|]. by eapply rtc_l. }
  intros x. induction (Hwf x) as [x _ IH]. constructor. intros y [Hy|[-> _]]; [by apply IH|]. apply Hnew. reflexivity.
Qed.

Lemma set_slot_dat v r l x : dat (set_slot v r l x) = dat v.
Proof. unfold set_slot. by destruct (last l). Qed.
Lemma set_slot_par v r l x : par (set_slot v r l x) = par v.
Proof. unfold set_slot. by destruct (last l). Qed.
Lemma set_slot_chd v r l x a : a <> r -> chd (set_slot v r l x) !! a = chd v !! a.
Proof. intros Ha. unfold set_slot. destruct (last l); [done|]. cbn. by rewrite lookup_insert_ne. Qed.
Lemma set_slot_sib v r l x a : a ∉ l -> sib (set_slot v r l x) !! a = sib v !! a.
Proof.
  intros Ha. unfold set_slot. destruct (last l) as [c|] eqn:Hc; [|done]. cbn. rewrite lookup_insert_ne; [done|]. intros ->.
  apply last_Some in Hc as [l' ->]. set_solver.
Qed.

(** ** Linking a resource into a list *)

Section link.
Context (dead : list Z) (v : view) (kids : Z -> list Z) (root new : Z) (l1 l2 : list Z).
Hypothesis Hwf : wf dead v kids.
Hypothesis Hroot : is_Some (dat v !! root).
Hypothesis Hrootd : root ∉ dead.
Hypothesis Hnew : is_Some (dat v !! new).
Hypothesis Hnewd : new ∉ dead.
Hypothesis Hpar : par v !! new = Some 0.
Hypothesis Hbelow : ~ below kids root new.
Hypothesis Hkids : kids root = l1 ++ l2.
Hypothesis Hin : within v new root.
Hypothesis Hl1 : forall c, c ∈ l1 -> before v c new.
Hypothesis Hl2 : forall c, c ∈ l2 -> before v new c.

Definition linked : view := set_par (set_slot (set_sib v new (hd 0 l2)) root l1 new) new root.

Lemma link_fresh r : new ∉ kids r.
Proof using Hwf Hpar. by apply (unlinked dead v kids Hwf). Qed.

Lemma link_children : children linked root (l1 ++ new :: l2) 0.
Proof using All.
  pose proof (kids_NoDup dead v kids Hwf root) as Hnd. rewrite Hkids in Hnd. apply NoDup_app in Hnd as (Hnd1 & Hdis & Hnd2).
  pose proof (link_fresh root) as Hfr. rewrite Hkids in Hfr. pose proof (wf_kids _ _ _ Hwf root Hroot Hrootd) as Hch. rewrite Hkids, children_app in Hch.
  destruct Hch as [Hch1 Hch2]. assert (Hne : new <> root) by (intros ->; by apply Hbelow).
  assert (Hc1 : children (set_sib v new (hd 0 l2)) root l1 (hd 0 l2)).
  { apply (children_agree v); [done| |exact Hch1]. intros c Hc. cbn. split; [done|]. rewrite lookup_insert_ne; set_solver. }
  apply (children_set_slot _ _ _ _ new) in Hc1; [|done]. apply children_app. cbn [hd]. split; [|cbn; split_and!].
  - unfold linked. eapply (children_agree (set_slot _ _ _ _)); [done| |exact Hc1]. intros c Hc. cbn. split; [|done]. rewrite lookup_insert_ne; [done|]. set_solver.
  - by rewrite lookup_insert_eq.
  - rewrite set_slot_sib by set_solver. cbn. by rewrite lookup_insert_eq.
  - revert Hch2. apply seg_agree. intros c Hc. cbn. assert (new <> c) by set_solver. rewrite lookup_insert_ne by done. rewrite set_slot_par.
    split; [done|]. rewrite set_slot_sib by (intros Hc1'; by apply (Hdis c Hc1')). cbn. by rewrite lookup_insert_ne.
Qed.

Lemma wf_link : wf dead linked (<[root := l1 ++ new :: l2]> kids).
Proof using All.
  pose proof link_children as Hch. pose proof (wf_order _ _ _ Hwf root) as Hord. rewrite Hkids in Hord. apply StronglySorted_app in Hord as (Hx & Ho1 & Ho2).
  assert (Hmem : forall c, c ∈ l1 ++ new :: l2 -> c = new \/ c ∈ kids root) by (intros c; rewrite Hkids; set_solver).
  apply (wf_update dead v _ kids _ [root]); [exact Hwf|..].
  - unfold linked. cbn. by rewrite set_slot_dat.
  - intros r Hr. rewrite fn_lookup_insert_ne; [done|]. set_solver.
  - intros r Hr. unfold linked. cbn. rewrite set_slot_chd; [done|set_solver].
  - intros r c Hr Hc. assert (c <> new) by (intros ->; by apply (link_fresh r)). unfold linked. cbn. rewrite lookup_insert_ne, set_slot_par by done. split; [done|].
    rewrite set_slot_sib; [cbn; by rewrite lookup_insert_ne|]. intros Hc1. assert (root = r); [|set_solver].
    apply (kids_disjoint dead v kids Hwf _ _ c); [|done]. rewrite Hkids. set_solver.
  - intros r ->%list_elem_of_singleton. rewrite fn_lookup_insert. split_and!; [exact Hroot|exact Hrootd|exact Hch|..].
    + apply StronglySorted_app. split_and!; [|done|].
      * intros a b Ha [->|Hb]%elem_of_cons; [by apply Hl1|by apply Hx].
      * apply StronglySorted_cons. split; [|done]. apply Forall_forall. apply Hl2.
    + intros c [->|Hc]%Hmem; [done|]. split; [by apply (wf_within _ _ _ Hwf)|].
      by destruct (wf_live _ _ _ Hwf root c Hc) as (_ & ? & _ & ?).
  - intros r c. unfold linked. cbn. destruct (decide (c = new)) as [->|Hc].
    + rewrite lookup_insert_eq. intros [= <-] _ _. rewrite fn_lookup_insert. set_solver.
    + rewrite lookup_insert_ne, set_slot_par by done. cbn. intros Hp Hd Hr0. pose proof (wf_parent _ _ _ Hwf r c Hp Hd Hr0) as Hck.
      destruct (decide (r = root)) as [->|Hrr]; [|by rewrite fn_lookup_insert_ne]. rewrite fn_lookup_insert. rewrite Hkids in Hck. set_solver.
  - eapply wf_incl; [|apply (well_founded_add _ new root (wf_acyclic _ _ _ Hwf) Hbelow)]. intros c r. cbn.
    destruct (decide (r = root)) as [->|Hrr]; [|rewrite fn_lookup_insert_ne by done; by left]. rewrite fn_lookup_insert. intros [->|Hc]%Hmem; auto.
Qed.
End link.

Lemma lo_shows v a n : shows v a n -> lo v a = start n /\ hi v a = end_ n.
Proof. intros (_ & _ & _ & Hd). unfold lo, hi. by rewrite Hd. Qed.

Lemma kids_some dead v kids r c : wf dead v kids -> c ∈ kids r -> is_Some (dat v !! c).
Proof. intros Hwf Hc. by apply (wf_live _ _ _ Hwf r c). Qed.

(** ** [__request_resource] *)

(** The parent of the new resource is not read, it may hold anything. *)
Section request.
Context (dead : list Z) (h : rheap) (kids : Z -> list Z) (root new : Z).
Abbreviation v := (view_of h).
Hypothesis Hwf : wf dead (set_par v new 0) kids.
Hypothesis Hroot : is_Some (dat v !! root).
Hypothesis Hrootd : root ∉ dead.
Hypothesis Hnew : is_Some (dat v !! new).
Hypothesis Hnewd : new ∉ dead.
Hypothesis Hbelow : ~ below kids root new.

(** The conflict is reported and nothing is written, or the resource is in its
    place. *)
Definition requested (c : Z) (h' : rheap) : Prop :=
  c = conflict_of v kids root new /\
  if decide (c = 0) then
    wf dead (view_of h') (<[root := insert_child v new (kids root)]> kids) /\ dat (view_of h') = dat v /\
    par (view_of h') = <[new := root]> (par v) /\ writes (root :: new :: kids root) h h'
  else h' = h.

Lemma request_children l1 l2 : kids root = l1 ++ l2 -> children v root l1 (hd 0 l2).
Proof using All.
  intros Hkids. pose proof (wf_kids _ _ _ Hwf root Hroot Hrootd) as Hch. rewrite Hkids, children_app in Hch. destruct Hch as [Hch _].
  eapply (children_agree (set_par v new 0)); [done| |exact Hch]. intros c Hc. cbn. split; [|done]. rewrite lookup_insert_ne; [done|]. intros <-.
  apply (unlinked dead (set_par v new 0) kids Hwf root new); [cbn; by rewrite lookup_insert_eq|]. rewrite Hkids. set_solver.
Qed.

Lemma linked_set_par (w : view) r a l1 l2 x : linked (set_par w a x) r a l1 l2 = linked w r a l1 l2.
Proof. unfold linked, set_par, set_slot. destruct (last l1); cbn; by rewrite insert_insert_eq. Qed.

(** The writes that link the resource. *)
Lemma link_ok l1 l2 :
  kids root = l1 ++ l2 -> within v new root -> (forall c, c ∈ l1 -> before v c new) -> (forall c, c ∈ l2 -> before v new c) ->
  wp (update new (fun n => with_sibling n (hd 0 l2));; slot_store (slot_of root l1) new;; update new (fun n => with_parent n root);; mret (inr 0))
    (fun (o : slot + Z) h' => o = inr 0 /\ requested 0 h') h.
Proof using All.
  intros Hkids Hin Hl1 Hl2. assert (Hne : new <> root) by (intros ->; by apply Hbelow).
  apply wp_bind, wp_set_sib; [done|]. intros h1 Hv1. apply wp_bind. apply slot_store_ok.
  { by rewrite Hv1. } { intros c Hc. rewrite Hv1. apply (kids_some _ _ _ root c Hwf). rewrite Hkids. set_solver. }
  intros h2 Hv2. apply wp_bind, wp_set_par; [by rewrite Hv2, set_slot_dat, Hv1|]. intros h3 Hv3. apply wp_ret. split; [done|].
  rewrite Hv2, Hv1 in Hv3. change (view_of h3 = linked v root new l1 l2) in Hv3.
  pose proof (wf_link dead (set_par v new 0) kids root new l1 l2 Hwf Hroot Hrootd Hnew Hnewd (lookup_insert_eq _ _ _) Hbelow Hkids Hin Hl1 Hl2) as Hwf'.
  rewrite linked_set_par in Hwf'.
  destruct (insert_child_split v new l1 l2) as [Hins Hno]; [done|done| |apply Hin|].
  { intros c. rewrite <- Hkids. intros Hc. apply (wf_within _ _ _ Hwf root c Hc). }
  split; [unfold conflict_of; by rewrite decide_True, Hkids, Hno|]. rewrite decide_True, Hv3, Hkids, Hins by done. split_and!; [done| | |].
  - unfold linked. cbn. by rewrite set_slot_dat.
  - unfold linked. cbn. by rewrite set_slot_par.
  - intros a Ha. assert (a <> root /\ a <> new /\ a ∉ l1) as (H1 & H2 & H3) by set_solver. apply view_eq_at; rewrite Hv3; unfold linked; cbn.
    + by rewrite lookup_insert_ne, set_slot_par.
    + rewrite set_slot_sib by done. cbn. by rewrite lookup_insert_ne.
    + by rewrite set_slot_chd.
    + by rewrite set_slot_dat.
Qed.

(** The children [l1] have been passed. *)
Definition request_inv (n : nat) (p : slot) (h' : rheap) : Prop :=
  exists l1 l2, kids root = l1 ++ l2 /\ p = slot_of root l1 /\ n = length l2 /\ h' = h /\ forall c, c ∈ l1 -> before v c new.

Lemma request_step_ok n p h' : request_inv n p h' -> within v new root ->
  wp (request_step (lo v new) (hi v new) root new p)
    (fun o h' => match o with inl p' => exists n', (n' < n)%nat /\ request_inv n' p' h' | inr c => requested c h' end) h'.
Proof using All.
  intros (l1 & l2 & Hkids & -> & -> & -> & Hl1) Hin. unfold request_step. apply wp_bind.
  assert (Hsome : forall c, c ∈ l1 ++ l2 -> is_Some (dat v !! c)) by (intros c; rewrite <- Hkids; intros Hc; by apply (kids_some _ _ _ root c Hwf)).
  assert (Hle : forall c, c ∈ l1 ++ l2 -> lo v c <= hi v c) by (intros c; rewrite <- Hkids; intros Hc; apply (wf_within _ _ _ Hwf root c Hc)).
  eapply wp_mono; [apply slot_load_ok; [done| |by apply request_children]; intros c Hc; apply Hsome; set_solver|]. intros tmp h' [-> ->].
  assert (Hlink : (forall c, c ∈ l2 -> before v new c) -> wp (update new (fun n => with_sibling n (hd 0 l2));; slot_store (slot_of root l1) new;; update new (fun n => with_parent n root);; mret (inr 0))
    (fun (o : slot + Z) h' => match o with inl p' => exists n', (n' < length l2)%nat /\ request_inv n' p' h' | inr c => requested c h' end) h).
  { intros Hl2. eapply wp_mono; [by apply link_ok|]. by intros o h' [-> ?]. }
  destruct l2 as [|c l2]; cbn [hd].
  { rewrite Z.eqb_refl. apply wp_bind, wp_ret. apply Hlink. set_solver. }
  assert (Hc : c ∈ kids root) by (rewrite Hkids; set_solver). destruct (kids_nonnull _ _ _ Hwf root c Hc) as [_ Hc0].
  rewrite (proj2 (Z.eqb_neq c 0)) by done. apply wp_bind, wp_bind, wp_rload; [apply Hsome; set_solver|]. intros nc Hsh. apply wp_ret.
  destruct (lo_shows v c nc Hsh) as [Elo Ehi]. rewrite <- Elo. destruct (Z.gtb_spec (lo v c) (hi v new)) as [Hgt|Hngt].
  { apply Hlink. intros x [->|Hx]%elem_of_cons; [unfold before; lia|]. pose proof (wf_order _ _ _ Hwf root) as Ho. rewrite Hkids in Ho.
    apply StronglySorted_app_1_r, StronglySorted_cons in Ho as [Ho _]. rewrite Forall_forall in Ho. specialize (Ho x Hx).
    specialize (Hle c ltac:(set_solver)). unfold before in *. change (lo (set_par v new 0) x) with (lo v x) in Ho.
    change (hi (set_par v new 0) c) with (hi v c) in Ho. lia. }
  apply wp_bind, wp_rload; [apply Hsome; set_solver|]. intros nc' Hsh'. destruct (lo_shows v c nc' Hsh') as [_ Ehi']. rewrite <- Ehi'. apply wp_ret.
  destruct (Z.ltb_spec (hi v c) (lo v new)) as [Hlt|Hge].
  - exists (length l2). split; [cbn; lia|]. exists (l1 ++ [c]), l2. rewrite <- app_assoc. split_and!; try done.
    + unfold slot_of. by rewrite last_snoc.
    + intros x [Hx| ->%list_elem_of_singleton]%elem_of_app; [by apply Hl1|done].
  - split; [|by rewrite decide_False]. unfold conflict_of. rewrite decide_True, Hkids, filter_app by done.
    rewrite (filter_none _ l1); [rewrite filter_cons_True; [done|unfold overlaps; lia]|].
    intros x Hx. specialize (Hl1 x Hx). unfold before, overlaps in *. lia.
Qed.

Lemma request_ok : wp (__request_resource root new) requested h.
Proof using All.
  unfold __request_resource. apply wp_bind, wp_rload; [done|]. intros n Hn. destruct (lo_shows v new n Hn) as [E1 E2]. rewrite <- E1, <- E2. clear E1 E2.
  apply wp_bind, wp_rload; [done|]. intros r Hr. destruct (lo_shows v root r Hr) as [E1 E2]. rewrite <- E1, <- E2. clear E1 E2.
  assert (Hr0 : root <> 0) by (intros ->; pose proof (wf_null _ _ _ Hwf) as H0; cbn in H0; rewrite H0 in Hroot; by destruct Hroot).
  assert (Hbad : ~ within v new root -> wp (mret root) requested h).
  { intros Hno. apply wp_ret. split; [unfold conflict_of; by rewrite decide_False|by rewrite decide_False]. }
  destruct (Z.ltb_spec (hi v new) (lo v new)); [apply Hbad; unfold within; lia|]. destruct (Z.ltb_spec (lo v new) (lo v root)); [apply Hbad; unfold within; lia|].
  destruct (Z.gtb_spec (hi v new) (hi v root)); [apply Hbad; unfold within; lia|]. unfold while_.
  eapply (st_loop_ok request_inv) with (n := length (kids root)).
  - intros k p h' Hinv. eapply wp_mono; [apply request_step_ok; [exact Hinv|unfold within; lia]|]. by intros [p'|c] h2.
  - pose proof (kids_length dead _ kids root Hwf) as Hlen. cbn in Hlen. rewrite view_size in Hlen. lia.
  - exists [], (kids root). split_and!; try done. intros c Hc. by apply elem_of_nil in Hc.
Qed.
End request.

(** ** Unlinking *)

Definition remove_child (old : Z) (l : list Z) : list Z := filter (fun c => c <> old) l.

Lemma remove_child_split old l1 l2 : NoDup (l1 ++ old :: l2) -> remove_child old (l1 ++ old :: l2) = l1 ++ l2.
Proof.
  intros (_ & Hd & [Hn _]%NoDup_cons)%NoDup_app. unfold remove_child. rewrite filter_app, filter_cons_False by naive_solver.
  rewrite !filter_all; [done|set_solver|set_solver].
Qed.

Section unlink.
Context (dead : list Z) (v : view) (kids : Z -> list Z) (root old : Z) (l1 l2 : list Z).
Hypothesis Hwf : wf dead v kids.
Hypothesis Hkids : kids root = l1 ++ old :: l2.

Lemma unlink_live : is_Some (dat v !! root) /\ (root ∉ dead) /\ is_Some (dat v !! old) /\ (old ∉ dead) /\ old <> root /\ NoDup (l1 ++ old :: l2).
Proof using All.
  assert (Hold : old ∈ kids root) by (rewrite Hkids; set_solver). destruct (wf_live _ _ _ Hwf root old Hold) as (? & ? & ? & ?).
  split_and!; try done; [|rewrite <- Hkids; by eapply kids_NoDup]. intros ->. by eapply acyclic.
Qed.

Lemma unlink_children v' : chd v' = chd (set_slot v root l1 (hd 0 l2)) -> sib v' = sib (set_slot v root l1 (hd 0 l2)) ->
  (forall c, c <> old -> par v' !! c = par v !! c) -> children v' root (l1 ++ l2) 0.
Proof using All.
  intros Hc Hs Hp. destruct unlink_live as (Hr & Hrd & _ & _ & _ & Hnd). pose proof (wf_kids _ _ _ Hwf root Hr Hrd) as Hch. rewrite Hkids, children_app in Hch.
  destruct Hch as [Hch1 (_ & _ & Hch2)]. apply NoDup_app in Hnd as (Hnd1 & Hdis & [Hold _]%NoDup_cons).
  apply (children_set_slot _ _ _ _ (hd 0 l2)) in Hch1; [|done]. apply children_app. split.
  - eapply children_agree; [by rewrite Hc| |exact Hch1]. intros c Hcl. rewrite Hs, set_slot_par. split; [|done]. apply Hp. intros ->. by apply (Hdis old Hcl); left.
  - revert Hch2. apply seg_agree. intros c Hcl. rewrite Hs, set_slot_sib by (intros Hc1; apply (Hdis c Hc1); by right). split; [|done].
    apply Hp. by intros ->.
Qed.

(** The parent of the removed resource is reset. *)
Lemma wf_unlink : wf dead (set_par (set_slot v root l1 (hd 0 l2)) old 0) (<[root := l1 ++ l2]> kids).
Proof using All.
  destruct unlink_live as (Hr & Hrd & Ho & Hod & Hne & Hnd).
  assert (Hsub : forall c, c ∈ l1 ++ l2 -> c ∈ kids root) by (intros c; rewrite Hkids; set_solver).
  apply (wf_update dead v _ kids _ [root]); [exact Hwf|..].
  - cbn. by rewrite set_slot_dat.
  - intros r Hrr. rewrite fn_lookup_insert_ne; [done|]. set_solver.
  - intros r Hrr. cbn. rewrite set_slot_chd; [done|set_solver].
  - intros r c Hrr Hc. assert (Hcr : c ∉ kids root) by (intros Hc'; pose proof (kids_disjoint _ _ _ Hwf _ _ _ Hc Hc'); set_solver).
    rewrite Hkids in Hcr. cbn. rewrite lookup_insert_ne, set_slot_par by set_solver. split; [done|]. rewrite set_slot_sib; [done|set_solver].
  - intros r ->%list_elem_of_singleton. rewrite fn_lookup_insert. split_and!; [done|done|..].
    + apply unlink_children; [done|done|]. intros c Hc. cbn. by rewrite lookup_insert_ne, set_slot_par.
    + pose proof (wf_order _ _ _ Hwf root) as Hord. rewrite Hkids in Hord. apply StronglySorted_app in Hord as (Hx & Ho1 & [_ Ho2]%StronglySorted_cons).
      apply StronglySorted_app. split_and!; [|done|done]. intros a b Ha Hb. apply Hx; [done|by right].
    + intros c Hc%Hsub. split; [by apply (wf_within _ _ _ Hwf)|]. by destruct (wf_live _ _ _ Hwf root c Hc) as (_ & ? & _ & ?).
  - intros r c. cbn. destruct (decide (c = old)) as [->|Hc]; [rewrite lookup_insert_eq; by intros [= <-]|].
    rewrite lookup_insert_ne, set_slot_par by done. intros Hp Hd Hr0. pose proof (wf_parent _ _ _ Hwf r c Hp Hd Hr0) as Hck.
    destruct (decide (r = root)) as [->|Hrr]; [|by rewrite fn_lookup_insert_ne]. rewrite fn_lookup_insert. rewrite Hkids in Hck. set_solver.
  - eapply wf_incl; [|exact (wf_acyclic _ _ _ Hwf)]. intros c r.
    destruct (decide (r = root)) as [->|Hrr]; [|by rewrite fn_lookup_insert_ne]. rewrite fn_lookup_insert. apply Hsub.
Qed.
End unlink.

(** ** [__release_resource] *)

Section release.
Context (dead : list Z) (h : rheap) (kids : Z -> list Z) (root old : Z).
Abbreviation v := (view_of h).
Hypothesis Hwf : wf dead v kids.
Hypothesis Hold : old ∈ kids root.

Definition released (ret : Z) (h' : rheap) : Prop :=
  ret = 0 /\ wf dead (view_of h') (<[root := remove_child old (kids root)]> kids) /\ dat (view_of h') = dat v /\
  par (view_of h') = <[old := 0]> (par v) /\ writes (root :: kids root) h h'.

Definition release_inv (n : nat) (p : slot) (h' : rheap) : Prop :=
  exists l1 l2, kids root = l1 ++ l2 /\ p = slot_of root l1 /\ n = length l2 /\ h' = h /\ old ∈ l2.

Lemma release_here l1 l2 : kids root = l1 ++ old :: l2 ->
  wp (slot_store (slot_of root l1) (hd 0 l2);; update old (fun n => with_parent n 0);; mret (inr 0))
    (fun (o : slot + Z) h' => o = inr 0 /\ released 0 h') h.
Proof using All.
  intros Hkids. destruct (unlink_live dead v kids root old l1 l2 Hwf Hkids) as (Hr & Hrd & Ho & Hod & Hne & Hnd).
  apply wp_bind, slot_store_ok; [done| |].
  { intros c Hc. apply (wf_live _ _ _ Hwf root c). rewrite Hkids. set_solver. }
  intros h1 Hv1. apply wp_bind, wp_set_par; [by rewrite Hv1, set_slot_dat|]. intros h2 Hv2. apply wp_ret. split; [done|]. rewrite Hv1 in Hv2.
  split; [done|]. rewrite Hkids, remove_child_split by done. rewrite Hv2. split_and!; [by apply wf_unlink| | |]; cbn.
  - by rewrite set_slot_dat.
  - by rewrite set_slot_par.
  - intros a Ha. assert (a <> root /\ a <> old /\ a ∉ l1) as (H1 & H2 & H3) by set_solver.
    apply view_eq_at; rewrite Hv2; cbn; [by rewrite lookup_insert_ne, set_slot_par|by rewrite set_slot_sib|by rewrite set_slot_chd|by rewrite set_slot_dat].
Qed.

Lemma release_step_ok n p h' : release_inv n p h' ->
  wp (release_step old p)
    (fun o h' => match o with inl p' => exists n', (n' < n)%nat /\ release_inv n' p' h' | inr c => released c h' end) h'.
Proof using All.
  intros (l1 & l2 & Hkids & -> & -> & -> & Hin). unfold release_step.
  assert (Hsome : forall c, c ∈ l1 ++ l2 -> is_Some (dat v !! c)) by (intros c; rewrite <- Hkids; intros Hc; apply (wf_live _ _ _ Hwf root c Hc)).
  destruct (wf_live _ _ _ Hwf root old Hold) as (Hr & _ & Hrd & _).
  pose proof (wf_kids _ _ _ Hwf root Hr Hrd) as Hch. rewrite Hkids, children_app in Hch. destruct Hch as [Hch Hseg].
  apply wp_bind. eapply wp_mono; [apply slot_load_ok; [done| |exact Hch]; intros c Hc; apply Hsome; set_solver|]. intros tmp h' [-> ->].
  destruct l2 as [|c l2]; [by apply elem_of_nil in Hin|]. cbn [hd]. assert (Hc : c ∈ kids root) by (rewrite Hkids; set_solver).
  destruct (kids_nonnull _ _ _ Hwf root c Hc) as [_ Hc0]. rewrite (proj2 (Z.eqb_neq c 0)) by done. destruct (Z.eqb_spec c old) as [->|Hne].
  - apply wp_bind, wp_rload; [apply Hsome; set_solver|]. intros n (_ & Hn & _). destruct Hseg as (_ & Hs & _). assert (sibling n = hd 0 l2) as -> by congruence.
    eapply wp_mono; [by apply release_here|]. by intros o h' [-> ?].
  - apply wp_ret. exists (length l2). split; [cbn; lia|]. exists (l1 ++ [c]), l2. rewrite <- app_assoc. split_and!; try done.
    + unfold slot_of. by rewrite last_snoc.
    + by apply elem_of_cons in Hin as [->|].
Qed.

Lemma release_resource_ok : wp (__release_resource old) released h.
Proof using All.
  destruct (wf_live _ _ _ Hwf root old Hold) as (Hr & Ho & Hrd & _). unfold __release_resource. apply wp_bind, wp_rload; [done|]. intros o (Hp & _).
  pose proof (kids_parent _ _ _ Hwf root old Hold) as Hp'. assert (parent o = root) as -> by congruence. unfold while_.
  eapply (st_loop_ok release_inv) with (n := length (kids root)).
  - intros k p h' Hinv. eapply wp_mono; [apply release_step_ok; exact Hinv|]. by intros [p'|c] h2.
  - pose proof (kids_length dead v kids root Hwf). rewrite view_size in *. lia.
  - by exists [], (kids root).
Qed.
End release.

(** ** Loops over siblings *)

Fixpoint scan {R} (f : Z -> option R) (fin : R) (l : list Z) : R :=
  match l with [] => fin | c :: l => match f c with Some x => x | None => scan f fin l end end.

Lemma scan_ok {R} (body : Z -> RES (Z + R)) (f : Z -> option R) (fin : R) h r l fuel :
  (forall c, c ∈ l -> is_Some (dat (view_of h) !! c)) -> seg (view_of h) r l 0 -> body 0 h = Ok (inr fin, h) ->
  (forall c n, c ∈ l -> shows (view_of h) c n ->
    wp (body c) (fun o h' => h' = h /\ o = match f c with Some x => inr x | None => inl (sibling n) end) h) ->
  (length l < fuel)%nat -> st_loop fuel body (hd 0 l) h = Ok (scan f fin l, h).
Proof.
  intros Hl Hs H0 Hb. revert fuel. induction l as [|c l IH]; intros fuel Hf; (destruct fuel as [|fuel]; [cbn in Hf; lia|]); unfold st_loop in *; cbn [loop hd scan].
  - by rewrite H0.
  - destruct (proj1 (view_is_some h c) (Hl c ltac:(left))) as [n Hn]. apply view_some in Hn. destruct (Hb c n ltac:(left) Hn) as (o & h' & Hbc & -> & ->). rewrite Hbc.
    destruct (f c) as [x|]; [done|]. destruct Hs as (_ & Hsib & Hs), Hn as (_ & Hn & _). assert (sibling n = hd 0 l) as -> by congruence.
    apply IH; [set_solver|done|set_solver|cbn in Hf; lia].
Qed.

(** The last of [l], which [first] follows. *)
Lemma before_ok h r l first fuel :
  seg (view_of h) r l first -> (forall c, c ∈ l -> is_Some (dat (view_of h) !! c)) -> first ∉ l -> l <> [] -> (length l < fuel)%nat ->
  exists x, last l = Some x /\ st_loop fuel (before_step first) (hd 0 l) h = Ok (x, h).
Proof.
  revert fuel. induction l as [|c l IH]; intros fuel Hs Hl Hf Hne Hfuel; [done|]. destruct fuel as [|fuel]; [cbn in Hfuel; lia|]. unfold st_loop in *. cbn [loop hd].
  destruct (proj1 (view_is_some h c) (Hl c ltac:(left))) as [n Hn]. unfold before_step at 1. unfold mbind, st_bind at 1. unfold load. rewrite Hn.
  apply view_some in Hn as (_ & Hn & _). destruct Hs as (_ & Hsib & Hs). rewrite Hsib in Hn. injection Hn as Hn. rewrite <- Hn.
  destruct l as [|c' l]; cbn [hd].
  - rewrite Z.eqb_refl. exists c. done.
  - rewrite (proj2 (Z.eqb_neq c' first)) by set_solver. cbn [negb]. rewrite last_cons_cons. apply IH; [done|set_solver|set_solver|done|cbn in *; lia].
Qed.

(** ** [__adjust_resource] *)

(** The new range stays between the neighbours and inside the parent. *)
Definition neighbours_leave (v : view) (kids : Z -> list Z) (res s e : Z) : Prop :=
  forall p, res ∈ kids p -> lo v p <= s /\ e <= hi v p /\ (forall c, c ∈ kids p -> before v c res -> hi v c < s) /\
    (forall c, c ∈ kids p -> before v res c -> e < lo v c).
Definition adjust_fits (v : view) (kids : Z -> list Z) (res s e : Z) : Prop :=
  neighbours_leave v kids res s e /\ forall c, c ∈ kids res -> s <= lo v c /\ hi v c <= e.

Lemma StronglySorted_mono {A} (R R' : A -> A -> Prop) (l : list A) :
  StronglySorted R l -> (forall a b, a ∈ l -> b ∈ l -> R a b -> R' a b) -> StronglySorted R' l.
Proof.
  induction 1 as [|a l Hs IH Ha]; intros HR; constructor.
  - apply IH. intros x y Hx Hy. apply HR; by right.
  - rewrite Forall_forall in *. intros x Hx. apply HR; [left|by right|by apply Ha].
Qed.

(** A forest whose links stay and one of whose ranges changes. *)
Lemma wf_set_range dead v kids res x s e :
  wf dead v kids -> dat v !! res = Some x -> adjust_fits v kids res s e -> 0 <= s < 2 ^ 64 -> 0 <= e < 2 ^ 64 ->
  (forall p, res ∈ kids p -> s <= e) -> wf dead (set_dat v res (mkData s e (d_name x) (d_flags x))) kids.
Proof.
  intros Hwf Hx [Hfit Hkids] Hs He Hse. pose proof Hwf as [H1 H2 H3 H4 H5 H6 H7 H8]. set (v' := set_dat _ _ _).
  assert (Hlo : forall c, lo v' c = if decide (c = res) then s else lo v c).
  { intros c. unfold lo, v'. cbn. destruct (decide (c = res)) as [->|Hne]; [by rewrite lookup_insert_eq|by rewrite lookup_insert_ne]. }
  assert (Hhi : forall c, hi v' c = if decide (c = res) then e else hi v c).
  { intros c. unfold hi, v'. cbn. destruct (decide (c = res)) as [->|Hne]; [by rewrite lookup_insert_eq|by rewrite lookup_insert_ne]. }
  assert (Hsome : forall c, is_Some (dat v' !! c) <-> is_Some (dat v !! c)).
  { intros c. unfold v'. cbn. destruct (decide (c = res)) as [->|Hne]; [rewrite lookup_insert_eq, Hx; split; eauto|by rewrite lookup_insert_ne]. }
  constructor.
  - unfold v'. cbn. rewrite lookup_insert_ne; [done|]. intros ->. congruence.
  - intros a y. unfold v'. cbn. destruct (decide (a = res)) as [->|Hne]; [rewrite lookup_insert_eq; intros [= <-]; done|rewrite lookup_insert_ne by done; apply H2].
  - intros r Hr Hd. apply (children_agree v); [done|done|]. apply H3; [by apply Hsome|done].
  - intros r. eapply StronglySorted_mono; [apply H4|]. intros a b Ha Hb Hab. unfold before. rewrite Hlo, Hhi.
    destruct (decide (a = res)) as [->|], (decide (b = res)) as [->|].
    + exfalso. pose proof (H5 r res Ha). unfold before, within in *. lia.
    + by apply (Hfit r).
    + by apply (Hfit r).
    + done.
  - intros r c Hc. pose proof (H5 r c Hc) as Hw. unfold within in *. rewrite !Hlo, !Hhi.
    destruct (decide (c = res)) as [->|], (decide (r = res)) as [->|]; try lia.
    + specialize (Hse res Hc). lia.
    + specialize (Hfit r Hc). specialize (Hse r Hc). lia.
    + specialize (Hkids c Hc). lia.
  - intros r c Hc. rewrite !Hsome. by apply H6.
  - exact H7.
  - exact H8.
Qed.

Section adjust.
Context (dead : list Z) (h : rheap) (kids : Z -> list Z) (res s e : Z).
Abbreviation v := (view_of h).
Hypothesis Hwf : wf dead v kids.
Hypothesis Hres : is_Some (dat v !! res).
Hypothesis Hresd : res ∉ dead.

Lemma neighbours_split p l1 l2 : kids p = l1 ++ res :: l2 -> s <= e ->
  (neighbours_leave v kids res s e <->
   lo v p <= s /\ e <= hi v p /\ (forall c, last l1 = Some c -> hi v c < s) /\ (forall c, head l2 = Some c -> e < lo v c)).
Proof using All.
  intros Hkids Hse. pose proof (wf_order _ _ _ Hwf p) as Ho. rewrite Hkids in Ho. apply StronglySorted_app in Ho as (Hx & Ho1 & [Hy Ho2]%StronglySorted_cons).
  assert (Hin : res ∈ kids p) by (rewrite Hkids; set_solver). rewrite Forall_forall in Hy.
  assert (Hle : forall c, c ∈ kids p -> lo v c <= hi v c) by (intros c Hc; apply (wf_within _ _ _ Hwf p c Hc)). split.
  - intros Hn. destruct (Hn p Hin) as (H1 & H2 & H3 & H4). split_and!; [done|done| |].
    + intros c Hc. apply last_Some in Hc as [l ->]. apply H3; [rewrite Hkids; set_solver|]. apply Hx; set_solver.
    + intros c Hc. destruct l2 as [|c' l2]; [done|]. injection Hc as ->. apply H4; [rewrite Hkids; set_solver|]. apply Hy. left.
  - intros (H1 & H2 & H3 & H4) p' Hp'. assert (p' = p) as -> by (eapply kids_disjoint; eauto). split_and!; [done|done| |]; intros c Hc Hb; pose proof (Hle c Hc) as Hlc; pose proof (Hle res Hin) as Hlr; rewrite Hkids in Hc; unfold before in *.
    + apply elem_of_app in Hc as [Hc|[->|Hc]%elem_of_cons]; [|lia|specialize (Hy c Hc); lia].
      destruct l1 as [|z l1 _] using rev_ind; [by apply elem_of_nil in Hc|]. specialize (H3 z ltac:(by rewrite last_snoc)).
      apply elem_of_app in Hc as [Hc| ->%list_elem_of_singleton]; [|done]. apply StronglySorted_app in Ho1 as (Ho1 & _). specialize (Ho1 c z Hc ltac:(left)).
      pose proof (Hle z ltac:(rewrite Hkids; set_solver)). lia.
    + apply elem_of_app in Hc as [Hc|[->|Hc]%elem_of_cons]; [specialize (Hx c res Hc ltac:(left)); lia|lia|].
      destruct l2 as [|z l2]; [by apply elem_of_nil in Hc|]. specialize (H4 z eq_refl). apply elem_of_cons in Hc as [->|Hc]; [done|].
      apply StronglySorted_cons in Ho2 as [Ho2 _]. rewrite Forall_forall in Ho2. specialize (Ho2 c Hc). pose proof (Hle z ltac:(rewrite Hkids; set_solver)). lia.
Qed.

Lemma neighbours_fit_ok : s <= e -> wp (neighbours_fit res s e) (fun b h' => h' = h /\ (b = true <-> neighbours_leave v kids res s e)) h.
Proof using All.
  intros Hse. unfold neighbours_fit. apply wp_bind, wp_rload; [done|]. intros n Hsh. pose proof Hsh as (Hp & Hsib & _). destruct (Z.eqb_spec (parent n) 0) as [H0|H0].
  { apply wp_ret. split; [done|]. split; [|done]. intros _ p Hin. exfalso. eapply (unlinked dead v kids Hwf p res); [congruence|done]. }
  pose proof (wf_parent _ _ _ Hwf (parent n) res Hp Hresd H0) as Hin. set (p := parent n) in *. clearbody p.
  destruct (wf_live _ _ _ Hwf p res Hin) as (Hpl & _ & Hpd & _). pose proof (kids_NoDup _ _ _ Hwf p) as Hnd.
  apply list_elem_of_split in Hin as (l1 & l2 & Hkids). pose proof (neighbours_split p l1 l2 Hkids Hse) as Hsplit. rewrite Hkids in Hnd.
  assert (Hsome : forall c, c ∈ l1 ++ res :: l2 -> is_Some (dat v !! c)) by (intros c; rewrite <- Hkids; intros Hck; by apply (kids_some _ _ _ _ _ Hwf Hck)).
  pose proof (wf_kids _ _ _ Hwf p Hpl Hpd) as [Hch Hseg]. rewrite Hkids in Hch, Hseg. pose proof Hseg as Hseg'. apply seg_app in Hseg' as (_ & _ & Hs2 & _).
  assert (sibling n = hd 0 l2) as -> by congruence.
  apply (wp_mono _ (fun b h' => h' = h /\ (b = true <-> lo v p <= s /\ e <= hi v p /\ (forall c, last l1 = Some c -> hi v c < s) /\
    forall c, head l2 = Some c -> e < lo v c))); [|intros b h' [-> Hb]; by rewrite Hsplit]. clear Hsplit.
  apply wp_bind, wp_rload; [done|]. intros np Hnp. pose proof (lo_shows v p np Hnp) as [E1 E2]. rewrite <- E1, <- E2.
  destruct (Z.ltb_spec s (lo v p)); cbn [orb]; [apply wp_ret; split; [done|]; split; [done|lia]|].
  destruct (Z.gtb_spec e (hi v p)); [apply wp_ret; split; [done|]; split; [done|lia]|].
  apply wp_bind. apply (wp_mono _ (fun b h' => h' = h /\ (b = true <-> forall c, head l2 = Some c -> e < lo v c))).
  { destruct l2 as [|c l2]; [rewrite Z.eqb_refl; apply wp_ret; by split|]. cbn [hd]. assert (Hc : c ∈ kids p) by (rewrite Hkids; set_solver).
    destruct (kids_nonnull _ _ _ Hwf p c Hc) as [_ Hc0]. rewrite (proj2 (Z.eqb_neq c 0)) by done. apply wp_bind, wp_rload; [apply Hsome; set_solver|].
    intros nc Hnc. pose proof (lo_shows v c nc Hnc) as [E3 _]. rewrite <- E3. apply wp_ret. split; [done|]. rewrite negb_true_iff, Z.leb_gt. cbn. naive_solver. }
  intros b h' [-> Hb]. destruct b; cbn [negb]; [|apply wp_ret; split; [done|]; split; [done|]; intros (_ & _ & _ & Hx); apply Hb in Hx; done].
  assert (Hnext : forall c, head l2 = Some c -> e < lo v c) by (by apply Hb). clear Hb.
  destruct Hnp as (_ & _ & Hnp & _). assert (child np = hd res l1) as Hcn by (destruct l1; cbn in *; congruence). rewrite Hcn.
  destruct l1 as [|c l1]; cbn [hd].
  { rewrite Z.eqb_refl. apply wp_ret. split; [done|]. split; [|done]. intros _. split_and!; [lia|lia|done|done]. }
  apply NoDup_app in Hnd as (_ & Hdis & _). rewrite (proj2 (Z.eqb_neq c res)) by (intros ->; apply (Hdis res); left).
  apply seg_app in Hseg as [Hseg _]. destruct (before_ok h p (c :: l1) res (S (size h)) Hseg) as (x & Hlast & Hloop).
  { intros a Ha. apply Hsome. set_solver. } { intros Hr. apply (Hdis res Hr). left. } { done. }
  { pose proof (kids_length dead v kids p Hwf) as Hlen. rewrite Hkids, length_app, view_size in Hlen. cbn in *. lia. }
  apply wp_bind. exists x, h. split; [exact Hloop|]. apply last_Some in Hlast as [lx Hlx]. apply wp_bind, wp_rload; [apply Hsome; rewrite Hlx; set_solver|].
  intros nx Hnx. pose proof (lo_shows v x nx Hnx) as [_ E4]. rewrite <- E4. apply wp_ret. split; [done|]. rewrite negb_true_iff, Z.leb_gt, Hlx, last_snoc. naive_solver lia.
Qed.

Lemma children_fit_ok : wp (n ← load res; while_ (children_fit s e) (child n)) (fun b h' => h' = h /\ (b = true <-> forall c, c ∈ kids res -> s <= lo v c /\ hi v c <= e)) h.
Proof using All.
  apply wp_bind, wp_rload; [done|]. intros n (_ & _ & Hc & _). destruct (wf_kids _ _ _ Hwf res Hres Hresd) as [Hc' Hseg]. assert (child n = hd 0 (kids res)) as -> by congruence.
  eexists _, h. split; [unfold while_; apply (scan_ok _ (fun c => if (lo v c <? s) || (hi v c >? e) then Some false else None) true h res (kids res)); [intros c; apply (kids_some _ _ _ _ c Hwf)|done|done| |]|].
  - intros c nc Hck Hsh. unfold children_fit. destruct (kids_nonnull _ _ _ Hwf res c Hck) as [_ Hc0]. rewrite (proj2 (Z.eqb_neq c 0)) by done.
    apply wp_bind, wp_rload; [by eapply (kids_some dead)|]. intros nc' Hsh'. destruct (lo_shows v c nc' Hsh') as [-> ->]. apply wp_ret. split; [done|].
    destruct Hsh as (_ & Hs1 & _), Hsh' as (_ & Hs2 & _). assert (sibling nc' = sibling nc) as -> by congruence. by destruct (_ || _).
  - pose proof (kids_length dead v kids res Hwf). rewrite view_size in *. lia.
  - split; [done|]. clear. induction (kids res) as [|c l IH]; cbn; [set_solver|]. destruct (Z.ltb_spec (lo v c) s), (Z.gtb_spec (hi v c) e); cbn [orb].
    4: rewrite IH; set_solver by lia. all: split; [done|]. all: intros Hx; specialize (Hx c ltac:(left)); lia.
Qed.
End adjust.

Lemma adjust_ok dead h kids res s sz x (v := view_of h) (e := s + sz - 1) :
  wf dead v kids -> dat v !! res = Some x -> res ∉ dead -> 0 <= s -> 0 < sz -> s + sz <= 2 ^ 64 ->
  wp (__adjust_resource res s sz) (fun ret h' =>
    (ret = 0 /\ adjust_fits v kids res s e /\ view_of h' = set_dat v res (mkData s e (d_name x) (d_flags x)) /\ wf dead (view_of h') kids) \/
    (ret = - EBUSY /\ ~ adjust_fits v kids res s e /\ h' = h)) h.
Proof.
  intros Hwf Hx Hd Hs Hsz Hmax. unfold __adjust_resource. assert (s ⊕ sz ⊖ 1 = e) as ->.
  { unfold add64, sub64, u64, e. rewrite Zminus_mod_idemp_l. apply Z.mod_small. lia. }
  assert (Hres : is_Some (dat v !! res)) by eauto. apply wp_bind. eapply wp_mono; [apply (neighbours_fit_ok dead h kids res s e Hwf Hres Hd); lia|]. intros b1 h1 [-> Hb1].
  destruct b1; cbn [negb]; [|apply wp_ret; right; split_and!; [done| |done]; intros [Hn _]; by apply Hb1 in Hn].
  pose proof (children_fit_ok dead h kids res s e Hwf Hres Hd) as Hc. apply wp_bind_inv in Hc. apply wp_bind. eapply wp_mono; [exact Hc|]. cbn beta. intros n h2 Hw.
  apply wp_bind. eapply wp_mono; [exact Hw|]. cbn beta. intros b2 h3 [-> Hb2].
  destruct b2; cbn [negb]; [|apply wp_ret; right; split_and!; [done| |done]; intros [_ Hk]; by apply Hb2 in Hk].
  apply wp_bind. eapply wp_set_range; [exact Hx|]. intros h' Hv'. apply wp_ret. left. assert (Hfit : adjust_fits v kids res s e) by (split; [by apply Hb1|by apply Hb2]).
  split_and!; [done|done|done|]. rewrite Hv'. apply wf_set_range; try done; lia.
Qed.

(** ** What the functions promise *)

#[global] Instance wf_proper dead v : Proper (pointwise_relation Z eq ==> iff) (wf dead v).
Proof.
  assert (Hdir : forall k k', pointwise_relation Z eq k k' -> wf dead v k -> wf dead v k').
  { intros k k' Hk [H1 H2 H3 H4 H5 H6 H7 H8]. constructor; [exact H1|exact H2|..].
    - intros r ??. rewrite <- (Hk r). by apply H3.
    - intros r. rewrite <- (Hk r). apply H4.
    - intros r c. rewrite <- (Hk r). apply H5.
    - intros r c. rewrite <- (Hk r). apply H6.
    - intros r c. rewrite <- (Hk r). apply H7.
    - eapply wf_incl; [|exact H8]. intros c r. by rewrite <- (Hk r). }
  intros k k' Hk. split; apply Hdir; [done|]. intros r. symmetry. apply Hk.
Qed.

Lemma hd_filter (P : Z -> Prop) `{forall x, Decision (P x)} (l : list Z) : 0 ∉ l ->
  (hd 0 (filter P l) = 0 /\ forall x, x ∈ l -> ~ P x) \/
  exists l1 c l2, hd 0 (filter P l) = c /\ c <> 0 /\ l = l1 ++ c :: l2 /\ P c /\ forall x, x ∈ l1 -> ~ P x.
Proof.
  induction l as [|a l IH]; intros H0; [left; split; [done|]; intros x Hx; by apply elem_of_nil in Hx|]. destruct (decide (P a)) as [Ha|Ha].
  - right. rewrite filter_cons_True by done. exists [], a, l. split_and!; try done; set_solver.
  - rewrite filter_cons_False by done. destruct IH as [[-> Hn]|(l1 & c & l2 & -> & Hc & -> & HP & Hn)]; [set_solver|left; set_solver|].
    right. exists (a :: l1), c, l2. split_and!; try done. set_solver.
Qed.

Lemma sorted_gap v new l : StronglySorted (before v) l -> (forall c, c ∈ l -> lo v c <= hi v c) -> (forall c, c ∈ l -> ~ overlaps v new c) ->
  exists l1 l2, l = l1 ++ l2 /\ (forall c, c ∈ l1 -> before v c new) /\ (forall c, c ∈ l2 -> before v new c).
Proof.
  induction 1 as [|c l Hs IH Hc]; intros Hle Hno; [exists [], []; set_solver|]. rewrite Forall_forall in Hc.
  pose proof (Hno c ltac:(left)) as Hnc. pose proof (Hle c ltac:(left)) as Hlc. unfold overlaps in Hnc. destruct (decide (before v c new)) as [Hb|Hb].
  - destruct IH as (l1 & l2 & -> & H1 & H2); [set_solver|set_solver|]. exists (c :: l1), l2. set_solver.
  - exists [], (c :: l). split_and!; [done|set_solver|]. unfold before in *. intros x [->|Hx]%elem_of_cons; [lia|]. specialize (Hc x Hx). lia.
Qed.

Section promises.
Context (dead : list Z) (h : rheap) (kids : Z -> list Z) (root new : Z).
Abbreviation v := (view_of h).

(** What a caller has to see to: both are resources, [new] is not in a tree, and
    [root] is not below it. *)
Record request_pre : Prop := {
  rp_wf : wf dead v kids;
  rp_root : is_Some (dat v !! root);
  rp_rootd : root ∉ dead;
  rp_new : is_Some (dat v !! new);
  rp_newd : new ∉ dead;
  rp_par : par v !! new = Some 0;
  rp_below : ~ below kids root new }.

Lemma request_pre_ok : request_pre -> wp (__request_resource root new) (requested dead h kids root new) h.
Proof.
  intros [H1 H2 H3 H4 H5 H6 H7]. apply request_ok; try assumption. assert (set_par v new 0 = v) as ->; [|exact H1]. unfold set_par. rewrite insert_id by done. by destruct v.
Qed.

(** What a conflict is. *)
Lemma conflict_spec c : request_pre -> c = conflict_of v kids root new ->
  (c = 0 -> within v new root /\ forall x, x ∈ kids root -> ~ overlaps v new x) /\
  (c <> 0 -> (c = root /\ ~ within v new root) \/
    (within v new root /\ c ∈ kids root /\ overlaps v new c /\ forall x, x ∈ kids root -> before v x c -> ~ overlaps v new x)).
Proof.
  intros [Hwf Hr _ _ _ _ _] ->. unfold conflict_of. destruct (decide (within v new root)) as [Hin|Hin].
  2: { split; [|auto]. intros ->. rewrite (wf_null _ _ _ Hwf) in Hr. by destruct Hr. }
  assert (H0 : 0 ∉ kids root) by (intros H0; by destruct (kids_nonnull _ _ _ Hwf root 0 H0)).
  destruct (hd_filter (overlaps v new) (kids root) H0) as [[-> Hno]|(l1 & c & l2 & -> & Hc0 & Hk & Hov & Hno)]; [done|]. split; [done|].
  intros _. right. split_and!; [done|rewrite Hk; set_solver|done|]. intros x Hx Hb. apply Hno. pose proof (wf_order _ _ _ Hwf root) as Ho.
  assert (Hle : forall a, a ∈ kids root -> lo v a <= hi v a) by (intros a Ha; apply (wf_within _ _ _ Hwf root a Ha)).
  pose proof (Hle x Hx). pose proof (Hle c ltac:(rewrite Hk; set_solver)).
  rewrite Hk in Ho, Hx. apply StronglySorted_app in Ho as (_ & _ & [Ho _]%StronglySorted_cons). rewrite Forall_forall in Ho. unfold before in *.
  apply elem_of_app in Hx as [Hx|[->|Hx]%elem_of_cons]; [done|lia|]. specialize (Ho x Hx). lia.
Qed.

(** C29.  A request for a range below [root] terminates.  It is granted exactly
    when the range is inside [root] and overlaps none of its children; the new
    resource then is in its place among them, the forest is well formed, no range
    has changed and nothing else is written.  Otherwise nothing changes and the
    result is [root] for a range that is not inside it, or the first child that
    overlaps. *)
Theorem request_resource_correct : request_pre ->
  exists c h', request_resource_conflict root new h = Ok (c, h') /\
    request_resource root new h = Ok (if decide (c = 0) then 0 else - EBUSY, h') /\
    (c = 0 -> within v new root /\ (forall x, x ∈ kids root -> ~ overlaps v new x) /\
      wf dead (view_of h') (<[root := insert_child v new (kids root)]> kids) /\ dat (view_of h') = dat v /\
      writes (root :: new :: kids root) h h') /\
    (c <> 0 -> h' = h /\ ((c = root /\ ~ within v new root) \/
      (within v new root /\ c ∈ kids root /\ overlaps v new c /\ forall x, x ∈ kids root -> before v x c -> ~ overlaps v new x))).
Proof.
  intros Hpre. destruct (request_pre_ok Hpre) as (c & h' & Hreq & Hc & Hpost). exists c, h'. split; [done|]. split.
  { unfold request_resource, request_resource_conflict, mbind, st_bind. rewrite Hreq. cbn. destruct (Z.eqb_spec c 0), (decide (c = 0)); done. }
  destruct (conflict_spec c Hpre Hc) as [Hzero Hnonzero]. split; intros Hc0.
  { rewrite decide_True in Hpost by done. destruct Hpost as (? & ? & _ & ?), (Hzero Hc0) as [? ?]. split_and!; assumption. }
  rewrite decide_False in Hpost by done. auto.
Qed.

Lemma remove_insert : request_pre -> within v new root -> (forall x, x ∈ kids root -> ~ overlaps v new x) ->
  remove_child new (insert_child v new (kids root)) = kids root /\ new ∈ insert_child v new (kids root).
Proof.
  intros [Hwf _ _ _ _ Hp _] Hin Hno. pose proof (fun c Hc => wf_within _ _ _ Hwf root c Hc) as Hw.
  destruct (sorted_gap v new (kids root)) as (l1 & l2 & Hk & H1 & H2); [apply (wf_order _ _ _ Hwf)|intros c Hc; apply (Hw c Hc)|done|].
  destruct (insert_child_split v new l1 l2 H1 H2) as [Hins _]; [intros c; rewrite <- Hk; intros Hc; apply (Hw c Hc)|apply Hin|].
  rewrite Hk, Hins. split; [|set_solver]. apply remove_child_split. pose proof (kids_NoDup _ _ _ Hwf root) as Hnd. pose proof (unlinked _ _ _ Hwf root new Hp) as Hf. rewrite Hk in Hnd, Hf.
  apply NoDup_app in Hnd as (Hn1 & Hd & Hn2). apply NoDup_app. split_and!; [done| |constructor; [set_solver|done]]. set_solver.
Qed.

(** Releasing a resource that was just granted succeeds and gives back the
    forest, the ranges and the parents from before the request. *)
Theorem request_release_roundtrip h1 : request_pre -> __request_resource root new h = Ok (0, h1) ->
  exists h2, release_resource new h1 = Ok (0, h2) /\ wf dead (view_of h2) kids /\ dat (view_of h2) = dat v /\ par (view_of h2) = par v.
Proof.
  intros Hpre Hreq. destruct (request_pre_ok Hpre) as (c & h' & Hreq' & Hc & Hpost). rewrite Hreq in Hreq'. injection Hreq' as <- <-.
  rewrite decide_True in Hpost by done. destruct Hpost as (Hwf1 & Hdat & Hpar & _). destruct (conflict_spec 0 Hpre Hc) as [Hz _]. destruct (Hz eq_refl) as [Hin Hno].
  destruct (remove_insert Hpre Hin Hno) as [Hrem Hmem].
  destruct (release_resource_ok dead h1 _ root new Hwf1) as (ret & h2 & Hrel & -> & Hwf2 & Hd2 & Hp2 & _); [by rewrite fn_lookup_insert|].
  exists h2. split; [exact Hrel|]. split; [|split; [congruence|]].
  - rewrite fn_lookup_insert, Hrem in Hwf2. revert Hwf2. apply wf_proper. intros r. destruct (decide (r = root)) as [->|]; [by rewrite fn_lookup_insert|].
    by rewrite !fn_lookup_insert_ne.
  - rewrite Hp2, Hpar, insert_insert_eq. apply insert_id, Hpre.
Qed.
End promises.

(** Adjusting a resource terminates.  It succeeds exactly when the new range
    is inside the parent, leaves the siblings where they are and still covers the
    children; then only this range has changed and the forest is well formed.
    Otherwise the result is [-EBUSY] and nothing changes. *)
Theorem adjust_resource_correct dead h kids res s sz x (v := view_of h) (e := s + sz - 1) :
  wf dead v kids -> dat v !! res = Some x -> res ∉ dead -> 0 <= s -> 0 < sz -> s + sz <= 2 ^ 64 ->
  exists ret h', adjust_resource res s sz h = Ok (ret, h') /\
    ((ret = 0 /\ adjust_fits v kids res s e /\ view_of h' = set_dat v res (mkData s e (d_name x) (d_flags x)) /\ wf dead (view_of h') kids) \/
     (ret = - EBUSY /\ ~ adjust_fits v kids res s e /\ h' = h)).
Proof. intros Hwf Hx Hd Hs Hsz Hmax. destruct (adjust_ok dead h kids res s sz x Hwf Hx Hd Hs Hsz Hmax) as (ret & h' & Hr & Hq). by exists ret, h'. Qed.
