(* ===== verification/ResourceAlloc.v ===== *)
(** Finding a free range: [allocate_resource] and [reallocate_resource]. *)
From stdpp Require Import gmap strings sorting functions.
From S2P Require Import Prelude State Sorting ResourceDefs ResourceTree ResourceRequest.

(** ** Alignment *)

Lemma ALIGN_pow2 x k (a := ALIGN x (2 ^ k)) : 0 <= x < 2 ^ 64 -> 0 <= k < 64 ->
  0 <= a < 2 ^ 64 /\ a <= x + 2 ^ k - 1 /\ (2 ^ k | a) /\ (forall s, (2 ^ k | s) -> x <= s < 2 ^ 64 -> x <= a <= s).
Proof.
  intros Hx Hk. assert (Hp : 0 < 2 ^ k < 2 ^ 64) by (split; [lia|apply Z.pow_lt_mono_r; lia]).
  assert (Ha : a = let y := x ⊕ (2 ^ k - 1) in y - y mod 2 ^ k).
  { unfold a. change (ALIGN x (2 ^ k)) with (round_down (x ⊕ (2 ^ k ⊖ 1)) (2 ^ k)). rewrite (sub64_small (2 ^ k)) by lia. rewrite round_down_pow2; [done|apply u64_range|lia]. }
  cbv zeta in Ha. pose proof (u64_range (x + (2 ^ k - 1))) as Hy. fold (x ⊕ (2 ^ k - 1)) in Hy. set (y := x ⊕ (2 ^ k - 1)) in *.
  pose proof (Z.mod_pos_bound y (2 ^ k) ltac:(lia)) as Hm. pose proof (Z.div_mod y (2 ^ k) ltac:(lia)) as Hdm.
  assert (Hq : 0 <= y / 2 ^ k) by (apply Z.div_pos; lia). assert (Hdiv : (2 ^ k | a)) by (exists (y / 2 ^ k); lia). assert (Hyx : y <= x + (2 ^ k - 1)) by (apply Z.mod_le; lia).
  split_and!; [nia|lia|lia|done|].
  intros s Hs Hxs. destruct (decide (x + (2 ^ k - 1) < 2 ^ 64)) as [Hno|Hwrap].
  - assert (y = x + (2 ^ k - 1)) by (apply add64_small; lia). split; [lia|]. destruct Hs as [q ->], Hdiv as [r Hr]. rewrite Hr.
    apply Z.mul_le_mono_nonneg_r; [lia|]. generalize dependent (2 ^ k). intros; nia.
  - exfalso. assert (H64 : 2 ^ 64 = 2 ^ (64 - k) * 2 ^ k) by (rewrite <- Z.pow_add_r by lia; f_equal; lia). destruct Hs as [q ->].
    assert (q < 2 ^ (64 - k)) by (apply (Z.mul_lt_mono_pos_r (2 ^ k)); lia). nia.
Qed.

(** ** One free slot *)

Lemma unset_cleared f : Z.land (Z.land f (ULLONG_MAX - IORESOURCE_UNSET)) IORESOURCE_UNSET = 0.
Proof. rewrite <- Z.land_assoc. change (Z.land (ULLONG_MAX - IORESOURCE_UNSET) IORESOURCE_UNSET) with 0. apply Z.land_0_r. Qed.

Definition avail_of (new tmp : resource) (c : resource_constraint) : resource :=
  mkRes (ALIGN (start tmp) (c_align c)) (end_ tmp) None (Z.land (flags new) (ULLONG_MAX - IORESOURCE_UNSET)) 0 0 0.

Lemma slot_fits_eq new tmp sz c (a := ALIGN (start tmp) (c_align c)) (s := c_alignf c (avail_of new tmp c) sz (c_align c)) :
  slot_fits new tmp sz c =
  if (start tmp <=? a) && (a <=? s) && (s ⊕ sz ⊖ 1 <=? end_ tmp) then Some (s, s ⊕ sz ⊖ 1) else None.
Proof.
  unfold slot_fits, resource_contains, resource_type, flag. cbn [start end_ flags]. fold a. change (c_alignf c _ sz (c_align c)) with s. rewrite Z.geb_leb.
  destruct (start tmp <=? a); [|done]. rewrite Z.eqb_refl, unset_cleared. cbn. by rewrite Z.geb_leb.
Qed.

(** ** The search *)

(** [s] is a place for [sz] bytes that avoids all children but [old]. *)
Definition fits (v : view) (kids : Z -> list Z) (root old sz min max k s : Z) : Prop :=
  lo v root <= s /\ min <= s /\ s + sz - 1 <= hi v root /\ s + sz - 1 <= max /\ (2 ^ k | s) /\
  forall c, c ∈ kids root -> c <> old -> hi v c < s \/ s + sz - 1 < lo v c.

Section find.
Context (dead : list Z) (h : rheap) (kids : Z -> list Z) (root old : Z) (new : resource) (sz min max k : Z) (alignf : resource -> Z -> Z -> Z).
Abbreviation v := (view_of h).
Abbreviation c := (mkConstraint min max (2 ^ k) alignf).
Hypothesis Hwf : wf dead v kids.
Hypothesis Hroot : is_Some (dat v !! root).
Hypothesis Hrootd : root ∉ dead.
Hypothesis Hsz : 0 < sz < 2 ^ 64.
Hypothesis Hk : 0 <= k < 64.
Hypothesis Hmin : 0 <= min < 2 ^ 64.
Hypothesis Hmax : 0 <= max < 2 ^ 64.
Hypothesis Halignf : forall a sz al, 0 <= start a < 2 ^ 64 -> 0 <= alignf a sz al < 2 ^ 64.

Abbreviation fit := (fits v kids root old sz min max k).

(** One child takes all that [root] covers, up to the last address. *)
Definition full : Prop := exists y, y ∈ kids root /\ y <> old /\ lo v y = lo v root /\ hi v y + 1 = 2 ^ 64.

(** The lowest place; or there is none, and the range that was found wraps around
    or is taken. *)
Definition lowest (s e : Z) : Prop :=
  (s <= e /\ fit s /\ forall s', fit s' -> s <= s') \/ ((full \/ 2 ^ 64 <= s + sz - 1) /\ forall s', ~ fit s').

Definition found_ok (o : option (Z * Z)) : Prop :=
  match o with
  | Some (s, e) => 0 <= s < 2 ^ 64 /\ min <= s /\ e = s ⊕ sz ⊖ 1 /\ e <= max /\
      (alignf = simple_align_resource -> (2 ^ k | s) /\ s < Z.max (hi v root) min + 2 ^ k /\ lowest s e)
  | None => alignf = simple_align_resource -> forall s', ~ fit s'
  end.

(** What is known about the free range that begins at [T], after the children
    [l1]. *)
Definition start_ok (l1 : list Z) (T : Z) : Prop :=
  full \/
  (lo v root <= T /\ (forall x, x ∈ l1 -> x <> old -> hi v x < T) /\ (alignf = simple_align_resource -> forall s', fit s' -> T <= s')).

Definition find_inv (n : nat) (x : Z * resource) (h' : rheap) : Prop :=
  h' = h /\ exists l1 l2, kids root = l1 ++ l2 /\ x.1 = hd 0 l2 /\ n = length l2 /\ 0 <= start x.2 < 2 ^ 64 /\
    (forall y, y ∈ l2 -> 0 < lo v y) /\ start_ok l1 (start x.2).

Lemma full_no_fit s' : full -> ~ fit s'.
Proof using Hwf Hroot Hsz.
  intros (y & Hy & Hyo & Hlo & Hhi) (F1 & _ & F3 & _ & _ & Fd). destruct Hroot as [x Hx]. pose proof (wf_range _ _ _ Hwf root x Hx) as Hr.
  specialize (Fd y Hy Hyo). unfold hi in F3 at 1. rewrite Hx in F3. cbn in F3. lia.
Qed.

Lemma range_of a : is_Some (dat v !! a) -> 0 <= lo v a < 2 ^ 64 /\ 0 <= hi v a < 2 ^ 64.
Proof using Hwf. intros [x Hx]. pose proof (wf_range _ _ _ Hwf a x Hx). unfold lo, hi. rewrite Hx. done. Qed.

(** The end of the free range in front of [l2], and what is known of a free range
    that was found in it. *)
Definition gap_end (l2 : list Z) : Z :=
  match l2 with [] => hi v root | x :: _ => if decide (x = old) then hi v x else lo v x - 1 end.

Lemma gap_end_ok l1 l2 : kids root = l1 ++ l2 -> (forall y, y ∈ l2 -> 0 < lo v y) ->
  0 <= gap_end l2 <= hi v root /\ forall x, x ∈ l2 -> x <> old -> gap_end l2 < lo v x.
Proof using All.
  intros Hkids Hpos. pose proof (range_of root Hroot) as Hr. destruct l2 as [|y l2]; cbn; [split; [lia|set_solver]|].
  pose proof (wf_order _ _ _ Hwf root) as Ho. assert (Hy : y ∈ kids root) by (rewrite Hkids; set_solver). pose proof (wf_within _ _ _ Hwf root y Hy) as Hw. unfold within in Hw.
  rewrite Hkids in Ho. apply StronglySorted_app_1_r, StronglySorted_cons in Ho as [Ho _]. rewrite Forall_forall in Ho. unfold before in Ho.
  specialize (Hpos y ltac:(left)). destruct (decide (y = old)) as [->|Hne].
  - split; [lia|]. intros x [->|Hx]%elem_of_cons Hxo; [done|]. by apply Ho.
  - split; [lia|]. intros x [->|Hx]%elem_of_cons _; [lia|]. specialize (Ho x Hx). lia.
Qed.

(** The search in one free range. *)
Lemma gap_found l1 l2 tmp : kids root = l1 ++ l2 -> (forall y, y ∈ l2 -> 0 < lo v y) -> 0 <= start tmp < 2 ^ 64 -> start_ok l1 (start tmp) ->
  end_ tmp = gap_end l2 -> start tmp <= end_ tmp ->
  match slot_fits new (resource_clip tmp min max) sz c with
  | Some (s, e) => found_ok (Some (s, e))
  | None => alignf = simple_align_resource -> forall s', fit s' -> gap_end l2 < s' + sz - 1
  end.
Proof using All.
  intros Hkids Hpos HT Hst Hend Hle. destruct (gap_end_ok l1 l2 Hkids Hpos) as [HE HE2]. rewrite slot_fits_eq. cbn [c_align c_alignf].
  set (tmp' := resource_clip tmp min max). assert (HT' : start tmp' = Z.max (start tmp) min /\ end_ tmp' = Z.min (gap_end l2) max).
  { unfold tmp', resource_clip. destruct (Z.ltb_spec (start tmp) min); cbn [start end_ with_range]; destruct (Z.gtb_spec (end_ tmp) max); cbn [start end_ with_range]; lia. }
  destruct HT' as [HT1 HT2]. rewrite HT1, HT2. destruct (ALIGN_pow2 (Z.max (start tmp) min) k ltac:(lia) Hk) as (Ha & Hax & Hdiv & Hleast). set (a := ALIGN _ _) in *.
  set (s := alignf _ _ _). pose proof (Halignf (avail_of new tmp' c) sz (2 ^ k)) as Hs. fold s in Hs. cbn [avail_of start c_align] in Hs. rewrite HT1 in Hs. specialize (Hs Ha). pose proof (range_of root Hroot) as Hr.
  assert (Hsimple : alignf = simple_align_resource -> s = a) by (intros ->; unfold s, simple_align_resource, avail_of; cbn; by rewrite HT1).
  assert (Hfit : alignf = simple_align_resource -> forall s', fit s' -> Z.max (start tmp) min <= a <= s' /\ s' + sz - 1 < 2 ^ 64).
  { intros Hsim s' Hf. pose proof Hf as (? & ? & ? & ? & Hd & _). destruct Hst as [Hno|(_ & _ & Hlow)]; [by destruct (full_no_fit s' Hno)|]. specialize (Hlow Hsim s' Hf).
    split; [apply Hleast; [done|lia]|lia]. }
  assert (He : s ⊕ sz ⊖ 1 = s + sz - 1 \/ (s ⊕ sz ⊖ 1 = s + sz - 1 - 2 ^ 64 /\ 2 ^ 64 <= s + sz - 1)).
  { unfold add64, sub64, u64. rewrite Zminus_mod_idemp_l. destruct (decide (s + sz - 1 < 2 ^ 64)); [left; apply Z.mod_small; lia|right].
    split; [|lia]. symmetry. apply (Z.mod_unique_pos _ _ 1); lia. }
  set (e := s ⊕ sz ⊖ 1) in *. destruct (Z.leb_spec (Z.max (start tmp) min) a); cbn [andb].
  2: { intros Hsim s' Hf. specialize (Hfit Hsim s' Hf). lia. }
  destruct (Z.leb_spec a s); cbn [andb]; [|intros Hsim; specialize (Hsimple Hsim); lia]. destruct (Z.leb_spec e (Z.min (gap_end l2) max)).
  2: { intros Hsim s' Hf. specialize (Hsimple Hsim). pose proof Hf as (_ & _ & _ & ? & _). specialize (Hfit Hsim s' Hf). lia. }
  split_and!; try done; try lia. intros Hsim. specialize (Hsimple Hsim). rewrite Hsimple in *. split; [done|]. split; [lia|].
  destruct Hst as [Hno|(Hlo & Hl1 & _)]; [right; split; [by left|]; intros s'; by apply full_no_fit|]. destruct He as [He|He]; [left|right].
  - split_and!; [lia| |intros s' Hf; by apply Hfit]. split_and!; try done; try lia. intros x Hx Hxo. rewrite Hkids in Hx.
    apply elem_of_app in Hx as [Hx|Hx]; [left; specialize (Hl1 x Hx Hxo); lia|right; specialize (HE2 x Hx Hxo); lia].
  - split; [right; lia|]. intros s' Hf. specialize (Hfit Hsim s' Hf). lia.
Qed.

(** The result of the search in front of [l2], also when there is nothing. *)
Lemma gap_result l1 l2 tmp (E := gap_end l2) (tmp1 := with_range tmp (start tmp) E) (tmp2 := if E <? start tmp then tmp1 else resource_clip tmp1 min max) :
  kids root = l1 ++ l2 -> (forall y, y ∈ l2 -> 0 < lo v y) -> 0 <= start tmp < 2 ^ 64 -> start_ok l1 (start tmp) ->
  match (if E <? start tmp then None else slot_fits new tmp2 sz c) with
  | Some (s, e) => found_ok (Some (s, e))
  | None => alignf = simple_align_resource -> forall s', fit s' -> E < s' + sz - 1
  end /\ (start tmp2 = start tmp \/ start tmp2 = Z.max (start tmp) min).
Proof using All.
  intros Hkids Hpos HT Hst. unfold tmp2. destruct (Z.ltb_spec E (start tmp)) as [Hlt|Hge].
  - split; [|by left]. intros Hsim s' Hf. destruct Hst as [Hno|(_ & _ & Hlow)]; [by destruct (full_no_fit s' Hno)|]. specialize (Hlow Hsim s' Hf). lia.
  - split; [by apply (gap_found l1 l2)|]. right. unfold resource_clip, tmp1. cbn [start end_ with_range].
    destruct (Z.ltb_spec (start tmp) min); cbn [start end_ with_range]; destruct (Z.gtb_spec E max); cbn [start end_ with_range]; lia.
Qed.

(** Passing the child [y]. *)
Lemma start_ok_next l1 y l2 T T2 : kids root = l1 ++ y :: l2 -> (forall x, x ∈ y :: l2 -> 0 < lo v x) -> start_ok l1 T ->
  (alignf = simple_align_resource -> forall s', fit s' -> gap_end (y :: l2) < s' + sz - 1) -> T2 = T \/ T2 = Z.max T min ->
  start_ok (l1 ++ [y]) (if decide (y = old) then T2 else hi v y + 1).
Proof using All.
  intros Hkids Hpos Hst Hgap HT2. destruct Hst as [Hno|(Hlo & Hl1 & Hlow)]; [by left|right]. assert (Hy : y ∈ kids root) by (rewrite Hkids; set_solver).
  pose proof (wf_within _ _ _ Hwf root y Hy) as Hw. unfold within in Hw. pose proof (wf_order _ _ _ Hwf root) as Ho. rewrite Hkids in Ho.
  apply StronglySorted_app in Ho as (Ho & _). destruct (decide (y = old)) as [->|Hne].
  - split_and!; [lia| |].
    + intros x [Hx| ->%list_elem_of_singleton]%elem_of_app Hxo; [specialize (Hl1 x Hx Hxo); lia|done].
    + intros Hsim s' Hf. specialize (Hlow Hsim s' Hf). destruct Hf as (_ & ? & _). lia.
  - split_and!; [lia| |].
    + intros x [Hx| ->%list_elem_of_singleton]%elem_of_app Hxo; [|lia]. specialize (Ho x y Hx ltac:(left)). unfold before in Ho. lia.
    + intros Hsim s' Hf. specialize (Hgap Hsim s' Hf). cbn in Hgap. rewrite decide_False in Hgap by done. destruct Hf as (_ & _ & _ & _ & _ & Hdis).
      specialize (Hdis y Hy Hne). lia.
Qed.

Lemma find_step_ok n x h' : find_inv n x h' ->
  wp (find_step root old new sz c x) (fun o h' => match o with inl x' => exists n', (n' < n)%nat /\ find_inv n' x' h' | inr r => h' = h /\ found_ok r end) h'.
Proof using All.
  destruct x as [this tmp]. intros (-> & l1 & l2 & Hkids & Hthis & -> & HT & Hpos & Hst). cbn [fst snd] in *. subst this. unfold find_step.
  apply wp_bind, wp_rload; [done|]. intros r Hr. pose proof (lo_shows v root r Hr) as [_ Er]. apply wp_bind.
  destruct (gap_result l1 l2 tmp Hkids Hpos HT Hst) as [Hres Hstart]. set (E := gap_end l2) in *.
  destruct l2 as [|y l2]; cbn [hd].
  - rewrite Z.eqb_refl. apply wp_ret. rewrite <- Er. change (hi v root) with E. cbn [start end_ with_range c_min c_max].
    destruct (if E <? start tmp then None else slot_fits new _ sz c) as [[s e]|]; apply wp_ret; (split; [done|]); [done|].
    intros Hsim s' Hf. specialize (Hres Hsim s' Hf). unfold E in Hres. cbn in Hres. destruct Hf as (_ & _ & ? & _). lia.
  - assert (Hy : y ∈ kids root) by (rewrite Hkids; set_solver). destruct (kids_nonnull _ _ _ Hwf root y Hy) as [_ Hy0]. rewrite (proj2 (Z.eqb_neq y 0)) by done.
    apply wp_bind, wp_rload; [by eapply (kids_some dead)|]. intros t Ht. pose proof (lo_shows v y t Ht) as [Et1 Et2]. apply wp_ret. rewrite <- Et1, <- Et2, <- Er.
    pose proof (range_of y (kids_some _ _ _ _ _ Hwf Hy)) as Hry. pose proof (Hpos y ltac:(left)) as Hpy.
    assert (HE : (if y =? old then hi v y else lo v y ⊖ 1) = E).
    { unfold E. cbn. destruct (Z.eqb_spec y old), (decide (y = old)); try done. apply sub64_small. lia. }
    rewrite HE. cbn [start end_ with_range c_min c_max]. set (tmp2 := if E <? start tmp then with_range tmp (start tmp) E else resource_clip (with_range tmp (start tmp) E) min max) in *.
    destruct (if E <? start tmp then None else slot_fits new tmp2 sz c) as [[s e]|]; [by apply wp_ret|].
    pose proof (start_ok_next l1 y l2 _ _ Hkids Hpos Hst Hres Hstart) as Hnext. pose proof (wf_within _ _ _ Hwf root y Hy) as Hw. unfold within in Hw.
    pose proof (range_of root Hroot) as Hrr. destruct (Z.eqb_spec (hi v y) (hi v root)) as [Heq|Hneq]; apply wp_ret.
    + split; [done|]. intros Hsim s' Hf. specialize (Hres Hsim s' Hf). unfold E in Hres. cbn in Hres. destruct Hf as (_ & _ & ? & _ & _ & Hd). specialize (Hd y Hy).
      destruct (decide (y = old)) as [->|Hyo]; [lia|]. specialize (Hd Hyo). lia.
    + exists (length l2). split; [cbn; lia|]. split; [done|]. exists (l1 ++ [y]), l2. rewrite <- app_assoc. cbn [fst snd].
      assert (HTn : start (if negb (y =? old) then with_range tmp2 (hi v y ⊕ 1) (end_ tmp2) else tmp2) = if decide (y = old) then start tmp2 else hi v y + 1).
      { destruct (Z.eqb_spec y old), (decide (y = old)); try done. cbn. apply add64_small. lia. }
      rewrite HTn. split_and!; [done| |done|..|done].
      * destruct Ht as (_ & Ht & _). destruct (wf_kids _ _ _ Hwf root Hroot Hrootd) as [_ Hseg]. rewrite Hkids in Hseg. apply seg_app in Hseg as (_ & _ & Hs & _). congruence.
      * destruct (decide (y = old)); lia.
      * destruct (decide (y = old)); lia.
      * intros x Hx. apply Hpos. by right.
Qed.

Lemma find_ok : wp (__find_resource root old new sz c) (fun o h' => h' = h /\ found_ok o) h.
Proof using All.
  unfold __find_resource. apply wp_bind, wp_rload; [done|]. intros r Hr. pose proof (lo_shows v root r Hr) as [Er _]. rewrite <- Er.
  destruct (wf_kids _ _ _ Hwf root Hroot Hrootd) as [Hc Hseg]. destruct Hr as (_ & _ & Hr & _). assert (child r = hd 0 (kids root)) as -> by congruence.
  pose proof (range_of root Hroot) as Hrr. pose proof (kids_length dead v kids root Hwf) as Hlen. rewrite view_size in Hlen.
  assert (Hgo : forall n x, find_inv n x h -> (n <= length (kids root))%nat -> wp (while_ (find_step root old new sz c) x) (fun o h' => h' = h /\ found_ok o) h).
  { intros n x Hinv Hn. unfold while_. eapply (st_loop_ok find_inv) with (n := n); [|lia|done]. intros k' x' h' Hi. eapply wp_mono; [by apply find_step_ok|]. by intros [p'|q] h2. }
  assert (Hw : forall y, y ∈ kids root -> within v y root) by (intros y; apply (wf_within _ _ _ Hwf root y)). unfold within in Hw.
  pose proof (wf_order _ _ _ Hwf root) as Ho. destruct (kids root) as [|y l] eqn:Hk0; cbn [hd].
  - rewrite Z.eqb_refl. apply wp_bind, wp_ret. apply (Hgo 0%nat); [|lia]. split; [done|]. exists [], []. cbn. rewrite Hk0. split_and!; [done|done|done|lia|lia|set_solver|].
    right. split_and!; [done|set_solver|]. intros _ s' Hf. apply Hf.
  - apply StronglySorted_cons in Ho as [Ho _]. rewrite Forall_forall in Ho. unfold before in Ho.
    assert (Hy : y ∈ kids root) by (rewrite Hk0; left). destruct (kids_nonnull _ _ _ Hwf root y Hy) as [_ Hy0]. rewrite (proj2 (Z.eqb_neq y 0)) by done.
    pose proof (range_of y (kids_some _ _ _ _ _ Hwf Hy)) as Hry. pose proof (Hw y ltac:(left)) as Hwy.
    apply wp_bind, wp_bind, wp_rload; [by eapply (kids_some dead)|]. intros t Ht. pose proof (lo_shows v y t Ht) as [Et1 Et2]. rewrite <- Et1, <- Et2.
    destruct (Z.eqb_spec (lo v y) (lo v root)) as [Heq|Hneq].
    + apply wp_bind. apply (wp_mono _ (fun o h' => h' = h /\ (y = old -> start o = lo v y))).
      { destruct (Z.eqb_spec y old) as [<-|]; [|by apply wp_ret]. apply wp_rload; [by eapply (kids_some dead)|]. intros o Ho'. split; [done|]. intros _. by destruct (lo_shows v y o Ho') as [<- _]. }
      intros o h' [-> Ho']. apply wp_ret. apply (Hgo (length l)); [|cbn; lia]. split; [done|]. exists [y], l. cbn [fst snd start with_range]. split_and!; [done| |done|..].
      * destruct Hseg as (_ & Hs & _), Ht as (_ & Ht & _). congruence.
      * destruct (Z.eqb_spec y old); [rewrite Ho' by done; lia|apply u64_range].
      * destruct (Z.eqb_spec y old); [rewrite Ho' by done; lia|apply u64_range].
      * intros x Hx. specialize (Ho x Hx). lia.
      * destruct (Z.eqb_spec y old) as [Hyo|Hyo].
        { rewrite Ho' by done. right. split_and!; [lia| |intros _ s' Hf; rewrite Heq; apply Hf]. intros x ->%list_elem_of_singleton. done. }
        assert (Hgt : forall s', fit s' -> hi v y < s') by (intros s' (H1 & _ & _ & _ & _ & Hd); destruct (Hd y Hy Hyo); lia).
        destruct (decide (hi v y + 1 < 2 ^ 64)) as [Hlt|Hwrap].
        { rewrite add64_small by lia. right. split_and!; [lia| |intros _ s' Hf; specialize (Hgt s' Hf); lia]. intros x ->%list_elem_of_singleton. lia. }
        left. exists y. split_and!; [done|done|done|lia].
    + apply wp_ret. apply (Hgo (length (y :: l))); [|cbn; lia]. split; [done|]. exists [], (y :: l). cbn [fst snd start with_range]. split_and!; [done|done|done|lia|lia|..].
      * intros x [->|Hx]%elem_of_cons; [lia|]. specialize (Ho x Hx). lia.
      * right. split_and!; [lia|set_solver|]. intros _ s' Hf. apply Hf.
Qed.
End find.

(** ** What the callback chooses *)

Section choice.
Context (dead : list Z) (h : rheap) (kids : Z -> list Z) (root : Z) (new : resource) (sz min max k : Z) (alignf : resource -> Z -> Z -> Z).
Abbreviation v := (view_of h).
Abbreviation c := (mkConstraint min max (2 ^ k) alignf).

(** The children of [root] are [l1 ++ l2]: the free range between them. *)
Definition free_from (l1 : list Z) : Z := match last l1 with None => lo v root | Some y => hi v y + 1 end.
Definition free_to (l2 : list Z) : Z := match l2 with [] => hi v root | y :: _ => lo v y - 1 end.

(** The free range [a..b], cut to the limits and aligned, as it is shown to the
    callback; and the range the callback chooses: inside what was shown, or so
    near to the last address that it wraps around. *)
Definition offered (a b : Z) : resource :=
  mkRes (ALIGN (Z.max a min) (2 ^ k)) (Z.min b max) None (Z.land (flags new) (ULLONG_MAX - IORESOURCE_UNSET)) 0 0 0.
Definition choice (a b : Z) : Z := alignf (offered a b) sz (2 ^ k).
Definition chosen (a b : Z) : Prop := a <= b /\ Z.max a min <= start (offered a b) <= choice a b.
Definition accepted (a b : Z) : Prop := chosen a b /\ choice a b + sz - 1 <= Z.min b max.
Definition wraps (a b : Z) : Prop := chosen a b /\ 2 ^ 64 <= choice a b + sz - 1.

(** The callback chose nothing that fits in the first [n] free ranges. *)
Definition passed (n : nat) : Prop :=
  forall l1 l2, kids root = l1 ++ l2 -> (length l1 < n)%nat -> ~ accepted (free_from l1) (free_to l2).

(** [s] is what the callback chose in the first free range where that fits, or
    wraps around. *)
Definition first_choice (s : Z) : Prop :=
  exists l1 l2, kids root = l1 ++ l2 /\ passed (length l1) /\ s = choice (free_from l1) (free_to l2) /\
    (accepted (free_from l1) (free_to l2) \/ wraps (free_from l1) (free_to l2)).

Definition choice_ok (o : option (Z * Z)) : Prop :=
  match o with
  | Some (s, _) => full h kids root 0 \/ first_choice s
  | None => passed (S (length (kids root)))
  end.

Hypothesis Hwf : wf dead v kids.
Hypothesis Hroot : is_Some (dat v !! root).
Hypothesis Hrootd : root ∉ dead.
Hypothesis Hsz : 0 < sz < 2 ^ 64.
Hypothesis Hk : 0 <= k < 64.
Hypothesis Hmin : 0 <= min < 2 ^ 64.
Hypothesis Hmax : 0 <= max < 2 ^ 64.
Hypothesis Halignf : forall a sz al, 0 <= start a < 2 ^ 64 -> 0 <= alignf a sz al < 2 ^ 64.

Lemma kids_range y : y ∈ kids root -> 0 <= lo v y /\ hi v y < 2 ^ 64 /\ lo v root <= lo v y <= hi v y /\ hi v y <= hi v root.
Proof using All.
  intros Hy. destruct (range_of dead h kids Hwf y (kids_some _ _ _ _ _ Hwf Hy)). pose proof (wf_within _ _ _ Hwf root y Hy) as Hw. unfold within in Hw. lia.
Qed.

(** If one child takes everything, no free range is left. *)
Lemma full_passed n : full h kids root 0 -> passed n.
Proof using All.
  intros (y & Hy & _ & Hlo & Hhi) l1 l2 Hkids _ [[Hab _] _]. destruct (range_of dead h kids Hwf root Hroot) as [_ Hr].
  pose proof (wf_order _ _ _ Hwf root) as Ho. apply list_elem_of_split in Hy as (pre & post & Hsp).
  assert (Hk' : kids root = [y]).
  { rewrite Hsp in Ho. apply StronglySorted_app in Ho as (Hpre & _ & Ho). apply StronglySorted_cons in Ho as [Hpost _]. rewrite Forall_forall in Hpost. unfold before in *.
    destruct pre as [|x pre]; [|specialize (Hpre x y ltac:(left) ltac:(left)); pose proof (kids_range x ltac:(rewrite Hsp; set_solver)); lia].
    destruct post as [|x post]; [done|]. specialize (Hpost x ltac:(left)). pose proof (kids_range x ltac:(rewrite Hsp; set_solver)). lia. }
  rewrite Hk' in Hkids. unfold free_from, free_to in Hab. destruct l1 as [|z [|z' l1]]; cbn in Hkids, Hab.
  - subst l2. lia.
  - injection Hkids as <- <-. lia.
  - done.
Qed.

(** The search in one free range. *)
Lemma slot_choice tmp a b : start tmp = a -> end_ tmp = b -> 0 <= a < 2 ^ 64 -> 0 <= b < 2 ^ 64 -> a <= b ->
  match slot_fits new (resource_clip tmp min max) sz c with
  | Some (s, _) => s = choice a b /\ (accepted a b \/ wraps a b)
  | None => ~ accepted a b
  end.
Proof using All.
  intros Ha Hb Hra Hrb Hab. rewrite slot_fits_eq. set (tmp' := resource_clip tmp min max).
  assert (HT : start tmp' = Z.max a min /\ end_ tmp' = Z.min b max).
  { unfold tmp', resource_clip. destruct (Z.ltb_spec (start tmp) min); cbn [start end_ with_range]; destruct (Z.gtb_spec (end_ tmp) max); cbn [start end_ with_range]; lia. }
  destruct HT as [HT1 HT2]. assert (Hof : avail_of new tmp' c = offered a b) by (unfold avail_of, offered; by rewrite HT1, HT2).
  rewrite Hof, HT1, HT2. cbn [c_align c_alignf]. fold (choice a b). change (ALIGN (Z.max a min) (2 ^ k)) with (start (offered a b)).
  destruct (ALIGN_pow2 (Z.max a min) k ltac:(lia) Hk) as (Hr & _). pose proof (Halignf (offered a b) sz (2 ^ k) Hr) as Hs. fold (choice a b) in Hs.
  unfold accepted, wraps, chosen. set (s := choice a b) in *. set (A := start (offered a b)) in *.
  assert (He : s ⊕ sz ⊖ 1 = s + sz - 1 \/ (s ⊕ sz ⊖ 1 = s + sz - 1 - 2 ^ 64 /\ 2 ^ 64 <= s + sz - 1)).
  { unfold add64, sub64, u64. rewrite Zminus_mod_idemp_l. destruct (decide (s + sz - 1 < 2 ^ 64)); [left; apply Z.mod_small; lia|right].
    split; [|lia]. symmetry. apply (Z.mod_unique_pos _ _ 1); lia. }
  destruct (Z.leb_spec (Z.max a min) A), (Z.leb_spec A s), (Z.leb_spec (s ⊕ sz ⊖ 1) (Z.min b max)); cbn [andb]; lia.
Qed.

Definition choice_inv (n : nat) (x : Z * resource) (h' : rheap) : Prop :=
  h' = h /\ exists l1 l2, kids root = l1 ++ l2 /\ x.1 = hd 0 l2 /\ n = length l2 /\ 0 <= start x.2 < 2 ^ 64 /\
    (forall y, y ∈ l2 -> 0 < lo v y) /\ (full h kids root 0 \/ (passed (length l1) /\ start x.2 = free_from l1)).

(** The result of the search between [l1] and [l2]. *)
Lemma slot_result l1 l2 tmp (E := free_to l2) (tmp1 := with_range tmp (start tmp) E) (tmp2 := if E <? start tmp then tmp1 else resource_clip tmp1 min max) :
  kids root = l1 ++ l2 -> (forall y, y ∈ l2 -> 0 < lo v y) -> 0 <= start tmp < 2 ^ 64 -> full h kids root 0 \/ (passed (length l1) /\ start tmp = free_from l1) ->
  match (if E <? start tmp then None else slot_fits new tmp2 sz c) with
  | Some (s, e) => choice_ok (Some (s, e))
  | None => full h kids root 0 \/ passed (S (length l1))
  end.
Proof using All.
  intros Hkids Hpos HT [Hfull|[Hpass Hst]]; [by destruct (if E <? start tmp then None else _) as [[s e]|]; left|].
  assert (Hnext : ~ accepted (free_from l1) (free_to l2) -> passed (S (length l1))).
  { intros Hna m1 m2 Hm Hlen. destruct (decide (length m1 < length l1)%nat) as [Hlt|Hge]; [by apply Hpass|].
    rewrite Hkids in Hm. assert (length m1 = length l1) as Hl by lia. apply app_inj_1 in Hm as [<- <-]; [done|done]. }
  assert (HE : 0 <= E < 2 ^ 64).
  { unfold E. destruct (range_of dead h kids Hwf root Hroot). destruct l2 as [|y l2]; cbn; [lia|].
    pose proof (kids_range y ltac:(rewrite Hkids; set_solver)). specialize (Hpos y ltac:(left)). lia. }
  unfold tmp2. destruct (Z.ltb_spec E (start tmp)) as [Hlt|Hge].
  - right. apply Hnext. intros [[Hab _] _]. fold E in Hab. lia.
  - pose proof (slot_choice tmp1 (start tmp) E eq_refl eq_refl HT HE Hge) as Hs. rewrite Hst in Hs.
    destruct (slot_fits new (resource_clip tmp1 min max) sz c) as [[s e]|]; [right; by exists l1, l2; destruct Hs|]. right. by apply Hnext.
Qed.

Lemma choice_step n x h' : choice_inv n x h' ->
  wp (find_step root 0 new sz c x) (fun o h' => match o with inl x' => exists n', (n' < n)%nat /\ choice_inv n' x' h' | inr r => h' = h /\ choice_ok r end) h'.
Proof using All.
  destruct x as [this tmp]. intros (-> & l1 & l2 & Hkids & Hthis & -> & HT & Hpos & Hst). cbn [fst snd] in *. subst this. unfold find_step.
  apply wp_bind, wp_rload; [done|]. intros r Hr. pose proof (lo_shows v root r Hr) as [_ Er]. apply wp_bind.
  pose proof (slot_result l1 l2 tmp Hkids Hpos HT Hst) as Hres. set (E := free_to l2) in *.
  assert (Hend : forall l', full h kids root 0 \/ passed l' -> (length (kids root) < l')%nat -> passed (S (length (kids root)))).
  { intros l' [Hf|Hp] Hl; [by apply full_passed|]. intros m1 m2 Hm Hlen. apply Hp; [done|lia]. }
  destruct l2 as [|y l2]; cbn [hd].
  - rewrite Z.eqb_refl. apply wp_ret. rewrite <- Er. change (hi v root) with E. cbn [start end_ with_range c_min c_max].
    destruct (if E <? start tmp then None else slot_fits new _ sz c) as [[s e]|]; apply wp_ret; (split; [done|]); [done|].
    apply (Hend _ Hres). rewrite Hkids, app_nil_r. lia.
  - assert (Hy : y ∈ kids root) by (rewrite Hkids; set_solver). destruct (kids_nonnull _ _ _ Hwf root y Hy) as [_ Hy0]. rewrite (proj2 (Z.eqb_neq y 0)) by done.
    apply wp_bind, wp_rload; [by eapply (kids_some dead)|]. intros t Ht. pose proof (lo_shows v y t Ht) as [Et1 Et2]. apply wp_ret. rewrite <- Et1, <- Et2, <- Er.
    pose proof (kids_range y Hy) as Hry. pose proof (Hpos y ltac:(left)) as Hpy.
    assert (HE : lo v y ⊖ 1 = E) by (apply sub64_small; lia).
    rewrite HE. cbn [start end_ with_range c_min c_max negb]. set (tmp2 := if E <? start tmp then with_range tmp (start tmp) E else resource_clip (with_range tmp (start tmp) E) min max) in *.
    destruct (if E <? start tmp then None else slot_fits new tmp2 sz c) as [[s e]|]; [by apply wp_ret|].
    destruct (range_of dead h kids Hwf root Hroot) as [_ Hrr]. destruct (Z.eqb_spec (hi v y) (hi v root)) as [Heq|Hneq]; apply wp_ret.
    + split; [done|]. destruct Hres as [Hf|Hp]; [by apply full_passed|]. intros m1 m2 Hm Hlen.
      destruct (decide (length m1 < S (length l1))%nat) as [Hlt|Hge]; [by apply Hp|].
      assert (Hl2 : l2 = []).
      { pose proof (wf_order _ _ _ Hwf root) as Ho. rewrite Hkids in Ho. apply StronglySorted_app_1_r, StronglySorted_cons in Ho as [Ho _]. rewrite Forall_forall in Ho.
        destruct l2 as [|z l2]; [done|]. specialize (Ho z ltac:(left)). unfold before in Ho. pose proof (kids_range z ltac:(rewrite Hkids; set_solver)). lia. }
      subst l2. rewrite Hm in Hkids, Hlen. rewrite (cons_middle y l1 []), app_nil_r in Hkids. pose proof (f_equal length Hkids) as Hlen'. rewrite !length_app in *. cbn in Hlen, Hlen'.
      destruct m2 as [|z m2]; [|cbn in Hlen'; lia]. rewrite app_nil_r in Hkids. subst m1. intros [[Hab _] _]. revert Hab. unfold free_from. rewrite last_snoc. cbn. lia.
    + exists (length l2). split; [cbn; lia|]. split; [done|]. exists (l1 ++ [y]), l2. rewrite <- app_assoc. cbn [fst snd start with_range].
      rewrite add64_small by lia. split_and!; [done| |done|lia|lia|intros x Hx; apply Hpos; by right|].
      * destruct Ht as (_ & Ht & _). destruct (wf_kids _ _ _ Hwf root Hroot Hrootd) as [_ Hseg]. rewrite Hkids in Hseg. apply seg_app in Hseg as (_ & _ & Hs & _). congruence.
      * rewrite length_app, Nat.add_1_r. destruct Hres as [Hf|Hp]; [by left|right]. split; [done|]. unfold free_from. by rewrite last_snoc.
Qed.

Lemma find_choice : wp (__find_resource root 0 new sz c) (fun o h' => h' = h /\ choice_ok o) h.
Proof using All.
  unfold __find_resource. apply wp_bind, wp_rload; [done|]. intros r Hr. pose proof (lo_shows v root r Hr) as [Er _]. rewrite <- Er.
  destruct (wf_kids _ _ _ Hwf root Hroot Hrootd) as [Hc Hseg]. destruct Hr as (_ & _ & Hr & _). assert (child r = hd 0 (kids root)) as -> by congruence.
  destruct (range_of dead h kids Hwf root Hroot) as [Hrr _]. pose proof (kids_length dead v kids root Hwf) as Hlen. rewrite view_size in Hlen.
  assert (Hgo : forall n x, choice_inv n x h -> (n <= length (kids root))%nat -> wp (while_ (find_step root 0 new sz c) x) (fun o h' => h' = h /\ choice_ok o) h).
  { intros n x Hinv Hn. unfold while_. eapply (st_loop_ok choice_inv) with (n := n); [|lia|done]. intros k' x' h' Hi. eapply wp_mono; [by apply choice_step|]. by intros [p'|q] h2. }
  pose proof (wf_order _ _ _ Hwf root) as Ho. destruct (kids root) as [|y l] eqn:Hk0; cbn [hd].
  - rewrite Z.eqb_refl. apply wp_bind, wp_ret. apply (Hgo 0%nat); [|lia]. split; [done|]. exists [], []. cbn. split_and!; [done|done|done|lia|lia|set_solver|].
    right. split; [intros m1 m2 _ Hm; cbn in Hm; lia|done].
  - apply StronglySorted_cons in Ho as [Ho _]. rewrite Forall_forall in Ho. unfold before in Ho.
    assert (Hy : y ∈ kids root) by (rewrite Hk0; left). destruct (kids_nonnull _ _ _ Hwf root y Hy) as [_ Hy0]. rewrite (proj2 (Z.eqb_neq y 0)) by done.
    pose proof (kids_range y Hy) as Hry.
    apply wp_bind, wp_bind, wp_rload; [by eapply (kids_some dead)|]. intros t Ht. pose proof (lo_shows v y t Ht) as [Et1 Et2]. rewrite <- Et1, <- Et2.
    destruct (Z.eqb_spec (lo v y) (lo v root)) as [Heq|Hneq].
    + apply wp_bind, wp_ret. apply wp_ret. apply (Hgo (length l)); [|cbn; lia]. split; [done|]. exists [y], l. cbn [fst snd start with_range]. split_and!; [done| |done|apply u64_range|apply u64_range|..].
      * destruct Hseg as (_ & Hs & _), Ht as (_ & Ht & _). congruence.
      * intros x Hx. specialize (Ho x Hx). lia.
      * destruct (decide (hi v y + 1 < 2 ^ 64)) as [Hlt|Hwrap]; [right|left; exists y; split_and!; [done|done|done|lia]].
        rewrite add64_small by lia. split; [|done]. intros [|z m1] m2 Hm Hlm; [|cbn in Hlm; lia]. cbn in Hm. rewrite Hk0 in Hm. subst m2. intros [[Hab _] _]. revert Hab. cbn. lia.
    + apply wp_ret. apply (Hgo (length (y :: l))); [|cbn; lia]. split; [done|]. exists [], (y :: l). cbn [fst snd start with_range]. split_and!; [done|done|done|lia|lia|..].
      * intros x [->|Hx]%elem_of_cons; [lia|]. specialize (Ho x Hx). lia.
      * right. split; [intros m1 m2 _ Hm; cbn in Hm; lia|done].
Qed.

(** What fits in a free range is in the way of no child. *)
Lemma accepted_free l1 l2 (s := choice (free_from l1) (free_to l2)) : kids root = l1 ++ l2 -> accepted (free_from l1) (free_to l2) ->
  lo v root <= s /\ s + sz - 1 <= hi v root /\ forall x, x ∈ kids root -> hi v x < s \/ s + sz - 1 < lo v x.
Proof using All.
  intros Hkids [[Hab Hs] He]. fold s in Hs, He. pose proof (wf_order _ _ _ Hwf root) as Ho. rewrite Hkids in Ho. apply StronglySorted_app in Ho as (_ & Ho1 & Ho2). unfold before in *.
  assert (Hf : lo v root <= free_from l1 /\ forall x, x ∈ l1 -> hi v x < free_from l1).
  { unfold free_from. destruct (last l1) as [y|] eqn:El; [|apply last_None in El as ->; split; [done|set_solver]]. apply last_Some in El as [l' ->].
    pose proof (kids_range y ltac:(rewrite Hkids; set_solver)). apply StronglySorted_app in Ho1 as (Ho1 & _). split; [lia|].
    intros x [Hx| ->%list_elem_of_singleton]%elem_of_app; [|lia]. specialize (Ho1 x y Hx ltac:(left)). lia. }
  assert (Ht : free_to l2 <= hi v root /\ forall x, x ∈ l2 -> free_to l2 < lo v x).
  { unfold free_to. destruct l2 as [|y l2]; [split; [done|set_solver]|]. apply StronglySorted_cons in Ho2 as [Ho2 _]. rewrite Forall_forall in Ho2.
    pose proof (kids_range y ltac:(rewrite Hkids; set_solver)). split; [lia|]. intros x [->|Hx]%elem_of_cons; [lia|]. specialize (Ho2 x Hx). lia. }
  split_and!; [lia|lia|]. intros x Hx. rewrite Hkids in Hx. apply elem_of_app in Hx as [Hx|Hx]; [left; specialize (proj2 Hf x Hx); lia|right; specialize (proj2 Ht x Hx); lia].
Qed.
End choice.

(** ** [allocate_resource] *)

Lemma set_range_view v a x s e (v' := set_dat v a (mkData s e (d_name x) (d_flags x))) :
  lo v' a = s /\ hi v' a = e /\ forall b, b <> a -> lo v' b = lo v b /\ hi v' b = hi v b.
Proof. unfold lo, hi, v'. cbn. rewrite lookup_insert_eq. split_and!; [done|done|]. intros b Hb. by rewrite lookup_insert_ne. Qed.

Lemma same_dat_view v v' : dat v' = dat v ->
  (forall a, lo v' a = lo v a) /\ (forall a, hi v' a = hi v a) /\ (forall a b, within v' a b <-> within v a b) /\
  (forall a b, overlaps v' a b <-> overlaps v a b) /\ forall new l, insert_child v' new l = insert_child v new l.
Proof. destruct v, v'. cbn. intros ->. done. Qed.

Lemma end_nowrap s sz e : 0 <= s < 2 ^ 64 -> 0 < sz < 2 ^ 64 -> e = s ⊕ sz ⊖ 1 -> s <= e -> e = s + sz - 1.
Proof.
  intros Hs Hsz -> Hle. unfold add64, sub64, u64 in *. rewrite Zminus_mod_idemp_l in *. destruct (decide (s + sz - 1 < 2 ^ 64)); [apply Z.mod_small; lia|].
  exfalso. rewrite <- (Z.mod_unique_pos (s + sz - 1) (2 ^ 64) 1 (s + sz - 1 - 2 ^ 64)) in Hle by lia. lia.
Qed.

(** The state after a range was written into a resource that is in no tree. *)
Lemma request_pre_range dead h kids root new x s e h1 : request_pre dead h kids root new -> kids new = [] -> dat (view_of h) !! new = Some x ->
  0 <= s < 2 ^ 64 -> 0 <= e < 2 ^ 64 -> view_of h1 = set_dat (view_of h) new (mkData s e (d_name x) (d_flags x)) -> request_pre dead h1 kids root new.
Proof.
  intros [H1 H2 H3 H4 H5 H6 H7] Hk Hx Hs He Hv.
  assert (Hfresh : forall p, new ∉ kids p) by (intros p; by apply (unlinked dead (view_of h) kids H1)).
  constructor; try assumption; rewrite Hv; cbn; try assumption.
  - apply wf_set_range; try assumption; [|intros p Hp; by destruct (Hfresh p)]. split; [intros p Hp; by destruct (Hfresh p)|]. rewrite Hk. set_solver.
  - destruct (decide (root = new)) as [->|]; [by rewrite lookup_insert_eq|by rewrite lookup_insert_ne].
  - by rewrite lookup_insert_eq.
Qed.

Section allocate.
Context (dead : list Z) (h : rheap) (kids : Z -> list Z) (root new sz min max k : Z) (alignf : option (resource -> Z -> Z -> Z)).
Abbreviation v := (view_of h).
Hypothesis Hpre : request_pre dead h kids root new.
Hypothesis Hnokids : kids new = [].
Hypothesis Hsz : 0 < sz < 2 ^ 64.
Hypothesis Hk : 0 <= k < 64.
Hypothesis Hmin : 0 <= min < 2 ^ 64.
Hypothesis Hmax : 0 <= max < 2 ^ 64.
Hypothesis Halignf : forall f a sz al, alignf = Some f -> 0 <= start a < 2 ^ 64 -> 0 <= f a sz al < 2 ^ 64.

Abbreviation fit := (fits v kids root 0 sz min max k).

(** The callback, or the one that takes the place of none. *)
Definition callback : resource -> Z -> Z -> Z := match alignf with Some f => f | None => simple_align_resource end.

(** [n] is the resource that was allocated.  A range of the asked size is found
    and taken: the one the callback chooses in the first free range where what it
    chooses fits, which is the lowest possible one without a callback; or there is
    none, or what the callback chose wraps around. *)
Definition allocated (n : resource) (ret : Z) (h' : rheap) : Prop :=
  (ret = 0 /\ exists s, lo (view_of h') new = s /\ hi (view_of h') new = s + sz - 1 /\ min <= s /\ s + sz - 1 <= max /\
    within (view_of h') new root /\ (forall x, x ∈ kids root -> ~ overlaps (view_of h') new x) /\
    wf dead (view_of h') (<[root := insert_child (view_of h') new (kids root)]> kids) /\
    (forall a, a <> new -> dat (view_of h') !! a = dat v !! a) /\
    (exists l1 l2, kids root = l1 ++ l2 /\ s = choice n sz min max k callback (free_from h root l1) (free_to h root l2) /\
       accepted n sz min max k callback (free_from h root l1) (free_to h root l2) /\ passed h kids root n sz min max k callback (length l1)) /\
    (alignf = None -> fit s /\ forall s', fit s' -> s <= s')) \/
  (ret = - EBUSY /\ wf dead (view_of h') kids /\ (forall a, a <> new -> h' !! a = h !! a) /\
    ((forall l1 l2, kids root = l1 ++ l2 -> ~ accepted n sz min max k callback (free_from h root l1) (free_to h root l2)) \/
     (exists l1 l2, kids root = l1 ++ l2 /\ wraps n sz min max k callback (free_from h root l1) (free_to h root l2))) /\
    (alignf = None -> forall s', ~ fit s')).

(** The range [s..e] was written into [new]. *)
Lemma fits_no_conflict h1 x s e : dat v !! new = Some x -> view_of h1 = set_dat v new (mkData s e (d_name x) (d_flags x)) ->
  request_pre dead h1 kids root new -> s <= e -> e = s + sz - 1 -> lo v root <= s -> e <= hi v root ->
  (forall c, c ∈ kids root -> hi v c < s \/ e < lo v c) -> conflict_of (view_of h1) kids root new = 0.
Proof using Hpre.
  intros Hx Hv Hpre1 Hse -> F1 F3 Fd. destruct (conflict_spec dead h1 kids root new _ Hpre1 eq_refl) as [_ Hc].
  destruct (decide (conflict_of (view_of h1) kids root new = 0)) as [|Hn]; [done|exfalso].
  assert (Hne : root <> new) by (intros ->; by apply (rp_below _ _ _ _ _ Hpre)).
  destruct (set_range_view v new x s (s + sz - 1)) as (E1 & E2 & E3). rewrite <- Hv in E1, E2, E3. remember (conflict_of (view_of h1) kids root new) as c eqn:Heqc.
  clear Heqc. destruct (E3 root Hne) as [E4 E5]. destruct (Hc Hn) as [[_ Hno]|(_ & Hin & Hov & _)]; [unfold within in Hno; lia|].
  destruct (kids_nonnull _ _ _ (rp_wf _ _ _ _ _ Hpre) root c Hin) as [_ Hc0].
  assert (Hcn : c <> new) by (intros ->; by apply (unlinked _ _ _ (rp_wf _ _ _ _ _ Hpre) root new (rp_par _ _ _ _ _ Hpre))).
  destruct (E3 c Hcn) as [E6 E7]. unfold overlaps in Hov. specialize (Fd c Hin). lia.
Qed.

Lemma conflict_free_fits h1 x s e : view_of h1 = set_dat v new (mkData s e (d_name x) (d_flags x)) -> e = s + sz - 1 -> min <= s -> e <= max -> (2 ^ k | s) ->
  within (view_of h1) new root -> (forall c, c ∈ kids root -> ~ overlaps (view_of h1) new c) -> fit s.
Proof using All.
  intros Hv -> Hmins Hemax Hdiv Hin Hno. assert (Hne : root <> new) by (intros ->; by apply (rp_below _ _ _ _ _ Hpre)).
  destruct (set_range_view v new x s (s + sz - 1)) as (E1 & E2 & E3). rewrite <- Hv in E1, E2, E3. destruct (E3 root Hne) as [E4 E5]. unfold within in Hin.
  split_and!; try done; try lia. intros c Hc _. specialize (Hno c Hc). unfold overlaps in Hno.
  assert (Hcn : c <> new) by (intros ->; by apply (unlinked _ _ _ (rp_wf _ _ _ _ _ Hpre) root new (rp_par _ _ _ _ _ Hpre))). destruct (E3 c Hcn). lia.
Qed.

Lemma passed_all n : passed h kids root n sz min max k callback (S (length (kids root))) ->
  forall l1 l2, kids root = l1 ++ l2 -> ~ accepted n sz min max k callback (free_from h root l1) (free_to h root l2).
Proof using. intros Hp l1 l2 Hkids. apply Hp; [done|]. rewrite Hkids, length_app. lia. Qed.

Lemma allocate_ok n : h !! new = Some n -> wp (allocate_resource root new sz min max (2 ^ k) alignf) (allocated n) h.
Proof using All.
  intros Hn0. pose proof Hpre as [Hwf Hroot Hrootd Hnew Hnewd Hp Hb]. unfold allocate_resource. fold callback.
  apply wp_bind. exists n, h. split; [unfold load; by rewrite Hn0|]. destruct (view_some h new n Hn0) as (Hpn & _ & _ & Hdn). rewrite Hp in Hpn. injection Hpn as <-. cbn [negb Z.eqb].
  assert (Hcb : forall a sz' al, 0 <= start a < 2 ^ 64 -> 0 <= callback a sz' al < 2 ^ 64).
  { intros a sz' al Ha. unfold callback. destruct alignf as [g|] eqn:Hg; [by apply Halignf|done]. }
  apply wp_bind. destruct (find_ok dead h kids root 0 n sz min max k callback Hwf Hroot Hrootd Hsz Hk Hmin Hmax Hcb) as (o & h' & Hfind & -> & Ho).
  destruct (find_choice dead h kids root n sz min max k callback Hwf Hroot Hrootd Hsz Hk Hmin Hmax Hcb) as (o' & h' & Hfind' & -> & Hch).
  assert (o' = o) as -> by (rewrite Hfind in Hfind'; by injection Hfind' as <-).
  exists o, h. split; [exact Hfind|]. assert (Hsim : alignf = None -> callback = simple_align_resource) by (unfold callback; by intros ->).
  destruct o as [[s e]|]; [|apply wp_ret; right; split_and!; [done|exact Hwf|done|left; by apply passed_all|auto]].
  destruct Ho as (Hs & Hmins & He & Hemax & Hlow). apply wp_bind. eapply wp_set_range; [exact Hdn|]. intros h1 Hv1.
  assert (Her : 0 <= e < 2 ^ 64) by (rewrite He; apply u64_range). pose proof (request_pre_range dead h kids root new _ s e h1 Hpre Hnokids Hdn Hs Her Hv1) as Hpre1.
  apply wp_bind. eapply wp_mono; [apply (request_pre_ok dead h1 kids root new Hpre1)|]. intros c h2 [Hc Hpost]. apply wp_ret.
  destruct (conflict_spec dead h1 kids root new c Hpre1 Hc) as [Hz _]. destruct (Z.eqb_spec c 0) as [Hc0|Hc0]; cbn [negb].
  - left. split; [done|]. rewrite decide_True in Hpost by done. destruct Hpost as (Hwf2 & Hdat2 & _). destruct (Hz Hc0) as [Hin Hno].
    destruct (set_range_view v new (data n) s e) as (Hlo & Hhi & Hoth). rewrite <- Hv1 in Hlo, Hhi, Hoth.
    assert (Hse : s <= e) by (unfold within in Hin; lia). pose proof (end_nowrap s sz e Hs Hsz He Hse) as Hsum. exists s.
    destruct (same_dat_view _ _ Hdat2) as (S1 & S2 & S3 & S4 & S5). rewrite S1, S2, S3, S5. split; [done|]. split; [lia|]. split; [done|]. split; [lia|]. split; [done|].
    split; [intros x Hx; rewrite S4; by apply Hno|]. split; [exact Hwf2|]. split; [intros a Ha; rewrite Hdat2, Hv1; cbn; by rewrite lookup_insert_ne|]. split.
    + destruct Hch as [Hfull|(l1 & l2 & Hkids & Hpass & -> & [Hacc|[_ Hwr]])]; [|by exists l1, l2|lia]. exfalso.
      destruct Hfull as (y & Hy & _ & Hylo & Hyhi). assert (Hyn : y <> new) by (intros ->; by apply (unlinked _ _ _ Hwf root new (rp_par _ _ _ _ _ Hpre))).
      apply (Hno y Hy). destruct (Hoth y Hyn) as [E1 E2]. assert (Hne : root <> new) by (intros ->; by apply (rp_below _ _ _ _ _ Hpre)). destruct (Hoth root Hne). unfold overlaps, within in *. lia.
    + intros Hnone. destruct (Hlow (Hsim Hnone)) as (Hdiv & _ & [(_ & Hf & Hmin')|[_ Hno']]); [done|]. exfalso. apply (Hno' s). by eapply conflict_free_fits.
  - right. rewrite decide_False in Hpost by done. rewrite Hpost. split; [done|]. split; [apply Hpre1|]. split; [|split].
    + intros a Ha. apply view_eq_at; rewrite Hv1; try done. cbn. by rewrite lookup_insert_ne.
    + destruct Hch as [Hfull|(l1 & l2 & Hkids & Hpass & Hsc & [Hacc|Hwr])]; [left; intros l1 l2 Hkids; by eapply (full_passed dead h kids root n sz min max k callback Hwf Hroot Hrootd Hsz Hk Hmin Hmax Hcb (S (length l1)) Hfull); [|lia]| |right; by exists l1, l2].
      exfalso. apply Hc0. rewrite Hc. destruct (accepted_free dead h kids root n sz min max k callback Hwf Hroot Hrootd Hsz Hk Hmin Hmax Hcb l1 l2 Hkids Hacc) as (F1 & F2 & F3).
      rewrite <- Hsc in F1, F2, F3. destruct Hacc as [_ Hacc]. rewrite <- Hsc in Hacc. pose proof (range_of dead h kids Hwf root Hroot) as [_ Hrh].
      assert (Hes : e = s + sz - 1) by (rewrite He; unfold add64, sub64, u64; rewrite Zminus_mod_idemp_l; apply Z.mod_small; lia).
      eapply fits_no_conflict; try done; [lia|lia|]. by rewrite Hes.
    + intros Hnone. destruct (Hlow (Hsim Hnone)) as (Hdiv & _ & [(Hse & (F1 & _ & F3 & _ & _ & Fd) & _)|[_ Hno']]); [|done]. exfalso. apply Hc0. rewrite Hc.
      pose proof (end_nowrap s sz e Hs Hsz He Hse) as Hes. eapply fits_no_conflict; try done; [lia|]. intros x Hx. rewrite Hes. apply Fd; [done|]. by destruct (kids_nonnull _ _ _ Hwf root x Hx).
Qed.
End allocate.

(** ** [reallocate_resource] *)

Lemma wf_set_sib dead v kids a x : wf dead v kids -> (forall r, a ∉ kids r) -> wf dead (set_sib v a x) kids.
Proof.
  intros Hwf Ha. apply (wf_update dead v _ kids _ []); [exact Hwf|done|done|done| | |by apply (wf_parent _ _ _ Hwf)|by apply (wf_acyclic _ _ _ Hwf)].
  - intros r c _ Hc. cbn. split; [done|]. rewrite lookup_insert_ne; [done|]. intros ->. by apply (Ha r).
  - intros r Hr. by apply elem_of_nil in Hr.
Qed.

Section reallocate.
Context (dead : list Z) (h : rheap) (kids : Z -> list Z) (root old sz min max k : Z).
Abbreviation v := (view_of h).
Abbreviation c := (mkConstraint min max (2 ^ k) simple_align_resource).
Hypothesis Hwf : wf dead v kids.
Hypothesis Hold : old ∈ kids root.
Hypothesis Hsz : 0 < sz.
Hypothesis Hk : 0 <= k < 64.
Hypothesis Hmin : 0 <= min.
Hypothesis Hmax : 0 <= max < 2 ^ 64.
(** The resource has an address. *)
Hypothesis Hset : forall x, dat v !! old = Some x -> Z.land (d_flags x) IORESOURCE_UNSET = 0.
(** Nothing wraps around. *)
Hypothesis Hbound : Z.max (hi v root) min + 2 ^ k + sz <= 2 ^ 64.

Abbreviation fit := (fits v kids root old sz min max k).
Definition lowest_fit (s : Z) : Prop := fit s /\ forall s', fit s' -> s <= s'.

Definition moved (h' : rheap) (s : Z) : Prop :=
  (exists x, dat v !! old = Some x /\ dat (view_of h') = <[old := mkData s (s + sz - 1) (d_name x) (d_flags x)]> (dat v)) /\
  wf dead (view_of h') (<[root := insert_child (view_of h') old (remove_child old (kids root))]> kids).

Definition reallocated (ret : Z) (h' : rheap) : Prop :=
  (ret = 0 /\ exists s, lowest_fit s /\ moved h' s) \/
  (ret = - EBUSY /\ h' = h /\
    ((forall s', ~ fit s') \/ (kids old <> [] /\ exists s, lowest_fit s /\ ~ (s <= lo v old /\ hi v old <= s + sz - 1)))).

Lemma not_full : ~ full h kids root old.
Proof using All.
  intros (y & Hy & Hyo & Hlo & Hhi). pose proof (wf_within _ _ _ Hwf root old Hold) as W1. pose proof (wf_within _ _ _ Hwf root y Hy) as W2. unfold within in W1, W2.
  pose proof (wf_order _ _ _ Hwf root) as Ho. destruct (wf_live _ _ _ Hwf root old Hold) as (_ & [x Hx] & _). pose proof (wf_range _ _ _ Hwf old x Hx) as Hr.
  assert (Hhio : hi v old < 2 ^ 64) by (unfold hi; rewrite Hx; cbn; lia).
  destruct (list_elem_of_split _ _ Hold) as (l1 & l2 & Hk0). rewrite Hk0 in Ho, Hy. apply StronglySorted_app in Ho as (Hb & _ & [Ha _]%StronglySorted_cons).
  rewrite Forall_forall in Ha. unfold before in *. apply elem_of_app in Hy as [Hy|[->|Hy]%elem_of_cons]; [|done|].
  - specialize (Hb y old Hy ltac:(left)). lia.
  - specialize (Ha y Hy). lia.
Qed.

(** A place that covers the old range or lies in it leaves the neighbours alone. *)
Lemma in_place s : fit s -> (s <= lo v old /\ hi v old <= s + sz - 1) \/ (lo v old <= s /\ s + sz - 1 <= hi v old) ->
  neighbours_leave v kids old s (s + sz - 1).
Proof using All.
  intros (F1 & F2 & F3 & F4 & F5 & Fd) Hplace p Hp. assert (p = root) as -> by (eapply kids_disjoint; eauto).
  pose proof (wf_within _ _ _ Hwf root old Hold) as W. unfold within in W. split_and!; [done|done| |]; intros a Ha Hb; unfold before in Hb.
  all: assert (Hao : a <> old) by (intros ->; lia); specialize (Fd a Ha Hao); pose proof (wf_within _ _ _ Hwf root a Ha) as W2; unfold within in W2; lia.
Qed.

Lemma moved_in_place h' s x : dat v !! old = Some x -> view_of h' = set_dat v old (mkData s (s + sz - 1) (d_name x) (d_flags x)) -> 0 <= s -> s + sz <= 2 ^ 64 ->
  adjust_fits v kids old s (s + sz - 1) -> moved h' s.
Proof using All.
  intros Hx Hv Hs Hs2 Hfit. split; [exists x; split; [done|]; by rewrite Hv|]. destruct (set_range_view v old x s (s + sz - 1)) as (E1 & E2 & E3). rewrite <- Hv in E1, E2, E3.
  assert (Hwf' : wf dead (view_of h') kids) by (rewrite Hv; apply wf_set_range; try assumption; intros; lia).
  assert (Heq : insert_child (view_of h') old (remove_child old (kids root)) = kids root).
  { pose proof (kids_NoDup _ _ _ Hwf root) as Hnd. pose proof (wf_order _ _ _ Hwf' root) as Ho. assert (Hw : forall a, a ∈ kids root -> lo (view_of h') a <= hi (view_of h') a)
      by (intros a Ha; apply (wf_within _ _ _ Hwf' root a Ha)).
    destruct (list_elem_of_split _ _ Hold) as (l1 & l2 & Hk0). rewrite Hk0 in *. rewrite remove_child_split by done. apply StronglySorted_app in Ho as (Hb & _ & [Ha _]%StronglySorted_cons).
    rewrite Forall_forall in Ha. apply insert_child_split; [intros a Hal; apply Hb; [done|left]|done| |lia]. intros a Hal. apply Hw. set_solver. }
  rewrite Heq. revert Hwf'. apply wf_proper. intros r. destruct (decide (r = root)) as [->|]; [by rewrite fn_lookup_insert|by rewrite fn_lookup_insert_ne].
Qed.

(** The resource is released and requested again at its new place. *)
Lemma moved_away s o : shows v old o -> kids old = [] -> lowest_fit s -> s + sz <= 2 ^ 64 ->
  wp (__release_resource old;; update old (fun _ => with_range o s (s + sz - 1));; conflict ← __request_resource root old; st_bug_on (negb (conflict =? 0));; mret 0)
    (fun ret h' => ret = 0 /\ moved h' s) h.
Proof using All.
  intros Ho Hno [Hfit _] Hs2. pose proof Ho as (Hop & Hos & Hoc & Hod). destruct (wf_live _ _ _ Hwf root old Hold) as (Hr & Hol & Hrd & Hod').
  assert (Hne : old <> root) by (intros ->; by apply (acyclic dead v kids Hwf root)). pose proof Hfit as (F1 & F2 & F3 & F4 & F5 & Fd).
  apply wp_bind. eapply wp_mono; [apply (release_resource_ok dead h kids root old Hwf Hold)|]. intros _ h1 (_ & Hwf1 & Hd1 & Hp1 & Hw1). set (kids1 := <[root := _]> kids) in *.
  apply wp_bind, wp_overwrite; [by rewrite Hd1|]. set (h2 := <[old := _]> h1).
  assert (Hk1 : kids1 old = []) by (unfold kids1; by rewrite fn_lookup_insert_ne).
  assert (Hc1 : chd (view_of h1) !! old = Some (child o)).
  { destruct (wf_kids _ _ _ Hwf1 old ltac:(by rewrite Hd1) Hod') as [-> _]. destruct (wf_kids _ _ _ Hwf old Hol Hod') as [Hc _]. rewrite Hk1. rewrite Hno in Hc. congruence. }
  assert (Hfree : forall r, old ∉ kids1 r).
  { intros r. apply (unlinked _ _ _ Hwf1). by rewrite Hp1, lookup_insert_eq. }
  assert (Hv2 : set_par (view_of h2) old 0 = set_dat (set_sib (view_of h1) old (sibling o)) old (mkData s (s + sz - 1) (d_name (data o)) (d_flags (data o)))).
  { unfold h2. rewrite view_insert. unfold set_par, set_sib, set_dat. cbn. rewrite insert_insert_eq, Hp1, insert_insert_eq. f_equal. by apply insert_id. }
  assert (Hwf2 : wf dead (set_par (view_of h2) old 0) kids1).
  { rewrite Hv2. apply wf_set_range; cbn; [by apply wf_set_sib|by rewrite Hd1| |lia|lia|intros p Hp; by destruct (Hfree p)].
    split; [intros p Hp; by destruct (Hfree p)|]. rewrite Hk1. set_solver. }
  assert (Hd2 : dat (view_of h2) = <[old := mkData s (s + sz - 1) (d_name (data o)) (d_flags (data o))]> (dat v)) by (unfold h2; rewrite view_insert; cbn; by rewrite Hd1).
  assert (Hbelow : ~ below kids1 root old).
  { intros Hb. apply rtc_inv_r in Hb as [->|(z & _ & Hz)]; [done|]. rewrite Hk1 in Hz. by apply elem_of_nil in Hz. }
  apply wp_bind. eapply wp_mono; [apply (request_ok dead h2 kids1 root old Hwf2); [rewrite Hd2; by rewrite lookup_insert_ne|done|rewrite Hd2; by rewrite lookup_insert_eq|done|done]|].
  intros conf h3 [Hconf Hpost]. assert (Hzero : conf = 0).
  { rewrite Hconf. destruct (set_range_view v old (data o) s (s + sz - 1)) as (E1 & E2 & E3).
    destruct (same_dat_view (set_dat v old (mkData s (s + sz - 1) (d_name (data o)) (d_flags (data o)))) (view_of h2) Hd2) as (S1 & S2 & S3 & S4 & _).
    destruct (E3 root ltac:(done)) as [E4 E5]. unfold conflict_of. rewrite decide_True by (rewrite S3; unfold within; lia).
    rewrite filter_none; [done|]. unfold kids1. rewrite fn_lookup_insert. intros a [Hao Ha]%list_elem_of_filter. rewrite S4. unfold overlaps. destruct (E3 a Hao) as [E6 E7].
    specialize (Fd a Ha Hao). lia. }
  rewrite Hzero in *. rewrite decide_True in Hpost by done. destruct Hpost as (Hwf3 & Hd3 & _). apply wp_bind. exists tt, h3. split; [done|]. apply wp_ret. split; [done|].
  split; [exists (data o); split; [done|]; by rewrite Hd3|]. destruct (same_dat_view _ _ Hd3) as (_ & _ & _ & _ & ->).
  unfold kids1 in Hwf3. rewrite fn_lookup_insert in Hwf3. revert Hwf3. apply wf_proper. intros r.
  destruct (decide (r = root)) as [->|]; [by rewrite !fn_lookup_insert|by rewrite !fn_lookup_insert_ne].
Qed.

Lemma reallocate_ok : wp (reallocate_resource root old sz c) reallocated h.
Proof using All.
  destruct (wf_live _ _ _ Hwf root old Hold) as (Hr & Hol & Hrd & Hod'). pose proof (Z.pow_pos_nonneg 2 k ltac:(lia) ltac:(lia)) as Hp2.
  assert (Hmaxr : 0 <= hi v root < 2 ^ 64) by (by apply (range_of dead h kids Hwf)).
  unfold reallocate_resource. apply wp_bind, wp_rload; [done|]. intros o Ho. destruct (lo_shows v old o Ho) as [Elo Ehi]. pose proof Ho as (_ & _ & Hoc & Hod).
  apply wp_bind. destruct (find_ok dead h kids root old o sz min max k simple_align_resource Hwf Hr Hrd ltac:(lia) Hk ltac:(lia) Hmax) as (f & h' & Hfind & -> & Hf); [done|].
  exists f, h. split; [exact Hfind|]. destruct f as [[s e]|]; [|apply wp_ret; right; split_and!; [done|done|left; by apply Hf]].
  destruct Hf as (Hs & Hmins & He & Hemax & Hlow). destruct (Hlow eq_refl) as (_ & Hsb & [(Hse & Hfit & Hleast)|[[Hfull|Hwrap] _]]); [|by destruct not_full|lia].
  pose proof (end_nowrap s sz e Hs ltac:(lia) He Hse) as ->. clear He Hlow. assert (Hlf : lowest_fit s) by done.
  assert (Hput : adjust_fits v kids old s (s + sz - 1) -> wp (update old (fun n => with_range n s (s + sz - 1));; mret 0) reallocated h).
  { intros Hadj. apply wp_bind. eapply wp_set_range; [exact Hod|]. intros h' Hv'. apply wp_ret. left. split; [done|]. exists s. split; [done|].
    apply (moved_in_place h' s (data o)); try done; lia. }
  assert (Hcont : forall a b s1 e1 s2 e2, a = with_range o s1 e1 -> b = with_range o s2 e2 -> resource_contains a b = (s1 <=? s2) && (e1 >=? e2)).
  { intros a b s1 e1 s2 e2 -> ->. unfold resource_contains, resource_type, flag. cbn. specialize (Hset _ Hod). cbn in Hset. by rewrite Z.eqb_refl, Hset. }
  assert (Hself : o = with_range o (lo v old) (hi v old)) by (rewrite Elo, Ehi; by destruct o).
  rewrite (Hcont _ o s (s + sz - 1) _ _ eq_refl Hself), (Hcont o _ _ _ s (s + sz - 1) Hself eq_refl), !Z.geb_leb.
  assert (Hkw : forall a, a ∈ kids old -> lo v old <= lo v a /\ hi v a <= hi v old) by (intros a Ha; pose proof (wf_within _ _ _ Hwf old a Ha) as W; unfold within in W; lia).
  destruct (decide (s <= lo v old /\ hi v old <= s + sz - 1)) as [Hcov|Hncov].
  { rewrite (proj2 (Z.leb_le s (lo v old))), (proj2 (Z.leb_le (hi v old) _)) by lia. apply Hput. split; [apply in_place; auto|]. intros a Ha. specialize (Hkw a Ha). lia. }
  replace ((s <=? lo v old) && (hi v old <=? s + sz - 1)) with false by (destruct (Z.leb_spec s (lo v old)), (Z.leb_spec (hi v old) (s + sz - 1)); try done; lia).
  destruct (wf_kids _ _ _ Hwf old Hol Hod') as [Hch _]. assert (Hchild : child o = hd 0 (kids old)) by congruence. rewrite Hchild. destruct (kids old) as [|a l] eqn:Hko; cbn [hd].
  2: { assert (Ha : a ∈ kids old) by (rewrite Hko; left). destruct (kids_nonnull _ _ _ Hwf old a Ha) as [_ Ha0]. rewrite (proj2 (Z.eqb_neq a 0)) by done.
       apply wp_ret. right. split_and!; [done|done|]. right. rewrite Hko. split; [done|]. by exists s. }
  rewrite Z.eqb_refl. cbn [negb]. destruct ((lo v old <=? s) && (s + sz - 1 <=? hi v old)) eqn:Hins.
  - apply andb_true_iff in Hins as [H1%Z.leb_le H2%Z.leb_le]. apply Hput. split; [apply in_place; auto|]. rewrite Hko. set_solver.
  - eapply wp_mono; [by apply (moved_away s o); try done; lia|]. intros ret h' [-> Hm]. left. split; [done|]. by exists s.
Qed.
End reallocate.

(** ** What the functions promise *)


