(* ===== verification/ResourceInsert.v ===== *)
(** Inserting a resource above others: [__insert_resource]. *)
From stdpp Require Import gmap strings sorting functions.
From Stdlib Require Import Wellfounded.Inclusion.
From S2P Require Import Prelude State Sorting ResourceDefs ResourceTree ResourceRequest ResourceAlloc.

(** ** Paths to the root *)

(** A path upwards. *)
Fixpoint path (kids : Z -> list Z) (l : list Z) : Prop :=
  match l with a :: ((b :: _) as l') => a ∈ kids b /\ path kids l' | _ => True end.

Lemma tc_irrefl {A} (R : A -> A -> Prop) x : Acc R x -> ~ tc R x x.
Proof.
  induction 1 as [x _ IH]. intros Htc.
  assert (Hlast : exists y, rtc R x y /\ R y x).
  { clear IH. revert Htc. generalize x at 2 4. intros z Htc. induction Htc as [x y Hxy|x y z Hxy _ (w & Hw & Hwz)]; [by exists x|]. exists w. split; [|done]. by eapply rtc_l. }
  destruct Hlast as (y & Hxy & Hyx). apply (IH y Hyx). eapply tc_rtc_r; [by apply tc_once|done].
Qed.

Lemma path_tc kids a l x : path kids (a :: l) -> x ∈ l -> tc (fun c r => c ∈ kids r) a x.
Proof.
  revert a. induction l as [|b l IH]; intros a Hp Hx; [by apply elem_of_nil in Hx|]. destruct Hp as [Hab Hp]. apply elem_of_cons in Hx as [->|Hx]; [by apply tc_once|].
  eapply tc_l; [exact Hab|]. by apply IH.
Qed.

Lemma path_NoDup dead v kids l : wf dead v kids -> path kids l -> NoDup l.
Proof.
  intros Hwf. induction l as [|a l IH]; intros Hp; constructor.
  - intros Ha. apply (tc_irrefl (fun c r => c ∈ kids r) a); [apply (wf_acyclic _ _ _ Hwf)|]. by apply (path_tc kids a l).
  - apply IH. destruct l; [done|]. apply Hp.
Qed.

Lemma path_length dead v kids l : wf dead v kids -> path kids l -> (forall a, last l = Some a -> is_Some (dat v !! a)) -> (length l <= size (dat v))%nat.
Proof.
  intros Hwf Hp Hl. apply NoDup_size; [by eapply path_NoDup|]. induction l as [|a l IH]; intros c Hc; [by apply elem_of_nil in Hc|].
  destruct l as [|b l]; [apply list_elem_of_singleton in Hc as ->; by apply Hl|]. destruct Hp as [Hab Hp]. apply elem_of_cons in Hc as [->|Hc].
  - by apply (wf_live _ _ _ Hwf b a).
  - apply IH; [done| |done]. intros x Hx. apply Hl. by rewrite last_cons_cons.
Qed.

(** ** Putting a resource between a parent and some of its children *)

Lemma seg_change v v' r r' l z q x : seg v r (l ++ [z]) q -> (forall c, c ∈ l ++ [z] -> par v' !! c = Some r') ->
  (forall c, c ∈ l -> sib v' !! c = sib v !! c) -> sib v' !! z = Some x -> seg v' r' (l ++ [z]) x.
Proof.
  induction l as [|c l IH]; cbn; intros Hs Hp Hsib Hz; [split_and!; [apply Hp; left|done|done]|]. destruct Hs as (_ & Hc & Hs).
  split_and!; [apply Hp; left| |apply IH; set_solver]. rewrite Hsib by left. rewrite Hc. by destruct l.
Qed.

Section above.
Context (dead : list Z) (v : view) (kids : Z -> list Z) (p new : Z) (l1 m l2 : list Z) (first next : Z).
Hypothesis Hwf : wf dead v kids.
Hypothesis Hp : is_Some (dat v !! p).
Hypothesis Hpd : p ∉ dead.
Hypothesis Hnew : is_Some (dat v !! new).
Hypothesis Hnewd : new ∉ dead.
Hypothesis Hpar : par v !! new = Some 0.
Hypothesis Hne : new <> p.
Hypothesis Hnokids : kids new = [].
Hypothesis Hkids : kids p = l1 ++ m ++ l2.
Hypothesis Hfirst : head m = Some first.
Hypothesis Hnext : last m = Some next.
Hypothesis Hin : within v new p.
Hypothesis Hl1 : forall c, c ∈ l1 -> before v c new.
Hypothesis Hm : forall c, c ∈ m -> within v c new.
Hypothesis Hl2 : forall c, c ∈ l2 -> before v new c.

(** The links after the insertion, but for the one in front of [new]. *)
Definition above_links (v' : view) : Prop :=
  dat v' = dat v /\ chd v' = <[new := first]> (chd v) /\ sib v' = <[next := 0]> (<[new := hd 0 l2]> (sib v)) /\
  forall a, par v' !! a = if decide (a ∈ m) then Some new else if decide (a = new) then Some p else par v !! a.

Definition above_kids : Z -> list Z := <[p := l1 ++ new :: l2]> (<[new := m]> kids).

Lemma above_facts : NoDup (l1 ++ m ++ l2) /\ (new ∉ l1 ++ m ++ l2) /\ (p ∉ l1 ++ m ++ l2) /\ next ∈ m /\ first ∈ m /\
  (forall x, x ∈ l1 ++ m ++ l2 -> is_Some (dat v !! x) /\ (x ∉ dead) /\ within v x p) /\ forall r, new ∉ kids r.
Proof using All.
  pose proof (kids_NoDup _ _ _ Hwf p) as Hnd. pose proof (unlinked _ _ _ Hwf p new Hpar) as Hf. pose proof (acyclic _ _ _ Hwf p) as Ha. rewrite Hkids in Hnd, Hf, Ha.
  split_and!; try done.
  - by apply last_Some_elem_of.
  - by apply head_Some_elem_of.
  - intros x Hx. rewrite <- Hkids in Hx. destruct (wf_live _ _ _ Hwf p x Hx) as (_ & ? & _ & ?). split_and!; [done|done|by apply (wf_within _ _ _ Hwf)..].
  - intros r. by apply (unlinked _ _ _ Hwf).
Qed.

Lemma above_children v5 : above_links v5 -> children (set_slot v5 p l1 new) p (l1 ++ new :: l2) 0 /\ children (set_slot v5 p l1 new) new m 0.
Proof using All.
  intros (Hdat & Hchd & Hsib & Hpars). destruct above_facts as (Hnd & Hf & Hpf & Hnm & Hfm & _). pose proof (wf_kids _ _ _ Hwf p Hp Hpd) as Hch.
  rewrite Hkids, children_app in Hch. destruct Hch as [Hch1 Hseg]. apply seg_app in Hseg as [Hsegm Hseg2].
  apply NoDup_app in Hnd as (Hnd1 & Hd1 & (Hndm & Hd2 & Hnd2)%NoDup_app).
  assert (Hch5 : children v5 p l1 (hd 0 (m ++ l2))).
  { apply (children_agree v); [rewrite Hchd; by rewrite lookup_insert_ne| |exact Hch1]. intros c Hc. rewrite Hpars, Hsib.
    rewrite !decide_False by (specialize (Hd1 c Hc); set_solver). split; [done|]. rewrite !lookup_insert_ne; [done|set_solver|specialize (Hd1 c Hc); set_solver]. }
  apply (children_set_slot _ _ _ _ new) in Hch5; [|done]. split.
  - apply children_app. cbn [hd]. split; [done|]. cbn. split_and!.
    + rewrite set_slot_par, Hpars. rewrite decide_False by set_solver. by rewrite decide_True.
    + rewrite set_slot_sib by set_solver. rewrite Hsib, lookup_insert_ne by set_solver. by rewrite lookup_insert_eq.
    + revert Hseg2. apply seg_agree. intros c Hc. rewrite set_slot_par, Hpars.
      rewrite !decide_False by set_solver. split; [done|]. rewrite set_slot_sib by set_solver. rewrite Hsib, !lookup_insert_ne by set_solver. done.
  - split.
    + rewrite set_slot_chd by done. rewrite Hchd, lookup_insert_eq. destruct m as [|a m']; [done|]. cbn in *. congruence.
    + apply last_Some in Hnext as [m' Hm']. rewrite Hm' in *. eapply seg_change; [exact Hsegm| | |].
      * intros c Hc. rewrite set_slot_par, Hpars. by rewrite decide_True.
      * intros c Hc. rewrite set_slot_sib by set_solver. apply NoDup_app in Hndm as (_ & Hd3 & _). rewrite Hsib, !lookup_insert_ne; [done|set_solver|set_solver].
      * rewrite set_slot_sib by set_solver. by rewrite Hsib, lookup_insert_eq.
Qed.

Lemma above_acyclic : well_founded (fun c r => c ∈ above_kids r).
Proof using All.
  destruct above_facts as (_ & _ & _ & _ & _ & _ & Hfree).
  assert (Hacc : forall x, x <> new -> Acc (fun c r => c ∈ above_kids r) x).
  { intros x. induction (wf_acyclic _ _ _ Hwf x) as [x _ IH]. intros Hx. assert (IH' : forall y, y ∈ kids x -> Acc (fun c r => c ∈ above_kids r) y).
    { intros y Hy. apply IH; [done|]. intros ->. by apply (Hfree x). }
    constructor. intros y Hy. unfold above_kids in Hy. destruct (decide (x = p)) as [->|Hxp].
    - rewrite fn_lookup_insert in Hy. rewrite Hkids in IH'. apply elem_of_app in Hy as [Hy|[->|Hy]%elem_of_cons]; [apply IH'; set_solver| |apply IH'; set_solver].
      constructor. intros z Hz. unfold above_kids in Hz. rewrite fn_lookup_insert_ne, fn_lookup_insert in Hz by done. apply IH'. set_solver.
    - rewrite !fn_lookup_insert_ne in Hy by done. by apply IH'. }
  intros x. destruct (decide (x = new)) as [->|Hx]; [|by apply Hacc]. constructor. intros y Hy. apply Hacc. intros ->. unfold above_kids in Hy.
  rewrite fn_lookup_insert_ne, fn_lookup_insert in Hy by done. apply (Hfree p). rewrite Hkids. set_solver.
Qed.

Lemma wf_above v5 : above_links v5 -> wf dead (set_slot v5 p l1 new) above_kids.
Proof using All.
  intros Hl. destruct (above_children v5 Hl) as [Hcp Hcn]. destruct Hl as (Hdat & Hchd & Hsib & Hpars). destruct above_facts as (Hnd & Hf & Hpf & Hnm & Hfm & Hall & Hfree).
  pose proof (wf_order _ _ _ Hwf p) as Ho. rewrite Hkids in Ho. apply StronglySorted_app in Ho as (Ho1 & Hos1 & (Ho2 & Hosm & Hos2)%StronglySorted_app).
  assert (Hkp : above_kids p = l1 ++ new :: l2) by (unfold above_kids; by rewrite fn_lookup_insert).
  assert (Hkn : above_kids new = m) by (unfold above_kids; rewrite fn_lookup_insert_ne by done; by rewrite fn_lookup_insert).
  assert (Hko : forall r, r <> p -> r <> new -> above_kids r = kids r) by (intros r ??; unfold above_kids; by rewrite !fn_lookup_insert_ne).
  apply (wf_update dead v _ kids _ [p; new]); [exact Hwf|by rewrite set_slot_dat| | | | | |exact above_acyclic].
  - intros r Hr. apply Hko; set_solver.
  - intros r Hr. rewrite set_slot_chd by set_solver. rewrite Hchd, lookup_insert_ne; [done|set_solver].
  - intros r c Hr Hc. assert (Hcp' : c ∉ l1 ++ m ++ l2) by (rewrite <- Hkids; intros Hc'; pose proof (kids_disjoint _ _ _ Hwf _ _ _ Hc Hc'); set_solver).
    assert (Hcn' : c <> new) by (intros ->; by apply (Hfree r)). rewrite set_slot_par, set_slot_sib by set_solver. rewrite Hpars, Hsib, !decide_False by set_solver.
    split; [done|]. rewrite !lookup_insert_ne; [done|done|set_solver].
  - intros r Hr. apply elem_of_cons in Hr as [->|Hr].
    + rewrite Hkp. split; [done|]. split; [done|]. split; [done|]. split.
      * apply StronglySorted_app. split_and!; [|done|apply StronglySorted_cons; split; [by apply Forall_forall|done]].
        intros a b Ha [->|Hb]%elem_of_cons; [by apply Hl1|]. apply Ho1; set_solver.
      * intros c Hc. apply elem_of_app in Hc as [Hc|[->|Hc]%elem_of_cons]; [|done|]; destruct (Hall c ltac:(set_solver)) as (? & ? & ?); done.
    + apply list_elem_of_singleton in Hr as ->. rewrite Hkn. split; [done|]. split; [done|]. split; [done|]. split; [done|].
      intros c Hc. destruct (Hall c ltac:(set_solver)) as (? & ? & ?). split; [by apply Hm|done].
  - intros r c. rewrite set_slot_par, Hpars. destruct (decide (c ∈ m)) as [Hc|Hc]; [intros [= <-] _ _; by rewrite Hkn|].
    destruct (decide (c = new)) as [->|Hcn']; [intros [= <-] _ _; rewrite Hkp; set_solver|]. intros Hpc Hcd Hr0. pose proof (wf_parent _ _ _ Hwf r c Hpc Hcd Hr0) as Hck.
    destruct (decide (r = p)) as [->|Hrp]; [rewrite Hkp; rewrite Hkids in Hck; set_solver|]. destruct (decide (r = new)) as [->|Hrn]; [|by rewrite Hko].
    rewrite Hnokids in Hck. by apply elem_of_nil in Hck.
Qed.
End above.

(** ** The writes of the insertion *)

(** The links between siblings only. *)
Fixpoint sibs (v : view) (l : list Z) : Prop :=
  match l with [] => True | c :: l => sib v !! c = Some (hd 0 l) /\ sibs v l end.

Lemma seg_sibs v r l : seg v r l 0 -> sibs v l.
Proof. induction l as [|c l IH]; [done|]. intros (_ & Hc & Hs). split; [done|]. by apply IH. Qed.

Lemma adopt_ok new l : forall h fuel, 0 ∉ l -> (forall c, c ∈ l -> is_Some (dat (view_of h) !! c)) -> sibs (view_of h) l -> NoDup l -> (length l < fuel)%nat ->
  wp (st_loop fuel (insert_adopt new) (hd 0 l)) (fun _ h' =>
    dat (view_of h') = dat (view_of h) /\ chd (view_of h') = chd (view_of h) /\ sib (view_of h') = sib (view_of h) /\
    forall a, par (view_of h') !! a = if decide (a ∈ l) then Some new else par (view_of h) !! a) h.
Proof.
  induction l as [|c l IH]; intros h fuel H0 Hl Hs Hnd Hf; (destruct fuel as [|fuel]; [cbn in Hf; lia|]).
  - exists tt, h. split; [done|]. split_and!; [done..|]. intros a. rewrite decide_False; [done|]. apply not_elem_of_nil.
  - apply NoDup_cons in Hnd as [Hc Hnd]. destruct Hs as [Hsc Hs].
    assert (Hstep : wp (insert_adopt new c) (fun o h' => o = inl (hd 0 l) /\ view_of h' = set_par (view_of h) c new) h).
    { unfold insert_adopt. rewrite (proj2 (Z.eqb_neq c 0)) by set_solver. apply wp_bind, wp_set_par; [apply Hl; left|]. intros h1 Hv1.
      apply wp_bind, wp_rload; [rewrite Hv1; apply Hl; left|]. intros x (_ & Hx & _). apply wp_ret. split; [|done]. rewrite Hv1 in Hx. cbn in Hx. congruence. }
    destruct Hstep as (o & h1 & Hb & -> & Hv1). destruct (IH h1 fuel) as (u & h2 & Hloop & Hd & Hch & Hsib & Hpar); [set_solver| | |done|cbn in Hf; lia|].
    { intros x Hx. rewrite Hv1. apply Hl. by right. } { rewrite Hv1. clear -Hs. induction l as [|a l IH]; [done|]. destruct Hs. split; [done|]. by apply IH. }
    exists u, h2. split; [unfold st_loop in *; cbn [loop hd]; by rewrite Hb|]. rewrite Hv1 in *. cbn in *. split_and!; [done..|]. intros a. rewrite Hpar.
    destruct (decide (a ∈ l)) as [Ha|Ha]; [by rewrite decide_True by (by right)|]. destruct (decide (a = c)) as [->|Hac]; [rewrite lookup_insert_eq; by rewrite decide_True by left|].
    rewrite lookup_insert_ne by done. rewrite decide_False; [done|]. set_solver.
Qed.

Section above_code.
Context (dead : list Z) (h : rheap) (kids : Z -> list Z) (p new : Z) (l1 m l2 : list Z) (first next : Z).
Abbreviation v := (view_of h).
Hypothesis Hwf : wf dead v kids.
Hypothesis Hp : is_Some (dat v !! p).
Hypothesis Hpd : p ∉ dead.
Hypothesis Hnew : is_Some (dat v !! new).
Hypothesis Hnewd : new ∉ dead.
Hypothesis Hpar : par v !! new = Some 0.
Hypothesis Hne : new <> p.
Hypothesis Hnokids : kids new = [].
Hypothesis Hkids : kids p = l1 ++ m ++ l2.
Hypothesis Hfirst : head m = Some first.
Hypothesis Hnext : last m = Some next.
Hypothesis Hin : within v new p.
Hypothesis Hl1 : forall c, c ∈ l1 -> before v c new.
Hypothesis Hm : forall c, c ∈ m -> within v c new.
Hypothesis Hl2 : forall c, c ∈ l2 -> before v new c.

Lemma insert_above_ok : wp (insert_above new p first next) (fun c h' =>
  c = 0 /\ dat (view_of h') = dat v /\ wf dead (view_of h') (above_kids kids p new l1 m l2)) h.
Proof using All.
  destruct (above_facts dead v kids p new l1 m l2 first next Hwf Hp Hpd Hnew Hnewd Hpar Hne Hnokids Hkids Hfirst Hnext Hin Hl1 Hm Hl2) as (Hnd & Hf & Hpf & Hnm & Hfm & Hall & Hfree).
  pose proof (wf_kids _ _ _ Hwf p Hp Hpd) as [Hcp Hseg]. rewrite Hkids in Hcp, Hseg. pose proof Hseg as Hseg'. apply seg_app in Hseg' as [Hseg1 Hsegm]. apply seg_app in Hsegm as [Hsegm _].
  assert (Hm0 : exists m', m = first :: m') by (destruct m as [|a m']; [done|]; injection Hfirst as ->; by exists m'). destruct Hm0 as [mt Hmt].
  unfold insert_above. apply wp_bind, wp_set_par; [done|]. intros h1 Hv1. apply wp_bind, wp_rload; [rewrite Hv1; apply Hall; set_solver|]. intros x (_ & Hx & _).
  assert (Hsx : sibling x = hd 0 l2).
  { rewrite Hv1 in Hx. cbn in Hx. apply last_Some in Hnext as [m' Hm']. rewrite Hm' in Hsegm. apply seg_app in Hsegm as [_ (_ & Hz & _)]. cbn in Hz. congruence. }
  rewrite Hsx. apply wp_bind, wp_set_sib; [by rewrite Hv1|]. intros h2 Hv2. apply wp_bind, wp_set_chd; [by rewrite Hv2, Hv1|]. intros h3 Hv3.
  apply wp_bind, wp_set_sib; [rewrite Hv3, Hv2, Hv1; apply Hall; set_solver|]. intros h4 Hv4. rewrite Hv3, Hv2, Hv1 in Hv4. clear h1 h2 h3 Hv1 Hv2 Hv3 x Hx Hsx.
  assert (Hszs : size h4 = size h) by (rewrite <- !view_size, Hv4; done). pose proof (kids_length dead v kids p Hwf) as Hlen. rewrite Hkids, view_size in Hlen. rewrite !length_app in Hlen.
  apply NoDup_app in Hnd as (Hnd1 & Hd1 & (Hndm & Hd2 & Hnd2)%NoDup_app). assert (H0 : 0 ∉ m).
  { intros H0. destruct (kids_nonnull _ _ _ Hwf p 0) as [_ ?]; [rewrite Hkids; set_solver|done]. }
  apply wp_bind. unfold while_ at 1. replace first with (hd 0 m) by (by rewrite Hmt). eapply wp_mono; [apply (adopt_ok new m h4)|]; try done.
  { intros c Hc. rewrite Hv4. apply Hall. set_solver. }
  { rewrite Hv4. apply (seg_sibs _ p). apply last_Some in Hnext as [m' Hm']. rewrite Hm' in *. eapply seg_change; [exact Hsegm| | |]; cbn.
    - intros c Hc. rewrite lookup_insert_ne by set_solver. by eapply seg_parent.
    - intros c Hc. apply NoDup_app in Hndm as (_ & Hd3 & _). rewrite !lookup_insert_ne; [done|set_solver|set_solver].
    - by rewrite lookup_insert_eq. }
  { lia. }
  intros _ h5 (Hd5 & Hc5 & Hs5 & Hp5). assert (Hl5 : above_links v p new m l2 first next (view_of h5)).
  { split_and!; [by rewrite Hd5, Hv4|by rewrite Hc5, Hv4|by rewrite Hs5, Hv4|]. intros a. rewrite Hp5. destruct (decide (a ∈ m)); [done|]. rewrite Hv4. cbn.
    destruct (decide (a = new)) as [->|]; [by rewrite lookup_insert_eq|by rewrite lookup_insert_ne]. }
  assert (Hdone : forall h6, view_of h6 = set_slot (view_of h5) p l1 new -> wp (mret 0) (fun c h' => c = 0 /\ dat (view_of h') = dat v /\ wf dead (view_of h') (above_kids kids p new l1 m l2)) h6).
  { intros h6 Hv6. apply wp_ret. split; [done|]. rewrite Hv6, set_slot_dat. split; [apply Hl5|]. by apply (wf_above dead v kids p new l1 m l2 first next). }
  destruct Hl5 as (Hd6 & Hc6 & Hs6 & Hp6). apply wp_bind, wp_rload; [by rewrite Hd6|]. intros np (_ & _ & Hnp & _).
  assert (Hcn : child np = hd first l1) by (rewrite Hc6, lookup_insert_ne in Hnp by done; rewrite Hmt, hd_app_hd in Hcp; cbn in Hcp; congruence). assert (Hhd : hd 0 m = first) by (by rewrite Hmt). rewrite Hcn, Hhd.
  destruct l1 as [|a l] eqn:Hl; cbn [hd].
  { rewrite Z.eqb_refl. apply wp_bind, wp_set_chd; [by rewrite Hd6|]. exact Hdone. }
  rewrite (proj2 (Z.eqb_neq a first)) by (intros ->; apply (Hd1 first); set_solver). rewrite <- Hl in *.
  destruct (before_ok h5 p l1 first (S (size h5))) as (x & Hlast & Hloop); [|intros c Hc; rewrite Hd6; apply Hall; set_solver|intros Hc; apply (Hd1 first Hc); set_solver|by rewrite Hl| |].
  { rewrite Hmt in Hseg1. cbn in Hseg1. revert Hseg1. apply seg_agree. intros c Hc. rewrite Hp6, Hs6. specialize (Hd1 c Hc).
    rewrite !decide_False by set_solver. split; [done|]. rewrite !lookup_insert_ne; [done|set_solver|set_solver]. }
  { rewrite <- (view_size h5), Hd6, view_size. lia. }
  apply wp_bind. exists x, h5. split; [rewrite Hl in Hloop; exact Hloop|]. apply wp_bind. assert (Hxl : x ∈ l1) by (by apply last_Some_elem_of). apply wp_set_sib; [rewrite Hd6; apply Hall; set_solver|].
  intros h6 Hv6. apply Hdone. unfold set_slot. by rewrite Hlast.
Qed.
End above_code.

(** ** [__insert_resource] *)

Section insert.
Context (dead : list Z) (h : rheap) (kids : Z -> list Z) (root new : Z).
Abbreviation v := (view_of h).
Hypothesis Hpre : request_pre dead h kids root new.
Hypothesis Hnokids : kids new = [].

(** [new] goes between [p] and the children [m], which it covers. *)
Record place (p : Z) (l1 m l2 : list Z) : Prop := {
  pl_below : below kids p root;
  pl_kids : kids p = l1 ++ m ++ l2;
  pl_within : within v new p;
  pl_l1 : forall c, c ∈ l1 -> before v c new;
  pl_m : forall c, c ∈ m -> within v c new;
  pl_l2 : forall c, c ∈ l2 -> before v new c }.

(** The resource overlaps [new], and neither contains the other. *)
Definition crosses (c : Z) : Prop := below kids c root /\ c <> root /\ overlaps v new c /\ ~ within v c new /\ ~ within v new c.

Definition inserted (c : Z) (h' : rheap) : Prop :=
  (c = 0 /\ dat (view_of h') = dat v /\ exists p l1 m l2, place p l1 m l2 /\ wf dead (view_of h') (above_kids kids p new l1 m l2)) \/
  (c <> 0 /\ h' = h /\ ((c = root /\ ~ within v new root) \/ (within v new root /\ crosses c))).

(** A resource below [root]. *)
Record reached (p : Z) (l : list Z) : Prop := {
  re_path : path kids (p :: l);
  re_last : last (p :: l) = Some root;
  re_within : p <> root -> within v new p }.

Lemma path_below a l : path kids (a :: l) -> forall r, last (a :: l) = Some r -> below kids a r.
Proof.
  revert a. induction l as [|b l IH]; intros a Hp r Hr; [injection Hr as ->; constructor|]. destruct Hp as [Hab Hp]. rewrite last_cons_cons in Hr.
  eapply rtc_l; [exact Hab|]. by apply IH.
Qed.

Lemma reached_pre p l : reached p l -> request_pre dead h kids p new.
Proof using All.
  intros [Hp Hl _]. pose proof Hpre as [H1 H2 H3 H4 H5 H6 H7].
  assert (Hps : is_Some (dat v !! p) /\ (p ∉ dead) /\ p <> new).
  { destruct l as [|q l]; [injection Hl as ->; split_and!; [done|done|]; intros ->; by apply H7|]. destruct Hp as [Hpq _].
    destruct (wf_live _ _ _ H1 q p Hpq) as (_ & ? & _ & ?). split_and!; [done|done|]. intros ->. by apply (unlinked _ _ _ H1 q new). }
  destruct Hps as (? & ? & Hpn). constructor; try assumption. intros Hb. apply rtc_inv_r in Hb as [->|(z & _ & Hz)]; [done|]. rewrite Hnokids in Hz. by apply elem_of_nil in Hz.
Qed.

Lemma reached_child p l c : reached p l -> c ∈ kids p -> within v new c -> reached c (p :: l).
Proof. intros [Hp Hl _] Hc Hw. constructor; [done|by rewrite last_cons_cons|done]. Qed.

Lemma reached_below p l : reached p l -> below kids p root.
Proof. intros [Hp Hl _]. by eapply path_below. Qed.

Lemma below_within c r : below kids c r -> lo v r <= lo v c /\ hi v c <= hi v r.
Proof using Hpre.
  induction 1 as [|a b c Hab _ IH]; [lia|]. pose proof (wf_within _ _ _ (rp_wf _ _ _ _ _ Hpre) b a Hab) as Hw. unfold within in Hw. lia.
Qed.

Lemma reached_length p l : reached p l -> (length l < size h)%nat.
Proof using All.
  intros [Hp Hl _]. pose proof (path_length dead v kids (p :: l) (rp_wf _ _ _ _ _ Hpre) Hp) as Hlen. rewrite view_size in Hlen. cbn in Hlen.
  assert (Hx : forall a, last (p :: l) = Some a -> is_Some (dat v !! a)) by (intros a Ha; rewrite Hl in Ha; injection Ha as <-; apply Hpre). specialize (Hlen Hx). lia.
Qed.

(** [first] is the first child of [p] that overlaps, and does not contain [new]
    unless they are equal. *)
Definition descended (o : Z + Z * Z) (h' : rheap) : Prop :=
  match o with
  | inl c => inserted c h'
  | inr (p, first) => h' = h /\ exists l, reached p l /\ within v new p /\ first ∈ kids p /\ overlaps v new first /\
      (forall x, x ∈ kids p -> before v x first -> ~ overlaps v new x) /\ (within v new first -> within v first new)
  end.

Definition descend_inv (n : nat) (p : Z) (h' : rheap) : Prop := h' = h /\ exists l, reached p l /\ n = (size h - length l)%nat.

Lemma descend_step_ok n p h' : descend_inv n p h' ->
  wp (insert_descend new p) (fun o h' => match o with inl p' => exists n', (n' < n)%nat /\ descend_inv n' p' h' | inr r => descended r h' end) h'.
Proof using All.
  intros [-> (l & Hre & ->)]. pose proof (reached_pre p l Hre) as Hprep. pose proof (rp_wf _ _ _ _ _ Hpre) as Hwf. pose proof (reached_length p l Hre) as Hlen.
  unfold insert_descend. apply wp_bind. eapply wp_mono; [apply (request_pre_ok dead h kids p new Hprep)|]. intros c h' [Hc Hpost].
  destruct (conflict_spec dead h kids p new c Hprep Hc) as [Hz Hnz]. destruct (Z.eqb_spec c 0) as [Hc0|Hc0].
  { apply wp_ret. rewrite decide_True in Hpost by done. destruct Hpost as (Hwf' & Hd & _). destruct (Hz Hc0) as [Hin Hno].
    assert (Hle : forall a, a ∈ kids p -> lo v a <= hi v a) by (intros a Ha; apply (wf_within _ _ _ Hwf p a Ha)).
    destruct (sorted_gap v new (kids p) (wf_order _ _ _ Hwf p) Hle Hno) as (l1 & l2 & Hk & H1 & H2). left. split_and!; [done|done|]. exists p, l1, [], l2. split.
    - constructor; try done; [by eapply reached_below|set_solver].
    - destruct (insert_child_split v new l1 l2 H1 H2) as [Hins _]; [intros a; rewrite <- Hk; apply Hle|apply Hin|]. rewrite Hk, Hins in Hwf'. revert Hwf'. apply wf_proper.
      intros r. unfold above_kids. destruct (decide (r = p)) as [->|]; [by rewrite !fn_lookup_insert|]. rewrite !(fn_lookup_insert_ne _ p) by done.
      destruct (decide (r = new)) as [->|]; [by rewrite fn_lookup_insert|by rewrite fn_lookup_insert_ne]. }
  rewrite decide_False in Hpost by done. rewrite Hpost. destruct (Hnz Hc0) as [[-> Hnw]|(Hin & Hck & Hov & Hfst)].
  { rewrite Z.eqb_refl. apply wp_ret. right. split_and!; [done|done|left]. destruct (decide (p = root)) as [->|Hpr]; [done|].
    exfalso. by apply Hnw, (re_within _ _ Hre). }
  assert (Hcp : c <> p) by (intros ->; by apply (acyclic _ _ _ Hwf p)). assert (Hcn : c <> new) by (intros ->; by apply (unlinked _ _ _ Hwf p new (rp_par _ _ _ _ _ Hpre))).
  rewrite (proj2 (Z.eqb_neq c p)), (proj2 (Z.eqb_neq c new)) by done. apply wp_bind, wp_rload; [by eapply (kids_some dead)|]. intros f Hf. destruct (lo_shows v c f Hf) as [<- <-].
  apply wp_bind, wp_rload; [apply Hpre|]. intros n Hn. destruct (lo_shows v new n Hn) as [<- <-]. pose proof (wf_within _ _ _ Hwf p c Hck) as Hcw.
  destruct (Z.gtb_spec (lo v c) (lo v new)); cbn [orb]; [|destruct (Z.ltb_spec (hi v c) (hi v new)); cbn [orb]].
  1,2: apply wp_ret; split; [done|]; exists l; split_and!; try done; unfold within in *; lia.
  destruct (Z.eqb_spec (lo v c) (lo v new)), (Z.eqb_spec (hi v c) (hi v new)); cbn [andb]; apply wp_ret.
  1: split; [done|]; exists l; split_and!; try done; unfold within in *; lia.
  all: exists (size h - length (p :: l))%nat; split; [cbn; lia|]; split; [done|]; exists (p :: l); split; [|done]; apply reached_child; try done; unfold within in *; lia.
Qed.

Section cover.
Context (p first : Z) (l : list Z).
Hypothesis Hre : reached p l.
Hypothesis Hin : within v new p.
Hypothesis Hfirst : first ∈ kids p.
Hypothesis Hov : overlaps v new first.
Hypothesis Hbefore : forall x, x ∈ kids p -> before v x first -> ~ overlaps v new x.
Hypothesis Heq : within v new first -> within v first new.

Definition covered (o : Z + Z) (h' : rheap) : Prop :=
  h' = h /\ match o with inl c => crosses c | inr next => exists l1 m l2, place p l1 m l2 /\ head m = Some first /\ last m = Some next end.

Definition cover_inv (n : nat) (next : Z) (h' : rheap) : Prop :=
  h' = h /\ exists l1 ma l2, kids p = l1 ++ ma ++ next :: l2 /\ n = length l2 /\ (forall c, c ∈ l1 -> before v c new) /\ (forall c, c ∈ ma -> within v c new) /\
    lo v next <= hi v new /\ head (ma ++ [next]) = Some first /\ (next = first \/ lo v new < lo v next).

Lemma child_below c : c ∈ kids p -> below kids c root /\ c <> root.
Proof using All.
  intros Hc. split; [eapply rtc_l; [exact Hc|by eapply reached_below]|]. intros ->. apply (tc_irrefl (fun c r => c ∈ kids r) root); [apply (wf_acyclic _ _ _ (rp_wf _ _ _ _ _ Hpre))|].
  eapply tc_rtc_r; [apply tc_once; exact Hc|by eapply reached_below].
Qed.

Lemma cover_step_ok n next h' : cover_inv n next h' ->
  wp (insert_cover new next) (fun o h' => match o with inl x' => exists n', (n' < n)%nat /\ cover_inv n' x' h' | inr r => covered r h' end) h'.
Proof using All.
  intros [-> (l1 & ma & l2 & Hk & -> & Hl1 & Hma & Hnx & Hhd & Hpos)]. pose proof (rp_wf _ _ _ _ _ Hpre) as Hwf. assert (Hck : next ∈ kids p) by (rewrite Hk; set_solver).
  pose proof (wf_within _ _ _ Hwf p next Hck) as Hw. pose proof (wf_order _ _ _ Hwf p) as Ho. rewrite Hk, app_assoc in Ho. apply StronglySorted_app in Ho as (Ho1 & _ & [Ho2 Hos2]%StronglySorted_cons).
  rewrite Forall_forall in Ho2. unfold insert_cover. apply wp_bind, wp_rload; [by eapply (kids_some dead)|]. intros x Hx. destruct (lo_shows v next x Hx) as [<- <-].
  apply wp_bind, wp_rload; [apply Hpre|]. intros n Hn. destruct (lo_shows v new n Hn) as [<- <-]. destruct ((lo v next <? lo v new) || (hi v next >? hi v new)) eqn:Hpart.
  { apply wp_ret. split; [done|]. destruct (child_below next Hck) as [Hb Hr]. assert (Hnot : ~ within v next new).
    { unfold within. apply orb_true_iff in Hpart as [?%Z.ltb_lt|Hp%Z.gtb_lt]; lia. }
    split_and!; [done|done| |done|]; (destruct Hpos as [->|Hpos]; [try done; auto|unfold overlaps, within in *; lia]). }
  apply orb_false_iff in Hpart as [Hp1%Z.ltb_ge Hp2]. rewrite Z.gtb_ltb in Hp2. apply Z.ltb_ge in Hp2. assert (Hwn : within v next new) by (unfold within in *; lia).
  assert (Hsib : sibling x = hd 0 l2).
  { destruct Hx as (_ & Hx & _). destruct (wf_kids _ _ _ Hwf p) as [_ Hseg]; [apply (reached_pre p l Hre)..|]. rewrite Hk in Hseg. apply seg_app in Hseg as [_ Hseg]. apply seg_app in Hseg as (_ & _ & Hs & _). congruence. }
  assert (Hdone : (forall c, c ∈ l2 -> before v new c) -> covered (inr next) h).
  { intros Hl2. split; [done|]. exists l1, (ma ++ [next]), l2. rewrite last_snoc. split_and!; try done. constructor; try done; [by eapply reached_below|by rewrite <- app_assoc|].
    intros c [Hc| ->%list_elem_of_singleton]%elem_of_app; [by apply Hma|done]. }
  rewrite Hsib. destruct l2 as [|s l2]; cbn [hd]; [rewrite Z.eqb_refl; apply wp_ret, Hdone; set_solver|].
  assert (Hsk : s ∈ kids p) by (rewrite Hk; set_solver). destruct (kids_nonnull _ _ _ Hwf p s Hsk) as [_ Hs0]. rewrite (proj2 (Z.eqb_neq s 0)) by done.
  apply wp_bind, wp_rload; [by eapply (kids_some dead)|]. intros ns Hns. destruct (lo_shows v s ns Hns) as [<- _]. pose proof (wf_within _ _ _ Hwf p s Hsk) as Hws.
  apply StronglySorted_cons in Hos2 as [Hos2 _]. rewrite Forall_forall in Hos2. destruct (Z.gtb_spec (lo v s) (hi v new)); apply wp_ret.
  - apply Hdone. intros c [->|Hc]%elem_of_cons; [unfold before; lia|]. specialize (Hos2 c Hc). unfold before, within in *. lia.
  - exists (length l2). split; [cbn; lia|]. split; [done|]. exists l1, (ma ++ [next]), l2. rewrite <- app_assoc. split_and!; try done.
    + intros c [Hc| ->%list_elem_of_singleton]%elem_of_app; [by apply Hma|done].
    + rewrite head_app. by rewrite Hhd.
    + right. specialize (Ho2 s ltac:(left)). unfold before, within in *. lia.
Qed.

Lemma cover_ok : wp (while_ (insert_cover new) first) covered h.
Proof using All.
  pose proof (rp_wf _ _ _ _ _ Hpre) as Hwf. pose proof (wf_within _ _ _ Hwf p) as Hw. destruct (list_elem_of_split _ _ Hfirst) as (l1 & l2 & Hk).
  pose proof (wf_order _ _ _ Hwf p) as Ho. rewrite Hk in Ho. apply StronglySorted_app in Ho as (Ho1 & _). unfold while_.
  pose proof (kids_length dead v kids p Hwf) as Hlen. rewrite view_size, Hk, length_app in Hlen. cbn in Hlen.
  eapply (st_loop_ok cover_inv covered) with (n := length l2); [|lia|].
  - intros n x h' Hi. eapply wp_mono; [by apply cover_step_ok|]. by intros [?|?] ?.
  - split; [done|]. exists l1, [], l2. split_and!; try done; [|set_solver|apply Hov|by left].
    intros c Hc. assert (Hck : c ∈ kids p) by (rewrite Hk; set_solver). specialize (Ho1 c first Hc ltac:(left)). specialize (Hbefore c Hck Ho1).
    specialize (Hw c Hck). unfold before, overlaps, within in *. lia.
Qed.
End cover.

Lemma insert_ok : wp (__insert_resource root new) inserted h.
Proof using All.
  unfold __insert_resource. apply wp_bind. apply (wp_mono _ descended).
  { unfold while_. eapply (st_loop_ok descend_inv descended) with (n := (size h - length (A := Z) [])%nat); [|lia|].
    - intros n x h' Hi. eapply wp_mono; [by apply descend_step_ok|]. by intros [?|?] ?.
    - split; [done|]. exists []. split; [|done]. by constructor. }
  intros [c|[p first]] h'; [intros Hi; by apply wp_ret|]. intros (-> & l & Hre & Hin & Hfirst & Hov & Hbefore & Heq).
  apply wp_bind. eapply wp_mono; [by apply (cover_ok p first l)|]. intros [c|next] h' [-> Hc].
  - apply wp_ret. right. assert (Hck : c <> 0).
    { intros ->. destruct Hc as (Hb & Hr & _). apply rtc_inv in Hb as [Hz|(q & Hq & _)]; [congruence|]. by destruct (kids_nonnull _ _ _ (rp_wf _ _ _ _ _ Hpre) q 0 Hq). }
    split_and!; [done|done|right]. split; [|done]. pose proof (below_within p root (reached_below p l Hre)). unfold within in *. lia.
  - destruct Hc as (l1 & m & l2 & Hpl & Hf & Hl). pose proof (reached_pre p l Hre) as [P1 P2 P3 P4 P5 P6 P7].
    eapply wp_mono; [apply (insert_above_ok dead h kids p new l1 m l2 first next P1 P2 P3 P4 P5 P6); try apply Hpl; try done; intros ->; by apply P7|].
    intros c h' (-> & Hd & Hwf'). left. split_and!; [done|done|]. by exists p, l1, m, l2.
Qed.
End insert.

(** ** [insert_resource_expand_to_fit] *)

Section expand.
Context (dead : list Z) (h : rheap) (kids : Z -> list Z) (root new : Z) (x : rdata).
Abbreviation v := (view_of h).
Hypothesis Hpre : request_pre dead h kids root new.
Hypothesis Hnokids : kids new = [].
Hypothesis Hx : dat v !! new = Some x.

Definition expanded_to (h1 : rheap) (s e : Z) : Prop :=
  view_of h1 = set_dat v new (mkData s e (d_name x) (d_flags x)) /\ s <= lo v new /\ hi v new <= e.

(** The resource was inserted with a range that covers its own, unless it was not
    inside [root]. *)
Definition expanded (h' : rheap) : Prop :=
  (within v new root -> exists h1 s e, expanded_to h1 s e /\ inserted dead h1 kids root new 0 h') /\ (~ within v new root -> h' = h).

Definition uncovered (s e : Z) : list Z := filter (fun a => ~ (s <= lo v a /\ hi v a <= e)) (elements (dom (dat v))).

Definition expand_inv (n : nat) (u : unit) (h1 : rheap) : Prop :=
  exists s e, expanded_to h1 s e /\ request_pre dead h1 kids root new /\ n = length (uncovered s e) /\
    ((within v new root /\ lo v root <= s /\ e <= hi v root) \/ (h1 = h /\ ~ within v new root)).

Lemma root_new : root <> new.
Proof using Hpre. intros ->. by apply (rp_below _ _ _ _ _ Hpre). Qed.

Lemma uncovered_less s e s' e' c : is_Some (dat v !! c) -> ~ (s <= lo v c /\ hi v c <= e) -> s' <= lo v c -> hi v c <= e' -> s' <= s -> e <= e' ->
  (length (uncovered s' e') < length (uncovered s e))%nat.
Proof.
  intros Hc Hnot H1 H2 Hs He. unfold uncovered. set (l := elements _). assert (Hcl : c ∈ l) by (by apply elem_of_elements, elem_of_dom).
  rewrite <- (list_filter_filter_l (fun a => ~ (s' <= lo v a /\ hi v a <= e')) (fun a => ~ (s <= lo v a /\ hi v a <= e)) l) by (intros a; lia).
  apply (length_filter_lt _ _ c); [by apply list_elem_of_filter|lia].
Qed.

(** A new range for the resource that is being inserted. *)
Lemma expanded_again h1 s e s' e' h2 : expanded_to h1 s e -> request_pre dead h1 kids root new -> s' <= s -> e <= e' -> 0 <= s' -> e' < 2 ^ 64 ->
  view_of h2 = set_dat (view_of h1) new (mkData s' e' (d_name x) (d_flags x)) -> expanded_to h2 s' e' /\ request_pre dead h2 kids root new.
Proof using All.
  intros (Hv1 & Hs & He) Hpre1 Hs' He' H0 H1 Hv2. split.
  - split; [|lia]. rewrite Hv2, Hv1. unfold set_dat. cbn. by rewrite insert_insert_eq.
  - pose proof (wf_range _ _ _ (rp_wf _ _ _ _ _ Hpre1) new (mkData s e (d_name x) (d_flags x))) as Hr. rewrite Hv1 in Hr. cbn in Hr. specialize (Hr (lookup_insert_eq _ _ _)).
    pose proof (wf_range _ _ _ (rp_wf _ _ _ _ _ Hpre) new x Hx) as Hr0. unfold lo, hi in Hs, He. rewrite Hx in Hs, He. cbn in Hs, He.
    eapply (request_pre_range dead h1 kids root new (mkData s e (d_name x) (d_flags x)) s' e' h2 Hpre1 Hnokids); [rewrite Hv1; cbn; by rewrite lookup_insert_eq|lia|lia|done].
Qed.

(** The writes that expand the range. *)
Lemma expand_range_ok h1 s e c : expanded_to h1 s e -> request_pre dead h1 kids root new -> is_Some (dat v !! c) -> c <> new ->
  wp (c ← load c; n ← load new;
      (if start c <? start n then update new (fun n => with_range n (start c) (end_ n)) else mret tt);;
      n ← load new;
      (if end_ c >? end_ n then update new (fun n => with_range n (start n) (end_ c)) else mret tt);;
      mret (inl tt))
    (fun (o : unit + unit) h2 => o = inl tt /\ expanded_to h2 (Z.min s (lo v c)) (Z.max e (hi v c)) /\ request_pre dead h2 kids root new) h1.
Proof using All.
  intros Hex Hpre1 Hc Hcn. pose proof Hex as (Hv1 & Hs & He). pose proof (range_of dead h kids (rp_wf _ _ _ _ _ Hpre) c Hc) as Hcr.
  destruct (set_range_view v new x s e) as (E1 & E2 & E3). rewrite <- Hv1 in E1, E2, E3. destruct (E3 c Hcn) as [E4 E5].
  pose proof (range_of dead h1 kids (rp_wf _ _ _ _ _ Hpre1) new (rp_new _ _ _ _ _ Hpre1)) as Hnr.
  apply wp_bind, wp_rload; [rewrite Hv1; cbn; by rewrite lookup_insert_ne|]. intros nc Hnc. destruct (lo_shows _ c nc Hnc) as [E6 E7]. rewrite <- E6, <- E7, E4, E5.
  apply wp_bind, wp_rload; [apply Hpre1|]. intros n Hn. destruct (lo_shows _ new n Hn) as [E8 _]. rewrite <- E8, E1. apply wp_bind.
  apply (wp_mono _ (fun _ h2 => expanded_to h2 (Z.min s (lo v c)) e /\ request_pre dead h2 kids root new)).
  { destruct (Z.ltb_spec (lo v c) s); [|apply wp_ret; rewrite Z.min_l by lia; done].
    eapply (wp_set_range_with _ _ _ _ (lo v c) e); [rewrite Hv1; apply lookup_insert_eq|intros m' Hm; split; [done|by injection Hm]|]. intros h2 Hv2. cbn [d_name d_flags] in Hv2.
    rewrite Z.min_r by lia. apply (expanded_again h1 s e); try done; lia. }
  intros _ h2 [Hex2 Hpre2]. pose proof Hex2 as (Hv2 & _). destruct (set_range_view v new x (Z.min s (lo v c)) e) as (_ & F2 & _). rewrite <- Hv2 in F2.
  apply wp_bind, wp_rload; [apply Hpre2|]. intros n2 Hn2. destruct (lo_shows _ new n2 Hn2) as [_ F3]. rewrite <- F3, F2. apply wp_bind.
  apply (wp_mono _ (fun _ h3 => expanded_to h3 (Z.min s (lo v c)) (Z.max e (hi v c)) /\ request_pre dead h3 kids root new)); [|intros _ h3 Hr; by apply wp_ret].
  destruct (Z.gtb_spec (hi v c) e); [|apply wp_ret; rewrite Z.max_l by lia; done].
  eapply (wp_set_range_with _ _ _ _ (Z.min s (lo v c)) (hi v c)); [rewrite Hv2; apply lookup_insert_eq|intros m' Hm; split; [by injection Hm|done]|]. intros h3 Hv3. cbn [d_name d_flags] in Hv3.
  rewrite Z.max_r by lia. apply (expanded_again h2 (Z.min s (lo v c)) e); try done; lia.
Qed.

Lemma expand_step_ok n u h1 : expand_inv n u h1 ->
  wp (expand_step root new u) (fun o h' => match o with inl u' => exists n', (n' < n)%nat /\ expand_inv n' u' h' | inr _ => expanded h' end) h1.
Proof using All.
  intros (s & e & Hex & Hpre1 & -> & Hcase). pose proof Hex as (Hv1 & Hs & He). pose proof root_new as Hrn. destruct (set_range_view v new x s e) as (E1 & E2 & E3). rewrite <- Hv1 in E1, E2, E3.
  destruct (E3 root Hrn) as [E4 E5]. unfold expand_step. apply wp_bind. eapply wp_mono; [apply (insert_ok dead h1 kids root new Hpre1 Hnokids)|]. intros c h2 Hins.
  pose proof (wf_within _ _ _ (rp_wf _ _ _ _ _ Hpre1)) as Hw1. destruct (Z.eqb_spec c 0) as [->|Hc0].
  { apply wp_ret. split; [intros _; by exists h1, s, e|]. intros Hnot. destruct Hcase as [[Hin _]|[-> _]]; [done|]. exfalso. destruct Hins as [(_ & _ & p & l1 & m & l2 & Hpl & _)|[? _]]; [|done].
    destruct Hpl as [Hb _ Hwp _ _ _]. pose proof (below_within dead h kids root new Hpre p root Hb). apply Hnot. unfold within in *. lia. }
  destruct Hins as [[-> _]|(_ & -> & Hconf)]; [done|]. destruct Hconf as [[-> Hnot]|[Hin Hcr]].
  { rewrite Z.eqb_refl. apply wp_ret. destruct Hcase as [(Hin & ? & ?)|[-> Hnin]]; [|split; [done|done]]. exfalso. apply Hnot. unfold within in *. lia. }
  destruct Hcr as (Hb & Hcroot & Hov & Hncov & Hnin). rewrite (proj2 (Z.eqb_neq c root)) by done.
  assert (Hcb : exists q, c ∈ kids q) by (apply rtc_inv in Hb as [->|(q & Hq & _)]; [done|by exists q]). destruct Hcb as [q Hq]. pose proof (rp_wf _ _ _ _ _ Hpre) as Hwf.
  assert (Hcn : c <> new) by (intros ->; by apply (unlinked _ _ _ Hwf q new (rp_par _ _ _ _ _ Hpre))). destruct (E3 c Hcn) as [E6 E7]. pose proof (Hw1 q c Hq) as Hcw.
  assert (Hcs : is_Some (dat v !! c)) by (by eapply (kids_some dead)). eapply wp_mono; [by apply (expand_range_ok h1 s e c)|]. intros o h2 (-> & Hex2 & Hpre2).
  exists (length (uncovered (Z.min s (lo v c)) (Z.max e (hi v c)))). split; [apply (uncovered_less s e _ _ c); try done; unfold within in *; lia|].
  exists (Z.min s (lo v c)), (Z.max e (hi v c)). split_and!; try done. left. destruct Hcase as [(Hwi & ? & ?)|[-> Hnw]]; [|done].
  pose proof (below_within dead h kids root new Hpre c root Hb). split; [done|]. unfold within in *. lia.
Qed.

Lemma expand_ok : wp (insert_resource_expand_to_fit root new) (fun _ h' => expanded h') h.
Proof using All.
  unfold insert_resource_expand_to_fit. apply wp_bind, wp_rload; [apply Hpre|]. intros n (Hp & _). assert (parent n = 0) as -> by (pose proof (rp_par _ _ _ _ _ Hpre); congruence). cbn [negb Z.eqb].
  unfold while_. eapply (st_loop_ok expand_inv (fun _ => expanded)) with (n := length (uncovered (lo v new) (hi v new))).
  - intros k u h' Hi. eapply wp_mono; [by apply expand_step_ok|]. by intros [?|?] ?.
  - unfold uncovered. pose proof (length_filter (fun a => ~ (lo v new <= lo v a /\ hi v a <= hi v new)) (elements (dom (dat v)))) as Hl.
    change (length (elements (dom (dat v)))) with (size (dom (dat v))) in Hl. rewrite size_dom, view_size in Hl. lia.
  - exists (lo v new), (hi v new). split_and!; [|done|done|].
    + split; [|lia]. unfold lo, hi. rewrite Hx. destruct x. cbn. unfold set_dat. rewrite insert_id by done. by destruct (view_of h).
    + destruct (decide (within v new root)) as [Hw|Hw]; [left|by right]. unfold within in *. split; [done|]. lia.
Qed.
End expand.

(** ** What the functions promise *)

(** C12.  [insert_resource] terminates.  It succeeds with the new resource at its
    place below [root]: under the innermost resource that contains it, with the
    children it covers moved below it; ranges do not change and the forest is well
    formed.  It fails, and changes nothing, only when the range is not inside
    [root] or crosses another resource, which is the result. *)
Theorem insert_resource_correct dead h kids root new :
  request_pre dead h kids root new -> kids new = [] ->
  exists c h', insert_resource_conflict root new h = Ok (c, h') /\
    insert_resource root new h = Ok (if decide (c = 0) then 0 else - EBUSY, h') /\ inserted dead h kids root new c h'.
Proof.
  intros Hpre Hk. destruct (insert_ok dead h kids root new Hpre Hk) as (c & h' & Hi & Hr). exists c, h'. split; [done|]. split; [|done].
  unfold insert_resource, insert_resource_conflict, mbind, st_bind. rewrite Hi. cbn. destruct (Z.eqb_spec c 0), (decide (c = 0)); done.
Qed.

(** [insert_resource_expand_to_fit] terminates and always inserts a resource
    whose range is inside [root], with a range that covers the one it was given;
    it does nothing for another one. *)
Theorem insert_resource_expand_to_fit_correct dead h kids root new x :
  request_pre dead h kids root new -> kids new = [] -> dat (view_of h) !! new = Some x ->
  exists h', insert_resource_expand_to_fit root new h = Ok (tt, h') /\ expanded dead h kids root new x h'.
Proof. intros Hpre Hk Hx. destruct (expand_ok dead h kids root new x Hpre Hk Hx) as ([] & h' & Hi & Hr). by exists h'. Qed.
