(* ===== verification/ResourceWalk.v ===== *)
(** Walking through the tree: [next_resource] and the searches built on it. *)
From stdpp Require Import gmap strings sorting functions.
From S2P Require Import Prelude State Sorting ResourceDefs ResourceTree ResourceRequest ResourceAlloc ResourceInsert.

(** ** The tree below a resource *)

#[local] Unset Elimination Schemes.
Inductive rtree := Node (a : Z) (ts : list rtree).
#[local] Set Elimination Schemes.
Definition root_of (t : rtree) : Z := let '(Node a _) := t in a.

Section rtree_ind.
Context (P : rtree -> Prop).
Hypothesis H : forall a ts, Forall P ts -> P (Node a ts).
Fixpoint rtree_ind' (t : rtree) : P t :=
  match t with
  | Node a ts => H a ts ((fix go l := match l return Forall P l with [] => Forall_nil_2 P | t :: l => Forall_cons_2 P t l (rtree_ind' t) (go l) end) ts)
  end.
End rtree_ind.

Fixpoint preorder (t : rtree) : list Z := let '(Node a ts) := t in a :: concat (preorder <$> ts).
Abbreviation preorders ts := (concat (preorder <$> ts)).

(** [t] is the tree below its root. *)
#[local] Unset Elimination Schemes.
Inductive unfolds (kids : Z -> list Z) : rtree -> Prop :=
| unfolds_node a ts : kids a = root_of <$> ts -> Forall (unfolds kids) ts -> unfolds kids (Node a ts).
#[local] Set Elimination Schemes.

Lemma unfolds_exists dead v kids a : wf dead v kids -> exists t, root_of t = a /\ unfolds kids t.
Proof.
  intros Hwf. induction (wf_acyclic _ _ _ Hwf a) as [a _ IH]. assert (Hts : exists ts, root_of <$> ts = kids a /\ Forall (unfolds kids) ts).
  { induction (kids a) as [|c l IHl]; [by exists []|]. destruct (IH c ltac:(left)) as (t & Ht & Hu). destruct IHl as (ts & Hts & Hus); [intros y Hy; apply IH; by right|].
    exists (t :: ts). cbn. rewrite Ht, Hts. by split; [|constructor]. }
  destruct Hts as (ts & Hts & Hus). by exists (Node a ts).
Qed.

Lemma preorder_head t : exists l, preorder t = root_of t :: l.
Proof. destruct t as [a ts]. by eexists. Qed.

Section preorder.
Context (dead : list Z) (v : view) (kids : Z -> list Z).
Hypothesis Hwf : wf dead v kids.

Lemma preorders_elem x ts : x ∈ preorders ts <-> exists t, t ∈ ts /\ x ∈ preorder t.
Proof. induction ts as [|t ts IH]; cbn; [set_solver|]. rewrite elem_of_app, IH. set_solver. Qed.

Lemma preorder_below t : unfolds kids t -> forall x, x ∈ preorder t <-> below kids x (root_of t).
Proof using Hwf.
  induction t as [a ts IH] using rtree_ind'. intros Hu x. inversion Hu as [a' ts' Hk Hts]; subst. cbn. rewrite Forall_forall in IH. rewrite Forall_forall in Hts. split.
  - intros [->|Hx]%elem_of_cons; [constructor|]. apply preorders_elem in Hx as (t & Ht & Hx). apply (IH t Ht (Hts t Ht)) in Hx.
    eapply rtc_r; [exact Hx|]. rewrite Hk. apply list_elem_of_fmap. eauto.
  - intros Hb. apply rtc_inv_r in Hb as [->|(c & Hb & Hc)]; [left|]. right. rewrite Hk in Hc. apply list_elem_of_fmap in Hc as (t & -> & Ht).
    apply preorders_elem. exists t. split; [done|]. by apply (IH t Ht (Hts t Ht)).
Qed.

Lemma below_within' c r : below kids c r -> lo v r <= lo v c /\ hi v c <= hi v r.
Proof using Hwf. induction 1 as [|a b c Hab _ IH]; [lia|]. pose proof (wf_within _ _ _ Hwf b a Hab) as Hw. unfold within in Hw. lia. Qed.

(** Resources below two siblings are different. *)
Lemma siblings_apart r c1 c2 x : c1 ∈ kids r -> c2 ∈ kids r -> below kids x c1 -> below kids x c2 -> c1 = c2.
Proof using Hwf.
  intros H1 H2 Hb1. assert (Hup : forall c d, d ∈ kids r -> below kids c d -> c ∈ kids r -> c = d).
  { intros c d Hd Hcd Hc. apply rtc_inv in Hcd as [->|(q & Hq & Hqd)]; [done|]. assert (q = r) as -> by (by eapply (kids_disjoint _ _ _ Hwf)).
    exfalso. apply (tc_irrefl (fun c r => c ∈ kids r) r (wf_acyclic _ _ _ Hwf r)). eapply tc_rtc_l; [exact Hqd|]. by apply tc_once. }
  induction Hb1 as [x|x y z Hxy Hyz IH]; intros Hb2; [by apply Hup|]. apply rtc_inv in Hb2 as [->|(q & Hq & Hq2)]; [|apply IH; [done|]; by assert (q = y) as <- by (by eapply (kids_disjoint _ _ _ Hwf))].
  assert (y = r) as -> by (by eapply (kids_disjoint _ _ _ Hwf)). exfalso. apply (tc_irrefl (fun c r => c ∈ kids r) r (wf_acyclic _ _ _ Hwf r)). eapply tc_rtc_l; [exact Hyz|]. by apply tc_once.
Qed.

Lemma preorder_NoDup t : unfolds kids t -> NoDup (preorder t).
Proof using Hwf.
  induction t as [a ts IH] using rtree_ind'. intros Hu. pose proof (preorder_below _ Hu) as Hbel. inversion Hu as [a' ts' Hk Hts]; subst. cbn. constructor.
  - intros (t & Ht & Ha)%preorders_elem. rewrite Forall_forall in Hts. apply (preorder_below t (Hts t Ht)) in Ha.
    apply (tc_irrefl (fun c r => c ∈ kids r) a (wf_acyclic _ _ _ Hwf a)). eapply tc_rtc_l; [exact Ha|]. apply tc_once. rewrite Hk. apply list_elem_of_fmap. eauto.
  - pose proof (kids_NoDup _ _ _ Hwf a) as Hnd. assert (Hsub : forall t, t ∈ ts -> root_of t ∈ kids a) by (intros t Ht; rewrite Hk; apply list_elem_of_fmap; eauto).
    rewrite Hk in Hnd. clear Hu Hbel Hk. induction ts as [|t ts IHts]; [constructor|]. cbn in *. rewrite Forall_cons in IH, Hts. destruct IH as [IH1 IH2], Hts as [Hu1 Hu2]. apply NoDup_cons in Hnd as [Hn1 Hn2].
    apply NoDup_app. split_and!; [by apply IH1| |apply IHts; try done; intros t' Ht'; apply Hsub; by right]. intros x Hx (t' & Ht' & Hx')%preorders_elem. rewrite Forall_forall in Hu2.
    apply (preorder_below t Hu1) in Hx. apply (preorder_below t' (Hu2 t' Ht')) in Hx'. assert (root_of t = root_of t') as Heq by (eapply siblings_apart; [apply Hsub; left|apply Hsub; by right|done|done]).
    apply Hn1. rewrite Heq. apply list_elem_of_fmap. eauto.
Qed.

(** The addresses ascend. *)
Lemma preorder_sorted t : unfolds kids t -> lo v (root_of t) <= hi v (root_of t) -> StronglySorted (fun a b => lo v a <= lo v b) (preorder t).
Proof using Hwf.
  induction t as [a ts IH] using rtree_ind'. intros Hu Ha. pose proof (preorder_below _ Hu) as Hbel. inversion Hu as [a' ts' Hk Hts]; subst. cbn in *. constructor.
  2: { apply Forall_forall. intros x Hx. apply below_within'. apply Hbel. by right. }
  pose proof (wf_order _ _ _ Hwf a) as Ho. assert (Hsub : forall t, t ∈ ts -> root_of t ∈ kids a) by (intros t Ht; rewrite Hk; apply list_elem_of_fmap; eauto).
  rewrite Hk in Ho. clear Hu Hbel Hk. induction ts as [|t ts IHts]; [constructor|]. cbn in *. rewrite Forall_cons in IH, Hts. destruct IH as [IH1 IH2], Hts as [Hu1 Hu2].
  apply StronglySorted_cons in Ho as [Ho1 Ho2]. rewrite Forall_forall in Ho1. rewrite Forall_forall in Hu2. pose proof (wf_within _ _ _ Hwf a) as Hw.
  apply StronglySorted_app. split_and!; [|apply IH1; [done|]; apply (Hw _ (Hsub t ltac:(left)))|apply IHts; try done; [by apply Forall_forall|intros t' Ht'; apply Hsub; by right]].
  intros x y Hx (t' & Ht' & Hy)%preorders_elem. apply (preorder_below t Hu1) in Hx. apply (preorder_below t' (Hu2 t' Ht')) in Hy.
  specialize (Ho1 (root_of t') ltac:(apply list_elem_of_fmap; eauto)). unfold before in Ho1. pose proof (below_within' _ _ Hx). pose proof (below_within' _ _ Hy).
  assert (lo v x <= hi v x); [|lia]. apply rtc_inv in Hx as [->|(q & Hq & _)]; [apply (Hw _ (Hsub t ltac:(left)))|apply (wf_within _ _ _ Hwf q x Hq)].
Qed.
End preorder.

(** ** [next_resource] *)

Section next.
Context (dead : list Z) (h : rheap) (kids : Z -> list Z).
Abbreviation v := (view_of h).
Hypothesis Hwf : wf dead v kids.

Abbreviation roots F := (root_of <$> F).

(** The ancestors of [p], each with the subtrees that follow the one of [p]. *)
Fixpoint up_ok (p : Z) (st : list (Z * list rtree)) : Prop :=
  match st with
  | [] => par v !! p = Some 0 /\ sib v !! p = Some 0
  | (q, F) :: st => p ∈ kids q /\ sib v !! p = Some (hd 0 (roots F)) /\ (forall c, c ∈ roots F -> c ∈ kids q) /\ seg v q (roots F) 0 /\
      Forall (unfolds kids) F /\ up_ok q st
  end.
Definition rest (st : list (Z * list rtree)) : list Z := concat ((fun x : Z * list rtree => preorders x.2) <$> st).

(** The walk is at [p] and will visit [L]. *)
Definition position (p : Z) (L : list Z) : Prop :=
  is_Some (dat v !! p) /\ (p ∉ dead) /\ exists t st, root_of t = p /\ unfolds kids t /\ up_ok p st /\ L = preorder t ++ rest st.

Lemma up_path p st : up_ok p st -> path kids (p :: st.*1).
Proof. revert p. induction st as [|[q F] st IH]; intros p; [done|]. intros (Hp & _ & _ & _ & _ & Hst). split; [done|]. by apply IH. Qed.

Lemma up_length p st : is_Some (dat v !! p) -> up_ok p st -> (length st < size h)%nat.
Proof using Hwf.
  intros Hp Hup. pose proof (path_length dead v kids (p :: st.*1) Hwf (up_path p st Hup)) as Hl. rewrite view_size in Hl. cbn in Hl. rewrite length_fmap in Hl. apply Hl.
  clear Hl. revert p Hp Hup. induction st as [|[q F] st IH]; intros p Hp Hup a Ha; [by injection Ha as <-|]. destruct Hup as (Hpq & _ & _ & _ & _ & Hup).
  cbn in Ha. apply (IH q); [apply (wf_live _ _ _ Hwf q p Hpq)|done|done].
Qed.

(** A walk that goes on with the subtrees [F] below [q]. *)
Lemma position_next q F st : (forall c, c ∈ roots F -> c ∈ kids q) -> seg v q (roots F) 0 -> Forall (unfolds kids) F -> up_ok q st -> F <> [] ->
  hd 0 (preorders F ++ rest st) = hd 0 (roots F) /\ hd 0 (roots F) <> 0 /\ position (hd 0 (roots F)) (preorders F ++ rest st).
Proof using Hwf.
  intros Hk Hseg HF Hup Hne. destruct F as [|t F]; [done|]. cbn [fmap list_fmap hd concat]. apply Forall_cons in HF as [Ht HF]. destruct (preorder_head t) as [l Hl].
  assert (Hin : root_of t ∈ kids q) by (apply Hk; cbn; left). destruct (kids_nonnull _ _ _ Hwf q _ Hin) as [_ Hn]. destruct (wf_live _ _ _ Hwf q _ Hin) as (_ & Hs & _ & Hd).
  cbn in Hseg. destruct Hseg as (_ & Hsib & Hseg). split; [by rewrite Hl|]. split; [done|]. split; [done|]. split; [done|]. exists t, ((q, F) :: st). split_and!; [done|done| |].
  - split_and!; try done. intros c Hc. apply Hk. cbn. by right.
  - unfold rest. cbn. by rewrite <- app_assoc.
Qed.

Lemma up_step_ok st : forall p fuel, is_Some (dat v !! p) -> up_ok p st -> (length st < fuel)%nat ->
  wp (st_loop fuel up_step p) (fun q h' => h' = h /\ q = hd 0 (rest st) /\ (rest st <> [] -> position q (rest st))) h.
Proof using Hwf.
  induction st as [|[q F] st IH]; intros p fuel Hp Hup Hf; (destruct fuel as [|fuel]; [cbn in Hf; lia|]); destruct (proj1 (view_is_some h p) Hp) as [n Hn]; pose proof (view_some h p n Hn) as (Sp & Ss & _).
  - destruct Hup as [Hpar Hsib]. assert (parent n = 0 /\ sibling n = 0) as [E1 E2] by (split; congruence). exists 0, h. split; [|done].
    unfold st_loop. cbn [loop]. unfold up_step, mbind, st_bind, load. by rewrite Hn, E1, E2.
  - destruct Hup as (Hpq & Hsib & Hk & Hseg & HF & Hup). pose proof (kids_parent _ _ _ Hwf q p Hpq) as Hpar. destruct (kids_nonnull _ _ _ Hwf q p Hpq) as [Hq0 _].
    assert (parent n = q /\ sibling n = hd 0 (roots F)) as [E1 E2] by (split; congruence). destruct F as [|t F].
    + destruct (IH q fuel) as (q' & h' & Hl & Hq); [apply (wf_live _ _ _ Hwf q p Hpq)|done|cbn in Hf; lia|]. exists q', h'. split; [|exact Hq].
      unfold st_loop in *. cbn [loop]. unfold up_step at 1, mbind, st_bind at 1, load. rewrite Hn, E1, E2. cbn. by rewrite (proj2 (Z.eqb_neq q 0)).
    + destruct (position_next q (t :: F) st Hk Hseg HF Hup ltac:(done)) as (Hhd & Hn0 & Hpos). exists (hd 0 (roots (t :: F))), h. split; [|done].
      unfold st_loop. cbn [loop]. unfold up_step, mbind, st_bind, load. rewrite Hn, E2. by rewrite (proj2 (Z.eqb_neq _ 0) Hn0).
Qed.

Lemma next_resource_ok p L : position p (p :: L) -> wp (next_resource p false) (fun q h' => h' = h /\ q = hd 0 L /\ (L <> [] -> position q L)) h.
Proof using Hwf.
  intros (Hp & Hpd & t & st & Hroot & Hu & Hup & HL). destruct t as [a ts]. cbn in Hroot. subst a. cbn in HL. injection HL as ->. inversion Hu as [a' ts' Hk Hts]; subst.
  unfold next_resource. apply wp_bind, wp_rload; [done|]. intros n (_ & _ & Hc & _). destruct (wf_kids _ _ _ Hwf p Hp Hpd) as [Hch Hseg]. rewrite Hk in Hch, Hseg.
  assert (child n = hd 0 (roots ts)) as -> by congruence. destruct ts as [|t ts].
  - cbn [fmap list_fmap hd Z.eqb negb]. unfold while_. apply up_step_ok; [done|done|]. pose proof (up_length p st Hp Hup). lia.
  - destruct (position_next p (t :: ts) st) as (Hhd & Hn0 & Hpos); try done; [intros c; by rewrite Hk|]. rewrite (proj2 (Z.eqb_neq _ 0) Hn0). apply wp_ret. by rewrite Hhd.
Qed.

(** ** Loops over lists of resources *)

(** [next_resource] steps through [L]. *)
Definition steps_through (sibling_only : bool) (L : list Z) : Prop :=
  (0 ∉ L) /\ (forall c, c ∈ L -> is_Some (dat v !! c)) /\ (length L <= size h)%nat /\
  forall l1 p l2, L = l1 ++ p :: l2 -> wp (next_resource p sibling_only) (fun q h' => q = hd 0 l2 /\ h' = h) h.

Lemma steps_siblings r : is_Some (dat v !! r) -> r ∉ dead -> steps_through true (kids r).
Proof using Hwf.
  intros Hr Hd. pose proof (kids_length dead v kids r Hwf) as Hlen. rewrite view_size in Hlen. split_and!; [|intros c; by apply (kids_some dead)|done|].
  - intros H0. by destruct (kids_nonnull _ _ _ Hwf r 0 H0).
  - intros l1 p l2 Hk. destruct (wf_kids _ _ _ Hwf r Hr Hd) as [_ Hseg]. rewrite Hk in Hseg. apply seg_app in Hseg as [_ (_ & Hs & _)].
    unfold next_resource. apply wp_bind, wp_rload; [apply (kids_some dead v kids r p Hwf); rewrite Hk; set_solver|]. intros n (_ & Hn & _). apply wp_ret. split; [congruence|done].
Qed.

Lemma steps_preorder t : unfolds kids t -> is_Some (dat v !! root_of t) -> root_of t ∉ dead -> up_ok (root_of t) [] -> steps_through false (tail (preorder t)).
Proof using Hwf.
  intros Hu Hr Hd Hup. pose proof (preorder_NoDup dead v kids Hwf t Hu) as Hnd. pose proof (preorder_below dead v kids Hwf t Hu) as Hb.
  assert (Hel : forall c, c ∈ preorder t -> is_Some (dat v !! c)).
  { intros c Hc. apply Hb, rtc_inv in Hc as [->|(q & Hq & _)]; [done|]. by apply (kids_some dead v kids q). }
  assert (Hlen : (length (preorder t) <= size h)%nat) by (rewrite <- view_size; by apply NoDup_size). destruct t as [a ts]. cbn in *. split_and!.
  - intros H0. destruct (Hel 0 ltac:(by right)) as [x Hx]. rewrite (wf_null _ _ _ Hwf) in Hx. done.
  - intros c Hc. apply Hel. by right.
  - lia.
  - inversion Hu as [a' ts' Hk Hts]; subst. destruct ts as [|t ts]; [intros l1 p l2 HL; by destruct l1|]. destruct (wf_kids _ _ _ Hwf a Hr Hd) as [_ Hseg]. rewrite Hk in Hseg.
    destruct (position_next a (t :: ts) []) as (Hhd & _ & Hpos); try done; [intros c; by rewrite Hk|]. rewrite <- Hhd in Hpos. unfold rest in Hpos. cbn [fmap list_fmap concat] in Hpos. rewrite app_nil_r in Hpos.
    cbn [fmap list_fmap concat]. intros l1. revert Hpos. generalize (preorder t ++ preorders ts). clear -Hwf. induction l1 as [|b l1 IH]; intros L Hpos p l2 ->; cbn [app hd] in Hpos.
    + eapply wp_mono; [apply (next_resource_ok p l2 Hpos)|]. naive_solver.
    + destruct (next_resource_ok b _ Hpos) as (q & h' & _ & _ & Hq & Hpos'). rewrite Hq in Hpos'. apply (IH (l1 ++ p :: l2)); [apply Hpos'; by destruct l1|done].
Qed.
End next.

(** The result of a search that stops at the first element where [stop] says so. *)
Fixpoint first_stop {R} (stop : Z -> option R) (r0 : R) (L : list Z) : R :=
  match L with [] => r0 | p :: L => match stop p with Some r => r | None => first_stop stop r0 L end end.

Lemma first_stop_cases {R} (stop : Z -> option R) r0 L :
  (first_stop stop r0 L = r0 /\ forall p, p ∈ L -> stop p = None) \/
  exists l1 p l2, L = l1 ++ p :: l2 /\ (forall q, q ∈ l1 -> stop q = None) /\ stop p = Some (first_stop stop r0 L).
Proof.
  induction L as [|p L IH]; cbn; [left; split; [done|]; set_solver|]. destruct (stop p) as [r|] eqn:E.
  - right. exists [], p, L. split_and!; [done|set_solver|done].
  - destruct IH as [[-> Hno]|(l1 & q & l2 & -> & Hl & Hq)]; [left; set_solver|]. right. exists (p :: l1), q, l2. split_and!; [done|set_solver|done].
Qed.

Lemma scan_through h {R} (step : Z -> RES (Z + R)) (stop : Z -> option R) (so : bool) (r0 : R) L :
  steps_through h so L -> step 0 h = Ok (inr r0, h) ->
  (forall p n, p ∈ L -> p <> 0 -> h !! p = Some n ->
    step p h = match stop p with Some r => Ok (inr r, h) | None => (q ← next_resource p so; mret (inl q) : RES (Z + R)) h end) ->
  while_ step (hd 0 L) h = Ok (first_stop stop r0 L, h).
Proof.
  intros (H0 & Hel & Hlen & Hnext) Hend Hstep. unfold while_. assert (Hf : (length L < S (size h))%nat) by lia. revert Hf. generalize (S (size h)). revert H0 Hel Hnext Hstep. clear Hlen.
  induction L as [|p L IH]; intros H0 Hel Hnext Hstep fuel Hf; (destruct fuel as [|fuel]; [cbn in Hf; lia|]); unfold st_loop; cbn [loop hd first_stop].
  - by rewrite Hend.
  - destruct (proj1 (view_is_some h p) (Hel p ltac:(left))) as [n Hn]. rewrite (Hstep p n ltac:(left) ltac:(set_solver) Hn). destruct (stop p); [done|].
    destruct (Hnext [] p L eq_refl) as (q & h' & Hq & -> & ->). unfold mbind, st_bind. rewrite Hq. cbn. apply IH; [set_solver|set_solver| |set_solver|cbn in Hf; lia].
    intros l1 p' l2 ->. by apply (Hnext (p :: l1)).
Qed.

(** ** The searches below [iomem_resource] *)

Section search.
Context (dead : list Z) (h : rheap) (kids : Z -> list Z) (iomem : Z).
Abbreviation v := (view_of h).
Hypothesis Hwf : wf dead v kids.
Hypothesis Hio : is_Some (dat v !! iomem).
Hypothesis Hlive : iomem ∉ dead.
Hypothesis Htop : par v !! iomem = Some 0 /\ sib v !! iomem = Some 0.
Hypothesis Hrange : lo v iomem <= hi v iomem.

(** What a search looks at: the first level, or the whole tree. *)
Definition scope (first_level : bool) (c : Z) : Prop := if first_level then c ∈ kids iomem else tc (fun c r => c ∈ kids r) c iomem.

Lemma scope_list first_level : exists L, steps_through h first_level L /\ (forall c, c ∈ L <-> scope first_level c) /\
  StronglySorted (fun a b => lo v a <= lo v b) L /\ chd v !! iomem = Some (hd 0 L).
Proof using All.
  destruct (wf_kids _ _ _ Hwf iomem Hio Hlive) as [Hch _]. destruct first_level.
  - exists (kids iomem). split_and!; [by apply (steps_siblings dead)|done| |done]. pose proof (wf_order _ _ _ Hwf iomem) as Ho. pose proof (wf_within _ _ _ Hwf iomem) as Hw. clear Hch.
    induction (kids iomem) as [|c l IH]; [constructor|]. apply StronglySorted_cons in Ho as [Hc Ho]. constructor; [apply IH; [done|intros c' Hc'; apply Hw; by right]|].
    eapply Forall_impl; [exact Hc|]. intros b. unfold before. specialize (Hw c ltac:(left)). unfold within in Hw. lia.
  - destruct (unfolds_exists dead v kids iomem Hwf) as (t & Ht & Hu). exists (tail (preorder t)). pose proof (preorder_below dead v kids Hwf t Hu) as Hb. pose proof (preorder_NoDup dead v kids Hwf t Hu) as Hnd.
    pose proof (preorder_sorted dead v kids Hwf t Hu) as Hs. pose proof (steps_preorder dead h kids Hwf t Hu) as Hst. rewrite Ht in Hst, Hs, Hb. split_and!; [by apply Hst| | |].
    + intros c. destruct t as [a ts]. cbn in *. subst a. apply NoDup_cons in Hnd as [Hna _]. split.
      * intros Hc. destruct (proj1 (Hb c) ltac:(by right)) as [|x y z Hxy Hyz]; [done|]. by eapply tc_rtc_r; [apply tc_once|].
      * intros Hc. specialize (proj2 (Hb c) (tc_rtc _ _ Hc)). intros [->|]%elem_of_cons; [|done]. by apply (tc_irrefl _ _ (wf_acyclic _ _ _ Hwf iomem)) in Hc.
    + specialize (Hs Hrange). destruct t as [a ts]. cbn in *. by apply StronglySorted_cons in Hs as [_ Hs].
    + inversion Hu as [a ts Hk Hts]; subst. cbn in *. rewrite Hch, Hk. f_equal. destruct ts as [|[b us] ts]; done.
Qed.

Lemma scope_some first_level c : scope first_level c -> exists x, dat v !! c = Some x /\ lo v c <= hi v c.
Proof using Hwf.
  intros Hc. assert (exists r, c ∈ kids r) as [r Hr] by (destruct first_level; cbn in Hc; [by exists iomem|]; inversion Hc; subst; eauto).
  destruct (wf_live _ _ _ Hwf r c Hr) as (_ & [x Hx] & _). exists x. split; [done|]. apply (wf_within _ _ _ Hwf r c Hr).
Qed.

(** A search from [iomem->child] on, and what its result says. *)
Lemma search_ok {R} (step : Z -> RES (Z + R)) (stop : Z -> option R) (first_level : bool) (r0 : R) :
  step 0 h = Ok (inr r0, h) ->
  (forall p n, scope first_level p -> p <> 0 -> h !! p = Some n ->
    step p h = match stop p with Some r => Ok (inr r, h) | None => (q ← next_resource p first_level; mret (inl q) : RES (Z + R)) h end) ->
  exists r, (n ← load iomem; while_ step (child n) : RES R) h = Ok (r, h) /\
    ((r = r0 /\ forall p, scope first_level p -> stop p = None) \/
     exists p, scope first_level p /\ stop p = Some r /\ forall q, scope first_level q -> lo v p <= lo v q \/ stop q = None).
Proof using All.
  intros Hend Hstep. destruct (scope_list first_level) as (L & HL & Hsc & Hs & Hch). exists (first_stop stop r0 L). split.
  - destruct (proj1 (view_is_some h iomem) Hio) as [n Hn]. pose proof (view_some h iomem n Hn) as (_ & _ & Hc & _). unfold mbind, st_bind, load. rewrite Hn.
    assert (child n = hd 0 L) as -> by congruence. eapply scan_through; [exact HL|done|]. intros p m Hp. apply Hstep. by apply Hsc.
  - destruct (first_stop_cases stop r0 L) as [[Hr Hno]|(l1 & p & l2 & HLe & Hno & Hp)]; [left; split; [done|]; intros p Hp; by apply Hno, Hsc|].
    right. exists p. split_and!; [apply Hsc; rewrite HLe; set_solver|done|]. intros q Hq. apply Hsc in Hq. rewrite HLe in Hq, Hs. apply elem_of_app in Hq as [Hq|Hq]; [right; by apply Hno|].
    left. apply StronglySorted_app in Hs as (_ & _ & Hs). apply StronglySorted_cons in Hs as [Hs _]. rewrite Forall_forall in Hs. apply elem_of_cons in Hq as [->|Hq]; [lia|by apply Hs].
Qed.

Definition matches (flags_ : Z) (name_ : option string) (c : Z) : Prop :=
  match dat v !! c with Some x => d_flags x = flags_ /\ (name_ = None \/ d_name x = name_) | None => False end.
#[global] Instance matches_dec flags_ name_ c : Decision (matches flags_ name_ c).
Proof. unfold matches. destruct (dat v !! c); apply _. Defined.

(** The names that [find_next_iomem_res] compares are there. *)
Definition all_named (first_level : bool) (flags_ : Z) (name_ : option string) : Prop :=
  forall c x, scope first_level c -> dat v !! c = Some x -> d_flags x = flags_ -> is_Some name_ -> is_Some (d_name x).

Definition meets (s e c : Z) : Prop := s <= hi v c /\ lo v c < e.
#[global] Instance meets_dec s e c : Decision (meets s e c).
Proof. unfold meets. apply _. Defined.

Lemma shown p n : h !! p = Some n -> dat v !! p = Some (data n) /\ lo v p = start n /\ hi v p = end_ n.
Proof. intros Hl. pose proof (view_some h p n Hl) as (_ & _ & _ & Hd). unfold lo, hi. by rewrite Hd. Qed.

Definition iomem_stop (flags_ : Z) (name_ : option string) (s e : Z) (p : Z) : option Z :=
  if decide (matches flags_ name_ p) then (if lo v p >? e then Some 0 else if decide (meets s e p) then Some p else None) else None.

Lemma iomem_step_ok first_level flags_ name_ s e p n : all_named first_level flags_ name_ -> scope first_level p -> p <> 0 -> h !! p = Some n ->
  iomem_step flags_ name_ s e first_level p h =
    match iomem_stop flags_ name_ s e p with Some r => Ok (inr r, h) | None => (q ← next_resource p first_level; mret (inl q) : RES (Z + Z)) h end.
Proof.
  intros Hn Hp Hp0 Hl. destruct (shown p n Hl) as (Hd & El & Eh). specialize (Hn p _ Hp Hd).
  assert (Hmat : matches flags_ name_ p <-> flags n = flags_ /\ (name_ = None \/ name n = name_)) by (unfold matches; by rewrite Hd).
  unfold iomem_step, iomem_stop. rewrite El, (proj2 (Z.eqb_neq p 0) Hp0). unfold mbind, st_bind, load. rewrite Hl. cbn in Hn. destruct (Z.eqb_spec (flags n) flags_) as [Hf|Hf]; cbn [negb].
  2: { rewrite decide_False by tauto. done. }
  assert (Hdec : (match name_ with None => mret false | Some s => named n s end : RES bool) h = Ok (bool_decide (~ (name_ = None \/ name n = name_)), h)).
  { destruct name_ as [s0|]; [|by rewrite bool_decide_eq_false_2 by tauto]. unfold named. destruct (Hn Hf ltac:(eauto)) as [s1 ->]. unfold mret, st_ret. do 2 f_equal. by repeat case_bool_decide; naive_solver. }
  rewrite Hdec. case_bool_decide as Hm; [rewrite decide_False by tauto; done|]. rewrite decide_True by tauto.
  destruct (start n >? e); [done|]. rewrite Z.geb_leb. case_decide as Hi; unfold meets in Hi; rewrite El, Eh in Hi; [by rewrite (proj2 (Z.leb_le _ _)), (proj2 (Z.ltb_lt _ _)) by lia|].
  by destruct (Z.leb_spec s (end_ n)), (Z.ltb_spec (start n) e); try lia.
Qed.

Definition hit first_level flags_ name_ (s e c : Z) : Prop := scope first_level c /\ matches flags_ name_ c /\ meets s e c.

Lemma find_next_res_ok first_level flags_ name_ s e : all_named first_level flags_ name_ -> s < e ->
  exists o, find_next_iomem_res iomem flags_ s e name_ first_level h = Ok (o, h) /\
  match o with
  | Some (s', e') => exists c, hit first_level flags_ name_ s e c /\ s' = Z.max s (lo v c) /\ e' = Z.min e (hi v c) /\
      forall q, hit first_level flags_ name_ s e q -> lo v c <= lo v q
  | None => forall c, ~ hit first_level flags_ name_ s e c
  end.
Proof using All.
  intros Hn Hse. destruct (search_ok (iomem_step flags_ name_ s e first_level) (iomem_stop flags_ name_ s e) first_level 0 eq_refl) as (r & Hr & Hcases).
  { intros p n. by apply iomem_step_ok. }
  unfold find_next_iomem_res, st_bug_on. rewrite Z.geb_leb, (proj2 (Z.leb_gt e s) Hse). unfold mbind at 1, st_bind at 1. cbn [mret st_ret]. unfold mret at 1, st_ret at 1.
  assert (Hrun : forall o, (p ← (mret r : RES Z); if p =? 0 then mret None else n ← load p; mret (Some (if s <? start n then start n else s, if e >? end_ n then end_ n else e))) h = Ok (o, h) ->
    (r0 ← load iomem; p ← while_ (iomem_step flags_ name_ s e first_level) (child r0); if p =? 0 then mret None else n ← load p; mret (Some (if s <? start n then start n else s, if e >? end_ n then end_ n else e)) : RES (option (Z * Z))) h = Ok (o, h)).
  { intros o Ho. revert Hr Ho. unfold mbind, st_bind. destruct (load iomem h) as [[n0 h0]| |]; [|done|done]. intros ->. done. }
  destruct Hcases as [[-> Hno]|(p & Hp & Hstop & Hlow)].
  - exists None. split; [by apply Hrun|]. intros c (Hc & Hm & Hi). specialize (Hno c Hc). unfold iomem_stop in Hno. rewrite decide_True, (decide_True (P := meets s e c)) in Hno by done. by destruct (lo v c >? e).
  - destruct (scope_some first_level p Hp) as (x & Hx & Hxr). assert (p <> 0) as Hp0 by (intros ->; by rewrite (wf_null _ _ _ Hwf) in Hx). unfold iomem_stop in Hstop.
    case_decide as Hm; [|done]. destruct (Z.gtb_spec (lo v p) e) as [Hgt|Hle]; [injection Hstop as <-|case_decide as Hi; [injection Hstop as <-|done]].
    + exists None. split; [by apply Hrun|]. intros c (Hc & Hmc & Hi). destruct (Hlow c Hc) as [Hlc|Hno]; [unfold meets in Hi; lia|].
      unfold iomem_stop in Hno. rewrite decide_True, (decide_True (P := meets s e c)) in Hno by done. by destruct (lo v c >? e).
    + destruct (proj1 (view_is_some h p) ltac:(eauto)) as [n Hl]. destruct (shown p n Hl) as (_ & El & Eh).
      exists (Some (Z.max s (start n), Z.min e (end_ n))). split.
      * apply Hrun. unfold mbind, st_bind, mret, st_ret. rewrite (proj2 (Z.eqb_neq p 0) Hp0). unfold load. rewrite Hl. rewrite Z.gtb_ltb. do 4 f_equal; [destruct (Z.ltb_spec s (start n))|destruct (Z.ltb_spec (end_ n) e)]; lia.
      * exists p. rewrite El, Eh. split_and!; [done|done|done|]. intros q (Hq & Hmq & Hiq). destruct (Hlow q Hq) as [Hlq|Hno]; [lia|].
        unfold iomem_stop in Hno. rewrite decide_True, (decide_True (P := meets s e q)) in Hno by done. by destruct (lo v q >? e).
Qed.

(** *** Walking over all ranges *)

(** The clipped ranges of the resources of [M] that [s, e) meets. *)
Definition clip (s e c : Z) : option (Z * Z) := if decide (s < e /\ meets s e c) then Some (Z.max s (lo v c), Z.min e (hi v c)) else None.
Definition ranges (s e : Z) (M : list Z) : list (Z * Z) := omap (clip s e) M.

Lemma clip_yes s e c : s < e /\ meets s e c -> clip s e c = Some (Z.max s (lo v c), Z.min e (hi v c)).
Proof. intros Hc. unfold clip. by rewrite decide_True. Qed.
Lemma clip_no s e c : ~ (s < e /\ meets s e c) -> clip s e c = None.
Proof. intros Hc. unfold clip. by rewrite decide_False. Qed.

Lemma ranges_nil s e M : (forall c, c ∈ M -> s < e -> ~ meets s e c) -> ranges s e M = [].
Proof.
  induction M as [|c M IH]; intros HM; cbn; [done|]. rewrite clip_no by (intros [Hs Hc]; by apply (HM c ltac:(left))). apply IH. intros c' Hc'. apply HM. by right.
Qed.

Lemma ranges_ext s s' e M : (forall c, c ∈ M -> clip s e c = clip s' e c) -> ranges s e M = ranges s' e M.
Proof. induction M as [|c M IH]; intros HM; [done|]. unfold ranges in *. cbn. rewrite (HM c ltac:(left)), IH; [done|]. intros c' Hc'. apply HM. by right. Qed.

Lemma ranges_step s e M c : s < e -> StronglySorted (before v) M -> (forall q, q ∈ M -> lo v q <= hi v q) ->
  c ∈ M -> meets s e c -> (forall q, q ∈ M -> meets s e q -> lo v c <= lo v q) ->
  ranges s e M = (Z.max s (lo v c), Z.min e (hi v c)) :: ranges (Z.min e (hi v c) + 1) e M.
Proof.
  intros Hse Hs Hr (l1 & l2 & ->)%list_elem_of_split Hc Hlow. apply StronglySorted_app in Hs as (H12 & _ & Hs). apply StronglySorted_cons in Hs as [Hs _]. rewrite Forall_forall in Hs.
  unfold meets, before in *. pose proof (Hr c ltac:(set_solver)) as Hrc. assert (H1 : forall q, q ∈ l1 -> hi v q < lo v c) by (intros q Hq; apply H12; set_solver). clear H12.
  unfold ranges. rewrite !omap_app. fold (ranges s e l1) (ranges (Z.min e (hi v c) + 1) e l1). rewrite (ranges_nil s), (ranges_nil (Z.min e (hi v c) + 1)).
  2: { intros q Hq _. specialize (H1 q Hq). unfold meets. lia. }
  2: { intros q Hq _ Hm. specialize (H1 q Hq). specialize (Hlow q ltac:(set_solver) Hm). specialize (Hr q ltac:(set_solver)). lia. }
  cbn [app omap list_omap]. rewrite (clip_yes s e c), (clip_no (Z.min e (hi v c) + 1) e c) by (unfold meets; lia). f_equal. apply ranges_ext.
  intros q Hq. specialize (Hs q Hq). specialize (Hr q ltac:(set_solver)).
  unfold clip, meets. repeat case_decide; try lia; [|done]. do 2 f_equal. lia.
Qed.

(** [func] on one range after the other, until it returns an error. *)
Fixpoint call_all {A} (func : Z -> Z -> A -> Z * A) (l : list (Z * Z)) (ret : Z) (arg : A) : Z * A :=
  match l with
  | [] => (ret, arg)
  | (s, e) :: l => let '(ret, arg) := func s e arg in if ret =? 0 then call_all func l ret arg else (ret, arg)
  end.

Context {A : Type} (func : Z -> Z -> A -> Z * A).

(** The range and a resource of [M] do not both end at the last address, behind
    which the walk would go on at 0. *)
Definition below_top (e : Z) (M : list Z) : Prop := forall c, c ∈ M -> Z.min e (hi v c) < 2 ^ 64 - 1.

Lemma walk_step_ok first_level flags_ name_ M e n : all_named first_level flags_ name_ ->
  (forall c, c ∈ M <-> scope first_level c /\ matches flags_ name_ c) -> StronglySorted (before v) M -> below_top e M ->
  forall s ret arg fuel, 0 <= s -> length (ranges s e M) = n -> (n < fuel)%nat ->
  st_loop fuel (walk_step iomem func flags_ e name_ first_level) (s, e, ret, arg) h = Ok (call_all func (ranges s e M) ret arg, h).
Proof using All.
  intros Hn HM Hs He. induction n as [n IH] using lt_wf_ind. intros s ret arg fuel H0 Hlen Hf. destruct fuel as [|fuel]; [lia|]. unfold st_loop. cbn [loop]. unfold walk_step at 1.
  destruct (Z.ltb_spec s e) as [Hse|Hse].
  2: { rewrite ranges_nil by lia. done. }
  destruct (find_next_res_ok first_level flags_ name_ s e Hn Hse) as (o & Ho & Hcase). unfold mbind, st_bind. rewrite Ho. destruct o as [[s' e']|].
  2: { rewrite ranges_nil; [done|]. intros c Hc _ Hm. apply HM in Hc as [Hc1 Hc2]. by apply (Hcase c). }
  destruct Hcase as (c & (Hc1 & Hc2 & Hc3) & -> & -> & Hlow). assert (Hstep : ranges s e M = (Z.max s (lo v c), Z.min e (hi v c)) :: ranges (Z.min e (hi v c) + 1) e M).
  { apply ranges_step; try done; [|by apply HM|intros q [Hq1 Hq2]%HM Hq3; by apply Hlow]. intros q [Hq _]%HM. by destruct (scope_some first_level q Hq) as (_ & _ & ?). }
  rewrite Hstep in Hlen |- *.
  cbn [call_all]. destruct (func _ _ arg) as [ret' arg'] eqn:Ef. cbn. destruct (ret' =? 0); [|done].
  destruct (scope_some first_level c Hc1) as (x & Hx & Hxr). destruct (wf_range _ _ _ Hwf c x Hx) as [Hx1 Hx2]. assert (hi v c = d_end x) as Ehi by (unfold hi; by rewrite Hx).
  unfold meets in Hc3. specialize (He c (proj2 (HM c) (conj Hc1 Hc2))) as Hct. rewrite add64_small by lia. apply (IH (length (ranges (Z.min e (hi v c) + 1) e M))); [cbn in Hlen; lia|lia|done|cbn in Hlen; lia].
Qed.

Lemma ranges_length s e M : (length (ranges s e M) <= length M)%nat.
Proof. induction M as [|c M IH]; cbn; [lia|]. destruct (clip s e c); cbn; unfold ranges in *; lia. Qed.

Lemma walk_ok first_level flags_ name_ M s e arg : all_named first_level flags_ name_ ->
  (forall c, c ∈ M <-> scope first_level c /\ matches flags_ name_ c) -> StronglySorted (before v) M -> 0 <= s -> below_top e M ->
  while_ (walk_step iomem func flags_ e name_ first_level) (s, e, -1, arg) h = Ok (call_all func (ranges s e M) (-1) arg, h).
Proof using All.
  intros Hn HM Hs H0 He. unfold while_. eapply walk_step_ok; try done. pose proof (ranges_length s e M) as Hl. assert (length M <= size h)%nat; [|lia].
  rewrite <- view_size. apply NoDup_size.
  - pose proof (fun c (Hc : c ∈ M) => scope_some first_level c (proj1 (proj1 (HM c) Hc))) as Hr. clear HM Hl He. induction M as [|c M IH]; [constructor|].
    apply StronglySorted_cons in Hs as [Hc Hs]. constructor; [|apply IH; [done|intros c' Hc'; apply Hr; by right]]. intros Hin. rewrite Forall_forall in Hc. specialize (Hc c Hin). unfold before in Hc.
    destruct (Hr c ltac:(left)) as (_ & _ & ?). lia.
  - intros c [Hc _]%HM. destruct (scope_some first_level c Hc) as (x & Hx & _). eauto.
Qed.

Abbreviation system_ram := (matches (Z.lor IORESOURCE_MEM IORESOURCE_BUSY) (Some "System RAM"%string)).

Lemma StronglySorted_filter' {B} (R : B -> B -> Prop) (P : B -> Prop) `{!forall x, Decision (P x)} l : StronglySorted R l -> StronglySorted R (filter P l).
Proof.
  induction 1 as [|x l Hl IH Hx]; [constructor|]. rewrite filter_cons. case_decide; [|done]. constructor; [done|]. rewrite Forall_forall in Hx |- *. intros y [_ Hy]%list_elem_of_filter. by apply Hx.
Qed.

(** C34. [walk_system_ram_res] calls the function once for every busy memory
    resource called "System RAM" directly below [iomem_resource] that the range
    meets, from the lowest to the highest, with the part of its range that lies
    between [start] and [end]; it stops at the first call that returns an error,
    returns what the last call returned, -1 when there is none, and leaves the
    tree as it was.  This is for trees in which the busy memory resources at this
    level have names, and where [end] and the end of a System RAM resource are
    not both the last address [2 ^ 64 - 1]; [end] alone may be. *)
Theorem walk_system_ram_res_correct s e arg : all_named true (Z.lor IORESOURCE_MEM IORESOURCE_BUSY) (Some "System RAM"%string) -> 0 <= s ->
  below_top e (filter system_ram (kids iomem)) ->
  walk_system_ram_res iomem s e arg func h = Ok (call_all func (ranges s e (filter system_ram (kids iomem))) (-1) arg, h).
Proof using All.
  intros Hn H0 He. apply walk_ok; try done; [|by apply StronglySorted_filter', (wf_order _ _ _ Hwf)]. intros c. rewrite list_elem_of_filter. cbn. tauto.
Qed.

(** [walk_iomem_res] does the same for the whole tree, where the matching
    resources [M] do not contain one another. *)
Theorem walk_iomem_res_correct name_ flags_ M s e arg : all_named false flags_ name_ ->
  (forall c, c ∈ M <-> scope false c /\ matches flags_ name_ c) -> StronglySorted (before v) M -> 0 <= s -> below_top e M ->
  walk_iomem_res iomem name_ flags_ s e arg func h = Ok (call_all func (ranges s e M) (-1) arg, h).
Proof using All. intros. by apply walk_ok. Qed.
End search.

(** ** The questions about [iomem_resource] *)

Section queries.
Context (dead : list Z) (h : rheap) (kids : Z -> list Z) (iomem : Z).
Abbreviation v := (view_of h).
Hypothesis Hwf : wf dead v kids.
Hypothesis Hio : is_Some (dat v !! iomem).
Hypothesis Hlive : iomem ∉ dead.
Hypothesis Htop : par v !! iomem = Some 0 /\ sib v !! iomem = Some 0.
Hypothesis Hrange : lo v iomem <= hi v iomem.
Abbreviation scope := (scope kids iomem).
Abbreviation hit := (hit h kids iomem).
Abbreviation system_ram := (matches h (Z.lor IORESOURCE_MEM IORESOURCE_BUSY) (Some "System RAM"%string)).
Abbreviation all_named := (all_named h kids iomem).

(** [find_next_iomem_res] returns the lowest resource with these flags (and
    this name, where one is given) that starts before [end] and does not end
    before [start], on the first level or in the whole tree: the range that is
    left in [*res] is the part of it between [start] and [end].  It returns -1
    only if there is no such resource, and changes nothing. *)
Theorem find_next_iomem_res_correct first_level flags_ name_ s e : all_named first_level flags_ name_ -> s < e ->
  exists o, find_next_iomem_res iomem flags_ s e name_ first_level h = Ok (o, h) /\
  match o with
  | Some (s', e') => exists c, hit first_level flags_ name_ s e c /\ s' = Z.max s (lo v c) /\ e' = Z.min e (hi v c) /\
      forall q, hit first_level flags_ name_ s e q -> lo v c <= lo v q
  | None => forall c, ~ hit first_level flags_ name_ s e c
  end.
Proof using All. by apply (find_next_res_ok dead). Qed.

Lemma siblings_meet c q a : c ∈ kids iomem -> q ∈ kids iomem -> lo v c <= a <= hi v c -> lo v q <= a <= hi v q -> c = q.
Proof using Hwf.
  intros Hc Hq Ha Hb. pose proof (wf_order _ _ _ Hwf iomem) as Ho. apply list_elem_of_split in Hc as (l1 & l2 & Hk). rewrite Hk in Ho, Hq. apply StronglySorted_app in Ho as (H12 & _ & Ho).
  apply StronglySorted_cons in Ho as [Ho _]. rewrite Forall_forall in Ho. unfold before in *. apply elem_of_app in Hq as [Hq|[->|Hq]%elem_of_cons]; [|done|].
  - specialize (H12 q c Hq ltac:(left)). lia.
  - specialize (Ho q Hq). lia.
Qed.

(** [page_is_ram] says whether one "System RAM" resource directly below
    [iomem_resource] covers the whole page. *)
Theorem page_is_ram_correct pfn : all_named true (Z.lor IORESOURCE_MEM IORESOURCE_BUSY) (Some "System RAM"%string) -> 0 <= pfn < 2 ^ 52 - 1 ->
  exists b : bool, page_is_ram iomem pfn h = Ok (b, h) /\
    (b = true <-> exists c, c ∈ kids iomem /\ system_ram c /\ lo v c <= pfn * PAGE_SIZE /\ pfn * PAGE_SIZE + (PAGE_SIZE - 1) <= hi v c).
Proof using All.
  intros Hn Hp. set (s := pfn * PAGE_SIZE). set (e := s + (PAGE_SIZE - 1)). assert (Hs : 0 <= s <= 2 ^ 64 - 8192) by (unfold s, PAGE_SIZE; lia). assert (Hse : s < e) by (unfold e, PAGE_SIZE; lia).
  assert (Es : u64 (Z.shiftl pfn PAGE_SHIFT) = s) by (rewrite Z.shiftl_mul_pow2 by done; apply u64_small; unfold s, PAGE_SIZE in *; cbn in *; lia).
  assert (Ee : u64 (Z.shiftl (pfn ⊕ 1) PAGE_SHIFT) ⊖ 1 = e).
  { rewrite add64_small by lia. rewrite Z.shiftl_mul_pow2, u64_small by (unfold PAGE_SHIFT; lia). unfold e, s, PAGE_SIZE, PAGE_SHIFT in *. rewrite sub64_small; lia. }
  destruct (find_next_res_ok dead h kids iomem Hwf Hio Hlive Htop Hrange true _ _ s e Hn Hse) as (o & Ho & Hcase). unfold page_is_ram, walk_system_ram_range. rewrite Es, Ee.
  unfold mbind at 1, st_bind at 1. unfold while_, st_loop. cbn [loop]. unfold ram_step at 1. rewrite (proj2 (Z.ltb_lt s e) Hse). unfold mbind at 1, st_bind at 1. rewrite Ho. destruct o as [[s' e']|].
  - destruct Hcase as (c & (Hc & Hm & Hme) & Hs' & He' & Hlow). unfold meets in Hme. destruct (wf_within _ _ _ Hwf iomem c Hc) as (_ & Hcr & _).
    assert (s <= s' <= e /\ s' <= e' <= e) as [Hs1 He1] by lia. rewrite (add64_small s') by (unfold e, PAGE_SIZE in *; lia). rewrite (sub64_small (s' + _)), (add64_small e') by (unfold e, PAGE_SIZE in *; lia).
    rewrite !Z.shiftr_div_pow2 by done. change (2 ^ PAGE_SHIFT) with PAGE_SIZE.
    destruct (decide (lo v c <= s /\ e <= hi v c)) as [Hcov|Hcov].
    + assert (s' = s /\ e' = e) as [-> ->] by lia. assert ((s + PAGE_SIZE - 1) / PAGE_SIZE = pfn) as -> by (unfold s, PAGE_SIZE; symmetry; apply (Z.div_unique _ _ _ 4095); lia).
      assert ((e + 1) / PAGE_SIZE = pfn + 1) as -> by (unfold e, s, PAGE_SIZE; symmetry; apply (Z.div_unique _ _ _ 0); lia). rewrite (proj2 (Z.gtb_lt _ _)) by lia.
      exists true. split; [done|]. split; [|done]. intros _. exists c. unfold e in Hcov. tauto.
    + assert (((e' + 1) / PAGE_SIZE >? (s' + PAGE_SIZE - 1) / PAGE_SIZE) = false) as ->.
      { rewrite Z.gtb_ltb. apply Z.ltb_ge. destruct (decide (s' = s)) as [->|Hne].
        - transitivity pfn; [|unfold s, PAGE_SIZE; apply Z.div_le_lower_bound; lia]. apply Z.lt_succ_r. apply Z.div_lt_upper_bound; unfold e, s, PAGE_SIZE in *; lia.
        - transitivity (pfn + 1); [apply Z.lt_succ_r; apply Z.div_lt_upper_bound|apply Z.div_le_lower_bound]; unfold e, s, PAGE_SIZE in *; lia. }
      exists false. split; [done|]. split; [done|]. intros (q & Hq & _ & Hq1 & Hq2). destruct Hcov. fold e in Hq2. assert (c = q) as ->; [|done].
      apply (siblings_meet c q (Z.max s (lo v c)) Hc Hq); lia.
  - exists false. split; [done|]. split; [done|]. intros (q & Hq & Hmq & Hq1 & Hq2). fold e in Hq2. destruct (Hcase q). split_and!; [done|done|]. unfold meets. lia.
Qed.

(** [iomem_is_exclusive] says, where the checks are strict, whether a busy and
    exclusive resource meets the page of [addr]. *)
Theorem iomem_is_exclusive_correct addr : 0 <= addr < 2 ^ 64 - PAGE_SIZE ->
  let page := addr / PAGE_SIZE * PAGE_SIZE in
  exists r, iomem_is_exclusive iomem true addr h = Ok (r, h) /\ (r = 0 \/ r = 1) /\
    (r = 1 <-> exists c n, scope false c /\ h !! c = Some n /\ flag n IORESOURCE_BUSY = true /\ flag n IORESOURCE_EXCLUSIVE = true /\ start n < page + PAGE_SIZE /\ page <= end_ n).
Proof using All.
  intros Ha page. pose proof (Z.div_mod addr 4096 ltac:(done)) as Hdm. pose proof (Z.mod_pos_bound addr 4096 ltac:(done)) as Hmb. assert (Hpage : Z.land addr (ULLONG_MAX - (PAGE_SIZE - 1)) = page).
  { change (Z.land addr (ULLONG_MAX - (PAGE_SIZE - 1))) with (round_down addr (2 ^ 12)). rewrite round_down_pow2 by (unfold PAGE_SIZE in *; lia). unfold page, PAGE_SIZE. change (2 ^ 12) with 4096. lia. }
  assert (Hp0 : 0 <= page /\ page + PAGE_SIZE < 2 ^ 64) by (unfold page, PAGE_SIZE in *; lia).
  set (stop := fun p => match h !! p with Some n => if start n >=? page + PAGE_SIZE then Some 0 else if end_ n <? page then None else if flag n IORESOURCE_BUSY && flag n IORESOURCE_EXCLUSIVE then Some 1 else None | None => None end).
  unfold iomem_is_exclusive. cbn [negb]. rewrite Hpage.
  destruct (search_ok dead h kids iomem Hwf Hio Hlive Htop Hrange (exclusive_step page) stop false 0 eq_refl) as (r & Hr & Hcases).
  { intros p n Hp Hpn Hl. unfold exclusive_step, stop. rewrite (proj2 (Z.eqb_neq p 0) Hpn), Hl. unfold mbind, st_bind, load. rewrite Hl, add64_small by (unfold PAGE_SIZE in *; lia).
    destruct (start n >=? _); [done|]. destruct (end_ n <? page); [done|]. by destruct (_ && _). }
  exists r. split; [done|]. destruct Hcases as [[-> Hno]|(p & Hp & Hs & Hlow)].
  - split; [by left|]. split; [done|]. intros (c & n & Hc & Hl & Hb & Hx & H1 & H2). specialize (Hno c Hc). unfold stop in Hno. rewrite Hl, Z.geb_leb, (proj2 (Z.leb_gt _ _)), (proj2 (Z.ltb_ge _ _)), Hb, Hx in Hno by lia. done.
  - unfold stop in Hs. destruct (h !! p) as [n|] eqn:Hl; [|done]. rewrite Z.geb_leb in Hs. destruct (shown h p n Hl) as (_ & El & _).
    destruct (Z.leb_spec (page + PAGE_SIZE) (start n)) as [Hle|Hgt]; [injection Hs as <-|].
    + split; [by left|]. split; [done|]. intros (c & m & Hc & Hlc & Hb & Hx & H1 & H2). destruct (shown h c m Hlc) as (_ & Ec & _). destruct (Hlow c Hc) as [Hlo|Hno]; [lia|].
      unfold stop in Hno. rewrite Hlc, Z.geb_leb, (proj2 (Z.leb_gt _ _)), (proj2 (Z.ltb_ge _ _)), Hb, Hx in Hno by lia. done.
    + destruct (Z.ltb_spec (end_ n) page); [done|]. destruct (flag n IORESOURCE_BUSY) eqn:Hb, (flag n IORESOURCE_EXCLUSIVE) eqn:Hx; try done. injection Hs as <-.
      split; [by right|]. split; [intros _|done]. exists p, n. by split_and!.
Qed.

(** C40. [region_is_ram] never answers that a region is RAM: it compares the
    [unsigned long] flags of the resource with an [int] that holds
    [IORESOURCE_MEM | IORESOURCE_BUSY], a negative number, which no flags of 32
    bits equal.  And it takes every region above the first resource to be
    unknown: the loop ends at a resource that lies below the region. *)
Theorem region_is_ram_never s sz : (forall c n, c ∈ kids iomem -> h !! c = Some n -> 0 <= flags n < 2 ^ 32) ->
  exists r, region_is_ram iomem s sz h = Ok (r, h) /\ (r = 0 \/ r = -1) /\
    forall c l, kids iomem = c :: l -> hi v c < s <= s ⊕ sz ⊖ 1 -> r = -1.
Proof using All.
  intros Hfl. set (e := s ⊕ sz ⊖ 1).
  set (stop := fun p => match h !! p with Some n => if e <? start n then None else if (start n <=? s) && (e <=? end_ n) then Some 0 else if end_ n <? s then Some (-1) else None | None => None end).
  assert (Hrun : while_ (is_ram_step s e ram_flags) (hd 0 (kids iomem)) h = Ok (first_stop stop (-1) (kids iomem), h)).
  { eapply (scan_through h _ stop true); [by apply (steps_siblings dead)|done|]. intros p n Hp Hp0 Hl. unfold is_ram_step, stop, next_resource. rewrite (proj2 (Z.eqb_neq p 0) Hp0), Hl.
    unfold mbind, st_bind, load. rewrite Hl. destruct (e <? start n); [done|]. destruct (_ && _); [|by destruct (end_ n <? s)]. specialize (Hfl p n Hp Hl).
    assert ((flags n =? u64 ram_flags) = false) as ->; [|done]. apply Z.eqb_neq. change (u64 ram_flags) with (2 ^ 64 - 2 ^ 31 + 512). lia. }
  exists (first_stop stop (-1) (kids iomem)). split_and!.
  - destruct (proj1 (view_is_some h iomem) Hio) as [n Hn]. pose proof (view_some h iomem n Hn) as (_ & _ & Hc & _). destruct (wf_kids _ _ _ Hwf iomem Hio Hlive) as [Hch _].
    unfold region_is_ram, mbind, st_bind, load. rewrite Hn. assert (child n = hd 0 (kids iomem)) as -> by congruence. done.
  - destruct (first_stop_cases stop (-1) (kids iomem)) as [[-> _]|(l1 & p & l2 & _ & _ & Hs)]; [by right|]. revert Hs. generalize (first_stop stop (-1) (kids iomem)). intros r. unfold stop.
    destruct (h !! p) as [n|]; [|done]. destruct (e <? start n); [done|]. destruct (_ && _); [|destruct (end_ n <? s)]; intros [=]; auto.
  - intros c l Hk Hlt. rewrite Hk. cbn [first_stop]. assert (Hin : c ∈ kids iomem) by (rewrite Hk; left). destruct (wf_within _ _ _ Hwf iomem c Hin) as (_ & Hr & _).
    destruct (proj1 (view_is_some h c) (kids_some dead v kids iomem c Hwf Hin)) as [n Hl]. destruct (shown h c n Hl) as (_ & El & Eh). unfold stop. rewrite Hl. fold e in Hlt.
    rewrite (proj2 (Z.ltb_ge e _)), (proj2 (Z.leb_gt e (end_ n))), andb_false_r, (proj2 (Z.ltb_lt (end_ n) s)) by lia. done.
Qed.

(** [iomem_map_sanity_check] fails exactly if a resource that is not busy meets
    the range, and its pages do not cover those of the range. *)
Lemma iomem_map_sanity_check_ok addr sz :
  exists r, iomem_map_sanity_check iomem addr sz h = Ok (r, h) /\ (r = 0 \/ r = -1) /\
    (r = -1 <-> exists c n, scope false c /\ h !! c = Some n /\ start n < addr ⊕ sz /\ addr <= end_ n /\ flag n IORESOURCE_BUSY = false /\
      ~ (PFN_DOWN (start n) <= PFN_DOWN addr /\ PFN_DOWN (addr ⊕ sz ⊖ 1) <= PFN_DOWN (end_ n))).
Proof using All.
  set (ok := fun n => (start n >=? addr ⊕ sz) || (end_ n <? addr) || ((PFN_DOWN (start n) <=? PFN_DOWN addr) && (PFN_DOWN (end_ n) >=? PFN_DOWN (addr ⊕ sz ⊖ 1))) || flag n IORESOURCE_BUSY).
  assert (Hok : forall n, ok n = false <-> start n < addr ⊕ sz /\ addr <= end_ n /\ flag n IORESOURCE_BUSY = false /\ ~ (PFN_DOWN (start n) <= PFN_DOWN addr /\ PFN_DOWN (addr ⊕ sz ⊖ 1) <= PFN_DOWN (end_ n))).
  { intros n. unfold ok. rewrite !orb_false_iff, andb_false_iff, !Z.geb_leb, !Z.leb_gt, Z.ltb_ge. destruct (flag n IORESOURCE_BUSY); lia || naive_solver lia. }
  set (stop := fun p => match h !! p with Some n => if ok n then None else Some (-1) | None => None end).
  destruct (search_ok dead h kids iomem Hwf Hio Hlive Htop Hrange (sanity_step addr sz) stop false 0 eq_refl) as (r & Hr & Hcases).
  { intros p n Hp Hpn Hl. unfold sanity_step, stop. rewrite (proj2 (Z.eqb_neq p 0) Hpn), Hl. unfold mbind, st_bind, load. rewrite Hl. fold (ok n). by destruct (ok n). }
  exists r. split; [done|]. destruct Hcases as [[-> Hno]|(p & Hp & Hs & _)].
  - split; [by left|]. split; [done|]. intros (c & n & Hc & Hl & Hn). apply Hok in Hn. specialize (Hno c Hc). unfold stop in Hno. by rewrite Hl, Hn in Hno.
  - unfold stop in Hs. destruct (h !! p) as [n|] eqn:Hl; [|done]. destruct (ok n) eqn:E; [done|]. injection Hs as <-. split; [by right|]. split; [|done]. intros _. exists p, n. split; [done|]. split; [done|]. by apply Hok.
Qed.
End queries.
