(* ===== verification/ResourceRegion.v ===== *)
(** Regions: resources that the code allocates and frees itself, [__request_region],
    [__release_region] and [reserve_region_with_split]. *)
From stdpp Require Import gmap strings sorting functions.
From S2P Require Import Prelude State Sorting ResourceDefs ResourceTree ResourceRequest ResourceAlloc ResourceInsert ResourceWalk.

(** ** Entries that are in no tree *)

Lemma kids_order_agree dead v v' kids r : wf dead v kids -> (forall c, c ∈ kids r -> dat v' !! c = dat v !! c) -> StronglySorted (before v') (kids r).
Proof.
  intros Hwf Hd. eapply StronglySorted_mono; [apply (wf_order _ _ _ Hwf r)|]. intros a b Ha Hb. unfold before, lo, hi. by rewrite !Hd.
Qed.

(** An entry outside the trees can be written, taken into use and given back. *)
Lemma wf_other dead dead' v v' kids res : wf dead v kids -> res <> 0 -> kids res = [] -> (forall r, res ∉ kids r) ->
  (forall a, a <> res -> par v' !! a = par v !! a /\ sib v' !! a = sib v !! a /\ chd v' !! a = chd v !! a /\ dat v' !! a = dat v !! a) ->
  (forall a, a <> res -> a ∈ dead' <-> a ∈ dead) ->
  (forall x, dat v' !! res = Some x -> 0 <= d_start x < 2 ^ 64 /\ 0 <= d_end x < 2 ^ 64) ->
  (res ∉ dead' -> is_Some (dat v' !! res) -> chd v' !! res = Some 0) ->
  (forall r, res ∉ dead' -> par v' !! res = Some r -> r = 0) ->
  wf dead' v' kids.
Proof.
  intros Hwf Hr0 Hk Hno Hag Hdead Hx Hch Hpar. assert (Hc : forall r c, c ∈ kids r -> c <> res /\ r <> res).
  { intros r c Hc. split; intros ->; [by apply (Hno r)|]. rewrite Hk in Hc. by apply elem_of_nil in Hc. }
  assert (Hlh : forall a, a <> res -> lo v' a = lo v a /\ hi v' a = hi v a) by (intros a Ha; unfold lo, hi; by rewrite (proj2 (proj2 (proj2 (Hag a Ha))))).
  split.
  - rewrite (proj2 (proj2 (proj2 (Hag 0 ltac:(congruence))))). apply (wf_null _ _ _ Hwf).
  - intros a x Ha. destruct (decide (a = res)) as [->|Hne]; [by apply Hx|]. apply (wf_range _ _ _ Hwf a). by rewrite <- (proj2 (proj2 (proj2 (Hag a Hne)))).
  - intros r Hr Hrd. destruct (decide (r = res)) as [->|Hne]; [rewrite Hk; split; [by apply Hch|done]|]. destruct (Hag r Hne) as (_ & _ & Ec & Ed).
    apply (children_agree v); [done| |apply (wf_kids _ _ _ Hwf r); [by rewrite <- Ed|by rewrite <- Hdead]]. intros c Hin. destruct (Hc r c Hin) as [Hcr _]. by destruct (Hag c Hcr) as (-> & -> & _).
  - intros r. apply (kids_order_agree dead v); [done|]. intros c Hin. destruct (Hc r c Hin) as [Hcr _]. apply (Hag c Hcr).
  - intros r c Hin. destruct (Hc r c Hin) as [Hcr Hrr]. pose proof (wf_within _ _ _ Hwf r c Hin) as Hw. unfold within in *. destruct (Hlh c Hcr) as [-> ->], (Hlh r Hrr) as [-> ->]. done.
  - intros r c Hin. destruct (Hc r c Hin) as [Hcr Hrr]. rewrite (proj2 (proj2 (proj2 (Hag r Hrr)))), (proj2 (proj2 (proj2 (Hag c Hcr)))), !Hdead by done. by apply (wf_live _ _ _ Hwf).
  - intros r c Hp Hcd Hr. destruct (decide (c = res)) as [->|Hne]; [by destruct Hr; apply Hpar|]. apply (wf_parent _ _ _ Hwf); [by rewrite <- (proj1 (Hag c Hne))|by rewrite <- Hdead|done].
  - apply (wf_acyclic _ _ _ Hwf).
Qed.

(** The list of recycled entries. *)
Fixpoint free_chain (v : view) (f : Z) (dead : list Z) : Prop :=
  match dead with
  | [] => f = 0
  | a :: l => f = a /\ exists s, sib v !! a = Some s /\ free_chain v s l
  end.

Lemma free_chain_agree v v' f dead : (forall a, a ∈ dead -> sib v' !! a = sib v !! a) -> free_chain v f dead -> free_chain v' f dead.
Proof.
  revert f. induction dead as [|a l IH]; intros f Ha; cbn; [done|]. intros (-> & s & Hs & Hl). split; [done|]. exists s. rewrite Ha by left. split; [done|]. apply IH; [|done]. intros b Hb. apply Ha. by right.
Qed.

Lemma wp_on_mem {A} (m : RES A) Q st : wp m (fun a h' => Q a (mkRs h' (bootmem_resource_free st) (slab st))) (mem st) -> wp (on_mem m) Q st.
Proof. intros (a & h' & Hm & HQ). eexists a, _. split; [|exact HQ]. unfold on_mem. by rewrite Hm. Qed.

Lemma mem_lo (h1 h2 : rheap) c : h2 !! c = h1 !! c -> dat (view_of h2) !! c = dat (view_of h1) !! c /\ lo (view_of h2) c = lo (view_of h1) c /\ hi (view_of h2) c = hi (view_of h1) c.
Proof.
  intros Heq. assert (Hd : dat (view_of h2) !! c = dat (view_of h1) !! c); [|unfold lo, hi; by rewrite Hd]. destruct (h1 !! c) as [n|] eqn:E.
  - destruct (view_some _ _ _ Heq) as (_ & _ & _ & ->), (view_some _ _ _ E) as (_ & _ & _ & ->). done.
  - destruct (view_none _ _ Heq) as (_ & _ & _ & ->), (view_none _ _ E) as (_ & _ & _ & ->). done.
Qed.

Section pool.
Context (PageSlab : Z -> bool).
Abbreviation free_resource := (free_resource PageSlab).

(** Where new entries come from: the recycled ones, which do not belong to the
    slab allocator, and what that will return, which is not in use. *)
Record pool (dead : list Z) (st : rstate) : Prop := {
  po_chain : free_chain (view_of (mem st)) (bootmem_resource_free st) dead;
  po_dead a : a ∈ dead -> a <> 0 /\ PageSlab a = false /\ is_Some (mem st !! a);
  po_NoDup : NoDup dead;
  po_slab a : a ∈ slab st -> a <> 0 -> mem st !! a = None /\ PageSlab a = true;
  po_fresh : NoDup (filter (fun a => a <> 0) (slab st)) }.

Lemma pool_mem dead st h' : pool dead st -> (forall a, a ∈ dead -> h' !! a = mem st !! a) -> (forall a, is_Some (h' !! a) -> is_Some (mem st !! a)) ->
  pool dead (mkRs h' (bootmem_resource_free st) (slab st)).
Proof.
  intros [H1 H2 H3 H4 H5] Ha Hd. split; cbn; try done.
  - eapply free_chain_agree; [|exact H1]. intros a Hin. pose proof (Ha a Hin) as Heq. destruct (H2 a Hin) as (_ & _ & [n Hn]). rewrite Hn in Heq.
    destruct (view_some h' a n Heq) as (_ & -> & _), (view_some (mem st) a n Hn) as (_ & -> & _). done.
  - intros a Hin. rewrite (Ha a Hin). by apply H2.
  - intros a Hin Hn. destruct (H4 a Hin Hn) as [Hnone Hp]. split; [|done]. apply eq_None_not_Some. intros Hs%Hd. rewrite Hnone in Hs. by destruct Hs.
Qed.

(** An entry that is recycled, or was just returned by the slab allocator. *)
Lemma fresh_out dead h kids res : wf dead (view_of h) kids -> (res ∈ dead \/ h !! res = None) -> kids res = [] /\ forall r, res ∉ kids r.
Proof.
  intros Hwf Hfree. assert (Hno : forall r c, c ∈ kids r -> c <> res /\ r <> res).
  { intros r c Hc. destruct (wf_live _ _ _ Hwf r c Hc) as (Hr & Hcs & Hrd & Hcd). rewrite view_is_some in Hr. rewrite view_is_some in Hcs.
    destruct Hfree as [Hd|Hn]; split; intros ->; try done; [rewrite Hn in Hcs; by destruct Hcs|rewrite Hn in Hr; by destruct Hr]. }
  split; [|intros r Hin; by destruct (Hno r res Hin)]. destruct (kids res) as [|c l] eqn:E; [done|]. destruct (Hno res c) as [_ ?]; [rewrite E; left|done].
Qed.

Lemma wf_fresh dead dead' h kids res n : wf dead (view_of h) kids -> res <> 0 -> (res ∈ dead \/ h !! res = None) -> (forall a, a <> res -> a ∈ dead' <-> a ∈ dead) ->
  parent n = 0 -> child n = 0 -> 0 <= start n < 2 ^ 64 -> 0 <= end_ n < 2 ^ 64 -> wf dead' (view_of (<[res := n]> h)) kids.
Proof.
  intros Hwf Hr0 Hfree Hdead Hnp Hnc Hns Hne. destruct (fresh_out dead h kids res Hwf Hfree) as [Hk Hc]. apply (wf_other dead dead' (view_of h) _ kids res); try done; rewrite view_insert; cbn.
  - intros a Ha. by rewrite !lookup_insert_ne.
  - rewrite lookup_insert_eq. by intros x [= <-].
  - intros _ _. rewrite lookup_insert_eq. by rewrite Hnc.
  - intros r _. rewrite lookup_insert_eq, Hnp. by intros [= <-].
Qed.

(** A new entry, zeroed, from the pool. *)
Definition taken (dead : list Z) (st : rstate) (res : Z) (st' : rstate) : Prop :=
  if decide (res = 0) then mem st' = mem st /\ pool dead st' /\ dead = [] /\ (0 ∈ slab st \/ slab st = [])
  else exists dead', mem st' = <[res := zeroed]> (mem st) /\ pool dead' st' /\ (res ∈ dead \/ mem st !! res = None) /\ (res ∉ dead') /\ (forall a, a <> res -> a ∈ dead' <-> a ∈ dead) /\
    S (length dead' + length (slab st')) = (length dead + length (slab st))%nat /\ forall a, a ∈ slab st' -> a ∈ slab st.

Lemma alloc_resource_ok dead st : pool dead st -> wp alloc_resource (taken dead st) st.
Proof.
  intros Hpool. pose proof Hpool as [H1 H2 H3 H4 H5]. unfold alloc_resource. apply wp_bind. eexists _, st. split; [done|]. destruct dead as [|a dead].
  - cbn in H1. rewrite H1. cbn. apply wp_bind, wp_ret. cbn. unfold kzalloc. destruct (slab st) as [|a s] eqn:Es.
    { exists 0, st. split; [by rewrite Es|]. unfold taken. rewrite decide_True by done. auto. }
    destruct (Z.eqb_spec a 0) as [->|Ha].
    { eexists 0, _. split; [by rewrite Es|]. unfold taken. rewrite decide_True by done. cbn. rewrite Es. split_and!; [done| |done|left; left]. split; cbn; try done. intros b Hb. apply H4. by right. }
    destruct (H4 a ltac:(left) Ha) as [Hnone Hps]. eexists a, _. split; [rewrite Es, (proj2 (Z.eqb_neq a 0) Ha); done|]. unfold taken. rewrite decide_False by done. exists []. cbn. rewrite Es.
    rewrite filter_cons_True in H5 by done. apply NoDup_cons in H5 as [Hnew H5]. split_and!; [done| |by right|set_solver|done|cbn; lia|set_solver].
    split; cbn; try done; [by intros b ?%elem_of_nil|]. intros b Hb Hb0. destruct (H4 b ltac:(by right) Hb0) as [Hbn Hbp]. split; [|done]. rewrite lookup_insert_ne; [done|]. intros ->. apply Hnew. by apply list_elem_of_filter.
  - destruct H1 as (-> & s & Hs & Hl). destruct (H2 a ltac:(left)) as (Ha0 & Hps & [n Hn]). cbn. rewrite (proj2 (Z.eqb_neq a 0) Ha0). cbn. apply NoDup_cons in H3 as [Had H3].
    apply wp_bind. apply wp_bind, wp_on_mem. exists n, (mem st). split; [unfold load; by rewrite Hn|]. apply wp_bind. eexists tt, _. split; [done|]. apply wp_ret.
    rewrite (proj2 (Z.eqb_neq a 0) Ha0). cbn. apply wp_bind, wp_on_mem, wp_overwrite; [by apply view_is_some|]. apply wp_ret. unfold taken. rewrite decide_False by done. exists dead. cbn.
    destruct (view_some (mem st) a n Hn) as (_ & Hs' & _). assert (sibling n = s) as -> by congruence. split_and!; [done| |left; left|done| |lia|done].
    + split; cbn; try done.
      * eapply free_chain_agree; [|exact Hl]. intros b Hb. rewrite view_insert. cbn. rewrite lookup_insert_ne; [done|]. by intros ->.
      * intros b Hb. rewrite lookup_insert_ne by (by intros ->). apply H2. by right.
      * intros b Hb Hb0. destruct (H4 b Hb Hb0) as [Hbn Hbp]. split; [|done]. rewrite lookup_insert_ne; [done|]. congruence.
    + intros b Hb. split; [by right|]. by intros [?|?]%elem_of_cons.
Qed.

(** Giving an entry back that is in no tree (but may still name a parent). *)
Lemma free_resource_ok dead st kids res : pool dead st -> wf dead (set_par (view_of (mem st)) res 0) kids -> is_Some (mem st !! res) -> res ∉ dead -> kids res = [] -> (forall r, res ∉ kids r) ->
  wp (free_resource res) (fun _ st' => exists dead', pool dead' st' /\ wf dead' (view_of (mem st')) kids /\ (forall a, a <> res -> mem st' !! a = mem st !! a) /\
    (forall a, a <> res -> a ∈ dead' <-> a ∈ dead) /\ slab st' = slab st) st.
Proof.
  intros Hpool Hwf [n Hn] Hrd Hk Hno. pose proof Hpool as [H1 H2 H3 H4 H5]. assert (Hr0 : res <> 0).
  { intros ->. pose proof (wf_null _ _ _ Hwf) as H0. cbn in H0. assert (is_Some (dat (view_of (mem st)) !! 0)) as Hs by (apply view_is_some; eauto). rewrite H0 in Hs. by destruct Hs. }
  unfold ResourceDefs.free_resource. rewrite (proj2 (Z.eqb_neq res 0) Hr0). destruct (PageSlab res) eqn:Hps; cbn [negb].
  - exists tt. eexists. split; [unfold kfree; rewrite Hn; done|]. exists dead. cbn. split_and!; [| |intros a Ha; by rewrite lookup_delete_ne|done|done].
    + apply (pool_mem dead st); [done| |].
      * intros a Ha. apply lookup_delete_ne. congruence.
      * intros a [x Hx]. apply lookup_delete_Some in Hx as [_ Hx]. eauto.
    + assert (Hdel : forall a, a <> res -> delete res (mem st) !! a = mem st !! a) by (intros a Ha; by apply lookup_delete_ne).
      assert (Hnone : delete res (mem st) !! res = None) by apply lookup_delete_eq. revert Hdel Hnone. generalize (delete res (mem st)). intros h' Hdel Hnone.
      apply (wf_other dead dead (set_par (view_of (mem st)) res 0) _ kids res); try done.
      * intros a Ha. cbn. rewrite lookup_insert_ne by done. specialize (Hdel a Ha). destruct (mem st !! a) as [m|] eqn:Em.
        -- destruct (view_some h' a m Hdel) as (-> & -> & -> & ->), (view_some (mem st) a m Em) as (-> & -> & -> & ->). done.
        -- destruct (view_none h' a Hdel) as (-> & -> & -> & ->), (view_none (mem st) a Em) as (-> & -> & -> & ->). done.
      * intros x Hx. destruct (view_none h' res Hnone) as (_ & _ & _ & Hd). congruence.
      * intros _ [x Hx]. destruct (view_none h' res Hnone) as (_ & _ & _ & Hd). congruence.
      * intros r _ Hr. destruct (view_none h' res Hnone) as (Hd & _). congruence.
  - apply wp_bind. eexists _, st. split; [done|]. cbn. apply wp_bind, wp_on_mem. exists tt. eexists. split; [unfold update; rewrite Hn; done|].
    exists tt. eexists. split; [done|]. exists (res :: dead). cbn. split_and!; [| |intros a Ha; by rewrite lookup_insert_ne|set_solver|done].
    + split; cbn.
      * split; [done|]. exists (bootmem_resource_free st). rewrite view_insert. cbn. rewrite lookup_insert_eq. split; [done|]. eapply free_chain_agree; [|exact H1].
        intros a Ha. cbn. rewrite lookup_insert_ne; [done|]. congruence.
      * intros a [->|Ha]%elem_of_cons; [rewrite lookup_insert_eq; eauto|]. destruct (decide (a = res)) as [->|]; [done|]. rewrite lookup_insert_ne by done. by apply H2.
      * by constructor.
      * intros a Ha Ha0. destruct (H4 a Ha Ha0) as [Han Hap]. split; [|done]. rewrite lookup_insert_ne; [done|]. intros ->. congruence.
      * done.
    + apply (wf_other dead (res :: dead) (set_par (view_of (mem st)) res 0) _ kids res); try done; rewrite ?view_insert; cbn.
      * intros a Ha. by rewrite !lookup_insert_ne.
      * set_solver.
      * rewrite lookup_insert_eq. intros x [= <-]. apply (wf_range _ _ _ Hwf res). cbn. by destruct (view_some (mem st) res n Hn) as (_ & _ & _ & ->).
      * intros Hx. destruct Hx. left.
      * intros r Hx. destruct Hx. left.
Qed.
End pool.

(** ** Requesting a region *)

Definition busy (v : view) (c : Z) : Prop := match dat v !! c with Some x => Z.land (d_flags x) IORESOURCE_BUSY <> 0 | None => False end.
#[global] Instance busy_dec v c : Decision (busy v c).
Proof. unfold busy. destruct (dat v !! c); apply _. Defined.
Definition flags_of (v : view) (c : Z) : Z := from_option d_flags 0 (dat v !! c).

(** What is in the way of the range [s..e] below [p]: nothing, [p] itself or the
    first child that overlaps. *)
Definition in_the_way (v : view) (kids : Z -> list Z) (s e p : Z) : Z :=
  if decide (lo v p <= s /\ s <= e /\ e <= hi v p) then hd 0 (filter (fun c => lo v c <= e /\ s <= hi v c) (kids p)) else p.

(** A child that is not busy is where the search goes on. *)
Definition descends (v : view) (kids : Z -> list Z) (s e p c : Z) : Prop := c = in_the_way v kids s e p /\ c <> 0 /\ c <> p /\ ~ busy v c.

Lemma filter_ext' {A} (P Q : A -> Prop) `{!forall x, Decision (P x), !forall x, Decision (Q x)} (l : list A) : (forall x, x ∈ l -> P x <-> Q x) -> filter P l = filter Q l.
Proof.
  induction l as [|x l IH]; intros HPQ; [done|]. rewrite !filter_cons. rewrite (IH (fun y Hy => HPQ y ltac:(by right))). pose proof (HPQ x ltac:(left)). repeat case_decide; tauto || done.
Qed.

Lemma insert_child_dat v v' new l : dat v = dat v' -> insert_child v new l = insert_child v' new l.
Proof. intros Hd. unfold insert_child. f_equal; [|f_equal]; apply filter_ext'; intros c _; unfold before, lo, hi; by rewrite Hd. Qed.

Section request_region.
Context (PageSlab : Z -> bool) (dead : list Z) (st : rstate) (kids : Z -> list Z) (parent_ s e : Z) (nm : option string) (fl : Z).
Abbreviation h := (mem st).
Abbreviation v := (view_of h).
Hypothesis Hwf : wf dead v kids.
Hypothesis Hpool : pool PageSlab dead st.
Hypothesis Hparent : is_Some (h !! parent_).
Hypothesis Hparentd : parent_ ∉ dead.
Hypothesis Hs : 0 <= s < 2 ^ 64.
Hypothesis He : 0 <= e < 2 ^ 64.
Abbreviation blocked := (in_the_way v kids s e).
Abbreviation descends := (descends v kids s e).

(** The entry of the region. *)
Definition region_entry : resource := mkRes s e nm (Z.lor (Z.land (flags_of v parent_) IORESOURCE_TYPE_BITS) (Z.lor IORESOURCE_BUSY (u32 fl))) 0 0 0.

(** The search reached [q], and [c] is in the way there. *)
Definition stuck (q c : Z) : Prop := rtc descends parent_ q /\ c = blocked q /\ c <> 0 /\ (c = q \/ busy v c).

Definition region_outcome (r : region_result) (st' : rstate) : Prop :=
  match r with
  | Region res =>
    if decide (res = 0) then
      (exists dead', pool PageSlab dead' st' /\ wf dead' (view_of (mem st')) kids /\ forall a, is_Some (h !! a) -> a ∉ dead -> mem st' !! a = h !! a) /\
      ((dead = [] /\ (0 ∈ slab st \/ slab st = [])) \/ exists q c, stuck q c /\ Z.land (Z.land (flags_of v c) fl) IORESOURCE_MUXED = 0)
    else (res ∈ dead \/ h !! res = None) /\ exists q dead', rtc descends parent_ q /\ blocked q = 0 /\ (forall a, a <> res -> a ∈ dead' <-> a ∈ dead) /\ (res ∉ dead') /\ pool PageSlab dead' st' /\
      dat (view_of (mem st')) = <[res := data region_entry]> (dat v) /\ wf dead' (view_of (mem st')) (<[q := insert_child (view_of (mem st')) res (kids q)]> kids)
  | Waits q res => res <> 0 /\ (res ∈ dead \/ h !! res = None) /\ mem st' = <[res := region_entry]> h /\
      (exists c, stuck q c /\ Z.land (Z.land (flags_of v c) fl) IORESOURCE_MUXED <> 0) /\ exists dead', pool PageSlab dead' st' /\ wf dead' (view_of (mem st')) kids
  end.

Section loop.
Context (res : Z) (dead' : list Z) (st1 : rstate).
Abbreviation h1 := (mem st1).
Abbreviation v1 := (view_of h1).
Hypothesis Hres0 : res <> 0.
Hypothesis Hfree : res ∈ dead \/ h !! res = None.
Hypothesis Hst1 : h1 = <[res := region_entry]> h.
Hypothesis Hpool1 : pool PageSlab dead' st1.
Hypothesis Hresd : res ∉ dead'.
Hypothesis Hdead' : forall a, a <> res -> a ∈ dead' <-> a ∈ dead.

Lemma fresh_wf : wf dead' v1 kids /\ kids res = [] /\ forall r, res ∉ kids r.
Proof using All. split; [rewrite Hst1; by apply (wf_fresh dead)|by apply (fresh_out dead h)]. Qed.

Lemma fresh_parent : parent_ <> res.
Proof using All. intros Heq. destruct Hfree as [Hd|Hn]; [by rewrite <- Heq in Hd|]. rewrite <- Heq in Hn. rewrite Hn in Hparent. by destruct Hparent. Qed.

Lemma fresh_dat : dat v1 = <[res := data region_entry]> (dat v).
Proof using Hst1. rewrite Hst1, view_insert. done. Qed.

Lemma fresh_lo c : c <> res -> lo v1 c = lo v c /\ hi v1 c = hi v c /\ dat v1 !! c = dat v !! c.
Proof using Hst1. intros Hc. unfold lo, hi. rewrite fresh_dat, lookup_insert_ne by done. done. Qed.
Lemma fresh_range : lo v1 res = s /\ hi v1 res = e.
Proof using Hst1. unfold lo, hi. rewrite fresh_dat, lookup_insert_eq. done. Qed.

Lemma fresh_conflict p : p <> res -> conflict_of v1 kids p res = blocked p.
Proof using All.
  intros Hp. destruct (fresh_lo p Hp) as (E1 & E2 & _), fresh_range as [E3 E4], fresh_wf as (_ & _ & Hno). unfold conflict_of, in_the_way.
  assert (Hw : within v1 res p <-> lo v p <= s /\ s <= e /\ e <= hi v p) by (unfold within; rewrite E1, E2, E3, E4; done).
  destruct (decide (within v1 res p)) as [Hd|Hd], (decide (lo v p <= s /\ s <= e /\ e <= hi v p)); try tauto. f_equal. apply filter_ext'. intros c Hc.
  destruct (fresh_lo c) as (E5 & E6 & _); [intros ->; by apply (Hno p)|]. unfold overlaps. by rewrite E3, E4, E5, E6.
Qed.

Lemma descends_kid p c : descends p c -> c ∈ kids p.
Proof using Hwf.
  intros (Hc & Hc0 & Hcp & _). unfold in_the_way in Hc. case_decide; [|done]. destruct (filter _ (kids p)) as [|d l] eqn:E; [done|]. cbn in Hc. subst d.
  assert (Hin : c ∈ filter (fun c => lo v c <= e /\ s <= hi v c) (kids p)) by (rewrite E; left). by apply list_elem_of_filter in Hin as [_ Hin].
Qed.

Lemma descends_pre p : rtc descends parent_ p -> request_pre dead' h1 kids p res.
Proof using All.
  intros Hp. destruct fresh_wf as (Hwf1 & Hk & Hno). assert (Hlive : is_Some (dat v !! p) /\ (p ∉ dead) /\ p <> res).
  { apply rtc_inv_r in Hp as [<-|(q & _ & Hq)]; [split_and!; [by apply view_is_some|done|apply fresh_parent]|]. apply descends_kid in Hq. destruct (wf_live _ _ _ Hwf q p Hq) as (_ & ? & _ & ?). split_and!; [done|done|]. intros ->. by apply (Hno q). }
  destruct Hlive as (H1 & H2 & H3). split; try assumption.
  - by rewrite (proj2 (proj2 (fresh_lo p H3))).
  - by rewrite Hdead'.
  - rewrite fresh_dat, lookup_insert_eq. eauto.
  - rewrite Hst1, view_insert. cbn. by rewrite lookup_insert_eq.
  - intros Hb. apply rtc_inv_r in Hb as [?|(c & _ & Hc)]; [done|]. rewrite Hk in Hc. by apply elem_of_nil in Hc.
Qed.

Definition region_inv (n : nat) (p : Z) (st' : rstate) : Prop := st' = st1 /\ rtc descends parent_ p /\ exists l, path kids (p :: l) /\ last (p :: l) = Some parent_ /\ n = (size h1 - length l)%nat.

Lemma region_step_ok n p st' : region_inv n p st' ->
  wp (region_step PageSlab fl res p) (fun o st' => match o with inl p' => exists n', (n' < n)%nat /\ region_inv n' p' st' | inr r => region_outcome r st' end) st'.
Proof using All.
  intros (-> & Hd & l & Hpath & Hlast & ->). pose proof (descends_pre p Hd) as Hpre. destruct fresh_wf as (Hwf1 & Hk & Hno). assert (Hpr : p <> res) by (intros ->; by apply (rp_below _ _ _ _ _ Hpre)).
  unfold region_step. apply wp_bind, wp_on_mem. eapply wp_mono; [apply (request_pre_ok dead' h1 kids p res Hpre)|]. intros c h' [Hc Hpost]. pose proof (conflict_spec dead' h1 kids p res c Hpre Hc) as [_ Hnz].
  rewrite fresh_conflict in Hc by done. destruct (Z.eqb_spec c 0) as [Hc0|Hc0].
  { apply wp_ret. rewrite decide_True in Hpost by done. destruct Hpost as (Hwf' & Hdat & _ & Hwr). unfold region_outcome. rewrite decide_False by done. split; [done|]. exists p, dead'. cbn.
    rewrite Hdat, fresh_dat. split; [assumption|]. split; [congruence|]. split; [assumption|]. split; [assumption|]. split; [|split; [reflexivity|]].
    - apply (pool_mem PageSlab dead' st1); [assumption| |].
      + intros a Ha. apply Hwr. intros [->|[->|Hin]%elem_of_cons]%elem_of_cons; [by apply (rp_rootd _ _ _ _ _ Hpre)|done|]. by destruct (wf_live _ _ _ Hwf1 p a Hin) as (_ & _ & _ & ?).
      + intros a. rewrite <- !view_is_some. by rewrite Hdat.
    - by rewrite (insert_child_dat _ v1) by done. }
  rewrite decide_False in Hpost by done. subst h'. replace (mkRs h1 (bootmem_resource_free st1) (slab st1)) with st1 by (by destruct st1).
  assert (Hcs : is_Some (dat v1 !! c) /\ c <> res).
  { destruct (Hnz Hc0) as [[-> _]|(_ & Hin & _)]; [split; [apply Hpre|done]|]. split; [by apply (kids_some dead' v1 kids p)|]. intros ->. by apply (Hno p). }
  destruct Hcs as [Hcs Hcr]. destruct (fresh_lo c Hcr) as (_ & _ & Ed). apply wp_bind, wp_on_mem. destruct (proj1 (view_is_some h1 c) Hcs) as [x Hx]. exists x, h1. split; [unfold load; by rewrite Hx|].
  replace (mkRs h1 (bootmem_resource_free st1) (slab st1)) with st1 by (by destruct st1). destruct (shown h1 c x Hx) as (Hdx & _ & _). rewrite Ed in Hdx.
  assert (Hb : flag x IORESOURCE_BUSY = true <-> busy v c) by (unfold busy, flag; rewrite Hdx; cbn; rewrite negb_true_iff, Z.eqb_neq; done). assert (Hf : flags_of v c = flags x) by (unfold flags_of; by rewrite Hdx).
  destruct (negb (c =? p) && negb (flag x IORESOURCE_BUSY)) eqn:Hgo.
  { apply andb_true_iff in Hgo as [Hcp%negb_true_iff%Z.eqb_neq Hnb%negb_true_iff]. apply wp_ret. assert (Hstep : descends p c) by (split_and!; [done|done|done|]; rewrite <- Hb, Hnb; done).
    pose proof (path_length dead v kids (p :: l) Hwf Hpath) as Hlen. rewrite view_size in Hlen. cbn [length] in Hlen.
    assert (Hx' : forall a, last (p :: l) = Some a -> is_Some (dat v !! a)) by (intros a Ha; rewrite Hlast in Ha; injection Ha as <-; by apply view_is_some). specialize (Hlen Hx').
    assert (size h <= size h1)%nat by (rewrite Hst1; destruct (h !! res) eqn:E; [rewrite map_size_insert_Some by eauto|rewrite map_size_insert_None by done]; lia).
    exists (size h1 - length (p :: l))%nat. split; [cbn; lia|]. split; [done|]. split; [by eapply rtc_r|]. exists (p :: l). split_and!; [split; [by apply descends_kid|done]|by rewrite last_cons_cons|done]. }
  assert (Hstuck : stuck p c). { split_and!; [done|done|done|]. apply andb_false_iff in Hgo as [Hcp%negb_false_iff%Z.eqb_eq|Hnb%negb_false_iff]; [by left|right; by apply Hb]. }
  destruct (Z.eqb_spec (Z.land (Z.land (flags x) fl) IORESOURCE_MUXED) 0) as [Hm|Hm]; cbn [negb].
  - apply wp_bind. eapply wp_mono; [apply (free_resource_ok PageSlab dead' st1 kids res); try assumption|].
    + assert (set_par v1 res 0 = v1) as ->; [|exact Hwf1]. unfold set_par. rewrite insert_id; [by destruct v1|]. apply (rp_par _ _ _ _ _ Hpre).
    + rewrite Hst1, lookup_insert_eq. eauto.
    + intros [] st2 (dead2 & Hp2 & Hw2 & Hm2 & Hd2 & _). apply wp_ret. unfold region_outcome. rewrite decide_True by done. split.
      * exists dead2. split; [exact Hp2|]. split; [exact Hw2|]. intros a Ha Had. assert (a <> res) by (intros ->; destruct Hfree as [?|Hn]; [done|]; rewrite Hn in Ha; by destruct Ha).
        rewrite Hm2, Hst1 by done. by rewrite lookup_insert_ne.
      * right. exists p, c. split; [done|]. by rewrite Hf.
  - apply wp_ret. unfold region_outcome. split; [done|]. split; [done|]. split; [done|]. split; [|exists dead'; split; assumption]. exists c. split; [done|]. by rewrite Hf.
Qed.

Lemma region_loop_ok : wp (request_region_loop PageSlab fl res parent_) region_outcome st1.
Proof using All.
  unfold request_region_loop. eapply (st_loop_ok region_inv region_outcome) with (n := (size h1 - length (A := Z) [])%nat); [apply region_step_ok|lia|].
  split; [done|]. split; [constructor|]. by exists [].
Qed.
End loop.

Lemma request_region_ok sz : e = s ⊕ sz ⊖ 1 -> wp (__request_region PageSlab parent_ s sz nm fl) region_outcome st.
Proof using All.
  intros Hse. unfold __request_region. apply wp_bind. eapply wp_mono; [apply (alloc_resource_ok PageSlab dead st Hpool)|]. intros res st1 Ht. unfold taken in Ht. case_decide as Hr0.
  { subst res. destruct Ht as (Hm & Hp & Hd & Hsl). apply wp_ret. cbn. rewrite decide_True by done. split; [|by left]. exists dead. rewrite Hm. split; [exact Hp|]. split; [exact Hwf|done]. }
  destruct Ht as (dead' & Hm & Hp & Hfree & Hrd & Hdd & _). rewrite (proj2 (Z.eqb_neq res 0) Hr0). destruct Hparent as [n Hn].
  assert (parent_ <> res) as Hpr by (intros ->; destruct Hfree as [?|Hx]; [done|]; congruence).
  apply wp_bind, wp_on_mem. exists n, (mem st1). split; [unfold load; by rewrite Hm, lookup_insert_ne, Hn|]. apply wp_bind, wp_on_mem. cbn. exists tt. eexists.
  split; [unfold update; rewrite Hm, lookup_insert_eq; done|]. rewrite insert_insert_eq, <- Hse. cbn. destruct (shown h parent_ n Hn) as (Hdn & _).
  assert (Hent : mkRes s e nm (Z.lor (resource_type n) (Z.lor IORESOURCE_BUSY (u32 fl))) 0 0 0 = region_entry) by (unfold region_entry, resource_type, flags_of; by rewrite Hdn). rewrite Hent.
  apply (region_loop_ok res dead'); try assumption; [reflexivity|]. rewrite <- (insert_insert_eq (mem st) res region_entry zeroed), <- Hm. apply (pool_mem PageSlab dead' st1); [assumption| |].
  - intros a Ha. rewrite lookup_insert_ne; [done|]. by intros ->.
  - intros a Ha. destruct (decide (a = res)) as [->|]; [rewrite Hm, lookup_insert_eq; eauto|]. by rewrite lookup_insert_ne in Ha.
Qed.
End request_region.

(** ** Releasing a region *)

Section release_region.
Context (PageSlab : Z -> bool) (dead : list Z) (st : rstate) (kids : Z -> list Z) (parent_ s e : Z).
Abbreviation h := (mem st).
Abbreviation v := (view_of h).
Hypothesis Hwf : wf dead v kids.
Hypothesis Hpool : pool PageSlab dead st.
Hypothesis Hparent : is_Some (h !! parent_).
Hypothesis Hparentd : parent_ ∉ dead.
Hypothesis Hse : s <= e.

Definition contains (c : Z) : Prop := lo v c <= s /\ e <= hi v c.
(** The search enters [c]. *)
Definition leads (p c : Z) : Prop := c ∈ kids p /\ contains c /\ ~ busy v c.
Definition exact (r : Z) : Prop := busy v r /\ lo v r = s /\ hi v r = e.
(** [r] below [q] is the region to release. *)
Definition target (q r : Z) : Prop := rtc leads parent_ q /\ r ∈ kids q /\ exact r.
(** The same, as seen from the children [l] of [p]. *)
Definition target_in (p : Z) (l : list Z) (q r : Z) : Prop :=
  (q = p /\ r ∈ l /\ exact r) \/ exists c, c ∈ l /\ contains c /\ ~ busy v c /\ rtc leads c q /\ r ∈ kids q /\ exact r.

Lemma target_unfold p q r : rtc leads p q /\ r ∈ kids q /\ exact r <-> target_in p (kids p) q r.
Proof.
  split.
  - intros (Hp & Hr & Hx). apply rtc_inv in Hp as [<-|(c & (Hc & Hcon & Hb) & Hq)]; [by left|]. right. by exists c.
  - intros [(-> & Hr & Hx)|(c & Hc & Hcon & Hb & Hq & Hr & Hx)]; [by split; [constructor|]|]. split; [|done]. by eapply rtc_l.
Qed.

Lemma contains_apart p l1 c l2 d : kids p = l1 ++ c :: l2 -> contains c -> d ∈ l2 -> ~ contains d.
Proof using Hwf Hse.
  intros Hk Hc Hd Hd'. pose proof (wf_order _ _ _ Hwf p) as Ho. rewrite Hk in Ho. apply StronglySorted_app in Ho as (_ & _ & [Ho _]%StronglySorted_cons). rewrite Forall_forall in Ho.
  specialize (Ho d Hd). unfold contains, before in *. lia.
Qed.

Lemma exact_contains r : exact r -> contains r.
Proof. intros (_ & <- & <-). unfold contains. lia. Qed.

Lemma target_skip p c l q r : ~ contains c -> target_in p (c :: l) q r <-> target_in p l q r.
Proof.
  intros Hc. unfold target_in. split.
  - intros [(-> & [->|Hr]%elem_of_cons & Hx)|(d & [->|Hd]%elem_of_cons & ?)]; [by destruct Hc; apply exact_contains|by left|tauto|right; by exists d].
  - intros [(-> & Hr & Hx)|(d & Hd & ?)]; [left; split_and!; [done|by right|done]|right; exists d; split; [by right|done]].
Qed.

Lemma target_unique p q r q' r' : rtc leads p q /\ r ∈ kids q /\ exact r -> rtc leads p q' /\ r' ∈ kids q' /\ exact r' -> q = q' /\ r = r'.
Proof using Hwf Hse.
  intros (Hq & Hr & Hx). revert Hr. induction Hq as [p|p c q (Hc & Hcc & Hcb) Hcq IH]; intros Hr (Hq' & Hr' & Hx'); apply rtc_inv in Hq' as [Heq|(c' & (Hc' & Hcc' & Hcb') & Hcq')].
  - subst q'. split; [done|]. destruct Hx as (_ & Hl & Hh), Hx' as (_ & Hl' & Hh'). apply (siblings_meet dead h kids p Hwf r r' s); [done|done|lia|lia].
  - destruct Hcb'. replace c' with r; [apply Hx|]. apply exact_contains in Hx. unfold contains in *. apply (siblings_meet dead h kids p Hwf r c' s); [done|done|lia|lia].
  - subst q'. destruct Hcb. replace c with r'; [apply Hx'|]. apply exact_contains in Hx'. unfold contains in *. apply (siblings_meet dead h kids p Hwf r' c s); [done|done|lia|lia].
  - apply IH; [done|]. split; [|done]. replace c with c'; [done|]. unfold contains in *. apply (siblings_meet dead h kids p Hwf c' c s); [done|done|lia|lia].
Qed.

(** What the search has seen: the elements of [l1], and nothing else below [p]. *)
Definition rel_inv (n : nat) (sl : slot) (st' : rstate) : Prop :=
  st' = st /\ exists p l1 l2 seen, sl = slot_of p l1 /\ kids p = l1 ++ l2 /\ is_Some (h !! p) /\ (p ∉ dead) /\ n = (size h - length seen)%nat /\
    NoDup seen /\ (forall x, x ∈ seen -> is_Some (h !! x) /\ (x ∈ l1 \/ ~ tc (fun c r => c ∈ kids r) x p)) /\
    forall q r, target q r <-> target_in p l2 q r.

Definition rel_outcome (b : bool) (st' : rstate) : Prop :=
  (forall q r, target q r -> kids r = [] -> b = true /\ exists dead', pool PageSlab dead' st' /\ wf dead' (view_of (mem st')) (<[q := remove_child r (kids q)]> kids) /\
    (forall a, a <> r -> a ∈ dead' <-> a ∈ dead) /\ forall a, a <> r -> dat (view_of (mem st')) !! a = dat v !! a) /\
  ((forall q r, ~ target q r) -> b = false /\ st' = st).

(** The region is found. *)
Lemma release_found p l1 r l2 Q : kids p = l1 ++ r :: l2 -> kids r = [] ->
  (forall st' dead', pool PageSlab dead' st' -> wf dead' (view_of (mem st')) (<[p := remove_child r (kids p)]> kids) ->
    (forall a, a <> r -> a ∈ dead' <-> a ∈ dead) -> (forall a, a <> r -> dat (view_of (mem st')) !! a = dat v !! a) -> Q (inr true) st') ->
  wp (on_mem (slot_store (slot_of p l1) (hd 0 l2));; free_resource PageSlab r;; mret (inr true) : RST (slot + bool)) Q st.
Proof using All.
  intros Hk Hkr HQ. destruct (unlink_live dead v kids p r l1 l2 Hwf Hk) as (Hp & Hpd & Hr & Hrd & Hne & Hnd).
  assert (Hl1 : forall c, c ∈ l1 -> c ∈ kids p) by (intros c Hc; rewrite Hk; set_solver). apply wp_bind, wp_on_mem, slot_store_ok; [done|intros c Hc; apply (kids_some dead v kids p); [exact Hwf|by apply Hl1]|].
  intros h1 Hh1. pose proof (wf_unlink dead v kids p r l1 l2 Hwf Hk) as Hw. rewrite <- Hh1 in Hw. pose proof (set_slot_dat v p l1 (hd 0 l2)) as Hd. rewrite <- Hh1 in Hd.
  assert (Hag : forall a, a ∈ dead -> h1 !! a = h !! a).
  { intros a Ha. assert (Hal : a ∉ l1) by (intros Hin; by destruct (wf_live _ _ _ Hwf p a (Hl1 a Hin)) as (_ & _ & _ & ?)). assert (a <> p) by congruence.
    apply view_eq_at; rewrite Hh1; [by rewrite set_slot_par|by apply set_slot_sib|by apply set_slot_chd|by rewrite set_slot_dat]. }
  set (st1 := mkRs h1 (bootmem_resource_free st) (slab st)). assert (Hp1 : pool PageSlab dead st1) by (apply pool_mem; [exact Hpool|exact Hag|]; intros a; rewrite <- !view_is_some, Hd; done).
  assert (Hrem : remove_child r (kids p) = l1 ++ l2) by (rewrite Hk; by apply remove_child_split). assert (Hrp : forall q, r ∉ (<[p := l1 ++ l2]> kids : Z -> list Z) q).
  { intros q Hin. destruct (decide (q = p)) as [->|Hqp].
    - rewrite fn_lookup_insert in Hin. apply NoDup_app in Hnd as (_ & Hx & [Hy _]%NoDup_cons). apply elem_of_app in Hin as [Hin|Hin]; [by apply (Hx r Hin); left|done].
    - rewrite fn_lookup_insert_ne in Hin by done. apply Hqp. eapply (kids_disjoint _ _ _ Hwf); [exact Hin|rewrite Hk; set_solver]. }
  apply wp_bind. eapply wp_mono; [apply (free_resource_ok PageSlab dead st1 (<[p := l1 ++ l2]> kids) r); try assumption|].
  - apply view_is_some. cbn. by rewrite Hd.
  - by rewrite fn_lookup_insert_ne.
  - intros [] st2 (dead2 & H1 & H2 & H3 & H4 & _). apply wp_ret. apply (HQ st2 dead2); [exact H1|by rewrite Hrem|exact H4|]. intros a Ha. rewrite <- Hd. specialize (H3 a Ha). cbn in H3.
    destruct (h1 !! a) as [x|] eqn:E; [destruct (view_some _ a x H3) as (_ & _ & _ & ->), (view_some _ a x E) as (_ & _ & _ & ->)|destruct (view_none _ a H3) as (_ & _ & _ & ->), (view_none _ a E) as (_ & _ & _ & ->)]; done.
Qed.

Lemma release_region_step_ok n sl st' : (forall q r, target q r -> kids r = []) -> rel_inv n sl st' ->
  wp (release_region_step PageSlab s e sl) (fun o st' => match o with inl sl' => exists n', (n' < n)%nat /\ rel_inv n' sl' st' | inr b => rel_outcome b st' end) st'.
Proof using All.
  intros Hleaf (-> & p & l1 & l2 & seen & -> & Hk & Hp & Hpd & -> & Hnd & Hseen & Ht). apply view_is_some in Hp. unfold release_region_step.
  assert (Hsome : forall c, c ∈ l1 ++ l2 -> is_Some (dat v !! c)) by (intros c; rewrite <- Hk; intros Hc; apply (wf_live _ _ _ Hwf p c Hc)).
  pose proof (wf_kids _ _ _ Hwf p Hp Hpd) as Hch. rewrite Hk, children_app in Hch. destruct Hch as [Hch Hseg].
  apply wp_bind, wp_on_mem. eapply wp_mono; [apply slot_load_ok; [exact Hp| |exact Hch]; intros c Hc; apply Hsome; set_solver|]. intros c h' [-> ->].
  replace (mkRs h (bootmem_resource_free st) (slab st)) with st by (by destruct st). destruct l2 as [|c l2]; cbn [hd].
  { apply wp_ret. split; [|done]. intros q r [(_ & Hr & _)|(d & Hd & _)]%Ht; [by apply elem_of_nil in Hr|by apply elem_of_nil in Hd]. }
  assert (Hc : c ∈ kids p) by (rewrite Hk; set_solver). destruct (kids_nonnull _ _ _ Hwf p c Hc) as [_ Hc0]. rewrite (proj2 (Z.eqb_neq c 0) Hc0).
  destruct (wf_live _ _ _ Hwf p c Hc) as (_ & Hcs & _ & Hcd). destruct (proj1 (view_is_some h c) Hcs) as [x Hx]. destruct (shown h c x Hx) as (Hdx & El & Eh).
  assert (Hsib : sibling x = hd 0 l2) by (destruct (view_some h c x Hx) as (_ & Hs & _), Hseg as (_ & Hs' & _); congruence).
  apply wp_bind, wp_on_mem. exists x, h. split; [unfold load; by rewrite Hx|]. replace (mkRs h (bootmem_resource_free st) (slab st)) with st by (by destruct st).
  assert (Hb : flag x IORESOURCE_BUSY = true <-> busy v c) by (unfold busy, flag; rewrite Hdx; cbn; rewrite negb_true_iff, Z.eqb_neq; done).
  assert (Hnew : c ∉ seen).
  { intros Hin. destruct (Hseen c Hin) as [_ [Hl|Hno]]; [|by apply Hno, tc_once]. pose proof (kids_NoDup _ _ _ Hwf p) as Hndk. rewrite Hk in Hndk. apply NoDup_app in Hndk as (_ & Hdis & _). apply (Hdis c Hl). left. }
  assert (Hlen : (length seen < size h)%nat).
  { pose proof (NoDup_size h (c :: seen)) as Hsz. cbn in Hsz. apply Hsz; [by constructor|]. intros a [->|Ha]%elem_of_cons; [eauto|by apply Hseen]. }
  assert (Hmore : forall y, y ∈ c :: seen -> is_Some (h !! y)) by (intros y [->|Hy]%elem_of_cons; [eauto|by apply Hseen]).
  assert (Hdec : (start x <=? s) && (end_ x >=? e) = true <-> contains c) by (unfold contains; rewrite El, Eh, andb_true_iff, Z.geb_leb, !Z.leb_le; done).
  destruct ((start x <=? s) && (end_ x >=? e)) eqn:Hcb.
  - pose proof (proj1 Hdec eq_refl) as Hcon. assert (Hother : forall d, d ∈ l2 -> ~ contains d) by (intros d; by apply (contains_apart p l1 c l2)).
    destruct (flag x IORESOURCE_BUSY) eqn:Hfb; cbn [negb].
    + pose proof (proj1 Hb eq_refl) as Hbusy. assert (Honly : forall q r, target q r -> q = p /\ r = c /\ exact c).
      { intros q r [(-> & [->|Hr]%elem_of_cons & Hex)|(d & [->|Hd]%elem_of_cons & Hd' & Hnb & _)]%Ht; [done|by destruct (Hother r Hr); apply exact_contains|done|by destruct (Hother d Hd)]. }
      destruct (negb (start x =? s) || negb (end_ x =? e)) eqn:Hne.
      * apply wp_ret. split; [|done]. intros q r (_ & _ & (_ & Hl & Hh))%Honly. exfalso. rewrite El in Hl. rewrite Eh in Hh. rewrite Hl, Hh, !Z.eqb_refl in Hne. done.
      * apply orb_false_iff in Hne as [H1%negb_false_iff%Z.eqb_eq H2%negb_false_iff%Z.eqb_eq]. assert (Hex : exact c) by (split_and!; [done|congruence|congruence]).
        assert (Htc : target p c) by (apply Ht; left; split_and!; [done|left|done]). rewrite Hsib. apply (release_found p l1 c l2); [done|by apply (Hleaf p)|]. intros st2 dead2 R1 R2 R3 R4.
        split; [|intros Hno; by destruct (Hno p c)]. intros q r (-> & -> & _)%Honly _. split; [done|]. exists dead2. split; [exact R1|]. split; [exact R2|]. split; [exact R3|exact R4].
    + apply wp_ret. exists (size h - length (c :: seen))%nat. split; [cbn; lia|]. split; [done|]. exists c, [], (kids c), (c :: seen). split_and!; try done; [by constructor| |].
      * intros y Hy. split; [by apply Hmore|]. right. intros Htc. apply elem_of_cons in Hy as [->|Hy]; [by apply (tc_irrefl _ _ (wf_acyclic _ _ _ Hwf c)) in Htc|].
        destruct (Hseen y Hy) as [_ [Hl|Hno]]; [|apply Hno; eapply tc_r; [exact Htc|done]]. assert (y = c) as ->; [|by apply Hnew].
        apply (siblings_apart dead v kids Hwf p y c y); [rewrite Hk; set_solver|done|constructor|by apply tc_rtc].
      * intros q r. rewrite Ht, <- target_unfold. split.
        -- intros [(-> & [->|Hr]%elem_of_cons & Hex)|(d & [->|Hd]%elem_of_cons & Hd' & _ & Hrest)]; [exfalso; destruct Hex as [Hbb _]; apply Hb in Hbb; done|by destruct (Hother r Hr); apply exact_contains|done|by destruct (Hother d Hd)].
        -- intros Hrest. right. exists c. split_and!; [left|done|by intros ?%Hb|apply Hrest|apply Hrest|apply Hrest].
  - apply wp_ret. exists (size h - length (c :: seen))%nat. split; [cbn; lia|]. split; [done|]. exists p, (l1 ++ [c]), l2, (c :: seen). split_and!; try done.
    + unfold slot_of. by rewrite last_snoc.
    + by rewrite <- app_assoc.
    + by apply view_is_some.
    + by constructor.
    + intros y Hy. split; [by apply Hmore|]. apply elem_of_cons in Hy as [->|Hy]; [left; set_solver|]. destruct (Hseen y Hy) as [_ [Hl|Hno]]; [left; set_solver|by right].
    + intros q r. rewrite Ht. apply target_skip. intros Hcon. apply Hdec in Hcon. congruence.
Qed.

Lemma release_region_ok sz : e = s ⊕ sz ⊖ 1 -> (forall q r, target q r -> kids r = []) -> wp (__release_region PageSlab parent_ s sz) rel_outcome st.
Proof using All.
  intros He Hleaf. unfold __release_region. rewrite <- He. eapply (st_loop_ok rel_inv rel_outcome) with (n := (size h - length (A := Z) [])%nat); [intros n sl st'; by apply release_region_step_ok|lia|].
  split; [done|]. exists parent_, [], (kids parent_), []. split_and!; try done; [constructor|by intros x ?%elem_of_nil|]. intros q r. apply target_unfold.
Qed.
End release_region.

(** ** What callers get *)

Section round_trip.
Context (PageSlab : Z -> bool) (dead : list Z) (st : rstate) (kids : Z -> list Z) (parent_ s sz : Z) (nm : option string) (fl : Z).
Abbreviation h := (mem st).
Abbreviation v := (view_of h).
Abbreviation e := (s ⊕ sz ⊖ 1).
Hypothesis Hwf : wf dead v kids.
Hypothesis Hpool : pool PageSlab dead st.
Hypothesis Hparent : is_Some (h !! parent_).
Hypothesis Hparentd : parent_ ∉ dead.
Hypothesis Hs : 0 <= s < 2 ^ 64.

Lemma end_range : 0 <= e < 2 ^ 64.
Proof. apply u64_range. Qed.

(** C30.  [__request_region] terminates.  It searches downwards from [parent]
    through resources that are not busy, to the first one where nothing overlaps
    the region; there the new busy entry is linked into its place and the forest
    is well formed.  It returns [NULL], and leaves all resources as they are, only
    if there is no memory or the search meets a resource that is busy or does not
    contain the region, and waits only if that is muxed. *)
Theorem request_region_correct : exists r st', __request_region PageSlab parent_ s sz nm fl st = Ok (r, st') /\ region_outcome PageSlab dead st kids parent_ s e nm fl r st'.
Proof using All. apply (request_region_ok PageSlab dead st kids parent_ s e nm fl Hwf Hpool Hparent Hparentd Hs end_range sz eq_refl). Qed.

Lemma free_place q : is_Some (h !! q) -> in_the_way v kids s e q = 0 -> lo v q <= s /\ s <= e /\ e <= hi v q /\ forall c, c ∈ kids q -> ~ (lo v c <= e /\ s <= hi v c).
Proof using Hwf.
  intros Hq Hno. unfold in_the_way in Hno. case_decide as Hd.
  - split_and!; try lia. intros c Hc Hov. assert (Hin : c ∈ filter (fun c => lo v c <= e /\ s <= hi v c) (kids q)) by (by apply list_elem_of_filter).
    destruct (filter _ (kids q)) as [|d l] eqn:E; [by apply elem_of_nil in Hin|]. cbn in Hno. subst d. assert (H0 : 0 ∈ filter (fun c => lo v c <= e /\ s <= hi v c) (kids q)) by (rewrite E; left).
    apply list_elem_of_filter in H0 as [_ H0]. by destruct (kids_nonnull _ _ _ Hwf q 0 H0).
  - subst q. apply view_is_some in Hq. rewrite (wf_null _ _ _ Hwf) in Hq. by destruct Hq.
Qed.

Lemma descends_live q : rtc (descends v kids s e) parent_ q -> is_Some (h !! q) /\ (q ∉ dead).
Proof using All.
  intros Hq. apply rtc_inv_r in Hq as [<-|(p & _ & Hp)]; [done|]. apply (descends_kid dead) in Hp; [|exact Hwf]. destruct (wf_live _ _ _ Hwf p q Hp) as (_ & ? & _ & ?). by rewrite <- view_is_some.
Qed.

Lemma busy_entry : Z.land (d_flags (data (region_entry st parent_ s e nm fl))) IORESOURCE_BUSY <> 0.
Proof.
  cbn. intros H0. assert (Z.testbit (Z.land (Z.lor (Z.land (flags_of v parent_) IORESOURCE_TYPE_BITS) (Z.lor IORESOURCE_BUSY (u32 fl))) IORESOURCE_BUSY) 31 = true) as Hb; [|by rewrite H0 in Hb].
  rewrite Z.land_spec, !Z.lor_spec. change (Z.testbit IORESOURCE_BUSY 31) with true. by rewrite orb_true_l, orb_true_r.
Qed.

Lemma descends_leads p q kids1 st1 res : rtc (descends v kids s e) p q -> lo v q <= s -> e <= hi v q -> (forall c, c <> res -> dat (view_of (mem st1)) !! c = dat v !! c) ->
  (forall r c, c ∈ kids r -> c <> res /\ c ∈ kids1 r) -> rtc (leads st1 kids1 s e) p q.
Proof using Hwf.
  intros Hq Hlo Hhi Hdat Hk. induction Hq as [p|p c q Hpc Hcq IH]; [constructor|]. pose proof (descends_kid dead st kids s e Hwf p c Hpc) as Hc. destruct (Hk p c Hc) as [Hcr Hc1].
  eapply rtc_l; [|by apply IH]. assert (Hb : below kids q c).
  { clear -Hcq Hwf. induction Hcq as [|x y z Hxy _ IH]; [constructor|]. eapply rtc_r; [exact IH|]. by apply (descends_kid dead st kids s e Hwf). }
  apply (below_within' dead v kids Hwf) in Hb. destruct Hpc as (_ & _ & _ & Hnb). unfold leads, contains, lo, hi, busy in *. rewrite Hdat by done. split_and!; [done|lia|lia|done].
Qed.

Lemma target_self st1 kids1 dead1 q : wf dead1 (view_of (mem st1)) kids1 -> ~ target st1 kids1 parent_ s e q q.
Proof. intros Hw (_ & Hin & _). by apply (acyclic _ _ _ Hw q). Qed.

(** The region that was linked is the one a release finds. *)
Lemma region_linked q res st1 dead1 : rtc (descends v kids s e) parent_ q -> (res ∈ dead \/ h !! res = None) ->
  lo v q <= s -> s <= e -> e <= hi v q -> (forall c, c ∈ kids q -> ~ (lo v c <= e /\ s <= hi v c)) ->
  dat (view_of (mem st1)) = <[res := data (region_entry st parent_ s e nm fl)]> (dat v) ->
  wf dead1 (view_of (mem st1)) (<[q := insert_child (view_of (mem st1)) res (kids q)]> kids) ->
  remove_child res (insert_child (view_of (mem st1)) res (kids q)) = kids q /\ target st1 (<[q := insert_child (view_of (mem st1)) res (kids q)]> kids) parent_ s e q res.
Proof using All.
  intros Hq Hfree F1 F2 F3 F4 Hdat Hwf1. set (v1 := view_of (mem st1)) in *. destruct (fresh_out dead h kids res Hwf Hfree) as [Hk0 Hout].
  assert (Hsame : forall c, c <> res -> dat v1 !! c = dat v !! c) by (intros c Hc; rewrite Hdat; by rewrite lookup_insert_ne).
  assert (Hlh : forall c, c <> res -> lo v1 c = lo v c /\ hi v1 c = hi v c) by (intros c Hc; unfold lo, hi; by rewrite Hsame).
  assert (Hr : lo v1 res = s /\ hi v1 res = e) by (unfold lo, hi; by rewrite Hdat, lookup_insert_eq). destruct Hr as [El Eh].
  assert (Hkid : forall r c, c ∈ kids r -> c <> res) by (intros r c Hc ->; by apply (Hout r)). pose proof (wf_within _ _ _ Hwf q) as Hw. pose proof (wf_order _ _ _ Hwf q) as Ho.
  destruct (sorted_gap v1 res (kids q)) as (l1 & l2 & Hk & H1 & H2).
  { by apply (kids_order_agree dead v); [|intros c Hc; apply Hsame, (Hkid q)]. }
  { intros c Hc. destruct (Hlh c (Hkid q c Hc)) as [-> ->]. apply (Hw c Hc). }
  { intros c Hc. unfold overlaps. destruct (Hlh c (Hkid q c Hc)) as [-> ->]. rewrite El, Eh. specialize (F4 c Hc). lia. }
  destruct (insert_child_split v1 res l1 l2 H1 H2) as [Hins _]; [intros c; rewrite <- Hk; intros Hc; destruct (Hlh c (Hkid q c Hc)) as [-> ->]; apply (Hw c Hc)|lia|].
  rewrite Hk, Hins in *. split.
  - apply remove_child_split. pose proof (kids_NoDup _ _ _ Hwf q) as Hnd. rewrite Hk in Hnd. assert (Hf : res ∉ l1 ++ l2) by (rewrite <- Hk; apply Hout). apply NoDup_app in Hnd as (Hn1 & Hd & Hn2). apply NoDup_app.
    split_and!; [done| |constructor; [set_solver|done]]. set_solver.
  - split_and!; [|rewrite fn_lookup_insert; set_solver|split_and!; [unfold busy; fold v1; rewrite Hdat, lookup_insert_eq; apply busy_entry|done|done]].
    apply (descends_leads parent_ q _ st1 res Hq F1 F3 Hsame). intros r c Hc. split; [by apply (Hkid r)|]. destruct (decide (r = q)) as [->|Hne]; [|by rewrite fn_lookup_insert_ne].
    rewrite fn_lookup_insert. rewrite Hk in Hc. set_solver.
Qed.

(** Releasing the region that was just granted finds it and gives back the
    forest from before the request; the ranges of all other resources are the
    same throughout. *)
Theorem region_roundtrip res st1 : res <> 0 -> __request_region PageSlab parent_ s sz nm fl st = Ok (Region res, st1) ->
  exists dead2 st2, __release_region PageSlab parent_ s sz st1 = Ok (true, st2) /\ pool PageSlab dead2 st2 /\ wf dead2 (view_of (mem st2)) kids /\
    forall a, a <> res -> dat (view_of (mem st2)) !! a = dat v !! a.
Proof using All.
  intros Hres Hreq. destruct (request_region_ok PageSlab dead st kids parent_ s e nm fl Hwf Hpool Hparent Hparentd Hs end_range sz eq_refl) as (r & st' & Hreq' & Hout).
  rewrite Hreq in Hreq'. injection Hreq' as <- <-. unfold region_outcome in Hout. rewrite decide_False in Hout by done. destruct Hout as (Hfree & q & dead1 & Hq & Hno & Hdead & Hresd & Hp1 & Hdat & Hwf1).
  destruct (descends_live q Hq) as [Hqs Hqd]. destruct (free_place q Hqs Hno) as (F1 & F2 & F3 & F4). destruct (fresh_out dead h kids res Hwf Hfree) as [Hk0 Hout].
  destruct (region_linked q res st1 dead1) as (Hrem & Htarget); try assumption. set (kids1 := <[q := _]> kids) in *.
  assert (Hps : is_Some (mem st1 !! parent_) /\ (parent_ ∉ dead1)).
  { assert (parent_ <> res) by (intros ->; destruct Hfree as [?|Hn]; [done|]; rewrite Hn in Hparent; by destruct Hparent). split; [|by rewrite Hdead].
    rewrite <- view_is_some, Hdat, lookup_insert_ne by done. by apply view_is_some. }
  destruct Hps as [Hps Hpd]. assert (Hqr : q <> res) by (intros Hqr; rewrite Hqr in Htarget; by apply (target_self st1 _ dead1 res Hwf1 Htarget)).
  destruct (release_region_ok PageSlab dead1 st1 kids1 parent_ s e Hwf1 Hp1 Hps Hpd F2 sz eq_refl) as (b & st2 & Hrel & Hrelo & _).
  - intros q' r' Ht'. destruct (target_unique dead1 st1 kids1 s e Hwf1 F2 parent_ q res q' r' Htarget Ht') as [<- <-]. unfold kids1. by rewrite fn_lookup_insert_ne.
  - destruct (Hrelo q res Htarget) as (-> & dead2 & R1 & R2 & _ & R4); [unfold kids1; by rewrite fn_lookup_insert_ne|]. exists dead2, st2. split; [exact Hrel|]. split; [exact R1|]. split.
    + revert R2. apply wf_proper. intros r. unfold kids1. destruct (decide (r = q)) as [->|Hne]; [by rewrite !fn_lookup_insert|by rewrite !fn_lookup_insert_ne].
    + intros a Ha. rewrite R4 by done. rewrite Hdat. by rewrite lookup_insert_ne.
Qed.
End round_trip.

Section check_region.
Context (PageSlab : Z -> bool) (dead : list Z) (st : rstate) (kids : Z -> list Z) (parent_ s sz : Z).
Abbreviation h := (mem st).
Abbreviation v := (view_of h).
Abbreviation e := (s ⊕ sz ⊖ 1).
Hypothesis Hwf : wf dead v kids.
Hypothesis Hpool : pool PageSlab dead st.
Hypothesis Hparent : is_Some (h !! parent_).
Hypothesis Hparentd : parent_ ∉ dead.
Hypothesis Hs : 0 <= s < 2 ^ 64.

(** [__check_region] says whether a request would be granted, and leaves the
    resources as they are. *)
Theorem check_region_correct : exists ret st', __check_region PageSlab parent_ s sz st = Ok (ret, st') /\
  (exists dead', pool PageSlab dead' st' /\ wf dead' (view_of (mem st')) kids /\ forall a, is_Some (h !! a) -> a ∉ dead -> dat (view_of (mem st')) !! a = dat v !! a) /\
  ((ret = 0 /\ exists q, rtc (descends v kids s e) parent_ q /\ in_the_way v kids s e q = 0) \/
   (ret = - EBUSY /\ ((dead = [] /\ (0 ∈ slab st \/ slab st = [])) \/ exists q c, stuck st kids parent_ s e q c))).
Proof using All.
  assert (Hwp : wp (__check_region PageSlab parent_ s sz) (fun ret st' =>
    (exists dead', pool PageSlab dead' st' /\ wf dead' (view_of (mem st')) kids /\ forall a, is_Some (h !! a) -> a ∉ dead -> dat (view_of (mem st')) !! a = dat v !! a) /\
    ((ret = 0 /\ exists q, rtc (descends v kids s e) parent_ q /\ in_the_way v kids s e q = 0) \/
     (ret = - EBUSY /\ ((dead = [] /\ (0 ∈ slab st \/ slab st = [])) \/ exists q c, stuck st kids parent_ s e q c)))) st); [|exact Hwp].
  unfold __check_region. apply wp_bind. eapply wp_mono; [apply (request_region_ok PageSlab dead st kids parent_ s e (Some "check-region"%string) 0 Hwf Hpool Hparent Hparentd Hs (end_range s sz) sz eq_refl)|].
  intros [res|q res] st1 Hout; [|destruct Hout as (_ & _ & _ & (c & _ & Hm) & _); by rewrite Z.land_0_r, Z.land_0_l in Hm]. unfold region_outcome in Hout. case_decide as Hres.
  - subst res. apply wp_ret. destruct Hout as [(dead' & P1 & P2 & P3) Hwhy]. split.
    + exists dead'. split; [exact P1|]. split; [exact P2|]. intros a Ha Had. apply mem_lo. by apply P3.
    + right. split; [done|]. destruct Hwhy as [?|(q & c & Hst & _)]; [by left|]. right. by exists q, c.
  - rewrite (proj2 (Z.eqb_neq res 0) Hres). destruct Hout as (Hfree & q & dead1 & Hq & Hno & Hdead & Hresd & Hp1 & Hdat & Hwf1). destruct (descends_live PageSlab dead st kids parent_ s sz None 0 Hwf Hpool Hparent Hparentd Hs q Hq) as [Hqs Hqd]. destruct (free_place dead st kids s sz Hwf q Hqs Hno) as (F1 & F2 & F3 & F4).
    destruct (fresh_out dead h kids res Hwf Hfree) as [Hk0 Hout]. destruct (region_linked PageSlab dead st kids parent_ s sz (Some "check-region"%string) 0 Hwf Hpool Hparent Hparentd Hs q res st1 dead1) as [Hrem (_ & Hr1 & _)]; try assumption. set (kids1 := <[q := _]> kids) in *.
    assert (Hqr : q <> res) by (intros Hqr; rewrite Hqr in Hr1; by apply (acyclic _ _ _ Hwf1 res)).
    apply wp_bind, wp_on_mem. eapply wp_mono; [apply (release_resource_ok dead1 (mem st1) kids1 q res Hwf1 Hr1)|]. intros ret h2 (_ & R1 & R2 & R3 & R4). set (st2 := mkRs h2 _ _).
    assert (Hwf2 : wf dead1 (view_of (mem st2)) kids).
    { revert R1. apply wf_proper. intros r. unfold kids1. destruct (decide (r = q)) as [->|Hne]; [by rewrite !fn_lookup_insert|by rewrite !fn_lookup_insert_ne]. }
    assert (Hd2 : forall a, a <> res -> dat (view_of h2) !! a = dat v !! a) by (intros a Ha; rewrite R2, Hdat; by rewrite lookup_insert_ne).
    assert (Hp2 : pool PageSlab dead1 st2).
    { apply (pool_mem PageSlab dead1 st1); [exact Hp1| |intros a; rewrite <- !view_is_some, R2; done]. intros a Ha. apply R4. intros [->|Hin]%elem_of_cons; [|by destruct (wf_live _ _ _ Hwf1 q a Hin) as (_ & _ & _ & ?)].
      by destruct (wf_live _ _ _ Hwf1 q res Hr1) as (_ & _ & ? & _). }
    assert (Hpar : par (view_of (mem st2)) !! res = Some 0) by (cbn; rewrite R3; by rewrite lookup_insert_eq).
    apply wp_bind. eapply wp_mono; [apply (free_resource_ok PageSlab dead1 st2 kids res Hp2); [|cbn; apply view_is_some; rewrite R2, Hdat, lookup_insert_eq; eauto|exact Hresd|exact Hk0|exact Hout]|].
    + assert (set_par (view_of (mem st2)) res 0 = view_of (mem st2)) as ->; [|exact Hwf2]. unfold set_par. rewrite insert_id by done. by destruct (view_of (mem st2)).
    + intros [] st3 (dead3 & Q1 & Q2 & Q3 & _). apply wp_ret. split; [|left; split; [done|]; by exists q]. exists dead3. split; [exact Q1|]. split; [exact Q2|]. intros a Ha Had.
      assert (a <> res) as Hne by (intros ->; destruct Hfree as [?|Hn]; [done|]; rewrite Hn in Ha; by destruct Ha). rewrite <- (Hd2 a Hne). apply mem_lo. by apply Q3.
Qed.
End check_region.

(** ** Reserving what is left of a range *)

Lemma filter_less {A} (P Q : A -> Prop) `{!forall x, Decision (P x), !forall x, Decision (Q x)} (l : list A) c :
  (forall x, x ∈ l -> P x -> Q x) -> c ∈ l -> Q c -> ~ P c -> (length (filter P l) < length (filter Q l))%nat.
Proof.
  assert (Hle : forall l, (forall x, x ∈ l -> P x -> Q x) -> (length (filter P l) <= length (filter Q l))%nat).
  { induction l0 as [|x l0 IH]; intros HPQ; [done|]. rewrite !filter_cons. specialize (IH (fun y Hy => HPQ y ltac:(by right))). pose proof (HPQ x ltac:(left)). repeat case_decide; cbn; try lia. tauto. }
  induction l as [|x l IH]; intros HPQ Hc HQ HP; [by apply elem_of_nil in Hc|]. rewrite !filter_cons. apply elem_of_cons in Hc as [->|Hc].
  - rewrite decide_False, (decide_True (P := Q x)) by done. specialize (Hle l (fun y Hy => HPQ y ltac:(by right))). cbn. lia.
  - specialize (IH (fun y Hy => HPQ y ltac:(by right)) Hc HQ HP). pose proof (HPQ x ltac:(left)). repeat case_decide; cbn; try lia. tauto.
Qed.

Lemma insert_child_elem v new l c : lo v new <= hi v new -> (forall x, x ∈ l -> lo v x <= hi v x /\ ~ overlaps v new x) -> c ∈ insert_child v new l <-> c = new \/ c ∈ l.
Proof.
  intros Hn Hl. unfold insert_child. rewrite elem_of_app, elem_of_cons, !list_elem_of_filter. split; [tauto|]. intros [->|Hc]; [by right; left|]. destruct (Hl c Hc) as [Hle Hov]. unfold overlaps, before in *.
  destruct (decide (hi v c < lo v new)); [tauto|]. right. right. split; [lia|done].
Qed.

Section split.
Context (PageSlab : Z -> bool) (dead : list Z) (st : rstate) (kids : Z -> list Z) (root s e : Z) (nm : option string).
Abbreviation h := (mem st).
Abbreviation v := (view_of h).
Hypothesis Hwf : wf dead v kids.
Hypothesis Hpool : pool PageSlab dead st.
Hypothesis Hroot : is_Some (h !! root).
Hypothesis Hrootd : root ∉ dead.
Hypothesis Hs : 0 <= s.
Hypothesis He : e < 2 ^ 64.
Hypothesis Hin : lo v root <= s /\ e <= hi v root.

(** The entry of a reserved range. *)
Definition reserved_entry (a b : Z) : resource := mkRes a b nm IORESOURCE_BUSY 0 0 0.

(** [K] are the children of [root]: the old ones, and entries for parts of the
    range. *)
Record reserving (dead1 : list Z) (st1 : rstate) (K : list Z) : Prop := {
  rv_pool : pool PageSlab dead1 st1;
  rv_wf : wf dead1 (view_of (mem st1)) (<[root := K]> kids);
  rv_old c : c ∈ kids root -> c ∈ K;
  rv_dat a : is_Some (h !! a) -> a ∉ dead -> (a ∉ dead1) /\ dat (view_of (mem st1)) !! a = dat v !! a;
  rv_new c : c ∈ K -> c ∈ kids root \/ exists a b, dat (view_of (mem st1)) !! c = Some (data (reserved_entry a b)) /\ s <= a <= b /\ b <= e }.

(** An entry that is not linked yet. *)
Record detached (dead1 : list Z) (st1 : rstate) (K : list Z) (res a b : Z) : Prop := {
  de_mem : mem st1 !! res = Some (reserved_entry a b);
  de_live : res ∉ dead1;
  de_new : res ∈ dead \/ h !! res = None;
  de_kids : res ∉ K;
  de_range : s <= a <= b /\ b <= e }.

Definition covered (st1 : rstate) (K : list Z) (x y : Z) : Prop := forall z, x <= z <= y -> exists c, c ∈ K /\ lo (view_of (mem st1)) c <= z <= hi (view_of (mem st1)) c.
Definition overlapping (st1 : rstate) (K : list Z) (a b : Z) : list Z := filter (fun c => lo (view_of (mem st1)) c <= b /\ a <= hi (view_of (mem st1)) c) K.

(** There is memory for a part before, between and behind all children. *)
Definition enough : Prop := (length (kids root) < length dead + length (slab st))%nat /\ (0 ∉ slab st).
Definition left_over (dead1 : list Z) (st1 : rstate) (n : nat) : Prop := enough -> (n <= length dead1 + length (slab st1))%nat /\ (0 ∉ slab st1).

(** [res] covers [a..b] at the front of what is left; behind it everything is
    covered, or up to the range of [next_res]. *)
Definition split_inv (n : nat) (x : Z * Z) (st1 : rstate) : Prop :=
  let '(res, next_res) := x in
  exists dead1 K a b, reserving dead1 st1 K /\ detached dead1 st1 K res a b /\ covered st1 K s (a - 1) /\
  ((next_res = 0 /\ covered st1 K (b + 1) e /\ n = (2 * length (overlapping st1 K a b))%nat /\ left_over dead1 st1 (length (overlapping st1 K a b))) \/
   (next_res <> 0 /\ next_res <> res /\ overlapping st1 K a b = [] /\ exists a' b', detached dead1 st1 K next_res a' b' /\ b < a' /\ covered st1 K (b + 1) (a' - 1) /\ covered st1 K (b' + 1) e /\
     n = S (2 * length (overlapping st1 K a' b'))%nat /\ left_over dead1 st1 (length (overlapping st1 K a' b')))).

Definition split_outcome (st1 : rstate) : Prop := exists dead1 K, reserving dead1 st1 K /\ (enough -> covered st1 K s e).

Lemma fresh_res res : res ∈ dead \/ h !! res = None -> kids res = [] /\ (forall r, res ∉ kids r) /\ res <> root.
Proof using All.
  intros Hf. destruct (fresh_out dead h kids res Hwf Hf) as [H1 H2]. split_and!; [done|done|]. intros ->. destruct Hf as [?|Hn]; [done|]. rewrite Hn in Hroot. by destruct Hroot.
Qed.

Lemma detached_kids dead1 st1 K res a b : detached dead1 st1 K res a b -> (<[root := K]> kids : Z -> list Z) res = [] /\ forall r, res ∉ (<[root := K]> kids : Z -> list Z) r.
Proof using All.
  intros [H1 H2 H3 H4 H5]. destruct (fresh_res res H3) as (F1 & F2 & F3). split; [by rewrite fn_lookup_insert_ne|]. intros r. destruct (decide (r = root)) as [->|]; [by rewrite fn_lookup_insert|by rewrite fn_lookup_insert_ne].
Qed.

(** Writing another range into it. *)
Lemma detached_write dead1 st1 K res a b a' b' : reserving dead1 st1 K -> detached dead1 st1 K res a b -> s <= a' <= b' -> b' <= e ->
  let st2 := mkRs (<[res := reserved_entry a' b']> (mem st1)) (bootmem_resource_free st1) (slab st1) in
  reserving dead1 st2 K /\ detached dead1 st2 K res a' b' /\ (forall c, c <> res -> mem st2 !! c = mem st1 !! c /\ lo (view_of (mem st2)) c = lo (view_of (mem st1)) c /\ hi (view_of (mem st2)) c = hi (view_of (mem st1)) c).
Proof using All.
  intros [R1 R2 R3 R4 R5] Hd Ha Hb st2. pose proof Hd as [D1 D2 D3 D4 D5]. destruct (detached_kids _ _ _ _ _ _ Hd) as [K1 K2]. destruct (fresh_res res D3) as (F1 & F2 & F3).
  assert (Hdat : forall c, c <> res -> dat (view_of (mem st2)) !! c = dat (view_of (mem st1)) !! c) by (intros c Hc; cbn; rewrite view_insert; cbn; by rewrite lookup_insert_ne).
  assert (Hr0 : res <> 0) by (intros ->; pose proof (wf_null _ _ _ R2) as H0; destruct (shown _ _ _ D1) as [Hx _]; congruence).
  split_and!.
  - split.
    + apply (pool_mem PageSlab dead1 st1); [exact R1| |].
      * intros c Hc. rewrite lookup_insert_ne; [done|]. congruence.
      * intros c Hc. destruct (decide (c = res)) as [->|]; [eauto|]. by rewrite lookup_insert_ne in Hc.
    + apply (wf_other dead1 dead1 (view_of (mem st1)) _ _ res); try done; cbn; rewrite ?view_insert; cbn.
      * intros c Hc. by rewrite !lookup_insert_ne.
      * rewrite lookup_insert_eq. intros x [= <-]. cbn. lia.
      * intros _ _. by rewrite lookup_insert_eq.
      * intros r _. rewrite lookup_insert_eq. by intros [= <-].
    + exact R3.
    + intros c Hc Hcd. rewrite Hdat; [by apply R4|]. intros ->. destruct D3 as [?|Hn]; [done|]. rewrite Hn in Hc. by destruct Hc.
    + intros c Hc. rewrite Hdat by congruence. by apply R5.
  - split; try done. cbn. apply lookup_insert_eq.
  - intros c Hc. cbn [mem st2]. split; [by apply lookup_insert_ne|]. unfold lo, hi. by rewrite <- (Hdat c Hc).
Qed.

(** A new entry. *)
Lemma taken_detached dead1 st1 K res st2 a b : reserving dead1 st1 K -> taken PageSlab dead1 st1 res st2 -> res <> 0 -> s <= a <= b -> b <= e ->
  exists dead3 st3, new_reserved nm res a b st2 = Ok (tt, st3) /\ reserving dead3 st3 K /\ detached dead3 st3 K res a b /\ (res ∈ dead1 \/ mem st1 !! res = None) /\
    (forall c, c <> res -> mem st3 !! c = mem st1 !! c) /\ (forall c, c <> res -> c ∈ dead3 <-> c ∈ dead1) /\
    S (length dead3 + length (slab st3)) = (length dead1 + length (slab st1))%nat /\ (forall c, c ∈ slab st3 -> c ∈ slab st1).
Proof using All.
  intros [R1 R2 R3 R4 R5] Ht Hr0 Ha Hb. unfold taken in Ht. rewrite decide_False in Ht by done. destruct Ht as (dead3 & Hm & Hp & Hfree & Hrd & Hdd & Hlen & Hsl).
  destruct (fresh_out dead1 (mem st1) _ res R2 Hfree) as [K1 K2]. specialize (K2 root) as Hrk. rewrite fn_lookup_insert in Hrk. assert (Hnew : res ∈ dead \/ h !! res = None).
  { destruct (h !! res) as [n|] eqn:En; [|by right]. destruct (decide (res ∈ dead)) as [|Hnd]; [by left|]. exfalso. destruct (R4 res ltac:(eauto) Hnd) as [Hx Hy]. destruct Hfree as [?|Hn]; [done|].
    destruct (view_none _ _ Hn) as (_ & _ & _ & Hz). destruct (shown _ _ _ En) as [Hw _]. congruence. }
  set (st3 := mkRs (<[res := reserved_entry a b]> (mem st1)) (bootmem_resource_free st2) (slab st2)). exists dead3, st3.
  assert (Hmem : forall c, c <> res -> mem st3 !! c = mem st1 !! c) by (intros c Hc; by apply lookup_insert_ne).
  assert (Hdat : forall c, c <> res -> dat (view_of (mem st3)) !! c = dat (view_of (mem st1)) !! c) by (intros c Hc; cbn; rewrite view_insert; cbn; by rewrite lookup_insert_ne).
  split; [unfold new_reserved, on_mem, update; rewrite Hm, lookup_insert_eq; cbn; rewrite insert_insert_eq; done|]. split; [|split; [|by split_and!]].
  - split.
    + unfold st3. rewrite <- (insert_insert_eq (mem st1) res (reserved_entry a b) zeroed), <- Hm. apply (pool_mem PageSlab dead3 st2); [exact Hp| |].
      * intros c Hc. rewrite lookup_insert_ne; [done|]. congruence.
      * intros c Hc. destruct (decide (c = res)) as [->|]; [rewrite Hm, lookup_insert_eq; eauto|]. by rewrite lookup_insert_ne in Hc.
    + apply (wf_fresh dead1); try done; cbn; lia.
    + exact R3.
    + intros c Hc Hcd. destruct (R4 c Hc Hcd) as [X1 X2]. assert (c <> res) by (intros ->; destruct Hnew as [?|Hn]; [done|]; rewrite Hn in Hc; by destruct Hc). rewrite Hdat, Hdd by done. done.
    + intros c Hc. rewrite Hdat by congruence. by apply R5.
  - split; try done. apply lookup_insert_eq.
Qed.

Lemma reserving_lo dead1 st1 K : reserving dead1 st1 K -> lo (view_of (mem st1)) root = lo v root /\ hi (view_of (mem st1)) root = hi v root.
Proof using Hroot Hrootd. intros HR. destruct (rv_dat _ _ _ HR root Hroot Hrootd) as [_ Hd]. unfold lo, hi. by rewrite Hd. Qed.

Lemma reserving_order dead1 st1 K : reserving dead1 st1 K -> StronglySorted (before (view_of (mem st1))) K /\ (forall c, c ∈ K -> lo (view_of (mem st1)) c <= hi (view_of (mem st1)) c).
Proof.
  intros HR. pose proof (rv_wf _ _ _ HR) as Hw. pose proof (wf_order _ _ _ Hw root) as Ho. rewrite fn_lookup_insert in Ho. split; [done|]. intros c Hc. apply (wf_within _ _ _ Hw root c). by rewrite fn_lookup_insert.
Qed.

(** Requesting it: it is linked, or the first child in the way is the result. *)
Lemma request_detached dead1 st1 K res a b : reserving dead1 st1 K -> detached dead1 st1 K res a b ->
  wp (__request_resource root res) (fun c h' => (c = 0 /\ overlapping st1 K a b = [] /\ exists K', (forall x, x ∈ K' <-> x = res \/ x ∈ K) /\
      reserving dead1 (mkRs h' (bootmem_resource_free st1) (slab st1)) K' /\ dat (view_of h') = dat (view_of (mem st1)) /\ forall r, r ∉ root :: res :: K -> h' !! r = mem st1 !! r) \/
    (c <> 0 /\ h' = mem st1 /\ c ∈ K /\ lo (view_of (mem st1)) c <= b /\ a <= hi (view_of (mem st1)) c /\
      forall x, x ∈ K -> x <> c -> hi (view_of (mem st1)) x < a \/ hi (view_of (mem st1)) c < lo (view_of (mem st1)) x)) (mem st1).
Proof using All.
  intros HR HD. set (v1 := view_of (mem st1)). set (kids1 := <[root := K]> kids : Z -> list Z). assert (Hk1 : kids1 root = K) by apply fn_lookup_insert. pose proof HR as [R1 R2 R3 R4 R5]. pose proof HD as [D1 D2 D3 D4 D5].
  destruct (detached_kids _ _ _ _ _ _ HD) as [K1 K2]. destruct (fresh_res res D3) as (F1 & F2 & F3). destruct (reserving_lo _ _ _ HR) as [L1 L2]. destruct (reserving_order _ _ _ HR) as [Ho Hle].
  destruct (shown _ _ _ D1) as (Dd & Dl & Dh). cbn in Dl, Dh. destruct (R4 root Hroot Hrootd) as [Hr1 Hr2].
  assert (Hpre : request_pre dead1 (mem st1) kids1 root res).
  { split; [exact R2|rewrite Hr2; by apply view_is_some|done|rewrite Dd; eauto|done|destruct (view_some _ _ _ D1) as (-> & _); done|].
    intros Hb. apply rtc_inv_r in Hb as [?|(c & _ & Hc)]; [done|]. unfold kids1 in Hc. rewrite K1 in Hc. by apply elem_of_nil in Hc. }
  assert (Hw : within v1 res root) by (unfold within, v1; rewrite Dl, Dh, L1, L2; lia). eapply wp_mono; [apply (request_pre_ok dead1 (mem st1) kids1 root res Hpre)|]. intros c h' [Hc Hpost].
  destruct (conflict_spec dead1 (mem st1) kids1 root res c Hpre Hc) as [Hz Hnz]. case_decide as Hc0.
  - left. destruct Hpost as (Hwf' & Hdat & _ & Hwr). destruct (Hz Hc0) as [_ Hno]. rewrite Hk1 in *. split; [done|]. split.
    { apply filter_none. intros x Hx Hov. apply (Hno x Hx). unfold overlaps. rewrite Dl, Dh. done. }
    assert (Hel : forall x, x ∈ insert_child v1 res K <-> x = res \/ x ∈ K) by (intros x; apply insert_child_elem; [unfold v1; rewrite Dl, Dh; lia|]; intros y Hy; split; [by apply Hle|by apply Hno]).
    exists (insert_child v1 res K). split; [exact Hel|]. split; [|split; [exact Hdat|exact Hwr]]. split; cbn.
    + apply (pool_mem PageSlab dead1 st1); [exact R1| |intros x; rewrite <- !view_is_some, Hdat; done]. intros x Hx. apply Hwr.
      intros [->|[->|Hxk]%elem_of_cons]%elem_of_cons; [done|done|]. rewrite <- Hk1 in Hxk. by destruct (wf_live _ _ _ R2 root x Hxk) as (_ & _ & _ & ?).
    + revert Hwf'. apply wf_proper. intros r. unfold kids1. destruct (decide (r = root)) as [->|]; [by rewrite !fn_lookup_insert|by rewrite !fn_lookup_insert_ne].
    + intros x Hx. apply Hel. right. by apply R3.
    + intros x Hx Hxd. rewrite Hdat. by apply R4.
    + intros x [->|Hx]%Hel; [|rewrite Hdat; by apply R5]. right. exists a, b. by rewrite Hdat.
  - right. split; [done|]. split; [exact Hpost|]. destruct (Hnz Hc0) as [[_ Hnw]|(_ & Hck & Hov & Hfst)]; [done|]. rewrite Hk1 in *. unfold overlaps, before in *. unfold v1 in *. rewrite Dl, Dh in Hov. rewrite Dl, Dh in Hfst.
    split; [done|]. split; [lia|]. split; [lia|]. intros x Hx Hxc. apply list_elem_of_split in Hck as (l1 & l2 & Hsp). rewrite Hsp in Ho, Hx. apply StronglySorted_app in Ho as (Ho1 & _ & [Ho2 _]%StronglySorted_cons). rewrite Forall_forall in Ho2.
    unfold before in *. apply elem_of_app in Hx as [Hx|[->|Hx]%elem_of_cons]; [|done|right; by apply Ho2]. specialize (Ho1 x c Hx ltac:(left)). assert (HxK : x ∈ K) by (rewrite Hsp; set_solver). specialize (Hfst x HxK Ho1). specialize (Hle x HxK).
    left. assert (HcK : c ∈ K) by (rewrite Hsp; set_solver). lia.
Qed.

Lemma same_K st1 st2 K : (forall c, c ∈ K -> lo (view_of (mem st2)) c = lo (view_of (mem st1)) c /\ hi (view_of (mem st2)) c = hi (view_of (mem st1)) c) ->
  (forall a b, overlapping st2 K a b = overlapping st1 K a b) /\ forall x y, covered st1 K x y -> covered st2 K x y.
Proof.
  intros HK. split.
  - intros a b. apply filter_ext'. intros c Hc. by destruct (HK c Hc) as [-> ->].
  - intros x y Hc z Hz. destruct (Hc z Hz) as (c & Hck & Hr). exists c. destruct (HK c Hck) as [-> ->]. done.
Qed.

(** Giving it back. *)
Lemma free_detached dead1 st1 K res a b : reserving dead1 st1 K -> detached dead1 st1 K res a b ->
  wp (free_resource PageSlab res) (fun _ st2 => exists dead2, reserving dead2 st2 K /\ forall x y, covered st1 K x y -> covered st2 K x y) st1.
Proof using All.
  intros [R1 R2 R3 R4 R5] HD. pose proof HD as [D1 D2 D3 D4 D5]. destruct (detached_kids _ _ _ _ _ _ HD) as [K1 K2]. destruct (view_some _ _ _ D1) as (Hp & _).
  eapply wp_mono; [apply (free_resource_ok PageSlab dead1 st1 (<[root := K]> kids) res R1); [|by rewrite D1|exact D2|exact K1|exact K2]|].
  - assert (set_par (view_of (mem st1)) res 0 = view_of (mem st1)) as ->; [|exact R2]. unfold set_par. rewrite insert_id by done. by destruct (view_of (mem st1)).
  - intros [] st2 (dead2 & P1 & P2 & P3 & P4 & _). exists dead2. split.
    + split; [exact P1|exact P2|exact R3| |].
      * intros c Hc Hcd. assert (c <> res) as Hne by (intros ->; destruct D3 as [?|Hn]; [done|]; rewrite Hn in Hc; by destruct Hc). destruct (R4 c Hc Hcd) as [X1 X2]. rewrite P4 by done. split; [done|].
        rewrite <- X2. apply mem_lo. by apply P3.
      * intros c Hc. destruct (mem_lo (mem st1) (mem st2) c) as (-> & _); [apply P3; congruence|]. by apply R5.
    + apply same_K. intros c Hc. apply mem_lo, P3. congruence.
Qed.

Lemma covered_join st1 K x y z : covered st1 K x y -> covered st1 K (y + 1) z -> covered st1 K x z.
Proof. intros H1 H2 w Hw. destruct (decide (w <= y)); [apply H1; lia|apply H2; lia]. Qed.
Lemma covered_by st1 K c x y : c ∈ K -> lo (view_of (mem st1)) c <= x -> y <= hi (view_of (mem st1)) c -> covered st1 K x y.
Proof. intros Hc Hx Hy z Hz. exists c. split; [done|lia]. Qed.
Lemma covered_mono st1 K K' x y : (forall c, c ∈ K -> c ∈ K') -> covered st1 K x y -> covered st1 K' x y.
Proof. intros HK Hc z Hz. destruct (Hc z Hz) as (c & Hck & Hr). exists c. split; [by apply HK|done]. Qed.
Lemma covered_nil st1 K x y : y < x -> covered st1 K x y.
Proof. intros Hlt z Hz. lia. Qed.

Lemma reserving_pool dead1 st1 st2 K res a b : reserving dead1 st1 K -> detached dead1 st1 K res a b -> mem st2 = mem st1 -> pool PageSlab dead1 st2 -> reserving dead1 st2 K /\ detached dead1 st2 K res a b.
Proof. intros [R1 R2 R3 R4 R5] [D1 D2 D3 D4 D5] Hm Hp. split; split; rewrite ?Hm; assumption. Qed.

(** The entry was linked. *)
Lemma split_linked dead1 st1 K res a b h' K' : detached dead1 st1 K res a b -> (forall x, x ∈ K' <-> x = res \/ x ∈ K) -> dat (view_of h') = dat (view_of (mem st1)) ->
  let st2 := mkRs h' (bootmem_resource_free st1) (slab st1) in
  (forall x y, covered st1 K x y -> covered st2 K' x y) /\ covered st2 K' a b /\
  (reserving dead1 st2 K' -> forall a' b', b < a' -> (length (overlapping st2 K' a' b') <= length (overlapping st1 K a' b'))%nat).
Proof.
  intros [D1 D2 D3 D4 D5] HK Hdat st2. assert (Hlh : forall c, lo (view_of h') c = lo (view_of (mem st1)) c /\ hi (view_of h') c = hi (view_of (mem st1)) c) by (intros c; unfold lo, hi; by rewrite Hdat).
  destruct (shown _ _ _ D1) as (_ & Dl & Dh). cbn in Dl, Dh. split_and!.
  - intros x y Hc. apply (covered_mono _ K); [intros c Hck; apply HK; by right|]. apply (proj2 (same_K st1 st2 K (fun c _ => Hlh c))). done.
  - apply (covered_by _ _ res); [apply HK; by left| |]; destruct (Hlh res) as [E1 E2]; unfold st2; cbn [mem]; lia.
  - intros HR a' b' Hlt. apply submseteq_length, NoDup_submseteq.
    + apply NoDup_filter. pose proof (kids_NoDup _ _ _ (rv_wf _ _ _ HR) root) as Hnd. by rewrite fn_lookup_insert in Hnd.
    + intros c [Hov Hc]%list_elem_of_filter. cbn in Hov. destruct (Hlh c) as [E1 E2]. rewrite E1, E2 in Hov. apply list_elem_of_filter. split; [done|]. apply HK in Hc as [->|Hc]; [lia|done].
Qed.

(** The first resource in the way, with something before it. *)
Lemma split_before dead1 st1 K res a b c : reserving dead1 st1 K -> detached dead1 st1 K res a b -> covered st1 K s (a - 1) -> covered st1 K (b + 1) e -> left_over dead1 st1 (length (overlapping st1 K a b)) ->
  let v1 := view_of (mem st1) in c ∈ K -> a < lo v1 c -> lo v1 c <= b -> (forall x, x ∈ K -> x <> c -> hi v1 x < a \/ hi v1 c < lo v1 x) ->
  wp (on_mem (update res (fun r => with_range r (start r) (lo v1 c ⊖ 1)));;
      if hi v1 c <? b then
        next_res ← alloc_resource;
        if next_res =? 0 then free_resource PageSlab res;; mret (inr tt)
        else new_reserved nm next_res (hi v1 c ⊕ 1) b;; mret (inl (res, next_res))
      else mret (inl (res, 0)) : RST (Z * Z + unit))
    (fun o st2 => match o with inl x' => exists n', (n' < 2 * length (overlapping st1 K a b))%nat /\ split_inv n' x' st2 | inr _ => split_outcome st2 end) st1.
Proof using All.
  intros HR HD Hfront Hback Hleft v1 Hck Hlt Hlb Hfst. pose proof HD as [D1 D2 D3 D4 D5]. destruct (reserving_order _ _ _ HR) as [Ho Hle]. specialize (Hle c Hck) as Hcle. fold v1 in Hcle, Ho.
  assert (Hcr : c <> res) by congruence. rewrite sub64_small by lia. apply wp_bind, wp_on_mem. exists tt, (<[res := reserved_entry a (lo v1 c - 1)]> (mem st1)). split; [unfold update; by rewrite D1|].
  destruct (detached_write dead1 st1 K res a b a (lo v1 c - 1) HR HD) as (HR2 & HD2 & Hsame); [lia|lia|]. set (st2 := mkRs _ _ _) in *.
  assert (HK2 : forall d, d ∈ K -> lo (view_of (mem st2)) d = lo v1 d /\ hi (view_of (mem st2)) d = hi v1 d) by (intros d Hd; apply Hsame; congruence). destruct (same_K st1 st2 K HK2) as [Hov2 Hcov2].
  destruct (HK2 c Hck) as [Cl Ch]. destruct (Z.ltb_spec (hi v1 c) b) as [Hhb|Hhb].
  - apply wp_bind. eapply wp_mono; [apply (alloc_resource_ok PageSlab dead1 st2), HR2|]. intros next st3 Ht. destruct (Z.eqb_spec next 0) as [->|Hn0].
    + unfold taken in Ht. rewrite decide_True in Ht by done. destruct Ht as (Hm & Hp3 & Hd0 & Hsl). destruct (reserving_pool dead1 st2 st3 K res a (lo v1 c - 1) HR2 HD2 Hm Hp3) as [HR3 HD3].
      apply wp_bind. eapply wp_mono; [apply (free_detached dead1 st3 K res a (lo v1 c - 1) HR3 HD3)|]. intros [] st4 (dead4 & HR4 & _). apply wp_ret. exists dead4, K. split; [exact HR4|]. intros Hen. exfalso.
      destruct (Hleft Hen) as [X1 X2]. assert (Hin1 : c ∈ overlapping st1 K a b) by (apply list_elem_of_filter; split; [fold v1; lia|done]). subst dead1. cbn in Hsl. destruct Hsl as [?|Hsl]; [done|]. rewrite Hsl in X1. cbn in X1.
      destruct (overlapping st1 K a b); [by apply elem_of_nil in Hin1|cbn in X1; lia].
    + rewrite add64_small by lia. destruct (taken_detached dead1 st2 K next st3 (hi v1 c + 1) b HR2 Ht Hn0) as (dead4 & st4 & Hrun & HR4 & HD4 & Hfree & Hmem & Hdd & Hlen & Hsub); [lia|lia|].
      apply wp_bind. exists tt, st4. split; [exact Hrun|]. apply wp_ret. assert (Hnr : next <> res) by (intros ->; destruct Hfree as [?|Hn]; [done|]; rewrite (de_mem _ _ _ _ _ _ HD2) in Hn; done).
      assert (HK4 : forall d, d ∈ K -> lo (view_of (mem st4)) d = lo v1 d /\ hi (view_of (mem st4)) d = hi v1 d).
      { intros d Hd. destruct (HK2 d Hd) as [<- <-]. apply mem_lo, Hmem. intros ->. by apply (de_kids _ _ _ _ _ _ HD4). }
      destruct (same_K st1 st4 K HK4) as [Hov4 Hcov4]. destruct (HK4 c Hck) as [Cl4 Ch4].
      assert (Hless : (length (overlapping st4 K (hi v1 c + 1) b) < length (overlapping st1 K a b))%nat).
      { rewrite Hov4. apply (filter_less _ _ K c); [|done| |]; fold v1; [intros d _|lia|lia]. lia. }
      exists (S (2 * length (overlapping st4 K (hi v1 c + 1) b)))%nat. split; [lia|]. exists dead4, K, a, (lo v1 c - 1). split; [exact HR4|]. split; [|split; [by apply Hcov4|right; split; [done|]; split; [done|]; split; [|exists (hi v1 c + 1), b; split; [exact HD4|]; split; [lia|]; split; [|split; [by apply Hcov4|split; [done|]]]]]].
      * destruct HD2 as [E1 E2 E3 E4 E5]. split; try done; [by rewrite Hmem|by rewrite Hdd].
      * rewrite Hov4. apply filter_none. fold v1. intros d Hd Hdo. destruct (decide (d = c)) as [->|Hdc]; [lia|]. destruct (Hfst d Hd Hdc); lia.
      * apply (covered_by _ _ c); [done|lia|lia].
      * intros Hen. destruct (Hleft Hen) as [X1 X2]. cbn in Hlen. split; [lia|]. intros H0. by apply X2, Hsub.
  - apply wp_ret. assert (Hless : (length (overlapping st2 K a (lo v1 c - 1)) < length (overlapping st1 K a b))%nat).
    { rewrite Hov2. apply (filter_less _ _ K c); [|done| |]; fold v1; [intros d _|lia|lia]. lia. }
    exists (2 * length (overlapping st2 K a (lo v1 c - 1)))%nat. split; [lia|]. exists dead1, K, a, (lo v1 c - 1). split; [exact HR2|]. split; [exact HD2|]. split; [by apply Hcov2|]. left. split; [done|]. split; [|split; [done|]].
    + apply (covered_join _ _ _ b); [apply (covered_by _ _ c); [done|lia|lia]|by apply Hcov2].
    + intros Hen. destruct (Hleft Hen) as [X1 X2]. cbn. split; [lia|done].
Qed.

Lemma split_step_ok n x st1 : split_inv n x st1 ->
  wp (split_step PageSlab root nm x) (fun o st2 => match o with inl x' => exists n', (n' < n)%nat /\ split_inv n' x' st2 | inr _ => split_outcome st2 end) st1.
Proof using All.
  destruct x as [res next]. intros (dead1 & K & a & b & HR & HD & Hfront & Hcase). unfold split_step. apply wp_bind, wp_on_mem. eapply wp_mono; [apply (request_detached dead1 st1 K res a b HR HD)|].
  intros c h' [(-> & Hov & K' & HK' & HR' & Hdat & Hmem)|(Hc0 & -> & Hck & Hc1 & Hc2 & Hfst)].
  - apply wp_ret. destruct (split_linked dead1 st1 K res a b h' K' HD HK' Hdat) as (Hcov & Hcab & Hless). cbn [Z.eqb]. destruct Hcase as [(-> & Hback & -> & Hleft)|(Hn0 & Hnr & _ & a' & b' & HN & Hlt & Hmid & Hback & -> & Hleft)].
    + exists dead1, K'. split; [exact HR'|]. intros _. apply (covered_join _ _ _ (a - 1)); [by apply Hcov|]. replace (a - 1 + 1) with a by lia. apply (covered_join _ _ _ b); [done|by apply Hcov].
    + rewrite (proj2 (Z.eqb_neq next 0) Hn0). pose proof HN as [N1 N2 N3 N4 N5]. specialize (Hless HR' a' b' Hlt). eexists. split; [|exists dead1, K', a', b'; split; [exact HR'|]; split; [|split; [|left; split; [done|]; split; [by apply Hcov|]; split; [reflexivity|]]]]; [cbn; lia| | |].
      * destruct (fresh_res next N3) as (_ & _ & Hnroot). split; try done; [|rewrite HK'; tauto]. cbn. rewrite Hmem; [done|]. rewrite !elem_of_cons. tauto.
      * apply (covered_join _ _ _ (a - 1)); [by apply Hcov|]. replace (a - 1 + 1) with a by lia. apply (covered_join _ _ _ b); [done|by apply Hcov].
      * intros Hen. destruct (Hleft Hen) as [X1 X2]. split; [cbn; lia|done].
  - destruct Hcase as [(-> & Hback & -> & Hleft)|(_ & _ & Hno & _)].
    2: { exfalso. assert (Hin1 : c ∈ overlapping st1 K a b) by (by apply list_elem_of_filter). rewrite Hno in Hin1. by apply elem_of_nil in Hin1. }
    replace (mkRs (mem st1) (bootmem_resource_free st1) (slab st1)) with st1 by (by destruct st1). rewrite (proj2 (Z.eqb_neq c 0) Hc0). set (v1 := view_of (mem st1)) in *. pose proof HD as [D1 D2 D3 D4 D5].
    pose proof (rv_wf _ _ _ HR) as Hw. assert (Hck1 : c ∈ (<[root := K]> kids : Z -> list Z) root) by (by rewrite fn_lookup_insert). destruct (wf_live _ _ _ Hw root c Hck1) as (_ & Hcs & _). destruct (proj1 (view_is_some _ c) Hcs) as [n Hn].
    destruct (shown _ c n Hn) as (_ & El & Eh). fold v1 in El, Eh. apply wp_bind, wp_on_mem. exists n, (mem st1). split; [unfold load; by rewrite Hn|]. apply wp_bind, wp_on_mem. cbn [mem]. exists (reserved_entry a b), (mem st1). split; [unfold load; by rewrite D1|].
    cbn [bootmem_resource_free slab]. replace (mkRs (mem st1) (bootmem_resource_free st1) (slab st1)) with st1 by (by destruct st1). cbn [start end_ reserved_entry]. rewrite <- El, <- Eh.
    destruct ((lo v1 c <=? a) && (hi v1 c >=? b)) eqn:Hcb.
    { apply andb_true_iff in Hcb as [H1%Z.leb_le H2]. rewrite Z.geb_leb in H2. apply Z.leb_le in H2. apply wp_bind. eapply wp_mono; [apply (free_detached dead1 st1 K res a b HR HD)|]. intros [] st2 (dead2 & HR2 & Hcov). apply wp_ret.
      exists dead2, K. split; [exact HR2|]. intros _. apply Hcov. apply (covered_join _ _ _ (a - 1)); [done|]. apply (covered_join _ _ _ b); [|done]. apply (covered_by _ _ c); [done|fold v1; lia|done]. }
    destruct (Z.gtb_spec (lo v1 c) a) as [Hgt|Hle]; [by apply (split_before dead1 st1 K res a b c)|].
    assert (Hhb : hi v1 c < b) by (rewrite (proj2 (Z.leb_le _ _) Hle), Z.geb_leb in Hcb; cbn in Hcb; lia). rewrite add64_small by lia.
    apply wp_bind, wp_on_mem. exists tt, (<[res := reserved_entry (hi v1 c + 1) b]> (mem st1)). split; [unfold update; by rewrite D1|]. apply wp_ret.
    destruct (detached_write dead1 st1 K res a b (hi v1 c + 1) b HR HD) as (HR2 & HD2 & Hsame); [lia|lia|]. set (st2 := mkRs _ _ _) in *.
    assert (HK2 : forall d, d ∈ K -> lo (view_of (mem st2)) d = lo v1 d /\ hi (view_of (mem st2)) d = hi v1 d) by (intros d Hd; apply Hsame; congruence). destruct (same_K st1 st2 K HK2) as [Hov2 Hcov2]. destruct (HK2 c Hck) as [Cl Ch].
    assert (Hless : (length (overlapping st2 K (hi v1 c + 1) b) < length (overlapping st1 K a b))%nat).
    { rewrite Hov2. apply (filter_less _ _ K c); [|done| |]; fold v1; [intros d _|lia|lia]. lia. }
    exists (2 * length (overlapping st2 K (hi v1 c + 1) b))%nat. split; [lia|]. exists dead1, K, (hi v1 c + 1), b. split; [exact HR2|]. split; [exact HD2|]. split; [|left; split; [done|]; split; [by apply Hcov2|split; [done|]]].
    + replace (hi v1 c + 1 - 1) with (hi v1 c) by lia. apply (covered_join _ _ _ (a - 1)); [by apply Hcov2|]. apply (covered_by _ _ c); [done|lia|lia].
    + intros Hen. destruct (Hleft Hen) as [X1 X2]. cbn. split; [lia|done].
Qed.

Lemma reserving_init : reserving dead st (kids root).
Proof using Hwf Hpool.
  split; [exact Hpool| |done|intros a _ Ha; by split|by left]. revert Hwf. apply wf_proper. intros r. destruct (decide (r = root)) as [->|]; [by rewrite fn_lookup_insert|by rewrite fn_lookup_insert_ne].
Qed.

Lemma reserve_ok : s <= e -> wp (__reserve_region_with_split PageSlab root s e nm) (fun _ st2 => split_outcome st2) st.
Proof using All.
  intros Hse. unfold __reserve_region_with_split. apply wp_bind. eapply wp_mono; [apply (alloc_resource_ok PageSlab dead st Hpool)|]. intros res st1 Ht. destruct (Z.eqb_spec res 0) as [->|Hr0].
  - apply wp_ret. unfold taken in Ht. rewrite decide_True in Ht by done. destruct Ht as (Hm & Hp & Hd & Hsl). exists dead, (kids root). split.
    + destruct reserving_init as [R1 R2 R3 R4 R5]. split; rewrite ?Hm; assumption.
    + intros [X1 X2]. exfalso. destruct Hsl as [?|Hsl]; [done|]. rewrite Hd, Hsl in X1. cbn in X1. lia.
  - destruct (taken_detached dead st (kids root) res st1 s e reserving_init Ht Hr0) as (dead2 & st2 & Hrun & HR & HD & _ & _ & _ & Hlen & Hsub); [lia|lia|]. apply wp_bind. exists tt, st2. split; [exact Hrun|].
    unfold split_loop. assert (Hov : (length (overlapping st2 (kids root) s e) <= size (mem st2))%nat).
    { transitivity (length (kids root)); [apply length_filter|]. rewrite <- view_size. pose proof (kids_length _ _ _ root (rv_wf _ _ _ HR)) as Hkl. by rewrite fn_lookup_insert in Hkl. }
    eapply (st_loop_ok split_inv (fun _ => split_outcome)) with (n := (2 * length (overlapping st2 (kids root) s e))%nat); [intros n x st3 Hi; eapply wp_mono; [by apply split_step_ok|]; by intros [?|?] ?|lia|].
    exists dead2, (kids root), s, e. split; [exact HR|]. split; [exact HD|]. split; [apply covered_nil; lia|]. left. split; [done|]. split; [apply covered_nil; lia|]. split; [done|].
    intros [X1 X2]. split; [|intros H0; by apply X2, Hsub]. pose proof (length_filter (fun c => lo (view_of (mem st2)) c <= e /\ s <= hi (view_of (mem st2)) c) (kids root)) as Hl. unfold overlapping in *. lia.
Qed.
End split.

(** C14.  [reserve_region_with_split] terminates and keeps the resources below
    [root] and their ranges.  The children it adds are busy, carry the name and
    lie inside the range that was asked for; if there is memory for them, every
    address of the range that is inside [root] belongs to a child afterwards. *)
Theorem reserve_region_with_split_correct PageSlab dead st kids root s e nm (v := view_of (mem st)) :
  wf dead v kids -> pool PageSlab dead st -> is_Some (mem st !! root) -> root ∉ dead -> lo v root <= hi v root -> 0 <= s <= e -> e < 2 ^ 64 ->
  exists st' dead' K, reserve_region_with_split PageSlab root s e nm st = Ok (tt, st') /\ reserving PageSlab dead st kids root s e nm dead' st' K /\
    (enough dead st kids root -> forall z, s <= z <= e -> lo v root <= z <= hi v root -> exists c, c ∈ K /\ lo (view_of (mem st')) c <= z <= hi (view_of (mem st')) c).
Proof.
  intros Hwf Hpool Hroot Hrootd Hrr Hse He. destruct Hroot as [n Hn]. destruct (shown _ _ _ Hn) as (Hd & El & Eh). fold v in El, Eh. pose proof (wf_range _ _ _ Hwf root _ Hd) as Hrange. cbn in Hrange.
  assert (Hwp : wp (reserve_region_with_split PageSlab root s e nm) (fun _ st' => exists dead' K, reserving PageSlab dead st kids root s e nm dead' st' K /\
    (enough dead st kids root -> forall z, s <= z <= e -> lo v root <= z <= hi v root -> exists c, c ∈ K /\ lo (view_of (mem st')) c <= z <= hi (view_of (mem st')) c)) st).
  2: { destruct Hwp as ([] & st' & Hrun & dead' & K & Hok). exists st', dead', K. by split. }
  unfold reserve_region_with_split. apply wp_bind, wp_on_mem. exists n, (mem st). split; [unfold load; by rewrite Hn|]. replace (mkRs (mem st) (bootmem_resource_free st) (slab st)) with st by (by destruct st).
  rewrite <- El, <- Eh. set (outside := (lo v root >? s) || (hi v root <? e)).
  set (e' := if outside && (e >? hi v root) then hi v root else e). set (s' := if outside && (s <? lo v root) then lo v root else s). destruct (outside && ((s >? hi v root) || (e <? lo v root))) eqn:Habort.
  { apply wp_ret. exists dead, (kids root). split.
    - apply (reserving_init PageSlab dead st kids root s e nm Hwf Hpool).
    - intros _ z Hz Hz'. exfalso. apply andb_true_iff in Habort as [_ Habort]. lia. }
  assert (Hs' : s' = Z.max s (lo v root)) by (unfold s', outside in *; destruct (Z.gtb_spec (lo v root) s), (Z.ltb_spec (hi v root) e), (Z.ltb_spec s (lo v root)); cbn; lia).
  assert (He' : e' = Z.min e (hi v root)) by (unfold e', outside in *; destruct (Z.gtb_spec (lo v root) s), (Z.ltb_spec (hi v root) e), (Z.gtb_spec e (hi v root)); cbn; lia).
  assert (Hne : s' <= e').
  { rewrite Hs', He'. unfold outside in Habort. destruct (Z.gtb_spec (lo v root) s), (Z.ltb_spec (hi v root) e), (Z.gtb_spec s (hi v root)), (Z.ltb_spec e (lo v root)); cbn in Habort; lia || done. }
  clearbody s' e'. eapply wp_mono; [apply (reserve_ok PageSlab dead st kids root s' e' nm Hwf Hpool); [eauto|done|lia|lia|fold v; lia|done]|].
  intros [] st' (dead' & K & [R1 R2 R3 R4 R5] & Hcov). exists dead', K. split.
  - split; [exact R1|exact R2|exact R3|exact R4|]. intros c Hc. destruct (R5 c Hc) as [?|(a & b & Hab & Ha & Hb)]; [by left|]. right. exists a, b. split; [done|]. lia.
  - intros Hen z Hz Hz'. apply (Hcov Hen). lia.
Qed.
