(* ===== verification/ResourceExamples.v ===== *)
(** Concrete resource trees: a well-formedness test, applications of the theorems,
    and the runs in which a range wraps around. *)
From stdpp Require Import gmap strings sorting.
From S2P Require Import Prelude State Sorting ResourceDefs ResourceTree ResourceRequest ResourceAlloc ResourceInsert ResourceWalk ResourceRegion.

(** ** A test for well-formed forests *)

Section test.
Context (h : rheap) (K : gmap Z (list Z)).
Definition kids_of (r : Z) : list Z := default [] (K !! r).

Fixpoint seg_test (r : Z) (l : list Z) : bool :=
  match l with
  | [] => true
  | c :: l => match h !! c with Some n => (parent n =? r) && (sibling n =? hd 0 l) && seg_test r l | None => false end
  end.
Fixpoint sorted_test (l : list Z) : bool :=
  match l with
  | [] => true
  | c :: l => forallb (fun d => match h !! c, h !! d with Some n, Some m => end_ n <? start m | _, _ => false end) l && sorted_test l
  end.
Definition child_test (r : Z) (n : resource) (c : Z) : bool :=
  match h !! c with Some m => (start n <=? start m) && (start m <=? end_ m) && (end_ m <=? end_ n) && (0 <=? c) && (c <? r) | None => false end.
Definition node_test (x : Z * resource) : bool :=
  let '(a, n) := x in
  (0 <=? start n) && (start n <? 2 ^ 64) && (0 <=? end_ n) && (end_ n <? 2 ^ 64) && (child n =? hd 0 (kids_of a)) && seg_test a (kids_of a) &&
  forallb (child_test a n) (kids_of a) && ((parent n =? 0) || bool_decide (a ∈ kids_of (parent n))).
Definition wf_test : bool :=
  bool_decide (h !! 0 = None) && forallb node_test (map_to_list h) && forallb (fun x : Z * list Z => bool_decide (is_Some (h !! x.1)) && sorted_test x.2) (map_to_list K).

Lemma seg_test_ok r l : seg_test r l = true -> seg (view_of h) r l 0.
Proof.
  induction l as [|c l IH]; cbn; [done|]. destruct (h !! c) as [n|] eqn:Hc; [|done]. rewrite !andb_true_iff, !Z.eqb_eq. intros [[Hp Hs] Hl]. pose proof (view_some h c n Hc) as (-> & -> & _).
  split_and!; [by rewrite Hp|by rewrite Hs|by apply IH].
Qed.

Lemma sorted_test_ok l : sorted_test l = true -> StronglySorted (before (view_of h)) l.
Proof.
  induction l as [|c l IH]; [constructor|]. cbn [sorted_test]. rewrite andb_true_iff, forallb_forall. intros [Hc Hl]. constructor; [by apply IH|]. apply Forall_forall. intros d Hd.
  specialize (Hc d (proj1 (list_elem_of_In l d) Hd)). destruct (h !! c) as [n|] eqn:Ec; [|done]. destruct (h !! d) as [m|] eqn:Ed; [|done].
  destruct (shown h c n Ec) as (_ & _ & Eh). destruct (shown h d m Ed) as (_ & El & _). unfold before. lia.
Qed.

Lemma node_test_ok a n : wf_test = true -> h !! a = Some n -> node_test (a, n) = true.
Proof. unfold wf_test. rewrite !andb_true_iff, forallb_forall. intros [[_ Hn] _] Ha. apply Hn, list_elem_of_In. by apply elem_of_map_to_list. Qed.

Lemma kids_test_ok r c : wf_test = true -> c ∈ kids_of r -> exists n m, h !! r = Some n /\ h !! c = Some m /\ start n <= start m <= end_ m /\ end_ m <= end_ n /\ 0 <= c < r.
Proof.
  intros Ht Hc. assert (exists n, h !! r = Some n) as [n Hn].
  { unfold wf_test in Ht. rewrite !andb_true_iff, !forallb_forall in Ht. destruct Ht as [_ Hk]. unfold kids_of in Hc. destruct (K !! r) as [l|] eqn:El; [|by apply elem_of_nil in Hc].
    specialize (Hk (r, l) (proj1 (list_elem_of_In _ _) (proj2 (elem_of_map_to_list _ _ _) El))). apply andb_true_iff in Hk as [Hk _]. by apply bool_decide_eq_true in Hk. }
  pose proof (node_test_ok r n Ht Hn) as Hnode. unfold node_test in Hnode. rewrite !andb_true_iff, forallb_forall in Hnode. destruct Hnode as [[_ Hch] _].
  specialize (Hch c (proj1 (list_elem_of_In _ _) Hc)). unfold child_test in Hch. destruct (h !! c) as [m|] eqn:Em; [|done]. exists n, m. rewrite !andb_true_iff in Hch. split_and!; try done; lia.
Qed.

Lemma wf_test_ok : wf_test = true -> wf [] (view_of h) kids_of.
Proof.
  intros Ht. assert (H0 : h !! 0 = None) by (unfold wf_test in Ht; rewrite !andb_true_iff in Ht; destruct Ht as [[Ht _] _]; by apply bool_decide_eq_true in Ht). split.
  - apply eq_None_not_Some. rewrite view_is_some, H0. by intros [].
  - intros a x Hx. destruct (proj1 (view_is_some h a) ltac:(eauto)) as [n Hn]. destruct (shown h a n Hn) as (Hd & _). assert (x = data n) as -> by congruence.
    pose proof (node_test_ok a n Ht Hn) as Hnode. unfold node_test in Hnode. cbn. lia.
  - intros r Hr _. destruct (proj1 (view_is_some h r) Hr) as [n Hn]. pose proof (view_some h r n Hn) as (_ & _ & Hc & _).
    pose proof (node_test_ok r n Ht Hn) as Hnode. unfold node_test in Hnode. rewrite !andb_true_iff in Hnode. destruct Hnode as [[[[_ Hch] Hseg] _] _]. split; [|by apply seg_test_ok].
    rewrite Hc. f_equal. lia.
  - intros r. apply sorted_test_ok. unfold wf_test in Ht. rewrite !andb_true_iff, !forallb_forall in Ht. destruct Ht as [_ Hk]. unfold kids_of. destruct (K !! r) as [l|] eqn:El; [|done].
    specialize (Hk (r, l) (proj1 (list_elem_of_In _ _) (proj2 (elem_of_map_to_list _ _ _) El))). by apply andb_true_iff in Hk as [_ Hk].
  - intros r c Hc. destruct (kids_test_ok r c Ht Hc) as (n & m & Hn & Hm & Hr). destruct (shown h r n Hn) as (_ & El & Eh). destruct (shown h c m Hm) as (_ & El' & Eh'). unfold within. lia.
  - intros r c Hc. destruct (kids_test_ok r c Ht Hc) as (n & m & Hn & Hm & Hr). rewrite !view_is_some. split_and!; eauto; set_solver.
  - intros r c Hp _ Hr. destruct (h !! c) as [m|] eqn:Hm.
    + pose proof (view_some h c m Hm) as (Hp' & _). assert (parent m = r) as <- by congruence. pose proof (node_test_ok c m Ht Hm) as Hnode. unfold node_test in Hnode.
      rewrite !andb_true_iff in Hnode. destruct Hnode as [_ Hpar]. rewrite (proj2 (Z.eqb_neq _ _) Hr) in Hpar. by apply bool_decide_eq_true in Hpar.
    + exfalso. assert (is_Some (par (view_of h) !! c)) as Hs by eauto. apply view_par_some in Hs. rewrite Hm in Hs. by destruct Hs.
  - apply (wf_projected (fun a b => (a < b)%nat) Z.to_nat); [|apply lt_wf]. intros c r Hc. destruct (kids_test_ok r c Ht Hc) as (n & m & _ & _ & Hr). lia.
Qed.

Lemma request_pre_test root new n m : wf_test = true -> h !! root = Some n -> h !! new = Some m -> parent m = 0 -> kids_of new = [] -> root <> new -> request_pre [] h kids_of root new.
Proof.
  intros Ht Hr Hn Hp Hk Hne. pose proof (view_some h new m Hn) as (Hpar & _). split; [by apply wf_test_ok|by apply view_is_some; eauto|set_solver|by apply view_is_some; eauto|set_solver|congruence|].
  intros Hb. apply rtc_inv_r in Hb as [Heq|(c & _ & Hc)]; [done|]. rewrite Hk in Hc. set_solver.
Qed.
End test.

(** ** A memory map *)

Definition res0 (s e : Z) (nm : string) (fl p sb c : Z) : resource := mkRes s e (Some nm) fl p sb c.
Definition RAM : Z := Z.lor IORESOURCE_MEM IORESOURCE_BUSY.
(** Two banks of memory and a device; [30] and [31] are in no tree. *)
Definition H0 : rheap := list_to_map [
  (50, res0 0 0xffffffff "PCI mem" IORESOURCE_MEM 0 0 40);
  (40, res0 0x1000 0x4fff "System RAM" RAM 50 41 20);
  (20, res0 0x2000 0x2fff "Kernel code" RAM 40 0 0);
  (41, res0 0x8000 0xbfff "System RAM" RAM 50 42 0);
  (42, res0 0x10000 0x10fff "device" (Z.lor RAM IORESOURCE_EXCLUSIVE) 50 0 0);
  (30, res0 0x5000 0x5fff "new" IORESOURCE_MEM 0 0 0);
  (31, res0 0 0x6fff "bus" IORESOURCE_MEM 0 0 0)].
Definition K0 : gmap Z (list Z) := list_to_map [(50, [40; 41; 42]); (40, [20])].

Lemma wf0 : wf [] (view_of H0) (kids_of K0).
Proof. apply wf_test_ok. by vm_compute. Qed.

Lemma pre30 : request_pre [] H0 (kids_of K0) 50 30.
Proof. by eapply request_pre_test; vm_compute. Qed.
Lemma pre31 : request_pre [] H0 (kids_of K0) 50 31.
Proof. by eapply request_pre_test; vm_compute. Qed.

Lemma request_resource_witness : exists h', request_resource 50 30 H0 = Ok (0, h') /\ wf [] (view_of h') (<[50 := insert_child (view_of H0) 30 (kids_of K0 50)]> (kids_of K0)).
Proof.
  destruct (request_resource_correct [] H0 (kids_of K0) 50 30 pre30) as (c & h' & Hc & Hr & Hok & _). exists h'.
  assert (c = 0) as Ec. { assert (Hrun : forall r, request_resource_conflict 50 30 H0 = Ok r -> r.1 = 0) by (vm_compute; intros r [= <-]; done). apply (Hrun _ Hc). }
  rewrite Ec in Hr. split; [exact Hr|]. apply (proj2 (proj2 (Hok Ec))).
Defined.

Lemma request_release_witness : exists h1 h2, __request_resource 50 30 H0 = Ok (0, h1) /\ release_resource 30 h1 = Ok (0, h2) /\ dat (view_of h2) = dat (view_of H0).
Proof.
  assert (exists h1, __request_resource 50 30 H0 = Ok (0, h1)) as [h1 Hh] by (vm_compute; eexists; done).
  destruct (request_release_roundtrip [] H0 (kids_of K0) 50 30 h1 pre30 Hh) as (h2 & H2 & _ & Hd & _). exists h1, h2. split; [exact Hh|]. split; [exact H2|exact Hd].
Defined.

Lemma adjust_resource_witness : exists ret h', adjust_resource 40 0x1000 0x6000 H0 = Ok (ret, h') /\ wf [] (view_of h') (kids_of K0).
Proof.
  destruct (dat (view_of H0) !! 40) as [x|] eqn:Hx; [|by apply eq_None_not_Some in Hx as []; apply view_is_some; vm_compute; eauto].
  destruct (adjust_resource_correct [] H0 (kids_of K0) 40 0x1000 0x6000 x wf0 Hx ltac:(set_solver) ltac:(lia) ltac:(lia) ltac:(lia)) as (ret & h' & Hr & Hcase). exists ret, h'. split; [exact Hr|].
  destruct Hcase as [(_ & _ & _ & Hw)|(_ & _ & ->)]; [exact Hw|exact wf0].
Defined.

(** A callback that leaves a page free in front. *)
Definition skip_page (a : resource) (_ _ : Z) : Z := start a ⊕ 0x1000.



Lemma insert_resource_witness : exists h', insert_resource 50 31 H0 = Ok (0, h') /\ inserted [] H0 (kids_of K0) 50 31 0 h'.
Proof.
  destruct (insert_resource_correct [] H0 (kids_of K0) 50 31 pre31 ltac:(by vm_compute)) as (c & h' & Hc & Hr & Hi). exists h'.
  assert (c = 0) as Ec. { assert (Hrun : forall r, insert_resource_conflict 50 31 H0 = Ok r -> r.1 = 0) by (vm_compute; intros r [= <-]; done). apply (Hrun _ Hc). }
  rewrite Ec in Hr, Hi. split; [exact Hr|exact Hi].
Defined.

Lemma insert_resource_expand_to_fit_witness : exists x h', insert_resource_expand_to_fit 50 30 H0 = Ok (tt, h') /\ expanded [] H0 (kids_of K0) 50 30 x h'.
Proof.
  destruct (dat (view_of H0) !! 30) as [x|] eqn:Hx; [|by apply eq_None_not_Some in Hx as []; apply view_is_some; vm_compute; eauto].
  destruct (insert_resource_expand_to_fit_correct [] H0 (kids_of K0) 50 30 x pre30 ltac:(by vm_compute) Hx) as (h' & Hr & He). exists x, h'. split; [exact Hr|exact He].
Defined.

(** *** Searching *)

Lemma io0 : is_Some (dat (view_of H0) !! 50).
Proof. apply view_is_some. vm_compute. eauto. Qed.
Lemma top0 : par (view_of H0) !! 50 = Some 0 /\ sib (view_of H0) !! 50 = Some 0.
Proof. destruct (view_some H0 50 (res0 0 0xffffffff "PCI mem" IORESOURCE_MEM 0 0 40)) as (Hp & Hs & _); [by vm_compute|]. by split. Qed.
Lemma range0 : lo (view_of H0) 50 <= hi (view_of H0) 50.
Proof. destruct (shown H0 50 (res0 0 0xffffffff "PCI mem" IORESOURCE_MEM 0 0 40)) as (_ & -> & ->); [by vm_compute|]. by vm_compute. Qed.

Lemma map_forallb {A} (P : Z * A -> bool) (m : gmap Z A) : forallb P (map_to_list m) = true -> forall a n, m !! a = Some n -> P (a, n) = true.
Proof. rewrite forallb_forall. intros HP a n Ha. apply HP, list_elem_of_In. by apply elem_of_map_to_list. Qed.

Lemma named0 first_level fl nm : all_named H0 (kids_of K0) 50 first_level fl nm.
Proof.
  intros c x _ Hx _ _. destruct (proj1 (view_is_some H0 c) ltac:(eauto)) as [n Hn]. destruct (shown H0 c n Hn) as (Hd & _). assert (x = data n) as -> by congruence.
  pose proof (map_forallb (fun x : Z * resource => match name x.2 with Some _ => true | None => false end) H0 ltac:(by vm_compute) c n Hn) as Ht. cbn in *. by destruct (name n).
Qed.

Lemma find_next_iomem_res_witness : exists s e c, find_next_iomem_res 50 RAM 0x3000 0x20000 None false H0 = Ok (Some (s, e), H0) /\
  s = Z.max 0x3000 (lo (view_of H0) c) /\ e = Z.min 0x20000 (hi (view_of H0) c).
Proof.
  destruct (find_next_iomem_res_correct [] H0 (kids_of K0) 50 wf0 io0 ltac:(set_solver) top0 range0 false RAM None 0x3000 0x20000 (named0 _ _ _) ltac:(lia)) as (o & Ho & Hcase).
  destruct o as [[s e]|].
  - destruct Hcase as (c & _ & Hs & He & _). exists s, e, c. split; [exact Ho|]. split; [exact Hs|exact He].
  - exfalso. revert Ho. vm_compute. discriminate.
Defined.

Lemma below0 e M : below_top H0 e M.
Proof.
  intros c _. enough (hi (view_of H0) c < 2 ^ 64 - 1) by lia. unfold hi. destruct (dat (view_of H0) !! c) as [x|] eqn:Hx; [|done].
  destruct (proj1 (view_is_some H0 c) ltac:(eauto)) as [n Hn]. destruct (shown H0 c n Hn) as (Hd & _). assert (x = data n) as -> by congruence.
  pose proof (map_forallb (fun x : Z * resource => end_ x.2 <? 2 ^ 64 - 1) H0 ltac:(by vm_compute) c n Hn) as Ht. by apply Z.ltb_lt in Ht.
Qed.

(** All of memory is asked for, as [kernel/kexec.c] does; both banks are
    visited. *)
Lemma walk_system_ram_res_witness : exists l, walk_system_ram_res 50 0 ULLONG_MAX [] (fun s e l => (0, l ++ [(s, e)])) H0 = Ok ((0, l), H0) /\
  call_all (fun s e l => (0, l ++ [(s, e)])) (ranges H0 0 ULLONG_MAX (filter (matches H0 RAM (Some "System RAM"%string)) (kids_of K0 50))) (-1) [] = (0, l) /\ l = [(0x1000, 0x4fff); (0x8000, 0xbfff)].
Proof.
  exists [(0x1000, 0x4fff); (0x8000, 0xbfff)].
  pose proof (walk_system_ram_res_correct [] H0 (kids_of K0) 50 wf0 io0 ltac:(set_solver) top0 range0 (fun s e l => (0, l ++ [(s, e)])) 0 ULLONG_MAX [] (named0 _ _ _) ltac:(lia) (below0 _ _)) as Hw.
  assert (Hrun : walk_system_ram_res 50 0 ULLONG_MAX [] (fun s e l => (0, l ++ [(s, e)])) H0 = Ok ((0, [(0x1000, 0x4fff); (0x8000, 0xbfff)]), H0)) by (by vm_compute).
  split; [exact Hrun|]. split; [|done]. rewrite Hrun in Hw. exact (eq_sym (f_equal (fun r => match r with Ok (a, _) => a | _ => (0, []) end) Hw)).
Defined.

Lemma page_is_ram_witness : exists b : bool, page_is_ram 50 2 H0 = Ok (b, H0) /\ b = true.
Proof.
  destruct (page_is_ram_correct [] H0 (kids_of K0) 50 wf0 io0 ltac:(set_solver) top0 range0 2 (named0 _ _ _) ltac:(lia)) as (b & Hb & _). exists b. split; [exact Hb|].
  revert Hb. vm_compute. by intros [= <-].
Defined.

Lemma iomem_is_exclusive_witness : exists r, iomem_is_exclusive 50 true 0x10010 H0 = Ok (r, H0) /\ r = 1.
Proof.
  destruct (iomem_is_exclusive_correct [] H0 (kids_of K0) 50 wf0 io0 ltac:(set_solver) top0 range0 0x10010 ltac:(by vm_compute)) as (r & Hr & _). exists r. split; [exact Hr|].
  revert Hr. vm_compute. by intros [= <-].
Defined.

(** The page [0x2000] is RAM, and the answer is that it is not. *)
Lemma region_is_ram_witness : exists r, region_is_ram 50 0x2000 0x1000 H0 = Ok (r, H0) /\ (r = 0 \/ r = -1) /\ page_is_ram 50 2 H0 = Ok (true, H0).
Proof.
  destruct (region_is_ram_never [] H0 (kids_of K0) 50 wf0 io0 ltac:(set_solver) top0 range0 0x2000 0x1000) as (r & Hr & Hc & _).
  - intros c n _ Hn. pose proof (map_forallb (fun x : Z * resource => (0 <=? flags x.2) && (flags x.2 <? 2 ^ 32)) H0 ltac:(by vm_compute) c n Hn) as Ht. cbn [snd] in Ht. lia.
  - exists r. split; [exact Hr|]. split; [exact Hc|]. by vm_compute.
Defined.

(** *** Regions *)

(** Entry [10] is recycled, the others come from the slab allocator. *)
Definition H3 : rheap := <[10 := res0 7 8 "gone" 0 0 0 0]> (delete 31 (delete 30 H0)).
Definition st3 : rstate := mkRs H3 10 [61; 62; 63; 64].
Definition slab3 (a : Z) : bool := 60 <? a.

Lemma wf3 : wf [10] (view_of (mem st3)) (kids_of K0).
Proof.
  assert (Hw : wf [] (view_of H3) (kids_of K0)) by (apply wf_test_ok; by vm_compute). assert (Hno : forall r, 10 ∉ kids_of K0 r).
  { intros r Hr. pose proof (kids_test_ok H3 K0 r 10 ltac:(by vm_compute) Hr) as (n & m & _ & Hm & Hx & _). vm_compute in Hm. injection Hm as <-. pose proof (kids_parent _ _ _ Hw r 10 Hr) as Hpar. destruct (view_some H3 10 (res0 7 8 "gone" 0 0 0 0)) as (Hp' & _); [by vm_compute|]. rewrite Hp' in Hpar. injection Hpar as <-.
    by destruct (kids_nonnull _ _ _ Hw 0 10 Hr). }
  apply (wf_other [] [10] (view_of H3) _ (kids_of K0) 10); [exact Hw|done|by vm_compute|exact Hno|done|set_solver| |intros Hx; destruct Hx; left|intros r Hx; destruct Hx; left].
  intros x. apply (wf_range _ _ _ Hw).
Qed.

Lemma pool3 : pool slab3 [10] st3.
Proof.
  split.
  - split; [done|]. exists 0. split; [|done]. by destruct (view_some (mem st3) 10 (res0 7 8 "gone" 0 0 0 0)) as (_ & -> & _); [vm_compute|].
  - intros a ->%list_elem_of_singleton. split_and!; [done|done|vm_compute; eauto].
  - repeat constructor. set_solver.
  - intros a Ha _. cbn in Ha. rewrite !elem_of_cons in Ha. destruct Ha as [->|[->|[->|[->|Ha]]]]; [by vm_compute..|by apply elem_of_nil in Ha].
  - apply NoDup_filter. repeat constructor; set_solver.
Qed.

Lemma request_region_witness : exists r st', __request_region slab3 50 0x5000 0x1000 (Some "dev"%string) 0 st3 = Ok (r, st') /\
  region_outcome slab3 [10] st3 (kids_of K0) 50 0x5000 0x5fff (Some "dev"%string) 0 r st' /\ r = Region 10.
Proof.
  destruct (request_region_correct slab3 [10] st3 (kids_of K0) 50 0x5000 0x1000 (Some "dev"%string) 0 wf3 pool3 ltac:(vm_compute; eauto) ltac:(set_solver) ltac:(lia)) as (r & st' & Hr & Ho).
  exists r, st'. split; [exact Hr|]. split; [exact Ho|]. assert (Hrun : forall x, __request_region slab3 50 0x5000 0x1000 (Some "dev"%string) 0 st3 = Ok x -> x.1 = Region 10) by (vm_compute; intros x [= <-]; done). apply (Hrun _ Hr).
Defined.

Lemma region_roundtrip_witness : exists st1 dead2 st2, __request_region slab3 50 0x5000 0x1000 (Some "dev"%string) 0 st3 = Ok (Region 10, st1) /\
  __release_region slab3 50 0x5000 0x1000 st1 = Ok (true, st2) /\ wf dead2 (view_of (mem st2)) (kids_of K0).
Proof.
  assert (exists st1, __request_region slab3 50 0x5000 0x1000 (Some "dev"%string) 0 st3 = Ok (Region 10, st1)) as [st1 Hst1] by (vm_compute; eexists; done). exists st1.
  destruct (region_roundtrip slab3 [10] st3 (kids_of K0) 50 0x5000 0x1000 (Some "dev"%string) 0 wf3 pool3 ltac:(vm_compute; eauto) ltac:(set_solver) ltac:(lia) 10 st1 ltac:(lia) Hst1) as (dead2 & st2 & H1 & _ & H2 & _).
  exists dead2, st2. split; [exact Hst1|]. split; [exact H1|exact H2].
Defined.

(** The four gaps of [0..0x1ffff]. *)
Lemma reserve_region_with_split_witness : exists st' dead' K, reserve_region_with_split slab3 50 0 0x1ffff (Some "reserved"%string) st3 = Ok (tt, st') /\
  reserving slab3 [10] st3 (kids_of K0) 50 0 0x1ffff (Some "reserved"%string) dead' st' K /\ exists c, c ∈ K /\ lo (view_of (mem st')) c <= 0x6000 <= hi (view_of (mem st')) c.
Proof.
  assert (Hl : lo (view_of (mem st3)) 50 = 0 /\ hi (view_of (mem st3)) 50 = 0xffffffff) by (destruct (shown (mem st3) 50 (res0 0 0xffffffff "PCI mem" IORESOURCE_MEM 0 0 40)) as (_ & -> & ->); [by vm_compute|done]). destruct Hl as [El Eh].
  destruct (reserve_region_with_split_correct slab3 [10] st3 (kids_of K0) 50 0 0x1ffff (Some "reserved"%string) wf3 pool3) as (st' & dead' & K & Hrun & Hr & Hcov); [vm_compute; eauto|set_solver|lia|lia|lia|].
  exists st', dead', K. split; [exact Hrun|]. split; [exact Hr|]. apply Hcov; [split; [change (3 < 5)%nat; lia|]|lia|rewrite El, Eh; lia].
  change (slab st3) with [61; 62; 63; 64]. rewrite !not_elem_of_cons. split_and!; try lia. apply not_elem_of_nil.
Defined.

(** *** Ranges that wrap around *)

(** The only child of a root that has all addresses. *)
Definition H1 : rheap := list_to_map [
  (50, res0 0 ULLONG_MAX "root" IORESOURCE_MEM 0 0 40); (40, res0 0x2000 0x2fff "old" IORESOURCE_MEM 50 0 0)].
Lemma wf1 : wf [] (view_of H1) (kids_of (list_to_map [(50, [40])])).
Proof. apply wf_test_ok. by vm_compute. Qed.

(** The end of the range that [__find_resource] tries wraps around, and [new] is
    taken to lie inside the free range: the resource is left with a start behind
    its end. *)
Example reallocate_wraps : exists h', allocate_resource 50 40 (2 ^ 64 - 0x1000) 0x2000 ULLONG_MAX 0x1000 None H1 = Ok (0, h') /\
  (exists n, h' !! 40 = Some n /\ end_ n < start n).
Proof. eexists. split; [by vm_compute|]. eexists. split; [by vm_compute|]. by vm_compute. Qed.

(** With another size and minimum the [BUG_ON] of [reallocate_resource] is hit. *)
Example reallocate_bug : allocate_resource 50 40 (2 ^ 64 - 0x800) 0x1000 ULLONG_MAX 0x1000 None H1 = Fault.
Proof. by vm_compute. Qed.

(** [walk_system_ram_range] ends at a range without a whole page: the bank behind
    it is not visited. *)
Definition H2 : rheap := list_to_map [
  (50, res0 0 0xffffffff "PCI mem" IORESOURCE_MEM 0 0 40); (40, res0 0x1000 0x17ff "System RAM" RAM 50 41 0);
  (41, res0 0x8000 0xbfff "System RAM" RAM 50 0 0)].
Example walk_system_ram_range_stops : walk_system_ram_range 50 0 0x100 [] (fun p n l => (0, l ++ [(p, n)])) H2 = Ok ((-1, []), H2) /\
  walk_system_ram_range 50 2 0x100 [] (fun p n l => (0, l ++ [(p, n)])) H2 = Ok ((0, [(8, 4)]), H2).
Proof. by vm_compute. Qed.

(** RAM up to the last address: behind it the walk is where it began. *)
Definition H4 : rheap := list_to_map [
  (50, res0 0 ULLONG_MAX "root" IORESOURCE_MEM 0 0 40); (40, res0 0x1000 ULLONG_MAX "System RAM" RAM 50 0 0)].
Example walk_system_ram_res_restarts :
  walk_step 50 (fun s e l => (0, l ++ [(s, e)])) RAM ULLONG_MAX (Some "System RAM"%string) true (0, ULLONG_MAX, 0, []) H4 =
  Ok (inl (0, ULLONG_MAX, 0, [(0x1000, ULLONG_MAX)]), H4).
Proof. by vm_compute. Qed.
