(* ===== verification/Glob.v ===== *)
(** Shell patterns: [lib/glob.c].

    A string is an array of bytes that ends with a zero byte; pointers are
    indices.  [glob_match] is compared with the meaning of patterns: a list of
    tokens that match one character each, and stars. *)
From S2P Require Import Prelude.

Definition QUESTION : Z := 63.
Definition STAR : Z := 42.
Definition LBRACKET : Z := 91.
Definition RBRACKET : Z := 93.
Definition BACKSLASH : Z := 92.
Definition BANG : Z := 33.
Definition DASH : Z := 45.

(** [match |= (a <= c && c <= b); } while ((a = *class++) != ']')] *)
Definition class_next (pat : list Z) (c a b : Z) (class : nat) (match_ : bool) : res (nat * Z * bool + option (bool * nat)) :=
  let match_ := match_ || ((a <=? c) && (c <=? b)) in
  a ← aget pat class;
  Ok (if negb (a =? RBRACKET) then inl ((class + 1)%nat, a, match_) else inr (Some (match_, (class + 1)%nat))).

(** [do ... while ((a = *class++) != ']')]: [None] is a class that is not closed;
    otherwise whether [c] is in one of the spans, and where the pattern goes on. *)
Definition class_step (pat : list Z) (c : Z) (x : nat * Z * bool) : res (nat * Z * bool + option (bool * nat)) :=
  let '(class, a, match_) := x in
  if a =? 0 then Ok (inr None)
  else
    k0 ← aget pat class;
    span ← (if k0 =? DASH then
        k1 ← aget pat (class + 1);
        Ok (if negb (k1 =? RBRACKET) then (if k1 =? 0 then None else Some (k1, (class + 2)%nat)) else Some (a, class))
      else Ok (Some (a, class)));
    match span with
    | None => Ok (inr None)
    | Some (b, class) => class_next pat c a b class match_
    end.

(** The state of the loop: [pat], [str], and [back_pat] with [back_str]. *)
Definition gstate : Type := nat * nat * option (nat * nat).

Definition backtrack (c : Z) (back : option (nat * nat)) : res (gstate + bool) :=
  match back with
  | Some (back_pat, back_str) =>
    if c =? 0 then Ok (inr false) else Ok (inl (back_pat, (back_str + 1)%nat, Some (back_pat, (back_str + 1)%nat)))
  | None => Ok (inr false)
  end.

Definition literal_char (c d : Z) (pat str : nat) (back : option (nat * nat)) : res (gstate + bool) :=
  if c =? d then (if d =? 0 then Ok (inr true) else Ok (inl (pat, str, back))) else backtrack c back.

Definition glob_step (pattern string : list Z) (x : gstate) : res (gstate + bool) :=
  let '(pat, str, back) := x in
  c ← aget string str;
  d ← aget pattern pat;
  let str := (str + 1)%nat in
  let pat := (pat + 1)%nat in
  if d =? QUESTION then (if c =? 0 then Ok (inr false) else Ok (inl (pat, str, back)))
  else if d =? STAR then
    n ← aget pattern pat;
    if n =? 0 then Ok (inr true)
    else let str := (str - 1)%nat in Ok (inl (pat, str, Some (pat, str)))
  else if d =? LBRACKET then
    n ← aget pattern pat;
    let inverted := n =? BANG in
    let class := (pat + if inverted then 1 else 0)%nat in
    a ← aget pattern class;
    closed ← loop (S (length pattern)) (class_step pattern c) ((class + 1)%nat, a, false);
    match closed with
    | None => literal_char c d pat str back
    | Some (match_, class) => if Bool.eqb match_ inverted then backtrack c back else Ok (inl (class, str, back))
    end
  else if d =? BACKSLASH then
    d ← aget pattern pat;
    literal_char c d (pat + 1)%nat str back
  else literal_char c d pat str back.

(** The run time is at most quadratic. *)
Definition glob_match (pattern string : list Z) : res bool :=
  loop (S (length string) * (2 + length pattern)) (glob_step pattern string) (0%nat, 0%nat, None).

(** ** The meaning of a pattern *)

Inductive token := Any | Star | Class (inverted : bool) (spans : list (Z * Z)) | Lit (d : Z).

#[global] Instance token_eq_dec : EqDecision token.
Proof. solve_decision. Defined.

(** The spans of a class after its first character [a], up to the closing
    bracket. *)
Fixpoint spans (a : Z) (l : list Z) : option (list (Z * Z) * list Z) :=
  match l with
  | [] => None
  | x :: l1 =>
    if x =? DASH then
      match l1 with
      | [] => None
      | y :: l2 =>
        if y =? RBRACKET then (fun '(sp, r) => ((a, a) :: sp, r)) <$> spans x l1
        else match l2 with
             | [] => None
             | z :: l3 => if z =? RBRACKET then Some ([(a, y)], l3) else (fun '(sp, r) => ((a, y) :: sp, r)) <$> spans z l3
             end
      end
    else if x =? RBRACKET then Some ([(a, a)], l1)
    else (fun '(sp, r) => ((a, a) :: sp, r)) <$> spans x l1
  end.

Definition parse_class (l : list Z) : option (bool * list (Z * Z) * list Z) :=
  let inverted := hd 0 l =? BANG in
  match (if inverted then tail l else l) with
  | [] => None
  | a :: l => (fun '(sp, r) => (inverted, sp, r)) <$> spans a l
  end.

(** The first token of a pattern; a backslash at the end is ignored, and a bracket
    that is not closed stands for itself. *)
Definition parse_token (l : list Z) : option (token * list Z) :=
  match l with
  | [] => None
  | d :: l =>
    if d =? QUESTION then Some (Any, l)
    else if d =? STAR then Some (Star, l)
    else if d =? LBRACKET then match parse_class l with Some (inv, sp, r) => Some (Class inv sp, r) | None => Some (Lit d, l) end
    else if d =? BACKSLASH then match l with [] => None | d :: l => Some (Lit d, l) end
    else Some (Lit d, l)
  end.

Fixpoint parse (n : nat) (l : list Z) : list token :=
  match n with
  | O => []
  | S n => match parse_token l with Some (t, r) => t :: parse n r | None => [] end
  end.
Definition tokens (l : list Z) : list token := parse (length l) l.

Definition in_spans (c : Z) (sp : list (Z * Z)) : bool := existsb (fun '(a, b) => (a <=? c) && (c <=? b)) sp.
Definition accepts (t : token) (c : Z) : bool :=
  match t with Any => true | Star => false | Class inv sp => negb (Bool.eqb (in_spans c sp) inv) | Lit d => c =? d end.

Fixpoint matches (ts : list token) (cs : list Z) : bool :=
  match ts with
  | [] => match cs with [] => true | _ => false end
  | Star :: ts => (fix star cs := matches ts cs || match cs with [] => false | _ :: cs => star cs end) cs
  | t :: ts => match cs with [] => false | c :: cs => accepts t c && matches ts cs end
  end.

(** [matches ts] for some rest of the string. *)
Fixpoint later (ts : list token) (cs : list Z) : bool :=
  matches ts cs || match cs with [] => false | _ :: cs => later ts cs end.

Definition inverted (t : token) : bool := match t with Class inv _ => inv | _ => false end.

(** ** Lemmas on the meaning *)

Lemma matches_star ts cs : matches (Star :: ts) cs = later ts cs.
Proof. cbn. induction cs as [|c cs IH]; cbn; [done|]. by rewrite IH. Qed.

Lemma later_app ts cs1 cs2 : later ts cs2 = true -> later ts (cs1 ++ cs2) = true.
Proof. intros Hl. induction cs1 as [|c cs1 IH]; cbn; [done|]. by rewrite IH, orb_true_r. Qed.

Lemma later_inv ts cs : later ts cs = true -> exists cs1 cs2, cs = cs1 ++ cs2 /\ matches ts cs2 = true.
Proof.
  induction cs as [|c cs IH]; cbn; intros [H|H]%orb_true_iff; [by exists [], []|done|by exists [], (c :: cs)|]. destruct (IH H) as (cs1 & cs2 & -> & Hm). by exists (c :: cs1), cs2.
Qed.

(** Tokens that are no stars take one character each. *)
Definition single (t : token) : Prop := t <> Star.

Lemma matches_single pre ts cs : Forall single pre -> matches (pre ++ ts) cs = true -> (length pre <= length cs)%nat /\ matches ts (drop (length pre) cs) = true.
Proof.
  intros Hpre. revert cs. induction Hpre as [|t pre Ht _ IH]; intros cs Hm; [split; [cbn; lia|done]|]. destruct t; try done; destruct cs as [|c cs]; try done; cbn in Hm |- *;
    try apply andb_true_iff in Hm as [_ Hm]; destruct (IH cs Hm) as [Hl Hm']; split; [lia|done|lia|done|lia|done].
Qed.

Lemma matches_cons t ts c cs : single t -> matches (t :: ts) (c :: cs) = accepts t c && matches ts cs.
Proof. by destruct t. Qed.
Lemma matches_cons_nil t ts : single t -> matches (t :: ts) [] = false.
Proof. by destruct t. Qed.

(** ** Lemmas on parsing *)

Lemma spans_suffix n a l sp r : (length l <= n)%nat -> spans a l = Some (sp, r) -> (length r < length l)%nat /\ exists pre, l = pre ++ r.
Proof.
  revert a l sp r. induction n as [|n IH]; intros a l sp r Hn Hs; [destruct l; [done|cbn in Hn; lia]|]. destruct l as [|x l1]; [done|]. cbn in Hn, Hs.
  assert (Hrec : forall a' l' f, (length l' <= n)%nat -> f <$> spans a' l' = Some (sp, r) -> (forall q, (f q).2 = q.2) -> (length r < length l')%nat /\ exists pre, l' = pre ++ r).
  { intros a' l' f Hl Hf Hq. destruct (spans a' l') as [[sp' r']|] eqn:E; [|done]. cbn in Hf. injection Hf as Hf. assert (r' = r) as <- by (specialize (Hq (sp', r')); rewrite Hf in Hq; done). by eapply IH. }
  destruct (x =? DASH).
  - destruct l1 as [|y l2]; [done|]. destruct (y =? RBRACKET).
    + destruct (Hrec x (y :: l2) _ ltac:(cbn in *; lia) Hs) as [H1 [pre H2]]; [by intros []|]. split; [cbn in *; lia|]. exists (x :: pre). by rewrite H2.
    + destruct l2 as [|z l3]; [done|]. destruct (z =? RBRACKET).
      * injection Hs as _ <-. split; [cbn; lia|]. by exists [x; y; z].
      * destruct (Hrec z l3 _ ltac:(cbn in *; lia) Hs) as [H1 [pre H2]]; [by intros []|]. split; [cbn in *; lia|]. exists (x :: y :: z :: pre). by rewrite H2.
  - destruct (x =? RBRACKET); [injection Hs as _ <-; split; [cbn; lia|]; by exists [x]|].
    destruct (Hrec x l1 _ ltac:(lia) Hs) as [H1 [pre H2]]; [by intros []|]. split; [cbn; lia|]. exists (x :: pre). by rewrite H2.
Qed.

Lemma parse_class_suffix l inv sp r : parse_class l = Some (inv, sp, r) -> (length r < length l)%nat /\ exists pre, l = pre ++ r.
Proof.
  unfold parse_class. destruct (hd 0 l =? BANG).
  - destruct l as [|b [|a l]]; [done|done|]. cbn [tail]. destruct (spans a l) as [[sp' r']|] eqn:E; [|done]. cbn. intros [= <- <- <-]. destruct (spans_suffix _ _ _ _ _ (le_n _) E) as [H1 [pre H2]].
    split; [cbn; lia|]. exists (b :: a :: pre). by rewrite H2.
  - destruct l as [|a l]; [done|]. destruct (spans a l) as [[sp' r']|] eqn:E; [|done]. cbn. intros [= <- <- <-]. destruct (spans_suffix _ _ _ _ _ (le_n _) E) as [H1 [pre H2]].
    split; [cbn; lia|]. exists (a :: pre). by rewrite H2.
Qed.

Lemma parse_token_suffix l t r : parse_token l = Some (t, r) -> (length r < length l)%nat /\ exists pre, l = pre ++ r.
Proof.
  destruct l as [|d l]; [done|]. cbn. assert (Hl : forall t', Some (t', l) = Some (t, r) -> (length r < S (length l))%nat /\ exists pre, d :: l = pre ++ r) by (intros t' [= _ <-]; split; [lia|]; by exists [d]).
  destruct (d =? QUESTION); [apply Hl|]. destruct (d =? STAR); [apply Hl|]. destruct (d =? LBRACKET).
  - destruct (parse_class l) as [[[inv sp] r']|] eqn:E; [|apply Hl]. intros [= <- <-]. destruct (parse_class_suffix _ _ _ _ E) as [H1 [pre H2]]. split; [lia|]. exists (d :: pre). by rewrite H2.
  - destruct (d =? BACKSLASH); [|apply Hl]. destruct l as [|d' l]; [done|]. intros [= _ <-]. split; [cbn; lia|]. by exists [d; d'].
Qed.

Lemma parse_fuel n m l : (length l <= n)%nat -> (length l <= m)%nat -> parse n l = parse m l.
Proof.
  revert m l. induction n as [|n IH]; intros m l Hn Hm.
  - destruct l; [|cbn in Hn; lia]. by destruct m.
  - destruct m as [|m]; [destruct l; [done|cbn in Hm; lia]|]. cbn. destruct (parse_token l) as [[t r]|] eqn:E; [|done]. f_equal. apply parse_token_suffix in E as [H1 _]. apply IH; lia.
Qed.

Lemma tokens_unfold l : tokens l = match parse_token l with Some (t, r) => t :: tokens r | None => [] end.
Proof.
  unfold tokens. destruct l as [|d l]; [done|]. cbn [length parse]. destruct (parse_token (d :: l)) as [[t r]|] eqn:E; [|done]. f_equal. apply parse_token_suffix in E as [H1 _]. cbn in H1. apply parse_fuel; lia.
Qed.

(** ** Reading strings *)

Section strings.
Context (pl sl : list Z).
Hypothesis Hpl : Forall (fun c => 0 < c) pl.
Hypothesis Hsl : Forall (fun c => 0 < c) sl.
Abbreviation pattern := (pl ++ [0]).
Abbreviation string := (sl ++ [0]).

(** Where the rest [r] of a string begins. *)
Definition at_ (whole r : list Z) : nat := (length whole - length r)%nat.

Lemma aget_rest (l r : list Z) : (exists pre, l = pre ++ r) -> aget (l ++ [0]) (at_ l r) = Ok (hd 0 r).
Proof.
  intros [pre ->]. unfold at_. rewrite length_app. replace (length pre + length r - length r)%nat with (length pre) by lia. rewrite <- app_assoc. destruct r as [|x r]; apply aget_middle.
Qed.
Lemma aget_next (l r : list Z) x : (exists pre, l = pre ++ x :: r) -> (at_ l (x :: r) + 1)%nat = at_ l r.
Proof. intros [pre ->]. unfold at_. rewrite length_app. cbn. lia. Qed.
Lemma rest_cons (l r : list Z) x : (exists pre, l = pre ++ x :: r) -> exists pre, l = pre ++ r.
Proof. intros [pre ->]. exists (pre ++ [x]). by rewrite <- app_assoc. Qed.
Lemma rest_pos (l r : list Z) x : Forall (fun c => 0 < c) l -> (exists pre, l = pre ++ x :: r) -> 0 < x.
Proof. intros Hl [pre ->]. apply Forall_app in Hl as [_ Hl]. by apply Forall_cons in Hl as [? _]. Qed.
Lemma rest_app (l r1 r2 : list Z) : (exists pre, l = pre ++ r1) -> (exists pre, r1 = pre ++ r2) -> exists pre, l = pre ++ r2.
Proof. intros [p1 ->] [p2 ->]. exists (p1 ++ p2). by rewrite app_assoc. Qed.

Lemma class_end c class m fuel : loop (S fuel) (class_step pattern c) (class, 0, m) = Ok None.
Proof. done. Qed.

(** One span, from [a] to [b]; [r] is what follows. *)
Lemma class_span c a b m r : (exists pre, pl = pre ++ r) ->
  class_next pattern c a b (at_ pl r) m =
  Ok (match r with
      | [] => inl ((at_ pl r + 1)%nat, 0, m || ((a <=? c) && (c <=? b)))
      | z :: r' => if z =? RBRACKET then inr (Some (m || ((a <=? c) && (c <=? b)), at_ pl r')) else inl (at_ pl r', z, m || ((a <=? c) && (c <=? b)))
      end).
Proof.
  intros Hr. unfold class_next. rewrite (aget_rest pl r Hr). cbn [mbind res_bind]. destruct r as [|z r']; [done|]. cbn [hd]. rewrite (aget_next pl r' z Hr). by destruct (z =? RBRACKET).
Qed.

Lemma class_loop_ok c n : forall l a m fuel, (length l <= n)%nat -> (exists pre, pl = pre ++ l) -> 0 < a -> (length l + 2 <= fuel)%nat ->
  loop fuel (class_step pattern c) (at_ pl l, a, m) = Ok ((fun '(sp, r) => (m || in_spans c sp, at_ pl r)) <$> spans a l).
Proof using All.
  induction n as [|n IH]; intros l a m fuel Hn Hl Ha Hf.
  { destruct l; [|cbn in Hn; lia]. destruct fuel as [|[|fuel]]; [cbn in Hf; lia|cbn in Hf; lia|]. cbn [loop]. unfold class_step at 1. rewrite (proj2 (Z.eqb_neq a 0)) by lia. rewrite (aget_rest pl [] Hl). cbn [mbind res_bind hd]. change (0 =? DASH) with false. cbn [mbind res_bind]. by rewrite (class_span c a a m [] Hl). }
  assert (Hgo : forall b z r fuel', (length r <= n)%nat -> (length r + 2 <= fuel')%nat -> (exists pre, pl = pre ++ z :: r) ->
    loop fuel' (class_step pattern c) (at_ pl r, z, m || ((a <=? c) && (c <=? b))) = Ok ((fun '(sp, r) => (m || in_spans c sp, at_ pl r)) <$> ((fun '(sp, r) => ((a, b) :: sp, r)) <$> spans z r))).
  { intros b z r fuel' Hr Hf' Hz. rewrite IH; [|done|by eapply rest_cons|by eapply (rest_pos pl)|done]. destruct (spans z r) as [[sp r']|]; [|done]. cbn. by rewrite orb_assoc. }
  destruct fuel as [|fuel]; [lia|]. cbn [loop]. unfold class_step at 1. rewrite (proj2 (Z.eqb_neq a 0)) by lia. rewrite (aget_rest pl l Hl). cbn [mbind res_bind].
  destruct l as [|x l1]; [destruct fuel; [cbn in Hf; lia|]; cbn [hd]; change (0 =? DASH) with false; cbn [mbind res_bind]; by rewrite (class_span c a a m [] Hl)|]. cbn [hd]. pose proof (rest_cons pl l1 x Hl) as Hl1. cbn in Hf, Hn. destruct (x =? DASH) eqn:Hx.
  - rewrite (aget_next pl l1 x Hl), (aget_rest pl l1 Hl1). cbn [mbind res_bind]. destruct l1 as [|y l2]; [cbn [spans]; rewrite Hx; done|]. cbn [hd]. pose proof (rest_pos pl l2 y Hpl Hl1) as Hy. destruct (y =? RBRACKET) eqn:Hyb; cbn [negb].
    + cbn [mbind res_bind]. rewrite (class_span c a a m (x :: y :: l2) Hl). assert ((x =? RBRACKET) = false) as Hxb by (apply Z.eqb_eq in Hx as ->; done). rewrite Hxb. rewrite Hgo; [|cbn in *; lia|cbn in *; lia|done]. cbn [spans]. rewrite Hx, Hyb. done.
    + rewrite (proj2 (Z.eqb_neq y 0)) by lia. assert (at_ pl (x :: y :: l2) + 2 = at_ pl l2)%nat as -> by (rewrite <- (aget_next pl l2 y Hl1), <- (aget_next pl (y :: l2) x Hl); lia).
      pose proof (rest_cons pl l2 y Hl1) as Hl2. rewrite (class_span c a y m l2 Hl2). cbn [spans]. rewrite Hx, Hyb. destruct l2 as [|z l3]; [destruct fuel; [cbn in Hf; lia|]; done|]. destruct (z =? RBRACKET); [cbn; by rewrite orb_false_r|].
      rewrite Hgo; [done|cbn in *; lia|cbn in *; lia|done].
  - cbn [mbind res_bind]. rewrite (class_span c a a m (x :: l1) Hl). cbn [spans]. rewrite Hx. destruct (x =? RBRACKET); [cbn; by rewrite orb_false_r|]. rewrite Hgo; [done|lia|lia|done].
Qed.

(** What one round of the loop does, in terms of the first token. *)
Definition round (l cs : list Z) (back : option (nat * nat)) : res (gstate + bool) :=
  match parse_token l with
  | None => match cs with [] => Ok (inr true) | c :: _ => backtrack c back end
  | Some (Star, r) => if decide (r = []) then Ok (inr true) else Ok (inl (at_ pl r, at_ sl cs, Some (at_ pl r, at_ sl cs)))
  | Some (Any, r) => match cs with [] => Ok (inr false) | c :: cs => Ok (inl (at_ pl r, at_ sl cs, back)) end
  | Some (t, r) => if accepts t (hd 0 cs) then Ok (inl (at_ pl r, (at_ sl cs + 1)%nat, back)) else backtrack (hd 0 cs) back
  end.

Lemma glob_step_ok l cs back : (exists pre, pl = pre ++ l) -> (exists pre, sl = pre ++ cs) -> glob_step pattern string (at_ pl l, at_ sl cs, back) = round l cs back.
Proof using All.
  intros Hl Hcs. unfold glob_step. rewrite (aget_rest sl cs Hcs), (aget_rest pl l Hl). cbn [mbind res_bind]. unfold round. destruct l as [|d l].
  { cbn. unfold literal_char. destruct cs as [|c cs]; [done|]. cbn. pose proof (rest_pos sl cs c Hsl Hcs). by rewrite (proj2 (Z.eqb_neq c 0)) by lia. }
  cbn [hd]. pose proof (rest_pos pl l d Hpl Hl) as Hd. pose proof (rest_cons pl l d Hl) as Hl'. rewrite (aget_next pl l d Hl). cbn [parse_token].
  assert (Hc0 : (hd 0 cs =? 0) = match cs with [] => true | _ => false end) by (destruct cs as [|c cs]; [done|]; pose proof (rest_pos sl cs c Hsl Hcs); cbn; lia).
  assert (Hlit : forall e r back, 0 < e -> literal_char (hd 0 cs) e (at_ pl r) (at_ sl cs + 1) back = if hd 0 cs =? e then Ok (inl (at_ pl r, (at_ sl cs + 1)%nat, back)) else backtrack (hd 0 cs) back).
  { intros e r b He. unfold literal_char. by rewrite (proj2 (Z.eqb_neq e 0)) by lia. }
  destruct (d =? QUESTION) eqn:Hq; [rewrite Hc0; destruct cs as [|c cs]; [done|by rewrite (aget_next sl cs c Hcs)]|]. destruct (d =? STAR) eqn:Hst.
  { rewrite (aget_rest pl l Hl'). cbn [mbind res_bind]. destruct l as [|e l]; [done|]. cbn [hd]. pose proof (rest_pos pl l e Hpl Hl'). rewrite (proj2 (Z.eqb_neq e 0)) by lia. rewrite decide_False by done.
    replace (at_ sl cs + 1 - 1)%nat with (at_ sl cs) by lia. done. }
  destruct (d =? LBRACKET) eqn:Hbr.
  { rewrite (aget_rest pl l Hl'). cbn [mbind res_bind]. unfold parse_class. assert (Hcls : forall inv l', (exists pre, pl = pre ++ l') -> (length l' <= length l)%nat ->
      (a ← aget pattern (at_ pl l'); closed ← loop (S (length pattern)) (class_step pattern (hd 0 cs)) ((at_ pl l' + 1)%nat, a, false);
       match closed with None => literal_char (hd 0 cs) d (at_ pl l) (at_ sl cs + 1) back | Some (match_, class) => if Bool.eqb match_ inv then backtrack (hd 0 cs) back else Ok (inl (class, (at_ sl cs + 1)%nat, back)) end) =
      match (match match l' with [] => None | a :: l => (fun '(sp, r) => (inv, sp, r)) <$> spans a l end with Some (inv, sp, r) => Some (Class inv sp, r) | None => Some (Lit d, l) end) with
      | None => match cs with [] => Ok (inr true) | c :: _ => backtrack c back end
      | Some (Star, r) => if decide (r = []) then Ok (inr true) else Ok (inl (at_ pl r, at_ sl cs, Some (at_ pl r, at_ sl cs)))
      | Some (Any, r) => match cs with [] => Ok (inr false) | c :: cs => Ok (inl (at_ pl r, at_ sl cs, back)) end
      | Some (t, r) => if accepts t (hd 0 cs) then Ok (inl (at_ pl r, (at_ sl cs + 1)%nat, back)) else backtrack (hd 0 cs) back
      end).
    { intros inv l' Hl2 Hlen. rewrite (aget_rest pl l' Hl2). cbn [mbind res_bind]. destruct l' as [|a l']; [rewrite class_end; cbn [mbind res_bind]; by rewrite Hlit|]. cbn [hd].
      rewrite (aget_next pl l' a Hl2), (class_loop_ok (hd 0 cs) (length l')); [|done|by eapply rest_cons|by eapply (rest_pos pl)|].
      2: { destruct Hl as [pre ->]. rewrite !length_app. cbn in *. lia. }
      destruct (spans a l') as [[sp r]|]; cbn [fmap option_fmap option_map mbind res_bind]; [|by rewrite Hlit]. cbn [orb accepts]. by destruct (Bool.eqb _ inv). }
    destruct (hd 0 l =? BANG) eqn:Hbang; [|rewrite Nat.add_0_r; by apply Hcls]. destruct l as [|b l]; [done|]. rewrite (aget_next pl l b Hl'). apply (Hcls true l); [by eapply rest_cons|cbn; lia]. }
  destruct (d =? BACKSLASH) eqn:Hbs; [|by rewrite Hlit]. rewrite (aget_rest pl l Hl'). cbn [mbind res_bind]. destruct l as [|e l].
  - cbn. unfold literal_char. destruct cs as [|c cs]; [done|]. cbn. pose proof (rest_pos sl cs c Hsl Hcs). by rewrite (proj2 (Z.eqb_neq c 0)) by lia.
  - cbn [hd]. rewrite (aget_next pl l e Hl'). by rewrite Hlit by (by eapply (rest_pos pl)).
Qed.

(** ** One level of backtracking is enough *)

(** The result is what a match of the rest of the pattern says, or a match that
    begins later, after the last star. *)
Definition pending (l cs : list Z) (back : option (nat * nat)) (R : bool) : Prop :=
  match back with
  | None => R = matches (tokens l) cs
  | Some (bp, bs) => exists lb csb pre, bp = at_ pl lb /\ bs = at_ sl csb /\ (exists p, pl = p ++ lb) /\ (exists p, sl = p ++ csb) /\ (exists q, tokens pl = q ++ tokens lb) /\
      tokens lb = pre ++ tokens l /\ Forall single pre /\ (length pre <= length csb)%nat /\ cs = drop (length pre) csb /\
      R = matches (tokens l) cs || match csb with [] => false | _ :: t => later (tokens lb) t end
  end.
Record valid (l cs : list Z) (back : option (nat * nat)) (R : bool) : Prop := {
  va_pat : exists p, pl = p ++ l;
  va_str : exists p, sl = p ++ cs;
  va_tokens : exists q, tokens pl = q ++ tokens l;
  va_pending : pending l cs back R }.

Definition back_str (back : option (nat * nat)) : nat := match back with Some (_, bs) => bs | None => 0%nat end.
Definition measure (l : list Z) (back : option (nat * nat)) : nat := ((length sl - back_str back) * (3 + length pl) + length l)%nat.

Lemma later_nil cs : later [] cs = true.
Proof. induction cs as [|c cs IH]; [done|]. cbn. done. Qed.

Lemma drop_app_suffix {A} k (a b : list A) : (k <= length b)%nat -> exists y, drop k (a ++ b) = y ++ drop k b.
Proof.
  intros Hk. exists (drop k a ++ take (k - (k - length a)) (drop (k - length a) b)). rewrite drop_app, <- app_assoc. f_equal.
  rewrite <- (take_drop (k - (k - length a)) (drop (k - length a) b)) at 1. f_equal. rewrite drop_drop. f_equal. lia.
Qed.

(** A match that begins later, and reaches the star, begins with the star. *)
Lemma later_through pre ts csb : Forall single pre -> (length pre <= length csb)%nat -> later (pre ++ Star :: ts) (tail csb) = true -> later ts (drop (length pre) csb) = true.
Proof.
  intros Hpre Hlen Hl. apply later_inv in Hl as (cs1 & cs2 & Heq & Hm). apply matches_single in Hm as [Hlen2 Hm]; [|done]. rewrite matches_star in Hm. destruct csb as [|x csb].
  - cbn in Heq. symmetry in Heq. apply app_eq_nil in Heq as [-> ->]. by rewrite drop_nil in *.
  - cbn in Heq. subst csb. destruct (drop_app_suffix (length pre) (x :: cs1) cs2 Hlen2) as [y Hy]. cbn [app] in Hy. rewrite Hy. by apply later_app.
Qed.

(** A match that begins later needs more characters than there are. *)
Lemma later_short pre t ts csb : Forall single pre -> single t -> (length csb <= length pre)%nat -> later (pre ++ t :: ts) (tail csb) = false.
Proof.
  intros Hpre Ht Hlen. destruct (later _ _) eqn:E; [|done]. apply later_inv in E as (cs1 & cs2 & Heq & Hm). replace (pre ++ t :: ts) with ((pre ++ [t]) ++ ts) in Hm by (by rewrite <- app_assoc).
  apply matches_single in Hm as [Hl _]; [|apply Forall_app; split; [done|by constructor]]. rewrite length_app in Hl. assert (length (tail csb) = length cs1 + length cs2)%nat by (by rewrite Heq, length_app). destruct csb; cbn in *; lia.
Qed.

Lemma tail_later ts csb : (match csb with [] => false | _ :: t => later ts t end) = match csb with [] => false | _ => later ts (tail csb) end.
Proof. by destruct csb. Qed.

Lemma spans_pos n a l sp r : (length l <= n)%nat -> 0 < a -> Forall (fun c => 0 < c) l -> spans a l = Some (sp, r) -> in_spans 0 sp = false.
Proof.
  revert a l sp r. induction n as [|n IH]; intros a l sp r Hn Ha Hl Hs; [destruct l; [done|cbn in Hn; lia]|]. destruct l as [|x l1]; [done|]. cbn in Hn, Hs. apply Forall_cons in Hl as [Hx Hl].
  assert (Hrec : forall a' l' b, (length l' <= n)%nat -> 0 < a' -> Forall (fun c => 0 < c) l' -> (fun '(sp, r) => ((a, b) :: sp, r)) <$> spans a' l' = Some (sp, r) -> in_spans 0 sp = false).
  { intros a' l' b Hl' Ha' Hf Hq. destruct (spans a' l') as [[sp' r']|] eqn:E; [|done]. cbn in Hq. injection Hq as <- _. cbn. rewrite (proj2 (Z.leb_gt a 0)) by lia. by eapply IH. }
  assert (Hone : forall b, in_spans 0 [(a, b)] = false) by (intros b; cbn; by rewrite (proj2 (Z.leb_gt a 0)) by lia).
  destruct (x =? DASH).
  - destruct l1 as [|y l2]; [done|]. destruct (y =? RBRACKET); [eapply (Hrec x (y :: l2)); cbn in *; [lia|done|done|done]|]. destruct l2 as [|z l3]; [done|]. apply Forall_cons in Hl as [_ Hl]. apply Forall_cons in Hl as [Hz Hl].
    destruct (z =? RBRACKET); [injection Hs as <- _; apply Hone|]. eapply (Hrec z l3); [cbn in *; lia|done|done|done].
  - destruct (x =? RBRACKET); [injection Hs as <- _; apply Hone|]. eapply (Hrec x l1); [lia|done|done|done].
Qed.

(** No token but an inverted class accepts the end of the string. *)
Lemma accepts_end l t r : Forall (fun c => 0 < c) l -> parse_token l = Some (t, r) -> t <> Any -> accepts t 0 = true -> inverted t = true.
Proof.
  intros Hl Hp HA Hacc. destruct t as [| |inv sp|d]; [done|done| |]; cbn in *.
  - destruct inv; [done|]. destruct l as [|d l]; [done|]. cbn in Hp. apply Forall_cons in Hl as [_ Hl]. destruct (d =? QUESTION), (d =? STAR); try done. destruct (d =? LBRACKET); [|destruct (d =? BACKSLASH); [by destruct l|done]].
    destruct (parse_class l) as [[[inv' sp'] r']|] eqn:E; [|done]. injection Hp as -> -> ->. unfold parse_class in E. destruct (hd 0 l =? BANG).
    + destruct (tail l) as [|a l']; [done|]. by destruct (spans a l') as [[? ?]|].
    + destruct l as [|a l']; [done|]. destruct (spans a l') as [[sp' r']|] eqn:Es; [|done]. cbn in E. injection E as -> ->. apply Forall_cons in Hl as [Ha Hl]. by rewrite (spans_pos _ a l' sp r (le_n _) Ha Hl Es) in Hacc.
  - exfalso. assert (d = 0) as -> by (by destruct d). destruct l as [|d l]; [done|]. cbn in Hp. apply Forall_cons in Hl as [Hd Hl]. destruct (d =? QUESTION), (d =? STAR); try done. destruct (d =? LBRACKET).
    + destruct (parse_class l) as [[[inv' sp'] r']|]; [done|]. injection Hp as -> ->. lia.
    + destruct (d =? BACKSLASH); [|injection Hp as -> ->; lia]. destruct l as [|e l]; [done|]. injection Hp as -> ->. apply Forall_cons in Hl as [He _]. lia.
Qed.

(** What a round leads to. *)
Definition round_leads (l : list Z) (back : option (nat * nat)) (R : bool) (o : res (gstate + bool)) : Prop :=
  match o with
  | Ok (inr b) => b = R
  | Ok (inl (p, s, back')) => (exists l' cs', p = at_ pl l' /\ s = at_ sl cs' /\ valid l' cs' back' R /\ (measure l' back' < measure l back)%nat) \/
      (s = length string /\ existsb inverted (tokens pl) = true /\ (0 < measure l back)%nat)
  | _ => False
  end.

Lemma backtrack_ok l cs back R : valid l cs back R -> matches (tokens l) cs = false -> (cs = [] -> exists t ts, tokens l = t :: ts /\ single t) -> round_leads l back R (backtrack (hd 0 cs) back).
Proof using All.
  intros [Hp Hs Ht Hpend] Hno Hend. unfold backtrack, round_leads. destruct back as [[bp bs]|]; cbn in Hpend; [|by rewrite Hno in Hpend]. destruct Hpend as (lb & csb & pre & -> & -> & Hlb & Hcsb & Htb & Heq & Hpre & Hlen & Hcs & HR).
  rewrite Hno in HR. cbn [orb] in HR. destruct cs as [|c cs]; cbn [hd].
  - rewrite Z.eqb_refl. destruct (Hend eq_refl) as (t & ts & Htl & Hst). assert (length csb <= length pre)%nat by (pose proof (f_equal length Hcs) as Hl; rewrite length_drop in Hl; cbn in Hl; lia).
    rewrite HR, tail_later. destruct csb; [done|]. symmetry. rewrite Heq, Htl. by apply later_short.
  - pose proof (rest_pos sl cs c Hsl Hs). rewrite (proj2 (Z.eqb_neq c 0)) by lia. destruct csb as [|x csb]; [by rewrite drop_nil in Hcs|]. rewrite (aget_next sl csb x Hcsb). left. exists lb, csb. split_and!; [done|done| |].
    + split; [done|by eapply rest_cons|done|]. cbn. exists lb, csb, []. split_and!; try done; [by eapply rest_cons|cbn; lia|]. rewrite HR. by destruct csb.
    + unfold measure. cbn [back_str]. destruct Hcsb as [p1 ->], Hlb as [p2 ->]. unfold at_. rewrite !length_app. cbn. nia.
Qed.

Lemma valid_rest l cs back R t r : valid l cs back R -> parse_token l = Some (t, r) -> (exists p, pl = p ++ r) /\ tokens l = t :: tokens r /\ (exists q, tokens pl = q ++ tokens r) /\ (length r < length l)%nat.
Proof.
  intros [Hp _ [q Hq] _] Ht. destruct (parse_token_suffix l t r Ht) as [Hlen Hsuf]. rewrite (tokens_unfold l), Ht in Hq. split_and!; [by eapply rest_app|by rewrite (tokens_unfold l), Ht| |done].
  exists (q ++ [t]). by rewrite <- app_assoc.
Qed.

Lemma glob_advance_ok l c cs back R t r : valid l (c :: cs) back R -> parse_token l = Some (t, r) -> single t -> accepts t c = true -> round_leads l back R (Ok (inl (at_ pl r, at_ sl cs, back))).
Proof.
  intros Hv Ht Hst Hacc. destruct (valid_rest _ _ _ _ _ _ Hv Ht) as (Hr & Htok & Htr & Hlen). destruct Hv as [Hp Hs _ Hpend]. left. exists r, cs. split_and!; [done|done| |unfold measure; lia].
  split; [done|by eapply rest_cons|done|]. destruct back as [[bp bs]|]; cbn in *.
  - destruct Hpend as (lb & csb & pre & -> & -> & Hlb & Hcsb & Htb & Heq & Hpre & Hle & Hcs & HR). exists lb, csb, (pre ++ [t]). rewrite Htok in Heq, HR. rewrite matches_cons, Hacc in HR by done.
    assert (Hlen2 : (length pre < length csb)%nat) by (pose proof (f_equal length Hcs) as Hl; rewrite length_drop in Hl; cbn in Hl; lia).
    split_and!; try done; [by rewrite <- app_assoc|apply Forall_app; split; [done|by constructor]|rewrite length_app; cbn; lia|]. rewrite length_app, <- drop_drop, <- Hcs. done.
  - rewrite Hpend, Htok, matches_cons, Hacc by done. done.
Qed.

Lemma star_ok l cs back R r : valid l cs back R -> parse_token l = Some (Star, r) -> round_leads l back R (Ok (inl (at_ pl r, at_ sl cs, Some (at_ pl r, at_ sl cs)))) /\ (r = [] -> R = true).
Proof.
  intros Hv Ht. destruct (valid_rest _ _ _ _ _ _ Hv Ht) as (Hr & Htok & Htr & Hlen). destruct Hv as [Hp Hs _ Hpend].
  assert (HR : R = later (tokens r) cs /\ (back_str back <= at_ sl cs)%nat).
  { destruct back as [[bp bs]|]; cbn [pending back_str] in *.
    - destruct Hpend as (lb & csb & pre & -> & -> & _ & Hcsb & _ & Heq & Hpre & Hle & Hcs & HR). rewrite Htok in HR, Heq. rewrite matches_star in HR. split.
      + rewrite HR, tail_later. destruct (later (tokens r) cs) eqn:E; [done|]. destruct csb as [|x csb]; [done|]. cbn [orb]. rewrite Heq. destruct (later (pre ++ Star :: tokens r) (tail (x :: csb))) eqn:E2; [|done].
        apply later_through in E2; [|done|done]. rewrite <- Hcs in E2. congruence.
      + unfold at_. rewrite Hcs, length_drop. lia.
    - split; [by rewrite Hpend, Htok, matches_star|lia]. }
  destruct HR as [HR Hbs]. split; [|intros ->; rewrite HR; apply later_nil]. left. exists r, cs. split_and!; [done|done| |].
  - split; [done|done|done|]. cbn. exists r, cs, []. split_and!; try done; [cbn; lia|]. rewrite HR. by destruct cs.
  - unfold measure. cbn [back_str]. assert (Hx : ((length sl - at_ sl cs) * (3 + length pl) <= (length sl - back_str back) * (3 + length pl))%nat) by (apply Nat.mul_le_mono_r; lia). lia.
Qed.

Lemma round_ok l cs back R : valid l cs back R -> round_leads l back R (round l cs back).
Proof using All.
  intros Hv. unfold round. destruct (parse_token l) as [[t r]|] eqn:Ht.
  2: { assert (Htok : tokens l = []) by (by rewrite (tokens_unfold l), Ht). destruct cs as [|c cs]; [|apply (backtrack_ok l (c :: cs)); [done|by rewrite Htok|done]].
       destruct Hv as [_ _ _ Hpend]. cbn. destruct back as [[bp bs]|]; cbn in Hpend; [destruct Hpend as (lb & csb & pre & _ & _ & _ & _ & _ & _ & _ & _ & _ & HR)|]; by rewrite Htok in *. }
  destruct (valid_rest _ _ _ _ _ _ Hv Ht) as (Hr & Htok & Htr & Hlen). destruct (decide (t = Star)) as [->|Hst].
  { destruct (star_ok l cs back R r Hv Ht) as [Hok Hend]. case_decide; [cbn; symmetry; by apply Hend|done]. }
  assert (Hback : cs = [] \/ accepts t (hd 0 cs) = false -> round_leads l back R (backtrack (hd 0 cs) back)).
  { intros Hc. apply backtrack_ok; [done| |intros _; by exists t, (tokens r)]. rewrite Htok. destruct cs as [|c cs]; [by apply matches_cons_nil|]. rewrite matches_cons by done. destruct Hc as [?|Hc]; [done|]. cbn in Hc. by rewrite Hc. }
  assert (Hgo : round_leads l back R (if accepts t (hd 0 cs) then Ok (inl (at_ pl r, (at_ sl cs + 1)%nat, back)) else backtrack (hd 0 cs) back) \/ t = Any).
  { destruct (decide (t = Any)) as [|HA]; [by right|left]. destruct (accepts t (hd 0 cs)) eqn:Hacc; [|apply Hback; by right]. destruct cs as [|c cs].
    - right. pose proof (va_pat _ _ _ _ Hv) as [p0 Hp0]. split_and!; [unfold at_; rewrite length_app; cbn; lia| |unfold measure; generalize ((length sl - back_str back) * (3 + length pl))%nat; lia]. assert (Hl : Forall (fun c => 0 < c) l) by (rewrite Hp0 in Hpl; by apply Forall_app in Hpl as [_ ?]).
      pose proof (accepts_end l t r Hl Ht HA Hacc) as Hinv. destruct (va_tokens _ _ _ _ Hv) as [q ->]. rewrite Htok, existsb_app. cbn. by rewrite Hinv, orb_true_r.
    - rewrite (aget_next sl cs c (va_str _ _ _ _ Hv)). by eapply (glob_advance_ok l c cs back R t r). }
  destruct t as [| |inv sp|d]; [|done|by destruct Hgo|by destruct Hgo]. destruct cs as [|c cs]; [|by eapply (glob_advance_ok l c cs back R Any r)].
  specialize (Hback (or_introl eq_refl)). cbn in Hback. unfold backtrack in Hback. destruct back as [[bp bs]|]; exact Hback.
Qed.

Lemma glob_loop_ok fuel : forall l cs back R, valid l cs back R -> (measure l back < fuel)%nat ->
  loop fuel (glob_step pattern string) (at_ pl l, at_ sl cs, back) = Ok R \/ (loop fuel (glob_step pattern string) (at_ pl l, at_ sl cs, back) = Fault /\ existsb inverted (tokens pl) = true).
Proof using All.
  induction fuel as [|fuel IH]; intros l cs back R Hv Hf; [lia|]. cbn [loop]. rewrite glob_step_ok; [|apply Hv|apply Hv]. pose proof (round_ok l cs back R Hv) as Hn. unfold round_leads in Hn.
  destruct (round l cs back) as [[[[p s] back']|b]| |]; [|left; by rewrite Hn|done|done]. destruct Hn as [(l' & cs' & -> & -> & Hv' & Hm)|(-> & Hinv & Hm)]; [apply IH; [done|lia]|].
  right. split; [|done]. destruct fuel; [lia|]. cbn [loop]. unfold glob_step. assert (aget string (length string) = Fault) as ->; [|done]. unfold aget. by rewrite lookup_ge_None_2.
Qed.

Lemma valid_start : valid pl sl None (matches (tokens pl) sl).
Proof. split; [by exists []|by exists []|by exists []|done]. Qed.

(** C22.  [glob_match] terminates within quadratically many rounds, and says
    whether the pattern matches the string, although it goes back to the last star
    only.  It reads behind the end of the string at most for a pattern with an
    inverted class. *)
Theorem glob_match_correct : glob_match pattern string = Ok (matches (tokens pl) sl) \/ (glob_match pattern string = Fault /\ existsb inverted (tokens pl) = true).
Proof using All.
  unfold glob_match. pose proof (glob_loop_ok (S (length string) * (2 + length pattern)) pl sl None _ valid_start) as Hl. unfold at_ in Hl. rewrite !Nat.sub_diag in Hl. apply Hl.
  unfold measure. cbn [back_str]. rewrite !length_app. cbn. nia.
Qed.
End strings.

(** The class [[!b]] matches the end of ["a"], and the next character is read
    behind it. *)
Example glob_match_overread : glob_match [97; 91; 33; 98; 93; 0] [97; 0] = Fault.
Proof. by vm_compute. Qed.

(** ["*a?b*[0-9]"] *)
Lemma glob_match_witness : Forall (fun c => 0 < c) [42; 97; 63; 98; 42; 91; 48; 45; 57; 93] /\ matches (tokens [42; 97; 63; 98; 42; 91; 48; 45; 57; 93]) [97; 97; 99; 97; 98; 98; 55] = true /\
  glob_match [42; 97; 63; 98; 42; 91; 48; 45; 57; 93; 0] [97; 97; 99; 97; 98; 98; 55; 0] = Ok true.
Proof.
  assert (Hp : Forall (fun c => 0 < c) [42; 97; 63; 98; 42; 91; 48; 45; 57; 93]) by (repeat constructor). split; [exact Hp|]. split; [by vm_compute|].
  destruct (glob_match_correct [42; 97; 63; 98; 42; 91; 48; 45; 57; 93] [97; 97; 99; 97; 98; 98; 55] Hp ltac:(repeat constructor)) as [Hg|[_ Hinv]]; [|exfalso; revert Hinv; by vm_compute].
  revert Hg. vm_compute. done.
Defined.
