(* ===== verification/Kmp.v ===== *)
(** Text search: the Knuth-Morris-Pratt algorithm of [lib/ts_kmp.c], and the part of
    [lib/textsearch.c] that searches a continuous text.

    Indices into the pattern stay below its length and are natural numbers;
    offsets into the text are [unsigned int] and wrap around. *)
From S2P Require Import Prelude FindBitDefs BitmapDefs NumDefs.

Definition TS_IGNORECASE : Z := 2.
Definition UINT_MAX : Z := 2 ^ 32 - 1.

Definition islower (c : Z) : bool := negb (Z.land (__ismask c) _L =? 0).
Definition __toupper (c : Z) : Z := if islower c then u8 (c - 32) else c.
(** [icase ? toupper(c) : c] *)
Definition fold_case (flags c : Z) : Z := if negb (Z.land flags TS_IGNORECASE =? 0) then __toupper c else c.

Record ts_kmp := mkKmp { pattern : list Z; prefix_tbl : list nat }.
Definition pattern_len (kmp : ts_kmp) : nat := length (pattern kmp).

(** [while (q > 0 && pattern[q] != c) q = prefix_tbl[q - 1];] *)
Definition fail_step (rd : nat -> res Z) (tbl : list nat) (c : Z) (q : nat) : res (nat + nat) :=
  if (q =? 0)%nat then Ok (inr q)
  else
    x ← rd q;
    if negb (x =? c) then t ← aget tbl (q - 1); Ok (inl t) else Ok (inr q).

(** The loop and [if (pattern[q] == c) q++;] *)
Definition advance (rd : nat -> res Z) (tbl : list nat) (c : Z) (q : nat) : res nat :=
  q ← loop (S q) (fail_step rd tbl c) q;
  x ← rd q;
  Ok (if x =? c then S q else q).

Definition prefix_step (pattern : list Z) (flags : Z) (x : nat * nat * list nat) : res (nat * nat * list nat + list nat) :=
  let '(k, q, tbl) := x in
  if (q <? length pattern)%nat then
    c ← aget pattern q;
    k ← advance (fun i => fold_case flags <$> aget pattern i) tbl (fold_case flags c) k;
    tbl ← aset tbl q k;
    Ok (inl (k, S q, tbl))
  else Ok (inr tbl).
Definition compute_prefix_tbl (pattern : list Z) (tbl : list nat) (flags : Z) : res (list nat) :=
  loop (S (length pattern)) (prefix_step pattern flags) (0%nat, 1%nat, tbl).

(** The memory for the configuration is zeroed; [None] is [-ENOMEM].  The size of
    the table in bytes is an [unsigned int]: where it wraps around, the memory
    is shorter than the table and [compute_prefix_tbl] writes behind it. *)
Definition kmp_init (alloc : bool) (pat : list Z) (flags : Z) : res (option ts_kmp) :=
  if alloc then
    if u32 (Z.of_nat (length pat) * 4) =? Z.of_nat (length pat) * 4 then
      tbl ← compute_prefix_tbl pat (replicate (length pat) 0%nat) flags;
      Ok (Some (mkKmp (if negb (Z.land flags TS_IGNORECASE =? 0) then __toupper <$> pat else pat) tbl))
    else Fault
  else Ok None.

(** [for (i = 0; i < text_len; i++)]: the new [q], or the [i] where a match ends. *)
Fixpoint kmp_block (kmp : ts_kmp) (flags : Z) (text : list Z) (i q : nat) : res (nat + nat) :=
  match text with
  | [] => Ok (inl q)
  | c :: text =>
    q ← advance (aget (pattern kmp)) (prefix_tbl kmp) (fold_case flags c) q;
    if (q =? pattern_len kmp)%nat then Ok (inr i) else kmp_block kmp flags text (S i) q
  end.

(** The result, and [state->offset]. *)
Definition kmp_step (kmp : ts_kmp) (flags : Z) (get_next_block : Z -> list Z) (offset : Z) (x : nat * Z) : res (nat * Z + Z * Z) :=
  let '(q, consumed) := x in
  match get_next_block consumed with
  | [] => Ok (inr (UINT_MAX, offset))
  | text =>
    r ← kmp_block kmp flags text 0 q;
    Ok (match r with
        | inr i => let offset := consumed ⊞ Z.of_nat i ⊞ 1 in inr (offset ⊟ Z.of_nat (pattern_len kmp), offset)
        | inl q => inl (q, consumed ⊞ Z.of_nat (length text))
        end)
  end.
Definition kmp_find (fuel : nat) (kmp : ts_kmp) (flags : Z) (get_next_block : Z -> list Z) (offset : Z) : res (Z * Z) :=
  loop fuel (kmp_step kmp flags get_next_block offset) (0%nat, offset).

(** [struct ts_linear_state] has the text. *)
Definition get_linear_data (data : list Z) (consumed : Z) : list Z :=
  if consumed <? Z.of_nat (length data) then drop (Z.to_nat consumed) data else [].

(** [conf->finish], where it is set, has no part in the result. *)
Definition textsearch_next (fuel : nat) (kmp : ts_kmp) (flags : Z) (get_next_block : Z -> list Z) (offset : Z) : res (Z * Z) :=
  kmp_find fuel kmp flags get_next_block offset.
Definition textsearch_find (fuel : nat) (kmp : ts_kmp) (flags : Z) (get_next_block : Z -> list Z) : res (Z * Z) :=
  textsearch_next fuel kmp flags get_next_block 0.
(** Every block but the last is not empty. *)
Definition textsearch_find_continuous (kmp : ts_kmp) (flags : Z) (data : list Z) : res (Z * Z) :=
  textsearch_find (S (length data)) kmp flags (get_linear_data data).

(** What the algorithms expect of [get_next_block]: it cuts the text [T] into
    pieces. *)
Class Blocks (T : list Z) (get_next_block : Z -> list Z) : Prop := {
  block_prefix n : (n <= length T)%nat -> get_next_block (Z.of_nat n) `prefix_of` drop n T;
  block_more n : (n < length T)%nat -> get_next_block (Z.of_nat n) <> [] }.

#[global] Instance linear_blocks T : Blocks T (get_linear_data T).
Proof.
  split; intros n Hn; unfold get_linear_data; rewrite Nat2Z.id.
  - destruct (Z.ltb_spec (Z.of_nat n) (Z.of_nat (length T))); [done|]. apply prefix_nil.
  - rewrite (proj2 (Z.ltb_lt _ _)) by lia. intros Hd. apply (f_equal length) in Hd. rewrite length_drop in Hd. cbn in Hd. lia.
Qed.

(** ** Prefixes of the pattern at the end of a text *)

Lemma suffix_of_both {A} (x y u : list A) : x `suffix_of` u -> y `suffix_of` u -> (length x <= length y)%nat -> x `suffix_of` y.
Proof.
  intros [a ->] [b Hb] Hlen. assert (length b <= length a)%nat by (apply (f_equal length) in Hb; rewrite !length_app in Hb; lia).
  exists (drop (length b) a). assert (Hd : drop (length b) (a ++ x) = drop (length b) (b ++ y)) by (by rewrite Hb). rewrite drop_app_length in Hd. rewrite <- Hd, drop_app_le by done. done.
Qed.

Section kmp.
Context (P : list Z).

(** The first [k] characters of the pattern end the text [u]. *)
Definition ends (k : nat) (u : list Z) : Prop := (k <= length P)%nat /\ take k P `suffix_of` u.
Definition longest (k : nat) (u : list Z) : Prop := ends k u /\ forall j, ends j u -> (j <= k)%nat.

Lemma ends_0 u : ends 0 u.
Proof. split; [lia|]. apply suffix_nil. Qed.

Lemma ends_length k u : ends k u -> (k <= length u)%nat.
Proof. intros [Hk Hs]. apply suffix_length in Hs. rewrite length_take in Hs. lia. Qed.

Lemma ends_snoc k u c : ends (S k) (u ++ [c]) <-> ends k u /\ P !! k = Some c.
Proof.
  unfold ends. split.
  - intros [Hk Hs]. destruct (lookup_lt_is_Some_2 P k ltac:(lia)) as [x Hx]. rewrite (take_S_r P k x Hx) in Hs. apply suffix_snoc_inv_1 in Hs as Hxc. apply suffix_snoc_inv_2 in Hs. subst x. split; [split; [lia|done]|done].
  - intros [[Hk Hs] Hx]. rewrite (take_S_r P k c Hx). apply lookup_lt_Some in Hx. split; [lia|]. by apply suffix_snoc.
Qed.

(** Shorter ends are ends of the longer one. *)
Lemma ends_shorter k q u : ends q u -> (k < q)%nat -> ends k u <-> ends k (tail (take q P)).
Proof.
  intros [Hq Hqs] Hlt. assert (Ht : tail (take q P) `suffix_of` take q P) by (destruct (take q P) as [|x w]; [done|]; by exists [x]). assert (Hlen : length (tail (take q P)) = (q - 1)%nat).
  { transitivity (length (take q P) - 1)%nat; [by destruct (take q P) as [|x w]; cbn; [|lia]|]. rewrite length_take. lia. }
  split; intros [Hk Hks]; split; try done.
  - apply (suffix_of_both _ _ (take q P)); [|done|rewrite length_take; lia]. apply (suffix_of_both _ _ u); [done|done|rewrite !length_take; lia].
  - etrans; [exact Hks|]. etrans; [exact Ht|done].
Qed.

(** The first [n] entries of the table. *)
Definition table_ok (n : nat) (tbl : list nat) : Prop := forall j, (0 < j <= n)%nat -> exists t, tbl !! (j - 1)%nat = Some t /\ longest t (tail (take j P)).

Section advance.
Context (rd : nat -> res Z) (tbl : list nat) (u : list Z) (c : Z).
Hypothesis Hrd : forall i x, P !! i = Some x -> rd i = Ok x.

Lemma fail_ok n : forall q fuel, table_ok q tbl -> ends q u -> (q < length P)%nat -> (forall j, ends j u -> P !! j = Some c -> (j <= q)%nat) -> (q <= n)%nat -> (n < fuel)%nat ->
  exists q', loop fuel (fail_step rd tbl c) q = Ok q' /\ ends q' u /\ (q' < length P)%nat /\ (q' = 0%nat \/ P !! q' = Some c) /\ forall j, ends j u -> P !! j = Some c -> (j <= q')%nat.
Proof using Hrd.
  induction n as [|n IH]; intros q fuel Htbl Hq Hlt Hmax Hn Hf; (destruct fuel as [|fuel]; [lia|]); cbn [loop]; unfold fail_step at 1.
  - assert (q = 0%nat) as -> by lia. cbn. exists 0%nat. split_and!; try done. by left.
  - destruct (Nat.eqb_spec q 0) as [->|Hq0]; [exists 0%nat; split_and!; try done; by left|]. destruct (lookup_lt_is_Some_2 P q Hlt) as [x Hx]. rewrite (Hrd q x Hx). cbn [mbind res_bind]. destruct (Z.eqb_spec x c) as [->|Hne]; cbn [negb].
    + exists q. split_and!; try done. by right.
    + destruct (Htbl q ltac:(lia)) as (t & Ht & Hlong). unfold aget. rewrite Ht. cbn [mbind res_bind]. pose proof Hlong as [Hte Htm]. pose proof (ends_length _ _ Hte) as Htl.
      assert (Htq : (t < q)%nat) by (assert (length (tail (take q P)) = length (take q P) - 1)%nat as Hl by (destruct (take q P); cbn; lia); rewrite Hl, length_take in Htl; lia).
      apply IH; [intros j Hj; apply Htbl; lia|by apply (ends_shorter t q u Hq Htq)|lia| |lia|lia]. intros j Hj Hjc. assert (j <> q) by (intros ->; congruence). specialize (Hmax j Hj Hjc). apply Htm, (ends_shorter j q u Hq); [lia|done].
Qed.

Lemma advance_ok q : table_ok q tbl -> longest q u -> (q < length P)%nat -> exists q', advance rd tbl c q = Ok q' /\ longest q' (u ++ [c]).
Proof using Hrd.
  intros Htbl [Hq Hmax] Hlt. destruct (fail_ok q q (S q) Htbl Hq Hlt (fun j Hj _ => Hmax j Hj) ltac:(lia) ltac:(lia)) as (q' & Hl & Hq' & Hlt' & Hor & Hmax'). unfold advance. rewrite Hl. cbn [mbind res_bind].
  destruct (lookup_lt_is_Some_2 P q' Hlt') as [x Hx]. rewrite (Hrd q' x Hx). cbn [mbind res_bind]. destruct (Z.eqb_spec x c) as [->|Hne].
  - exists (S q'). split; [done|]. split; [by apply ends_snoc|]. intros [|j] Hj; [lia|]. apply ends_snoc in Hj as [Hj Hjc]. specialize (Hmax' j Hj Hjc). lia.
  - destruct Hor as [->|?]; [|congruence]. exists 0%nat. split; [done|]. split; [apply ends_0|]. intros [|j] Hj; [lia|]. apply ends_snoc in Hj as [Hj Hjc]. specialize (Hmax' j Hj Hjc). assert (j = 0%nat) as -> by lia. congruence.
Qed.
End advance.
End kmp.


Lemma tail_take_S {A} (l : list A) q x : (0 < q)%nat -> l !! q = Some x -> tail (take (S q) l) = tail (take q l) ++ [x].
Proof. intros Hq Hx. rewrite (take_S_r l q x Hx). destruct q as [|q]; [lia|]. by destruct l as [|y l]. Qed.

Lemma longest_empty P : longest P 0 [].
Proof. split; [apply ends_0|]. intros j Hj. by apply ends_length in Hj. Qed.

(** ** The table of prefixes *)
Section prefix.
Context (pat : list Z) (flags : Z).
Abbreviation P := (fold_case flags <$> pat).

Definition prefix_inv (x : nat * nat * list nat) : Prop :=
  let '(k, q, tbl) := x in (0 < q <= length pat)%nat /\ length tbl = length pat /\ table_ok P q tbl /\ longest P k (tail (take q P)).

Lemma table_ok_snoc q tbl k : (q < length tbl)%nat -> table_ok P q tbl -> longest P k (tail (take (S q) P)) -> table_ok P (S q) (<[q:=k]> tbl).
Proof.
  intros Hq Htbl Hk j Hj. destruct (decide (j = S q)) as [->|Hne].
  - exists k. replace (S q - 1)%nat with q by lia. by rewrite list_lookup_insert_eq.
  - rewrite list_lookup_insert_ne by lia. apply Htbl. lia.
Qed.

Lemma prefix_step_ok k q tbl : prefix_inv (k, q, tbl) -> (q < length pat)%nat ->
  exists k' tbl', prefix_step pat flags (k, q, tbl) = Ok (inl (k', S q, tbl')) /\ prefix_inv (k', S q, tbl').
Proof.
  intros (Hq & Hlen & Htbl & Hk) Hlt. unfold prefix_step. rewrite (proj2 (Nat.ltb_lt _ _) Hlt). destruct (lookup_lt_is_Some_2 pat q Hlt) as [c Hc]. rewrite (aget_ok _ _ _ Hc). cbn [mbind res_bind].
  assert (Hkq : (k < q)%nat) by (pose proof (ends_length _ _ _ (proj1 Hk)) as Hl; assert (length (tail (take q P)) = length (take q P) - 1)%nat as Hl2 by (destruct (take q P); cbn; lia); rewrite Hl2, length_take in Hl; lia).
  assert (HPq : P !! q = Some (fold_case flags c)) by (by rewrite list_lookup_fmap, Hc).
  destruct (advance_ok P (fun i => fold_case flags <$> aget pat i) tbl (tail (take q P)) (fold_case flags c)) with (q := k) as (k' & -> & Hk'); [| |exact Hk| |].
  - intros i x Hi. rewrite list_lookup_fmap in Hi. destruct (pat !! i) as [y|] eqn:Hy; [|done]. rewrite (aget_ok _ _ _ Hy). cbn in Hi |- *. by injection Hi as ->.
  - intros j Hj. apply Htbl. lia.
  - rewrite length_fmap. lia.
  - cbn [mbind res_bind]. rewrite aset_ok by lia. cbn [mbind res_bind]. rewrite <- (tail_take_S P q _ ltac:(lia) HPq) in Hk'. exists k', (<[q:=k']> tbl). split; [done|]. split_and!; [lia|lia|by rewrite length_insert| |done]. apply table_ok_snoc; [lia|done|done].
Qed.

Lemma compute_prefix_tbl_ok tbl : (0 < length pat)%nat -> length tbl = length pat -> tbl !! 0%nat = Some 0%nat ->
  exists tbl', compute_prefix_tbl pat tbl flags = Ok tbl' /\ table_ok P (length P) tbl'.
Proof.
  intros Hp Hlen H0. apply (loop_total _ prefix_inv _ (fun x => length pat - x.1.2)%nat).
  - intros [[k q] tbl1] Hi. destruct (decide (q < length pat)%nat) as [Hlt|Hge].
    + left. destruct (prefix_step_ok k q tbl1 Hi Hlt) as (k' & tbl' & -> & Hi'). exists (k', S q, tbl'). split; [done|]. split; [exact Hi'|cbn; lia].
    + right. destruct Hi as (Hq & _ & Htbl & _). exists tbl1. unfold prefix_step. rewrite (proj2 (Nat.ltb_ge _ _)) by lia. split; [done|]. rewrite length_fmap. by replace (length pat) with q by lia.
  - assert (Htail : tail (take 1 P) = []) by (by destruct pat). split_and!; [lia|lia|done| |rewrite Htail; apply longest_empty].
    intros j Hj. assert (j = 1%nat) as -> by lia. exists 0%nat. rewrite Htail. split; [done|apply longest_empty].
  - cbn. lia.
Qed.
End prefix.

(** ** The search *)

(** The pattern [P] occurs at [p] in [T]. *)
Definition occurs_at (P : list Z) (p : nat) (T : list Z) : Prop := take (length P) (drop p T) = P.

(** The result of a search from [off] on: the first match and the offset behind
    it, or [UINT_MAX] and the old offset. *)
Definition first_match (P T : list Z) (off : nat) (r : Z * Z) : Prop :=
  (exists p, (off <= p)%nat /\ occurs_at P p T /\ (forall p', (off <= p' < p)%nat -> ~ occurs_at P p' T) /\ r = (Z.of_nat p, Z.of_nat (p + length P))) \/
  ((forall p, (off <= p)%nat -> ~ occurs_at P p T) /\ r = (UINT_MAX, Z.of_nat off)).

Lemma ends_occurs P off m T : (off <= m <= length T)%nat ->
  ends P (length P) (drop off (take m T)) <-> exists p, (off <= p)%nat /\ (p + length P = m)%nat /\ occurs_at P p T.
Proof.
  intros Hm. unfold ends, occurs_at. rewrite take_ge by done. split.
  - intros [_ [k Hk]]. exists (off + length k)%nat. assert (Hl : (length k + length P = m - off)%nat) by (rewrite <- length_app, <- Hk, length_drop, length_take; lia). split_and!; [lia|lia|].
    rewrite <- drop_drop, <- (take_drop (m - off) (drop off T)), (take_drop_commute T (m - off)%nat off). replace (off + (m - off))%nat with m by lia. rewrite Hk, <- app_assoc, drop_app_length. by rewrite take_app_length.
  - intros (p & Hp & <- & Ho). split; [done|]. rewrite <- take_take_drop, Ho, drop_app_le by (rewrite length_take; lia). by eexists.
Qed.

Section find.
Context (kmp : ts_kmp) (flags : Z).
Abbreviation P := (pattern kmp).
Abbreviation F := (fmap (fold_case flags)).
Hypothesis HP : (0 < length P)%nat.
Hypothesis Htbl : table_ok P (length P) (prefix_tbl kmp).

Definition no_match (u : list Z) (text : list Z) (n : nat) : Prop := forall m, (m <= n)%nat -> ~ ends P (length P) (u ++ F (take m text)).

Lemma longest_short q u : longest P q u -> (q < length P)%nat -> ~ ends P (length P) u.
Proof. intros [_ Hmax] Hq He. specialize (Hmax _ He). lia. Qed.

Lemma no_match_cons u c text n : ~ ends P (length P) u -> no_match (u ++ [fold_case flags c]) text n -> no_match u (c :: text) (S n).
Proof. intros Hu Hn [|m] Hm; cbn; [by rewrite app_nil_r|]. specialize (Hn m ltac:(lia)). by rewrite <- app_assoc in Hn. Qed.

Lemma kmp_block_ok text : forall i q u, longest P q u -> (q < length P)%nat ->
  (exists q', kmp_block kmp flags text i q = Ok (inl q') /\ longest P q' (u ++ F text) /\ (q' < length P)%nat /\ no_match u text (length text)) \/
  (exists n, kmp_block kmp flags text i q = Ok (inr (i + n)%nat) /\ (n < length text)%nat /\ ends P (length P) (u ++ F (take (S n) text)) /\ no_match u text n).
Proof using HP Htbl.
  induction text as [|c text IH]; intros i q u Hq Hlt; cbn [kmp_block].
  - left. exists q. cbn. rewrite app_nil_r. split_and!; [done|done|done|]. intros m Hm. rewrite take_nil. cbn. rewrite app_nil_r. by eapply longest_short.
  - destruct (advance_ok P (aget P) (prefix_tbl kmp) u (fold_case flags c)) with (q := q) as (q1 & -> & Hq1); [intros; by apply aget_ok|intros j Hj; apply Htbl; lia|done|done|].
    cbn [mbind res_bind]. unfold pattern_len. destruct (Nat.eqb_spec q1 (length P)) as [->|Hne].
    + right. exists 0%nat. rewrite Nat.add_0_r. split_and!; [done|cbn; lia|exact (proj1 Hq1)|]. intros m Hm. assert (m = 0%nat) as -> by lia. cbn. rewrite app_nil_r. by eapply longest_short.
    + assert (q1 < length P)%nat by (destruct Hq1 as [[? _] _]; lia). destruct (IH (S i) q1 _ Hq1) as [(q' & -> & Hq' & Hlt' & Hno)|(n & -> & Hn & He & Hno)]; [done|left|right].
      * exists q'. rewrite <- app_assoc in Hq'. split_and!; [done|done|done|]. apply no_match_cons; [by eapply longest_short|done].
      * exists (S n). rewrite <- app_assoc in He. split_and!; [do 2 f_equal; lia|cbn; lia|done|]. apply no_match_cons; [by eapply longest_short|done].
Qed.

Section blocks.
Context (T : list Z) (get_next_block : Z -> list Z) `{!Blocks T get_next_block} (off : nat).
Hypothesis HT : Z.of_nat (length T) < UINT_MAX.
Hypothesis Hoff : (off <= length T)%nat.

(** The text that was read, between [off] and [m]. *)
Definition seen (m : nat) : list Z := drop off (take m (F T)).
Definition kmp_inv (x : nat * Z) : Prop :=
  exists n, x.2 = Z.of_nat n /\ (off <= n <= length T)%nat /\ longest P x.1 (seen n) /\ (x.1 < length P)%nat /\
    forall m, (off <= m <= n)%nat -> ~ ends P (length P) (seen m).
Abbreviation found := (first_match P (F T) off).

Lemma seen_app n m b : (off <= n <= length T)%nat -> b `prefix_of` drop n T -> (m <= length b)%nat -> seen n ++ F (take m b) = seen (n + m).
Proof.
  intros Hn [b' Hb] Hm. unfold seen. rewrite <- take_take_drop, drop_app_le by (rewrite length_take, length_fmap; lia). f_equal. rewrite fmap_take, <- fmap_drop, Hb, fmap_app, take_app_le by (by rewrite length_fmap). done.
Qed.

Lemma occurs_length p : occurs_at P p (F T) -> (p + length P <= length T)%nat.
Proof using All. unfold occurs_at. intros Ho. apply (f_equal length) in Ho. rewrite length_take, length_drop, length_fmap in Ho. lia. Qed.

Lemma no_match_seen n b k : (off <= n <= length T)%nat -> b `prefix_of` drop n T -> (k <= length b)%nat -> no_match (seen n) b k ->
  (forall m, (off <= m <= n)%nat -> ~ ends P (length P) (seen m)) -> forall m, (off <= m <= n + k)%nat -> ~ ends P (length P) (seen m).
Proof.
  intros Hn Hb Hk Hno Hold m Hm. destruct (decide (m <= n)%nat); [apply Hold; lia|]. specialize (Hno (m - n)%nat ltac:(lia)). rewrite (seen_app n (m - n) b Hn Hb) in Hno by lia. by replace (n + (m - n))%nat with m in Hno by lia.
Qed.

Lemma found_none : (forall m, (off <= m <= length T)%nat -> ~ ends P (length P) (seen m)) -> found (UINT_MAX, Z.of_nat off).
Proof using All.
  intros Hno. right. split; [|done]. intros p Hp Ho. pose proof (occurs_length p Ho). apply (Hno (p + length P)%nat); [lia|]. apply ends_occurs; [rewrite length_fmap; lia|]. by exists p.
Qed.

Lemma found_some e : (off <= e < length T)%nat -> ends P (length P) (seen (S e)) -> (forall m, (off <= m <= e)%nat -> ~ ends P (length P) (seen m)) ->
  found ((Z.of_nat e ⊞ 1) ⊟ Z.of_nat (pattern_len kmp), Z.of_nat e ⊞ 1)%cint.
Proof using All.
  intros He Hend Hno. apply ends_occurs in Hend as (p & Hp & Hpe & Ho); [|rewrite length_fmap; lia]. left. exists p. unfold UINT_MAX in HT. split_and!; [done|done| |].
  - intros p' Hp' Ho'. apply (Hno (p' + length P)%nat); [lia|]. apply ends_occurs; [rewrite length_fmap; lia|]. exists p'. split_and!; [lia|done|done].
  - unfold add32, sub32, u32, pattern_len. rewrite (Z.mod_small (Z.of_nat e + 1)) by lia. rewrite Z.mod_small by lia. f_equal; lia.
Qed.

Lemma kmp_step_ok x : kmp_inv x ->
  (exists x', kmp_step kmp flags get_next_block (Z.of_nat off) x = Ok (inl x') /\ kmp_inv x' /\ (length T - Z.to_nat x'.2 < length T - Z.to_nat x.2)%nat) \/
  (exists r, kmp_step kmp flags get_next_block (Z.of_nat off) x = Ok (inr r) /\ found r).
Proof using All.
  destruct x as [q consumed]. intros (n & Hc & Hn & Hq & Hlt & Hno). cbn [fst snd] in *. subst consumed. unfold kmp_step.
  pose proof (block_prefix n (proj2 Hn)) as Hb. pose proof (prefix_length _ _ Hb) as Hbl. rewrite length_drop in Hbl. unfold UINT_MAX in HT.
  destruct (get_next_block (Z.of_nat n)) as [|c b] eqn:Hg.
  - right. eexists. split; [done|]. apply found_none. assert (n = length T) as -> by (destruct (decide (n < length T)%nat) as [Hl|]; [by destruct (block_more n Hl)|lia]). done.
  - destruct (kmp_block_ok (c :: b) 0 q (seen n) Hq Hlt) as [(q' & -> & Hq' & Hlt' & Hnm)|(i & -> & Hi & He & Hnm)]; cbn [mbind res_bind].
    + left. eexists. split; [done|]. assert (Hsum : (Z.of_nat n ⊞ Z.of_nat (length (c :: b)) = Z.of_nat (n + length (c :: b)))%cint) by (unfold add32, u32; rewrite Z.mod_small by lia; lia). rewrite Hsum. split; [|cbn [fst snd length] in *; lia].
      exists (n + length (c :: b))%nat. cbn [fst snd]. split_and!; [done|lia|lia| |done|].
      * rewrite <- (seen_app n (length (c :: b)) (c :: b) Hn Hb), firstn_all by done. done.
      * by apply (no_match_seen n (c :: b)).
    + right. eexists. split; [done|]. assert (Hsum : (Z.of_nat n ⊞ Z.of_nat (0 + i) = Z.of_nat (n + i))%cint) by (unfold add32, u32; rewrite Z.mod_small by lia; lia). rewrite Hsum. apply found_some; [lia| |].
      * rewrite <- Nat.add_succ_r. rewrite <- (seen_app n (S i) (c :: b) Hn Hb) by lia. done.
      * apply (no_match_seen n (c :: b)); [done|done|lia|done|done].
Qed.

Lemma kmp_find_ok fuel : (length T < fuel)%nat -> exists r, kmp_find fuel kmp flags get_next_block (Z.of_nat off) = Ok r /\ found r.
Proof using All.
  intros Hf. apply (loop_total _ kmp_inv found (fun x => length T - Z.to_nat x.2)%nat).
  - apply kmp_step_ok.
  - exists off. unfold seen. cbn [fst snd]. assert (Hs : drop off (take off (F T)) = []) by (apply length_zero_iff_nil; rewrite length_drop, length_take; lia). split_and!; [done|done|done| |done|].
    + rewrite Hs. apply longest_empty.
    + intros m Hm. assert (m = off) as -> by lia. rewrite Hs. eapply longest_short; [apply longest_empty|done].
  - cbn. lia.
Qed.
End blocks.
End find.

Lemma kmp_init_ok pat flags : (0 < length pat)%nat -> Z.of_nat (length pat) < 2 ^ 30 ->
  exists kmp, kmp_init true pat flags = Ok (Some kmp) /\ pattern kmp = fold_case flags <$> pat /\ table_ok (pattern kmp) (length (pattern kmp)) (prefix_tbl kmp).
Proof.
  intros Hp Hlen. unfold kmp_init. unfold u32. rewrite Z.mod_small, Z.eqb_refl by lia.
  destruct (compute_prefix_tbl_ok pat flags (replicate (length pat) 0%nat)) as (tbl & -> & Htbl); [done|by rewrite length_replicate|by apply lookup_replicate_2|]. cbn [mbind res_bind]. eexists. split; [done|]. cbn [pattern prefix_tbl].
  assert (HF : (if negb (Z.land flags TS_IGNORECASE =? 0) then __toupper <$> pat else pat) = fold_case flags <$> pat).
  { unfold fold_case. case_match; [done|]. symmetry. apply list_fmap_id. }
  rewrite HF. done.
Qed.

(** C21. A configuration made by [kmp_init] for a pattern that is not empty and
    shorter than 2^30 bytes finds, in a text that [get_next_block] delivers in
    pieces of any size and from any offset in it, the first occurrence of the
    pattern at or behind the offset, with letters compared without regard to
    case if the flags say so; the offset moves behind the match.  Where there
    is none it returns [UINT_MAX] and leaves the offset.  A call for every byte
    and one more are enough. *)
Theorem kmp_search_correct (pat T : list Z) (flags : Z) (get_next_block : Z -> list Z) (off fuel : nat) :
  Blocks T get_next_block -> (0 < length pat)%nat -> Z.of_nat (length pat) < 2 ^ 30 -> Z.of_nat (length T) < UINT_MAX -> (off <= length T < fuel)%nat ->
  exists kmp r, kmp_init true pat flags = Ok (Some kmp) /\ kmp_find fuel kmp flags get_next_block (Z.of_nat off) = Ok r /\
    first_match (fold_case flags <$> pat) (fold_case flags <$> T) off r.
Proof.
  intros HB Hp Hlen HT Hoff. destruct (kmp_init_ok pat flags Hp Hlen) as (kmp & Hinit & Hpat & Htbl).
  destruct (kmp_find_ok kmp flags) with (T := T) (get_next_block := get_next_block) (off := off) (fuel := fuel) as (r & Hr & Hm); [by rewrite Hpat, length_fmap|done|done|done|lia|lia|].
  exists kmp, r. rewrite Hpat in Hm. done.
Qed.

(** "abac" in "xABAbAC", which comes in two pieces, without regard to case. *)
Definition text_xababac : list Z := [120; 65; 66; 65; 98; 65; 67].
Definition two_pieces (consumed : Z) : list Z := if consumed <? 4 then take (4 - Z.to_nat consumed) (drop (Z.to_nat consumed) text_xababac) else drop (Z.to_nat consumed) text_xababac.

Lemma two_pieces_blocks : Blocks text_xababac two_pieces.
Proof.
  split; intros n Hn; unfold two_pieces.
  - rewrite Nat2Z.id. destruct (Z.of_nat n <? 4); [apply prefix_take|done].
  - assert (Hcases : Forall (fun k => two_pieces (Z.of_nat k) <> []) (seq 0 7)) by (repeat constructor; by vm_compute). rewrite Forall_forall in Hcases. apply (Hcases n), elem_of_seq. change (length text_xababac) with 7%nat in Hn. lia.
Qed.

Lemma kmp_search_witness : exists kmp r, kmp_init true [97; 98; 97; 99] TS_IGNORECASE = Ok (Some kmp) /\ kmp_find 8 kmp TS_IGNORECASE two_pieces (Z.of_nat 0) = Ok r /\
    first_match (fold_case TS_IGNORECASE <$> [97; 98; 97; 99]) (fold_case TS_IGNORECASE <$> text_xababac) 0 r.
Proof. apply (kmp_search_correct [97; 98; 97; 99] text_xababac TS_IGNORECASE two_pieces 0 8); [exact two_pieces_blocks|cbn; lia|cbn; lia|reflexivity|cbn; lia]. Defined.

Example kmp_search_result : exists kmp, kmp_init true [97; 98; 97; 99] TS_IGNORECASE = Ok (Some kmp) /\ prefix_tbl kmp = [0; 0; 1; 0]%nat /\ kmp_find 8 kmp TS_IGNORECASE two_pieces 0 = Ok (3, 7).
Proof. eexists. split; [reflexivity|]. split; vm_compute; reflexivity. Qed.

(** The search in a text in one piece. *)
Theorem textsearch_find_continuous_correct pat data flags :
  (0 < length pat)%nat -> Z.of_nat (length pat) < 2 ^ 30 -> Z.of_nat (length data) < UINT_MAX ->
  exists kmp r, kmp_init true pat flags = Ok (Some kmp) /\ textsearch_find_continuous kmp flags data = Ok r /\ first_match (fold_case flags <$> pat) (fold_case flags <$> data) 0 r.
Proof.
  intros Hp Hlen HT. destruct (kmp_init_ok pat flags Hp Hlen) as (kmp & Hinit & Hpat & Htbl).
  destruct (kmp_find_ok kmp flags) with (T := data) (get_next_block := get_linear_data data) (off := 0%nat) (fuel := S (length data)) as (r & Hr & Hm); [by rewrite Hpat, length_fmap|done|apply _|done|lia|lia|].
  exists kmp, r. rewrite Hpat in Hm. done.
Qed.

(** A pattern of 2^30 bytes: the size of the table is not what is allocated. *)
Lemma kmp_init_overflow pat flags : Z.of_nat (length pat) = 2 ^ 30 -> kmp_init true pat flags = Fault.
Proof. intros Hl. unfold kmp_init. by rewrite Hl. Qed.
